(* ===== verification/_CoqProject ===== *)
-Q . S2P
Prelude.v
Text.v
Slices.v
Maps.v
Netip.v
DnsAttribution.v
FirstFlight.v
Varint.v
Cell.v
Extension.v
ContinuityWire.v
Auth.v
Stream.v
StreamLink.v
Mux.v
Record.v
Datagram.v
Negotiation.v
Journal.v
Tickets.v
Flows.v
Controller.v
Scheduler.v
Hub.v
Control.v
Usage.v
Cluster.v
Socks.v
Target.v
DeferredConn.v
ClusterRelay.v
UdpRecord.v
UdpAssociation.v
UdpRelay.v
ProxyServer.v
ProxyClient.v
TargetRelay.v
ContinuityRuntime.v
SessionRouter.v
ResourceLimits.v
ClientCore.v
Resumable.v
ResumableInv.v
ResumableProps.v
ContinuityRouter.v
CarrierPool.v
MobileController.v
MobileStats.v
Geodata.v
CarrierChoice.v
