(* ===== verification/Prelude.v ===== *)
(** * A verification of the NP/2 server and client core (Go, internal/...)

    NP/2 tunnels streams and datagrams over an authenticated session, keeps a
    logical flow alive across carriers (continuity, constellations), and runs a
    client lifecycle and a server with accounts.  This library translates the Go
    code of that core into Rocq, a file per component, and proves what makes
    each component correct.  A definition has the name of the Go function or
    type it translates (with a prefix or an [_section] suffix where one Go
    function has several critical sections); the doc comments give the file.

    ** The parts and how they interact

    Wire formats (internal/protocol):
    - [Varint]: canonical variable-length integers; [Cell]: cells and the
      per-session type map (cell.go); [Extension]: the extension envelopes and
      negotiated parameters (extension.go, extension_parameters.go);
      [ContinuityWire]: continuity frames and the OPEN metadata (continuity.go,
      continuity_open.go); [Auth]: challenge, response, confirm, credentials and
      forward secrecy (auth.go, device.go, forward_secret.go).
    The session (internal/session):
    - [Record]: the encrypting carrier with its key epochs and the forward-secret
      rekey (encrypted_carrier.go); [Stream]: one multiplexed stream (stream.go);
      [StreamLink]: two streams joined by ordered cells; [Mux]: the stream and
      ping tables and the extension queue (session.go, extension.go);
      [Datagram]: the unreliable path and its replay window (datagram_mux.go);
      [Negotiation]: the extension negotiation and the switch to forward-secret
      keys (negotiation.go, authenticated_extensions.go), which uses [Auth],
      [Extension] and [Record].
    Continuity (internal/continuity):
    - [Journal]: the replay ring (journal.go); [Resumable], [ResumableInv],
      [ResumableProps]: the resumable stream over a sequence of physical streams
      (stream.go), its invariant and its executions; [Tickets]: lease tickets
      (ticket.go); [Flows]: the server's flow table (flow.go).
    Constellations (internal/constellation):
    - [Controller], [Scheduler]: the leases of one constellation (controller.go,
      scheduler.go); [Hub]: the constellations of a server (hub.go), which calls
      [Tickets] and [Controller]; [Control]: identities, the admission exchange
      and the control channel (identity.go, control.go, channel.go and
      session/continuity.go), which calls [Hub] and [ContinuityWire].
    Services:
    - [ClientCore]: connect, reconnect and shutdown of a client
      (clientcore/core.go, reconnect.go); [Usage]: sessions, devices and traffic
      of the users (usage/tracker.go).
    The cluster (internal/cluster, internal/clusterrelay):
    - [Cluster]: the state of a cluster and its validation, which route a client
      gets, the signed catalog (model.go, client_route.go, catalog.go,
      geodata.go, credential_sync.go, relay.go); [ClusterRelay]: a request that
      passes from node to node (runtime.go), over a network of [Cluster] states.
    The proxy on the server (internal/proxy) and the local one (internal/socks5):
    - [Target]: targets, the address policy, the open requests (target.go,
      open_request.go); [ResourceLimits]: sessions, flows and token buckets per
      user (resource_limits.go); [ProxyServer]: what becomes of an incoming
      stream (proxy.go, udp_server.go), over both; [ProxyClient]: the client's
      side of it; [UdpRecord], [UdpAssociation]: the records of UDP over a stream
      and over datagrams (udp_record.go, udp_association.go); [UdpRelay]: the
      relay between an association and its targets (udp_server.go);
      [TargetRelay]: the goroutines of a relay to an open target (relay.go);
      [ContinuityRuntime]: the logical flows of the server as goroutines
      (continuity.go), over [Flows] and [Control], each with a [TargetRelay]; [Socks]: the SOCKS server
      (server.go, udp.go).
    The tunnel on the client (internal/tunstack):
    - [DnsAttribution]: which domain an address was resolved for
      (dns_attribution.go); [FirstFlight]: the server name in the first bytes of
      a connection (first_flight.go); [DeferredConn]: the connection that waits
      for it (deferred_conn.go, dialer.go), which uses both and [Target];
      [SessionRouter]: the pool of sessions (session_router.go);
      [ContinuityRouter]: the logical flows of the client as goroutines
      (continuity_router.go), over [Scheduler] and [Control].
    The mobile client (mobile/np2mobile):
    - [CarrierPool]: the sessions of a tunnel, their watchers, the pool and
      network changes as goroutines (controller.go), over [SessionRouter] and the
      routes of [ContinuityRouter]; [MobileController]: the calls of the
      application and the monitor of a tunnel; [MobileStats]: its counters.
    The choice of a carrier (internal/app, internal/carrier/hybrid):
    - [CarrierChoice]: the race of the carriers of a client, the preferences it
      remembers (client_race.go) and the sequential selector (selector.go).
    Geodata (internal/geodata):
    - [Geodata]: the databases of prefixes and domains and their search
      (engine.go), whose [Match] is the evaluator that [Cluster] takes.
    Shared: [Text] (strings and strconv on bytes), [Netip] (net/netip), [Slices]
    (index expressions that may panic) and [Maps] (sums over a map).

    ** Conventions

    A Go integer is a [Z] with its wrap-around written out ([u8] ... [u64]); a
    slice of bytes is a [list byte]; a map is a [gmap], or a list where order
    matters; [(value, error)] is [res]; errors are the sentinels of the packages,
    wrapped with [Join] by errors.Join (message texts are not modelled).  A
    method under a mutex is one step.  Where goroutines interleave ([Resumable],
    [ClientCore], [ContinuityRuntime], [ContinuityRouter], [CarrierPool],
    [MobileController]) each critical section and each external call is a step, the
    goroutines have program counters, and the theorems quantify over every
    interleaving.  Shared objects that are compared as pointers are indices into
    a store.  Code outside src/ (HMAC, SHA-256, HKDF, X25519, the AEADs, carriers,
    clocks, entropy, files) is an argument of the definitions that use it, with
    its documented laws as hypotheses where a theorem needs them.

    ** What the theorems show

    - Round trips and canonicity: every codec accepts exactly what it produces
      ([cell_codec_correct], [continuity_codecs_correct]).
    - Agreement: the two sides of the handshake, of the negotiation, of the rekey
      and of the admission end with the same keys, parameters and tickets, and an
      accepted message is authentic ([handshake_agreement],
      [accepted_response_authentic], [negotiation_agreement],
      [forward_secrecy_handover], [admission_agreement], [admission_bound]).
    - Delivery: records and stream bytes arrive in order and unaltered, also
      through the switch of keys, and datagrams at most once, replays are refused
      ([records_in_order], [stream_delivers], [datagrams_delivered_once],
      [replay_window_exact]); the bytes of a logical flow survive a change of
      carrier exactly ([wire_exact], [reads_exact]); honest traffic is refused
      only at the end of the sequence numbers and never deadlocks
      ([honest_cells_accepted], [stream_no_deadlock]).
    - Refinement: the replay ring implements an abstract log, in every
      operation and with its errors ([journal_refines]).
    - Accounting: streams, leases, tickets, flows, carriers, handlers, runtimes
      and sessions are counted and closed exactly once
      ([mux_tables_consistent], [upstreams_closed_once], [leases_accounted],
      [hub_accounts_carriers], [client_core_releases], [sessions_counted]).
    - Policy: what is dialed, granted or relayed is what the policy allows
      ([resolve_allowed], [client_route_authorized], [catalog_verified],
      [socks_relays_exactly], [attribution_sound], [relay_confined]), and
      validation accepts exactly a contract that names no validator
      ([ValidateState_exact]), as the geodata tables and their cache decide what
      the files and the resolver say ([geo_match_exact]).
    - Untrusted input: the parsers never index out of range and are exact
      ([first_flight_safe], [server_name_detected], [open_request_roundtrip]);
      buffers, tables and counters are bounded ([resources_accounted],
      [packet_all_or_nothing], [deferred_exact], [router_pool]).
    - Interleavings: whatever order the critical sections of the goroutines take,
      what is owned is closed or given back, by its owner once
      ([runtime_settled], [router_consistent], [pool_accounts],
      [incoming_settled], [race_settles]), the public state tells the truth
      ([mobile_accounts]), and what is transferred arrives as it was sent ([packets_once], [association_exact], [payload_transferred]).
    - Errors: failed operations undo themselves or stay contained
      ([rotate_atomic], [undelivered_admission_undone],
      [stream_violation_contained]).
    - Termination: shutdown completes in a bounded number of steps
      ([shutdown_terminates], [runtime_quiesces], [pool_closes]); loops of the code
      are structural or have a fuel
      the source gives (attempt limits), and where fuel is chosen a lemma shows
      that it is enough.

    The examples at the end of the files are witnesses, and executions in which
    the code departs from its intent ([replay_can_duplicate],
    [fin_can_overtake_data], [cancelled_open_ends_session],
    [last_sequence_rejected], [connected_without_session],
    [failed_admission_hits_other_user], [own_node_loops], [long_from_edge],
    [reserved_route_name], [dotted_literal_undecodable],
    [underscore_breaks_connection], [unanswered_udp],
    [late_record_ends_association], [aborted_flow_stays], [retry_kills_flow],
    [old_registration_stays], [aborted_open_stays], [dead_primary_unwatched],
    [failed_change_ends_all], [reused_route_removed],
    [stopped_start_leaks], [late_failure_panics], [old_tunnel_cancels_new_start],
    [second_tunnel_ends_first], [mapped_prefix_lost]).

    ** Not modelled, and why

    Network carriers (QUIC, WebSocket, WebRTC), TLS, the TUN network stack, file
    formats read by encoding/json, the operating system services, commands, user
    interfaces and other languages: they are I/O or glue around libraries.
    Cover traffic and traces are statistical.  Timers and contexts only decide
    which step happens next.  The account stores (admin, credentials),
    the configuration (config), the files and the provisioning of a cluster, the
    application servers (app) and the cover engine are left out for their size:
    what they keep is read from and written to files, and their logic is the
    validation of many fields. *)
From Stdlib Require Export Init.Byte Strings.Byte.
From stdpp Require Export prelude gmap list strings.

Open Scope Z_scope.

(** ** Bytes and fixed-width integers *)

(** A Go [byte] is [Byte.byte]; [b2z] is its numeric value, [z2b] the
    conversion [byte(x)], which keeps the low eight bits. *)
Definition b2z (b : byte) : Z := Z.of_N (Byte.to_N b).

Definition z2b (z : Z) : byte :=
  match Byte.of_N (Z.to_N (z mod 256)) with
  | Some b => b
  | None => x00
  end.

#[global] Instance byte_eq_dec : EqDecision byte := Byte.byte_eq_dec.

#[global] Program Instance byte_countable : Countable byte :=
  inj_countable Byte.to_N Byte.of_N _.
Next Obligation. intros b. apply Byte.of_to_N. Qed.

(** Wrap-around of Go's unsigned integers. *)
Definition u8 (z : Z) : Z := z mod 2 ^ 8.
Definition u16 (z : Z) : Z := z mod 2 ^ 16.
Definition u32 (z : Z) : Z := z mod 2 ^ 32.
Definition u64 (z : Z) : Z := z mod 2 ^ 64.
Definition i64 (z : Z) : Z := (z + 2 ^ 63) mod 2 ^ 64 - 2 ^ 63.

(** [time.Second] in nanoseconds. *)
Definition second : Z := 1000000000.

Definition MaxUint64 : Z := 2 ^ 64 - 1.
Definition MaxInt64 : Z := 2 ^ 63 - 1.

(** The values a variable of the Go type can hold. *)
Definition is_u32 (z : Z) : Prop := 0 <= z < 2 ^ 32.
Definition is_u64 (z : Z) : Prop := 0 <= z < 2 ^ 64.

(** [len] of a slice. *)
Definition len {A} (l : list A) : Z := Z.of_nat (length l).

(** [raw[i]] of a slice whose length has been checked. *)
Definition byte_at (raw : list byte) (i : nat) : Z := b2z (nth i raw x00).

(** The Go zero value of a byte array. *)
Definition zeros (n : nat) : list byte := replicate n x00.

(** [x == [n]byte{}] on an array of the array's own length. *)
Definition is_zero (l : list byte) : bool := forallb (fun b => b2z b =? 0) l.

(** [bytes.Equal], [hmac.Equal] and [subtle.ConstantTimeCompare]. *)
Definition bytes_eq (a b : list byte) : bool := bool_decide (a = b).

(** [s[a:b]] of a slice. *)
Definition slice {A} (l : list A) (a b : Z) : list A :=
  take (Z.to_nat (b - a)) (drop (Z.to_nat a) l).

(** [binary.BigEndian.PutUint16/32/64] and the readers: [n] bytes, most
    significant first. *)
Fixpoint be_encode (n : nat) (z : Z) : list byte :=
  match n with
  | O => []
  | S m => z2b (Z.shiftr z (8 * Z.of_nat m)) :: be_encode m z
  end.

Definition be_decode (l : list byte) : Z :=
  fold_left (fun acc b => acc * 256 + b2z b) l 0.

(** ** Errors and results *)

(** The sentinel errors of the modelled packages; [ErrControlExchange] is the
    [ErrContinuityControl] of the constellation package. *)
Inductive sentinel :=
(* protocol *)
| ErrCellTooLarge | ErrInvalidCell | ErrInvalidTypeMap | ErrNonCanonicalVarint
| ErrUnknownCellType | ErrInvalidExtension | ErrUnsupportedExtension
| ErrInvalidContinuity | ErrInvalidContinuityOpen | ErrAuthentication
| ErrChallengeUsed | ErrExpiredChallenge | ErrMalformedMessage
| ErrUnsupportedFeatures | ErrInvalidConfig | ErrForwardSecrecy
(* continuity *)
| ErrReplayConfig | ErrReplayBudget | ErrReplayOffset | ErrReplayClosed
| ErrReplayOverflow | ErrLeaseTicketConfig | ErrLeaseTicketBinding
| ErrLeaseTicketCapacity | ErrLeaseTicketEntropy | ErrLeaseTicketInvalid
| ErrLeaseTicketClosed | ErrFlowRegistryConfig | ErrFlowRegistryClosed
| ErrFlowCapacity | ErrFlowBinding | ErrFlowConflict | ErrFlowNotFound
| ErrFlowEntropy | ErrResumableConfig | ErrResumableClosed | ErrResumableState
(* session *)
| ErrClosed | ErrProtocol | ErrRejected | ErrReset | ErrStreamLimit
| ErrPingLimit | ErrSessionConfig | ErrExtensionNegotiation
| ErrRequiredExtension | ErrRecordAuthentication | ErrRecordSequenceExhausted
| ErrRecordTooLarge | ErrDatagramUnavailable | ErrDatagramTooLarge
| ErrDatagramAssociationExists | ErrDatagramEndpointClosed
| ErrContinuityControl | ErrCarrierLost
(* constellation *)
| ErrSchedulerConfig | ErrNoHealthyLease | ErrContinuityIdentity
| ErrControllerConfig | ErrControllerClosed | ErrLeaseBinding | ErrLeaseDuplicate
| ErrLeaseCapacity | ErrLeaseNotFound | ErrLeaseState | ErrNoActiveLease
| ErrHubConfig | ErrHubClosed | ErrHubCapacity | ErrHubDuplicate | ErrHubBinding
| ErrContinuityCapability | ErrControlExchange | ErrContinuityState
| ErrControlChannelConfig | ErrControlChannelClosed | ErrControlFlowCapacity
| ErrControlFlowDuplicate | ErrControlFlowAborted | ErrControlProtocol
(* client core *)
| ErrInvalidInput | ErrInvalidOptions | ErrCoreClosed | ErrAlreadyActive | ErrNotConnected
| ErrReconnectActive | ErrNoRuntime | ErrUnexpectedCarrier | ErrReconnectExhausted
| ErrSessionEnded | ErrCanceled
(* hybrid carrier, resource limits, proxy targets *)
| ErrSelectorConfig | ErrUnavailable | ErrCarrierKind | ErrInvalidResourceLimits
| ErrInvalidTarget | ErrDestinationDenied | ErrResolution | ErrInvalidUDPRecord
(* cluster, clusterrelay ([ErrRelayConfig] is its [ErrInvalidConfig]), tunstack *)
| ErrInvalidState | ErrClientRouteUnauthorized | ErrInvalidRelay | ErrRelayLoop | ErrRelayHopLimit
| ErrInvalidCatalog | ErrInvalidCatalogSignature | ErrCatalogClusterMismatch | ErrCatalogRollback | ErrCatalogExpired
| ErrInvalidCredentialSync | ErrStateExists | ErrStateNotFound | ErrRevisionConflict
| ErrRelayConfig | ErrRelayUnauthorized | ErrRouteBlocked | ErrPeerUnavailable
| ErrInvalidClientRoutes | ErrClientRouteBlocked
| ErrInvalidMetadata | ErrUDPUnsupported | ErrInvalidStackConfig | ErrCarrierPoolFull
| ErrContinuityRouterConfig | ErrContinuityRouterClosed | ErrContinuityRoute
(* socks5 ([ErrSocksConfig], [ErrSocksProtocol] are its [ErrInvalidConfig], [ErrProtocol]), proxy ([ErrProxyConfig] is its [ErrInvalidConfig]) *)
| ErrUnsafeBind | ErrSocksConfig | ErrSocksProtocol
| ErrProxyConfig | ErrUDPAssociationLimit | ErrResourceLimit
| ErrContinuityRuntimeConfig | ErrContinuityRuntimeClosed | ErrContinuityLeaseBinding
(* usage *)
| ErrUsageConfig | ErrUsageState | ErrUserInactive | ErrDeviceIdentityRequired | ErrDeviceLimit
| ErrDeviceNotFound | ErrDeviceOnline | ErrStateBusy
(* np2mobile ([ErrTunnelNotConnected] is its [ErrNotConnected]), app, geodata *)
| ErrAlreadyRunning | ErrStartTimeout | ErrTunnelNotConnected | ErrTunnelAlreadyStarted | ErrInvalidTunnelFD
| ErrMigrationInProgress | ErrCarrierPoolMismatch | ErrNoAuthenticatedCarrier | ErrInvalidDatabase
(* io, net ([ErrNetClosed] is [net.ErrClosed]) *)
| ErrNotExist | ErrEOF | ErrClosedPipe | ErrNoProgress | ErrShortWrite | ErrUnexpectedEOF | ErrNetClosed.

#[global] Instance sentinel_eq_dec : EqDecision sentinel.
Proof. solve_decision. Defined.

(** A Go [error]: a sentinel, an error of code outside the repository (a
    carrier, a reader), [RejectError], or [errors.Join]. [fmt.Errorf] with one
    [%w] wraps its sentinel; the message text is not modelled. *)
Inductive error :=
| Sentinel (s : sentinel)
| External (n : Z)
| RejectError (code : byte)
| Join (es : list error).

Coercion Sentinel : sentinel >-> error.

(** [errors.Is(err, s)]. *)
Fixpoint errors_is (e : error) (s : sentinel) : bool :=
  match e with
  | Sentinel t => bool_decide (t = s)
  | External _ => false
  | RejectError _ => bool_decide (s = ErrRejected)
  | Join es => existsb (fun e' => errors_is e' s) es
  end.

(** [errors.Join] drops nil errors and is nil when all are. *)
Definition errors_join (es : list (option error)) : option error :=
  match omap id es with [] => None | es => Some (Join es) end.

(** A Go result [(value, error)] of a function that returns a zero value with
    every error. *)
Inductive res (A : Type) :=
| Ok (a : A)
| Err (e : error).
Arguments Ok {A} a.
Arguments Err {A} e.

#[global] Instance res_ret : MRet res := fun A a => Ok a.
#[global] Instance res_bind : MBind res := fun A B f r =>
  match r with Ok a => f a | Err e => Err e end.

(** [if err != nil { return wrap(err) }]. *)
Definition map_err {A} (f : error -> error) (r : res A) : res A :=
  match r with Ok a => Ok a | Err e => Err (f e) end.

Definition is_ok {A} (r : res A) : bool :=
  match r with Ok _ => true | Err _ => false end.

(** The bytes of a Go string literal. *)
Definition bytes_of (s : string) : list byte := String.list_byte_of_string s.

(** ** Interfaces *)

(** A wire codec: [dec] accepts exactly the images under [enc] of the values
    the Go type can hold ([typed]), and recovers the value.  The encoders of
    the repository are partial (they validate), so [enc] returns a result. *)
Class Codec {A} (typed : A -> Prop) (enc : A -> res (list byte))
  (dec : list byte -> res A) : Prop := {
  dec_enc : forall a raw, typed a -> enc a = Ok raw -> dec raw = Ok a;
  enc_dec : forall a raw, dec raw = Ok a -> typed a /\ enc a = Ok raw
}.

(** ** Shared tactics *)

Create HintDb np2 discriminated.
Create Rewrite HintDb np2_len.

Lemma Ok_inj {A} (a b : A) : Ok a = Ok b -> a = b.
Proof. by intros [= ->]. Qed.

(** Splits the boolean and monadic guards of a hypothesis [f x = Ok y]: every
    error branch is discharged, the conditions of the success branch stay. *)
Ltac inv_res_step :=
  match goal with
  | H : Err _ = Ok _ |- _ => discriminate H
  | H : Ok _ = Err _ |- _ => discriminate H
  | H : true = false |- _ => discriminate H
  | H : false = true |- _ => discriminate H
  | H : Ok ?a = Ok ?b |- _ => apply Ok_inj in H; try subst
  | H : (_, _) = (_, _) |- _ => injection H as H; try subst
  | H : Some _ = Some _ |- _ => injection H as H; try subst
  | H : None = Some _ |- _ => discriminate H
  | H : Some _ = None |- _ => discriminate H
  | H : mret _ = _ |- _ => unfold mret, res_ret in H
  | H : mbind _ ?r = Ok _ |- _ =>
      unfold mbind, res_bind in H; let E := fresh "E" in destruct r eqn:E
  | H : map_err _ ?r = Ok _ |- _ =>
      let E := fresh "E" in destruct r eqn:E; cbn [map_err] in H
  | H : (if ?c then _ else _) = _ |- _ => let E := fresh "G" in destruct c eqn:E
  | H : (match ?x with _ => _ end) = _ |- _ =>
      let E := fresh "E" in destruct x eqn:E
  end.
Ltac inv_res := repeat inv_res_step.

(** Closes a goal about boolean guards: [lia] on the numeric ones. *)
Ltac guards := repeat match goal with
  | H : orb _ _ = false |- _ => apply orb_false_iff in H; destruct H
  | H : andb _ _ = true |- _ => apply andb_true_iff in H; destruct H
  | H : negb _ = false |- _ => apply negb_false_iff in H
  | H : negb _ = true |- _ => apply negb_true_iff in H
  end.

(** Turns the integer comparisons among the hypotheses into propositions. *)
Ltac zb := repeat match goal with
  | H : (_ =? _) = true |- _ => apply Z.eqb_eq in H
  | H : (_ =? _) = false |- _ => apply Z.eqb_neq in H
  | H : (_ <? _) = true |- _ => apply Z.ltb_lt in H
  | H : (_ <? _) = false |- _ => apply Z.ltb_ge in H
  | H : (_ <=? _) = true |- _ => apply Z.leb_le in H
  | H : (_ <=? _) = false |- _ => apply Z.leb_gt in H
  end.

(** Decides the integer comparisons of the goal that [lia] can decide. *)
Ltac decide_ifs := repeat match goal with
  | |- context [?a <? ?b] => destruct (Z.ltb_spec a b); try lia
  | |- context [?a <=? ?b] => destruct (Z.leb_spec a b); try lia
  | |- context [?a =? ?b] => destruct (Z.eqb_spec a b); try lia
  end.

(** ** Generic lemmas *)

Lemma b2z_range b : 0 <= b2z b < 256.
Proof. unfold b2z. pose proof (Byte.to_N_bounded b). lia. Qed.

Lemma z2b_b2z b : z2b (b2z b) = b.
Proof.
  unfold z2b. rewrite Z.mod_small by apply b2z_range.
  unfold b2z. by rewrite N2Z.id, Byte.of_to_N.
Qed.

Lemma b2z_z2b z : b2z (z2b z) = z mod 256.
Proof.
  unfold z2b. pose proof (Z.mod_pos_bound z 256 ltac:(lia)).
  destruct (Byte.of_N _) as [b|] eqn:E.
  - apply Byte.to_of_N in E. unfold b2z. lia.
  - apply Byte.of_N_None_iff in E. lia.
Qed.

Lemma b2z_inj a b : b2z a = b2z b -> a = b.
Proof. intros E. by rewrite <- (z2b_b2z a), <- (z2b_b2z b), E. Qed.

Lemma b2z_z2b_small z : 0 <= z < 256 -> b2z (z2b z) = z.
Proof. intros. by rewrite b2z_z2b, Z.mod_small. Qed.

Lemma u64_range z : is_u64 (u64 z).
Proof. apply Z.mod_pos_bound; lia. Qed.

Lemma u64_small z : is_u64 z -> u64 z = z.
Proof. apply Z.mod_small. Qed.

Lemma len_nonneg {A} (l : list A) : 0 <= len l.
Proof. unfold len; lia. Qed.

Lemma len_nil {A} : len (@nil A) = 0.
Proof. done. Qed.

Lemma len_cons {A} (x : A) l : len (x :: l) = 1 + len l.
Proof. unfold len; cbn [length]; lia. Qed.

Lemma len_app {A} (l k : list A) : len (l ++ k) = len l + len k.
Proof. unfold len; rewrite length_app; lia. Qed.

Lemma len_app_le {A} (l k : list A) : len l <= len (l ++ k).
Proof. rewrite len_app. pose proof (len_nonneg k). lia. Qed.

Lemma len_zeros n : len (zeros n) = Z.of_nat n.
Proof. unfold len, zeros. by rewrite length_replicate. Qed.

Lemma len_nat {A} (l : list A) (n : nat) : length l = n -> len l = Z.of_nat n.
Proof. intros <-. done. Qed.

Lemma len_take {A} (n : nat) (l : list A) : len (take n l) = Z.min (Z.of_nat n) (len l).
Proof. unfold len. rewrite length_take. lia. Qed.

Lemma len_drop {A} (n : nat) (l : list A) : len (drop n l) = Z.max 0 (len l - Z.of_nat n).
Proof. unfold len. rewrite length_drop. lia. Qed.

Lemma len_0_nil {A} (l : list A) : len l = 0 -> l = [].
Proof. destruct l; [done|]. rewrite len_cons. pose proof (len_nonneg l). lia. Qed.

#[export] Hint Rewrite @len_nil @len_cons @len_app len_zeros @len_take @len_drop
  @length_take @length_drop @length_app @length_replicate : np2_len.

(** Rewrites the lengths of the goal and closes it with [lia]. *)
Ltac len_lia := autorewrite with np2_len in *; unfold len in *; lia.

Lemma take_app_exact {A} (l k : list A) n : length l = n -> take n (l ++ k) = l.
Proof. intros <-. apply take_app_length. Qed.

Lemma drop_app_exact {A} (l k : list A) n : length l = n -> drop n (l ++ k) = k.
Proof. intros <-. apply drop_app_length. Qed.

Lemma to_nat_len {A} (l : list A) : Z.to_nat (len l) = length l.
Proof. apply Nat2Z.id. Qed.

Lemma take_len_app {A} (l k : list A) : take (Z.to_nat (len l)) (l ++ k) = l.
Proof. unfold len. rewrite Nat2Z.id. apply take_app_length. Qed.

Lemma drop_len_app {A} (l k : list A) : drop (Z.to_nat (len l)) (l ++ k) = k.
Proof. unfold len. rewrite Nat2Z.id. apply drop_app_length. Qed.

Lemma take_drop_split {A} (l : list A) n : l = take n l ++ drop n l.
Proof. symmetry. apply take_drop. Qed.

Lemma nth_cons_0 {A} (x : A) l d : nth 0 (x :: l) d = x.
Proof. done. Qed.

Lemma bytes_eq_true a b : bytes_eq a b = true <-> a = b.
Proof. unfold bytes_eq. apply bool_decide_eq_true. Qed.

Lemma bytes_eq_refl a : bytes_eq a a = true.
Proof. by apply bytes_eq_true. Qed.

Lemma bytes_eq_false a b : bytes_eq a b = false <-> a <> b.
Proof. unfold bytes_eq. apply bool_decide_eq_false. Qed.

Lemma is_zero_true l : is_zero l = true <-> l = zeros (length l).
Proof.
  unfold is_zero, zeros. induction l as [|b l IH]; [done|].
  cbn [forallb length replicate]. rewrite andb_true_iff, IH, Z.eqb_eq. split.
  - intros [Hb ->]. rewrite length_replicate. f_equal. apply b2z_inj, Hb.
  - intros [= -> E]. split; [done|]. rewrite <- E at 1. done.
Qed.

#[export] Hint Resolve b2z_range u64_range len_nonneg bytes_eq_refl : np2.

(** The six-byte header of the repository's envelopes: a four-byte magic, a
    version and a type byte. *)
Lemma header_split raw magic v :
  6 <= len raw -> take 4 raw = magic -> byte_at raw 4 = v ->
  raw = magic ++ [z2b v; z2b (byte_at raw 5)] ++ drop 6 raw.
Proof.
  intros Hl <- <-. do 6 (destruct raw as [|? raw]; [by vm_compute in Hl|]).
  unfold byte_at. cbn [take drop app nth]. by rewrite !z2b_b2z, drop_0.
Qed.

Lemma header_byte (magic k : list byte) a b :
  length magic = 4%nat ->
  byte_at (magic ++ [a; b] ++ k) 4 = b2z a /\ byte_at (magic ++ [a; b] ++ k) 5 = b2z b /\
  take 4 (magic ++ [a; b] ++ k) = magic /\ drop 6 (magic ++ [a; b] ++ k) = k.
Proof.
  intros Hl. do 5 (destruct magic as [|? magic]; try done).
Qed.

(** *** Big-endian integers *)

Lemma length_be_encode n z : length (be_encode n z) = n.
Proof. revert z. induction n; intros; cbn; auto. Qed.

Lemma len_be_encode n z : len (be_encode n z) = Z.of_nat n.
Proof. unfold len. by rewrite length_be_encode. Qed.

#[export] Hint Rewrite length_be_encode len_be_encode : np2_len.

Lemma be_decode_acc l acc :
  fold_left (fun acc b => acc * 256 + b2z b) l acc
  = acc * 2 ^ (8 * len l) + be_decode l.
Proof.
  unfold be_decode. revert acc. induction l as [|b l IH]; intros acc.
  - cbn [fold_left]. change (2 ^ (8 * len [])) with 1. lia.
  - cbn [fold_left]. rewrite (IH (acc * 256 + b2z b)), (IH (0 * 256 + b2z b)).
    rewrite len_cons. replace (8 * (1 + len l)) with (8 + 8 * len l) by lia.
    rewrite Z.pow_add_r by (pose proof (len_nonneg l); lia).
    change (2 ^ 8) with 256. ring.
Qed.

Lemma be_decode_cons b l : be_decode (b :: l) = b2z b * 2 ^ (8 * len l) + be_decode l.
Proof. unfold be_decode at 1. cbn [fold_left]. rewrite be_decode_acc. f_equal. Qed.

Lemma be_decode_range l : 0 <= be_decode l < 2 ^ (8 * len l).
Proof.
  induction l as [|b l IH]; [done|]. rewrite be_decode_cons, len_cons.
  replace (8 * (1 + len l)) with (8 + 8 * len l) by lia.
  rewrite Z.pow_add_r by (pose proof (len_nonneg l); lia).
  pose proof (b2z_range b). change (2 ^ 8) with 256. nia.
Qed.

Lemma be_decode_encode n z : be_decode (be_encode n z) = z mod 2 ^ (8 * Z.of_nat n).
Proof.
  induction n as [|n IH]; [by rewrite Z.mod_1_r|].
  cbn [be_encode]. rewrite be_decode_cons, IH, b2z_z2b, len_be_encode.
  rewrite Z.shiftr_div_pow2 by lia.
  replace (8 * Z.of_nat (S n)) with (8 * Z.of_nat n + 8) by lia.
  rewrite Z.pow_add_r by lia. change (2 ^ 8) with 256.
  rewrite Z.rem_mul_r by lia. lia.
Qed.

Lemma be_encode_mod n z : be_encode n (z mod 2 ^ (8 * Z.of_nat n)) = be_encode n z.
Proof.
  enough (H : forall m k, (m <= k)%nat ->
    be_encode m (z mod 2 ^ (8 * Z.of_nat k)) = be_encode m z) by (apply H; lia).
  intros m k. induction m as [|m IH]; [done|]. intros Hk. cbn [be_encode].
  f_equal; [|apply IH; lia]. apply b2z_inj. rewrite !b2z_z2b.
  change 256 with (2 ^ 8). rewrite <- !Z.land_ones by lia.
  apply Z.bits_inj'. intros i Hi. rewrite !Z.land_spec, !Z.shiftr_spec by lia.
  destruct (decide (i < 8)).
  - rewrite Z.land_spec, !Z.ones_spec_low by lia. by rewrite !andb_true_r.
  - rewrite (Z.ones_spec_high 8 i) by lia. by rewrite !andb_false_r.
Qed.

Lemma be_encode_decode l : be_encode (length l) (be_decode l) = l.
Proof.
  induction l as [|b l IH]; [done|]. cbn [length be_encode].
  pose proof (be_decode_range l) as HR. unfold len in HR.
  f_equal.
  - apply b2z_inj. rewrite b2z_z2b, be_decode_cons, Z.shiftr_div_pow2 by lia.
    unfold len. rewrite Z.div_add_l, (Z.div_small (be_decode l)) by lia.
    rewrite Z.add_0_r. apply Z.mod_small, b2z_range.
  - rewrite <- be_encode_mod, be_decode_cons. fold (len l) in *.
    replace (b2z b * 2 ^ (8 * len l) + be_decode l)
      with (be_decode l + b2z b * 2 ^ (8 * len l)) by lia.
    rewrite Z.mod_add, Z.mod_small by lia. exact IH.
Qed.

Lemma be_encode_inj n y z :
  0 <= y < 2 ^ (8 * Z.of_nat n) -> 0 <= z < 2 ^ (8 * Z.of_nat n) ->
  be_encode n y = be_encode n z -> y = z.
Proof.
  intros Hy Hz E. apply (f_equal be_decode) in E.
  rewrite !be_decode_encode, !Z.mod_small in E; done.
Qed.

(** *** Results *)

Lemma map_err_ok {A} f (r : res A) a : map_err f r = Ok a <-> r = Ok a.
Proof. destruct r; cbn; split; congruence. Qed.

(** *** Codecs *)

Section Codec.
Context {A} {typed : A -> Prop} {enc : A -> res (list byte)} {dec : list byte -> res A}.
Context `{!Codec typed enc dec}.

Lemma codec_iff a raw : dec raw = Ok a <-> typed a /\ enc a = Ok raw.
Proof. split; [apply enc_dec|]. intros [Ht He]. by apply dec_enc. Qed.

(** The wire form determines the value, and the value its only wire form. *)
Lemma codec_enc_inj a b raw :
  typed a -> typed b -> enc a = Ok raw -> enc b = Ok raw -> a = b.
Proof.
  intros Ha Hb Ea Eb. apply dec_enc in Ea; [|done]. apply dec_enc in Eb; [|done].
  congruence.
Qed.

Lemma codec_canonical a raw raw' : dec raw = Ok a -> dec raw' = Ok a -> raw = raw'.
Proof. intros [_ E]%enc_dec [_ E']%enc_dec. congruence. Qed.
End Codec.

(** *** Segments: [l] occupies the positions [o ..] of [h] *)

Definition segment {A} (h : list A) (o : Z) (l : list A) : Prop :=
  0 <= o /\ o + len l <= len h /\ take (length l) (drop (Z.to_nat o) h) = l.

Section Segment.
Context {A : Type}.
Implicit Types h l k : list A.

Lemma segment_bounds h o l : segment h o l -> 0 <= o /\ o + len l <= len h.
Proof. by intros (? & ? & _). Qed.

Lemma segment_nil h o : 0 <= o <= len h -> segment h o [].
Proof. intros. split_and!; [lia|rewrite len_nil; lia|done]. Qed.

Lemma segment_app h o l k :
  segment h o l -> segment h (o + len l) k -> segment h o (l ++ k).
Proof.
  intros (H0 & H1 & H2) (H3 & H4 & H5). split_and!; [lia|rewrite len_app; lia|].
  rewrite length_app, <- take_take_drop, drop_drop, H2. f_equal.
  etransitivity; [|exact H5]. do 2 f_equal. unfold len. lia.
Qed.

Lemma segment_grow h k o l : segment h o l -> segment (h ++ k) o l.
Proof.
  intros (H0 & H1 & H2). pose proof (len_nonneg l).
  split_and!; [lia|rewrite len_app; pose proof (len_nonneg k); lia|].
  unfold len in *. rewrite drop_app_le, take_app_le by (rewrite ?length_drop; lia). done.
Qed.

Lemma segment_tail h l : segment (h ++ l) (len h) l.
Proof.
  split_and!; [apply len_nonneg|rewrite len_app; lia|].
  by rewrite drop_len_app, take_ge.
Qed.

Lemma segment_sub h o l (a n : nat) :
  (a + n <= length l)%nat -> segment h o l ->
  segment h (o + Z.of_nat a) (take n (drop a l)).
Proof.
  intros Ha (H0 & H1 & H2). unfold len in *. split_and!; [lia|len_lia|].
  rewrite length_take, length_drop, Nat.min_l by lia.
  transitivity (take n (drop a (take (length l) (drop (Z.to_nat o) h)))); [|by rewrite H2].
  rewrite skipn_firstn_comm, take_take, drop_drop, Nat.min_l by lia. do 2 f_equal. lia.
Qed.

Lemma segment_take h o l n : segment h o l -> segment h o (take n l).
Proof.
  intros H. destruct (Nat.le_gt_cases n (length l)); [|by rewrite take_ge by lia].
  rewrite <- (drop_0 l), <- (Z.add_0_r o). by apply (segment_sub h o l 0 n).
Qed.

Lemma segment_slice h a b : 0 <= a <= b -> b <= len h -> segment h a (slice h a b).
Proof.
  intros. unfold slice. assert (E : length (take (Z.to_nat (b - a)) (drop (Z.to_nat a) h)) = Z.to_nat (b - a)) by len_lia.
  split_and!; [lia|unfold len at 1; rewrite E; lia|]. by rewrite E.
Qed.

Lemma segment_eq h o l k : segment h o l -> segment h o k -> len l = len k -> l = k.
Proof.
  intros (_ & _ & H1) (_ & _ & H2) E. rewrite <- H1, <- H2. unfold len in E. f_equal. lia.
Qed.

Lemma segment_prefix h l : segment h 0 l -> l = take (length l) h.
Proof. intros (_ & _ & H). by rewrite drop_0 in H. Qed.
End Segment.

(** ** Goroutines as lists of what they have left to do *)

(** Executing the first instruction of a goroutine, which pushes [k] and starts
    [more]: all that is left in the system, up to order. *)
Lemma concat_lookup {A} (ll : list (list A)) t x rest : ll !! t = Some (x :: rest) -> exists R, concat ll ≡ₚ x :: R /\ forall k more, concat (<[t := k ++ rest]> ll ++ more) ≡ₚ (k ++ concat more) ++ R.
Proof.
  intros H. exists (rest ++ concat (take t ll) ++ concat (drop (S t) ll)). rewrite <- (take_drop_middle _ _ _ H) at 1. split.
  - rewrite concat_app. cbn [concat]. rewrite Permutation_app_comm. cbn. rewrite <- app_assoc. apply Permutation_cons; [done|]. apply Permutation_app_head, Permutation_app_comm.
  - intros k more. rewrite insert_take_drop by (by eapply lookup_lt_Some). rewrite !concat_app. cbn [concat]. rewrite (Permutation_app_comm _ (concat more)), (Permutation_app_comm k (concat more)).
    rewrite <- !app_assoc. apply Permutation_app_head. rewrite Permutation_app_comm, <- !app_assoc. apply Permutation_app_head, Permutation_app_head, Permutation_app_comm.
Qed.

(** Something in the list will do it. *)
Definition some_of {A} (p : A -> bool) (M : list A) : Prop := exists x, x ∈ M /\ p x = true.

Lemma some_of_perm {A} (p : A -> bool) M M' : M ≡ₚ M' -> some_of p M -> some_of p M'.
Proof. intros H (x & Hx & Hp). exists x. by rewrite <- H. Qed.

Lemma some_of_app {A} (p : A -> bool) M M' : some_of p (M ++ M') <-> some_of p M \/ some_of p M'.
Proof.
  split; [intros (x & [Hx|Hx]%elem_of_app & Hp); [left|right]; by exists x|].
  intros [(x & Hx & Hp)|(x & Hx & Hp)]; exists x; rewrite elem_of_app; auto.
Qed.

Lemma some_of_cons {A} (p : A -> bool) x M : some_of p (x :: M) <-> p x = true \/ some_of p M.
Proof.
  split.
  - intros (y & [->|Hy]%elem_of_cons & Hp); [by left|right; by exists y].
  - intros [Hp|(y & Hy & Hp)]; [exists x|exists y]; rewrite elem_of_cons; auto.
Qed.

Lemma some_here {A} (p : A -> bool) x k : p x = true -> some_of p (x :: k).
Proof. intros H. apply some_of_cons. by left. Qed.
Lemma some_later {A} (p : A -> bool) x k : some_of p k -> some_of p (x :: k).
Proof. intros H. apply some_of_cons. by right. Qed.

Create HintDb holders.
#[export] Hint Resolve some_here some_later : holders.

(** Finds what does it in a list that is written out. *)
Ltac someone := first [assumption|apply some_here; cbn; first [reflexivity|apply bool_decide_true; by auto]|apply some_later; someone].
