(* ===== verification/Text.v ===== *)
(** * Text (strings, net of the Go standard library)

    The functions on strings that the services use: order, case, suffixes,
    splitting, trimming, host and port.  A Go string is its bytes. *)
From stdpp Require Import prelude list.
From S2P Require Import Prelude.

(** Splits the first guard [if c then error else ...] of a call that succeeds. *)
Ltac guard_if G := match goal with |- (if ?c then _ else _) = _ -> _ => destruct c eqn:G; [done|] end.

(** ** Order *)

(** [a <= b] of Go strings. *)
Fixpoint bytes_le (l k : list byte) : bool :=
  match l, k with
  | [], _ => true
  | _ :: _, [] => false
  | a :: l, b :: k => if b2z a <? b2z b then true else if b2z b <? b2z a then false else bytes_le l k
  end.

Ltac bytes_order :=
  repeat match goal with
  | |- context [?a <? ?b] => destruct (Z.ltb_spec a b)
  | H : context [?a <? ?b] |- _ => destruct (Z.ltb_spec a b)
  end; try done; try lia.

Lemma bytes_le_refl l : bytes_le l l = true.
Proof. induction l as [|a l IH]; [done|]. cbn. bytes_order. Qed.

Lemma bytes_le_total l k : bytes_le l k = true \/ bytes_le k l = true.
Proof. revert k. induction l as [|a l IH]; intros [|b k]; cbn; auto. bytes_order; auto. Qed.

Lemma bytes_le_trans l k m : bytes_le l k = true -> bytes_le k m = true -> bytes_le l m = true.
Proof. revert k m. induction l as [|a l IH]; intros [|b k] [|c m]; cbn; try done. bytes_order; eauto. Qed.

Lemma bytes_le_antisym l k : bytes_le l k = true -> bytes_le k l = true -> l = k.
Proof.
  revert k. induction l as [|a l IH]; intros [|b k]; cbn; try done.
  bytes_order. intros H1 H2. f_equal; [apply b2z_inj; lia|by apply IH].
Qed.

(** [a < b]. *)
Definition bytes_lt (l k : list byte) : bool := bytes_le l k && negb (bytes_eq l k).

(** ** Case *)

(** A lower case letter, a digit. *)
Definition is_lower (c : byte) : bool := (97 <=? b2z c) && (b2z c <=? 122).
Definition is_upper (c : byte) : bool := (65 <=? b2z c) && (b2z c <=? 90).
Definition is_dec (c : byte) : bool := (48 <=? b2z c) && (b2z c <=? 57).
Definition is_hyphen (c : byte) : bool := b2z c =? 45.
Definition is_underscore (c : byte) : bool := b2z c =? 95.

Definition lower (c : byte) : byte := if is_upper c then z2b (b2z c + 32) else c.

(** [strings.ToLower]: the two characters outside ASCII whose lower case is
    inside are the Kelvin sign and I with dot; any other one stays outside, and
    which one it becomes is not modelled: the callers only look at ASCII. *)
Fixpoint ToLower (s : list byte) : list byte :=
  match s with
  | [] => []
  | c :: s1 =>
      match c, s1 with
      | xe2, x84 :: xaa :: s => x6b :: ToLower s
      | xc4, xb0 :: s => x69 :: ToLower s
      | _, _ => lower c :: ToLower s1
      end
  end.

(** Text of lower case ASCII bytes only. *)
Definition lower_ascii (c : byte) : bool := (b2z c <? 128) && negb (is_upper c).

Lemma ToLower_cons c s : b2z c < 128 -> ToLower (c :: s) = lower c :: ToLower s.
Proof. intros H. destruct c; try done; exfalso; vm_compute in H; discriminate. Qed.

Lemma ToLower_id s : forallb lower_ascii s = true -> ToLower s = s.
Proof.
  induction s as [|c s IH]; [done|]. cbn [forallb]. unfold lower_ascii at 1. intros H.
  apply andb_prop in H as [[Hc Hu]%andb_prop Hs]. apply Z.ltb_lt in Hc. rewrite ToLower_cons, IH by done.
  unfold lower. by destruct (is_upper c).
Qed.

(** ** Suffixes and pieces *)

Definition HasPrefix (s p : list byte) : bool := bool_decide (take (length p) s = p).
Definition HasSuffix (s p : list byte) : bool := (length p <=? length s)%nat && bool_decide (drop (length s - length p) s = p).
Definition TrimSuffix (s p : list byte) : list byte := if HasSuffix s p then take (length s - length p) s else s.

Lemma HasSuffix_iff s p : HasSuffix s p = true <-> exists q, s = q ++ p.
Proof.
  unfold HasSuffix. rewrite andb_true_iff, Nat.leb_le, bool_decide_eq_true. split.
  - intros [Hl E]. exists (take (length s - length p) s). rewrite <- E at 2. by rewrite take_drop.
  - intros [q ->]. rewrite length_app. split; [lia|]. by rewrite Nat.add_sub, drop_app_length.
Qed.

Lemma TrimSuffix_app q p : TrimSuffix (q ++ p) p = q.
Proof.
  unfold TrimSuffix. replace (HasSuffix (q ++ p) p) with true; [by rewrite length_app, Nat.add_sub, take_app_length|].
  symmetry. apply HasSuffix_iff. by exists q.
Qed.

(** [strings.Split(s, sep)] for a one-byte separator. *)
Fixpoint Split (sep : byte) (s : list byte) : list (list byte) :=
  match s with
  | [] => [[]]
  | c :: s => if bool_decide (c = sep) then [] :: Split sep s
              else match Split sep s with p :: ps => (c :: p) :: ps | [] => [[c]] end
  end.

(** The text before and after the last [sep]. *)
Fixpoint split_last (sep : byte) (s : list byte) : option (list byte * list byte) :=
  match s with
  | [] => None
  | c :: s => match split_last sep s with
              | Some (a, b) => Some (c :: a, b)
              | None => if bool_decide (c = sep) then Some ([], s) else None
              end
  end.

Definition has_byte (c : byte) (s : list byte) : bool := existsb (fun x => bool_decide (x = c)) s.

(** The encodings of the characters of [unicode.IsSpace]. *)
Definition spaces : list (list byte) :=
  [[x09]; [x0a]; [x0b]; [x0c]; [x0d]; [x20]; [xc2; x85]; [xc2; xa0]; [xe1; x9a; x80]; [xe2; x80; xa8]; [xe2; x80; xa9];
   [xe2; x80; xaf]; [xe2; x81; x9f]; [xe3; x80; x80]] ++ map (fun k => [xe2; x80; z2b (128 + k)]) (seqZ 0 11).
(** The length of the space character at the start of [s], 0 if there is none.
    An encoding starts with a byte that continues none, so this may be asked at
    any byte; on reversed text and encodings it is the character at the end. *)
Definition space_at (enc : list (list byte)) (s : list byte) : nat :=
  match find (HasPrefix s) enc with Some sp => length sp | None => 0 end.

Fixpoint trim_front (enc : list (list byte)) (skip : nat) (s : list byte) : list byte :=
  match s with
  | [] => []
  | _ :: s1 =>
      match skip with
      | S k => trim_front enc k s1
      | O => match space_at enc s with S k => trim_front enc k s1 | O => s end
      end
  end.

(** [strings.TrimSpace]. *)
Definition TrimSpace (s : list byte) : list byte :=
  rev (trim_front (map (@rev byte) spaces) 0 (rev (trim_front spaces 0 s))).

Fixpoint fields_from (skip : nat) (s cur : list byte) : list (list byte) :=
  match s with
  | [] => if bool_decide (cur = []) then [] else [cur]
  | c :: s1 =>
      match skip with
      | S k => fields_from k s1 cur
      | O => match space_at spaces s with
             | S k => (if bool_decide (cur = []) then [] else [cur]) ++ fields_from k s1 []
             | O => fields_from 0 s1 (cur ++ [c])
             end
      end
  end.

(** [strings.Fields]. *)
Definition Fields (s : list byte) : list (list byte) := fields_from 0 s [].

(** [bytes.Index]. *)
Fixpoint Index (s p : list byte) : option nat :=
  if HasPrefix s p then Some 0%nat else match s with [] => None | _ :: s => S <$> Index s p end.

(** [strings.Split(s, p)] for a non-empty [p]. *)
Fixpoint split_from (p : list byte) (skip : nat) (s cur : list byte) : list (list byte) :=
  match s with
  | [] => [cur]
  | c :: s1 =>
      match skip with
      | S k => split_from p k s1 cur
      | O => if HasPrefix s p then cur :: split_from p (length p - 1) s1 [] else split_from p 0 s1 (cur ++ [c])
      end
  end.
Definition SplitOn (s p : list byte) : list (list byte) := split_from p 0 s [].

Definition raise (c : byte) : byte := if is_lower c then z2b (b2z c - 32) else c.

(** [strings.ToUpper]: outside ASCII, the dotless i and the long s have an upper
    case inside; any other character stays outside, as with [ToLower]. *)
Fixpoint ToUpper (s : list byte) : list byte :=
  match s with
  | [] => []
  | c :: s1 =>
      match c, s1 with
      | xc4, xb1 :: s => x49 :: ToUpper s
      | xc5, xbf :: s => x53 :: ToUpper s
      | _, _ => raise c :: ToUpper s1
      end
  end.

(** [strings.EqualFold(s, word)] for a word of lower case ASCII letters: the
    Kelvin sign folds to k, the long s to s. *)
Fixpoint EqualFold (s word : list byte) : bool :=
  match s, word with
  | [], [] => true
  | c :: s, d :: word =>
      if bool_decide (lower c = d) then EqualFold s word
      else match c, s, d with
           | xe2, x84 :: xaa :: s, x6b => EqualFold s word
           | xc5, xbf :: s, x73 => EqualFold s word
           | _, _, _ => false
           end
  | _, _ => false
  end.

Example text_examples :
  (TrimSpace (bytes_of " a b " ++ [xc2; xa0; xe3; x80; x80; x0a]), TrimSpace [x20; xe2; x80; x8a], map (@length byte) (Fields (bytes_of " GET  / HTTP/1.1")),
   Index (bytes_of "abcbc") (bytes_of "bc"), SplitOn (bytes_of "a,,b,,") (bytes_of ",,"), ToUpper (bytes_of "po" ++ [xc5; xbf] ++ bytes_of "t "),
   EqualFold (bytes_of "Ho" ++ [xc5; xbf; x54]) (bytes_of "host")) =
  (bytes_of "a b", [], [3; 1; 8]%nat, Some 1%nat, [bytes_of "a"; bytes_of "b"; []], bytes_of "POST ", true).
Proof. vm_compute. reflexivity. Qed.

(** [strings.TrimSpace(s) == s]. *)
Definition trimmed (s : list byte) : bool := forallb (fun sp => negb (HasPrefix s sp) && negb (HasSuffix s sp)) spaces.

(** ** UTF-8 *)

Definition between (lo hi : Z) (c : byte) : bool := (lo <=? b2z c) && (b2z c <=? hi).

(** [utf8.ValidString]: shortest forms, no surrogates, up to U+10FFFF. *)
Fixpoint utf8_valid (s : list byte) : bool :=
  match s with
  | [] => true
  | a :: s1 =>
      if b2z a <? 128 then utf8_valid s1
      else
        match s1 with
        | b :: s2 =>
            if between 0xc2 0xdf a && between 0x80 0xbf b then utf8_valid s2
            else
              match s2 with
              | c :: s3 =>
                  if ((b2z a =? 0xe0) && between 0xa0 0xbf b || (between 0xe1 0xec a || between 0xee 0xef a) && between 0x80 0xbf b
                      || (b2z a =? 0xed) && between 0x80 0x9f b) && between 0x80 0xbf c then utf8_valid s3
                  else
                    match s3 with
                    | d :: s4 =>
                        if ((b2z a =? 0xf0) && between 0x90 0xbf b || between 0xf1 0xf3 a && between 0x80 0xbf b
                            || (b2z a =? 0xf4) && between 0x80 0x8f b) && between 0x80 0xbf c && between 0x80 0xbf d then utf8_valid s4
                        else false
                    | [] => false
                    end
              | [] => false
              end
        | [] => false
        end
  end.

(** ** Host and port *)

(** The text before and after the first [c]. *)
Fixpoint split_first (c : byte) (s : list byte) : option (list byte * list byte) :=
  match s with
  | [] => None
  | x :: s => if bool_decide (x = c) then Some ([], s) else '(a, b) ← split_first c s; Some (x :: a, b)
  end.

(** [net.SplitHostPort]. *)
Definition SplitHostPort (hostport : list byte) : option (list byte * list byte) :=
  match split_last x3a hostport with
  | None => None
  | Some (before, port) =>
      match before with
      | x5b :: _ =>
          '(inside, after) ← split_first x5d hostport;
          if negb (bool_decide (length (inside ++ [x5d]) = length before)) then None
          else
            let host := drop 1 inside in
            if has_byte x5b (drop 1 hostport) || has_byte x5d after then None else Some (host, port)
      | _ =>
          if has_byte x3a before then None
          else if has_byte x5b hostport || has_byte x5d hostport then None
          else Some (before, port)
      end
  end.

Example host_port_examples :
  map SplitHostPort [bytes_of "a.b:443"; bytes_of "[::1]:80"; bytes_of "::1:80"; bytes_of "host"; bytes_of "[::1]80:1"; bytes_of ":9"] =
    [Some (bytes_of "a.b", bytes_of "443"); Some (bytes_of "::1", bytes_of "80"); None; None; None; Some ([], bytes_of "9")].
Proof. vm_compute. reflexivity. Qed.

(** ** base64.RawURLEncoding *)

Definition b64_char (v : Z) : byte :=
  if v <? 26 then z2b (65 + v) else if v <? 52 then z2b (71 + v) else if v <? 62 then z2b (v - 4) else if v =? 62 then x2d else x5f.
Definition b64_value (c : byte) : option Z :=
  if is_upper c then Some (b2z c - 65) else if is_lower c then Some (b2z c - 71) else if is_dec c then Some (b2z c + 4)
  else if is_hyphen c then Some 62 else if is_underscore c then Some 63 else None.

Fixpoint b64_encode (l : list byte) : list byte :=
  match l with
  | a :: b :: c :: l =>
      let n := b2z a * 65536 + b2z b * 256 + b2z c in
      b64_char (n / 262144) :: b64_char (n / 4096 mod 64) :: b64_char (n / 64 mod 64) :: b64_char (n mod 64) :: b64_encode l
  | [a; b] => let n := b2z a * 1024 + b2z b * 4 in [b64_char (n / 4096); b64_char (n / 64 mod 64); b64_char (n mod 64)]
  | [a] => let n := b2z a * 16 in [b64_char (n / 64); b64_char (n mod 64)]
  | [] => []
  end.

(** The decoder skips line ends and, not being strict, ignores spare bits. *)
Fixpoint b64_groups (s : list byte) : option (list byte) :=
  match s with
  | p :: q :: r :: t :: s =>
      vp ← b64_value p; vq ← b64_value q; vr ← b64_value r; vt ← b64_value t;
      let n := vp * 262144 + vq * 4096 + vr * 64 + vt in
      rest ← b64_groups s; Some (z2b (n / 65536) :: z2b (n / 256) :: z2b n :: rest)
  | [p; q; r] =>
      vp ← b64_value p; vq ← b64_value q; vr ← b64_value r;
      let n := vp * 4096 + vq * 64 + vr in Some [z2b (n / 1024); z2b (n / 4)]
  | [p; q] => vp ← b64_value p; vq ← b64_value q; Some [z2b ((vp * 64 + vq) / 16)]
  | [_] => None
  | [] => Some []
  end.
Definition b64_decode (s : list byte) : option (list byte) :=
  b64_groups (filter (fun c => ~ (b2z c = 10 \/ b2z c = 13)) s).

Lemma b64_value_char v : 0 <= v < 64 -> b64_value (b64_char v) = Some v /\ (b2z (b64_char v) = 10 \/ b2z (b64_char v) = 13 -> False).
Proof.
  intros Hv. set (f := fun v => bool_decide (b64_value (b64_char v) = Some v) && negb (bool_decide (b2z (b64_char v) = 10 \/ b2z (b64_char v) = 13))).
  assert (Hall : forallb f (seqZ 0 64) = true) by (vm_compute; reflexivity). rewrite forallb_forall in Hall. specialize (Hall v).
  unfold f in Hall. rewrite andb_true_iff, negb_true_iff, bool_decide_eq_false, bool_decide_eq_true in Hall.
  destruct Hall as [H1 H2]; [apply list_elem_of_In, elem_of_seqZ; lia|]. by split.
Qed.

Ltac divmod := Z.to_euclidean_division_equations; lia.

Lemma z2b_eq b n : n = b2z b -> z2b n = b.
Proof. intros ->. apply z2b_b2z. Qed.

Lemma b64_encode_values l : Forall (fun c => ~ (b2z c = 10 \/ b2z c = 13)) (b64_encode l) /\ b64_groups (b64_encode l) = Some l.
Proof.
  induction l as [l IH] using (induction_ltof1 _ length). unfold ltof in IH.
  destruct l as [|a [|b [|c l]]]; [by split|..]; cbn [b64_encode].
  - pose proof (b2z_range a). set (n := b2z a * 16).
    destruct (b64_value_char (n / 64)) as [E1 L1]; [subst n; divmod|]. destruct (b64_value_char (n mod 64)) as [E2 L2]; [divmod|].
    split; [by repeat constructor|]. cbn [b64_groups]. rewrite E1, E2. cbn [mbind option_bind]. do 2 f_equal. apply z2b_eq. subst n. divmod.
  - pose proof (b2z_range a). pose proof (b2z_range b). set (n := b2z a * 1024 + b2z b * 4).
    destruct (b64_value_char (n / 4096)) as [E1 L1]; [subst n; divmod|]. destruct (b64_value_char (n / 64 mod 64)) as [E2 L2]; [divmod|].
    destruct (b64_value_char (n mod 64)) as [E3 L3]; [divmod|].
    split; [by repeat constructor|]. cbn [b64_groups]. rewrite E1, E2, E3. cbn [mbind option_bind].
    assert (E : n / 4096 * 4096 + n / 64 mod 64 * 64 + n mod 64 = n) by (clearbody n; divmod). rewrite E. do 2 f_equal; [|f_equal]; [apply z2b_eq; subst n; divmod|].
    apply b2z_inj. rewrite b2z_z2b. subst n. divmod.
  - pose proof (b2z_range a). pose proof (b2z_range b). pose proof (b2z_range c). set (n := b2z a * 65536 + b2z b * 256 + b2z c).
    destruct (b64_value_char (n / 262144)) as [E1 L1]; [subst n; divmod|]. destruct (b64_value_char (n / 4096 mod 64)) as [E2 L2]; [divmod|].
    destruct (b64_value_char (n / 64 mod 64)) as [E3 L3]; [divmod|]. destruct (b64_value_char (n mod 64)) as [E4 L4]; [divmod|].
    destruct (IH l) as [Hf Hg]; [cbn; lia|]. split; [by repeat constructor|]. cbn [b64_groups]. rewrite E1, E2, E3, E4, Hg. cbn [mbind option_bind].
    assert (E : n / 262144 * 262144 + n / 4096 mod 64 * 4096 + n / 64 mod 64 * 64 + n mod 64 = n) by (clearbody n; divmod). rewrite E.
    do 2 f_equal; [apply z2b_eq; subst n; divmod|]. f_equal; [|f_equal]; apply b2z_inj; rewrite b2z_z2b; subst n; divmod.
Qed.

Lemma b64_decode_encode l : b64_decode (b64_encode l) = Some l.
Proof.
  unfold b64_decode. destruct (b64_encode_values l) as [Hf Hg]. rewrite <- Hg. f_equal. clear Hg. revert Hf. generalize (b64_encode l). intros s Hf.
  induction Hf as [|c s Hc _ IH]; [done|]. rewrite filter_cons_True by done. by rewrite IH.
Qed.

(** Base64 text is ASCII, hence valid UTF-8. *)
Lemma b64_value_ascii c n : b64_value c = Some n -> b2z c < 128.
Proof.
  unfold b64_value, is_upper, is_lower, is_dec, is_hyphen, is_underscore.
  repeat case_match; try done; intros _;
    repeat match goal with H : _ && _ = true |- _ => apply andb_prop in H as [? ?] end;
    rewrite ?Z.leb_le, ?Z.eqb_eq in *; lia.
Qed.

Lemma b64_char_ascii n : 0 <= n < 64 -> b2z (b64_char n) < 128.
Proof. intros H. destruct (b64_value_char n H) as [E _]. by eapply b64_value_ascii. Qed.

Lemma b64_encode_ascii l : Forall (fun c => b2z c < 128) (b64_encode l).
Proof.
  induction l as [l IH] using (induction_ltof1 _ length). unfold ltof in IH.
  destruct l as [|a [|b [|c l]]]; [constructor|..]; cbn [b64_encode].
  - pose proof (b2z_range a). repeat constructor; apply b64_char_ascii; divmod.
  - pose proof (b2z_range a). pose proof (b2z_range b). repeat constructor; apply b64_char_ascii; divmod.
  - pose proof (b2z_range a). pose proof (b2z_range b). pose proof (b2z_range c).
    repeat (constructor; [apply b64_char_ascii; divmod|]). apply IH. cbn. lia.
Qed.

Lemma ascii_utf8 s : Forall (fun c => b2z c < 128) s -> utf8_valid s = true.
Proof. induction 1 as [|c s Hc _ IH]; [done|]. cbn [utf8_valid]. by rewrite (proj2 (Z.ltb_lt _ _) Hc). Qed.

Lemma b64_encode_utf8 l : utf8_valid (b64_encode l) = true.
Proof. apply ascii_utf8, b64_encode_ascii. Qed.
