(* ===== verification/Slices.v ===== *)
(** * Index expressions

    An index or slice expression of Go panics outside its bounds.  Here such an
    expression is an [option], [None] being the panic; code made of them is
    bound in the option monad, and [wp] carries what is known of its result. *)
From stdpp Require Import prelude list.
From S2P Require Import Prelude.

(** [raw[i]]. *)
Definition at_ (raw : list byte) (i : Z) : option Z :=
  if (0 <=? i) && (i <? len raw) then Some (byte_at raw (Z.to_nat i)) else None.

(** [raw[a:b]], refused beyond the length (Go allows up to the capacity). *)
Definition sub_ (raw : list byte) (a b : Z) : option (list byte) :=
  if (0 <=? a) && (a <=? b) && (b <=? len raw) then Some (slice raw a b) else None.

(** [binary.BigEndian.Uint16(raw)]. *)
Definition Uint16 (raw : list byte) : option Z := hi ← at_ raw 0; lo ← at_ raw 1; Some (Z.lor (Z.shiftl hi 8) lo).

(** The code finishes without a panic, with a result that satisfies [Q]. *)
Definition wp {A} (o : option A) (Q : A -> Prop) : Prop := exists a, o = Some a /\ Q a.

Section Wp.
  Context {A B : Type}.

Lemma wp_ret (a : A) (Q : A -> Prop) : Q a -> wp (Some a) Q.
Proof. by exists a. Qed.

Lemma wp_bind (o : option A) (k : A -> option B) (Q : B -> Prop) : wp o (fun a => wp (k a) Q) -> wp (o ≫= k) Q.
Proof. by intros (a & -> & b & E & HQ); exists b. Qed.

Lemma wp_mono (o : option A) (P Q : A -> Prop) : wp o P -> (forall a, P a -> Q a) -> wp o Q.
Proof. intros (a & -> & HP) H. exists a. auto. Qed.

Lemma wp_if (c : bool) (x y : option A) (Q : A -> Prop) : (c = true -> wp x Q) -> (c = false -> wp y Q) -> wp (if c then x else y) Q.
Proof. destruct c; auto. Qed.

Lemma wp_is_some (o : option A) (Q : A -> Prop) : wp o Q -> is_Some o.
Proof. intros (a & -> & _). by exists a. Qed.
End Wp.

Lemma len_slice {A} (raw : list A) a b : 0 <= a <= b -> b <= len raw -> len (slice raw a b) = b - a.
Proof. intros H H'. unfold slice. rewrite len_take, len_drop. lia. Qed.

Lemma wp_at raw i (Q : Z -> Prop) : 0 <= i < len raw -> (forall v, 0 <= v < 256 -> Q v) -> wp (at_ raw i) Q.
Proof.
  intros Hi HQ. unfold at_. rewrite (proj2 (Z.leb_le _ _)), (proj2 (Z.ltb_lt _ _)) by lia.
  exists (byte_at raw (Z.to_nat i)). split; [done|]. apply HQ, b2z_range.
Qed.

Lemma wp_sub raw a b (Q : list byte -> Prop) : 0 <= a <= b -> b <= len raw -> (forall l, len l = b - a -> Q l) -> wp (sub_ raw a b) Q.
Proof.
  intros H H' HQ. unfold sub_. rewrite !(proj2 (Z.leb_le _ _)) by lia.
  exists (slice raw a b). split; [done|]. by apply HQ, len_slice.
Qed.

Lemma uint16_range hi lo : 0 <= hi < 256 -> 0 <= lo < 256 -> Z.lor (Z.shiftl hi 8) lo = hi * 256 + lo.
Proof.
  intros H1 H2. pose proof (Z.add_lor_land (Z.shiftl hi 8) lo) as E.
  replace (Z.land (Z.shiftl hi 8) lo) with 0 in E; [rewrite Z.shiftl_mul_pow2 in *; lia|].
  symmetry. apply Z.bits_inj'. intros n Hn. rewrite Z.land_spec, Z.bits_0, Z.shiftl_spec by lia.
  destruct (Z.ltb_spec n 8); [by rewrite Z.testbit_neg_r by lia|]. rewrite <- (Z.mod_small lo (2 ^ 8)) by lia.
  by rewrite Z.mod_pow2_bits_high, andb_false_r by lia.
Qed.

Lemma wp_Uint16 raw (Q : Z -> Prop) : 2 <= len raw -> (forall v, 0 <= v < 65536 -> Q v) -> wp (Uint16 raw) Q.
Proof.
  intros H HQ. unfold Uint16. apply wp_bind, wp_at; [lia|]. intros hi Hhi. apply wp_bind, wp_at; [lia|]. intros lo Hlo.
  apply wp_ret, HQ. rewrite uint16_range by done. lia.
Qed.

(** The guards of the code as facts: splits the conditions [c = true] and
    [c = false] that [wp_if] leaves in the context. *)
Ltac bounds := repeat match goal with
  | H : (_ || _) = false |- _ => apply orb_false_iff in H; destruct H
  | H : (_ && _) = true |- _ => apply andb_prop in H; destruct H
  | H : negb _ = true |- _ => apply negb_true_iff in H
  | H : negb _ = false |- _ => apply negb_false_iff in H
  | H : (_ <? _) = true |- _ => apply Z.ltb_lt in H
  | H : (_ <? _) = false |- _ => apply Z.ltb_ge in H
  | H : (_ <=? _) = true |- _ => apply Z.leb_le in H
  | H : (_ <=? _) = false |- _ => apply Z.leb_gt in H
  | H : (_ =? _) = true |- _ => apply Z.eqb_eq in H
  | H : (_ =? _) = false |- _ => apply Z.eqb_neq in H
  end.

(** Runs the index expressions of straight-line code, the guards giving the bounds. *)
Ltac wp_step :=
  match goal with
  | |- wp (_ ≫= _) _ => apply wp_bind
  | |- wp (at_ _ _) _ => apply wp_at; [bounds; try lia|intros ? ?]
  | |- wp (sub_ _ _ _) _ => apply wp_sub; [bounds; try lia|bounds; try lia|intros ? ?]
  | |- wp (Uint16 _) _ => apply wp_Uint16; [bounds; try lia|intros ? ?]
  | |- wp (Some _) _ => apply wp_ret
  | |- wp (if _ then _ else _) _ => apply wp_if; intros ?
  end.
Ltac wp_steps := repeat (wp_step; cbn beta).

(** ** Reading a concatenation *)

(** Equality of two concatenations up to associativity. *)
Ltac assoc := repeat (cbn [app]; rewrite <- app_assoc); cbn [app]; reflexivity.

Lemma sub_at raw a b l m r : raw = l ++ m ++ r -> a = len l -> b = len l + len m -> sub_ raw a b = Some m.
Proof.
  intros -> -> ->. pose proof (len_nonneg l). pose proof (len_nonneg m). pose proof (len_nonneg r). unfold sub_.
  rewrite !len_app, !(proj2 (Z.leb_le _ _)) by lia. unfold slice. replace (len l + len m - len l) with (len m) by lia.
  by rewrite drop_len_app, take_len_app.
Qed.

Lemma at_at raw i l x r : raw = l ++ x :: r -> i = len l -> at_ raw i = Some (b2z x).
Proof.
  intros -> ->. pose proof (len_nonneg l). pose proof (len_nonneg r). unfold at_. rewrite len_app, len_cons, (proj2 (Z.leb_le _ _)), (proj2 (Z.ltb_lt _ _)) by lia.
  cbn [andb]. unfold byte_at. rewrite to_nat_len, app_nth2, Nat.sub_diag by lia. done.
Qed.

Lemma Uint16_encode n : 0 <= n < 65536 -> Uint16 (be_encode 2 n) = Some n.
Proof.
  intros Hn. pose proof (be_decode_encode 2 n) as E. change (2 ^ (8 * Z.of_nat 2)) with 65536 in E. rewrite Z.mod_small in E by done.
  destruct (be_encode 2 n) as [|a [|b [|]]] eqn:F; try (by pose proof (length_be_encode 2 n) as L; rewrite F in L).
  unfold Uint16. rewrite (at_at [a; b] 0 [] a [b]), (at_at [a; b] 1 [a] b []) by done. cbn [option_bind mbind].
  pose proof (b2z_range a). pose proof (b2z_range b). rewrite uint16_range by done. rewrite <- E. unfold be_decode. cbn [fold_left]. f_equal.
Qed.
