(* ===== verification/Maps.v ===== *)
(** * Sums over maps

    Counters of the code that the entries of a map must add up to. *)
From stdpp Require Import prelude list gmap.
From S2P Require Import Prelude.

Section Total.
  Context {K A : Type} `{Countable K}.
  Implicit Types (f : A -> Z) (m : gmap K A).

(** The sum of [f] over the values of a map. *)
Definition total (f : A -> Z) (m : gmap K A) : Z := map_fold (fun _ u acc => f u + acc) 0 m.

Lemma total_empty f : total f ∅ = 0.
Proof. apply map_fold_empty. Qed.

Lemma total_insert f m k u : m !! k = None -> total f (<[k := u]> m) = f u + total f m.
Proof. intros E. unfold total. rewrite map_fold_insert_L; [done| |done]. intros. lia. Qed.

Lemma total_delete f m k u : m !! k = Some u -> total f (delete k m) = total f m - f u.
Proof. intros E. rewrite <- (insert_delete_id m k u E) at 2. rewrite total_insert by apply lookup_delete_eq. lia. Qed.

Lemma total_update f m k old u : m !! k = Some old -> total f (<[k := u]> m) = total f m - f old + f u.
Proof. intros E. rewrite <- insert_delete_eq, total_insert by apply lookup_delete_eq. rewrite (total_delete f m k old E). lia. Qed.

Lemma total_nonneg f m : (forall u, 0 <= f u) -> 0 <= total f m.
Proof. intros Hf. unfold total. apply (map_fold_weak_ind (fun r _ => 0 <= r)); [lia|]. intros k u m' r _ Hr. pose proof (Hf u). lia. Qed.

Lemma total_ind_le f m k u : (forall u, 0 <= f u) -> m !! k = Some u -> f u <= total f m.
Proof. intros Hf E. pose proof (total_delete f m k u E). pose proof (total_nonneg f (delete k m) Hf). lia. Qed.
End Total.

(** Filtering every value of a map of lists, and dropping the empty ones, takes
    out of the total what the filter refuses. *)
Lemma total_prune {K A} `{Countable K} (keep : A -> bool) (m : gmap K (list A)) :
  total len (omap (fun l => match filter (fun e => keep e = true) l with [] => None | kept => Some kept end) m) =
  total len m - map_fold (fun _ l n => len (filter (fun e => keep e = false) l) + n) 0 m.
Proof.
  induction m as [|k l m Hk IH] using map_ind; [by rewrite omap_empty, !total_empty, map_fold_empty|].
  rewrite map_fold_insert_L; [|intros; lia|done]. rewrite total_insert by done.
  assert (E : len l = len (filter (fun e => keep e = true) l) + len (filter (fun e => keep e = false) l)).
  { clear IH. induction l as [|e l IH]; [done|]. rewrite !filter_cons, len_cons, IH. destruct (keep e); repeat case_decide; try done; rewrite len_cons; lia. }
  destruct (filter (fun e => keep e = true) l) as [|x kept] eqn:F.
  - rewrite omap_insert_None by (by rewrite F). rewrite delete_id by (by rewrite lookup_omap, Hk). rewrite IH. rewrite len_nil in E. lia.
  - rewrite (omap_insert_Some _ _ _ _ (x :: kept)) by (by rewrite F). rewrite total_insert by (by rewrite lookup_omap, Hk). rewrite IH. lia.
Qed.
