(* ===== verification/Netip.v ===== *)
(** * Addresses and prefixes (net/netip of the Go standard library)

    What the proxy, the cluster model and the routers use of net/netip: parsing
    and printing of addresses, [Unmap], the classification predicates and
    prefix membership.  Parsing and printing are the library's loops; the main
    theorem is that parsing a printed address gives it back. *)
From stdpp Require Import prelude list countable.
From S2P Require Import Prelude Text.

(** ** Addresses *)

(** [netip.Addr]: the zero value, an IPv4 address (32 bits) or an IPv6 address
    (128 bits) with a zone. *)
Inductive Addr := AddrInvalid | Addr4 (a : Z) | Addr6 (a : Z) (zone : list byte).
#[global] Instance Addr_eq_dec : EqDecision Addr.
Proof. solve_decision. Defined.
#[global] Instance Addr_countable : Countable Addr.
Proof.
  refine (inj_countable'
    (fun x => match x with AddrInvalid => None | Addr4 a => Some (inl a) | Addr6 a z => Some (inr (a, z)) end)
    (fun y => match y with None => AddrInvalid | Some (inl a) => Addr4 a | Some (inr (a, z)) => Addr6 a z end) _).
  by intros [].
Defined.

Definition IsValid (x : Addr) : bool := match x with AddrInvalid => false | _ => true end.
Definition Is4 (x : Addr) : bool := match x with Addr4 _ => true | _ => false end.
Definition Zone (x : Addr) : list byte := match x with Addr6 _ z => z | _ => [] end.

(** The 16 bytes [::ffff:0:0/96] in front of an IPv4 address. *)
Definition Is4In6 (x : Addr) : bool := match x with Addr6 a _ => Z.shiftr a 32 =? 65535 | _ => false end.
Definition Unmap (x : Addr) : Addr :=
  match x with Addr6 a _ => if Is4In6 x then Addr4 (a mod 2 ^ 32) else x | _ => x end.

Definition AddrFrom4 (raw : list byte) : Addr := Addr4 (be_decode raw).
Definition AddrFrom16 (raw : list byte) : Addr := Addr6 (be_decode raw) [].
Definition As4 (x : Addr) : list byte :=
  match x with Addr4 a => be_encode 4 a | Addr6 a _ => be_encode 4 (a mod 2 ^ 32) | AddrInvalid => repeat x00 4 end.
Definition As16 (x : Addr) : list byte :=
  match x with Addr4 a => be_encode 16 (65535 * 2 ^ 32 + a) | Addr6 a _ => be_encode 16 a | AddrInvalid => repeat x00 16 end.

(** *** Classification *)

(** The top [n] bits of an address of [w] bits. *)
Definition top (w n a : Z) : Z := Z.shiftr a (w - n).

Definition IsUnspecified (x : Addr) : bool :=
  match x with Addr4 a => a =? 0 | Addr6 a z => (a =? 0) && bool_decide (z = []) | AddrInvalid => false end.
Definition IsLoopback (x : Addr) : bool :=
  match Unmap x with Addr4 a => top 32 8 a =? 127 | Addr6 a _ => a =? 1 | AddrInvalid => false end.
Definition IsMulticast (x : Addr) : bool :=
  match Unmap x with Addr4 a => top 32 4 a =? 14 | Addr6 a _ => top 128 8 a =? 255 | AddrInvalid => false end.
(** 169.254/16, fe80::/10. *)
Definition IsLinkLocalUnicast (x : Addr) : bool :=
  match Unmap x with Addr4 a => top 32 16 a =? 43518 | Addr6 a _ => top 128 10 a =? 1018 | AddrInvalid => false end.
(** 224.0.0/24, ff02::/16 with any flags. *)
Definition IsLinkLocalMulticast (x : Addr) : bool :=
  match Unmap x with
  | Addr4 a => top 32 24 a =? 14680064
  | Addr6 a _ => (top 128 8 a =? 255) && (Z.land (top 128 16 a) 15 =? 2)
  | AddrInvalid => false
  end.
(** 10/8, 172.16/12, 192.168/16, fc00::/7. *)
Definition IsPrivate (x : Addr) : bool :=
  match Unmap x with
  | Addr4 a => (top 32 8 a =? 10) || (top 32 12 a =? 2753) || (top 32 16 a =? 49320)
  | Addr6 a _ => top 128 7 a =? 126
  | AddrInvalid => false
  end.
Definition IsGlobalUnicast (x : Addr) : bool :=
  match Unmap x with
  | AddrInvalid => false
  | Addr4 a => negb ((a =? 0) || (a =? 2 ^ 32 - 1)) && negb (IsLoopback x) && negb (IsMulticast x) && negb (IsLinkLocalUnicast x)
  | Addr6 a z => negb (IsUnspecified (Addr6 a z)) && negb (IsLoopback x) && negb (IsMulticast x) && negb (IsLinkLocalUnicast x)
  end.

(** *** Prefixes *)

(** A valid [netip.Prefix]: its address is masked for those of this library. *)
Record Prefix := mkPrefix { px_addr : Addr; px_bits : Z }.

Definition Contains (p : Prefix) (x : Addr) : bool :=
  match px_addr p, x with
  | Addr4 q, Addr4 a => top 32 (px_bits p) a =? top 32 (px_bits p) q
  | Addr6 q _, Addr6 a z => bool_decide (z = []) && (top 128 (px_bits p) a =? top 128 (px_bits p) q)
  | _, _ => false
  end.

(** ** Parsing *)

Definition dot : byte := Byte.x2e.
Definition colon : byte := Byte.x3a.
Definition percent : byte := Byte.x25.

(** [parseIPv4Fields]: the rest of the text, the byte before it, the fields so
    far, and the value and number of digits of the current field. *)
Fixpoint ipv4_fields (s : list byte) (prev : option byte) (fields : list Z) (val digLen : Z) : option (list Z) :=
  match s with
  | [] => if len fields <? 3 then None else Some (fields ++ [val])
  | c :: s =>
      if is_dec c then
        if (digLen =? 1) && (val =? 0) then None
        else
          let val := val * 10 + (b2z c - 48) in
          if 255 <? val then None else ipv4_fields s (Some c) fields val (digLen + 1)
      else if bool_decide (c = dot) then
        if bool_decide (prev = None) || bool_decide (s = []) || bool_decide (prev = Some dot) then None
        else if len fields =? 3 then None
        else ipv4_fields s (Some c) (fields ++ [val]) 0 0
      else None
  end.

Definition parse_fields (s : list byte) : option (list byte) := map z2b <$> ipv4_fields s None [] 0 0.

Definition parseIPv4 (s : list byte) : option Addr := AddrFrom4 <$> parse_fields s.

Definition hexval (c : byte) : option Z :=
  let z := b2z c in
  if (48 <=? z) && (z <=? 57) then Some (z - 48)
  else if (97 <=? z) && (z <=? 102) then Some (z - 87)
  else if (65 <=? z) && (z <=? 70) then Some (z - 55)
  else None.

(** The digits of one group: the rest of the text, their number and value. *)
Fixpoint hex_group (s : list byte) (off acc : Z) : option (list byte * Z * Z) :=
  match s with
  | [] => Some ([], off, acc)
  | c :: s' =>
      match hexval c with
      | None => Some (s, off, acc)
      | Some d =>
          let acc := u32 (Z.shiftl acc 4) + d in
          if 3 <? off then None else if 65535 <? acc then None else hex_group s' (off + 1) acc
      end
  end.

(** The loop of [parseIPv6] over at most [n] groups: the rest of the text, the
    bytes so far and the position of the ellipsis. *)
Fixpoint ipv6_groups (n : nat) (s : list byte) (ip : list byte) (ellipsis : option nat) : option (list byte * list byte * option nat) :=
  match n with
  | O => Some (s, ip, ellipsis)
  | S n =>
      if 16 <=? len ip then Some (s, ip, ellipsis)
      else
        '(rest, off, acc) ← hex_group s 0 0;
        if off =? 0 then None
        else
          match rest with
          | c :: rest' =>
              if bool_decide (c = dot) then
                if bool_decide (ellipsis = None) && negb (len ip =? 12) then None
                else if 16 <? len ip + 4 then None
                else fields ← parse_fields s; Some ([], ip ++ fields, ellipsis)
              else
                let ip := ip ++ [z2b (Z.shiftr acc 8); z2b acc] in
                if negb (bool_decide (c = colon)) then None
                else
                  match rest' with
                  | [] => None
                  | c' :: rest'' =>
                      if bool_decide (c' = colon) then
                        if bool_decide (is_Some ellipsis) then None
                        else match rest'' with
                             | [] => Some ([], ip, Some (length ip))
                             | _ => ipv6_groups n rest'' ip (Some (length ip))
                             end
                      else ipv6_groups n rest' ip ellipsis
                  end
          | [] => Some ([], ip ++ [z2b (Z.shiftr acc 8); z2b acc], ellipsis)
          end
  end.

(** Everything before and after the first [%]. *)
Fixpoint split_zone (s : list byte) : list byte * option (list byte) :=
  match s with
  | [] => ([], None)
  | c :: s => if bool_decide (c = percent) then ([], Some s) else let '(a, z) := split_zone s in (c :: a, z)
  end.

Definition parseIPv6 (inp : list byte) : option Addr :=
  let '(s, z) := split_zone inp in
  if bool_decide (z = Some []) then None
  else
    let zone := default [] z in
    let '(s, ellipsis) := match s with
                          | c :: d :: s' => if bool_decide (c = colon) && bool_decide (d = colon) then (s', Some 0%nat) else (s, None)
                          | _ => (s, None)
                          end in
    if bool_decide (is_Some ellipsis) && bool_decide (s = []) then Some (Addr6 0 zone)
    else
      '(rest, ip, ellipsis) ← ipv6_groups 8 s [] ellipsis;
      if negb (bool_decide (rest = [])) then None
      else if len ip <? 16 then
        e ← ellipsis;
        Some (Addr6 (be_decode (take e ip ++ repeat x00 (16 - length ip) ++ drop e ip)) zone)
      else if bool_decide (is_Some ellipsis) then None
      else Some (Addr6 (be_decode ip) zone).

(** [ParseAddr] looks for the first dot, colon or percent sign. *)
Fixpoint parse_kind (whole s : list byte) : option Addr :=
  match s with
  | [] => None
  | c :: s => if bool_decide (c = dot) then parseIPv4 whole
              else if bool_decide (c = colon) then parseIPv6 whole
              else if bool_decide (c = percent) then None
              else parse_kind whole s
  end.
Definition ParseAddr (s : list byte) : option Addr := parse_kind s s.

(** ** Printing *)

Definition digit (d : Z) : byte := z2b (48 + d).
Definition print_dec (n : Z) : list byte :=
  if n <? 10 then [digit n]
  else if n <? 100 then [digit (n / 10); digit (n mod 10)]
  else [digit (n / 100); digit (n / 10 mod 10); digit (n mod 10)].

Definition hexdigit (d : Z) : byte := if d <? 10 then z2b (48 + d) else z2b (87 + d).
(** [appendHex]. *)
Definition print_hex (x : Z) : list byte :=
  (if 4096 <=? x then [hexdigit (Z.shiftr x 12)] else []) ++
  (if 256 <=? x then [hexdigit (Z.land (Z.shiftr x 8) 15)] else []) ++
  (if 16 <=? x then [hexdigit (Z.land (Z.shiftr x 4) 15)] else []) ++ [hexdigit (Z.land x 15)].

Definition string4 (raw : list byte) : list byte :=
  match map (fun b => print_dec (b2z b)) raw with
  | [a; b; c; d] => a ++ [dot] ++ b ++ [dot] ++ c ++ [dot] ++ d
  | _ => []
  end.

(** The 16-bit groups of 16 bytes. *)
Fixpoint groups (raw : list byte) : list Z :=
  match raw with a :: b :: raw => b2z a * 256 + b2z b :: groups raw | _ => [] end.

Fixpoint zeros_in (gs : list Z) : nat := match gs with g :: gs => if g =? 0 then S (zeros_in gs) else O | [] => O end.

(** The first longest run of at least two zero groups: from [fst] up to [snd]. *)
Definition zero_run (gs : list Z) : nat * nat :=
  foldl (fun (best : nat * nat) i =>
           let j := (i + zeros_in (drop i gs))%nat in
           if (2 <=? j - i)%nat && (snd best - fst best <? j - i)%nat then (i, j) else best)
    (255, 255)%nat (seq 0 (length gs)).

(** The loop of [appendTo6] from group [i] on. *)
Fixpoint print_groups (n : nat) (gs : list Z) (run : nat * nat) (i : nat) : list byte :=
  match n with
  | O => []
  | S n =>
      if (length gs <=? i)%nat then []
      else if (i =? fst run)%nat then
        [colon; colon] ++
        (if (length gs <=? snd run)%nat then []
         else print_hex (nth (snd run) gs 0) ++ print_groups n gs run (S (snd run)))
      else (if (0 <? i)%nat then [colon] else []) ++ print_hex (nth i gs 0) ++ print_groups n gs run (S i)
  end.

Definition string6 (raw : list byte) : list byte := print_groups 8 (groups raw) (zero_run (groups raw)) 0.

Definition with_zone (z : list byte) : list byte := if bool_decide (z = []) then [] else percent :: z.

Definition AddrString (x : Addr) : list byte :=
  match x with
  | AddrInvalid => bytes_of "invalid IP"
  | Addr4 _ => string4 (As4 x)
  | Addr6 a z => (if Is4In6 x then bytes_of "::ffff:" ++ string4 (As4 (Unmap x)) else string6 (As16 x)) ++ with_zone z
  end.

Example print_examples :
  map AddrString [Addr4 3232235777; Addr6 (2 ^ 32 - 2 ^ 8) []; Addr6 (0x20010db8 * 2 ^ 96 + 1) []; Addr6 (65535 * 2 ^ 32 + 2130706433) []] =
    [bytes_of "192.168.1.1"; bytes_of "::ffff:ff00"; bytes_of "2001:db8::1"; bytes_of "::ffff:127.0.0.1"] /\
  map ParseAddr [bytes_of "2001:db8:0:0:1::"; bytes_of "::1.2.3.4"; bytes_of "01.2.3.4"; bytes_of "1::2::3"] =
    [Some (Addr6 (0x20010db8 * 2 ^ 96 + 2 ^ 48) []); Some (Addr6 16909060 []); None; None].
Proof. vm_compute. split; reflexivity. Qed.

(** ** Parsing what is printed *)

(** *** Decimal fields *)

Lemma dec_fields b rest prev fields : exists last n, last <> dot /\
  ipv4_fields (print_dec (b2z b) ++ rest) prev fields 0 0 = ipv4_fields rest (Some last) fields (b2z b) n.
Proof. destruct b; eexists _, _; (split; [|reflexivity]); discriminate. Qed.

Lemma dec_dot last fields val n rest : last <> dot -> rest <> [] -> len fields <> 3 ->
  ipv4_fields (dot :: rest) (Some last) fields val n = ipv4_fields rest (Some dot) (fields ++ [val]) 0 0.
Proof.
  intros Hl Hr Hf. cbn [ipv4_fields]. change (is_dec dot) with false. cbn iota.
  rewrite (bool_decide_eq_true_2 (dot = dot)) by done. rewrite !bool_decide_eq_false_2 by congruence. cbn.
  by destruct (Z.eqb_spec (len fields) 3).
Qed.

Lemma print_dec_nonempty b : print_dec (b2z b) <> [].
Proof. by destruct b. Qed.

Lemma app_nonempty {A} (l k : list A) : l <> [] -> l ++ k <> [].
Proof. by destruct l. Qed.

Lemma fields_string4 a b c d : parse_fields (string4 [a; b; c; d]) = Some [a; b; c; d].
Proof.
  unfold parse_fields, string4. cbn [map]. rewrite <- ?app_assoc.
  destruct (dec_fields a ([dot] ++ print_dec (b2z b) ++ [dot] ++ print_dec (b2z c) ++ [dot] ++ print_dec (b2z d)) None []) as (la & na & Ha & ->).
  cbn [app]. rewrite dec_dot by (try done; by apply app_nonempty, print_dec_nonempty).
  destruct (dec_fields b (dot :: print_dec (b2z c) ++ dot :: print_dec (b2z d)) (Some dot) ([] ++ [b2z a])) as (lb & nb & Hb & ->).
  rewrite dec_dot by (try done; by apply app_nonempty, print_dec_nonempty).
  destruct (dec_fields c (dot :: print_dec (b2z d)) (Some dot) (([] ++ [b2z a]) ++ [b2z b])) as (lc & nc & Hc & ->).
  rewrite dec_dot by (try done; apply print_dec_nonempty).
  destruct (dec_fields d [] (Some dot) ((([] ++ [b2z a]) ++ [b2z b]) ++ [b2z c])) as (ld & nd & Hd & E). rewrite app_nil_r in E.
  rewrite E. cbn -[z2b b2z]. change (len [b2z a; b2z b; b2z c] <? 3) with false. cbn -[z2b b2z]. by rewrite !z2b_b2z.
Qed.

Lemma kind_dec whole b rest : parse_kind whole (print_dec (b2z b) ++ dot :: rest) = parseIPv4 whole.
Proof. destruct b; reflexivity. Qed.

Lemma string4_kind a b c d whole rest : parse_kind whole (string4 [a; b; c; d] ++ rest) = parseIPv4 whole.
Proof. unfold string4. cbn [map]. rewrite <- !app_assoc. apply kind_dec. Qed.

Lemma parse_string4 raw : length raw = 4%nat -> ParseAddr (string4 raw) = Some (AddrFrom4 raw).
Proof.
  intros H. do 5 (destruct raw as [|? raw]; try done). unfold ParseAddr.
  rewrite <- (app_nil_r (string4 _)) at 2. rewrite string4_kind. unfold parseIPv4. by rewrite fields_string4.
Qed.

(** *** Hexadecimal groups *)

Lemma hexval_digit d : 0 <= d < 16 -> hexval (hexdigit d) = Some d.
Proof.
  intros H. assert (Hall : forallb (fun d => bool_decide (hexval (hexdigit d) = Some d)) (seqZ 0 16) = true) by (vm_compute; reflexivity).
  rewrite forallb_forall in Hall. apply (bool_decide_eq_true_1 (hexval (hexdigit d) = Some d)), Hall, list_elem_of_In, elem_of_seqZ. lia.
Qed.

Definition no_hex (rest : list byte) : Prop := match rest with c :: _ => hexval c = None | [] => True end.

Lemma hex_stop rest off acc : no_hex rest -> hex_group rest off acc = Some (rest, off, acc).
Proof. destruct rest as [|c rest]; [done|]. cbn. by intros ->. Qed.

Lemma hex_digit_step d rest off acc : 0 <= d < 16 -> 0 <= acc < 4096 -> off <= 3 ->
  hex_group (hexdigit d :: rest) off acc = hex_group rest (off + 1) (acc * 16 + d).
Proof.
  intros Hd Ha Ho. cbn [hex_group]. rewrite hexval_digit by done. unfold u32. rewrite Z.shiftl_mul_pow2 by lia.
  rewrite Z.mod_small by lia. change (2 ^ 4) with 16. destruct (Z.ltb_spec 3 off); [lia|].
  destruct (Z.ltb_spec 65535 (acc * 16 + d)); [lia|]. done.
Qed.

Lemma div16 g : 0 <= g -> exists q r, g / 16 = q /\ g mod 16 = r /\ g = 16 * q + r /\ 0 <= r < 16 /\ 0 <= q.
Proof.
  intros H. exists (g / 16), (g mod 16). pose proof (Z.div_mod g 16 ltac:(lia)). pose proof (Z.mod_pos_bound g 16 ltac:(lia)).
  pose proof (Z.div_pos g 16 H ltac:(lia)). lia.
Qed.

Lemma hex_print g rest : 0 <= g < 65536 -> no_hex rest ->
  exists n, n <> 0 /\ hex_group (print_hex g ++ rest) 0 0 = Some (rest, n, g).
Proof.
  intros Hg Hr. unfold print_hex. rewrite !Z.shiftr_div_pow2 by lia. rewrite <- !app_assoc. cbn [app].
  change 15 with (Z.ones 4). rewrite !Z.land_ones by lia. change (2 ^ 12) with (16 * 16 * 16). change (2 ^ 8) with (16 * 16). change (2 ^ 4) with 16.
  rewrite <- !Z.div_div by lia. destruct (div16 g) as (q & r & -> & -> & Eg & Hr0 & Hq); [lia|].
  destruct (div16 q) as (q2 & r2 & -> & -> & Eq & Hr2 & Hq2); [lia|]. destruct (div16 q2) as (q3 & r3 & -> & -> & Eq2 & Hr3 & Hq3); [lia|].
  destruct (Z.leb_spec 4096 g); [|destruct (Z.leb_spec 256 g); [|destruct (Z.leb_spec 16 g)]].
  - destruct (Z.leb_spec 256 g); [|lia]. destruct (Z.leb_spec 16 g); [|lia]. cbn [app]. exists 4. split; [done|].
    rewrite !hex_digit_step by lia. rewrite hex_stop by done. do 2 f_equal. lia.
  - destruct (Z.leb_spec 16 g); [|lia]. cbn [app]. exists 3. split; [done|].
    rewrite !hex_digit_step by lia. rewrite hex_stop by done. do 2 f_equal. lia.
  - cbn [app]. exists 2. split; [done|]. rewrite !hex_digit_step by lia. rewrite hex_stop by done. do 2 f_equal. lia.
  - cbn [app]. exists 1. split; [done|]. rewrite !hex_digit_step by lia. rewrite hex_stop by done. do 2 f_equal. lia.
Qed.

Lemma dec_hex b rest : exists n acc, n <> 0 /\ hex_group (print_dec (b2z b) ++ dot :: rest) 0 0 = Some (dot :: rest, n, acc).
Proof. destruct b; eexists _, _; (split; [|reflexivity]); discriminate. Qed.

(** *** The text of an IPv6 address *)

Definition tail_groups (gs : list Z) : list byte := flat_map (fun g => colon :: print_hex g) gs.
Definition join_groups (gs : list Z) : list byte := match gs with [] => [] | g :: gs => print_hex g ++ tail_groups gs end.
Definition group_bytes (gs : list Z) : list byte := flat_map (fun g => [z2b (Z.shiftr g 8); z2b g]) gs.
Definition groups_ok (gs : list Z) : Prop := Forall (fun g => 0 <= g < 65536) gs.

Lemma tail_no_hex gs rest : no_hex rest -> no_hex (tail_groups gs ++ rest).
Proof. by destruct gs. Qed.

Lemma length_group_bytes gs : length (group_bytes gs) = (2 * length gs)%nat.
Proof. induction gs as [|g gs IH]; [done|]. unfold group_bytes in *. cbn. rewrite IH. lia. Qed.

(** The head of a printed group is neither a colon nor a dot nor a percent. *)
Lemma print_hex_head g : 0 <= g < 65536 -> exists c s, print_hex g = c :: s /\ is_Some (hexval c) /\ Forall (fun x => is_Some (hexval x)) s.
Proof.
  intros Hg. assert (Hd : forall d, 0 <= d < 16 -> is_Some (hexval (hexdigit d))) by (intros d Hd; rewrite hexval_digit by done; by eexists).
  assert (Hall : Forall (fun x => is_Some (hexval x)) (print_hex g)).
  { unfold print_hex. rewrite !Z.shiftr_div_pow2 by lia. change 15 with (Z.ones 4). rewrite !Z.land_ones by lia.
    assert (forall z, 0 <= z mod 2 ^ 4 < 16) as Hm by (intros z; apply Z.mod_pos_bound; lia).
    assert (0 <= g / 2 ^ 12 < 16) as Htop by (split; [apply Z.div_pos; lia|apply Z.div_lt_upper_bound; lia]).
    repeat (apply Forall_app; split); repeat case_match; repeat constructor; by apply Hd. }
  destruct (print_hex g) as [|c s] eqn:E.
  - exfalso. unfold print_hex in E. apply (f_equal length) in E. rewrite !length_app in E. cbn in E. lia.
  - apply Forall_cons in Hall as [Hc Hs]. by exists c, s.
Qed.

Lemma hex_not c x : is_Some (hexval c) -> hexval x = None -> c <> x.
Proof. intros [d Hd] Hx ->. congruence. Qed.

(** The loop over a run of groups up to the end of the text... *)
Lemma groups_end gs : gs <> [] -> groups_ok gs -> forall n ip e, (length gs <= n)%nat -> (length ip + 2 * length gs <= 16)%nat ->
  ipv6_groups n (join_groups gs) ip e = Some ([], ip ++ group_bytes gs, e).
Proof.
  intros Hne Hok. induction gs as [|g gs IH]; [done|]. intros n ip e Hn Hlen. destruct n as [|n]; [cbn in Hn; lia|].
  apply Forall_cons in Hok as [Hg Hok]. cbn [ipv6_groups]. cbn [length] in *.
  destruct (Z.leb_spec 16 (len ip)); [unfold len in *; lia|]. cbn [join_groups].
  destruct (hex_print g (tail_groups gs) Hg) as (k & Hk & ->); [by destruct gs|]. cbn [mbind option_bind].
  destruct (Z.eqb_spec k 0); [done|]. destruct gs as [|g' gs]; [done|]. cbn [tail_groups flat_map app].
  change (bool_decide (colon = dot)) with false. cbn iota. change (bool_decide (colon = colon)) with true. cbn [negb].
  apply Forall_cons in Hok as Hok'. destruct Hok' as [Hg' _]. destruct (print_hex_head g' Hg') as (c & s & Ec & Hc & _).
  change (flat_map _ gs) with (tail_groups gs). rewrite Ec. cbn [app].
  rewrite (bool_decide_eq_false_2 (c = colon)) by (apply hex_not; done).
  change (c :: s ++ tail_groups gs) with ((c :: s) ++ tail_groups gs). rewrite <- Ec.
  change (print_hex g' ++ tail_groups gs) with (join_groups (g' :: gs)). rewrite IH; [|done|done|cbn [length] in *; lia|rewrite length_app; cbn [length] in *; lia].
  by rewrite <- app_assoc.
Qed.

(** ... and up to an ellipsis. *)
Lemma groups_ellipsis gs rest : gs <> [] -> groups_ok gs -> forall n ip, (length gs <= n)%nat -> (length ip + 2 * length gs <= 16)%nat ->
  ipv6_groups n (join_groups gs ++ colon :: colon :: rest) ip None =
  let ip' := ip ++ group_bytes gs in
  match rest with [] => Some ([], ip', Some (length ip')) | _ => ipv6_groups (n - length gs) rest ip' (Some (length ip')) end.
Proof.
  intros Hne Hok. induction gs as [|g gs IH]; [done|]. intros n ip Hn Hlen. destruct n as [|n]; [cbn in Hn; lia|].
  apply Forall_cons in Hok as [Hg Hok]. cbn [ipv6_groups]. cbn [length] in *.
  destruct (Z.leb_spec 16 (len ip)); [unfold len in *; lia|]. cbn [join_groups]. rewrite <- app_assoc.
  destruct (hex_print g (tail_groups gs ++ colon :: colon :: rest) Hg) as (k & Hk & ->); [by apply tail_no_hex|]. cbn [mbind option_bind].
  destruct (Z.eqb_spec k 0); [done|]. destruct gs as [|g' gs].
  - cbn [tail_groups flat_map app length]. change (bool_decide (colon = dot)) with false. cbn iota.
    change (bool_decide (colon = colon)) with true. cbn [negb].
    rewrite (bool_decide_eq_false_2 (is_Some None)) by (by intros [? [=]]). cbn [group_bytes flat_map app]. rewrite Nat.sub_succ, Nat.sub_0_r. done.
  - cbn [tail_groups flat_map app]. change (bool_decide (colon = dot)) with false. cbn iota.
    change (bool_decide (colon = colon)) with true. cbn [negb].
    apply Forall_cons in Hok as Hok'. destruct Hok' as [Hg' _]. destruct (print_hex_head g' Hg') as (c & s & Ec & Hc & _).
    change (flat_map _ gs) with (tail_groups gs). rewrite Ec. cbn [app].
    rewrite (bool_decide_eq_false_2 (c = colon)) by (apply hex_not; done).
    change (c :: (s ++ tail_groups gs) ++ colon :: colon :: rest) with (((c :: s) ++ tail_groups gs) ++ colon :: colon :: rest). rewrite <- Ec.
    change (print_hex g' ++ tail_groups gs) with (join_groups (g' :: gs)).
    rewrite IH; [|done|done|cbn [length] in *; lia|rewrite length_app; cbn [length] in *; lia].
    cbn zeta. rewrite <- !app_assoc. done.
Qed.

(** *** Runs of zero groups *)

Lemma zeros_split gs : gs = repeat 0 (zeros_in gs) ++ drop (zeros_in gs) gs.
Proof. induction gs as [|g gs IH]; [done|]. cbn. destruct (Z.eqb_spec g 0) as [->|]; [|done]. cbn. by rewrite <- IH. Qed.

Definition run_ok (gs : list Z) (run : nat * nat) : Prop :=
  run = (255, 255)%nat \/
  (fst run + 2 <= snd run)%nat /\ (snd run <= length gs)%nat /\
  gs = take (fst run) gs ++ repeat 0 (snd run - fst run) ++ drop (snd run) gs.

Lemma zero_run_ok gs : run_ok gs (zero_run gs).
Proof.
  unfold zero_run. assert (H : forall l best, run_ok gs best -> run_ok gs (foldl (fun (best : nat * nat) i =>
      let j := (i + zeros_in (drop i gs))%nat in
      if (2 <=? j - i)%nat && (snd best - fst best <? j - i)%nat then (i, j) else best) best l)).
  { induction l as [|i l IH]; intros best Hb; [done|]. cbn [foldl]. apply IH. cbn zeta. destruct (_ && _) eqn:E; [|done]. right. cbn.
    apply andb_true_iff in E as [E%Nat.leb_le _]. set (z := zeros_in (drop i gs)) in *.
    pose proof (zeros_split (drop i gs)) as Hs. fold z in Hs. rewrite drop_drop in Hs.
    assert (Hl : (z <= length (drop i gs))%nat) by (rewrite Hs, length_app, repeat_length; lia). rewrite length_drop in Hl.
    split; [lia|]. split; [lia|]. replace (i + z - i)%nat with z by lia. rewrite <- Hs. by rewrite take_drop. }
  apply H. by left.
Qed.

(** *** What the printing loop prints *)

Lemma nth_drop_cons gs i : (i < length gs)%nat -> drop i gs = nth i gs 0 :: drop (S i) gs.
Proof.
  revert i. induction gs as [|g gs IH]; intros i Hi; [cbn in Hi; lia|]. destruct i as [|i]; [done|]. cbn [drop nth length] in *.
  rewrite IH by lia. done.
Qed.

(** Behind the run (or without one). *)
Lemma print_after gs run n : forall i, (0 < i)%nat -> (fst run < i \/ length gs <= fst run)%nat -> (length gs <= i + n)%nat ->
  print_groups n gs run i = tail_groups (drop i gs).
Proof.
  induction n as [|n IH]; intros i Hi Hr Hn.
  - rewrite drop_ge by lia. done.
  - cbn [print_groups]. destruct (Nat.leb_spec (length gs) i); [rewrite drop_ge by lia; done|].
    destruct (Nat.eqb_spec i (fst run)); [lia|]. destruct (Nat.ltb_spec 0 i); [|lia].
    rewrite IH by lia. rewrite (nth_drop_cons gs i) by lia. done.
Qed.

Lemma print_ellipsis gs run n : (fst run < snd run)%nat -> (snd run <= length gs)%nat -> (length gs <= fst run + n)%nat ->
  print_groups n gs run (fst run) = colon :: colon :: join_groups (drop (snd run) gs).
Proof.
  intros Hr Hl Hn. destruct n as [|n]; [lia|]. cbn [print_groups]. destruct (Nat.leb_spec (length gs) (fst run)); [lia|].
  rewrite Nat.eqb_refl. cbn [app]. do 2 f_equal. destruct (Nat.leb_spec (length gs) (snd run)); [rewrite drop_ge by lia; done|].
  rewrite print_after by lia. rewrite (nth_drop_cons gs (snd run)) by lia. done.
Qed.

Lemma print_before gs run n : forall i, (0 < i <= fst run)%nat -> (fst run < snd run)%nat -> (snd run <= length gs)%nat -> (length gs <= i + n)%nat ->
  print_groups n gs run i = tail_groups (take (fst run - i) (drop i gs)) ++ colon :: colon :: join_groups (drop (snd run) gs).
Proof.
  induction n as [|n IH]; intros i Hi Hr Hl Hn; [lia|]. destruct (decide (i = fst run)) as [E|Hne].
  - rewrite E. rewrite Nat.sub_diag. cbn [take tail_groups flat_map app]. apply print_ellipsis; lia.
  - cbn [print_groups]. destruct (Nat.leb_spec (length gs) i); [lia|]. destruct (Nat.eqb_spec i (fst run)); [lia|].
    destruct (Nat.ltb_spec 0 i); [|lia]. rewrite IH by lia. rewrite (nth_drop_cons gs i) by lia.
    replace (fst run - i)%nat with (S (fst run - S i)) by lia. cbn [take tail_groups flat_map app]. by rewrite <- !app_assoc.
Qed.

Lemma print_first n g gs run : fst run <> 0%nat ->
  print_groups (S n) (g :: gs) run 0 = print_hex g ++ print_groups n (g :: gs) run 1.
Proof. intros H. cbn [print_groups length Nat.leb]. by destruct (Nat.eqb_spec 0 (fst run)). Qed.

Lemma print_groups_shape gs : length gs = 8%nat ->
  let run := zero_run gs in
  (run = (255, 255)%nat /\ print_groups 8 gs run 0 = join_groups gs) \/
  (fst run + 2 <= snd run)%nat /\ (snd run <= 8)%nat /\
  gs = take (fst run) gs ++ repeat 0 (snd run - fst run) ++ drop (snd run) gs /\
  print_groups 8 gs run 0 = join_groups (take (fst run) gs) ++ colon :: colon :: join_groups (drop (snd run) gs).
Proof.
  intros Hl. cbn zeta. pose proof (zero_run_ok gs) as Hok. generalize dependent (zero_run gs). intros run [E|(H1 & H2 & H3)].
  - left. split; [exact E|]. rewrite E. destruct gs as [|g gs]; [done|]. rewrite print_first by done.
    rewrite print_after; [done|lia|right; rewrite Hl; cbn; lia|lia].
  - right. rewrite Hl in H2. split; [exact H1|]. split; [exact H2|]. split; [exact H3|].
    destruct (fst run) as [|s] eqn:Es.
    + change (join_groups (take 0 gs)) with (@nil byte). cbn [app].
      pose proof (print_ellipsis gs run 8) as Hp. rewrite Es in Hp. apply Hp; lia.
    + destruct gs as [|g gs]; [done|]. rewrite print_first by lia.
      rewrite print_before by lia. rewrite Es. cbn [take join_groups drop]. replace (S s - 1)%nat with s by lia. by rewrite app_assoc.
Qed.

(** *** Addresses of 16 bytes *)

Lemma groups_bytes raw : (exists n, length raw = (2 * n)%nat) -> group_bytes (groups raw) = raw /\ groups_ok (groups raw) /\
  length (groups raw) = Nat.div2 (length raw).
Proof.
  intros [n Hn]. revert raw Hn. induction n as [|n IH]; intros raw Hn.
  - destruct raw; [|done]. split; [done|]. split; [constructor|done].
  - destruct raw as [|a [|b raw]]; [done|cbn in Hn; lia|]. destruct (IH raw) as (H1 & H2 & H3); [cbn in Hn; lia|].
    pose proof (b2z_range a). pose proof (b2z_range b). cbn [groups group_bytes flat_map app]. change (flat_map _ (groups raw)) with (group_bytes (groups raw)).
    rewrite H1. split.
    + f_equal; [|f_equal].
      * rewrite Z.shiftr_div_pow2 by lia. change (2 ^ 8) with 256. rewrite Z.div_add_l by lia. rewrite Z.div_small by lia. rewrite Z.add_0_r. apply z2b_b2z.
      * unfold z2b. rewrite Z.add_comm, Z_mod_plus_full. rewrite Z.mod_small by lia. unfold b2z. rewrite N2Z.id. by rewrite Byte.of_to_N.
    + split; [constructor; [lia|done]|]. cbn [length]. by rewrite H3.
Qed.

Lemma group_bytes_app gs hs : group_bytes (gs ++ hs) = group_bytes gs ++ group_bytes hs.
Proof. apply flat_map_app. Qed.
Lemma group_bytes_zeros n : group_bytes (repeat 0 n) = repeat x00 (2 * n).
Proof. induction n as [|n IH]; [done|]. replace (2 * S n)%nat with (S (S (2 * n))) by lia. cbn [repeat]. unfold group_bytes in *. cbn [flat_map]. by rewrite IH. Qed.

(** *** The whole text *)

Definition zone_opt (z : list byte) : option (list byte) := if bool_decide (z = []) then None else Some z.

Lemma split_zoned s z : Forall (fun c => c <> percent) s -> split_zone (s ++ with_zone z) = (s, zone_opt z).
Proof.
  unfold with_zone, zone_opt. induction 1 as [|c s Hc _ IH]; cbn.
  - case_bool_decide; [done|]. cbn. done.
  - rewrite bool_decide_eq_false_2 by done. by rewrite IH.
Qed.

Lemma zone_opt_default z : default [] (zone_opt z) = z /\ bool_decide (zone_opt z = Some []) = false.
Proof. unfold zone_opt. case_bool_decide as E; [by subst|]. split; [done|]. apply bool_decide_eq_false_2. congruence. Qed.

Lemma kind_hex whole s rest : Forall (fun c => is_Some (hexval c)) s -> parse_kind whole (s ++ colon :: rest) = parseIPv6 whole.
Proof.
  induction 1 as [|c s Hc _ IH]; [done|]. cbn [app parse_kind]. rewrite !bool_decide_eq_false_2; [exact IH|by apply hex_not..].
Qed.

Lemma print_hex_chars g : 0 <= g < 65536 -> Forall (fun c => is_Some (hexval c)) (print_hex g).
Proof. intros Hg. destruct (print_hex_head g Hg) as (c & s & -> & Hc & Hs). by constructor. Qed.

Lemma join_chars gs : groups_ok gs -> Forall (fun c => is_Some (hexval c) \/ c = colon) (join_groups gs).
Proof.
  intros Hok. destruct gs as [|g gs]; [constructor|]. apply Forall_cons in Hok as [Hg Hok]. cbn.
  assert (Hh : forall h, 0 <= h < 65536 -> Forall (fun c => is_Some (hexval c) \/ c = colon) (print_hex h)).
  { intros h Hh. eapply Forall_impl; [by apply print_hex_chars|]. intros c Hc. by left. }
  apply Forall_app. split; [by apply Hh|]. induction Hok as [|h gs Hb _ IH]; [constructor|]. cbn. constructor; [by right|].
  apply Forall_app. split; [by apply Hh|exact IH].
Qed.

Lemma no_percent s : Forall (fun c => is_Some (hexval c) \/ c = colon) s -> Forall (fun c => c <> percent) s.
Proof. intros H. eapply Forall_impl; [exact H|]. intros c [[d Hd]| ->]; [|done]. by intros ->. Qed.

Lemma parse_string6 raw z : length raw = 16%nat -> ParseAddr (string6 raw ++ with_zone z) = Some (Addr6 (be_decode raw) z).
Proof.
  intros Hl. destruct (groups_bytes raw) as (Hb & Hok & Hn); [by exists 8%nat|]. rewrite Hl in Hn. cbn in Hn.
  unfold string6. destruct (print_groups_shape (groups raw) Hn) as [[_ E]|(H1 & H2 & H3 & E)]; rewrite E; clear E.
  - assert (Hpar : parseIPv6 (join_groups (groups raw) ++ with_zone z) = Some (Addr6 (be_decode raw) z)).
    { unfold parseIPv6. rewrite split_zoned by by apply no_percent, join_chars. destruct (zone_opt_default z) as [-> ->]. cbn iota.
      destruct (groups raw) as [|g gs] eqn:Eg; [done|]. apply Forall_cons in Hok as Hok'. destruct Hok' as [Hg _].
      destruct (print_hex_head g Hg) as (c & s & Ec & Hc & _).
      assert (Hhead : exists d s', join_groups (g :: gs) = c :: d :: s').
      { cbn. rewrite Ec. destruct s as [|d s]; [|by exists d, (s ++ tail_groups gs)]. destruct gs as [|g' gs]; [done|]. cbn. by eexists _, _. }
      destruct Hhead as (d & s' & Eh). rewrite Eh. cbn iota. rewrite (bool_decide_eq_false_2 (c = colon)) by (apply hex_not; done).
      cbn [andb]. rewrite (bool_decide_eq_false_2 (is_Some None)) by (by intros [? [=]]). cbn [andb]. rewrite <- Eh.
      rewrite groups_end by (try done; cbn [length] in *; lia). cbn [mbind option_bind app]. rewrite Hb. rewrite bool_decide_eq_true_2 by done. cbn [negb].
      destruct (Z.ltb_spec (len raw) 16); [unfold len in *; lia|]. rewrite bool_decide_eq_false_2 by (by intros [? [=]]). done. }
    destruct (groups raw) as [|g [|g' gs]] eqn:Eg; [done|done|]. apply Forall_cons in Hok as [Hg _].
    unfold ParseAddr. rewrite <- Hpar. cbn [join_groups tail_groups flat_map app]. rewrite <- !app_assoc. cbn [app]. apply kind_hex. by apply print_hex_chars.
  - set (run := zero_run (groups raw)) in *. set (pre := take (fst run) (groups raw)) in *. set (post := drop (snd run) (groups raw)) in *.
    assert (Hpre : groups_ok pre) by by apply Forall_take. assert (Hpost : groups_ok post) by by apply Forall_drop.
    assert (Hlpre : length pre = fst run) by (unfold pre; rewrite length_take; lia).
    assert (Hlpost : length post = (8 - snd run)%nat) by (unfold post; rewrite length_drop; lia).
    assert (Hraw : raw = group_bytes pre ++ repeat x00 (16 - (2 * length pre + 2 * length post)) ++ group_bytes post).
    { rewrite <- Hb, H3, !group_bytes_app, group_bytes_zeros. do 3 f_equal. lia. }
    set (text := join_groups pre ++ colon :: colon :: join_groups post).
    assert (Hnp : Forall (fun c => c <> percent) text).
    { apply no_percent. unfold text. apply Forall_app. split; [by apply join_chars|]. do 2 (constructor; [by right|]). by apply join_chars. }
    assert (Hpar : parseIPv6 (text ++ with_zone z) = Some (Addr6 (be_decode raw) z)).
    { unfold parseIPv6. rewrite split_zoned by done. destruct (zone_opt_default z) as [-> ->]. cbn iota. unfold text. destruct pre as [|g gs] eqn:Epre.
      - cbn [join_groups app]. rewrite !bool_decide_eq_true_2 by done. cbn [andb]. rewrite (bool_decide_eq_true_2 (is_Some (Some 0%nat))) by by eexists.
        cbn [andb]. destruct post as [|h hs] eqn:Epost.
        + cbn [join_groups]. rewrite bool_decide_eq_true_2 by done. rewrite Hraw. reflexivity.
        + rewrite bool_decide_eq_false_2.
          2: { cbn. apply Forall_cons in Hpost as [Hh _]. destruct (print_hex_head h Hh) as (c & s & -> & _). done. }
          rewrite groups_end by (try done; cbn [length] in *; lia). cbn [mbind option_bind app]. rewrite bool_decide_eq_true_2 by done. cbn [negb].
          assert (Hlb : length (group_bytes (h :: hs)) = (2 * length (h :: hs))%nat) by apply length_group_bytes.
          destruct (Z.ltb_spec (len (group_bytes (h :: hs))) 16) as [Hlt|Hge]; [|unfold len in *; cbn [length] in *; lia].
          cbn [mbind option_bind take drop app]. rewrite Hraw, Hlb. reflexivity.
      - apply Forall_cons in Hpre as Hpre'. destruct Hpre' as [Hg _]. destruct (print_hex_head g Hg) as (c & s & Ec & Hc & _).
        assert (Hhead : exists d s', join_groups (g :: gs) ++ colon :: colon :: join_groups post = c :: d :: s').
        { cbn. rewrite Ec. destruct s as [|d s]; [|by eexists _, _]. destruct gs as [|g' gs]; cbn; by eexists _, _. }
        destruct Hhead as (d & s' & Eh). rewrite Eh. cbn iota. rewrite (bool_decide_eq_false_2 (c = colon)) by (apply hex_not; done).
        cbn [andb]. rewrite (bool_decide_eq_false_2 (is_Some None)) by (by intros [? [=]]). cbn [andb]. rewrite <- Eh.
        rewrite groups_ellipsis by (try done; cbn [length] in *; lia). cbn [app]. cbn zeta.
        assert (Hlb : length (group_bytes (g :: gs)) = (2 * length (g :: gs))%nat) by apply length_group_bytes.
        set (ip := group_bytes (g :: gs)) in *.
        assert (Hend : (match join_groups post with [] => Some ([], ip, Some (length ip)) | _ => ipv6_groups (8 - length (g :: gs)) (join_groups post) ip (Some (length ip)) end)
          = Some ([], ip ++ group_bytes post, Some (length ip))).
        { destruct post as [|h hs] eqn:Epost; [cbn; by rewrite app_nil_r|]. rewrite groups_end by (try done; cbn [length] in *; lia).
          apply Forall_cons in Hpost as [Hh _]. cbn. by destruct (print_hex_head h Hh) as (x & y & -> & _). }
        rewrite Hend. cbn [mbind option_bind]. rewrite bool_decide_eq_true_2 by done. cbn [negb].
        assert (Hlp : length (group_bytes post) = (2 * length post)%nat) by apply length_group_bytes.
        destruct (Z.ltb_spec (len (ip ++ group_bytes post)) 16) as [Hlt|Hge]; [|unfold len in *; rewrite length_app in *; cbn [length] in *; lia].
        cbn [mbind option_bind]. rewrite take_app_length, drop_app_length, Hraw, length_app, Hlb, Hlp. reflexivity. }
    unfold ParseAddr. rewrite <- Hpar. unfold text. rewrite <- app_assoc. cbn [app]. destruct pre as [|g gs]; [reflexivity|].
    apply Forall_cons in Hpre as [Hg _]. cbn [join_groups]. rewrite <- app_assoc. destruct gs as [|g' gs]; cbn [tail_groups flat_map app]; apply kind_hex; by apply print_hex_chars.
Qed.

(** *** IPv4-mapped addresses *)

Lemma string4_no_percent a b c d : Forall (fun x => x <> percent) (string4 [a; b; c; d]).
Proof.
  assert (H : forall b, Forall (fun x => x <> percent) (print_dec (b2z b))) by (intros []; repeat constructor; discriminate).
  unfold string4. cbn [map]. rewrite !Forall_app. repeat split; (apply H || by repeat constructor).
Qed.

Lemma groups_dotted n b rest fields ip e :
  parse_fields (print_dec (b2z b) ++ dot :: rest) = Some fields -> len ip <= 12 ->
  ipv6_groups (S n) (print_dec (b2z b) ++ dot :: rest) ip (Some e) = Some ([], ip ++ fields, Some e).
Proof.
  intros Hf Hip. destruct (dec_hex b rest) as (k & acc & Hk & Hh). cbn [ipv6_groups]. destruct (Z.leb_spec 16 (len ip)); [lia|].
  rewrite Hh. cbn [mbind option_bind]. destruct (Z.eqb_spec k 0); [done|].
  rewrite bool_decide_eq_true_2 by done. rewrite (bool_decide_eq_false_2 (Some e = None)) by done. cbn [andb].
  destruct (Z.ltb_spec 16 (len ip + 4)); [lia|]. by rewrite Hf.
Qed.

Lemma groups_more n g c rest ip e : 0 <= g < 65536 -> c <> colon -> len ip < 16 ->
  ipv6_groups (S n) (print_hex g ++ colon :: c :: rest) ip e = ipv6_groups n (c :: rest) (ip ++ [z2b (Z.shiftr g 8); z2b g]) e.
Proof.
  intros Hg Hc Hip. cbn [ipv6_groups]. destruct (Z.leb_spec 16 (len ip)); [lia|].
  destruct (hex_print g (colon :: c :: rest)) as (k & Hk & ->); [done|done|]. cbn [mbind option_bind].
  destruct (Z.eqb_spec k 0); [lia|]. rewrite (bool_decide_eq_false_2 (colon = dot)) by done. rewrite (bool_decide_eq_true_2 (colon = colon)) by done.
  cbn [negb]. by rewrite (bool_decide_eq_false_2 (c = colon)).
Qed.

Lemma mapped_groups a b c d :
  ipv6_groups 8 (print_hex 65535 ++ colon :: string4 [a; b; c; d]) [] (Some 0%nat) = Some ([], [xff; xff; a; b; c; d], Some 0%nat).
Proof.
  pose proof (fields_string4 a b c d) as Hf. unfold string4 in *. cbn [map app] in *.
  pose proof (groups_dotted 6 a (print_dec (b2z b) ++ dot :: print_dec (b2z c) ++ dot :: print_dec (b2z d)) [a; b; c; d] [xff; xff] 0 Hf) as Hd.
  assert (Hc : exists x s, print_dec (b2z a) = x :: s /\ x <> colon) by (clear; destruct a; by eexists _, _).
  destruct Hc as (x & s & Ex & Hx). rewrite Ex in *. cbn [app] in *. rewrite groups_more by done. exact (Hd ltac:(done)).
Qed.

Lemma parse_mapped raw z : length raw = 4%nat ->
  ParseAddr (bytes_of "::ffff:" ++ string4 raw ++ with_zone z) = Some (Addr6 (be_decode (repeat x00 10 ++ [xff; xff] ++ raw)) z).
Proof.
  intros H. destruct raw as [|a [|b [|c [|d [|]]]]]; try done. clear H.
  rewrite app_assoc. transitivity (parseIPv6 ((bytes_of "::ffff:" ++ string4 [a; b; c; d]) ++ with_zone z)); [reflexivity|].
  unfold parseIPv6. rewrite split_zoned.
  2: { apply Forall_app. split; [repeat constructor; discriminate|apply string4_no_percent]. }
  destruct (zone_opt_default z) as [-> ->]. cbn iota. change (bytes_of "::ffff:" ++ string4 [a; b; c; d]) with (colon :: colon :: print_hex 65535 ++ colon :: string4 [a; b; c; d]).
  cbn iota. rewrite !bool_decide_eq_true_2 by done. cbn [andb]. rewrite (bool_decide_eq_false_2 (print_hex 65535 ++ _ = [])) by done. cbn [andb].
  rewrite bool_decide_eq_true_2 by by eexists. cbn [andb]. rewrite mapped_groups. cbn [mbind option_bind]. rewrite bool_decide_eq_true_2 by done. reflexivity.
Qed.

(** *** The round trip *)

(** An address whose value fits its family. *)
Definition addr_wf (x : Addr) : Prop :=
  match x with AddrInvalid => False | Addr4 a => 0 <= a < 2 ^ 32 | Addr6 a _ => 0 <= a < 2 ^ 128 end.

Lemma mapped_value a : Z.shiftr a 32 = 65535 ->
  be_decode (repeat x00 10 ++ [xff; xff] ++ be_encode 4 (a mod 2 ^ 32)) = a.
Proof.
  intros H. rewrite Z.shiftr_div_pow2 in H by lia.
  assert (Hz : forall n l, be_decode (repeat x00 n ++ l) = be_decode l).
  { induction n as [|n IH]; intros l; [done|]. cbn [repeat app]. rewrite be_decode_cons, IH. done. }
  rewrite Hz. cbn [app]. rewrite !be_decode_cons, be_decode_encode. autorewrite with np2_len.
  change (b2z xff) with 255. pose proof (Z.div_mod a (2 ^ 32)) as Hd.
  change (8 * (1 + Z.of_nat 4)) with 40. change (8 * Z.of_nat 4) with 32. rewrite Z.mod_mod by lia. lia.
Qed.

Lemma ParseAddr_String x : addr_wf x -> ParseAddr (AddrString x) = Some x.
Proof.
  destruct x as [|a|a z]; intros Hx; [done| |].
  - cbn [AddrString As4]. rewrite parse_string4 by apply length_be_encode. unfold AddrFrom4. rewrite be_decode_encode. rewrite Z.mod_small; [done|exact Hx].
  - unfold AddrString. destruct (Is4In6 (Addr6 a z)) eqn:E.
    + cbn in E. apply Z.eqb_eq in E. unfold Unmap. cbn [Is4In6]. rewrite (proj2 (Z.eqb_eq _ _) E). cbn [As4]. rewrite <- app_assoc.
      rewrite parse_mapped by apply length_be_encode. by rewrite mapped_value.
    + cbn [As16]. rewrite parse_string6 by apply length_be_encode. rewrite be_decode_encode, Z.mod_small; [done|exact Hx].
Qed.

(** ** Prefixes as text *)

(** [strconv.Atoi] of a text that [ParsePrefix] has found not to begin with a
    sign or a needless zero. *)
Fixpoint decimal (s : list byte) (acc : Z) : option Z :=
  match s with
  | [] => Some acc
  | c :: s => if is_dec c then decimal s (acc * 10 + (b2z c - 48)) else None
  end.

Definition BitLen (x : Addr) : Z := match x with AddrInvalid => 0 | Addr4 _ => 32 | Addr6 _ _ => 128 end.

Definition ParsePrefix (s : list byte) : option Prefix :=
  '(addr, bits) ← split_last x2f s;
  ip ← ParseAddr addr;
  if negb (bool_decide (Zone ip = [])) then None
  else if (1 <? len bits) && negb ((49 <=? byte_at bits 0) && (byte_at bits 0 <=? 57)) then None
  else if bool_decide (bits = []) then None
  else n ← decimal bits 0; if BitLen ip <? n then None else Some (mkPrefix ip n).

Definition PrefixString (p : Prefix) : list byte := AddrString (px_addr p) ++ [x2f] ++ print_dec (px_bits p).

Lemma split_last_app sep a b : has_byte sep b = false -> split_last sep (a ++ sep :: b) = Some (a, b).
Proof.
  intros H. assert (Hn : split_last sep b = None).
  { clear a. induction b as [|c b IH]; [done|]. cbn in H. apply orb_false_iff in H as [Hc Hb]. cbn. by rewrite IH, Hc. }
  induction a as [|c a IH]; cbn; [|by rewrite IH]. rewrite Hn. by rewrite bool_decide_eq_true_2.
Qed.

Lemma print_bits n : 0 <= n <= 128 ->
  has_byte x2f (print_dec n) = false /\ print_dec n <> [] /\ decimal (print_dec n) 0 = Some n /\
  (1 <? len (print_dec n)) && negb ((49 <=? byte_at (print_dec n) 0) && (byte_at (print_dec n) 0 <=? 57)) = false.
Proof.
  intros Hn. set (f := fun n => negb (has_byte x2f (print_dec n)) && negb (bool_decide (print_dec n = [])) && bool_decide (decimal (print_dec n) 0 = Some n)
    && negb ((1 <? len (print_dec n)) && negb ((49 <=? byte_at (print_dec n) 0) && (byte_at (print_dec n) 0 <=? 57)))).
  assert (Hall : forallb f (seqZ 0 129) = true) by (vm_compute; reflexivity).
  rewrite forallb_forall in Hall. specialize (Hall n). unfold f in Hall. rewrite !andb_true_iff, !negb_true_iff, bool_decide_eq_false, bool_decide_eq_true in Hall.
  destruct Hall as [[[H1 H2] H3] H4]; [|by auto]. apply list_elem_of_In, elem_of_seqZ. lia.
Qed.

Lemma ParsePrefix_String p : addr_wf (px_addr p) -> Zone (px_addr p) = [] -> 0 <= px_bits p <= BitLen (px_addr p) ->
  ParsePrefix (PrefixString p) = Some p.
Proof.
  destruct p as [ip n]; cbn [px_addr px_bits]. intros Hwf Hz Hn. unfold ParsePrefix, PrefixString. cbn [px_addr px_bits].
  destruct (print_bits n) as (H1 & H2 & H3 & H4); [destruct ip; cbn in Hn; lia|].
  change ([x2f] ++ print_dec n) with (x2f :: print_dec n). rewrite split_last_app by done. cbn [mbind option_bind].
  rewrite ParseAddr_String by done. cbn [mbind option_bind]. rewrite (bool_decide_eq_true_2 (Zone ip = [])), H4, (bool_decide_eq_false_2 (print_dec n = [])), H3 by done.
  cbn [negb mbind option_bind]. destruct (Z.ltb_spec (BitLen ip) n); [lia|done].
Qed.

(** ** What parsing returns is an address *)

Lemma ipv4_fields_length s prev fields val n l : len fields <= 3 -> ipv4_fields s prev fields val n = Some l -> length l = 4%nat.
Proof.
  revert prev fields val n. induction s as [|c s IH]; intros prev fields val n Hf; cbn [ipv4_fields].
  - destruct (Z.ltb_spec (len fields) 3); [done|]. intros [= <-]. rewrite length_app. unfold len in *. cbn. lia.
  - destruct (is_dec c).
    + destruct (_ && _); [done|]. destruct (_ <? _); [done|]. by apply IH.
    + case_bool_decide; [|done]. destruct (_ || _); [done|]. destruct (Z.eqb_spec (len fields) 3); [done|]. apply IH. unfold len in *. rewrite length_app. cbn. lia.
Qed.

Lemma parse_fields_length s l : parse_fields s = Some l -> length l = 4%nat.
Proof. unfold parse_fields. intros (v & Hv & ->)%fmap_Some. rewrite length_map. apply (ipv4_fields_length s None [] 0 0 v); [vm_compute; discriminate|exact Hv]. Qed.

Lemma ipv6_groups_length n s ip e rest l e' : Nat.even (length ip) = true -> (length ip <= 16)%nat ->
  ipv6_groups n s ip e = Some (rest, l, e') -> (length l <= 16)%nat.
Proof.
  revert s ip e. induction n as [|n IH]; intros s ip e Heven Hl; cbn [ipv6_groups]; [intros [= _ <- _]; done|].
  destruct (Z.leb_spec 16 (len ip)) as [|Hlt]; [intros [= _ <- _]; done|].
  assert (H14 : forall x y : byte, Nat.even (length (ip ++ [x; y])) = true /\ (length (ip ++ [x; y]) <= 16)%nat).
  { intros x y. rewrite length_app. cbn [length]. rewrite Nat.add_comm. cbn [Nat.add Nat.even]. split; [done|].
    unfold len in Hlt. apply Nat.even_spec in Heven as [k Hk]. lia. }
  destruct (hex_group s 0 0) as [[[r off] acc]|]; [|done]. cbn [mbind option_bind]. destruct (off =? 0); [done|].
  destruct r as [|c r]; [intros [= _ <- _]; apply H14|]. case_bool_decide.
  - destruct (_ && _); [done|]. destruct (Z.ltb_spec 16 (len ip + 4)); [done|]. destruct (parse_fields s) as [f|] eqn:Ef; [|done]. cbn [mbind option_bind].
    intros [= _ <- _]. rewrite length_app, (parse_fields_length _ _ Ef). unfold len in *. lia.
  - destruct (negb _); [done|]. destruct r as [|c' r]; [done|]. destruct (H14 (z2b (Z.shiftr acc 8)) (z2b acc)) as [H1 H2].
    case_bool_decide; [|by apply IH]. case_bool_decide; [done|]. destruct r; [intros [= _ <- _]; done|by apply IH].
Qed.

Lemma be_decode_bound l n : (length l <= n)%nat -> 0 <= be_decode l < 2 ^ (8 * Z.of_nat n).
Proof.
  intros H. pose proof (be_decode_range l) as [H1 H2]. split; [done|]. eapply Z.lt_le_trans; [exact H2|]. apply Z.pow_le_mono_r; unfold len; lia.
Qed.

Lemma ParseAddr_wf s x : ParseAddr s = Some x -> addr_wf x.
Proof.
  assert (H4 : forall s x, parseIPv4 s = Some x -> addr_wf x).
  { intros t y (l & Hl & ->)%fmap_Some. apply (be_decode_bound l 4). apply parse_fields_length in Hl. lia. }
  assert (H6 : forall s x, parseIPv6 s = Some x -> addr_wf x).
  { intros t y. unfold parseIPv6. destruct (split_zone t) as [u z]. case_bool_decide; [done|].
    destruct (match u with _ :: _ => _ | [] => _ end) as [v e]. destruct (_ && _); [intros [= <-]; cbn; lia|].
    destruct (ipv6_groups 8 v [] e) as [[[rest ip] e']|] eqn:Eg; [|done]. apply ipv6_groups_length in Eg; [|done|cbn; lia].
    cbn [mbind option_bind]. destruct (negb _); [done|]. destruct (Z.ltb_spec (len ip) 16).
    - destruct e' as [e'|]; [|done]. cbn [mbind option_bind]. intros [= <-]. apply (be_decode_bound _ 16). rewrite !length_app, repeat_length, length_take, length_drop. lia.
    - case_bool_decide; [done|]. intros [= <-]. by apply (be_decode_bound _ 16). }
  assert (Hk : forall whole t, parse_kind whole t = Some x -> addr_wf x).
  { intros whole t. induction t as [|c t IH]; [done|]. cbn [parse_kind]. repeat case_bool_decide; [apply H4|apply H6|done|exact IH]. }
  apply Hk.
Qed.

Lemma Unmap_wf x : addr_wf x -> addr_wf (Unmap x).
Proof. destruct x as [|a|a z]; cbn [Unmap]; [done|done|]. destruct (Is4In6 _); [|done]. intros _. apply Z.mod_pos_bound. lia. Qed.

Lemma Unmap_idem x : Unmap (Unmap x) = Unmap x.
Proof. destruct x as [|a|a z]; [done|done|]. unfold Unmap at 2 3. destruct (Is4In6 (Addr6 a z)) eqn:E; [done|]. unfold Unmap. by rewrite E. Qed.

Lemma Unmap_zone x : Zone x = [] -> Zone (Unmap x) = [].
Proof. destruct x as [|a|a z]; [done|done|]. unfold Unmap. by destruct (Is4In6 _). Qed.

Lemma Unmap_valid x : IsValid (Unmap x) = IsValid x.
Proof. destruct x as [|a|a z]; [done|done|]. unfold Unmap. by destruct (Is4In6 _). Qed.
