(* ===== verification/DnsAttribution.v ===== *)
(** * DNS attribution (internal/tunstack/dns_attribution.go)

    The cache that names the domain of an address from the DNS traffic of the
    tunnel: queries are remembered until their response comes, a response may
    name only addresses its own question leads to.  Parsing a packet is the
    third-party [dnsmessage.Message.Unpack], a parameter; the order in which Go
    ranges over a map is an argument of the operations that depend on it. *)
From stdpp Require Import prelude list gmap countable.
From S2P Require Import Prelude Text Maps Netip.

Definition dnsAttributionMaxPacket : Z := 65535.
Definition dnsAttributionMaxPending : Z := 4096.
Definition dnsAttributionMaxAddresses : Z := 8192.
Definition dnsAttributionPendingTTL : Z := 30 * 1000000000.
Definition dnsAttributionMaximumTTL : Z := 3600 * 1000000000.

(** ** What the code reads of a [dnsmessage.Message] *)

Inductive ResourceBody := AResource (raw : list byte) | AAAAResource (raw : list byte) | CNAMEResource (name : list byte) | OtherResource.
Record Resource := mkResource { rs_Name : list byte; rs_TTL : Z; rs_Body : ResourceBody }.
Record Question := mkQuestion { qs_Name : list byte; qs_Type : Z; qs_Class : Z }.
Record Message := mkMessage {
  msg_ID : Z; msg_Response : bool; msg_Truncated : bool; msg_RCode : Z; msg_Questions : list Question; msg_Answers : list Resource
}.
Definition ClassINET : Z := 1.
Definition TypeA : Z := 1.
Definition TypeAAAA : Z := 28.
Definition RCodeSuccess : Z := 0.

(** ** Names *)

Definition dns_char (c : byte) : bool := is_lower c || is_dec c || is_hyphen c || is_underscore c.
Definition dns_label (label : list byte) : bool :=
  negb ((len label =? 0) || (63 <? len label) || (byte_at label 0 =? 45) || (byte_at label (length label - 1) =? 45)) && forallb dns_char label.

Definition canonicalDNSName (value : list byte) : option (list byte) :=
  let value := ToLower (TrimSuffix (TrimSpace value) [x2e]) in
  if bool_decide (value = []) || (253 <? len value) then None
  else if forallb dns_label (Split x2e value) then Some value else None.

Record dnsQuestion := mkDQ { dq_name : list byte; dq_type : Z; dq_class : Z }.
#[global] Instance dnsQuestion_eq_dec : EqDecision dnsQuestion.
Proof. solve_decision. Defined.

Definition dns_question (q : Question) : option dnsQuestion :=
  name ← canonicalDNSName (qs_Name q); Some (mkDQ name (qs_Type q) (qs_Class q)).

Definition dnsQuestions (questions : list Question) : option (list dnsQuestion) :=
  if (len questions =? 0) || (8 <? len questions) then None else mapM dns_question questions.

(** [sameDNSQuestions]: equal lengths and equal elements. *)
Fixpoint sameDNSQuestions (xs ys : list dnsQuestion) : bool :=
  match xs, ys with
  | [], [] => true
  | x :: xs, y :: ys => bool_decide (x = y) && sameDNSQuestions xs ys
  | _, _ => false
  end.

Definition minimumDNSSeconds (a b : Z) : Z :=
  if (a =? 0) || (b =? 0) then 0 else if a <? b then a else b.

(** ** The cache *)

Record dnsPending := mkPending { dp_questions : list dnsQuestion; dp_expires : Z }.
Record dnsAddress := mkAddress { da_domain : list byte; da_expires : Z }.
Record dnsAttribution := mkCache {
  pending : gmap Z (list dnsPending); addresses : gmap Addr dnsAddress; count : Z;
  queries : Z; responses : Z; hits : Z; misses : Z
}.
Record DNSAttributionStats := mkStats { st_Queries : Z; st_Responses : Z; st_Hits : Z; st_Misses : Z; st_Cached : Z }.

Definition newDNSAttribution : dnsAttribution := mkCache ∅ ∅ 0 0 0 0 0.

Definition with_pending (c : dnsAttribution) (p : gmap Z (list dnsPending)) (n : Z) : dnsAttribution :=
  mkCache p (addresses c) n (queries c) (responses c) (hits c) (misses c).
Definition with_addresses (c : dnsAttribution) (a : gmap Addr dnsAddress) : dnsAttribution :=
  mkCache (pending c) a (count c) (queries c) (responses c) (hits c) (misses c).
Definition add_query (c : dnsAttribution) : dnsAttribution := mkCache (pending c) (addresses c) (count c) (u64 (queries c + 1)) (responses c) (hits c) (misses c).
Definition add_response (c : dnsAttribution) : dnsAttribution := mkCache (pending c) (addresses c) (count c) (queries c) (u64 (responses c + 1)) (hits c) (misses c).
Definition add_hit (c : dnsAttribution) : dnsAttribution := mkCache (pending c) (addresses c) (count c) (queries c) (responses c) (u64 (hits c + 1)) (misses c).
Definition add_miss (c : dnsAttribution) : dnsAttribution := mkCache (pending c) (addresses c) (count c) (queries c) (responses c) (hits c) (u64 (misses c + 1)).

(** The entries of one identifier, an empty list being deleted from the map. *)
Definition put_entries (p : gmap Z (list dnsPending)) (i : Z) (entries : list dnsPending) : gmap Z (list dnsPending) :=
  match entries with [] => delete i p | _ => <[i := entries]> p end.

Definition live (now : Z) (e : dnsPending) : bool := now <? dp_expires e.
Definition expired_entries (now : Z) (p : gmap Z (list dnsPending)) : Z :=
  map_fold (fun _ entries n => len (filter (fun e => live now e = false) entries) + n) 0 p.

(** No iteration depends on another, so the order does not matter. *)
Definition purgeExpiredLocked (now : Z) (c : dnsAttribution) : dnsAttribution :=
  let kept := omap (fun entries => match filter (fun e => live now e = true) entries with [] => None | kept => Some kept end) (pending c) in
  with_addresses (with_pending c kept (count c - expired_entries now (pending c)))
    (filter (fun '(_, e) => now < da_expires e) (addresses c)).

(** The searches for what expires first: the first of the earliest ones in the
    order of the range. *)
Definition earliest {A} (expiry : A -> Z) (l : list A) : option A :=
  foldl (fun selected x => match selected with
                           | Some y => if expiry x <? expiry y then Some x else selected
                           | None => Some x
                           end) None l.

(** What the two nested ranges of [evictPendingLocked] go through. *)
Definition pending_entries (order : list Z) (p : gmap Z (list dnsPending)) : list (Z * nat * dnsPending) :=
  i ← order; imap (fun index e => (i, index, e)) (default [] (p !! i)).

Definition evictPendingLocked (order : list Z) (c : dnsAttribution) : dnsAttribution :=
  match earliest (fun x => dp_expires (snd x)) (pending_entries order (pending c)) with
  | None => c
  | Some (i, index, _) =>
      with_pending c (put_entries (pending c) i (delete index (default [] (pending c !! i)))) (count c - 1)
  end.

Definition cached_addresses (order : list Addr) (m : gmap Addr dnsAddress) : list (Addr * dnsAddress) :=
  omap (fun a => e ← m !! a; Some (a, e)) order.

Definition evictAddressLocked (order : list Addr) (c : dnsAttribution) : dnsAttribution :=
  match earliest (fun x => da_expires (snd x)) (cached_addresses order (addresses c)) with
  | Some (a, _) => with_addresses c (delete a (addresses c))
  | None => c
  end.

Definition putAddressLocked (address : Addr) (domain : list byte) (ttl now : Z) (order : list Addr) (c : dnsAttribution) : dnsAttribution :=
  if (ttl =? 0) || negb (IsValid address) then c
  else
    let c := if dnsAttributionMaxAddresses <=? Z.of_nat (size (addresses c)) then evictAddressLocked order c else c in
    with_addresses c (<[Unmap address := mkAddress domain (now + Z.min (ttl * 1000000000) dnsAttributionMaximumTTL)]> (addresses c)).

(** The first entry with the same questions, and the others. *)
Fixpoint take_entry (questions : list dnsQuestion) (entries : list dnsPending) : option (dnsPending * list dnsPending) :=
  match entries with
  | [] => None
  | e :: entries =>
      if sameDNSQuestions (dp_questions e) questions then Some (e, entries)
      else '(found, rest) ← take_entry questions entries; Some (found, e :: rest)
  end.

Definition takePendingLocked (i : Z) (questions : list dnsQuestion) (c : dnsAttribution) : option (dnsPending * dnsAttribution) :=
  '(found, rest) ← take_entry questions (default [] (pending c !! i));
  Some (found, with_pending c (put_entries (pending c) i rest) (count c - 1)).

(** ** Names a response may define *)

Record names := mkNames { origins : gmap (list byte) (list byte); chainTTL : gmap (list byte) Z }.

Definition start_names (questions : list dnsQuestion) : names :=
  foldl (fun n q => mkNames (<[dq_name q := dq_name q]> (origins n)) (<[dq_name q := dnsAttributionMaximumTTL / 1000000000]> (chainTTL n)))
    (mkNames ∅ ∅) questions.

Definition cname_step (st : names * bool) (answer : Resource) : names * bool :=
  match rs_Body answer with
  | CNAMEResource cname =>
      match canonicalDNSName (rs_Name answer), canonicalDNSName cname with
      | Some owner, Some target =>
          match origins (fst st) !! owner with
          | Some origin =>
              match origins (fst st) !! target with
              | Some _ => st
              | None => (mkNames (<[target := origin]> (origins (fst st)))
                          (<[target := minimumDNSSeconds (default 0 (chainTTL (fst st) !! owner)) (rs_TTL answer)]> (chainTTL (fst st))), true)
              end
          | None => st
          end
      | _, _ => st
      end
  | _ => st
  end.

(** At most as many passes as there are answers, until one changes nothing. *)
Fixpoint cname_passes (n : nat) (answers : list Resource) (ns : names) : names :=
  match n with
  | O => ns
  | S n => let '(ns, changed) := foldl cname_step (ns, false) answers in if changed then cname_passes n answers ns else ns
  end.

(** The address of an answer whose owner is an allowed name. *)
Definition answer_address (ns : names) (answer : Resource) : option (Addr * list byte * Z) :=
  owner ← canonicalDNSName (rs_Name answer);
  origin ← origins ns !! owner;
  let ttl := minimumDNSSeconds (default 0 (chainTTL ns !! owner)) (rs_TTL answer) in
  match rs_Body answer with
  | AResource raw => Some (Unmap (AddrFrom4 raw), origin, ttl)
  | AAAAResource raw => Some (Unmap (AddrFrom16 raw), origin, ttl)
  | _ => None
  end.

Definition put_answer (ns : names) (now : Z) (orders : nat -> gmap Addr dnsAddress -> list Addr) (c : dnsAttribution) (index : nat) (answer : Resource) : dnsAttribution :=
  match answer_address ns answer with
  | Some (address, origin, ttl) => putAddressLocked address origin ttl now (orders index (addresses c)) c
  | None => c
  end.

Fixpoint put_answers (ns : names) (now : Z) (orders : nat -> gmap Addr dnsAddress -> list Addr) (index : nat) (answers : list Resource) (c : dnsAttribution) : dnsAttribution :=
  match answers with
  | [] => c
  | answer :: answers => put_answers ns now orders (S index) answers (put_answer ns now orders c index answer)
  end.

(** ** Operations *)

Section Unpacking.
Context (Unpack : list byte -> option Message).

Definition unpackDNSMessage (payload : list byte) : option Message :=
  if (len payload <? 12) || (dnsAttributionMaxPacket <? len payload) then None else Unpack payload.

Definition address_question (q : dnsQuestion) : bool := (dq_class q =? ClassINET) && ((dq_type q =? TypeA) || (dq_type q =? TypeAAAA)).

Definition validatedDNSQuery (payload : list byte) : option (Z * list dnsQuestion) :=
  message ← unpackDNSMessage payload;
  if msg_Response message then None
  else
    questions ← dnsQuestions (msg_Questions message);
    if forallb address_question questions then Some (msg_ID message, questions) else None.

Definition observeQuery (payload : list byte) (now : Z) (order : gmap Z (list dnsPending) -> list Z) (c : dnsAttribution) : dnsAttribution :=
  match validatedDNSQuery payload with
  | None => c
  | Some (i, questions) =>
      let c := purgeExpiredLocked now c in
      let c := if dnsAttributionMaxPending <=? count c then evictPendingLocked (order (pending c)) c else c in
      add_query (with_pending c
        (<[i := default [] (pending c !! i) ++ [mkPending questions (now + dnsAttributionPendingTTL)]]> (pending c)) (count c + 1))
  end.

Definition discardQuery (payload : list byte) (c : dnsAttribution) : dnsAttribution :=
  match validatedDNSQuery payload with
  | None => c
  | Some (i, questions) => match takePendingLocked i questions c with Some (_, c) => c | None => c end
  end.

(** What makes a response worth looking at, with its questions. *)
Definition accepted_response (payload : list byte) : option (Message * list dnsQuestion) :=
  message ← unpackDNSMessage payload;
  if negb (msg_Response message) || msg_Truncated message || negb (msg_RCode message =? RCodeSuccess) || (256 <? len (msg_Answers message)) then None
  else questions ← dnsQuestions (msg_Questions message); Some (message, questions).

Definition observeResponse (payload : list byte) (now : Z) (orders : nat -> gmap Addr dnsAddress -> list Addr) (c : dnsAttribution) : dnsAttribution :=
  match accepted_response payload with
  | None => c
  | Some (message, questions) =>
      let c := purgeExpiredLocked now c in
      match takePendingLocked (msg_ID message) questions c with
      | None => c
      | Some (found, c) =>
          let answers := msg_Answers message in
          put_answers (cname_passes (length answers) answers (start_names (dp_questions found))) now orders 0 answers (add_response c)
      end
  end.
End Unpacking.

Definition domainFor (address : Addr) (now : Z) (c : dnsAttribution) : option (list byte) * dnsAttribution :=
  if negb (IsValid address) then (None, c)
  else
    match addresses c !! Unmap address with
    | None => (None, add_miss c)
    | Some entry =>
        if negb (now <? da_expires entry) then (None, add_miss (with_addresses c (delete (Unmap address) (addresses c))))
        else (Some (da_domain entry), add_hit c)
    end.

Definition stats (now : Z) (c : dnsAttribution) : DNSAttributionStats * dnsAttribution :=
  let c := purgeExpiredLocked now c in
  (mkStats (queries c) (responses c) (hits c) (misses c) (Z.of_nat (size (addresses c))), c).

(** ** Bounds *)

Inductive op :=
| ObserveQuery (payload : list byte) (now : Z) (order : gmap Z (list dnsPending) -> list Z)
| DiscardQuery (payload : list byte)
| ObserveResponse (payload : list byte) (now : Z) (orders : nat -> gmap Addr dnsAddress -> list Addr)
| DomainFor (address : Addr) (now : Z)
| Stats (now : Z).

Definition run_op (Unpack : list byte -> option Message) (c : dnsAttribution) (o : op) : dnsAttribution :=
  match o with
  | ObserveQuery payload now order => observeQuery Unpack payload now order c
  | DiscardQuery payload => discardQuery Unpack payload c
  | ObserveResponse payload now orders => observeResponse Unpack payload now orders c
  | DomainFor address now => (domainFor address now c).2
  | Stats now => (stats now c).2
  end.

(** A range goes through the keys of the map. *)
Definition ranges {K A} `{Countable K} (order : gmap K A -> list K) : Prop := forall m k, k ∈ order m <-> is_Some (m !! k).
Definition op_ranges (o : op) : Prop :=
  match o with
  | ObserveQuery _ _ order => ranges order
  | ObserveResponse _ _ orders => forall n, ranges (orders n)
  | _ => True
  end.

Record bounded (c : dnsAttribution) : Prop := {
  bd_entries : forall i es, pending c !! i = Some es -> es <> [];
  bd_count : count c = total len (pending c);
  bd_pending : count c <= dnsAttributionMaxPending;
  bd_addresses : Z.of_nat (size (addresses c)) <= dnsAttributionMaxAddresses;
  bd_keys : forall a e, addresses c !! a = Some e -> IsValid a = true /\ Unmap a = a
}.

Lemma earliest_in {A} (expiry : A -> Z) (l : list A) :
  match earliest expiry l with Some x => x ∈ l /\ Forall (fun y => expiry x <= expiry y) l | None => l = [] end.
Proof.
  unfold earliest. induction l as [|y l IH] using rev_ind; [done|]. rewrite foldl_snoc.
  destruct (foldl _ None l) as [x|]; [|subst l; split; [apply list_elem_of_singleton|by constructor]; done].
  destruct IH as [Hx Hmin]. destruct (Z.ltb_spec (expiry y) (expiry x)).
  - split; [apply elem_of_app; right; by apply list_elem_of_singleton|]. apply Forall_app. split; [|by constructor].
    eapply Forall_impl; [exact Hmin|]. cbn. lia.
  - split; [apply elem_of_app; by left|]. apply Forall_app. split; [done|]. constructor; [lia|done].
Qed.

(** Replacing the entries of one identifier. *)
Lemma put_entries_total p i es : (forall i es, p !! i = Some es -> es <> []) ->
  (forall j es', put_entries p i es !! j = Some es' -> es' <> []) /\ total len (put_entries p i es) = total len p - len (default [] (p !! i)) + len es.
Proof.
  intros Hp. destruct es as [|e es]; cbn [put_entries].
  - split; [intros j es' [_ E]%lookup_delete_Some; by apply (Hp j)|].
    destruct (p !! i) as [old|] eqn:E; cbn; [rewrite (total_delete len p i old E), len_nil; lia|].
    rewrite delete_id by done. rewrite !len_nil. lia.
  - split; [intros j es' [[_ <-]|[_ E]]%lookup_insert_Some; [done|by apply (Hp j)]|].
    destruct (p !! i) as [old|] eqn:E; cbn [default from_option id]; [by apply total_update|].
    rewrite total_insert by done. rewrite len_nil. lia.
Qed.

Lemma bounded_pending c i es n : bounded c -> n = count c - len (default [] (pending c !! i)) + len es -> n <= dnsAttributionMaxPending ->
  bounded (with_pending c (put_entries (pending c) i es) n).
Proof.
  intros [H1 H2 H3 H4 H5] -> Hn. destruct (put_entries_total (pending c) i es H1) as [E1 E2].
  constructor; cbn [with_pending pending addresses count]; [exact E1|lia|lia|done|done].
Qed.

Lemma bounded_addresses c m : bounded c -> Z.of_nat (size m) <= dnsAttributionMaxAddresses ->
  (forall a e, m !! a = Some e -> IsValid a = true /\ Unmap a = a) -> bounded (with_addresses c m).
Proof. intros [H1 H2 H3 H4 H5] Hs Hm. by constructor. Qed.

Lemma expired_nonneg now p : 0 <= expired_entries now p.
Proof. unfold expired_entries. apply (map_fold_weak_ind (fun r _ => 0 <= r)); [lia|]. intros. pose proof (len_nonneg (filter (fun e => live now e = false) x)). lia. Qed.

(** Only entries of [c] are left. *)
Record shrinks (c c' : dnsAttribution) : Prop := {
  sh_pending : forall i es' e, pending c' !! i = Some es' -> e ∈ es' -> exists es, pending c !! i = Some es /\ e ∈ es;
  sh_addresses : addresses c' ⊆ addresses c
}.

Lemma purge_spec now c : bounded c ->
  bounded (purgeExpiredLocked now c) /\ shrinks c (purgeExpiredLocked now c) /\
  (forall i es e, pending (purgeExpiredLocked now c) !! i = Some es -> e ∈ es -> now < dp_expires e).
Proof.
  intros [H1 H2 H3 H4 H5]. unfold purgeExpiredLocked. pose proof (expired_nonneg now (pending c)).
  assert (Hl : forall i es, omap (fun entries => match filter (fun e => live now e = true) entries with [] => None | kept => Some kept end) (pending c) !! i = Some es ->
    es <> [] /\ exists es0, pending c !! i = Some es0 /\ es = filter (fun e => live now e = true) es0).
  { intros i es. rewrite lookup_omap. destruct (pending c !! i) as [es0|] eqn:E; cbn; [|done].
    destruct (filter _ es0) eqn:F; [done|]. intros [= <-]. split; [done|]. exists es0. auto. }
  split; [|split].
  - apply bounded_addresses.
    + constructor; cbn [with_pending pending addresses count].
      * intros i es E. by destruct (Hl i es E).
      * rewrite (total_prune (live now)). unfold expired_entries. lia.
      * lia.
      * done.
      * done.
    + apply Z.le_trans with (Z.of_nat (size (addresses c))); [|done]. apply Nat2Z.inj_le, map_subseteq_size, map_filter_subseteq.
    + intros a e [E _]%map_lookup_filter_Some. by apply (H5 a e).
  - constructor; cbn.
    + intros i es e E He. destruct (Hl i es E) as (_ & es0 & E0 & ->). exists es0. split; [done|]. by apply list_elem_of_filter in He as [_ He].
    + apply map_filter_subseteq.
  - cbn. intros i es e E He. destruct (Hl i es E) as (_ & es0 & E0 & ->). apply list_elem_of_filter in He as [He _]. by apply Z.ltb_lt in He.
Qed.

(** The entries of one identifier shrink: nothing new is pending. *)
Lemma shrinks_put c i es n : (forall e, e ∈ es -> e ∈ default [] (pending c !! i)) -> shrinks c (with_pending c (put_entries (pending c) i es) n).
Proof.
  intros Hs. constructor; cbn; [|done]. intros j es' e E He.
  assert (i = j /\ es' = es \/ pending c !! j = Some es') as [[<- ->]|E'].
  { destruct es; cbn in E; [apply lookup_delete_Some in E as [_ E]; by right|].
    apply lookup_insert_Some in E as [[-> <-]|[_ E]]; [by left|by right]. }
  - apply Hs in He. destruct (pending c !! i) as [es0|]; cbn in He; [by exists es0|by apply not_elem_of_nil in He].
  - by exists es'.
Qed.

Lemma elem_of_delete {A} (l : list A) n x : x ∈ delete n l -> x ∈ l.
Proof. revert n. induction l as [|y l IH]; intros [|n]; cbn; intros H; [done|done|by right|]. apply elem_of_cons in H as [->|H]; [left|right]; eauto. Qed.

Lemma evict_spec order c : ranges order -> bounded c -> dnsAttributionMaxPending <= count c ->
  bounded (evictPendingLocked (order (pending c)) c) /\ shrinks c (evictPendingLocked (order (pending c)) c) /\
  count (evictPendingLocked (order (pending c)) c) < dnsAttributionMaxPending.
Proof.
  intros Hr Hb Hfull. unfold evictPendingLocked.
  pose proof (earliest_in (fun x => dp_expires (snd x)) (pending_entries (order (pending c)) (pending c))) as He.
  destruct (earliest _ _) as [[[i index] e]|].
  - destruct He as [He _]. apply list_elem_of_bind in He as (j & Hin & _). apply elem_of_lookup_imap in Hin as (k & x & [= -> -> ->] & Hx).
    assert (Hd : len (delete k (default [] (pending c !! j))) = len (default [] (pending c !! j)) - 1).
    { unfold len. rewrite length_delete by (by exists x). pose proof (lookup_lt_Some _ _ _ Hx). lia. }
    pose proof (bd_pending c Hb). split; [|split].
    + apply bounded_pending; [done|lia|lia].
    + apply shrinks_put. intros y. apply elem_of_delete.
    + cbn. lia.
  - exfalso. pose proof (bd_count c Hb) as Hc. unfold dnsAttributionMaxPending in Hfull.
    destruct (decide (pending c = ∅)) as [E|E]; [rewrite E, total_empty in Hc; lia|].
    apply map_choose in E as (i & es & Ei). destruct es as [|e es]; [by apply (bd_entries c Hb i [])|].
    assert (Hin : (i, 0%nat, e) ∈ pending_entries (order (pending c)) (pending c)).
    { apply list_elem_of_bind. exists i. split; [|by apply Hr; exists (e :: es)]. rewrite Ei. cbn. left. }
    rewrite He in Hin. by apply not_elem_of_nil in Hin.
Qed.

Lemma same_questions qs rs : sameDNSQuestions qs rs = true -> qs = rs.
Proof.
  revert rs. induction qs as [|q qs IH]; intros [|r rs]; cbn; try done.
  intros [E H]%andb_prop. apply bool_decide_eq_true in E as ->. by rewrite (IH rs).
Qed.

Lemma take_entry_spec qs es found rest : take_entry qs es = Some (found, rest) ->
  dp_questions found = qs /\ found ∈ es /\ (forall e, e ∈ rest -> e ∈ es) /\ len rest = len es - 1.
Proof.
  revert rest. induction es as [|e es IH]; intros rest; cbn [take_entry]; [done|].
  destruct (sameDNSQuestions (dp_questions e) qs) eqn:E.
  - intros [= <- <-]. apply same_questions in E. rewrite len_cons. repeat split; [done|left|by right|lia].
  - destruct (take_entry qs es) as [[f r]|] eqn:Et; [|done]. intros [= -> <-]. destruct (IH r eq_refl) as (H1 & H2 & H3 & H4).
    rewrite !len_cons. split; [done|]. split; [by right|]. split; [|lia]. intros x [->|Hx]%elem_of_cons; [left|right; auto].
Qed.

Lemma take_spec i qs c found c' : bounded c -> takePendingLocked i qs c = Some (found, c') ->
  bounded c' /\ shrinks c c' /\ dp_questions found = qs /\ exists es, pending c !! i = Some es /\ found ∈ es.
Proof.
  intros Hb. unfold takePendingLocked. destruct (take_entry qs _) as [[f rest]|] eqn:E; [|done]. intros [= -> <-].
  destruct (take_entry_spec _ _ _ _ E) as (Hq & Hf & Hr & Hl). pose proof (bd_pending c Hb).
  split; [apply bounded_pending; [done|lia|lia]|]. split; [by apply shrinks_put|]. split; [done|].
  destruct (pending c !! i) as [es|]; [by exists es|by apply not_elem_of_nil in Hf].
Qed.

(** What [putAddressLocked] stores. *)
Definition stored (domain : list byte) (ttl now : Z) : dnsAddress := mkAddress domain (now + Z.min (ttl * 1000000000) dnsAttributionMaximumTTL).

Lemma put_lookup a d ttl now order c x e : addresses (putAddressLocked a d ttl now order c) !! x = Some e ->
  (x = Unmap a /\ e = stored d ttl now /\ ttl <> 0) \/ addresses c !! x = Some e.
Proof.
  unfold putAddressLocked. destruct ((ttl =? 0) || negb (IsValid a)) eqn:G; [by right|].
  apply orb_false_iff in G as [Ht _]. apply Z.eqb_neq in Ht. cbn [with_addresses addresses].
  intros [[<- <-]|[_ E]]%lookup_insert_Some; [by left|]. right.
  destruct (_ <=? _); [|done]. unfold evictAddressLocked in E. destruct (earliest _ _) as [[y ?]|]; [|done].
  cbn [with_addresses addresses] in E. by apply lookup_delete_Some in E as [_ E].
Qed.

Lemma put_same a d ttl now order c : pending (putAddressLocked a d ttl now order c) = pending c /\ count (putAddressLocked a d ttl now order c) = count c.
Proof.
  unfold putAddressLocked, evictAddressLocked. destruct (_ || _); [done|]. destruct (_ <=? _); [|done]. by destruct (earliest _ _) as [[]|].
Qed.

Lemma evict_address_room order c : ranges order -> Z.of_nat (size (addresses c)) <= dnsAttributionMaxAddresses ->
  dnsAttributionMaxAddresses <= Z.of_nat (size (addresses c)) ->
  Z.of_nat (size (addresses (evictAddressLocked (order (addresses c)) c))) < dnsAttributionMaxAddresses.
Proof.
  intros Hr Hle Hfull. unfold evictAddressLocked.
  pose proof (earliest_in (fun x => da_expires (snd x)) (cached_addresses (order (addresses c)) (addresses c))) as He.
  destruct (earliest _ _) as [[a e]|].
  - destruct He as [He _]. apply list_elem_of_omap in He as (x & _ & Hx). destruct (addresses c !! x) as [e'|] eqn:E; [|done].
    cbn in Hx. injection Hx as -> ->. cbn [with_addresses addresses].
    pose proof (map_size_delete_Some a (addresses c) ltac:(by exists e)). unfold dnsAttributionMaxAddresses in *.
    assert (size (addresses c) <> 0%nat) by (unfold dnsAttributionMaxAddresses in *; lia). lia.
  - exfalso. unfold dnsAttributionMaxAddresses in Hfull.
    destruct (decide (addresses c = ∅)) as [E|E]; [rewrite E, map_size_empty in Hfull; lia|].
    apply map_choose in E as (a & e & Ea).
    assert (Hin : (a, e) ∈ cached_addresses (order (addresses c)) (addresses c)).
    { apply list_elem_of_omap. exists a. split; [by apply Hr; exists e|]. by rewrite Ea. }
    rewrite He in Hin. by apply not_elem_of_nil in Hin.
Qed.

Lemma put_bounded a d ttl now order c : ranges order -> bounded c -> bounded (putAddressLocked a d ttl now (order (addresses c)) c).
Proof.
  intros Hr Hb. destruct (put_same a d ttl now (order (addresses c)) c) as [E1 E2].
  pose proof (put_lookup a d ttl now (order (addresses c)) c) as Hl.
  constructor; rewrite ?E1, ?E2; try apply Hb.
  - unfold putAddressLocked. destruct (_ || _); [apply Hb|]. cbn [with_addresses addresses].
    pose proof (bd_addresses c Hb) as Hs. destruct (Z.leb_spec dnsAttributionMaxAddresses (Z.of_nat (size (addresses c)))).
    + pose proof (evict_address_room order c Hr Hs ltac:(done)) as Hroom.
      match goal with |- context [size (<[?k := ?v]> ?m)] => pose proof (map_size_insert k v m) as Hi end.
      destruct (_ !! _) in Hi; unfold id in Hi; lia.
    + match goal with |- context [size (<[?k := ?v]> ?m)] => pose proof (map_size_insert k v m) as Hi end.
      destruct (_ !! _) in Hi; unfold id in Hi; lia.
  - intros x e E. destruct (Hl x e E) as [(-> & _)|E']; [|by apply (bd_keys c Hb x e)].
    unfold putAddressLocked in E. destruct (IsValid a) eqn:Ha; [by rewrite Unmap_valid, Unmap_idem|].
    rewrite orb_true_r in E. by apply (bd_keys c Hb _ e).
Qed.

Lemma put_answers_bounded ns now orders n answers c : (forall n, ranges (orders n)) -> bounded c -> bounded (put_answers ns now orders n answers c).
Proof.
  intros Hr. revert n c. induction answers as [|a answers IH]; intros n c Hb; [done|]. cbn. apply IH. unfold put_answer.
  destruct (answer_address ns a) as [[[x o] ttl]|]; [|done]. by apply put_bounded.
Qed.

Lemma bounded_counters c c' : pending c' = pending c -> addresses c' = addresses c -> count c' = count c -> bounded c -> bounded c'.
Proof. intros E1 E2 E3 [H1 H2 H3 H4 H5]. constructor; rewrite ?E1, ?E2, ?E3; done. Qed.

Lemma run_op_bounded Unpack c o : op_ranges o -> bounded c -> bounded (run_op Unpack c o).
Proof.
  intros Ho Hb. destruct o as [payload now order|payload|payload now orders|address now|now]; cbn [run_op op_ranges] in *.
  - unfold observeQuery. destruct (validatedDNSQuery Unpack payload) as [[i qs]|]; [|done].
    destruct (purge_spec now c Hb) as (Hp & _ & _). set (c1 := purgeExpiredLocked now c) in *.
    set (c2 := if dnsAttributionMaxPending <=? count c1 then evictPendingLocked (order (pending c1)) c1 else c1).
    assert (H2 : bounded c2 /\ count c2 < dnsAttributionMaxPending).
    { unfold c2. destruct (Z.leb_spec dnsAttributionMaxPending (count c1)); [|done]. by destruct (evict_spec order c1 Ho Hp ltac:(done)) as (? & _ & ?). }
    destruct H2 as [H2 H3]. set (e := mkPending qs (now + dnsAttributionPendingTTL)).
    apply (bounded_counters (with_pending c2 (put_entries (pending c2) i (default [] (pending c2 !! i) ++ [e])) (count c2 + 1))); [|done|done|].
    + cbn. unfold put_entries. by destruct (default [] (pending c2 !! i)).
    + apply bounded_pending; [done| |lia]. rewrite len_app, len_cons, len_nil. lia.
  - unfold discardQuery. destruct (validatedDNSQuery Unpack payload) as [[i qs]|]; [|done].
    destruct (takePendingLocked i qs c) as [[f c']|] eqn:E; [|done]. by destruct (take_spec i qs c f c' Hb E).
  - unfold observeResponse. destruct (accepted_response Unpack payload) as [[message qs]|]; [|done].
    destruct (purge_spec now c Hb) as (Hp & _ & _).
    destruct (takePendingLocked _ qs _) as [[f c']|] eqn:E; [|done]. apply put_answers_bounded; [done|].
    apply (bounded_counters c'); [done..|]. by destruct (take_spec _ _ _ _ _ Hp E).
  - unfold domainFor. destruct (negb (IsValid address)); [done|]. destruct (addresses c !! Unmap address) as [e|] eqn:E; [|by apply (bounded_counters c)].
    destruct (negb (now <? da_expires e)); [|by apply (bounded_counters c)]. cbn.
    apply (bounded_counters (with_addresses c (delete (Unmap address) (addresses c)))); [done..|]. apply bounded_addresses; [done| |].
    + pose proof (bd_addresses c Hb). pose proof (map_size_delete_Some (Unmap address) (addresses c) ltac:(by exists e)). lia.
    + intros a e' [_ Ea]%lookup_delete_Some. by apply (bd_keys c Hb a e').
  - cbn. by apply purge_spec.
Qed.

Lemma new_bounded : bounded newDNSAttribution.
Proof. by constructor. Qed.

(** Whatever packets are observed and whatever is asked, the cache keeps its
    limits: at most 4096 queries are pending, the counter says how many, no
    identifier is kept without a query, at most 8192 addresses are known, each of
    them valid and unmapped.  So a peer cannot make the cache grow. *)
Theorem attribution_bounded Unpack ops : Forall op_ranges ops -> bounded (foldl (run_op Unpack) newDNSAttribution ops).
Proof.
  intros Ho. pose proof new_bounded as H0. revert H0. generalize newDNSAttribution. induction Ho as [|o ops Ho _ IH]; intros c Hc; [done|]. cbn. by apply IH, run_op_bounded.
Qed.

(** ** No poisoning *)

(** The names the CNAME records of a response lead to from a name of its
    question, with the smallest time to live on the way. *)
Inductive chain (answers : list Resource) (origin : list byte) : list byte -> Z -> Prop :=
| chain_origin : chain answers origin origin (dnsAttributionMaximumTTL / 1000000000)
| chain_cname owner ttl answer cname target :
    chain answers origin owner ttl -> answer ∈ answers -> rs_Body answer = CNAMEResource cname ->
    canonicalDNSName (rs_Name answer) = Some owner -> canonicalDNSName cname = Some target ->
    chain answers origin target (minimumDNSSeconds ttl (rs_TTL answer)).

Definition record_address (answer : Resource) : option Addr :=
  match rs_Body answer with
  | AResource raw => Some (Unmap (AddrFrom4 raw))
  | AAAAResource raw => Some (Unmap (AddrFrom16 raw))
  | _ => None
  end.

Section Sound.
Context (Unpack : list byte -> option Message).

(** A query with this identifier and these questions was made, less than 30
    seconds before [now]. *)
Definition asked (history : list op) (i : Z) (questions : list dnsQuestion) (now : Z) : Prop :=
  exists payload t order, ObserveQuery payload t order ∈ history /\ validatedDNSQuery Unpack payload = Some (i, questions) /\ now < t + dnsAttributionPendingTTL.

(** The response to such a query gave [address] to a name that its CNAME records
    reach from the domain it was asked for. *)
Definition justified (history : list op) (address : Addr) (entry : dnsAddress) : Prop :=
  exists before payload now orders after message questions owner ttl answer,
    history = before ++ ObserveResponse payload now orders :: after /\
    accepted_response Unpack payload = Some (message, questions) /\
    asked before (msg_ID message) questions now /\
    da_domain entry ∈ map dq_name questions /\
    chain (msg_Answers message) (da_domain entry) owner ttl /\
    answer ∈ msg_Answers message /\ canonicalDNSName (rs_Name answer) = Some owner /\ record_address answer = Some address /\
    entry = stored (da_domain entry) (minimumDNSSeconds ttl (rs_TTL answer)) now.

Record explained (history : list op) (c : dnsAttribution) : Prop := {
  ex_pending : forall i es e, pending c !! i = Some es -> e ∈ es ->
    exists payload t order, ObserveQuery payload t order ∈ history /\ validatedDNSQuery Unpack payload = Some (i, dp_questions e) /\ dp_expires e = t + dnsAttributionPendingTTL;
  ex_addresses : forall a e, addresses c !! a = Some e -> justified history a e
}.

Lemma explained_shrinks history c c' : shrinks c c' -> explained history c -> explained history c'.
Proof.
  intros [H1 H2] [E1 E2]. constructor.
  - intros i es' e E He. destruct (H1 i es' e E He) as (es & E' & He'). by apply (E1 i es).
  - intros a e E. apply E2. by apply (lookup_weaken _ _ _ _ E).
Qed.

Lemma explained_snoc history o c : explained history c -> explained (history ++ [o]) c.
Proof.
  intros [E1 E2]. constructor.
  - intros i es e E He. destruct (E1 i es e E He) as (p & t & r & Hin & H). exists p, t, r. split; [apply elem_of_app; by left|done].
  - intros a e E. destruct (E2 a e E) as (bf & p & now & os & af & m & qs & ow & ttl & an & -> & H).
    exists bf, p, now, os, (af ++ [o]), m, qs, ow, ttl, an. split; [by rewrite <- app_assoc|done].
Qed.

(** Every known name is reached from the question it stands for. *)
Definition reached (answers : list Resource) (questions : list dnsQuestion) (ns : names) : Prop :=
  forall n o, origins ns !! n = Some o -> o ∈ map dq_name questions /\ exists ttl, chainTTL ns !! n = Some ttl /\ chain answers o n ttl.

Lemma start_reached answers questions : reached answers questions (start_names questions).
Proof.
  unfold start_names. assert (Hi : forall qs ns, (forall q, q ∈ qs -> q ∈ questions) -> reached answers questions ns ->
    reached answers questions (foldl (fun n q => mkNames (<[dq_name q := dq_name q]> (origins n)) (<[dq_name q := dnsAttributionMaximumTTL / 1000000000]> (chainTTL n))) ns qs)).
  { induction qs as [|q qs IH]; intros ns Hq Hn; [done|]. apply IH; [intros; apply Hq; by right|].
    intros n o. cbn. intros [[<- <-]|[Hne E]]%lookup_insert_Some.
    - split; [apply list_elem_of_fmap; exists q; split; [done|apply Hq; left]|]. eexists. rewrite lookup_insert_eq. split; [done|constructor].
    - rewrite lookup_insert_ne by done. by apply Hn. }
  apply Hi; [done|]. intros n o E. cbn in E. by rewrite lookup_empty in E.
Qed.

Lemma step_reached answers questions st answer : answer ∈ answers -> reached answers questions (fst st) -> reached answers questions (fst (cname_step st answer)).
Proof.
  intros Ha Hn. unfold cname_step. destruct (rs_Body answer) as [| |cname|] eqn:Eb; try done.
  destruct (canonicalDNSName (rs_Name answer)) as [owner|] eqn:Eo; [|done]. destruct (canonicalDNSName cname) as [target|] eqn:Et; [|done].
  destruct (origins (fst st) !! owner) as [origin|] eqn:E; [|done]. destruct (origins (fst st) !! target); [done|].
  destruct (Hn owner origin E) as (Hq & ttl & Ettl & Hc). intros n o. cbn. intros [[<- <-]|[Hne E']]%lookup_insert_Some.
  - split; [done|]. rewrite lookup_insert_eq, Ettl. eexists. split; [done|]. by apply (chain_cname _ _ owner ttl answer cname target).
  - rewrite lookup_insert_ne by done. by apply Hn.
Qed.

Lemma passes_reached answers questions n ns : reached answers questions ns -> reached answers questions (cname_passes n answers ns).
Proof.
  assert (Hf : forall l st, (forall a, a ∈ l -> a ∈ answers) -> reached answers questions (fst st) -> reached answers questions (fst (foldl cname_step st l))).
  { induction l as [|a l IH]; intros st Hl Hn; [done|]. apply IH; [intros; apply Hl; by right|]. apply step_reached; [apply Hl; left|done]. }
  revert ns. induction n as [|n IH]; intros ns Hn; [done|]. cbn [cname_passes].
  pose proof (Hf answers (ns, false) ltac:(done) Hn) as H. destruct (foldl cname_step _ _) as [ns' []]; [by apply IH|done].
Qed.

Lemma answer_reached answers questions ns answer a o ttl : reached answers questions ns -> answer_address ns answer = Some (a, o, ttl) ->
  o ∈ map dq_name questions /\ exists owner t, chain answers o owner t /\ canonicalDNSName (rs_Name answer) = Some owner /\
    record_address answer = Some a /\ ttl = minimumDNSSeconds t (rs_TTL answer).
Proof.
  intros Hn. unfold answer_address, record_address. destruct (canonicalDNSName (rs_Name answer)) as [owner|]; [|done]. cbn.
  destruct (origins ns !! owner) as [origin|] eqn:E; [|done]. cbn. destruct (Hn owner origin E) as (Hq & t & -> & Hc). cbn [default from_option id].
  destruct (rs_Body answer); intros H; try discriminate H; apply (inj Some), pair_equal_spec in H as [[<- <-]%pair_equal_spec <-];
    (split; [exact Hq|]); exists owner, t; auto.
Qed.

Lemma put_answers_explained history ns now orders answers questions payload message all :
  accepted_response Unpack payload = Some (message, questions) -> msg_Answers message = all -> asked history (msg_ID message) questions now ->
  reached all questions ns -> forall n c, (forall a, a ∈ answers -> a ∈ all) ->
  explained (history ++ [ObserveResponse payload now orders]) c ->
  explained (history ++ [ObserveResponse payload now orders]) (put_answers ns now orders n answers c).
Proof.
  intros Hm Hall Hasked Hn. induction answers as [|answer answers IH]; intros n c Hin He; [done|]. cbn [put_answers].
  apply IH; [intros; apply Hin; by right|]. unfold put_answer. destruct (answer_address ns answer) as [[[a o] ttl]|] eqn:Ea; [|done].
  destruct (answer_reached _ _ _ _ _ _ _ Hn Ea) as (Ho & owner & t & Hc & Hown & Hrec & ->).
  destruct (put_same a o (minimumDNSSeconds t (rs_TTL answer)) now (orders n (addresses c)) c) as [E1 E2].
  constructor; [rewrite E1; apply He|]. intros x e E. apply put_lookup in E as [(-> & -> & _)|E]; [|by apply (ex_addresses _ _ He)].
  exists history, payload, now, orders, [], message, questions, owner, t, answer. cbn [stored da_domain]. subst all.
  assert (Hu : Unmap a = a) by (unfold record_address in Hrec; destruct (rs_Body answer); try discriminate Hrec; apply (inj Some) in Hrec as <-; apply Unmap_idem).
  rewrite Hu. split; [done|]. do 4 (split; [assumption|]). split; [apply Hin; left|]. do 2 (split; [assumption|]). reflexivity.
Qed.

Lemma explained_counters history c c' : pending c' = pending c -> addresses c' = addresses c -> explained history c -> explained history c'.
Proof. intros E1 E2 [H1 H2]. constructor; rewrite ?E1, ?E2; done. Qed.

Lemma run_op_explained history c o : bounded c -> op_ranges o -> explained history c -> explained (history ++ [o]) (run_op Unpack c o).
Proof.
  intros Hb Ho He. pose proof (explained_snoc history o c He) as Hs.
  destruct o as [payload now order|payload|payload now orders|address now|now]; cbn [run_op op_ranges] in *.
  - unfold observeQuery. destruct (validatedDNSQuery Unpack payload) as [[i qs]|] eqn:Eq; [|done].
    destruct (purge_spec now c Hb) as (Hp & Hsh & _). set (c1 := purgeExpiredLocked now c) in *.
    set (c2 := if dnsAttributionMaxPending <=? count c1 then evictPendingLocked (order (pending c1)) c1 else c1).
    assert (H2 : explained (history ++ [ObserveQuery payload now order]) c2).
    { pose proof (explained_shrinks _ _ _ Hsh Hs). unfold c2. destruct (Z.leb_spec dnsAttributionMaxPending (count c1)); [|done].
      destruct (evict_spec order c1 Ho Hp ltac:(done)) as (_ & ? & _). by apply (explained_shrinks _ c1). }
    constructor; cbn; [|apply H2]. intros j es e E Hin. apply lookup_insert_Some in E as [[<- <-]|[_ E]]; [|by apply (ex_pending _ _ H2 j es)].
    apply elem_of_app in Hin as [Hin| ->%list_elem_of_singleton].
    + destruct (pending c2 !! i) as [es|] eqn:E; cbn in Hin; [by apply (ex_pending _ _ H2 i es)|by apply not_elem_of_nil in Hin].
    + exists payload, now, order. cbn. split; [apply elem_of_app; right; by apply list_elem_of_singleton|done].
  - unfold discardQuery. destruct (validatedDNSQuery Unpack payload) as [[i qs]|]; [|done].
    destruct (takePendingLocked i qs c) as [[f c']|] eqn:E; [|done]. destruct (take_spec i qs c f c' Hb E) as (_ & Hsh & _).
    by apply (explained_shrinks _ c).
  - unfold observeResponse. destruct (accepted_response Unpack payload) as [[message qs]|] eqn:Em; [|done].
    destruct (purge_spec now c Hb) as (Hp & Hsh & Hlive). pose proof (explained_shrinks _ _ _ Hsh Hs) as H1.
    destruct (takePendingLocked _ qs _) as [[f c']|] eqn:E; [|done].
    destruct (take_spec _ _ _ _ _ Hp E) as (_ & Hsh' & Hq & es & Ees & Hf).
    apply (put_answers_explained _ _ _ _ _ qs payload message (msg_Answers message)); try done.
    + destruct (sh_pending _ _ Hsh _ _ _ Ees Hf) as (es0 & E0 & Hf0). destruct (ex_pending _ _ He _ _ _ E0 Hf0) as (p & t & r & Hin & Hv & Hx).
      exists p, t, r. rewrite <- Hq, <- Hx. repeat split; [done|done|]. by apply (Hlive (msg_ID message) es).
    + rewrite Hq. apply passes_reached, start_reached.
    + by apply (explained_counters _ c'); [..|apply (explained_shrinks _ _ _ Hsh')].
  - unfold domainFor. destruct (negb (IsValid address)); [done|]. destruct (addresses c !! Unmap address) as [e|]; [|by apply (explained_counters _ c)].
    destruct (negb (now <? da_expires e)); [|by apply (explained_counters _ c)]. cbn.
    apply (explained_shrinks _ c); [|done]. constructor; cbn; [intros i es e' E' Hin; by exists es|apply delete_subseteq].
  - cbn. destruct (purge_spec now c Hb) as (_ & Hsh & _). by apply (explained_shrinks _ c).
Qed.
End Sound.

(** C26: No poisoning: when the cache names a domain for an address, the address
    came in an unexpired record of an accepted response, that response answered a
    query of the tunnel with the same identifier and questions made less than 30
    seconds before, the domain is a name of that query, and the record belongs to
    a name that the CNAME records of the same response reach from it. *)
Theorem attribution_sound Unpack ops address now domain : Forall op_ranges ops ->
  fst (domainFor address now (foldl (run_op Unpack) newDNSAttribution ops)) = Some domain ->
  exists entry, da_domain entry = domain /\ now < da_expires entry /\ justified Unpack ops (Unmap address) entry.
Proof.
  intros Hr. assert (H : bounded (foldl (run_op Unpack) newDNSAttribution ops) /\ explained Unpack ops (foldl (run_op Unpack) newDNSAttribution ops)).
  { induction ops as [|o ops IH] using rev_ind.
    - split; [apply new_bounded|]. constructor; done.
    - apply Forall_app in Hr as [Hr Ho]. apply Forall_cons in Ho as [Ho _]. rewrite foldl_snoc. destruct (IH Hr) as [Hb He].
      split; [by apply run_op_bounded|]. by apply run_op_explained. }
  destruct H as [_ [_ He]]. unfold domainFor. destruct (negb (IsValid address)); [done|].
  destruct (addresses _ !! Unmap address) as [e|] eqn:E; [|done]. destruct (Z.ltb_spec now (da_expires e)) as [Ht|]; [|done]. cbn. intros [= <-].
  exists e. split; [done|]. split; [done|]. by apply He.
Qed.

Module DnsExample.
(** A parser for the example: the first byte selects one of two packets. *)
Definition www : list byte := bytes_of "WWW.example.com.".
Definition question : Question := mkQuestion www TypeA ClassINET.
Definition answers : list Resource :=
  [mkResource (bytes_of "cdn.example.net.") 60 (AResource [x01; x02; x03; x04]);
   mkResource (bytes_of "www.example.com.") 30 (CNAMEResource (bytes_of "cdn.example.net."));
   mkResource (bytes_of "evil.example.") 60 (AResource [x05; x06; x07; x08])].
Definition Unpack (payload : list byte) : option Message :=
  match payload with
  | x00 :: _ => Some (mkMessage 7 false false 0 [question] [])
  | x01 :: _ => Some (mkMessage 7 true false 0 [question] answers)
  | _ => None
  end.
Definition in_order {K A} `{Countable K} (m : gmap K A) : list K := map fst (map_to_list m).
Definition query : list byte := x00 :: zeros 15.
Definition response : list byte := x01 :: zeros 15.
Definition ops : list op := [ObserveQuery query second in_order; ObserveResponse response (2 * second) (fun _ => in_order)].
Definition cdn : Addr := AddrFrom4 [x01; x02; x03; x04].
Definition evil : Addr := AddrFrom4 [x05; x06; x07; x08].

Lemma in_order_ranges {K A} `{Countable K} : ranges (@in_order K A _ _).
Proof.
  intros m k. unfold in_order. rewrite list_elem_of_fmap. split.
  - intros ([k' e] & -> & Hin). exists e. by apply elem_of_map_to_list.
  - intros [e E]. exists (k, e). split; [done|]. by apply elem_of_map_to_list.
Qed.

Lemma ops_ranges : Forall op_ranges ops.
Proof. apply Forall_cons. split; [apply in_order_ranges|]. apply Forall_cons. split; [intros n; apply in_order_ranges|by constructor]. Qed.

Lemma attribution_bounded_witness : bounded (foldl (run_op Unpack) newDNSAttribution ops).
Proof. apply (attribution_bounded Unpack ops). exact ops_ranges. Defined.

(** The address belongs to the domain that was asked for, for the 30 seconds of
    the shortest record on the way; the unrelated record is ignored. *)
Lemma attribution_sound_witness :
  fst (domainFor evil (3 * second) (foldl (run_op Unpack) newDNSAttribution ops)) = None /\
  fst (domainFor cdn (32 * second) (foldl (run_op Unpack) newDNSAttribution ops)) = None /\
  exists entry, da_domain entry = bytes_of "www.example.com" /\ 31 * second < da_expires entry /\ justified Unpack ops cdn entry.
Proof.
  split; [vm_compute; reflexivity|]. split; [vm_compute; reflexivity|].
  apply (attribution_sound Unpack ops cdn (31 * second) (bytes_of "www.example.com") ops_ranges). vm_compute. reflexivity.
Defined.
End DnsExample.
