(* ===== verification/FirstFlight.v ===== *)
(** * First flight inspection (internal/tunstack/first_flight.go)

    The first bytes of a TCP connection are searched for the name of its server:
    the server name extension of a TLS ClientHello or the Host header of an HTTP
    request.  The bytes come from the network, so every index expression is
    checked ([Slices]): a [None] would be a panic of the tunnel. *)
From stdpp Require Import prelude list.
From S2P Require Import Prelude Text Slices Netip DnsAttribution.

Definition firstFlightMaximumBytes : Z := 16384.

Inductive firstFlightDecision := firstFlightNeedMore | firstFlightUseNumeric | firstFlightUseDomain.
Definition outcome : Type := list byte * firstFlightDecision.
Definition numeric : option outcome := Some ([], firstFlightUseNumeric).
Definition need_more : option outcome := Some ([], firstFlightNeedMore).

(** [net.ParseIP(s) != nil]. *)
Definition ParseIP (s : list byte) : bool := match ParseAddr s with Some a => bool_decide (Zone a = []) | None => false end.

(** The new offset, if it stays within the limit. *)
Definition advanceWithin (offset n limit : Z) : option Z := if (n <? 0) || (limit - n <? offset) then None else Some (offset + n).

(** A name that was found, unless it is an address or no name at all. *)
Definition found_name (name : list byte) : option outcome :=
  match canonicalDNSName name with
  | Some name => if ParseIP name then numeric else Some (name, firstFlightUseDomain)
  | None => numeric
  end.

(** ** TLS *)

(** The loop over the names of the extension, from [offset]; it advances by three
    bytes at least, and running out of fuel counts as a panic. *)
Fixpoint server_names (fuel : nat) (extension : list byte) (offset : Z) : option outcome :=
  match fuel with
  | O => None
  | S fuel =>
      if len extension <=? offset then numeric
      else if len extension <? offset + 3 then numeric
      else
        nameType ← at_ extension offset;
        nameLength ← (field ← sub_ extension (offset + 1) (offset + 3); Uint16 field);
        let offset := offset + 3 in
        if (nameLength =? 0) || (len extension - offset <? nameLength) then numeric
        else if nameType =? 0 then name ← sub_ extension offset (offset + nameLength); found_name name
        else server_names fuel extension (offset + nameLength)
  end.

Definition inspectServerNameExtension (extension : list byte) : option outcome :=
  if len extension <? 5 then numeric
  else
    total ← (field ← sub_ extension 0 2; Uint16 field);
    if negb (total =? len extension - 2) then numeric else server_names (length extension) extension 2.

(** The loop over the extensions, from [offset] to [end_]. *)
Fixpoint hello_extensions (fuel : nat) (body : list byte) (offset end_ : Z) : option outcome :=
  match fuel with
  | O => None
  | S fuel =>
      if end_ <=? offset then numeric
      else if end_ <? offset + 4 then numeric
      else
        extensionType ← (field ← sub_ body offset (offset + 2); Uint16 field);
        extensionLength ← (field ← sub_ body (offset + 2) (offset + 4); Uint16 field);
        let offset := offset + 4 in
        if end_ - offset <? extensionLength then numeric
        else if extensionType =? 0 then extension ← sub_ body offset (offset + extensionLength); inspectServerNameExtension extension
        else hello_extensions fuel body (offset + extensionLength) end_
  end.

(** The extensions that follow the compression methods. *)
Definition hello_tail (body : list byte) (offset : Z) : option outcome :=
  if offset =? len body then numeric
  else if len body <? offset + 2 then numeric
  else
    extensionsLength ← (field ← sub_ body offset (offset + 2); Uint16 field);
    let offset := offset + 2 in
    if negb (extensionsLength =? len body - offset) then numeric
    else hello_extensions (S (length body)) body offset (offset + extensionsLength).

(** The body of the handshake message, after version and random. *)
Definition hello_body (body : list byte) : option outcome :=
  let offset := 2 + 32 in
  if len body <=? offset then numeric
  else
    sessionLength ← at_ body offset;
    match advanceWithin (offset + 1) sessionLength (len body) with
    | None => numeric
    | Some offset =>
        if len body <? offset + 2 then numeric
        else
          cipherLength ← (field ← sub_ body offset (offset + 2); Uint16 field);
          if (cipherLength <? 2) || negb (cipherLength mod 2 =? 0) then numeric
          else
            match advanceWithin (offset + 2) cipherLength (len body) with
            | None => numeric
            | Some offset =>
                if len body <=? offset then numeric
                else
                  compressionLength ← at_ body offset;
                  if compressionLength <? 1 then numeric
                  else
                    match advanceWithin (offset + 1) compressionLength (len body) with
                    | None => numeric
                    | Some offset => hello_tail body offset
                    end
            end
    end.

(** The handshake message of a complete record. *)
Definition hello_record (record : list byte) : option outcome :=
  if len record <? 4 then numeric
  else
    kind ← at_ record 0;
    if negb (kind =? 1) then numeric
    else
      l1 ← at_ record 1; l2 ← at_ record 2; l3 ← at_ record 3;
      let handshakeLength := Z.lor (Z.lor (Z.shiftl l1 16) (Z.shiftl l2 8)) l3 in
      if (handshakeLength <? 38) || (len record - 4 <? handshakeLength) then numeric
      else body ← sub_ record 4 (4 + handshakeLength); hello_body body.

Definition inspectTLSClientHello (payload : list byte) : option outcome :=
  if len payload <? 5 then need_more
  else
    kind ← at_ payload 0; major ← at_ payload 1;
    if negb (kind =? 22) || negb (major =? 3) then numeric
    else
      recordLength ← (field ← sub_ payload 3 5; Uint16 field);
      if (recordLength <? 4) || (firstFlightMaximumBytes - 5 <? recordLength) then numeric
      else if len payload <? 5 + recordLength then need_more
      else record ← sub_ payload 5 (5 + recordLength); hello_record record.

(** ** HTTP *)

Definition methods : list (list byte) := map bytes_of ["GET"; "HEAD"; "POST"; "PUT"; "DELETE"; "OPTIONS"; "PATCH"; "CONNECT"].
Definition isHTTPMethod (value : list byte) : bool := existsb (bytes_eq value) methods.
Definition couldBeHTTPPrefix (payload : list byte) : bool :=
  let upper := ToUpper payload in
  existsb (fun method => let method := method ++ [x20] in HasPrefix method upper || HasPrefix upper method) methods.

Definition crlf : list byte := [x0d; x0a].

(** The first Host header of the lines. *)
Fixpoint host_header (lines : list (list byte)) : option outcome :=
  match lines with
  | [] => numeric
  | line :: lines =>
      match split_first x3a line with
      | Some (name, value) =>
          if negb (EqualFold (TrimSpace name) (bytes_of "host")) then host_header lines
          else
            let host := TrimSpace value in
            let host := match SplitHostPort host with Some (parsedHost, _) => parsedHost | None => TrimSuffix host [x3a] end in
            found_name host
      | None => host_header lines
      end
  end.

Definition inspectHTTPHost (payload : list byte) : option outcome :=
  if firstFlightMaximumBytes <? len payload then numeric
  else
    match Index payload crlf with
    | None => if couldBeHTTPPrefix payload then need_more else numeric
    | Some lineEnd =>
        let lineEnd := Z.of_nat lineEnd in
        requestLine ← sub_ payload 0 lineEnd;
        match Fields requestLine with
        | [method; _; version] =>
            if negb (isHTTPMethod method) || negb (HasPrefix version (bytes_of "HTTP/1.")) then numeric
            else
              headers ← sub_ payload (lineEnd + 2) (len payload);
              match Index headers (crlf ++ crlf) with
              | None => need_more
              | Some relativeHeadersEnd =>
                  lines ← sub_ payload (lineEnd + 2) (lineEnd + 2 + Z.of_nat relativeHeadersEnd);
                  host_header (SplitOn lines crlf)
              end
        | _ => numeric
        end
    end.

Definition inspectFirstFlight (payload : list byte) : option outcome :=
  match payload with
  | [] => need_more
  | first :: _ => if b2z first =? 22 then inspectTLSClientHello payload else inspectHTTPHost payload
  end.

(** ** Names *)

Lemma HasPrefix_head c s x p : HasPrefix (c :: s) (x :: p) = true -> c = x.
Proof. unfold HasPrefix. cbn [length take]. intros E%bool_decide_eq_true. by injection E. Qed.

Definition name_char (c : byte) : bool := dns_char c || (b2z c =? 46).

Lemma no_space_head enc c s : forallb (fun sp => match sp with x :: _ => negb (name_char x) | [] => false end) enc = true ->
  name_char c = true -> space_at enc (c :: s) = 0%nat.
Proof.
  intros He Hc. unfold space_at. destruct (find _ enc) as [sp|] eqn:F; [|done]. apply find_some in F as [Hin Hp].
  eapply forallb_forall in He; [|exact Hin]. cbn beta in He. destruct sp as [|x p]; [done|]. apply HasPrefix_head in Hp as ->. by rewrite Hc in He.
Qed.

Lemma trim_front_id enc s : forallb (fun sp => match sp with x :: _ => negb (name_char x) | [] => false end) enc = true ->
  forallb name_char s = true -> trim_front enc 0 s = s.
Proof.
  intros He Hs. destruct s as [|c s]; [done|]. cbn [forallb] in Hs. apply andb_prop in Hs as [Hc _].
  cbn [trim_front]. by rewrite (no_space_head enc c s He Hc).
Qed.

Lemma forallb_rev {A} (f : A -> bool) l : forallb f (rev l) = forallb f l.
Proof. induction l as [|x l IH]; [done|]. cbn. rewrite forallb_app, IH. cbn. by destruct (f x), (forallb f l). Qed.

Lemma TrimSpace_id s : forallb name_char s = true -> TrimSpace s = s.
Proof.
  intros Hs. unfold TrimSpace. rewrite (trim_front_id spaces s); [|vm_compute; reflexivity|exact Hs].
  rewrite (trim_front_id (map (@rev byte) spaces) (rev s)); [apply rev_involutive|vm_compute; reflexivity|by rewrite forallb_rev].
Qed.

Lemma Split_cons sep s : exists p ps, Split sep s = p :: ps.
Proof. destruct s as [|c s]; cbn; [by eexists _, _|]. case_bool_decide; [by eexists _, _|]. destruct (Split sep s); by eexists _, _. Qed.

Lemma Split_chars f sep s : forallb (forallb f) (Split sep s) = true -> forallb (fun c => f c || bool_decide (c = sep)) s = true.
Proof.
  induction s as [|c s IH]; [done|]. cbn [Split forallb]. destruct (Split_cons sep s) as (p & ps & E). case_bool_decide as Hc.
  - cbn. intros H. rewrite orb_true_r. by apply IH.
  - rewrite E in *. cbn. intros [[Hf Hp]%andb_prop Hps]%andb_prop. rewrite Hf. cbn. apply IH. cbn. by rewrite Hp.
Qed.

Lemma Split_trailing sep q : exists ps, ps <> [] /\ Split sep (q ++ [sep]) = ps ++ [[]].
Proof.
  induction q as [|c q (ps & Hps & E)]; cbn [app Split].
  - rewrite bool_decide_true by done. by exists [[]].
  - case_bool_decide; [by exists ([] :: ps); rewrite E|]. rewrite E. destruct ps as [|p ps]; [done|]. by exists ((c :: p) :: ps).
Qed.

(** The names [canonicalDNSName] returns. *)
Record dns_name (v : list byte) : Prop := {
  dn_nonempty : v <> [];
  dn_length : len v <= 253;
  dn_labels : forallb dns_label (Split x2e v) = true
}.

Lemma dns_name_chars v : dns_name v -> forallb name_char v = true.
Proof.
  intros [_ _ H]. assert (Hl : forallb (forallb dns_char) (Split x2e v) = true).
  { apply forallb_forall. intros l Hl. eapply forallb_forall in H; [|exact Hl]. by apply andb_prop in H as [_ H]. }
  apply Split_chars in Hl. apply forallb_forall. intros c Hc. eapply forallb_forall in Hl; [|exact Hc]. unfold name_char.
  apply orb_prop in Hl as [-> | ->%bool_decide_eq_true]; [done|apply orb_true_r].
Qed.

Lemma name_char_lower c : name_char c = true -> lower_ascii c = true.
Proof. destruct c; vm_compute; done. Qed.

Lemma canonical_id v : dns_name v -> canonicalDNSName v = Some v.
Proof.
  intros Hv. pose proof (dns_name_chars v Hv) as Hc. unfold canonicalDNSName. rewrite TrimSpace_id by done.
  assert (Ht : TrimSuffix v [x2e] = v).
  { unfold TrimSuffix. destruct (HasSuffix v [x2e]) eqn:E; [|done]. exfalso. apply HasSuffix_iff in E as [q ->].
    destruct (Split_trailing x2e q) as (ps & _ & E). pose proof (dn_labels _ Hv) as Hl. rewrite E, forallb_app in Hl.
    by apply andb_prop in Hl as [_ Hl]. }
  rewrite Ht, ToLower_id.
  - destruct Hv as [H1 H2 H3]. rewrite bool_decide_false by done. cbn [orb]. rewrite (proj2 (Z.ltb_ge _ _)) by done. by rewrite H3.
  - apply forallb_forall. intros c Hin. eapply forallb_forall in Hc; [|exact Hin]. by apply name_char_lower.
Qed.

Lemma canonical_name s v : canonicalDNSName s = Some v -> dns_name v.
Proof.
  unfold canonicalDNSName. destruct (bool_decide _ || _) eqn:G; [done|]. apply orb_false_iff in G as [G1%bool_decide_eq_false G2%Z.ltb_ge].
  destruct (forallb dns_label _) eqn:Hl; [|done]. intros H. apply (inj Some) in H as <-. by constructor.
Qed.

(** ** No panic *)

(** A name that may be used is a name in canonical form and no address. *)
Definition outcome_ok (o : outcome) : Prop :=
  match snd o with firstFlightUseDomain => canonicalDNSName (fst o) = Some (fst o) /\ ParseIP (fst o) = false | _ => fst o = [] end.

Lemma numeric_ok : wp numeric outcome_ok.
Proof. by apply wp_ret. Qed.

Lemma need_more_ok : wp need_more outcome_ok.
Proof. by apply wp_ret. Qed.

Lemma found_ok name : wp (found_name name) outcome_ok.
Proof.
  unfold found_name. destruct (canonicalDNSName name) as [v|] eqn:E; [|apply numeric_ok]. destruct (ParseIP v) eqn:Ep; [apply numeric_ok|].
  apply wp_ret. split; [by eapply canonical_id, canonical_name|done].
Qed.
#[local] Hint Resolve numeric_ok need_more_ok found_ok : np2.

Lemma server_names_ok fuel extension offset : 0 <= offset <= len extension -> len extension - offset < Z.of_nat fuel -> wp (server_names fuel extension offset) outcome_ok.
Proof.
  revert offset. induction fuel as [|fuel IH]; intros offset Ho Hf; [lia|]. cbn [server_names].
  wp_steps; auto with np2. apply IH; bounds; lia.
Qed.

Lemma server_name_ok extension : wp (inspectServerNameExtension extension) outcome_ok.
Proof. unfold inspectServerNameExtension. wp_steps; auto with np2. apply server_names_ok; bounds; unfold len in *; lia. Qed.
#[local] Hint Resolve server_name_ok : np2.

Lemma extensions_ok fuel body offset end_ : 0 <= offset <= end_ -> end_ <= len body -> end_ - offset < Z.of_nat fuel -> wp (hello_extensions fuel body offset end_) outcome_ok.
Proof.
  revert offset. induction fuel as [|fuel IH]; intros offset Ho He Hf; [lia|]. cbn [hello_extensions].
  wp_steps; auto with np2. apply IH; bounds; lia.
Qed.

Lemma tail_ok body offset : 0 <= offset -> wp (hello_tail body offset) outcome_ok.
Proof. intros Ho. unfold hello_tail. wp_steps; auto with np2. apply extensions_ok; bounds; unfold len in *; lia. Qed.

(** A step over a field that does not leave the message. *)
Lemma wp_advance offset n limit (x : option outcome) (k : Z -> option outcome) Q :
  wp x Q -> (0 <= n -> offset + n <= limit -> wp (k (offset + n)) Q) -> wp (match advanceWithin offset n limit with None => x | Some o => k o end) Q.
Proof. intros Hx Hk. unfold advanceWithin. destruct (_ || _) eqn:G; [done|]. bounds. apply Hk; lia. Qed.

Lemma body_ok body : wp (hello_body body) outcome_ok.
Proof.
  unfold hello_body. wp_steps; auto with np2. apply wp_advance; [auto with np2|]. intros Hs1 Hs2. wp_steps; auto with np2.
  apply wp_advance; [auto with np2|]. intros Hc1 Hc2. wp_steps; auto with np2.
  apply wp_advance; [auto with np2|]. intros Hm1 Hm2. apply tail_ok. lia.
Qed.
#[local] Hint Resolve body_ok : np2.

Lemma record_ok record : wp (hello_record record) outcome_ok.
Proof. unfold hello_record. wp_steps; auto with np2. Qed.
#[local] Hint Resolve record_ok : np2.

Lemma hello_ok payload : wp (inspectTLSClientHello payload) outcome_ok.
Proof. unfold inspectTLSClientHello. wp_steps; auto with np2. Qed.

Lemma header_ok lines : wp (host_header lines) outcome_ok.
Proof.
  induction lines as [|line lines IH]; cbn [host_header]; [auto with np2|]. destruct (split_first _ line) as [[name value]|]; [|done].
  wp_steps; auto with np2.
Qed.

Lemma Index_bound s p n : Index s p = Some n -> (n + length p <= length s)%nat.
Proof.
  revert n. induction s as [|c s IH]; intros n; cbn [Index].
  - destruct (HasPrefix [] p) eqn:E; [|done]. intros [= <-]. unfold HasPrefix in E. apply bool_decide_eq_true in E.
    apply (f_equal length) in E. rewrite take_nil in E. cbn in E |- *. lia.
  - destruct (HasPrefix (c :: s) p) eqn:E.
    + intros [= <-]. unfold HasPrefix in E. apply bool_decide_eq_true in E. apply (f_equal length) in E. rewrite length_take in E. lia.
    + destruct (Index s p) as [m|]; [|done]. intros [= <-]. specialize (IH m eq_refl). cbn. lia.
Qed.

Lemma http_ok payload : wp (inspectHTTPHost payload) outcome_ok.
Proof.
  unfold inspectHTTPHost. wp_step; [auto with np2|]. destruct (Index payload crlf) as [n|] eqn:E; [|destruct (couldBeHTTPPrefix payload); auto with np2].
  apply Index_bound in E. change (length crlf) with 2%nat in E. assert (Z.of_nat n + 2 <= len payload) by (unfold len; lia).
  wp_steps. destruct (Fields _) as [|m [|u [|v [|]]]]; auto with np2. wp_steps; auto with np2.
  match goal with |- context [Index ?h _] => destruct (Index h (crlf ++ crlf)) as [k|] eqn:E2; auto with np2 end.
  apply Index_bound in E2. change (length (crlf ++ crlf)) with 4%nat in E2. wp_steps; [|apply header_ok]. unfold len in *. lia.
Qed.

(** Inspecting the first bytes of a connection never indexes outside them and
    always ends, whatever the bytes are: it asks for more, gives up, or returns a
    canonical domain name that is no address. *)
Theorem first_flight_safe payload : wp (inspectFirstFlight payload) outcome_ok.
Proof.
  unfold inspectFirstFlight. destruct payload as [|c s]; [auto with np2|]. destruct (_ =? _); [apply hello_ok|apply http_ok].
Qed.

(** ** The server name of a ClientHello *)

(** A ClientHello as RFC 8446 and RFC 6066 lay it out. *)
Record hello := mkHello {
  hl_version : list byte; hl_random : list byte; hl_session : list byte; hl_ciphers : list byte; hl_compression : list byte;
  hl_extensions : list (Z * list byte)
}.
Definition ext_bytes (e : Z * list byte) : list byte := be_encode 2 (fst e) ++ be_encode 2 (len (snd e)) ++ snd e.
Definition exts_bytes (es : list (Z * list byte)) : list byte := flat_map ext_bytes es.
Definition body_bytes (h : hello) : list byte :=
  (hl_version h ++ hl_random h) ++ z2b (len (hl_session h)) :: hl_session h ++ be_encode 2 (len (hl_ciphers h)) ++ hl_ciphers h ++
  z2b (len (hl_compression h)) :: hl_compression h ++ be_encode 2 (len (exts_bytes (hl_extensions h))) ++ exts_bytes (hl_extensions h).
Definition message_bytes (h : hello) : list byte := x01 :: be_encode 3 (len (body_bytes h)) ++ body_bytes h.
Definition hello_bytes (minor : byte) (h : hello) : list byte := [x16; x03; minor] ++ be_encode 2 (len (message_bytes h)) ++ message_bytes h.
Definition sni (name : list byte) : list byte := be_encode 2 (len name + 3) ++ x00 :: be_encode 2 (len name) ++ name.

Record hello_wf (h : hello) : Prop := {
  hw_version : len (hl_version h) = 2;
  hw_random : len (hl_random h) = 32;
  hw_session : len (hl_session h) <= 255;
  hw_ciphers : 2 <= len (hl_ciphers h) /\ len (hl_ciphers h) mod 2 = 0;
  hw_compression : 1 <= len (hl_compression h) <= 255;
  hw_types : Forall (fun e => 0 <= fst e < 65536) (hl_extensions h);
  hw_size : len (message_bytes h) <= firstFlightMaximumBytes - 5
}.

Lemma found_domain name host : canonicalDNSName name = Some host -> ParseIP host = false -> found_name name = Some (host, firstFlightUseDomain).
Proof. intros E F. unfold found_name. by rewrite E, F. Qed.

Lemma canonical_nonempty name host : canonicalDNSName name = Some host -> 1 <= len name.
Proof. destruct name; [vm_compute; done|]. rewrite len_cons. pose proof (len_nonneg name). lia. Qed.

Lemma server_name_found name host : canonicalDNSName name = Some host -> ParseIP host = false -> len name + 3 < 65536 ->
  inspectServerNameExtension (sni name) = Some (host, firstFlightUseDomain).
Proof.
  intros Hc Hp Hl. pose proof (canonical_nonempty _ _ Hc). unfold inspectServerNameExtension.
  assert (Hlen : len (sni name) = len name + 5) by (unfold sni; rewrite !len_app, len_cons, !len_app, !len_be_encode; lia).
  rewrite Hlen, (proj2 (Z.ltb_ge _ _)) by lia.
  rewrite (sub_at _ _ _ [] (be_encode 2 (len name + 3)) (x00 :: be_encode 2 (len name) ++ name)) by (rewrite ?len_be_encode; done).
  cbn [option_bind mbind]. rewrite Uint16_encode by lia. cbn [option_bind mbind].
  replace (len name + 3 =? len name + 5 - 2) with true by lia. cbn [negb].
  destruct (length (sni name)) as [|fuel] eqn:El; [unfold len in *; lia|]. cbn [server_names].
  rewrite Hlen, (proj2 (Z.leb_gt _ _)), (proj2 (Z.ltb_ge _ _)) by lia.
  rewrite (at_at _ _ (be_encode 2 (len name + 3)) x00 (be_encode 2 (len name) ++ name)) by (rewrite ?len_be_encode; done).
  cbn [option_bind mbind].
  rewrite (sub_at _ _ _ (be_encode 2 (len name + 3) ++ [x00]) (be_encode 2 (len name)) name); [|by unfold sni; rewrite <- app_assoc|by rewrite len_app, len_be_encode..|idtac].
  2: by rewrite len_app, !len_be_encode.
  cbn [option_bind mbind]. rewrite Uint16_encode by lia. cbn [option_bind mbind].
  rewrite (proj2 (Z.eqb_neq _ _)), (proj2 (Z.ltb_ge _ _)) by lia. change (b2z x00 =? 0) with true. cbn [orb].
  rewrite (sub_at _ _ _ (be_encode 2 (len name + 3) ++ x00 :: be_encode 2 (len name)) name []).
  - cbn [option_bind mbind]. by apply found_domain.
  - unfold sni. by rewrite app_nil_r, <- !app_assoc.
  - rewrite len_app, len_cons, !len_be_encode. lia.
  - rewrite len_app, len_cons, !len_be_encode. lia.
Qed.

Lemma len_ext e : len (ext_bytes e) = 4 + len (snd e).
Proof. unfold ext_bytes. rewrite !len_app, !len_be_encode. lia. Qed.

Lemma extension_step fuel body l e r : body = l ++ ext_bytes e ++ r -> 0 <= fst e < 65536 -> len (snd e) < 65536 ->
  hello_extensions (S fuel) body (len l) (len body) =
    if fst e =? 0 then inspectServerNameExtension (snd e) else hello_extensions fuel body (len (l ++ ext_bytes e)) (len body).
Proof.
  intros E Ht Hd. destruct e as [t d]. cbn [fst snd] in *. pose proof (len_nonneg l). pose proof (len_nonneg d). pose proof (len_nonneg r).
  assert (Hlen : len body = len l + 4 + len d + len r) by (rewrite E, !len_app, len_ext; cbn; lia).
  unfold ext_bytes in E. cbn [fst snd] in E. cbn [hello_extensions].
  rewrite (proj2 (Z.leb_gt _ _)), (proj2 (Z.ltb_ge _ _)) by lia.
  rewrite (sub_at body (len l) (len l + 2) l (be_encode 2 t) (be_encode 2 (len d) ++ d ++ r)); [|by rewrite E, <- !app_assoc|lia|rewrite len_be_encode; lia].
  cbn [option_bind mbind]. rewrite Uint16_encode by lia. cbn [option_bind mbind].
  rewrite (sub_at body (len l + 2) (len l + 4) (l ++ be_encode 2 t) (be_encode 2 (len d)) (d ++ r)); [|by rewrite E, <- !app_assoc|rewrite len_app, len_be_encode; done|rewrite len_app, !len_be_encode; lia].
  cbn [option_bind mbind]. rewrite Uint16_encode by lia. cbn [option_bind mbind].
  rewrite (proj2 (Z.ltb_ge _ _)) by lia. destruct (t =? 0).
  - rewrite (sub_at _ _ _ (l ++ be_encode 2 t ++ be_encode 2 (len d)) d r); [done|by rewrite E, <- !app_assoc|rewrite !len_app, !len_be_encode; lia..].
  - f_equal. rewrite len_app, len_ext. cbn. lia.
Qed.

Lemma extensions_found pre s post fuel body l : body = l ++ exts_bytes (pre ++ (0, s) :: post) ->
  Forall (fun e => 0 < fst e < 65536) pre -> len body < 65536 -> (length pre < fuel)%nat ->
  hello_extensions fuel body (len l) (len body) = inspectServerNameExtension s.
Proof.
  revert fuel l. induction pre as [|e pre IH]; intros fuel l E Hp Hb Hf; destruct fuel as [|fuel]; try (cbn in Hf; lia).
  - rewrite (extension_step fuel body l (0, s) (exts_bytes post)); [done|by rewrite E|cbn; lia|]. cbn [snd].
    pose proof (f_equal len E) as Hl. unfold exts_bytes in Hl. cbn [app flat_map] in Hl. rewrite !len_app, len_ext in Hl. cbn [snd] in Hl.
    pose proof (len_nonneg l). pose proof (len_nonneg (flat_map ext_bytes post)). lia.
  - apply Forall_cons in Hp as [He Hp]. cbn in Hf. pose proof (f_equal len E) as Hl. unfold exts_bytes in Hl. cbn [app flat_map] in Hl.
    rewrite !len_app, len_ext in Hl. pose proof (len_nonneg l). pose proof (len_nonneg (flat_map ext_bytes (pre ++ (0, s) :: post))).
    rewrite (extension_step fuel body l e (exts_bytes (pre ++ (0, s) :: post))); [|done|lia|lia].
    rewrite (proj2 (Z.eqb_neq _ _)) by lia. apply IH; [by rewrite E, <- app_assoc|done|done|lia].
Qed.

Lemma length_exts es : (length es <= length (exts_bytes es))%nat.
Proof. induction es as [|e es IH]; [done|]. cbn. rewrite length_app. pose proof (len_ext e). pose proof (len_nonneg (snd e)). unfold len in *. unfold exts_bytes in IH. lia. Qed.

Section Hello.
Context (minor : byte) (h : hello) (Hwf : hello_wf h).

Lemma len_body : len (body_bytes h) = 40 + len (hl_session h) + len (hl_ciphers h) + len (hl_compression h) + len (exts_bytes (hl_extensions h)).
Proof.
  destruct Hwf as [H1 H2 _ _ _ _ _]. unfold body_bytes. rewrite !len_app, len_cons, !len_app, len_cons, !len_app, !len_be_encode. lia.
Qed.

Lemma len_message : len (message_bytes h) = 4 + len (body_bytes h).
Proof. unfold message_bytes. rewrite len_cons, len_app, len_be_encode. lia. Qed.

(** The code reaches the extensions at their place in the body. *)
Lemma hello_body_extensions : exists l, body_bytes h = l ++ exts_bytes (hl_extensions h) /\
  hello_body (body_bytes h) = if len l - 2 =? len (body_bytes h) then numeric else hello_extensions (S (length (body_bytes h))) (body_bytes h) (len l) (len (body_bytes h)).
Proof.
  destruct Hwf as [H1 H2 H3 [H4 H4'] H5 _ H7]. rewrite len_message in H7. unfold firstFlightMaximumBytes in H7.
  pose proof len_body as Hb. pose proof (len_nonneg (hl_session h)). pose proof (len_nonneg (exts_bytes (hl_extensions h))).
  set (v := hl_version h ++ hl_random h) in *. set (s := hl_session h) in *. set (cs := hl_ciphers h) in *. set (m := hl_compression h) in *.
  set (x := exts_bytes (hl_extensions h)) in *. set (body := body_bytes h) in *.
  assert (E : body = v ++ z2b (len s) :: s ++ be_encode 2 (len cs) ++ cs ++ z2b (len m) :: m ++ be_encode 2 (len x) ++ x) by done.
  assert (Hv : len v = 34) by (unfold v; rewrite len_app; lia).
  set (l1 := v ++ z2b (len s) :: s). set (l2 := l1 ++ be_encode 2 (len cs) ++ cs). set (l3 := l2 ++ z2b (len m) :: m).
  assert (L1 : len l1 = 35 + len s) by (unfold l1; rewrite len_app, len_cons; lia).
  assert (L2 : len l2 = 37 + len s + len cs) by (unfold l2; rewrite !len_app, len_be_encode; lia).
  assert (L3 : len l3 = 38 + len s + len cs + len m) by (unfold l3; rewrite len_app, len_cons; lia).
  exists (l3 ++ be_encode 2 (len x)). split; [unfold l3, l2, l1; rewrite E; assoc|].
  unfold hello_body. rewrite (proj2 (Z.leb_gt _ _)) by lia.
  rewrite (at_at _ _ v (z2b (len s)) (s ++ be_encode 2 (len cs) ++ cs ++ z2b (len m) :: m ++ be_encode 2 (len x) ++ x)) by done.
  cbn [option_bind mbind]. rewrite b2z_z2b_small by lia. unfold advanceWithin at 1.
  rewrite (proj2 (Z.ltb_ge _ _)), (proj2 (Z.ltb_ge _ _)) by lia. cbn [orb]. rewrite (proj2 (Z.ltb_ge _ _)) by lia.
  rewrite (sub_at _ _ _ l1 (be_encode 2 (len cs)) (cs ++ z2b (len m) :: m ++ be_encode 2 (len x) ++ x));
    [|unfold l1; rewrite E; assoc|lia|rewrite len_be_encode; lia].
  cbn [option_bind mbind]. rewrite Uint16_encode by lia. cbn [option_bind mbind].
  rewrite (proj2 (Z.ltb_ge _ _)), H4' by lia. cbn [orb negb]. change (0 =? 0) with true. cbn [negb]. unfold advanceWithin at 1.
  rewrite (proj2 (Z.ltb_ge _ _)), (proj2 (Z.ltb_ge _ _)) by lia. cbn [orb]. rewrite (proj2 (Z.leb_gt _ _)) by lia.
  rewrite (at_at _ _ l2 (z2b (len m)) (m ++ be_encode 2 (len x) ++ x)); [|unfold l2, l1; rewrite E; assoc|lia].
  cbn [option_bind mbind]. rewrite b2z_z2b_small by lia. rewrite (proj2 (Z.ltb_ge _ _)) by lia. unfold advanceWithin.
  rewrite (proj2 (Z.ltb_ge _ _)), (proj2 (Z.ltb_ge _ _)) by lia. cbn [orb]. unfold hello_tail.
  rewrite len_app, len_be_encode. replace (len l3 + Z.of_nat 2 - 2) with (34 + 1 + len s + 2 + len cs + 1 + len m) by lia.
  destruct (_ =? len body); [done|]. rewrite (proj2 (Z.ltb_ge _ _)) by lia.
  rewrite (sub_at _ _ _ l3 (be_encode 2 (len x)) x); [|unfold l3, l2, l1; rewrite E; assoc|lia|rewrite len_be_encode; lia].
  cbn [option_bind mbind]. rewrite Uint16_encode by lia. cbn [option_bind mbind].
  replace (_ =? _) with true by lia. cbn [negb]. f_equal; lia.
Qed.
End Hello.

Lemma be_encode_3 n : 0 <= n < 16777216 -> exists a b c, be_encode 3 n = [a; b; c] /\ Z.lor (Z.lor (Z.shiftl (b2z a) 16) (Z.shiftl (b2z b) 8)) (b2z c) = n.
Proof.
  intros Hn. pose proof (be_decode_encode 3 n) as E. change (2 ^ (8 * Z.of_nat 3)) with 16777216 in E. rewrite Z.mod_small in E by done.
  destruct (be_encode 3 n) as [|a [|b [|c [|]]]] eqn:F; try (by pose proof (length_be_encode 3 n) as L; rewrite F in L).
  exists a, b, c. split; [done|]. pose proof (b2z_range a). pose proof (b2z_range b). pose proof (b2z_range c).
  replace (Z.shiftl (b2z a) 16) with (Z.shiftl (Z.shiftl (b2z a) 8) 8) by (by rewrite Z.shiftl_shiftl).
  rewrite <- Z.shiftl_lor, (uint16_range (b2z a) (b2z b)) by done. rewrite <- E. unfold be_decode. cbn [fold_left].
  pose proof (Z.add_lor_land (Z.shiftl (b2z a * 256 + b2z b) 8) (b2z c)) as S.
  replace (Z.land _ _) with 0 in S; [rewrite Z.shiftl_mul_pow2 in *; lia|]. symmetry. apply Z.bits_inj'. intros k Hk.
  rewrite Z.land_spec, Z.bits_0, Z.shiftl_spec by lia. destruct (Z.ltb_spec k 8); [by rewrite Z.testbit_neg_r by lia|].
  rewrite <- (Z.mod_small (b2z c) (2 ^ 8)) by lia. by rewrite Z.mod_pow2_bits_high, andb_false_r by lia.
Qed.

Lemma record_body h : hello_wf h -> hello_record (message_bytes h) = hello_body (body_bytes h).
Proof.
  intros Hwf. pose proof (hw_size _ Hwf) as Hs. rewrite len_message in Hs. unfold firstFlightMaximumBytes in Hs.
  pose proof (len_body h Hwf) as Hb. pose proof (hw_ciphers _ Hwf). pose proof (hw_compression _ Hwf). pose proof (len_nonneg (hl_session h)).
  pose proof (len_nonneg (exts_bytes (hl_extensions h))). unfold hello_record. rewrite len_message.
  destruct (be_encode_3 (len (body_bytes h)) ltac:(lia)) as (a & b & c & E & V). unfold message_bytes. rewrite E. set (body := body_bytes h) in *.
  rewrite (proj2 (Z.ltb_ge _ _)) by lia. cbn [app].
  rewrite (at_at _ 0 [] x01 (a :: b :: c :: body)) by done. cbn [option_bind mbind]. change (negb (b2z x01 =? 1)) with false. cbv iota.
  rewrite (at_at _ 1 [x01] a (b :: c :: body)), (at_at _ 2 [x01; a] b (c :: body)), (at_at _ 3 [x01; a; b] c body) by done.
  cbn [option_bind mbind]. rewrite V, !(proj2 (Z.ltb_ge _ _)) by lia. cbn [orb].
  by rewrite (sub_at _ 4 (4 + len body) [x01; a; b; c] body []) by (rewrite ?app_nil_r; done).
Qed.

Section Hello.
Context (minor : byte) (h : hello) (Hwf : hello_wf h).

Lemma message_bound : 44 <= len (message_bytes h) <= 16379.
Proof.
  pose proof (hw_size _ Hwf). pose proof (len_message h). pose proof (len_body h Hwf). pose proof (hw_ciphers _ Hwf). pose proof (hw_compression _ Hwf).
  pose proof (len_nonneg (hl_session h)). pose proof (len_nonneg (exts_bytes (hl_extensions h))). unfold firstFlightMaximumBytes in *. lia.
Qed.

Lemma record_length p q : [x16; x03; minor] ++ be_encode 2 (len (message_bytes h)) ++ p = q ->
  inspectTLSClientHello q = if len q <? 5 + len (message_bytes h) then need_more else record ← sub_ q 5 (5 + len (message_bytes h)); hello_record record.
Proof.
  intros E. symmetry in E. pose proof message_bound. pose proof (len_nonneg p).
  assert (Hl : len q = 5 + len p) by (rewrite E, !len_app, len_be_encode; unfold len; cbn; lia).
  unfold inspectTLSClientHello. rewrite (proj2 (Z.ltb_ge _ _)) by lia.
  rewrite (at_at q 0 [] x16 ([x03; minor] ++ be_encode 2 (len (message_bytes h)) ++ p)) by done.
  rewrite (at_at q 1 [x16] x03 ([minor] ++ be_encode 2 (len (message_bytes h)) ++ p)) by done. cbn [option_bind mbind].
  change (negb (b2z x16 =? 22) || negb (b2z x03 =? 3)) with false. cbv iota.
  rewrite (sub_at q 3 5 [x16; x03; minor] (be_encode 2 (len (message_bytes h))) p); [|done|done|by rewrite len_be_encode]. cbn [option_bind mbind].
  rewrite Uint16_encode by lia. cbn [option_bind mbind]. unfold firstFlightMaximumBytes. by rewrite !(proj2 (Z.ltb_ge _ _)) by lia.
Qed.

Lemma take_prefix k (m : list byte) n : length k = 2%nat -> (4 <= n)%nat -> take n (x03 :: minor :: k ++ m) = x03 :: minor :: k ++ take (n - 4) m.
Proof.
  intros Hk Hn. destruct n as [|[|[|[|n]]]]; try lia. rewrite !firstn_cons, take_app, firstn_all2, Hk by lia. cbn [Nat.sub]. by rewrite Nat.sub_0_r.
Qed.

Lemma hello_incomplete p q : hello_bytes minor h = p ++ q -> q <> [] -> inspectFirstFlight p = need_more.
Proof.
  intros E Hq. destruct p as [|c p]; [done|]. pose proof message_bound. pose proof (record_length (take (length p - 4) (message_bytes h)) (x16 :: p)) as Hr.
  pose proof (length_be_encode 2 (len (message_bytes h))) as Hk. unfold hello_bytes in E. cbn [app] in E, Hr.
  remember (be_encode 2 (len (message_bytes h))) as k eqn:Ek. clear Ek. injection E as <- E.
  unfold inspectFirstFlight. change (b2z x16 =? 22) with true. cbv iota.
  destruct (Z.ltb_spec (len (x16 :: p)) 5) as [H5|H5].
  - unfold inspectTLSClientHello. by rewrite (proj2 (Z.ltb_lt _ _)) by lia.
  - rewrite Hr.
    + rewrite (proj2 (Z.ltb_lt _ _)); [done|]. apply (f_equal len) in E. rewrite !len_cons, !len_app, (len_nat k 2) in E by done. rewrite len_cons.
      destruct q as [|x q]; [done|]. rewrite len_cons in E. pose proof (len_nonneg q). lia.
    + rewrite len_cons in H5. unfold len in H5. f_equal. rewrite <- take_prefix by (done || lia). by rewrite E, take_app_length.
Qed.

(** A complete ClientHello with a server name is recognised whatever follows
    it, and every proper prefix of it makes the tunnel wait: for every
    ClientHello of at most 16 KiB laid out as the RFCs say, with the server name
    among its extensions, the inspection returns that name. *)
Theorem server_name_detected name host before after rest :
  hl_extensions h = before ++ (0, sni name) :: after -> Forall (fun e => fst e <> 0) before ->
  canonicalDNSName name = Some host -> ParseIP host = false ->
  inspectFirstFlight (hello_bytes minor h ++ rest) = Some (host, firstFlightUseDomain) /\
  (forall p q, hello_bytes minor h = p ++ q -> q <> [] -> inspectFirstFlight p = need_more).
Proof.
  intros He Hb Hc Hp. split; [|intros p q; apply hello_incomplete]. pose proof message_bound as Hm. pose proof (len_nonneg rest).
  unfold hello_bytes. rewrite <- !app_assoc. unfold inspectFirstFlight. cbn [app]. change (b2z x16 =? 22) with true. cbv iota.
  pose proof (record_length (message_bytes h ++ rest) _ eq_refl) as Hr. cbn [app] in Hr. rewrite Hr. clear Hr.
  rewrite (proj2 (Z.ltb_ge _ _)) by (rewrite !len_cons, !len_app, len_be_encode; lia).
  rewrite (sub_at _ _ _ ([x16; x03; minor] ++ be_encode 2 (len (message_bytes h))) (message_bytes h) rest); [|assoc|rewrite len_app, len_be_encode; done..].
  cbn [option_bind mbind]. rewrite record_body by done. destruct (hello_body_extensions h Hwf) as (l & El & ->).
  pose proof (len_message h). pose proof (f_equal len El) as L. rewrite len_app in L. pose proof (len_nonneg l).
  assert (Hx : 0 < len (exts_bytes (hl_extensions h))) by (rewrite He; unfold exts_bytes; rewrite flat_map_app, len_app; cbn [flat_map]; rewrite len_app, len_ext;
    pose proof (len_nonneg (flat_map ext_bytes before)); pose proof (len_nonneg (sni name)); pose proof (len_nonneg (flat_map ext_bytes after)); cbn [snd]; lia).
  rewrite (proj2 (Z.eqb_neq _ _)) by lia. rewrite He in El.
  rewrite (extensions_found before (sni name) after _ _ l El).
  - apply server_name_found; [done|done|]. pose proof (f_equal len El) as L2. unfold exts_bytes in L2. rewrite flat_map_app in L2. cbn [flat_map] in L2.
    rewrite !len_app, len_ext in L2. cbn [snd] in L2. unfold sni in L2. rewrite !len_app, len_cons, len_app in L2.
    pose proof (len_nonneg (flat_map ext_bytes before)). pose proof (len_nonneg (flat_map ext_bytes after)). pose proof (len_nonneg (be_encode 2 (len name + 3))).
    pose proof (len_nonneg (be_encode 2 (len name))). lia.
  - apply Forall_forall. intros e Hin. pose proof (hw_types _ Hwf) as Ht. rewrite He in Ht. rewrite Forall_forall in Ht, Hb.
    specialize (Hb e Hin). specialize (Ht e ltac:(apply elem_of_app; by left)). cbn in Ht. lia.
  - lia.
  - apply Nat.lt_succ_r. pose proof (length_exts (hl_extensions h)) as Hn. rewrite He, length_app in Hn. rewrite <- He in Hn.
    unfold len in L. lia.
Qed.
End Hello.

(** ** A concrete ClientHello *)

Module FirstFlightExample.

(** A grease extension, the server name, and the supported versions. *)
Definition greeting : hello :=
  mkHello [x03; x03] (repeat x2a 32) (repeat x07 32) [x13; x01; x13; x02] [x00]
    [(2570, []); (0, sni (bytes_of "Example.ORG.")); (43, [x02; x03; x04])].

Lemma greeting_wf : hello_wf greeting.
Proof.
  constructor; first [by split; vm_compute|by vm_compute|by repeat (constructor; [by vm_compute|])].
Qed.

Lemma name_read : inspectFirstFlight (hello_bytes x01 greeting) = Some (bytes_of "example.org", firstFlightUseDomain).
Proof. vm_compute. reflexivity. Qed.

Lemma request_read : inspectFirstFlight (bytes_of "GET /x HTTP/1.1" ++ crlf ++ bytes_of "hOsT:  WWW.Example.net:8080 " ++ crlf ++ crlf) = Some (bytes_of "www.example.net", firstFlightUseDomain).
Proof. vm_compute. reflexivity. Qed.

Lemma literal_refused : inspectFirstFlight (bytes_of "GET / HTTP/1.1" ++ crlf ++ bytes_of "Host: 10.0.0.1" ++ crlf ++ crlf) = numeric.
Proof. vm_compute. reflexivity. Qed.

Lemma server_name_detected_witness :
  inspectFirstFlight (hello_bytes x01 greeting ++ [x17; x03]) = Some (bytes_of "example.org", firstFlightUseDomain) /\
  (forall p q, hello_bytes x01 greeting = p ++ q -> q <> [] -> inspectFirstFlight p = need_more).
Proof.
  apply (server_name_detected x01 greeting greeting_wf (bytes_of "Example.ORG.") _ [(2570, [])] [(43, [x02; x03; x04])]).
  - reflexivity.
  - repeat constructor. discriminate.
  - vm_compute. reflexivity.
  - vm_compute. reflexivity.
Defined.

End FirstFlightExample.
