(* ===== verification/Varint.v ===== *)
(** * Canonical variable-length integers

    [encoding/binary]'s unsigned varints as the Go standard library computes
    them ([Uvarint], [AppendUvarint]/[PutUvarint]) and the two canonical
    readers of the repository: [readCanonicalUvarint] of
    internal/protocol/cell.go and the one of internal/session/session.go,
    which differ only in their error values.  Every NP/2 wire format is built
    from these readers, so the file proves once that they accept exactly the
    encoder's output. *)
From stdpp Require Import prelude list.
From S2P Require Import Prelude.

(** ** The standard library's varints *)

Definition MaxVarintLen64 : Z := 10.

(** The body of [binary.Uvarint]'s loop over the bytes from index [i], with
    the value [x] read so far and the shift [s]. *)
Fixpoint uvarint_loop (buf : list byte) (i x s : Z) : Z * Z :=
  match buf with
  | [] => (0, 0)
  | b :: buf' =>
      if i =? MaxVarintLen64 then (0, - (i + 1))
      else if b2z b <? 0x80 then
        if (i =? MaxVarintLen64 - 1) && (1 <? b2z b) then (0, - (i + 1))
        else (Z.lor x (u64 (Z.shiftl (b2z b) s)), i + 1)
      else uvarint_loop buf' (i + 1)
             (Z.lor x (u64 (Z.shiftl (Z.land (b2z b) 0x7f) s))) (s + 7)
  end.

Definition Uvarint (buf : list byte) : Z * Z := uvarint_loop buf 0 0 0.

(** [for x >= 0x80 { append byte(x)|0x80; x >>= 7 }; append byte(x)]: a
    [uint64] leaves the loop after at most nine rounds. *)
Fixpoint put_uvarint_loop (fuel : nat) (x : Z) : list byte :=
  match fuel with
  | O => [z2b x]
  | S fuel' =>
      if x <? 0x80 then [z2b x]
      else z2b (Z.lor (u8 x) 0x80) :: put_uvarint_loop fuel' (Z.shiftr x 7)
  end.

Definition put_uvarint (x : Z) : list byte := put_uvarint_loop 9 x.

(** ** The repository's readers *)

Definition readCanonicalUvarint (raw : list byte) : res (Z * Z) :=
  let '(value, consumed) := Uvarint raw in
  if consumed =? 0 then Err ErrInvalidCell
  else if consumed <? 0 then Err ErrNonCanonicalVarint
  else
    let canonical := put_uvarint value in
    if negb (consumed =? len canonical)
       || negb (bytes_eq (take (Z.to_nat consumed) raw) canonical)
    then Err ErrNonCanonicalVarint
    else Ok (value, consumed).

(** The reader of internal/session: one error for every failure. *)
Definition session_readCanonicalUvarint (raw : list byte) : res (Z * Z) :=
  let '(value, consumed) := Uvarint raw in
  if consumed <=? 0 then Err ErrProtocol
  else
    let canonical := put_uvarint value in
    if negb (consumed =? len canonical)
       || negb (bytes_eq (take (Z.to_nat consumed) raw) canonical)
    then Err ErrProtocol
    else Ok (value, consumed).

(** [raw[consumed:]]. *)
Definition skip (consumed : Z) (raw : list byte) : list byte :=
  drop (Z.to_nat consumed) raw.

(** ** Lemmas *)

Lemma lor_small_bound n a b :
  0 <= n -> 0 <= a < 2 ^ n -> 0 <= b < 2 ^ n -> 0 <= Z.lor a b < 2 ^ n.
Proof.
  intros Hn Ha Hb. split; [apply Z.lor_nonneg; lia|].
  destruct (decide (Z.lor a b = 0)) as [->|H0]; [lia|].
  apply Z.log2_lt_pow2; [pose proof (proj2 (Z.lor_nonneg a b)); lia|].
  rewrite Z.log2_lor by lia.
  destruct (decide (a = 0)) as [->|], (decide (b = 0)) as [->|];
    try (rewrite Z.lor_0_l in H0; lia);
    apply Z.max_lub_lt; try (apply Z.log2_lt_pow2; lia); cbn.
  all: destruct (decide (n = 0)) as [->|]; cbn in *; lia.
Qed.

(** One varint group: the low seven bits and the continuation. *)
Lemma group_split x s :
  0 <= s ->
  Z.lor (Z.shiftl (x mod 128) s) (Z.shiftl (Z.shiftr x 7) (s + 7)) = Z.shiftl x s.
Proof.
  intros Hs. change 128 with (2 ^ 7). apply Z.bits_inj'. intros i Hi.
  rewrite Z.lor_spec, !Z.shiftl_spec by lia.
  destruct (decide (i < s)); [rewrite !Z.testbit_neg_r by lia; done|].
  destruct (decide (i < s + 7)).
  - rewrite Z.mod_pow2_bits_low, (Z.testbit_neg_r (Z.shiftr _ _)) by lia.
    apply orb_false_r.
  - rewrite Z.mod_pow2_bits_high, Z.shiftr_spec by lia. cbn. f_equal. lia.
Qed.

Lemma group_byte x : b2z (z2b (Z.lor (u8 x) 0x80)) = 128 + x mod 128.
Proof.
  assert (H : forall b, b2z (z2b (Z.lor (b2z b) 0x80)) = 128 + b2z b mod 128)
    by (intros []; reflexivity).
  replace (x mod 128) with (u8 x mod 128).
  - specialize (H (z2b x)). rewrite !(b2z_z2b x) in H. exact H.
  - unfold u8. change (2 ^ 8) with (128 * 2). rewrite Z.rem_mul_r by lia.
    rewrite (Z.mul_comm 128), Z.mod_add, Z.mod_mod by lia. done.
Qed.

Lemma low_seven y : 0 <= y < 128 -> Z.land (128 + y) 0x7f = y.
Proof.
  intros. change 0x7f with (Z.ones 7). rewrite Z.land_ones by lia.
  change (2 ^ 7) with 128. rewrite <- Zplus_mod_idemp_l. cbn.
  apply Z.mod_small; lia.
Qed.

(** Reading back what was written, from any loop state reached at byte [i]. *)
Lemma uvarint_loop_put fuel i x acc rest :
  0 <= i -> 9 - i <= Z.of_nat fuel -> i <= 9 ->
  0 <= x < 2 ^ (64 - 7 * i) ->
  uvarint_loop (put_uvarint_loop fuel x ++ rest) i acc (7 * i)
  = (Z.lor acc (Z.shiftl x (7 * i)), i + len (put_uvarint_loop fuel x)).
Proof.
  revert i x acc. induction fuel as [|fuel IH]; intros i x acc Hi Hf Hi9 Hx.
  all: assert (Hs : 0 <= Z.shiftl x (7 * i) < 2 ^ 64)
    by (rewrite Z.shiftl_mul_pow2 by lia; replace 64 with (64 - 7 * i + 7 * i) by lia;
        rewrite (Z.pow_add_r 2 (64 - 7 * i)) by lia; nia).
  all: cbn [put_uvarint_loop].
  - assert (i = 9) as -> by lia. cbn in Hx. cbn [app uvarint_loop].
    rewrite b2z_z2b_small by lia. unfold MaxVarintLen64.
    destruct (Z.ltb_spec x 128); [|lia]. destruct (Z.ltb_spec 1 x); [lia|].
    cbn. by rewrite u64_small.
  - destruct (Z.ltb_spec x 128) as [Hlt|Hge].
    + cbn [app uvarint_loop]. rewrite b2z_z2b_small by lia.
      unfold MaxVarintLen64. destruct (Z.eqb_spec i 10); [lia|].
      destruct (Z.ltb_spec x 128); [|lia].
      destruct (Z.eqb_spec i (10 - 1)); cbn [andb];
        [subst; cbn in Hx; destruct (Z.ltb_spec 1 x); [lia|]|];
        rewrite u64_small by done; done.
    + assert (i < 9) by (destruct (decide (i = 9)) as [->|]; [cbn in Hx|]; lia).
      cbn [app uvarint_loop]. rewrite group_byte.
      pose proof (Z.mod_pos_bound x 128 ltac:(lia)) as Hm.
      unfold MaxVarintLen64. destruct (Z.eqb_spec i 10); [lia|].
      destruct (Z.ltb_spec (128 + x mod 128) 128); [lia|].
      rewrite low_seven by lia. replace (7 * i + 7) with (7 * (i + 1)) by lia.
      rewrite IH; [| lia.. |].
      * f_equal; [|rewrite len_cons; lia].
        rewrite u64_small.
        -- rewrite <- Z.lor_assoc. replace (7 * (i + 1)) with (7 * i + 7) by lia.
           by rewrite group_split by lia.
        -- pose proof (Z.mod_le x 128 ltac:(lia) ltac:(lia)).
           rewrite Z.shiftl_mul_pow2 in * by lia. unfold is_u64. nia.
      * rewrite Z.shiftr_div_pow2 by lia. split; [apply Z.div_pos; lia|].
        apply Z.div_lt_upper_bound; [lia|]. rewrite <- Z.pow_add_r by lia.
        replace (7 + (64 - 7 * (i + 1))) with (64 - 7 * i) by lia. lia.
Qed.

Lemma Uvarint_put x rest :
  is_u64 x -> Uvarint (put_uvarint x ++ rest) = (x, len (put_uvarint x)).
Proof.
  intros Hx. unfold Uvarint, put_uvarint. change 0 with (7 * 0) at 3.
  rewrite uvarint_loop_put by (unfold is_u64 in *; lia).
  rewrite Z.shiftl_0_r, Z.lor_0_l. done.
Qed.

Lemma uvarint_loop_u64 buf i x s :
  is_u64 x -> is_u64 (uvarint_loop buf i x s).1.
Proof.
  revert i x s. induction buf as [|b buf IH]; intros i x s Hx; cbn.
  - unfold is_u64; lia.
  - repeat case_match; cbn; try (unfold is_u64; lia).
    + apply lor_small_bound; [lia|done|apply u64_range].
    + apply IH, lor_small_bound; [lia|done|apply u64_range].
Qed.

Lemma len_put_pos x : 0 < len (put_uvarint x).
Proof.
  unfold put_uvarint. cbn [put_uvarint_loop].
  case_match; len_lia.
Qed.

Lemma len_put_loop_bound fuel k x :
  (1 <= k <= S fuel)%nat -> 0 <= x < 2 ^ (7 * Z.of_nat k) ->
  len (put_uvarint_loop fuel x) <= Z.of_nat k.
Proof.
  revert k x. induction fuel as [|fuel IH]; intros k x Hk Hx; cbn [put_uvarint_loop];
    [len_lia|].
  destruct (Z.ltb_spec x 128); [len_lia|].
  assert (k <> 1%nat) by (intros ->; cbn in Hx; lia).
  rewrite len_cons. specialize (IH (pred k) (Z.shiftr x 7)).
  rewrite Z.shiftr_div_pow2 in * by lia.
  replace (7 * Z.of_nat k) with (7 + 7 * Z.of_nat (pred k)) in Hx by lia.
  rewrite Z.pow_add_r in Hx by lia.
  pose proof (Z.div_pos x (2 ^ 7) ltac:(lia) ltac:(lia)).
  pose proof (Z.div_lt_upper_bound x (2 ^ 7) (2 ^ (7 * Z.of_nat (pred k)))
    ltac:(lia) ltac:(lia)).
  lia.
Qed.

Lemma len_put_bound k x :
  (1 <= k <= 10)%nat -> 0 <= x < 2 ^ (7 * Z.of_nat k) ->
  len (put_uvarint x) <= Z.of_nat k.
Proof. apply len_put_loop_bound. Qed.

Lemma skip_put x rest : skip (len (put_uvarint x)) (put_uvarint x ++ rest) = rest.
Proof. unfold skip, len. rewrite Nat2Z.id. by apply drop_app_exact. Qed.

Lemma readCanonicalUvarint_put x rest :
  is_u64 x ->
  readCanonicalUvarint (put_uvarint x ++ rest) = Ok (x, len (put_uvarint x)).
Proof.
  intros Hx. unfold readCanonicalUvarint. rewrite Uvarint_put by done.
  pose proof (len_put_pos x).
  destruct (Z.eqb_spec (len (put_uvarint x)) 0); [lia|].
  destruct (Z.ltb_spec (len (put_uvarint x)) 0); [lia|].
  rewrite Z.eqb_refl. unfold len. rewrite Nat2Z.id, take_app_exact by done.
  by rewrite bytes_eq_refl.
Qed.

Lemma readCanonicalUvarint_inv raw x n :
  readCanonicalUvarint raw = Ok (x, n) ->
  is_u64 x /\ n = len (put_uvarint x) /\ raw = put_uvarint x ++ skip n raw.
Proof.
  unfold readCanonicalUvarint. intros H.
  pose proof (uvarint_loop_u64 raw 0 0 0 ltac:(unfold is_u64; lia)) as Hu.
  fold (Uvarint raw) in Hu. inv_res. guards. cbn in Hu.
  rewrite bytes_eq_true in *. split_and!; [done|lia|].
  unfold skip. rewrite <- (take_drop (Z.to_nat n) raw) at 1. by f_equal.
Qed.

(** The session reader accepts the same inputs. *)
Lemma session_reader_ok raw r :
  session_readCanonicalUvarint raw = Ok r <-> readCanonicalUvarint raw = Ok r.
Proof.
  unfold session_readCanonicalUvarint, readCanonicalUvarint.
  destruct (Uvarint raw) as [v n].
  destruct (Z.leb_spec n 0), (Z.eqb_spec n 0), (Z.ltb_spec n 0);
    try lia; split; try done; case_match; congruence.
Qed.

#[export] Hint Rewrite skip_put : np2_len.

Lemma readCanonicalUvarint_cases raw :
  (exists x rest, is_u64 x /\ raw = put_uvarint x ++ rest /\
     readCanonicalUvarint raw = Ok (x, len (put_uvarint x))) \/
  (exists e, readCanonicalUvarint raw = Err e).
Proof.
  destruct (readCanonicalUvarint raw) as [[x n]|e] eqn:E; [left|eauto].
  apply readCanonicalUvarint_inv in E as (Hx & -> & E).
  exists x, (skip (len (put_uvarint x)) raw). done.
Qed.

(** Reads one integer off a slice built by the encoder. *)
Ltac read_put :=
  rewrite readCanonicalUvarint_put by (first [done | eauto with np2]);
  cbn [mbind res_bind map_err]; rewrite ?skip_put.

(** Inverts a successful read [H : readCanonicalUvarint raw = Ok (x, n)],
    replacing [raw] by the bytes that were read and the remaining slice. *)
Ltac read_inv H :=
  let Hx := fresh "Hu" in let Hr := fresh "Hraw" in
  apply readCanonicalUvarint_inv in H as (Hx & -> & Hr);
  match type of Hr with
  | ?raw = _ ++ skip ?n ?raw =>
      let rest := fresh "rest" in
      set (rest := skip n raw) in *; clearbody rest; try subst raw
  end.
