(* ===== verification/Cell.v ===== *)
(** * NP/2 cells (internal/protocol/cell.go)

    The cell is the unit of the NP/2 session: a kind obfuscated through a
    per-session permutation (the type map), a stream identifier, a sequence
    number, a payload and padding.  The file models the cell kinds, the
    generation of the type map from a 32-byte seed (HMAC is a parameter), the
    encoder, the decoder and the cell validity rules, and proves that the type
    map is a bijection and that encoder and decoder are inverse partial
    functions. *)
From stdpp Require Import prelude list.
From S2P Require Import Prelude Varint.

(** ** Constants and kinds *)

Definition MaxCellSize : Z := 65535.
Definition MaxCellPayloadSize : Z := 32768.
Definition MaxCellPaddingSize : Z := 16384.
Definition MaxStreamID : Z := Z.shiftl 1 62 - 1.
Definition MaxSequence : Z := Z.shiftl 1 62 - 1.

(** The declared values of [CellKind]; [CellKindCount] stands for itself and
    for every larger byte, none of which is [valid]. *)
Inductive CellKind :=
| CellInvalid | CellOpen | CellOpenOK | CellOpenFail | CellData | CellFin
| CellReset | CellWindowUpdate | CellDummy | CellProfile | CellPing | CellPong
| CellGoAway | CellKindCount.

#[global] Instance CellKind_eq_dec : EqDecision CellKind.
Proof. solve_decision. Defined.

(** The byte behind a kind ([iota]) and back ([CellKind(offset + 1)]). *)
Definition kind_code (k : CellKind) : nat :=
  match k with
  | CellInvalid => 0 | CellOpen => 1 | CellOpenOK => 2 | CellOpenFail => 3
  | CellData => 4 | CellFin => 5 | CellReset => 6 | CellWindowUpdate => 7
  | CellDummy => 8 | CellProfile => 9 | CellPing => 10 | CellPong => 11
  | CellGoAway => 12 | CellKindCount => 13
  end%nat.

Definition kind_of_code (n : nat) : CellKind :=
  match n with
  | 0 => CellInvalid | 1 => CellOpen | 2 => CellOpenOK | 3 => CellOpenFail
  | 4 => CellData | 5 => CellFin | 6 => CellReset | 7 => CellWindowUpdate
  | 8 => CellDummy | 9 => CellProfile | 10 => CellPing | 11 => CellPong
  | 12 => CellGoAway | _ => CellKindCount
  end%nat.

Definition valid (k : CellKind) : bool :=
  (kind_code CellInvalid <? kind_code k)%nat
  && (kind_code k <? kind_code CellKindCount)%nat.

Definition controlOnly (k : CellKind) : bool :=
  match k with
  | CellDummy | CellProfile | CellPing | CellPong | CellGoAway => true
  | _ => false
  end.

(** ** The type map *)

Record TypeMap := mkTypeMap { tm_encode : list byte; tm_decode : list CellKind }.

(** [var result TypeMap]: two zeroed arrays. *)
Definition zeroTypeMap : TypeMap :=
  mkTypeMap (zeros 13) (replicate 256 CellInvalid).

Definition EncodeKind (m : TypeMap) (kind : CellKind) : res byte :=
  if negb (valid kind) then Err ErrUnknownCellType
  else
    let wire := nth (kind_code kind) (tm_encode m) x00 in
    if b2z wire =? 0 then Err ErrUnknownCellType else Ok wire.

Definition DecodeKind (m : TypeMap) (wire : byte) : res CellKind :=
  let kind := nth (Z.to_nat (b2z wire)) (tm_decode m) CellInvalid in
  if negb (valid kind) then Err ErrUnknownCellType else Ok kind.

Section NewTypeMap.

(** [hmac.New(sha256.New, key)] over the concatenated writes. *)
Context (hmac_sha256 : list byte -> list byte -> list byte).

Record mapRandom := mkMapRandom {
  mr_key : list byte; mr_counter : Z; mr_block : list byte; mr_offset : Z
}.

Definition newMapRandom (seed : list byte) : mapRandom :=
  mkMapRandom seed 0 (zeros 32) 32.

(** The ASCII bytes of "NP2 type map". *)
Definition type_map_label : list byte :=
  [x4e; x50; x32; x20; x74; x79; x70; x65; x20; x6d; x61; x70].

(** Method [uint64] of [mapRandom]: a fresh HMAC block when fewer than eight bytes are
    left, then the next big-endian word. *)
Definition next_uint64 (r : mapRandom) : Z * mapRandom :=
  let r :=
    if len (mr_block r) <? mr_offset r + 8
    then mkMapRandom (mr_key r) (u64 (mr_counter r + 1))
           (hmac_sha256 (mr_key r) (type_map_label ++ be_encode 8 (mr_counter r))) 0
    else r in
  (be_decode (slice (mr_block r) (mr_offset r) (mr_offset r + 8)),
   mkMapRandom (mr_key r) (mr_counter r) (mr_block r) (mr_offset r + 8)).

Definition uniform_threshold (limit : Z) : Z := MaxUint64 - MaxUint64 mod limit.

(** Method [uniform]: rejection sampling.  [None] is fuel exhausted, or
    the panic on a zero limit. *)
Fixpoint uniform (fuel : nat) (r : mapRandom) (limit : Z) : option (Z * mapRandom) :=
  match fuel with
  | O => None
  | S fuel' =>
      if limit =? 0 then None
      else
        let '(candidate, r') := next_uint64 r in
        if candidate <? uniform_threshold limit
        then Some (candidate mod limit, r')
        else uniform fuel' r' limit
  end.

(** [codes[i], codes[j] = codes[j], codes[i]]. *)
Definition swap_codes (codes : list byte) (i j : nat) : list byte :=
  <[j := nth i codes x00]> (<[i := nth j codes x00]> codes).

(** The Fisher-Yates loop from [index] down to 1. *)
Fixpoint shuffle (fuel : nat) (index : nat) (codes : list byte) (r : mapRandom)
  : option (list byte) :=
  match index with
  | O => Some codes
  | S below =>
      match uniform fuel r (Z.of_nat index + 1) with
      | None => None
      | Some (other, r') =>
          shuffle fuel below (swap_codes codes index (Z.to_nat other)) r'
      end
  end.

(** [for offset, wire := range codes]. *)
Fixpoint install_codes (codes : list byte) (offset : nat) (m : TypeMap) : TypeMap :=
  match codes with
  | [] => m
  | wire :: codes' =>
      let kind := S offset in
      install_codes codes' (S offset)
        (mkTypeMap (<[kind := wire]> (tm_encode m))
                   (<[Z.to_nat (b2z wire) := kind_of_code kind]> (tm_decode m)))
  end.

(** [codes[index] = byte(index + 1)] for the twelve codes. *)
Definition initial_codes : list byte :=
  map (fun index => z2b (Z.of_nat index + 1)) (seq 0 12).

Definition NewTypeMap (fuel : nat) (seed : list byte) : option (res TypeMap) :=
  if is_zero seed then Some (Err ErrInvalidTypeMap)
  else
    match shuffle fuel 11 initial_codes (newMapRandom seed) with
    | None => None
    | Some codes => Some (Ok (install_codes codes 0 zeroTypeMap))
    end.

End NewTypeMap.

(** ** Cells *)

Record Cell := mkCell {
  Kind : CellKind; StreamID : Z; Sequence : Z;
  Payload : list byte; Padding : list byte
}.

Definition validateCell (cell : Cell) : res unit :=
  if negb (valid (Kind cell)) then Err ErrUnknownCellType
  else if (MaxCellPayloadSize <? len (Payload cell))
          || (MaxCellPaddingSize <? len (Padding cell)) then Err ErrCellTooLarge
  else if (MaxStreamID <? StreamID cell) || (MaxSequence <? Sequence cell)
  then Err ErrInvalidCell
  else if controlOnly (Kind cell) && negb (StreamID cell =? 0) then Err ErrInvalidCell
  else if negb (controlOnly (Kind cell)) && (StreamID cell =? 0) then Err ErrInvalidCell
  else Ok tt.

Definition EncodeCell (typeMap : TypeMap) (cell : Cell) : res (list byte) :=
  _ ← validateCell cell;
  wireType ← EncodeKind typeMap (Kind cell);
  let raw := [wireType] ++ put_uvarint (StreamID cell) ++ put_uvarint (Sequence cell)
    ++ put_uvarint (len (Payload cell)) ++ put_uvarint (len (Padding cell))
    ++ Payload cell ++ Padding cell in
  if MaxCellSize <? len raw then Err ErrCellTooLarge else Ok raw.

(** [raw[cursor:]] after the reads so far is carried as the remaining slice. *)
Definition DecodeCell (typeMap : TypeMap) (raw : list byte) : res Cell :=
  if len raw =? 0 then Err ErrInvalidCell
  else if MaxCellSize <? len raw then Err ErrCellTooLarge
  else
    kind ← DecodeKind typeMap (nth 0 raw x00);
    let rest := drop 1 raw in
    '(streamID, consumed) ← readCanonicalUvarint rest;
    let rest := skip consumed rest in
    '(sequence, consumed) ← readCanonicalUvarint rest;
    let rest := skip consumed rest in
    '(payloadLength, consumed) ← readCanonicalUvarint rest;
    let rest := skip consumed rest in
    '(paddingLength, consumed) ← readCanonicalUvarint rest;
    let rest := skip consumed rest in
    if (MaxCellPayloadSize <? payloadLength) || (MaxCellPaddingSize <? paddingLength)
    then Err ErrCellTooLarge
    else if negb (u64 (payloadLength + paddingLength) =? len rest)
    then Err ErrInvalidCell
    else
      let cell := mkCell kind streamID sequence
        (take (Z.to_nat payloadLength) rest) (drop (Z.to_nat payloadLength) rest) in
      _ ← validateCell cell;
      Ok cell.

(** ** The type map is a bijection *)

(** What a type map promises to the cell codec: every valid kind has a code,
    and encoding and decoding are inverse. *)
Class TypeMapOk (m : TypeMap) : Prop := {
  encode_total : forall k, valid k = true -> exists w, EncodeKind m k = Ok w;
  encode_decode : forall k w, EncodeKind m k = Ok w <-> DecodeKind m w = Ok k
}.

Lemma kind_code_of_code n : (n <= 13)%nat -> kind_code (kind_of_code n) = n.
Proof. intros H. do 14 (destruct n as [|n]; [done|]). lia. Qed.

Lemma kind_of_code_code k : kind_of_code (kind_code k) = k.
Proof. by destruct k. Qed.

Lemma valid_code k : valid k = true <-> (1 <= kind_code k <= 12)%nat.
Proof. destruct k; cbn; split; intros; try lia; done. Qed.

(** The codes a type map is built from: twelve distinct non-zero bytes. *)
Definition codes_ok (codes : list byte) : Prop :=
  length codes = 12%nat /\ NoDup codes /\ Forall (fun w => 1 <= b2z w) codes.

Lemma swap_codes_perm codes i j :
  (i < length codes)%nat -> (j < length codes)%nat -> swap_codes codes i j ≡ₚ codes.
Proof.
  intros Hi Hj. unfold swap_codes.
  destruct (lookup_lt_is_Some_2 codes i Hi) as [x Hx].
  destruct (lookup_lt_is_Some_2 codes j Hj) as [y Hy].
  rewrite !nth_lookup, Hx, Hy. by apply Permutation_insert_swap.
Qed.

Lemma uniform_bound hmac fuel r limit v r' :
  0 < limit -> uniform hmac fuel r limit = Some (v, r') -> 0 <= v < limit.
Proof.
  intros Hl. revert r. induction fuel as [|fuel IH]; intros r; [done|].
  cbn [uniform]. destruct (Z.eqb_spec limit 0); [lia|].
  destruct (next_uint64 hmac r) as [c r1]. case_match; [|apply IH].
  intros [= <- <-]. apply Z.mod_pos_bound; lia.
Qed.

Lemma shuffle_perm hmac fuel index codes r codes' :
  (index < length codes)%nat ->
  shuffle hmac fuel index codes r = Some codes' -> codes' ≡ₚ codes.
Proof.
  revert codes r. induction index as [|below IH]; intros codes r Hi; cbn.
  { by intros [= ->]. }
  destruct (uniform _ _ _ _) as [[other r']|] eqn:E; [|done]. intros H.
  apply uniform_bound in E; [|lia].
  assert (swap_codes codes (S below) (Z.to_nat other) ≡ₚ codes) as Hp
    by (apply swap_codes_perm; lia).
  rewrite <- Hp. eapply IH, H. rewrite (Permutation_length Hp). lia.
Qed.

Lemma initial_codes_ok : codes_ok initial_codes.
Proof.
  split; [done|]; split; [|repeat constructor; by vm_compute].
  apply (bool_decide_unpack (NoDup initial_codes)). by vm_compute.
Qed.

Lemma codes_ok_perm codes codes' : codes' ≡ₚ codes -> codes_ok codes -> codes_ok codes'.
Proof. intros Hp (Hl & Hn & Hf). unfold codes_ok. by rewrite !Hp. Qed.

Lemma install_codes_frame codes off m :
  (forall j, (j <= off)%nat ->
     tm_encode (install_codes codes off m) !! j = tm_encode m !! j) /\
  (forall n, Forall (fun w => Z.to_nat (b2z w) <> n) codes ->
     tm_decode (install_codes codes off m) !! n = tm_decode m !! n).
Proof.
  revert off m. induction codes as [|w codes IH]; intros off m; [done|].
  cbn [install_codes]. edestruct IH as [H1 H2]. split.
  - intros j Hj. rewrite H1 by lia. cbn. apply list_lookup_insert_ne. lia.
  - intros n Hn. apply Forall_cons in Hn as [Hw Hn]. rewrite H2 by done. cbn.
    by apply list_lookup_insert_ne.
Qed.

Lemma b2z_nat_inj a b : Z.to_nat (b2z a) = Z.to_nat (b2z b) -> a = b.
Proof.
  intros E. apply b2z_inj. pose proof (b2z_range a). pose proof (b2z_range b). lia.
Qed.

Lemma install_codes_lookup codes off m j w :
  NoDup codes -> length (tm_decode m) = 256%nat ->
  (off + length codes < length (tm_encode m))%nat ->
  codes !! j = Some w ->
  tm_encode (install_codes codes off m) !! (off + S j)%nat = Some w /\
  tm_decode (install_codes codes off m) !! Z.to_nat (b2z w)
    = Some (kind_of_code (off + S j)).
Proof.
  revert off m j. induction codes as [|w' codes IH]; intros off m j Hn Hd He Hj; [done|].
  apply NoDup_cons in Hn as [Hni Hn]. cbn [install_codes]. cbn [length] in He.
  destruct j as [|j].
  - injection Hj as ->. edestruct (install_codes_frame codes (S off)) as [F1 F2].
    rewrite F1, F2 by (lia || (apply Forall_forall; intros w' Hw' E;
      apply b2z_nat_inj in E as ->; done)).
    cbn. pose proof (b2z_range w).
    rewrite Nat.add_1_r, !list_lookup_insert_eq by lia. done.
  - replace (off + S (S j))%nat with (S off + S j)%nat by lia.
    apply IH; cbn; rewrite ?length_insert; [done|lia|lia|done].
Qed.

Lemma install_codes_kind codes k w :
  codes_ok codes -> valid k = true -> codes !! pred (kind_code k) = Some w ->
  EncodeKind (install_codes codes 0 zeroTypeMap) k = Ok w /\
  DecodeKind (install_codes codes 0 zeroTypeMap) w = Ok k.
Proof.
  intros (Hl & Hn & Hf) Hv Hw. apply valid_code in Hv as Hc.
  destruct (install_codes_lookup codes 0 zeroTypeMap (pred (kind_code k)) w) as [L1 L2];
    [done|done|rewrite Hl; cbn; lia|exact Hw|].
  replace (0 + S (pred (kind_code k)))%nat with (kind_code k) in L1, L2 by lia.
  unfold EncodeKind, DecodeKind. rewrite !nth_lookup, L1, L2.
  cbn [from_option id]. rewrite kind_of_code_code, Hv. cbn [negb].
  destruct (Z.eqb_spec (b2z w) 0); [|done].
  rewrite Forall_lookup in Hf. apply Hf in Hw. lia.
Qed.

Lemma codes_lookup codes k :
  codes_ok codes -> valid k = true -> exists w, codes !! pred (kind_code k) = Some w.
Proof.
  intros (Hl & _) Hv. apply valid_code in Hv. apply lookup_lt_is_Some_2. lia.
Qed.

(** A byte that is no code decodes to nothing. *)
Lemma install_codes_unknown codes w :
  w ∉ codes -> DecodeKind (install_codes codes 0 zeroTypeMap) w = Err ErrUnknownCellType.
Proof.
  intros Hni. unfold DecodeKind. rewrite nth_lookup.
  destruct (install_codes_frame codes 0 zeroTypeMap) as [_ F].
  rewrite F by (apply Forall_forall; intros w' Hw' E; apply b2z_nat_inj in E as ->; done).
  cbn [tm_decode zeroTypeMap].
  destruct (replicate 256 CellInvalid !! _) as [k'|] eqn:Ek; [|done].
  by apply lookup_replicate in Ek as [-> _].
Qed.

Lemma install_codes_ok codes :
  codes_ok codes -> TypeMapOk (install_codes codes 0 zeroTypeMap).
Proof.
  intros Hok. split.
  - intros k Hv. destruct (codes_lookup _ _ Hok Hv) as [w Hw].
    exists w. by apply install_codes_kind.
  - intros k w. split; intros H.
    + destruct (valid k) eqn:Hv; [|unfold EncodeKind in H; by rewrite Hv in H].
      destruct (codes_lookup _ _ Hok Hv) as [w' Hw].
      destruct (install_codes_kind _ _ _ Hok Hv Hw). congruence.
    + destruct (decide (w ∈ codes)) as [Hin|Hni];
        [|by rewrite install_codes_unknown in H].
      apply list_elem_of_lookup in Hin as [j Hj].
      assert (Hj12 : (j < 12)%nat) by (destruct Hok; apply lookup_lt_Some in Hj; lia).
      destruct (install_codes_kind codes (kind_of_code (S j)) w) as [H1 H2]; [done|..].
      * apply valid_code. rewrite kind_code_of_code; lia.
      * by rewrite kind_code_of_code by lia.
      * congruence.
Qed.

Lemma NewTypeMap_ok hmac fuel seed m :
  NewTypeMap hmac fuel seed = Some (Ok m) -> TypeMapOk m.
Proof.
  unfold NewTypeMap. destruct (is_zero seed); [done|].
  destruct (shuffle _ _ _ _ _) as [codes|] eqn:E; [|done]. intros [= <-].
  apply install_codes_ok. eapply codes_ok_perm, initial_codes_ok.
  eapply shuffle_perm, E. cbn. lia.
Qed.

(** Rejection sampling is exactly uniform: the accepted range is a multiple of
    the limit, so each residue has the same number of accepted words. *)
Lemma uniform_threshold_multiple limit :
  0 < limit -> (limit | uniform_threshold limit).
Proof.
  intros. unfold uniform_threshold. exists (MaxUint64 / limit).
  pose proof (Z.div_mod MaxUint64 limit). lia.
Qed.

Lemma uniform_accepts hmac r limit :
  0 < limit <= 12 -> (next_uint64 hmac r).1 < 2 ^ 64 - 12 ->
  exists v r', uniform hmac 1 r limit = Some (v, r').
Proof.
  intros Hl Hc. cbn [uniform]. destruct (Z.eqb_spec limit 0); [lia|].
  destruct (next_uint64 hmac r) as [c r'] eqn:E. cbn in Hc.
  pose proof (Z.mod_pos_bound MaxUint64 limit ltac:(lia)).
  destruct (Z.ltb_spec c (uniform_threshold limit)) as [|Hge]; [eauto|].
  unfold uniform_threshold, MaxUint64 in *. lia.
Qed.

Lemma shuffle_accepts hmac index codes r :
  (index <= 11)%nat -> (forall r', (next_uint64 hmac r').1 < 2 ^ 64 - 12) ->
  exists codes', shuffle hmac 1 index codes r = Some codes'.
Proof.
  intros Hi Hh. revert codes r. induction index as [|below IH]; intros codes r; [by eexists|].
  cbn [shuffle]. destruct (uniform_accepts hmac r (Z.of_nat (S below) + 1)) as (v & r' & ->);
    [lia|apply Hh|]. apply IH. lia.
Qed.

(** ** The cell codec *)

Lemma MaxStreamID_eq : MaxStreamID = 2 ^ 62 - 1.
Proof. reflexivity. Qed.

Lemma MaxSequence_eq : MaxSequence = 2 ^ 62 - 1.
Proof. reflexivity. Qed.

(** The values the Go types of a [Cell]'s fields can hold. *)
Definition cell_typed (c : Cell) : Prop := is_u64 (StreamID c) /\ is_u64 (Sequence c).

Lemma validateCell_ok c u :
  validateCell c = Ok u <->
  valid (Kind c) = true /\ len (Payload c) <= MaxCellPayloadSize /\
  len (Padding c) <= MaxCellPaddingSize /\ StreamID c <= MaxStreamID /\
  Sequence c <= MaxSequence /\ (controlOnly (Kind c) = true <-> StreamID c = 0).
Proof.
  destruct u. unfold validateCell. destruct (valid (Kind c)), (controlOnly (Kind c)); cbn.
  all: repeat case_match; guards; split; intros; inv_res; destruct_and?; try done;
    try (split_and!; first [done | lia | tauto]); lia.
Qed.

(** The encoder's output, without its final size check. *)
Definition cell_wire (wire : byte) (c : Cell) : list byte :=
  [wire] ++ put_uvarint (StreamID c) ++ put_uvarint (Sequence c)
    ++ put_uvarint (len (Payload c)) ++ put_uvarint (len (Padding c))
    ++ Payload c ++ Padding c.

Lemma cell_wire_size wire c :
  cell_typed c -> validateCell c = Ok tt -> len (cell_wire wire c) <= 49177.
Proof.
  intros [Ht1 Ht2] Hv. apply validateCell_ok in Hv as (_ & Hp & Hq & Hs & He & _).
  rewrite MaxStreamID_eq in Hs. rewrite MaxSequence_eq in He.
  unfold cell_wire, is_u64, MaxCellPayloadSize, MaxCellPaddingSize in *.
  pose proof (len_nonneg (Payload c)). pose proof (len_nonneg (Padding c)).
  pose proof (len_put_bound 9 (StreamID c) ltac:(lia) ltac:(cbn; lia)).
  pose proof (len_put_bound 9 (Sequence c) ltac:(lia) ltac:(cbn; lia)).
  pose proof (len_put_bound 3 (len (Payload c)) ltac:(lia) ltac:(cbn; lia)).
  pose proof (len_put_bound 3 (len (Padding c)) ltac:(lia) ltac:(cbn; lia)).
  rewrite !len_app, len_cons, len_nil. lia.
Qed.

Lemma cell_wire_pos wire c : 0 < len (cell_wire wire c).
Proof. unfold cell_wire. rewrite len_app, len_cons. len_lia. Qed.

(** The final size check of the encoder never fires. *)
Lemma EncodeCell_eq m c :
  cell_typed c ->
  EncodeCell m c =
    (_ ← validateCell c; wire ← EncodeKind m (Kind c); Ok (cell_wire wire c)).
Proof.
  intros Ht. unfold EncodeCell. destruct (validateCell c) as [[]|] eqn:Hv; [|done].
  cbn [mbind res_bind]. destruct (EncodeKind m (Kind c)) as [w|]; [|done].
  cbn [mbind res_bind]. fold (cell_wire w c).
  pose proof (cell_wire_size w c Ht Hv). unfold MaxCellSize.
  destruct (Z.ltb_spec 65535 (len (cell_wire w c))); [lia|done].
Qed.

Lemma decode_encode_cell m c raw :
  TypeMapOk m -> cell_typed c -> EncodeCell m c = Ok raw -> DecodeCell m raw = Ok c.
Proof.
  intros Hm Ht. rewrite EncodeCell_eq by done. intros H. inv_res.
  match goal with u : unit |- _ => destruct u end.
  pose proof (cell_wire_size a0 c Ht E) as Hs.
  apply validateCell_ok in E as Hv. destruct Hv as (_ & Hp & Hq & _).
  destruct Ht as [Ht1 Ht2]. apply encode_decode in E0.
  unfold DecodeCell. unfold MaxCellSize.
  pose proof (cell_wire_pos a0 c).
  destruct (Z.eqb_spec (len (cell_wire a0 c)) 0); [lia|].
  destruct (Z.ltb_spec 65535 (len (cell_wire a0 c))); [lia|].
  unfold cell_wire. cbn [app nth drop]. rewrite E0, drop_0. cbn [mbind res_bind].
  pose proof (len_nonneg (Payload c)). pose proof (len_nonneg (Padding c)).
  unfold MaxCellPayloadSize, MaxCellPaddingSize in *.
  assert (is_u64 (len (Payload c)) /\ is_u64 (len (Padding c))) as [? ?]
    by (unfold is_u64; lia).
  do 4 read_put.
  destruct (Z.ltb_spec 32768 (len (Payload c))); [lia|].
  destruct (Z.ltb_spec 16384 (len (Padding c))); [lia|]. cbn [orb].
  rewrite u64_small, len_app, Z.eqb_refl by (unfold is_u64; lia). cbn [negb].
  rewrite !take_len_app, !drop_len_app.
  assert (mkCell (Kind c) (StreamID c) (Sequence c) (Payload c) (Padding c) = c) as ->
    by (by destruct c).
  by rewrite E.
Qed.

Lemma encode_decode_cell m c raw :
  TypeMapOk m -> DecodeCell m raw = Ok c -> cell_typed c /\ EncodeCell m c = Ok raw.
Proof.
  intros Hm. unfold DecodeCell. intros H. inv_res. guards.
  destruct raw as [|b raw]; [done|]. cbn [nth drop] in *. rewrite drop_0 in *.
  read_inv E0. read_inv E2. read_inv E4. read_inv E6.
  apply encode_decode in E. destruct a4. split; [done|].
  rewrite EncodeCell_eq, E8 by done. cbn [Kind mbind res_bind]. rewrite E.
  unfold cell_wire. cbn [StreamID Sequence Payload Padding app mbind res_bind].
  unfold MaxCellPayloadSize, MaxCellPaddingSize, is_u64 in *.
  rewrite u64_small in G2 by (unfold is_u64; lia). apply Z.eqb_eq in G2.
  rewrite len_take, len_drop, take_drop. repeat f_equal; lia.
Qed.

#[export] Instance cell_codec m `{!TypeMapOk m} :
  Codec cell_typed (EncodeCell m) (DecodeCell m).
Proof.
  split; intros.
  - by apply decode_encode_cell.
  - by apply encode_decode_cell.
Qed.

(** ** Claims *)

(** [NewTypeMap] refuses the zero seed; whatever it returns is a
    bijection between the twelve valid kinds and their wire codes; and it
    returns with a single draw per position when no draw falls in the
    rejected tail of the 64-bit words. *)
Theorem type_map_bijection hmac seed fuel :
  (is_zero seed = true -> NewTypeMap hmac fuel seed = Some (Err ErrInvalidTypeMap)) /\
  (forall m, NewTypeMap hmac fuel seed = Some (Ok m) ->
     (forall k, valid k = true -> exists w, EncodeKind m k = Ok w /\ DecodeKind m w = Ok k) /\
     (forall w k, DecodeKind m w = Ok k -> EncodeKind m k = Ok w)) /\
  (is_zero seed = false -> (forall r, (next_uint64 hmac r).1 < 2 ^ 64 - 12) ->
     exists m, NewTypeMap hmac 1 seed = Some (Ok m)).
Proof.
  split; [intros Hz; unfold NewTypeMap; by rewrite Hz|]. split.
  - intros m Hm. apply NewTypeMap_ok in Hm. split.
    + intros k Hk. destruct (encode_total k Hk) as [w Hw]. exists w. split; [done|]. by apply encode_decode.
    + intros w k. apply encode_decode.
  - intros Hz Hw. unfold NewTypeMap. rewrite Hz.
    destruct (shuffle_accepts hmac 11 initial_codes (newMapRandom seed)) as [codes ->]; [lia|done|eauto].
Qed.

(** C12: decoding inverts encoding, and a record decodes only if it is the
    encoding of the cell it decodes to: every cell has one wire form, and no
    other bytes are accepted. *)
Theorem cell_codec_correct m c raw :
  TypeMapOk m ->
  (cell_typed c -> EncodeCell m c = Ok raw -> DecodeCell m raw = Ok c) /\
  (DecodeCell m raw = Ok c -> cell_typed c /\ EncodeCell m c = Ok raw).
Proof. intros Hm. split; [by apply decode_encode_cell|by apply encode_decode_cell]. Qed.

(** encoding succeeds exactly on the cells that [validateCell] accepts,
    and the record never exceeds 49177 bytes, well below [MaxCellSize]. *)
Theorem cell_encode_bounds m c :
  TypeMapOk m -> cell_typed c ->
  match validateCell c with
  | Ok _ => exists raw, EncodeCell m c = Ok raw /\ len raw <= 49177 /\ 49177 < MaxCellSize
  | Err e => EncodeCell m c = Err e
  end.
Proof.
  intros Hm Ht. rewrite EncodeCell_eq by done. destruct (validateCell c) as [[]|e] eqn:Hv; [|done].
  apply validateCell_ok in Hv as Hk. destruct Hk as (Hk & _).
  destruct (encode_total _ Hk) as [w Hw]. cbn [mbind res_bind]. rewrite Hw. cbn [mbind res_bind].
  exists (cell_wire w c). split; [done|]. split; [by apply cell_wire_size|done].
Qed.

Module CellExample.

Definition tm : TypeMap := install_codes initial_codes 0 zeroTypeMap.

Lemma tm_ok : TypeMapOk tm.
Proof. apply install_codes_ok, initial_codes_ok. Qed.

Definition hmac (k m : list byte) : list byte := zeros 31 ++ [z2b (len m)].

Definition cell : Cell := mkCell CellData 5 7 [x61; x62] [x00].

Lemma type_map_bijection_witness : exists m,
  NewTypeMap hmac 1 [x01] = Some (Ok m) /\ exists w, EncodeKind m CellData = Ok w /\ DecodeKind m w = Ok CellData.
Proof.
  destruct (NewTypeMap hmac 1 [x01]) as [[m|e]|] eqn:E; [|vm_compute in E; discriminate E..].
  exists m. split; [done|].
  exact (proj1 (proj1 (proj2 (type_map_bijection hmac [x01] 1)) m E) CellData eq_refl).
Defined.

Lemma cell_codec_correct_witness : exists raw,
  EncodeCell tm cell = Ok raw /\ DecodeCell tm raw = Ok cell.
Proof.
  destruct (EncodeCell tm cell) as [raw|e] eqn:E; [|vm_compute in E; discriminate E].
  exists raw. split; [done|]. apply (cell_codec_correct tm cell raw tm_ok); [|exact E].
  split; unfold is_u64; cbn; lia.
Defined.

Lemma cell_encode_bounds_witness : exists raw, EncodeCell tm cell = Ok raw /\ len raw <= 49177.
Proof.
  assert (Ht : cell_typed cell) by (split; unfold is_u64; cbn; lia).
  pose proof (cell_encode_bounds tm cell tm_ok Ht) as H.
  assert (E : validateCell cell = Ok tt) by (vm_compute; reflexivity). rewrite E in H.
  destruct H as (raw & H1 & H2 & _). by exists raw.
Defined.
End CellExample.
