(* ===== verification/Extension.v ===== *)
(** * Extension envelopes and parameters

    internal/protocol/extension.go and extension_parameters.go: the TLV
    envelope carried by PROFILE cells, and the extension parameters (UDP
    limits, receive budgets, forward-secrecy key share) an endpoint offers and
    the peer accepts.  Together with internal/session/negotiation.go's
    [selectExtensionParameters] (at the end of this file) they are the
    negotiation core of a session. *)
From stdpp Require Import prelude list.
From S2P Require Import Prelude Varint Cell.

(** ** Envelopes *)

Definition ExtensionEnvelopeVersion : Z := 1.
Definition MaxExtensionTLVs : Z := 32.
Definition MaxExtensionTLVValueSize : Z := 4096.
Definition ExtensionMandatoryFlag : Z := Z.shiftl 1 62.
Definition MaxExtensionTLVType : Z := Z.shiftl 1 63 - 1.

(** [ExtensionMessageType] is a byte with three declared values. *)
Definition ExtensionOffer : Z := 1.
Definition ExtensionAccept : Z := 2.
Definition ExtensionUpdate : Z := 3.

Definition message_type_valid (t : Z) : bool :=
  (ExtensionOffer <=? t) && (t <=? ExtensionUpdate).

Definition CapabilityReliableUDP : Z := Z.shiftl 1 0.
Definition CapabilityUnreliableDatagrams : Z := Z.shiftl 1 1.
Definition CapabilityAdaptiveWindow : Z := Z.shiftl 1 2.
Definition CapabilityCarrierMigration : Z := Z.shiftl 1 3.
Definition CapabilityMosaicCover : Z := Z.shiftl 1 4.
Definition CapabilityConstellationContinuity : Z := Z.shiftl 1 5.
Definition CapabilityForwardSecrecy : Z := Z.shiftl 1 6.

Definition ExtensionTLVCapabilities : Z := 1.
Definition ExtensionTLVMaxUDPAssociations : Z := 2.
Definition ExtensionTLVMaxUDPPayload : Z := 3.
Definition ExtensionTLVUDPIdleTimeoutMS : Z := 4.
Definition ExtensionTLVMaxSessionReceiveBytes : Z := 5.
Definition ExtensionTLVMaxStreamWindowBytes : Z := 6.
Definition ExtensionTLVUnreliableDatagramSize : Z := 7.
Definition ExtensionTLVContinuity : Z := 8.
Definition ExtensionTLVForwardSecretKeyShare : Z := 9.
Definition ExtensionTLVForwardSecretConfirm : Z := 10.
Definition ExtensionTLVForwardSecretAck : Z := 11.

(** "NPEX". *)
Definition extensionMagic : list byte := [x4e; x50; x45; x58].

Definition IsExtensionEnvelope (raw : list byte) : bool :=
  (len extensionMagic <=? len raw)
  && bytes_eq (take (length extensionMagic) raw) extensionMagic.

Record ExtensionTLV := mkTLV { tlv_type : Z; tlv_value : list byte }.

Definition Mandatory (t : ExtensionTLV) : bool :=
  negb (Z.land (tlv_type t) ExtensionMandatoryFlag =? 0).

Definition BaseType (t : ExtensionTLV) : Z :=
  Z.ldiff (tlv_type t) ExtensionMandatoryFlag.

Definition validExtensionTLVType (tlvType : Z) : bool :=
  negb (tlvType =? 0) && (tlvType <=? MaxExtensionTLVType)
  && negb (Z.ldiff tlvType ExtensionMandatoryFlag =? 0).

Definition NewExtensionCapabilitiesTLV (capabilities : Z) : ExtensionTLV :=
  mkTLV ExtensionTLVCapabilities (be_encode 8 capabilities).

Definition tlv_Capabilities (t : ExtensionTLV) : res Z :=
  if negb (BaseType t =? ExtensionTLVCapabilities) || negb (len (tlv_value t) =? 8)
  then Err ErrInvalidExtension else Ok (be_decode (tlv_value t)).

Definition NewExtensionUvarintTLV (tlvType value : Z) : res ExtensionTLV :=
  if negb (validExtensionTLVType tlvType) then Err ErrInvalidExtension
  else Ok (mkTLV tlvType (put_uvarint value)).

Definition tlv_Uvarint (t : ExtensionTLV) : res Z :=
  match readCanonicalUvarint (tlv_value t) with
  | Err _ => Err ErrInvalidExtension
  | Ok (value, consumed) =>
      if negb (consumed =? len (tlv_value t)) then Err ErrInvalidExtension else Ok value
  end.

Record ExtensionEnvelope := mkEnvelope {
  env_type : Z; env_message_id : Z; env_tlvs : list ExtensionTLV
}.

(** The loop of [MarshalBinary] over the TLVs, with the bytes written so far. *)
Fixpoint marshal_tlvs (tlvs : list ExtensionTLV) (previousType : Z) (raw : list byte)
  : res (list byte) :=
  match tlvs with
  | [] => Ok raw
  | tlv :: tlvs' =>
      if negb (validExtensionTLVType (tlv_type tlv)) || (tlv_type tlv <=? previousType)
         || (MaxExtensionTLVValueSize <? len (tlv_value tlv))
      then Err ErrInvalidExtension
      else
        let raw := raw ++ put_uvarint (tlv_type tlv)
          ++ put_uvarint (len (tlv_value tlv)) ++ tlv_value tlv in
        if MaxCellPayloadSize <? len raw then Err ErrInvalidExtension
        else marshal_tlvs tlvs' (tlv_type tlv) raw
  end.

Definition MarshalEnvelope (e : ExtensionEnvelope) : res (list byte) :=
  if negb (message_type_valid (env_type e)) || (env_message_id e =? 0)
     || (MaxSequence <? env_message_id e) || (len (env_tlvs e) =? 0)
     || (MaxExtensionTLVs <? len (env_tlvs e))
  then Err ErrInvalidExtension
  else marshal_tlvs (env_tlvs e) 0
         (extensionMagic ++ [z2b ExtensionEnvelopeVersion; z2b (env_type e)]
          ++ put_uvarint (env_message_id e) ++ put_uvarint (len (env_tlvs e))).

(** The loop of [ParseExtensionEnvelope], [for range count]: the TLVs read and
    the slice left after the last one. *)
Fixpoint parse_tlvs (count : nat) (previousType : Z) (rest : list byte)
  : res (list ExtensionTLV * list byte) :=
  match count with
  | O => Ok ([], rest)
  | S count' =>
      if len rest <=? 0 then Err ErrInvalidExtension
      else
        '(tlvType, typeBytes) ←
          map_err (fun _ => Sentinel ErrInvalidExtension) (readCanonicalUvarint rest);
        if negb (validExtensionTLVType tlvType) || (tlvType <=? previousType)
        then Err ErrInvalidExtension
        else
          let rest := skip typeBytes rest in
          '(length, lengthBytes) ←
            map_err (fun _ => Sentinel ErrInvalidExtension) (readCanonicalUvarint rest);
          if MaxExtensionTLVValueSize <? length then Err ErrInvalidExtension
          else
            let rest := skip lengthBytes rest in
            if len rest <? length then Err ErrInvalidExtension
            else
              '(tlvs, rest') ← parse_tlvs count' tlvType (skip length rest);
              Ok (mkTLV tlvType (take (Z.to_nat length) rest) :: tlvs, rest')
  end.

Definition ParseExtensionEnvelope (raw : list byte) : res ExtensionEnvelope :=
  if (len raw <? 8) || (MaxCellPayloadSize <? len raw)
     || negb (bytes_eq (take 4 raw) extensionMagic)
     || negb (byte_at raw 4 =? ExtensionEnvelopeVersion)
  then Err ErrInvalidExtension
  else
    let messageType := byte_at raw 5 in
    if negb (message_type_valid messageType) then Err ErrInvalidExtension
    else
      let rest := drop 6 raw in
      '(messageID, consumed) ←
        map_err (fun _ => Sentinel ErrInvalidExtension) (readCanonicalUvarint rest);
      if (messageID =? 0) || (MaxSequence <? messageID) then Err ErrInvalidExtension
      else
        let rest := skip consumed rest in
        '(count, consumed) ←
          map_err (fun _ => Sentinel ErrInvalidExtension) (readCanonicalUvarint rest);
        if (count =? 0) || (MaxExtensionTLVs <? count) then Err ErrInvalidExtension
        else
          '(tlvs, rest) ← parse_tlvs (Z.to_nat count) 0 (skip consumed rest);
          if negb (len rest =? 0) then Err ErrInvalidExtension
          else Ok (mkEnvelope messageType messageID tlvs).

(** ** Parameters *)

Definition minUDPAssociations : Z := 1.
Definition maxUDPAssociations : Z := 4096.
Definition minUDPPayload : Z := 1200.
Definition minUnreliablePayload : Z := 512.
Definition maxUDPPayload : Z := 65507.
Definition minUDPIdleTimeoutMS : Z := 5000.
Definition maxUDPIdleTimeoutMS : Z := 600000.
Definition minSessionReceiveBytes : Z := 1024 * 1024.
Definition maxSessionReceiveBytes : Z := 256 * 1024 * 1024.
Definition minExtensionStreamWindow : Z := 64 * 1024.
Definition maxExtensionStreamWindow : Z := 16 * 1024 * 1024.

Record ExtensionParameters := mkParameters {
  Capabilities : Z;
  MaxUDPAssociations : Z;
  MaxUDPPayload : Z;
  UDPIdleTimeoutMS : Z;
  MaxSessionReceiveBytes : Z;
  MaxStreamWindowBytes : Z;
  UnreliableDatagramSize : Z;
  ForwardSecretKeyShare : list byte
}.

(** [var parameters ExtensionParameters]. *)
Definition zeroParameters : ExtensionParameters :=
  mkParameters 0 0 0 0 0 0 0 (zeros 32).

(** [capabilities & bit != 0]. *)
Definition has (capabilities bit : Z) : bool := negb (Z.land capabilities bit =? 0).

Definition validateForwardSecretParameters (p : ExtensionParameters) : res unit :=
  if has (Capabilities p) CapabilityForwardSecrecy
  then if is_zero (ForwardSecretKeyShare p) then Err ErrInvalidExtension else Ok tt
  else if negb (is_zero (ForwardSecretKeyShare p)) then Err ErrInvalidExtension else Ok tt.

Definition validateParameters (p : ExtensionParameters) : res unit :=
  if (MaxSessionReceiveBytes p <? minSessionReceiveBytes)
     || (maxSessionReceiveBytes <? MaxSessionReceiveBytes p)
     || (MaxStreamWindowBytes p <? minExtensionStreamWindow)
     || (maxExtensionStreamWindow <? MaxStreamWindowBytes p)
     || (MaxSessionReceiveBytes p <? MaxStreamWindowBytes p)
  then Err ErrInvalidExtension
  else if negb (has (Capabilities p) CapabilityReliableUDP) then
    if negb (MaxUDPAssociations p =? 0) || negb (MaxUDPPayload p =? 0)
       || negb (UDPIdleTimeoutMS p =? 0) || negb (UnreliableDatagramSize p =? 0)
       || has (Capabilities p) CapabilityUnreliableDatagrams
    then Err ErrInvalidExtension
    else validateForwardSecretParameters p
  else if (MaxUDPAssociations p <? minUDPAssociations)
          || (maxUDPAssociations <? MaxUDPAssociations p)
          || (MaxUDPPayload p <? minUDPPayload) || (maxUDPPayload <? MaxUDPPayload p)
          || (UDPIdleTimeoutMS p <? minUDPIdleTimeoutMS)
          || (maxUDPIdleTimeoutMS <? UDPIdleTimeoutMS p)
  then Err ErrInvalidExtension
  else if negb (has (Capabilities p) CapabilityUnreliableDatagrams) then
    if negb (UnreliableDatagramSize p =? 0) then Err ErrInvalidExtension
    else validateForwardSecretParameters p
  else if (UnreliableDatagramSize p <? minUnreliablePayload)
          || (MaxUDPPayload p <? UnreliableDatagramSize p)
  then Err ErrInvalidExtension
  else validateForwardSecretParameters p.

(** [for _, value := range values { NewExtensionUvarintTLV(...) }]. *)
Fixpoint uvarint_tlvs (values : list (Z * Z)) : res (list ExtensionTLV) :=
  match values with
  | [] => Ok []
  | (tlvType, value) :: values' =>
      tlv ← NewExtensionUvarintTLV tlvType value;
      tlvs ← uvarint_tlvs values';
      Ok (tlv :: tlvs)
  end.

Definition Envelope (p : ExtensionParameters) (messageType messageID : Z)
  : res ExtensionEnvelope :=
  _ ← validateParameters p;
  values ← uvarint_tlvs
    [(ExtensionTLVMaxUDPAssociations, MaxUDPAssociations p);
     (ExtensionTLVMaxUDPPayload, MaxUDPPayload p);
     (ExtensionTLVUDPIdleTimeoutMS, UDPIdleTimeoutMS p);
     (ExtensionTLVMaxSessionReceiveBytes, MaxSessionReceiveBytes p);
     (ExtensionTLVMaxStreamWindowBytes, MaxStreamWindowBytes p);
     (ExtensionTLVUnreliableDatagramSize, UnreliableDatagramSize p)];
  let parameters := NewExtensionCapabilitiesTLV (Capabilities p) :: values
    ++ (if has (Capabilities p) CapabilityForwardSecrecy
        then [mkTLV ExtensionTLVForwardSecretKeyShare (ForwardSecretKeyShare p)]
        else []) in
  let envelope := mkEnvelope messageType messageID parameters in
  _ ← MarshalEnvelope envelope;
  Ok envelope.

(** The switch of [ParseExtensionParameters] on one TLV. *)
Definition parse_parameter (tlv : ExtensionTLV) (p : ExtensionParameters)
  : res ExtensionParameters :=
  let t := BaseType tlv in
  if t =? ExtensionTLVCapabilities then
    v ← tlv_Capabilities tlv;
    Ok (mkParameters v (MaxUDPAssociations p) (MaxUDPPayload p) (UDPIdleTimeoutMS p)
      (MaxSessionReceiveBytes p) (MaxStreamWindowBytes p) (UnreliableDatagramSize p)
      (ForwardSecretKeyShare p))
  else if t =? ExtensionTLVMaxUDPAssociations then
    v ← tlv_Uvarint tlv;
    Ok (mkParameters (Capabilities p) v (MaxUDPPayload p) (UDPIdleTimeoutMS p)
      (MaxSessionReceiveBytes p) (MaxStreamWindowBytes p) (UnreliableDatagramSize p)
      (ForwardSecretKeyShare p))
  else if t =? ExtensionTLVMaxUDPPayload then
    v ← tlv_Uvarint tlv;
    Ok (mkParameters (Capabilities p) (MaxUDPAssociations p) v (UDPIdleTimeoutMS p)
      (MaxSessionReceiveBytes p) (MaxStreamWindowBytes p) (UnreliableDatagramSize p)
      (ForwardSecretKeyShare p))
  else if t =? ExtensionTLVUDPIdleTimeoutMS then
    v ← tlv_Uvarint tlv;
    Ok (mkParameters (Capabilities p) (MaxUDPAssociations p) (MaxUDPPayload p) v
      (MaxSessionReceiveBytes p) (MaxStreamWindowBytes p) (UnreliableDatagramSize p)
      (ForwardSecretKeyShare p))
  else if t =? ExtensionTLVMaxSessionReceiveBytes then
    v ← tlv_Uvarint tlv;
    Ok (mkParameters (Capabilities p) (MaxUDPAssociations p) (MaxUDPPayload p)
      (UDPIdleTimeoutMS p) v (MaxStreamWindowBytes p) (UnreliableDatagramSize p)
      (ForwardSecretKeyShare p))
  else if t =? ExtensionTLVMaxStreamWindowBytes then
    v ← tlv_Uvarint tlv;
    Ok (mkParameters (Capabilities p) (MaxUDPAssociations p) (MaxUDPPayload p)
      (UDPIdleTimeoutMS p) (MaxSessionReceiveBytes p) v (UnreliableDatagramSize p)
      (ForwardSecretKeyShare p))
  else if t =? ExtensionTLVUnreliableDatagramSize then
    v ← tlv_Uvarint tlv;
    Ok (mkParameters (Capabilities p) (MaxUDPAssociations p) (MaxUDPPayload p)
      (UDPIdleTimeoutMS p) (MaxSessionReceiveBytes p) (MaxStreamWindowBytes p) v
      (ForwardSecretKeyShare p))
  else if t =? ExtensionTLVForwardSecretKeyShare then
    if negb (len (tlv_value tlv) =? 32) then Err ErrInvalidExtension
    else
      Ok (mkParameters (Capabilities p) (MaxUDPAssociations p) (MaxUDPPayload p)
        (UDPIdleTimeoutMS p) (MaxSessionReceiveBytes p) (MaxStreamWindowBytes p)
        (UnreliableDatagramSize p) (tlv_value tlv))
  else if Mandatory tlv then Err ErrUnsupportedExtension
  else Ok p.

(** The loop, with the set [seen] of base types as the list of its keys. *)
Fixpoint parse_parameters (tlvs : list ExtensionTLV) (seen : list Z)
  (p : ExtensionParameters) : res (list Z * ExtensionParameters) :=
  match tlvs with
  | [] => Ok (seen, p)
  | tlv :: tlvs' =>
      if existsb (Z.eqb (BaseType tlv)) seen then Err ErrInvalidExtension
      else
        p' ← parse_parameter tlv p;
        parse_parameters tlvs' (BaseType tlv :: seen) p'
  end.

Definition required_parameters : list Z :=
  [ExtensionTLVCapabilities; ExtensionTLVMaxUDPAssociations; ExtensionTLVMaxUDPPayload;
   ExtensionTLVUDPIdleTimeoutMS; ExtensionTLVMaxSessionReceiveBytes;
   ExtensionTLVMaxStreamWindowBytes; ExtensionTLVUnreliableDatagramSize].

Definition ParseExtensionParameters (envelope : ExtensionEnvelope)
  : res ExtensionParameters :=
  _ ← MarshalEnvelope envelope;
  '(seen, parameters) ← parse_parameters (env_tlvs envelope) [] zeroParameters;
  if negb (forallb (fun required => existsb (Z.eqb required) seen) required_parameters)
  then Err ErrInvalidExtension
  else
    _ ← validateParameters parameters;
    Ok parameters.

Definition ValidateExtensionAccept (offer accept : ExtensionParameters) : res unit :=
  _ ← validateParameters offer;
  _ ← validateParameters accept;
  if negb (Z.ldiff (Capabilities accept) (Capabilities offer) =? 0)
     || (MaxUDPAssociations offer <? MaxUDPAssociations accept)
     || (MaxUDPPayload offer <? MaxUDPPayload accept)
     || (UDPIdleTimeoutMS offer <? UDPIdleTimeoutMS accept)
     || (MaxSessionReceiveBytes offer <? MaxSessionReceiveBytes accept)
     || (MaxStreamWindowBytes offer <? MaxStreamWindowBytes accept)
     || (UnreliableDatagramSize offer <? UnreliableDatagramSize accept)
  then Err ErrUnsupportedExtension else Ok tt.

(** ** Selection (internal/session/negotiation.go) *)

Definition selectExtensionParameters (offer request : ExtensionParameters)
  : ExtensionParameters :=
  let capabilities := Z.land (Capabilities offer) (Capabilities request) in
  let sessionBytes := Z.min (MaxSessionReceiveBytes offer) (MaxSessionReceiveBytes request) in
  let windowBytes := Z.min (MaxStreamWindowBytes offer) (MaxStreamWindowBytes request) in
  let keyShare := if has capabilities CapabilityForwardSecrecy
                  then ForwardSecretKeyShare request else zeros 32 in
  if negb (has capabilities CapabilityReliableUDP)
  then mkParameters (Z.ldiff capabilities CapabilityUnreliableDatagrams) 0 0 0
         sessionBytes windowBytes 0 keyShare
  else mkParameters capabilities
         (Z.min (MaxUDPAssociations offer) (MaxUDPAssociations request))
         (Z.min (MaxUDPPayload offer) (MaxUDPPayload request))
         (Z.min (UDPIdleTimeoutMS offer) (UDPIdleTimeoutMS request))
         sessionBytes windowBytes
         (if has capabilities CapabilityUnreliableDatagrams
          then Z.min (UnreliableDatagramSize offer) (UnreliableDatagramSize request)
          else 0)
         keyShare.

(** ** The envelope codec *)

Definition tlv_wire (t : ExtensionTLV) : list byte :=
  put_uvarint (tlv_type t) ++ put_uvarint (len (tlv_value t)) ++ tlv_value t.

Definition tlvs_wire (ts : list ExtensionTLV) : list byte := concat (map tlv_wire ts).

(** Strictly increasing valid types and bounded values, above [prev]. *)
Fixpoint tlvs_ok (prev : Z) (ts : list ExtensionTLV) : Prop :=
  match ts with
  | [] => True
  | t :: ts' =>
      validExtensionTLVType (tlv_type t) = true /\ prev < tlv_type t /\
      len (tlv_value t) <= MaxExtensionTLVValueSize /\ tlvs_ok (tlv_type t) ts'
  end.

Lemma valid_type_u64 prev t :
  0 <= prev < t -> validExtensionTLVType t = true -> is_u64 t.
Proof.
  unfold validExtensionTLVType, MaxExtensionTLVType, is_u64. intros. guards.
  change (Z.shiftl 1 63) with (2 ^ 63) in *. lia.
Qed.

Lemma value_len_u64 {A} (l : list A) : len l <= MaxExtensionTLVValueSize -> is_u64 (len l).
Proof. unfold MaxExtensionTLVValueSize, is_u64. pose proof (len_nonneg l). lia. Qed.

Lemma tlvs_wire_cons t ts : tlvs_wire (t :: ts) = tlv_wire t ++ tlvs_wire ts.
Proof. done. Qed.

Lemma tlv_wire_pos t : 0 < len (tlv_wire t).
Proof.
  unfold tlv_wire. pose proof (len_put_pos (tlv_type t)). rewrite !len_app.
  pose proof (len_nonneg (tlv_value t)). pose proof (len_put_pos (len (tlv_value t))). lia.
Qed.

Lemma marshal_tlvs_ok ts prev raw out :
  marshal_tlvs ts prev raw = Ok out <->
  tlvs_ok prev ts /\ (ts <> [] -> len out <= MaxCellPayloadSize) /\
  out = raw ++ tlvs_wire ts.
Proof.
  revert prev raw. induction ts as [|t ts IH]; intros prev raw; cbn [marshal_tlvs tlvs_ok].
  { cbn. rewrite app_nil_r. split; [intros [= ->]; done|intros (_ & _ & ->); done]. }
  rewrite tlvs_wire_cons. fold (tlv_wire t). rewrite (app_assoc raw (tlv_wire t)).
  set (raw' := raw ++ tlv_wire t).
  assert (Hle : forall ts', len raw' <= len (raw' ++ tlvs_wire ts'))
    by (intros; rewrite len_app; pose proof (len_nonneg (tlvs_wire ts')); lia).
  split.
  - intros H. destruct (negb _ || _ || _) eqn:G; [done|]. guards.
    destruct (MaxCellPayloadSize <? len raw') eqn:G'; [done|].
    apply IH in H as (Hok & Hl & ->). split_and!; try done; try lia.
    intros _. destruct ts; [cbn; rewrite app_nil_r; lia|by apply Hl].
  - intros ((Hv & Hp & Hl & Hok) & Hm & ->). rewrite Hv. cbn [negb orb].
    specialize (Hm ltac:(done)). specialize (Hle ts).
    destruct (Z.leb_spec (tlv_type t) prev); [lia|].
    destruct (Z.ltb_spec MaxExtensionTLVValueSize (len (tlv_value t))); [lia|].
    cbn [orb]. destruct (Z.ltb_spec MaxCellPayloadSize (len raw')); [lia|].
    by apply IH.
Qed.

Lemma parse_tlvs_wire ts prev rest :
  0 <= prev -> tlvs_ok prev ts ->
  parse_tlvs (length ts) prev (tlvs_wire ts ++ rest) = Ok (ts, rest).
Proof.
  revert prev. induction ts as [|t ts IH]; intros prev Hp Hok; [done|].
  destruct Hok as (Hv & Hlt & Hl & Hok). cbn [length parse_tlvs].
  rewrite tlvs_wire_cons, <- app_assoc. pose proof (tlv_wire_pos t).
  pose proof (len_app_le (tlv_wire t) (tlvs_wire ts ++ rest)).
  destruct (Z.leb_spec (len (tlv_wire t ++ tlvs_wire ts ++ rest)) 0); [lia|].
  unfold tlv_wire. rewrite <- !app_assoc.
  pose proof (valid_type_u64 prev (tlv_type t) ltac:(lia) Hv). pose proof (value_len_u64 _ Hl).
  read_put. rewrite Hv. cbn [negb orb].
  destruct (Z.leb_spec (tlv_type t) prev); [lia|]. read_put.
  destruct (Z.ltb_spec MaxExtensionTLVValueSize (len (tlv_value t))); [lia|].
  pose proof (len_app_le (tlv_value t) (tlvs_wire ts ++ rest)).
  destruct (Z.ltb_spec (len (tlv_value t ++ tlvs_wire ts ++ rest)) (len (tlv_value t)));
    [lia|].
  unfold skip. rewrite drop_len_app, take_len_app.
  rewrite IH by (done || lia). cbn. by destruct t.
Qed.

Lemma parse_tlvs_inv n prev raw ts rest :
  0 <= prev -> parse_tlvs n prev raw = Ok (ts, rest) ->
  length ts = n /\ tlvs_ok prev ts /\ raw = tlvs_wire ts ++ rest.
Proof.
  revert prev raw ts. induction n as [|n IH]; intros prev raw ts Hp H; cbn [parse_tlvs] in H.
  { inv_res. done. }
  inv_res. guards.
  apply Z.leb_gt in H0. apply Z.ltb_ge in G1, G2.
  read_inv E0. read_inv E2. apply IH in E1 as (Hn & Hok & Hr); [|lia].
  unfold is_u64, MaxExtensionTLVValueSize in *.
  match goal with H : skip ?n ?r = _ |- _ =>
    assert (Hsplit : r = take (Z.to_nat n) r ++ skip n r) by (symmetry; apply take_drop)
  end.
  cbn [length tlvs_ok tlv_type tlv_value]. rewrite tlvs_wire_cons. unfold tlv_wire.
  cbn [tlv_type tlv_value]. rewrite len_take. unfold MaxExtensionTLVValueSize.
  split_and!; [lia|done|lia|lia|done|].
  rewrite Z2Nat.id, Z.min_l by lia. rewrite <- !app_assoc.
  do 2 f_equal. rewrite Hsplit at 1. by f_equal.
Qed.

Definition env_header (e : ExtensionEnvelope) : list byte :=
  extensionMagic ++ [z2b ExtensionEnvelopeVersion; z2b (env_type e)]
  ++ put_uvarint (env_message_id e) ++ put_uvarint (len (env_tlvs e)).

Lemma MarshalEnvelope_ok e raw :
  MarshalEnvelope e = Ok raw <->
  message_type_valid (env_type e) = true /\ env_message_id e <> 0 /\
  env_message_id e <= MaxSequence /\ 0 < len (env_tlvs e) <= MaxExtensionTLVs /\
  tlvs_ok 0 (env_tlvs e) /\ len raw <= MaxCellPayloadSize /\
  raw = env_header e ++ tlvs_wire (env_tlvs e).
Proof.
  unfold MarshalEnvelope. fold (env_header e). pose proof (len_nonneg (env_tlvs e)).
  destruct (message_type_valid (env_type e)); cbn [negb orb];
    [|split; [done|intros; destruct_and?; done]].
  destruct (Z.eqb_spec (env_message_id e) 0); cbn [orb];
    [split; [done|intros; destruct_and?; done]|].
  destruct (Z.ltb_spec MaxSequence (env_message_id e)); cbn [orb];
    [split; [done|intros; destruct_and?; lia]|].
  destruct (Z.eqb_spec (len (env_tlvs e)) 0); cbn [orb];
    [split; [done|intros; destruct_and?; lia]|].
  destruct (Z.ltb_spec MaxExtensionTLVs (len (env_tlvs e)));
    [split; [done|intros; destruct_and?; lia]|].
  rewrite marshal_tlvs_ok. assert (env_tlvs e <> []) by (intros Hnil; by rewrite Hnil in *).
  split; intros; destruct_and?; split_and?; auto; lia.
Qed.

Lemma message_type_byte t : message_type_valid t = true -> b2z (z2b t) = t.
Proof.
  unfold message_type_valid, ExtensionOffer, ExtensionUpdate. intros. guards.
  apply b2z_z2b_small. lia.
Qed.

Lemma parse_marshal_envelope e raw :
  is_u64 (env_message_id e) -> MarshalEnvelope e = Ok raw ->
  ParseExtensionEnvelope raw = Ok e.
Proof.
  intros Hid H. apply MarshalEnvelope_ok in H as (Ht & Hz & Hs & Hc & Hok & Hl & ->).
  assert (Hc' : is_u64 (len (env_tlvs e)))
    by (unfold is_u64, MaxExtensionTLVs in *; lia).
  unfold ParseExtensionEnvelope. set (raw := env_header e ++ tlvs_wire (env_tlvs e)) in *.
  assert (Hraw : raw = extensionMagic ++ [z2b ExtensionEnvelopeVersion; z2b (env_type e)]
    ++ put_uvarint (env_message_id e) ++ put_uvarint (len (env_tlvs e))
    ++ tlvs_wire (env_tlvs e))
    by (unfold raw, env_header; by rewrite <- !app_assoc).
  assert (8 <= len raw).
  { rewrite Hraw, !len_app, !len_cons. change (len extensionMagic) with 4. rewrite len_nil.
    pose proof (len_put_pos (env_message_id e)).
    pose proof (len_put_pos (len (env_tlvs e))). len_lia. }
  destruct (Z.ltb_spec (len raw) 8); [lia|].
  destruct (Z.ltb_spec MaxCellPayloadSize (len raw)); [lia|].
  rewrite Hraw. edestruct (header_byte extensionMagic) as (-> & -> & -> & ->); [done|].
  rewrite (message_type_byte _ Ht), Ht, bytes_eq_refl.
  change (b2z (z2b ExtensionEnvelopeVersion) =? ExtensionEnvelopeVersion) with true.
  cbn [negb orb].
  read_put. destruct (Z.eqb_spec (env_message_id e) 0); [done|].
  destruct (Z.ltb_spec MaxSequence (env_message_id e)); [lia|]. cbn [orb]. read_put.
  destruct (Z.eqb_spec (len (env_tlvs e)) 0); [lia|].
  destruct (Z.ltb_spec MaxExtensionTLVs (len (env_tlvs e))); [lia|]. cbn [orb].
  rewrite to_nat_len, <- (app_nil_r (tlvs_wire _)).
  rewrite parse_tlvs_wire by done. cbn. by destruct e.
Qed.

Lemma marshal_parse_envelope e raw :
  ParseExtensionEnvelope raw = Ok e ->
  is_u64 (env_message_id e) /\ MarshalEnvelope e = Ok raw.
Proof.
  unfold ParseExtensionEnvelope. intros H. inv_res. guards.
  rewrite bytes_eq_true in *. cbn [env_message_id].
  lazymatch goal with H : take 4 raw = _ |- _ =>
    pose proof (header_split raw _ ExtensionEnvelopeVersion ltac:(lia) H ltac:(lia)) as Hh end.
  read_inv E0. read_inv E2. split; [done|]. apply MarshalEnvelope_ok.
  apply parse_tlvs_inv in E1 as (Hn & Hok & ->); [|done].
  assert (l0 = []) as -> by (apply len_0_nil; lia). rewrite app_nil_r in *.
  unfold is_u64 in *. assert (len l = z1) as <- by (unfold len; lia).
  cbn [env_type env_message_id env_tlvs]. split_and!; try done; try lia.
  rewrite Hh at 1. unfold env_header. cbn [env_type env_message_id env_tlvs].
  rewrite Hraw, <- !app_assoc. done.
Qed.

(** ** Parameter rules *)

Lemma has_testbit c k : 0 <= k -> has c (Z.shiftl 1 k) = Z.testbit c k.
Proof.
  intros Hk. unfold has. rewrite Z.shiftl_1_l.
  destruct (Z.testbit c k) eqn:E.
  - destruct (Z.eqb_spec (Z.land c (2 ^ k)) 0) as [H|]; [|done].
    apply (f_equal (fun z => Z.testbit z k)) in H.
    rewrite Z.land_spec, E, Z.pow2_bits_true, Z.bits_0 in H by done. done.
  - destruct (Z.eqb_spec (Z.land c (2 ^ k)) 0) as [|H]; [done|]. exfalso. apply H.
    apply Z.bits_inj'. intros i Hi. rewrite Z.land_spec, Z.bits_0.
    destruct (decide (i = k)) as [->|]; [by rewrite E|].
    rewrite Z.pow2_bits_false by lia. apply andb_false_r.
Qed.

(** What [validate] accepts. *)
Definition params_valid (p : ExtensionParameters) : Prop :=
  minSessionReceiveBytes <= MaxSessionReceiveBytes p <= maxSessionReceiveBytes /\
  minExtensionStreamWindow <= MaxStreamWindowBytes p <= maxExtensionStreamWindow /\
  MaxStreamWindowBytes p <= MaxSessionReceiveBytes p /\
  (has (Capabilities p) CapabilityReliableUDP = false ->
     MaxUDPAssociations p = 0 /\ MaxUDPPayload p = 0 /\ UDPIdleTimeoutMS p = 0 /\
     has (Capabilities p) CapabilityUnreliableDatagrams = false) /\
  (has (Capabilities p) CapabilityReliableUDP = true ->
     minUDPAssociations <= MaxUDPAssociations p <= maxUDPAssociations /\
     minUDPPayload <= MaxUDPPayload p <= maxUDPPayload /\
     minUDPIdleTimeoutMS <= UDPIdleTimeoutMS p <= maxUDPIdleTimeoutMS) /\
  (has (Capabilities p) CapabilityUnreliableDatagrams = false ->
     UnreliableDatagramSize p = 0) /\
  (has (Capabilities p) CapabilityUnreliableDatagrams = true ->
     minUnreliablePayload <= UnreliableDatagramSize p <= MaxUDPPayload p) /\
  has (Capabilities p) CapabilityForwardSecrecy
    = negb (is_zero (ForwardSecretKeyShare p)).

Lemma validateParameters_ok p u : validateParameters p = Ok u <-> params_valid p.
Proof.
  destruct u. unfold validateParameters, validateForwardSecretParameters, params_valid.
  destruct (has (Capabilities p) CapabilityReliableUDP),
    (has (Capabilities p) CapabilityUnreliableDatagrams),
    (has (Capabilities p) CapabilityForwardSecrecy),
    (is_zero (ForwardSecretKeyShare p)); cbn [negb orb].
  all: repeat case_match; guards; split; intros; inv_res; destruct_and?; try done.
  all: try (split_and!; intros; split_and?; first [done | lia]).
  all: repeat match goal with H : ?b = ?b -> _ |- _ => specialize (H eq_refl) end; lia.
Qed.

Lemma has_land a b k :
  0 <= k -> has (Z.land a b) (Z.shiftl 1 k) = has a (Z.shiftl 1 k) && has b (Z.shiftl 1 k).
Proof. intros. rewrite !has_testbit, Z.land_spec by done. done. Qed.

Lemma has_ldiff a j k :
  0 <= j -> 0 <= k ->
  has (Z.ldiff a (Z.shiftl 1 j)) (Z.shiftl 1 k)
  = has a (Z.shiftl 1 k) && negb (bool_decide (j = k)).
Proof.
  intros. rewrite !has_testbit, Z.ldiff_spec, Z.shiftl_1_l by done. f_equal. f_equal.
  case_bool_decide; [subst; by apply Z.pow2_bits_true|by apply Z.pow2_bits_false].
Qed.

(** The selection of two valid parameter sets is valid, and bounded by both. *)
Lemma select_valid offer request :
  params_valid offer -> params_valid request ->
  params_valid (selectExtensionParameters offer request).
Proof.
  unfold params_valid, selectExtensionParameters. intros Ho Hr.
  pose proof (has_land (Capabilities offer) (Capabilities request)) as HL.
  pose proof (HL 0 ltac:(lia)) as H0. pose proof (HL 1 ltac:(lia)) as H1.
  pose proof (HL 6 ltac:(lia)) as H6. clear HL.
  unfold CapabilityReliableUDP, CapabilityUnreliableDatagrams,
    CapabilityForwardSecrecy in *.
  set (caps := Z.land (Capabilities offer) (Capabilities request)) in *.
  destruct (has caps (Z.shiftl 1 0)) eqn:E0; cbn [negb]; cbn [Capabilities
    MaxUDPAssociations MaxUDPPayload UDPIdleTimeoutMS MaxSessionReceiveBytes
    MaxStreamWindowBytes UnreliableDatagramSize ForwardSecretKeyShare].
  all: rewrite ?has_ldiff by lia; rewrite ?E0.
  all: destruct (has (Capabilities offer) (Z.shiftl 1 0)) eqn:A0,
    (has (Capabilities request) (Z.shiftl 1 0)) eqn:B0; try done; cbn [andb] in *.
  all: destruct (has (Capabilities offer) (Z.shiftl 1 1)) eqn:A1,
    (has (Capabilities request) (Z.shiftl 1 1)) eqn:B1; cbn [andb] in H1; rewrite H1;
    destruct (has caps (Z.shiftl 1 6)) eqn:E6; cbn; destruct_and?.
  all: repeat match goal with H : ?b = ?b -> _ |- _ => specialize (H eq_refl) end.
  all: split_and!; intros; try done; try lia; split_and?; try done; try lia.
  all: symmetry in H6; apply andb_true_iff in H6 as [_ Hk];
    try change (negb (bool_decide (1 = 6))) with true; congruence.
Qed.

Lemma select_bounded offer request :
  params_valid offer -> params_valid request ->
  ValidateExtensionAccept offer (selectExtensionParameters offer request) = Ok tt.
Proof.
  intros Ho Hr. pose proof (select_valid _ _ Ho Hr) as Hs.
  unfold ValidateExtensionAccept.
  rewrite (proj2 (validateParameters_ok _ tt) Ho), (proj2 (validateParameters_ok _ tt) Hs).
  cbn [mbind res_bind]. clear Hs.
  assert (Hc : Z.ldiff (Capabilities (selectExtensionParameters offer request))
    (Capabilities offer) = 0).
  { unfold selectExtensionParameters. case_match; cbn [Capabilities]; apply Z.bits_inj';
      intros i Hi; rewrite ?Z.ldiff_spec, ?Z.land_spec, Z.bits_0;
      destruct (Z.testbit (Capabilities offer) i), (Z.testbit (Capabilities request) i);
      cbn; rewrite ?andb_false_r; done. }
  rewrite Hc. cbn [Z.eqb negb orb].
  unfold params_valid, selectExtensionParameters in *.
  case_match; cbn [MaxUDPAssociations MaxUDPPayload UDPIdleTimeoutMS
    MaxSessionReceiveBytes MaxStreamWindowBytes UnreliableDatagramSize];
  destruct (has (Capabilities offer) CapabilityReliableUDP),
    (has (Capabilities offer) CapabilityUnreliableDatagrams) eqn:?;
  destruct_and?; repeat match goal with H : ?b = ?b -> _ |- _ => specialize (H eq_refl) end;
  destruct_and?; unfold minUnreliablePayload, minUDPAssociations, minUDPPayload,
    minUDPIdleTimeoutMS in *;
  repeat match goal with |- context [?a <? ?b] => destruct (Z.ltb_spec a b); try lia end;
  try done; case_match; lia.
Qed.

(** ** Parameters on the wire *)

Definition params_typed (p : ExtensionParameters) : Prop :=
  is_u64 (Capabilities p) /\ is_u64 (MaxUDPAssociations p) /\ is_u64 (MaxUDPPayload p) /\
  is_u64 (UDPIdleTimeoutMS p) /\ is_u64 (MaxSessionReceiveBytes p) /\
  is_u64 (MaxStreamWindowBytes p) /\ is_u64 (UnreliableDatagramSize p) /\
  length (ForwardSecretKeyShare p) = 32%nat.

(** The TLVs of a parameter set, in the order they are written. *)
Definition params_tlvs (p : ExtensionParameters) : list ExtensionTLV :=
  [mkTLV 1 (be_encode 8 (Capabilities p)); mkTLV 2 (put_uvarint (MaxUDPAssociations p));
   mkTLV 3 (put_uvarint (MaxUDPPayload p)); mkTLV 4 (put_uvarint (UDPIdleTimeoutMS p));
   mkTLV 5 (put_uvarint (MaxSessionReceiveBytes p));
   mkTLV 6 (put_uvarint (MaxStreamWindowBytes p));
   mkTLV 7 (put_uvarint (UnreliableDatagramSize p))]
  ++ (if has (Capabilities p) CapabilityForwardSecrecy
      then [mkTLV 9 (ForwardSecretKeyShare p)] else []).

Lemma Envelope_eq p t id :
  Envelope p t id =
    (_ ← validateParameters p;
     _ ← MarshalEnvelope (mkEnvelope t id (params_tlvs p));
     Ok (mkEnvelope t id (params_tlvs p))).
Proof. reflexivity. Qed.

Lemma tlv_Uvarint_put t v : is_u64 v -> tlv_Uvarint (mkTLV t (put_uvarint v)) = Ok v.
Proof.
  intros Hv. unfold tlv_Uvarint. cbn [tlv_value].
  rewrite <- (app_nil_r (put_uvarint v)), readCanonicalUvarint_put, app_nil_r by done.
  by rewrite Z.eqb_refl.
Qed.

Lemma len_put_u64 v : is_u64 v -> 0 < len (put_uvarint v) <= 10.
Proof.
  intros Hv. split; [apply len_put_pos|]. apply (len_put_bound 10); [lia|].
  unfold is_u64 in Hv. cbn. lia.
Qed.

Lemma params_marshal p t id :
  params_typed p -> message_type_valid t = true -> 0 < id <= MaxSequence ->
  exists raw, MarshalEnvelope (mkEnvelope t id (params_tlvs p)) = Ok raw.
Proof.
  intros (T1 & T2 & T3 & T4 & T5 & T6 & T7 & T8) Ht Hid. eexists. apply MarshalEnvelope_ok.
  cbn [env_type env_message_id env_tlvs].
  assert (Hlen : len (be_encode 8 (Capabilities p)) = 8) by done.
  assert (Hks : len (ForwardSecretKeyShare p) = 32) by (unfold len; lia).
  pose proof (len_put_u64 _ T2). pose proof (len_put_u64 _ T3).
  pose proof (len_put_u64 _ T4). pose proof (len_put_u64 _ T5).
  pose proof (len_put_u64 _ T6). pose proof (len_put_u64 _ T7).
  assert (len (put_uvarint id) <= 9)
    by (apply (len_put_bound 9); [lia|]; rewrite MaxSequence_eq in Hid; change (7 * Z.of_nat 9) with 63; lia).
  assert (Hty : forall v, 0 <= v < 128 -> len (put_uvarint v) = 1)
    by (intros v ?; unfold put_uvarint; cbn [put_uvarint_loop];
        destruct (Z.ltb_spec v 128); [done|lia]).
  split_and!; try done; try lia.
  all: unfold params_tlvs, env_header, tlvs_wire, tlv_wire, MaxExtensionTLVs,
    MaxExtensionTLVValueSize, MaxCellPayloadSize in *;
    destruct (has (Capabilities p) CapabilityForwardSecrecy);
    cbn [app tlvs_ok tlv_type tlv_value map concat env_message_id env_tlvs env_type];
    rewrite ?len_app, ?len_cons, ?len_nil; try lia.
  1-2: split_and!; try done; unfold MaxExtensionTLVValueSize; lia.
  all: rewrite ?len_app, ?len_cons, ?len_nil, ?Hlen, ?Hks; change (len extensionMagic) with 4;
    repeat match goal with |- context [len (put_uvarint ?v)] =>
      rewrite (Hty v) by lia end; rewrite ?len_nil; lia.
Qed.

Lemma parse_parameters_step tlv ts seen p p' :
  existsb (Z.eqb (BaseType tlv)) seen = false -> parse_parameter tlv p = Ok p' ->
  parse_parameters (tlv :: ts) seen p = parse_parameters ts (BaseType tlv :: seen) p'.
Proof. intros Hs Hp. cbn [parse_parameters]. by rewrite Hs, Hp. Qed.

(** One TLV of the loop: [p'] is the parameter set after it. *)
Ltac param_step p' Hval :=
  rewrite (parse_parameters_step _ _ _ _ p');
  [| reflexivity | unfold parse_parameter;
     match goal with |- context [BaseType (mkTLV ?t ?v)] =>
       change (BaseType (mkTLV t v)) with t end;
     cbn [Z.eqb Pos.eqb ExtensionTLVCapabilities ExtensionTLVMaxUDPAssociations
       ExtensionTLVMaxUDPPayload ExtensionTLVUDPIdleTimeoutMS
       ExtensionTLVMaxSessionReceiveBytes ExtensionTLVMaxStreamWindowBytes
       ExtensionTLVUnreliableDatagramSize];
     rewrite Hval by done; reflexivity ].

Lemma parse_params_tlvs p :
  params_typed p -> params_valid p ->
  exists seen, parse_parameters (params_tlvs p) [] zeroParameters = Ok (seen, p) /\
    forallb (fun r => existsb (Z.eqb r) seen) required_parameters = true.
Proof.
  intros (T1 & T2 & T3 & T4 & T5 & T6 & T7 & T8) (_ & _ & _ & _ & _ & _ & _ & Hk).
  assert (Hcap : is_u64 (Capabilities p) ->
    tlv_Capabilities (mkTLV 1 (be_encode 8 (Capabilities p))) = Ok (Capabilities p)).
  { intros _. unfold tlv_Capabilities. cbn [tlv_value]. rewrite be_decode_encode.
    rewrite Z.mod_small by (unfold is_u64 in T1; cbn; lia). done. }
  destruct p as [c a u i r w d k]. unfold params_tlvs.
  cbn [app Capabilities MaxUDPAssociations MaxUDPPayload UDPIdleTimeoutMS
    MaxSessionReceiveBytes MaxStreamWindowBytes UnreliableDatagramSize
    ForwardSecretKeyShare] in *.
  param_step (mkParameters c 0 0 0 0 0 0 (zeros 32)) Hcap.
  param_step (mkParameters c a 0 0 0 0 0 (zeros 32)) tlv_Uvarint_put.
  param_step (mkParameters c a u 0 0 0 0 (zeros 32)) tlv_Uvarint_put.
  param_step (mkParameters c a u i 0 0 0 (zeros 32)) tlv_Uvarint_put.
  param_step (mkParameters c a u i r 0 0 (zeros 32)) tlv_Uvarint_put.
  param_step (mkParameters c a u i r w 0 (zeros 32)) tlv_Uvarint_put.
  param_step (mkParameters c a u i r w d (zeros 32)) tlv_Uvarint_put.
  destruct (has c CapabilityForwardSecrecy).
  - exists [9; 7; 6; 5; 4; 3; 2; 1]. split; [|reflexivity].
    rewrite (parse_parameters_step _ _ _ _ (mkParameters c a u i r w d k));
      [reflexivity|reflexivity|].
    unfold parse_parameter. cbn [tlv_value]. by rewrite (len_nat _ _ T8).
  - exists [7; 6; 5; 4; 3; 2; 1]. split; [|reflexivity].
    symmetry in Hk. apply negb_false_iff, is_zero_true in Hk. by rewrite Hk, T8.
Qed.

Lemma params_roundtrip p t id :
  params_typed p -> params_valid p -> message_type_valid t = true -> 0 < id <= MaxSequence ->
  exists env raw, Envelope p t id = Ok env /\ MarshalEnvelope env = Ok raw /\
    ParseExtensionEnvelope raw = Ok env /\ ParseExtensionParameters env = Ok p.
Proof.
  intros Ht Hv Hty Hid. destruct (params_marshal p t id Ht Hty Hid) as [raw Hraw].
  exists (mkEnvelope t id (params_tlvs p)), raw.
  pose proof (proj2 (validateParameters_ok p tt) Hv) as Hval.
  split_and!; [|done|apply parse_marshal_envelope; [|done]|].
  - rewrite Envelope_eq, Hval. cbn [mbind res_bind]. by rewrite Hraw.
  - rewrite MaxSequence_eq in Hid. unfold is_u64. cbn. lia.
  - destruct (parse_params_tlvs p Ht Hv) as (seen & Hp & Hs).
    unfold ParseExtensionParameters. rewrite Hraw. cbn [mbind res_bind env_tlvs].
    rewrite Hp. cbn [mbind res_bind]. rewrite Hs. cbn [negb]. by rewrite Hval.
Qed.

#[export] Instance envelope_codec :
  Codec (fun e => is_u64 (env_message_id e)) MarshalEnvelope ParseExtensionEnvelope.
Proof.
  split; intros.
  - by apply parse_marshal_envelope.
  - by apply marshal_parse_envelope.
Qed.

(** ** Claims *)

(** extension envelopes have one wire form: parsing inverts marshalling
    and accepts nothing else (canonical integers, strictly increasing types,
    no trailing bytes). *)
Theorem envelope_codec_correct e raw :
  (is_u64 (env_message_id e) -> MarshalEnvelope e = Ok raw -> ParseExtensionEnvelope raw = Ok e) /\
  (ParseExtensionEnvelope raw = Ok e -> is_u64 (env_message_id e) /\ MarshalEnvelope e = Ok raw).
Proof.
  split; [by apply parse_marshal_envelope|].
  intros H. exact (enc_dec (Codec := envelope_codec) e raw H).
Qed.

(** valid parameters survive the wire: any valid parameter set can be put
    in an envelope of any type and message id, and parsing the bytes gives it
    back. *)
Theorem parameters_roundtrip p t id :
  params_typed p -> params_valid p -> message_type_valid t = true -> 0 < id <= MaxSequence ->
  exists env raw, Envelope p t id = Ok env /\ MarshalEnvelope env = Ok raw /\
    ParseExtensionEnvelope raw = Ok env /\ ParseExtensionParameters env = Ok p.
Proof. apply params_roundtrip. Qed.

Module ExtensionExample.

Definition envelope : ExtensionEnvelope := mkEnvelope ExtensionUpdate 3 [mkTLV 1 [x01]; mkTLV 9 []].

Lemma envelope_codec_correct_witness : exists raw,
  MarshalEnvelope envelope = Ok raw /\ ParseExtensionEnvelope raw = Ok envelope.
Proof.
  destruct (MarshalEnvelope envelope) as [raw|e] eqn:E; [|vm_compute in E; discriminate E].
  exists raw. split; [done|]. apply (envelope_codec_correct envelope raw); [|exact E].
  unfold is_u64. cbn. lia.
Defined.

Definition parameters : ExtensionParameters :=
  mkParameters 5 16 1400 60000 (4 * 1024 * 1024) (256 * 1024) 0 (zeros 32).

Lemma parameters_typed : params_typed parameters.
Proof. unfold params_typed, is_u64. cbn. split_and!; try lia; done. Qed.

Lemma parameters_valid : params_valid parameters.
Proof. apply (validateParameters_ok parameters tt). vm_compute. reflexivity. Qed.

Lemma parameters_roundtrip_witness : exists env raw,
  Envelope parameters ExtensionOffer 1 = Ok env /\ MarshalEnvelope env = Ok raw /\
  ParseExtensionEnvelope raw = Ok env.
Proof.
  destruct (parameters_roundtrip parameters ExtensionOffer 1 parameters_typed parameters_valid eq_refl)
    as (env & raw & H1 & H2 & H3 & _); [rewrite MaxSequence_eq; lia|].
  by exists env, raw.
Defined.
End ExtensionExample.
