(* ===== verification/ContinuityWire.v ===== *)
(** * Continuity envelopes

    internal/protocol/continuity.go (lease and flow control messages carried
    in an extension TLV) and continuity_open.go (the metadata of an OPEN cell
    that starts or resumes a logical flow): encoders, decoders, validity, and
    the proof that each pair is a canonical codec. *)
From stdpp Require Import prelude list.
From S2P Require Import Prelude Varint Cell Extension.

(** ** Frames (continuity.go) *)

Definition ContinuityEnvelopeVersion : Z := 1.
Definition MinContinuityTokenSize : Z := 32.
Definition MaxContinuityTokenSize : Z := 512.

(** "NPCT". *)
Definition continuityMagic : list byte := [x4e; x50; x43; x54].

(** [ContinuityMessageType], a byte. *)
Definition ContinuityLeaseIssue : Z := 1.
Definition ContinuityLeaseAttach : Z := 2.
Definition ContinuityLeaseAccept : Z := 3.
Definition ContinuityFlowResume : Z := 4.
Definition ContinuityFlowAck : Z := 5.
Definition ContinuityFlowAbort : Z := 6.
Definition ContinuityConstellationCreate : Z := 7.

Definition continuity_type_valid (t : Z) : bool :=
  (ContinuityLeaseIssue <=? t) && (t <=? ContinuityConstellationCreate).

(** [ContinuityID] is a [[16]byte]; [id.zero()] is [is_zero]. *)
Record ContinuityFrame := mkFrame {
  cf_type : Z;
  cf_message_id : Z;
  cf_constellation : list byte;
  cf_flow : list byte;
  cf_send : Z;
  cf_receive : Z;
  cf_token : list byte
}.

(** [ContinuityFrame.validate]. *)
Definition validateFrame (f : ContinuityFrame) : res unit :=
  let t := cf_type f in
  if negb (continuity_type_valid t) || (cf_message_id f =? 0)
     || (MaxSequence <? cf_message_id f) || is_zero (cf_constellation f)
     || (MaxSequence <? cf_send f) || (MaxSequence <? cf_receive f)
  then Err ErrInvalidContinuity
  else if (t =? ContinuityLeaseIssue) || (t =? ContinuityLeaseAttach)
          || (t =? ContinuityLeaseAccept) then
    if negb (is_zero (cf_flow f)) || negb (cf_send f =? 0) || negb (cf_receive f =? 0)
       || (len (cf_token f) <? MinContinuityTokenSize)
       || (MaxContinuityTokenSize <? len (cf_token f))
    then Err ErrInvalidContinuity else Ok tt
  else if (t =? ContinuityFlowResume) || (t =? ContinuityFlowAck) then
    if is_zero (cf_flow f) || negb (len (cf_token f) =? 0)
    then Err ErrInvalidContinuity else Ok tt
  else if t =? ContinuityFlowAbort then
    if is_zero (cf_flow f) || negb (cf_send f =? 0) || negb (cf_receive f =? 0)
       || negb (len (cf_token f) =? 0)
    then Err ErrInvalidContinuity else Ok tt
  else if t =? ContinuityConstellationCreate then
    if negb (is_zero (cf_flow f)) || negb (cf_send f =? 0) || negb (cf_receive f =? 0)
       || negb (len (cf_token f) =? 0)
    then Err ErrInvalidContinuity else Ok tt
  else Err ErrInvalidContinuity.

Definition MarshalFrame (f : ContinuityFrame) : res (list byte) :=
  _ ← validateFrame f;
  Ok (continuityMagic ++ [z2b ContinuityEnvelopeVersion; z2b (cf_type f)]
    ++ put_uvarint (cf_message_id f) ++ cf_constellation f ++ cf_flow f
    ++ put_uvarint (cf_send f) ++ put_uvarint (cf_receive f)
    ++ put_uvarint (len (cf_token f)) ++ cf_token f).

Definition readContinuityUvarint (raw : list byte) : res (Z * Z) :=
  map_err (fun _ => Sentinel ErrInvalidContinuity) (readCanonicalUvarint raw).

Definition ParseContinuityFrame (raw : list byte) : res ContinuityFrame :=
  let fixedFields := 4 + 1 + 1 + 16 + 16 in
  if (len raw <? fixedFields + 4) || negb (bytes_eq (take 4 raw) continuityMagic)
     || negb (byte_at raw 4 =? ContinuityEnvelopeVersion)
  then Err ErrInvalidContinuity
  else
    let messageType := byte_at raw 5 in
    let rest := drop 6 raw in
    '(messageID, consumed) ← readContinuityUvarint rest;
    let rest := skip consumed rest in
    if len rest <? 32 then Err ErrInvalidContinuity
    else
      let constellationID := take 16 rest in
      let rest := drop 16 rest in
      let flowID := take 16 rest in
      let rest := drop 16 rest in
      '(sendOffset, consumed) ← readContinuityUvarint rest;
      let rest := skip consumed rest in
      '(receiveOffset, consumed) ← readContinuityUvarint rest;
      let rest := skip consumed rest in
      '(tokenLength, consumed) ← readContinuityUvarint rest;
      if MaxContinuityTokenSize <? tokenLength then Err ErrInvalidContinuity
      else
        let rest := skip consumed rest in
        if negb (tokenLength =? len rest) then Err ErrInvalidContinuity
        else
          let frame := mkFrame messageType messageID constellationID flowID
            sendOffset receiveOffset rest in
          _ ← validateFrame frame;
          Ok frame.

Definition NewContinuityTLV (frame : ContinuityFrame) : res ExtensionTLV :=
  raw ← MarshalFrame frame;
  Ok (mkTLV ExtensionTLVContinuity raw).

Definition ParseContinuityTLV (tlv : ExtensionTLV) : res ContinuityFrame :=
  if negb (tlv_type tlv =? ExtensionTLVContinuity) then Err ErrInvalidContinuity
  else ParseContinuityFrame (tlv_value tlv).

(** ** OPEN metadata (continuity_open.go) *)

Definition ContinuityOpenVersion : Z := 1.
Definition MaxContinuityOpenMetadata : Z := 1024.

(** "NPCO". *)
Definition continuityOpenMagic : list byte := [x4e; x50; x43; x4f].

Definition ContinuityOpenNew : Z := 1.
Definition ContinuityOpenResume : Z := 2.

Record ContinuityOpenMetadata := mkOpenMetadata {
  om_mode : Z;
  om_constellation : list byte;
  om_flow : list byte;
  om_lease : list byte;
  om_epoch : Z;
  om_send : Z;
  om_receive : Z;
  om_inner : list byte
}.

(** [ContinuityOpenMetadata.validate]. *)
Definition validateOpen (m : ContinuityOpenMetadata) : res unit :=
  if is_zero (om_constellation m) || is_zero (om_flow m) || is_zero (om_lease m)
     || (om_epoch m =? 0) || (MaxSequence <? om_epoch m)
     || (MaxSequence <? om_send m) || (MaxSequence <? om_receive m)
  then Err ErrInvalidContinuityOpen
  else if om_mode m =? ContinuityOpenNew then
    if negb (om_epoch m =? 1) || negb (om_send m =? 0) || negb (om_receive m =? 0)
       || (len (om_inner m) =? 0)
    then Err ErrInvalidContinuityOpen else Ok tt
  else if om_mode m =? ContinuityOpenResume then
    if (om_epoch m <? 2) || negb (len (om_inner m) =? 0)
    then Err ErrInvalidContinuityOpen else Ok tt
  else Err ErrInvalidContinuityOpen.

Definition MarshalOpen (m : ContinuityOpenMetadata) : res (list byte) :=
  _ ← validateOpen m;
  let raw := continuityOpenMagic ++ [z2b ContinuityOpenVersion; z2b (om_mode m)]
    ++ om_constellation m ++ om_flow m ++ om_lease m
    ++ put_uvarint (om_epoch m) ++ put_uvarint (om_send m) ++ put_uvarint (om_receive m)
    ++ put_uvarint (len (om_inner m)) ++ om_inner m in
  if MaxContinuityOpenMetadata <? len raw then Err ErrInvalidContinuityOpen else Ok raw.

(** One round of [for _, destination := range values], or the last read. *)
Definition readOpenUvarint (raw : list byte) : res (Z * Z) :=
  map_err (fun _ => Sentinel ErrInvalidContinuityOpen) (readCanonicalUvarint raw).

Definition ParseContinuityOpenMetadata (raw : list byte) : res ContinuityOpenMetadata :=
  let fixedLength := 4 + 1 + 1 + 16 + 16 + 16 in
  if (len raw <? fixedLength + 4) || (MaxContinuityOpenMetadata <? len raw)
     || negb (bytes_eq (take 4 raw) continuityOpenMagic)
     || negb (byte_at raw 4 =? ContinuityOpenVersion)
  then Err ErrInvalidContinuityOpen
  else
    let mode := byte_at raw 5 in
    let rest := drop 6 raw in
    let constellationID := take 16 rest in
    let rest := drop 16 rest in
    let flowID := take 16 rest in
    let rest := drop 16 rest in
    let leaseKey := take 16 rest in
    let rest := drop 16 rest in
    '(epoch, consumed) ← readOpenUvarint rest;
    let rest := skip consumed rest in
    '(sendOffset, consumed) ← readOpenUvarint rest;
    let rest := skip consumed rest in
    '(receiveOffset, consumed) ← readOpenUvarint rest;
    let rest := skip consumed rest in
    '(innerLength, consumed) ← readOpenUvarint rest;
    let rest := skip consumed rest in
    if negb (innerLength =? len rest) then Err ErrInvalidContinuityOpen
    else
      let metadata := mkOpenMetadata mode constellationID flowID leaseKey
        epoch sendOffset receiveOffset rest in
      _ ← validateOpen metadata;
      Ok metadata.

Definition IsContinuityOpenMetadata (raw : list byte) : bool :=
  (len continuityOpenMagic <=? len raw)
  && bytes_eq (take 4 raw) continuityOpenMagic.

(** ** The codecs *)

(** The values the Go types can hold. *)
Definition frame_typed (f : ContinuityFrame) : Prop :=
  0 <= cf_type f < 256 /\ is_u64 (cf_message_id f) /\ is_u64 (cf_send f) /\
  is_u64 (cf_receive f) /\ length (cf_constellation f) = 16%nat /\
  length (cf_flow f) = 16%nat.

Definition open_typed (m : ContinuityOpenMetadata) : Prop :=
  0 <= om_mode m < 256 /\ is_u64 (om_epoch m) /\ is_u64 (om_send m) /\
  is_u64 (om_receive m) /\ length (om_constellation m) = 16%nat /\
  length (om_flow m) = 16%nat /\ length (om_lease m) = 16%nat.

Lemma frame_token_bound f :
  validateFrame f = Ok tt -> len (cf_token f) <= MaxContinuityTokenSize.
Proof.
  unfold validateFrame, MaxContinuityTokenSize. intros H. inv_res; guards;
    pose proof (len_nonneg (cf_token f)); unfold MaxContinuityTokenSize in *; lia.
Qed.

Lemma open_inner_bound m raw :
  MarshalOpen m = Ok raw ->
  len (om_inner m) <= len raw <= MaxContinuityOpenMetadata.
Proof.
  unfold MarshalOpen. intros H. inv_res. split; [|lia].
  rewrite !len_app. pose proof (len_nonneg continuityOpenMagic).
  pose proof (len_nonneg (om_constellation m)). pose proof (len_nonneg (om_flow m)).
  pose proof (len_nonneg (om_lease m)).
  pose proof (len_nonneg [z2b ContinuityOpenVersion; z2b (om_mode m)]).
  pose proof (len_put_pos (om_epoch m)). pose proof (len_put_pos (om_send m)).
  pose proof (len_put_pos (om_receive m)). pose proof (len_put_pos (len (om_inner m))).
  lia.
Qed.

Lemma byte_at_range raw i : 0 <= byte_at raw i < 256.
Proof. apply b2z_range. Qed.

Lemma length_take_16 (rest : list byte) : 16 <= len rest -> length (take 16 rest) = 16%nat.
Proof. unfold len. rewrite length_take. lia. Qed.

Lemma length_take_drop_16 n (rest : list byte) :
  Z.of_nat n + 16 <= len rest -> length (take 16 (drop n rest)) = 16%nat.
Proof. unfold len. rewrite length_take, length_drop. lia. Qed.

(** Two or three consecutive identifiers. *)
Lemma two_ids (rest : list byte) :
  take 16 rest ++ take 16 (drop 16 rest) ++ drop 32 rest = rest.
Proof.
  assert (drop 32 rest = drop 16 (drop 16 rest)) as -> by (by rewrite drop_drop).
  by rewrite !take_drop.
Qed.

Lemma three_ids (rest : list byte) :
  take 16 rest ++ take 16 (drop 16 rest) ++ take 16 (drop 32 rest) ++ drop 48 rest = rest.
Proof.
  assert (drop 48 rest = drop 16 (drop 32 rest)) as -> by (by rewrite drop_drop).
  by rewrite (take_drop 16 (drop 32 rest)), two_ids.
Qed.

(** Drops the magic, version and type bytes of an envelope under construction. *)
Ltac read_header Hm :=
  edestruct header_byte as (-> & -> & -> & ->); [exact Hm|];
  rewrite ?bytes_eq_refl;
  repeat match goal with |- context [b2z (z2b ?z)] =>
    rewrite (b2z_z2b_small z) by first [lia | done] end;
  rewrite ?Z.eqb_refl.

Lemma parse_marshal_frame f raw :
  frame_typed f -> MarshalFrame f = Ok raw -> ParseContinuityFrame raw = Ok f.
Proof.
  intros (Ht & Hi & Hs & Hr & Hc & Hf) H. unfold MarshalFrame in H. inv_res.
  match goal with u : unit |- _ => destruct u end.
  pose proof (frame_token_bound f E) as Hb. pose proof (len_nonneg (cf_token f)).
  assert (Htok : is_u64 (len (cf_token f)))
    by (unfold is_u64, MaxContinuityTokenSize in *; lia).
  unfold ParseContinuityFrame, readContinuityUvarint.
  pose proof (len_put_pos (cf_message_id f)). pose proof (len_put_pos (cf_send f)).
  pose proof (len_put_pos (cf_receive f)). pose proof (len_put_pos (len (cf_token f))).
  rewrite !len_app, !len_cons, len_nil. rewrite (len_nat _ _ Hc), (len_nat _ _ Hf).
  change (len continuityMagic) with 4.
  match goal with |- context [?a <? ?b] => destruct (Z.ltb_spec a b); [lia|] end.
  read_header (eq_refl : length continuityMagic = 4%nat). cbn [negb orb].
  rewrite readCanonicalUvarint_put by done. cbn [map_err mbind res_bind]. rewrite skip_put.
  rewrite !len_app, (len_nat _ _ Hc), (len_nat _ _ Hf).
  match goal with |- context [?a <? ?b] => destruct (Z.ltb_spec a b); [lia|] end.
  rewrite !(take_app_exact _ _ 16 Hc), !(drop_app_exact _ _ 16 Hc),
    !(take_app_exact _ _ 16 Hf), !(drop_app_exact _ _ 16 Hf).
  do 3 read_put.
  destruct (Z.ltb_spec MaxContinuityTokenSize (len (cf_token f))); [lia|].
  rewrite Z.eqb_refl. cbn [negb].
  assert (mkFrame (cf_type f) (cf_message_id f) (cf_constellation f) (cf_flow f)
    (cf_send f) (cf_receive f) (cf_token f) = f) as -> by (by destruct f).
  by rewrite E.
Qed.

Lemma marshal_parse_frame f raw :
  ParseContinuityFrame raw = Ok f -> frame_typed f /\ MarshalFrame f = Ok raw.
Proof.
  unfold ParseContinuityFrame, readContinuityUvarint. intros H. inv_res. guards.
  rewrite bytes_eq_true in *.
  lazymatch goal with H : take 4 raw = _ |- _ =>
    pose proof (header_split raw _ ContinuityEnvelopeVersion ltac:(lia) H ltac:(lia)) as Hh
  end.
  read_inv E0. rewrite drop_drop in *. change (16 + 16)%nat with 32%nat in *.
  read_inv E2. read_inv E3. read_inv E4.
  match goal with u : unit |- _ => destruct u end.
  pose proof (byte_at_range raw 5). apply Z.ltb_ge in G0. split.
  - unfold frame_typed. cbn. split_and!; try done; try lia.
    + apply length_take_16. lia.
    + apply length_take_drop_16. lia.
  - unfold MarshalFrame. rewrite E1. cbn [mbind res_bind cf_type cf_message_id
      cf_constellation cf_flow cf_send cf_receive cf_token].
    assert (Hbody : drop 6 raw = put_uvarint z ++ take 16 rest ++ take 16 (drop 16 rest)
      ++ put_uvarint z1 ++ put_uvarint z3 ++ put_uvarint z5 ++ rest0)
      by (rewrite <- Hraw0, two_ids; exact Hraw).
    rewrite Hh at 2. rewrite Hbody. apply Z.eqb_eq in G2 as ->. done.
Qed.

Lemma parse_marshal_open m raw :
  open_typed m -> MarshalOpen m = Ok raw -> ParseContinuityOpenMetadata raw = Ok m.
Proof.
  intros (Ht & He & Hs & Hr & Hc & Hf & Hl) H. pose proof (open_inner_bound m raw H) as Hb.
  unfold MarshalOpen in H. inv_res. match goal with u : unit |- _ => destruct u end.
  pose proof (len_nonneg (om_inner m)).
  assert (Hin : is_u64 (len (om_inner m)))
    by (unfold is_u64, MaxContinuityOpenMetadata in *; lia).
  unfold ParseContinuityOpenMetadata, readOpenUvarint. rewrite G.
  pose proof (len_put_pos (om_epoch m)). pose proof (len_put_pos (om_send m)).
  pose proof (len_put_pos (om_receive m)). pose proof (len_put_pos (len (om_inner m))).
  rewrite !len_app, !len_cons, len_nil.
  rewrite (len_nat _ _ Hc), (len_nat _ _ Hf), (len_nat _ _ Hl).
  change (len continuityOpenMagic) with 4.
  match goal with |- context [?a <? ?b] => destruct (Z.ltb_spec a b); [lia|] end.
  read_header (eq_refl : length continuityOpenMagic = 4%nat). cbn [negb orb].
  rewrite !(take_app_exact _ _ 16 Hc), !(drop_app_exact _ _ 16 Hc),
    !(take_app_exact _ _ 16 Hf), !(drop_app_exact _ _ 16 Hf),
    !(take_app_exact _ _ 16 Hl), !(drop_app_exact _ _ 16 Hl).
  do 4 read_put. rewrite Z.eqb_refl. cbn [negb].
  assert (mkOpenMetadata (om_mode m) (om_constellation m) (om_flow m) (om_lease m)
    (om_epoch m) (om_send m) (om_receive m) (om_inner m) = m) as -> by (by destruct m).
  by rewrite E.
Qed.

Lemma marshal_parse_open m raw :
  ParseContinuityOpenMetadata raw = Ok m -> open_typed m /\ MarshalOpen m = Ok raw.
Proof.
  unfold ParseContinuityOpenMetadata, readOpenUvarint. intros H. inv_res. guards.
  rewrite bytes_eq_true in *.
  lazymatch goal with H : take 4 raw = _ |- _ =>
    pose proof (header_split raw _ ContinuityOpenVersion ltac:(lia) H ltac:(lia)) as Hh
  end.
  set (body := drop 6 raw) in *.
  assert (Hlb : len body = len raw - 6) by (unfold body; rewrite len_drop; lia).
  rewrite !drop_drop in *. change (16 + 16)%nat with 32%nat in *.
  change (32 + 16)%nat with 48%nat in *. change (16 + 32)%nat with 48%nat in *.
  read_inv E0. read_inv E2. read_inv E3. read_inv E4.
  match goal with u : unit |- _ => destruct u end.
  pose proof (byte_at_range raw 5). split.
  - unfold open_typed. cbn. split_and!; try done; try lia.
    + apply length_take_16. lia.
    + apply length_take_drop_16. lia.
    + apply length_take_drop_16. lia.
  - unfold MarshalOpen. rewrite E1. cbn [mbind res_bind om_mode om_constellation
      om_flow om_lease om_epoch om_send om_receive om_inner].
    match goal with H : (_ =? len _) = true |- _ => apply Z.eqb_eq in H as -> end.
    match goal with |- (if _ <? len ?w then _ else _) = _ => assert (w = raw) as -> end.
    + rewrite Hh at 2. f_equal. f_equal. rewrite <- Hraw. apply three_ids.
    + by destruct (Z.ltb_spec MaxContinuityOpenMetadata (len raw)); [lia|].
Qed.

#[export] Instance frame_codec : Codec frame_typed MarshalFrame ParseContinuityFrame.
Proof.
  split; intros.
  - by apply parse_marshal_frame.
  - by apply marshal_parse_frame.
Qed.

#[export] Instance open_codec : Codec open_typed MarshalOpen ParseContinuityOpenMetadata.
Proof.
  split; intros.
  - by apply parse_marshal_open.
  - by apply marshal_parse_open.
Qed.

(** ** Claims *)

(** continuity frames and open metadata have one wire form each: parsing
    inverts marshalling and accepts nothing else. *)
Theorem continuity_codecs_correct f m raw :
  ((frame_typed f -> MarshalFrame f = Ok raw -> ParseContinuityFrame raw = Ok f) /\
   (ParseContinuityFrame raw = Ok f -> frame_typed f /\ MarshalFrame f = Ok raw)) /\
  ((open_typed m -> MarshalOpen m = Ok raw -> ParseContinuityOpenMetadata raw = Ok m) /\
   (ParseContinuityOpenMetadata raw = Ok m -> open_typed m /\ MarshalOpen m = Ok raw)).
Proof.
  split; split.
  - apply (dec_enc (Codec := frame_codec)).
  - apply (enc_dec (Codec := frame_codec)).
  - apply (dec_enc (Codec := open_codec)).
  - apply (enc_dec (Codec := open_codec)).
Qed.

Module ContinuityExample.

Definition frame : ContinuityFrame :=
  mkFrame ContinuityFlowAck 9 (replicate 16 x01) (replicate 16 x02) 300 5 [].

Definition metadata : ContinuityOpenMetadata :=
  mkOpenMetadata ContinuityOpenResume (replicate 16 x01) (replicate 16 x02) (replicate 16 x03) 2 10 20 [].

Lemma continuity_codecs_correct_witness : exists raw,
  MarshalFrame frame = Ok raw /\ ParseContinuityFrame raw = Ok frame.
Proof.
  destruct (MarshalFrame frame) as [raw|e] eqn:E; [|vm_compute in E; discriminate E].
  exists raw. split; [done|]. apply (continuity_codecs_correct frame metadata raw); [|exact E].
  unfold frame_typed, is_u64. cbn. split_and!; try lia; done.
Defined.
End ContinuityExample.
