(* ===== verification/Auth.v ===== *)
(** * The NP/2 handshake

    internal/protocol/auth.go (challenge, response, confirm, key schedule),
    device.go (the textual device identity) and forward_secret.go (the X25519
    key schedule).  HMAC-SHA256, SHA-256, HKDF and X25519 are parameters; a
    reader of randomness is given by the outcome of its [io.ReadFull]. *)
From stdpp Require Import prelude list.
From S2P Require Import Prelude.

(** ** Constants *)

Definition Version : Z := 2.
Definition RootSecretSize : nat := 32.
Definition NonceSize : nat := 32.
Definition AuthTagSize : nat := 32.
Definition DeviceIDSize : nat := 16.
Definition MaxAuthenticationMessageSize : Z := 512.
Definition MaxChallengeAge : Z := 15 * 1000000000.
Definition MaxServerCredentials : Z := 256.
Definition challengeMessageSize : Z := 1 + Z.of_nat NonceSize + 4.
Definition responseMessageSize : Z := Z.of_nat NonceSize + 4 + Z.of_nat AuthTagSize.
Definition confirmMessageSize : Z := Z.of_nat AuthTagSize.

Definition CarrierHTTPS : Z := 1.
Definition CarrierWebRTC : Z := 2.
Definition CarrierHTTP3 : Z := 3.

Definition carrier_valid (c : Z) : bool :=
  (c =? CarrierHTTPS) || (c =? CarrierWebRTC) || (c =? CarrierHTTP3).

Definition FeatureMultiplex : Z := Z.shiftl 1 0.
Definition FeatureProfileQuiet : Z := Z.shiftl 1 1.
Definition FeatureProfileWeb : Z := Z.shiftl 1 2.
Definition FeatureProfileInteractive : Z := Z.shiftl 1 3.
Definition FeatureCellAEAD : Z := Z.shiftl 1 4.
Definition FeatureDeviceIdentity : Z := Z.shiftl 1 5.

Definition knownFeatures : Z :=
  Z.lor (Z.lor (Z.lor (Z.lor (Z.lor FeatureMultiplex FeatureProfileQuiet)
    FeatureProfileWeb) FeatureProfileInteractive) FeatureCellAEAD) FeatureDeviceIdentity.

Definition features_valid (f : Z) : bool := Z.ldiff f knownFeatures =? 0.

(** [f&FeatureDeviceIdentity != 0]. *)
Definition has_device (f : Z) : bool := negb (Z.land f FeatureDeviceIdentity =? 0).

(** ** Messages *)

Record HandshakeConfig := mkHandshakeConfig {
  hc_root : list byte; hc_identity : list byte; hc_carrier : Z; hc_device : list byte
}.

Record Credential := mkCredential { cred_id : list byte; cred_root : list byte }.

Definition validateConfig (c : HandshakeConfig) : res unit :=
  if (len (hc_identity c) =? 0) || (253 <? len (hc_identity c)) then Err ErrInvalidConfig
  else if negb (carrier_valid (hc_carrier c)) then Err ErrInvalidConfig
  else if bytes_eq (hc_root c) (zeros RootSecretSize) then Err ErrInvalidConfig
  else Ok tt.

Record Challenge := mkChallenge {
  ch_version : Z; ch_nonce : list byte; ch_features : Z
}.

Definition MarshalChallenge (c : Challenge) : list byte :=
  [z2b (ch_version c)] ++ ch_nonce c ++ be_encode 4 (ch_features c).

Definition ParseChallenge (raw : list byte) : res Challenge :=
  if (MaxAuthenticationMessageSize <? len raw) || negb (len raw =? challengeMessageSize)
  then Err ErrMalformedMessage
  else if negb (byte_at raw 0 =? Version) then Err ErrMalformedMessage
  else
    let features := be_decode (take 4 (drop (1 + NonceSize) raw)) in
    if negb (features_valid features) then Err ErrMalformedMessage
    else Ok (mkChallenge (byte_at raw 0) (take NonceSize (drop 1 raw)) features).

Record Response := mkResponse {
  rs_nonce : list byte; rs_features : Z; rs_device : list byte; rs_tag : list byte
}.

Definition MarshalResponse (r : Response) : list byte :=
  rs_nonce r ++ be_encode 4 (rs_features r)
  ++ (if has_device (rs_features r) then rs_device r else []) ++ rs_tag r.

Definition ParseResponse (raw : list byte) : res Response :=
  if (MaxAuthenticationMessageSize <? len raw) || (len raw <? Z.of_nat NonceSize + 4)
  then Err ErrMalformedMessage
  else
    let nonce := take NonceSize raw in
    let features := be_decode (take 4 (drop NonceSize raw)) in
    if negb (features_valid features) then Err ErrMalformedMessage
    else
      let expectedSize := if has_device features
        then responseMessageSize + Z.of_nat DeviceIDSize else responseMessageSize in
      if negb (len raw =? expectedSize) then Err ErrMalformedMessage
      else
        let rest := drop (NonceSize + 4) raw in
        if has_device features then
          let device := take DeviceIDSize rest in
          if is_zero device then Err ErrMalformedMessage
          else Ok (mkResponse nonce features device (drop DeviceIDSize rest))
        else Ok (mkResponse nonce features (zeros DeviceIDSize) rest).

Record Confirm := mkConfirm { cf_tag : list byte }.

Definition MarshalConfirm (c : Confirm) : list byte := cf_tag c.

Definition ParseConfirm (raw : list byte) : res Confirm :=
  if (MaxAuthenticationMessageSize <? len raw) || negb (len raw =? confirmMessageSize)
  then Err ErrMalformedMessage else Ok (mkConfirm raw).

Record SessionKeys := mkSessionKeys {
  sk_header_map : list byte; sk_padding : list byte; sk_control : list byte;
  sk_c2s : list byte; sk_s2c : list byte; sk_c2s_nonce : list byte; sk_s2c_nonce : list byte
}.

(** ** The device identity as text (device.go) *)

Definition ascii_dash : byte := x2d.

(** [encoding/hex]: lower-case digits out, both cases in. *)
Definition hex_digit (n : Z) : byte := if n <? 10 then z2b (48 + n) else z2b (87 + n).

Definition hex_encode (src : list byte) : list byte :=
  flat_map (fun b => [hex_digit (Z.shiftr (b2z b) 4); hex_digit (Z.land (b2z b) 15)]) src.

Definition hex_value (c : byte) : option Z :=
  let n := b2z c in
  if (48 <=? n) && (n <=? 57) then Some (n - 48)
  else if (97 <=? n) && (n <=? 102) then Some (n - 87)
  else if (65 <=? n) && (n <=? 70) then Some (n - 55)
  else None.

Fixpoint hex_decode (src : list byte) : option (list byte) :=
  match src with
  | [] => Some []
  | [_] => None
  | a :: b :: src' =>
      match hex_value a, hex_value b, hex_decode src' with
      | Some x, Some y, Some l => Some (z2b (Z.lor (Z.shiftl x 4) y) :: l)
      | _, _, _ => None
      end
  end.

Definition MarshalDeviceText (d : list byte) : res (list byte) :=
  if is_zero d then Err ErrInvalidConfig
  else Ok (hex_encode (take 4 d) ++ [ascii_dash]
    ++ hex_encode (take 2 (drop 4 d)) ++ [ascii_dash]
    ++ hex_encode (take 2 (drop 6 d)) ++ [ascii_dash]
    ++ hex_encode (take 2 (drop 8 d)) ++ [ascii_dash]
    ++ hex_encode (take 6 (drop 10 d))).

Definition UnmarshalDeviceText (text : list byte) : res (list byte) :=
  if negb (len text =? 36)
     || negb (byte_at text 8 =? b2z ascii_dash) || negb (byte_at text 13 =? b2z ascii_dash)
     || negb (byte_at text 18 =? b2z ascii_dash) || negb (byte_at text 23 =? b2z ascii_dash)
  then Err ErrInvalidConfig
  else
    let compact := slice text 0 8 ++ slice text 9 13 ++ slice text 14 18
      ++ slice text 19 23 ++ slice text 24 36 in
    match hex_decode compact with
    | None => Err ErrInvalidConfig
    | Some parsed => if is_zero parsed then Err ErrInvalidConfig else Ok parsed
    end.

(** ** The key schedule and the handshake *)

(** [binary.BigEndian.AppendUint16(transcript, uint16(len(identity)))] ... *)
Definition buildTranscript (config : HandshakeConfig) (challenge : Challenge)
  (clientNonce : list byte) (requestedFeatures : Z) (deviceID : list byte) : list byte :=
  [z2b Version; z2b (hc_carrier config)]
  ++ be_encode 2 (u16 (len (hc_identity config))) ++ hc_identity config
  ++ ch_nonce challenge ++ clientNonce
  ++ be_encode 4 (ch_features challenge) ++ be_encode 4 requestedFeatures
  ++ (if has_device requestedFeatures then deviceID else []).

Definition with_root (c : HandshakeConfig) (root : list byte) : HandshakeConfig :=
  mkHandshakeConfig root (hc_identity c) (hc_carrier c) (hc_device c).

(** [time.Time.Sub] saturates at the range of [time.Duration]. *)
Definition time_sub (a b : Z) : Z := Z.max (- 2 ^ 63) (Z.min MaxInt64 (a - b)).

Record ServerHandshake := mkServerHandshake {
  sh_config : HandshakeConfig; sh_challenge : Challenge; sh_created_at : Z;
  sh_used : bool; sh_supported : Z
}.

Record ClientHandshake := mkClientHandshake {
  ch_expected_confirm : list byte; ch_keys : SessionKeys
}.

Definition NewServerHandshake (config : HandshakeConfig) (supportedFeatures now : Z)
  (random : res (list byte)) : res (ServerHandshake * Challenge) :=
  _ ← validateConfig config;
  if negb (features_valid supportedFeatures) then Err ErrUnsupportedFeatures
  else
    nonce ← random;
    let challenge := mkChallenge Version nonce supportedFeatures in
    Ok (mkServerHandshake config challenge now false supportedFeatures, challenge).

Definition VerifyConfirm (c : option ClientHandshake) (confirm : Confirm)
  : res SessionKeys :=
  match c with
  | None => Err ErrAuthentication
  | Some c =>
      if negb (bytes_eq (cf_tag confirm) (ch_expected_confirm c))
      then Err ErrAuthentication else Ok (ch_keys c)
  end.

Section Crypto.

(** HMAC-SHA256 of a key and the concatenated writes, SHA-256, and
    [hkdf.Key(sha256.New, secret, salt, info, size)]. *)
Context (hmac_sha256 : list byte -> list byte -> list byte).
Context (sha256 : list byte -> list byte).
Context (hkdf_key : list byte -> list byte -> list byte -> nat -> res (list byte)).

Definition calculateTag (key : list byte) (label : string) (transcript : list byte)
  : list byte := hmac_sha256 key (bytes_of label ++ [x00] ++ transcript).

Definition deriveAuthKey (config : HandshakeConfig) : res (list byte) :=
  hkdf_key (hc_root config) (bytes_of "Neproto NP/2")
    (bytes_of "NP2 auth" ++ [x00] ++ hc_identity config) 32.

Definition deriveSessionKeys (authKey transcript : list byte) : res SessionKeys :=
  let salt := sha256 transcript in
  let derive info size := hkdf_key authKey salt (bytes_of info) size in
  headerMap ← derive "NP2 header map"%string 32%nat;
  padding ← derive "NP2 padding"%string 32%nat;
  control ← derive "NP2 control"%string 32%nat;
  clientToServer ← derive "NP2 cell c2s key"%string 32%nat;
  serverToClient ← derive "NP2 cell s2c key"%string 32%nat;
  clientNonce ← derive "NP2 cell c2s nonce"%string 4%nat;
  serverNonce ← derive "NP2 cell s2c nonce"%string 4%nat;
  Ok (mkSessionKeys headerMap padding control clientToServer serverToClient
        clientNonce serverNonce).

Definition RespondToChallenge (config : HandshakeConfig) (challenge : Challenge)
  (requestedFeatures : Z) (random : res (list byte)) : res (Response * ClientHandshake) :=
  _ ← validateConfig config;
  if negb (ch_version challenge =? Version) || negb (features_valid (ch_features challenge))
  then Err ErrMalformedMessage
  else if negb (features_valid requestedFeatures)
          || negb (Z.ldiff requestedFeatures (ch_features challenge) =? 0)
  then Err ErrUnsupportedFeatures
  else if has_device requestedFeatures && is_zero (hc_device config)
  then Err ErrInvalidConfig
  else
    let deviceID := if has_device requestedFeatures then hc_device config
                    else zeros DeviceIDSize in
    clientNonce ← random;
    authKey ← deriveAuthKey config;
    let transcript := buildTranscript config challenge clientNonce requestedFeatures
                        deviceID in
    let tag := calculateTag authKey "NP2 response" transcript in
    keys ← deriveSessionKeys authKey transcript;
    Ok (mkResponse clientNonce requestedFeatures deviceID tag,
        mkClientHandshake (calculateTag authKey "NP2 confirm" transcript) keys).

(** The first loop of [VerifyResponseWithCredentials]: every credential must
    have an identifier and give a valid configuration. *)
Definition credential_ok (config : HandshakeConfig) (c : Credential) : bool :=
  negb ((len (cred_id c) =? 0) || (128 <? len (cred_id c))
        || negb (is_ok (validateConfig (with_root config (cred_root c))))).

(** The matching loop, with the key and identifier of the last match and the
    number of matches so far. *)
Fixpoint match_credentials (config : HandshakeConfig) (tag transcript : list byte)
  (credentials : list Credential) (matched : list byte * list byte * Z)
  : res (list byte * list byte * Z) :=
  match credentials with
  | [] => Ok matched
  | credential :: credentials' =>
      authKey ← deriveAuthKey (with_root config (cred_root credential));
      let expectedResponse := calculateTag authKey "NP2 response" transcript in
      let matched := if bytes_eq tag expectedResponse
                     then (authKey, cred_id credential, matched.2 + 1) else matched in
      match_credentials config tag transcript credentials' matched
  end.

(** The checks after the challenge has been marked used. *)
Definition verify_used (s : ServerHandshake) (response : Response) (now : Z)
  (credentials : list Credential) : res (Confirm * SessionKeys * list byte) :=
  let age := time_sub now (sh_created_at s) in
  if (age <? 0) || (MaxChallengeAge <? age) then Err ErrExpiredChallenge
  else if negb (features_valid (rs_features response))
          || negb (Z.ldiff (rs_features response) (sh_supported s) =? 0)
  then Err ErrUnsupportedFeatures
  else if has_device (rs_features response) && is_zero (rs_device response)
  then Err ErrMalformedMessage
  else
    let transcript := buildTranscript (sh_config s) (sh_challenge s) (rs_nonce response)
                        (rs_features response) (rs_device response) in
    '(matchedAuthKey, matchedID, matches) ←
      match_credentials (sh_config s) (rs_tag response) transcript credentials
        (zeros 32, [], 0);
    if matches =? 0 then Err ErrAuthentication
    else if negb (matches =? 1) then Err ErrInvalidConfig
    else
      keys ← deriveSessionKeys matchedAuthKey transcript;
      Ok (mkConfirm (calculateTag matchedAuthKey "NP2 confirm" transcript), keys, matchedID).

Definition VerifyResponseWithCredentials (s : ServerHandshake) (response : Response)
  (now : Z) (credentials : list Credential)
  : ServerHandshake * res (Confirm * SessionKeys * list byte) :=
  if (len credentials =? 0) || (MaxServerCredentials <? len credentials)
     || negb (forallb (credential_ok (sh_config s)) credentials)
  then (s, Err ErrInvalidConfig)
  else if sh_used s then (s, Err ErrChallengeUsed)
  else
    (mkServerHandshake (sh_config s) (sh_challenge s) (sh_created_at s) true
       (sh_supported s),
     verify_used s response now credentials).

Definition VerifyResponse (s : ServerHandshake) (response : Response) (now : Z)
  : ServerHandshake * res (Confirm * SessionKeys) :=
  let '(s', r) := VerifyResponseWithCredentials s response now
    [mkCredential (bytes_of "legacy") (hc_root (sh_config s))] in
  (s', '(confirm, keys, _) ← r; Ok (confirm, keys)).

End Crypto.

(** ** Forward secrecy (forward_secret.go) *)

Section ForwardSecrecy.

Context (hmac_sha256 : list byte -> list byte -> list byte).
Context (sha256 : list byte -> list byte).
Context (hkdf_key : list byte -> list byte -> list byte -> nat -> res (list byte)).

(** crypto/ecdh: private keys, [PublicKey().Bytes()], [NewPublicKey] and
    [PrivateKey.ECDH]. *)
Context (PrivateKey PublicKey : Type).
Context (public_bytes : PrivateKey -> list byte).
Context (NewPublicKey : list byte -> res PublicKey).
Context (ECDH : PrivateKey -> PublicKey -> res (list byte)).

(** A nil private key is [None]. *)
Record X25519KeyPair := mkKeyPair { kp_private : option PrivateKey; kp_public : list byte }.

Definition x25519KeyPair (private : option PrivateKey) : res X25519KeyPair :=
  match private with
  | None => Err ErrForwardSecrecy
  | Some k =>
      if negb (len (public_bytes k) =? 32) then Err ErrForwardSecrecy
      else Ok (mkKeyPair (Some k) (public_bytes k))
  end.

(** [random] is [None] for a nil reader, else the outcome of [GenerateKey]. *)
Definition GenerateX25519KeyPair (random : option (res PrivateKey)) : res X25519KeyPair :=
  match random with
  | None => Err ErrForwardSecrecy
  | Some generated =>
      private ← map_err (fun e => Join [Sentinel ErrForwardSecrecy; e]) generated;
      x25519KeyPair (Some private)
  end.

Definition Public (p : option X25519KeyPair) : list byte :=
  match p with None => zeros 32 | Some p => kp_public p end.

Definition fs_join (e : error) : error := Join [Sentinel ErrForwardSecrecy; e].

Definition DeriveForwardSecretSessionKeys (base : SessionKeys)
  (local : option X25519KeyPair) (peerPublic serverPublic clientPublic : list byte)
  : res SessionKeys :=
  match local with
  | Some (mkKeyPair (Some private) public) =>
      if is_zero (sk_control base) || is_zero peerPublic || is_zero serverPublic
         || is_zero clientPublic
         || (negb (bytes_eq public serverPublic) && negb (bytes_eq public clientPublic))
      then Err ErrForwardSecrecy
      else
        peer ← map_err fs_join (NewPublicKey peerPublic);
        shared ← map_err fs_join (ECDH private peer);
        let salt := sha256 (bytes_of "Neproto NP/2 X25519 v1" ++ [x00]
          ++ sk_control base ++ serverPublic ++ clientPublic) in
        let derive label size := map_err fs_join (hkdf_key shared salt (bytes_of label) size) in
        control ← derive "NP2 FS control"%string 32%nat;
        clientToServer ← derive "NP2 FS cell c2s"%string 32%nat;
        serverToClient ← derive "NP2 FS cell s2c"%string 32%nat;
        clientNonce ← derive "NP2 FS nonce c2s"%string 4%nat;
        serverNonce ← derive "NP2 FS nonce s2c"%string 4%nat;
        Ok (mkSessionKeys (sk_header_map base) (sk_padding base) control
              clientToServer serverToClient clientNonce serverNonce)
  | _ => Err ErrForwardSecrecy
  end.

Definition forwardSecretProof (keys : SessionKeys) (serverPublic clientPublic : list byte)
  (label : list byte) : res (list byte) :=
  if is_zero (sk_control keys) || is_zero serverPublic || is_zero clientPublic
  then Err ErrForwardSecrecy
  else Ok (hmac_sha256 (sk_control keys) (label ++ serverPublic ++ clientPublic)).

Definition ForwardSecretConfirmation (keys : SessionKeys)
  (serverPublic clientPublic : list byte) : res (list byte) :=
  forwardSecretProof keys serverPublic clientPublic
    (bytes_of "NP2 forward secrecy ready" ++ [x00]).

Definition ForwardSecretAcknowledgement (keys : SessionKeys)
  (serverPublic clientPublic : list byte) : res (list byte) :=
  forwardSecretProof keys serverPublic clientPublic
    (bytes_of "NP2 forward secrecy acknowledged" ++ [x00]).

End ForwardSecrecy.

(** ** Message codecs *)

Definition challenge_typed (c : Challenge) : Prop :=
  ch_version c = Version /\ length (ch_nonce c) = NonceSize /\
  is_u32 (ch_features c) /\ features_valid (ch_features c) = true.

(** A response that [ParseResponse] can yield: without the device feature the
    identity is the zero value. *)
Definition response_typed (r : Response) : Prop :=
  length (rs_nonce r) = NonceSize /\ length (rs_tag r) = AuthTagSize /\
  length (rs_device r) = DeviceIDSize /\ is_u32 (rs_features r) /\
  features_valid (rs_features r) = true /\
  has_device (rs_features r) = negb (is_zero (rs_device r)).

Lemma be_decode_u32 l : length l = 4%nat -> is_u32 (be_decode l).
Proof. intros Hl. pose proof (be_decode_range l). rewrite (len_nat _ _ Hl) in *. done. Qed.

Lemma be_decode_encode_u32 z : is_u32 z -> be_decode (be_encode 4 z) = z.
Proof. intros. rewrite be_decode_encode. by apply Z.mod_small. Qed.

Lemma be_encode_decode_4 l : length l = 4%nat -> be_encode 4 (be_decode l) = l.
Proof. intros <-. apply be_encode_decode. Qed.

Lemma zeros_is_zero n : is_zero (zeros n) = true.
Proof. apply is_zero_true. unfold zeros. by rewrite length_replicate. Qed.

#[export] Instance challenge_codec :
  Codec challenge_typed (fun c => Ok (MarshalChallenge c)) ParseChallenge.
Proof.
  split.
  - intros c raw (Hv & Hn & Hf & Hk) [= <-]. unfold ParseChallenge, MarshalChallenge.
    rewrite Hv, !len_app, (len_nat _ _ Hn), len_be_encode, len_cons, len_nil.
    change ((MaxAuthenticationMessageSize <? _) || _) with false. cbn [app].
    unfold byte_at. cbn [app nth].
    change (b2z (z2b Version) =? Version) with true. cbn [negb drop Nat.add].
    rewrite drop_0, !(take_app_exact _ _ _ Hn), !(drop_app_exact _ _ _ Hn).
    rewrite (take_ge _ 4) by (by rewrite length_be_encode).
    rewrite be_decode_encode_u32, Hk by done. cbn [negb]. destruct c; cbn in *. by subst.
  - intros c raw. unfold ParseChallenge. intros H. inv_res. guards.
    unfold challengeMessageSize, NonceSize, Version in *.
    destruct raw as [|b raw]; [done|]. rewrite len_cons in *. cbn [byte_at nth drop Nat.add] in *.
    unfold byte_at in *. cbn [nth] in *. rewrite drop_0 in *. zb.
    assert (Hl : length raw = 36%nat) by (unfold len in *; lia).
    assert (H4 : length (drop 32 raw) = 4%nat) by (rewrite length_drop; lia).
    rewrite (take_ge (drop 32 raw)) in * by lia. split.
    + unfold challenge_typed. cbn. split_and!; [unfold Version; lia| |by apply be_decode_u32|done].
      rewrite length_take. unfold NonceSize. lia.
    + unfold MarshalChallenge. cbn [ch_version ch_nonce ch_features].
      rewrite z2b_b2z, be_encode_decode_4, take_drop by done. done.
Qed.

Lemma len_response r :
  length (rs_nonce r) = NonceSize -> length (rs_tag r) = AuthTagSize ->
  length (rs_device r) = DeviceIDSize ->
  len (MarshalResponse r) =
    if has_device (rs_features r) then 84 else 68.
Proof.
  intros Hn Ht Hd. unfold MarshalResponse.
  rewrite !len_app, (len_nat _ _ Hn), (len_nat _ _ Ht), len_be_encode.
  destruct (has_device (rs_features r)); [rewrite (len_nat _ _ Hd)|]; reflexivity.
Qed.

Lemma parse_marshal_response r :
  response_typed r -> ParseResponse (MarshalResponse r) = Ok r.
Proof.
  intros (Hn & Ht & Hd & Hu & Hk & Hz). unfold ParseResponse.
  rewrite len_response by done.
  assert (Hf : take 4 (drop NonceSize (MarshalResponse r)) = be_encode 4 (rs_features r)).
  { unfold MarshalResponse. rewrite (drop_app_exact _ _ _ Hn).
    by rewrite take_app_exact by apply length_be_encode. }
  assert (Hr : drop (NonceSize + 4) (MarshalResponse r) =
    (if has_device (rs_features r) then rs_device r else []) ++ rs_tag r).
  { unfold MarshalResponse. rewrite <- drop_drop, (drop_app_exact _ _ _ Hn).
    by rewrite drop_app_exact by apply length_be_encode. }
  assert (Hno : take NonceSize (MarshalResponse r) = rs_nonce r).
  { unfold MarshalResponse. by rewrite (take_app_exact _ _ _ Hn). }
  rewrite Hf, Hr, Hno, be_decode_encode_u32, Hk by done. cbn [negb].
  destruct (has_device (rs_features r)).
  - change ((MaxAuthenticationMessageSize <? 84) || _) with false.
    change (negb (84 =? _)) with false.
    rewrite (take_app_exact _ _ _ Hd), (drop_app_exact _ _ _ Hd).
    symmetry in Hz. apply negb_true_iff in Hz. rewrite Hz. by destruct r.
  - change ((MaxAuthenticationMessageSize <? 68) || _) with false.
    change (negb (68 =? _)) with false. cbn [app].
    symmetry in Hz. apply negb_false_iff, is_zero_true in Hz. rewrite Hd in Hz.
    rewrite <- Hz. by destruct r.
Qed.

Lemma marshal_parse_response r raw :
  ParseResponse raw = Ok r -> response_typed r /\ MarshalResponse r = raw.
Proof.
  unfold ParseResponse. intros H.
  assert (Hsplit : raw = take 32 raw ++ take 4 (drop 32 raw) ++ drop 36 raw).
  { assert (drop 36 raw = drop 4 (drop 32 raw)) as -> by (by rewrite drop_drop).
    by rewrite !take_drop. }
  inv_res; guards; unfold responseMessageSize, NonceSize, AuthTagSize, DeviceIDSize,
    MaxAuthenticationMessageSize in *; zb; cbn [Nat.add] in *;
    set (fb := take 4 (drop 32 raw)) in *;
    assert (Hfb : length fb = 4%nat)
      by (unfold fb; rewrite length_take, length_drop; unfold len in *; lia);
    set (rest := drop 36 raw) in *;
    assert (Hrest : len rest = len raw - 36) by (unfold rest; rewrite len_drop; lia);
    unfold response_typed, MarshalResponse;
    cbn [rs_nonce rs_features rs_device rs_tag].
  - rewrite G2, G3. split.
    + split_and!; try done; try (by apply be_decode_u32);
        rewrite ?length_take, ?length_drop; unfold NonceSize, AuthTagSize, DeviceIDSize;
        unfold len in *; lia.
    + rewrite be_encode_decode_4, take_drop by done. symmetry. exact Hsplit.
  - rewrite G2. split.
    + split_and!; try done; try (by apply be_decode_u32);
        rewrite ?length_take; unfold NonceSize, AuthTagSize, len in *; lia.
    + rewrite be_encode_decode_4 by done. symmetry. exact Hsplit.
Qed.

#[export] Instance response_codec :
  Codec response_typed (fun r => Ok (MarshalResponse r)) ParseResponse.
Proof.
  split.
  - intros r raw Ht [= <-]. by apply parse_marshal_response.
  - intros r raw [Ht <-]%marshal_parse_response. done.
Qed.

#[export] Instance confirm_codec :
  Codec (fun c => length (cf_tag c) = AuthTagSize) (fun c => Ok (MarshalConfirm c))
    ParseConfirm.
Proof.
  split.
  - intros [t] raw Ht [= <-]. unfold ParseConfirm, MarshalConfirm. cbn [cf_tag] in *.
    by rewrite (len_nat _ _ Ht).
  - intros [t] raw. unfold ParseConfirm, confirmMessageSize, AuthTagSize. intros H.
    inv_res. guards. zb. injection H as ->. unfold len in *. split; [cbn; lia|done].
Qed.

(** *** Device identities *)

Lemma hex_round b :
  hex_value (hex_digit (Z.shiftr (b2z b) 4)) = Some (Z.shiftr (b2z b) 4) /\
  hex_value (hex_digit (Z.land (b2z b) 15)) = Some (Z.land (b2z b) 15) /\
  z2b (Z.lor (Z.shiftl (Z.shiftr (b2z b) 4) 4) (Z.land (b2z b) 15)) = b.
Proof. destruct b; vm_compute; done. Qed.

Lemma hex_decode_encode l rest :
  hex_decode (hex_encode l ++ rest) = (fun r => l ++ r) <$> hex_decode rest.
Proof.
  induction l as [|b l IH]; cbn; [by destruct (hex_decode rest)|].
  fold (hex_encode l). destruct (hex_round b) as (-> & -> & ->). rewrite IH.
  by destruct (hex_decode rest).
Qed.

Lemma length_hex_encode l : length (hex_encode l) = (2 * length l)%nat.
Proof. induction l as [|b l IH]; [done|]. cbn. fold (hex_encode l). rewrite IH. lia. Qed.

Lemma hex_encode_app l k : hex_encode (l ++ k) = hex_encode l ++ hex_encode k.
Proof. unfold hex_encode. apply flat_map_app. Qed.

Lemma device_text_roundtrip d text :
  length d = DeviceIDSize -> MarshalDeviceText d = Ok text ->
  len text = 36 /\ UnmarshalDeviceText text = Ok d.
Proof.
  intros Hd H. unfold MarshalDeviceText in H.
  destruct (is_zero d) eqn:Hz; [done|]. apply Ok_inj in H.
  do 17 (destruct d as [|? d]; try done). clear Hd. subst text.
  cbn [take drop]. cbn [hex_encode flat_map app]. split; [done|].
  unfold UnmarshalDeviceText. unfold byte_at, slice. cbn [nth].
  match goal with |- context [hex_decode ?c] =>
    assert (Hc : hex_decode c = Some [b; b0; b1; b2; b3; b4; b5; b6; b7; b8; b9; b10; b11; b12; b13; b14]);
      [change c with (hex_encode [b; b0; b1; b2; b3; b4; b5; b6; b7; b8; b9; b10; b11; b12; b13; b14]);
       rewrite <- (app_nil_r (hex_encode _)), hex_decode_encode; cbn [hex_decode fmap option_fmap option_map]; by rewrite app_nil_r |rewrite Hc]
  end.
  by rewrite Hz.
Qed.

(** *** Transcripts *)

(** The values that enter a transcript, as the handshake constructs them. *)
Definition transcript_typed (c : HandshakeConfig) (ch : Challenge) (nonce : list byte)
  (features : Z) (device : list byte) : Prop :=
  0 <= hc_carrier c < 256 /\ len (hc_identity c) < 2 ^ 16 /\
  length (ch_nonce ch) = NonceSize /\ length nonce = NonceSize /\
  is_u32 (ch_features ch) /\ is_u32 features /\ length device = DeviceIDSize.

Lemma app_split {A} (l l' k k' : list A) :
  length l = length k -> l ++ l' = k ++ k' -> l = k /\ l' = k'.
Proof. intros Hl E. by apply app_inj_1. Qed.

Lemma be_encode_len_inj {A} (l k : list A) :
  len l < 2 ^ 16 -> len k < 2 ^ 16 ->
  be_encode 2 (u16 (len l)) = be_encode 2 (u16 (len k)) -> length l = length k.
Proof.
  intros Hl Hk E. pose proof (len_nonneg l). pose proof (len_nonneg k).
  unfold u16 in E. rewrite !Z.mod_small in E by lia.
  apply be_encode_inj in E; cbn in *; unfold len in *; lia.
Qed.

Lemma transcript_inj c ch n f d c' ch' n' f' d' :
  transcript_typed c ch n f d -> transcript_typed c' ch' n' f' d' ->
  buildTranscript c ch n f d = buildTranscript c' ch' n' f' d' ->
  hc_carrier c = hc_carrier c' /\ hc_identity c = hc_identity c' /\
  ch_nonce ch = ch_nonce ch' /\ n = n' /\ ch_features ch = ch_features ch' /\
  f = f' /\ (has_device f = true -> d = d').
Proof.
  intros (Hc & Hi & Hs & Hn & Hg & Hf & Hd) (Hc' & Hi' & Hs' & Hn' & Hg' & Hf' & Hd').
  unfold buildTranscript. intros E.
  apply app_split in E as [E1 E]; [|done].
  assert (Ecar : hc_carrier c = hc_carrier c').
  { injection E1 as E1. apply (f_equal b2z) in E1. by rewrite !b2z_z2b_small in E1. }
  apply app_split in E as [E2 E]; [|by rewrite !length_be_encode].
  apply be_encode_len_inj in E2; [|done..].
  apply app_split in E as [E3 E]; [|done].
  apply app_split in E as [E4 E]; [|congruence].
  apply app_split in E as [E5 E]; [|congruence].
  apply app_split in E as [E6 E]; [|by rewrite !length_be_encode].
  apply app_split in E as [E7 E]; [|by rewrite !length_be_encode].
  apply be_encode_inj in E6; [|done..]. apply be_encode_inj in E7; [|done..].
  subst f'. split_and!; try done. intros Hdev. by rewrite Hdev in E.
Qed.

(** ** The handshake *)

Section Handshake.
Context (hmac : list byte -> list byte -> list byte).
Context (sha : list byte -> list byte).
Context (hkdf : list byte -> list byte -> list byte -> nat -> res (list byte)).

Abbreviation calculateTag := (calculateTag hmac).
Abbreviation deriveAuthKey := (deriveAuthKey hkdf).
Abbreviation match_credentials := (match_credentials hmac hkdf).
Abbreviation Verify := (VerifyResponseWithCredentials hmac sha hkdf).

(** A credential of the list whose response tag is [tag]. *)
Definition cred_matches (config : HandshakeConfig) (tag transcript : list byte)
  (c : Credential) : Prop :=
  exists key, deriveAuthKey (with_root config (cred_root c)) = Ok key /\
    tag = calculateTag key "NP2 response" transcript.

Lemma match_credentials_none config tag tr creds acc :
  Forall (fun c => exists key, deriveAuthKey (with_root config (cred_root c)) = Ok key /\
    tag <> calculateTag key "NP2 response" tr) creds ->
  match_credentials config tag tr creds acc = Ok acc.
Proof.
  induction creds as [|c creds IH]; intros H; [done|].
  apply Forall_cons in H as [(key & Hk & Ht) H]. cbn [Auth.match_credentials].
  rewrite Hk. cbn [mbind res_bind]. apply bytes_eq_false in Ht. rewrite Ht. by apply IH.
Qed.

Lemma match_credentials_app config tag tr l k acc :
  match_credentials config tag tr (l ++ k) acc =
    (acc' ← match_credentials config tag tr l acc; match_credentials config tag tr k acc').
Proof.
  revert acc. induction l as [|c l IH]; intros acc; [done|]. cbn [app Auth.match_credentials].
  destruct (deriveAuthKey _); [|done]. cbn [mbind res_bind]. apply IH.
Qed.

Lemma match_credentials_one config tag tr l1 c l2 key :
  Forall (fun c => exists key, deriveAuthKey (with_root config (cred_root c)) = Ok key /\
    tag <> calculateTag key "NP2 response" tr) (l1 ++ l2) ->
  deriveAuthKey (with_root config (cred_root c)) = Ok key ->
  tag = calculateTag key "NP2 response" tr ->
  match_credentials config tag tr (l1 ++ c :: l2) (zeros 32, [], 0)
  = Ok (key, cred_id c, 1).
Proof.
  intros [H1 H2]%Forall_app Hk Ht. rewrite match_credentials_app, match_credentials_none by done.
  cbn [mbind res_bind Auth.match_credentials]. rewrite Hk. cbn [mbind res_bind].
  rewrite <- Ht, bytes_eq_refl. by apply match_credentials_none.
Qed.

Lemma match_credentials_count config tag tr creds acc key id n :
  match_credentials config tag tr creds acc = Ok (key, id, n) ->
  acc.2 <= n /\
  (n = acc.2 -> acc = (key, id, n) /\
     Forall (fun c => ~ cred_matches config tag tr c) creds) /\
  (n = acc.2 + 1 -> exists l1 c l2, creds = l1 ++ c :: l2 /\ id = cred_id c /\
     deriveAuthKey (with_root config (cred_root c)) = Ok key /\
     tag = calculateTag key "NP2 response" tr /\
     Forall (fun c' => ~ cred_matches config tag tr c') (l1 ++ l2)).
Proof.
  revert acc. induction creds as [|c creds IH]; intros acc H; cbn [Auth.match_credentials] in H.
  { apply Ok_inj in H as ->. cbn. split; [lia|]. split; [done|lia]. }
  destruct (deriveAuthKey _) as [k|] eqn:Ek; [|done]. cbn [mbind res_bind] in H.
  destruct (bytes_eq tag _) eqn:Et.
  - apply bytes_eq_true in Et. apply IH in H as (Hle & Heq & _). cbn [snd] in *.
    split; [lia|]. split; [lia|]. intros Hn. destruct Heq as [[= <- <-] Hf]; [lia|].
    exists [], c, creds. done.
  - apply bytes_eq_false in Et.
    assert (Hc : ~ cred_matches config tag tr c)
      by (intros (k' & Hk' & Ht'); congruence).
    apply IH in H as (Hle & Heq & Hone). split; [done|]. split.
    + intros Hn. destruct (Heq Hn) as [-> Hf]. split; [done|]. by constructor.
    + intros Hn. destruct (Hone Hn) as (l1 & c' & l2 & -> & ? & ? & ? & Hf).
      exists (c :: l1), c', l2. split_and!; try done. by constructor.
Qed.

Lemma verify_ok s r now creds s' confirm keys id :
  Verify s r now creds = (s', Ok (confirm, keys, id)) ->
  sh_used s = false /\ sh_used s' = true /\
  0 <= time_sub now (sh_created_at s) <= MaxChallengeAge /\
  features_valid (rs_features r) = true /\
  Z.ldiff (rs_features r) (sh_supported s) = 0 /\
  (has_device (rs_features r) = true -> is_zero (rs_device r) = false) /\
  exists l1 c l2 key,
    let tr := buildTranscript (sh_config s) (sh_challenge s) (rs_nonce r)
                (rs_features r) (rs_device r) in
    creds = l1 ++ c :: l2 /\ id = cred_id c /\
    deriveAuthKey (with_root (sh_config s) (cred_root c)) = Ok key /\
    rs_tag r = calculateTag key "NP2 response" tr /\
    cf_tag confirm = calculateTag key "NP2 confirm" tr /\
    deriveSessionKeys sha hkdf key tr = Ok keys /\
    Forall (fun c' => ~ cred_matches (sh_config s) (rs_tag r) tr c') (l1 ++ l2).
Proof.
  unfold VerifyResponseWithCredentials. intros H.
  destruct (_ || _ || _); [done|]. destruct (sh_used s) eqn:Hu; [done|].
  injection H as <- H. unfold verify_used in H. inv_res. guards. zb.
  apply match_credentials_count in E as (_ & _ & Hone). cbn [snd] in Hone.
  destruct Hone as (l1 & c & l2 & -> & -> & Hk & Ht & Hf); [lia|].
  cbn [sh_used sh_created_at sh_config sh_supported cf_tag].
  split_and!; try done; try lia.
  - intros Hd. rewrite Hd in G1. by destruct (is_zero (rs_device r)).
  - eexists l1, c, l2, _. done.
Qed.

(** A used handshake answers no further response. *)
Lemma verify_used_fails s r now creds :
  sh_used s = true ->
  Verify s r now creds = (s, Err ErrInvalidConfig) \/
  Verify s r now creds = (s, Err ErrChallengeUsed).
Proof.
  intros Hu. unfold VerifyResponseWithCredentials. rewrite Hu. case_match; auto.
Qed.

(** The outcomes of a sequence of verification attempts on one challenge. *)
Fixpoint verify_attempts (s : ServerHandshake)
  (calls : list (Response * Z * list Credential)) : list bool :=
  match calls with
  | [] => []
  | (r, now, creds) :: calls' =>
      let '(s', out) := Verify s r now creds in
      is_ok out :: verify_attempts s' calls'
  end.

Lemma verify_attempts_used s calls :
  sh_used s = true -> Forall (fun b => b = false) (verify_attempts s calls).
Proof.
  induction calls as [|[[r now] creds] calls IH]; intros Hu; cbn; [constructor|].
  destruct (verify_used_fails s r now creds Hu) as [-> | ->]; constructor; auto.
Qed.

Lemma verify_attempts_once s calls :
  (length (List.filter id (verify_attempts s calls)) <= 1)%nat.
Proof.
  revert s. induction calls as [|[[r now] creds] calls IH]; intros s; cbn; [lia|].
  destruct (Verify s r now creds) as [s' [[[confirm keys] id]|e]] eqn:E; cbn; [|apply IH].
  apply verify_ok in E as (_ & Hu & _).
  pose proof (verify_attempts_used s' calls Hu) as Hf.
  induction Hf as [|b bs -> Hf IHf]; [done|exact IHf].
Qed.

Lemma buildTranscript_peer cfgS cfgC ch nonce f d :
  hc_identity cfgS = hc_identity cfgC -> hc_carrier cfgS = hc_carrier cfgC ->
  buildTranscript cfgC ch nonce f d = buildTranscript cfgS ch nonce f d.
Proof. unfold buildTranscript. by intros -> ->. Qed.

(** A client that holds the secret of exactly one listed credential and answers
    in time is accepted under that credential's identifier, and both sides end
    with the same session keys; every message crosses the wire encoded. *)
Lemma handshake_agrees cfgS cfgC supported requested t0 t1 sn cn s ch resp client
  (l1 l2 : list Credential) c :
  (forall k m, length (hmac k m) = AuthTagSize) ->
  length sn = NonceSize -> length cn = NonceSize -> length (hc_device cfgC) = DeviceIDSize ->
  is_u32 supported -> is_u32 requested ->
  hc_identity cfgS = hc_identity cfgC -> hc_carrier cfgS = hc_carrier cfgC ->
  NewServerHandshake cfgS supported t0 (Ok sn) = Ok (s, ch) ->
  (received ← ParseChallenge (MarshalChallenge ch);
   RespondToChallenge hmac sha hkdf cfgC received requested (Ok cn)) = Ok (resp, client) ->
  len (l1 ++ c :: l2) <= MaxServerCredentials ->
  forallb (credential_ok cfgS) (l1 ++ c :: l2) = true ->
  cred_root c = hc_root cfgC ->
  Forall (fun c' => exists key, deriveAuthKey (with_root cfgS (cred_root c')) = Ok key /\
    rs_tag resp <> calculateTag key "NP2 response"
      (buildTranscript cfgS ch cn requested (rs_device resp))) (l1 ++ l2) ->
  0 <= t1 - t0 <= MaxChallengeAge ->
  exists received s' confirm keys,
    ParseResponse (MarshalResponse resp) = Ok received /\
    Verify s received t1 (l1 ++ c :: l2) = (s', Ok (confirm, keys, cred_id c)) /\
    (ParseConfirm (MarshalConfirm confirm) ≫= VerifyConfirm (Some client)) = Ok keys.
Proof.
  intros Hmac Hsn Hcn Hdev Hsup Hreq Hid Hcar Hnew Hresp Hlen Hcreds Hroot Hothers Hage.
  revert Hresp Hothers. unfold NewServerHandshake in Hnew. inv_res. guards.
  set (ch := mkChallenge Version sn supported).
  assert (Hch : challenge_typed ch) by done.
  rewrite (dec_enc _ _ Hch eq_refl). cbn [mbind res_bind]. unfold RespondToChallenge.
  intros Hresp Hothers. inv_res. guards. cbn [rs_device rs_tag] in Hothers.
  set (device := if has_device requested then hc_device cfgC else zeros DeviceIDSize) in *.
  rewrite (buildTranscript_peer cfgS cfgC) in * by done.
  set (tr := buildTranscript cfgS ch cn requested device) in *.
  set (resp := mkResponse cn requested device (calculateTag a1 "NP2 response" tr)) in *.
  assert (Hdd : has_device requested = negb (is_zero device)).
  { unfold device. destruct (has_device requested); [|by rewrite zeros_is_zero].
    by destruct (is_zero (hc_device cfgC)). }
  assert (Hresp : response_typed resp).
  { split_and!; try done; [apply Hmac|]. cbn. unfold device. by case_match. }
  assert (Hk : deriveAuthKey (with_root cfgS (cred_root c)) = Ok a1)
    by (rewrite Hroot, <- E1; unfold Auth.deriveAuthKey; cbn; by rewrite Hid).
  eexists resp, _, _, a2. split; [by apply parse_marshal_response|]. split.
  - unfold VerifyResponseWithCredentials. cbn [sh_config sh_used].
    rewrite Hcreds. cbn [negb]. rewrite len_app, len_cons in *.
    pose proof (len_nonneg l1). pose proof (len_nonneg l2).
    decide_ifs. cbn [orb]. f_equal. unfold verify_used.
    cbn [sh_created_at sh_config sh_challenge sh_supported rs_features rs_device rs_nonce
      rs_tag resp].
    assert (time_sub t1 t0 = t1 - t0) as ->
      by (unfold time_sub, MaxInt64, MaxChallengeAge in *; lia).
    destruct (Z.ltb_spec (t1 - t0) 0); [lia|].
    destruct (Z.ltb_spec MaxChallengeAge (t1 - t0)); [lia|]. cbn [orb].
    rewrite H. cbn [ch_features ch] in H0. rewrite H0. cbn [negb orb].
    rewrite Hdd. destruct (is_zero device); cbn [negb andb];
      fold tr; rewrite (match_credentials_one _ _ _ _ _ _ a1) by done;
      cbn [mbind res_bind Z.eqb Pos.eqb negb]; by rewrite E2.
  - rewrite (dec_enc (mkConfirm _) _) by first [apply Hmac | done].
    cbn [mbind res_bind VerifyConfirm cf_tag ch_expected_confirm ch_keys].
    by rewrite bytes_eq_refl.
Qed.
End Handshake.

Section ForwardSecrecyAgreement.
Context (hmac : list byte -> list byte -> list byte).
Context (sha : list byte -> list byte).
Context (hkdf : list byte -> list byte -> list byte -> nat -> res (list byte)).
Context (PrivateKey PublicKey : Type) (public_bytes : PrivateKey -> list byte).
Context (NewPublicKey : list byte -> res PublicKey).
Context (ECDH : PrivateKey -> PublicKey -> res (list byte)).

Abbreviation Derive :=
  (DeriveForwardSecretSessionKeys sha hkdf PrivateKey PublicKey NewPublicKey ECDH).
Abbreviation keypair k := (x25519KeyPair PrivateKey public_bytes (Some k)).

(** Both ends of an X25519 exchange derive the same session keys, hence the
    same confirmation and acknowledgement, from a common base. *)
Lemma forward_secret_agrees base a b ka kb pa pb :
  (forall x y px py, NewPublicKey (public_bytes x) = Ok px ->
     NewPublicKey (public_bytes y) = Ok py -> ECDH x py = ECDH y px) ->
  keypair a = Ok ka -> keypair b = Ok kb ->
  NewPublicKey (public_bytes a) = Ok pa -> NewPublicKey (public_bytes b) = Ok pb ->
  let server := public_bytes a in let client := public_bytes b in
  Derive base (Some ka) client server client = Derive base (Some kb) server server client.
Proof.
  intros Hdh Ha Hb Hpa Hpb. unfold x25519KeyPair in *. inv_res.
  cbn [DeriveForwardSecretSessionKeys]. rewrite Hpa, Hpb.
  cbn [map_err mbind res_bind]. rewrite (Hdh a b pa pb) by done.
  rewrite !bytes_eq_refl. cbn [negb andb map_err]. rewrite !andb_false_r.
  destruct (is_zero (sk_control base)), (is_zero (public_bytes a)),
    (is_zero (public_bytes b)); done.
Qed.

(** The derived generation keeps the header map and padding keys of the base
    and is refused when a public share is zero. *)
Lemma forward_secret_base base local peer server client keys :
  Derive base local peer server client = Ok keys ->
  sk_header_map keys = sk_header_map base /\ sk_padding keys = sk_padding base /\
  is_zero peer = false /\ is_zero server = false /\ is_zero client = false.
Proof.
  unfold DeriveForwardSecretSessionKeys. intros H. inv_res. guards. done.
Qed.
End ForwardSecrecyAgreement.

(** ** Claims *)

(** C4: a client that holds the secret of exactly one listed credential and
    answers in time is accepted under that credential's identifier, and both
    sides end with the same session keys; every message crosses the wire in
    its encoded form. *)
Theorem handshake_agreement hmac sha hkdf cfgS cfgC supported requested t0 t1 sn cn s ch resp client
  (l1 l2 : list Credential) c :
  (forall k m, length (hmac k m) = AuthTagSize) ->
  length sn = NonceSize -> length cn = NonceSize -> length (hc_device cfgC) = DeviceIDSize ->
  is_u32 supported -> is_u32 requested ->
  hc_identity cfgS = hc_identity cfgC -> hc_carrier cfgS = hc_carrier cfgC ->
  NewServerHandshake cfgS supported t0 (Ok sn) = Ok (s, ch) ->
  (received ← ParseChallenge (MarshalChallenge ch);
   RespondToChallenge hmac sha hkdf cfgC received requested (Ok cn)) = Ok (resp, client) ->
  len (l1 ++ c :: l2) <= MaxServerCredentials ->
  forallb (credential_ok cfgS) (l1 ++ c :: l2) = true ->
  cred_root c = hc_root cfgC ->
  Forall (fun c' => exists key, deriveAuthKey hkdf (with_root cfgS (cred_root c')) = Ok key /\
    rs_tag resp <> calculateTag hmac key "NP2 response"
      (buildTranscript cfgS ch cn requested (rs_device resp))) (l1 ++ l2) ->
  0 <= t1 - t0 <= MaxChallengeAge ->
  exists received s' confirm keys,
    ParseResponse (MarshalResponse resp) = Ok received /\
    VerifyResponseWithCredentials hmac sha hkdf s received t1 (l1 ++ c :: l2)
      = (s', Ok (confirm, keys, cred_id c)) /\
    (ParseConfirm (MarshalConfirm confirm) ≫= VerifyConfirm (Some client)) = Ok keys.
Proof. apply handshake_agrees. Qed.

(** C5: a response is accepted only when the challenge is unused and fresh,
    its features were offered, and its tag is the HMAC of this transcript
    under the key of exactly one credential, whose identifier is returned;
    the confirmation and the keys are those of that credential. *)
Theorem accepted_response_authentic hmac sha hkdf s r now creds s' confirm keys id :
  VerifyResponseWithCredentials hmac sha hkdf s r now creds = (s', Ok (confirm, keys, id)) ->
  sh_used s = false /\ sh_used s' = true /\
  0 <= time_sub now (sh_created_at s) <= MaxChallengeAge /\
  Z.ldiff (rs_features r) (sh_supported s) = 0 /\
  exists l1 c l2 key,
    let tr := buildTranscript (sh_config s) (sh_challenge s) (rs_nonce r)
                (rs_features r) (rs_device r) in
    creds = l1 ++ c :: l2 /\ id = cred_id c /\
    deriveAuthKey hkdf (with_root (sh_config s) (cred_root c)) = Ok key /\
    rs_tag r = calculateTag hmac key "NP2 response" tr /\
    cf_tag confirm = calculateTag hmac key "NP2 confirm" tr /\
    deriveSessionKeys sha hkdf key tr = Ok keys /\
    Forall (fun c' => ~ cred_matches hmac hkdf (sh_config s) (rs_tag r) tr c') (l1 ++ l2).
Proof.
  intros H. apply verify_ok in H as (H1 & H2 & H3 & _ & H4 & _ & H5).
  split; [done|]. split; [done|]. split; [done|]. by split.
Qed.

(** however many responses are tried against one challenge, with any
    credentials and at any times, at most one is accepted. *)
Theorem challenge_single_use hmac sha hkdf s calls :
  (length (List.filter id (verify_attempts hmac sha hkdf s calls)) <= 1)%nat.
Proof. apply verify_attempts_once. Qed.

(** the transcript determines everything both sides must agree on, so a
    tag over it authenticates the carrier, the server identity, both nonces,
    the offered and requested features and the device. *)
Theorem transcript_injective c ch n f d c' ch' n' f' d' :
  transcript_typed c ch n f d -> transcript_typed c' ch' n' f' d' ->
  buildTranscript c ch n f d = buildTranscript c' ch' n' f' d' ->
  hc_carrier c = hc_carrier c' /\ hc_identity c = hc_identity c' /\
  ch_nonce ch = ch_nonce ch' /\ n = n' /\ ch_features ch = ch_features ch' /\
  f = f' /\ (has_device f = true -> d = d').
Proof. apply transcript_inj. Qed.

(** both ends of the forward-secret exchange derive the same generation
    of session keys, hence the same confirmation and acknowledgement. *)
Theorem forward_secret_agreement hmac sha hkdf (PrivateKey PublicKey : Type)
  (public_bytes : PrivateKey -> list byte) (NewPublicKey : list byte -> res PublicKey)
  (ECDH : PrivateKey -> PublicKey -> res (list byte)) base a b ka kb pa pb :
  (forall x y px py, NewPublicKey (public_bytes x) = Ok px ->
     NewPublicKey (public_bytes y) = Ok py -> ECDH x py = ECDH y px) ->
  x25519KeyPair PrivateKey public_bytes (Some a) = Ok ka ->
  x25519KeyPair PrivateKey public_bytes (Some b) = Ok kb ->
  NewPublicKey (public_bytes a) = Ok pa -> NewPublicKey (public_bytes b) = Ok pb ->
  let server := public_bytes a in let client := public_bytes b in
  let derive := DeriveForwardSecretSessionKeys sha hkdf PrivateKey PublicKey NewPublicKey ECDH base in
  derive (Some ka) client server client = derive (Some kb) server server client /\
  (keys ← derive (Some ka) client server client; ForwardSecretConfirmation hmac keys server client)
  = (keys ← derive (Some kb) server server client; ForwardSecretConfirmation hmac keys server client).
Proof.
  intros Hdh Ha Hb Hpa Hpb. cbn zeta.
  pose proof (forward_secret_agrees sha hkdf PrivateKey PublicKey public_bytes NewPublicKey ECDH
    base a b ka kb pa pb Hdh Ha Hb Hpa Hpb) as E. cbn zeta in E.
  split; [exact E|]. by rewrite E.
Qed.

(** ** A concrete instance of the parameters *)
Module AuthExample.

Definition hmac (k m : list byte) : list byte := take 32 (k ++ zeros 32).
Definition sha (m : list byte) : list byte := take 32 (m ++ zeros 32).
Definition hkdf (secret salt info : list byte) (size : nat) : res (list byte) :=
  Ok (take size (secret ++ zeros size)).

Lemma hmac_length k m : length (hmac k m) = AuthTagSize.
Proof. unfold hmac. rewrite length_take, length_app. unfold zeros. rewrite length_replicate. unfold AuthTagSize. lia. Qed.

Definition root : list byte := replicate 32 x09.
Definition config : HandshakeConfig := mkHandshakeConfig root [x73] 1 (zeros 16).
Definition credential : Credential := mkCredential [x61] root.
Definition server : ServerHandshake :=
  mkServerHandshake config (mkChallenge 2 (replicate 32 x01) 17) 0 false 17.
Definition answer : res (Response * ClientHandshake) :=
  RespondToChallenge hmac sha hkdf config (mkChallenge 2 (replicate 32 x01) 17) 17 (Ok (replicate 32 x02)).

Lemma handshake_agreement_witness : exists resp s' confirm keys,
  VerifyResponseWithCredentials hmac sha hkdf server resp 5 ([] ++ credential :: [])
    = (s', Ok (confirm, keys, cred_id credential)).
Proof.
  destruct answer as [[resp client]|e] eqn:E; [|vm_compute in E; discriminate E].
  destruct (handshake_agreement hmac sha hkdf config config 17 17 0 5 (replicate 32 x01) (replicate 32 x02)
    server (mkChallenge 2 (replicate 32 x01) 17) resp client [] [] credential)
    as (received & s' & confirm & keys & _ & H & _); try done.
  - apply hmac_length.
  - by exists received, s', confirm, keys.
Defined.

Lemma accepted_response_authentic_witness : exists resp s' out,
  VerifyResponseWithCredentials hmac sha hkdf server resp 5 [credential] = (s', Ok out) /\ sh_used s' = true.
Proof.
  destruct answer as [[resp client]|e] eqn:E; [|vm_compute in E; discriminate E].
  destruct (VerifyResponseWithCredentials hmac sha hkdf server resp 5 [credential])
    as [s' [[[confirm keys] id]|e]] eqn:Ev.
  - exists resp, s', (confirm, keys, id). split; [exact Ev|].
    exact (proj1 (proj2 (accepted_response_authentic hmac sha hkdf server resp 5 [credential] s' confirm keys id Ev))).
  - vm_compute in E. injection E as <- _. vm_compute in Ev. discriminate Ev.
Defined.

Lemma config_typed : transcript_typed config (mkChallenge 2 (replicate 32 x01) 17) (replicate 32 x02) 17 (zeros 16).
Proof. unfold transcript_typed, is_u32. cbn. split_and!; try lia; done. Qed.

Lemma transcript_injective_witness : replicate 32 x02 = replicate 32 x02.
Proof.
  pose proof (transcript_injective config (mkChallenge 2 (replicate 32 x01) 17) (replicate 32 x02) 17 (zeros 16)
    config (mkChallenge 2 (replicate 32 x01) 17) (replicate 32 x02) 17 (zeros 16)
    config_typed config_typed eq_refl) as (_ & _ & _ & H & _).
  exact H.
Defined.

(** A toy group: keys are byte strings, the shared secret their sum. *)
Definition public_bytes (k : list byte) : list byte := k.
Definition NewPublicKey (b : list byte) : res (list byte) := Ok b.
Definition ECDH (k p : list byte) : res (list byte) :=
  Ok (be_encode 32 (be_decode k + be_decode p)).
Definition base : SessionKeys :=
  mkSessionKeys (replicate 32 x01) (replicate 32 x02) (replicate 32 x03) (replicate 32 x04)
    (replicate 32 x05) (replicate 4 x06) (replicate 4 x07).

Lemma forward_secret_agreement_witness :
  DeriveForwardSecretSessionKeys sha hkdf _ _ NewPublicKey ECDH base
    (Some (mkKeyPair _ (Some (replicate 32 x0a)) (replicate 32 x0a))) (replicate 32 x0b)
    (replicate 32 x0a) (replicate 32 x0b)
  = DeriveForwardSecretSessionKeys sha hkdf _ _ NewPublicKey ECDH base
    (Some (mkKeyPair _ (Some (replicate 32 x0b)) (replicate 32 x0b))) (replicate 32 x0a)
    (replicate 32 x0a) (replicate 32 x0b).
Proof.
  refine (proj1 (forward_secret_agreement hmac sha hkdf _ _ public_bytes NewPublicKey ECDH base
    (replicate 32 x0a) (replicate 32 x0b) _ _ (replicate 32 x0a) (replicate 32 x0b) _ eq_refl eq_refl eq_refl eq_refl)).
  intros x y px py [= <-] [= <-]. unfold ECDH, public_bytes. by rewrite Z.add_comm.
Defined.
End AuthExample.
