(* ===== verification/Stream.v ===== *)
(** * One multiplexed stream (internal/session/stream.go)

    The state of a [Stream] and its critical sections: what each method does
    between taking [s.mu] and releasing it, with the cell it hands to
    [mux.send].  The details joined to [ErrProtocol] are not modelled.  A
    writer holds [sendMu] from the choice of a sequence number to the end of
    [mux.send], so a section and the send of its cell are one step for every
    other sender. *)
From stdpp Require Import prelude list.
From S2P Require Import Prelude Varint Cell.

(** session.go: the roles. *)
Definition RoleClient : Z := 1.
Definition RoleServer : Z := 2.

Definition MaxInitialWindow : Z := 16 * 1024 * 1024.
Definition windowUpdateDivisor : Z := 8.
Definition maxWindowUpdateThreshold : Z := 256 * 1024.

(** [s_open]: what [completeOpen] delivered, once. *)
Record Stream := mkStream {
  s_id : Z;
  s_sendSeq : Z;
  s_recvSeq : Z;
  s_sendWindow : Z;
  s_sendCredit : Z;
  s_recvCredit : Z;
  s_pending : Z;
  s_chunks : list (list byte);
  s_chunkStart : Z;
  s_peerFIN : bool;
  s_localFIN : bool;
  s_readErr : option error;
  s_writeErr : option error;
  s_resetSent : bool;
  s_open : option (option error)
}.

Definition newStream (id sendCredit recvCredit : Z) (opening : bool) : Stream :=
  mkStream id 1 0 sendCredit sendCredit recvCredit 0 [] 0 false false None None false
    (if opening then None else Some None).

(** The setters of the sections below. *)
Definition set_sendSeq (s : Stream) (n : Z) : Stream :=
  mkStream (s_id s) n (s_recvSeq s) (s_sendWindow s) (s_sendCredit s) (s_recvCredit s) (s_pending s)
    (s_chunks s) (s_chunkStart s) (s_peerFIN s) (s_localFIN s) (s_readErr s) (s_writeErr s)
    (s_resetSent s) (s_open s).
Definition set_recvSeq (s : Stream) (n : Z) : Stream :=
  mkStream (s_id s) (s_sendSeq s) n (s_sendWindow s) (s_sendCredit s) (s_recvCredit s) (s_pending s)
    (s_chunks s) (s_chunkStart s) (s_peerFIN s) (s_localFIN s) (s_readErr s) (s_writeErr s)
    (s_resetSent s) (s_open s).
Definition set_send (s : Stream) (window credit : Z) : Stream :=
  mkStream (s_id s) (s_sendSeq s) (s_recvSeq s) window credit (s_recvCredit s) (s_pending s)
    (s_chunks s) (s_chunkStart s) (s_peerFIN s) (s_localFIN s) (s_readErr s) (s_writeErr s)
    (s_resetSent s) (s_open s).
Definition set_recv (s : Stream) (credit pending : Z) (chunks : list (list byte)) (start : Z) : Stream :=
  mkStream (s_id s) (s_sendSeq s) (s_recvSeq s) (s_sendWindow s) (s_sendCredit s) credit pending
    chunks start (s_peerFIN s) (s_localFIN s) (s_readErr s) (s_writeErr s)
    (s_resetSent s) (s_open s).
Definition set_fins (s : Stream) (peer local : bool) : Stream :=
  mkStream (s_id s) (s_sendSeq s) (s_recvSeq s) (s_sendWindow s) (s_sendCredit s) (s_recvCredit s)
    (s_pending s) (s_chunks s) (s_chunkStart s) peer local (s_readErr s) (s_writeErr s)
    (s_resetSent s) (s_open s).
Definition set_errs (s : Stream) (r w : option error) : Stream :=
  mkStream (s_id s) (s_sendSeq s) (s_recvSeq s) (s_sendWindow s) (s_sendCredit s) (s_recvCredit s)
    (s_pending s) (s_chunks s) (s_chunkStart s) (s_peerFIN s) (s_localFIN s) r w
    (s_resetSent s) (s_open s).
Definition set_resetSent (s : Stream) : Stream :=
  mkStream (s_id s) (s_sendSeq s) (s_recvSeq s) (s_sendWindow s) (s_sendCredit s) (s_recvCredit s)
    (s_pending s) (s_chunks s) (s_chunkStart s) (s_peerFIN s) (s_localFIN s) (s_readErr s)
    (s_writeErr s) true (s_open s).

(** [openOnce]: only the first result is delivered. *)
Definition completeOpen (s : Stream) (e : option error) : Stream :=
  mkStream (s_id s) (s_sendSeq s) (s_recvSeq s) (s_sendWindow s) (s_sendCredit s) (s_recvCredit s)
    (s_pending s) (s_chunks s) (s_chunkStart s) (s_peerFIN s) (s_localFIN s) (s_readErr s)
    (s_writeErr s) (s_resetSent s) (match s_open s with None => Some e | r => r end).

Definition or_else (e : option error) (d : error) : option error :=
  match e with None => Some d | _ => e end.

Definition fail (s : Stream) (e : error) : Stream :=
  completeOpen (set_errs s (or_else (s_readErr s) e) (or_else (s_writeErr s) e)) (Some e).

(** [nextSendSequenceLocked]. *)
Definition nextSendSequence (s : Stream) : Stream * res Z :=
  if MaxSequence <? s_sendSeq s then (s, Err ErrProtocol)
  else (set_sendSeq s (s_sendSeq s + 1), Ok (s_sendSeq s)).

Definition windowUpdateThreshold (window : Z) : Z :=
  if window =? 0 then 0
  else
    let threshold := window / windowUpdateDivisor in
    let threshold := if threshold =? 0 then 1 else threshold in
    Z.min (Z.min threshold maxWindowUpdateThreshold) window.

(** session.go: parseCredit. *)
Definition parseCredit (payload : list byte) : res Z :=
  match session_readCanonicalUvarint payload with
  | Err _ => Err ErrProtocol
  | Ok (credit, consumed) =>
      if negb (consumed =? len payload) || (credit =? 0) || (MaxInt64 <? credit)
      then Err ErrProtocol else Ok credit
  end.

Section Sections.
(** [mux.initialWindow]. *)
Variable window : Z.

Definition canRetire (s : Stream) : bool :=
  s_localFIN s && s_peerFIN s && (len (s_chunks s) =? 0) && (0 <? s_sendWindow s)
  && (s_sendCredit s =? s_sendWindow s) && (s_recvCredit s =? window) && (s_pending s =? 0).

Definition takePendingCredit (s : Stream) (force : bool) : Stream * Z :=
  if (s_pending s =? 0) || (negb force && (s_pending s <? windowUpdateThreshold window))
  then (s, 0)
  else (set_recv s (u64 (s_recvCredit s + s_pending s)) 0 (s_chunks s) (s_chunkStart s), s_pending s).

(** One round of [Read] with a destination of [room] bytes: the bytes copied
    and the credit to announce, an error, the end of the stream with the
    credit to announce, or nothing to do yet. *)
Inductive read_result :=
| ReadData (s : Stream) (bytes : list byte) (credit : Z)
| ReadError (e : error)
| ReadEOF (s : Stream) (credit : Z)
| ReadWait.

Definition read_section (s : Stream) (room : Z) : read_result :=
  match s_chunks s with
  | chunk :: chunks =>
      let bytes := take (Z.to_nat room) (drop (Z.to_nat (s_chunkStart s)) chunk) in
      let start := s_chunkStart s + len bytes in
      let done := start =? len chunk in
      let s1 := set_recv s (s_recvCredit s) (u64 (s_pending s + len bytes))
                  (if done then chunks else chunk :: chunks) (if done then 0 else start) in
      let '(s2, credit) := takePendingCredit s1
        ((s_recvCredit s1 =? 0) || (s_peerFIN s1 && (len (s_chunks s1) =? 0))) in
      ReadData s2 bytes credit
  | [] =>
      match s_readErr s with
      | Some e => ReadError e
      | None =>
          if s_peerFIN s then let '(s1, credit) := takePendingCredit s true in ReadEOF s1 credit
          else ReadWait
      end
  end.

(** [sendWindowUpdate] of a non-zero credit: the cell to send. *)
Definition window_update (s : Stream) (credit : Z) : Stream * res Cell :=
  match s_writeErr s with
  | Some e => (s, Err e)
  | None =>
      match nextSendSequence s with
      | (s, Err e) => (s, Err e)
      | (s, Ok sequence) => (s, Ok (mkCell CellWindowUpdate (s_id s) sequence (put_uvarint credit) []))
      end
  end.

(** One round of [Write] with the rest of the payload: wait for credit, stop
    with an error, or send a cell.  The two critical sections of the code
    (waiting for credit; then reserving it under [sendMu]) are one here: only
    this goroutine, which holds [writeMu], takes credit in between. *)
Inductive write_result :=
| WriteWait
| WriteError (e : error)
| WriteFail (s : Stream) (e : error)
| WriteSend (s : Stream) (cell : Cell).

Definition write_section (s : Stream) (rest : list byte) : write_result :=
  match s_writeErr s with
  | Some e => WriteError e
  | None =>
      if s_localFIN s then WriteError ErrClosedPipe
      else if s_sendCredit s =? 0 then WriteWait
      else
        let length := Z.min (Z.min (len rest) (s_sendCredit s)) MaxCellPayloadSize in
        let s := set_send s (s_sendWindow s) (s_sendCredit s - length) in
        match nextSendSequence s with
        | (s, Err e) => WriteFail (fail s e) e
        | (s, Ok sequence) =>
            WriteSend s (mkCell CellData (s_id s) sequence (take (Z.to_nat length) rest) [])
        end
  end.

(** [CloseWrite]: nothing to send, or the FIN. *)
Definition close_write (s : Stream) : Stream * res (option Cell) :=
  match s_writeErr s with
  | Some e => (s, Err e)
  | None =>
      if s_localFIN s then (s, Ok None)
      else
        let s := set_fins s (s_peerFIN s) true in
        match nextSendSequence s with
        | (s, Err e) => (s, Err e)
        | (s, Ok sequence) => (s, Ok (Some (mkCell CellFin (s_id s) sequence [] [])))
        end
  end.

(** [sendReset]. *)
Definition send_reset (s : Stream) (code : byte) : Stream * res (option Cell) :=
  if s_resetSent s then (s, Ok None)
  else
    match s_writeErr s with
    | Some e =>
        if negb (errors_is e ErrProtocol) && negb (errors_is e ErrClosed) then (s, Err e)
        else
          match nextSendSequence (set_resetSent s) with
          | (s, Err e) => (s, Err e)
          | (s, Ok sequence) => (s, Ok (Some (mkCell CellReset (s_id s) sequence [code] [])))
          end
    | None =>
        match nextSendSequence (set_resetSent s) with
        | (s, Err e) => (s, Err e)
        | (s, Ok sequence) => (s, Ok (Some (mkCell CellReset (s_id s) sequence [code] [])))
        end
    end.

(** The first critical section of [Close]: [inl retire] when both directions
    ended, else the stream to reset and remove. *)
Definition close_section (s : Stream) : bool + Stream :=
  if s_localFIN s && s_peerFIN s && (len (s_chunks s) =? 0) then inl (canRetire s)
  else inr (set_errs s (or_else (s_readErr s) ErrClosed) (or_else (s_writeErr s) ErrClosed)).

(** [handleCell]: the stream afterwards and the error; the deferred check of
    [canRetire] is made by the caller. *)
Definition handle_open (s : Stream) (cell : Cell) : Stream * res unit :=
  if negb (s_recvSeq s =? 0) || negb (Sequence cell =? 0) then (s, Err ErrProtocol)
  else
    let s := set_recvSeq s 1 in
    match Kind cell with
    | CellOpenFail =>
        match Payload cell with
        | [code] => (completeOpen s (Some (RejectError code)), Ok tt)
        | _ => (s, Err ErrProtocol)
        end
    | _ =>
        match parseCredit (Payload cell) with
        | Err _ => (s, Err ErrProtocol)
        | Ok credit =>
            if MaxInitialWindow <? credit then (s, Err ErrProtocol)
            else (completeOpen (set_send s credit credit) None, Ok tt)
        end
    end.

Definition handle_data (s : Stream) (cell : Cell) : Stream * res unit :=
  match Kind cell with
  | CellData =>
      if s_peerFIN s || (s_recvCredit s <? len (Payload cell)) then (s, Err ErrProtocol)
      else (set_recv s (s_recvCredit s - len (Payload cell)) (s_pending s)
              (if len (Payload cell) =? 0 then s_chunks s else s_chunks s ++ [Payload cell])
              (s_chunkStart s), Ok tt)
  | CellFin =>
      if negb (len (Payload cell) =? 0) || s_peerFIN s then (s, Err ErrProtocol)
      else (set_fins s true (s_localFIN s), Ok tt)
  | CellReset =>
      if 1 <? len (Payload cell) then (s, Err ErrProtocol)
      else (set_errs s (Some (Sentinel ErrReset)) (Some (Sentinel ErrReset)), Ok tt)
  | CellWindowUpdate =>
      match parseCredit (Payload cell) with
      | Err _ => (s, Err ErrProtocol)
      | Ok credit =>
          if (s_sendWindow s <? credit) || (MaxUint64 - credit <? s_sendCredit s)
             || (s_sendWindow s <? u64 (s_sendCredit s + credit))
          then (s, Err ErrProtocol)
          else (set_send s (s_sendWindow s) (s_sendCredit s + credit), Ok tt)
      end
  | _ => (s, Err ErrProtocol)
  end.

Definition handleCell (s : Stream) (cell : Cell) : Stream * res unit :=
  match Kind cell with
  | CellOpenOK | CellOpenFail => handle_open s cell
  | _ =>
      if negb (Sequence cell =? s_recvSeq s) then (s, Err ErrProtocol)
      else if s_recvSeq s =? MaxSequence then (s, Err ErrProtocol)
      else handle_data (set_recvSeq s (s_recvSeq s + 1)) cell
  end.
End Sections.

(** ** Credit payloads *)

Lemma parseCredit_put n : 0 < n <= MaxInt64 -> parseCredit (put_uvarint n) = Ok n.
Proof.
  intros Hn. unfold parseCredit.
  pose proof (readCanonicalUvarint_put n []) as E. rewrite app_nil_r in E.
  apply session_reader_ok in E; [|unfold is_u64, MaxInt64 in *; lia].
  rewrite E, Z.eqb_refl. cbn [negb orb].
  rewrite (proj2 (Z.eqb_neq _ _)), (proj2 (Z.ltb_ge _ _)) by lia. done.
Qed.

Lemma windowUpdateThreshold_bounds w : 0 < w -> 0 < windowUpdateThreshold w <= w.
Proof.
  intros. unfold windowUpdateThreshold, windowUpdateDivisor, maxWindowUpdateThreshold.
  rewrite (proj2 (Z.eqb_neq _ _)) by lia. pose proof (Z.div_pos w 8 ltac:(lia) ltac:(lia)).
  destruct (Z.eqb_spec (w / 8) 0); lia.
Qed.
