(* ===== verification/StreamLink.v ===== *)
(** * Two endpoints of a stream

    The stream of [Stream] at both ends of a reliable FIFO carrier (the
    session's record layer authenticates and orders the cells, see [Record]).
    A step is one critical section of one endpoint; cells travel in two
    queues.  [removed] says that the multiplexer dropped the stream, after
    which [Mux.handleCell] ignores its cells. *)
From stdpp Require Import prelude list.
From S2P Require Import Prelude Varint Cell Stream.

(** [sd_owed]: credits taken by [Read] whose WINDOW_UPDATE is not yet sent;
    [sd_retired]: removed because [canRetire] held; [sd_written], [sd_read]:
    what the application wrote and read (ghost). *)
Record side := mkSide {
  sd_s : Stream;
  sd_window : Z;
  sd_owed : list Z;
  sd_removed : bool;
  sd_retired : bool;
  sd_written : list byte;
  sd_read : list byte
}.

Definition set_stream (x : side) (s : Stream) : side :=
  mkSide s (sd_window x) (sd_owed x) (sd_removed x) (sd_retired x) (sd_written x) (sd_read x).
Definition set_owed (x : side) (o : list Z) : side :=
  mkSide (sd_s x) (sd_window x) o (sd_removed x) (sd_retired x) (sd_written x) (sd_read x).
(** [removeStream]: nothing when the stream is no longer registered. *)
Definition remove (x : side) (retired : bool) : side :=
  if sd_removed x then x
  else mkSide (sd_s x) (sd_window x) (sd_owed x) true (sd_retired x || retired) (sd_written x) (sd_read x).
Definition wrote (x : side) (bs : list byte) : side :=
  mkSide (sd_s x) (sd_window x) (sd_owed x) (sd_removed x) (sd_retired x) (sd_written x ++ bs) (sd_read x).
Definition did_read (x : side) (bs : list byte) : side :=
  mkSide (sd_s x) (sd_window x) (sd_owed x) (sd_removed x) (sd_retired x) (sd_written x) (sd_read x ++ bs).

Definition owe (x : side) (credit : Z) : side :=
  if credit =? 0 then x else set_owed x (sd_owed x ++ [credit]).

Definition opt_list {A} (o : option A) : list A := match o with Some a => [a] | None => [] end.

(** One critical section of the endpoint [x]: the endpoint afterwards, the
    cells it put on its outgoing queue, and whether it took the head of its
    incoming queue [q]. *)
Inductive act : side -> list Cell -> side -> list Cell -> list Cell -> Prop :=
| act_write x q rest s cell :
    rest <> [] -> write_section (sd_s x) rest = WriteSend s cell ->
    act x q (wrote (set_stream x s) (Payload cell)) [cell] q
| act_write_fail x q rest s e :
    write_section (sd_s x) rest = WriteFail s e -> act x q (set_stream x s) [] q
| act_read x q room s bytes credit :
    0 < room -> read_section (sd_window x) (sd_s x) room = ReadData s bytes credit ->
    act x q (owe (did_read (set_stream x s) bytes) credit) [] q
| act_read_eof x q room s credit :
    0 < room -> read_section (sd_window x) (sd_s x) room = ReadEOF s credit ->
    act x q (owe (set_stream x s) credit) [] q
| act_grant x q o1 credit o2 s cell :
    sd_owed x = o1 ++ credit :: o2 -> window_update (sd_s x) credit = (s, Ok cell) ->
    act x q (set_owed (set_stream x s) (o1 ++ o2)) [cell] q
| act_grant_err x q o1 credit o2 s e :
    sd_owed x = o1 ++ credit :: o2 -> window_update (sd_s x) credit = (s, Err e) ->
    act x q (set_owed (set_stream x s) (o1 ++ o2)) [] q
| act_close_write x q s cell :
    close_write (sd_s x) = (s, Ok cell) -> act x q (set_stream x s) (opt_list cell) q
| act_close_write_err x q s e :
    close_write (sd_s x) = (s, Err e) -> act x q (set_stream x s) [] q
| act_close_graceful x q retire :
    close_section (sd_window x) (sd_s x) = inl retire ->
    act x q (if retire then remove x true else x) [] q
| act_close x q s s' o :
    close_section (sd_window x) (sd_s x) = inr s -> send_reset s x00 = (s', o) ->
    act x q (remove (set_stream x s') false) match o with Ok c => opt_list c | Err _ => [] end q
| act_retire x q :
    canRetire (sd_window x) (sd_s x) = true -> act x q (remove x true) [] q
| act_abort x q s' o e :
    (* an Open given up: sendReset(1), fail, removeStream *)
    send_reset (sd_s x) x01 = (s', o) ->
    act x q (remove (set_stream x (fail s' e)) false) match o with Ok c => opt_list c | Err _ => [] end q
| act_session_end x q e :
    act x q (set_stream x (fail (sd_s x) e)) [] q
| act_ignore x q cell :
    sd_removed x = true -> act x (cell :: q) x [] q
| act_receive x q cell s :
    sd_removed x = false -> handleCell (sd_s x) cell = (s, Ok tt) ->
    let x' := set_stream x s in
    act x (cell :: q)
      (if bool_decide (Kind cell = CellReset) then remove x' false
       else if canRetire (sd_window x) s then remove x' true else x') [] q
| act_violation x q cell s e s' o :
    (* the stream fails, is reset with code 2 and removed *)
    sd_removed x = false -> handleCell (sd_s x) cell = (s, Err e) ->
    send_reset (fail s e) x02 = (s', o) ->
    act x (cell :: q) (remove (set_stream x s') false)
      match o with Ok c => opt_list c | Err _ => [] end q.

(** Both endpoints and the two queues: [lk_ab] from [lk_a] to [lk_b]. *)
Record link := mkLink { lk_a : side; lk_b : side; lk_ab : list Cell; lk_ba : list Cell }.

Inductive link_step : link -> link -> Prop :=
| step_a a b ab ba a' out ba' :
    act a ba a' out ba' -> link_step (mkLink a b ab ba) (mkLink a' b (ab ++ out) ba')
| step_b a b ab ba b' out ab' :
    act b ab b' out ab' -> link_step (mkLink a b ab ba) (mkLink a b' ab' (ba ++ out)).

(** The link when the acceptor has taken the OPEN of window [wa] and sent
    its OPEN_OK of window [wb]. *)
Definition opened (id wa wb : Z) : link :=
  mkLink
    (mkSide (newStream id 0 wa true) wa [] false false [] [])
    (mkSide (set_recvSeq (newStream id wa wb false) 1) wb [] false false [] [])
    [] [mkCell CellOpenOK id 0 (put_uvarint wb) []].

Inductive link_reachable (l0 : link) : link -> Prop :=
| link_refl : link_reachable l0 l0
| link_more l l' : link_reachable l0 l -> link_step l l' -> link_reachable l0 l'.

(** ** The invariant of one direction

    [x] sends to [y] through [q]; [r] carries [y]'s cells to [x]. *)

Definition credit_of (c : Cell) : Z :=
  match Kind c with
  | CellWindowUpdate | CellOpenOK => match parseCredit (Payload c) with Ok n => n | Err _ => 0 end
  | _ => 0
  end.
Definition data_of (c : Cell) : list byte :=
  match Kind c with CellData => Payload c | _ => [] end.

Definition zsum (l : list Z) : Z := fold_right Z.add 0 l.
Arguments zsum : simpl never.
Definition credits (q : list Cell) : Z := zsum (map credit_of q).
Definition data (q : list Cell) : list byte := concat (map data_of q).

(** The bytes received and not read. *)
Definition buffered (s : Stream) : list byte := drop (Z.to_nat (s_chunkStart s)) (concat (s_chunks s)).

(** The shapes of cells the code sends on an open stream. *)
Definition cell_ok (c : Cell) : Prop :=
  match Kind c with
  | CellData => True
  | CellFin => Payload c = []
  | CellReset => len (Payload c) = 1
  | CellWindowUpdate => exists n, 0 < n <= MaxInitialWindow /\ Payload c = put_uvarint n
  | _ => False
  end.

Fixpoint seq_from (n : Z) (q : list Cell) : Prop :=
  match q with [] => True | c :: q => Sequence c = n /\ seq_from (n + 1) q end.

(** No DATA or FIN after a FIN; [None] when violated, else whether a FIN has
    been seen. *)
Fixpoint fin_after (fin : bool) (q : list Cell) : option bool :=
  match q with
  | [] => Some fin
  | c :: q =>
      match Kind c with
      | CellData => if fin then None else fin_after fin q
      | CellFin => if fin then None else fin_after true q
      | _ => fin_after fin q
      end
  end.

Definition send_credit (x : side) : Z := if sd_removed x then 0 else s_sendCredit (sd_s x).

(** The chunk list of a stream. *)
Definition chunks_ok (s : Stream) : Prop :=
  Forall (fun c => c <> []) (s_chunks s) /\
  match s_chunks s with
  | [] => s_chunkStart s = 0
  | c :: _ => 0 <= s_chunkStart s < len c
  end.

Record receiver_inv (y : side) : Prop := {
  r_window : 0 < sd_window y <= MaxInitialWindow;
  r_chunks : chunks_ok (sd_s y);
  r_pending : 0 <= s_pending (sd_s y);
  r_balance : s_recvCredit (sd_s y) + len (buffered (sd_s y)) + s_pending (sd_s y) = sd_window y;
  r_recv : 0 <= s_recvCredit (sd_s y);
  r_owed : Forall (fun n => 0 < n <= MaxInitialWindow) (sd_owed y);
  (* a pending credit below the threshold is kept back only while some of the
     window is still open *)
  r_threshold : s_pending (sd_s y) = 0 \/ s_pending (sd_s y) < windowUpdateThreshold (sd_window y)
}.

Record sender_inv (x : side) : Prop := {
  x_credit : 0 <= s_sendCredit (sd_s x);
  x_removed : sd_removed x = true -> s_writeErr (sd_s x) <> None \/ s_localFIN (sd_s x) = true;
  x_reset : s_resetSent (sd_s x) = true -> sd_removed x = true
}.

(** Cells towards an endpoint that still expects its OPEN_OK start with it. *)
Definition cells_ok (y : side) (window : Z) (q : list Cell) : Prop :=
  if s_recvSeq (sd_s y) =? 0
  then exists c q', q = c :: q' /\ Kind c = CellOpenOK /\ Payload c = put_uvarint window /\ Forall cell_ok q'
  else Forall cell_ok q.

Record dir (x y : side) (q r : list Cell) : Prop := {
  d_recv : receiver_inv y;
  d_send : sender_inv x;
  d_cells : sd_removed y = false -> cells_ok y (sd_window x) q;
  d_total : send_credit x + len (data q) + len (buffered (sd_s y)) + s_pending (sd_s y)
            + zsum (sd_owed y) + credits r <= sd_window y;
  d_exact : sd_removed x = false -> sd_removed y = false ->
            s_writeErr (sd_s x) = None -> s_writeErr (sd_s y) = None ->
            s_sendSeq (sd_s y) <= MaxSequence ->
            s_sendCredit (sd_s x) + len (data q) + len (buffered (sd_s y)) + s_pending (sd_s y)
            + zsum (sd_owed y) + credits r = sd_window y;
  d_opened : if s_recvSeq (sd_s x) =? 0
             then s_sendCredit (sd_s x) = 0 /\ s_sendWindow (sd_s x) = 0
             else s_sendWindow (sd_s x) = sd_window y;
  d_seq : sd_removed y = false ->
          0 <= s_recvSeq (sd_s y) /\ seq_from (s_recvSeq (sd_s y)) q /\
          s_recvSeq (sd_s y) + len q = s_sendSeq (sd_s x);
  d_fin : sd_removed y = false -> exists f, fin_after (s_peerFIN (sd_s y)) q = Some f /\
          (f = true -> s_localFIN (sd_s x) = true);
  d_data : exists rest, sd_read y ++ buffered (sd_s y) ++ rest = sd_written x /\
           (sd_removed y = false -> rest = data q) /\
           (s_peerFIN (sd_s y) = true -> rest = [] /\ s_localFIN (sd_s x) = true);
  d_retired : sd_retired y = true -> sd_removed y = true /\
              Forall (fun c => Kind c = CellReset) q /\ sd_owed x = [] /\
              s_chunks (sd_s x) = [] /\ s_pending (sd_s x) = 0 /\ data r = [] /\
              s_localFIN (sd_s x) = true
}.

(** *** Lists of cells *)

Lemma zsum_app l k : zsum (l ++ k) = zsum l + zsum k.
Proof. unfold zsum. induction l as [|n l IH]; cbn; lia. Qed.

Lemma credits_app q k : credits (q ++ k) = credits q + credits k.
Proof. unfold credits. by rewrite map_app, zsum_app. Qed.

Lemma data_app q k : data (q ++ k) = data q ++ data k.
Proof. unfold data. by rewrite map_app, concat_app. Qed.

Lemma parseCredit_pos p n : parseCredit p = Ok n -> 0 < n.
Proof.
  unfold parseCredit. destruct (session_readCanonicalUvarint p) as [[c k]|] eqn:E; [|done].
  apply session_reader_ok, readCanonicalUvarint_inv in E as (Hc & _).
  destruct (_ || _) eqn:G; [done|]. intros [= <-]. guards. zb. unfold is_u64 in Hc. lia.
Qed.

Lemma credit_of_nonneg c : 0 <= credit_of c.
Proof.
  unfold credit_of. destruct (Kind c); try lia;
    destruct (parseCredit _) eqn:E; try lia; apply parseCredit_pos in E; lia.
Qed.

Lemma credits_nonneg q : 0 <= credits q.
Proof.
  unfold credits, zsum. induction q as [|c q IH]; cbn; [lia|].
  pose proof (credit_of_nonneg c). lia.
Qed.

Lemma credits_cons c q : credits (c :: q) = credit_of c + credits q.
Proof. done. Qed.

Lemma data_cons c q : data (c :: q) = data_of c ++ data q.
Proof. done. Qed.

Lemma owed_nonneg (o : list Z) : Forall (fun n => 0 < n <= MaxInitialWindow) o -> 0 <= zsum o.
Proof. induction 1; unfold zsum in *; cbn in *; lia. Qed.

Lemma owed_zero (o : list Z) :
  Forall (fun n => 0 < n <= MaxInitialWindow) o -> zsum o <= 0 -> o = [].
Proof.
  destruct 1 as [|n o Hn Ho]; [done|]. intros H. apply owed_nonneg in Ho.
  unfold zsum in *. cbn in H. lia.
Qed.

Lemma seq_from_app n q k : seq_from n (q ++ k) <-> seq_from n q /\ seq_from (n + len q) k.
Proof.
  revert n. induction q as [|c q IH]; intros n; cbn [app seq_from].
  - rewrite Z.add_0_r. tauto.
  - rewrite IH, len_cons. replace (n + 1 + len q) with (n + (1 + len q)) by lia. tauto.
Qed.

Lemma fin_after_app f q k :
  fin_after f (q ++ k) = match fin_after f q with Some f' => fin_after f' k | None => None end.
Proof.
  revert f. induction q as [|c q IH]; intros f; cbn [app fin_after]; [done|].
  destruct (Kind c), f; done.
Qed.

(** After a FIN only RESET and WINDOW_UPDATE follow. *)
Lemma fin_after_true q f : fin_after true q = Some f -> f = true /\ data q = [].
Proof.
  revert f. induction q as [|c q IH]; intros f; cbn [fin_after]; [by intros [= <-]|].
  rewrite data_cons. unfold data_of. destruct (Kind c); try done; apply IH.
Qed.

Lemma buffered_nil s : s_chunks s = [] -> buffered s = [].
Proof. unfold buffered. intros ->. apply drop_nil. Qed.

Lemma buffered_chunks s : chunks_ok s -> buffered s = [] -> s_chunks s = [].
Proof.
  unfold chunks_ok, buffered. intros [Hne Hst] H. destruct (s_chunks s) as [|c cs]; [done|].
  assert (E : len (drop (Z.to_nat (s_chunkStart s)) (concat (c :: cs))) = 0) by (by rewrite H).
  rewrite len_drop in E. cbn [concat] in E. rewrite len_app in E.
  pose proof (len_nonneg (concat cs)). lia.
Qed.

(** *** The sections, by what they do to the counters *)

Lemma nextSendSequence_cases s :
  (exists n, nextSendSequence s = (set_sendSeq s (n + 1), Ok n) /\ n = s_sendSeq s /\ n <= MaxSequence) \/
  (nextSendSequence s = (s, Err ErrProtocol) /\ MaxSequence < s_sendSeq s).
Proof. unfold nextSendSequence. destruct (Z.ltb_spec MaxSequence (s_sendSeq s)); [right|left]; eauto. Qed.

Lemma write_section_send s rest s' cell :
  rest <> [] -> 0 <= s_sendCredit s -> write_section s rest = WriteSend s' cell ->
  let n := len (Payload cell) in
  s_writeErr s = None /\ s_localFIN s = false /\ 0 < n <= s_sendCredit s /\
  s' = set_sendSeq (set_send s (s_sendWindow s) (s_sendCredit s - n)) (s_sendSeq s + 1) /\
  Kind cell = CellData /\ Sequence cell = s_sendSeq s /\ (exists k, Payload cell = take k rest) /\
  n <= MaxCellPayloadSize.
Proof.
  intros Hr Hc. unfold write_section. destruct (s_writeErr s); [done|].
  destruct (s_localFIN s); [done|]. destruct (Z.eqb_spec (s_sendCredit s) 0); [done|].
  set (m := Z.min _ _).
  assert (Hl : 0 < len rest) by (destruct rest; [done|]; rewrite len_cons; pose proof (len_nonneg rest); lia).
  assert (Hn : 0 < m <= len rest /\ m <= s_sendCredit s /\ m <= MaxCellPayloadSize)
    by (unfold m, MaxCellPayloadSize; lia).
  unfold nextSendSequence. cbn. destruct (_ <? _); [done|]. intros [= <- <-]. cbn.
  assert (E : len (take (Z.to_nat m) rest) = m) by (rewrite len_take; lia).
  rewrite E. split_and!; try done; try lia. by eexists.
Qed.

Lemma write_section_fail s rest s' e :
  write_section s rest = WriteFail s' e ->
  exists credit, s' = fail (set_send s (s_sendWindow s) credit) e /\ (0 <= s_sendCredit s -> 0 <= credit <= s_sendCredit s) /\ s_writeErr s = None.
Proof.
  unfold write_section. destruct (s_writeErr s); [done|]. destruct (s_localFIN s); [done|].
  destruct (Z.eqb_spec (s_sendCredit s) 0); [done|]. unfold nextSendSequence. cbn.
  destruct (_ <? _); [|done]. intros [= <- <-]. eexists. split; [done|].
  pose proof (len_nonneg rest). unfold MaxCellPayloadSize. split; [lia|done].
Qed.

Lemma window_update_ok s n s' cell :
  window_update s n = (s', Ok cell) ->
  s_writeErr s = None /\ s' = set_sendSeq s (s_sendSeq s + 1) /\
  Kind cell = CellWindowUpdate /\ Sequence cell = s_sendSeq s /\ Payload cell = put_uvarint n.
Proof.
  unfold window_update. destruct (s_writeErr s); [done|]. unfold nextSendSequence.
  destruct (_ <? _); [done|]. by intros [= <- <-].
Qed.

Lemma window_update_err s n s' e :
  window_update s n = (s', Err e) -> s' = s /\ (s_writeErr s <> None \/ MaxSequence < s_sendSeq s).
Proof.
  unfold window_update. destruct (s_writeErr s) eqn:E; [intros [= <- _]; auto|].
  unfold nextSendSequence. destruct (Z.ltb_spec MaxSequence (s_sendSeq s)); [|done].
  intros [= <- _]. auto.
Qed.

Lemma close_write_ok s s' o :
  close_write s = (s', Ok o) ->
  (s' = s /\ o = None) \/
  (s_writeErr s = None /\ s_localFIN s = false /\ s' = set_sendSeq (set_fins s (s_peerFIN s) true) (s_sendSeq s + 1) /\
   exists cell, o = Some cell /\ Kind cell = CellFin /\ Sequence cell = s_sendSeq s /\ Payload cell = []).
Proof.
  unfold close_write. destruct (s_writeErr s); [done|]. destruct (s_localFIN s); [intros [= <- <-]; auto|].
  unfold nextSendSequence. cbn. destruct (_ <? _); [done|]. intros [= <- <-]. right.
  split; [done|]. split; [done|]. split; [done|]. by eexists.
Qed.

Lemma close_write_err s s' e :
  close_write s = (s', Err e) -> s' = s \/ s' = set_fins s (s_peerFIN s) true.
Proof.
  unfold close_write. destruct (s_writeErr s); [intros [= <- _]; auto|]. destruct (s_localFIN s); [done|].
  unfold nextSendSequence. cbn. destruct (_ <? _); [|done]. intros [= <- _]. auto.
Qed.

(** A reset touches the send sequence only. *)
Lemma send_reset_cases s code s' o :
  send_reset s code = (s', o) ->
  let out := match o with Ok c => opt_list c | Err _ => [] end in
  (out = [] /\ (s' = s \/ s' = set_resetSent s)) \/
  (s' = set_sendSeq (set_resetSent s) (s_sendSeq s + 1) /\ exists cell, out = [cell] /\
     Kind cell = CellReset /\ Sequence cell = s_sendSeq s /\ len (Payload cell) = 1).
Proof.
  unfold send_reset. destruct (s_resetSent s); [intros [= <- <-]; auto|].
  assert (H : forall s' o, match nextSendSequence (set_resetSent s) with
      | (s, Err e) => (s, Err e)
      | (s, Ok sequence) => (s, Ok (Some (mkCell CellReset (s_id s) sequence [code] [])))
      end = (s', o) ->
      let out := match o with Ok c => opt_list c | Err _ => [] end in
      (out = [] /\ (s' = s \/ s' = set_resetSent s)) \/
      (s' = set_sendSeq (set_resetSent s) (s_sendSeq s + 1) /\ exists cell, out = [cell] /\
         Kind cell = CellReset /\ Sequence cell = s_sendSeq s /\ len (Payload cell) = 1)).
  { intros s1 o1. unfold nextSendSequence. cbn. destruct (_ <? _); intros [= <- <-]; [auto|right].
    split; [done|]. by eexists. }
  destruct (s_writeErr s); [|apply H]. destruct (_ && _); [intros [= <- <-]; auto|apply H].
Qed.

Lemma takePending_cases w s force s' credit :
  0 <= s_pending s -> 0 <= s_recvCredit s -> s_recvCredit s + s_pending s <= MaxInitialWindow ->
  takePendingCredit w s force = (s', credit) ->
  (s' = s /\ credit = 0 /\ (s_pending s = 0 \/ (force = false /\ s_pending s < windowUpdateThreshold w))) \/
  (s' = set_recv s (s_recvCredit s + s_pending s) 0 (s_chunks s) (s_chunkStart s) /\
   credit = s_pending s /\ 0 < credit).
Proof.
  intros Hp Hr Hm. unfold takePendingCredit. destruct (Z.eqb_spec (s_pending s) 0).
  { intros [= <- <-]. left. auto. }
  destruct force; cbn [negb andb orb].
  2: destruct (Z.ltb_spec (s_pending s) (windowUpdateThreshold w)); [intros [= <- <-]; left; auto|].
  all: intros [= <- <-]; right; rewrite u64_small by (unfold is_u64, MaxInitialWindow in *; lia);
    split_and!; done || lia.
Qed.

(** What a successful [Read] changes: it moves bytes from the buffer to the
    application and credit from [pending] to [recvCredit]. *)
Lemma read_section_data w s room s' bytes credit :
  0 < room -> chunks_ok s -> 0 <= s_pending s -> 0 <= s_recvCredit s ->
  s_recvCredit s + len (buffered s) + s_pending s = w -> w <= MaxInitialWindow ->
  read_section w s room = ReadData s' bytes credit ->
  exists chunks start,
  s' = set_recv s (s_recvCredit s + credit) (s_pending s + len bytes - credit) chunks start /\
  0 <= credit <= s_pending s + len bytes /\
  bytes ++ buffered s' = buffered s /\ chunks_ok s' /\ bytes <> [] /\
  (s_pending s' = 0 \/ s_pending s' < windowUpdateThreshold w) /\
  (s_recvCredit s' = 0 -> s_pending s' = 0).
Proof.
  intros Hroom Hok Hp Hr Hbal Hw. unfold read_section.
  destruct Hok as [Hne Hst]. unfold buffered in Hbal |- *.
  destruct (s_chunks s) as [|chunk cs] eqn:Ech; [destruct (s_readErr s), (s_peerFIN s); try done;
    by destruct (takePendingCredit _ _ _)|].
  apply Forall_cons_1 in Hne as [Hc Hcs].
  set (bs := take (Z.to_nat room) (drop (Z.to_nat (s_chunkStart s)) chunk)).
  assert (Hlb : 0 < len bs <= len chunk - s_chunkStart s)
    by (unfold bs; rewrite len_take, len_drop; lia).
  assert (Hsplit : drop (Z.to_nat (s_chunkStart s)) chunk
    = bs ++ drop (Z.to_nat (s_chunkStart s + len bs)) chunk).
  { rewrite <- (take_drop (Z.to_nat room) (drop (Z.to_nat (s_chunkStart s)) chunk)) at 1. fold bs.
    f_equal. rewrite drop_drop. unfold bs. rewrite len_take, len_drop.
    destruct (Z.le_gt_cases room (len chunk - s_chunkStart s)); [f_equal; lia|].
    rewrite !drop_ge; [done| |]; unfold len in *; lia. }
  assert (Hbuf : drop (Z.to_nat (s_chunkStart s)) (concat (chunk :: cs))
    = bs ++ drop (Z.to_nat (s_chunkStart s + len bs)) chunk ++ concat cs).
  { cbn [concat]. rewrite drop_app_le by (unfold len in *; lia). rewrite Hsplit. by rewrite <- app_assoc. }
  rewrite Hbuf in Hbal |- *. rewrite !len_app in Hbal.
  pose proof (len_nonneg (drop (Z.to_nat (s_chunkStart s + len bs)) chunk)).
  pose proof (len_nonneg (concat cs)).
  rewrite u64_small by (unfold is_u64, MaxInitialWindow in *; lia).
  set (fin := s_chunkStart s + len bs =? len chunk).
  set (s1 := set_recv s _ _ _ _).
  destruct (takePendingCredit w s1 _) as [s2 cr] eqn:Et. intros [= <- <- <-].
  apply takePending_cases in Et; [|cbn; lia..].
  assert (Hb1 : bs ++ buffered s1 = bs ++ drop (Z.to_nat (s_chunkStart s + len bs)) chunk ++ concat cs
    /\ chunks_ok s1).
  { unfold buffered, chunks_ok, s1. cbn. destruct fin eqn:E; unfold fin in E; zb.
    - rewrite E. cbn. rewrite drop_0, (drop_ge chunk) by (unfold len; lia).
      split; [done|]. split; [done|]. destruct cs; [done|].
      apply Forall_cons_1 in Hcs as [Hd _]. destruct l; [done|]. rewrite len_cons. pose proof (len_nonneg l). lia.
    - cbn [concat]. split.
      + rewrite drop_app_le by (unfold len in *; lia). done.
      + split; [by constructor|]. lia. }
  assert (Hne : bs <> []) by (intros E; rewrite E in Hlb; by destruct Hlb).
  destruct Hb1 as [Hb1 Hok1].
  destruct Et as [(-> & -> & Hpend)|(-> & -> & Hpos)].
  - do 2 eexists. split; [unfold s1; rewrite Z.add_0_r, Z.sub_0_r; reflexivity|].
    split; [cbn; lia|]. split; [exact Hb1|]. split; [done|]. split; [done|].
    split; [destruct Hpend as [?|[_ ?]]; auto|].
    intros Hz. destruct Hpend as [?|[Hf _]]; [done|]. apply orb_false_iff in Hf as [Hf _]. zb. done.
  - do 2 eexists. split; [unfold s1; cbn; f_equal; lia|]. cbn.
    split; [lia|]. split; [exact Hb1|]. split; [exact Hok1|]. split; [done|]. auto.
Qed.

(** *** Every step preserves both directions *)

Lemma cells_ok_snoc y w q c : cells_ok y w q -> cell_ok c -> cells_ok y w (q ++ [c]).
Proof.
  unfold cells_ok. destruct (_ =? 0).
  - intros (c0 & q' & -> & ? & ? & ?) Hc. exists c0, (q' ++ [c]). split; [done|].
    split; [done|]. split; [done|]. by apply Forall_app_2; [|constructor].
  - intros ? Hc. by apply Forall_app_2; [|constructor].
Qed.

Lemma credits_one c : credits [c] = credit_of c.
Proof. unfold credits, zsum. cbn. lia. Qed.

Lemma data_one c : data [c] = data_of c.
Proof. unfold data. cbn. apply app_nil_r. Qed.

Ltac open_dir1 := intros [R1 S1 C1 T1 X1 O1 Q1 F1 D1 E1].
Ltac open_dir2 := intros [R2 S2 C2 T2 X2 O2 Q2 F2 D2 E2].

Lemma write_dir x y q r rest s cell :
  rest <> [] -> write_section (sd_s x) rest = WriteSend s cell ->
  dir x y q r -> dir y x r q ->
  let x' := wrote (set_stream x s) (Payload cell) in
  dir x' y (q ++ [cell]) r /\ dir y x' r (q ++ [cell]).
Proof.
  intros Hr Hw. open_dir1. open_dir2. cbn zeta.
  apply write_section_send in Hw; [|done|apply (x_credit _ S1)].
  destruct Hw as (Hwe & Hlf & Hn & -> & Hk & Hs & _ & Hmax).
  assert (Hal : sd_removed x = false).
  { destruct (sd_removed x) eqn:E; [|done]. destruct (x_removed _ S1 E); congruence. }
  assert (Hcd : credit_of cell = 0) by (unfold credit_of; by rewrite Hk).
  assert (Hdd : data_of cell = Payload cell) by (unfold data_of; by rewrite Hk).
  assert (Hok : cell_ok cell) by (unfold cell_ok; by rewrite Hk).
  unfold send_credit in *. rewrite Hal in T1.
  destruct (Z.eqb_spec (s_recvSeq (sd_s x)) 0) as [Ez|Ez]; [lia|].
  split; split; cbn; rewrite ?credits_app, ?data_app, ?credits_one, ?data_one, ?Hcd, ?Hdd, ?Z.add_0_r; try done.
  - destruct S1. split; cbn; try done. lia.
  - intros Hy. apply cells_ok_snoc; [by apply C1|done].
  - unfold send_credit. cbn. rewrite Hal, len_app. lia.
  - intros _ Hy _ Hwy Hsy. rewrite len_app. specialize (X1 Hal Hy Hwe Hwy Hsy). lia.
  - by rewrite (proj2 (Z.eqb_neq _ _)).
  - intros Hy. destruct (Q1 Hy) as (? & ? & ?). split; [done|]. rewrite seq_from_app, len_app.
    split; [|unfold len at 2; cbn; lia]. split; [done|]. cbn. split; [lia|done].
  - intros Hy. destruct (F1 Hy) as (f & Ef & Hf). exists f. rewrite fin_after_app, Ef.
    destruct f; [by rewrite Hf in Hlf|]. cbn. by rewrite Hk.
  - destruct D1 as (rest' & Hd1 & Hd2 & Hd3). exists (rest' ++ Payload cell). split; [|split].
    + rewrite <- Hd1, <- !app_assoc. done.
    + intros Hy. by rewrite (Hd2 Hy).
    + intros Hp. destruct (Hd3 Hp). congruence.
  - intros Hy. destruct (E1 Hy) as (_ & _ & _ & _ & _ & _ & ?). congruence.
  - by destruct R2.
  - intros Hy Hx Hwy _ Hsx. apply X2; done || lia.
  - intros Hx. destruct (E2 Hx). congruence.
Qed.

Lemma write_fail_dir x y q r rest s e :
  write_section (sd_s x) rest = WriteFail s e ->
  dir x y q r -> dir y x r q ->
  dir (set_stream x s) y (q ++ []) r /\ dir y (set_stream x s) r (q ++ []).
Proof.
  intros Hw. open_dir1. open_dir2. rewrite app_nil_r.
  apply write_section_fail in Hw as (credit & -> & Hc & Hwe). specialize (Hc (x_credit _ S1)).
  split; split; cbn; try done.
  - destruct S1 as [? Hrm ?]. split; cbn; [lia| |done]. intros H. left. rewrite Hwe. done.
  - unfold send_credit in *. cbn. destruct (sd_removed x); lia.
  - rewrite Hwe. done.
  - destruct (s_recvSeq (sd_s x) =? 0); [lia|done].
  - by destruct R2.
  - rewrite Hwe. done.
Qed.

(** [Read] moves bytes from the buffer to the application and credit from
    [pending] to [recvCredit]. *)
Lemma consume_dir x y q r s' bytes credit chunks start :
  s' = set_recv (sd_s x) (s_recvCredit (sd_s x) + credit) (s_pending (sd_s x) + len bytes - credit) chunks start ->
  0 <= credit <= s_pending (sd_s x) + len bytes ->
  bytes ++ buffered s' = buffered (sd_s x) -> chunks_ok s' ->
  (s_pending s' = 0 \/ s_pending s' < windowUpdateThreshold (sd_window x)) ->
  (s_chunks (sd_s x) = [] -> s_pending (sd_s x) = 0 -> chunks = [] /\ bytes = [] /\ credit = 0) ->
  dir x y q r -> dir y x r q ->
  let x' := owe (did_read (set_stream x s') bytes) credit in
  dir x' y q r /\ dir y x' r q.
Proof.
  intros -> Hcr Hbs Hok Hth Hempty. open_dir1. open_dir2. cbn zeta.
  destruct R2 as [W2 Ch2 P2 B2 V2 Ow2 Th2].
  set (s' := set_recv _ _ _ _ _) in *.
  assert (Hlen : len bytes + len (buffered s') = len (buffered (sd_s x))) by (rewrite <- Hbs, len_app; lia).
  pose proof (len_nonneg bytes). pose proof (len_nonneg (buffered s')).
  set (x' := owe _ _).
  assert (F : sd_s x' = s' /\ sd_window x' = sd_window x /\ sd_removed x' = sd_removed x /\
    sd_retired x' = sd_retired x /\ sd_written x' = sd_written x /\ sd_read x' = sd_read x ++ bytes /\
    zsum (sd_owed x') = zsum (sd_owed x) + credit /\
    (credit = 0 -> sd_owed x' = sd_owed x) /\
    Forall (fun n => 0 < n <= MaxInitialWindow) (sd_owed x')).
  { unfold x', owe. destruct (Z.eqb_spec credit 0) as [->|]; cbn; split_and!; try done; try lia.
    - rewrite zsum_app. unfold zsum. cbn. lia.
    - apply Forall_app_2; [done|]. constructor; [lia|done]. }
  destruct F as (Fs & Fw & Frm & Frt & Fwr & Frd & Fow & Fo0 & Ffo). clearbody x'.
  split; split; rewrite ?Fs, ?Fw, ?Frm, ?Frt, ?Fwr, ?Frd, ?Fow; cbn; try done.
  - destruct S1. split; rewrite ?Fs, ?Frm; done.
  - unfold send_credit in *. rewrite Fs, Frm. exact T1.
  - intros Hy. destruct (E1 Hy) as (? & ? & ? & Hc & Hp & ? & ?).
    destruct (Hempty Hc Hp) as (-> & -> & ->). rewrite Hp, Fo0 by done. by split_and!.
  - split; rewrite ?Fs, ?Fw; cbn; try done; lia.
  - unfold cells_ok in *. rewrite Fs. exact C2.
  - lia.
  - intros Hy Hx Hwy Hwx Hsx. specialize (X2 Hy Hx Hwy Hwx Hsx). lia.
  - destruct D2 as (rest & Hd1 & Hd2 & Hd3). exists rest. split; [|done].
    by rewrite <- app_assoc, (app_assoc bytes), Hbs.
Qed.

Lemma read_dir x y q r room s bytes credit :
  0 < room -> read_section (sd_window x) (sd_s x) room = ReadData s bytes credit ->
  dir x y q r -> dir y x r q ->
  let x' := owe (did_read (set_stream x s) bytes) credit in
  dir x' y q r /\ dir y x' r q.
Proof.
  intros Hroom Hrd H1 H2. destruct (d_recv _ _ _ _ H2) as [].
  apply read_section_data in Hrd as (chunks & st & Hs & Hcr & Hbs & Hok & Hne & Hth & Hz); try done; try lia.
  eapply consume_dir; try done. intros Hc _. rewrite (buffered_nil _ Hc) in Hbs.
  by destruct bytes.
Qed.

Lemma read_eof_dir x y q r room s credit :
  read_section (sd_window x) (sd_s x) room = ReadEOF s credit ->
  dir x y q r -> dir y x r q ->
  let x' := owe (set_stream x s) credit in
  dir x' y q r /\ dir y x' r q.
Proof.
  intros Hrd H1 H2. destruct (d_recv _ _ _ _ H2) as []. unfold read_section in Hrd.
  destruct (s_chunks (sd_s x)) as [|] eqn:Ec; [|by destruct (takePendingCredit _ _ _)].
  destruct (s_readErr (sd_s x)); [done|]. destruct (s_peerFIN (sd_s x)); [|done].
  destruct (takePendingCredit _ _ _) as [s1 c1] eqn:Et. injection Hrd as <- <-.
  pose proof (len_nonneg (buffered (sd_s x))).
  apply takePending_cases in Et; [|lia..].
  assert (E : s1 = set_recv (sd_s x) (s_recvCredit (sd_s x) + c1) (s_pending (sd_s x) + len (@nil byte) - c1)
    (s_chunks (sd_s x)) (s_chunkStart (sd_s x)) /\ 0 <= c1 <= s_pending (sd_s x) /\ s_pending s1 = 0).
  { unfold len. cbn [length]. destruct Et as [(-> & -> & [Hp|[? _]])|(-> & -> & ?)]; [|done|].
    - split; [|lia]. rewrite Hp, Z.add_0_r. destruct (sd_s x). cbn in *. by subst.
    - split; [f_equal; lia|]. cbn. lia. }
  destruct E as (E & Hc & Hp).
  assert (Hw : owe (set_stream x s1) c1 = owe (did_read (set_stream x s1) []) c1)
    by (unfold did_read; cbn; by rewrite app_nil_r).
  rewrite Hw. eapply consume_dir; try done.
  - unfold len. cbn. lia.
  - rewrite E. unfold buffered. cbn. done.
  - rewrite E. unfold chunks_ok in *. cbn. done.
  - auto.
  - intros _ Hp0. split; [done|]. split; [done|]. lia.
Qed.

(** A step that sends nothing, delivers nothing and leaves the counters of
    the stream alone: errors appear, [localFIN] or [resetSent] are set, the
    stream is removed, or an owed credit is dropped because it cannot be sent
    any more. *)
Record frame (x x' : side) : Prop := {
  f_counters : s_recvSeq (sd_s x') = s_recvSeq (sd_s x) /\ s_sendSeq (sd_s x') = s_sendSeq (sd_s x) /\
    s_sendWindow (sd_s x') = s_sendWindow (sd_s x) /\ s_sendCredit (sd_s x') = s_sendCredit (sd_s x);
  f_buffer : s_recvCredit (sd_s x') = s_recvCredit (sd_s x) /\ s_pending (sd_s x') = s_pending (sd_s x) /\
    s_chunks (sd_s x') = s_chunks (sd_s x) /\ s_chunkStart (sd_s x') = s_chunkStart (sd_s x) /\
    s_peerFIN (sd_s x') = s_peerFIN (sd_s x);
  f_ghost : sd_window x' = sd_window x /\ sd_read x' = sd_read x /\ sd_written x' = sd_written x /\
    sd_retired x' = sd_retired x;
  f_fin : s_localFIN (sd_s x) = true -> s_localFIN (sd_s x') = true;
  f_err : s_writeErr (sd_s x') = None -> s_writeErr (sd_s x) = None;
  f_removed : sd_removed x = true -> sd_removed x' = true;
  f_removed_inv : sd_removed x' = true -> s_writeErr (sd_s x') <> None \/ s_localFIN (sd_s x') = true;
  f_reset : s_resetSent (sd_s x') = true -> sd_removed x' = true;
  f_owed : sd_owed x' = sd_owed x \/
    (Forall (fun n => 0 < n <= MaxInitialWindow) (sd_owed x') /\ zsum (sd_owed x') <= zsum (sd_owed x) /\
     sd_owed x <> [] /\
     (s_writeErr (sd_s x) <> None \/ MaxSequence < s_sendSeq (sd_s x)))
}.

Lemma frame_dir x y q r x' :
  frame x x' -> dir x y q r -> dir y x r q -> dir x' y q r /\ dir y x' r q.
Proof.
  intros [(Fa & Fb & Fc & Fd) (Fe & Ff & Fg & Fh & Fi) (Fj & Fk & Fl & Fm) Ffin Ferr Frm Frmi Frs Fo].
  open_dir1. open_dir2.
  assert (Hbuf : buffered (sd_s x') = buffered (sd_s x)) by (unfold buffered; by rewrite Fg, Fh).
  assert (Hal : sd_removed x' = false -> sd_removed x = false).
  { intros H. destruct (sd_removed x); [by rewrite Frm in H|done]. }
  assert (Ho : Forall (fun n => 0 < n <= MaxInitialWindow) (sd_owed x') /\ zsum (sd_owed x') <= zsum (sd_owed x)).
  { destruct Fo as [->|(? & ? & _)]; [|done]. split; [by destruct R2|lia]. }
  assert (Hex : s_writeErr (sd_s x') = None -> s_sendSeq (sd_s x) <= MaxSequence -> sd_owed x' = sd_owed x).
  { intros H1 H2. destruct Fo as [->|(_ & _ & _ & [?|?])]; [done| |lia]. by rewrite Ferr in H. }
  split; split; rewrite ?Fa, ?Fb, ?Fc, ?Fd, ?Fi, ?Fj, ?Fk, ?Fl, ?Fm, ?Hbuf; try done.
  - destruct S1. split; rewrite ?Fd; done.
  - unfold send_credit in *. rewrite Fd. destruct (sd_removed x'); [|by rewrite Hal in T1].
    destruct (sd_removed x); [done|]. destruct S1. lia.
  - auto.
  - intros Hy. destruct (F1 Hy) as (f & ? & ?). eauto.
  - destruct D1 as (rest & ? & ? & Hd). exists rest. split; [done|]. split; [done|].
    intros Hp. destruct (Hd Hp). auto.
  - intros Hy. destruct (E1 Hy) as (? & ? & Hoe & ? & ? & ? & ?). rewrite Fg, Ff.
    split; [done|]. split; [done|]. split; [|auto].
    destruct Fo as [->|(_ & _ & Hne & _)]; [done|]. by destruct Hne.
  - destruct R2. split; unfold chunks_ok in *; rewrite ?Fj, ?Fg, ?Fh, ?Fe, ?Ff, ?Hbuf; try done. by destruct Ho.
  - unfold cells_ok in *. rewrite Fa. intros Hx. exact (C2 (Hal Hx)).
  - rewrite Ff. lia.
  - rewrite Ff. intros Hy Hx Hwy Hwx Hsx. rewrite Hex by done. auto.
  - auto.
  - auto.
  - destruct D2 as (rest & ? & ? & ?). exists rest. split_and!; auto.
  - intros Hx. destruct (E2 Hx) as (? & ? & ? & ? & ? & ? & ?). split_and!; auto.
Qed.

Lemma frame_id x y q r : dir x y q r -> dir y x r q -> frame x x.
Proof. intros [_ [] _ _ _ _ _ _ _ _] _. split; auto. Qed.

(** *** Sending a control cell *)

Definition advance (s : Stream) : Stream := set_sendSeq s (s_sendSeq s + 1).

Lemma buffered_advance s : buffered (advance s) = buffered s.
Proof. done. Qed.

(** The part of an emission that holds for every cell without payload data:
    the bookkeeping of the receiving direction of [x] and the sequence. *)
Lemma emit_reset_dir x y q r c :
  sd_removed x = true -> Kind c = CellReset -> len (Payload c) = 1 -> Sequence c = s_sendSeq (sd_s x) ->
  dir x y q r -> dir y x r q ->
  let x' := set_stream x (advance (sd_s x)) in
  dir x' y (q ++ [c]) r /\ dir y x' r (q ++ [c]).
Proof.
  intros Hr Hk Hp Hs. open_dir1. open_dir2. cbn zeta.
  assert (Hcd : credit_of c = 0) by (unfold credit_of; by rewrite Hk).
  assert (Hdd : data_of c = []) by (unfold data_of; by rewrite Hk).
  assert (Hok : cell_ok c) by (unfold cell_ok; by rewrite Hk).
  split; split; cbn; rewrite ?credits_app, ?data_app, ?credits_one, ?data_one, ?Hcd, ?Hdd, ?Z.add_0_r, ?app_nil_r; try done.
  - by destruct S1.
  - intros Hy. apply cells_ok_snoc; auto.
  - intros Hy. destruct (Q1 Hy) as (? & ? & ?). split; [done|]. rewrite seq_from_app, len_app.
    split; [|unfold len at 2; cbn; lia]. split; [done|]. cbn. split; [lia|done].
  - intros Hy. destruct (F1 Hy) as (f & Ef & Hf). exists f. rewrite fin_after_app, Ef. cbn.
    by rewrite Hk.
  - intros Hy. destruct (E1 Hy) as (? & Hq & ? & ? & ? & ? & ?). split_and!; try done.
    apply Forall_app_2; [done|]. by constructor.
  - by destruct R2.
  - rewrite Hr. done.
Qed.

Lemma grant_dir x y q r o1 n o2 c :
  sd_owed x = o1 ++ n :: o2 -> s_writeErr (sd_s x) = None ->
  Kind c = CellWindowUpdate -> Payload c = put_uvarint n -> Sequence c = s_sendSeq (sd_s x) ->
  dir x y q r -> dir y x r q ->
  let x' := set_owed (set_stream x (advance (sd_s x))) (o1 ++ o2) in
  dir x' y (q ++ [c]) r /\ dir y x' r (q ++ [c]).
Proof.
  intros Ho Hwe Hk Hp Hs. open_dir1. open_dir2. cbn zeta.
  destruct R2 as [W2 Ch2 P2 B2 V2 Ow2 Th2].
  assert (Hn : 0 < n <= MaxInitialWindow /\ Forall (fun n => 0 < n <= MaxInitialWindow) (o1 ++ o2)).
  { rewrite Ho in Ow2. apply Forall_app in Ow2 as [? [? ?]%Forall_cons_1]. split; [done|].
    by apply Forall_app_2. }
  destruct Hn as [Hn Hos].
  assert (Hcd : credit_of c = n).
  { unfold credit_of. rewrite Hk, Hp, parseCredit_put; [done|]. unfold MaxInitialWindow, MaxInt64 in *. lia. }
  assert (Hdd : data_of c = []) by (unfold data_of; by rewrite Hk).
  assert (Hok : cell_ok c) by (unfold cell_ok; rewrite Hk; eauto).
  assert (Hz : zsum (sd_owed x) = zsum (o1 ++ o2) + n)
    by (rewrite Ho, !zsum_app; unfold zsum; cbn; lia).
  split; split; cbn; rewrite ?credits_app, ?data_app, ?credits_one, ?data_one, ?Hcd, ?Hdd, ?app_nil_r; try done.
  - by destruct S1.
  - intros Hy. apply cells_ok_snoc; auto.
  - intros Hy. destruct (Q1 Hy) as (? & ? & ?). split; [done|]. rewrite seq_from_app, len_app.
    split; [|unfold len at 2; cbn; lia]. split; [done|]. cbn. split; [lia|done].
  - intros Hy. destruct (F1 Hy) as (f & Ef & Hf). exists f. rewrite fin_after_app, Ef. cbn.
    by rewrite Hk.
  - intros Hy. destruct (E1 Hy) as (? & Hq & Hoe & _). rewrite Ho in Hoe. by destruct o1.
  - rewrite buffered_advance. lia.
  - intros Hy Hx Hwy _ Hsx. rewrite buffered_advance.
    specialize (X2 Hy Hx Hwy Hwe ltac:(lia)). lia.
Qed.

Lemma fin_dir x y q r c :
  s_writeErr (sd_s x) = None -> s_localFIN (sd_s x) = false ->
  Kind c = CellFin -> Payload c = [] -> Sequence c = s_sendSeq (sd_s x) ->
  dir x y q r -> dir y x r q ->
  let x' := set_stream x (advance (set_fins (sd_s x) (s_peerFIN (sd_s x)) true)) in
  dir x' y (q ++ [c]) r /\ dir y x' r (q ++ [c]).
Proof.
  intros Hwe Hlf Hk Hp Hs. open_dir1. open_dir2. cbn zeta.
  assert (Hcd : credit_of c = 0) by (unfold credit_of; by rewrite Hk).
  assert (Hdd : data_of c = []) by (unfold data_of; by rewrite Hk).
  assert (Hok : cell_ok c) by (unfold cell_ok; by rewrite Hk).
  split; split; cbn; rewrite ?credits_app, ?data_app, ?credits_one, ?data_one, ?Hcd, ?Hdd, ?Z.add_0_r, ?app_nil_r; try done.
  - destruct S1. split; cbn; auto.
  - intros Hy. apply cells_ok_snoc; auto.
  - intros Hy. destruct (Q1 Hy) as (? & ? & ?). split; [done|]. rewrite seq_from_app, len_app.
    split; [|unfold len at 2; cbn; lia]. split; [done|]. cbn. split; [lia|done].
  - intros Hy. destruct (F1 Hy) as (f & Ef & Hf). exists true. rewrite fin_after_app, Ef.
    destruct f; [by rewrite Hf in Hlf|]. cbn. by rewrite Hk.
  - destruct D1 as (rest & ? & ? & Hd). exists rest. split_and!; try done. intros Hpf. by destruct (Hd Hpf).
  - intros Hy. destruct (E1 Hy) as (_ & _ & _ & _ & _ & _ & ?). congruence.
  - by destruct R2.
  - intros Hy Hx Hwy _ Hsx. apply X2; done || lia.
Qed.

(** *** Receiving a cell *)

(** What [handleCell] does to the stream when it accepts the cell. *)
Definition received (s : Stream) (c : Cell) : Stream :=
  match Kind c with
  | CellOpenOK => completeOpen (set_send (set_recvSeq s 1) (credit_of c) (credit_of c)) None
  | CellData =>
      set_recv (set_recvSeq s (s_recvSeq s + 1)) (s_recvCredit s - len (Payload c)) (s_pending s)
        (if len (Payload c) =? 0 then s_chunks s else s_chunks s ++ [Payload c]) (s_chunkStart s)
  | CellFin => set_fins (set_recvSeq s (s_recvSeq s + 1)) true (s_localFIN s)
  | CellReset => set_errs (set_recvSeq s (s_recvSeq s + 1)) (Some (Sentinel ErrReset)) (Some (Sentinel ErrReset))
  | CellWindowUpdate =>
      set_send (set_recvSeq s (s_recvSeq s + 1)) (s_sendWindow s) (s_sendCredit s + credit_of c)
  | _ => s
  end.

(** The head of the queue of a live endpoint: its sequence number and its
    kind are the expected ones. *)
Lemma head_cases x y r q c :
  sd_removed x = false -> dir y x (c :: r) q ->
  Sequence c = s_recvSeq (sd_s x) /\ 0 <= s_recvSeq (sd_s x) /\
  ((s_recvSeq (sd_s x) = 0 /\ Kind c = CellOpenOK /\ Payload c = put_uvarint (sd_window y) /\
    Forall cell_ok r) \/
   (s_recvSeq (sd_s x) <> 0 /\ cell_ok c /\ Forall cell_ok r)).
Proof.
  intros Hx. open_dir2. destruct (Q2 Hx) as (H0 & [Hs _] & _). split; [done|]. split; [done|].
  specialize (C2 Hx). unfold cells_ok in C2.
  destruct (Z.eqb_spec (s_recvSeq (sd_s x)) 0); [left|right].
  - destruct C2 as (c0 & q' & [= <- <-] & ? & ? & ?). by split_and!.
  - apply Forall_cons_1 in C2 as [? ?]. by split_and!.
Qed.

Lemma parseCredit_window y p :
  receiver_inv y -> p = put_uvarint (sd_window y) -> parseCredit p = Ok (sd_window y).
Proof.
  intros [] ->. apply parseCredit_put. unfold MaxInitialWindow, MaxInt64 in *. lia.
Qed.

(** Honest traffic is accepted until the sequence numbers are used up. *)
Lemma accepted x y q r c :
  sd_removed x = false -> dir x y q (c :: r) -> dir y x (c :: r) q ->
  (s_recvSeq (sd_s x) = MaxSequence /\ handleCell (sd_s x) c = (sd_s x, Err ErrProtocol)) \/
  (s_recvSeq (sd_s x) <> MaxSequence /\ handleCell (sd_s x) c = (received (sd_s x) c, Ok tt)).
Proof.
  intros Hx H1 H2. destruct (head_cases _ _ _ _ _ Hx H2) as (Hs & H0 & Hc).
  destruct H1 as [R1 S1 C1 T1 X1 O1 Q1 F1 D1 E1]. destruct H2 as [R2 S2 C2 T2 X2 O2 Q2 F2 D2 E2].
  rewrite credits_cons in T1. rewrite data_cons, len_app in T2.
  unfold send_credit in *. rewrite Hx in T1.
  pose proof (credits_nonneg r). pose proof (len_nonneg (data q)).
  pose proof (len_nonneg (data r)). pose proof (credits_nonneg q).
  pose proof (len_nonneg (buffered (sd_s y))). pose proof (x_credit _ S1). pose proof (x_credit _ S2).
  assert (0 <= zsum (sd_owed x) /\ 0 <= zsum (sd_owed y))
    by (destruct R1, R2; split; by apply owed_nonneg).
  destruct Hc as [(Hz & Hk & Hp & _)|(Hnz & Hok & _)].
  { right. split; [rewrite Hz; done|]. unfold handleCell, handle_open, received, credit_of.
    rewrite Hk, Hs, Hz. cbn [negb Z.eqb orb].
    rewrite (parseCredit_window y (Payload c)) by done.
    destruct R1. rewrite (proj2 (Z.ltb_ge _ _)) by lia. done. }
  assert (E : handleCell (sd_s x) c = if s_recvSeq (sd_s x) =? MaxSequence then (sd_s x, Err ErrProtocol)
    else handle_data (set_recvSeq (sd_s x) (s_recvSeq (sd_s x) + 1)) c).
  { unfold handleCell, cell_ok in *. rewrite Hs, Z.eqb_refl. by destruct (Kind c). }
  rewrite E. clear E. destruct (Z.eqb_spec (s_recvSeq (sd_s x)) MaxSequence); [by left|right]. split; [done|].
  destruct (F2 Hx) as (f & Ef & _). cbn in Ef.
  unfold handle_data, received, cell_ok, data_of, credit_of in *. destruct (Kind c); try done.
  - cbn. destruct (s_peerFIN (sd_s x)); [done|]. destruct R2. cbn. rewrite (proj2 (Z.ltb_ge _ _)); [done|].
    destruct (sd_removed y); lia.
  - cbn. rewrite Hok. by destruct (s_peerFIN (sd_s x)).
  - by rewrite Hok.
  - destruct Hok as (k & Hn & Hp). rewrite Hp, parseCredit_put in T1 |- *
      by (unfold MaxInitialWindow, MaxInt64 in *; lia).
    rewrite (proj2 (Z.eqb_neq _ _)) in O1 by done. cbn. destruct R1.
    rewrite u64_small by (unfold is_u64, MaxInitialWindow in *; lia).
    rewrite !(proj2 (Z.ltb_ge _ _)) by (unfold MaxUint64, MaxInitialWindow in *; lia). done.
Qed.

Lemma drop_dir x y q r c :
  sd_removed x = true -> dir x y q (c :: r) -> dir y x (c :: r) q -> dir x y q r /\ dir y x r q.
Proof.
  intros Hx. open_dir1. open_dir2. rewrite credits_cons in T1, X1. rewrite data_cons in T2, X2, E1.
  rewrite len_app in T2, X2. pose proof (credit_of_nonneg c). pose proof (len_nonneg (data_of c)).
  split; split; try done; try congruence.
  - lia.
  - intros Hy. destruct (E1 Hy) as (? & ? & ? & ? & ? & Hd & ?).
    apply app_eq_nil in Hd as [_ Hd]. by split_and!.
  - lia.
  - destruct D2 as (rest & Hd1 & _ & Hd3). exists rest. split_and!; try done; congruence.
  - intros H'. destruct (E2 H') as (? & ?%Forall_cons_1 & ?). tauto.
Qed.

(** The parts of both directions that the head's departure changes the same
    way for every kind: sequence numbers, cells, retirement. *)
Lemma head_gone x y q r c :
  sd_removed x = false -> dir x y q (c :: r) -> dir y x (c :: r) q ->
  0 <= s_recvSeq (sd_s x) /\
  (0 <= s_recvSeq (sd_s x) + 1 /\ seq_from (s_recvSeq (sd_s x) + 1) r /\
   s_recvSeq (sd_s x) + 1 + len r = s_sendSeq (sd_s y)) /\
  Forall cell_ok r /\
  (sd_retired y = true -> data_of c = [] /\ data r = []) /\ sd_retired x <> true /\
  (exists f, fin_after (s_peerFIN (sd_s x)) (c :: r) = Some f /\ (f = true -> s_localFIN (sd_s y) = true)).
Proof.
  intros Hx H1 H2. destruct (head_cases _ _ _ _ _ Hx H2) as (_ & _ & Hc).
  destruct H1 as [R1 S1 C1 T1 X1 O1 Q1 F1 D1 E1]. destruct H2 as [R2 S2 C2 T2 X2 O2 Q2 F2 D2 E2].
  destruct (Q2 Hx) as (? & [_ ?] & Hl). rewrite len_cons in Hl.
  split; [done|]. split; [split_and!; try done; lia|]. split; [destruct Hc as [(_ & _ & _ & ?)|(_ & _ & ?)]; done|].
  split; [|split; [|auto]].
  - intros Hy. destruct (E1 Hy) as (_ & _ & _ & _ & _ & Hd & _). rewrite data_cons in Hd.
    by apply app_eq_nil in Hd.
  - intros H'. destruct (E2 H'). congruence.
Qed.

Ltac open_head Hx :=
  let H1 := fresh in let H2 := fresh in intros H1 H2;
  destruct (head_gone _ _ _ _ _ Hx H1 H2) as (H0r & HQ & HC & HR1 & HR2 & f & HF & Hf);
  destruct H1 as [R1 S1 C1 T1 X1 O1 Q1 F1 D1 E1]; destruct H2 as [R2 S2 C2 T2 X2 O2 Q2 F2 D2 E2];
  unfold send_credit in *; rewrite Hx in T1.

Lemma receive_open x y q r c :
  sd_removed x = false -> Kind c = CellOpenOK -> Payload c = put_uvarint (sd_window y) ->
  s_recvSeq (sd_s x) = 0 ->
  dir x y q (c :: r) -> dir y x (c :: r) q ->
  let x' := set_stream x (received (sd_s x) c) in dir x' y q r /\ dir y x' r q.
Proof.
  intros Hx Hk Hp Hz. open_head Hx. cbn zeta.
  assert (Hcd : credit_of c = sd_window y) by (unfold credit_of; by rewrite Hk, (parseCredit_window y)).
  assert (Hdd : data_of c = []) by (unfold data_of; by rewrite Hk).
  unfold received. rewrite Hk, Hcd. rewrite credits_cons in T1, X1. rewrite data_cons, Hdd in *.
  rewrite Hz in *. cbn [Z.eqb] in O1. destruct O1 as [O1 O1'].
  split; split; unfold send_credit; cbn; try done.
  - destruct S1, R1. split; cbn; done || lia.
  - rewrite Hx. lia.
  - intros _ Hy Hwx Hwy Hs. specialize (X1 Hx Hy Hwx Hwy Hs). lia.
  - by destruct R2.
  - intros _. exists f. split; [|done]. cbn in HF. by rewrite Hk in HF.
Qed.

Lemma receive_data x y q r c :
  sd_removed x = false -> Kind c = CellData -> s_recvSeq (sd_s x) <> 0 ->
  dir x y q (c :: r) -> dir y x (c :: r) q ->
  let x' := set_stream x (received (sd_s x) c) in dir x' y q r /\ dir y x' r q.
Proof.
  intros Hx Hk Hz. open_head Hx. cbn zeta.
  assert (Hcd : credit_of c = 0) by (unfold credit_of; by rewrite Hk).
  assert (Hdd : data_of c = Payload c) by (unfold data_of; by rewrite Hk).
  unfold received. rewrite Hk. rewrite credits_cons, Hcd in *. rewrite data_cons, Hdd in *.
  rewrite (proj2 (Z.eqb_neq _ _)) in O1 by done. cbn in HF. rewrite Hk in HF.
  destruct (s_peerFIN (sd_s x)) eqn:Epf; [done|].
  set (s := set_recv _ _ _ _ _).
  destruct R2 as [W2 Ch2 P2 B2 V2 Ow2 Th2].
  assert (Hb : buffered s = buffered (sd_s x) ++ Payload c /\ chunks_ok s).
  { unfold s, buffered, chunks_ok in *. cbn. destruct Ch2 as [Hne Hst].
    destruct (Z.eqb_spec (len (Payload c)) 0) as [El|El].
    { rewrite (len_0_nil _ El), app_nil_r. done. }
    rewrite concat_app. cbn [concat]. rewrite app_nil_r. split.
    - rewrite drop_app_le; [done|]. destruct (s_chunks (sd_s x)) as [|c0 cs]; [by rewrite Hst|].
      cbn [concat]. rewrite length_app. unfold len in Hst. lia.
    - split; [apply Forall_app_2; [done|]; constructor; [by intros E; rewrite E in El|done]|].
      destruct (s_chunks (sd_s x)) as [|c0 cs]; cbn; [|done]. rewrite Hst.
      pose proof (len_nonneg (Payload c)). lia. }
  destruct Hb as [Hb Hok]. rewrite len_app in T2, X2.
  pose proof (len_nonneg (data r)). pose proof (credits_nonneg q). pose proof (x_credit _ S2).
  pose proof (owed_nonneg _ Ow2). pose proof (len_nonneg (Payload c)).
  assert (Fs : s_sendCredit s = s_sendCredit (sd_s x) /\ s_pending s = s_pending (sd_s x) /\
    s_recvSeq s = s_recvSeq (sd_s x) + 1 /\ s_sendWindow s = s_sendWindow (sd_s x) /\
    s_recvCredit s = s_recvCredit (sd_s x) - len (Payload c) /\
    s_peerFIN s = false /\ s_localFIN s = s_localFIN (sd_s x) /\ s_sendSeq s = s_sendSeq (sd_s x) /\
    s_writeErr s = s_writeErr (sd_s x) /\ s_resetSent s = s_resetSent (sd_s x) /\
    (Payload c = [] -> s_chunks s = s_chunks (sd_s x)))
    by (unfold s; cbn; split_and!; try done; by intros ->).
  destruct Fs as (Fa & Fb & Fc & Fd & Fe & Ff & Fg & Fh & Fi & Fj & Fk). clearbody s.
  assert (Hn0 : s_recvSeq s <> 0) by lia.
  split; split; unfold send_credit; cbn;
    rewrite ?Hb, ?Fa, ?Fb, ?Fd, ?Ff, ?Fg, ?Fh, ?Fi, ?len_app; try done.
  - destruct S1. split; cbn; rewrite ?Fa, ?Fi, ?Fg, ?Fj; done.
  - rewrite Hx. lia.
  - by rewrite (proj2 (Z.eqb_neq _ _)).
  - intros Hy. destruct (HR1 Hy) as [Hp Hd]. destruct (E1 Hy) as (? & ? & ? & ? & ? & _ & ?).
    rewrite (Fk Hp). by split_and!.
  - split; cbn; rewrite ?Hb, ?Fb, ?Fe, ?len_app; try done; destruct (sd_removed y); lia.
  - intros _. unfold cells_ok. by rewrite (proj2 (Z.eqb_neq _ _)).
  - lia.
  - intros Hy _ Hwy Hwx Hs. specialize (X2 Hy Hx Hwy Hwx Hs). lia.
  - rewrite Fc. done.
  - eauto.
  - destruct D2 as (rest & Hd1 & Hd2 & Hd3). exists (data r). rewrite <- Hd1, (Hd2 Hx), <- app_assoc.
    split_and!; done.
Qed.

Lemma receive_fin x y q r c :
  sd_removed x = false -> Kind c = CellFin -> s_recvSeq (sd_s x) <> 0 ->
  dir x y q (c :: r) -> dir y x (c :: r) q ->
  let x' := set_stream x (received (sd_s x) c) in dir x' y q r /\ dir y x' r q.
Proof.
  intros Hx Hk Hz. open_head Hx. cbn zeta.
  assert (Hcd : credit_of c = 0) by (unfold credit_of; by rewrite Hk).
  assert (Hdd : data_of c = []) by (unfold data_of; by rewrite Hk).
  unfold received. rewrite Hk. rewrite credits_cons, Hcd in *. rewrite data_cons, Hdd in *.
  rewrite (proj2 (Z.eqb_neq _ _)) in O1 by done. cbn in HF. rewrite Hk in HF.
  destruct (s_peerFIN (sd_s x)) eqn:Epf; [done|].
  destruct (fin_after_true _ _ HF) as [-> Hdr].
  split; split; unfold send_credit; cbn; try done.
  - destruct S1. by split.
  - rewrite Hx. lia.
  - by rewrite (proj2 (Z.eqb_neq _ _)) by lia.
  - by destruct R2.
  - intros _. unfold cells_ok. by rewrite (proj2 (Z.eqb_neq _ _)) by (cbn; lia).
  - eauto.
  - destruct D2 as (rest & Hd1 & Hd2 & Hd3). exists rest. rewrite (Hd2 Hx), Hdr in *. cbn in *. by auto.
Qed.

Lemma receive_reset x y q r c :
  sd_removed x = false -> Kind c = CellReset -> s_recvSeq (sd_s x) <> 0 ->
  dir x y q (c :: r) -> dir y x (c :: r) q ->
  let x' := set_stream x (received (sd_s x) c) in dir x' y q r /\ dir y x' r q.
Proof.
  intros Hx Hk Hz. open_head Hx. cbn zeta.
  assert (Hcd : credit_of c = 0) by (unfold credit_of; by rewrite Hk).
  assert (Hdd : data_of c = []) by (unfold data_of; by rewrite Hk).
  unfold received. rewrite Hk. rewrite credits_cons, Hcd in *. rewrite data_cons, Hdd in *.
  rewrite (proj2 (Z.eqb_neq _ _)) in O1 by done. cbn in HF. rewrite Hk in HF.
  split; split; unfold send_credit; cbn; try done.
  - destruct S1. split; cbn; try done. congruence.
  - rewrite Hx. lia.
  - by rewrite (proj2 (Z.eqb_neq _ _)) by lia.
  - by destruct R2.
  - intros _. unfold cells_ok. by rewrite (proj2 (Z.eqb_neq _ _)) by (cbn; lia).
  - eauto.
Qed.

Lemma receive_update x y q r c :
  sd_removed x = false -> Kind c = CellWindowUpdate -> s_recvSeq (sd_s x) <> 0 ->
  dir x y q (c :: r) -> dir y x (c :: r) q ->
  let x' := set_stream x (received (sd_s x) c) in dir x' y q r /\ dir y x' r q.
Proof.
  intros Hx Hk Hz. open_head Hx. cbn zeta.
  assert (Hdd : data_of c = []) by (unfold data_of; by rewrite Hk).
  pose proof (credit_of_nonneg c).
  unfold received. rewrite Hk. rewrite credits_cons in *. rewrite data_cons, Hdd in *.
  rewrite (proj2 (Z.eqb_neq _ _)) in O1 by done. cbn in HF. rewrite Hk in HF.
  split; split; unfold send_credit; cbn; try done.
  - destruct S1. split; cbn; try done. lia.
  - rewrite Hx. lia.
  - intros _ Hy Hwx Hwy Hs. specialize (X1 Hx Hy Hwx Hwy Hs). lia.
  - by rewrite (proj2 (Z.eqb_neq _ _)) by lia.
  - by destruct R2.
  - intros _. unfold cells_ok. by rewrite (proj2 (Z.eqb_neq _ _)) by (cbn; lia).
  - eauto.
Qed.

Lemma receive_dir x y q r c s :
  sd_removed x = false -> handleCell (sd_s x) c = (s, Ok tt) ->
  dir x y q (c :: r) -> dir y x (c :: r) q ->
  let x' := set_stream x s in dir x' y q r /\ dir y x' r q.
Proof.
  intros Hx Hh H1 H2. destruct (accepted _ _ _ _ _ Hx H1 H2) as [[_ E]|[_ E]]; [congruence|].
  rewrite E in Hh. injection Hh as <-.
  destruct (head_cases _ _ _ _ _ Hx H2) as (_ & _ & [(? & ? & ? & _)|(? & Hc & _)]).
  { by apply receive_open. }
  unfold cell_ok in Hc. destruct (Kind c) eqn:Hk; try done.
  - by apply receive_data.
  - by apply receive_fin.
  - by apply receive_reset.
  - by apply receive_update.
Qed.

(** *** Leaving *)

(** A stream that keeps everything but its errors, its reset flag and the
    result of its opening. *)
Definition errs_only (s s' : Stream) : Prop :=
  exists r w b o, s' = mkStream (s_id s) (s_sendSeq s) (s_recvSeq s) (s_sendWindow s) (s_sendCredit s)
    (s_recvCredit s) (s_pending s) (s_chunks s) (s_chunkStart s) (s_peerFIN s) (s_localFIN s) r w b o /\
    w <> None.

Lemma or_else_some e d : or_else e d <> None.
Proof. by destruct e. Qed.

Lemma fail_errs_only s e : errs_only s (fail s e).
Proof. do 4 eexists. split; [reflexivity|]. apply or_else_some. Qed.

Lemma errs_only_frame x s :
  errs_only (sd_s x) s -> frame x (remove (set_stream x s) false).
Proof.
  intros (r & w & b & o & -> & Hw). unfold remove. cbn. destruct (sd_removed x) eqn:Hx.
  - split; cbn; auto. done.
  - split; cbn; auto; [by rewrite orb_false_r|done].
Qed.

(** What a reset after such a failure amounts to. *)
Lemma leave_dir x y q r s1 s2 out :
  errs_only (sd_s x) s1 ->
  (s2 = s1 /\ out = []) \/
  (s2 = advance s1 /\ exists c, out = [c] /\ Kind c = CellReset /\
    Sequence c = s_sendSeq (sd_s x) /\ len (Payload c) = 1) ->
  dir x y q r -> dir y x r q ->
  let x' := remove (set_stream x s2) false in dir x' y (q ++ out) r /\ dir y x' r (q ++ out).
Proof.
  intros Hs Ho H1 H2. cbn zeta.
  destruct (frame_dir x y q r _ (errs_only_frame x s1 Hs) H1 H2) as [H3 H4].
  destruct Ho as [[-> ->]|(-> & c & -> & Hk & Hq & Hl)]; [by rewrite app_nil_r|].
  set (x1 := remove (set_stream x s1) false) in *.
  assert (Hx1 : sd_s x1 = s1 /\ sd_removed x1 = true /\
    remove (set_stream x (advance s1)) false = set_stream x1 (advance (sd_s x1))).
  { unfold x1, remove. cbn. by destruct (sd_removed x) eqn:E. }
  destruct Hx1 as (Hs1 & Hr1 & ->). apply emit_reset_dir; try done.
  rewrite Hs1, Hq. by destruct Hs as (? & ? & ? & ? & -> & _).
Qed.

(** [canRetire] holds only when both directions have drained. *)
Lemma retire_dir x y q r :
  canRetire (sd_window x) (sd_s x) = true -> dir x y q r -> dir y x r q ->
  dir (remove x true) y q r /\ dir y (remove x true) r q.
Proof.
  intros Hc H1 H2. unfold remove. destruct (sd_removed x) eqn:Hx; [done|].
  destruct H1 as [R1 S1 C1 T1 X1 O1 Q1 F1 D1 E1]. destruct H2 as [R2 S2 C2 T2 X2 O2 Q2 F2 D2 E2].
  unfold canRetire in Hc. guards. zb. unfold send_credit in T1. rewrite Hx in T1.
  destruct (Z.eqb_spec (s_recvSeq (sd_s x)) 0) as [|Hz]; [lia|].
  pose proof (len_nonneg (data q)). pose proof (len_nonneg (buffered (sd_s y))).
  pose proof (credits_nonneg r). pose proof (r_pending _ R1). pose proof (owed_nonneg _ (r_owed _ R1)).
  assert (Hd : data q = []) by (apply len_0_nil; lia).
  assert (Hch : s_chunks (sd_s y) = []) by (apply buffered_chunks; [by destruct R1|apply len_0_nil; lia]).
  assert (Hoy : sd_owed y = []) by (apply owed_zero; [by destruct R1|lia]).
  destruct (F2 Hx) as (f & Ef & Hf). assert (Hpf : s_peerFIN (sd_s x) = true) by done. rewrite Hpf in Ef.
  destruct (fin_after_true _ _ Ef) as [-> Hdr].
  assert (Hreset : Forall (fun c => Kind c = CellReset) r).
  { specialize (C2 Hx). unfold cells_ok in C2. rewrite (proj2 (Z.eqb_neq _ _)) in C2 by done.
    assert (Hcr : credits r <= 0) by lia. clear -C2 Hcr Ef.
    induction C2 as [|c r Hok _ IH]; [constructor|]. rewrite credits_cons in Hcr.
    pose proof (credits_nonneg r). pose proof (credit_of_nonneg c). cbn in Ef.
    unfold cell_ok, credit_of in *. destruct (Kind c) eqn:Hk; try done.
    - constructor; [done|]. apply IH; [done|lia].
    - destruct Hok as (n & Hn & Hp). rewrite Hp, parseCredit_put in Hcr
        by (unfold MaxInitialWindow, MaxInt64 in *; lia). lia. }
  split; split; unfold send_credit; cbn; try done.
  - destruct S1. split; cbn; auto.
  - lia.
  - by rewrite (proj2 (Z.eqb_neq _ _)).
  - by destruct R2.
  - destruct D2 as (rest & ? & ? & ?). exists rest. by split_and!.
  - intros _. split_and!; try done; [lia|auto].
Qed.

(** *** Every step *)

Lemma send_reset_leave s code s' o :
  send_reset s code = (s', o) ->
  let out := match o with Ok c => opt_list c | Err _ => [] end in
  (exists b, (b = s_resetSent s \/ b = true) /\ let s1 := if b then set_resetSent s else s in
   (s' = s1 /\ out = [] \/
    s' = advance s1 /\ exists c, out = [c] /\ Kind c = CellReset /\ Sequence c = s_sendSeq s /\ len (Payload c) = 1)).
Proof.
  intros H. destruct (send_reset_cases _ _ _ _ H) as [[Ho [->| ->]]|(-> & c & ? & ? & ? & ?)].
  - exists (s_resetSent s). split; [auto|]. left. split; [|done]. destruct (s_resetSent s) eqn:E; [|done].
    destruct s. cbn in *. by subst.
  - exists true. split; auto.
  - exists true. split; [auto|]. right. split; [done|]. eauto.
Qed.

Lemma set_stream_id x : set_stream x (sd_s x) = x.
Proof. by destruct x. Qed.

Lemma owed_frame x y q r o1 n o2 :
  sd_owed x = o1 ++ n :: o2 -> s_writeErr (sd_s x) <> None \/ MaxSequence < s_sendSeq (sd_s x) ->
  dir x y q r -> dir y x r q -> frame x (set_owed (set_stream x (sd_s x)) (o1 ++ o2)).
Proof.
  intros Ho Hw H1 H2. destruct (d_send _ _ _ _ H1). pose proof (r_owed _ (d_recv _ _ _ _ H2)) as Hf.
  rewrite Ho in Hf. apply Forall_app in Hf as [? [? ?]%Forall_cons_1].
  split; cbn; auto. right. split; [by apply Forall_app_2|].
  rewrite Ho, !zsum_app. split; [unfold zsum; cbn; lia|]. split; [by destruct o1|done].
Qed.

Lemma act_dir x y q r x' out r' :
  act x r x' out r' -> dir x y q r -> dir y x r q ->
  dir x' y (q ++ out) r' /\ dir y x' r' (q ++ out).
Proof.
  intros H. destruct H as [x r rest s cell Hr Hw|x r rest s e Hw|x r room s bytes credit Hr Hd
    |x r room s credit Hr Hd|x r o1 n o2 s cell Ho Hw|x r o1 n o2 s e Ho Hw|x r s cell Hc|x r s e Hc
    |x r retire Hc|x r s s' o Hc Hs|x r Hc|x r s' o e Hs|x r e|x r cell Hrm|x r cell s Hrm Hh
    |x r cell s e s' o Hrm Hh Hs]; intros H1 H2; cbn zeta; rewrite ?app_nil_r.
  - eapply write_dir; eauto.
  - destruct (write_fail_dir _ _ _ _ _ _ _ Hw H1 H2) as [H3 H4]. by rewrite app_nil_r in H3, H4.
  - eapply read_dir; eauto.
  - eapply read_eof_dir; eauto.
  - apply window_update_ok in Hw as (? & -> & ? & ? & ?). eapply grant_dir; eauto.
  - apply window_update_err in Hw as (-> & Hw). apply (frame_dir x); [|done..].
    by apply (owed_frame x y q r o1 n o2).
  - destruct (close_write_ok _ _ _ Hc) as [[-> ->]|(? & ? & -> & c & -> & ? & ? & ?)].
    + cbn. by rewrite app_nil_r, set_stream_id.
    + by apply fin_dir.
  - destruct (frame_id x y q r H1 H2). destruct (d_send _ _ _ _ H1).
    destruct (close_write_err _ _ _ Hc) as [-> | ->]; apply (frame_dir x); try done; split; cbn; auto.
  - destruct retire; [|done]. apply retire_dir; try done. unfold close_section in Hc.
    destruct (_ && _); [|done]. by injection Hc as ->.
  - unfold close_section in Hc. destruct (_ && _); [done|]. injection Hc as <-.
    destruct (send_reset_leave _ _ _ _ Hs) as (b & _ & Hout). cbn zeta in Hout.
    eapply leave_dir; [|exact Hout|done..].
    destruct b; do 4 eexists; (split; [reflexivity|cbn; apply or_else_some]).
  - by apply retire_dir.
  - destruct (send_reset_leave _ _ _ _ Hs) as (b & _ & Hout). cbn zeta in Hout.
    set (s1 := if b then _ else _) in Hout.
    apply (leave_dir x y q r (fail s1 e)); [| |done..].
    + unfold s1. destruct b; do 4 eexists; (split; [reflexivity|cbn; apply or_else_some]).
    + destruct Hout as [[-> ->]|(-> & ?)]; [by left|right; by split].
  - apply (frame_dir x); try done. destruct (d_send _ _ _ _ H1).
    split; cbn; auto; [by destruct (s_writeErr _)|].
    intros ?. left. apply or_else_some.
  - by apply (drop_dir x y q r cell).
  - destruct (receive_dir _ _ _ _ _ _ Hrm Hh H1 H2) as [H3 H4].
    destruct (accepted _ _ _ _ _ Hrm H1 H2) as [[_ E]|[_ E]]; [congruence|].
    rewrite E in Hh. injection Hh as <-. case_bool_decide as Hk.
    + apply (frame_dir _ _ _ _ _) with (2 := H3) (3 := H4). unfold remove. cbn. rewrite Hrm.
      unfold received. rewrite Hk. split; cbn; auto; try by rewrite orb_false_r.
    + destruct (canRetire _ _) eqn:Hc; [|done]. by apply retire_dir.
  - destruct (accepted _ _ _ _ _ Hrm H1 H2) as [[_ E]|[_ E]]; [|congruence].
    rewrite E in Hh. injection Hh as <- <-.
    destruct (send_reset_leave _ _ _ _ Hs) as (b & _ & Hout). cbn zeta in Hout.
    set (s1 := if b then _ else _) in Hout.
    assert (Hs1 : errs_only (sd_s x) s1)
      by (unfold s1; destruct b; do 4 eexists; (split; [reflexivity|cbn; apply or_else_some])).
    destruct (leave_dir _ _ _ _ s1 _ _ Hs1 Hout H1 H2) as [H3 H4].
    apply (drop_dir _ _ _ _ cell); try done. unfold remove. cbn. by rewrite Hrm.
Qed.

(** ** The link *)

Definition link_inv (l : link) : Prop :=
  dir (lk_a l) (lk_b l) (lk_ab l) (lk_ba l) /\ dir (lk_b l) (lk_a l) (lk_ba l) (lk_ab l).

Definition window_ok (w : Z) : Prop := 0 < w <= MaxInitialWindow.

Lemma opened_inv id wa wb : window_ok wa -> window_ok wb -> link_inv (opened id wa wb).
Proof.
  intros Ha Hb. unfold window_ok in *.
  assert (Hc : credits [mkCell CellOpenOK id 0 (put_uvarint wb) []] = wb).
  { rewrite credits_one. unfold credit_of. cbn -[parseCredit put_uvarint].
    rewrite parseCredit_put; [done|]. unfold MaxInitialWindow, MaxInt64 in *. lia. }
  pose proof (windowUpdateThreshold_bounds wa ltac:(lia)).
  pose proof (windowUpdateThreshold_bounds wb ltac:(lia)).
  assert (Hd : data [mkCell CellOpenOK id 0 (put_uvarint wb) []] = []) by done.
  split; split; cbn -[credits put_uvarint data]; try rewrite Hc; try rewrite Hd; try done.
  all: try (intros _; unfold cells_ok; cbn; by repeat eexists).
  all: try (by exists []).
  all: try (split; unfold chunks_ok, buffered, len; cbn; done || lia || auto).
  all: unfold buffered, len, credits, zsum; cbn; rewrite ?drop_nil; cbn; lia.
Qed.

Lemma link_step_inv l l' : link_step l l' -> link_inv l -> link_inv l'.
Proof.
  intros [a b ab ba a' out ba' H|a b ab ba b' out ab' H] [H1 H2]; cbn in *.
  - destruct (act_dir a b ab ba a' out ba' H H1 H2). by split.
  - destruct (act_dir b a ba ab b' out ab' H H2 H1). by split.
Qed.

Lemma link_reachable_inv id wa wb l :
  window_ok wa -> window_ok wb -> link_reachable (opened id wa wb) l -> link_inv l.
Proof.
  intros Ha Hb. induction 1 as [|l l' _ IH Hs]; [by apply opened_inv|]. by eapply link_step_inv.
Qed.

(** A property of the pair (sender, receiver) in both directions. *)
Definition both (P : side -> side -> list Cell -> list Cell -> Prop) (l : link) : Prop :=
  P (lk_a l) (lk_b l) (lk_ab l) (lk_ba l) /\ P (lk_b l) (lk_a l) (lk_ba l) (lk_ab l).

Lemma both_intro P l :
  (forall x y q r, dir x y q r -> dir y x r q -> P x y q r) -> link_inv l -> both P l.
Proof. intros H [? ?]. split; auto. Qed.

(** C8: two endpoints that follow the code never cause a protocol violation:
    whatever they write, read, close and reset, the next cell for a live
    endpoint is accepted by its [handleCell] (right kind, next sequence
    number, within the announced window, no DATA after FIN), as long as its
    sequence counter has not reached [MaxSequence]. *)
Theorem honest_cells_accepted id wa wb l :
  window_ok wa -> window_ok wb -> link_reachable (opened id wa wb) l ->
  both (fun x y q r => forall c r', r = c :: r' -> sd_removed x = false ->
    s_recvSeq (sd_s x) <> MaxSequence -> exists s, handleCell (sd_s x) c = (s, Ok tt)) l.
Proof.
  intros Ha Hb Hl. apply both_intro; [|exact (link_reachable_inv id wa wb l Ha Hb Hl)].
  intros x y q r H1 H2 c r' -> Hx Hs.
  destruct (accepted _ _ _ _ _ Hx H1 H2) as [[? _]|[_ ?]]; [done|eauto].
Qed.

(** What an endpoint that has forgotten its stream knows: [canRetire] holds
    only when the peer has closed its direction and every chunk was read. *)
Definition retired_ok (x : side) : Prop :=
  sd_retired x = true -> sd_removed x = true /\ s_peerFIN (sd_s x) = true /\ s_chunks (sd_s x) = [].

Lemma canRetire_drained w s :
  canRetire w s = true -> s_peerFIN s = true /\ s_chunks s = [].
Proof.
  unfold canRetire. rewrite !andb_true_iff. intros [[[[[[_ Hp] Hc] _] _] _] _]. split; [done|].
  apply Z.eqb_eq in Hc. destruct (s_chunks s) as [|c l]; [done|].
  rewrite len_cons in Hc. pose proof (len_nonneg l). lia.
Qed.

(** A section that leaves the receiving state alone keeps it. *)
Lemma retired_ok_keep x x' :
  retired_ok x -> sd_retired x' = sd_retired x -> sd_removed x' = sd_removed x ->
  s_peerFIN (sd_s x') = s_peerFIN (sd_s x) ->
  (s_chunks (sd_s x) = [] -> s_chunks (sd_s x') = []) -> retired_ok x'.
Proof. unfold retired_ok. intros H -> -> -> Hc Hr. destruct (H Hr) as (? & ? & ?). auto. Qed.

Lemma retired_ok_remove x : retired_ok x -> retired_ok (remove x false).
Proof.
  unfold retired_ok, remove. destruct (sd_removed x) eqn:E; [by rewrite E|]. cbn.
  rewrite orb_false_r. intros H Hr. destruct (H Hr). congruence.
Qed.

Lemma retired_ok_retire w x : retired_ok x -> canRetire w (sd_s x) = true -> retired_ok (remove x true).
Proof.
  intros H Hc. unfold retired_ok, remove. destruct (sd_removed x) eqn:E; [done|].
  intros _. cbn. split; [done|]. by eapply canRetire_drained.
Qed.

(** The sections that are not [handleCell] leave [peerFIN] alone and add no
    chunk. *)
Definition keeps_drained (s s' : Stream) : Prop :=
  s_peerFIN s' = s_peerFIN s /\ (s_chunks s = [] -> s_chunks s' = []).

Lemma keeps_set_errs s r w : keeps_drained s (set_errs s r w).
Proof. done. Qed.

Lemma keeps_fail s e : keeps_drained s (fail s e).
Proof. unfold keeps_drained, fail, completeOpen. by destruct (s_open _). Qed.

Lemma keeps_next s s' o : nextSendSequence s = (s', o) -> keeps_drained s s'.
Proof. unfold nextSendSequence. by destruct (_ <? _); intros [= <- _]. Qed.

Lemma keeps_trans s1 s2 s3 : keeps_drained s1 s2 -> keeps_drained s2 s3 -> keeps_drained s1 s3.
Proof. intros [? ?] [? ?]. split; [congruence|auto]. Qed.

Lemma keeps_send_reset s code s' o : send_reset s code = (s', o) -> keeps_drained s s'.
Proof.
  unfold send_reset. destruct (s_resetSent s); [by intros [= <- _]|].
  assert (H : forall s' o, nextSendSequence (set_resetSent s) = (s', o) -> keeps_drained s s').
  { intros ? ? E. exact (keeps_next _ _ _ E). }
  destruct (s_writeErr s); [destruct (_ && _); [by intros [= <- _]|]|];
    destruct (nextSendSequence _) as [? []] eqn:E; intros [= <- _]; eauto.
Qed.

Lemma keeps_window_update s n s' o : window_update s n = (s', o) -> keeps_drained s s'.
Proof.
  unfold window_update. destruct (s_writeErr s); [by intros [= <- _]|].
  destruct (nextSendSequence s) as [? []] eqn:E; intros [= <- _]; by eapply keeps_next.
Qed.

Lemma keeps_close_write s s' o : close_write s = (s', o) -> keeps_drained s s'.
Proof.
  unfold close_write. destruct (s_writeErr s); [by intros [= <- _]|].
  destruct (s_localFIN s); [by intros [= <- _]|].
  destruct (nextSendSequence _) as [? []] eqn:E; intros [= <- _]; exact (keeps_next _ _ _ E).
Qed.

Lemma keeps_write s rest :
  match write_section s rest with WriteSend s' _ | WriteFail s' _ => keeps_drained s s' | _ => True end.
Proof.
  unfold write_section. destruct (s_writeErr s); [done|]. destruct (s_localFIN s); [done|].
  destruct (_ =? _); [done|]. destruct (nextSendSequence _) as [s1 []] eqn:E; [exact (keeps_next _ _ _ E)|].
  eapply keeps_trans; [exact (keeps_next _ _ _ E)|apply keeps_fail].
Qed.

Lemma keeps_read w s room :
  match read_section w s room with
  | ReadData s' _ _ | ReadEOF s' _ => keeps_drained s s' | _ => True end.
Proof.
  assert (H : forall s s' f c, takePendingCredit w s f = (s', c) -> keeps_drained s s').
  { intros ? ? ? ?. unfold takePendingCredit. by destruct (_ || _); intros [= <- _]. }
  unfold read_section. destruct (s_chunks s) eqn:Ec.
  - destruct (s_readErr s); [done|]. destruct (s_peerFIN s); [|done].
    destruct (takePendingCredit _ _ _) eqn:E. by eapply H.
  - destruct (takePendingCredit _ _ _) eqn:E. apply H in E as [E _]. split; [done|]. by rewrite Ec.
Qed.

Lemma keeps_close w s s' : close_section w s = inr s' -> keeps_drained s s'.
Proof. unfold close_section. destruct (_ && _); [done|]. by intros [= <-]. Qed.

Lemma retired_ok_stream x s : retired_ok x -> keeps_drained (sd_s x) s -> retired_ok (set_stream x s).
Proof. intros H [? ?]. by apply (retired_ok_keep x). Qed.

Lemma retired_ok_live x s : retired_ok x -> sd_removed x = false -> retired_ok (set_stream x s).
Proof. intros H Hx Hr. destruct (H Hr). congruence. Qed.

Lemma retired_ok_owe x credit : retired_ok x -> retired_ok (owe x credit).
Proof. unfold owe. by destruct (_ =? _). Qed.

Lemma act_retired_ok x q x' out q' : act x q x' out q' -> retired_ok x -> retired_ok x'.
Proof.
  destruct 1 as [x q rest s cell _ E|x q rest s e E|x q room s bytes credit _ E|x q room s credit _ E
    |x q o1 credit o2 s cell _ E|x q o1 credit o2 s e _ E|x q s cell E|x q s e E|x q retire E
    |x q s s' o E E'|x q E|x q s' o e E|x q e|x q cell E|x q cell s Hrm E x'|x q cell s e s' o Hrm E E'];
    intros H.
  - pose proof (keeps_write (sd_s x) rest) as K. rewrite E in K. by apply (retired_ok_stream x).
  - pose proof (keeps_write (sd_s x) rest) as K. rewrite E in K. by apply (retired_ok_stream x).
  - pose proof (keeps_read (sd_window x) (sd_s x) room) as K. rewrite E in K.
    apply retired_ok_owe. by apply (retired_ok_stream x).
  - pose proof (keeps_read (sd_window x) (sd_s x) room) as K. rewrite E in K.
    apply retired_ok_owe. by apply (retired_ok_stream x).
  - apply keeps_window_update in E. by apply (retired_ok_stream x).
  - apply keeps_window_update in E. by apply (retired_ok_stream x).
  - apply keeps_close_write in E. by apply (retired_ok_stream x).
  - apply keeps_close_write in E. by apply (retired_ok_stream x).
  - destruct retire; [|done]. unfold close_section in E. destruct (_ && _); [|done].
    injection E as E. by eapply retired_ok_retire.
  - apply retired_ok_remove, retired_ok_stream; [done|].
    eapply keeps_trans; [by eapply keeps_close|by eapply keeps_send_reset].
  - by eapply retired_ok_retire.
  - apply retired_ok_remove, retired_ok_stream; [done|].
    eapply keeps_trans; [by eapply keeps_send_reset|apply keeps_fail].
  - apply retired_ok_stream; [done|apply keeps_fail].
  - done.
  - pose proof (retired_ok_live x s H Hrm). destruct (bool_decide _); [by apply retired_ok_remove|].
    destruct (canRetire _ _) eqn:Ec; [|done]. by eapply retired_ok_retire.
  - by apply retired_ok_remove, retired_ok_live.
Qed.

Lemma link_retired_ok id wa wb l :
  link_reachable (opened id wa wb) l -> retired_ok (lk_a l) /\ retired_ok (lk_b l).
Proof.
  induction 1 as [|l l' _ [H1 H2] Hs]; [done|].
  destruct Hs as [a b ab ba a' out ba' H|a b ab ba b' out ab' H]; cbn in *; eauto using act_retired_ok.
Qed.

(** C2: what an endpoint has read, what it has buffered and the DATA in
    flight to it are exactly, and in this order, the bytes its peer wrote, as
    long as it holds the stream; an endpoint that forgets the stream because
    it is drained ([canRetire]) has read everything, and one that closes,
    resets or aborts it keeps a prefix.  [Read] reports the end of the stream
    only after all the bytes, and when the peer has closed its direction. *)
Theorem stream_delivers id wa wb l :
  window_ok wa -> window_ok wb -> link_reachable (opened id wa wb) l ->
  both (fun x y q r =>
    (sd_removed y = false -> sd_written x = sd_read y ++ buffered (sd_s y) ++ data q) /\
    (sd_retired y = true -> sd_written x = sd_read y) /\
    (exists lost, sd_written x = sd_read y ++ buffered (sd_s y) ++ lost) /\
    forall room s credit, read_section (sd_window y) (sd_s y) room = ReadEOF s credit ->
      sd_read y = sd_written x /\ s_localFIN (sd_s x) = true) l.
Proof.
  intros Ha Hb Hl. pose proof (link_retired_ok _ _ _ _ Hl) as [Ra Rb].
  assert (Hd : forall x y q r, retired_ok y -> dir x y q r ->
    (sd_removed y = false -> sd_written x = sd_read y ++ buffered (sd_s y) ++ data q) /\
    (sd_retired y = true -> sd_written x = sd_read y) /\
    (exists lost, sd_written x = sd_read y ++ buffered (sd_s y) ++ lost) /\
    forall room s credit, read_section (sd_window y) (sd_s y) room = ReadEOF s credit ->
      sd_read y = sd_written x /\ s_localFIN (sd_s x) = true).
  { intros x y q r Hr H1. destruct (d_data _ _ _ _ H1) as (rest & Hd & Hrm & Hf). split_and!.
    - intros Hy. by rewrite <- Hd, (Hrm Hy).
    - intros Hy. destruct (Hr Hy) as (_ & Hp & Hc). destruct (Hf Hp) as [-> _].
      by rewrite <- Hd, (buffered_nil _ Hc), app_nil_r.
    - by exists rest.
    - intros room s credit. unfold read_section.
      destruct (s_chunks (sd_s y)) eqn:E; [|by destruct (takePendingCredit _ _ _)].
      destruct (s_readErr (sd_s y)); [done|]. destruct (s_peerFIN (sd_s y)); [|done]. intros _.
      destruct (Hf eq_refl) as [-> ?]. rewrite (buffered_nil _ E), !app_nil_r in Hd. done. }
  destruct (link_reachable_inv id wa wb l Ha Hb Hl) as [H1 H2].
  split; [exact (Hd _ _ _ _ Rb H1)|exact (Hd _ _ _ _ Ra H2)].
Qed.

(** flow control bounds the memory of a receiver: the bytes on their way
    to it and the bytes it buffers never exceed the window it announced. *)
Theorem stream_window_bound id wa wb l :
  window_ok wa -> window_ok wb -> link_reachable (opened id wa wb) l ->
  both (fun x y q r => len (data q) + len (buffered (sd_s y)) <= sd_window y /\
    0 <= s_sendCredit (sd_s x)) l.
Proof.
  intros Ha Hb Hl. apply both_intro; [|exact (link_reachable_inv id wa wb l Ha Hb Hl)].
  intros x y q r H1 H2. destruct H1 as [[] [] _ T1 _ _ _ _ _ _].
  pose proof (credits_nonneg r). pose proof (owed_nonneg _ r_owed0). unfold send_credit in T1.
  destruct (sd_removed x); lia.
Qed.

(** C7: credit is never lost: when nothing is in flight, the receiver has
    read everything and owes no window update, the sender holds at least the
    receiver's window less the credit kept back below the update threshold,
    so its [Write] never waits. *)
Theorem stream_no_deadlock id wa wb l :
  window_ok wa -> window_ok wb -> link_reachable (opened id wa wb) l ->
  both (fun x y q r => q = [] -> r = [] -> sd_owed y = [] -> s_chunks (sd_s y) = [] ->
    sd_removed x = false -> sd_removed y = false ->
    s_writeErr (sd_s x) = None -> s_writeErr (sd_s y) = None ->
    s_sendSeq (sd_s y) <= MaxSequence ->
    sd_window y - windowUpdateThreshold (sd_window y) < s_sendCredit (sd_s x) <= sd_window y /\
    forall rest, write_section (sd_s x) rest <> WriteWait) l.
Proof.
  intros Ha Hb Hl. apply both_intro; [|exact (link_reachable_inv id wa wb l Ha Hb Hl)].
  intros x y q r H1 H2 -> -> Ho Hc Hx Hy Hwx Hwy Hs.
  destruct H1 as [[] _ _ _ X1 _ _ _ _ _]. specialize (X1 Hx Hy Hwx Hwy Hs).
  pose proof (windowUpdateThreshold_bounds (sd_window y) ltac:(lia)).
  rewrite Ho, (buffered_nil _ Hc) in X1. unfold credits, zsum, data, len in X1. cbn in X1.
  assert (Hcr : sd_window y - windowUpdateThreshold (sd_window y) < s_sendCredit (sd_s x) <= sd_window y) by lia.
  split; [done|]. intros rest. unfold write_section. rewrite Hwx. destruct (s_localFIN _); [done|].
  rewrite (proj2 (Z.eqb_neq _ _)) by lia. by destruct (nextSendSequence _) as [? [|]].
Qed.

(** [canRetire] is safe: after an endpoint forgets a stream that drained
    in both directions, its peer has closed its writing direction, owes no
    window update and only RESET cells can still arrive. *)
Theorem retired_only_resets id wa wb l :
  window_ok wa -> window_ok wb -> link_reachable (opened id wa wb) l ->
  both (fun x y q r => sd_retired y = true ->
    Forall (fun c => Kind c = CellReset) q /\ s_localFIN (sd_s x) = true /\ sd_owed x = [] /\
    s_chunks (sd_s x) = []) l.
Proof.
  intros Ha Hb Hl. apply both_intro; [|exact (link_reachable_inv id wa wb l Ha Hb Hl)].
  intros x y q r H1 _ Hy. destruct (d_retired _ _ _ _ H1 Hy) as (_ & ? & ? & ? & _ & _ & ?). done.
Qed.

Lemma forward_a l0 l a' out ba' :
  link_reachable l0 l -> act (lk_a l) (lk_ba l) a' out ba' ->
  link_reachable l0 (mkLink a' (lk_b l) (lk_ab l ++ out) ba').
Proof. intros H Ha. eapply link_more; [done|]. destruct l. by apply step_a. Qed.

Lemma forward_b l0 l b' out ab' :
  link_reachable l0 l -> act (lk_b l) (lk_ab l) b' out ab' ->
  link_reachable l0 (mkLink (lk_a l) b' ab' (lk_ba l ++ out)).
Proof. intros H Hb. eapply link_more; [done|]. destruct l. by apply step_b. Qed.

(** A complete exchange: [a] writes two bytes and closes; [b] reads them and
    the end of the stream, closes its side and forgets the stream. *)
Module LinkExample.

Ltac move_a R tac := eapply forward_a in R; [|tac]; vm_compute in R.
Ltac move_b R tac := eapply forward_b in R; [|tac]; vm_compute in R.
Ltac receives := eapply act_receive; vm_compute; reflexivity.

Lemma opened_up : exists l,
  link_reachable (opened 1 8 8) l /\ lk_ab l = [] /\ lk_ba l = [] /\
  sd_owed (lk_b l) = [] /\ s_chunks (sd_s (lk_b l)) = [] /\
  sd_removed (lk_a l) = false /\ sd_removed (lk_b l) = false /\
  s_writeErr (sd_s (lk_a l)) = None /\ s_writeErr (sd_s (lk_b l)) = None /\
  s_sendSeq (sd_s (lk_b l)) = 1 /\ sd_window (lk_b l) = 8.
Proof.
  pose proof (link_refl (opened 1 8 8)) as R. vm_compute in R.
  move_a R receives.
  eexists. split; [exact R|]. by split_and!.
Qed.

Lemma exchange : exists l,
  link_reachable (opened 1 8 8) l /\ sd_written (lk_a l) = [x68; x69] /\ sd_read (lk_b l) = [x68; x69] /\
  sd_retired (lk_b l) = true /\ sd_removed (lk_a l) = false /\ s_recvSeq (sd_s (lk_a l)) = 1 /\
  exists c r, lk_ba l = c :: r /\ Kind c = CellWindowUpdate.
Proof.
  pose proof (link_refl (opened 1 8 8)) as R. vm_compute in R.
  move_a R receives.
  move_a R ltac:(eapply (act_write _ _ [x68; x69]); [done|vm_compute; reflexivity]).
  move_a R ltac:(eapply act_close_write; vm_compute; reflexivity).
  move_b R receives.
  move_b R receives.
  move_b R ltac:(eapply (act_read _ _ 4); [done|vm_compute; reflexivity]).
  move_b R ltac:(eapply (act_grant _ _ [] 2 []); vm_compute; reflexivity).
  move_b R ltac:(eapply (act_read_eof _ _ 4); [done|vm_compute; reflexivity]).
  move_b R ltac:(eapply act_close_write; vm_compute; reflexivity).
  move_b R ltac:(apply act_retire; vm_compute; reflexivity).
  eexists. split; [exact R|]. split_and!; try done. by do 2 eexists.
Qed.

Lemma window8 : window_ok 8.
Proof. by unfold window_ok, MaxInitialWindow. Qed.

Lemma honest_cells_accepted_witness : exists l c s,
  link_reachable (opened 1 8 8) l /\ Kind c = CellWindowUpdate /\
  handleCell (sd_s (lk_a l)) c = (s, Ok tt).
Proof.
  destruct exchange as (l & Hl & _ & _ & _ & Hrm & Hrs & c & r & Hq & Hk).
  destruct (honest_cells_accepted 1 8 8 l window8 window8 Hl) as [H _].
  destruct (H c r Hq Hrm) as [s Hs]; [by rewrite Hrs|]. by exists l, c, s.
Defined.

Lemma stream_delivers_witness : exists l,
  link_reachable (opened 1 8 8) l /\ sd_retired (lk_b l) = true /\
  sd_read (lk_b l) = [x68; x69] /\ sd_written (lk_a l) = sd_read (lk_b l).
Proof.
  destruct exchange as (l & Hl & Hw & Hr & Ht & _).
  destruct (stream_delivers 1 8 8 l window8 window8 Hl) as [(_ & H & _) _]. exists l. auto.
Defined.

Lemma stream_window_bound_witness : exists l,
  link_reachable (opened 1 8 8) l /\ sd_written (lk_a l) = [x68; x69] /\ 0 <= s_sendCredit (sd_s (lk_a l)).
Proof.
  destruct exchange as (l & Hl & Hw & _).
  destruct (stream_window_bound 1 8 8 l window8 window8 Hl) as [[_ H] _]. by exists l.
Defined.

Lemma stream_no_deadlock_witness : exists l,
  link_reachable (opened 1 8 8) l /\ 8 - windowUpdateThreshold 8 < s_sendCredit (sd_s (lk_a l)) <= 8.
Proof.
  destruct opened_up as (l & Hl & Hq & Hr & Ho & Hc & H1 & H2 & H3 & H4 & H5 & H6).
  destruct (stream_no_deadlock 1 8 8 l window8 window8 Hl) as [H _]. exists l. split; [done|].
  rewrite <- H6. apply H; try done. by rewrite H5.
Defined.

Lemma retired_only_resets_witness : exists l,
  link_reachable (opened 1 8 8) l /\ sd_retired (lk_b l) = true /\ s_localFIN (sd_s (lk_a l)) = true.
Proof.
  destruct exchange as (l & Hl & _ & _ & Hrt & _).
  destruct (retired_only_resets 1 8 8 l window8 window8 Hl) as [H _].
  destruct (H Hrt) as (_ & Hf & _). by exists l.
Defined.

(** The sender uses the sequence number [MaxSequence]; the receiver rejects
    it and the stream is reset as a protocol violation. *)
Theorem last_sequence_rejected : exists s s' c r,
  s_sendSeq s = MaxSequence /\ window_update s 1 = (s', Ok c) /\ Sequence c = MaxSequence /\
  s_recvSeq r = MaxSequence /\ s_sendWindow r = 8 /\ s_sendCredit r = 0 /\
  snd (handleCell r c) = Err ErrProtocol.
Proof.
  exists (set_sendSeq (newStream 1 8 8 false) MaxSequence). do 2 eexists.
  exists (set_send (set_recvSeq (newStream 1 8 8 false) MaxSequence) 8 0).
  split; [reflexivity|]. split; [reflexivity|]. by split_and!.
Qed.
End LinkExample.
