(* ===== verification/Mux.v ===== *)
(** * The multiplexer (internal/session/session.go, extension.go)

    The state of a [Mux] and its handlers.  Streams and incoming requests are
    shared objects in the code ([streams[id]] and the application hold the
    same pointer), so they live in stores indexed by position.  [cr] is what
    [carrier.Send] answers to the cell an operation sends; the cells handed to
    the carrier are recorded in [m_sent].  [m.done] is closed exactly when
    [m_err] is set.  Counters of [stats] and the type of a terminal error
    beyond its sentinel are not modelled; SHA-256 is a parameter. *)
From stdpp Require Import prelude list gmap sorting.
From S2P Require Import Prelude Varint Cell Extension Stream.

Definition MaxOpenMetadata : Z := 1024.
Definition minRetiredStreams : Z := 1024.
Definition retiredStreamFactor : Z := 8.
Definition maxQueuedExtensionMessages : Z := 16.
Definition maxRememberedExtensionIDs : Z := 64.
Definition maxPendingPings : Z := 16.

(** [Incoming]: [in_obj] is its stream. *)
Record Incoming := mkIncoming {
  in_obj : nat;
  in_metadata : list byte;
  in_handled : bool
}.

(** The extension state behind [extensionMu], with the channel. *)
Record Extensions := mkExtensions {
  x_seen : gmap Z (list byte);
  x_order : list Z;
  x_highest : Z;
  x_queue : list ExtensionEnvelope
}.

(** [m_blocked]: the incoming request the read loop waits to enqueue. *)
Record Mux := mkMux {
  m_role : Z;
  m_typeMap : TypeMap;
  m_initialWindow : Z;
  m_maxStreams : Z;
  m_retiredLimit : Z;
  m_objects : list Stream;
  m_streams : gmap Z nat;
  m_retired : gset Z;
  m_retiredOrder : list Z;
  m_nextID : Z;
  m_requests : list Incoming;
  m_incoming : list nat;
  m_blocked : option nat;
  m_extensions : Extensions;
  m_pings : gset (list byte);
  m_err : option error;
  m_sent : list (list byte)
}.

Definition set_objects (m : Mux) (os : list Stream) : Mux :=
  mkMux (m_role m) (m_typeMap m) (m_initialWindow m) (m_maxStreams m) (m_retiredLimit m) os (m_streams m)
    (m_retired m) (m_retiredOrder m) (m_nextID m) (m_requests m) (m_incoming m) (m_blocked m)
    (m_extensions m) (m_pings m) (m_err m) (m_sent m).
Definition set_streams (m : Mux) (ss : gmap Z nat) (nextID : Z) : Mux :=
  mkMux (m_role m) (m_typeMap m) (m_initialWindow m) (m_maxStreams m) (m_retiredLimit m) (m_objects m) ss
    (m_retired m) (m_retiredOrder m) nextID (m_requests m) (m_incoming m) (m_blocked m)
    (m_extensions m) (m_pings m) (m_err m) (m_sent m).
Definition set_retired (m : Mux) (r : gset Z) (order : list Z) : Mux :=
  mkMux (m_role m) (m_typeMap m) (m_initialWindow m) (m_maxStreams m) (m_retiredLimit m) (m_objects m)
    (m_streams m) r order (m_nextID m) (m_requests m) (m_incoming m) (m_blocked m)
    (m_extensions m) (m_pings m) (m_err m) (m_sent m).
Definition set_requests (m : Mux) (rs : list Incoming) (queue : list nat) (blocked : option nat) : Mux :=
  mkMux (m_role m) (m_typeMap m) (m_initialWindow m) (m_maxStreams m) (m_retiredLimit m) (m_objects m)
    (m_streams m) (m_retired m) (m_retiredOrder m) (m_nextID m) rs queue blocked
    (m_extensions m) (m_pings m) (m_err m) (m_sent m).
Definition set_extensions (m : Mux) (x : Extensions) : Mux :=
  mkMux (m_role m) (m_typeMap m) (m_initialWindow m) (m_maxStreams m) (m_retiredLimit m) (m_objects m)
    (m_streams m) (m_retired m) (m_retiredOrder m) (m_nextID m) (m_requests m) (m_incoming m) (m_blocked m)
    x (m_pings m) (m_err m) (m_sent m).
Definition set_pings (m : Mux) (p : gset (list byte)) : Mux :=
  mkMux (m_role m) (m_typeMap m) (m_initialWindow m) (m_maxStreams m) (m_retiredLimit m) (m_objects m)
    (m_streams m) (m_retired m) (m_retiredOrder m) (m_nextID m) (m_requests m) (m_incoming m) (m_blocked m)
    (m_extensions m) p (m_err m) (m_sent m).
Definition set_err (m : Mux) (e : option error) : Mux :=
  mkMux (m_role m) (m_typeMap m) (m_initialWindow m) (m_maxStreams m) (m_retiredLimit m) (m_objects m)
    (m_streams m) (m_retired m) (m_retiredOrder m) (m_nextID m) (m_requests m) (m_incoming m) (m_blocked m)
    (m_extensions m) (m_pings m) e (m_sent m).
Definition add_sent (m : Mux) (raw : list byte) : Mux :=
  mkMux (m_role m) (m_typeMap m) (m_initialWindow m) (m_maxStreams m) (m_retiredLimit m) (m_objects m)
    (m_streams m) (m_retired m) (m_retiredOrder m) (m_nextID m) (m_requests m) (m_incoming m) (m_blocked m)
    (m_extensions m) (m_pings m) (m_err m) (m_sent m ++ [raw]).

(** Writes back one stream object. *)
Definition put_stream (m : Mux) (o : nat) (s : Stream) : Mux := set_objects m (<[o := s]> (m_objects m)).
Definition get_stream (m : Mux) (o : nat) : Stream :=
  match m_objects m !! o with Some s => s | None => newStream 0 0 0 false end.

Definition size_of {A} (m : gmap Z A) : Z := Z.of_nat (size m).

(** [New]; the carrier is not nil. *)
Definition New (role : Z) (typeMap : TypeMap) (initialWindow maxStreams : Z) : res Mux :=
  if (negb (role =? RoleClient) && negb (role =? RoleServer)) || (initialWindow =? 0)
     || (MaxInitialWindow <? initialWindow) || (maxStreams <=? 0)
  then Err ErrSessionConfig
  else
    match EncodeKind typeMap CellOpen with
    | Err _ => Err ErrSessionConfig
    | Ok _ =>
        Ok (mkMux role typeMap initialWindow maxStreams
              (Z.max minRetiredStreams (maxStreams * retiredStreamFactor)) [] ∅ ∅ []
              (if role =? RoleServer then 2 else 1) [] [] None (mkExtensions ∅ [] 0 []) ∅ None [])
    end.

Definition sessionError (m : Mux) : error := match m_err m with Some e => e | None => ErrClosed end.

(** [terminate]: [closeOnce]. *)
Definition fail_all (os : list Stream) (ss : gmap Z nat) (e : error) : list Stream :=
  map_fold (fun _ o acc => match acc !! o with Some s => <[o := fail s e]> acc | None => acc end) os ss.

Definition terminate (m : Mux) (e : error) : Mux :=
  match m_err m with
  | Some _ => m
  | None => set_objects (set_err m (Some e)) (fail_all (m_objects m) (m_streams m) e)
  end.

(** [send]: [cr] is the answer of the carrier. *)
Definition send (cr : res unit) (m : Mux) (cell : Cell) : Mux * res unit :=
  match EncodeCell (m_typeMap m) cell with
  | Err e => (m, Err e)
  | Ok raw =>
      match m_err m with
      | Some _ => (m, Err (sessionError m))
      | None =>
          match cr with
          | Err e => (terminate m e, Err e)
          | Ok _ => (add_sent m raw, Ok tt)
          end
      end
  end.

Definition retireStreamLocked (m : Mux) (id : Z) : Mux :=
  if decide (id ∈ m_retired m) then m
  else
    let retired := {[id]} ∪ m_retired m in
    let order := m_retiredOrder m ++ [id] in
    if len order <=? m_retiredLimit m then set_retired m retired order
    else
      match order with
      | oldest :: order => set_retired m (retired ∖ {[oldest]}) order
      | [] => m
      end.

(** [m.streams[id] == stream] compares pointers: object positions. *)
Definition removeStream (m : Mux) (id : Z) (o : nat) : Mux :=
  if decide (m_streams m !! id = Some o)
  then retireStreamLocked (set_streams m (delete id (m_streams m)) (m_nextID m)) id
  else m.

(** The result of a stream section goes out: the deferred send of its cell,
    which fails the stream when [failing] is set (only [Write] does). *)
Definition sendReset (cr : res unit) (m : Mux) (o : nat) (code : byte) : Mux * res unit :=
  match send_reset (get_stream m o) code with
  | (s, Err e) => (put_stream m o s, Err e)
  | (s, Ok None) => (put_stream m o s, Ok tt)
  | (s, Ok (Some cell)) => send cr (put_stream m o s) cell
  end.

Definition fail_stream (m : Mux) (o : nat) (e : error) : Mux := put_stream m o (fail (get_stream m o) e).

(** ** Opening *)

(** [Open] up to its [select]: the object to wait on. *)
Definition Open (cr : res unit) (m : Mux) (metadata : list byte) : Mux * res nat :=
  if MaxOpenMetadata <? len metadata then (m, Err ErrProtocol)
  else
    match m_err m with
    | Some e => (m, Err e)
    | None =>
        if m_maxStreams m <=? size_of (m_streams m) then (m, Err ErrStreamLimit)
        else if MaxStreamID <? m_nextID m then (m, Err ErrStreamLimit)
        else
          let id := m_nextID m in
          let o := length (m_objects m) in
          let stream := newStream id 0 (m_initialWindow m) true in
          let m := set_objects (set_streams m (<[id := o]> (m_streams m)) (m_nextID m + 2))
                     (m_objects m ++ [stream]) in
          match send cr m (mkCell CellOpen id 0 (put_uvarint (m_initialWindow m) ++ metadata) []) with
          | (m, Err e) => (fail_stream (removeStream m id o) o e, Err e)
          | (m, Ok _) => (m, Ok o)
          end
    end.

(** The [select] of [Open]: the open result, or the end of the session when
    [ended] says that this ready case is taken; [None] while waiting. *)
Definition Open_result (ended : bool) (m : Mux) (o : nat) : Mux * option (res nat) :=
  let s := get_stream m o in
  match m_err m, ended with
  | Some e, true => (m, Some (Err e))
  | _, _ =>
      match s_open s with
      | Some None => (m, Some (Ok o))
      | Some (Some e) => (removeStream m (s_id s) o, Some (Err e))
      | None => (m, None)
      end
  end.

(** ... or its context ended. *)
Definition Open_cancel (cr : res unit) (m : Mux) (o : nat) (e : error) : Mux :=
  let '(m, _) := sendReset cr m o x01 in
  removeStream (fail_stream m o e) (s_id (get_stream m o)) o.

Definition parseOpenPayload (payload : list byte) : res (Z * list byte) :=
  match session_readCanonicalUvarint payload with
  | Err _ => Err ErrProtocol
  | Ok (window, consumed) =>
      if (window =? 0) || (MaxInitialWindow <? window) || (MaxOpenMetadata <? len payload - consumed)
      then Err ErrProtocol else Ok (window, skip consumed payload)
  end.

Definition validRemoteStreamID (m : Mux) (id : Z) : bool :=
  if (id =? 0) || (MaxStreamID <? id) then false
  else if m_role m =? RoleServer then id mod 2 =? 1 else id mod 2 =? 0.

(** [m.incoming <- incoming]: a full queue blocks the read loop. *)
Definition enqueue (m : Mux) (i : nat) : Mux * res unit :=
  match m_err m with
  | Some _ => (m, Err (sessionError m))
  | None =>
      if len (m_incoming m) <? m_maxStreams m
      then (set_requests m (m_requests m) (m_incoming m ++ [i]) None, Ok tt)
      else (set_requests m (m_requests m) (m_incoming m) (Some i), Ok tt)
  end.

Definition handleOpen (cr : res unit) (m : Mux) (cell : Cell) : Mux * res unit :=
  if negb (Sequence cell =? 0) || negb (validRemoteStreamID m (StreamID cell)) then (m, Err ErrProtocol)
  else
    match parseOpenPayload (Payload cell) with
    | Err e => (m, Err e)
    | Ok (window, metadata) =>
        match m_err m with
        | Some e => (m, Err e)
        | None =>
            match m_streams m !! StreamID cell with
            | Some _ => (m, Err ErrProtocol)
            | None =>
                if decide (StreamID cell ∈ m_retired m) then (m, Err ErrProtocol)
                else if m_maxStreams m <=? size_of (m_streams m)
                then send cr m (mkCell CellOpenFail (StreamID cell) 0 [x01] [])
                else
                  let o := length (m_objects m) in
                  let stream := set_recvSeq (newStream (StreamID cell) window (m_initialWindow m) false) 1 in
                  let i := length (m_requests m) in
                  let m := set_streams (set_objects m (m_objects m ++ [stream]))
                             (<[StreamID cell := o]> (m_streams m)) (m_nextID m) in
                  let m := set_requests m (m_requests m ++ [mkIncoming o metadata false])
                             (m_incoming m) (m_blocked m) in
                  enqueue m i
            end
        end
    end.

(** [Accept] of the session: the next request, which may release the read
    loop, or the end of the session when [ended] says so. *)
Definition Accept (ended : bool) (m : Mux) : Mux * option (res nat) :=
  match m_err m, ended with
  | Some e, true => (m, Some (Err e))
  | _, _ =>
      match m_incoming m with
      | i :: queue =>
          (match m_blocked m with
           | Some j => set_requests m (m_requests m) (queue ++ [j]) None
           | None => set_requests m (m_requests m) queue None
           end, Some (Ok i))
      | [] => (m, None)
      end
  end.

(** [claim]: only the first caller may answer a request. *)
Definition claim (m : Mux) (i : nat) : Mux * option Incoming :=
  match m_requests m !! i with
  | Some r =>
      if in_handled r then (m, None)
      else (set_requests m (<[i := mkIncoming (in_obj r) (in_metadata r) true]> (m_requests m))
              (m_incoming m) (m_blocked m), Some r)
  | None => (m, None)
  end.

(** [Incoming.Accept] and [Incoming.Reject]. *)
Definition Incoming_Accept (cr : res unit) (m : Mux) (i : nat) : Mux * res nat :=
  match claim m i with
  | (m, None) => (m, Err ErrClosed)
  | (m, Some r) =>
      let id := s_id (get_stream m (in_obj r)) in
      match send cr m (mkCell CellOpenOK id 0 (put_uvarint (m_initialWindow m)) []) with
      | (m, Err e) => (removeStream (fail_stream m (in_obj r) e) id (in_obj r), Err e)
      | (m, Ok _) => (m, Ok (in_obj r))
      end
  end.

Definition Reject (cr : res unit) (m : Mux) (i : nat) (code : byte) : Mux * res unit :=
  match claim m i with
  | (m, None) => (m, Err ErrClosed)
  | (m, Some r) =>
      let id := s_id (get_stream m (in_obj r)) in
      let '(m, e) := send cr m (mkCell CellOpenFail id 0 [code] []) in
      (removeStream (fail_stream m (in_obj r) ErrRejected) id (in_obj r), e)
  end.

(** ** Pings *)

(** [Ping]: register the nonce and send it; the deferred cleanup runs on the
    error paths and in [Ping_end]. *)
Definition Ping (cr : res unit) (m : Mux) (nonce : list byte) : Mux * res unit :=
  if maxPendingPings <=? Z.of_nat (size (m_pings m)) then (m, Err ErrPingLimit)
  else
    match send cr (set_pings m ({[nonce]} ∪ m_pings m)) (mkCell CellPing 0 0 nonce []) with
    | (m, Err e) => (set_pings m (m_pings m ∖ {[nonce]}), Err e)
    | (m, Ok _) => (m, Ok tt)
    end.

Definition Ping_end (m : Mux) (nonce : list byte) : Mux := set_pings m (m_pings m ∖ {[nonce]}).

Definition handlePong (m : Mux) (payload : list byte) : Mux :=
  if len payload =? 16 then set_pings m (m_pings m ∖ {[payload]}) else m.

(** ** Extensions and the read loop *)
Section Mux.
Variable sha256 : list byte -> list byte.

Definition SendExtension (cr : res unit) (m : Mux) (envelope : ExtensionEnvelope) : Mux * res unit :=
  match MarshalEnvelope envelope with
  | Err e => (m, Err e)
  | Ok payload => send cr m (mkCell CellProfile 0 (env_message_id envelope) payload [])
  end.

Definition ReceiveExtension (ended : bool) (m : Mux) : Mux * option (res ExtensionEnvelope) :=
  match m_err m, ended with
  | Some e, true => (m, Some (Err e))
  | _, _ =>
      let x := m_extensions m in
      match x_queue x with
      | env :: queue =>
          (set_extensions m (mkExtensions (x_seen x) (x_order x) (x_highest x) queue), Some (Ok env))
      | [] => (m, None)
      end
  end.

(** The eviction of the oldest remembered id. *)
Definition forget_oldest (seen : gmap Z (list byte)) (order : list Z) : gmap Z (list byte) * list Z :=
  match order with
  | oldest :: rest =>
      if len order =? maxRememberedExtensionIDs then (delete oldest seen, rest) else (seen, order)
  | [] => (seen, [])
  end.

Definition handleExtensionPayload (m : Mux) (payload : list byte) : Mux * res unit :=
  if negb (IsExtensionEnvelope payload) then (m, Ok tt)
  else
    match ParseExtensionEnvelope payload with
    | Err _ => (m, Err ErrProtocol)
    | Ok envelope =>
        let digest := sha256 payload in
        let x := m_extensions m in
        let id := env_message_id envelope in
        match x_seen x !! id with
        | Some previous => if bytes_eq previous digest then (m, Ok tt) else (m, Err ErrProtocol)
        | None =>
            if id <=? x_highest x then (m, Ok tt)
            else
              let '(seen, order) := forget_oldest (x_seen x) (x_order x) in
              let x := mkExtensions (<[id := digest]> seen) (order ++ [id]) id (x_queue x) in
              if len (x_queue x) <? maxQueuedExtensionMessages
              then (set_extensions m (mkExtensions (x_seen x) (x_order x) (x_highest x) (x_queue x ++ [envelope])), Ok tt)
              else (set_extensions m x, Err (match m_err m with Some e => e | None => Sentinel ErrProtocol end))
        end
    end.

(** [Mux.handleCell]; only an [ErrProtocol] result ends the session. *)
Definition handleCell (cr : res unit) (m : Mux) (cell : Cell) : Mux * res unit :=
  if StreamID cell =? 0 then
    match Kind cell with
    | CellDummy => (m, Ok tt)
    | CellPong => (handlePong m (Payload cell), Ok tt)
    | CellProfile => handleExtensionPayload m (Payload cell)
    | CellPing => send cr m (mkCell CellPong 0 0 (Payload cell) [])
    | CellGoAway => (terminate m ErrEOF, Ok tt)
    | _ => (m, Err ErrProtocol)
    end
  else
    match Kind cell with
    | CellOpen => handleOpen cr m cell
    | _ =>
        match m_streams m !! StreamID cell with
        | None => if decide (StreamID cell ∈ m_retired m) then (m, Ok tt) else (m, Err ErrProtocol)
        | Some o =>
            let id := s_id (get_stream m o) in
            let '(s, r) := Stream.handleCell (get_stream m o) cell in
            (* the deferred check of [canRetireLocked] *)
            let m := put_stream m o s in
            let m := if canRetire (m_initialWindow m) s then removeStream m id o else m in
            match r with
            | Err e =>
                let m := fail_stream m o e in
                if errors_is e ErrProtocol
                then let '(m, _) := sendReset cr m o x02 in (removeStream m id o, Ok tt)
                else (m, Ok tt)
            | Ok _ =>
                if bool_decide (Kind cell = CellReset) then (removeStream m id o, Ok tt) else (m, Ok tt)
            end
        end
    end.

(** One turn of [readLoop] on what [carrier.Receive] returned; it does not
    run while an incoming request waits for the queue, nor after the end. *)
Definition readLoop (cr : res unit) (m : Mux) (received : res (list byte)) : Mux :=
  match m_err m, m_blocked m with
  | None, None =>
      match received with
      | Err e => terminate m e
      | Ok raw =>
          match DecodeCell (m_typeMap m) raw with
          | Err _ => terminate m ErrProtocol
          | Ok cell =>
              let '(m, r) := handleCell cr m cell in
              match r with
              | Err e => if errors_is e ErrProtocol then terminate m e else m
              | Ok _ => m
              end
          end
      end
  | _, _ => m
  end.
End Mux.

(** ** The application's calls on a stream *)

Definition retireIfComplete (m : Mux) (o : nat) : Mux :=
  let s := get_stream m o in
  if canRetire (m_initialWindow m) s then removeStream m (s_id s) o else m.

(** One round of [Write]. *)
Definition Write (cr : res unit) (m : Mux) (o : nat) (rest : list byte) : Mux * option (res Z) :=
  match write_section (get_stream m o) rest with
  | WriteWait => (m, match m_err m with Some e => Some (Err e) | None => None end)
  | WriteError e => (m, Some (Err e))
  | WriteFail s e => (put_stream m o s, Some (Err e))
  | WriteSend s cell =>
      match send cr (put_stream m o s) cell with
      | (m, Err e) => (fail_stream m o e, Some (Err e))
      | (m, Ok _) => (m, Some (Ok (len (Payload cell))))
      end
  end.

(** [sendWindowUpdate]. *)
Definition sendWindowUpdate (cr : res unit) (m : Mux) (o : nat) (credit : Z) : Mux * res unit :=
  if credit =? 0 then (m, Ok tt)
  else
    match window_update (get_stream m o) credit with
    | (s, Err e) => (put_stream m o s, Err e)
    | (s, Ok cell) => send cr (put_stream m o s) cell
    end.

(** [Read] with a destination of [room] bytes, when it does not have to wait. *)
Definition Read (cr : res unit) (m : Mux) (o : nat) (room : Z) : Mux * option (list byte * option error) :=
  match read_section (m_initialWindow m) (get_stream m o) room with
  | ReadData s bytes credit =>
      match sendWindowUpdate cr (put_stream m o s) o credit with
      | (m, Err e) => (m, Some (bytes, Some e))
      | (m, Ok _) => (retireIfComplete m o, Some (bytes, None))
      end
  | ReadError e => (m, Some ([], Some e))
  | ReadEOF s credit =>
      match sendWindowUpdate cr (put_stream m o s) o credit with
      | (m, Err e) => (m, Some ([], Some e))
      | (m, Ok _) => (retireIfComplete m o, Some ([], Some (Sentinel ErrEOF)))
      end
  | ReadWait => (m, match m_err m with Some e => Some ([], Some e) | None => None end)
  end.

Definition CloseWrite (cr : res unit) (m : Mux) (o : nat) : Mux * res unit :=
  match close_write (get_stream m o) with
  | (s, Err e) => (put_stream m o s, Err e)
  | (s, Ok None) => (put_stream m o s, Ok tt)
  | (s, Ok (Some cell)) =>
      match send cr (put_stream m o s) cell with
      | (m, Err e) => (m, Err e)
      | (m, Ok _) => (retireIfComplete m o, Ok tt)
      end
  end.

Definition Stream_Close (cr : res unit) (m : Mux) (o : nat) : Mux * res unit :=
  let id := s_id (get_stream m o) in
  match close_section (m_initialWindow m) (get_stream m o) with
  | inl retire => (if retire then removeStream m id o else m, Ok tt)
  | inr s =>
      let '(m, r) := sendReset cr (put_stream m o s) o x00 in
      (removeStream m id o, r)
  end.

(** [Close] of the session. *)
Definition Close (m : Mux) : Mux := terminate m ErrClosed.

(** ** Steps

    Everything that can happen to a [Mux]: a turn of the read loop on an
    arbitrary record of the peer, and every call of the application, on any
    object and with any answer of the carrier. *)
Inductive mux_step (sha256 : list byte -> list byte) (m : Mux) : Mux -> Prop :=
| st_read cr raw : mux_step sha256 m (readLoop sha256 cr m raw)
| st_open cr metadata : mux_step sha256 m (fst (Open cr m metadata))
| st_open_result ended o : mux_step sha256 m (fst (Open_result ended m o))
| st_open_cancel cr o e : mux_step sha256 m (Open_cancel cr m o e)
| st_accept ended : mux_step sha256 m (fst (Accept ended m))
| st_incoming_accept cr i : mux_step sha256 m (fst (Incoming_Accept cr m i))
| st_reject cr i code : mux_step sha256 m (fst (Reject cr m i code))
| st_ping cr nonce : mux_step sha256 m (fst (Ping cr m nonce))
| st_ping_end nonce : mux_step sha256 m (Ping_end m nonce)
| st_send_extension cr env : mux_step sha256 m (fst (SendExtension cr m env))
| st_receive_extension ended : mux_step sha256 m (fst (ReceiveExtension ended m))
| st_write cr o rest : mux_step sha256 m (fst (Write cr m o rest))
| st_read_stream cr o room : mux_step sha256 m (fst (Read cr m o room))
| st_close_write cr o : mux_step sha256 m (fst (CloseWrite cr m o))
| st_close_stream cr o : mux_step sha256 m (fst (Stream_Close cr m o))
| st_close : mux_step sha256 m (Close m).

Inductive mux_reachable (sha256 : list byte -> list byte) (m0 : Mux) : Mux -> Prop :=
| mx_refl : mux_reachable sha256 m0 m0
| mx_step m m' : mux_reachable sha256 m0 m -> mux_step sha256 m m' -> mux_reachable sha256 m0 m'.

(** ** The invariant *)

(** The parity of the ids this side opens. *)
Definition local_parity (m : Mux) : Z := if m_role m =? RoleServer then 0 else 1.

Record ext_inv (x : Extensions) : Prop := {
  e_dom : forall id, (exists d, x_seen x !! id = Some d) <-> id ∈ x_order x;
  e_sorted : StronglySorted Z.lt (x_order x);
  e_high : Forall (fun id => id <= x_highest x) (x_order x);
  e_len : len (x_order x) <= maxRememberedExtensionIDs;
  e_queue : len (x_queue x) <= maxQueuedExtensionMessages;
  e_queue_high : Forall (fun e => env_message_id e <= x_highest x) (x_queue x);
  e_queue_sorted : StronglySorted Z.lt (map env_message_id (x_queue x))
}.

Record mux_inv (m : Mux) : Prop := {
  i_conf : 0 < m_maxStreams m /\ 0 < m_retiredLimit m;
  i_objects : forall id o, m_streams m !! id = Some o -> exists s, m_objects m !! o = Some s /\ s_id s = id;
  i_ids : forall o s, m_objects m !! o = Some s -> 1 <= s_id s <= MaxStreamID;
  i_max : size_of (m_streams m) <= m_maxStreams m;
  i_order : NoDup (m_retiredOrder m);
  i_retired : forall id, id ∈ m_retired m <-> id ∈ m_retiredOrder m;
  i_limit : len (m_retiredOrder m) <= m_retiredLimit m;
  i_disjoint : forall id o, m_streams m !! id = Some o -> id ∉ m_retired m;
  i_retired_ids : forall id, id ∈ m_retired m -> exists o s, m_objects m !! o = Some s /\ s_id s = id;
  i_next : m_nextID m mod 2 = local_parity m /\ 1 <= m_nextID m;
  i_local : forall o s, m_objects m !! o = Some s -> s_id s mod 2 = local_parity m -> s_id s < m_nextID m;
  i_unique : forall o1 o2 s1 s2, m_objects m !! o1 = Some s1 -> m_objects m !! o2 = Some s2 ->
    s_id s1 = s_id s2 -> s_id s1 mod 2 = local_parity m -> o1 = o2;
  i_ext : ext_inv (m_extensions m);
  i_pings : Z.of_nat (size (m_pings m)) <= maxPendingPings;
  i_incoming : len (m_incoming m) <= m_maxStreams m
}.

(** Updates of the objects that keep every id. *)
Definition same_ids (os os' : list Stream) : Prop :=
  forall o, s_id <$> os' !! o = s_id <$> os !! o.

Lemma same_ids_refl os : same_ids os os.
Proof. done. Qed.

Lemma same_ids_trans os1 os2 os3 : same_ids os1 os2 -> same_ids os2 os3 -> same_ids os1 os3.
Proof. intros H1 H2 o. by rewrite H2, H1. Qed.

Lemma same_ids_lookup os os' o s :
  same_ids os os' -> os' !! o = Some s -> exists s0, os !! o = Some s0 /\ s_id s0 = s_id s.
Proof. intros H E. specialize (H o). rewrite E in H. destruct (os !! o); [|done]. injection H as H. eauto. Qed.

Lemma same_ids_lookup' os os' o s :
  same_ids os os' -> os !! o = Some s -> exists s', os' !! o = Some s' /\ s_id s' = s_id s.
Proof. intros H E. specialize (H o). rewrite E in H. destruct (os' !! o); [|done]. injection H as H. eauto. Qed.

Lemma same_ids_insert os o s0 s :
  os !! o = Some s0 -> s_id s = s_id s0 -> same_ids os (<[o := s]> os).
Proof.
  intros E H o'. destruct (decide (o = o')) as [<-|].
  - rewrite list_lookup_insert_eq by (by eapply lookup_lt_Some). rewrite E. cbn. by rewrite H.
  - by rewrite list_lookup_insert_ne.
Qed.

Lemma objects_inv m os : same_ids (m_objects m) os -> mux_inv m -> mux_inv (set_objects m os).
Proof.
  intros H []. split; cbn; try done.
  - intros id o E. destruct (i_objects0 id o E) as (s & Es & <-). by apply (same_ids_lookup' (m_objects m) os).
  - intros o s E. destruct (same_ids_lookup _ _ _ _ H E) as (s0 & E0 & <-). eauto.
  - intros id E. destruct (i_retired_ids0 id E) as (o & s & Es & <-).
    destruct (same_ids_lookup' _ _ _ _ H Es) as (s' & ? & ?). eauto.
  - intros o s E. destruct (same_ids_lookup _ _ _ _ H E) as (s0 & E0 & <-). eauto.
  - intros o1 o2 s1 s2 E1 E2. destruct (same_ids_lookup _ _ _ _ H E1) as (s3 & E3 & <-).
    destruct (same_ids_lookup _ _ _ _ H E2) as (s4 & E4 & <-). eauto.
Qed.

Lemma put_same_ids m o s :
  s_id s = s_id (get_stream m o) -> same_ids (m_objects m) (<[o := s]> (m_objects m)).
Proof.
  intros H. unfold get_stream in H. destruct (m_objects m !! o) as [s0|] eqn:E.
  - by apply (same_ids_insert _ _ s0).
  - rewrite list_insert_ge by (by apply lookup_ge_None). apply same_ids_refl.
Qed.

Lemma put_inv m o s : s_id s = s_id (get_stream m o) -> mux_inv m -> mux_inv (put_stream m o s).
Proof. intros. apply objects_inv; [by apply put_same_ids|done]. Qed.

Lemma fail_all_same_ids os ss e : same_ids os (fail_all os ss e).
Proof.
  unfold fail_all. apply (map_fold_weak_ind (fun r _ => same_ids os r)); [apply same_ids_refl|].
  intros id o ss' r _ IH. destruct (r !! o) as [s|] eqn:E; [|done].
  eapply same_ids_trans; [done|]. by apply (same_ids_insert _ _ s).
Qed.

Lemma terminate_inv m e : mux_inv m -> mux_inv (terminate m e).
Proof.
  intros H. unfold terminate. destruct (m_err m); [done|].
  apply (objects_inv (set_err m (Some e))); [apply fail_all_same_ids|]. by destruct H.
Qed.

Lemma mux_send_inv cr m cell : mux_inv m -> mux_inv (fst (send cr m cell)).
Proof.
  intros H. unfold send. destruct (EncodeCell _ _); [|done]. destruct (m_err m); [done|].
  destruct cr; cbn; [by destruct H|by apply terminate_inv].
Qed.

(** *** Sections never change a stream's id *)

Ltac cases := repeat match goal with
  | |- context [match ?x with _ => _ end] => destruct x eqn:?; try done
  end.

Lemma nextSendSequence_id s : s_id (fst (nextSendSequence s)) = s_id s.
Proof. unfold nextSendSequence. by destruct (_ <? _). Qed.

Lemma nextSendSequence_id' s s' r : nextSendSequence s = (s', r) -> s_id s' = s_id s.
Proof. intros E. by rewrite <- (nextSendSequence_id s), E. Qed.

Lemma send_reset_id s code : s_id (fst (send_reset s code)) = s_id s.
Proof.
  unfold send_reset. cases; cbn;
    match goal with H : nextSendSequence _ = _ |- _ => by apply nextSendSequence_id' in H end.
Qed.

Lemma window_update_id s n : s_id (fst (window_update s n)) = s_id s.
Proof.
  unfold window_update. cases; cbn;
    match goal with H : nextSendSequence _ = _ |- _ => by apply nextSendSequence_id' in H end.
Qed.

Lemma close_write_id s : s_id (fst (close_write s)) = s_id s.
Proof.
  unfold close_write. cases; cbn;
    match goal with H : nextSendSequence _ = _ |- _ => by apply nextSendSequence_id' in H end.
Qed.

Lemma write_section_id s rest :
  match write_section s rest with
  | WriteFail s' _ | WriteSend s' _ => s_id s' = s_id s
  | _ => True
  end.
Proof.
  unfold write_section. destruct (s_writeErr s); [done|]. destruct (s_localFIN s); [done|].
  destruct (_ =? 0); [done|]. destruct (nextSendSequence _) as [s1 [n|e]] eqn:E;
    by apply nextSendSequence_id' in E.
Qed.

Lemma takePending_id w s force : s_id (fst (takePendingCredit w s force)) = s_id s.
Proof. unfold takePendingCredit. by destruct (_ || _). Qed.

Lemma read_section_id w s room :
  match read_section w s room with ReadData s' _ _ | ReadEOF s' _ => s_id s' = s_id s | _ => True end.
Proof.
  unfold read_section. destruct (s_chunks s) as [|c cs].
  - destruct (s_readErr s); [done|]. destruct (s_peerFIN s); [|done].
    destruct (takePendingCredit _ _ _) eqn:E. by rewrite <- (takePending_id w s true), E.
  - destruct (takePendingCredit _ _ _) as [s2 cr] eqn:E.
    match type of E with takePendingCredit _ ?s1 ?f = _ => pose proof (takePending_id w s1 f) as H end.
    by rewrite E in H.
Qed.

Lemma handle_id s cell : s_id (fst (Stream.handleCell s cell)) = s_id s.
Proof.
  unfold Stream.handleCell, handle_open, handle_data. cases.
Qed.

(** *** Operations preserve the invariant *)

Lemma sendReset_inv cr m o code : mux_inv m -> mux_inv (fst (sendReset cr m o code)).
Proof.
  intros H. unfold sendReset. pose proof (send_reset_id (get_stream m o) code) as E.
  destruct (send_reset _ code) as [s [[cell|]|e]]; cbn in E |- *; [|by apply put_inv..].
  by apply mux_send_inv, put_inv.
Qed.

Lemma fail_stream_inv m o e : mux_inv m -> mux_inv (fail_stream m o e).
Proof. intros. by apply put_inv. Qed.

Lemma size_delete (ss : gmap Z nat) id : size_of (delete id ss) <= size_of ss.
Proof. unfold size_of. apply inj_le, map_subseteq_size, delete_subseteq. Qed.

Lemma removeStream_inv m id o : mux_inv m -> mux_inv (removeStream m id o).
Proof.
  intros H. unfold removeStream. destruct (decide _) as [E|]; [|done]. destruct H.
  assert (Hn : id ∉ m_retired m) by eauto.
  assert (Hno : id ∉ m_retiredOrder m) by (by rewrite <- i_retired0).
  assert (Hd : NoDup (m_retiredOrder m ++ [id])).
  { apply NoDup_app. split; [done|]. split; [|apply NoDup_singleton].
    intros x Hx Hx1. apply list_elem_of_singleton in Hx1 as ->. done. }
  assert (Hid : exists o s, m_objects m !! o = Some s /\ s_id s = id)
    by (destruct (i_objects0 _ _ E) as (s & ? & ?); eauto).
  unfold retireStreamLocked. cbn. rewrite decide_False by done.
  destruct (Z.leb_spec (len (m_retiredOrder m ++ [id])) (m_retiredLimit m)) as [Hl|Hl].
  - split; cbn; try done.
    + intros id' o' Hs. apply lookup_delete_Some in Hs as [_ Hs]. eauto.
    + pose proof (size_delete (m_streams m) id). lia.
    + intros id'. rewrite elem_of_union, elem_of_singleton, i_retired0, elem_of_app, list_elem_of_singleton. tauto.
    + intros id' o' Hs. apply lookup_delete_Some in Hs as [Hne Hs]. set_solver.
    + intros id' Hi. apply elem_of_union in Hi as [->%elem_of_singleton|Hi]; eauto.
  - rewrite len_app, len_cons, len_nil in Hl.
    destruct (m_retiredOrder m) as [|old order] eqn:Eo; [unfold len in Hl; cbn in Hl; lia|].
    cbn [app] in *. apply NoDup_cons in Hd as [Ho Hd].
    split; cbn; try done.
    + intros id' o' Hs. apply lookup_delete_Some in Hs as [_ Hs]. eauto.
    + pose proof (size_delete (m_streams m) id). lia.
    + intros id'. rewrite elem_of_difference, elem_of_union, !elem_of_singleton, i_retired0,
        elem_of_app, list_elem_of_singleton, elem_of_cons. split; [tauto|].
      intros [Hi| ->]; (split; [tauto|]); intros ->; set_solver.
    + rewrite len_app, len_cons, len_nil. rewrite len_cons in *. lia.
    + intros id' o' Hs. apply lookup_delete_Some in Hs as [Hne Hs]. set_solver.
    + intros id' Hi. apply elem_of_difference in Hi as [Hi _].
      apply elem_of_union in Hi as [->%elem_of_singleton|Hi]; eauto.
Qed.

Lemma requests_inv m rs queue blocked :
  len queue <= m_maxStreams m -> mux_inv m -> mux_inv (set_requests m rs queue blocked).
Proof. intros ? []. by split. Qed.

Lemma extensions_inv m x : ext_inv x -> mux_inv m -> mux_inv (set_extensions m x).
Proof. intros ? []. by split. Qed.

Lemma pings_inv m p : Z.of_nat (size p) <= maxPendingPings -> mux_inv m -> mux_inv (set_pings m p).
Proof. intros ? []. by split. Qed.

Lemma pings_remove (p : gset (list byte)) n : Z.of_nat (size (p ∖ {[n]})) <= Z.of_nat (size p).
Proof. apply inj_le. apply subseteq_size. set_solver. Qed.

Lemma lookup_snoc_cases {A} (l : list A) x i y :
  (l ++ [x]) !! i = Some y -> l !! i = Some y \/ (i = length l /\ y = x).
Proof.
  intros H. apply lookup_app_Some in H as [?|[Hi H]]; [auto|right].
  destruct (i - length l)%nat eqn:E; [|done]. cbn in H.
  injection H as ->. split; [lia|done].
Qed.

(** Registering a new stream object. *)
Lemma add_stream_inv m id s next :
  s_id s = id -> 1 <= id <= MaxStreamID -> size_of (m_streams m) < m_maxStreams m ->
  m_streams m !! id = None -> id ∉ m_retired m ->
  (id mod 2 = local_parity m /\ id = m_nextID m /\ next = m_nextID m + 2 \/
   id mod 2 <> local_parity m /\ next = m_nextID m) ->
  mux_inv m ->
  mux_inv (set_streams (set_objects m (m_objects m ++ [s])) (<[id := length (m_objects m)]> (m_streams m)) next).
Proof.
  intros Hs Hid Hsz Hnone Hnr Hpar []. split; cbn; try done.
  - intros id' o' E. apply lookup_insert_Some in E as [[<- <-]|[Hne E]].
    + exists s. split; [|done]. by rewrite lookup_app_r, Nat.sub_diag by done.
    + destruct (i_objects0 _ _ E) as (s0 & E0 & ?). exists s0. split; [|done]. by apply lookup_app_l_Some.
  - intros o s' E. apply lookup_snoc_cases in E as [E|[_ ->]]; [eauto|by rewrite Hs].
  - unfold size_of in *. rewrite map_size_insert_None by done. lia.
  - intros id' o' E. apply lookup_insert_Some in E as [[<- _]|[_ E]]; [done|eauto].
  - intros id' E. destruct (i_retired_ids0 _ E) as (o & s0 & ? & ?). exists o, s0. split; [|done].
    by apply lookup_app_l_Some.
  - destruct i_next0 as [Hm H1]. split; [|lia]. destruct Hpar as [(_ & _ & ->)|[_ ->]]; [|done].
    unfold local_parity in *. cbn in *. rewrite <- Z.add_mod_idemp_r by lia. change (2 mod 2) with 0. by rewrite Z.add_0_r.
  - intros o s' E Hl. apply lookup_snoc_cases in E as [E|[_ ->]].
    + specialize (i_local0 _ _ E Hl). lia.
    + rewrite Hs in *. destruct Hpar as [(_ & -> & ->)|[? _]]; [lia|done].
  - assert (Hcross : forall o s1, m_objects m !! o = Some s1 -> s_id s1 = s_id s ->
      s_id s1 mod 2 = local_parity m -> False).
    { intros o s1 E Heq Hl. specialize (i_local0 _ _ E Hl). rewrite Heq, Hs in *.
      destruct Hpar as [(_ & -> & _)|[? _]]; [lia|done]. }
    intros o1 o2 s1 s2 E1 E2 Heq Hl.
    apply lookup_snoc_cases in E1 as [E1|[-> ->]]; apply lookup_snoc_cases in E2 as [E2|[-> ->]]; try done.
    + eauto.
    + by destruct (Hcross o1 s1).
    + destruct (Hcross o2 s2); try done. by rewrite <- Heq.
Qed.

(** A valid remote id has the other side's parity. *)
Lemma validRemote_parity m id :
  0 <= id -> validRemoteStreamID m id = true -> 1 <= id <= MaxStreamID /\ id mod 2 <> local_parity m.
Proof.
  unfold validRemoteStreamID, local_parity. destruct (_ || _) eqn:E; [done|]. intros Hid H. guards. zb.
  split; [lia|]. destruct (m_role m =? RoleServer); zb; lia.
Qed.

Lemma handleOpen_inv cr m cell : 0 <= StreamID cell -> mux_inv m -> mux_inv (fst (handleOpen cr m cell)).
Proof.
  intros Hid H. unfold handleOpen.
  destruct (negb (Sequence cell =? 0) || _) eqn:G; [done|]. apply orb_false_iff in G as [_ G].
  apply negb_false_iff in G. apply validRemote_parity in G as [Hr Hp]; [|done].
  destruct (parseOpenPayload _) as [[window metadata]|]; [|done].
  destruct (m_err m) eqn:Ee; [done|]. destruct (m_streams m !! StreamID cell) eqn:En; [done|].
  destruct (decide _) as [|Hnr]; [done|].
  destruct (Z.leb_spec (m_maxStreams m) (size_of (m_streams m))) as [|Hsz]; [by apply mux_send_inv|].
  pose proof (i_incoming _ H) as Hi. unfold enqueue. cbn. rewrite Ee.
  set (m' := set_streams _ _ _).
  assert (Hadd : mux_inv m') by (apply add_stream_inv; auto).
  destruct (Z.ltb_spec (len (m_incoming m)) (m_maxStreams m)); cbn.
  - apply (requests_inv m'); [cbn; rewrite len_app, len_cons, len_nil; lia|done].
  - apply (requests_inv m'); [cbn; lia|done].
Qed.

Lemma Open_inv cr m metadata : mux_inv m -> mux_inv (fst (Open cr m metadata)).
Proof.
  intros H. unfold Open. destruct (_ <? _); [done|]. destruct (m_err m); [done|].
  destruct (Z.leb_spec (m_maxStreams m) (size_of (m_streams m))) as [|Hsz]; [done|].
  destruct (Z.ltb_spec MaxStreamID (m_nextID m)) as [|Hn]; [done|].
  assert (Hfresh : m_streams m !! m_nextID m = None /\ m_nextID m ∉ m_retired m).
  { pose proof (i_next _ H) as [Hpar _]. split.
    - destruct (m_streams m !! m_nextID m) as [o|] eqn:E; [|done].
      destruct (i_objects _ H _ _ E) as (s & Es & Hs).
      pose proof (i_local _ H _ _ Es) as Hl. rewrite Hs in Hl. specialize (Hl Hpar). lia.
    - intros E. destruct (i_retired_ids _ H _ E) as (o & s & Es & Hs).
      pose proof (i_local _ H _ _ Es) as Hl. rewrite Hs in Hl. specialize (Hl Hpar). lia. }
  destruct Hfresh as [Hf1 Hf2]. pose proof (i_next _ H) as [Hpar H1].
  match goal with |- context [send cr ?m1 ?c] =>
    assert (Hadd : mux_inv m1) by (apply (add_stream_inv m (m_nextID m) (newStream (m_nextID m) 0 (m_initialWindow m) true)); auto; lia);
    pose proof (mux_send_inv cr m1 c Hadd) as Hs; destruct (send cr m1 c) as [m2 [|e]] end; cbn in Hs |- *; [done|].
  by apply fail_stream_inv, removeStream_inv.
Qed.

Lemma sorted_snoc (l : list Z) x :
  StronglySorted Z.lt l -> Forall (fun y => y < x) l -> StronglySorted Z.lt (l ++ [x]).
Proof.
  induction 1 as [|y l Hs IH Hy]; intros Hx; [by repeat constructor|].
  apply Forall_cons_1 in Hx as [? ?]. cbn. constructor; [auto|]. apply Forall_app_2; [done|by constructor].
Qed.

Lemma forget_oldest_ok x seen order :
  ext_inv x -> forget_oldest (x_seen x) (x_order x) = (seen, order) ->
  (forall id, (exists d, seen !! id = Some d) <-> id ∈ order) /\ StronglySorted Z.lt order /\
  Forall (fun id => id <= x_highest x) order /\ len order < maxRememberedExtensionIDs.
Proof.
  intros [Hd Hs Hh Hl _ _ _]. unfold forget_oldest. destruct (x_order x) as [|old rest].
  { intros [= <- <-]. split; [done|]. split; [done|]. split; done. }
  destruct (Z.eqb_spec (len (old :: rest)) maxRememberedExtensionIDs) as [El|El]; intros [= <- <-].
  - apply StronglySorted_inv in Hs as [Hs Hold]. apply Forall_cons_1 in Hh as [_ Hh].
    rewrite len_cons in El. split; [|split; [done|split; [done|lia]]].
    intros id. split.
    + intros [d [Hne Hin]%lookup_delete_Some]. assert (E : id ∈ old :: rest) by (apply Hd; eauto).
      apply elem_of_cons in E as [->|]; done.
    + intros Hin. destruct (proj2 (Hd id)) as [d Hd']; [by apply elem_of_cons; right|].
      exists d. apply lookup_delete_Some. split; [|done]. intros <-.
      rewrite Forall_forall in Hold. specialize (Hold _ Hin). lia.
  - split; [done|]. split; [done|]. split; [done|lia].
Qed.

Section Steps.
Variable sha256 : list byte -> list byte.

(** A payload either leaves the extension state alone, or is a new message
    with an id above every earlier one. *)
Lemma handleExtension_cases m payload m' r :
  handleExtensionPayload sha256 m payload = (m', r) ->
  m' = m \/
  exists env x, ParseExtensionEnvelope payload = Ok env /\ m' = set_extensions m x /\
    x_highest (m_extensions m) < env_message_id env /\ x_highest x = env_message_id env /\
    (x_queue x = x_queue (m_extensions m) /\ is_ok r = false \/
     x_queue x = x_queue (m_extensions m) ++ [env] /\ r = Ok tt) /\
    (ext_inv (m_extensions m) -> ext_inv x).
Proof.
  unfold handleExtensionPayload. destruct (negb _); [intros [= <- _]; by left|].
  destruct (ParseExtensionEnvelope payload) as [env|] eqn:Ep; [|intros [= <- _]; by left].
  destruct (_ !! _) eqn:Es; [destruct (bytes_eq _ _); intros [= <- _]; by left|].
  destruct (Z.leb_spec (env_message_id env) (x_highest (m_extensions m))) as [|Hh]; [intros [= <- _]; by left|].
  destruct (forget_oldest _ _) as [seen order] eqn:Ef. cbn.
  assert (Hq : forall queue, ext_inv (m_extensions m) ->
    len queue <= maxQueuedExtensionMessages -> Forall (fun e => env_message_id e <= env_message_id env) queue ->
    StronglySorted Z.lt (map env_message_id queue) ->
    ext_inv (mkExtensions (<[env_message_id env := sha256 payload]> seen) (order ++ [env_message_id env])
      (env_message_id env) queue)).
  { intros queue Hx H1 H2 H3. destruct (forget_oldest_ok _ _ _ Hx Ef) as (Hd & Hs & Hb & Hl).
    split; cbn; try done.
    - intros id. rewrite elem_of_app, list_elem_of_singleton, <- Hd.
      destruct (decide (id = env_message_id env)) as [->|Hne].
      + rewrite lookup_insert_eq. split; eauto.
      + rewrite lookup_insert_ne by done. split; [by left|]. by intros [?|?].
    - apply sorted_snoc; [done|]. eapply Forall_impl; [exact Hb|]. cbn. lia.
    - apply Forall_app_2; [|by constructor]. eapply Forall_impl; [exact Hb|]. cbn. lia.
    - rewrite len_app, len_cons, len_nil. lia. }
  intros H. right. exists env.
  destruct (Z.ltb_spec (len (x_queue (m_extensions m))) maxQueuedExtensionMessages) as [Hl|Hl]; injection H as <- <-.
  - eexists. split; [done|]. split; [done|]. split; [done|]. split; [done|]. split; [by right|].
    intros Hx. apply Hq; [done|rewrite len_app, len_cons, len_nil; lia| |].
    + destruct Hx. apply Forall_app_2; [|by constructor]. eapply Forall_impl; [exact e_queue_high0|]. cbn. lia.
    + destruct Hx. rewrite map_app. apply sorted_snoc; [done|]. apply Forall_map.
      eapply Forall_impl; [exact e_queue_high0|]. cbn. lia.
  - eexists. split; [done|]. split; [done|]. split; [done|]. split; [done|].
    split; [left; split; [done|by destruct (m_err m)]|].
    intros Hx. destruct Hx. apply Hq; try done. eapply Forall_impl; [exact e_queue_high0|]. cbn. lia.
Qed.

Lemma handleExtension_inv m payload : mux_inv m -> mux_inv (fst (handleExtensionPayload sha256 m payload)).
Proof.
  intros H. destruct (handleExtensionPayload sha256 m payload) as [m' r] eqn:E. cbn.
  destruct (handleExtension_cases _ _ _ _ E) as [->|(env & x & _ & -> & _ & _ & _ & Hx)]; [done|].
  apply extensions_inv; [|done]. apply Hx, H.
Qed.

Lemma handlePong_inv m payload : mux_inv m -> mux_inv (handlePong m payload).
Proof.
  intros H. unfold handlePong. destruct (_ =? 16); [|done]. apply pings_inv; [|done].
  pose proof (pings_remove (m_pings m) payload). destruct H. lia.
Qed.

Lemma handleCell_inv cr m cell :
  0 <= StreamID cell -> mux_inv m -> mux_inv (fst (handleCell sha256 cr m cell)).
Proof.
  intros Hid H. unfold handleCell.
  destruct (StreamID cell =? 0).
  { destruct (Kind cell); cbn; auto using handlePong_inv, handleExtension_inv, mux_send_inv, terminate_inv. }
  assert (Hopen : mux_inv (fst (handleOpen cr m cell))) by (by apply handleOpen_inv).
  assert (Hother : mux_inv (fst (
    match m_streams m !! StreamID cell with
    | None => if decide (StreamID cell ∈ m_retired m) then (m, Ok tt) else (m, Err ErrProtocol)
    | Some o =>
        let id := s_id (get_stream m o) in
        let '(s, r) := Stream.handleCell (get_stream m o) cell in
        let m := put_stream m o s in
        let m := if canRetire (m_initialWindow m) s then removeStream m id o else m in
        match r with
        | Err e =>
            let m := fail_stream m o e in
            if errors_is e ErrProtocol
            then let '(m, _) := sendReset cr m o x02 in (removeStream m id o, Ok tt)
            else (m, Ok tt)
        | Ok _ =>
            if bool_decide (Kind cell = CellReset) then (removeStream m id o, Ok tt) else (m, Ok tt)
        end
    end))).
  { destruct (m_streams m !! StreamID cell) as [o|]; [|by destruct (decide _)].
    pose proof (handle_id (get_stream m o) cell) as E.
    destruct (Stream.handleCell (get_stream m o) cell) as [s r]. cbn in E. cbn zeta.
    set (m1 := if canRetire _ _ then _ else _).
    assert (Hm1 : mux_inv m1).
    { unfold m1. destruct (canRetire _ _); [apply removeStream_inv|]; by apply put_inv. }
    clearbody m1. destruct r as [u|e].
    - destruct (bool_decide _); cbn; [by apply removeStream_inv|done].
    - destruct (errors_is _ _); [|by apply fail_stream_inv].
      pose proof (sendReset_inv cr (fail_stream m1 o e) o x02 (fail_stream_inv _ _ _ Hm1)) as Hr.
      destruct (sendReset _ _ _ _) as [m2 r2]. by apply removeStream_inv. }
  destruct (Kind cell); try exact Hother. exact Hopen.
Qed.

Lemma decode_id m raw c : DecodeCell m raw = Ok c -> 0 <= StreamID c.
Proof.
  unfold DecodeCell. intros H. inv_res.
  match goal with H : readCanonicalUvarint (drop 1 raw) = Ok (?n, _) |- _ =>
    apply readCanonicalUvarint_inv in H as (Hn & _) end.
  cbn. unfold is_u64 in Hn. lia.
Qed.

Lemma readLoop_inv cr m raw : mux_inv m -> mux_inv (readLoop sha256 cr m raw).
Proof.
  intros H. unfold readLoop. destruct (m_err m); [done|]. destruct (m_blocked m); [done|].
  destruct raw as [raw|e]; [|by apply terminate_inv].
  destruct (DecodeCell _ _) as [cell|] eqn:E; [|by apply terminate_inv].
  apply decode_id in E. pose proof (handleCell_inv cr m cell E H) as Hc.
  destruct (handleCell _ _ _ _) as [m1 [|e]]; [done|]. cbn in Hc.
  destruct (errors_is _ _); [by apply terminate_inv|done].
Qed.
End Steps.

Lemma Open_result_inv ended m o : mux_inv m -> mux_inv (fst (Open_result ended m o)).
Proof.
  intros H. unfold Open_result. destruct (m_err m), ended; try done;
    destruct (s_open _) as [[|]|]; try done; by apply removeStream_inv.
Qed.

Lemma Open_cancel_inv cr m o e : mux_inv m -> mux_inv (Open_cancel cr m o e).
Proof.
  intros H. unfold Open_cancel. pose proof (sendReset_inv cr m o x01 H) as Hr.
  destruct (sendReset _ _ _ _) as [m1 r]. by apply removeStream_inv, fail_stream_inv.
Qed.

Lemma Accept_inv ended m : mux_inv m -> mux_inv (fst (Accept ended m)).
Proof.
  intros H. pose proof (i_incoming _ H) as Hi. unfold Accept.
  destruct (m_err m), ended; try done;
    (destruct (m_incoming m) as [|i q]; [done|]; rewrite len_cons in Hi;
     destruct (m_blocked m); cbn; apply requests_inv; try done; rewrite ?len_app, ?len_cons, ?len_nil; lia).
Qed.

Lemma claim_inv m i : mux_inv m -> mux_inv (fst (claim m i)).
Proof.
  intros H. unfold claim. destruct (_ !! i) as [r|]; [|done]. destruct (in_handled r); [done|].
  apply requests_inv; [|done]. by destruct H.
Qed.

Lemma Incoming_Accept_inv cr m i : mux_inv m -> mux_inv (fst (Incoming_Accept cr m i)).
Proof.
  intros H. unfold Incoming_Accept. pose proof (claim_inv m i H) as Hc.
  destruct (claim m i) as [m1 [r|]]; [|done]. cbn in Hc. cbn zeta.
  match goal with |- context [send cr m1 ?c] => pose proof (mux_send_inv cr m1 c Hc) as Hs;
    destruct (send cr m1 c) as [m2 [|e]] end; [done|]. by apply removeStream_inv, fail_stream_inv.
Qed.

Lemma Reject_inv cr m i code : mux_inv m -> mux_inv (fst (Reject cr m i code)).
Proof.
  intros H. unfold Reject. pose proof (claim_inv m i H) as Hc.
  destruct (claim m i) as [m1 [r|]]; [|done]. cbn in Hc. cbn zeta.
  match goal with |- context [send cr m1 ?c] => pose proof (mux_send_inv cr m1 c Hc) as Hs;
    destruct (send cr m1 c) as [m2 r2] end. by apply removeStream_inv, fail_stream_inv.
Qed.

Lemma pings_insert (p : gset (list byte)) n : Z.of_nat (size ({[n]} ∪ p)) <= Z.of_nat (size p) + 1.
Proof.
  pose proof (size_union_alt {[n]} p) as E. rewrite size_singleton in E.
  assert (size (p ∖ {[n]}) <= size p)%nat by (apply subseteq_size; set_solver). lia.
Qed.

Lemma Ping_inv cr m nonce : mux_inv m -> mux_inv (fst (Ping cr m nonce)).
Proof.
  intros H. unfold Ping. destruct (Z.leb_spec maxPendingPings (Z.of_nat (size (m_pings m)))) as [|Hl]; [done|].
  pose proof (pings_insert (m_pings m) nonce).
  assert (H1 : mux_inv (set_pings m ({[nonce]} ∪ m_pings m))) by (apply pings_inv; [lia|done]).
  match goal with |- context [send cr ?m1 ?c] => pose proof (mux_send_inv cr m1 c H1) as Hs;
    destruct (send cr m1 c) as [m2 [|e]] end; [done|]. cbn in Hs |- *.
  apply pings_inv; [|done]. pose proof (pings_remove (m_pings m2) nonce). destruct Hs. lia.
Qed.

Lemma sendWindowUpdate_inv cr m o credit : mux_inv m -> mux_inv (fst (sendWindowUpdate cr m o credit)).
Proof.
  intros H. unfold sendWindowUpdate. destruct (_ =? 0); [done|].
  pose proof (window_update_id (get_stream m o) credit) as E.
  destruct (window_update _ _) as [s [cell|e]]; cbn in E |- *; [apply mux_send_inv|]; by apply put_inv.
Qed.

Lemma retireIfComplete_inv m o : mux_inv m -> mux_inv (retireIfComplete m o).
Proof. intros H. unfold retireIfComplete. destruct (canRetire _ _); [by apply removeStream_inv|done]. Qed.

Lemma Write_inv cr m o rest : mux_inv m -> mux_inv (fst (Write cr m o rest)).
Proof.
  intros H. unfold Write. pose proof (write_section_id (get_stream m o) rest) as E.
  destruct (write_section _ _) as [|e|s e|s cell]; [by destruct (m_err m)|done|by apply put_inv|].
  match goal with |- context [send cr ?m1 ?c] => pose proof (mux_send_inv cr m1 c (put_inv _ _ _ E H)) as Hs;
    destruct (send cr m1 c) as [m2 [|e]] end; [done|]. by apply fail_stream_inv.
Qed.

Lemma Read_inv cr m o room : mux_inv m -> mux_inv (fst (Read cr m o room)).
Proof.
  intros H. unfold Read. pose proof (read_section_id (m_initialWindow m) (get_stream m o) room) as E.
  destruct (read_section _ _ _) as [s bytes credit|e|s credit|]; [|done| |by destruct (m_err m)].
  - pose proof (sendWindowUpdate_inv cr _ o credit (put_inv _ _ _ E H)) as Hs.
    destruct (sendWindowUpdate _ _ _ _) as [m2 [|e]]; [by apply retireIfComplete_inv|done].
  - pose proof (sendWindowUpdate_inv cr _ o credit (put_inv _ _ _ E H)) as Hs.
    destruct (sendWindowUpdate _ _ _ _) as [m2 [|e]]; [by apply retireIfComplete_inv|done].
Qed.

Lemma CloseWrite_inv cr m o : mux_inv m -> mux_inv (fst (CloseWrite cr m o)).
Proof.
  intros H. unfold CloseWrite. pose proof (close_write_id (get_stream m o)) as E.
  destruct (close_write _) as [s [[cell|]|e]]; cbn in E; [|by apply put_inv..].
  match goal with |- context [send cr ?m1 ?c] => pose proof (mux_send_inv cr m1 c (put_inv _ _ _ E H)) as Hs;
    destruct (send cr m1 c) as [m2 [|e]] end; [by apply retireIfComplete_inv|done].
Qed.

Lemma Stream_Close_inv cr m o : mux_inv m -> mux_inv (fst (Stream_Close cr m o)).
Proof.
  intros H. unfold Stream_Close.
  destruct (close_section _ _) as [retire|s] eqn:E.
  { destruct retire; cbn; [by apply removeStream_inv|done]. }
  assert (Hs : s_id s = s_id (get_stream m o)).
  { unfold close_section in E. destruct (_ && _); [done|]. by injection E as <-. }
  pose proof (sendReset_inv cr (put_stream m o s) o x00 (put_inv _ _ _ Hs H)) as Hr.
  destruct (sendReset _ _ _ _) as [m2 r]. by apply removeStream_inv.
Qed.

Lemma mux_step_inv sha256 m m' : mux_step sha256 m m' -> mux_inv m -> mux_inv m'.
Proof.
  intros Hs H. destruct Hs;
    auto using readLoop_inv, Open_inv, Open_result_inv, Open_cancel_inv, Accept_inv, Incoming_Accept_inv,
      Reject_inv, Ping_inv, Write_inv, Read_inv, CloseWrite_inv, Stream_Close_inv, terminate_inv.
  - apply pings_inv; [|done]. pose proof (pings_remove (m_pings m) nonce). destruct H. lia.
  - unfold SendExtension. destruct (MarshalEnvelope _); [by apply mux_send_inv|done].
  - unfold ReceiveExtension. pose proof (i_ext _ H) as [].
    destruct (m_err m), ended; try done;
      (destruct (x_queue (m_extensions m)) as [|env q]; [done|]; cbn; apply extensions_inv; [|done];
       cbn in *; apply Forall_cons_1 in e_queue_high0 as [? ?];
       apply StronglySorted_inv in e_queue_sorted0 as [? ?]; rewrite len_cons in e_queue0;
       split; cbn; try done; lia).
  - by apply terminate_inv.
Qed.

Lemma New_inv role tm window streams m : New role tm window streams = Ok m -> mux_inv m.
Proof.
  unfold New. destruct (_ || _) eqn:G; [done|]. destruct (EncodeKind _ _); [|done]. intros [= <-].
  guards. zb. split; cbn; try done.
  - unfold minRetiredStreams, retiredStreamFactor. lia.
  - unfold size_of. rewrite map_size_empty. lia.
  - apply NoDup_nil_2.
  - intros id. rewrite elem_of_empty. split; [done|]. apply not_elem_of_nil.
  - unfold len. cbn. unfold minRetiredStreams. lia.
  - unfold local_parity. cbn. by destruct (role =? RoleServer).
  - split; cbn; try done; try constructor.
    + by intros [d Hd].
    + intros Hi. by apply not_elem_of_nil in Hi.
  - unfold len. cbn. lia.
Qed.

Lemma mux_reachable_inv sha256 m0 m : mux_inv m0 -> mux_reachable sha256 m0 m -> mux_inv m.
Proof. intros H. induction 1; [done|]. by eapply mux_step_inv. Qed.

(** ** What termination and refusals do *)

Lemma fail_idem s e e' : fail (fail s e) e' = fail s e.
Proof.
  unfold fail, completeOpen, set_errs, or_else. cbn.
  by destruct (s_readErr s), (s_writeErr s), (s_open s).
Qed.

(** [terminate] fails exactly the registered streams. *)
Lemma fail_all_lookup os (ss : gmap Z nat) e o s :
  os !! o = Some s ->
  ((exists id, ss !! id = Some o) -> fail_all os ss e !! o = Some (fail s e)) /\
  ((forall id, ss !! id <> Some o) -> fail_all os ss e !! o = Some s).
Proof.
  intros Hs.
  enough (H : (fail_all os ss e !! o = Some s \/ fail_all os ss e !! o = Some (fail s e)) /\
    ((exists id, ss !! id = Some o) -> fail_all os ss e !! o = Some (fail s e)) /\
    ((forall id, ss !! id <> Some o) -> fail_all os ss e !! o = Some s)) by tauto.
  unfold fail_all.
  apply (map_fold_weak_ind (fun r (ss : gmap Z nat) =>
    (r !! o = Some s \/ r !! o = Some (fail s e)) /\
    ((exists id, ss !! id = Some o) -> r !! o = Some (fail s e)) /\
    ((forall id, ss !! id <> Some o) -> r !! o = Some s))).
  - split; [by left|]. split; [by intros [id ?]|done].
  - intros id o' ss' r Hnone (IH1 & IH2 & IH3). destruct (decide (o' = o)) as [->|Hne].
    + assert (E : match r !! o with Some s0 => <[o := fail s0 e]> r | None => r end !! o = Some (fail s e)).
      { destruct IH1 as [E|E]; rewrite E, list_lookup_insert_eq by (by eapply lookup_lt_Some); by rewrite ?fail_idem. }
      split; [by right|]. split; [done|]. intros H. destruct (H id). apply lookup_insert_eq.
    + assert (E : match r !! o' with Some s0 => <[o' := fail s0 e]> r | None => r end !! o = r !! o)
        by (destruct (r !! o'); [by rewrite list_lookup_insert_ne|done]).
      rewrite E. split; [done|]. split.
      * intros [id' H']. apply lookup_insert_Some in H' as [[_ ?]|[_ ?]]; [done|eauto].
      * intros H. apply IH3. intros id' H'. destruct (decide (id = id')) as [->|]; [congruence|].
        apply (H id'). by rewrite lookup_insert_ne.
Qed.

(** ** Claims *)

(** C9: whatever the peer sends and the application does, the tables of a
    multiplexer stay consistent: registered ids are valid, at most
    [maxStreams] streams are registered, no registered id is in the bounded
    memory of retired ids, which agrees with its eviction order, and the
    pings, incoming requests and extension messages stay within their
    limits. *)
Theorem mux_tables_consistent sha256 role tm window streams m0 m :
  New role tm window streams = Ok m0 -> mux_reachable sha256 m0 m ->
  size_of (m_streams m) <= m_maxStreams m /\
  (forall id o, m_streams m !! id = Some o -> exists s, m_objects m !! o = Some s /\ s_id s = id /\
     1 <= id <= MaxStreamID /\ id ∉ m_retired m) /\
  NoDup (m_retiredOrder m) /\ (forall id, id ∈ m_retired m <-> id ∈ m_retiredOrder m) /\
  len (m_retiredOrder m) <= m_retiredLimit m /\
  Z.of_nat (size (m_pings m)) <= maxPendingPings /\ len (m_incoming m) <= m_maxStreams m /\
  len (x_queue (m_extensions m)) <= maxQueuedExtensionMessages /\
  len (x_order (m_extensions m)) <= maxRememberedExtensionIDs.
Proof.
  intros Hn Hm. pose proof (mux_reachable_inv _ _ _ (New_inv _ _ _ _ _ Hn) Hm) as [].
  destruct i_ext0. split; [done|]. split; [|by split_and!].
  intros id o E. destruct (i_objects0 _ _ E) as (s & Hs & Hid). exists s. split; [done|]. split; [done|].
  split; [|eauto]. rewrite <- Hid. eauto.
Qed.

(** no two streams a multiplexer ever opens share an id, and none has the
    id of a stream of the peer: local ids have the role's parity and each
    [Open] takes a new one. *)
Theorem local_ids_unique sha256 role tm window streams m0 m o1 o2 s1 s2 :
  New role tm window streams = Ok m0 -> mux_reachable sha256 m0 m ->
  m_objects m !! o1 = Some s1 -> m_objects m !! o2 = Some s2 -> o1 <> o2 ->
  s_id s1 mod 2 = local_parity m -> s_id s1 <> s_id s2.
Proof.
  intros Hn Hm E1 E2 Hne Hp Heq. apply Hne.
  exact (i_unique _ (mux_reachable_inv _ _ _ (New_inv _ _ _ _ _ Hn) Hm) _ _ _ _ E1 E2 Heq Hp).
Qed.

(** the first terminal error is kept, and at that moment every registered
    stream fails: reads (once drained), writes and a pending [Open] return
    an error; streams that are not registered are left alone. *)
Theorem terminate_fails_streams m e o s :
  m_objects m !! o = Some s ->
  match m_err m with
  | Some _ => terminate m e = m
  | None =>
      m_err (terminate m e) = Some e /\
      ((exists id, m_streams m !! id = Some o) ->
         exists s', m_objects (terminate m e) !! o = Some s' /\ s' = fail s e /\
           s_readErr s' <> None /\ s_writeErr s' <> None /\ s_open s' <> None) /\
      ((forall id, m_streams m !! id <> Some o) -> m_objects (terminate m e) !! o = Some s)
  end.
Proof.
  intros Hs. unfold terminate. destruct (m_err m); [done|]. cbn. split; [done|].
  destruct (fail_all_lookup _ (m_streams m) e _ _ Hs) as [H1 H2]. split; [|done].
  intros H. exists (fail s e). split; [by apply H1|]. split; [done|].
  unfold fail. cbn. by destruct (s_readErr s), (s_writeErr s), (s_open s).
Qed.

Lemma put_get m o s0 s : m_objects m !! o = Some s0 -> get_stream (put_stream m o s) o = s.
Proof.
  intros H. unfold get_stream, put_stream. cbn. by rewrite list_lookup_insert_eq by (by eapply lookup_lt_Some).
Qed.

Lemma removeStream_fields m id o :
  m_objects (removeStream m id o) = m_objects m /\ m_err (removeStream m id o) = m_err m /\
  (m_streams m !! id = Some o -> m_streams (removeStream m id o) = delete id (m_streams m)) /\
  (m_streams m !! id = None -> m_streams (removeStream m id o) = m_streams m).
Proof.
  unfold removeStream. destruct (decide _) as [E|E].
  - unfold retireStreamLocked. destruct (decide _); [|destruct (_ <=? _); [|destruct (_ ++ _)]]; cbn;
      by split_and!; try congruence.
  - split_and!; try done.
Qed.

Lemma sendReset_fields m o code :
  let m' := fst (sendReset (Ok tt) m o code) in
  m_streams m' = m_streams m /\ m_err m' = m_err m /\
  forall o', o' <> o -> m_objects m' !! o' = m_objects m !! o'.
Proof.
  cbn zeta. unfold sendReset.
  assert (Hp : forall s, m_streams (put_stream m o s) = m_streams m /\ m_err (put_stream m o s) = m_err m /\
    forall o', o' <> o -> m_objects (put_stream m o s) !! o' = m_objects m !! o')
    by (intros s; split_and!; try done; intros; cbn; by rewrite list_lookup_insert_ne).
  destruct (send_reset _ code) as [s [[cell|]|e]]; cbn [fst]; try apply Hp.
  unfold send. destruct (EncodeCell _ _); [|apply Hp]. destruct (m_err _); apply Hp.
Qed.

(** a protocol violation on one stream stays on that stream: the stream
    fails, is reset and forgotten, but the session goes on and every other
    stream and registration is untouched. *)
Theorem stream_violation_contained sha256 role tm window streams m0 m cell o s e :
  New role tm window streams = Ok m0 -> mux_reachable sha256 m0 m ->
  StreamID cell <> 0 -> Kind cell <> CellOpen -> m_streams m !! StreamID cell = Some o ->
  Stream.handleCell (get_stream m o) cell = (s, Err e) -> errors_is e ErrProtocol = true ->
  let '(m', r) := handleCell sha256 (Ok tt) m cell in
  r = Ok tt /\ m_err m' = m_err m /\ m_streams m' = delete (StreamID cell) (m_streams m) /\
  forall o', o' <> o -> m_objects m' !! o' = m_objects m !! o'.
Proof.
  intros Hn Hm Hz Hk Ho Hs He. pose proof (mux_reachable_inv _ _ _ (New_inv _ _ _ _ _ Hn) Hm) as H.
  destruct (i_objects _ H _ _ Ho) as (s0 & Es & Hid).
  assert (Hg : s_id (get_stream m o) = StreamID cell) by (unfold get_stream; by rewrite Es).
  unfold handleCell. rewrite (proj2 (Z.eqb_neq _ _)), Ho, Hs, Hg by done. cbn zeta. rewrite He.
  set (id := StreamID cell) in *.
  set (m1 := if canRetire _ _ then _ else _).
  assert (H1 : m_err m1 = m_err m /\ (forall o', o' <> o -> m_objects m1 !! o' = m_objects m !! o') /\
    (m_streams m1 = m_streams m \/ m_streams m1 = delete id (m_streams m))).
  { unfold m1. destruct (removeStream_fields (put_stream m o s) id o) as (Hf1 & Hf2 & Hf3 & _).
    destruct (canRetire _ _).
    - rewrite Hf1, Hf2, Hf3 by done. split; [done|]. split; [|by right]. intros o' ?. cbn.
      by rewrite list_lookup_insert_ne.
    - split; [done|]. split; [|by left]. intros o' ?. cbn. by rewrite list_lookup_insert_ne. }
  clearbody m1. destruct H1 as (He1 & Ho1 & Hs1).
  destruct (sendReset_fields (fail_stream m1 o e) o x02) as (Hr1 & Hr2 & Hr3).
  destruct (sendReset (Ok tt) (fail_stream m1 o e) o x02) as [m2 r2]. cbn in Hr1, Hr2, Hr3.
  destruct (removeStream_fields m2 id o) as (Hf1 & Hf2 & Hf3 & Hf4).
  assert (Hfin : m_err (removeStream m2 id o) = m_err m /\
    m_streams (removeStream m2 id o) = delete id (m_streams m) /\
    forall o', o' <> o -> m_objects (removeStream m2 id o) !! o' = m_objects m !! o').
  { split; [congruence|]. split.
    - destruct Hs1 as [Hs1|Hs1].
      + rewrite Hf3 by (rewrite Hr1, Hs1; done). by rewrite Hr1, Hs1.
      + rewrite Hf4 by (rewrite Hr1, Hs1; apply lookup_delete_eq). by rewrite Hr1, Hs1.
    - intros o' Hne. rewrite Hf1, Hr3 by done. rewrite list_lookup_insert_ne by done. by apply Ho1. }
  destruct (Kind cell); done.
Qed.

(** The extension messages a receiver takes from the channel during a
    sequence of arriving payloads and receptions. *)
Fixpoint ext_run (sha256 : list byte -> list byte) (m : Mux) (events : list (option (list byte))) : list Z :=
  match events with
  | [] => []
  | Some payload :: events => ext_run sha256 (fst (handleExtensionPayload sha256 m payload)) events
  | None :: events =>
      match ReceiveExtension false m with
      | (m, Some (Ok env)) => env_message_id env :: ext_run sha256 m events
      | (m, _) => ext_run sha256 m events
      end
  end.

Lemma ext_run_sorted sha256 events m b :
  ext_inv (m_extensions m) -> b <= x_highest (m_extensions m) ->
  Forall (fun e => b < env_message_id e) (x_queue (m_extensions m)) ->
  StronglySorted Z.lt (ext_run sha256 m events) /\ Forall (fun id => b < id) (ext_run sha256 m events).
Proof.
  revert m b. induction events as [|[payload|] events IH]; intros m b Hx Hb Hq; cbn.
  { split; constructor. }
  - destruct (handleExtensionPayload sha256 m payload) as [m' r] eqn:E. cbn.
    destruct (handleExtension_cases _ _ _ _ _ E) as [->|(env & x & _ & -> & Hgt & Hh & Hqx & Hxi)]; [by apply IH|].
    apply IH; cbn; [by apply Hxi|lia|].
    destruct Hqx as [[-> _]|[-> _]]; [done|]. apply Forall_app_2; [done|]. constructor; [lia|done].
  - unfold ReceiveExtension. 
    assert (Hcase : forall m', (match x_queue (m_extensions m) with
      | env :: queue => (set_extensions m (mkExtensions (x_seen (m_extensions m)) (x_order (m_extensions m))
          (x_highest (m_extensions m)) queue), Some (Ok env))
      | [] => (m, None) end) = m' ->
      StronglySorted Z.lt (match m' with (m, Some (Ok env)) => env_message_id env :: ext_run sha256 m events
        | (m, _) => ext_run sha256 m events end) /\
      Forall (fun id => b < id) (match m' with (m, Some (Ok env)) => env_message_id env :: ext_run sha256 m events
        | (m, _) => ext_run sha256 m events end)).
    { intros m' <-. destruct (x_queue (m_extensions m)) as [|env queue] eqn:Eq; [by apply IH; rewrite ?Eq|].
      destruct Hx. rewrite Eq in *. cbn in *. apply Forall_cons_1 in Hq as [Hq1 Hq2].
      apply Forall_cons_1 in e_queue_high0 as [Hh1 Hh2]. apply StronglySorted_inv in e_queue_sorted0 as [Hs1 Hs2].
      rewrite len_cons in e_queue0.
      destruct (IH (set_extensions m (mkExtensions (x_seen (m_extensions m)) (x_order (m_extensions m))
          (x_highest (m_extensions m)) queue)) (env_message_id env)) as [IH1 IH2]; cbn.
      - split; cbn; try done. lia.
      - done.
      - rewrite Forall_map in Hs2. exact Hs2.
      - split; constructor; try done. eapply Forall_impl; [exact IH2|]. cbn. lia. }
    specialize (Hcase _ eq_refl). destruct (m_err m); exact Hcase.
Qed.

(** extension messages are delivered in strictly increasing id order,
    each id at most once, whatever payloads arrive: duplicates, stale and
    conflicting ids are never delivered. *)
Theorem extensions_delivered_once sha256 role tm window streams m0 events :
  New role tm window streams = Ok m0 ->
  StronglySorted Z.lt (ext_run sha256 m0 events) /\ NoDup (ext_run sha256 m0 events) /\
  Forall (fun id => 0 < id) (ext_run sha256 m0 events).
Proof.
  intros Hn. pose proof (New_inv _ _ _ _ _ Hn) as H.
  assert (E : m_extensions m0 = mkExtensions ∅ [] 0 []).
  { unfold New in Hn. destruct (_ || _); [done|]. destruct (EncodeKind _ _); [|done]. by injection Hn as <-. }
  destruct (ext_run_sorted sha256 events m0 0 (i_ext _ H)) as [H1 H2]; [by rewrite E|by rewrite E|].
  split; [done|]. split; [|done]. clear -H1. induction H1 as [|x l _ IH Hx]; constructor; [|done].
  intros Hin. rewrite Forall_forall in Hx. specialize (Hx _ Hin). lia.
Qed.

(** ** Concrete sessions *)
Module MuxExample.

Definition tm : TypeMap := install_codes initial_codes 0 zeroTypeMap.
Definition mux_of (r : res Mux) (d : Mux) : Mux := match r with Ok m => m | Err _ => d end.
Definition empty_mux : Mux :=
  mkMux 0 tm 0 0 0 [] ∅ ∅ [] 0 [] [] None (mkExtensions ∅ [] 0 []) ∅ None [].
Definition client : Mux := mux_of (New RoleClient tm 8 2) empty_mux.
Definition server : Mux := mux_of (New RoleServer tm 8 1) empty_mux.
(** A digest good enough for examples. *)
Definition digest (l : list byte) : list byte := l.

Lemma client_mux_new : New RoleClient tm 8 2 = Ok client.
Proof. vm_compute. reflexivity. Qed.

Lemma server_new : New RoleServer tm 8 1 = Ok server.
Proof. vm_compute. reflexivity. Qed.

Definition sends (m : Mux) (i : nat) : res (list byte) :=
  match m_sent m !! i with Some raw => Ok raw | None => Err (External 0) end.

(** The client opens two streams; the server allows one.  The second open is
    given up by its caller while the refusal is on its way. *)
Definition client1 : Mux := fst (Open (Ok tt) client []).
Definition client2 : Mux := fst (Open (Ok tt) client1 []).
Definition client3 : Mux := Open_cancel (Ok tt) client2 1 (External 1).
Definition server1 : Mux := readLoop digest (Ok tt) server (sends client3 0).
Definition server2 : Mux := readLoop digest (Ok tt) server1 (sends client3 1).
Definition server3 : Mux := readLoop digest (Ok tt) server2 (sends client3 2).

(** The refused stream is not remembered by the server, so the RESET of the
    cancelled open is a protocol violation that ends the whole session with
    its healthy first stream. *)
Theorem cancelled_open_ends_session :
  m_err server2 = None /\ m_streams server2 !! 1 = Some 0%nat /\
  s_readErr (get_stream server2 0) = None /\
  m_err server3 = Some (Sentinel ErrProtocol) /\
  s_readErr (get_stream server3 0) = Some (Sentinel ErrProtocol).
Proof. vm_compute. done. Qed.

Lemma server1_reachable : mux_reachable digest server server1.
Proof. eapply mx_step; [apply mx_refl|]. apply st_read. Qed.

Lemma client2_reachable : mux_reachable digest client client2.
Proof. eapply mx_step; [eapply mx_step; [apply mx_refl|apply st_open]|apply st_open]. Qed.

Lemma mux_tables_consistent_witness :
  m_streams client2 !! 3 = Some 1%nat /\ size_of (m_streams client2) <= m_maxStreams client2.
Proof.
  split; [vm_compute; reflexivity|].
  exact (proj1 (mux_tables_consistent digest RoleClient tm 8 2 client client2 client_mux_new client2_reachable)).
Defined.

Lemma local_ids_unique_witness : s_id (newStream 1 0 8 true) <> s_id (newStream 3 0 8 true).
Proof.
  apply (local_ids_unique digest RoleClient tm 8 2 client client2 0 1
    (newStream 1 0 8 true) (newStream 3 0 8 true) client_mux_new client2_reachable);
    [vm_compute; reflexivity|vm_compute; reflexivity|done|vm_compute; reflexivity].
Defined.

Lemma terminate_fails_streams_witness :
  m_err (terminate client2 ErrClosed) = Some (Sentinel ErrClosed).
Proof.
  assert (Hs : m_objects client2 !! 0%nat = Some (newStream 1 0 8 true)) by (vm_compute; reflexivity).
  pose proof (terminate_fails_streams client2 ErrClosed 0 _ Hs) as H.
  assert (E : m_err client2 = None) by (vm_compute; reflexivity).
  rewrite E in H. exact (proj1 H).
Defined.

(** DATA beyond the window of the server's only stream. *)
Definition oversized : Cell := mkCell CellData 1 1 (zeros 9) [].

Lemma stream_violation_contained_witness : exists s e,
  Stream.handleCell (get_stream server1 0) oversized = (s, Err e) /\
  snd (handleCell digest (Ok tt) server1 oversized) = Ok tt /\
  m_err (fst (handleCell digest (Ok tt) server1 oversized)) = None.
Proof.
  destruct (Stream.handleCell (get_stream server1 0) oversized) as [s [u|e]] eqn:E;
    [vm_compute in E; discriminate E|].
  exists s, e. split; [done|].
  assert (Ho : m_streams server1 !! StreamID oversized = Some 0%nat) by (vm_compute; reflexivity).
  assert (Hp : errors_is e ErrProtocol = true) by (vm_compute in E; injection E as _ <-; reflexivity).
  assert (Hn : m_err server1 = None) by (vm_compute; reflexivity).
  assert (Hz : StreamID oversized <> 0) by done.
  assert (Hk : Kind oversized <> CellOpen) by done.
  pose proof (stream_violation_contained digest RoleServer tm 8 1 server server1 oversized 0 s e
    server_new server1_reachable Hz Hk Ho E Hp) as H.
  destruct (handleCell digest (Ok tt) server1 oversized) as [m' r].
  destruct H as (Hr & He & _). rewrite Hn in He. exact (conj Hr He).
Defined.

Definition ext_payload (id : Z) : list byte :=
  match MarshalEnvelope (mkEnvelope ExtensionUpdate id [mkTLV 1 [x01]]) with Ok raw => raw | Err _ => [] end.

Definition ext_events : list (option (list byte)) :=
  [Some (ext_payload 3); Some (ext_payload 3); Some (ext_payload 2); None; Some (ext_payload 5); None; None].

Lemma extensions_delivered_once_witness :
  ext_run digest client ext_events = [3; 5] /\ NoDup (ext_run digest client ext_events).
Proof.
  split; [vm_compute; reflexivity|].
  exact (proj1 (proj2 (extensions_delivered_once digest RoleClient tm 8 2 client ext_events client_mux_new))).
Defined.
End MuxExample.
