(* ===== verification/Record.v ===== *)
(** * The record layer (internal/session/encrypted_carrier.go)

    ChaCha20-Poly1305, HMAC-SHA256 and the inner carrier are parameters: an
    AEAD object is what [chacha20poly1305.New] makes of a key.  [closed]
    records that [inner.Close] was called.  [Send] returns the record it
    handed to the inner carrier.  Both mutexes are held for the whole of a
    [Send] that carries a pending rekey, and each call is one step. *)
From stdpp Require Import prelude list.
From S2P Require Import Prelude Cell Auth Stream.

Definition recordDirectionClientToServer : Z := 1.
Definition recordDirectionServerToClient : Z := 2.
Definition recordKeyEpochInterval : Z := 16 * 1024.

Definition recordNonce (prefix : list byte) (counter : Z) : list byte := prefix ++ be_encode 8 counter.

(** The 17 bytes of the label, a zero byte, and the five fields. *)
Definition recordAssociatedData (kind direction counter epoch : Z) : list byte :=
  bytes_of "Neproto NP/2 cell" ++ [x00; z2b Version; z2b kind; z2b direction]
  ++ be_encode 8 counter ++ be_encode 8 epoch.

Arguments recordNonce : simpl never.
Arguments recordAssociatedData : simpl never.

(** [keys.ClientToServer == [32]byte{}]. *)
Definition keys_missing (keys : SessionKeys) : bool :=
  is_zero (sk_c2s keys) || is_zero (sk_s2c keys).

Section Record.
Context {aead : Type}.
Variable New : list byte -> res aead.
Variable Seal : aead -> list byte -> list byte -> list byte -> list byte.
Variable Open : aead -> list byte -> list byte -> list byte -> option (list byte).
Variable Overhead : aead -> Z.
Variable hmac_sha256 : list byte -> list byte -> list byte.
(** [inner.Kind()]. *)
Variable kind : Z.

Record recordRekey := mkRekey {
  rk_sendAEAD : aead;
  rk_receiveAEAD : aead;
  rk_sendKey : list byte;
  rk_receiveKey : list byte;
  rk_sendPrefix : list byte;
  rk_receivePrefix : list byte
}.

Record encryptedCarrier := mkCarrier {
  sendAEAD : aead;
  receiveAEAD : aead;
  sendKey : list byte;
  receiveKey : list byte;
  sendPrefix : list byte;
  receivePrefix : list byte;
  sendDirection : Z;
  recvDirection : Z;
  sendCounter : Z;
  recvCounter : Z;
  sendEpoch : Z;
  receiveEpoch : Z;
  epochInterval : Z;
  pendingRekey : option recordRekey;
  closed : bool
}.

(** The halves of a carrier: what one direction depends on. *)
Record half := mkHalf {
  h_aead : aead;
  h_key : list byte;
  h_prefix : list byte;
  h_dir : Z;
  h_counter : Z;
  h_epoch : Z;
  h_interval : Z
}.

Definition send_half (c : encryptedCarrier) : half :=
  mkHalf (sendAEAD c) (sendKey c) (sendPrefix c) (sendDirection c) (sendCounter c) (sendEpoch c) (epochInterval c).
Definition recv_half (c : encryptedCarrier) : half :=
  mkHalf (receiveAEAD c) (receiveKey c) (receivePrefix c) (recvDirection c) (recvCounter c) (receiveEpoch c) (epochInterval c).

Definition set_sendKeys (c : encryptedCarrier) (a : aead) (key : list byte) (epoch : Z) : encryptedCarrier :=
  mkCarrier a (receiveAEAD c) key (receiveKey c) (sendPrefix c) (receivePrefix c) (sendDirection c)
    (recvDirection c) (sendCounter c) (recvCounter c) epoch (receiveEpoch c) (epochInterval c)
    (pendingRekey c) (closed c).
Definition set_receiveKeys (c : encryptedCarrier) (a : aead) (key : list byte) (epoch : Z) : encryptedCarrier :=
  mkCarrier (sendAEAD c) a (sendKey c) key (sendPrefix c) (receivePrefix c) (sendDirection c)
    (recvDirection c) (sendCounter c) (recvCounter c) (sendEpoch c) epoch (epochInterval c)
    (pendingRekey c) (closed c).
Definition set_counters (c : encryptedCarrier) (send receive : Z) : encryptedCarrier :=
  mkCarrier (sendAEAD c) (receiveAEAD c) (sendKey c) (receiveKey c) (sendPrefix c) (receivePrefix c)
    (sendDirection c) (recvDirection c) send receive (sendEpoch c) (receiveEpoch c) (epochInterval c)
    (pendingRekey c) (closed c).
Definition set_pending (c : encryptedCarrier) (p : option recordRekey) : encryptedCarrier :=
  mkCarrier (sendAEAD c) (receiveAEAD c) (sendKey c) (receiveKey c) (sendPrefix c) (receivePrefix c)
    (sendDirection c) (recvDirection c) (sendCounter c) (recvCounter c) (sendEpoch c) (receiveEpoch c)
    (epochInterval c) p (closed c).
Definition Close (c : encryptedCarrier) : encryptedCarrier :=
  mkCarrier (sendAEAD c) (receiveAEAD c) (sendKey c) (receiveKey c) (sendPrefix c) (receivePrefix c)
    (sendDirection c) (recvDirection c) (sendCounter c) (recvCounter c) (sendEpoch c) (receiveEpoch c)
    (epochInterval c) (pendingRekey c) true.

(** The keys and prefixes of a role: (send key, receive key, send prefix,
    receive prefix). *)
Definition role_keys (server : bool) (keys : SessionKeys)
    : list byte * list byte * list byte * list byte :=
  if server then (sk_s2c keys, sk_c2s keys, sk_s2c_nonce keys, sk_c2s_nonce keys)
  else (sk_c2s keys, sk_s2c keys, sk_c2s_nonce keys, sk_s2c_nonce keys).

Definition newEncryptedCarrier (role : Z) (keys : SessionKeys) : res encryptedCarrier :=
  if (negb (role =? RoleClient) && negb (role =? RoleServer)) || keys_missing keys
  then Err ErrSessionConfig
  else
    let server := role =? RoleServer in
    let '(sk, rk, sp, rp) := role_keys server keys in
    let sd := if server then recordDirectionServerToClient else recordDirectionClientToServer in
    let rd := if server then recordDirectionClientToServer else recordDirectionServerToClient in
    send ← New sk;
    receive ← New rk;
    Ok (mkCarrier send receive sk rk sp rp sd rd 0 0 0 0 0 None false).

Definition deriveRecordEpochKey (current : list byte) (direction epoch : Z) : list byte :=
  hmac_sha256 current (bytes_of "NeProto NP/2 record epoch v1" ++ [z2b direction] ++ be_encode 8 epoch).

Definition rotateSendEpochIfNeeded (c : encryptedCarrier) : encryptedCarrier * res unit :=
  if (epochInterval c =? 0) || (sendCounter c =? 0) || negb (sendCounter c mod epochInterval c =? 0)
  then (c, Ok tt)
  else
    let nextEpoch := u64 (sendEpoch c + 1) in
    let nextKey := deriveRecordEpochKey (sendKey c) (sendDirection c) nextEpoch in
    match New nextKey with
    | Err e => (c, Err e)
    | Ok nextAEAD => (set_sendKeys c nextAEAD nextKey nextEpoch, Ok tt)
    end.

Definition rotateReceiveEpochIfNeeded (c : encryptedCarrier) : encryptedCarrier * res unit :=
  if (epochInterval c =? 0) || (recvCounter c =? 0) || negb (recvCounter c mod epochInterval c =? 0)
  then (c, Ok tt)
  else
    let nextEpoch := u64 (receiveEpoch c + 1) in
    let nextKey := deriveRecordEpochKey (receiveKey c) (recvDirection c) nextEpoch in
    match New nextKey with
    | Err e => (c, Err e)
    | Ok nextAEAD => (set_receiveKeys c nextAEAD nextKey nextEpoch, Ok tt)
    end.

Definition applyRekeyLocked (c : encryptedCarrier) (t : recordRekey) : encryptedCarrier :=
  mkCarrier (rk_sendAEAD t) (rk_receiveAEAD t) (rk_sendKey t) (rk_receiveKey t) (rk_sendPrefix t)
    (rk_receivePrefix t) (sendDirection c) (recvDirection c) 0 0 0 0 recordKeyEpochInterval
    (pendingRekey c) (closed c).

Definition prepareRekey (c : encryptedCarrier) (keys : SessionKeys) : res recordRekey :=
  if keys_missing keys then Err ErrSessionConfig
  else
    let '(sk, rk, sp, rp) :=
      role_keys (sendDirection c =? recordDirectionServerToClient) keys in
    send ← New sk;
    receive ← New rk;
    Ok (mkRekey send receive sk rk sp rp).

Definition rekey (c : encryptedCarrier) (keys : SessionKeys) : encryptedCarrier * res unit :=
  match prepareRekey c keys with
  | Err e => (c, Err e)
  | Ok t => (set_pending (applyRekeyLocked c t) None, Ok tt)
  end.

Definition rekeyAfterNextSend (c : encryptedCarrier) (keys : SessionKeys) : encryptedCarrier * res unit :=
  match prepareRekey c keys with
  | Err e => (c, Err e)
  | Ok t =>
      match pendingRekey c with
      | Some _ => (c, Err ErrSessionConfig)
      | None => (set_pending c (Some t), Ok tt)
      end
  end.

(** [inner]: what [inner.Send] answers to a record. *)
Definition Send (c : encryptedCarrier) (inner : list byte -> res unit) (plaintext : list byte)
    : encryptedCarrier * res (list byte) :=
  if MaxCellSize <? len plaintext then (Close c, Err ErrRecordTooLarge)
  else if sendCounter c =? MaxUint64 then (Close c, Err ErrRecordSequenceExhausted)
  else
    match rotateSendEpochIfNeeded c with
    | (c, Err e) => (Close c, Err e)
    | (c, Ok _) =>
        let record := Seal (sendAEAD c) (recordNonce (sendPrefix c) (sendCounter c)) plaintext
          (recordAssociatedData kind (sendDirection c) (sendCounter c) (sendEpoch c)) in
        match inner record with
        | Err e => (Close c, Err e)
        | Ok _ =>
            let c := set_counters c (u64 (sendCounter c + 1)) (recvCounter c) in
            (match pendingRekey c with
             | Some t => set_pending (applyRekeyLocked c t) None
             | None => c
             end, Ok record)
        end
    end.

(** [inner]: what [inner.Receive] returned. *)
Definition Receive (c : encryptedCarrier) (inner : res (list byte)) : encryptedCarrier * res (list byte) :=
  match inner with
  | Err e => (c, Err e)
  | Ok record =>
      if recvCounter c =? MaxUint64 then (Close c, Err ErrRecordSequenceExhausted)
      else
        match rotateReceiveEpochIfNeeded c with
        | (c, Err e) => (Close c, Err e)
        | (c, Ok _) =>
            if (len record <? Overhead (receiveAEAD c)) || (MaxCellSize + Overhead (receiveAEAD c) <? len record)
            then (Close c, Err ErrRecordAuthentication)
            else
              match Open (receiveAEAD c) (recordNonce (receivePrefix c) (recvCounter c)) record
                (recordAssociatedData kind (recvDirection c) (recvCounter c) (receiveEpoch c)) with
              | None => (Close c, Err ErrRecordAuthentication)
              | Some plaintext => (set_counters c (sendCounter c) (u64 (recvCounter c + 1)), Ok plaintext)
              end
        end
  end.

(** ** Halves *)

Definition half_rotate (h : half) : res half :=
  if (h_interval h =? 0) || (h_counter h =? 0) || negb (h_counter h mod h_interval h =? 0) then Ok h
  else
    let nextEpoch := u64 (h_epoch h + 1) in
    let nextKey := deriveRecordEpochKey (h_key h) (h_dir h) nextEpoch in
    a ← New nextKey;
    Ok (mkHalf a nextKey (h_prefix h) (h_dir h) (h_counter h) nextEpoch (h_interval h)).

Definition half_next (h : half) : half :=
  mkHalf (h_aead h) (h_key h) (h_prefix h) (h_dir h) (u64 (h_counter h + 1)) (h_epoch h) (h_interval h).

Definition half_seal (h : half) (p : list byte) : list byte :=
  Seal (h_aead h) (recordNonce (h_prefix h) (h_counter h)) p
    (recordAssociatedData kind (h_dir h) (h_counter h) (h_epoch h)).

(** [h'] is [h] after sealing the plaintexts [ps] into the records [rs]. *)
Fixpoint seals (h : half) (ps rs : list (list byte)) (h' : half) : Prop :=
  match ps, rs with
  | [], [] => h' = h
  | p :: ps, r :: rs =>
      len p <= MaxCellSize /\ h_counter h <> MaxUint64 /\
      exists h1, half_rotate h = Ok h1 /\ r = half_seal h1 p /\ seals (half_next h1) ps rs h'
  | _, _ => False
  end.

(** The documented behaviour of the parameters that the record layer relies
    on: keys of 32 bytes are accepted, [Open] inverts [Seal], a sealed record
    is longer by the overhead, and only sealed records open. *)
Class RecordCrypto : Prop := {
  new_ok : forall k, length k = 32%nat -> is_ok (New k) = true;
  open_seal : forall a n p ad, Open a n (Seal a n p ad) ad = Some p;
  open_only : forall a n r ad p, Open a n r ad = Some p -> r = Seal a n p ad;
  seal_len : forall a n p ad, len (Seal a n p ad) = len p + Overhead a;
  hmac_len : forall k m, length (hmac_sha256 k m) = 32%nat
}.

Definition with_send (c : encryptedCarrier) (h : half) : encryptedCarrier :=
  mkCarrier (h_aead h) (receiveAEAD c) (h_key h) (receiveKey c) (sendPrefix c) (receivePrefix c)
    (sendDirection c) (recvDirection c) (h_counter h) (recvCounter c) (h_epoch h) (receiveEpoch c)
    (epochInterval c) (pendingRekey c) (closed c).
Definition with_recv (c : encryptedCarrier) (h : half) : encryptedCarrier :=
  mkCarrier (sendAEAD c) (h_aead h) (sendKey c) (h_key h) (sendPrefix c) (receivePrefix c)
    (sendDirection c) (recvDirection c) (sendCounter c) (h_counter h) (sendEpoch c) (h_epoch h)
    (epochInterval c) (pendingRekey c) (closed c).

Lemma rotateSend_half c :
  rotateSendEpochIfNeeded c =
  match half_rotate (send_half c) with Ok h => (with_send c h, Ok tt) | Err e => (c, Err e) end.
Proof.
  unfold rotateSendEpochIfNeeded, half_rotate. cbn. destruct (_ || _ || _); [by destruct c|].
  unfold mbind, res_bind. by destruct (New _).
Qed.

Lemma rotateReceive_half c :
  rotateReceiveEpochIfNeeded c =
  match half_rotate (recv_half c) with Ok h => (with_recv c h, Ok tt) | Err e => (c, Err e) end.
Proof.
  unfold rotateReceiveEpochIfNeeded, half_rotate. cbn. destruct (_ || _ || _); [by destruct c|].
  unfold mbind, res_bind. by destruct (New _).
Qed.

(** A rotation keeps prefix, direction, counter and interval. *)
Lemma half_rotate_keeps h h1 : half_rotate h = Ok h1 ->
  h_prefix h1 = h_prefix h /\ h_dir h1 = h_dir h /\ h_counter h1 = h_counter h /\ h_interval h1 = h_interval h.
Proof.
  unfold half_rotate. destruct (_ || _ || _); [by intros [= <-]|].
  unfold mbind, res_bind. destruct (New _); [|done]. by intros [= <-].
Qed.

Lemma seals_snoc h ps rs h' p h1 :
  seals h ps rs h' -> len p <= MaxCellSize -> h_counter h' <> MaxUint64 -> half_rotate h' = Ok h1 ->
  seals h (ps ++ [p]) (rs ++ [half_seal h1 p]) (half_next h1).
Proof.
  revert h rs. induction ps as [|p0 ps IH]; intros h [|r rs]; cbn; try done.
  - intros -> ? ? ?. split; [done|]. split; [done|]. by exists h1.
  - intros (? & ? & h2 & ? & ? & ?) ? ? ?. split; [done|]. split; [done|]. exists h2. auto.
Qed.

Section Laws.
Context {laws : RecordCrypto}.

Lemma half_rotate_total h : exists h1, half_rotate h = Ok h1.
Proof.
  unfold half_rotate. destruct (_ || _ || _); [eauto|]. unfold mbind, res_bind.
  pose proof (new_ok (deriveRecordEpochKey (h_key h) (h_dir h) (u64 (h_epoch h + 1))) (hmac_len _ _)) as H.
  destruct (New _); [eauto|done].
Qed.

(** What a [Send] that the inner carrier accepts does. *)
Lemma Send_ok c inner p c' r :
  Send c inner p = (c', Ok r) ->
  len p <= MaxCellSize /\ sendCounter c <> MaxUint64 /\
  exists h1, half_rotate (send_half c) = Ok h1 /\ r = half_seal h1 p /\
    let c1 := with_send c (half_next h1) in
    c' = match pendingRekey c with Some t => set_pending (applyRekeyLocked c1 t) None | None => c1 end.
Proof.
  unfold Send. destruct (Z.ltb_spec MaxCellSize (len p)); [done|].
  destruct (Z.eqb_spec (sendCounter c) MaxUint64); [done|]. rewrite rotateSend_half.
  destruct (half_rotate _) as [h1|] eqn:E; [|done]. cbn.
  destruct (inner _); [|done]. intros [= <- <-]. split; [done|]. split; [done|]. exists h1.
  destruct (half_rotate_keeps _ _ E) as (Hp & Hd & Hc & _).
  split; [done|]. unfold half_seal. rewrite Hp, Hd. split; [done|]. done.
Qed.

Lemma Send_accepts c p :
  len p <= MaxCellSize -> sendCounter c <> MaxUint64 ->
  exists c' r, Send c (fun _ => Ok tt) p = (c', Ok r).
Proof.
  intros Hp Hc. unfold Send. rewrite (proj2 (Z.ltb_ge _ _)), (proj2 (Z.eqb_neq _ _)) by done.
  rewrite rotateSend_half. destruct (half_rotate_total (send_half c)) as [h1 ->]. eauto.
Qed.

(** [Receive] of the record the peer sealed for this position. *)
Lemma Receive_sealed c p h1 :
  len p <= MaxCellSize -> recvCounter c <> MaxUint64 -> half_rotate (recv_half c) = Ok h1 ->
  Receive c (Ok (half_seal h1 p)) = (with_recv c (half_next h1), Ok p).
Proof.
  intros Hp Hc Hr. unfold Receive. rewrite (proj2 (Z.eqb_neq _ _)) by done.
  rewrite rotateReceive_half, Hr. unfold half_seal. cbn. rewrite seal_len.
  rewrite !(proj2 (Z.ltb_ge _ _)) by (pose proof (len_nonneg p); lia). cbn.
  destruct (half_rotate_keeps _ _ Hr) as (-> & -> & _). cbn. by rewrite open_seal.
Qed.

(** [Receive] accepts nothing else. *)
Lemma Receive_ok c r c' p :
  Receive c (Ok r) = (c', Ok p) ->
  recvCounter c <> MaxUint64 /\
  exists h1, half_rotate (recv_half c) = Ok h1 /\ r = half_seal h1 p /\ c' = with_recv c (half_next h1).
Proof.
  unfold Receive. destruct (Z.eqb_spec (recvCounter c) MaxUint64); [done|]. rewrite rotateReceive_half.
  destruct (half_rotate _) as [h1|] eqn:E; [|done]. cbn.
  destruct (_ || _); [done|].
  destruct (Open _ _ _ _) eqn:Eo; [|done]. intros [= <- <-]. split; [done|]. exists h1. split; [done|].
  destruct (half_rotate_keeps _ _ E) as (Hp & Hd & Hc & _). split; [|done].
  unfold half_seal. rewrite Hp, Hd. cbn. by apply open_only.
Qed.

Lemma send_half_with_send c h1 :
  half_rotate (send_half c) = Ok h1 -> send_half (with_send c (half_next h1)) = half_next h1.
Proof. intros H. destruct (half_rotate_keeps _ _ H) as (Hp & Hd & _ & Hi). unfold half_next. by rewrite Hp, Hd, Hi. Qed.

Lemma recv_half_with_recv c h1 :
  half_rotate (recv_half c) = Ok h1 -> recv_half (with_recv c (half_next h1)) = half_next h1.
Proof. intros H. destruct (half_rotate_keeps _ _ H) as (Hp & Hd & _ & Hi). unfold half_next. by rewrite Hp, Hd, Hi. Qed.

(** ** Client and server over an ordered carrier

    [sy_ab], [sy_ba]: the records in flight; [sy_sent_*], [sy_got_*]: the
    plaintexts sent and received so far.  A rekey is taken as the exchange of
    [applyServerForwardSecrecy] and [applyClientForwardSecrecy] with both
    directions idle: the server arms it and sends its confirmation, the
    client receives it and switches. *)
Record system := mkSystem {
  sy_a : encryptedCarrier;
  sy_b : encryptedCarrier;
  sy_ab : list (list byte);
  sy_ba : list (list byte);
  sy_sent_ab : list (list byte);
  sy_got_ab : list (list byte);
  sy_sent_ba : list (list byte);
  sy_got_ba : list (list byte)
}.

Definition accepts : list byte -> res unit := fun _ => Ok tt.

Inductive sys_step : system -> system -> Prop :=
| sys_send_ab a b ab ba sab gab sba gba p c r :
    Send a accepts p = (c, Ok r) ->
    sys_step (mkSystem a b ab ba sab gab sba gba) (mkSystem c b (ab ++ [r]) ba (sab ++ [p]) gab sba gba)
| sys_send_ba a b ab ba sab gab sba gba p c r :
    Send b accepts p = (c, Ok r) ->
    sys_step (mkSystem a b ab ba sab gab sba gba) (mkSystem a c ab (ba ++ [r]) sab gab (sba ++ [p]) gba)
| sys_receive_ab a b r ab ba sab gab sba gba c p :
    Receive b (Ok r) = (c, Ok p) ->
    sys_step (mkSystem a b (r :: ab) ba sab gab sba gba) (mkSystem a c ab ba sab (gab ++ [p]) sba gba)
| sys_receive_ba a b ab r ba sab gab sba gba c p :
    Receive a (Ok r) = (c, Ok p) ->
    sys_step (mkSystem a b ab (r :: ba) sab gab sba gba) (mkSystem c b ab ba sab gab sba (gba ++ [p]))
| sys_rekey a b sab gab sba gba keys p p' r a1 a2 b1 b2 :
    rekeyAfterNextSend b keys = (b1, Ok tt) -> Send b1 accepts p = (b2, Ok r) ->
    Receive a (Ok r) = (a1, Ok p') -> rekey a1 keys = (a2, Ok tt) ->
    sys_step (mkSystem a b [] [] sab gab sba gba) (mkSystem a2 b2 [] [] sab gab (sba ++ [p]) (gba ++ [p'])).

Inductive sys_reachable (keys : SessionKeys) : system -> Prop :=
| sys_new a b :
    newEncryptedCarrier RoleClient keys = Ok a -> newEncryptedCarrier RoleServer keys = Ok b ->
    sys_reachable keys (mkSystem a b [] [] [] [] [] [])
| sys_more s s' : sys_reachable keys s -> sys_step s s' -> sys_reachable keys s'.

(** One direction: [x] has sealed exactly the records in flight for the
    plaintexts sent and not received, starting from the receiving half of [y]. *)
Definition in_step (x y : encryptedCarrier) (q sent got : list (list byte)) : Prop :=
  exists ps, sent = got ++ ps /\ seals (recv_half y) ps q (send_half x).

Record sys_inv (s : system) : Prop := {
  si_ab : in_step (sy_a s) (sy_b s) (sy_ab s) (sy_sent_ab s) (sy_got_ab s);
  si_ba : in_step (sy_b s) (sy_a s) (sy_ba s) (sy_sent_ba s) (sy_got_ba s);
  si_pending : pendingRekey (sy_a s) = None /\ pendingRekey (sy_b s) = None;
  si_dirs : sendDirection (sy_a s) = 1 /\ recvDirection (sy_a s) = 2 /\
            sendDirection (sy_b s) = 2 /\ recvDirection (sy_b s) = 1
}.

Lemma new_inv keys a b :
  newEncryptedCarrier RoleClient keys = Ok a -> newEncryptedCarrier RoleServer keys = Ok b ->
  sys_inv (mkSystem a b [] [] [] [] [] []).
Proof.
  unfold newEncryptedCarrier, role_keys. cbn. destruct (keys_missing keys); [done|].
  unfold mbind, res_bind. destruct (New (sk_c2s keys)); [|done]. destruct (New (sk_s2c keys)); [|done].
  intros [= <-] [= <-]. split; [by exists []..|done|done].
Qed.

(** Sending keeps the sender's direction in step. *)
Lemma send_in_step x y q sent got p c r :
  pendingRekey x = None -> in_step x y q sent got -> Send x accepts p = (c, Ok r) ->
  in_step c y (q ++ [r]) (sent ++ [p]) got /\ recv_half c = recv_half x /\ pendingRekey c = None /\
  sendDirection c = sendDirection x /\ recvDirection c = recvDirection x.
Proof.
  intros Hn (ps & -> & Hs) H. apply Send_ok in H as (Hl & Hc & h1 & Hr & -> & ->). rewrite Hn.
  split; [|done]. exists (ps ++ [p]). split; [by rewrite app_assoc|].
  rewrite send_half_with_send by done. by apply (seals_snoc _ _ _ (send_half x)).
Qed.

(** The next record in flight opens to the next plaintext. *)
Lemma receive_in_step x y r q sent got :
  in_step x y (r :: q) sent got ->
  exists p c, Receive y (Ok r) = (c, Ok p) /\ in_step x c q sent (got ++ [p]) /\
  send_half c = send_half y /\ pendingRekey c = pendingRekey y /\
  sendDirection c = sendDirection y /\ recvDirection c = recvDirection y.
Proof.
  intros (ps & -> & Hs). destruct ps as [|p ps]; [done|]. destruct Hs as (Hl & Hc & h1 & Hr & -> & Hs).
  exists p, (with_recv y (half_next h1)). split; [by apply Receive_sealed|]. split; [|done].
  exists ps. split; [by rewrite <- app_assoc|]. by rewrite recv_half_with_recv.
Qed.

Lemma in_step_ext x y x' y' q sent got :
  send_half x' = send_half x -> recv_half y' = recv_half y ->
  in_step x y q sent got -> in_step x' y' q sent got.
Proof. intros Hs Hr (ps & ? & ?). exists ps. by rewrite Hs, Hr. Qed.

(** After both sides applied a rekey to the same keys they are in step, with
    nothing in flight. *)
Lemma rekeyed_in_step a b keys ta tb sab sba :
  sendDirection a = 1 -> recvDirection a = 2 -> sendDirection b = 2 -> recvDirection b = 1 ->
  prepareRekey a keys = Ok ta -> prepareRekey b keys = Ok tb ->
  let a' := applyRekeyLocked a ta in let b' := applyRekeyLocked b tb in
  in_step a' b' [] sab sab /\ in_step b' a' [] sba sba.
Proof.
  intros H1 H2 H3 H4. unfold prepareRekey, role_keys, mbind, res_bind. rewrite H1, H3. cbn.
  destruct (keys_missing keys); [done|].
  destruct (New (sk_c2s keys)); [|done]. destruct (New (sk_s2c keys)); [|done].
  intros [= <-] [= <-]. cbn. split; exists []; rewrite app_nil_r; (split; [done|]);
    unfold recv_half, send_half; cbn; by rewrite ?H1, ?H2, ?H3, ?H4.
Qed.

Lemma prepareRekey_ext c c' keys :
  sendDirection c' = sendDirection c -> prepareRekey c' keys = prepareRekey c keys.
Proof. unfold prepareRekey. by intros ->. Qed.

(** The whole exchange of a rekey. *)
Lemma rekey_step a b keys p p' r a1 a2 b1 b2 sab sba gba :
  sys_inv (mkSystem a b [] [] sab sab sba gba) ->
  rekeyAfterNextSend b keys = (b1, Ok tt) -> Send b1 accepts p = (b2, Ok r) ->
  Receive a (Ok r) = (a1, Ok p') -> rekey a1 keys = (a2, Ok tt) ->
  p' = p /\ sys_inv (mkSystem a2 b2 [] [] sab sab (sba ++ [p]) (gba ++ [p])).
Proof.
  intros [_ Hba [Hpa Hpb] (Hd1 & Hd2 & Hd3 & Hd4)] Hb1 Hb2 Ha1 Ha2. cbn in Hba, Hpa, Hpb, Hd1, Hd2, Hd3, Hd4.
  unfold rekeyAfterNextSend in Hb1. destruct (prepareRekey b keys) as [tb|] eqn:Etb; [|done].
  rewrite Hpb in Hb1. injection Hb1 as <-.
  apply Send_ok in Hb2 as (Hl & Hc & h1 & Hr & -> & ->). cbn in Hr, Hc |- *.
  destruct Hba as (ps & Hps & Hs). destruct ps; [|done]. cbn in Hs. rewrite app_nil_r in Hps. subst sba.
  unfold send_half at 1 in Hr. cbn in Hr. fold (send_half b) in Hr. rewrite Hs in Hr.
  assert (Hca : recvCounter a <> MaxUint64) by (pose proof (f_equal h_counter Hs) as E; cbn in E; congruence).
  rewrite (Receive_sealed a p h1) in Ha1 by done. injection Ha1 as <- <-. split; [done|].
  unfold rekey in Ha2. destruct (prepareRekey (with_recv a (half_next h1)) keys) as [ta|] eqn:Eta; [|done]. injection Ha2 as <-.
  rewrite (prepareRekey_ext a) in Eta by done.
  destruct (rekeyed_in_step a b keys ta tb sab (gba ++ [p])) as [H1 H2]; done.
Qed.

Lemma sys_reachable_inv keys s : sys_reachable keys s -> sys_inv s.
Proof.
  induction 1 as [a b Ha Hb|s s' _ IH Hs]; [by eapply new_inv|].
  destruct Hs as [a b ab ba sab gab sba gba p c r Hs|a b ab ba sab gab sba gba p c r Hs
    |a b r ab ba sab gab sba gba c p Hs|a b ab r ba sab gab sba gba c p Hs
    |a b sab gab sba gba ks p p' r a1 a2 b1 b2 H1 H2 H3 H4].
  - destruct IH as [I1 I2 [I3 I4] (I5 & I6 & I7 & I8)]. cbn in I1, I2, I3, I4, I5, I6, I7, I8.
    destruct (send_in_step a b ab sab gab p c r I3 I1 Hs) as (J1 & J2 & J3 & J4 & J5).
    split; cbn; [done| |done|by rewrite J4, J5]. revert I2. by apply in_step_ext.
  - destruct IH as [I1 I2 [I3 I4] (I5 & I6 & I7 & I8)]. cbn in I1, I2, I3, I4, I5, I6, I7, I8.
    destruct (send_in_step b a ba sba gba p c r I4 I2 Hs) as (J1 & J2 & J3 & J4 & J5).
    split; cbn; [|done|done|by rewrite J4, J5]. revert I1. by apply in_step_ext.
  - destruct IH as [I1 I2 [I3 I4] (I5 & I6 & I7 & I8)]. cbn in I1, I2, I3, I4, I5, I6, I7, I8.
    destruct (receive_in_step a b r ab sab gab I1) as (p1 & c1 & E & J1 & J2 & J3 & J4 & J5).
    rewrite E in Hs. injection Hs as <- <-.
    split; cbn; [done| |by rewrite J3|by rewrite J4, J5]. revert I2. by apply in_step_ext.
  - destruct IH as [I1 I2 [I3 I4] (I5 & I6 & I7 & I8)]. cbn in I1, I2, I3, I4, I5, I6, I7, I8.
    destruct (receive_in_step b a r ba sba gba I2) as (p1 & c1 & E & J1 & J2 & J3 & J4 & J5).
    rewrite E in Hs. injection Hs as <- <-.
    split; cbn; [|done|by rewrite J3|by rewrite J4, J5]. revert I1. by apply in_step_ext.
  - assert (E : sab = gab).
    { destruct IH as [(ps & Hp & Hq) _ _ _]. cbn in *. destruct ps; [|done]. by rewrite app_nil_r in Hp. }
    subst gab. by destruct (rekey_step a b ks p p' r a1 a2 b1 b2 sab sba gba IH H1 H2 H3 H4) as [-> ?].
Qed.

(** ** Rekeys interleaved with traffic

    [sys_rekey] takes a whole handover at once.  Here its parts are steps of
    their own and records stay in flight around them.  The server arms the
    switch ([rekeyAfterNextSend], [Quiet] to [Armed]); its next record is the
    confirmation, at which it switches ([Switched]); the client receives what
    is left of the old generation, [old] records with the confirmation as the
    last, and switches ([rekey]).  What [applyServerForwardSecrecy] and
    [applyClientForwardSecrecy] rely on is kept as the guards: the server's
    next record after arming is the confirmation, it is sent once the client
    has nothing in flight (the client's acceptance was its last record), and
    the client sends nothing and takes no record of the new generation
    before it has switched. *)
Inductive phase :=
| Quiet
| Armed (keys : SessionKeys)
| Switched (keys : SessionKeys) (old : nat).

Definition client_may_send (ph : phase) : Prop := match ph with Switched _ _ => False | _ => True end.
Definition server_may_send (ph : phase) : Prop := match ph with Armed _ => False | _ => True end.
(** The phase after the client received a record; [None] when it must switch
    first. *)
Definition client_received (ph : phase) : option phase :=
  match ph with
  | Switched _ O => None
  | Switched keys (S old) => Some (Switched keys old)
  | _ => Some ph
  end.

Inductive handover_step : phase * system -> phase * system -> Prop :=
| ho_send_ab ph a b ab ba sab gab sba gba p c r :
    client_may_send ph -> Send a accepts p = (c, Ok r) ->
    handover_step (ph, mkSystem a b ab ba sab gab sba gba)
                  (ph, mkSystem c b (ab ++ [r]) ba (sab ++ [p]) gab sba gba)
| ho_send_ba ph a b ab ba sab gab sba gba p c r :
    server_may_send ph -> Send b accepts p = (c, Ok r) ->
    handover_step (ph, mkSystem a b ab ba sab gab sba gba)
                  (ph, mkSystem a c ab (ba ++ [r]) sab gab (sba ++ [p]) gba)
| ho_receive_ab ph a b r ab ba sab gab sba gba c p :
    Receive b (Ok r) = (c, Ok p) ->
    handover_step (ph, mkSystem a b (r :: ab) ba sab gab sba gba)
                  (ph, mkSystem a c ab ba sab (gab ++ [p]) sba gba)
| ho_receive_ba ph ph' a b ab r ba sab gab sba gba c p :
    client_received ph = Some ph' -> Receive a (Ok r) = (c, Ok p) ->
    handover_step (ph, mkSystem a b ab (r :: ba) sab gab sba gba)
                  (ph', mkSystem c b ab ba sab gab sba (gba ++ [p]))
| ho_arm a b ab ba sab gab sba gba keys c :
    rekeyAfterNextSend b keys = (c, Ok tt) ->
    handover_step (Quiet, mkSystem a b ab ba sab gab sba gba)
                  (Armed keys, mkSystem a c ab ba sab gab sba gba)
| ho_confirm a b ba sab gab sba gba keys p c r :
    Send b accepts p = (c, Ok r) ->
    handover_step (Armed keys, mkSystem a b [] ba sab gab sba gba)
                  (Switched keys (S (length ba)), mkSystem a c [] (ba ++ [r]) sab gab (sba ++ [p]) gba)
| ho_switch a b ab ba sab gab sba gba keys c :
    rekey a keys = (c, Ok tt) ->
    handover_step (Switched keys 0, mkSystem a b ab ba sab gab sba gba)
                  (Quiet, mkSystem c b ab ba sab gab sba gba).

Inductive handover_reachable (keys : SessionKeys) : phase * system -> Prop :=
| ho_new a b :
    newEncryptedCarrier RoleClient keys = Ok a -> newEncryptedCarrier RoleServer keys = Ok b ->
    handover_reachable keys (Quiet, mkSystem a b [] [] [] [] [] [])
| ho_more s s' : handover_reachable keys s -> handover_step s s' -> handover_reachable keys s'.

(** The client has the server's switch ahead of it: the records in flight are
    [old] of the old generation, then those of the new one. *)
Definition switching (a b : encryptedCarrier) (keys : SessionKeys) (old : nat)
    (ba sba gba : list (list byte)) : Prop :=
  exists t q1 q2 ps1 ps2 h,
    prepareRekey a keys = Ok t /\ send_half (applyRekeyLocked a t) = recv_half b /\
    ba = q1 ++ q2 /\ length q1 = old /\ sba = gba ++ ps1 ++ ps2 /\
    seals (recv_half a) ps1 q1 h /\ seals (recv_half (applyRekeyLocked a t)) ps2 q2 (send_half b).

Definition handover_inv (ps : phase * system) : Prop :=
  let '(ph, mkSystem a b ab ba sab gab sba gba) := ps in
  (sendDirection a = 1 /\ recvDirection a = 2 /\ sendDirection b = 2 /\ recvDirection b = 1) /\
  pendingRekey a = None /\
  match ph with
  | Quiet => pendingRekey b = None /\ in_step a b ab sab gab /\ in_step b a ba sba gba
  | Armed keys =>
      (exists t, pendingRekey b = Some t /\ prepareRekey b keys = Ok t) /\
      in_step a b ab sab gab /\ in_step b a ba sba gba
  | Switched keys old =>
      pendingRekey b = None /\ ab = [] /\ sab = gab /\ switching a b keys old ba sba gba
  end.

Lemma in_step_idle x y sent got : in_step x y [] sent got -> sent = got /\ send_half x = recv_half y.
Proof. intros ([|p ps] & -> & Hs); [|done]. by rewrite app_nil_r. Qed.

Lemma seals_length h ps rs h' : seals h ps rs h' -> length ps = length rs.
Proof.
  revert h rs. induction ps as [|p ps IH]; intros h [|r rs]; cbn; try done.
  intros (_ & _ & h1 & _ & _ & H). by rewrite (IH _ _ H).
Qed.

(** Keys that one role can prepare, the other can, and then the two halves of
    each direction agree. *)
Lemma prepareRekey_peer a b keys tb :
  sendDirection a = 1 -> recvDirection a = 2 -> sendDirection b = 2 -> recvDirection b = 1 ->
  prepareRekey b keys = Ok tb ->
  exists ta, prepareRekey a keys = Ok ta /\
    send_half (applyRekeyLocked a ta) = recv_half (applyRekeyLocked b tb) /\
    send_half (applyRekeyLocked b tb) = recv_half (applyRekeyLocked a ta).
Proof.
  intros H1 H2 H3 H4. unfold prepareRekey, role_keys, mbind, res_bind. rewrite H1, H3. cbn.
  destruct (keys_missing keys); [done|].
  destruct (New (sk_c2s keys)); [|by destruct (New (sk_s2c keys))]. destruct (New (sk_s2c keys)); [|done].
  intros [= <-]. eexists. split; [done|]. unfold recv_half, send_half. cbn. by rewrite H1, H2, H3, H4.
Qed.

(** The confirmation is the last record of the old generation. *)
Lemma confirm_switching a b ba sba gba keys t p c r :
  sendDirection a = 1 -> recvDirection a = 2 -> sendDirection b = 2 -> recvDirection b = 1 ->
  pendingRekey b = Some t -> prepareRekey b keys = Ok t -> in_step b a ba sba gba ->
  Send b accepts p = (c, Ok r) ->
  pendingRekey c = None /\ sendDirection c = 2 /\ recvDirection c = 1 /\
  switching a c keys (S (length ba)) (ba ++ [r]) (sba ++ [p]) gba.
Proof.
  intros H1 H2 H3 H4 Hp Ht (ps & -> & Hs) H.
  destruct (prepareRekey_peer a b keys t H1 H2 H3 H4 Ht) as (ta & Hta & Hab & Hba).
  apply Send_ok in H as (Hl & Hc & h1 & Hr & -> & ->). rewrite Hp. split_and!; try done.
  exists ta, (ba ++ [half_seal h1 p]), [], (ps ++ [p]), [], (half_next h1).
  split; [done|]. split; [exact Hab|]. rewrite !app_nil_r. split; [done|].
  split; [rewrite length_app; cbn; lia|]. split; [by rewrite app_assoc|].
  split; [by apply (seals_snoc _ _ _ (send_half b))|exact Hba].
Qed.

Lemma handover_step_inv s s' : handover_inv s -> handover_step s s' -> handover_inv s'.
Proof.
  intros I Hs. destruct Hs as [ph a b ab ba sab gab sba gba p c r Hph Hs|ph a b ab ba sab gab sba gba p c r Hph Hs
    |ph a b r ab ba sab gab sba gba c p Hs|ph ph' a b ab r ba sab gab sba gba c p Hph Hs
    |a b ab ba sab gab sba gba keys c Hs|a b ba sab gab sba gba keys p c r Hs|a b ab ba sab gab sba gba keys c Hs];
    destruct I as ((D1 & D2 & D3 & D4) & Pa & I).
  - assert (K : in_step a b ab sab gab -> in_step b a ba sba gba ->
      in_step c b (ab ++ [r]) (sab ++ [p]) gab /\ in_step b c ba sba gba /\ pendingRekey c = None /\
      sendDirection c = 1 /\ recvDirection c = 2).
    { intros I1 I2. destruct (send_in_step a b ab sab gab p c r Pa I1 Hs) as (? & J & ? & -> & ->).
      split; [done|]. split; [|done]. by apply (in_step_ext b a). }
    destruct ph as [|keys|]; [| |done]; destruct I as (Pb & I1 & I2);
      destruct (K I1 I2) as (? & ? & ? & ? & ?); by split_and!.
  - destruct ph as [|keys|keys old]; [|done|].
    + destruct I as (Pb & I1 & I2). destruct (send_in_step b a ba sba gba p c r Pb I2 Hs) as (? & J & ? & Ds & Dr).
      split; [by rewrite Ds, Dr|]. split; [done|]. split; [done|]. split; [|done]. by apply (in_step_ext a b).
    + destruct I as (Pb & -> & -> & t & q1 & q2 & ps1 & ps2 & h & Ht & Hab & -> & Hq & -> & S1 & S2).
      apply Send_ok in Hs as (Hl & Hc & h1 & Hr & -> & ->). rewrite Pb. split_and!; try done.
      exists t, q1, (q2 ++ [half_seal h1 p]), ps1, (ps2 ++ [p]), h. rewrite <- !app_assoc.
      split_and!; try done. rewrite send_half_with_send by done. by apply (seals_snoc _ _ _ (send_half b)).
  - assert (K : in_step a b (r :: ab) sab gab -> in_step b a ba sba gba ->
      in_step a c ab sab (gab ++ [p]) /\ in_step c a ba sba gba /\ pendingRekey c = pendingRekey b /\
      sendDirection c = sendDirection b /\ recvDirection c = recvDirection b).
    { intros I1 I2. destruct (receive_in_step a b r ab sab gab I1) as (p1 & c1 & E & ? & ? & ? & ? & ?).
      rewrite E in Hs. injection Hs as <- <-. split; [done|]. split; [|done]. by apply (in_step_ext b a). }
    destruct ph as [|keys|]; [| |by destruct I as (_ & ? & _)]; destruct I as (Pb & I1 & I2);
      destruct (K I1 I2) as (? & ? & Ep & Es & Er); unfold handover_inv; rewrite Ep, Es, Er; split_and!; try done.
    destruct Pb as (t & -> & Ht). exists t. by rewrite (prepareRekey_ext b).
  - assert (K : in_step a b ab sab gab -> in_step b a (r :: ba) sba gba ->
      in_step c b ab sab gab /\ in_step b c ba sba (gba ++ [p]) /\ pendingRekey c = None /\
      sendDirection c = 1 /\ recvDirection c = 2).
    { intros I1 I2. destruct (receive_in_step b a r ba sba gba I2) as (p1 & c1 & E & ? & ? & ? & ? & ?).
      rewrite E in Hs. injection Hs as <- <-. split; [by apply (in_step_ext a b)|]. split_and!; congruence. }
    destruct ph as [|keys|keys [|old]]; [| |done|]; injection Hph as <-.
    1,2: destruct I as (Pb & I1 & I2); destruct (K I1 I2) as (? & ? & ? & ? & ?); by split_and!.
    destruct I as (Pb & -> & -> & t & [|r1 q1] & q2 & ps1 & ps2 & h & Ht & Hab & Eq & Hq & -> & S1 & S2); [done|].
    injection Eq as <- ->. destruct ps1 as [|p1 ps1]; [done|]. destruct S1 as (Hl & Hc & h1 & Hr & -> & S1).
    rewrite (Receive_sealed a p1 h1) in Hs by done. injection Hs as <- <-. split_and!; try done.
    exists t, q1, q2, ps1, ps2, h. rewrite (prepareRekey_ext a) by done. split_and!; try done.
    + by injection Hq.
    + by rewrite <- app_assoc.
    + by rewrite recv_half_with_recv.
  - destruct I as (Pb & I1 & I2). unfold rekeyAfterNextSend in Hs. rewrite Pb in Hs.
    destruct (prepareRekey b keys) as [t|] eqn:Et; [|done]. injection Hs as <-.
    split_and!; try done. exists t. by rewrite (prepareRekey_ext b).
  - destruct I as ((t & Hp & Ht) & I1 & I2). apply in_step_idle in I1 as [-> _].
    destruct (confirm_switching a b ba sba gba keys t p c r D1 D2 D3 D4 Hp Ht I2 Hs) as (? & ? & ? & ?).
    by split_and!.
  - destruct I as (Pb & -> & -> & t & q1 & q2 & ps1 & ps2 & h & Ht & Hab & -> & Hq & -> & S1 & S2).
    unfold rekey in Hs. rewrite Ht in Hs. injection Hs as <-. apply nil_length_inv in Hq as ->.
    destruct ps1; [|done]. split_and!; try done; [exists []; by rewrite app_nil_r|by exists ps2].
Qed.

Lemma handover_reachable_inv keys s : handover_reachable keys s -> handover_inv s.
Proof.
  induction 1 as [a b Ha Hb|s s' _ IH Hs]; [|by eapply handover_step_inv].
  destruct (new_inv keys a b Ha Hb) as [I1 I2 [I3 I4] (? & ? & ? & ?)]. by split_and!.
Qed.

(** A handover taken at once is one of the interleavings. *)
Lemma sys_handover keys s : sys_reachable keys s -> handover_reachable keys (Quiet, s).
Proof.
  induction 1 as [a b Ha Hb|s s' _ IH Hs]; [by apply ho_new|].
  destruct Hs as [| | | |a b sab gab sba gba ks p p' r a1 a2 b1 b2 H1 H2 H3 H4];
    [eapply ho_more; [exact IH|by econstructor]..|].
  eapply ho_more; [eapply ho_more; [eapply ho_more; [eapply ho_more; [exact IH|by apply ho_arm]|]|]|].
  - by eapply ho_confirm.
  - eapply ho_receive_ba; [done|exact H3].
  - by apply ho_switch.
Qed.

(** C3: over an ordered carrier the two ends of a session stay in step
    through any interleaving of sends, receives and the parts of a rekey:
    what was received is a prefix of what was sent, in each direction, and
    the next record in flight authenticates and opens to exactly the next
    plaintext; when the next record to the client is of the generation it has
    not switched to, its [rekey] succeeds and the record then opens.  The
    guards of [handover_step] are the order of the handover: after arming,
    the server's next record is the confirmation, sent when no record of the
    client is in flight, and the client sends nothing more until it has
    switched, which it does before it takes a record of the new generation. *)
Theorem records_in_order keys ph s :
  handover_reachable keys (ph, s) ->
  (exists rest, sy_sent_ab s = sy_got_ab s ++ rest) /\ (exists rest, sy_sent_ba s = sy_got_ba s ++ rest) /\
  (forall r q, sy_ab s = r :: q -> exists p c rest,
     Receive (sy_b s) (Ok r) = (c, Ok p) /\ sy_sent_ab s = sy_got_ab s ++ p :: rest) /\
  (forall r q, sy_ba s = r :: q -> client_received ph <> None -> exists p c rest,
     Receive (sy_a s) (Ok r) = (c, Ok p) /\ sy_sent_ba s = sy_got_ba s ++ p :: rest) /\
  (forall new, ph = Switched new 0 -> exists a, rekey (sy_a s) new = (a, Ok tt) /\
     forall r q, sy_ba s = r :: q -> exists p c rest,
       Receive a (Ok r) = (c, Ok p) /\ sy_sent_ba s = sy_got_ba s ++ p :: rest).
Proof.
  intros H. apply handover_reachable_inv in H. destruct s as [a b ab ba sab gab sba gba].
  destruct H as (_ & _ & I). cbn.
  assert (K : forall x y q sent got, in_step x y q sent got -> (exists rest, sent = got ++ rest) /\
    forall r q', q = r :: q' -> exists p c rest, Receive y (Ok r) = (c, Ok p) /\ sent = got ++ p :: rest).
  { intros x y q sent got I0. split; [destruct I0 as (ps & ? & _); eauto|]. intros r q' ->.
    destruct (receive_in_step _ _ _ _ _ _ I0) as (p & c & Hr & (ps & Hp & _) & _).
    exists p, c, ps. split; [done|]. by rewrite Hp, <- app_assoc. }
  destruct ph as [|new|new old].
  1,2: destruct I as (_ & I1 & I2); destruct (K _ _ _ _ _ I1) as [? ?], (K _ _ _ _ _ I2) as [? ?];
    split; [done|]; split; [done|]; split; [done|]; split; [eauto|done].
  destruct I as (_ & -> & -> & t & q1 & q2 & ps1 & ps2 & h & Ht & Hab & -> & Hq & -> & S1 & S2).
  split; [by exists []; rewrite app_nil_r|]. split; [eauto|]. split; [done|]. split.
  - intros r q E Hne. destruct q1 as [|r1 q1]; [by cbn in Hq; subst old|]. injection E as <- _.
    destruct ps1 as [|p ps1]; [done|]. destruct S1 as (Hl & Hc & h1 & Hr & -> & _).
    eexists p, _, (ps1 ++ ps2). split; [by apply Receive_sealed|done].
  - intros new' [= <- ->]. apply nil_length_inv in Hq as ->. destruct ps1; [|done].
    unfold rekey. rewrite Ht. eexists. split; [done|]. intros r q E. cbn in E. subst q2.
    destruct ps2 as [|p ps2]; [done|]. destruct S2 as (Hl & Hc & h1 & Hr & -> & _).
    eexists p, _, ps2. split; [by apply Receive_sealed|done].
Qed.

(** a rekey never gets stuck: with both directions idle and the counters
    not exhausted, arming it at the server, sending the confirmation,
    receiving it and switching at the client all succeed; both ends then
    start the new generation at counter and epoch zero. *)
Theorem rekey_completes keys s new p :
  sys_reachable keys s -> sy_ab s = [] -> sy_ba s = [] ->
  keys_missing new = false -> length (sk_c2s new) = 32%nat -> length (sk_s2c new) = 32%nat ->
  sendCounter (sy_b s) <> MaxUint64 -> len p <= MaxCellSize ->
  exists b1 b2 r a1 a2,
    rekeyAfterNextSend (sy_b s) new = (b1, Ok tt) /\ Send b1 accepts p = (b2, Ok r) /\
    Receive (sy_a s) (Ok r) = (a1, Ok p) /\ rekey a1 new = (a2, Ok tt) /\
    sendCounter a2 = 0 /\ recvCounter a2 = 0 /\ sendCounter b2 = 0 /\ recvCounter b2 = 0 /\
    epochInterval a2 = recordKeyEpochInterval /\ epochInterval b2 = recordKeyEpochInterval /\
    send_half a2 = recv_half b2 /\ send_half b2 = recv_half a2.
Proof.
  intros H Eab Eba Hm Hk1 Hk2 Hcb Hp. apply sys_reachable_inv in H as [I1 I2 [I3 I4] (I5 & I6 & I7 & I8)].
  rewrite Eba in I2. destruct s as [a b ab ba sab gab sba gba]. cbn in I1, I2, I3, I4, I5, I6, I7, I8, Hcb |- *.
  assert (Hprep : forall c, exists t, prepareRekey c new = Ok t).
  { intros c. unfold prepareRekey, role_keys, mbind, res_bind. rewrite Hm.
    pose proof (new_ok _ Hk1). pose proof (new_ok _ Hk2).
    destruct (sendDirection c =? _); destruct (New (sk_c2s new)), (New (sk_s2c new)); try done; eauto. }
  destruct (Hprep b) as [tb Etb], (Hprep a) as [ta Eta].
  destruct (Send_accepts (set_pending b (Some tb)) p Hp Hcb) as (b2 & r & Hs).
  destruct (Send_ok _ _ _ _ _ Hs) as (_ & _ & h1 & Hr & -> & Hb2). cbn in Hb2.
  destruct I2 as (ps & Hps & Hq). destruct ps; [|done]. cbn in Hq.
  unfold send_half at 1 in Hr. cbn in Hr. fold (send_half b) in Hr. rewrite Hq in Hr.
  assert (Hca : recvCounter a <> MaxUint64) by (pose proof (f_equal h_counter Hq) as E; cbn in E; congruence).
  eexists _, b2, _, (with_recv a (half_next h1)), _.
  split; [unfold rekeyAfterNextSend; by rewrite Etb, I4|]. split; [exact Hs|].
  split; [by apply Receive_sealed|].
  split; [unfold rekey; by rewrite (prepareRekey_ext a), Eta|]. rewrite Hb2.
  destruct (rekeyed_in_step a b new ta tb [] [] I5 I6 I7 I8 Eta Etb) as [(q1 & _ & H1) (q2 & _ & H2)].
  destruct q1; [|done]. destruct q2; [|done]. done.
Qed.

(** [Receive] accepts a record only if it is the sealing of the returned
    plaintext under the current receive key, with the nonce of the current
    receive counter and the associated data of this carrier kind, direction,
    counter and epoch; it then moves to the next counter.  Every refusal
    closes the carrier. *)
Theorem receive_only_current c r c' out :
  Receive c (Ok r) = (c', out) ->
  match out with
  | Ok p =>
      exists h1, half_rotate (recv_half c) = Ok h1 /\
      r = Seal (h_aead h1) (recordNonce (receivePrefix c) (recvCounter c)) p
            (recordAssociatedData kind (recvDirection c) (recvCounter c) (h_epoch h1)) /\
      recvCounter c' = u64 (recvCounter c + 1) /\ send_half c' = send_half c
  | Err _ => closed c' = true
  end.
Proof.
  intros H. destruct out as [p|e].
  - apply Receive_ok in H as (_ & h1 & Hr & -> & ->). destruct (half_rotate_keeps _ _ Hr) as (Hp & Hd & Hc & _).
    exists h1. split; [done|]. unfold half_seal. rewrite Hp, Hd, Hc. split; [done|]. cbn. by rewrite Hc.
  - revert H. unfold Receive. destruct (_ =? _); [by intros [= <- _]|].
    destruct (rotateReceiveEpochIfNeeded c) as [c1 [|]]; [|by intros [= <- _]].
    destruct (_ || _); [by intros [= <- _]|]. destruct (Open _ _ _ _); [done|by intros [= <- _]].
Qed.

(** ** Nonces and epochs of a run of sends *)

Fixpoint send_all (c : encryptedCarrier) (ps : list (list byte)) : encryptedCarrier * res (list (list byte)) :=
  match ps with
  | [] => (c, Ok [])
  | p :: ps =>
      match Send c accepts p with
      | (c, Err e) => (c, Err e)
      | (c, Ok r) =>
          match send_all c ps with
          | (c, Err e) => (c, Err e)
          | (c, Ok rs) => (c, Ok (r :: rs))
          end
      end
  end.

(** The epoch of the record with counter [n]. *)
Definition epoch_at (interval n : Z) : Z := if interval =? 0 then 0 else n / interval.

Definition epoch_ok (c : encryptedCarrier) : Prop :=
  0 <= epochInterval c /\ 0 <= sendCounter c <= MaxUint64 /\
  sendEpoch c = if sendCounter c =? 0 then 0 else epoch_at (epochInterval c) (sendCounter c - 1).

Lemma recordNonce_inj prefix n m :
  is_u64 n -> is_u64 m -> recordNonce prefix n = recordNonce prefix m -> n = m.
Proof. intros Hn Hm E. apply app_inv_head in E. by apply (be_encode_inj 8). Qed.

(** A rotation moves to the epoch of the counter. *)
Lemma rotate_epoch c h1 :
  epoch_ok c -> half_rotate (send_half c) = Ok h1 ->
  h_epoch h1 = epoch_at (epochInterval c) (sendCounter c).
Proof.
  intros (Hi & Hn & He) H. unfold half_rotate in H. cbn in H. unfold epoch_at in *.
  destruct (Z.eqb_spec (epochInterval c) 0) as [Ei|Ei]; cbn [orb] in H.
  { injection H as <-. cbn. rewrite He. by destruct (_ =? 0). }
  destruct (Z.eqb_spec (sendCounter c) 0) as [En|En]; cbn [orb] in H.
  { injection H as <-. cbn. rewrite He, En. by rewrite Z.div_0_l. }
  set (I := epochInterval c) in *. set (n := sendCounter c) in *.
  pose proof (Z.div_mod (n - 1) I Ei). pose proof (Z.mod_pos_bound (n - 1) I ltac:(lia)).
  pose proof (Z.div_pos (n - 1) I ltac:(lia) ltac:(lia)).
  destruct (Z.eqb_spec (n mod I) 0) as [Em|Em]; cbn [negb] in H.
  - unfold mbind, res_bind in H. destruct (New _); [|done]. injection H as <-. cbn. rewrite He.
    pose proof (Z.div_mod n I Ei). rewrite Em in *.
    assert (n / I = (n - 1) / I + 1) by nia.
    rewrite u64_small; [lia|]. unfold is_u64, MaxUint64 in *. nia.
  - injection H as <-. cbn. rewrite He.
    pose proof (Z.div_mod n I Ei). pose proof (Z.mod_pos_bound n I ltac:(lia)).
    symmetry. apply (Z.div_unique_pos _ _ _ (n mod I - 1)); nia.
Qed.

Lemma send_epoch_ok c p c' r :
  pendingRekey c = None -> epoch_ok c -> Send c accepts p = (c', Ok r) ->
  epoch_ok c' /\ pendingRekey c' = None /\ sendCounter c' = sendCounter c + 1 /\
  sendPrefix c' = sendPrefix c /\ sendDirection c' = sendDirection c /\ epochInterval c' = epochInterval c /\
  sendCounter c < MaxUint64 /\
  exists a, r = Seal a (recordNonce (sendPrefix c) (sendCounter c)) p
    (recordAssociatedData kind (sendDirection c) (sendCounter c) (epoch_at (epochInterval c) (sendCounter c))).
Proof.
  intros Hn Hok Hs. apply Send_ok in Hs as (_ & Hc & h1 & Hr & -> & ->). rewrite Hn.
  pose proof (rotate_epoch _ _ Hok Hr) as He. destruct Hok as (Hi & Hb & _).
  destruct (half_rotate_keeps _ _ Hr) as (Hp & Hd & Hk & _). cbn in Hp, Hd, Hk.
  assert (Hu : u64 (h_counter h1 + 1) = sendCounter c + 1)
    by (rewrite Hk; apply u64_small; unfold is_u64, MaxUint64 in *; lia).
  cbn. rewrite Hu. unfold epoch_ok. cbn. rewrite Hu, He.
  rewrite (proj2 (Z.eqb_neq (sendCounter c + 1) 0)) by lia.
  replace (sendCounter c + 1 - 1) with (sendCounter c) by lia.
  split; [split; [lia|]; split; [lia|done]|]. do 5 (split; [done|]). split; [lia|].
  exists (h_aead h1). unfold half_seal. by rewrite Hp, Hd, Hk, He.
Qed.

(** within a key generation no two records of a carrier share a nonce,
    and the record with counter [n] is sealed in epoch [n / interval], so an
    epoch key seals at most [recordKeyEpochInterval] records after a rekey. *)
Theorem send_nonces_unique c ps c' rs :
  pendingRekey c = None -> epoch_ok c -> send_all c ps = (c', Ok rs) ->
  let n := sendCounter c in
  length rs = length ps /\
  (forall i p r, ps !! i = Some p -> rs !! i = Some r -> exists a,
     r = Seal a (recordNonce (sendPrefix c) (n + Z.of_nat i)) p
       (recordAssociatedData kind (sendDirection c) (n + Z.of_nat i)
          (epoch_at (epochInterval c) (n + Z.of_nat i)))) /\
  (forall i j, (i < length rs)%nat -> (j < length rs)%nat ->
     recordNonce (sendPrefix c) (n + Z.of_nat i) = recordNonce (sendPrefix c) (n + Z.of_nat j) -> i = j).
Proof.
  intros Hn Hok Hs. cbn zeta.
  assert (H : length rs = length ps /\ sendCounter c + Z.of_nat (length rs) <= MaxUint64 /\
    forall i p r, ps !! i = Some p -> rs !! i = Some r -> exists a,
     r = Seal a (recordNonce (sendPrefix c) (sendCounter c + Z.of_nat i)) p
       (recordAssociatedData kind (sendDirection c) (sendCounter c + Z.of_nat i)
          (epoch_at (epochInterval c) (sendCounter c + Z.of_nat i)))).
  { revert c rs Hn Hok Hs. induction ps as [|p ps IH]; intros c rs Hn Hok Hs; cbn [send_all] in Hs.
    { injection Hs as _ <-. destruct Hok as (_ & ? & _). by repeat split; [cbn; lia|]. }
    destruct (Send c accepts p) as [c1 [r|]] eqn:E; [|done].
    destruct (send_all c1 ps) as [c2 [rs1|]] eqn:E2; [|done]. injection Hs as <- <-.
    destruct (send_epoch_ok _ _ _ _ Hn Hok E) as (Hok1 & Hn1 & Hc1 & Hp1 & Hd1 & Hi1 & Hlt & a & Ha).
    destruct (IH _ _ Hn1 Hok1 E2) as (Hl & Hmax & Hall). rewrite Hc1, Hp1, Hd1, Hi1 in *.
    cbn [length]. split; [by rewrite Hl|]. split; [lia|].
    intros [|i] p1 r1 Hp Hr; cbn in Hp, Hr.
    - injection Hp as <-. injection Hr as <-. exists a. by rewrite Z.add_0_r.
    - destruct (Hall i p1 r1 Hp Hr) as [a1 ->]. exists a1.
      by replace (sendCounter c + Z.of_nat (S i)) with (sendCounter c + 1 + Z.of_nat i) by lia. }
  destruct H as (Hl & Hmax & Hall). split; [done|]. split; [done|].
  intros i j Hi Hj E. destruct Hok as (_ & Hc & _). apply recordNonce_inj in E; unfold is_u64, MaxUint64 in *; lia.
Qed.
End Laws.
End Record.

(** ** A concrete instance of the parameters *)
Module RecordExample.

Definition New (k : list byte) : res (list byte) :=
  if len k =? 32 then Ok k else Err (External 1).
Definition tag (k n : list byte) : list byte := take 16 (n ++ k ++ zeros 16).
Definition Seal (k n p ad : list byte) : list byte := p ++ tag k n.
Definition Open (k n r ad : list byte) : option (list byte) :=
  let m := (length r - 16)%nat in
  if (16 <=? len r) && bytes_eq (drop m r) (tag k n) then Some (take m r) else None.
Definition hmac (k m : list byte) : list byte := z2b (len m) :: zeros 31.

Lemma length_tag k n : length (tag k n) = 16%nat.
Proof. unfold tag. rewrite length_take, !length_app. unfold zeros. rewrite length_replicate. lia. Qed.

#[export] Instance laws : RecordCrypto New Seal Open (fun _ => 16) hmac.
Proof.
  split.
  - intros k Hk. unfold New, len. by rewrite Hk.
  - intros a n p ad. unfold Open, Seal. rewrite length_app, length_tag.
    replace (length p + 16 - 16)%nat with (length p) by lia.
    rewrite drop_app_length, bytes_eq_refl, take_app_length.
    rewrite (proj2 (Z.leb_le _ _)); [done|]. rewrite len_app. unfold len at 2. rewrite length_tag.
    pose proof (len_nonneg p). lia.
  - intros a n r ad p. unfold Open, Seal. destruct (_ && _) eqn:E; [|done]. intros [= <-].
    apply andb_true_iff in E as [_ E]. apply bytes_eq_true in E. rewrite <- E. symmetry. apply take_drop.
  - intros a n p ad. unfold Seal. rewrite len_app. unfold len at 2. by rewrite length_tag.
  - intros k m. unfold hmac. done.
Qed.

Definition keys1 : SessionKeys :=
  mkSessionKeys [] [] [] (replicate 32 x01) (replicate 32 x02) (replicate 4 x03) (replicate 4 x04).
Definition keys2 : SessionKeys :=
  mkSessionKeys [] [] [] (replicate 32 x05) (replicate 32 x06) (replicate 4 x07) (replicate 4 x08).

(** The client has sent one record and the server received it. *)
Lemma exchanged : exists s,
  sys_reachable New Seal Open (fun _ => 16) hmac 1 keys1 s /\
  sy_ab s = [] /\ sy_ba s = [] /\ sy_got_ab s = [[x68; x69]] /\ sendCounter (sy_b s) = 0.
Proof.
  eexists. split.
  { eapply sys_more; [eapply sys_more; [eapply sys_new; vm_compute; reflexivity|]|].
    - eapply (sys_send_ab _ _ _ _ _ _ _ _ _ _ _ _ _ _ [x68; x69]). vm_compute. reflexivity.
    - eapply sys_receive_ab. vm_compute. reflexivity. }
  by split_and!.
Qed.

(** The server's record is on its way, its confirmation follows and then a
    record of the new generation: the client takes the two old ones and has
    to switch. *)
Lemma in_flight : exists s r,
  handover_reachable New Seal Open (fun _ => 16) hmac 1 keys1 (Switched keys2 0, s) /\
  sy_ba s = [r] /\ sy_sent_ba s = [[x6f]; [x63]; [x6e]] /\ sy_got_ba s = [[x6f]; [x63]].
Proof.
  eexists _, _. split.
  { eapply ho_more; [eapply ho_more; [eapply ho_more; [eapply ho_more; [eapply ho_more; [eapply ho_more;
      [eapply ho_new; vm_compute; reflexivity|]|]|]|]|]|].
    - eapply (ho_send_ba _ _ _ _ _ _ Quiet _ _ _ _ _ _ _ _ [x6f]); [done|vm_compute; reflexivity].
    - eapply (ho_arm _ _ _ _ _ _ _ _ _ _ _ _ _ _ keys2). vm_compute. reflexivity.
    - eapply (ho_confirm _ _ _ _ _ _ _ _ _ _ _ _ _ _ [x63]). vm_compute. reflexivity.
    - eapply (ho_send_ba _ _ _ _ _ _ (Switched keys2 2) _ _ _ _ _ _ _ _ [x6e]); [done|vm_compute; reflexivity].
    - eapply ho_receive_ba; [done|vm_compute; reflexivity].
    - eapply ho_receive_ba; [done|vm_compute; reflexivity]. }
  by split_and!.
Qed.

Lemma records_in_order_witness : exists s r a p c,
  handover_reachable New Seal Open (fun _ => 16) hmac 1 keys1 (Switched keys2 0, s) /\ sy_ba s = [r] /\
  rekey New (sy_a s) keys2 = (a, Ok tt) /\ Receive New Open (fun _ => 16) hmac 1 a (Ok r) = (c, Ok p).
Proof.
  destruct in_flight as (s & r & H & Hq & _).
  destruct (records_in_order New Seal Open (fun _ => 16) hmac 1 keys1 _ s H) as (_ & _ & _ & _ & Hr).
  destruct (Hr keys2 eq_refl) as (a & Ha & Hn). destruct (Hn r [] Hq) as (p & c & _ & E & _).
  by exists s, r, a, p, c.
Defined.

Lemma rekey_completes_witness : exists s b1,
  sys_reachable New Seal Open (fun _ => 16) hmac 1 keys1 s /\ sy_got_ab s = [[x68; x69]] /\
  rekeyAfterNextSend New (sy_b s) keys2 = (b1, Ok tt).
Proof.
  destruct exchanged as (s & H & H1 & H2 & H3 & H4).
  destruct (rekey_completes New Seal Open (fun _ => 16) hmac 1 keys1 s keys2 [x63] H H1 H2)
    as (b1 & _ & _ & _ & _ & E & _); try done.
  { by rewrite H4. }
  by exists s, b1.
Defined.

Definition client : encryptedCarrier (aead := list byte) :=
  mkCarrier (replicate 32 x01) (replicate 32 x02) (replicate 32 x01) (replicate 32 x02)
    (replicate 4 x03) (replicate 4 x04) 1 2 0 0 0 0 0 None false.

Lemma client_new : newEncryptedCarrier New RoleClient keys1 = Ok client.
Proof. reflexivity. Qed.

Lemma receive_only_current_witness : exists c' e,
  Receive New Open (fun _ => 16) hmac 1 client (Ok (zeros 20)) = (c', Err e) /\ closed c' = true.
Proof.
  destruct (Receive New Open (fun _ => 16) hmac 1 client (Ok (zeros 20))) as [c' [p|e]] eqn:E.
  { vm_compute in E. discriminate E. }
  exists c', e. split; [done|].
  exact (receive_only_current New Seal Open (fun _ => 16) hmac 1 client (zeros 20) c' (Err e) E).
Defined.

Lemma send_nonces_unique_witness : exists c' rs,
  send_all New Seal hmac 1 client [[x61]; [x62]] = (c', Ok rs) /\ length rs = 2%nat.
Proof.
  destruct (send_all New Seal hmac 1 client [[x61]; [x62]]) as [c' [rs|e]] eqn:E;
    [|vm_compute in E; discriminate E].
  exists c', rs. split; [done|].
  assert (Hok : epoch_ok client) by (unfold epoch_ok, MaxUint64; cbn; lia).
  exact (proj1 (send_nonces_unique New Seal hmac 1 client [[x61]; [x62]] c' rs eq_refl Hok E)).
Defined.
End RecordExample.
