(* ===== verification/Datagram.v ===== *)
(** * The datagram multiplexer (internal/session/datagram_mux.go)

    The unreliable path beside the record layer: one AEAD record per datagram
    with an explicit counter, a window against replays and a table of
    endpoints keyed by stream id.  The AEAD, HKDF and the inner carrier are
    parameters; [limit] is what [inner.MaxDatagramPayload] returns.  Endpoint
    objects are positions in [dm_objects], as pointers are compared.  Every
    call, and every round of [receiveLoop], is one step. *)
From stdpp Require Import prelude list gmap sorting.
From S2P Require Import Prelude Varint Cell Auth Stream Record.

Definition datagramEnvelopeVersion : Z := 1.
Definition datagramAssociationMaxSize : Z := MaxVarintLen64.
Definition datagramCounterSize : Z := 8.
Definition datagramReceiveQueue : Z := 64.
Definition minimumFastDatagramPayload : Z := 512.
Definition datagramReplayWindow : Z := 1024.

(** ** The replay window *)

Record datagramReplay := mkReplay { rp_highest : Z; rp_slots : list Z }.

Definition newReplay : datagramReplay := mkReplay 0 (replicate (Z.to_nat datagramReplayWindow) 0).

Definition replay_Accept (r : datagramReplay) (counter : Z) : datagramReplay * bool :=
  if counter =? 0 then (r, false)
  else if (counter <=? rp_highest r) && (datagramReplayWindow <=? rp_highest r - counter) then (r, false)
  else
    let index := Z.to_nat (counter mod datagramReplayWindow) in
    if nth index (rp_slots r) 0 =? counter then (r, false)
    else (mkReplay (if rp_highest r <? counter then counter else rp_highest r)
            (<[index := counter]> (rp_slots r)), true).

Definition replay_Reset (r : datagramReplay) : datagramReplay := mkReplay 0 (map (fun _ => 0) (rp_slots r)).

(** ** State *)

Record DatagramStats := mkStats {
  st_sent : Z; st_received : Z; st_authenticationDrops : Z;
  st_replayDrops : Z; st_unknownAssociationDrops : Z; st_queueDrops : Z
}.

Record DatagramEndpoint := mkEndpoint { de_stream : Z; de_receive : list (list byte); de_done : bool }.

Section Datagram.
Context {aead : Type}.
Variable New : list byte -> res aead.
Variable Seal : aead -> list byte -> list byte -> list byte -> list byte.
Variable Open : aead -> list byte -> list byte -> list byte -> option (list byte).
Variable Overhead : aead -> Z.
Variable hkdf_key : list byte -> list byte -> list byte -> nat -> res (list byte).
(** [inner.Kind()]. *)
Variable kind : Z.

Record DatagramMux := mkDatagramMux {
  dm_sendAEAD : aead;
  dm_receiveAEAD : aead;
  dm_sendPrefix : list byte;
  dm_receivePrefix : list byte;
  dm_sendDirection : Z;
  dm_recvDirection : Z;
  dm_sendCounter : Z;
  dm_replay : datagramReplay;
  dm_objects : list DatagramEndpoint;
  dm_endpoints : gmap Z nat;
  dm_enabled : bool;
  dm_maximum : Z;
  dm_stats : DatagramStats;
  (** [m.ctx] is done. *)
  dm_done : bool
}.

Definition set_sendCounter (m : DatagramMux) (n : Z) : DatagramMux :=
  mkDatagramMux (dm_sendAEAD m) (dm_receiveAEAD m) (dm_sendPrefix m) (dm_receivePrefix m) (dm_sendDirection m)
    (dm_recvDirection m) n (dm_replay m) (dm_objects m) (dm_endpoints m) (dm_enabled m) (dm_maximum m)
    (dm_stats m) (dm_done m).
Definition set_replay (m : DatagramMux) (r : datagramReplay) : DatagramMux :=
  mkDatagramMux (dm_sendAEAD m) (dm_receiveAEAD m) (dm_sendPrefix m) (dm_receivePrefix m) (dm_sendDirection m)
    (dm_recvDirection m) (dm_sendCounter m) r (dm_objects m) (dm_endpoints m) (dm_enabled m) (dm_maximum m)
    (dm_stats m) (dm_done m).
Definition set_table (m : DatagramMux) (os : list DatagramEndpoint) (es : gmap Z nat) : DatagramMux :=
  mkDatagramMux (dm_sendAEAD m) (dm_receiveAEAD m) (dm_sendPrefix m) (dm_receivePrefix m) (dm_sendDirection m)
    (dm_recvDirection m) (dm_sendCounter m) (dm_replay m) os es (dm_enabled m) (dm_maximum m)
    (dm_stats m) (dm_done m).
Definition set_enabled (m : DatagramMux) (maximum : Z) : DatagramMux :=
  mkDatagramMux (dm_sendAEAD m) (dm_receiveAEAD m) (dm_sendPrefix m) (dm_receivePrefix m) (dm_sendDirection m)
    (dm_recvDirection m) (dm_sendCounter m) (dm_replay m) (dm_objects m) (dm_endpoints m) true maximum
    (dm_stats m) (dm_done m).
Definition set_stats (m : DatagramMux) (s : DatagramStats) : DatagramMux :=
  mkDatagramMux (dm_sendAEAD m) (dm_receiveAEAD m) (dm_sendPrefix m) (dm_receivePrefix m) (dm_sendDirection m)
    (dm_recvDirection m) (dm_sendCounter m) (dm_replay m) (dm_objects m) (dm_endpoints m) (dm_enabled m)
    (dm_maximum m) s (dm_done m).
Definition set_crypto (m : DatagramMux) (send receive : aead) (sp rp : list byte) : DatagramMux :=
  mkDatagramMux send receive sp rp (dm_sendDirection m) (dm_recvDirection m) 0 (replay_Reset (dm_replay m))
    (dm_objects m) (dm_endpoints m) (dm_enabled m) (dm_maximum m) (dm_stats m) (dm_done m).

(** The atomic counters. *)
Inductive counter := CSent | CReceived | CAuthentication | CReplay | CUnknown | CQueue.
Definition bump (m : DatagramMux) (c : counter) : DatagramMux :=
  let s := dm_stats m in
  let inc (k : counter) n := match c, k with
    | CSent, CSent | CReceived, CReceived | CAuthentication, CAuthentication
    | CReplay, CReplay | CUnknown, CUnknown | CQueue, CQueue => u64 (n + 1)
    | _, _ => n end in
  set_stats m (mkStats (inc CSent (st_sent s)) (inc CReceived (st_received s))
    (inc CAuthentication (st_authenticationDrops s)) (inc CReplay (st_replayDrops s))
    (inc CUnknown (st_unknownAssociationDrops s)) (inc CQueue (st_queueDrops s))).

(** ** Construction and keys *)

(** The carrier is not nil; 16 is [chacha20poly1305.Overhead]. *)
Definition CarrierDatagramPayloadLimit (limit : Z) : Z :=
  let overhead := 1 + datagramAssociationMaxSize + datagramCounterSize + 16 in
  let maximum := limit - overhead in
  if maximum <? minimumFastDatagramPayload then 0 else maximum.

Definition deriveDatagramBytes (key : list byte) (label : string) (size : nat) : res (list byte) :=
  hkdf_key key (bytes_of "Neproto NP/2 datagram") (bytes_of label) size.

(** The derivations common to [newDatagramMux] and [rekey]: the two AEADs and
    the two nonce prefixes, send side first. *)
Definition datagram_keys (server : bool) (keys : SessionKeys)
    : res (aead * aead * list byte * list byte) :=
  clientKey ← deriveDatagramBytes (sk_control keys) "NP2 datagram c2s key" 32;
  serverKey ← deriveDatagramBytes (sk_control keys) "NP2 datagram s2c key" 32;
  clientNonce ← deriveDatagramBytes (sk_control keys) "NP2 datagram c2s nonce" 4;
  serverNonce ← deriveDatagramBytes (sk_control keys) "NP2 datagram s2c nonce" 4;
  let '(sendKey, receiveKey) := if server then (serverKey, clientKey) else (clientKey, serverKey) in
  let '(sendNonce, receiveNonce) := if server then (serverNonce, clientNonce) else (clientNonce, serverNonce) in
  sendAEAD ← New sendKey;
  receiveAEAD ← New receiveKey;
  Ok (sendAEAD, receiveAEAD, sendNonce, receiveNonce).

Definition newDatagramMux (limit role : Z) (keys : SessionKeys) : res DatagramMux :=
  if (negb (role =? RoleClient) && negb (role =? RoleServer)) || is_zero (sk_control keys)
     || (CarrierDatagramPayloadLimit limit =? 0)
  then Err ErrSessionConfig
  else
    let server := role =? RoleServer in
    '(sendAEAD, receiveAEAD, sendNonce, receiveNonce) ← datagram_keys server keys;
    Ok (mkDatagramMux sendAEAD receiveAEAD sendNonce receiveNonce
          (if server then recordDirectionServerToClient else recordDirectionClientToServer)
          (if server then recordDirectionClientToServer else recordDirectionServerToClient)
          0 newReplay [] ∅ false 0 (mkStats 0 0 0 0 0 0) false).

Definition rekey (m : DatagramMux) (keys : SessionKeys) : DatagramMux * res unit :=
  if is_zero (sk_control keys) then (m, Err ErrSessionConfig)
  else
    match datagram_keys (dm_sendDirection m =? recordDirectionServerToClient) keys with
    | Err e => (m, Err e)
    | Ok (sendAEAD, receiveAEAD, sendNonce, receiveNonce) =>
        (set_crypto m sendAEAD receiveAEAD sendNonce receiveNonce, Ok tt)
    end.

(** ** Switching the path on *)

Definition Enable (m : DatagramMux) (limit maximum : Z) : DatagramMux * bool :=
  if maximum <? minimumFastDatagramPayload then (m, false)
  else
    let maximum := Z.min maximum (CarrierDatagramPayloadLimit limit) in
    if maximum <? minimumFastDatagramPayload then (m, false) else (set_enabled m maximum, true).

Definition MaxPayload (m : DatagramMux) : Z := if dm_enabled m then dm_maximum m else 0.

(** ** Endpoints *)

(** The endpoint is a position in the new [dm_objects]. *)
Definition OpenEndpoint (m : DatagramMux) (streamID : Z) : DatagramMux * res nat :=
  if negb (dm_enabled m) || (streamID =? 0) || (MaxStreamID <? streamID) then (m, Err ErrDatagramUnavailable)
  else if dm_done m then (m, Err ErrDatagramUnavailable)
  else
    match dm_endpoints m !! streamID with
    | Some _ => (m, Err ErrDatagramAssociationExists)
    | None =>
        let o := length (dm_objects m) in
        (set_table m (dm_objects m ++ [mkEndpoint streamID [] false]) (<[streamID := o]> (dm_endpoints m)), Ok o)
    end.

(** [once]: the second call does nothing. *)
Definition Endpoint_Close (m : DatagramMux) (o : nat) : DatagramMux :=
  match dm_objects m !! o with
  | Some e =>
      if de_done e then m
      else set_table m (<[o := mkEndpoint (de_stream e) (de_receive e) true]> (dm_objects m))
             (if decide (dm_endpoints m !! de_stream e = Some o) then delete (de_stream e) (dm_endpoints m)
              else dm_endpoints m)
  | None => m
  end.

Definition closeEndpoints (m : DatagramMux) : DatagramMux :=
  fold_left Endpoint_Close (snd <$> map_to_list (dm_endpoints m)) m.

(** ** Sending *)

Definition datagramAssociatedData (direction streamID counter : Z) : list byte :=
  bytes_of "Neproto NP/2 datagram" ++ [z2b datagramEnvelopeVersion; z2b kind; z2b direction]
  ++ put_uvarint streamID ++ be_encode 8 counter.

(** The header that [Seal] appends to. *)
Definition datagram_header (streamID counter : Z) : list byte :=
  [z2b datagramEnvelopeVersion] ++ put_uvarint streamID ++ be_encode 8 counter.

(** [ctx_err]: [ctx.Err()] when the context is done; [inner]: the answer of
    [SendDatagram].  The envelope handed to the carrier comes back. *)
Definition send (m : DatagramMux) (limit : Z) (ctx_err : option error) (inner : list byte -> res unit)
    (streamID : Z) (plaintext : list byte) : DatagramMux * res (list byte) :=
  if negb (dm_enabled m) || (dm_maximum m <? len plaintext) then (m, Err ErrDatagramTooLarge)
  else
    match ctx_err with
    | Some e => (m, Err e)
    | None =>
        if dm_done m then (m, Err ErrDatagramUnavailable)
        else if dm_sendCounter m =? MaxUint64 then (m, Err ErrRecordSequenceExhausted)
        else
          let counter := dm_sendCounter m + 1 in
          let m := set_sendCounter m counter in
          let sealed := datagram_header streamID counter
            ++ Seal (dm_sendAEAD m) (recordNonce (dm_sendPrefix m) counter) plaintext
                 (datagramAssociatedData (dm_sendDirection m) streamID counter) in
          if limit <? len sealed then (m, Err ErrDatagramTooLarge)
          else
            match inner sealed with
            | Err e => (m, Err e)
            | Ok _ => (bump m CSent, Ok sealed)
            end
    end.

Definition Endpoint_Send (m : DatagramMux) (limit : Z) (ctx_err : option error) (inner : list byte -> res unit)
    (o : nat) (plaintext : list byte) : DatagramMux * res (list byte) :=
  match dm_objects m !! o with
  | None => (m, Err ErrDatagramUnavailable)
  | Some e =>
      if de_done e then (m, Err ErrDatagramEndpointClosed)
      else if dm_maximum m <? len plaintext then (m, Err ErrDatagramTooLarge)
      else send m limit ctx_err inner (de_stream e) plaintext
  end.

(** [Receive] of an endpoint; [None] waits.  When several cases of the last
    [select] are ready the code picks any: [pick] says whether the queue is
    preferred to the end of the context or of the session. *)
Definition Endpoint_Receive (m : DatagramMux) (o : nat) (ctx_err : option error) (pick : bool)
    : DatagramMux * option (res (list byte)) :=
  match dm_objects m !! o with
  | None => (m, Some (Err ErrDatagramUnavailable))
  | Some e =>
      if de_done e then (m, Some (Err ErrDatagramEndpointClosed))
      else
        let ended := match ctx_err with
          | Some err => Some err
          | None => if dm_done m then Some (Sentinel ErrDatagramUnavailable) else None
          end in
        match de_receive e, ended with
        | raw :: rest, None =>
            (set_table m (<[o := mkEndpoint (de_stream e) rest (de_done e)]> (dm_objects m)) (dm_endpoints m), Some (Ok raw))
        | raw :: rest, Some err =>
            if pick then
              (set_table m (<[o := mkEndpoint (de_stream e) rest (de_done e)]> (dm_objects m)) (dm_endpoints m), Some (Ok raw))
            else (m, Some (Err err))
        | [], Some err => (m, Some (Err err))
        | [], None => (m, None)
        end
  end.

(** ** Receiving *)

(** [parseDatagramEnvelope]: the stream id, the counter and the ciphertext. *)
Definition parseDatagramEnvelope (raw : list byte) (overhead : Z) : option (Z * Z * list byte) :=
  if (len raw <? 1 + 1 + datagramCounterSize + overhead)
     || negb (byte_at raw 0 =? datagramEnvelopeVersion) then None
  else
    let '(streamID, consumed) := Uvarint (drop 1 raw) in
    if (consumed <=? 0) || (streamID =? 0) || (MaxStreamID <? streamID) then None
    else
      let canonical := put_uvarint streamID in
      if negb (consumed =? len canonical) || negb (bytes_eq canonical (slice raw 1 (1 + consumed))) then None
      else
        let cursor := 1 + consumed in
        if len raw - cursor <? datagramCounterSize + overhead then None
        else
          let counter := be_decode (slice raw cursor (cursor + datagramCounterSize)) in
          if counter =? 0 then None
          else Some (streamID, counter, drop (Z.to_nat (cursor + datagramCounterSize)) raw).

(** What became of a datagram. *)
Inductive outcome :=
| Disabled
| AuthenticationDrop
| ReplayDrop
| UnknownDrop (streamID counter : Z) (plaintext : list byte)
| QueueDrop (streamID counter : Z) (plaintext : list byte)
| Queued (streamID counter : Z) (plaintext : list byte).

(** The end of a round, under [m.mu]: find the endpoint and queue the
    plaintext unless its channel is full. *)
Definition deliver (m : DatagramMux) (streamID counter : Z) (plaintext : list byte) : DatagramMux * outcome :=
  match dm_endpoints m !! streamID with
  | None => (bump m CUnknown, UnknownDrop streamID counter plaintext)
  | Some o =>
      match dm_objects m !! o with
      | None => (bump m CUnknown, UnknownDrop streamID counter plaintext)
      | Some e =>
          if len (de_receive e) <? datagramReceiveQueue then
            (bump (set_table m (<[o := mkEndpoint (de_stream e) (de_receive e ++ [plaintext]) (de_done e)]>
                                  (dm_objects m)) (dm_endpoints m)) CReceived,
             Queued streamID counter plaintext)
          else (bump m CQueue, QueueDrop streamID counter plaintext)
      end
  end.

(** One round of [receiveLoop] with the datagram [raw]. *)
Definition receive_one (m : DatagramMux) (raw : list byte) : DatagramMux * outcome :=
  if negb (dm_enabled m) then (m, Disabled)
  else
    match parseDatagramEnvelope raw (Overhead (dm_receiveAEAD m)) with
    | None => (bump m CAuthentication, AuthenticationDrop)
    | Some (streamID, counter, ciphertext) =>
        match Open (dm_receiveAEAD m) (recordNonce (dm_receivePrefix m) counter) ciphertext
                (datagramAssociatedData (dm_recvDirection m) streamID counter) with
        | None => (bump m CAuthentication, AuthenticationDrop)
        | Some plaintext =>
            if dm_maximum m <? len plaintext then (bump m CAuthentication, AuthenticationDrop)
            else
              match replay_Accept (dm_replay m) counter with
              | (_, false) => (bump m CReplay, ReplayDrop)
              | (replay, true) =>
                  deliver (set_replay m replay) streamID counter plaintext
              end
        end
    end.

(** Two ends that share keys: what one seals the other opens. *)
Record peers (a b : DatagramMux) : Prop := {
  peers_aead : dm_sendAEAD a = dm_receiveAEAD b;
  peers_prefix : dm_sendPrefix a = dm_receivePrefix b;
  peers_direction : dm_sendDirection a = dm_recvDirection b
}.

(** The bytes on the wire for one datagram of [a]. *)
Definition datagram_wire (a : DatagramMux) (streamID counter : Z) (plaintext : list byte) : list byte :=
  datagram_header streamID counter
  ++ Seal (dm_sendAEAD a) (recordNonce (dm_sendPrefix a) counter) plaintext
       (datagramAssociatedData (dm_sendDirection a) streamID counter).

(** ** Executions *)

(** One direction: what the envelopes carry is (stream id, counter,
    plaintext).  The logs are ghost state, each entry with the generation of
    the keys of the end it belongs to: the envelopes handed to the carrier,
    what they carry, what passed the receiver's replay window, and what its
    endpoints returned. *)
Record channel := mkChannel {
  ch_wire : list (nat * list byte);
  ch_sent : list (nat * (Z * Z * list byte));
  ch_accepted : list (nat * (Z * Z * list byte));
  ch_read : list (Z * list byte)
}.

Definition no_traffic : channel := mkChannel [] [] [] [].
Definition log_sent (c : channel) (g : nat) (raw : list byte) (t : Z * Z * list byte) : channel :=
  mkChannel ((g, raw) :: ch_wire c) ((g, t) :: ch_sent c) (ch_accepted c) (ch_read c).
Definition log_accepted (c : channel) (g : nat) (ts : list (Z * Z * list byte)) : channel :=
  mkChannel (ch_wire c) (ch_sent c) (map (pair g) ts ++ ch_accepted c) (ch_read c).
Definition log_read (c : channel) (t : Z * list byte) : channel :=
  mkChannel (ch_wire c) (ch_sent c) (ch_accepted c) (t :: ch_read c).

Definition accepted_of (o : outcome) : list (Z * Z * list byte) :=
  match o with
  | UnknownDrop i c p | QueueDrop i c p | Queued i c p => [(i, c, p)]
  | _ => []
  end.

Definition stream_of (m : DatagramMux) (o : nat) : Z :=
  match dm_objects m !! o with Some e => de_stream e | None => 0 end.

(** An action of one end [m] with the keys of generation [g], between its
    outgoing and its incoming channel.  The network drops, duplicates and
    reorders envelopes at will: any envelope of the current generation may
    arrive at any time, any number of times ([d_deliver]); anything else may
    arrive that does not authenticate, such as one of another generation, of
    the other direction or a forged one ([d_foreign]).  [d_rekey] moves to the
    keys of the next generation, at each end by itself. *)
Inductive dact (keys_of : nat -> SessionKeys)
    : DatagramMux -> nat -> channel -> channel -> DatagramMux -> nat -> channel -> channel -> Prop :=
| d_send m g out inn limit ctx inner o p m' raw :
    Endpoint_Send m limit ctx inner o p = (m', Ok raw) ->
    dact keys_of m g out inn m' g (log_sent out g raw (stream_of m o, dm_sendCounter m', p)) inn
| d_send_fail m g out inn limit ctx inner o p m' e :
    Endpoint_Send m limit ctx inner o p = (m', Err e) -> dact keys_of m g out inn m' g out inn
| d_deliver m g out inn raw m' r :
    (g, raw) ∈ ch_wire inn -> receive_one m raw = (m', r) ->
    dact keys_of m g out inn m' g out (log_accepted inn g (accepted_of r))
| d_foreign m g out inn raw m' r :
    (forall i c ct, parseDatagramEnvelope raw (Overhead (dm_receiveAEAD m)) = Some (i, c, ct) ->
       Open (dm_receiveAEAD m) (recordNonce (dm_receivePrefix m) c) ct
         (datagramAssociatedData (dm_recvDirection m) i c) = None) ->
    receive_one m raw = (m', r) ->
    dact keys_of m g out inn m' g out (log_accepted inn g (accepted_of r))
| d_open m g out inn id : is_u64 id -> dact keys_of m g out inn (OpenEndpoint m id).1 g out inn
| d_close m g out inn o : dact keys_of m g out inn (Endpoint_Close m o) g out inn
| d_enable m g out inn limit n : dact keys_of m g out inn (Enable m limit n).1 g out inn
| d_read m g out inn o ctx pick m' p :
    Endpoint_Receive m o ctx pick = (m', Some (Ok p)) ->
    dact keys_of m g out inn m' g out (log_read inn (stream_of m o, p))
| d_rekey m g out inn m' :
    rekey m (keys_of (S g)) = (m', Ok tt) -> dact keys_of m g out inn m' (S g) out inn.

(** Both ends with the generations of their keys, and both channels. *)
Record dsys := mkDsys {
  ds_a : DatagramMux; ds_b : DatagramMux;
  ds_ga : nat; ds_gb : nat;
  ds_ab : channel; ds_ba : channel
}.

Inductive dstep (keys_of : nat -> SessionKeys) : dsys -> dsys -> Prop :=
| d_a a b ga gb ab ba a' ga' ab' ba' :
    dact keys_of a ga ab ba a' ga' ab' ba' ->
    dstep keys_of (mkDsys a b ga gb ab ba) (mkDsys a' b ga' gb ab' ba')
| d_b a b ga gb ab ba b' gb' ab' ba' :
    dact keys_of b gb ba ab b' gb' ba' ab' ->
    dstep keys_of (mkDsys a b ga gb ab ba) (mkDsys a b' ga gb' ab' ba').

Inductive dreachable (limit_a limit_b : Z) (keys_of : nat -> SessionKeys) : dsys -> Prop :=
| d_new a b :
    newDatagramMux limit_a RoleClient (keys_of 0%nat) = Ok a ->
    newDatagramMux limit_b RoleServer (keys_of 0%nat) = Ok b ->
    dreachable limit_a limit_b keys_of (mkDsys a b 0 0 no_traffic no_traffic)
| d_more x y : dreachable limit_a limit_b keys_of x -> dstep keys_of x y -> dreachable limit_a limit_b keys_of y.
End Datagram.

Arguments replay_Accept : simpl never.
Arguments datagram_header : simpl never.
Arguments datagramAssociatedData : simpl never.

(** ** The window is exact *)

(** The reference: the set of accepted counters and its maximum. *)
Definition highest (seen : list Z) : Z := foldr Z.max 0 seen.
Definition ref_Accept (seen : list Z) (c : Z) : list Z * bool :=
  if bool_decide (c <> 0 /\ c ∉ seen /\ highest seen - c < datagramReplayWindow)
  then (c :: seen, true) else (seen, false).

Fixpoint replay_run (r : datagramReplay) (cs : list Z) : list bool :=
  match cs with [] => [] | c :: cs => let '(r, b) := replay_Accept r c in b :: replay_run r cs end.
Fixpoint ref_run (seen : list Z) (cs : list Z) : list bool :=
  match cs with [] => [] | c :: cs => let '(seen, b) := ref_Accept seen c in b :: ref_run seen cs end.

Record window_ok (r : datagramReplay) (seen : list Z) : Prop := {
  win_len : length (rp_slots r) = 1024%nat;
  win_high : rp_highest r = highest seen;
  win_range : Forall (fun c => 0 < c < 2 ^ 64) seen;
  win_nodup : NoDup seen;
  win_slot : forall i c, rp_slots r !! i = Some c -> c = 0 \/ c ∈ seen;
  win_kept : forall c, c ∈ seen -> highest seen - c < 1024 -> rp_slots r !! Z.to_nat (c mod 1024) = Some c
}.

Lemma highest_ge seen c : c ∈ seen -> c <= highest seen.
Proof. unfold highest. induction 1; cbn; lia. Qed.

Lemma highest_nonneg seen : 0 <= highest seen.
Proof. unfold highest. induction seen; cbn; lia. Qed.

Lemma newReplay_ok : window_ok newReplay [].
Proof.
  split; cbn; try done.
  - constructor.
  - intros i c Hi. left. apply list_elem_of_lookup_2 in Hi. by apply elem_of_replicate in Hi as [-> _].
  - intros c Hc. by apply not_elem_of_nil in Hc.
Qed.

Lemma replay_Reset_ok r seen : window_ok r seen -> replay_Reset r = newReplay.
Proof.
  intros [H _ _ _ _ _]. unfold replay_Reset, newReplay. f_equal. change (Z.to_nat datagramReplayWindow) with 1024%nat.
  rewrite <- H. clear H. induction (rp_slots r); cbn; congruence.
Qed.

(** Two counters that share a slot are a window apart. *)
Lemma slot_apart c d : 0 < c -> 0 < d -> Z.to_nat (c mod 1024) = Z.to_nat (d mod 1024) -> c < d + 1024 -> d < c + 1024 -> c = d.
Proof.
  intros Hc Hd E. pose proof (Z.mod_pos_bound c 1024 ltac:(lia)). pose proof (Z.mod_pos_bound d 1024 ltac:(lia)).
  assert (c mod 1024 = d mod 1024) as Em by lia.
  pose proof (Z.div_mod c 1024 ltac:(lia)). pose proof (Z.div_mod d 1024 ltac:(lia)). lia.
Qed.

Lemma replay_Accept_ok r seen c : window_ok r seen -> is_u64 c ->
  (replay_Accept r c).2 = (ref_Accept seen c).2 /\ window_ok (replay_Accept r c).1 (ref_Accept seen c).1.
Proof.
  intros W Hc. pose proof W as [Hl Hh Hr Hn Hs Hk]. unfold replay_Accept, ref_Accept.
  change datagramReplayWindow with 1024. rewrite Hh.
  destruct (Z.eqb_spec c 0) as [->|Hc0].
  { by rewrite bool_decide_false by (intros [? _]; lia). }
  pose proof (highest_nonneg seen) as H0.
  destruct ((c <=? highest seen) && (1024 <=? highest seen - c)) eqn:Ew.
  { rewrite bool_decide_false; [done|]. intros (_ & _ & ?). guards. zb. lia. }
  assert (Hw : highest seen - c < 1024).
  { apply andb_false_iff in Ew as [Ew|Ew]; zb; lia. }
  unfold is_u64 in Hc. assert (Hi : (Z.to_nat (c mod 1024) < 1024)%nat).
  { pose proof (Z.mod_pos_bound c 1024 ltac:(lia)). lia. }
  destruct (lookup_lt_is_Some_2 (rp_slots r) (Z.to_nat (c mod 1024))) as [v Hv]; [lia|].
  rewrite (nth_lookup_Some _ _ 0 _ Hv).
  destruct (Z.eqb_spec v c) as [->|Hvc].
  { rewrite bool_decide_false; [done|]. intros (_ & Hx & _). destruct (Hs _ _ Hv); [lia|done]. }
  assert (Hx : c ∉ seen).
  { intros Hx. specialize (Hk c Hx Hw). rewrite Hv in Hk. congruence. }
  rewrite bool_decide_true by done. split; [done|]. cbn [fst].
  assert (Eh : (if highest seen <? c then c else highest seen) = highest (c :: seen)).
  { change (highest (c :: seen)) with (Z.max c (highest seen)). destruct (Z.ltb_spec (highest seen) c); lia. }
  split; cbn [rp_slots rp_highest].
  - by rewrite length_insert.
  - exact Eh.
  - constructor; [lia|done].
  - by constructor.
  - intros i d Hd. rewrite elem_of_cons. destruct (decide (i = Z.to_nat (c mod 1024))) as [->|Hne].
    + rewrite list_lookup_insert_eq in Hd by lia. injection Hd as <-. auto.
    + rewrite list_lookup_insert_ne in Hd by done. destruct (Hs _ _ Hd); auto.
  - intros d Hd Hwd. rewrite <- Eh in Hwd. rewrite elem_of_cons in Hd. destruct Hd as [->|Hd].
    + by rewrite list_lookup_insert_eq by lia.
    + assert (0 < d) by (rewrite Forall_forall in Hr; apply Hr; done).
      pose proof (highest_ge _ _ Hd).
      assert (Hcd : c <> d) by congruence.
      rewrite list_lookup_insert_ne.
      * apply Hk; [done|]. destruct (Z.ltb_spec (highest seen) c); lia.
      * intros E. apply Hcd. apply slot_apart; try done; destruct (Z.ltb_spec (highest seen) c); lia.
Qed.

Lemma replay_run_ref r seen cs : window_ok r seen -> Forall is_u64 cs -> replay_run r cs = ref_run seen cs.
Proof.
  intros W Hcs. revert r seen W. induction Hcs as [|c cs Hc _ IH]; intros r seen W; [done|]. cbn.
  destruct (replay_Accept_ok r seen c W Hc) as [E W'].
  destruct (replay_Accept r c) as [r' b], (ref_Accept seen c) as [seen' b']. cbn in *. subst. f_equal. by apply IH.
Qed.

(** the 1024-slot replay window decides exactly like a set of all the
    counters accepted so far: a counter passes if and only if it is not zero,
    was not accepted before and is less than 1024 behind the highest one. *)
Theorem replay_window_exact cs : Forall is_u64 cs -> replay_run newReplay cs = ref_run [] cs.
Proof. apply replay_run_ref, newReplay_ok. Qed.

(** ** The envelope *)

Section Envelope.
Implicit Types raw ct : list byte.

Lemma header_len i c : len (datagram_header i c) = 1 + len (put_uvarint i) + 8.
Proof. unfold datagram_header. rewrite !len_app, len_be_encode. change (len [_]) with 1. lia. Qed.

Lemma parse_header i c ct overhead :
  0 < i <= MaxStreamID -> 0 < c < 2 ^ 64 -> overhead <= len ct ->
  parseDatagramEnvelope (datagram_header i c ++ ct) overhead = Some (i, c, ct).
Proof.
  intros Hi Hc Ho. unfold parseDatagramEnvelope, datagram_header. change datagramEnvelopeVersion with 1.
  pose proof (len_put_pos i) as Hp. rewrite MaxStreamID_eq in Hi.
  set (body := put_uvarint i ++ be_encode 8 c ++ ct).
  replace (([z2b 1] ++ put_uvarint i ++ be_encode 8 c) ++ ct)
    with (z2b 1 :: body) by (unfold body; by rewrite <- !app_assoc).
  assert (Hb : len body = len (put_uvarint i) + 8 + len ct).
  { unfold body. rewrite !len_app, len_be_encode. lia. }
  unfold datagramCounterSize. rewrite len_cons, Hb.
  destruct (Z.ltb_spec (1 + (len (put_uvarint i) + 8 + len ct)) (1 + 1 + 8 + overhead)); [lia|].
  change (byte_at (z2b 1 :: body) 0) with 1. change (negb (1 =? 1)) with false. cbn [orb].
  change (drop 1 (z2b 1 :: body)) with body.
  replace (Uvarint body) with (Uvarint (put_uvarint i ++ be_encode 8 c ++ ct)) by done.
  rewrite Uvarint_put by (unfold is_u64; lia).
  destruct (Z.leb_spec (len (put_uvarint i)) 0); [lia|]. destruct (Z.eqb_spec i 0); [lia|].
  rewrite MaxStreamID_eq. destruct (Z.ltb_spec (2 ^ 62 - 1) i); [lia|]. cbn [orb].
  rewrite Z.eqb_refl. cbn [negb orb].
  assert (E1 : slice (z2b 1 :: body) 1 (1 + len (put_uvarint i)) = put_uvarint i).
  { unfold slice. replace (Z.to_nat (1 + len (put_uvarint i) - 1)) with (Z.to_nat (len (put_uvarint i))) by lia.
    change (drop (Z.to_nat 1) (z2b 1 :: body)) with body. apply take_len_app. }
  rewrite E1, bytes_eq_refl. cbn [negb].
  destruct (Z.ltb_spec (1 + (len (put_uvarint i) + 8 + len ct) - (1 + len (put_uvarint i))) (8 + overhead)); [lia|].
  assert (E2 : drop (Z.to_nat (1 + len (put_uvarint i))) (z2b 1 :: body) = be_encode 8 c ++ ct).
  { rewrite Z2Nat.inj_add by lia. change (Z.to_nat 1) with 1%nat. cbn [Nat.add drop]. apply drop_len_app. }
  assert (E3 : slice (z2b 1 :: body) (1 + len (put_uvarint i)) (1 + len (put_uvarint i) + 8) = be_encode 8 c).
  { unfold slice. rewrite E2. apply take_app_exact. rewrite length_be_encode. lia. }
  rewrite E3, be_decode_encode, Z.mod_small by lia. destruct (Z.eqb_spec c 0); [lia|].
  rewrite Z2Nat.inj_add, <- drop_drop, E2 by lia. by rewrite drop_app_exact by apply length_be_encode.
Qed.

Lemma parse_header_inv raw overhead i c ct :
  0 <= overhead -> parseDatagramEnvelope raw overhead = Some (i, c, ct) ->
  raw = datagram_header i c ++ ct /\ 0 < i <= MaxStreamID /\ 0 < c < 2 ^ 64 /\ overhead <= len ct.
Proof.
  intros Ho. unfold parseDatagramEnvelope, datagramCounterSize. intros H. inv_res. guards. zb.
  subst z0. apply bytes_eq_true in H3. pose proof (len_put_pos i) as Hp.
  destruct raw as [|x rest]; [done|]. change (drop 1 (x :: rest)) with rest in *.
  assert (Ex : x = z2b 1).
  { change (b2z x = 1) in H5. rewrite <- H5. symmetry. apply z2b_b2z. }
  pose proof (uvarint_loop_u64 rest 0 0 0 ltac:(unfold is_u64; lia)) as Hu. fold (Uvarint rest) in Hu.
  rewrite E in Hu. unfold is_u64 in Hu. cbn in Hu.
  assert (Ed : forall k, 0 <= k -> drop (Z.to_nat (1 + k)) (x :: rest) = drop (Z.to_nat k) rest).
  { intros k Hk. rewrite Z2Nat.inj_add by lia. done. }
  unfold slice in *. rewrite Ed in * by lia. change (drop (Z.to_nat 1) (x :: rest)) with rest in H3.
  replace (Z.to_nat (1 + len (put_uvarint i) - 1)) with (Z.to_nat (len (put_uvarint i))) in H3 by lia.
  replace (1 + len (put_uvarint i) + 8 - (1 + len (put_uvarint i))) with 8 in * by lia.
  replace (1 + len (put_uvarint i) + 8) with (1 + (len (put_uvarint i) + 8)) by lia. rewrite Ed by lia.
  set (tail := drop (Z.to_nat (len (put_uvarint i))) rest) in *.
  rewrite Z2Nat.inj_add, <- drop_drop by lia. fold tail.
  rewrite len_cons in *. assert (Hr : rest = put_uvarint i ++ tail).
  { rewrite <- (take_drop (Z.to_nat (len (put_uvarint i))) rest) at 1. by rewrite <- H3. }
  assert (Hl : len rest = len (put_uvarint i) + len tail) by (by rewrite Hr, len_app at 1).
  assert (H8 : length (take (Z.to_nat 8) tail) = 8%nat) by (rewrite length_take; unfold len in *; lia).
  pose proof (be_decode_range (take (Z.to_nat 8) tail)) as Hb. unfold len in Hb. rewrite H8 in Hb.
  split_and!; try lia.
  - unfold datagram_header. rewrite <- H8 at 1. rewrite be_encode_decode, <- !app_assoc, take_drop.
    cbn [app]. change datagramEnvelopeVersion with 1. by rewrite Ex, <- Hr.
  - rewrite len_drop. lia.
Qed.
End Envelope.

(** ** Delivery *)

Section Keys.
Context {aead : Type} (New : list byte -> res aead).
Context (hkdf_key : list byte -> list byte -> list byte -> nat -> res (list byte)).
Implicit Types a b : DatagramMux (aead := aead).

(** Both roles derive matching halves. *)
Lemma datagram_keys_match keys sa ra sp rp :
  datagram_keys New hkdf_key false keys = Ok (sa, ra, sp, rp) <->
  datagram_keys New hkdf_key true keys = Ok (ra, sa, rp, sp).
Proof.
  unfold datagram_keys, mbind, res_bind.
  repeat (destruct (deriveDatagramBytes _ _ _ _); [|done]). cbn.
  destruct (New _); cbn; destruct (New _); cbn; split; try done; by intros [= <- <- <- <-].
Qed.

(** The end holds the keys its role derives from [keys]. *)
Definition keyed (server : bool) (keys : SessionKeys) (m : DatagramMux) : Prop :=
  datagram_keys New hkdf_key server keys
    = Ok (dm_sendAEAD m, dm_receiveAEAD m, dm_sendPrefix m, dm_receivePrefix m) /\
  dm_sendDirection m = (if server then recordDirectionServerToClient else recordDirectionClientToServer) /\
  dm_recvDirection m = (if server then recordDirectionClientToServer else recordDirectionServerToClient).

Lemma keyed_peers server keys a b : keyed server keys a -> keyed (negb server) keys b -> peers a b.
Proof.
  intros (Ka & A1 & A2) (Kb & B1 & B2). destruct server; cbn [negb] in *.
  - apply datagram_keys_match in Kb. rewrite Ka in Kb. injection Kb as E1 E2 E3 E4. split; congruence.
  - apply datagram_keys_match in Ka. rewrite Ka in Kb. injection Kb as E1 E2 E3 E4. split; congruence.
Qed.

Lemma rekey_keyed server keys keys' m m' :
  keyed server keys m -> rekey New hkdf_key m keys' = (m', Ok tt) ->
  keyed server keys' m' /\ dm_replay m' = replay_Reset (dm_replay m) /\ dm_sendCounter m' = 0 /\
  dm_objects m' = dm_objects m /\ dm_endpoints m' = dm_endpoints m.
Proof.
  intros (_ & D1 & D2). unfold rekey. destruct (is_zero _); [done|].
  rewrite D1. replace (_ =? recordDirectionServerToClient) with server by (by destruct server).
  destruct (datagram_keys _ _ server keys') as [[[[sa ra] sp] rp]|] eqn:E; [|done]. intros [= <-]. done.
Qed.

Lemma newDatagramMux_keyed limit (server : bool) keys (m : DatagramMux (aead := aead)) :
  newDatagramMux New hkdf_key limit (if server then RoleServer else RoleClient) keys = Ok m ->
  keyed server keys m /\ dm_replay m = newReplay /\ dm_sendCounter m = 0 /\ dm_objects m = [] /\ dm_endpoints m = ∅.
Proof.
  unfold newDatagramMux. destruct (_ || _); [done|].
  replace ((if server then RoleServer else RoleClient) =? RoleServer) with server by (by destruct server).
  destruct (datagram_keys _ _ server keys) as [[[[sa ra] sp] rp]|] eqn:E; [|done]. cbn. intros [= <-]. done.
Qed.

(** A rekey of both ends with the same keys leaves them in step again. *)
Lemma datagram_rekey_match a b keys b' :
  dm_sendDirection a = recordDirectionClientToServer -> dm_recvDirection a = recordDirectionServerToClient ->
  dm_sendDirection b = recordDirectionServerToClient -> dm_recvDirection b = recordDirectionClientToServer ->
  rekey New hkdf_key b keys = (b', Ok tt) ->
  exists a', rekey New hkdf_key a keys = (a', Ok tt) /\ peers a' b' /\ peers b' a'.
Proof.
  intros A1 A2 B1 B2. unfold rekey. rewrite A1, B1. cbn. destruct (is_zero _); [done|].
  destruct (datagram_keys _ _ true keys) as [[[[sb rb] spb] rpb]|] eqn:E; [|done]. intros [= <-].
  apply datagram_keys_match in E as ->. eexists. split; [done|]. split; split; cbn; congruence.
Qed.
End Keys.

Section Delivery.
Context {aead : Type} (New : list byte -> res aead).
Context (Seal : aead -> list byte -> list byte -> list byte -> list byte).
Context (Open : aead -> list byte -> list byte -> list byte -> option (list byte)).
Context (Overhead : aead -> Z) (hmac_sha256 : list byte -> list byte -> list byte).
Context (hkdf_key : list byte -> list byte -> list byte -> nat -> res (list byte)) (kind : Z).
Context `{!RecordCrypto New Seal Open Overhead hmac_sha256}.
Abbreviation Mux := (DatagramMux (aead := aead)).
Implicit Types m a b : Mux.

Lemma overhead_nonneg x : 0 <= Overhead x.
Proof. pose proof (@seal_len _ New Seal Open Overhead hmac_sha256 _ x [] [] []) as E. change (len (@nil byte)) with 0 in E. pose proof (len_nonneg (Seal x [] [] [])). lia. Qed.

(** What table operations and receiving leave alone. *)
Definition same_keys m m' : Prop :=
  dm_sendAEAD m' = dm_sendAEAD m /\ dm_receiveAEAD m' = dm_receiveAEAD m /\
  dm_sendPrefix m' = dm_sendPrefix m /\ dm_receivePrefix m' = dm_receivePrefix m /\
  dm_sendDirection m' = dm_sendDirection m /\ dm_recvDirection m' = dm_recvDirection m.

Record table_ok m : Prop := {
  tb_object : forall o e, dm_objects m !! o = Some e -> 0 < de_stream e <= MaxStreamID;
  tb_endpoint : forall i o, dm_endpoints m !! i = Some o ->
    exists e, dm_objects m !! o = Some e /\ de_stream e = i;
  tb_counter : 0 <= dm_sendCounter m <= MaxUint64
}.

Definition items (e : DatagramEndpoint) : list (Z * list byte) := pair (de_stream e) <$> de_receive e.
Definition queues m : list (Z * list byte) := concat (items <$> dm_objects m).

(** An operation of an end that touches neither keys, window nor counter. *)
Definition static m m' : Prop :=
  table_ok m' /\ same_keys m m' /\ dm_replay m' = dm_replay m /\ dm_sendCounter m' = dm_sendCounter m.

Lemma static_refl m : table_ok m -> static m m.
Proof. by intros H. Qed.

Lemma queues_insert m o e e' (es : gmap Z nat) :
  dm_objects m !! o = Some e ->
  exists rest, queues m ≡ₚ items e ++ rest /\ queues (set_table m (<[o := e']> (dm_objects m)) es) ≡ₚ items e' ++ rest.
Proof.
  intros He. destruct (list_elem_of_split_length _ _ _ He) as (l1 & l2 & El & ->).
  unfold queues. cbn [dm_objects set_table]. rewrite El.
  rewrite insert_app_r_alt, Nat.sub_diag by lia. cbn [insert list_insert].
  rewrite !fmap_app, !fmap_cons, !concat_app. cbn [concat].
  exists (concat (items <$> l1) ++ concat (items <$> l2)). split; rewrite !(Permutation_app_comm (items _)); solve_Permutation.
Qed.

Lemma replace_object_ok m o e e' :
  table_ok m -> dm_objects m !! o = Some e -> de_stream e' = de_stream e ->
  static m (set_table m (<[o := e']> (dm_objects m)) (dm_endpoints m)).
Proof.
  intros [H1 H2 H3] He Es. split_and!; try done. split; cbn; [| |done].
  - intros o' x. destruct (decide (o' = o)) as [->|].
    + rewrite list_lookup_insert_eq by (by eapply lookup_lt_Some). intros [= <-]. rewrite Es. eauto.
    + rewrite list_lookup_insert_ne by done. eauto.
  - intros i o' Hi. destruct (H2 _ _ Hi) as (x & Hx & <-). destruct (decide (o' = o)) as [->|].
    + exists e'. rewrite list_lookup_insert_eq by (by eapply lookup_lt_Some). split; [done|]. congruence.
    + exists x. by rewrite list_lookup_insert_ne.
Qed.

Lemma OpenEndpoint_ok m id : is_u64 id -> table_ok m ->
  static m (OpenEndpoint m id).1 /\ queues (OpenEndpoint m id).1 = queues m.
Proof.
  intros Hid Hm. unfold OpenEndpoint. destruct (_ || _) eqn:G; [by split|]. destruct (dm_done m); [by split|].
  destruct (dm_endpoints m !! id) eqn:E; [by split|]. destruct Hm as [H1 H2 H3].
  apply orb_false_iff in G as [G ?]. apply orb_false_iff in G as [_ G]. zb. unfold is_u64 in Hid. split.
  - split_and!; try done. split; cbn; [| |done].
    + intros o e [Ho|[_ [_ <-]%list_lookup_singleton_Some]]%lookup_app_Some; [eauto|]. cbn. lia.
    + intros i o. destruct (decide (i = id)) as [->|].
      * rewrite lookup_insert_eq. intros [= <-]. eexists. by rewrite list_lookup_middle.
      * rewrite lookup_insert_ne by done. intros (e & He & <-)%H2. exists e. by rewrite (lookup_app_l_Some _ _ _ _ He).
  - unfold queues. cbn. rewrite fmap_app, concat_app. cbn. by rewrite app_nil_r.
Qed.

Lemma Endpoint_Close_ok m o : table_ok m ->
  static m (Endpoint_Close m o) /\ queues (Endpoint_Close m o) ≡ₚ queues m.
Proof.
  intros Hm. unfold Endpoint_Close. destruct (dm_objects m !! o) as [e|] eqn:He; [|by split].
  destruct (de_done e); [by split|].
  set (e' := mkEndpoint (de_stream e) (de_receive e) true). split.
  - destruct (replace_object_ok m o e e' Hm He eq_refl) as ([H1 H2 H3] & Hs). split; [|done].
    split; [done| |done]. intros i o' Hi. apply H2. cbn in *. destruct (decide _); [|done].
    by apply lookup_delete_Some in Hi as [_ Hi].
  - destruct (queues_insert m o e e' (if decide (dm_endpoints m !! de_stream e = Some o)
      then delete (de_stream e) (dm_endpoints m) else dm_endpoints m) He) as (rest & -> & ->). done.
Qed.

Lemma Enable_ok m limit n : table_ok m -> static m (Enable m limit n).1 /\ queues (Enable m limit n).1 = queues m.
Proof.
  intros Hm. unfold Enable. destruct (_ <? _); [by split|]. destruct (_ <? _); [by split|]. split; [|done].
  split_and!; try done. by destruct Hm.
Qed.

Lemma Endpoint_Receive_ok m o ctx pick m' p : table_ok m -> Endpoint_Receive m o ctx pick = (m', Some (Ok p)) ->
  static m m' /\ exists e, dm_objects m !! o = Some e /\ queues m ≡ₚ (de_stream e, p) :: queues m'.
Proof.
  intros Hm. unfold Endpoint_Receive. destruct (dm_objects m !! o) as [e|] eqn:He; [|done].
  intros H. assert (exists rest, de_receive e = p :: rest /\
    m' = set_table m (<[o := mkEndpoint (de_stream e) rest (de_done e)]> (dm_objects m)) (dm_endpoints m))
    as (rest & Er & ->).
  { inv_res; eauto. }
  split; [by apply (replace_object_ok m o e)|]. exists e. split; [done|].
  destruct (queues_insert m o e (mkEndpoint (de_stream e) rest (de_done e)) (dm_endpoints m) He) as (q & -> & ->).
  unfold items. by rewrite Er.
Qed.

Lemma Endpoint_Send_ok m limit ctx inner o p m' r :
  table_ok m -> Endpoint_Send Seal kind m limit ctx inner o p = (m', r) ->
  table_ok m' /\ same_keys m m' /\ dm_sendCounter m <= dm_sendCounter m' /\
  forall raw, r = Ok raw -> exists e, dm_objects m !! o = Some e /\
    dm_sendCounter m' = dm_sendCounter m + 1 /\
    raw = datagram_wire Seal kind m (de_stream e) (dm_sendCounter m') p.
Proof.
  intros Hm. unfold Endpoint_Send, send.
  assert (Hs : forall m1, m1 = m \/ m1 = set_sendCounter m (dm_sendCounter m + 1) \/
      m1 = bump (set_sendCounter m (dm_sendCounter m + 1)) CSent -> dm_sendCounter m1 <= MaxUint64 ->
    table_ok m1 /\ same_keys m m1 /\ dm_sendCounter m <= dm_sendCounter m1).
  { destruct Hm as [H1 H2 H3]. intros m1 [->|[->| ->]] Hc; cbn in *; (split; [split; cbn; [done..|lia]|]); (split; [done|lia]). }
  destruct Hm as [H1 H2 H3]. intros H.
  inv_res; try (destruct (Hs m) as (? & ? & ?); [auto|lia|]; split_and!; try done; lia).
  all: zb.
  all: match goal with |- table_ok ?m1 /\ _ => destruct (Hs m1) as (? & ? & ?); [auto|cbn; lia|] end.
  all: split_and!; try done.
  intros raw' [= <-]. by exists d.
Qed.

Lemma bump_static m c : table_ok m -> static m (bump m c) /\ queues (bump m c) = queues m.
Proof. intros [H1 H2 H3]. done. Qed.

Lemma deliver_ok m i c p : table_ok m ->
  static m (deliver m i c p).1 /\ accepted_of (deliver m i c p).2 = [(i, c, p)] /\
  queues (deliver m i c p).1 ⊆+ (i, p) :: queues m.
Proof.
  intros Hm. unfold deliver.
  assert (Hd : forall cn, static m (bump m cn) /\ queues (bump m cn) ⊆+ (i, p) :: queues m).
  { intros cn. destruct (bump_static m cn Hm) as [? ->]. split; [done|]. by apply submseteq_cons. }
  destruct (dm_endpoints m !! i) as [o|] eqn:Ei; [|split; [apply Hd|]; split; [done|apply Hd]].
  destruct (tb_endpoint _ Hm _ _ Ei) as (e & He & Ee). rewrite He.
  destruct (_ <? _); [|split; [apply Hd|]; split; [done|apply Hd]].
  set (e' := mkEndpoint (de_stream e) (de_receive e ++ [p]) (de_done e)).
  destruct (replace_object_ok m o e e' Hm He eq_refl) as (H1 & H2 & H3 & H4).
  destruct (bump_static _ CReceived H1) as ((T & K & R & C) & Eq).
  cbn [fst snd]. rewrite Eq. split; [split_and!; try done|]. split; [done|].
  destruct (queues_insert m o e e' (dm_endpoints m) He) as (rest & -> & ->).
  unfold items, e'. cbn. rewrite fmap_app, <- app_assoc, Ee. cbn.
  by rewrite Permutation_middle.
Qed.

(** What one round of the receive loop does to the window and the queues. *)
Lemma receive_one_ok m raw m' out seen :
  table_ok m -> window_ok (dm_replay m) seen ->
  receive_one Open Overhead kind m raw = (m', out) ->
  table_ok m' /\ same_keys m m' /\ dm_sendCounter m' = dm_sendCounter m /\
  match accepted_of out with
  | [] => window_ok (dm_replay m') seen /\ queues m' = queues m
  | x => exists i c p ct, x = [(i, c, p)] /\ window_ok (dm_replay m') (c :: seen) /\
      parseDatagramEnvelope raw (Overhead (dm_receiveAEAD m)) = Some (i, c, ct) /\
      Open (dm_receiveAEAD m) (recordNonce (dm_receivePrefix m) c) ct
        (datagramAssociatedData kind (dm_recvDirection m) i c) = Some p /\
      queues m' ⊆+ (i, p) :: queues m
  end.
Proof.
  intros Hm W. unfold receive_one.
  assert (Hb : forall c, table_ok (bump m c) /\ same_keys m (bump m c)).
  { intros c. by destruct (bump_static m c Hm) as [(? & ? & _) _]. }
  destruct (negb (dm_enabled m)). { intros [= <- <-]. by split_and!. }
  destruct (parseDatagramEnvelope _ _) as [[[i c] ct]|] eqn:Ep; cycle 1.
  { intros [= <- <-]. cbn. by split_and!; try apply Hb. }
  destruct (Open _ _ _ _) as [p|] eqn:Eo; cycle 1.
  { intros [= <- <-]. cbn. by split_and!; try apply Hb. }
  destruct (_ <? _). { intros [= <- <-]. cbn. by split_and!; try apply Hb. }
  assert (Hc : is_u64 c).
  { apply parse_header_inv in Ep as (_ & _ & Hc & _); [|apply overhead_nonneg]. unfold is_u64. lia. }
  destruct (replay_Accept_ok _ _ _ W Hc) as [E W'].
  destruct (replay_Accept (dm_replay m) c) as [rp [|]]; cbn in E, W'; cycle 1.
  { intros [= <- <-]. cbn. by split_and!; try apply Hb. }
  assert (W1 : window_ok rp (c :: seen)).
  { unfold ref_Accept in *. by destruct (bool_decide _). }
  assert (Hr : table_ok (set_replay m rp)) by (by destruct Hm).
  intros H. pose proof (deliver_ok _ i c p Hr) as ((T & K & R & C) & Ha & Hq).
  rewrite H in *. cbn [fst snd] in *. rewrite Ha. split_and!; try done.
  exists i, c, p, ct. split_and!; try done. by rewrite R.
Qed.

Definition ctr (t : Z * Z * list byte) : Z := t.1.2.
Definition content (t : Z * Z * list byte) : Z * list byte := (t.1.1, t.2).
Abbreviation wire_of := (datagram_wire Seal kind).
Abbreviation step := (dstep New Seal Open Overhead hkdf_key kind).
Abbreviation act := (dact New Seal Open Overhead hkdf_key kind).
Abbreviation reachable := (dreachable New Seal Open Overhead hkdf_key kind).

(** The generation and the counter of an entry: what makes its nonce. *)
Definition nonce_of (t : nat * (Z * Z * list byte)) : nat * Z := (t.1, ctr t.2).
(** The counters accepted with the keys of generation [g]. *)
Definition accepted_in (g : nat) (c : channel) : list Z :=
  (fun t => ctr t.2) <$> filter (fun t : nat * (Z * Z * list byte) => t.1 = g) (ch_accepted c).

Lemma wire_same_keys a a' i c p : same_keys a a' -> wire_of a' i c p = wire_of a i c p.
Proof. intros (E1 & _ & E3 & _ & E5 & _). unfold datagram_wire. by rewrite E1, E3, E5. Qed.

Lemma peers_same_keys a a' b b' : same_keys a a' -> same_keys b b' -> peers a b -> peers a' b'.
Proof.
  intros (A1 & _ & A3 & _ & A5 & _) (_ & B2 & _ & B4 & _ & B6) [P1 P2 P3].
  split; [by rewrite A1, B2|by rewrite A3, B4|by rewrite A5, B6].
Qed.

Lemma same_keys_refl m : same_keys m m.
Proof. done. Qed.

(** A peer opens exactly what was sealed. *)
Lemma open_wire a b i c p :
  peers a b -> 0 < i <= MaxStreamID -> 0 < c < 2 ^ 64 ->
  exists ct, parseDatagramEnvelope (wire_of a i c p) (Overhead (dm_receiveAEAD b)) = Some (i, c, ct) /\
    Open (dm_receiveAEAD b) (recordNonce (dm_receivePrefix b) c) ct
      (datagramAssociatedData kind (dm_recvDirection b) i c) = Some p.
Proof.
  intros [P1 P2 P3] Hi Hc. unfold datagram_wire. eexists. split.
  - apply parse_header; [done..|].
    rewrite <- P1, (@seal_len _ New Seal Open Overhead hmac_sha256 _). pose proof (len_nonneg p). lia.
  - rewrite P1, P2, P3. apply (@open_seal _ New Seal Open Overhead hmac_sha256 _).
Qed.

Section Generations.
Variable keys_of : nat -> SessionKeys.
Implicit Types x y : Mux.

(** An end in its role. *)
Record end_ok (server : bool) m (g : nat) : Prop := {
  eo_table : table_ok m;
  eo_keys : keyed New hkdf_key server (keys_of g) m
}.

(** What the sender [x] of a channel guarantees ... *)
Record sends (server : bool) x (g : nat) (c : channel) : Prop := {
  sn_range : forall g' t, (g', t) ∈ ch_sent c -> (g' <= g)%nat /\ 0 < t.1.1 <= MaxStreamID /\
    0 < ctr t <= MaxUint64 /\ (g' = g -> ctr t <= dm_sendCounter x);
  sn_nodup : NoDup (nonce_of <$> ch_sent c);
  sn_wire : forall g' raw, (g', raw) ∈ ch_wire c -> exists t m,
    (g', t) ∈ ch_sent c /\ keyed New hkdf_key server (keys_of g') m /\ raw = wire_of m t.1.1 (ctr t) t.2
}.

(** ... and its receiver [y]. *)
Record receives y (g : nat) (c : channel) : Prop := {
  rv_window : window_ok (dm_replay y) (accepted_in g c);
  rv_past : forall g' t, (g', t) ∈ ch_accepted c -> (g' <= g)%nat;
  rv_nodup : NoDup (nonce_of <$> ch_accepted c);
  rv_accepted : ch_accepted c ⊆ ch_sent c;
  rv_reads : ch_read c ++ queues y ⊆+ (fun t => content t.2) <$> ch_accepted c
}.

Lemma keyed_same_keys server keys m m' :
  same_keys m m' -> keyed New hkdf_key server keys m -> keyed New hkdf_key server keys m'.
Proof. intros (E1 & E2 & E3 & E4 & E5 & E6) (K & D1 & D2). unfold keyed. by rewrite E1, E2, E3, E4, E5, E6. Qed.

(** An end moves on without touching keys or window. *)
Lemma end_static server m m' g : table_ok m' -> same_keys m m' -> end_ok server m g -> end_ok server m' g.
Proof. intros T K [_ H]. split; [done|]. by eapply keyed_same_keys. Qed.

Lemma sends_later server x x' g c :
  dm_sendCounter x <= dm_sendCounter x' -> sends server x g c -> sends server x' g c.
Proof. intros C [H1 H2 H3]. split; try done. intros g' t Ht. destruct (H1 g' t Ht) as (? & ? & ? & ?). split_and!; auto; lia. Qed.

Lemma sends_receive_log server x g c g' ts : sends server x g c -> sends server x g (log_accepted c g' ts).
Proof. by intros []. Qed.
Lemma sends_read_log server x g c t : sends server x g c -> sends server x g (log_read c t).
Proof. by intros []. Qed.

Lemma receives_static y y' g c c' :
  static y y' -> ch_sent c' = ch_sent c -> ch_accepted c' = ch_accepted c ->
  ch_read c' ++ queues y' ≡ₚ ch_read c ++ queues y -> receives y g c -> receives y' g c'.
Proof.
  intros (_ & _ & R & _) Es Ea Hq [H1 H2 H3 H4 H5]. unfold accepted_in in *.
  split; unfold accepted_in; rewrite ?Es, ?Ea, ?R, ?Hq; done.
Qed.

Lemma receives_sent y g c g' raw t : receives y g c -> receives y g (log_sent c g' raw t).
Proof. intros [H1 H2 H3 H4 H5]. split; try done. intros u Hu. right. by apply H4. Qed.

(** [receives] looks at the window and the queues only. *)
Lemma receives_kept y y' g c :
  dm_replay y' = dm_replay y -> queues y' = queues y -> receives y g c -> receives y' g c.
Proof. intros R Q [H1 H2 H3 H4 H5]. by split; rewrite ?R, ?Q. Qed.

Lemma Endpoint_Send_static m limit ctx inner o p m' r :
  Endpoint_Send Seal kind m limit ctx inner o p = (m', r) ->
  dm_replay m' = dm_replay m /\ queues m' = queues m.
Proof. unfold Endpoint_Send, send. intros H. by inv_res. Qed.

(** A datagram leaves. *)
Lemma send_sends server m g c limit ctx inner o p m' raw :
  Endpoint_Send Seal kind m limit ctx inner o p = (m', Ok raw) ->
  end_ok server m g -> sends server m g c ->
  sends server m' g (log_sent c g raw (stream_of m o, dm_sendCounter m', p)).
Proof.
  intros H Hm Hs. pose proof (eo_table _ _ _ Hm) as Ht.
  apply Endpoint_Send_ok in H as (T & K & C & Hr); [|done].
  destruct (Hr raw eq_refl) as (e & He & Ec & ->). unfold stream_of. rewrite He.
  pose proof (tb_object _ Ht _ _ He). pose proof (tb_counter _ Ht). pose proof (tb_counter _ T).
  destruct (sends_later _ m m' g c C Hs) as [G1 G2 G3]. destruct Hs as [O1 _ _]. split; cbn.
  - intros g' t [[= -> ->]|Hin]%elem_of_cons; [unfold ctr; cbn; split_and!; lia|auto].
  - constructor; [|done]. intros ([g' t] & E & Hin)%list_elem_of_fmap. unfold nonce_of, ctr in E. cbn in E.
    injection E as <- E. destruct (O1 g t Hin) as (_ & _ & _ & Hle). specialize (Hle eq_refl). unfold ctr in Hle. lia.
  - intros g' raw' [[= -> ->]|Hin]%elem_of_cons.
    + eexists _, m. split; [by left|]. split; [by apply Hm|done].
    + destruct (G3 _ _ Hin) as (t & m0 & ? & ? & ?). exists t, m0. split_and!; try done. by right.
Qed.

(** Something arrives that opens only to what was sent. *)
Lemma receive_receives server m g c raw m' r :
  (forall i n ct p, parseDatagramEnvelope raw (Overhead (dm_receiveAEAD m)) = Some (i, n, ct) ->
     Open (dm_receiveAEAD m) (recordNonce (dm_receivePrefix m) n) ct
       (datagramAssociatedData kind (dm_recvDirection m) i n) = Some p -> (g, (i, n, p)) ∈ ch_sent c) ->
  receive_one Open Overhead kind m raw = (m', r) -> end_ok server m g -> receives m g c ->
  end_ok server m' g /\ dm_sendCounter m' = dm_sendCounter m /\
  receives m' g (log_accepted c g (accepted_of r)).
Proof.
  intros Hs H Hm [H1 H2 H3 H4 H5]. pose proof (eo_table _ _ _ Hm) as Ht.
  apply (receive_one_ok m raw m' r (accepted_in g c)) in H as (T & K & C & Hacc); [|done..].
  split; [by eapply end_static|]. split; [done|].
  destruct (accepted_of r) as [|t ts].
  - destruct Hacc as [W Q]. split; cbn; try done. by rewrite Q.
  - destruct Hacc as (i & n & p & ct & [= -> ->] & W & Ep & Eo & Q).
    assert (Hw : n :: accepted_in g c = accepted_in g (log_accepted c g [(i, n, p)])).
    { unfold accepted_in. change (ch_accepted (log_accepted _ _ _)) with ((g, (i, n, p)) :: ch_accepted c).
      by rewrite filter_cons_True. }
    rewrite Hw in W. split; cbn; try done.
    + intros g' t [[= -> ->]|Hin]%elem_of_cons; [done|by eapply H2].
    + constructor; [|done]. rewrite <- Hw in W. apply win_nodup in W. apply NoDup_cons in W as [W _].
      intros ([g' t] & E & Hin)%list_elem_of_fmap. injection E as <- E. apply W. apply list_elem_of_fmap.
      exists (g, t). split; [exact E|]. by apply list_elem_of_filter.
    + intros t [->|Hin]%elem_of_cons; [by eapply Hs|by apply H4].
    + etrans; [apply submseteq_app; [reflexivity|exact Q]|]. rewrite <- Permutation_middle. by apply submseteq_skip.
Qed.

(** A rekey of the receiver starts an empty window; of the sender, a new
    space of counters. *)
Lemma rekey_ok server m m' g out inn :
  rekey New hkdf_key m (keys_of (S g)) = (m', Ok tt) ->
  end_ok server m g -> sends server m g out -> receives m g inn ->
  end_ok server m' (S g) /\ sends server m' (S g) out /\ receives m' (S g) inn.
Proof.
  intros H [T K] [S1 S2 S3] [R1 R2 R3 R4 R5].
  destruct (rekey_keyed _ _ _ _ _ _ _ K H) as (K' & Er & Ec & Eo & Ee). split; [|split].
  - split; [|done]. destruct T as [T1 T2 T3]. split; rewrite ?Eo, ?Ee, ?Ec; [done..|unfold MaxUint64; lia].
  - split; try done. intros g' t Hin. destruct (S1 g' t Hin) as (? & ? & ? & _). split_and!; try done; lia.
  - split; try done.
    + rewrite Er, (replay_Reset_ok _ _ R1).
      replace (accepted_in (S g) inn) with (@nil Z); [apply newReplay_ok|].
      unfold accepted_in. assert (E : filter (fun t : nat * (Z * Z * list byte) => t.1 = S g) (ch_accepted inn) = []);
        [|by rewrite E].
      apply elem_of_nil_inv. intros [g' t] [Eg Hin]%list_elem_of_filter. cbn in Eg. specialize (R2 g' t Hin). lia.
    + intros g' t Hin. specialize (R2 g' t Hin). lia.
    + unfold queues. by rewrite Eo.
Qed.

(** An action of one end keeps what holds of it and of both its channels;
    [x] is the peer, which sends on [inn] and receives from [out]. *)
Lemma act_ok server m g out inn m' g' out' inn' x gx :
  act keys_of m g out inn m' g' out' inn' ->
  end_ok server m g -> sends server m g out -> receives m g inn ->
  sends (negb server) x gx inn -> receives x gx out ->
  end_ok server m' g' /\ sends server m' g' out' /\ receives m' g' inn' /\
  sends (negb server) x gx inn' /\ receives x gx out'.
Proof.
  intros Ha Hm Hs Hr Hx Hy. pose proof (eo_table _ _ _ Hm) as Ht.
  assert (Hst : forall m1, static m m1 -> queues m1 ≡ₚ queues m ->
    end_ok server m1 g /\ sends server m1 g out /\ receives m1 g inn).
  { intros m1 St Q. pose proof St as (T & K & _ & C). split; [by eapply end_static|].
    split; [apply (sends_later _ m); [lia|done]|]. eapply receives_static; try done. by rewrite Q. }
  assert (Hrc : forall raw m1 r,
    (forall i n ct p, parseDatagramEnvelope raw (Overhead (dm_receiveAEAD m)) = Some (i, n, ct) ->
       Open (dm_receiveAEAD m) (recordNonce (dm_receivePrefix m) n) ct
         (datagramAssociatedData kind (dm_recvDirection m) i n) = Some p -> (g, (i, n, p)) ∈ ch_sent inn) ->
    receive_one Open Overhead kind m raw = (m1, r) ->
    end_ok server m1 g /\ sends server m1 g out /\ receives m1 g (log_accepted inn g (accepted_of r)) /\
    sends (negb server) x gx (log_accepted inn g (accepted_of r)) /\ receives x gx out).
  { intros raw m1 r Hsent H. destruct (receive_receives server m g inn raw m1 r Hsent H Hm Hr) as (? & C & ?).
    split_and!; try done; [apply (sends_later _ m); [lia|done]|by apply sends_receive_log]. }
  destruct Ha as [m g out inn limit ctx inner o p m' raw H|m g out inn limit ctx inner o p m' e H
    |m g out inn raw m' r Hin H|m g out inn raw m' r Hno H|m g out inn id Hid|m g out inn o|m g out inn limit n
    |m g out inn o ctx pick m' p H|m g out inn m' H].
  - destruct (Endpoint_Send_static _ _ _ _ _ _ _ _ H) as [R Q].
    pose proof (Endpoint_Send_ok _ _ _ _ _ _ _ _ Ht H) as (T & K & C & _).
    split; [by eapply end_static|]. split; [by eapply send_sends|].
    split; [by apply (receives_kept m)|]. split; [done|by apply receives_sent].
  - destruct (Endpoint_Send_static _ _ _ _ _ _ _ _ H) as [R Q].
    pose proof (Endpoint_Send_ok _ _ _ _ _ _ _ _ Ht H) as (T & K & C & _).
    split; [by eapply end_static|]. split; [by apply (sends_later _ m)|].
    split; [by apply (receives_kept m)|done].
  - eapply Hrc; [|exact H]. intros i n ct q Ep Eo.
    destruct (sn_wire _ _ _ _ Hx g raw Hin) as ([[i' n'] p'] & m0 & Hsent & K0 & ->). cbn in *.
    destruct (sn_range _ _ _ _ Hx _ _ Hsent) as (_ & Hi & Hn & _). unfold ctr, MaxUint64 in *. cbn in *.
    pose proof (eo_keys _ _ _ Hm) as Km. rewrite <- (negb_involutive server) in Km.
    pose proof (keyed_peers _ _ _ _ _ _ K0 Km) as P.
    destruct (open_wire m0 m i' n' p' P) as (ct' & Ep' & Eo'); [lia..|].
    rewrite Ep' in Ep. injection Ep as <- <- <-. rewrite Eo' in Eo. by injection Eo as <-.
  - eapply Hrc; [|exact H]. intros i n ct q Ep Eo. specialize (Hno _ _ _ Ep). congruence.
  - destruct (OpenEndpoint_ok m id Hid Ht) as [St Q]. by destruct (Hst _ St ltac:(by rewrite Q)) as (? & ? & ?).
  - destruct (Endpoint_Close_ok m o Ht) as [St Q]. by destruct (Hst _ St Q) as (? & ? & ?).
  - destruct (Enable_ok m limit n Ht) as [St Q]. by destruct (Hst _ St ltac:(by rewrite Q)) as (? & ? & ?).
  - destruct (Endpoint_Receive_ok m o ctx pick m' p Ht H) as [St (e & He & Q)].
    pose proof St as (T & K & _ & C). unfold stream_of. rewrite He.
    split; [by eapply end_static|]. split; [apply (sends_later _ m); [lia|done]|].
    split; [|split; [by apply sends_read_log|done]].
    apply (receives_static m _ _ inn); try done. cbn. rewrite Q. apply Permutation_middle.
  - by destruct (rekey_ok _ _ _ _ _ _ H Hm Hs Hr) as (? & ? & ?).
Qed.

(** The client is [ds_a], the server [ds_b]. *)
Record dinv (s : dsys) : Prop := {
  di_a : end_ok false (ds_a s) (ds_ga s);
  di_b : end_ok true (ds_b s) (ds_gb s);
  di_sends_ab : sends false (ds_a s) (ds_ga s) (ds_ab s);
  di_receives_ab : receives (ds_b s) (ds_gb s) (ds_ab s);
  di_sends_ba : sends true (ds_b s) (ds_gb s) (ds_ba s);
  di_receives_ba : receives (ds_a s) (ds_ga s) (ds_ba s)
}.

Lemma dstep_dinv s s' : step keys_of s s' -> dinv s -> dinv s'.
Proof.
  intros [a b ga gb ab ba a' ga' ab' ba' H|a b ga gb ab ba b' gb' ab' ba' H] [I1 I2 I3 I4 I5 I6]; cbn in *.
  - destruct (act_ok false a ga ab ba a' ga' ab' ba' b gb H I1 I3 I6 I5 I4) as (? & ? & ? & ? & ?). by split.
  - destruct (act_ok true b gb ba ab b' gb' ba' ab' a ga H I2 I5 I4 I3 I6) as (? & ? & ? & ? & ?). by split.
Qed.

Lemma no_traffic_ok (server : bool) limit (m x : Mux) gx :
  newDatagramMux New hkdf_key limit (if server then RoleServer else RoleClient) (keys_of 0%nat) = Ok m ->
  end_ok server m 0 /\ receives m 0 no_traffic /\ sends server x gx no_traffic.
Proof.
  intros (K & R & C & O & E)%newDatagramMux_keyed. split; [|split].
  - split; [|done]. split; rewrite ?O, ?E, ?C; try done; unfold MaxUint64; lia.
  - split; cbn; try done; [rewrite R; apply newReplay_ok|by intros ? ? ?%elem_of_nil|constructor|].
    unfold queues. by rewrite O.
  - split; cbn; [by intros ? ? ?%elem_of_nil|constructor|by intros ? ? ?%elem_of_nil].
Qed.

Lemma dreachable_inv la lb s : reachable la lb keys_of s -> dinv s.
Proof.
  induction 1 as [a b Ha Hb|]; [|by eapply dstep_dinv].
  destruct (no_traffic_ok false la a a 0 Ha) as (? & ? & ?), (no_traffic_ok true lb b b 0 Hb) as (? & ? & ?).
  by split.
Qed.

(** C15: in each direction between the two ends, whatever the network drops,
    duplicates or reorders, and whatever else arrives that does not
    authenticate under the receiver's present keys (forged, of the other
    direction, or of another generation of keys), through any number of
    rekeys of either end: every datagram is read at most once, unaltered and
    from the endpoint of the stream it was sent on, and no two datagrams of a
    key generation share a nonce counter. *)
Theorem datagrams_delivered_once la lb s :
  reachable la lb keys_of s ->
  (ch_read (ds_ab s) ⊆+ (fun t => content t.2) <$> ch_sent (ds_ab s) /\
   ch_read (ds_ba s) ⊆+ (fun t => content t.2) <$> ch_sent (ds_ba s)) /\
  NoDup (nonce_of <$> ch_sent (ds_ab s)) /\ NoDup (nonce_of <$> ch_sent (ds_ba s)).
Proof.
  intros [_ _ S1 R1 S2 R2]%dreachable_inv.
  assert (Hr : forall x g c, receives x g c -> ch_read c ⊆+ (fun t => content t.2) <$> ch_sent c).
  { intros x g c [_ _ Hn Ha Hr]. etrans; [by apply submseteq_inserts_r|]. etrans; [exact Hr|].
    apply fmap_submseteq, NoDup_submseteq; [|done]. by eapply NoDup_fmap_1. }
  split; [split; by eapply Hr|]. split; [apply S1|apply S2].
Qed.
End Generations.


(** The sender's checks passed, the envelope leaves. *)
Lemma send_accepts a limit id p :
  dm_enabled a = true -> dm_done a = false -> len p <= dm_maximum a -> dm_sendCounter a < MaxUint64 ->
  1 + len (put_uvarint id) + 8 + Overhead (dm_sendAEAD a) + len p <= limit ->
  exists a', send Seal kind a limit None (fun _ => Ok tt) id p = (a', Ok (wire_of a id (dm_sendCounter a + 1) p)) /\
    same_keys a a'.
Proof.
  intros He Hd Hp Hc Hl. unfold send. rewrite He, Hd. cbn [negb orb].
  destruct (Z.ltb_spec (dm_maximum a) (len p)); [lia|]. destruct (Z.eqb_spec (dm_sendCounter a) MaxUint64); [lia|].
  fold (wire_of a id (dm_sendCounter a + 1) p).
  assert (El : len (wire_of a id (dm_sendCounter a + 1) p) = 1 + len (put_uvarint id) + 8 + (len p + Overhead (dm_sendAEAD a))).
  { unfold datagram_wire. rewrite len_app, header_len. by rewrite (@seal_len _ New Seal Open Overhead hmac_sha256 _). }
  unfold datagram_wire in *. cbn [dm_sendAEAD dm_sendPrefix dm_sendDirection set_sendCounter].
  rewrite El. destruct (Z.ltb_spec limit (1 + len (put_uvarint id) + 8 + (len p + Overhead (dm_sendAEAD a)))); [lia|]. by eexists.
Qed.

(** A counter above every accepted one passes the window. *)
Lemma accept_next r seen c : window_ok r seen -> is_u64 c -> Forall (fun d => d < c) seen -> 0 < c ->
  (replay_Accept r c).2 = true.
Proof.
  intros W Hc Hs H0. destruct (replay_Accept_ok r seen c W Hc) as [-> _]. unfold ref_Accept.
  rewrite bool_decide_true; [done|]. rewrite Forall_forall in Hs. split_and!; [lia| |].
  - intros Hx. specialize (Hs c Hx). lia.
  - assert (highest seen < c); [|unfold datagramReplayWindow; lia].
    clear -Hs H0. unfold highest. induction seen as [|d seen IH]; cbn; [lia|].
    pose proof (Hs d ltac:(left)). pose proof (IH ltac:(intros; apply Hs; by right)). lia.
Qed.

(** a datagram that arrives before any later one reaches its reader: with
    the path enabled at both ends, room in the queue of the peer's endpoint
    and a payload within both maxima, [Send] succeeds and the receive loop
    appends exactly this payload to that queue. *)
Theorem datagram_reaches_endpoint la lb keys_of y limit oa ob ea eb p :
  reachable la lb keys_of y -> ds_ga y = ds_gb y -> let a := ds_a y in let b := ds_b y in
  dm_enabled a = true -> dm_enabled b = true -> dm_done a = false ->
  dm_objects a !! oa = Some ea -> de_done ea = false ->
  dm_endpoints b !! de_stream ea = Some ob -> dm_objects b !! ob = Some eb ->
  len (de_receive eb) < datagramReceiveQueue ->
  len p <= dm_maximum a -> len p <= dm_maximum b -> dm_sendCounter a < MaxUint64 ->
  18 + Overhead (dm_sendAEAD a) + len p <= limit ->
  exists a' b' raw,
    Endpoint_Send Seal kind a limit None (fun _ => Ok tt) oa p = (a', Ok raw) /\
    receive_one Open Overhead kind b raw = (b', Queued (de_stream ea) (dm_sendCounter a + 1) p) /\
    dm_objects b' !! ob = Some (mkEndpoint (de_stream eb) (de_receive eb ++ [p]) (de_done eb)).
Proof.
  intros Hy Hg a b Hea Heb Hd Ho Hdone Hep Hob Hroom Hpa Hpb Hc Hl.
  apply dreachable_inv in Hy as [[H1 K1] [H2 K2] [H4 _ _] [H7 _ _ H8 _] _ _].
  fold a in H1, K1, H4. fold b in H2, K2, H7. rewrite <- Hg in K2, H7.
  pose proof (keyed_peers _ _ _ _ _ _ K1 K2) as H3.
  pose proof (tb_object _ H1 _ _ Ho) as Hs. pose proof (tb_counter _ H1) as Hca. pose proof Hs as Hs'.
  rewrite MaxStreamID_eq in Hs'.
  destruct (send_accepts a limit (de_stream ea) p Hea Hd Hpa Hc) as (a' & Ea & Ka).
  { pose proof (len_put_bound 9 (de_stream ea) ltac:(lia) ltac:(lia)). lia. }
  exists a', (deliver (set_replay b (replay_Accept (dm_replay b) (dm_sendCounter a + 1)).1) (de_stream ea)
    (dm_sendCounter a + 1) p).1, (wire_of a (de_stream ea) (dm_sendCounter a + 1) p).
  split; [|split].
  - unfold Endpoint_Send. rewrite Ho, Hdone. destruct (Z.ltb_spec (dm_maximum a) (len p)); [lia|]. exact Ea.
  - destruct (open_wire a b (de_stream ea) (dm_sendCounter a + 1) p H3 Hs) as (ct & Ep & Eo); [unfold MaxUint64 in *; lia|].
    unfold receive_one. rewrite Heb, Ep, Eo. cbn [negb]. destruct (Z.ltb_spec (dm_maximum b) (len p)); [lia|].
    pose proof (accept_next _ _ (dm_sendCounter a + 1) H7) as Hx.
    rewrite (surjective_pairing (replay_Accept _ _)), Hx.
    + unfold deliver. cbn. rewrite Hep, Hob. by rewrite (proj2 (Z.ltb_lt _ _) Hroom).
    + unfold is_u64, MaxUint64 in *. lia.
    + apply Forall_fmap, Forall_forall. intros [g t] [Eg Ht%H8]%list_elem_of_filter. cbn in Eg. subst g.
      destruct (H4 _ _ Ht) as (_ & _ & _ & Hle). specialize (Hle eq_refl). cbn. lia.
    + lia.
  - unfold deliver. cbn. rewrite Hep, Hob, (proj2 (Z.ltb_lt _ _) Hroom). cbn.
    apply list_lookup_insert_eq. by eapply lookup_lt_Some.
Qed.
End Delivery.

(** ** A concrete exchange *)
Module DatagramExample.
#[local] Existing Instance RecordExample.laws.
Definition hkdf (secret salt info : list byte) (size : nat) : res (list byte) :=
  Ok (take size (take 1 secret ++ drop 13 info ++ secret ++ zeros size)).
Definition keys : SessionKeys :=
  mkSessionKeys [] [] (replicate 32 x07) (replicate 32 x01) (replicate 32 x02) (replicate 4 x03) (replicate 4 x04).
Abbreviation New := RecordExample.New.
Abbreviation Seal := RecordExample.Seal.
Abbreviation Open := RecordExample.Open.
Abbreviation Overhead := (fun _ : list byte => 16).
Definition fresh (role : Z) : DatagramMux (aead := list byte) :=
  match newDatagramMux New hkdf 2000 role keys with
  | Ok m => m
  | Err _ => mkDatagramMux [] [] [] [] 0 0 0 newReplay [] ∅ false 0 (mkStats 0 0 0 0 0 0) false
  end.
Definition opened (role : Z) : DatagramMux := (OpenEndpoint (Enable (fresh role) 2000 1200).1 5).1.
Definition sent1 := Endpoint_Send Seal 1 (opened RoleClient) 2000 None (fun _ => Ok tt) 0 [x68].
Definition raw1 : list byte := match sent1.2 with Ok raw => raw | Err _ => [] end.

(** The envelope is delivered twice and read once. *)
Definition received := receive_one Open Overhead 1 (receive_one Open Overhead 1 (opened RoleServer) raw1).1 raw1.

(** The keys before and after the rekey. *)
Definition keys' : SessionKeys :=
  mkSessionKeys [] [] (replicate 32 x08) (replicate 32 x01) (replicate 32 x02) (replicate 4 x03) (replicate 4 x04).
Definition keys_of (g : nat) : SessionKeys := match g with O => keys | _ => keys' end.
Abbreviation up := (dreachable New Seal Open Overhead hkdf 1 2000 2000 keys_of).

Lemma moved_a a b ga gb ab ba a' ga' ab' ba' :
  up (mkDsys a b ga gb ab ba) -> dact New Seal Open Overhead hkdf 1 keys_of a ga ab ba a' ga' ab' ba' ->
  up (mkDsys a' b ga' gb ab' ba').
Proof. intros H Ha. eapply d_more; [exact H|by apply d_a]. Qed.
Lemma moved_b a b ga gb ab ba b' gb' ab' ba' :
  up (mkDsys a b ga gb ab ba) -> dact New Seal Open Overhead hkdf 1 keys_of b gb ba ab b' gb' ba' ab' ->
  up (mkDsys a b' ga gb' ab' ba').
Proof. intros H Ha. eapply d_more; [exact H|by apply d_b]. Qed.

Lemma opened_reachable : up (mkDsys (opened RoleClient) (opened RoleServer) 0 0 no_traffic no_traffic).
Proof.
  assert (H0 : up (mkDsys (fresh RoleClient) (fresh RoleServer) 0 0 no_traffic no_traffic)) by (by apply d_new).
  pose proof (moved_a _ _ _ _ _ _ _ _ _ _ H0 (d_enable _ _ _ _ _ _ _ _ _ _ _ 2000 1200)) as H1.
  pose proof (moved_b _ _ _ _ _ _ _ _ _ _ H1 (d_enable _ _ _ _ _ _ _ _ _ _ _ 2000 1200)) as H2.
  pose proof (moved_a _ _ _ _ _ _ _ _ _ _ H2 (d_open _ _ _ _ _ _ _ _ _ _ _ 5 ltac:(by vm_compute))) as H3.
  exact (moved_b _ _ _ _ _ _ _ _ _ _ H3 (d_open _ _ _ _ _ _ _ _ _ _ _ 5 ltac:(by vm_compute))).
Qed.

Definition b1 := (receive_one Open Overhead 1 (opened RoleServer) raw1).1.
Definition b3 := (Endpoint_Receive received.1 0 None true).1.
(** Both ends move to the next keys; the server answers. *)
Definition a4 := (rekey New hkdf sent1.1 keys').1.
Definition b4 := (rekey New hkdf b3 keys').1.
Definition sent2 := Endpoint_Send Seal 1 b4 2000 None (fun _ => Ok tt) 0 [x69].
Definition raw2 : list byte := match sent2.2 with Ok raw => raw | Err _ => [] end.
Definition a5 := (receive_one Open Overhead 1 a4 raw2).1.
(** The old envelope comes again: it does not open under the new keys. *)
Definition b5 := (receive_one Open Overhead 1 sent2.1 raw1).1.
Definition a6 := (Endpoint_Receive a5 0 None true).1.

Abbreviation t1 := (5, 1, [x68]).
Abbreviation t2 := (5, 1, [x69]).
Definition ab1 : channel := log_sent no_traffic 0 raw1 t1.
Definition ab2 : channel := log_accepted ab1 0 (accepted_of (Queued 5 1 [x68])).
Definition ab3 : channel := log_read (log_accepted ab2 0 (accepted_of ReplayDrop)) (5, [x68]).
Definition ab4 : channel := log_accepted ab3 1 (accepted_of AuthenticationDrop).
Definition ba1 : channel := log_sent no_traffic 1 raw2 t2.
Definition ba2 : channel := log_accepted ba1 1 (accepted_of (Queued 5 1 [x69])).
Definition ba3 : channel := log_read ba2 (5, [x69]).

Lemma exchange_reachable : up (mkDsys a6 b5 1 1 ab4 ba3).
Proof.
  assert (H1 : up (mkDsys sent1.1 (opened RoleServer) 0 0 ab1 no_traffic)).
  { eapply moved_a; [exact opened_reachable|].
    refine (d_send _ _ _ _ _ _ _ _ _ _ _ 2000 None (fun _ => Ok tt) 0 [x68] _ _ _). vm_compute. reflexivity. }
  assert (H2 : up (mkDsys sent1.1 b1 0 0 ab2 no_traffic)).
  { eapply moved_b; [exact H1|]. apply (d_deliver _ _ _ _ _ _ _ _ _ _ _ raw1); [by left|]. vm_compute. reflexivity. }
  assert (H3 : up (mkDsys sent1.1 received.1 0 0 (log_accepted ab2 0 (accepted_of ReplayDrop)) no_traffic)).
  { eapply moved_b; [exact H2|]. apply (d_deliver _ _ _ _ _ _ _ _ _ _ _ raw1); [by left|]. vm_compute. reflexivity. }
  assert (H4 : up (mkDsys sent1.1 b3 0 0 ab3 no_traffic)).
  { eapply moved_b; [exact H3|]. refine (d_read _ _ _ _ _ _ _ _ _ _ _ 0 None true _ _ _). vm_compute. reflexivity. }
  assert (H5 : up (mkDsys a4 b4 1 1 ab3 no_traffic)).
  { eapply moved_b; [eapply moved_a; [exact H4|]|]; apply d_rekey; vm_compute; reflexivity. }
  assert (H6 : up (mkDsys a4 sent2.1 1 1 ab3 ba1)).
  { eapply moved_b; [exact H5|].
    refine (d_send _ _ _ _ _ _ _ _ _ _ _ 2000 None (fun _ => Ok tt) 0 [x69] _ _ _). vm_compute. reflexivity. }
  assert (H7 : up (mkDsys a5 sent2.1 1 1 ab3 ba2)).
  { eapply moved_a; [exact H6|]. apply (d_deliver _ _ _ _ _ _ _ _ _ _ _ raw2); [by left|]. vm_compute. reflexivity. }
  assert (H8 : up (mkDsys a5 b5 1 1 ab4 ba2)).
  { eapply moved_b; [exact H7|]. apply (d_foreign _ _ _ _ _ _ _ _ _ _ _ raw1); [|vm_compute; reflexivity].
    intros i c ct E. vm_compute in E. injection E as <- <- <-. vm_compute. reflexivity. }
  eapply moved_a; [exact H8|]. refine (d_read _ _ _ _ _ _ _ _ _ _ _ 0 None true _ _ _). vm_compute. reflexivity.
Qed.

Lemma datagrams_delivered_once_witness : exists s,
  up s /\ ch_read (ds_ab s) = [(5, [x68])] /\ ch_read (ds_ba s) = [(5, [x69])] /\
  ch_read (ds_ba s) ⊆+ (fun t => content t.2) <$> ch_sent (ds_ba s) /\ NoDup (nonce_of <$> ch_sent (ds_ab s)).
Proof.
  exists (mkDsys a6 b5 1 1 ab4 ba3).
  destruct (datagrams_delivered_once New Seal Open Overhead RecordExample.hmac hkdf 1 keys_of 2000 2000 _ exchange_reachable)
    as ((_ & H1) & H2 & _).
  split; [exact exchange_reachable|]. split; [reflexivity|]. split; [reflexivity|]. split; [exact H1|exact H2].
Defined.

Lemma replay_window_exact_witness : replay_run newReplay [5; 5; 2000; 5; 976; 977] = [true; false; true; false; false; true].
Proof. rewrite replay_window_exact; [reflexivity|]. repeat constructor; unfold is_u64; lia. Defined.

Lemma datagram_reaches_endpoint_witness : exists a' b' raw,
  Endpoint_Send Seal 1 (opened RoleClient) 2000 None (fun _ => Ok tt) 0 [x68] = (a', Ok raw) /\
  receive_one Open Overhead 1 (opened RoleServer) raw = (b', Queued 5 1 [x68]) /\
  dm_objects b' !! 0%nat = Some (mkEndpoint 5 [[x68]] false).
Proof.
  exact (datagram_reaches_endpoint New Seal Open Overhead RecordExample.hmac hkdf 1 2000 2000 keys_of _ 2000 0 0
    (mkEndpoint 5 [] false) (mkEndpoint 5 [] false) [x68] opened_reachable eq_refl
    eq_refl eq_refl eq_refl eq_refl eq_refl eq_refl eq_refl eq_refl ltac:(vm_compute; congruence) ltac:(vm_compute; congruence)
    ltac:(vm_compute; congruence) ltac:(vm_compute; congruence)).
Defined.
End DatagramExample.
