(* ===== verification/Negotiation.v ===== *)
(** * Extension negotiation and the forward-secret rekey of a session

    internal/session/negotiation.go and the forward-secrecy half of
    authenticated_extensions.go.  What [mux.ReceiveExtension] returned is an
    argument ([receive]); what [mux.SendExtension] answers is a function of
    the envelope ([send]).  Contexts and nil receivers are not modelled, nor
    the cover engine beyond the decision to switch it to its mosaic mode. *)
From stdpp Require Import prelude list.
From S2P Require Import Prelude Cell Extension Auth Stream Record Datagram.

Definition neg_join (e : error) : error := Join [Sentinel ErrExtensionNegotiation; e].

Definition NegotiateServerExtensions (send : ExtensionEnvelope -> res unit) (receive : res ExtensionEnvelope)
    (offer : ExtensionParameters) (messageID : Z) : res ExtensionParameters :=
  if (messageID =? 0) || (MaxSequence <=? messageID) then Err ErrExtensionNegotiation
  else
    envelope ← map_err neg_join (Envelope offer ExtensionOffer messageID);
    _ ← map_err neg_join (send envelope);
    response ← map_err neg_join receive;
    if negb (env_type response =? ExtensionAccept) || negb (env_message_id response =? u64 (messageID + 1))
    then Err ErrExtensionNegotiation
    else
      accept ← map_err neg_join (ParseExtensionParameters response);
      _ ← map_err neg_join (ValidateExtensionAccept offer accept);
      Ok accept.

(** [negotiateClientExtensions]: the selection and the offer. *)
Definition negotiateClientExtensions (send : ExtensionEnvelope -> res unit) (receive : res ExtensionEnvelope)
    (request : ExtensionParameters) (required : Z) : res (ExtensionParameters * ExtensionParameters) :=
  _ ← map_err neg_join (Envelope request ExtensionAccept 1);
  offerEnvelope ← map_err neg_join receive;
  if negb (env_type offerEnvelope =? ExtensionOffer) || (MaxSequence <=? env_message_id offerEnvelope)
  then Err ErrExtensionNegotiation
  else
    offer ← map_err neg_join (ParseExtensionParameters offerEnvelope);
    let selected := selectExtensionParameters offer request in
    if negb (Z.ldiff required (Capabilities selected) =? 0) then Err ErrRequiredExtension
    else
      _ ← map_err neg_join (ValidateExtensionAccept offer selected);
      acceptEnvelope ← map_err neg_join (Envelope selected ExtensionAccept (u64 (env_message_id offerEnvelope + 1)));
      _ ← map_err neg_join (send acceptEnvelope);
      Ok (selected, offer).

Definition NegotiateClientExtensions (send : ExtensionEnvelope -> res unit) (receive : res ExtensionEnvelope)
    (request : ExtensionParameters) (required : Z) : res ExtensionParameters :=
  '(selected, _) ← negotiateClientExtensions send receive request required;
  Ok selected.

(** [extensionNegotiationState]: [None] until [complete], which counts once. *)
Record negotiationState := mkNegotiation {
  ns_parameters : ExtensionParameters;
  ns_negotiated : bool;
  ns_err : option error
}.

Definition complete (s : option negotiationState) (parameters : ExtensionParameters) (negotiated : bool)
    (e : option error) : option negotiationState :=
  match s with
  | None => Some (mkNegotiation parameters negotiated e)
  | Some _ => s
  end.

(** [Extensions]: what a caller sees. *)
Definition Extensions (s : option negotiationState) : ExtensionParameters * bool :=
  match s with Some s => (ns_parameters s, ns_negotiated s) | None => (zeroParameters, false) end.

(** The extension fields of [AuthenticatedConfig]; the timeout in nanoseconds. *)
Record ExtensionConfig := mkExtensionConfig {
  xc_offer : option ExtensionParameters;
  xc_request : option ExtensionParameters;
  xc_required : Z;
  xc_timeout : Z
}.

Definition validateExtensionConfig (c : ExtensionConfig) : res unit :=
  match xc_offer c, xc_request c with
  | Some _, Some _ => Err ErrSessionConfig
  | offer, request =>
      if negb (xc_required c =? 0) && match request with None => true | _ => false end
      then Err ErrSessionConfig
      else if (xc_timeout c <? 0) || (30 * 1000000000 <? xc_timeout c) then Err ErrSessionConfig
      else
        match offer with
        | Some p => if is_ok (Envelope p ExtensionOffer 1) then Ok tt else Err ErrSessionConfig
        | None =>
            match request with
            | Some p =>
                if negb (Z.ldiff (xc_required c) (Capabilities p) =? 0) then Err ErrSessionConfig
                else if is_ok (Envelope p ExtensionAccept 1) then Ok tt else Err ErrSessionConfig
            | None => Ok tt
            end
        end
  end.

Definition extensionTimeout (configured : Z) : Z := if configured =? 0 then 2 * 1000000000 else configured.

(** The parameters with the forward-secrecy capability and a key share. *)
Definition with_share (p : ExtensionParameters) (share : list byte) : ExtensionParameters :=
  mkParameters (Z.lor (Capabilities p) CapabilityForwardSecrecy) (MaxUDPAssociations p) (MaxUDPPayload p)
    (UDPIdleTimeoutMS p) (MaxSessionReceiveBytes p) (MaxStreamWindowBytes p) (UnreliableDatagramSize p) share.

Section ForwardSecrecy.
Context {aead PrivateKey PublicKey : Type}.
Variable New : list byte -> res aead.
Variable Seal : aead -> list byte -> list byte -> list byte -> list byte.
Variable Open : aead -> list byte -> list byte -> list byte -> option (list byte).
Variable Overhead : aead -> Z.
Variable hmac_sha256 : list byte -> list byte -> list byte.
Variable sha256 : list byte -> list byte.
Variable hkdf_key : list byte -> list byte -> list byte -> nat -> res (list byte).
Variable public_bytes : PrivateKey -> list byte.
Variable NewPublicKey : list byte -> res PublicKey.
Variable ECDH : PrivateKey -> PublicKey -> res (list byte).

Abbreviation KeyPair := (X25519KeyPair PrivateKey).
Abbreviation derive :=
  (DeriveForwardSecretSessionKeys sha256 hkdf_key PrivateKey PublicKey NewPublicKey ECDH).

(** [prepareForwardSecrecy]; [generated] is the outcome of the key generation. *)
Definition prepareForwardSecrecy (enable : bool) (role : Z) (c : ExtensionConfig) (generated : res KeyPair)
    : res (ExtensionConfig * option KeyPair) :=
  if negb (role =? RoleClient) && negb (role =? RoleServer) then Err ErrSessionConfig
  else
    let parameters := if role =? RoleClient then xc_request c else xc_offer c in
    if negb enable then
      match parameters with
      | Some p => if has (Capabilities p) CapabilityForwardSecrecy then Err ErrSessionConfig else Ok (c, None)
      | None => Ok (c, None)
      end
    else
      match parameters with
      | None => Err ErrSessionConfig
      | Some p =>
          pair ← map_err (fun e => Join [Sentinel ErrSessionConfig; e]) generated;
          let p := with_share p (kp_public PrivateKey pair) in
          Ok (if role =? RoleClient
              then mkExtensionConfig (xc_offer c) (Some p) (Z.lor (xc_required c) CapabilityForwardSecrecy) (xc_timeout c)
              else mkExtensionConfig (Some p) (xc_request c) (xc_required c) (xc_timeout c), Some pair)
      end.

(** The one TLV of a confirmation or an acknowledgement. *)
Definition proof_of (envelope : ExtensionEnvelope) (messageID tlvType : Z) : option (list byte) :=
  match env_tlvs envelope with
  | [t] =>
      if negb (env_type envelope =? ExtensionUpdate) || negb (env_message_id envelope =? messageID)
         || negb (tlv_type t =? tlvType) || negb (len (tlv_value t) =? 32)
      then None else Some (tlv_value t)
  | _ => None
  end.

Definition proof_envelope (messageID tlvType : Z) (proof : list byte) : ExtensionEnvelope :=
  mkEnvelope ExtensionUpdate messageID [mkTLV tlvType proof].

(** [if authenticated.Datagrams != nil { ... rekey ... }]. *)
Definition rekeyDatagrams (d : option (DatagramMux (aead := aead))) (keys : SessionKeys)
    : option (DatagramMux (aead := aead)) * res unit :=
  match d with
  | None => (None, Ok tt)
  | Some m => let '(m, r) := Datagram.rekey New hkdf_key m keys in (Some m, map_err neg_join r)
  end.

(** The end of [applyClientForwardSecrecy]: both record layers switch to the
    confirmed keys, and the acknowledgement is made. *)
Definition clientSwitch (c : encryptedCarrier (aead := aead)) (d : option (DatagramMux (aead := aead)))
    (keys : SessionKeys) (server client : list byte)
    : encryptedCarrier * option (DatagramMux (aead := aead)) * res (SessionKeys * ExtensionEnvelope) :=
  match Record.rekey New c keys with
  | (c, Err e) => (c, d, Err (neg_join e))
  | (c, Ok _) =>
      match rekeyDatagrams d keys with
      | (d, Err e) => (c, d, Err e)
      | (d, Ok _) =>
          match ForwardSecretAcknowledgement hmac_sha256 keys server client with
          | Err e => (c, d, Err (neg_join e))
          | Ok ack => (c, d, Ok (keys, proof_envelope 4 ExtensionTLVForwardSecretAck ack))
          end
      end
  end.

(** [applyClientForwardSecrecy] up to the sending of the acknowledgement: the
    rekeyed carrier and datagram path, the new keys and the acknowledgement to
    send. *)
Definition applyClientForwardSecrecy (c : encryptedCarrier (aead := aead))
    (d : option (DatagramMux (aead := aead))) (keys : SessionKeys)
    (local : option KeyPair) (offer selected : ExtensionParameters) (receive : res ExtensionEnvelope)
    : encryptedCarrier * option (DatagramMux (aead := aead)) * res (SessionKeys * ExtensionEnvelope) :=
  match local with
  | None => (c, d, Err ErrExtensionNegotiation)
  | Some _ =>
      if negb (has (Capabilities offer) CapabilityForwardSecrecy) then (c, d, Err ErrExtensionNegotiation)
      else
        let server := ForwardSecretKeyShare offer in
        let client := ForwardSecretKeyShare selected in
        match derive keys local server server client with
        | Err e => (c, d, Err (neg_join e))
        | Ok keys =>
            match receive with
            | Err e => (c, d, Err (neg_join e))
            | Ok confirmation =>
                match proof_of confirmation 3 ExtensionTLVForwardSecretConfirm with
                | None => (c, d, Err (Join [Sentinel ErrExtensionNegotiation]))
                | Some proof =>
                    match ForwardSecretConfirmation hmac_sha256 keys server client with
                    | Err _ => (c, d, Err (neg_join ErrForwardSecrecy))
                    | Ok expected =>
                        if negb (bytes_eq proof expected) then (c, d, Err (neg_join ErrForwardSecrecy))
                        else clientSwitch c d keys server client
                    end
                end
            end
        end
  end.

(** [applyServerForwardSecrecy] up to the sending of the confirmation, which
    [rekeyDatagrams] follows ... *)
Definition applyServerForwardSecrecy (c : encryptedCarrier (aead := aead)) (keys : SessionKeys)
    (local : option KeyPair) (offer selected : ExtensionParameters)
    : encryptedCarrier * res (SessionKeys * ExtensionEnvelope) :=
  match local with
  | None => (c, Err ErrExtensionNegotiation)
  | Some _ =>
      let server := ForwardSecretKeyShare offer in
      let client := ForwardSecretKeyShare selected in
      match derive keys local client server client with
      | Err e => (c, Err (neg_join e))
      | Ok keys =>
          match ForwardSecretConfirmation hmac_sha256 keys server client with
          | Err e => (c, Err (neg_join e))
          | Ok confirmation =>
              match rekeyAfterNextSend New c keys with
              | (c, Err e) => (c, Err (neg_join e))
              | (c, Ok _) => (c, Ok (keys, proof_envelope 3 ExtensionTLVForwardSecretConfirm confirmation))
              end
          end
      end
  end.

(** ... and its check of the acknowledgement. *)
Definition applyServerAcknowledgement (keys : SessionKeys) (offer selected : ExtensionParameters)
    (receive : res ExtensionEnvelope) : res unit :=
  acknowledgement ← map_err neg_join receive;
  match proof_of acknowledgement 4 ExtensionTLVForwardSecretAck with
  | None => Err (Join [Sentinel ErrExtensionNegotiation])
  | Some proof =>
      match ForwardSecretAcknowledgement hmac_sha256 keys (ForwardSecretKeyShare offer) (ForwardSecretKeyShare selected) with
      | Err _ => Err (neg_join ErrForwardSecrecy)
      | Ok expected => if bytes_eq proof expected then Ok tt else Err (neg_join ErrForwardSecrecy)
      end
  end.

(** [applyNegotiatedCover]: the datagram path, and whether the cover engine
    switches to its mosaic mode; [limit] is the carrier's datagram limit. *)
Definition applyNegotiatedCover (d : option (DatagramMux (aead := aead))) (limit : Z)
    (selected : ExtensionParameters) : option (DatagramMux (aead := aead)) * bool :=
  (if has (Capabilities selected) CapabilityUnreliableDatagrams
   then (fun m => (Enable m limit (UnreliableDatagramSize selected)).1) <$> d else d,
   has (Capabilities selected) CapabilityMosaicCover).

(** What a session holds when the negotiation starts. *)
Record Authenticated := mkAuthenticated {
  au_encrypted : encryptedCarrier (aead := aead);
  au_datagrams : option (DatagramMux (aead := aead));
  au_keys : SessionKeys;
  au_extensions : option negotiationState;
  au_mosaic : bool
}.

(** [startClientExtensionNegotiation]: [offer_received] and
    [confirmation_received] are what the two calls of [ReceiveExtension]
    return, [send] answers [SendExtension]. *)
Definition startClientExtensionNegotiation (a : Authenticated) (c : ExtensionConfig) (local : option KeyPair)
    (limit : Z) (send : ExtensionEnvelope -> res unit) (offer_received confirmation_received : res ExtensionEnvelope)
    : Authenticated * res unit :=
  let finish enc d keys p negotiated err mosaic r :=
    (mkAuthenticated enc d keys (complete (au_extensions a) p negotiated err) mosaic, r) in
  let enc := au_encrypted a in let d := au_datagrams a in let keys := au_keys a in
  match xc_request c with
  | None => finish enc d keys zeroParameters false None (au_mosaic a) (Ok tt)
  | Some request =>
      match negotiateClientExtensions send offer_received request (xc_required c) with
      | Err e =>
          finish enc d keys zeroParameters false (Some e) (au_mosaic a)
            (if negb (xc_required c =? 0) then Err e else Ok tt)
      | Ok (selected, offer) =>
          let '(enc, d, keys, r) :=
            if has (Capabilities selected) CapabilityForwardSecrecy then
              match applyClientForwardSecrecy enc d keys local offer selected confirmation_received with
              | (enc, d, Err e) => (enc, d, keys, Err e)
              | (enc, d, Ok (keys, ack)) => (enc, d, keys, map_err neg_join (send ack))
              end
            else (enc, d, keys, Ok tt) in
          match r with
          | Err e => finish enc d keys zeroParameters false (Some e) (au_mosaic a) (Err e)
          | Ok _ =>
              let '(d, mosaic) := applyNegotiatedCover d limit selected in
              finish enc d keys selected true None (au_mosaic a || mosaic) (Ok tt)
          end
      end
  end.
End ForwardSecrecy.

(** ** Agreement *)

(** Masking keeps 64-bit words. *)
Lemma mask_u64 a b : is_u64 a -> is_u64 (Z.land a b) /\ is_u64 (Z.ldiff a b).
Proof.
  intros Ha. unfold is_u64 in *.
  assert (E : Z.land a (Z.ones 64) = a) by (rewrite Z.land_ones by lia; apply Z.mod_small; lia).
  split.
  - replace (Z.land a b) with (Z.land (Z.land a b) (Z.ones 64)).
    + rewrite Z.land_ones by lia. apply Z.mod_pos_bound. lia.
    + rewrite <- E at 2. rewrite <- !Z.land_assoc. f_equal. apply Z.land_comm.
  - replace (Z.ldiff a b) with (Z.land (Z.ldiff a b) (Z.ones 64)).
    + rewrite Z.land_ones by lia. apply Z.mod_pos_bound. lia.
    + rewrite <- E at 2. apply Z.bits_inj'. intros i Hi. rewrite !Z.land_spec, !Z.ldiff_spec, Z.land_spec.
      destruct (Z.testbit a i), (Z.testbit b i), (Z.testbit (Z.ones 64) i); done.
Qed.

Lemma select_typed offer request :
  params_typed offer -> params_typed request -> params_typed (selectExtensionParameters offer request).
Proof.
  unfold params_typed. intros (A1 & A2 & A3 & A4 & A5 & A6 & A7 & A8) (B1 & B2 & B3 & B4 & B5 & B6 & B7 & B8).
  assert (Hland : is_u64 (Z.land (Capabilities offer) (Capabilities request))).
  { by apply mask_u64. }
  assert (Hdiff : is_u64 (Z.ldiff (Z.land (Capabilities offer) (Capabilities request)) CapabilityUnreliableDatagrams))
    by (by apply mask_u64).
  unfold selectExtensionParameters. destruct (negb _); cbn;
    (split; [done|]); unfold is_u64 in *;
    repeat (split; [try lia; try (destruct (has _ _); lia)|]); destruct (has _ CapabilityForwardSecrecy); done.
Qed.

Lemma Envelope_fields p t id env : Envelope p t id = Ok env -> env_type env = t /\ env_message_id env = id.
Proof.
  rewrite Envelope_eq. unfold mbind, res_bind. destruct (validateParameters p); [|done].
  destruct (MarshalEnvelope _); [|done]. by intros [= <-].
Qed.

(** [p] asks for nothing that [q] does not allow. *)
Definition within (p q : ExtensionParameters) : Prop :=
  (forall i, 0 <= i -> Z.testbit (Capabilities p) i = true -> Z.testbit (Capabilities q) i = true) /\
  MaxUDPAssociations p <= MaxUDPAssociations q /\ MaxUDPPayload p <= MaxUDPPayload q /\
  UDPIdleTimeoutMS p <= UDPIdleTimeoutMS q /\ MaxSessionReceiveBytes p <= MaxSessionReceiveBytes q /\
  MaxStreamWindowBytes p <= MaxStreamWindowBytes q /\ UnreliableDatagramSize p <= UnreliableDatagramSize q.

(** Capabilities by their bits, and what valid parameters imply for them. *)
Definition bits_valid (p : ExtensionParameters) : Prop :=
  (Z.testbit (Capabilities p) 0 = false ->
     MaxUDPAssociations p = 0 /\ MaxUDPPayload p = 0 /\ UDPIdleTimeoutMS p = 0 /\
     Z.testbit (Capabilities p) 1 = false) /\
  (Z.testbit (Capabilities p) 1 = false -> UnreliableDatagramSize p = 0) /\
  0 <= MaxUDPAssociations p /\ 0 <= MaxUDPPayload p /\ 0 <= UDPIdleTimeoutMS p /\
  0 <= UnreliableDatagramSize p.

Lemma params_bits p : params_valid p -> bits_valid p.
Proof.
  unfold params_valid, bits_valid, CapabilityReliableUDP, CapabilityUnreliableDatagrams,
    minUnreliablePayload, minUDPAssociations, minUDPPayload, minUDPIdleTimeoutMS.
  rewrite !has_testbit by lia.
  destruct (Z.testbit (Capabilities p) 0), (Z.testbit (Capabilities p) 1);
    intros (_ & _ & _ & V0 & V0' & V1 & V1' & _);
    repeat match goal with H : ?b = ?b -> _ |- _ => specialize (H eq_refl) end;
    destruct_and?; split_and!; intros; try done; lia.
Qed.

(** The capabilities of the selection are exactly those of both sides. *)
Lemma select_capabilities offer request i :
  bits_valid offer -> bits_valid request -> 0 <= i ->
  Z.testbit (Capabilities (selectExtensionParameters offer request)) i
  = Z.testbit (Capabilities offer) i && Z.testbit (Capabilities request) i.
Proof.
  intros (Vo & _) (Vr & _) Hi. unfold selectExtensionParameters, CapabilityReliableUDP.
  rewrite has_testbit, Z.land_spec by lia.
  destruct (_ && _) eqn:E; cbn [negb Capabilities]; [by rewrite Z.land_spec|].
  unfold CapabilityUnreliableDatagrams. rewrite Z.shiftl_1_l, Z.ldiff_spec, Z.land_spec.
  destruct (decide (i = 1)) as [->|Hne]; [|rewrite Z.pow2_bits_false by done; apply andb_true_r].
  apply andb_false_iff in E as [E|E]; [destruct (Vo E) as (_ & _ & _ & ->)|destruct (Vr E) as (_ & _ & _ & ->)];
    by rewrite ?andb_false_r.
Qed.

Lemma select_numbers offer request :
  let selected := selectExtensionParameters offer request in
  let both k := Z.testbit (Capabilities offer) k && Z.testbit (Capabilities request) k in
  let when (b : bool) n := if b then n else 0 in
  MaxUDPAssociations selected = when (both 0) (Z.min (MaxUDPAssociations offer) (MaxUDPAssociations request)) /\
  MaxUDPPayload selected = when (both 0) (Z.min (MaxUDPPayload offer) (MaxUDPPayload request)) /\
  UDPIdleTimeoutMS selected = when (both 0) (Z.min (UDPIdleTimeoutMS offer) (UDPIdleTimeoutMS request)) /\
  MaxSessionReceiveBytes selected = Z.min (MaxSessionReceiveBytes offer) (MaxSessionReceiveBytes request) /\
  MaxStreamWindowBytes selected = Z.min (MaxStreamWindowBytes offer) (MaxStreamWindowBytes request) /\
  UnreliableDatagramSize selected
  = when (both 0 && both 1) (Z.min (UnreliableDatagramSize offer) (UnreliableDatagramSize request)).
Proof.
  cbn zeta. unfold selectExtensionParameters, CapabilityReliableUDP, CapabilityUnreliableDatagrams.
  rewrite !has_testbit, !Z.land_spec by lia.
  by destruct (_ && Z.testbit (Capabilities request) 0), (_ && Z.testbit (Capabilities request) 1).
Qed.

(** The selection is the greatest set of parameters within both. *)
Lemma select_greatest offer request :
  bits_valid offer -> bits_valid request ->
  let selected := selectExtensionParameters offer request in
  within selected offer /\ within selected request /\
  forall p, bits_valid p -> within p offer -> within p request -> within p selected.
Proof.
  intros Vo Vr. cbn zeta. pose proof (select_capabilities offer request) as Hc.
  pose proof (select_numbers offer request) as Hn. cbn zeta in Hn.
  destruct Hn as (N1 & N2 & N3 & N4 & N5 & N6).
  unfold within. rewrite ?N1, ?N2, ?N3, ?N4, ?N5, ?N6.
  assert (Hb : forall i, 0 <= i -> Z.testbit (Capabilities (selectExtensionParameters offer request)) i = true <->
    Z.testbit (Capabilities offer) i = true /\ Z.testbit (Capabilities request) i = true).
  { intros i Hi. rewrite Hc by done. apply andb_true_iff. }
  destruct Vo as (_ & _ & ? & ? & ? & ?), Vr as (_ & _ & ? & ? & ? & ?).
  split; [|split].
  - split; [intros i Hi Hs%Hb; tauto|]. repeat case_match; lia.
  - split; [intros i Hi Hs%Hb; tauto|]. repeat case_match; lia.
  - intros p (V0 & V1 & ? & ? & ? & ?) (Ho & O1 & O2 & O3 & O4 & O5 & O6) (Hr & R1 & R2 & R3 & R4 & R5 & R6).
    split; [intros i Hi Hs; apply Hb; auto|].
    pose proof (Ho 0 ltac:(lia)). pose proof (Ho 1 ltac:(lia)).
    pose proof (Hr 0 ltac:(lia)). pose proof (Hr 1 ltac:(lia)).
    destruct (Z.testbit (Capabilities p) 0), (Z.testbit (Capabilities p) 1),
      (Z.testbit (Capabilities offer) 0), (Z.testbit (Capabilities request) 0),
      (Z.testbit (Capabilities offer) 1), (Z.testbit (Capabilities request) 1);
      cbn [andb]; repeat match goal with H : ?b = ?b -> _ |- _ => specialize (H eq_refl) end;
      destruct_and?; try done; split_and!; lia.
Qed.

(** C14: when client and server run the negotiation against each other with
    valid parameters, both end with the same selection.  It is the greatest
    one within both sets: its capabilities are among those of the client's
    request and of the server's offer, none of its numbers exceeds either
    side's, and every valid set of parameters within both is within it; the
    key share of forward secrecy is the client's.  A capability the client
    requires and the selection lacks stops the client instead. *)
Theorem negotiation_agreement offer request required id :
  params_typed offer -> params_valid offer -> params_typed request -> params_valid request ->
  0 < id < MaxSequence ->
  let accepts := fun _ : ExtensionEnvelope => Ok tt in
  exists e1 e2 selected,
    Envelope offer ExtensionOffer id = Ok e1 /\ Envelope selected ExtensionAccept (id + 1) = Ok e2 /\
    NegotiateServerExtensions accepts (Ok e2) offer id = Ok selected /\
    negotiateClientExtensions accepts (Ok e1) request required
    = (if Z.ldiff required (Capabilities selected) =? 0 then Ok (selected, offer) else Err ErrRequiredExtension) /\
    params_valid selected /\ within selected offer /\ within selected request /\
    (forall p, params_valid p -> within p offer -> within p request -> within p selected) /\
    (has (Capabilities selected) CapabilityForwardSecrecy = true ->
       ForwardSecretKeyShare selected = ForwardSecretKeyShare request).
Proof.
  intros To Vo Tr Vr Hid. cbn zeta. set (selected := selectExtensionParameters offer request).
  destruct (select_greatest offer request (params_bits _ Vo) (params_bits _ Vr)) as (W1 & W2 & W3).
  assert (Ts : params_typed selected) by (by apply select_typed).
  assert (Vs : params_valid selected) by (by apply select_valid).
  assert (Hb : ValidateExtensionAccept offer selected = Ok tt) by (by apply select_bounded).
  rewrite MaxSequence_eq in Hid.
  destruct (params_roundtrip offer ExtensionOffer id To Vo eq_refl) as (e1 & _ & H1 & _ & _ & P1);
    [rewrite MaxSequence_eq; lia|].
  destruct (params_roundtrip selected ExtensionAccept (id + 1) Ts Vs eq_refl) as (e2 & _ & H2 & _ & _ & P2);
    [rewrite MaxSequence_eq; lia|].
  destruct (params_roundtrip request ExtensionAccept 1 Tr Vr eq_refl) as (e3 & _ & H3 & _);
    [rewrite MaxSequence_eq; lia|].
  destruct (Envelope_fields _ _ _ _ H1) as [F1 F1']. destruct (Envelope_fields _ _ _ _ H2) as [F2 F2'].
  assert (Hu : u64 (id + 1) = id + 1) by (apply u64_small; unfold is_u64; lia).
  exists e1, e2, selected. split; [done|]. split; [done|]. split; [|split].
  - unfold NegotiateServerExtensions. rewrite MaxSequence_eq.
    rewrite (proj2 (Z.eqb_neq _ _)), (proj2 (Z.leb_gt _ _)) by lia. cbn [orb].
    rewrite H1. cbn [map_err mbind res_bind]. rewrite F2, F2', Hu, !Z.eqb_refl. cbn [negb orb].
    rewrite P2. cbn [map_err mbind res_bind]. rewrite Hb. done.
  - unfold negotiateClientExtensions. rewrite H3. cbn [map_err mbind res_bind].
    rewrite F1, F1', Z.eqb_refl, MaxSequence_eq, (proj2 (Z.leb_gt _ _)) by lia. cbn [negb orb].
    rewrite P1. cbn [map_err mbind res_bind]. fold selected.
    destruct (Z.ldiff required (Capabilities selected) =? 0); cbn [negb]; [|done].
    rewrite Hb. cbn [map_err mbind res_bind]. rewrite Hu, H2. done.
  - split; [done|]. split; [done|]. split; [done|]. split; [intros p ?%params_bits; by apply W3|].
    subst selected. unfold selectExtensionParameters, CapabilityForwardSecrecy, CapabilityUnreliableDatagrams.
    destruct (negb _); cbn; rewrite ?has_ldiff, ?andb_true_r by lia; by intros ->.
Qed.

(** The exchange of confirmation and acknowledgement performs the rekey of
    the record layer: same new keys on both ends. *)
Section Handover.
Context {aead PrivateKey PublicKey : Type}.
Context {New : list byte -> res aead} {Seal : aead -> list byte -> list byte -> list byte -> list byte}.
Context {Open : aead -> list byte -> list byte -> list byte -> option (list byte)}.
Context {Overhead : aead -> Z} {hmac_sha256 : list byte -> list byte -> list byte} {kind : Z}.
Context {laws : RecordCrypto New Seal Open Overhead hmac_sha256}.
Variable sha256 : list byte -> list byte.
Variable hkdf_key : list byte -> list byte -> list byte -> nat -> res (list byte).
Variable public_bytes : PrivateKey -> list byte.
Variable NewPublicKey : list byte -> res PublicKey.
Variable ECDH : PrivateKey -> PublicKey -> res (list byte).

Lemma proof_of_envelope id t proof :
  length proof = 32%nat -> proof_of (proof_envelope id t proof) id t = Some proof.
Proof. intros H. unfold proof_of, proof_envelope, len. cbn. by rewrite !Z.eqb_refl, H. Qed.

Lemma forwardSecretProof_length keys server client label proof :
  forwardSecretProof hmac_sha256 keys server client label = Ok proof -> length proof = 32%nat.
Proof. unfold forwardSecretProof. destruct (_ || _ || _); [done|]. intros [= <-]. pose proof (@hmac_len _ _ _ _ _ _ laws) as H. apply H. Qed.

(** A proof exists exactly when the keys and shares are not zero. *)
Lemma forwardSecretProof_total keys server client label label' proof :
  forwardSecretProof hmac_sha256 keys server client label = Ok proof ->
  exists proof', forwardSecretProof hmac_sha256 keys server client label' = Ok proof'.
Proof. unfold forwardSecretProof. destruct (_ || _ || _); [done|]. eauto. Qed.

(** C13: after a negotiation that selected forward secrecy, the server's
    confirmation, sent over the record layer, makes the client derive the
    same keys, switch to them and answer with an acknowledgement the server
    accepts; the two record layers are again in step. *)
Theorem forward_secrecy_handover base keys s offer selected ks kc pairS pairC pS pC b1 b2 a1 kb conf p p' r da db db' :
  (forall x y px py, NewPublicKey (public_bytes x) = Ok px ->
     NewPublicKey (public_bytes y) = Ok py -> ECDH x py = ECDH y px) ->
  x25519KeyPair PrivateKey public_bytes (Some ks) = Ok pairS ->
  x25519KeyPair PrivateKey public_bytes (Some kc) = Ok pairC ->
  NewPublicKey (public_bytes ks) = Ok pS -> NewPublicKey (public_bytes kc) = Ok pC ->
  ForwardSecretKeyShare offer = public_bytes ks -> ForwardSecretKeyShare selected = public_bytes kc ->
  has (Capabilities offer) CapabilityForwardSecrecy = true ->
  sys_reachable New Seal Open Overhead hmac_sha256 kind keys s -> sy_ab s = [] -> sy_ba s = [] ->
  applyServerForwardSecrecy New hmac_sha256 sha256 hkdf_key NewPublicKey ECDH (sy_b s) base (Some pairS) offer selected
    = (b1, Ok (kb, conf)) ->
  Send New Seal hmac_sha256 kind b1 accepts p = (b2, Ok r) ->
  Receive New Open Overhead hmac_sha256 kind (sy_a s) (Ok r) = (a1, Ok p') ->
  dm_sendDirection da = recordDirectionClientToServer -> dm_recvDirection da = recordDirectionServerToClient ->
  dm_sendDirection db = recordDirectionServerToClient -> dm_recvDirection db = recordDirectionClientToServer ->
  rekeyDatagrams New hkdf_key (Some db) kb = (Some db', Ok tt) ->
  exists a2 da' ack,
    applyClientForwardSecrecy New hmac_sha256 sha256 hkdf_key NewPublicKey ECDH a1 (Some da) base (Some pairC) offer selected (Ok conf)
      = (a2, Some da', Ok (kb, ack)) /\ peers da' db' /\ peers db' da' /\
    applyServerAcknowledgement hmac_sha256 kb offer selected (Ok ack) = Ok tt /\
    sys_reachable New Seal Open Overhead hmac_sha256 kind keys
      (mkSystem a2 b2 [] [] (sy_sent_ab s) (sy_got_ab s) (sy_sent_ba s ++ [p]) (sy_got_ba s ++ [p'])).
Proof.
  intros Hdh HpS HpC HnS HnC Ho Hs Hcap Hr Hab Hba Hserver Hsend Hrecv Da1 Da2 Db1 Db2 Hdb.
  destruct (datagram_rekey_match New hkdf_key da db kb db' Da1 Da2 Db1 Db2) as (da' & Hda & Hp1 & Hp2).
  { unfold rekeyDatagrams in Hdb. by destruct (Datagram.rekey _ _ db kb) as [? [[]|]]; [injection Hdb as ->|]. }
  pose proof (forward_secret_agrees sha256 hkdf_key PrivateKey PublicKey public_bytes NewPublicKey ECDH
    base ks kc pairS pairC pS pC Hdh HpS HpC HnS HnC) as Hagree. cbn zeta in Hagree.
  unfold applyServerForwardSecrecy in Hserver. rewrite Ho, Hs, Hagree in Hserver.
  destruct (DeriveForwardSecretSessionKeys _ _ _ _ _ _ _ (Some pairC) _ _ _) as [k|] eqn:Ek; [|done].
  destruct (ForwardSecretConfirmation _ k _ _) as [proof|] eqn:Ec; [|done].
  destruct (rekeyAfterNextSend New (sy_b s) k) as [b0 [u|]] eqn:Eb; [|done].
  injection Hserver as -> -> <-. destruct u.
  assert (Hpl : length proof = 32%nat) by (by eapply forwardSecretProof_length).
  destruct (forwardSecretProof_total _ _ _ _ (bytes_of "NP2 forward secrecy acknowledged" ++ [x00]) _ Ec) as [ack Eack].
  assert (Hal : length ack = 32%nat) by (by eapply forwardSecretProof_length).
  assert (Hrk : exists a2, Record.rekey New a1 kb = (a2, Ok tt)).
  { unfold rekeyAfterNextSend in Eb. destruct (prepareRekey New (sy_b s) kb) as [tb|] eqn:Etb; [|done].
    unfold Record.rekey. unfold prepareRekey, role_keys, mbind, res_bind in *.
    destruct (keys_missing kb); [done|].
    destruct (sendDirection (sy_b s) =? _), (sendDirection a1 =? _);
      destruct (New (sk_c2s kb)), (New (sk_s2c kb)); try done; eauto. }
  destruct Hrk as [a2 Ea2].
  exists a2, da', (proof_envelope 4 ExtensionTLVForwardSecretAck ack). split; [|split_and!; [done..| |]].
  - unfold applyClientForwardSecrecy. rewrite Hcap, Ho, Hs, Ek. cbn [negb].
    rewrite proof_of_envelope by done. rewrite Ec, bytes_eq_refl. cbn [negb].
    unfold clientSwitch, rekeyDatagrams. rewrite Ea2, Hda. cbn [map_err]. unfold ForwardSecretAcknowledgement. by rewrite Eack.
  - unfold applyServerAcknowledgement. cbn [map_err mbind res_bind]. rewrite proof_of_envelope by done.
    rewrite Ho, Hs. unfold ForwardSecretAcknowledgement. by rewrite Eack, bytes_eq_refl.
  - destruct s as [a b ab ba sab gab sba gba]. cbn in *. subst ab ba.
    eapply sys_more; [exact Hr|]. eapply sys_rekey; eauto.
Qed.

Lemma required_selected required caps :
  has required CapabilityForwardSecrecy = true -> Z.ldiff required caps = 0 -> has caps CapabilityForwardSecrecy = true.
Proof.
  unfold CapabilityForwardSecrecy. rewrite !has_testbit by lia. intros H E.
  apply (f_equal (fun z => Z.testbit z 6)) in E. rewrite Z.ldiff_spec, Z.bits_0, H in E.
  by apply negb_false_iff in E.
Qed.

Lemma has_lor a : has (Z.lor a CapabilityForwardSecrecy) CapabilityForwardSecrecy = true.
Proof. unfold CapabilityForwardSecrecy. rewrite has_testbit, Z.lor_spec by lia. rewrite orb_true_iff. by right. Qed.

(** The client switches only to keys that the server has confirmed. *)
Lemma client_applies c d keys local offer selected received c' d' keys' ack :
  applyClientForwardSecrecy New hmac_sha256 sha256 hkdf_key NewPublicKey ECDH c d keys local offer selected received
    = (c', d', Ok (keys', ack)) ->
  let server := ForwardSecretKeyShare offer in let client := ForwardSecretKeyShare selected in
  DeriveForwardSecretSessionKeys sha256 hkdf_key PrivateKey PublicKey NewPublicKey ECDH keys local server server client = Ok keys' /\
  Record.rekey New c keys' = (c', Ok tt) /\
  exists confirmation proof, received = Ok confirmation /\
    proof_of confirmation 3 ExtensionTLVForwardSecretConfirm = Some proof /\
    ForwardSecretConfirmation hmac_sha256 keys' server client = Ok proof.
Proof.
  unfold applyClientForwardSecrecy. destruct local as [pair|]; [|done]. destruct (negb _); [done|].
  destruct (DeriveForwardSecretSessionKeys _ _ _ _ _ _ _ _ _ _ _) as [k|] eqn:Ek; [|done].
  destruct received as [conf|]; [|done]. destruct (proof_of _ _ _) as [proof|] eqn:Ep; [|done].
  destruct (ForwardSecretConfirmation _ _ _ _) as [expected|] eqn:Ec; [|done].
  destruct (bytes_eq proof expected) eqn:Eb; [|done]. apply bytes_eq_true in Eb as ->. cbn [negb].
  unfold clientSwitch. destruct (Record.rekey New c k) as [c1 [[]|]] eqn:Er; [|done].
  destruct (rekeyDatagrams _ _ d k) as [d1 [[]|]]; [|done].
  destruct (ForwardSecretAcknowledgement _ _ _ _); [|done]. intros [= <- <- <- <-].
  split; [done|]. split; [done|]. by exists conf, expected.
Qed.

(** forward secrecy can not be negotiated away: when the client enabled
    it and the negotiation returned without an error, the selection has the
    capability, the record layer runs on keys derived from the exchange of
    both key shares, and the server has confirmed these keys. *)
Theorem forward_secrecy_not_downgraded c c' generated local (a a' : Authenticated) limit send offered confirmed :
  prepareForwardSecrecy true RoleClient c generated = Ok (c', local) -> au_extensions a = None ->
  startClientExtensionNegotiation New hmac_sha256 sha256 hkdf_key NewPublicKey ECDH a c' local limit send offered confirmed
    = (a', Ok tt) ->
  exists selected server proof,
    au_extensions a' = Some (mkNegotiation selected true None) /\
    has (Capabilities selected) CapabilityForwardSecrecy = true /\
    DeriveForwardSecretSessionKeys sha256 hkdf_key PrivateKey PublicKey NewPublicKey ECDH (au_keys a) local
      server server (ForwardSecretKeyShare selected) = Ok (au_keys a') /\
    Record.rekey New (au_encrypted a) (au_keys a') = (au_encrypted a', Ok tt) /\
    ForwardSecretConfirmation hmac_sha256 (au_keys a') server (ForwardSecretKeyShare selected) = Ok proof /\
    exists confirmation, confirmed = Ok confirmation /\
      proof_of confirmation 3 ExtensionTLVForwardSecretConfirm = Some proof.
Proof.
  intros Hp Hx. assert (Hc : exists request, xc_request c' = Some request /\ has (xc_required c') CapabilityForwardSecrecy = true).
  { unfold prepareForwardSecrecy in Hp. cbn in Hp. destruct (xc_request c) as [p|]; [|done].
    destruct generated as [pair|]; [|done]. injection Hp as <- _. eexists. split; [done|]. apply has_lor. }
  destruct Hc as (request & Hreq & Hhas). unfold startClientExtensionNegotiation. rewrite Hreq, Hx.
  destruct (negotiateClientExtensions _ _ _ _) as [[selected offer]|e] eqn:En; cycle 1.
  { destruct (Z.eqb_spec (xc_required c') 0) as [E|]; [by rewrite E in Hhas|done]. }
  assert (Hsel : has (Capabilities selected) CapabilityForwardSecrecy = true).
  { unfold negotiateClientExtensions in En. inv_res. guards. zb. by eapply required_selected. }
  rewrite Hsel. destruct (applyClientForwardSecrecy _ _ _ _ _ _ _ _ _ _ _ _ _) as [[enc d] [[keys ack]|e]] eqn:Ea; [|done].
  apply client_applies in Ea as (Ek & Er & conf & proof & -> & Hproof & Hconf).
  destruct (send ack); [|done]. cbn [map_err]. destruct (applyNegotiatedCover d limit selected) as [d' mosaic]. intros [= <-].
  cbn. exists selected, (ForwardSecretKeyShare offer), proof. split_and!; try done. by exists conf.
Qed.
End Handover.

Module NegotiationExample.

Definition offer : ExtensionParameters := ExtensionExample.parameters.
Definition request : ExtensionParameters :=
  mkParameters 1 8 1300 30000 (2 * 1024 * 1024) (128 * 1024) 0 (zeros 32).

Lemma request_typed : params_typed request.
Proof. unfold params_typed, is_u64. cbn. split_and!; try lia; done. Qed.

Lemma request_valid : params_valid request.
Proof. apply (validateParameters_ok request tt). vm_compute. reflexivity. Qed.

Lemma negotiation_agreement_witness : exists e2 selected,
  NegotiateServerExtensions (fun _ => Ok tt) (Ok e2) offer 1 = Ok selected /\
  within selected offer /\ within selected request.
Proof.
  destruct (negotiation_agreement offer request 1 1 ExtensionExample.parameters_typed
    ExtensionExample.parameters_valid request_typed request_valid)
    as (_ & e2 & selected & _ & _ & H & _ & _ & H1 & H2 & _).
  { rewrite MaxSequence_eq. lia. }
  by exists e2, selected.
Defined.

Import RecordExample.

Definition fs_offer : ExtensionParameters := with_share offer (replicate 32 x0a).
Definition fs_selected : ExtensionParameters := with_share offer (replicate 32 x0b).
Definition pair (k : list byte) : X25519KeyPair (list byte) := mkKeyPair _ (Some k) k.

Definition server_carrier : encryptedCarrier (aead := list byte) :=
  mkCarrier (replicate 32 x02) (replicate 32 x01) (replicate 32 x02) (replicate 32 x01)
    (replicate 4 x04) (replicate 4 x03) 2 1 0 0 0 0 0 None false.

Lemma fresh : sys_reachable New Seal Open (fun _ => 16) hmac 1 keys1
  (mkSystem client server_carrier [] [] [] [] [] []).
Proof. apply sys_new; vm_compute; reflexivity. Qed.

Abbreviation server_apply :=
  (applyServerForwardSecrecy New hmac AuthExample.sha AuthExample.hkdf AuthExample.NewPublicKey AuthExample.ECDH).
Abbreviation client_apply :=
  (applyClientForwardSecrecy New hmac AuthExample.sha AuthExample.hkdf AuthExample.NewPublicKey AuthExample.ECDH).

Abbreviation client_datagrams := (DatagramExample.fresh RoleClient).
Abbreviation server_datagrams := (DatagramExample.fresh RoleServer).

Lemma forward_secrecy_handover_witness : exists b1 kb conf a1 a2 da' db' ack,
  server_apply server_carrier AuthExample.base (Some (pair (replicate 32 x0a))) fs_offer fs_selected
    = (b1, Ok (kb, conf)) /\
  client_apply a1 (Some client_datagrams) AuthExample.base (Some (pair (replicate 32 x0b))) fs_offer fs_selected (Ok conf)
    = (a2, Some da', Ok (kb, ack)) /\ peers da' db'.
Proof.
  destruct (server_apply server_carrier AuthExample.base (Some (pair (replicate 32 x0a))) fs_offer fs_selected)
    as [b1 [[kb conf]|e]] eqn:E1; [|vm_compute in E1; discriminate E1].
  destruct (Send New Seal hmac 1 b1 accepts [x63]) as [b2 [r|e]] eqn:E2;
    [|vm_compute in E1; injection E1 as <- _ _; vm_compute in E2; discriminate E2].
  destruct (Receive New Open (fun _ => 16) hmac 1 client (Ok r)) as [a1 [p'|e]] eqn:E3;
    [|vm_compute in E1; injection E1 as <- _ _; vm_compute in E2; injection E2 as _ <-;
      vm_compute in E3; discriminate E3].
  destruct (rekeyDatagrams New AuthExample.hkdf (Some server_datagrams) kb) as [[db'|] [[]|e]] eqn:E4;
    try (vm_compute in E1; injection E1 as _ <- _; vm_compute in E4; discriminate E4).
  assert (Hdh : forall x y px py, AuthExample.NewPublicKey (AuthExample.public_bytes x) = Ok px ->
    AuthExample.NewPublicKey (AuthExample.public_bytes y) = Ok py -> AuthExample.ECDH x py = AuthExample.ECDH y px).
  { intros x y px py [= <-] [= <-]. unfold AuthExample.ECDH, AuthExample.public_bytes. by rewrite Z.add_comm. }
  destruct (forward_secrecy_handover AuthExample.sha AuthExample.hkdf AuthExample.public_bytes
    AuthExample.NewPublicKey AuthExample.ECDH AuthExample.base keys1
    (mkSystem client server_carrier [] [] [] [] [] []) fs_offer fs_selected
    (replicate 32 x0a) (replicate 32 x0b) (pair (replicate 32 x0a)) (pair (replicate 32 x0b))
    (replicate 32 x0a) (replicate 32 x0b) b1 b2 a1 kb conf [x63] p' r client_datagrams server_datagrams db'
    Hdh eq_refl eq_refl eq_refl eq_refl eq_refl eq_refl eq_refl fresh eq_refl eq_refl E1 E2 E3
    eq_refl eq_refl eq_refl eq_refl E4)
    as (a2 & da' & ack & H & Hp & _).
  exists b1, kb, conf, a1, a2, da', db', ack. exact (conj eq_refl (conj H Hp)).
Defined.

(** A client that enabled forward secrecy, and the server's two messages. *)
Definition config : ExtensionConfig := mkExtensionConfig None (Some request) 0 0.
Definition prepared := prepareForwardSecrecy true RoleClient config (Ok (pair (replicate 32 x0b))).
Definition config' : ExtensionConfig := match prepared with Ok (c, _) => c | Err _ => config end.
Definition offered : res ExtensionEnvelope := Envelope fs_offer ExtensionOffer 1.
Definition agreed : ExtensionParameters := selectExtensionParameters fs_offer (with_share request (replicate 32 x0b)).
Definition confirmed : res ExtensionEnvelope :=
  match (server_apply server_carrier AuthExample.base (Some (pair (replicate 32 x0a))) fs_offer agreed).2 with
  | Ok (_, conf) => Ok conf
  | Err e => Err e
  end.
Definition session : Authenticated := mkAuthenticated client None AuthExample.base None false.
Definition started :=
  startClientExtensionNegotiation New hmac AuthExample.sha AuthExample.hkdf AuthExample.NewPublicKey AuthExample.ECDH
    session config' (Some (pair (replicate 32 x0b))) 0 (fun _ => Ok tt) offered confirmed.

Lemma forward_secrecy_not_downgraded_witness : exists selected,
  au_extensions started.1 = Some (mkNegotiation selected true None) /\
  has (Capabilities selected) CapabilityForwardSecrecy = true.
Proof.
  destruct (forward_secrecy_not_downgraded (New := New) (hmac_sha256 := hmac) AuthExample.sha AuthExample.hkdf AuthExample.NewPublicKey AuthExample.ECDH
    config config' (Ok (pair (replicate 32 x0b))) (Some (pair (replicate 32 x0b))) session started.1 0 (fun _ => Ok tt)
    offered confirmed) as (selected & server & proof & H1 & H2 & _).
  - vm_compute. reflexivity.
  - reflexivity.
  - assert (E : started.2 = Ok tt) by (vm_compute; reflexivity).
    change (started = (started.1, Ok tt)). revert E. generalize started. intros [s r]. cbn. by intros ->.
  - exists selected. exact (conj H1 H2).
Defined.
End NegotiationExample.
