(* ===== verification/Journal.v ===== *)
(** * The replay journal (internal/continuity/journal.go)

    A bounded circular buffer of the bytes of one direction of a logical flow
    that the peer has not acknowledged.  The concrete ring (buffer, head, size,
    offsets, zeroing of retired bytes) is modelled operation by operation and
    shown to refine an abstract replay log: a base offset and the list of the
    retained bytes.  Methods are those of a non-nil receiver. *)
From stdpp Require Import prelude list.
From S2P Require Import Prelude Cell Slices.

Definition MaxJournalCapacity : Z := 64 * 1024 * 1024.

Record Journal := mkJournal {
  j_buffer : list byte;
  j_head : Z;
  j_size : Z;
  j_base : Z;
  j_end : Z;
  j_closed : bool
}.

Record JournalState := mkJournalState {
  BaseOffset : Z; EndOffset : Z; BufferedBytes : Z; CapacityBytes : Z; Closed : bool
}.

(** [copy(buffer[pos:pos+len(src)], src)]. *)
Definition write_at (buffer : list byte) (pos : Z) (src : list byte) : list byte :=
  take (Z.to_nat pos) buffer ++ src ++ drop (Z.to_nat pos + length src) buffer.

(** [clear(buffer[pos:pos+n])]. *)
Definition clear_at (buffer : list byte) (pos n : Z) : list byte :=
  write_at buffer pos (zeros (Z.to_nat n)).

Definition NewJournal (capacity : Z) : res Journal :=
  if (capacity <=? 0) || (MaxJournalCapacity <? capacity) then Err ErrReplayConfig
  else Ok (mkJournal (zeros (Z.to_nat capacity)) 0 0 0 0 false).

Definition Append (j : Journal) (payload : list byte) : Journal * res (Z * Z) :=
  if j_closed j then (j, Err ErrReplayClosed)
  else if len (j_buffer j) - j_size j <? len payload then (j, Err ErrReplayBudget)
  else if u64 (MaxSequence - j_end j) <? len payload then (j, Err ErrReplayOverflow)
  else
    let start := j_end j in
    if len payload =? 0 then (j, Ok (start, start))
    else
      let tail := (j_head j + j_size j) mod len (j_buffer j) in
      let first := Z.min (len payload) (len (j_buffer j) - tail) in
      let buffer := write_at (j_buffer j) tail (take (Z.to_nat first) payload) in
      let buffer := write_at buffer 0 (drop (Z.to_nat first) payload) in
      let end_ := u64 (j_end j + len payload) in
      (mkJournal buffer (j_head j) (j_size j + len payload) (j_base j) end_ false,
       Ok (start, end_)).

Definition clearLocked (buffer : list byte) (start length : Z) : list byte :=
  let first := Z.min length (len buffer - start) in
  clear_at (clear_at buffer start first) 0 (length - first).

Definition Ack (j : Journal) (offset : Z) : Journal * res unit :=
  if j_closed j then (j, Err ErrReplayClosed)
  else if (offset <? j_base j) || (j_end j <? offset) then (j, Err ErrReplayOffset)
  else
    let retire := offset - j_base j in
    if retire =? 0 then (j, Ok tt)
    else
      let buffer := clearLocked (j_buffer j) (j_head j) retire in
      let head := (j_head j + retire) mod len buffer in
      let size := j_size j - retire in
      (mkJournal buffer (if size =? 0 then 0 else head) size offset (j_end j) false, Ok tt).

(** The bytes copied into a destination of [room] bytes, and the next offset. *)
Definition Replay (j : Journal) (offset room : Z) : res (list byte * Z) :=
  if j_closed j then Err ErrReplayClosed
  else if (offset <? j_base j) || (j_end j <? offset) then Err ErrReplayOffset
  else
    let available := j_end j - offset in
    let length := Z.min room available in
    if length =? 0 then Ok ([], offset)
    else
      let start := (j_head j + (offset - j_base j)) mod len (j_buffer j) in
      let first := Z.min length (len (j_buffer j) - start) in
      Ok (slice (j_buffer j) start (start + first) ++ slice (j_buffer j) 0 (length - first),
          u64 (offset + length)).

Definition State (j : Journal) : JournalState :=
  mkJournalState (j_base j) (j_end j) (j_size j) (len (j_buffer j)) (j_closed j).

Definition Close (j : Journal) : Journal :=
  if j_closed j then j else mkJournal [] 0 0 (j_base j) (j_end j) true.

(** ** The abstract replay log *)

(** An open log: the capacity, the base offset and the retained bytes. *)
Record log := mkLog { lg_capacity : Z; lg_base : Z; lg_bytes : list byte }.

Definition log_end (g : log) : Z := lg_base g + len (lg_bytes g).

Definition log_append (g : log) (p : list byte) : log * res (Z * Z) :=
  if lg_capacity g - len (lg_bytes g) <? len p then (g, Err ErrReplayBudget)
  else if MaxSequence - log_end g <? len p then (g, Err ErrReplayOverflow)
  else (mkLog (lg_capacity g) (lg_base g) (lg_bytes g ++ p),
        Ok (log_end g, log_end g + len p)).

Definition log_ack (g : log) (offset : Z) : log * res unit :=
  if (offset <? lg_base g) || (log_end g <? offset) then (g, Err ErrReplayOffset)
  else (mkLog (lg_capacity g) offset (drop (Z.to_nat (offset - lg_base g)) (lg_bytes g)), Ok tt).

Definition log_replay (g : log) (offset room : Z) : res (list byte * Z) :=
  if (offset <? lg_base g) || (log_end g <? offset) then Err ErrReplayOffset
  else
    let bs := take (Z.to_nat room) (drop (Z.to_nat (offset - lg_base g)) (lg_bytes g)) in
    Ok (bs, offset + len bs).

(** The log with its life cycle: a closed one remembers its offsets only. *)
Inductive replay_log :=
| LiveLog (g : log)
| ClosedLog (base end_ : Z).

Definition spec_new (capacity : Z) : res replay_log :=
  if (1 <=? capacity) && (capacity <=? 67108864) then Ok (LiveLog (mkLog capacity 0 []))
  else Err ErrReplayConfig.

Definition spec_append (l : replay_log) (p : list byte) : replay_log * res (Z * Z) :=
  match l with
  | LiveLog g => let '(g, r) := log_append g p in (LiveLog g, r)
  | ClosedLog _ _ => (l, Err ErrReplayClosed)
  end.

Definition spec_ack (l : replay_log) (offset : Z) : replay_log * res unit :=
  match l with
  | LiveLog g => let '(g, r) := log_ack g offset in (LiveLog g, r)
  | ClosedLog _ _ => (l, Err ErrReplayClosed)
  end.

Definition spec_replay (l : replay_log) (offset room : Z) : res (list byte * Z) :=
  match l with LiveLog g => log_replay g offset room | ClosedLog _ _ => Err ErrReplayClosed end.

Definition spec_state (l : replay_log) : JournalState :=
  match l with
  | LiveLog g => mkJournalState (lg_base g) (log_end g) (len (lg_bytes g)) (lg_capacity g) false
  | ClosedLog base end_ => mkJournalState base end_ 0 0 true
  end.

Definition spec_close (l : replay_log) : replay_log :=
  match l with LiveLog g => ClosedLog (lg_base g) (log_end g) | ClosedLog _ _ => l end.

(** ** Ring arithmetic *)

Definition zget (l : list byte) (i : Z) : byte := nth (Z.to_nat i) l x00.

(** The [i]-th byte of the ring counted from the head. *)
Definition ring (j : Journal) (i : Z) : byte :=
  zget (j_buffer j) ((j_head j + i) mod len (j_buffer j)).

#[local] Arguments zget : simpl never.
#[local] Arguments ring : simpl never.

(** The retained bytes. *)
Definition contents (j : Journal) : list byte :=
  map (fun i => ring j (Z.of_nat i)) (seq 0 (Z.to_nat (j_size j))).

(** The representation invariant of an open journal; the last clause says that
    every byte outside the retained window is zero. *)
Definition journal_ok (j : Journal) : Prop :=
  j_closed j = false /\
  0 < len (j_buffer j) <= MaxJournalCapacity /\ 0 <= j_head j < len (j_buffer j) /\
  0 <= j_size j <= len (j_buffer j) /\ 0 <= j_base j /\
  j_end j = j_base j + j_size j /\ j_end j <= MaxSequence /\
  (forall i, j_size j <= i < len (j_buffer j) -> ring j i = x00).

Definition abs (j : Journal) : log :=
  mkLog (len (j_buffer j)) (j_base j) (contents j).

(** The invariant of a journal through its life: a closed one holds no byte. *)
Definition journal_inv (j : Journal) : Prop :=
  if j_closed j
  then j_buffer j = [] /\ j_head j = 0 /\ j_size j = 0 /\ 0 <= j_base j <= j_end j /\ j_end j <= MaxSequence
  else journal_ok j.

Definition log_of (j : Journal) : replay_log :=
  if j_closed j then ClosedLog (j_base j) (j_end j) else LiveLog (abs j).

Lemma mod_wrap a c : 0 <= a < 2 * c -> a mod c = if a <? c then a else a - c.
Proof.
  intros. destruct (Z.ltb_spec a c); [apply Z.mod_small; lia|].
  replace a with (a - c + 1 * c) at 1 by lia. rewrite Z.mod_add by lia.
  apply Z.mod_small. lia.
Qed.

Lemma len_write_at buf pos src :
  0 <= pos -> pos + len src <= len buf -> len (write_at buf pos src) = len buf.
Proof. intros. unfold write_at. rewrite !len_app, len_take, len_drop. unfold len in *. lia. Qed.

Lemma zget_write_at buf pos src i :
  0 <= pos -> pos + len src <= len buf -> 0 <= i ->
  zget (write_at buf pos src) i =
    if (pos <=? i) && (i <? pos + len src) then zget src (i - pos) else zget buf i.
Proof.
  intros Hp Hl Hi. unfold zget, write_at, len in *.
  destruct (Z.leb_spec pos i); cbn [andb].
  2:{ rewrite app_nth1 by (rewrite length_take; lia).
      rewrite !nth_lookup, lookup_take_lt by lia. done. }
  rewrite app_nth2 by (rewrite length_take; lia). rewrite length_take.
  destruct (Z.ltb_spec i (pos + Z.of_nat (length src))).
  - rewrite app_nth1 by lia. f_equal. lia.
  - rewrite app_nth2 by lia. rewrite !nth_lookup, lookup_drop. do 2 f_equal. lia.
Qed.

Lemma zget_zeros n i : zget (zeros n) i = x00.
Proof.
  unfold zget, zeros. rewrite nth_lookup.
  destruct (replicate n x00 !! _) eqn:E; [|done].
  by apply lookup_replicate in E as [-> _].
Qed.

Lemma zget_take_lt l n i : 0 <= i < n -> zget (take (Z.to_nat n) l) i = zget l i.
Proof. intros. unfold zget. rewrite !nth_lookup, lookup_take_lt by lia. done. Qed.

Lemma zget_drop l n i : 0 <= n -> 0 <= i -> zget (drop (Z.to_nat n) l) i = zget l (n + i).
Proof. intros. unfold zget. rewrite !nth_lookup, lookup_drop. do 2 f_equal. lia. Qed.

Lemma len_contents j : 0 <= j_size j -> len (contents j) = j_size j.
Proof. intros. unfold contents, len. rewrite length_map, length_seq. lia. Qed.

Lemma zget_contents j i : 0 <= i < j_size j -> zget (contents j) i = ring j i.
Proof.
  intros. unfold zget, contents. rewrite nth_lookup, list_lookup_fmap, lookup_seq_lt by lia.
  cbn. f_equal. lia.
Qed.

Lemma zget_app l k i :
  0 <= i -> zget (l ++ k) i = if i <? len l then zget l i else zget k (i - len l).
Proof.
  intros. unfold zget, len. destruct (Z.ltb_spec i (Z.of_nat (length l))).
  - rewrite app_nth1 by lia. done.
  - rewrite app_nth2 by lia. f_equal. lia.
Qed.

(** Two byte lists of the same length with the same bytes. *)
Lemma zget_ext l k :
  len l = len k -> (forall i, 0 <= i < len l -> zget l i = zget k i) -> l = k.
Proof.
  unfold len, zget. intros Hl H. apply (nth_ext l k x00 x00); [lia|].
  intros n Hn. specialize (H (Z.of_nat n) ltac:(lia)). by rewrite !Nat2Z.id in H.
Qed.

(** Writing into the ring at its tail changes exactly the next [len p] bytes. *)
Lemma ring_write buf h s p i :
  let c := len buf in
  let tail := (h + s) mod c in
  let first := Z.min (len p) (c - tail) in
  0 <= h < c -> 0 <= s -> s + len p <= c -> 0 <= i < c ->
  let buf' := write_at (write_at buf tail (take (Z.to_nat first) p)) 0
                (drop (Z.to_nat first) p) in
  len buf' = c /\
  zget buf' ((h + i) mod c) =
    if (s <=? i) && (i <? s + len p) then zget p (i - s) else zget buf ((h + i) mod c).
Proof.
  cbv zeta. intros Hh Hs Hn Hi. pose proof (len_nonneg p).
  set (c := len buf) in *. set (n := len p) in *.
  rewrite !(mod_wrap (h + s)), (mod_wrap (h + i)) by lia.
  set (tail := if h + s <? c then h + s else h + s - c).
  set (k := if h + i <? c then h + i else h + i - c).
  assert (Ht : 0 <= tail < c) by (subst tail; destruct (Z.ltb_spec (h + s) c); lia).
  assert (Hk : 0 <= k < c) by (subst k; destruct (Z.ltb_spec (h + i) c); lia).
  set (first := Z.min n (c - tail)).
  assert (L1 : len (take (Z.to_nat first) p) = first) by (rewrite len_take; fold n; lia).
  assert (L2 : len (drop (Z.to_nat first) p) = n - first) by (rewrite len_drop; fold n; lia).
  assert (L3 : len (write_at buf tail (take (Z.to_nat first) p)) = c)
    by (apply len_write_at; fold c; lia).
  split; [by rewrite len_write_at, L3 by lia|].
  rewrite zget_write_at, zget_write_at by (fold c; lia). rewrite L1, L2.
  subst tail k first. clearbody c n.
  destruct (Z.ltb_spec (h + s) c), (Z.ltb_spec (h + i) c), (Z.leb_spec s i),
    (Z.ltb_spec i (s + n)); cbn [andb].
  all: repeat match goal with
    | |- context [?a <=? ?b] => destruct (Z.leb_spec a b); try lia
    | |- context [?a <? ?b] => destruct (Z.ltb_spec a b); try lia end; cbn [andb].
  all: try done; rewrite ?zget_drop, ?zget_take_lt by lia; try (f_equal; lia); lia.
Qed.

(** Clearing [r] bytes from [s] zeroes exactly those ring positions. *)
Lemma ring_clear buf s r i :
  let c := len buf in
  0 <= s < c -> 0 <= r <= c -> 0 <= i < c ->
  len (clearLocked buf s r) = c /\
  zget (clearLocked buf s r) ((s + i) mod c) =
    if i <? r then x00 else zget buf ((s + i) mod c).
Proof.
  cbv zeta. intros Hs Hr Hi. set (c := len buf) in *.
  pose proof (ring_write buf s 0 (zeros (Z.to_nat r)) i) as W. cbv zeta in W.
  rewrite len_zeros, Z2Nat.id in W by lia. fold c in W.
  rewrite Z.add_0_r, (Z.mod_small s) in W by lia.
  specialize (W ltac:(lia) ltac:(lia) ltac:(lia) Hi).
  set (first := Z.min r (c - s)) in *.
  assert (E1 : take (Z.to_nat first) (zeros (Z.to_nat r)) = zeros (Z.to_nat first)).
  { unfold zeros. rewrite take_replicate. f_equal. lia. }
  assert (E2 : drop (Z.to_nat first) (zeros (Z.to_nat r)) = zeros (Z.to_nat (r - first))).
  { unfold zeros. rewrite drop_replicate. f_equal. lia. }
  rewrite E1, E2 in W. fold (clear_at buf s first) in W.
  fold (clear_at (clear_at buf s first) 0 (r - first)) in W.
  change (clear_at (clear_at buf s first) 0 (r - first)) with (clearLocked buf s r) in W.
  rewrite zget_zeros in W. destruct W as [W1 W2]. split; [done|].
  rewrite W2. rewrite (proj2 (Z.leb_le 0 i)) by lia. done.
Qed.

Lemma mod_shift h r i c : 0 < c -> ((h + r) mod c + i) mod c = (h + (r + i)) mod c.
Proof. intros. rewrite Zplus_mod_idemp_l. f_equal. lia. Qed.

(** ** The operations implement the abstract log *)

Lemma NewJournal_ok capacity j :
  NewJournal capacity = Ok j -> journal_ok j /\ abs j = mkLog capacity 0 [].
Proof.
  unfold NewJournal. intros H. inv_res. guards. zb.
  unfold journal_ok, abs. cbn. rewrite len_zeros, Z2Nat.id by lia.
  repeat split; try lia; try done.
  intros i Hi. unfold ring. cbn. apply zget_zeros.
Qed.

Lemma maxseq_u64 a : 0 <= a <= MaxSequence -> u64 a = a.
Proof. rewrite MaxSequence_eq. intros. apply u64_small. unfold is_u64. lia. Qed.

Lemma Append_ok j p j' r :
  journal_ok j -> Append j p = (j', r) ->
  journal_ok j' /\ log_append (abs j) p = (abs j', r).
Proof.
  destruct j as [buf h s b e c]. intros (Hc & Hcap & Hh & Hs & Hb & He & Hm & Hz).
  cbn in Hc, Hcap, Hh, Hs, Hb, He, Hm, Hz. subst c.
  set (j := mkJournal buf h s b e false).
  assert (Hj : journal_ok j) by (repeat split; cbn; try lia; exact Hz).
  unfold Append, log_append, log_end, abs. cbn [j_closed j_buffer j_size j_end j_head j_base
    lg_capacity lg_base lg_bytes j].
  fold j. rewrite len_contents by (cbn; lia). cbn [j_size j].
  rewrite (maxseq_u64 (MaxSequence - e)) by lia. rewrite <- He.
  pose proof (len_nonneg p) as Hp.
  destruct (Z.ltb_spec (len buf - s) (len p)); [by intros [= <- <-]|].
  destruct (Z.ltb_spec (MaxSequence - e) (len p)); [by intros [= <- <-]|].
  destruct (Z.eqb_spec (len p) 0) as [E0|E0].
  { intros [= <- <-]. apply len_0_nil in E0 as ->. rewrite app_nil_r, len_nil, Z.add_0_r. done. }
  intros [= <- <-]. rewrite (maxseq_u64 (e + len p)) by lia.
  set (buf' := write_at _ 0 _).
  assert (W : forall i, 0 <= i < len buf -> len buf' = len buf /\
    zget buf' ((h + i) mod len buf) =
    if (s <=? i) && (i <? s + len p) then zget p (i - s) else zget buf ((h + i) mod len buf))
    by (intros i Hi; apply ring_write; lia).
  assert (L : len buf' = len buf) by (apply (W 0); lia).
  split.
  - unfold journal_ok. cbn. rewrite L. repeat split; try lia.
    intros i Hi. unfold ring. cbn. rewrite L. rewrite (proj2 (W i ltac:(lia))).
    destruct (Z.leb_spec s i), (Z.ltb_spec i (s + len p)); cbn [andb]; try lia.
    apply Hz. lia.
  - f_equal. cbn [lg_bytes]. f_equal; [done|].
    apply zget_ext.
    + rewrite len_app, !len_contents by (cbn; lia). done.
    + rewrite len_app, len_contents by (cbn; lia). cbn [j_size j]. intros i Hi.
      rewrite zget_contents by (cbn; lia). unfold ring. cbn [j_buffer j_head].
      rewrite L, (proj2 (W i ltac:(lia))), zget_app, len_contents by (cbn; lia).
      cbn [j_size j].
      destruct (Z.leb_spec s i), (Z.ltb_spec i (s + len p)), (Z.ltb_spec i s); try lia;
        cbn [andb]; try done.
      by rewrite zget_contents by (cbn; lia).
Qed.

Lemma Ack_ok j o j' r :
  journal_ok j -> Ack j o = (j', r) ->
  journal_ok j' /\ log_ack (abs j) o = (abs j', r).
Proof.
  destruct j as [buf h s b e c]. intros (Hc & Hcap & Hh & Hs & Hb & He & Hm & Hz).
  cbn in Hc, Hcap, Hh, Hs, Hb, He, Hm, Hz. subst c.
  set (j := mkJournal buf h s b e false).
  assert (Hj : journal_ok j) by (repeat split; cbn; try lia; exact Hz).
  unfold Ack, log_ack, log_end, abs. cbn [j_closed j_buffer j_size j_end j_head j_base
    lg_capacity lg_base lg_bytes j].
  fold j. rewrite len_contents by (cbn; lia). cbn [j_size j]. rewrite <- He.
  destruct (Z.ltb_spec o b), (Z.ltb_spec e o); cbn [orb]; try (by intros [= <- <-]).
  destruct (Z.eqb_spec (o - b) 0) as [E0|E0].
  { intros [= <- <-]. split; [done|]. rewrite E0. cbn [Z.to_nat]. rewrite drop_0.
    by replace o with b by lia. }
  intros [= <- <-]. set (t := o - b) in *. set (buf' := clearLocked buf h t).
  assert (W : forall i, 0 <= i < len buf -> len buf' = len buf /\
    zget buf' ((h + i) mod len buf) = if i <? t then x00 else zget buf ((h + i) mod len buf))
    by (intros i Hi; apply ring_clear; lia).
  assert (L : len buf' = len buf) by (apply (W 0); lia).
  rewrite L. set (h' := if s - t =? 0 then 0 else (h + t) mod len buf).
  assert (Hh' : 0 <= h' < len buf).
  { subst h'. destruct (s - t =? 0); [lia|]. apply Z.mod_pos_bound; lia. }
  (* the cell i positions after the new head is the one t + i after the old one *)
  assert (K : forall i, 0 <= i < len buf -> s - t <> 0 ->
    zget buf' ((h' + i) mod len buf) =
      if t + i <? len buf then zget buf ((h + (t + i)) mod len buf) else x00).
  { intros i Hi Hn. subst h'. rewrite (proj2 (Z.eqb_neq _ _) Hn), mod_shift by lia.
    destruct (Z.ltb_spec (t + i) (len buf)).
    - rewrite (proj2 (W (t + i) ltac:(lia))). by rewrite (proj2 (Z.ltb_ge _ _)) by lia.
    - replace (h + (t + i)) with (h + (t + i - len buf) + 1 * len buf) by lia.
      rewrite Z.mod_add by lia. rewrite (proj2 (W (t + i - len buf) ltac:(lia))).
      by rewrite (proj2 (Z.ltb_lt _ _)) by lia. }
  split.
  - unfold journal_ok. cbn. rewrite L. repeat split; try lia.
    intros i Hi. unfold ring. cbn. rewrite L. fold h'.
    destruct (decide (s - t = 0)) as [Hn|Hn].
    + (* everything was retired: the whole buffer is zero *)
      subst h'. rewrite Hn in *. cbn [Z.eqb]. rewrite Z.add_0_l, Z.mod_small by lia.
      pose proof (Z.mod_pos_bound (i - h) (len buf) ltac:(lia)).
      pose proof (W ((i - h) mod len buf) ltac:(lia)) as [_ W'].
      rewrite Zplus_mod_idemp_r in W'.
      replace (h + (i - h)) with i in W' by lia. rewrite Z.mod_small in W' by lia.
      rewrite W'. destruct (Z.ltb_spec ((i - h) mod len buf) t); [done|].
      pose proof (Hz ((i - h) mod len buf) ltac:(lia)) as Hzi. unfold ring in Hzi. cbn in Hzi.
      rewrite Zplus_mod_idemp_r in Hzi. replace (h + (i - h)) with i in Hzi by lia.
      by rewrite Z.mod_small in Hzi by lia.
    + rewrite K by lia. destruct (Z.ltb_spec (t + i) (len buf)); [|done].
      apply (Hz (t + i)). lia.
  - f_equal. cbn [lg_bytes]. f_equal; [done|].
    apply zget_ext.
    + rewrite len_drop, !len_contents by (cbn; lia). cbn. lia.
    + rewrite len_drop, len_contents by (cbn; lia). cbn [j_size j]. intros i Hi.
      rewrite zget_drop, zget_contents, zget_contents by (cbn; lia).
      unfold ring. cbn [j_buffer j_head]. rewrite L. fold h'.
      rewrite K by lia. by rewrite (proj2 (Z.ltb_lt _ _)) by lia.
Qed.

Lemma zget_slice l a b i :
  0 <= a -> 0 <= i < b - a -> zget (slice l a b) i = zget l (a + i).
Proof. intros. unfold slice. rewrite zget_take_lt, zget_drop by lia. done. Qed.

Lemma Replay_ok j o room :
  journal_ok j -> 0 <= room -> Replay j o room = log_replay (abs j) o room.
Proof.
  destruct j as [buf h s b e c]. intros (Hc & Hcap & Hh & Hs & Hb & He & Hm & Hz) Hr.
  cbn in Hc, Hcap, Hh, Hs, Hb, He, Hm, Hz. subst c.
  set (j := mkJournal buf h s b e false).
  unfold Replay, log_replay, log_end, abs. cbn [j_closed j_buffer j_size j_end j_head j_base
    lg_capacity lg_base lg_bytes j].
  fold j. rewrite len_contents by (cbn; lia). cbn [j_size j]. rewrite <- He.
  destruct (Z.ltb_spec o b), (Z.ltb_spec e o); cbn [orb]; try done.
  set (n := Z.min room (e - o)). set (t := o - b).
  set (bs := take _ _).
  assert (Lb : len bs = n).
  { subst bs. rewrite len_take, len_drop, len_contents by (cbn; lia). cbn. lia. }
  rewrite Lb. destruct (Z.eqb_spec n 0) as [E0|E0].
  { rewrite E0 in *. apply len_0_nil in Lb as ->. by rewrite Z.add_0_r. }
  rewrite maxseq_u64 by lia. f_equal. f_equal.
  rewrite mod_wrap by lia.
  set (st := if h + t <? len buf then h + t else h + t - len buf).
  assert (Hst : 0 <= st < len buf) by (subst st; destruct (Z.ltb_spec (h + t) (len buf)); lia).
  set (first := Z.min n (len buf - st)).
  assert (L1 : len (slice buf st (st + first)) = first) by (rewrite len_slice; lia).
  assert (L2 : len (slice buf 0 (n - first)) = n - first) by (rewrite len_slice; lia).
  apply zget_ext; rewrite len_app, L1, L2; [lia|]. intros i Hi.
  subst bs. rewrite zget_take_lt, zget_drop, zget_contents by (cbn; lia).
  unfold ring. cbn [j_buffer j_head j]. rewrite zget_app, L1, mod_wrap by lia.
  destruct (Z.ltb_spec i first).
  - rewrite zget_slice by lia. f_equal. subst st.
    destruct (Z.ltb_spec (h + t) (len buf)), (Z.ltb_spec (h + (t + i)) (len buf)); lia.
  - rewrite zget_slice by lia. f_equal. subst st.
    destruct (Z.ltb_spec (h + t) (len buf)), (Z.ltb_spec (h + (t + i)) (len buf)); lia.
Qed.

Lemma State_ok j :
  journal_ok j ->
  State j = mkJournalState (lg_base (abs j)) (log_end (abs j)) (len (lg_bytes (abs j)))
              (lg_capacity (abs j)) false.
Proof.
  intros (Hc & _ & _ & Hs & _ & He & _). unfold State, log_end, abs. cbn.
  rewrite len_contents by lia. by rewrite Hc, He.
Qed.

#[export] Hint Resolve NewJournal_ok Append_ok Ack_ok : np2.

(** ** What a journal promises to its owner *)

(** The interface the resumable stream relies on.  [holds j h]: [h] is every
    byte ever appended to [j]. *)
Class ReplayLog {J} (holds : J -> list byte -> Prop)
  (append : J -> list byte -> J * res (Z * Z)) (ack : J -> Z -> J * res unit)
  (replay : J -> Z -> Z -> res (list byte * Z)) (state : J -> JournalState) (close : J -> J) : Prop := {
  rl_bounds j h : holds j h ->
    EndOffset (state j) = len h /\ 0 <= BaseOffset (state j) <= len h /\ len h <= MaxSequence;
  rl_append j h p j' a b : holds j h -> append j p = (j', Ok (a, b)) ->
    holds j' (h ++ p) /\ a = len h /\ b = len h + len p /\
    BaseOffset (state j') = BaseOffset (state j);
  rl_append_err j p j' e : append j p = (j', Err e) -> j' = j;
  rl_ack j h o j' : holds j h -> ack j o = (j', Ok tt) ->
    holds j' h /\ BaseOffset (state j') = o /\ BaseOffset (state j) <= o;
  rl_ack_err j o j' e : ack j o = (j', Err e) -> j' = j;
  rl_replay j h o room bs o' : holds j h -> 0 <= room -> replay j o room = Ok (bs, o') ->
    segment h o bs /\ o' = o + len bs /\ (o < len h -> 0 < room -> 0 < len bs);
  rl_close j h : holds j h ->
    holds (close j) h /\ BaseOffset (state (close j)) = BaseOffset (state j)
}.

Definition holds (j : Journal) (history : list byte) : Prop :=
  (j_closed j = true \/
   journal_ok j /\ contents j = drop (Z.to_nat (j_base j)) history) /\
  j_end j = len history /\ 0 <= j_base j <= len history /\ len history <= MaxSequence.

(** For an open journal, [holds] is a statement about the abstract log. *)
Lemma holds_open j h :
  j_closed j = false -> 
  holds j h <-> journal_ok j /\ 0 <= lg_base (abs j) <= len h /\
    lg_bytes (abs j) = drop (Z.to_nat (lg_base (abs j))) h /\ len h <= MaxSequence.
Proof.
  intros Ho. unfold holds. cbn [abs lg_base lg_bytes]. split.
  - intros ([Hc|[Hj Hc]] & ? & ? & ?); [congruence|]. tauto.
  - intros (Hj & Hb & Hc & Hm). split_and!; try tauto.
    pose proof (f_equal len Hc) as E. destruct Hj as (_ & _ & _ & Hs & _ & He & _).
    rewrite len_contents, len_drop in E by lia. lia.
Qed.

Lemma log_append_history g p g' r h :
  0 <= lg_base g <= len h -> lg_bytes g = drop (Z.to_nat (lg_base g)) h ->
  log_append g p = (g', r) ->
  lg_base g' = lg_base g /\
  match r with
  | Ok (a, b) => a = len h /\ b = len h + len p /\ len (h ++ p) <= MaxSequence /\
      lg_bytes g' = drop (Z.to_nat (lg_base g')) (h ++ p)
  | Err _ => g' = g
  end.
Proof.
  intros Hl E. unfold log_append, log_end. rewrite E, len_drop. intros H.
  destruct (_ <? len p); [by simplify_eq|].
  destruct (Z.ltb_spec (MaxSequence - (lg_base g + Z.max 0 (len h - Z.of_nat (Z.to_nat (lg_base g))))) (len p));
    [by simplify_eq|].
  simplify_eq. cbn. rewrite len_app. split_and!; try done; try lia.
  rewrite drop_app_le; [done|]. unfold len in Hl. lia.
Qed.

Lemma log_ack_history g o g' r h :
  0 <= lg_base g <= len h -> lg_bytes g = drop (Z.to_nat (lg_base g)) h ->
  log_ack g o = (g', r) ->
  match r with
  | Ok _ => lg_base g' = o /\ lg_base g <= o <= len h /\ lg_bytes g' = drop (Z.to_nat o) h
  | Err _ => g' = g
  end.
Proof.
  intros Hl E. unfold log_ack, log_end. rewrite E, len_drop. intros H.
  destruct (Z.ltb_spec o (lg_base g)), (Z.ltb_spec (lg_base g + Z.max 0 (len h - Z.of_nat (Z.to_nat (lg_base g)))) o);
    cbn [orb] in H; simplify_eq; try done. cbn. split_and!; try done; try lia.
  rewrite drop_drop. f_equal. lia.
Qed.

Lemma Append_closed j p : j_closed j = true -> Append j p = (j, Err ErrReplayClosed).
Proof. unfold Append. by intros ->. Qed.

Lemma Ack_closed j o : j_closed j = true -> Ack j o = (j, Err ErrReplayClosed).
Proof. unfold Ack. by intros ->. Qed.

Lemma Replay_closed j o room : j_closed j = true -> Replay j o room = Err ErrReplayClosed.
Proof. unfold Replay. by intros ->. Qed.

Lemma holds_append j h p j' r :
  holds j h -> Append j p = (j', r) ->
  j_base j' = j_base j /\
  match r with
  | Ok (a, b) => holds j' (h ++ p) /\ a = len h /\ b = len h + len p
  | Err _ => j' = j
  end.
Proof.
  intros Hh H. destruct (j_closed j) eqn:Ho; [rewrite Append_closed in H by done; by simplify_eq|].
  pose proof Hh as Hh'. apply holds_open in Hh as (Hj & Hb & Hc & Hm); [|done].
  destruct r as [[a b]|e].
  - pose proof (Append_ok _ _ _ _ Hj H) as [Hj' HL].
    apply (log_append_history _ _ _ _ h) in HL as (E & -> & -> & Hm' & Hc'); [|done..].
    split; [exact E|]. split; [|done]. apply holds_open; [apply Hj'|].
    rewrite E in *. rewrite len_app in *. pose proof (len_nonneg p). by split_and!; try lia.
  - unfold Append in H. inv_res; done.
Qed.

Lemma holds_ack j h o j' r :
  holds j h -> Ack j o = (j', r) ->
  match r with
  | Ok _ => holds j' h /\ j_base j' = o /\ j_base j <= o
  | Err _ => j' = j
  end.
Proof.
  intros Hh H. destruct (j_closed j) eqn:Ho; [rewrite Ack_closed in H by done; by simplify_eq|].
  apply holds_open in Hh as (Hj & Hb & Hc & Hm); [|done].
  destruct r as [[]|e].
  - pose proof (Ack_ok _ _ _ _ Hj H) as [Hj' HL].
    apply (log_ack_history _ _ _ _ h) in HL as (E & ? & Hc'); [|done..].
    split; [|split; [exact E|cbn in *; lia]]. apply holds_open; [apply Hj'|].
    rewrite E. cbn in *. by split_and!; try lia.
  - unfold Ack in H. inv_res; done.
Qed.

Lemma holds_replay j h o room :
  holds j h -> 0 <= room -> j_closed j = false -> j_base j <= o <= j_end j ->
  let e := Z.min (o + room) (len h) in
  Replay j o room = Ok (slice h o e, e) /\ segment h o (slice h o e).
Proof.
  intros Hh Hr Ho Hb'. pose proof Hh as (_ & He & _). apply holds_open in Hh as (Hj & Hb & Hc & Hm); [|done].
  cbn [abs lg_base lg_bytes] in *. cbn zeta. split; [|apply segment_slice; lia].
  rewrite Replay_ok by done. unfold log_replay, log_end, abs. cbn [lg_base lg_bytes].
  rewrite Hc, drop_drop, len_drop.
  destruct (Z.ltb_spec o (j_base j)), (Z.ltb_spec (j_base j + Z.max 0
    (len h - Z.of_nat (Z.to_nat (j_base j)))) o); cbn [orb]; try lia.
  replace (Z.to_nat (j_base j) + Z.to_nat (o - j_base j))%nat with (Z.to_nat o) by lia.
  rewrite len_take, len_drop. unfold slice. f_equal. f_equal; [|lia].
  destruct (Z.le_ge_cases (o + room) (len h)).
  - rewrite Z.min_l by lia. f_equal. lia.
  - rewrite Z.min_r by lia. rewrite !take_ge; [done| |];
      rewrite length_drop; unfold len in *; lia.
Qed.

(** *** How a journal evolves *)

(** A closed journal stays closed; offsets only grow; the buffer keeps its
    size. *)
Definition evolves (j j' : Journal) : Prop :=
  (j_closed j = true -> j_closed j' = true) /\ j_base j <= j_base j' /\ j_end j <= j_end j' /\
  (j_closed j' = true \/ len (j_buffer j') = len (j_buffer j)).

#[export] Instance evolves_preorder : PreOrder evolves.
Proof.
  split; [intros j; unfold evolves; split_and!; auto; lia|].
  intros j k l (C1 & B1 & E1 & L1) (C2 & B2 & E2 & L2). unfold evolves.
  split_and!; auto; try lia. destruct L2 as [|L2]; [by left|]. destruct L1 as [L1|L1]; [left; auto|right; lia].
Qed.

Lemma Append_evolves j h p j' r : holds j h -> Append j p = (j', r) -> evolves j j'.
Proof.
  intros Hh H. pose proof (holds_append _ _ _ _ _ Hh H) as [Eb Hr]. destruct r as [[a b]|]; [|by subst].
  destruct Hr as ((_ & He' & _) & _). pose proof Hh as (_ & He & _).
  destruct (j_closed j) eqn:Ho; [by rewrite Append_closed in H|].
  apply holds_open in Hh as (Hj & _); [|done].
  destruct (Append_ok _ _ _ _ Hj H) as [Hj' HL]. unfold evolves. rewrite len_app in He'.
  pose proof (len_nonneg p). split_and!; try lia; [congruence|right].
  apply (f_equal (fun g => lg_capacity g.1)) in HL. unfold log_append in HL.
  by destruct (_ <? _); [|destruct (_ <? _)].
Qed.

Lemma Ack_evolves j h o j' r : holds j h -> Ack j o = (j', r) -> evolves j j'.
Proof.
  intros Hh H. pose proof (holds_ack _ _ _ _ _ Hh H) as Hr. destruct r as [[]|]; [|by subst].
  destruct Hr as ((_ & He' & _) & Eb & Hle). pose proof Hh as (_ & He & _).
  destruct (j_closed j) eqn:Ho; [by rewrite Ack_closed in H|].
  apply holds_open in Hh as (Hj & _); [|done].
  destruct (Ack_ok _ _ _ _ Hj H) as [Hj' HL]. unfold evolves.
  split_and!; try lia; [congruence|right].
  apply (f_equal (fun g => lg_capacity g.1)) in HL. unfold log_ack in HL. by destruct (_ || _).
Qed.

Lemma Close_evolves j : evolves j (Close j).
Proof. unfold Close. destruct (j_closed j) eqn:E; [done|]. unfold evolves. cbn. split_and!; auto; lia. Qed.

#[export] Instance journal_log : ReplayLog holds Append Ack Replay State Close.
Proof.
  split; cbn [State EndOffset BaseOffset].
  - intros j h (_ & ? & ? & ?). done.
  - intros j h p j' a b Hh H. apply (holds_append _ h) in H as (? & ? & ? & ?); done.
  - intros j p j' e H. unfold Append in H. inv_res; done.
  - intros j h o j' Hh H. by apply (holds_ack _ h) in H.
  - intros j o j' e H. unfold Ack in H. inv_res; done.
  - intros j h o room bs o' Hh Hr H.
    destruct (j_closed j) eqn:Ho; [by rewrite Replay_closed in H|].
    destruct ((o <? j_base j) || (j_end j <? o)) eqn:G; [unfold Replay in H; by rewrite Ho, G in H|].
    guards. zb. destruct (holds_replay j h o room Hh Hr Ho) as [E Hs]; [lia|].
    rewrite E in H. simplify_eq. split; [done|]. destruct Hh as (_ & He & ? & _).
    rewrite len_slice by lia. lia.
  - intros j h Hh. unfold Close. destruct (j_closed j) eqn:Ho; [done|].
    destruct Hh as (_ & ? & ? & ?). split; [|done]. unfold holds. cbn. tauto.
Qed.

(** *** Histories *)

(** The journals a client of the package can hold, with the bytes it has
    successfully appended so far. *)
Inductive reachable (capacity : Z) : list byte -> Journal -> Prop :=
| reach_new j : NewJournal capacity = Ok j -> reachable capacity [] j
| reach_append history j p j' r :
    reachable capacity history j -> Append j p = (j', r) ->
    reachable capacity (if is_ok r then history ++ p else history) j'
| reach_ack history j o j' r :
    reachable capacity history j -> Ack j o = (j', r) -> reachable capacity history j'
| reach_close history j :
    reachable capacity history j -> reachable capacity history (Close j).

Lemma NewJournal_holds capacity j : NewJournal capacity = Ok j -> holds j [].
Proof.
  intros H. pose proof (NewJournal_ok _ _ H) as [Hj E]. apply holds_open; [apply Hj|].
  rewrite E. cbn. split_and!; try done; rewrite MaxSequence_eq; lia.
Qed.

Lemma reachable_holds capacity history j : reachable capacity history j -> holds j history.
Proof.
  induction 1 as [j H|h j p j' r _ IH H|h j o j' r _ IH H|h j _ IH].
  - by eapply NewJournal_holds.
  - apply (holds_append _ h) in H as [_ H]; [|done]. destruct r as [[a b]|e]; cbn; [by apply H|].
    by subst.
  - apply (holds_ack _ h) in H; [|done]. destruct r; [by apply H|by subst].
  - exact (proj1 (rl_close (state := State) (close := Close) j h IH)).
Qed.

(** ** Properties *)

Lemma NewJournal_refines capacity :
  match NewJournal capacity with
  | Ok j => journal_inv j /\ spec_new capacity = Ok (log_of j)
  | Err e => spec_new capacity = Err e
  end.
Proof.
  destruct (NewJournal capacity) as [j|e] eqn:E.
  - pose proof (NewJournal_ok _ _ E) as [Hj Ha]. pose proof Hj as (Hc & _).
    unfold journal_inv, log_of. rewrite Hc, Ha. split; [done|].
    revert E. unfold NewJournal, spec_new, MaxJournalCapacity.
    destruct (Z.leb_spec capacity 0), (Z.leb_spec 1 capacity), (Z.ltb_spec (64 * 1024 * 1024) capacity),
      (Z.leb_spec capacity 67108864); cbn; done || lia.
  - revert E. unfold NewJournal, spec_new, MaxJournalCapacity.
    destruct (Z.leb_spec capacity 0), (Z.leb_spec 1 capacity), (Z.ltb_spec (64 * 1024 * 1024) capacity),
      (Z.leb_spec capacity 67108864); cbn; try lia; by intros [= <-].
Qed.

Lemma Append_refines j p j' r :
  journal_inv j -> Append j p = (j', r) -> journal_inv j' /\ spec_append (log_of j) p = (log_of j', r).
Proof.
  unfold journal_inv at 1, log_of at 1. destruct (j_closed j) eqn:Hc; intros Hj H.
  - rewrite Append_closed in H by done. injection H as <- <-. unfold journal_inv, log_of. by rewrite Hc.
  - apply Append_ok in H as [Hj' H]; [|done]. pose proof Hj' as (Hc' & _).
    unfold journal_inv, log_of, spec_append. by rewrite Hc', H.
Qed.

Lemma Ack_refines j o j' r :
  journal_inv j -> Ack j o = (j', r) -> journal_inv j' /\ spec_ack (log_of j) o = (log_of j', r).
Proof.
  unfold journal_inv at 1, log_of at 1. destruct (j_closed j) eqn:Hc; intros Hj H.
  - rewrite Ack_closed in H by done. injection H as <- <-. unfold journal_inv, log_of. by rewrite Hc.
  - apply Ack_ok in H as [Hj' H]; [|done]. pose proof Hj' as (Hc' & _).
    unfold journal_inv, log_of, spec_ack. by rewrite Hc', H.
Qed.

Lemma Replay_refines j o room :
  journal_inv j -> 0 <= room -> Replay j o room = spec_replay (log_of j) o room.
Proof.
  unfold journal_inv, log_of. destruct (j_closed j) eqn:Hc; intros Hj Hr; [by apply Replay_closed|by apply Replay_ok].
Qed.

Lemma State_refines j : journal_inv j -> State j = spec_state (log_of j).
Proof.
  unfold journal_inv, log_of. destruct (j_closed j) eqn:Hc; [|by intros ?%State_ok].
  intros (Hb & _ & Hs & _). unfold State. by rewrite Hb, Hs, Hc.
Qed.

Lemma Close_refines j : journal_inv j -> journal_inv (Close j) /\ log_of (Close j) = spec_close (log_of j).
Proof.
  unfold journal_inv at 1, log_of, Close. destruct (j_closed j) eqn:Hc; intros Hj.
  - unfold journal_inv. by rewrite Hc.
  - destruct Hj as (_ & _ & _ & Hs & Hb & He & Hm & _). unfold journal_inv. cbn. split; [split_and!; done || lia|].
    unfold log_end. cbn. rewrite len_contents by lia. by rewrite He.
Qed.

(** C6: the ring buffer implements the abstract replay log, operation by
    operation and errors included: [NewJournal] gives the empty log or refuses
    the capacity; [Append] and [Ack], on an open or a closed journal, keep the
    representation invariant (retired bytes are zero, the retained window is
    within the capacity, a closed journal holds nothing) and return what the
    operation of the log returns; [Replay] copies what the log holds; [State]
    reports it; [Close] closes it. *)
Theorem journal_refines :
  (forall capacity, match NewJournal capacity with
     | Ok j => journal_inv j /\ spec_new capacity = Ok (log_of j)
     | Err e => spec_new capacity = Err e
     end) /\
  (forall j, journal_inv j ->
     (forall p j' r, Append j p = (j', r) ->
        journal_inv j' /\ spec_append (log_of j) p = (log_of j', r)) /\
     (forall o j' r, Ack j o = (j', r) -> journal_inv j' /\ spec_ack (log_of j) o = (log_of j', r)) /\
     (forall o room, 0 <= room -> Replay j o room = spec_replay (log_of j) o room) /\
     State j = spec_state (log_of j) /\
     journal_inv (Close j) /\ log_of (Close j) = spec_close (log_of j)).
Proof.
  split; [exact NewJournal_refines|]. intros j Hj.
  split; [intros; by apply Append_refines|]. split; [intros; by apply Ack_refines|].
  split; [intros; by apply Replay_refines|]. split; [by apply State_refines|by apply Close_refines].
Qed.

(** whatever sequence of appends and acknowledgements (accepted or
    refused) led to a journal, a replay from any offset the journal still
    holds returns exactly the bytes the owner appended at that offset, up to
    the room of the destination: replay never reorders, loses or repeats
    data, across any number of wrap-arounds of the ring. *)
Theorem journal_replays_history capacity history j offset room :
  reachable capacity history j -> 0 <= room -> j_closed j = false ->
  j_base j <= offset <= j_end j ->
  Replay j offset room
    = Ok (slice history offset (Z.min (offset + room) (len history)),
          Z.min (offset + room) (len history)).
Proof. intros H%reachable_holds. intros. by apply holds_replay. Qed.

Lemma journal_refines_witness :
  exists j, NewJournal 4 = Ok j /\
    spec_append (log_of j) [x01; x02; x03] = (log_of (Append j [x01; x02; x03]).1, Ok (0, 3)) /\
    log_of (Close j) = ClosedLog 0 0.
Proof.
  pose proof (proj1 journal_refines 4) as H. destruct (NewJournal 4) as [j|] eqn:E; [|done].
  exists j. split; [done|]. destruct H as [Hj _].
  destruct (proj2 journal_refines j Hj) as (Ha & _ & _ & _ & _ & Hc).
  injection E as <-. rewrite Hc. split; [|done]. by eapply Ha.
Defined.

Lemma journal_replays_history_witness :
  exists j0 j1 j2 j3,
    NewJournal 4 = Ok j0 /\ Append j0 [x01; x02; x03] = (j1, Ok (0, 3)) /\
    Ack j1 2 = (j2, Ok tt) /\ Append j2 [x04; x05] = (j3, Ok (3, 5)) /\
    Replay j3 2 9 = Ok ([x03; x04; x05], 5).
Proof.
  pose (j0 := mkJournal (zeros 4) 0 0 0 0 false).
  pose (j1 := (Append j0 [x01; x02; x03]).1). pose (j2 := (Ack j1 2).1).
  pose (j3 := (Append j2 [x04; x05]).1). exists j0, j1, j2, j3.
  assert (A1 : Append j0 [x01; x02; x03] = (j1, Ok (0, 3))) by (vm_compute; reflexivity).
  assert (A2 : Ack j1 2 = (j2, Ok tt)) by (vm_compute; reflexivity).
  assert (A3 : Append j2 [x04; x05] = (j3, Ok (3, 5))) by (vm_compute; reflexivity).
  pose proof (reach_append 4 _ _ _ _ _ (reach_new 4 j0 eq_refl) A1) as R1.
  pose proof (reach_append 4 _ _ _ _ _ (reach_ack 4 _ _ _ _ _ R1 A2) A3) as R3.
  split_and!; try assumption; [reflexivity|].
  rewrite (journal_replays_history 4 _ j3 2 9 R3); [reflexivity|lia|reflexivity|by vm_compute; split].
Defined.
