(* ===== verification/Tickets.v ===== *)
(** * Lease tickets (internal/continuity/ticket.go)

    The registry of single-use attach tickets.  Each method is a function of
    the registry, the instant [now] returned by the injected clock and the
    outcomes of the entropy reads still to come ([None]: the reader failed),
    and returns the new registry, the remaining reads and its result.
    Methods are those of a non-nil receiver; the mutex makes each of them one
    step. *)
From stdpp Require Import prelude gmap list.
From S2P Require Import Prelude.

Definition MaxLeaseTickets : Z := 4096.
Definition MinLeaseTicketTTL : Z := 5 * second.
Definition MaxLeaseTicketTTL : Z := 10 * 60 * second.
Definition maxTicketAttempts : nat := 8.

(** Go byte arrays. *)
Abbreviation PrincipalID := (list byte) (only parsing).
Abbreviation TranscriptID := (list byte) (only parsing).
Abbreviation LeaseTicket := (list byte) (only parsing).
Abbreviation ContinuityID := (list byte) (only parsing).

Record TicketGrant := mkGrant {
  g_constellation : ContinuityID; g_transcript : TranscriptID; g_expires : Z
}.

Record ticketRecord := mkTicket {
  t_principal : PrincipalID; t_constellation : ContinuityID;
  t_transcript : TranscriptID; t_expires : Z
}.

#[global] Instance ticketRecord_eq_dec : EqDecision ticketRecord.
Proof. solve_decision. Defined.

Record TicketRegistry := mkTicketRegistry {
  tr_max : Z; tr_ttl : Z; tr_tickets : gmap LeaseTicket ticketRecord; tr_closed : bool
}.

(** What [io.ReadFull(r.random, ticket[:])] returned, one entry per call. *)
Abbreviation reads := (list (option LeaseTicket)) (only parsing).

Definition NewTicketRegistry (maxTickets ttl : Z) : res TicketRegistry :=
  if (maxTickets <=? 0) || (MaxLeaseTickets <? maxTickets)
     || (ttl <? MinLeaseTicketTTL) || (MaxLeaseTicketTTL <? ttl)
  then Err ErrLeaseTicketConfig
  else Ok (mkTicketRegistry maxTickets ttl ∅ false).

Definition with_tickets (r : TicketRegistry) (m : gmap LeaseTicket ticketRecord) : TicketRegistry :=
  mkTicketRegistry (tr_max r) (tr_ttl r) m (tr_closed r).

(** Deletes every record whose expiry [now] has reached. *)
Definition cleanupLocked (r : TicketRegistry) (now : Z) : TicketRegistry :=
  with_tickets r (filter (fun kv : LeaseTicket * ticketRecord => now < t_expires kv.2) (tr_tickets r)).

Fixpoint new_ticket_attempts (n : nat) (tickets : gmap LeaseTicket ticketRecord) (random : reads)
    : reads * res LeaseTicket :=
  match n with
  | O => (random, Err ErrLeaseTicketEntropy)
  | S n =>
      match random with
      | [] | None :: _ => (tail random, Err ErrLeaseTicketEntropy)
      | Some ticket :: random =>
          if is_zero ticket then new_ticket_attempts n tickets random
          else match tickets !! ticket with
               | Some _ => new_ticket_attempts n tickets random
               | None => (random, Ok ticket)
               end
      end
  end.

Definition newTicketLocked (r : TicketRegistry) (random : reads) : reads * res LeaseTicket :=
  new_ticket_attempts maxTicketAttempts (tr_tickets r) random.

Definition grantFromRecord (t : ticketRecord) : TicketGrant :=
  mkGrant (t_constellation t) (t_transcript t) (t_expires t).

(** The record of [ticket] if the caller may redeem it. *)
Definition redeemable (r : TicketRegistry) (ticket : LeaseTicket)
    (principal : PrincipalID) (constellation : ContinuityID) : res ticketRecord :=
  match tr_tickets r !! ticket with
  | None => Err ErrLeaseTicketInvalid
  | Some t =>
      if is_zero ticket || is_zero principal || is_zero constellation
         || negb (bytes_eq (t_principal t) principal)
         || negb (bytes_eq (t_constellation t) constellation)
      then Err ErrLeaseTicketInvalid else Ok t
  end.

Definition Issue (r : TicketRegistry) (now : Z) (random : reads)
    (principal : PrincipalID) (constellation : ContinuityID) (transcript : TranscriptID)
    : TicketRegistry * reads * res LeaseTicket :=
  if is_zero principal || is_zero constellation || is_zero transcript
  then (r, random, Err ErrLeaseTicketBinding)
  else if tr_closed r then (r, random, Err ErrLeaseTicketClosed)
  else
    let r := cleanupLocked r now in
    if tr_max r <=? Z.of_nat (size (tr_tickets r)) then (r, random, Err ErrLeaseTicketCapacity)
    else
      match newTicketLocked r random with
      | (random, Err e) => (r, random, Err e)
      | (random, Ok ticket) =>
          (with_tickets r (<[ticket := mkTicket principal constellation transcript (now + tr_ttl r)]>
             (tr_tickets r)), random, Ok ticket)
      end.

Definition Consume (r : TicketRegistry) (now : Z) (ticket : LeaseTicket)
    (principal : PrincipalID) (constellation : ContinuityID) : TicketRegistry * res TicketGrant :=
  if tr_closed r then (r, Err ErrLeaseTicketClosed)
  else
    let r := cleanupLocked r now in
    match redeemable r ticket principal constellation with
    | Err e => (r, Err e)
    | Ok t => (with_tickets r (delete ticket (tr_tickets r)), Ok (grantFromRecord t))
    end.

Definition Rotate (r : TicketRegistry) (now : Z) (random : reads) (ticket : LeaseTicket)
    (principal : PrincipalID) (constellation : ContinuityID) (transcript : TranscriptID)
    : TicketRegistry * reads * res (LeaseTicket * TicketGrant) :=
  if is_zero transcript then (r, random, Err ErrLeaseTicketBinding)
  else if tr_closed r then (r, random, Err ErrLeaseTicketClosed)
  else
    let r := cleanupLocked r now in
    match redeemable r ticket principal constellation with
    | Err e => (r, random, Err e)
    | Ok t =>
        match newTicketLocked r random with
        | (random, Err e) => (r, random, Err e)
        | (random, Ok next) =>
            (with_tickets r
               (<[next := mkTicket principal constellation transcript (now + tr_ttl r)]>
                  (delete ticket (tr_tickets r))),
             random, Ok (next, grantFromRecord t))
        end
    end.

Definition RollbackRotate (r : TicketRegistry) (now : Z) (current next : LeaseTicket)
    (principal : PrincipalID) (constellation : ContinuityID) (grant : TicketGrant)
    : TicketRegistry * res unit :=
  if is_zero current || is_zero next || is_zero principal || is_zero constellation
     || is_zero (g_transcript grant) || negb (bytes_eq (g_constellation grant) constellation)
  then (r, Err ErrLeaseTicketBinding)
  else if tr_closed r then (r, Err ErrLeaseTicketClosed)
  else
    let r := cleanupLocked r now in
    match tr_tickets r !! next, tr_tickets r !! current with
    | Some t, None =>
        if negb (bytes_eq (t_principal t) principal)
           || negb (bytes_eq (t_constellation t) constellation)
           || negb (now <? g_expires grant)
        then (r, Err ErrLeaseTicketInvalid)
        else
          (with_tickets r
             (<[current := mkTicket principal constellation (g_transcript grant) (g_expires grant)]>
                (delete next (tr_tickets r))), Ok tt)
    | _, _ => (r, Err ErrLeaseTicketInvalid)
    end.

Definition Revoke (r : TicketRegistry) (now : Z) (ticket : LeaseTicket)
    (principal : PrincipalID) (constellation : ContinuityID) : TicketRegistry * bool :=
  if is_zero ticket || is_zero principal || is_zero constellation then (r, false)
  else if tr_closed r then (r, false)
  else
    let r := cleanupLocked r now in
    match tr_tickets r !! ticket with
    | Some t =>
        if negb (bytes_eq (t_principal t) principal)
           || negb (bytes_eq (t_constellation t) constellation)
        then (r, false)
        else (with_tickets r (delete ticket (tr_tickets r)), true)
    | None => (r, false)
    end.

Definition Count (r : TicketRegistry) (now : Z) : TicketRegistry * Z :=
  if tr_closed r then (r, 0)
  else let r := cleanupLocked r now in (r, Z.of_nat (size (tr_tickets r))).

Definition Close (r : TicketRegistry) : TicketRegistry :=
  if tr_closed r then r else mkTicketRegistry (tr_max r) (tr_ttl r) ∅ true.

(** ** Well-formed registries *)

Definition record_ok (ticket : LeaseTicket) (t : ticketRecord) : Prop :=
  is_zero ticket = false /\ is_zero (t_principal t) = false /\
  is_zero (t_constellation t) = false /\ is_zero (t_transcript t) = false.

(** The capacity is never exceeded, no zero key or binding is stored, and a
    closed registry is empty. *)
Definition registry_ok (r : TicketRegistry) : Prop :=
  0 < tr_max r <= MaxLeaseTickets /\ Z.of_nat (size (tr_tickets r)) <= tr_max r /\
  map_Forall record_ok (tr_tickets r) /\ (tr_closed r = true -> tr_tickets r = ∅).

Lemma cleanup_lookup r now t x :
  tr_tickets (cleanupLocked r now) !! t = Some x <->
  tr_tickets r !! t = Some x /\ now < t_expires x.
Proof. unfold cleanupLocked. cbn. by rewrite map_lookup_filter_Some. Qed.

Lemma cleanup_subseteq r now : tr_tickets (cleanupLocked r now) ⊆ tr_tickets r.
Proof. unfold cleanupLocked. cbn. apply map_filter_subseteq. Qed.

Lemma cleanup_ok r now : registry_ok r -> registry_ok (cleanupLocked r now).
Proof.
  intros (Hm & Hs & Hf & Hc). pose proof (cleanup_subseteq r now) as Hsub.
  split_and!; cbn; try lia.
  - apply map_subseteq_size in Hsub. cbn in Hsub. lia.
  - intros t x H. eapply Hf, lookup_weaken; [exact H|exact Hsub].
  - intros E. rewrite (Hc E). apply map_filter_empty.
Qed.

Lemma cleanup_idem r now : cleanupLocked (cleanupLocked r now) now = cleanupLocked r now.
Proof.
  unfold cleanupLocked, with_tickets. cbn. f_equal. apply map_filter_id.
  intros t x [_ H]%map_lookup_filter_Some. done.
Qed.

Lemma new_ticket_fresh n m rd rd' t :
  new_ticket_attempts n m rd = (rd', Ok t) ->
  m !! t = None /\ is_zero t = false /\ In (Some t) rd.
Proof.
  revert rd. induction n as [|n IH]; intros rd H; cbn [new_ticket_attempts] in H; inv_res.
  - apply IH in H as (? & ? & ?). split_and!; [done..|by right].
  - apply IH in H as (? & ? & ?). split_and!; [done..|by right].
  - split_and!; [done..|by left].
Qed.

Lemma redeemable_ok r t p c x :
  redeemable r t p c = Ok x <->
  tr_tickets r !! t = Some x /\ is_zero t = false /\ is_zero p = false /\ is_zero c = false /\
  t_principal x = p /\ t_constellation x = c.
Proof.
  unfold redeemable. destruct (tr_tickets r !! t) as [y|]; [|split; [done|naive_solver]].
  destruct (is_zero t), (is_zero p), (is_zero c), (bytes_eq (t_principal y) p) eqn:E1,
    (bytes_eq (t_constellation y) c) eqn:E2; cbn [orb negb];
    rewrite ?bytes_eq_true, ?bytes_eq_false in *; naive_solver.
Qed.

(** ** Executions *)

(** What happened to a ticket: it was created with a record, or redeemed (or
    withdrawn) with the record it had. *)
Inductive event := Minted (t : LeaseTicket) (x : ticketRecord) | Spent (t : LeaseTicket) (x : ticketRecord).

Inductive ticket_op :=
| OpIssue (now : Z) (random : reads) (p c tr : list byte)
| OpConsume (now : Z) (t p c : list byte)
| OpRotate (now : Z) (random : reads) (t p c tr : list byte)
| OpRollback (now : Z) (current next p c : list byte) (g : TicketGrant)
| OpRevoke (now : Z) (t p c : list byte)
| OpCount (now : Z)
| OpClose.

(** The registry after a call, and the events its result stands for. *)
Definition ticket_step (r : TicketRegistry) (op : ticket_op) : TicketRegistry * list event :=
  match op with
  | OpIssue now rd p c tr =>
      match Issue r now rd p c tr with
      | (r', _, Ok t) => (r', [Minted t (mkTicket p c tr (now + tr_ttl r))])
      | (r', _, Err _) => (r', [])
      end
  | OpConsume now t p c =>
      match Consume r now t p c with
      | (r', Ok g) => (r', [Spent t (mkTicket p (g_constellation g) (g_transcript g) (g_expires g))])
      | (r', Err _) => (r', [])
      end
  | OpRotate now rd t p c tr =>
      match Rotate r now rd t p c tr with
      | (r', _, Ok (next, g)) =>
          (r', [Spent t (mkTicket p (g_constellation g) (g_transcript g) (g_expires g));
                Minted next (mkTicket p c tr (now + tr_ttl r))])
      | (r', _, Err _) => (r', [])
      end
  | OpRollback now current next p c g =>
      match RollbackRotate r now current next p c g, tr_tickets r !! next with
      | (r', Ok _), Some x =>
          (r', [Spent next x; Minted current (mkTicket p c (g_transcript g) (g_expires g))])
      | (r', _), _ => (r', [])
      end
  | OpRevoke now t p c =>
      match Revoke r now t p c, tr_tickets r !! t with
      | (r', true), Some x => (r', [Spent t x])
      | (r', _), _ => (r', [])
      end
  | OpCount now => ((Count r now).1, [])
  | OpClose => (Close r, [])
  end.

Fixpoint ticket_run (r : TicketRegistry) (ops : list ticket_op) : TicketRegistry * list event :=
  match ops with
  | [] => (r, [])
  | op :: ops =>
      let '(r1, ev) := ticket_step r op in
      let '(r2, rest) := ticket_run r1 ops in (r2, ev ++ rest)
  end.

(** The effect of events on the stored tickets: a ticket is minted only when
    absent, spent only when present. *)
Fixpoint exec (m : gmap LeaseTicket ticketRecord) (ev : list event) : option (gmap LeaseTicket ticketRecord) :=
  match ev with
  | [] => Some m
  | Minted t x :: ev => match m !! t with None => exec (<[t := x]> m) ev | Some _ => None end
  | Spent t x :: ev => match m !! t with
                       | Some y => if decide (y = x) then exec (delete t m) ev else None
                       | None => None end
  end.

(** ** Outcomes of the operations *)

(** A refused call leaves the registry as it was, less the expired tickets. *)
Definition cleaned_at (r : TicketRegistry) (now : Z) (r' : TicketRegistry) : Prop :=
  r' = r \/ r' = cleanupLocked r now.

Lemma Issue_ok r now rd p c tr r' rd' t :
  Issue r now rd p c tr = (r', rd', Ok t) ->
  let rc := cleanupLocked r now in
  let x := mkTicket p c tr (now + tr_ttl r) in
  tr_closed r = false /\ record_ok t x /\ In (Some t) rd /\
  Z.of_nat (size (tr_tickets rc)) < tr_max r /\ tr_tickets rc !! t = None /\
  r' = with_tickets rc (<[t := x]> (tr_tickets rc)).
Proof.
  unfold Issue. intros H. inv_res. apply new_ticket_fresh in E as (? & ? & ?). guards. zb.
  unfold record_ok. cbn in *. by split_and!.
Qed.

Lemma Issue_err r now rd p c tr r' rd' e :
  Issue r now rd p c tr = (r', rd', Err e) -> cleaned_at r now r'.
Proof. unfold Issue, cleaned_at. intros H. inv_res; auto. Qed.

Lemma Consume_ok r now t p c r' g :
  Consume r now t p c = (r', Ok g) ->
  let rc := cleanupLocked r now in
  exists x, tr_closed r = false /\ redeemable rc t p c = Ok x /\ g = grantFromRecord x /\
  r' = with_tickets rc (delete t (tr_tickets rc)).
Proof. unfold Consume. intros H. inv_res. eauto. Qed.

Lemma Consume_err r now t p c r' e :
  Consume r now t p c = (r', Err e) -> cleaned_at r now r'.
Proof. unfold Consume, cleaned_at. intros H. inv_res; auto. Qed.

Lemma Rotate_ok r now rd t p c tr r' rd' t' g :
  Rotate r now rd t p c tr = (r', rd', Ok (t', g)) ->
  let rc := cleanupLocked r now in
  let y := mkTicket p c tr (now + tr_ttl r) in
  exists x, tr_closed r = false /\ redeemable rc t p c = Ok x /\ g = grantFromRecord x /\
  record_ok t' y /\ In (Some t') rd /\ tr_tickets rc !! t' = None /\
  r' = with_tickets rc (<[t' := y]> (delete t (tr_tickets rc))).
Proof.
  unfold Rotate. intros H. inv_res. apply new_ticket_fresh in E0 as (? & ? & ?). guards.
  exists a. pose proof E as E'. apply redeemable_ok in E' as (_ & _ & ? & ? & _).
  unfold record_ok. by split_and!.
Qed.

Lemma Rotate_err r now rd t p c tr r' rd' e :
  Rotate r now rd t p c tr = (r', rd', Err e) -> cleaned_at r now r'.
Proof. unfold Rotate, cleaned_at. intros H. inv_res; auto. Qed.

Lemma Rollback_ok r now cur next p c g r' u :
  RollbackRotate r now cur next p c g = (r', Ok u) ->
  let rc := cleanupLocked r now in
  let y := mkTicket p c (g_transcript g) (g_expires g) in
  exists x, tr_closed r = false /\ tr_tickets rc !! next = Some x /\
  t_principal x = p /\ t_constellation x = c /\ record_ok cur y /\
  tr_tickets rc !! cur = None /\ now < g_expires g /\
  r' = with_tickets rc (<[cur := y]> (delete next (tr_tickets rc))).
Proof.
  unfold RollbackRotate. intros H. inv_res. guards. zb.
  rewrite bytes_eq_true in *. exists t. unfold record_ok. by split_and!.
Qed.

Lemma Rollback_err r now cur next p c g r' e :
  RollbackRotate r now cur next p c g = (r', Err e) -> cleaned_at r now r'.
Proof. unfold RollbackRotate, cleaned_at. intros H. inv_res; auto. Qed.

Lemma Revoke_true r now t p c r' :
  Revoke r now t p c = (r', true) ->
  let rc := cleanupLocked r now in
  exists x, tr_closed r = false /\ redeemable rc t p c = Ok x /\
  r' = with_tickets rc (delete t (tr_tickets rc)).
Proof.
  unfold Revoke. intros H. inv_res. guards. rewrite bytes_eq_true in *.
  exists t0. rewrite redeemable_ok. by split_and!.
Qed.

Lemma Revoke_false r now t p c r' :
  Revoke r now t p c = (r', false) -> cleaned_at r now r'.
Proof. unfold Revoke, cleaned_at. intros H. inv_res; auto. Qed.

Lemma cleaned_subseteq r now r' : cleaned_at r now r' -> tr_tickets r' ⊆ tr_tickets r.
Proof. intros [->| ->]; [done|apply cleanup_subseteq]. Qed.

Lemma exec_nil_cleaned r now r' :
  cleaned_at r now r' -> exists m0, m0 ⊆ tr_tickets r /\ exec m0 [] = Some (tr_tickets r').
Proof. intros H%cleaned_subseteq. eauto. Qed.

Lemma redeemed_record x p c :
  t_principal x = p -> t_constellation x = c ->
  mkTicket p (g_constellation (grantFromRecord x)) (g_transcript (grantFromRecord x))
    (g_expires (grantFromRecord x)) = x.
Proof. by destruct x; cbn; intros -> ->. Qed.

#[local] Hint Resolve exec_nil_cleaned Issue_err Consume_err Rotate_err Rollback_err
  Revoke_false cleanup_subseteq : core.

(** Every call is: drop expired tickets, then spend and mint. *)
Lemma step_exec r op r' ev :
  ticket_step r op = (r', ev) -> exists m0, m0 ⊆ tr_tickets r /\ exec m0 ev = Some (tr_tickets r').
Proof.
  intros H. destruct op; unfold ticket_step in H.
  - destruct (Issue _ _ _ _ _ _) as [[r1 rd1] [t|e]] eqn:E; inv_res; [|eauto].
    apply Issue_ok in E as (_ & _ & _ & _ & Ht & ->).
    exists (tr_tickets (cleanupLocked r now)). split; [done|]. cbn [exec]. by rewrite Ht.
  - destruct (Consume _ _ _ _ _) as [r1 [g|e]] eqn:E; inv_res; [|eauto].
    apply Consume_ok in E as (x & _ & Hx & -> & ->).
    apply redeemable_ok in Hx as (Hx & _ & _ & _ & Hp & Hc).
    exists (tr_tickets (cleanupLocked r now)). split; [done|]. cbn [exec].
    rewrite Hx, (redeemed_record x p c), decide_True by done. done.
  - destruct (Rotate _ _ _ _ _ _ _) as [[r1 rd1] [[t' g]|e]] eqn:E; inv_res; [|eauto].
    apply Rotate_ok in E as (x & _ & Hx & -> & _ & _ & Ht & ->).
    apply redeemable_ok in Hx as (Hx & _ & _ & _ & Hp & Hc).
    exists (tr_tickets (cleanupLocked r now)). split; [done|]. cbn [exec].
    rewrite Hx, (redeemed_record x p c), decide_True by done.
    by rewrite (proj2 (lookup_delete_None _ _ _) (or_intror Ht)).
  - destruct (RollbackRotate _ _ _ _ _ _ _) as [r1 [u|e]] eqn:E.
    + apply Rollback_ok in E as (x & _ & Hx & Hp & Hc & _ & Ht & _ & ->).
      pose proof (lookup_weaken _ _ _ _ Hx (cleanup_subseteq r now)) as Hx'.
      rewrite Hx' in H. inv_res. exists (tr_tickets (cleanupLocked r now)). split; [done|].
      cbn [exec]. rewrite Hx, decide_True by done.
      by rewrite (proj2 (lookup_delete_None _ _ _) (or_intror Ht)).
    + inv_res; eauto.
  - destruct (Revoke _ _ _ _ _) as [r1 []] eqn:E; [|inv_res; eauto].
    apply Revoke_true in E as (x & _ & Hx & ->).
    apply redeemable_ok in Hx as (Hx & _).
    pose proof (lookup_weaken _ _ _ _ Hx (cleanup_subseteq r now)) as Hx'.
    rewrite Hx' in H. inv_res. exists (tr_tickets (cleanupLocked r now)). split; [done|].
    cbn [exec]. by rewrite Hx, decide_True.
  - inv_res. unfold Count. destruct (tr_closed r); cbn [fst exec]; eauto.
  - inv_res. unfold Close. destruct (tr_closed r); cbn [tr_tickets exec]; eauto.
    exists ∅. split; [apply map_empty_subseteq|done].
Qed.

(** ** The invariant of every execution *)

Definition event_is_spend (t : LeaseTicket) (e : event) : bool :=
  match e with Spent t' _ => bool_decide (t' = t) | Minted _ _ => false end.
Definition event_is_mint (t : LeaseTicket) (e : event) : bool :=
  match e with Minted t' _ => bool_decide (t' = t) | Spent _ _ => false end.

(** How often a ticket was redeemed or withdrawn, and how often created. *)
Definition spends (t : LeaseTicket) (ev : list event) : nat := length (List.filter (event_is_spend t) ev).
Definition mints (t : LeaseTicket) (ev : list event) : nat := length (List.filter (event_is_mint t) ev).

Definition stored (m : gmap LeaseTicket ticketRecord) (t : LeaseTicket) : nat :=
  match m !! t with Some _ => 1 | None => 0 end.

(** Between a stored map [m] and a later one [m'], events [ev] balance. *)
Lemma exec_balance ev : forall m m' t,
  exec m ev = Some m' -> (spends t ev + stored m' t = mints t ev + stored m t)%nat.
Proof.
  induction ev as [|e ev IH]; intros m m' t H; cbn [exec] in H; [by inv_res|].
  destruct e as [t' x|t' x]; destruct (m !! t') as [y|] eqn:E; try discriminate.
  - apply (IH _ _ t) in H. revert H. unfold spends, mints, stored. cbn.
    destruct (decide (t' = t)) as [->|]; [rewrite lookup_insert_eq, E|rewrite lookup_insert_ne by done];
      rewrite ?bool_decide_eq_true_2, ?bool_decide_eq_false_2 by done; cbn; lia.
  - destruct (decide (y = x)) as [->|]; [|discriminate].
    apply (IH _ _ t) in H. revert H. unfold spends, mints, stored. cbn.
    destruct (decide (t' = t)) as [->|]; [rewrite lookup_delete_eq, E|rewrite lookup_delete_ne by done];
      rewrite ?bool_decide_eq_true_2, ?bool_decide_eq_false_2 by done; cbn; lia.
Qed.

Lemma exec_records ev : forall m m' t x,
  exec m ev = Some m' -> m' !! t = Some x \/ In (Spent t x) ev ->
  m !! t = Some x \/ In (Minted t x) ev.
Proof.
  induction ev as [|e ev IH]; intros m m' t x H Hx; cbn [exec] in H.
  { inv_res. destruct Hx as [|[]]; auto. }
  destruct e as [t' y|t' y]; destruct (m !! t') as [z|] eqn:E; try discriminate.
  - destruct (IH _ _ t x H) as [Hm|Hm]; [naive_solver| |by right; right].
    apply lookup_insert_Some in Hm as [[-> ->]|[_ Hm]]; [by right; left|by left].
  - destruct (decide (z = y)) as [->|]; [|discriminate].
    destruct Hx as [Hx|[[= -> ->]|Hx]]; [| by left |].
    all: destruct (IH _ _ t x H) as [Hm|Hm]; [by auto| |by right; right].
    all: apply lookup_delete_Some in Hm as [_ Hm]; by left.
Qed.

Lemma stored_subseteq m m' t : m ⊆ m' -> (stored m t <= stored m' t)%nat.
Proof.
  intros H. unfold stored. destruct (m !! t) as [x|] eqn:E; [|lia].
  by rewrite (lookup_weaken _ _ _ _ E H).
Qed.

Lemma run_balance ops : forall r r' ev t,
  ticket_run r ops = (r', ev) ->
  (spends t ev + stored (tr_tickets r') t <= mints t ev + stored (tr_tickets r) t)%nat.
Proof.
  induction ops as [|op ops IH]; intros r r' ev t H; cbn [ticket_run] in H; [inv_res; cbn; lia|].
  destruct (ticket_step r op) as [r1 ev1] eqn:E1, (ticket_run r1 ops) as [r2 ev2] eqn:E2.
  inv_res. apply step_exec in E1 as (m0 & Hs & He). apply (exec_balance _ _ _ t) in He.
  apply (IH _ _ _ t) in E2. apply (stored_subseteq _ _ t) in Hs.
  unfold spends, mints in *. rewrite !List.filter_app, !length_app. lia.
Qed.

Lemma run_records ops : forall r r' ev t x,
  ticket_run r ops = (r', ev) -> tr_tickets r' !! t = Some x \/ In (Spent t x) ev ->
  tr_tickets r !! t = Some x \/ In (Minted t x) ev.
Proof.
  induction ops as [|op ops IH]; intros r r' ev t x H Hx; cbn [ticket_run] in H.
  { inv_res. destruct Hx as [|[]]; auto. }
  destruct (ticket_step r op) as [r1 ev1] eqn:E1, (ticket_run r1 ops) as [r2 ev2] eqn:E2.
  inv_res. apply step_exec in E1 as (m0 & Hs & He).
  assert (H1 : tr_tickets r1 !! t = Some x \/ In (Spent t x) ev1 -> tr_tickets r !! t = Some x
    \/ In (Minted t x) (ev1 ++ ev2)).
  { intros H1. destruct (exec_records _ _ _ t x He H1) as [Hm|Hm].
    - left. by eapply lookup_weaken.
    - right. apply in_or_app. by left. }
  rewrite in_app_iff in Hx. assert (Hd : In (Spent t x) ev1 \/
    (tr_tickets r' !! t = Some x \/ In (Spent t x) ev2)) by tauto.
  destruct Hd as [Hd|Hd]; [by auto|]. destruct (IH _ _ _ t x E2 Hd) as [Hm|Hm]; [by auto|].
  right. apply in_or_app. by right.
Qed.

(** *** Preservation of well-formedness *)

Lemma registry_insert r t x :
  registry_ok r -> tr_closed r = false -> record_ok t x ->
  Z.of_nat (size (<[t := x]> (tr_tickets r))) <= tr_max r ->
  registry_ok (with_tickets r (<[t := x]> (tr_tickets r))).
Proof.
  intros (Hm & Hs & Hf & Hc) Ho Hx Hn. split_and!; cbn; try done; try lia.
  - by apply map_Forall_insert_2.
  - intros; congruence.
Qed.

Lemma registry_delete r t :
  registry_ok r -> tr_closed r = false ->
  registry_ok (with_tickets r (delete t (tr_tickets r))).
Proof.
  intros (Hm & Hs & Hf & Hc) Ho. split_and!; cbn; try done; try lia.
  - pose proof (map_subseteq_size _ _ (delete_subseteq (tr_tickets r) t)). lia.
  - by apply map_Forall_delete.
  - intros; congruence.
Qed.

(** Replacing one ticket by a fresh one keeps the number of tickets. *)
Lemma registry_replace r t x t' y :
  registry_ok r -> tr_closed r = false -> record_ok t' y ->
  tr_tickets r !! t = Some x -> tr_tickets r !! t' = None ->
  registry_ok (with_tickets r (<[t' := y]> (delete t (tr_tickets r)))).
Proof.
  intros Hr Ho Hy Ht Ht'.
  pose proof (registry_insert _ t' y (registry_delete r t Hr Ho) Ho Hy) as H.
  apply H. clear H. cbn. rewrite map_size_insert_None by (rewrite lookup_delete_None; auto).
  rewrite map_size_delete, Ht. destruct Hr as (_ & Hs & _).
  assert (size (tr_tickets r) <> 0%nat) by (eapply map_size_ne_0_lookup_2; eauto). lia.
Qed.

Lemma cleaned_ok r now r' : registry_ok r -> cleaned_at r now r' -> registry_ok r'.
Proof. intros Hr [->| ->]; [done|by apply cleanup_ok]. Qed.

Lemma step_ok r op : registry_ok r -> registry_ok (ticket_step r op).1.
Proof.
  intros Hr. destruct op; unfold ticket_step.
  - destruct (Issue _ _ _ _ _ _) as [[r1 rd1] [t|e]] eqn:E; cbn.
    + apply Issue_ok in E as (Hc & Hx & _ & Hs & Ht & ->).
      apply (registry_insert (cleanupLocked r now)); [by apply cleanup_ok|done..|].
      rewrite map_size_insert_None by done. cbn in *. lia.
    + eauto using cleaned_ok, Issue_err.
  - destruct (Consume _ _ _ _ _) as [r1 [g|e]] eqn:E; cbn.
    + apply Consume_ok in E as (x & Hc & _ & _ & ->).
      by apply registry_delete; [apply cleanup_ok|].
    + eauto using cleaned_ok, Consume_err.
  - destruct (Rotate _ _ _ _ _ _ _) as [[r1 rd1] [[t' g]|e]] eqn:E; cbn.
    + apply Rotate_ok in E as (x & Hc & Hx & _ & Hy & _ & Ht & ->).
      apply redeemable_ok in Hx as (Hx & _).
      eapply registry_replace; eauto using cleanup_ok.
    + eauto using cleaned_ok, Rotate_err.
  - assert (registry_ok (RollbackRotate r now current next p c g).1); [|case_match; repeat case_match; done].
    destruct (RollbackRotate _ _ _ _ _ _ _) as [r1 [u|e]] eqn:E; cbn.
    + apply Rollback_ok in E as (x & Hc & Hx & _ & _ & Hy & Ht & _ & ->).
      eapply registry_replace; eauto using cleanup_ok.
    + eauto using cleaned_ok, Rollback_err.
  - assert (registry_ok (Revoke r now t p c).1); [|case_match; repeat case_match; done].
    destruct (Revoke _ _ _ _ _) as [r1 []] eqn:E; cbn.
    + apply Revoke_true in E as (x & Hc & _ & ->).
      by apply registry_delete; [apply cleanup_ok|].
    + eauto using cleaned_ok, Revoke_false.
  - unfold Count. destruct (tr_closed r); cbn; [done|by apply cleanup_ok].
  - unfold Close. destruct (tr_closed r); cbn; [done|].
    destruct Hr as (Hm & _). split_and!; cbn; rewrite ?map_size_empty; try done; lia.
Qed.

Lemma step_max r op : tr_max (ticket_step r op).1 = tr_max r.
Proof.
  destruct op; unfold ticket_step, Issue, Consume, Rotate, RollbackRotate, Revoke, Count, Close;
    repeat case_match; simplify_eq; done.
Qed.

Lemma run_max ops : forall r, tr_max (ticket_run r ops).1 = tr_max r.
Proof.
  induction ops as [|op ops IH]; intros r; [done|]. cbn [ticket_run].
  pose proof (step_max r op) as H. destruct (ticket_step r op) as [r1 ev1]. cbn in H.
  specialize (IH r1). destruct (ticket_run r1 ops). cbn in *. congruence.
Qed.

Lemma run_ok ops : forall r, registry_ok r -> registry_ok (ticket_run r ops).1.
Proof.
  induction ops as [|op ops IH]; intros r Hr; [done|]. cbn [ticket_run].
  pose proof (step_ok r op Hr). destruct (ticket_step r op) as [r1 ev1]. cbn in *.
  pose proof (IH r1 ltac:(done)). by destruct (ticket_run r1 ops).
Qed.

Lemma NewTicketRegistry_ok n ttl r :
  NewTicketRegistry n ttl = Ok r -> registry_ok r /\ tr_tickets r = ∅ /\ tr_max r = n.
Proof.
  unfold NewTicketRegistry. intros H. inv_res. guards. zb.
  unfold registry_ok. split_and!; cbn; rewrite ?map_size_empty; try done; lia.
Qed.

(** Replacing [t] by a fresh [next] at [now] and undoing it at [later] leaves
    the tickets unexpired at [later]. *)
Lemma rollback_tickets r now later t x next y :
  now <= later -> later < t_expires x -> next <> t ->
  tr_tickets (cleanupLocked r now) !! t = Some x ->
  tr_tickets (cleanupLocked r now) !! next = None ->
  let rc := cleanupLocked r now in
  let r' := with_tickets rc (<[next := y]> (delete t (tr_tickets rc))) in
  let rl := cleanupLocked r' later in
  with_tickets rl (<[t := x]> (delete next (tr_tickets rl))) = cleanupLocked r later.
Proof.
  intros Hl Hx Hne Ht Hn. cbn zeta.
  apply cleanup_lookup in Ht as Ht'. destruct Ht' as [Ht' _].
  set (m := <[t := x]> _). change (with_tickets r m = cleanupLocked r later).
  assert (E : m = tr_tickets (cleanupLocked r later)); [|by rewrite E].
  subst m. apply map_eq. intros i. apply option_eq. intros z. rewrite cleanup_lookup.
  destruct (decide (i = t)) as [->|Hi].
  { rewrite lookup_insert_eq, Ht'. naive_solver. }
  rewrite lookup_insert_ne by done. destruct (decide (i = next)) as [->|Hi'].
  { rewrite lookup_delete_eq. split; [done|]. intros [Hz Hz'].
    assert (H : tr_tickets (cleanupLocked r now) !! next = Some z)
      by (apply cleanup_lookup; split; [done|lia]). congruence. }
  rewrite lookup_delete_ne, cleanup_lookup by done. cbn [with_tickets tr_tickets].
  rewrite lookup_insert_ne, lookup_delete_ne by done. rewrite cleanup_lookup.
  intuition lia.
Qed.

(** ** Properties *)

(** C10: no ticket is redeemed more often than it was created.  Over every
    sequence of calls from a new registry, for every ticket value the number of
    successful consumptions, rotations, roll-backs and revocations of it is at
    most the number of times a call issued it, or rolled back to it, less one
    while it is still stored.  Whoever redeems a ticket holds the principal, the
    constellation and the transcript it was issued for. *)
Theorem ticket_single_use n ttl r0 ops r ev :
  NewTicketRegistry n ttl = Ok r0 -> ticket_run r0 ops = (r, ev) ->
  (forall t, (spends t ev + stored (tr_tickets r) t <= mints t ev)%nat) /\
  (forall t x, In (Spent t x) ev -> In (Minted t x) ev).
Proof.
  intros (_ & He & _)%NewTicketRegistry_ok H. split.
  - intros t. pose proof (run_balance _ _ _ _ t H) as Hb. rewrite He in Hb.
    unfold stored in Hb at 2. rewrite lookup_empty in Hb. lia.
  - intros t x Hx. destruct (run_records _ _ _ _ t x H (or_intror Hx)) as [Hm|]; [|done].
    by rewrite He, lookup_empty in Hm.
Qed.

(** no sequence of calls, whatever the clock and the entropy source
    return, takes the registry beyond its capacity, stores a zero ticket or a
    zero binding, or leaves a ticket in a closed registry. *)
Theorem registry_invariant n ttl r0 ops :
  NewTicketRegistry n ttl = Ok r0 ->
  let r := (ticket_run r0 ops).1 in
  registry_ok r /\ Z.of_nat (size (tr_tickets r)) <= n.
Proof.
  intros (Hr & _ & Hn)%NewTicketRegistry_ok. cbn zeta. pose proof (run_ok ops r0 Hr) as H.
  split; [done|]. destruct H as (_ & Hs & _). by rewrite run_max, Hn in Hs.
Qed.

(** Rolling back before the grant and the successor expire. *)
Lemma rotate_undo r now rd t p c tr r' rd' next g later :
  registry_ok r -> Rotate r now rd t p c tr = (r', rd', Ok (next, g)) ->
  now <= later < g_expires g -> later < now + tr_ttl r ->
  tr_tickets r' !! t = None /\ is_Some (tr_tickets r' !! next) /\
  RollbackRotate r' later t next p c g = (cleanupLocked r later, Ok tt).
Proof.
  intros Hr H Hl Hl'.
  apply Rotate_ok in H as (x & Hc & Hx & -> & Hy & _ & Hn & ->).
  destruct Hr as (_ & _ & Hf & _).
  apply redeemable_ok in Hx as (Hx & Ht & Hp & Hcc & Hxp & Hxc).
  pose proof Hx as [Hx0 _]%cleanup_lookup. destruct (Hf _ _ Hx0) as (_ & _ & _ & Htr).
  assert (Hne : next <> t) by (intros ->; congruence).
  assert (Hzn : is_zero next = false) by apply Hy.
  cbn [with_tickets tr_tickets]. rewrite lookup_insert_ne, lookup_delete_eq, lookup_insert_eq by done.
  split_and!; [done|eauto|].
  unfold RollbackRotate, grantFromRecord. cbn [g_transcript g_constellation g_expires with_tickets tr_closed].
  rewrite Ht, Hzn, Hp, Hcc, Htr, Hxc, bytes_eq_refl. cbn [orb negb].
  change (tr_closed (cleanupLocked r now)) with (tr_closed r). rewrite Hc.
  set (y := mkTicket p c tr (now + tr_ttl r)).
  pose proof (rollback_tickets r now later t x next y) as HR. cbn zeta in HR.
  set (rl := cleanupLocked (with_tickets _ _) later) in *.
  assert (E1 : tr_tickets rl !! next = Some y).
  { apply cleanup_lookup. split; [apply lookup_insert_eq|cbn; lia]. }
  assert (E2 : tr_tickets rl !! t = None).
  { apply eq_None_not_Some. intros [z [Hz _]%cleanup_lookup]. cbn [with_tickets tr_tickets] in Hz.
    by rewrite lookup_insert_ne, lookup_delete_eq in Hz. }
  rewrite E1, E2. cbn [t_principal t_constellation y]. rewrite !bytes_eq_refl.
  cbn [grantFromRecord g_expires] in Hl. rewrite (proj2 (Z.ltb_lt _ _)) by apply Hl. cbn [negb orb].
  f_equal. rewrite <- Hxp, <- Hxc. destruct x; cbn in *. apply HR; try done; lia.
Qed.

(** Issuing a ticket at [now] and revoking it at [later]. *)
Lemma issue_undo r now rd p c tr r' rd' t later :
  Issue r now rd p c tr = (r', rd', Ok t) -> now <= later ->
  (Revoke r' later t p c).1 = cleanupLocked r later.
Proof.
  intros H Hl. apply Issue_ok in H as (Hc & (Ht & Hp & Hcc & _) & _ & _ & Hn & ->).
  cbn [t_principal t_constellation] in Hp, Hcc.
  set (x := mkTicket p c tr (now + tr_ttl r)). set (m := tr_tickets (cleanupLocked r now)) in *.
  assert (Hr : forall z, tr_tickets r !! t = Some z -> now < t_expires z -> False).
  { intros z Hz Hz'. assert (m !! t = Some z) by by apply cleanup_lookup. congruence. }
  assert (E : with_tickets r (delete t (tr_tickets (cleanupLocked (with_tickets r (<[t := x]> m)) later))) = cleanupLocked r later).
  { match goal with |- with_tickets _ ?a = _ => assert (E : a = tr_tickets (cleanupLocked r later)); [|by rewrite E] end.
    apply map_eq. intros i. apply option_eq. intros z. rewrite lookup_delete_Some, !cleanup_lookup. cbn [tr_tickets with_tickets].
    destruct (decide (t = i)) as [<-|Hi].
    - split; [naive_solver|]. intros [Hz Hz']. exfalso. eapply Hr; [done|lia].
    - rewrite lookup_insert_ne by done. unfold m. rewrite cleanup_lookup. intuition lia. }
  unfold Revoke. rewrite Ht, Hp, Hcc. cbn [orb with_tickets tr_closed]. change (tr_closed (cleanupLocked r now)) with (tr_closed r).
  rewrite Hc. fold m x. change (with_tickets (cleanupLocked r now) (<[t := x]> m)) with (with_tickets r (<[t := x]> m)).
  destruct (tr_tickets (cleanupLocked _ later) !! t) as [y|] eqn:Hy.
  - apply cleanup_lookup in Hy as [Hy _]. cbn [tr_tickets with_tickets] in Hy. rewrite lookup_insert_eq in Hy. injection Hy as <-.
    cbn [t_principal t_constellation x]. by rewrite !bytes_eq_refl.
  - rewrite <- E, delete_id by done. cbn. done.
Qed.

(** rotation is atomic.  A refused rotation leaves every unexpired ticket
    as it was, the presented one included; a successful one replaces exactly
    the presented ticket by a fresh one and returns its grant; and rolling the
    successor back before the grant expires, at any later instant, restores
    the registry that stood before the rotation, less what expired. *)
Theorem rotate_atomic r now rd t p c tr r' rd' :
  registry_ok r ->
  (forall e, Rotate r now rd t p c tr = (r', rd', Err e) -> cleaned_at r now r') /\
  (forall next g later, Rotate r now rd t p c tr = (r', rd', Ok (next, g)) ->
     now <= later < g_expires g -> later < now + tr_ttl r ->
     tr_tickets r' !! t = None /\ is_Some (tr_tickets r' !! next) /\
     RollbackRotate r' later t next p c g = (cleanupLocked r later, Ok tt)).
Proof.
  intros Hr. split; [eauto using Rotate_err|]. intros next g later. by apply rotate_undo.
Qed.

(** *** A concrete run *)

Module TicketExample.
Definition p : list byte := replicate 32 x01.
Definition c : list byte := replicate 16 x02.
Definition tr : list byte := replicate 32 x03.
Definition t1 : list byte := replicate 32 x04.
Definition t2 : list byte := replicate 32 x05.
Definition ops : list ticket_op :=
  [OpIssue 0 [Some t1] p c tr; OpConsume 1 t1 p c; OpConsume 1 t1 p c;
   OpIssue 2 [Some t1; None] p c tr; OpRotate 3 [Some t1; Some t2] t1 p c tr].

Lemma ticket_single_use_witness :
  exists r0 r ev, NewTicketRegistry 2 (10 * second) = Ok r0 /\ ticket_run r0 ops = (r, ev) /\
    length ev = 5%nat /\ spends t1 ev = 2%nat /\
    (spends t1 ev + stored (tr_tickets r) t1 <= mints t1 ev)%nat.
Proof.
  pose (r0 := mkTicketRegistry 2 (10 * second) ∅ false).
  pose (r := (ticket_run r0 ops).1). pose (ev := (ticket_run r0 ops).2).
  exists r0, r, ev. split; [reflexivity|]. split; [apply surjective_pairing|].
  split; [vm_compute; reflexivity|]. split; [vm_compute; reflexivity|].
  apply (proj1 (ticket_single_use 2 (10 * second) r0 ops r ev eq_refl (surjective_pairing _)) t1).
Defined.

Lemma registry_invariant_witness :
  exists r0, NewTicketRegistry 2 (10 * second) = Ok r0 /\
    Z.of_nat (size (tr_tickets (ticket_run r0 ops).1)) = 1 /\
    registry_ok (ticket_run r0 ops).1.
Proof.
  exists (mkTicketRegistry 2 (10 * second) ∅ false). split; [reflexivity|].
  split; [vm_compute; reflexivity|].
  apply (registry_invariant 2 (10 * second) _ ops eq_refl).
Defined.

Lemma rotate_atomic_witness :
  let r := (ticket_run (mkTicketRegistry 2 (10 * second) ∅ false) (take 1 ops)).1 in
  exists r' g, Rotate r 1 [Some t1; Some t2] t1 p c tr = (r', [], Ok (t2, g)) /\
    RollbackRotate r' 5 t1 t2 p c g = (cleanupLocked r 5, Ok tt).
Proof.
  cbn zeta. set (r := (ticket_run _ _).1).
  pose (o := Rotate r 1 [Some t1; Some t2] t1 p c tr).
  pose (g := mkGrant c tr (10 * second)). exists o.1.1, g.
  assert (E : Rotate r 1 [Some t1; Some t2] t1 p c tr = (o.1.1, [], Ok (t2, g)))
    by (vm_compute; reflexivity).
  split; [exact E|].
  assert (Hr : registry_ok r).
  { apply (run_ok (take 1 ops)). by apply (NewTicketRegistry_ok 2 (10 * second)). }
  assert (L1 : 1 <= 5 < g_expires g) by (cbn [g g_expires]; unfold second; lia).
  assert (L2 : 5 < 1 + tr_ttl r) by (vm_compute; reflexivity).
  destruct (rotate_atomic r 1 [Some t1; Some t2] t1 p c tr o.1.1 [] Hr) as [_ H].
  exact (proj2 (proj2 (H t2 g 5 E L1 L2))).
Defined.
End TicketExample.
