(* ===== verification/Flows.v ===== *)
(** * The logical flow registry (internal/continuity/flow.go)

    The server-side table of logical flows: who owns a flow, which lease epoch
    is current and which upstream connection it holds.  An upstream is an
    object outside the repository; it is known by a handle, and closing it is
    an effect: every method returns the list of handles it closed, in order,
    and [close_err h] is what [Close] on the handle returns (never twice the
    same handle, see [upstreams_closed_once]).  Methods are those of a non-nil
    receiver. *)
From stdpp Require Import prelude gmap list.
From S2P Require Import Prelude.

Definition MaxLogicalFlows : Z := 65536.
Definition maxFlowIDAttempts : nat := 8.

Abbreviation handle := Z (only parsing).

(** [fc_upstream = None]: the interface is nil or holds a nil pointer. *)
Record FlowCreateRequest := mkCreate {
  fc_principal : list byte; fc_constellation : list byte; fc_flow : list byte;
  fc_lease : list byte; fc_upstream : option handle
}.

Record FlowAttachRequest := mkAttach {
  fa_principal : list byte; fa_constellation : list byte; fa_flow : list byte;
  fa_lease : list byte; fa_epoch : Z
}.

Record Flow := mkFlow {
  fl_id : list byte; fl_constellation : list byte; fl_lease : list byte;
  fl_epoch : Z; fl_upstream : handle
}.

Record flowRecord := mkFlowRecord {
  f_principal : list byte; f_constellation : list byte; f_lease : list byte;
  f_epoch : Z; f_upstream : handle
}.

Record FlowRegistry := mkFlowRegistry {
  fr_max : Z; fr_max_principal : Z;
  fr_flows : gmap (list byte) flowRecord;
  fr_counts : gmap (list byte) Z;
  fr_closed : bool
}.

Definition NewFlowRegistry (maxFlows maxPer : Z) : res FlowRegistry :=
  if (maxFlows <=? 0) || (MaxLogicalFlows <? maxFlows) || (maxPer <=? 0) || (maxFlows <? maxPer)
  then Err ErrFlowRegistryConfig
  else Ok (mkFlowRegistry maxFlows maxPer ∅ ∅ false).

Definition with_flows (r : FlowRegistry) (flows : gmap (list byte) flowRecord)
    (counts : gmap (list byte) Z) : FlowRegistry :=
  mkFlowRegistry (fr_max r) (fr_max_principal r) flows counts (fr_closed r).

(** Indexing a Go map of integers: a missing key reads as zero. *)
Definition count_of (counts : gmap (list byte) Z) (p : list byte) : Z := default 0 (counts !! p).

Definition snapshotFlow (id : list byte) (x : flowRecord) : Flow :=
  mkFlow id (f_constellation x) (f_lease x) (f_epoch x) (f_upstream x).

(** [random]: what each [io.ReadFull] returned; [inl e] is a failed read. *)
Fixpoint flow_id_attempts (n : nat) (flows : gmap (list byte) flowRecord)
    (random : list (error + list byte)) : res (list byte) :=
  match n with
  | O => Err ErrFlowEntropy
  | S n =>
      match random with
      | [] => Err (Join [Sentinel ErrFlowEntropy; Sentinel ErrEOF])
      | inl e :: _ => Err (Join [Sentinel ErrFlowEntropy; e])
      | inr id :: random =>
          if is_zero id then flow_id_attempts n flows random
          else match flows !! id with
               | Some _ => flow_id_attempts n flows random
               | None => Ok id
               end
      end
  end.

Definition newFlowIDLocked (r : FlowRegistry) (random : list (error + list byte)) : res (list byte) :=
  flow_id_attempts maxFlowIDAttempts (fr_flows r) random.

Definition decrementPrincipalLocked (counts : gmap (list byte) Z) (p : list byte) : gmap (list byte) Z :=
  let remaining := count_of counts p - 1 in
  if remaining <=? 0 then delete p counts else <[p := remaining]> counts.

Definition Create (r : FlowRegistry) (random : list (error + list byte)) (q : FlowCreateRequest)
    : FlowRegistry * res Flow :=
  match fc_upstream q with
  | None => (r, Err ErrFlowBinding)
  | Some upstream =>
      if is_zero (fc_principal q) || is_zero (fc_constellation q) || is_zero (fc_lease q)
      then (r, Err ErrFlowBinding)
      else if fr_closed r then (r, Err ErrFlowRegistryClosed)
      else if (fr_max r <=? Z.of_nat (size (fr_flows r)))
              || (fr_max_principal r <=? count_of (fr_counts r) (fc_principal q))
      then (r, Err ErrFlowCapacity)
      else
        let flowID :=
          if is_zero (fc_flow q) then newFlowIDLocked r random
          else match fr_flows r !! fc_flow q with
               | Some _ => Err ErrFlowConflict
               | None => Ok (fc_flow q)
               end in
        match flowID with
        | Err e => (r, Err e)
        | Ok id =>
            let x := mkFlowRecord (fc_principal q) (fc_constellation q) (fc_lease q) 1 upstream in
            (with_flows r (<[id := x]> (fr_flows r))
               (<[fc_principal q := count_of (fr_counts r) (fc_principal q) + 1]> (fr_counts r)),
             Ok (snapshotFlow id x))
        end
  end.

Section Upstream.
(** The error [upstream.Close()] returns, if any. *)
Variable close_err : handle -> option error.

Definition Attach (r : FlowRegistry) (q : FlowAttachRequest)
    : FlowRegistry * list handle * res Flow :=
  if is_zero (fa_principal q) || is_zero (fa_constellation q) || is_zero (fa_flow q)
     || is_zero (fa_lease q) || (fa_epoch q =? 0)
  then (r, [], Err ErrFlowBinding)
  else if fr_closed r then (r, [], Err ErrFlowRegistryClosed)
  else
    match fr_flows r !! fa_flow q with
    | None => (r, [], Err ErrFlowNotFound)
    | Some x =>
        if negb (bytes_eq (f_principal x) (fa_principal q))
           || negb (bytes_eq (f_constellation x) (fa_constellation q))
        then (r, [], Err ErrFlowBinding)
        else if (fa_epoch q =? f_epoch x) && bytes_eq (fa_lease q) (f_lease x)
        then (r, [], Ok (snapshotFlow (fa_flow q) x))
        else if negb (f_epoch x =? MaxUint64) && (fa_epoch q =? u64 (f_epoch x + 1))
        then
          let y := mkFlowRecord (f_principal x) (f_constellation x) (fa_lease q) (fa_epoch q) (f_upstream x) in
          (with_flows r (<[fa_flow q := y]> (fr_flows r)) (fr_counts r), [],
           Ok (snapshotFlow (fa_flow q) y))
        else
          (with_flows r (delete (fa_flow q) (fr_flows r))
             (decrementPrincipalLocked (fr_counts r) (f_principal x)),
           [f_upstream x],
           Err (Join (Sentinel ErrFlowConflict :: omap id [close_err (f_upstream x)])))
    end.

Definition State (r : FlowRegistry) (id : list byte) : option Flow :=
  if is_zero id then None
  else if fr_closed r then None
  else snapshotFlow id <$> fr_flows r !! id.

Definition Release (r : FlowRegistry) (principal constellation flow : list byte)
    : FlowRegistry * list handle * option error :=
  if fr_closed r then (r, [], Some (Sentinel ErrFlowRegistryClosed))
  else
    match fr_flows r !! flow with
    | None => (r, [], Some (Sentinel ErrFlowNotFound))
    | Some x =>
        if is_zero principal || is_zero constellation || negb (bytes_eq (f_principal x) principal)
           || negb (bytes_eq (f_constellation x) constellation)
        then (r, [], Some (Sentinel ErrFlowBinding))
        else
          (with_flows r (delete flow (fr_flows r))
             (decrementPrincipalLocked (fr_counts r) (f_principal x)),
           [f_upstream x], close_err (f_upstream x))
    end.

Definition Count (r : FlowRegistry) : Z := Z.of_nat (size (fr_flows r)).

(** The upstreams in the iteration order of the map, which Go leaves
    unspecified; the properties below hold up to permutation. *)
Definition upstreams (flows : gmap (list byte) flowRecord) : list handle :=
  (fun kv : list byte * flowRecord => f_upstream kv.2) <$> map_to_list flows.

Definition Close (r : FlowRegistry) : FlowRegistry * list handle * option error :=
  if fr_closed r then (r, [], None)
  else
    let hs := upstreams (fr_flows r) in
    (mkFlowRegistry (fr_max r) (fr_max_principal r) ∅ ∅ true, hs, errors_join (close_err <$> hs)).
End Upstream.

(** ** Invariant *)

(** How many flows the principal [p] owns. *)
Definition flows_of (flows : gmap (list byte) flowRecord) (p : list byte) : Z :=
  Z.of_nat (size (filter (fun kv : list byte * flowRecord => f_principal kv.2 = p) flows)).

Definition flow_ok (id : list byte) (x : flowRecord) : Prop :=
  is_zero id = false /\ is_zero (f_principal x) = false /\ is_zero (f_constellation x) = false /\
  is_zero (f_lease x) = false /\ 1 <= f_epoch x <= MaxUint64.

(** The capacities hold, the per-principal counters are exact, and a closed
    registry holds nothing. *)
Definition flows_ok (r : FlowRegistry) : Prop :=
  0 < fr_max_principal r <= fr_max r /\ fr_max r <= MaxLogicalFlows /\
  Z.of_nat (size (fr_flows r)) <= fr_max r /\
  (forall p, count_of (fr_counts r) p = flows_of (fr_flows r) p /\
             flows_of (fr_flows r) p <= fr_max_principal r) /\
  map_Forall flow_ok (fr_flows r) /\
  (fr_closed r = true -> fr_flows r = ∅).

Lemma flows_of_insert flows id x p :
  flows !! id = None ->
  flows_of (<[id := x]> flows) p = flows_of flows p + (if decide (f_principal x = p) then 1 else 0).
Proof.
  intros H. unfold flows_of. destruct (decide (f_principal x = p)).
  - rewrite map_filter_insert_True, map_size_insert_None; [lia| |].
    + apply map_lookup_filter_None. by left.
    + done.
  - rewrite map_filter_insert_False, delete_id by done. lia.
Qed.

Lemma flows_of_delete flows id x p :
  flows !! id = Some x ->
  flows_of (delete id flows) p = flows_of flows p - (if decide (f_principal x = p) then 1 else 0).
Proof.
  intros H. rewrite <- (insert_delete_id flows id x H) at 2.
  rewrite flows_of_insert by apply lookup_delete_eq. lia.
Qed.

(** Replacing a flow by one of the same principal. *)
Lemma flows_of_update flows id x y p :
  flows !! id = Some x -> f_principal y = f_principal x ->
  flows_of (<[id := y]> flows) p = flows_of flows p.
Proof.
  intros H E. rewrite <- insert_delete_eq, flows_of_insert by apply lookup_delete_eq.
  rewrite (flows_of_delete _ _ _ _ H), E. lia.
Qed.

Lemma flows_of_nonneg flows p : 0 <= flows_of flows p.
Proof. unfold flows_of. lia. Qed.

Lemma flows_of_pos flows id x : flows !! id = Some x -> 1 <= flows_of flows (f_principal x).
Proof.
  intros H. pose proof (flows_of_delete _ _ _ (f_principal x) H) as E.
  rewrite decide_True in E by done. pose proof (flows_of_nonneg (delete id flows) (f_principal x)). lia.
Qed.

Lemma flows_of_empty p : flows_of ∅ p = 0.
Proof. unfold flows_of. by rewrite map_filter_empty, map_size_empty. Qed.

Lemma count_of_insert counts p n q :
  count_of (<[p := n]> counts) q = if decide (p = q) then n else count_of counts q.
Proof.
  unfold count_of. destruct (decide (p = q)) as [->|]; [by rewrite lookup_insert_eq|].
  by rewrite lookup_insert_ne.
Qed.

Lemma count_of_decrement counts p q :
  0 <= count_of counts p - 1 ->
  count_of (decrementPrincipalLocked counts p) q = count_of counts q - (if decide (p = q) then 1 else 0).
Proof.
  intros H. unfold decrementPrincipalLocked. destruct (Z.leb_spec (count_of counts p - 1) 0).
  - unfold count_of in *. destruct (decide (p = q)) as [->|].
    + rewrite lookup_delete_eq. cbn. lia.
    + rewrite lookup_delete_ne by done. lia.
  - rewrite count_of_insert. destruct (decide (p = q)) as [->|]; lia.
Qed.

Lemma flow_id_fresh n flows random id :
  flow_id_attempts n flows random = Ok id -> flows !! id = None /\ is_zero id = false.
Proof.
  revert random. induction n as [|n IH]; intros random H; cbn [flow_id_attempts] in H; inv_res; eauto.
Qed.

(** ** Outcomes *)

Lemma Create_ok r rd q r' fl :
  Create r rd q = (r', Ok fl) ->
  exists up id, let x := mkFlowRecord (fc_principal q) (fc_constellation q) (fc_lease q) 1 up in
  fc_upstream q = Some up /\ fr_closed r = false /\ flow_ok id x /\ fr_flows r !! id = None /\
  Z.of_nat (size (fr_flows r)) < fr_max r /\
  count_of (fr_counts r) (fc_principal q) < fr_max_principal r /\ fl = snapshotFlow id x /\
  r' = with_flows r (<[id := x]> (fr_flows r))
         (<[fc_principal q := count_of (fr_counts r) (fc_principal q) + 1]> (fr_counts r)).
Proof.
  unfold Create. intros H. destruct (fc_upstream q) as [up|]; [|inv_res].
  destruct (is_zero (fc_principal q) || is_zero (fc_constellation q) || is_zero (fc_lease q)) eqn:G;
    [inv_res|].
  destruct (fr_closed r) eqn:Gc; [inv_res|].
  destruct ((fr_max r <=? _) || _) eqn:Gm; [inv_res|].
  destruct (if is_zero (fc_flow q) then _ else _) as [id|] eqn:E; [|discriminate].
  assert (Hid : fr_flows r !! id = None /\ is_zero id = false).
  { clear H. unfold newFlowIDLocked in E. inv_res; eauto using flow_id_fresh. }
  clear E. inv_res. guards. zb. exists up, id. unfold flow_ok, MaxUint64. cbn. destruct Hid. split_and!; try done; lia.
Qed.

Lemma Create_err r rd q r' e : Create r rd q = (r', Err e) -> r' = r.
Proof.
  unfold Create. intros H. destruct (fc_upstream q); [|by inv_res].
  repeat (case_match; try (by simplify_eq)).
Qed.

Lemma flows_ok_insert r id x :
  flows_ok r -> fr_closed r = false -> flow_ok id x -> fr_flows r !! id = None ->
  Z.of_nat (size (fr_flows r)) < fr_max r ->
  count_of (fr_counts r) (f_principal x) < fr_max_principal r ->
  flows_ok (with_flows r (<[id := x]> (fr_flows r))
              (<[f_principal x := count_of (fr_counts r) (f_principal x) + 1]> (fr_counts r))).
Proof.
  intros (Hm & Hm' & Hs & Hp & Hf & Hc) Ho Hx Hn Hl Hpl.
  unfold flows_ok. cbn. split_and!; try done; try lia.
  - rewrite map_size_insert_None by done. lia.
  - intros p. rewrite count_of_insert, flows_of_insert by done. destruct (Hp p) as [H1 H2].
    destruct (decide (f_principal x = p)) as [<-|]; lia.
  - by apply map_Forall_insert_2.
  - intros; congruence.
Qed.

Lemma flows_ok_delete r id x :
  flows_ok r -> fr_flows r !! id = Some x ->
  flows_ok (with_flows r (delete id (fr_flows r))
              (decrementPrincipalLocked (fr_counts r) (f_principal x))).
Proof.
  intros (Hm & Hm' & Hs & Hp & Hf & Hc) Hx. unfold flows_ok. cbn.
  pose proof (flows_of_pos _ _ _ Hx) as Hpos. split_and!; try done; try lia.
  - pose proof (map_subseteq_size _ _ (delete_subseteq (fr_flows r) id)). lia.
  - intros p. rewrite count_of_decrement by (rewrite (proj1 (Hp _)); lia).
    rewrite (flows_of_delete _ _ _ _ Hx). destruct (Hp p). destruct (decide _); lia.
  - by apply map_Forall_delete.
  - intros E. rewrite (Hc E) in Hx. by rewrite lookup_empty in Hx.
Qed.

Lemma flows_ok_update r id x y :
  flows_ok r -> fr_flows r !! id = Some x -> flow_ok id y -> f_principal y = f_principal x ->
  flows_ok (with_flows r (<[id := y]> (fr_flows r)) (fr_counts r)).
Proof.
  intros (Hm & Hm' & Hs & Hp & Hf & Hc) Hx Hy E. unfold flows_ok. cbn. split_and!; try done; try lia.
  - rewrite map_size_insert_Some by eauto. lia.
  - intros p. rewrite (flows_of_update _ _ _ _ _ Hx E). apply Hp.
  - by apply map_Forall_insert_2.
  - intros Ec. rewrite (Hc Ec) in Hx. by rewrite lookup_empty in Hx.
Qed.

Inductive flow_op :=
| FCreate (random : list (error + list byte)) (q : FlowCreateRequest)
| FAttach (q : FlowAttachRequest)
| FRelease (principal constellation flow : list byte)
| FClose.

Section Executions.
Variable close_err : handle -> option error.

(** The four outcomes of an attach: refused, repeated, advanced, conflict. *)
Lemma Attach_cases r q r' hs o :
  Attach close_err r q = (r', hs, o) ->
  let id := fa_flow q in
  (r' = r /\ hs = [] /\ exists e, o = Err e) \/
  (exists x, fr_closed r = false /\ fr_flows r !! id = Some x /\ f_principal x = fa_principal q /\
     f_constellation x = fa_constellation q /\ is_zero (fa_lease q) = false /\
     ((fa_epoch q = f_epoch x /\ fa_lease q = f_lease x /\ r' = r /\ hs = [] /\
       o = Ok (snapshotFlow id x)) \/
      (f_epoch x <> MaxUint64 /\ fa_epoch q = u64 (f_epoch x + 1) /\ hs = [] /\
       let y := mkFlowRecord (f_principal x) (f_constellation x) (fa_lease q) (fa_epoch q)
                  (f_upstream x) in
       r' = with_flows r (<[id := y]> (fr_flows r)) (fr_counts r) /\ o = Ok (snapshotFlow id y)) \/
      ((fa_epoch q, fa_lease q) <> (f_epoch x, f_lease x) /\
       (f_epoch x = MaxUint64 \/ fa_epoch q <> u64 (f_epoch x + 1)) /\
       r' = with_flows r (delete id (fr_flows r))
              (decrementPrincipalLocked (fr_counts r) (f_principal x)) /\
       hs = [f_upstream x] /\
       o = Err (Join (Sentinel ErrFlowConflict :: omap Datatypes.id [close_err (f_upstream x)]))))).
Proof.
  unfold Attach. cbn zeta. intros H.
  destruct (_ || (fa_epoch q =? 0)) eqn:G0; [left; simplify_eq; eauto|].
  destruct (fr_closed r) eqn:Gc; [left; simplify_eq; eauto|].
  destruct (fr_flows r !! fa_flow q) as [x|] eqn:Ex; [|left; simplify_eq; eauto].
  destruct (negb _ || _) eqn:Gb; [left; simplify_eq; eauto|].
  guards. rewrite bytes_eq_true in *. right. exists x. split_and!; try done.
  destruct (Z.eqb_spec (fa_epoch q) (f_epoch x)), (bytes_eq (fa_lease q) (f_lease x)) eqn:El;
    cbn [andb] in H; rewrite ?bytes_eq_true, ?bytes_eq_false in El.
  1: { left. simplify_eq. by split_and!. }
  all: right; destruct (Z.eqb_spec (f_epoch x) MaxUint64),
    (Z.eqb_spec (fa_epoch q) (u64 (f_epoch x + 1))); cbn [andb negb] in H; simplify_eq;
    first [by left; split_and!|right; split_and!; try done; solve [naive_solver]].
Qed.

Lemma Release_cases r p c f r' hs o :
  Release close_err r p c f = (r', hs, o) ->
  (r' = r /\ hs = [] /\ is_Some o) \/
  (exists x, fr_closed r = false /\ fr_flows r !! f = Some x /\ f_principal x = p /\
     f_constellation x = c /\ hs = [f_upstream x] /\ o = close_err (f_upstream x) /\
     r' = with_flows r (delete f (fr_flows r))
            (decrementPrincipalLocked (fr_counts r) (f_principal x))).
Proof.
  unfold Release. intros H.
  destruct (fr_closed r) eqn:Gc; [left; simplify_eq; eauto|].
  destruct (fr_flows r !! f) as [x|] eqn:Ex; [|left; simplify_eq; eauto].
  destruct (_ || negb (bytes_eq (f_constellation x) c)) eqn:Gb; [left; simplify_eq; eauto|].
  guards. rewrite bytes_eq_true in *. right. exists x. by simplify_eq.
Qed.

(** The registry after a call, the upstreams it took over, those it closed. *)
Definition flow_step (r : FlowRegistry) (op : flow_op) : FlowRegistry * list handle * list handle :=
  match op with
  | FCreate rd q =>
      match Create r rd q with
      | (r', Ok fl) => (r', [fl_upstream fl], [])
      | (r', Err _) => (r', [], [])
      end
  | FAttach q => let '(r', hs, _) := Attach close_err r q in (r', [], hs)
  | FRelease p c f => let '(r', hs, _) := Release close_err r p c f in (r', [], hs)
  | FClose => let '(r', hs, _) := Close close_err r in (r', [], hs)
  end.

Fixpoint flow_run (r : FlowRegistry) (ops : list flow_op) : FlowRegistry * list handle * list handle :=
  match ops with
  | [] => (r, [], [])
  | op :: ops =>
      let '(r1, got, gone) := flow_step r op in
      let '(r2, got', gone') := flow_run r1 ops in (r2, got ++ got', gone ++ gone')
  end.

Lemma upstreams_insert flows id x :
  flows !! id = None -> upstreams (<[id := x]> flows) ≡ₚ f_upstream x :: upstreams flows.
Proof. intros H. unfold upstreams. by rewrite map_to_list_insert. Qed.

Lemma upstreams_delete flows id x :
  flows !! id = Some x -> upstreams flows ≡ₚ f_upstream x :: upstreams (delete id flows).
Proof. intros H. unfold upstreams. by rewrite <- (map_to_list_delete _ _ _ H). Qed.

Lemma upstreams_update flows id x y :
  flows !! id = Some x -> f_upstream y = f_upstream x ->
  upstreams (<[id := y]> flows) ≡ₚ upstreams flows.
Proof.
  intros H E. rewrite <- insert_delete_eq, upstreams_insert by apply lookup_delete_eq.
  by rewrite (upstreams_delete _ _ _ H), E.
Qed.

Lemma flow_step_ok r op :
  flows_ok r ->
  let '(r', got, gone) := flow_step r op in
  flows_ok r' /\ gone ++ upstreams (fr_flows r') ≡ₚ got ++ upstreams (fr_flows r).
Proof.
  intros Hr. destruct op as [rd q|q|p c f|]; cbn [flow_step].
  - destruct (Create r rd q) as [r' [fl|e]] eqn:E.
    + apply Create_ok in E as (up & id & _ & Hc & Hx & Hn & Hs & Hp & -> & ->). split.
      * by apply (flows_ok_insert r id _ Hr Hc Hx Hn Hs).
      * cbn. by rewrite upstreams_insert.
    + apply Create_err in E as ->. done.
  - destruct (Attach close_err r q) as [[r' hs] o] eqn:E.
    apply Attach_cases in E as [(-> & -> & _)|(x & Hc & Hx & Hp & Hcc & Hl & H)]; [done|].
    destruct H as [(_ & _ & -> & -> & _)|[(Hm & He & -> & -> & _)|(_ & _ & -> & -> & _)]]; [done| |].
    + assert (Hy : flow_ok (fa_flow q) x) by (destruct Hr as (_ & _ & _ & _ & Hf & _); by apply Hf).
      split; [|cbn; by rewrite (upstreams_update _ _ x)].
      apply (flows_ok_update r _ x); try done. destruct Hy as (? & ? & ? & ? & ?).
      unfold flow_ok. cbn. rewrite He, u64_small by (unfold is_u64, MaxUint64 in *; lia).
      split_and!; try done; lia.
    + split; [by apply flows_ok_delete|]. cbn. by rewrite <- upstreams_delete.
  - destruct (Release close_err r p c f) as [[r' hs] o] eqn:E.
    apply Release_cases in E as [(-> & -> & _)|(x & Hc & Hx & _ & _ & -> & _ & ->)]; [done|].
    split; [by apply flows_ok_delete|]. cbn. by rewrite <- upstreams_delete.
  - unfold Close. destruct (fr_closed r) eqn:Ec; [done|].
    split; [|cbn; by rewrite app_nil_r].
    destruct Hr as (Hm & Hm' & _). unfold flows_ok. cbn. rewrite map_size_empty.
    split_and!; try done; try lia. intros p. rewrite flows_of_empty. split; [done|lia].
Qed.

Lemma flow_run_ok ops : forall r r' got gone,
  flows_ok r -> flow_run r ops = (r', got, gone) ->
  flows_ok r' /\ gone ++ upstreams (fr_flows r') ≡ₚ got ++ upstreams (fr_flows r).
Proof.
  induction ops as [|op ops IH]; intros r r' got gone Hr H; cbn [flow_run] in H; [by simplify_eq|].
  pose proof (flow_step_ok r op Hr) as Hs.
  destruct (flow_step r op) as [[r1 got1] gone1]. destruct Hs as [Hr1 Hp].
  destruct (flow_run r1 ops) as [[r2 got2] gone2] eqn:E. simplify_eq.
  apply IH in E as [Hr2 Hp2]; [|done]. split; [done|].
  rewrite <- app_assoc, Hp2. rewrite (Permutation_app_comm got1 got2), <- app_assoc, <- Hp.
  rewrite !app_assoc. by rewrite (Permutation_app_comm gone1 got2).
Qed.

Lemma NewFlowRegistry_ok n m r :
  NewFlowRegistry n m = Ok r -> flows_ok r /\ fr_flows r = ∅ /\ fr_closed r = false.
Proof.
  unfold NewFlowRegistry. intros H. inv_res. guards. zb. unfold flows_ok. cbn.
  rewrite map_size_empty. split_and!; try done; try lia.
  intros p. rewrite flows_of_empty. split; [done|lia].
Qed.

(** *** Lease lineage *)

(** The flow [id] is held after every call of the run. *)
Fixpoint stays (id : list byte) (r : FlowRegistry) (ops : list flow_op) : bool :=
  match ops with
  | [] => true
  | op :: ops => let r1 := (flow_step r op).1.1 in
                 bool_decide (is_Some (fr_flows r1 !! id)) && stays id r1 ops
  end.

(** The lease of a flow may be renewed at the same epoch by the same key, or
    move to the next epoch; nothing else about the flow changes. *)
Definition lineage (x y : flowRecord) : Prop :=
  f_principal y = f_principal x /\ f_constellation y = f_constellation x /\
  f_upstream y = f_upstream x /\ f_epoch x <= f_epoch y /\
  (f_epoch y = f_epoch x -> f_lease y = f_lease x).

#[export] Instance lineage_preorder : PreOrder lineage.
Proof.
  split; [intros x; unfold lineage; split_and!; done || lia|].
  intros x y z (P1 & C1 & U1 & E1 & L1) (P2 & C2 & U2 & E2 & L2). unfold lineage.
  split_and!; try congruence; [lia|]. intros E. rewrite L2, L1; lia || done.
Qed.

Lemma flow_step_lineage r op id x y :
  flows_ok r -> fr_flows r !! id = Some x ->
  fr_flows (flow_step r op).1.1 !! id = Some y -> lineage x y.
Proof.
  intros Hr Hx. destruct op as [rd q|q|p c f|]; cbn [flow_step].
  - destruct (Create r rd q) as [r' [fl|e]] eqn:E; cbn.
    + apply Create_ok in E as (up & id' & _ & _ & _ & Hn & _ & _ & _ & ->). cbn.
      rewrite lookup_insert_ne, Hx by congruence. by intros [= ->].
    + apply Create_err in E as ->. rewrite Hx. by intros [= ->].
  - destruct (Attach close_err r q) as [[r' hs] o] eqn:E; cbn.
    apply Attach_cases in E as [(-> & _)|(z & _ & Hz & _ & _ & _ & H)]; [rewrite Hx; by intros [= ->]|].
    destruct H as [(_ & _ & -> & _)|[(Hm & He & _ & -> & _)|(_ & _ & -> & _)]]; cbn.
    + rewrite Hx. by intros [= ->].
    + destruct (decide (fa_flow q = id)) as [<-|]; [|rewrite lookup_insert_ne, Hx by done; by intros [= ->]].
      rewrite lookup_insert_eq. rewrite Hx in Hz. intros [= <-]. simplify_eq.
      destruct Hr as (_ & _ & _ & _ & Hf & _). destruct (Hf _ _ Hx) as (_ & _ & _ & _ & ?).
      rewrite u64_small in He by (unfold is_u64, MaxUint64 in *; lia).
      unfold lineage; cbn; split_and!; try done; lia.
    + intros Hy. apply lookup_delete_Some in Hy as [_ Hy]. rewrite Hx in Hy. by injection Hy as ->.
  - destruct (Release close_err r p c f) as [[r' hs] o] eqn:E; cbn.
    apply Release_cases in E as [(-> & _)|(z & _ & _ & _ & _ & _ & _ & ->)]; cbn.
    + rewrite Hx. by intros [= ->].
    + intros Hy. apply lookup_delete_Some in Hy as [_ Hy]. rewrite Hx in Hy. by injection Hy as ->.
  - unfold Close. destruct (fr_closed r); cbn; [rewrite Hx; by intros [= ->]|].
    by rewrite lookup_empty.
Qed.

Lemma flow_run_lineage ops : forall r id x y,
  flows_ok r -> fr_flows r !! id = Some x -> stays id r ops = true ->
  fr_flows (flow_run r ops).1.1 !! id = Some y -> lineage x y.
Proof.
  induction ops as [|op ops IH]; intros r id x y Hr Hx Hs Hy.
  { cbn in Hy. rewrite Hx in Hy. by injection Hy as ->. }
  cbn [stays flow_run] in Hs, Hy. apply andb_true_iff in Hs as [H1 Hs].
  pose proof (flow_step_ok r op Hr) as Hok.
  destruct (flow_step r op) as [[r1 got1] gone1] eqn:E. destruct Hok as [Hr1 _].
  apply bool_decide_eq_true in H1 as [z Hz]. cbn [fst] in *.
  transitivity z.
  - eapply (flow_step_lineage r op); eauto. by rewrite E.
  - eapply (IH r1); eauto. by destruct (flow_run r1 ops) as [[]].
Qed.
End Executions.

(** ** Properties *)

(** C11: in every sequence of calls the registry keeps within the total and the
    per-principal capacity, its per-principal counters are exactly the numbers
    of flows, and every upstream it took over is either still held by exactly
    one flow or has been closed exactly once (as multisets); after [Close]
    every one has been closed. *)
Theorem upstreams_closed_once close_err n m r0 ops r got gone :
  NewFlowRegistry n m = Ok r0 -> flow_run close_err r0 ops = (r, got, gone) ->
  flows_ok r /\ gone ++ upstreams (fr_flows r) ≡ₚ got /\
  (fr_closed r = true -> gone ≡ₚ got).
Proof.
  intros (H0 & He & _)%NewFlowRegistry_ok H.
  destruct (flow_run_ok close_err ops r0 r got gone H0 H) as [Hr Hp].
  rewrite He in Hp. change (upstreams ∅) with (@nil Z) in Hp. rewrite app_nil_r in Hp.
  split_and!; [done..|]. intros Hc. destruct Hr as (_ & _ & _ & _ & _ & Hcl).
  rewrite (Hcl Hc) in Hp. change (upstreams ∅) with (@nil Z) in Hp. by rewrite app_nil_r in Hp.
Qed.

(** as long as a flow stays in the registry its principal, constellation
    and upstream never change, its lease epoch never decreases, and one epoch
    has one lease key: two leases can not both be current. *)
Theorem lease_epochs_exclusive close_err n m r0 ops0 ops id x y :
  NewFlowRegistry n m = Ok r0 ->
  let r := (flow_run close_err r0 ops0).1.1 in
  fr_flows r !! id = Some x -> stays close_err id r ops = true ->
  fr_flows (flow_run close_err r ops).1.1 !! id = Some y -> lineage x y.
Proof.
  intros (H0 & _)%NewFlowRegistry_ok. cbn zeta.
  destruct (flow_run close_err r0 ops0) as [[r got] gone] eqn:E.
  apply flow_run_ok in E as [Hr _]; [|done]. by apply flow_run_lineage.
Qed.

(** an attach by the flow's own principal and constellation whose epoch is
    neither the current one with the current key nor the next one destroys the
    flow: it is removed, its upstream (and no other) is closed, and the error
    is [ErrFlowConflict], joined with the error of the close. *)
Theorem attach_conflict close_err r q x :
  flows_ok r -> fr_closed r = false -> fr_flows r !! fa_flow q = Some x ->
  fa_principal q = f_principal x -> fa_constellation q = f_constellation x ->
  is_zero (fa_lease q) = false -> 1 <= fa_epoch q <= MaxUint64 ->
  (fa_epoch q, fa_lease q) <> (f_epoch x, f_lease x) -> fa_epoch q <> f_epoch x + 1 ->
  exists r' e, Attach close_err r q = (r', [f_upstream x], Err e) /\
    errors_is e ErrFlowConflict = true /\ fr_flows r' = delete (fa_flow q) (fr_flows r) /\
    (forall p, count_of (fr_counts r') p = flows_of (fr_flows r') p).
Proof.
  intros Hr Hc Hx Hp Hcc Hl He Hne Hns.
  pose proof Hr as (_ & _ & _ & _ & Hf & _). destruct (Hf _ _ Hx) as (Z1 & Z2 & Z3 & _ & Z5).
  destruct (Attach close_err r q) as [[r' hs] o] eqn:E.
  pose proof E as E'. unfold Attach in E'.
  rewrite Hp, Hcc, Z1, Z2, Z3, Hl, Hc, Hx, !bytes_eq_refl, (proj2 (Z.eqb_neq _ _)) in E' by lia.
  cbn [orb negb] in E'.
  apply Attach_cases in E as [(-> & -> & e & ->)|(y & _ & Hy & _ & _ & _ & H)].
  { exfalso. repeat (case_match; try (by simplify_eq)). }
  rewrite Hx in Hy. injection Hy as <-.
  destruct H as [(H1 & H2 & _)|[(H1 & H2 & _)|(_ & _ & Hr' & -> & ->)]].
  - by rewrite H1, H2 in Hne.
  - rewrite u64_small in H2 by (unfold is_u64, MaxUint64 in *; lia). done.
  - exists r'. eexists. split; [done|]. split; [done|].
    pose proof (flows_ok_delete _ _ _ Hr Hx) as (_ & _ & _ & Hcnt & _).
    subst r'. split; [done|]. intros p. apply Hcnt.
Qed.

(** *** A concrete run *)

Module FlowExample.
Definition p : list byte := replicate 32 x01.
Definition c : list byte := replicate 16 x02.
Definition k1 : list byte := replicate 16 x03.
Definition k2 : list byte := replicate 16 x04.
Definition id1 : list byte := replicate 16 x05.
Definition no_err (h : Z) : option error := None.
Definition ops : list flow_op :=
  [FCreate [] (mkCreate p c id1 k1 (Some 7));
   FAttach (mkAttach p c id1 k2 2);
   FCreate [inr id1; inr k1] (mkCreate p c (replicate 16 x00) k1 (Some 8))].
Definition r0 : FlowRegistry := mkFlowRegistry 2 2 ∅ ∅ false.

Lemma upstreams_closed_once_witness :
  let run := flow_run no_err r0 (ops ++ [FAttach (mkAttach p c id1 k1 2); FClose]) in
  fr_closed run.1.1 = true /\ run.1.2 = [7; 8] /\ run.2 ≡ₚ [7; 8].
Proof.
  cbn zeta. set (run := flow_run _ _ _).
  assert (Hc : fr_closed run.1.1 = true) by (vm_compute; reflexivity).
  assert (Hg : run.1.2 = [7; 8]) by (vm_compute; reflexivity).
  split; [exact Hc|]. split; [exact Hg|]. rewrite <- Hg.
  assert (E : run = (run.1.1, run.1.2, run.2)) by (by destruct run as [[]]).
  exact (proj2 (proj2 (upstreams_closed_once no_err 2 2 r0 _ _ _ _ eq_refl E)) Hc).
Defined.

Lemma lease_epochs_exclusive_witness :
  lineage (mkFlowRecord p c k1 1 7) (mkFlowRecord p c k2 2 7).
Proof.
  apply (lease_epochs_exclusive no_err 2 2 r0 (take 1 ops) (drop 1 ops) id1);
    vm_compute; reflexivity.
Defined.

Lemma attach_conflict_witness :
  let r := (flow_run no_err r0 ops).1.1 in
  exists r' e, Attach no_err r (mkAttach p c id1 k1 2) = (r', [7], Err e) /\
    errors_is e ErrFlowConflict = true /\ fr_flows r' = delete id1 (fr_flows r) /\
    (forall q, count_of (fr_counts r') q = flows_of (fr_flows r') q).
Proof.
  cbn zeta. set (r := (flow_run _ _ _).1.1).
  assert (Hr : flows_ok r).
  { apply (flow_run_ok no_err ops r0 r (flow_run no_err r0 ops).1.2 (flow_run no_err r0 ops).2).
    - by apply (NewFlowRegistry_ok 2 2).
    - unfold r. by destruct (flow_run no_err r0 ops) as [[]]. }
  assert (Hx : fr_flows r !! id1 = Some (mkFlowRecord p c k2 2 7)) by (vm_compute; reflexivity).
  apply (attach_conflict no_err r (mkAttach p c id1 k1 2) (mkFlowRecord p c k2 2 7) Hr); try exact Hx;
    try reflexivity; cbn; unfold MaxUint64; try lia. by vm_compute.
Defined.
End FlowExample.
