(* ===== verification/Controller.v ===== *)
(** * Leases of a constellation (internal/constellation/controller.go, scheduler.go)

    A constellation is one logical client connection over several
    independently authenticated carriers, its leases.  [Controller] is the
    server's table of leases; [Scheduler_Select] ranks the leases a client can
    use.  Lease records are only reached through the map, so they are plain
    values; a resource ([io.Closer]) is a handle, [None] a nil one, and the
    operations that close resources return the closed handles in order.
    Receivers are not nil and the mutex makes each method one step. *)
From stdpp Require Import prelude gmap list sorting.
From S2P Require Import Prelude Auth.

Abbreviation handle := Z (only parsing).

(** ** The table of leases *)

Inductive LeaseState := LeaseActive | LeaseDraining.
#[global] Instance LeaseState_eq_dec : EqDecision LeaseState.
Proof. solve_decision. Defined.

Record LeaseCandidate := mkCandidate {
  lc_key : list byte; lc_principal : list byte; lc_constellation : list byte;
  lc_carrier : Z; lc_resource : option handle
}.

Record leaseRecord := mkLease { lr_candidate : LeaseCandidate; lr_state : LeaseState; lr_load : Z }.

Record LeaseSnapshot := mkSnapshot {
  ls_id : Z; ls_key : list byte; ls_carrier : Z; ls_state : LeaseState; ls_load : Z
}.

Record ControllerState := mkControllerState {
  cs_primary : Z; cs_active : Z; cs_draining : Z; cs_closed : bool
}.

Record Controller := mkController {
  ct_principal : list byte;
  ct_constellation : list byte;
  ct_maxActive : Z;
  ct_maxDraining : Z;
  ct_nextID : Z;
  ct_primary : Z;
  ct_tieCursor : Z;
  ct_leases : gmap Z leaseRecord;
  ct_order : list Z;
  ct_closed : bool
}.

Definition set_leases (c : Controller) (ls : gmap Z leaseRecord) : Controller :=
  mkController (ct_principal c) (ct_constellation c) (ct_maxActive c) (ct_maxDraining c) (ct_nextID c)
    (ct_primary c) (ct_tieCursor c) ls (ct_order c) (ct_closed c).
Definition set_primary (c : Controller) (id : Z) : Controller :=
  mkController (ct_principal c) (ct_constellation c) (ct_maxActive c) (ct_maxDraining c) (ct_nextID c)
    id (ct_tieCursor c) (ct_leases c) (ct_order c) (ct_closed c).

Definition validateCandidate (c : Controller) (candidate : LeaseCandidate) : res unit :=
  if is_zero (lc_key candidate) || bool_decide (lc_resource candidate = None)
     || negb (carrier_valid (lc_carrier candidate))
     || negb (bytes_eq (lc_principal candidate) (ct_principal c))
     || negb (bytes_eq (lc_constellation candidate) (ct_constellation c))
  then Err ErrLeaseBinding else Ok tt.

Definition addLocked (c : Controller) (candidate : LeaseCandidate) : Controller * Z :=
  let id := if ct_nextID c =? 0 then 1 else ct_nextID c in
  (mkController (ct_principal c) (ct_constellation c) (ct_maxActive c) (ct_maxDraining c) (u64 (id + 1))
     (ct_primary c) (ct_tieCursor c) (<[id := mkLease candidate LeaseActive 0]> (ct_leases c))
     (ct_order c ++ [id]) (ct_closed c), id).

(** How many leases are in a state. *)
Definition count_in (ls : gmap Z leaseRecord) (state : LeaseState) : Z :=
  Z.of_nat (size (filter (fun kv : Z * leaseRecord => lr_state kv.2 = state) ls)).
Definition countStateLocked (c : Controller) (state : LeaseState) : Z := count_in (ct_leases c) state.

Definition is_active (c : Controller) (id : Z) : bool :=
  match ct_leases c !! id with Some r => bool_decide (lr_state r = LeaseActive) | None => false end.

Definition firstActiveLocked (c : Controller) : Z :=
  match filter (fun id => is_active c id = true) (ct_order c) with id :: _ => id | [] => 0 end.

(** Deletes the first occurrence. *)
Fixpoint removeOrder (id : Z) (order : list Z) : list Z :=
  match order with
  | [] => []
  | x :: rest => if x =? id then rest else x :: removeOrder id rest
  end.

Definition snapshotLease (id : Z) (r : leaseRecord) : LeaseSnapshot :=
  mkSnapshot id (lc_key (lr_candidate r)) (lc_carrier (lr_candidate r)) (lr_state r) (lr_load r).

Definition NewController (principal constellation : list byte) (maxActive maxDraining : Z)
    (primary : LeaseCandidate) : res Controller :=
  if is_zero principal || is_zero constellation || (maxActive <=? 0) || (8 <? maxActive)
     || (maxDraining <=? 0) || (8 <? maxDraining)
  then Err ErrControllerConfig
  else
    let c := mkController principal constellation maxActive maxDraining 1 0 0 ∅ [] false in
    _ ← validateCandidate c primary;
    let '(c, id) := addLocked c primary in
    Ok (set_primary c id).

Definition Add (c : Controller) (candidate : LeaseCandidate) : Controller * res Z :=
  match validateCandidate c candidate with
  | Err e => (c, Err e)
  | Ok _ =>
      if ct_closed c then (c, Err ErrControllerClosed)
      else if decide (map_Exists (fun _ r => lc_key (lr_candidate r) = lc_key candidate) (ct_leases c))
      then (c, Err ErrLeaseDuplicate)
      else if ct_maxActive c <=? countStateLocked c LeaseActive then (c, Err ErrLeaseCapacity)
      else
        let '(c, id) := addLocked c candidate in
        (if ct_primary c =? 0 then set_primary c id else c, Ok id)
  end.

Definition UpdateLoad (c : Controller) (id load : Z) : Controller * res unit :=
  if ct_closed c then (c, Err ErrControllerClosed)
  else
    match ct_leases c !! id with
    | None => (c, Err ErrLeaseNotFound)
    | Some r => (set_leases c (<[id := mkLease (lr_candidate r) (lr_state r) load]> (ct_leases c)), Ok tt)
    end.

(** The loop of [Select]: the least load so far and the active leases that
    have it, in order. *)
Fixpoint select_ties (ls : gmap Z leaseRecord) (order : list Z) (minimum : Z) (ties : list (Z * leaseRecord))
    : list (Z * leaseRecord) :=
  match order with
  | [] => ties
  | id :: order =>
      match ls !! id with
      | Some r =>
          if negb (bool_decide (lr_state r = LeaseActive)) then select_ties ls order minimum ties
          else if lr_load r <? minimum then select_ties ls order (lr_load r) [(id, r)]
          else if lr_load r =? minimum then select_ties ls order minimum (ties ++ [(id, r)])
          else select_ties ls order minimum ties
      | None => select_ties ls order minimum ties
      end
  end.

Definition Select (c : Controller) : Controller * res LeaseSnapshot :=
  if ct_closed c then (c, Err ErrControllerClosed)
  else
    let ties := select_ties (ct_leases c) (ct_order c) MaxUint64 [] in
    match ties !! Z.to_nat (ct_tieCursor c mod len ties) with
    | None => (c, Err ErrNoActiveLease)
    | Some (id, r) =>
        (mkController (ct_principal c) (ct_constellation c) (ct_maxActive c) (ct_maxDraining c) (ct_nextID c)
           (ct_primary c) (u64 (ct_tieCursor c + 1)) (ct_leases c) (ct_order c) (ct_closed c),
         Ok (snapshotLease id r))
    end.

(** [record.state = LeaseDraining]. *)
Definition drain (c : Controller) (id : Z) : Controller :=
  match ct_leases c !! id with
  | Some r => set_leases c (<[id := mkLease (lr_candidate r) LeaseDraining (lr_load r)]> (ct_leases c))
  | None => c
  end.

Definition Promote (c : Controller) (id : Z) : Controller * res unit :=
  if ct_closed c then (c, Err ErrControllerClosed)
  else
    match ct_leases c !! id with
    | None => (c, Err ErrLeaseNotFound)
    | Some _ =>
        if negb (is_active c id) then (c, Err ErrLeaseState)
        else if ct_primary c =? id then (c, Ok tt)
        else if is_active c (ct_primary c) then
          if ct_maxDraining c <=? countStateLocked c LeaseDraining then (c, Err ErrLeaseCapacity)
          else (set_primary (drain c (ct_primary c)) id, Ok tt)
        else (set_primary c id, Ok tt)
    end.

Definition BeginDrain (c : Controller) (id : Z) : Controller * res unit :=
  if ct_closed c then (c, Err ErrControllerClosed)
  else
    match ct_leases c !! id with
    | None => (c, Err ErrLeaseNotFound)
    | Some _ =>
        if negb (is_active c id) then (c, Err ErrLeaseState)
        else if ct_maxDraining c <=? countStateLocked c LeaseDraining then (c, Err ErrLeaseCapacity)
        else if (id =? ct_primary c) && (countStateLocked c LeaseActive <=? 1) then (c, Err ErrNoActiveLease)
        else
          let c := drain c id in
          (if id =? ct_primary c then set_primary c (firstActiveLocked c) else c, Ok tt)
    end.

Definition State (c : Controller) : ControllerState :=
  mkControllerState (ct_primary c) (countStateLocked c LeaseActive) (countStateLocked c LeaseDraining) (ct_closed c).

Section Close.
(** The error of closing a resource. *)
Variable close_err : handle -> option error.

Definition closed_handles (rs : list (option handle)) : list handle := omap id rs.

Definition removeAndClose (c : Controller) (id : Z) (requireDraining : bool)
    : Controller * list handle * option error :=
  if ct_closed c then (c, [], Some (Sentinel ErrControllerClosed))
  else
    match ct_leases c !! id with
    | None => (c, [], Some (Sentinel ErrLeaseNotFound))
    | Some r =>
        if requireDraining && negb (bool_decide (lr_state r = LeaseDraining))
        then (c, [], Some (Sentinel ErrLeaseState))
        else
          let c' := mkController (ct_principal c) (ct_constellation c) (ct_maxActive c) (ct_maxDraining c)
                      (ct_nextID c) (ct_primary c) (ct_tieCursor c) (delete id (ct_leases c))
                      (removeOrder id (ct_order c)) (ct_closed c) in
          let c' := if ct_primary c' =? id then set_primary c' (firstActiveLocked c') else c' in
          match lc_resource (lr_candidate r) with
          | Some h => (c', [h], close_err h)
          | None => (c', [], None)
          end
    end.

Definition CompleteDrain (c : Controller) (id : Z) := removeAndClose c id true.
Definition Fail (c : Controller) (id : Z) := removeAndClose c id false.

(** The resources in the order of the leases. *)
Definition resources (c : Controller) : list handle :=
  omap (fun id => r ← ct_leases c !! id; lc_resource (lr_candidate r)) (ct_order c).

Definition Stop (c : Controller) : Controller * list handle * option error :=
  if ct_closed c then (c, [], None)
  else
    (mkController (ct_principal c) (ct_constellation c) (ct_maxActive c) (ct_maxDraining c) (ct_nextID c)
       0 (ct_tieCursor c) ∅ [] true,
     resources c,
     errors_join (close_err <$> resources c)).
End Close.

(** ** The invariant *)

Record controller_ok (c : Controller) : Prop := {
  co_nodup : NoDup (ct_order c);
  co_order : forall id, id ∈ ct_order c <-> is_Some (ct_leases c !! id);
  co_ids : forall id, is_Some (ct_leases c !! id) -> 1 <= id < ct_nextID c;
  co_next : 1 <= ct_nextID c < 2 ^ 64;
  co_keys : forall i j r s, ct_leases c !! i = Some r -> ct_leases c !! j = Some s ->
    lc_key (lr_candidate r) = lc_key (lr_candidate s) -> i = j;
  co_bound : forall id r, ct_leases c !! id = Some r ->
    is_Some (lc_resource (lr_candidate r)) /\ lc_principal (lr_candidate r) = ct_principal c /\
    lc_constellation (lr_candidate r) = ct_constellation c;
  co_active : countStateLocked c LeaseActive <= ct_maxActive c;
  co_draining : countStateLocked c LeaseDraining <= ct_maxDraining c;
  co_primary : ct_primary c = 0 /\ countStateLocked c LeaseActive = 0 \/ is_active c (ct_primary c) = true;
  co_closed : ct_closed c = true -> ct_leases c = ∅ /\ ct_order c = []
}.

Definition one_if (b : bool) : Z := if b then 1 else 0.

(** Decides the equalities of states in the counts. *)
Ltac lease_states := repeat match goal with
  | |- context [bool_decide (?a = ?b :> LeaseState)] =>
      first [rewrite (bool_decide_true (a = b)) by done | rewrite (bool_decide_false (a = b)) by done]
  end; cbn [one_if].

Lemma count_nonneg ls st : 0 <= count_in ls st.
Proof. unfold count_in. lia. Qed.

Lemma count_new ls id r st : ls !! id = None ->
  count_in (<[id := r]> ls) st = count_in ls st + one_if (bool_decide (lr_state r = st)).
Proof.
  intros Hn. unfold count_in, one_if. case_bool_decide as E.
  - rewrite map_filter_insert_True by done. rewrite map_size_insert_None; [lia|].
    apply map_lookup_filter_None. by left.
  - rewrite map_filter_insert_False by done. rewrite delete_id by done. lia.
Qed.

Lemma count_delete ls id r st : ls !! id = Some r ->
  count_in (delete id ls) st = count_in ls st - one_if (bool_decide (lr_state r = st)).
Proof.
  intros Hr. rewrite <- (insert_delete_id ls id r Hr) at 2.
  rewrite count_new by apply lookup_delete_eq. lia.
Qed.

Lemma count_update ls id r r' st : ls !! id = Some r ->
  count_in (<[id := r']> ls) st
  = count_in ls st - one_if (bool_decide (lr_state r = st)) + one_if (bool_decide (lr_state r' = st)).
Proof.
  intros Hr. rewrite <- insert_delete_eq, count_new by apply lookup_delete_eq. by rewrite (count_delete _ _ _ _ Hr).
Qed.

Lemma active_lookup c id :
  is_active c id = true <-> exists r, ct_leases c !! id = Some r /\ lr_state r = LeaseActive.
Proof.
  unfold is_active. destruct (ct_leases c !! id) as [r|].
  - rewrite bool_decide_eq_true. split; [by eauto|]. by intros (? & [= <-] & ?).
  - split; [done|]. by intros (? & ? & _).
Qed.

(** The first active lease, if there is any. *)
Lemma firstActive_ok c :
  (forall id, id ∈ ct_order c <-> is_Some (ct_leases c !! id)) ->
  firstActiveLocked c = 0 /\ countStateLocked c LeaseActive = 0 \/ is_active c (firstActiveLocked c) = true.
Proof.
  intros Ho. unfold firstActiveLocked. destruct (filter _ (ct_order c)) as [|id l] eqn:E.
  - left. split; [done|]. unfold countStateLocked, count_in.
    enough (filter (fun kv : Z * leaseRecord => lr_state kv.2 = LeaseActive) (ct_leases c) = ∅) as -> by done.
    apply map_empty. intros id. apply map_lookup_filter_None. destruct (ct_leases c !! id) as [r|] eqn:Er; [right|by left].
    intros x [= <-] Hx. cbn in Hx.
    assert (Hin : id ∈ filter (fun id => is_active c id = true) (ct_order c)).
    { apply list_elem_of_filter. split; [apply active_lookup; eauto|]. apply Ho. eauto. }
    rewrite E in Hin. by apply elem_of_nil in Hin.
  - right. assert (Hin : id ∈ id :: l) by left. rewrite <- E in Hin. by apply list_elem_of_filter in Hin as [? _].
Qed.

Lemma removeOrder_elem id l x : NoDup l -> x ∈ removeOrder id l <-> x ∈ l /\ x <> id.
Proof.
  induction 1 as [|y l Hy Hl IH]; cbn.
  - split; [by intros ?%elem_of_nil|by intros [?%elem_of_nil _]].
  - destruct (Z.eqb_spec y id) as [->|Hne].
    + rewrite elem_of_cons. split; [intros Hx; split; [by right|]; by intros ->|]. by intros [[->|?] ?].
    + rewrite !elem_of_cons, IH. naive_solver.
Qed.

Lemma removeOrder_nodup id l : NoDup l -> NoDup (removeOrder id l).
Proof.
  induction 1 as [|y l Hy Hl IH]; cbn; [constructor|]. destruct (y =? id); [done|].
  constructor; [|done]. rewrite removeOrder_elem by done. naive_solver.
Qed.

(** An update that changes only the state or the load of a lease. *)
Lemma update_ok c id r st load p :
  controller_ok c -> ct_leases c !! id = Some r ->
  let c' := set_primary (set_leases c (<[id := mkLease (lr_candidate r) st load]> (ct_leases c))) p in
  countStateLocked c' LeaseActive <= ct_maxActive c -> countStateLocked c' LeaseDraining <= ct_maxDraining c ->
  (p = 0 /\ countStateLocked c' LeaseActive = 0 \/ is_active c' p = true) -> controller_ok c'.
Proof.
  intros [H1 H2 H3 H4 H5 H6 _ _ _ H10] Hr c' Ha Hd Hp.
  assert (Hl : forall j s, ct_leases c' !! j = Some s -> exists s0, ct_leases c !! j = Some s0 /\ lr_candidate s = lr_candidate s0).
  { intros j s. cbn. destruct (decide (j = id)) as [->|].
    - rewrite lookup_insert_eq. intros [= <-]. by exists r.
    - rewrite lookup_insert_ne by done. eauto. }
  split; try done.
  - intros j. cbn. rewrite H2, lookup_insert_is_Some. destruct (decide (id = j)) as [->|]; [rewrite Hr|]; naive_solver.
  - intros j (s & Hs). destruct (Hl _ _ Hs) as (? & ? & _). eauto.
  - intros i j x y (x0 & Hx & ->)%Hl (y0 & Hy & ->)%Hl. by apply H5.
  - intros j s (s0 & Hs & ->)%Hl. by apply H6 in Hs.
  - intros Hc. apply H10 in Hc as [Hc _]. by rewrite Hc in Hr.
Qed.

Lemma update_counts c id r st load p st' :
  ct_leases c !! id = Some r ->
  countStateLocked (set_primary (set_leases c (<[id := mkLease (lr_candidate r) st load]> (ct_leases c))) p) st'
  = countStateLocked c st' - one_if (bool_decide (lr_state r = st')) + one_if (bool_decide (st = st')).
Proof. intros Hr. unfold countStateLocked. cbn. by rewrite (count_update _ _ _ _ _ Hr). Qed.

Lemma set_primary_id c : set_primary c (ct_primary c) = c.
Proof. by destruct c. Qed.

(** The active leases after an update. *)
Lemma update_active c id r st load p j :
  ct_leases c !! id = Some r ->
  is_active (set_primary (set_leases c (<[id := mkLease (lr_candidate r) st load]> (ct_leases c))) p) j
  = if decide (j = id) then bool_decide (st = LeaseActive) else is_active c j.
Proof.
  intros Hr. unfold is_active. cbn. destruct (decide (j = id)) as [->|]; [by rewrite lookup_insert_eq|].
  by rewrite lookup_insert_ne.
Qed.

Lemma UpdateLoad_ok c id load : controller_ok c -> controller_ok (UpdateLoad c id load).1.
Proof.
  intros Hc. unfold UpdateLoad. destruct (ct_closed c); [done|]. destruct (ct_leases c !! id) as [r|] eqn:Hr; [|done].
  pose proof (update_counts c id r (lr_state r) load (ct_primary c)) as Hn.
  rewrite <- (set_primary_id (set_leases _ _)). cbn [fst ct_primary set_leases].
  apply (update_ok c id r); [done..| | |]; cbn zeta.
  - rewrite Hn by done. pose proof (co_active c Hc). destruct (bool_decide _); cbn; lia.
  - rewrite Hn by done. pose proof (co_draining c Hc). destruct (bool_decide _); cbn; lia.
  - rewrite Hn by done. destruct (co_primary c Hc) as [[-> E]|E]; [left|right].
    + split; [done|]. destruct (bool_decide _); cbn; lia.
    + rewrite update_active by done. destruct (decide _) as [Ei|]; [|done]. rewrite Ei in E.
      apply active_lookup in E as (? & Hr' & ?). rewrite Hr in Hr'. injection Hr' as <-. by apply bool_decide_eq_true.
Qed.

Lemma Select_ok c : controller_ok c -> controller_ok (Select c).1.
Proof.
  intros Hc. unfold Select. destruct (ct_closed c) eqn:E; [done|].
  destruct (_ !! _) as [[id r]|]; [|done]. destruct Hc. split; try done.
Qed.

(** Draining an active lease other than the new primary one. *)
Lemma drain_ok c id p :
  controller_ok c -> is_active c id = true -> countStateLocked c LeaseDraining < ct_maxDraining c ->
  is_active (drain c id) p = true -> controller_ok (set_primary (drain c id) p).
Proof.
  intros Hc Ha Hd Hp. pose proof Ha as (r & Hr & Hst)%active_lookup. unfold drain in *. rewrite Hr in *.
  apply (update_ok c id r); [done..| | |]; cbn zeta; rewrite ?update_counts by done; rewrite ?Hst; lease_states.
  - pose proof (co_active c Hc). lia.
  - lia.
  - by right.
Qed.

Lemma drain_active c id j : is_active (drain c id) j = is_active c j && negb (bool_decide (j = id)).
Proof.
  unfold drain. destruct (ct_leases c !! id) as [r|] eqn:Hr.
  - rewrite <- (set_primary_id (set_leases _ _)), update_active by done. destruct (decide (j = id)) as [->|Hne].
    + rewrite (bool_decide_true (id = id)) by done. by rewrite andb_false_r.
    + rewrite (bool_decide_false (j = id)) by done. by rewrite andb_true_r.
  - unfold is_active. destruct (decide (j = id)) as [->|]; [by rewrite Hr|].
    rewrite bool_decide_false by done. by rewrite andb_true_r.
Qed.

Lemma Promote_ok c id : controller_ok c -> controller_ok (Promote c id).1.
Proof.
  intros Hc. unfold Promote. destruct (ct_closed c) eqn:Ec; [done|]. destruct (ct_leases c !! id) as [r|] eqn:Hr; [|done].
  destruct (is_active c id) eqn:Ha; [|done]. cbn [negb]. destruct (Z.eqb_spec (ct_primary c) id) as [|Hne]; [done|].
  destruct (is_active c (ct_primary c)) eqn:Hp.
  - destruct (Z.leb_spec (ct_maxDraining c) (countStateLocked c LeaseDraining)); [done|]. apply drain_ok; try done.
    rewrite drain_active, Ha, bool_decide_false; [done|]. congruence.
  - destruct Hc. split; try done. right. by cbn.
Qed.

Lemma drain_order c id : (forall j, j ∈ ct_order c <-> is_Some (ct_leases c !! j)) ->
  forall j, j ∈ ct_order (drain c id) <-> is_Some (ct_leases (drain c id) !! j).
Proof.
  intros Ho j. unfold drain. destruct (ct_leases c !! id) as [r|] eqn:Hr; [|done]. cbn.
  rewrite Ho, lookup_insert_is_Some. destruct (decide (id = j)) as [->|]; [rewrite Hr|]; naive_solver.
Qed.

Lemma drain_count c id : is_active c id = true ->
  countStateLocked (drain c id) LeaseActive = countStateLocked c LeaseActive - 1.
Proof.
  intros (r & Hr & Hst)%active_lookup. unfold drain. rewrite Hr, <- (set_primary_id (set_leases _ _)), update_counts by done.
  rewrite Hst. lease_states. lia.
Qed.

Lemma drain_primary c id : ct_primary (drain c id) = ct_primary c.
Proof. unfold drain. by destruct (ct_leases c !! id). Qed.

Lemma BeginDrain_ok c id : controller_ok c -> controller_ok (BeginDrain c id).1.
Proof.
  intros Hc. unfold BeginDrain. destruct (ct_closed c) eqn:Ec; [done|]. destruct (ct_leases c !! id) as [r|] eqn:Hr; [|done].
  destruct (is_active c id) eqn:Ha; [|done]. cbn [negb].
  destruct (Z.leb_spec (ct_maxDraining c) (countStateLocked c LeaseDraining)); [done|].
  destruct ((id =? ct_primary c) && _) eqn:Hl; [done|]. rewrite drain_primary. cbn [fst].
  destruct (Z.eqb_spec id (ct_primary c)) as [->|Hne].
  - apply drain_ok; try done. cbn [andb] in Hl. zb.
    destruct (firstActive_ok (drain c (ct_primary c)) (drain_order c _ (co_order c Hc))) as [[_ E]|E]; [|done].
    rewrite drain_count in E by done. lia.
  - rewrite <- (set_primary_id (drain c id)), drain_primary. apply drain_ok; try done.
    destruct (co_primary c Hc) as [[_ E]|E].
    + apply active_lookup in Ha as (x & Hx & Hs). unfold countStateLocked in E.
      pose proof (count_delete _ _ _ LeaseActive Hx) as Ed. rewrite Hs, bool_decide_true in Ed by done. cbn [one_if] in Ed.
      pose proof (count_nonneg (delete id (ct_leases c)) LeaseActive). lia.
    + rewrite drain_active, E, bool_decide_false; [done|]. congruence.
Qed.

Lemma validate_ok c x : validateCandidate c x = Ok tt ->
  is_Some (lc_resource x) /\ lc_principal x = ct_principal c /\ lc_constellation x = ct_constellation c /\
  is_zero (lc_key x) = false.
Proof.
  unfold validateCandidate. destruct (_ || _) eqn:G; [done|]. intros _. guards.
  repeat match goal with H : bytes_eq _ _ = true |- _ => apply bytes_eq_true in H end.
  split_and!; try done. destruct (lc_resource x); [eauto|by case_bool_decide].
Qed.

(** A new lease with a key of its own. *)
Lemma addLocked_ok c x p :
  controller_ok c -> validateCandidate c x = Ok tt -> ct_closed c = false ->
  ~ map_Exists (fun _ r => lc_key (lr_candidate r) = lc_key x) (ct_leases c) ->
  countStateLocked c LeaseActive < ct_maxActive c -> ct_nextID c < 2 ^ 64 - 1 ->
  p = (if ct_primary c =? 0 then ct_nextID c else ct_primary c) ->
  controller_ok (set_primary (addLocked c x).1 p).
Proof.
  intros Hc Hv Hcl Hk Ha Hn ->. pose proof Hc as [H1 H2 H3 H4 H5 H6 _ H8 H9 _].
  apply validate_ok in Hv as (Hv1 & Hv2 & Hv3 & _).
  assert (Hf : ct_leases c !! ct_nextID c = None).
  { destruct (ct_leases c !! ct_nextID c) eqn:E; [|done]. assert (1 <= ct_nextID c < ct_nextID c); [eauto|lia]. }
  unfold addLocked. rewrite (proj2 (Z.eqb_neq (ct_nextID c) 0)) by lia.
  assert (Hcount : forall st, countStateLocked (set_primary (addLocked c x).1 0) st
    = countStateLocked c st + one_if (bool_decide (LeaseActive = st))).
  { intros st. unfold countStateLocked, addLocked. rewrite (proj2 (Z.eqb_neq (ct_nextID c) 0)) by lia.
    cbn. by rewrite count_new. }
  unfold addLocked in Hcount. rewrite (proj2 (Z.eqb_neq (ct_nextID c) 0)) in Hcount by lia. cbn [fst] in *.
  split; unfold countStateLocked in *; cbn [ct_leases ct_order ct_nextID set_primary ct_closed ct_primary ct_maxActive ct_maxDraining ct_principal ct_constellation] in *.
  - apply NoDup_app. split_and!; [done| |apply NoDup_singleton].
    intros y Hy%H2 ->%list_elem_of_singleton. rewrite Hf in Hy. by destruct Hy.
  - intros id. rewrite elem_of_app, list_elem_of_singleton, H2, lookup_insert_is_Some.
    destruct (decide (ct_nextID c = id)); naive_solver.
  - intros id. rewrite u64_small by (unfold is_u64; lia). intros [<-|[_ H]]%lookup_insert_is_Some; [lia|]. apply H3 in H. lia.
  - rewrite u64_small by (unfold is_u64; lia). lia.
  - intros i j r s. destruct (decide (i = ct_nextID c)) as [->|Hi], (decide (j = ct_nextID c)) as [->|Hj];
      rewrite ?lookup_insert_eq, ?lookup_insert_ne by done; try done.
    + intros [= <-] Hs E. destruct Hk. exists j, s. cbn in E. done.
    + intros Hr [= <-] E. destruct Hk. exists i, r. cbn in E. done.
    + by apply H5.
  - intros id r. destruct (decide (id = ct_nextID c)) as [->|Hi].
    + rewrite lookup_insert_eq. by intros [= <-].
    + rewrite lookup_insert_ne by done. apply H6.
  - rewrite Hcount. lease_states. lia.
  - rewrite Hcount. lease_states. lia.
  - right. apply active_lookup. cbn. destruct (Z.eqb_spec (ct_primary c) 0) as [E|E].
    + rewrite lookup_insert_eq. eauto.
    + destruct H9 as [[? _]|(r & Hr & Hs)%active_lookup]; [done|]. exists r.
      rewrite lookup_insert_ne by congruence. done.
  - by rewrite Hcl.
Qed.

Lemma addLocked_id c x : (if ct_nextID c =? 0 then 1 else ct_nextID c) = (addLocked c x).2.
Proof. done. Qed.

Lemma Add_ok c x : controller_ok c -> ct_nextID c < 2 ^ 64 - 1 -> controller_ok (Add c x).1.
Proof.
  intros Hc Hn. unfold Add. destruct (validateCandidate c x) as [[]|] eqn:Hv; [|done].
  destruct (ct_closed c) eqn:Hcl; [done|]. destruct (decide _) as [|Hk]; [done|].
  destruct (Z.leb_spec (ct_maxActive c) (countStateLocked c LeaseActive)); [done|].
  pose proof (addLocked_ok c x _ Hc Hv Hcl Hk ltac:(done) Hn eq_refl) as Ho. pose proof (co_next c Hc).
  unfold addLocked in *. rewrite (proj2 (Z.eqb_neq (ct_nextID c) 0)) in * by lia. cbn [fst snd ct_primary] in *.
  by destruct (ct_primary c =? 0).
Qed.

Lemma NewController_ok p k ma md x c : NewController p k ma md x = Ok c -> controller_ok c.
Proof.
  unfold NewController. destruct (_ || _) eqn:G; [done|]. intros HN. guards. zb.
  set (c0 := mkController p k ma md 1 0 0 ∅ [] false) in *.
  destruct (validateCandidate c0 x) as [[]|] eqn:E; [|done]. injection HN as <-.
  assert (H0' : controller_ok c0).
  { split; try done; cbn; try lia.
    - constructor.
    - intros id. rewrite lookup_empty. split; [by intros ?%elem_of_nil|by intros []].
    - intros id []. done.
    - change (0 <= ma). lia.
    - change (0 <= md). lia.
    - by left. }
  apply (addLocked_ok c0 x 1 H0' E); try done.
  intros (? & ? & Hl & _). cbn in Hl. by rewrite lookup_empty in Hl.
Qed.

Section Remove.
Variable close_err : handle -> option error.

Lemma removeAndClose_ok c id b : controller_ok c -> controller_ok (removeAndClose close_err c id b).1.1.
Proof.
  intros Hc. unfold removeAndClose. destruct (ct_closed c) eqn:Hcl; [done|].
  destruct (ct_leases c !! id) as [r|] eqn:Hr; [|done]. destruct (b && _) eqn:Hb; [done|].
  set (c' := mkController _ _ _ _ _ _ _ _ _ _).
  assert (Ho : forall j, j ∈ ct_order c' <-> is_Some (ct_leases c' !! j)).
  { intros j. cbn. rewrite removeOrder_elem by apply Hc. rewrite (co_order c Hc), lookup_delete_is_Some. naive_solver. }
  assert (Hcnt : forall st, countStateLocked c' st <= countStateLocked c st).
  { intros st. change (count_in (delete id (ct_leases c)) st <= count_in (ct_leases c) st).
    rewrite (count_delete _ _ _ _ Hr). unfold one_if. case_match; lia. }
  assert (Hp : forall p, (p = 0 /\ countStateLocked c' LeaseActive = 0 \/ is_active c' p = true) -> controller_ok (set_primary c' p)).
  { intros p Hp. pose proof Hc as [H1 H2 H3 H4 H5 H6 H7 H8 _ _]. split; try done; cbn.
    - by apply removeOrder_nodup.
    - intros j [_ Hj]%lookup_delete_is_Some. by apply H3.
    - intros i j x y [_ Hx]%lookup_delete_Some [_ Hy]%lookup_delete_Some. by apply H5.
    - intros j x [_ Hx]%lookup_delete_Some. by apply H6 in Hx.
    - pose proof (Hcnt LeaseActive). change (countStateLocked (set_primary c' p)) with (countStateLocked c'). lia.
    - pose proof (Hcnt LeaseDraining). change (countStateLocked (set_primary c' p)) with (countStateLocked c'). lia. }
  assert (Hfin : controller_ok (if ct_primary c' =? id then set_primary c' (firstActiveLocked c') else c')).
  { destruct (Z.eqb_spec (ct_primary c') id) as [E|E].
    - apply Hp, firstActive_ok, Ho.
    - rewrite <- (set_primary_id c'). apply Hp. destruct (co_primary c Hc) as [[E0 E1]|Ha]; [left|right].
      + split; [done|]. pose proof (Hcnt LeaseActive). pose proof (count_nonneg (ct_leases c') LeaseActive).
        unfold countStateLocked in *. lia.
      + apply active_lookup in Ha as (x & Hx & Hs). apply active_lookup. exists x. cbn in *.
        by rewrite lookup_delete_ne. }
  by destruct (lc_resource (lr_candidate r)).
Qed.

Lemma Stop_ok c : controller_ok c -> controller_ok (Stop close_err c).1.1.
Proof.
  intros Hc. unfold Stop. destruct (ct_closed c); [done|]. destruct Hc. split; cbn; try done.
  - constructor.
  - intros id. rewrite lookup_empty. split; [by intros ?%elem_of_nil|by intros []].
  - intros id []. done.
  - change (0 <= ct_maxActive c). etrans; [apply (count_nonneg (ct_leases c) LeaseActive)|done].
  - change (0 <= ct_maxDraining c). etrans; [apply (count_nonneg (ct_leases c) LeaseDraining)|done].
  - by left.
Qed.
End Remove.

(** ** Executions *)

Inductive lease_op :=
| OpAdd (x : LeaseCandidate)
| OpLoad (id load : Z)
| OpSelect
| OpPromote (id : Z)
| OpBeginDrain (id : Z)
| OpCompleteDrain (id : Z)
| OpFail (id : Z)
| OpStop.

Section Executions.
Variable close_err : handle -> option error.

(** The controller after a call, the resources the call took over and the
    ones it closed. *)
Definition lease_step (c : Controller) (op : lease_op) : Controller * list handle * list handle :=
  match op with
  | OpAdd x =>
      match Add c x with
      | (c, Ok _) => (c, closed_handles [lc_resource x], [])
      | (c, Err _) => (c, [], [])
      end
  | OpLoad id load => ((UpdateLoad c id load).1, [], [])
  | OpSelect => ((Select c).1, [], [])
  | OpPromote id => ((Promote c id).1, [], [])
  | OpBeginDrain id => ((BeginDrain c id).1, [], [])
  | OpCompleteDrain id => let '(c, hs, _) := CompleteDrain close_err c id in (c, [], hs)
  | OpFail id => let '(c, hs, _) := Fail close_err c id in (c, [], hs)
  | OpStop => let '(c, hs, _) := Stop close_err c in (c, [], hs)
  end.

Fixpoint lease_run (c : Controller) (ops : list lease_op) : Controller * list handle * list handle :=
  match ops with
  | [] => (c, [], [])
  | op :: ops =>
      let '(c, taken, hs) := lease_step c op in
      let '(c, taken', hs') := lease_run c ops in (c, taken ++ taken', hs ++ hs')
  end.

(** The resource of a lease of a table. *)
Definition resource_at (ls : gmap Z leaseRecord) (id : Z) : option handle :=
  r ← ls !! id; lc_resource (lr_candidate r).

Lemma resources_eq c : resources c = omap (resource_at (ct_leases c)) (ct_order c).
Proof. done. Qed.

Lemma omap_agree (f g : Z -> option handle) (l : list Z) : (forall x, x ∈ l -> f x = g x) -> omap f l = omap g l.
Proof.
  induction l as [|x l IH]; [done|]. intros H. cbn. rewrite (H x) by left.
  rewrite IH; [done|]. intros; apply H; by right.
Qed.

(** Updates that keep the candidates keep the resources. *)
Lemma resources_update c id r st load p : ct_leases c !! id = Some r ->
  resources (set_primary (set_leases c (<[id := mkLease (lr_candidate r) st load]> (ct_leases c))) p) = resources c.
Proof.
  intros Hr. rewrite !resources_eq. cbn. apply omap_agree. intros j _. unfold resource_at.
  destruct (decide (j = id)) as [->|]; [by rewrite lookup_insert_eq, Hr|by rewrite lookup_insert_ne].
Qed.

Lemma resources_drain c id p : resources (set_primary (drain c id) p) = resources c.
Proof. unfold drain. destruct (ct_leases c !! id) eqn:Hr; [by rewrite (resources_update c id)|done]. Qed.

Lemma resources_remove c id r : controller_ok c -> ct_leases c !! id = Some r ->
  omap (resource_at (ct_leases c)) (ct_order c)
  ≡ₚ closed_handles [lc_resource (lr_candidate r)]
    ++ omap (resource_at (delete id (ct_leases c))) (removeOrder id (ct_order c)).
Proof.
  intros Hc Hr. assert (Hin : id ∈ ct_order c) by (apply (co_order c Hc); eauto).
  assert (E : ct_order c ≡ₚ id :: removeOrder id (ct_order c)).
  { pose proof (co_nodup c Hc) as Hn. apply NoDup_Permutation; [done| |].
    - constructor; [|by apply removeOrder_nodup]. rewrite removeOrder_elem by done. naive_solver.
    - intros x. rewrite elem_of_cons, removeOrder_elem by done. destruct (decide (x = id)); naive_solver. }
  rewrite E at 1. cbn [omap list_omap]. unfold resource_at at 1. rewrite Hr. cbn [mbind option_bind].
  rewrite (omap_agree (resource_at (ct_leases c)) (resource_at (delete id (ct_leases c))) (removeOrder id (ct_order c))).
  - cbn. by destruct (lc_resource (lr_candidate r)).
  - intros x Hx%removeOrder_elem; [|by apply Hc]. unfold resource_at. by rewrite lookup_delete_ne by naive_solver.
Qed.

Lemma remove_resources c id b : controller_ok c ->
  let '(c', hs, _) := removeAndClose close_err c id b in resources c ≡ₚ hs ++ resources c'.
Proof.
  intros Hc. unfold removeAndClose. destruct (ct_closed c); [done|].
  destruct (ct_leases c !! id) as [r|] eqn:Hr; [|done]. destruct (b && _); [done|].
  pose proof (resources_remove c id r Hc Hr) as E.
  destruct (lc_resource (lr_candidate r)) as [h|]; rewrite resources_eq, E; cbn; by destruct (ct_primary c =? id).
Qed.

Lemma Add_resources c x : controller_ok c ->
  match Add c x with
  | (c', Ok _) => resources c' ≡ₚ closed_handles [lc_resource x] ++ resources c
  | (c', Err _) => c' = c
  end.
Proof.
  intros Hc. unfold Add. destruct (validateCandidate c x) as [[]|] eqn:Hv; [|done]. destruct (ct_closed c); [done|].
  destruct (decide _); [done|]. destruct (_ <=? _); [done|].
  assert (Hf : ct_leases c !! ct_nextID c = None).
  { destruct (ct_leases c !! ct_nextID c) eqn:E; [|done]. assert (1 <= ct_nextID c < ct_nextID c); [eapply co_ids; eauto|lia]. }
  pose proof (co_next c Hc). unfold addLocked. rewrite (proj2 (Z.eqb_neq (ct_nextID c) 0)) by lia.
  assert (E : omap (resource_at (<[ct_nextID c := mkLease x LeaseActive 0]> (ct_leases c))) (ct_order c ++ [ct_nextID c])
    ≡ₚ closed_handles [lc_resource x] ++ resources c).
  { rewrite omap_app, Permutation_app_comm. apply Permutation_app.
    - cbn. unfold resource_at. rewrite lookup_insert_eq. cbn. by destruct (lc_resource x).
    - rewrite resources_eq. erewrite omap_agree; [done|]. intros j Hj%(co_order c Hc). unfold resource_at.
      rewrite lookup_insert_ne; [done|]. intros <-. rewrite Hf in Hj. by destruct Hj. }
  cbn [fst ct_primary]. by destruct (ct_primary c =? 0).
Qed.

Lemma remove_fields c id b :
  let '(c', _, _) := removeAndClose close_err c id b in
  ct_nextID c' <= ct_nextID c + 1 /\ (ct_maxActive c' = ct_maxActive c /\ ct_maxDraining c' = ct_maxDraining c).
Proof.
  unfold removeAndClose. destruct (ct_closed c); [split; [lia|done]|]. destruct (ct_leases c !! id) as [r|]; [|split; [lia|done]].
  destruct (b && _); [split; [lia|done]|]. destruct (lc_resource (lr_candidate r)); cbn; destruct (ct_primary c =? id); cbn; (split; [lia|done]).
Qed.

(** A step keeps the invariant and accounts for every resource. *)
Lemma lease_step_ok c op : controller_ok c -> ct_nextID c < 2 ^ 64 - 1 ->
  let '(c', taken, hs) := lease_step c op in
  controller_ok c' /\ resources c ++ taken ≡ₚ hs ++ resources c' /\ ct_nextID c' <= ct_nextID c + 1 /\
  (ct_maxActive c' = ct_maxActive c /\ ct_maxDraining c' = ct_maxDraining c).
Proof.
  intros Hc Hn. pose proof (co_next c Hc). destruct op as [x|id load| |id|id|id|id|]; cbn [lease_step].
  - pose proof (Add_ok c x Hc Hn) as Ho. pose proof (Add_resources c x Hc) as Hr.
    assert (Hid : ct_nextID (Add c x).1 <= ct_nextID c + 1 /\ ct_maxActive (Add c x).1 = ct_maxActive c /\
      ct_maxDraining (Add c x).1 = ct_maxDraining c).
    { unfold Add, addLocked. destruct (validateCandidate c x); [|cbn; lia]. destruct (ct_closed c); [cbn; lia|].
      destruct (decide _); [cbn; lia|]. destruct (_ <=? _); [cbn; lia|].
      rewrite (proj2 (Z.eqb_neq (ct_nextID c) 0)) by lia. cbn. rewrite u64_small by (unfold is_u64; lia).
      destruct (ct_primary c =? 0); cbn; lia. }
    destruct (Add c x) as [c' [id|e]]; cbn [fst] in *; split_and!; try done; try lia.
    + rewrite Permutation_app_comm, Hr. done.
    + rewrite Hr. by rewrite app_nil_r.
  - split; [by apply UpdateLoad_ok|]. unfold UpdateLoad. rewrite app_nil_r. destruct (ct_closed c); [cbn; split_and!; try done; lia|].
    destruct (ct_leases c !! id) as [r|] eqn:Hr; [|cbn; split_and!; try done; lia]. cbn. split_and!; try done; [|lia].
    rewrite <- (resources_update c id r (lr_state r) load (ct_primary c) Hr). done.
  - split; [by apply Select_ok|]. unfold Select. rewrite app_nil_r. destruct (ct_closed c); [cbn; split_and!; try done; lia|].
    destruct (_ !! _) as [[id r]|]; split_and!; try done; cbn; lia.
  - split; [by apply Promote_ok|]. unfold Promote. rewrite app_nil_r. destruct (ct_closed c); [cbn; split_and!; try done; lia|].
    destruct (ct_leases c !! id); [|cbn; split_and!; try done; lia]. destruct (negb _); [cbn; split_and!; try done; lia|].
    destruct (_ =? _); [cbn; split_and!; try done; lia|]. destruct (is_active c _); [destruct (_ <=? _)|].
    + cbn; split_and!; try done; lia.
    + cbn [fst]. rewrite resources_drain. unfold drain. destruct (ct_leases c !! ct_primary c); split_and!; cbn; try done; lia.
    + split_and!; try done; cbn; lia.
  - split; [by apply BeginDrain_ok|]. unfold BeginDrain. rewrite app_nil_r. destruct (ct_closed c); [cbn; split_and!; try done; lia|].
    destruct (ct_leases c !! id) eqn:Hr; [|cbn; split_and!; try done; lia]. destruct (negb _); [cbn; split_and!; try done; lia|].
    destruct (_ <=? _); [cbn; split_and!; try done; lia|]. destruct (_ && _); [cbn; split_and!; try done; lia|]. cbn [fst].
    assert (Hd : forall p, resources c ≡ₚ [] ++ resources (set_primary (drain c id) p)) by (intros; by rewrite resources_drain).
    destruct (id =? _); [|rewrite <- (set_primary_id (drain c id))]; (split; [apply Hd|]); unfold drain; rewrite Hr; cbn; split_and!; try done; lia.
  - pose proof (removeAndClose_ok close_err c id true Hc) as Ho. pose proof (remove_resources c id true Hc) as Hr.
    pose proof (remove_fields c id true) as Hf. unfold CompleteDrain.
    destruct (removeAndClose close_err c id true) as [[c' hs] e]. rewrite app_nil_r. naive_solver.
  - pose proof (removeAndClose_ok close_err c id false Hc) as Ho. pose proof (remove_resources c id false Hc) as Hr.
    pose proof (remove_fields c id false) as Hf. unfold Fail.
    destruct (removeAndClose close_err c id false) as [[c' hs] e]. rewrite app_nil_r. naive_solver.
  - pose proof (Stop_ok close_err c Hc) as Ho. unfold Stop in *. destruct (ct_closed c); rewrite !app_nil_r; cbn in *.
    + split_and!; try done. lia.
    + split_and!; try done; rewrite ?app_nil_r; try done; lia.
Qed.
End Executions.

(** ** Selection *)

(** The active leases in order. *)
Definition actives (ls : gmap Z leaseRecord) (order : list Z) : list (Z * leaseRecord) :=
  omap (fun id => r ← ls !! id; if bool_decide (lr_state r = LeaseActive) then Some (id, r) else None) order.

Definition least (m : Z) (l : list (Z * leaseRecord)) : Z := fold_right (fun p acc => Z.min (lr_load p.2) acc) m l.

Lemma least_le m l : least m l <= m.
Proof. unfold least. induction l; cbn; lia. Qed.

Lemma least_min m l n : least (Z.min n m) l = Z.min n (least m l).
Proof. unfold least. induction l; cbn; lia. Qed.

Lemma select_ties_spec ls order m ties :
  select_ties ls order m ties
  = (if least m (actives ls order) =? m then ties else [])
    ++ filter (fun p => lr_load p.2 = least m (actives ls order)) (actives ls order).
Proof.
  revert m ties. induction order as [|id order IH]; intros m ties; cbn.
  { by rewrite Z.eqb_refl, app_nil_r. }
  unfold actives. cbn. destruct (ls !! id) as [r|]; cbn; [|apply IH].
  case_bool_decide as Ha; cbn [negb]; [|apply IH]. fold (actives ls order). cbn [least fold_right snd].
  pose proof (least_le m (actives ls order)) as Hm. fold (least m (actives ls order)).
  set (M := least m (actives ls order)) in *. rewrite filter_cons. cbn [snd].
  destruct (Z.ltb_spec (lr_load r) m) as [Hlt|Hge].
  - assert (EL : least (lr_load r) (actives ls order) = Z.min (lr_load r) M).
    { unfold M. rewrite <- least_min. f_equal. lia. }
    rewrite IH, EL.
    destruct (decide (lr_load r = Z.min (lr_load r) M)) as [E|E].
    + replace (Z.min (lr_load r) M) with (lr_load r) by lia. rewrite Z.eqb_refl, (proj2 (Z.eqb_neq _ _)) by lia. done.
    + replace (Z.min (lr_load r) M) with M by lia. rewrite !(proj2 (Z.eqb_neq _ _)) by lia. done.
  - destruct (Z.eqb_spec (lr_load r) m) as [->|Hne]; rewrite IH; fold M.
    + replace (Z.min m M) with M by lia. destruct (Z.eqb_spec M m) as [->|].
      * rewrite decide_True by done. by rewrite <- app_assoc.
      * rewrite decide_False by done. done.
    + replace (Z.min (lr_load r) M) with M by lia. rewrite decide_False by lia. done.
Qed.

(** The leases a [Select] chooses among. *)
Definition ties_of (c : Controller) : list (Z * leaseRecord) := select_ties (ct_leases c) (ct_order c) MaxUint64 [].

Lemma ties_of_eq c : ties_of c =
  filter (fun p => lr_load p.2 = least MaxUint64 (actives (ct_leases c) (ct_order c))) (actives (ct_leases c) (ct_order c)).
Proof. unfold ties_of. rewrite select_ties_spec. by destruct (_ =? _). Qed.

Lemma actives_elem ls order p :
  p ∈ actives ls order <-> p.1 ∈ order /\ ls !! p.1 = Some p.2 /\ lr_state p.2 = LeaseActive.
Proof.
  unfold actives. rewrite list_elem_of_omap. destruct p as [id r]. cbn. split.
  - intros (j & Hj & E). destruct (ls !! j) as [s|] eqn:Es; [|done]. cbn in E. case_bool_decide; [|done].
    by injection E as <- <-.
  - intros (Hi & Hl & Hs). exists id. rewrite Hl. cbn. by rewrite bool_decide_true.
Qed.

Lemma least_elem m l : least m l = m \/ exists p, p ∈ l /\ lr_load p.2 = least m l.
Proof.
  induction l as [|p l IH]; cbn; [by left|]. destruct (Z.min_spec (lr_load p.2) (least m l)) as [[? E]|[? E]].
  - right. exists p. split; [left|]. unfold least in *. lia.
  - destruct IH as [IH|(q & Hq & IH)]; [left|right]; unfold least in *; [lia|]. exists q. split; [by right|lia].
Qed.

Lemma least_bound m l p : p ∈ l -> least m l <= lr_load p.2.
Proof. induction 1; cbn; unfold least in *; lia. Qed.

Definition loads_typed (c : Controller) : Prop :=
  map_Forall (fun _ r => 0 <= lr_load r <= MaxUint64) (ct_leases c).

(** The ties are the active leases with the least load. *)
Lemma ties_spec c p : controller_ok c -> loads_typed c ->
  p ∈ ties_of c <-> ct_leases c !! p.1 = Some p.2 /\ lr_state p.2 = LeaseActive /\
    forall j s, ct_leases c !! j = Some s -> lr_state s = LeaseActive -> lr_load p.2 <= lr_load s.
Proof.
  intros Hc Ht. rewrite ties_of_eq.
  set (l := actives (ct_leases c) (ct_order c)).
  assert (Hl : forall q, q ∈ l <-> ct_leases c !! q.1 = Some q.2 /\ lr_state q.2 = LeaseActive).
  { intros q. unfold l. rewrite actives_elem, (co_order c Hc). naive_solver. }
  rewrite list_elem_of_filter, Hl. split.
  - intros (E & H1 & H2). split_and!; [done..|]. intros j s Hj Hs. rewrite E. apply (least_bound _ l (j, s)), Hl. done.
  - intros (H1 & H2 & H3). split; [|done]. apply Z.le_antisymm; [|apply (least_bound _ l p), Hl; done].
    destruct (least_elem MaxUint64 l) as [E|(q & Hq & <-)].
    + rewrite E. apply (Ht _ _ H1).
    + apply Hl in Hq as [Hq1 Hq2]. by eapply H3.
Qed.

Lemma ties_nodup c : controller_ok c -> NoDup (ties_of c).*1.
Proof.
  intros Hc. rewrite ties_of_eq.
  apply (sublist_NoDup _ (ct_order c)); [apply Hc|]. etrans; [apply fmap_sublist, sublist_filter|].
  unfold actives. generalize (ct_order c). intros l. induction l as [|id l IH]; cbn; [done|].
  destruct (ct_leases c !! id) as [r|]; cbn; [|by constructor]. case_bool_decide; cbn; by constructor.
Qed.

(** The ids chosen by [n] calls of [Select] in a row. *)
Fixpoint select_run (n : nat) (c : Controller) : list Z :=
  match n with
  | O => []
  | S n =>
      match Select c with
      | (c, Ok s) => ls_id s :: select_run n c
      | (_, Err _) => []
      end
  end.

Lemma select_run_rotate n c : ct_closed c = false -> (n <= length (ties_of c))%nat ->
  0 <= ct_tieCursor c -> ct_tieCursor c + Z.of_nat n <= 2 ^ 64 ->
  select_run n c = (take n (rotate (Z.to_nat (ct_tieCursor c)) (ties_of c))).*1.
Proof.
  revert c. enough (H : forall n c k, ct_closed c = false -> (k + n <= length (ties_of c))%nat -> Z.of_nat k <= ct_tieCursor c ->
    ct_tieCursor c + Z.of_nat n <= 2 ^ 64 ->
    select_run n c = (take n (drop k (rotate (Z.to_nat (ct_tieCursor c - Z.of_nat k)) (ties_of c)))).*1).
  { intros c Hc Hn H0 Hw. rewrite (H n c 0%nat) by (done || lia). by rewrite drop_0, Z.sub_0_r. }
  clear n. induction n as [|n IH]; intros c k Hc Hk H0 Hw; [done|].
  pose proof (lookup_lt_is_Some_2 (rotate (Z.to_nat (ct_tieCursor c - Z.of_nat k)) (ties_of c)) k) as [p Hp].
  { rewrite length_rotate. lia. }
  rewrite (drop_S _ p k Hp). cbn [take fmap list_fmap select_run].
  apply lookup_rotate_r_Some in Hp as [Hp _]. unfold rotate_nat_add in Hp.
  replace (Z.of_nat (Z.to_nat (ct_tieCursor c - Z.of_nat k)) + Z.of_nat k) with (ct_tieCursor c) in Hp by lia.
  unfold Select. rewrite Hc. fold (ties_of c). unfold len. rewrite Hp. destruct p as [id r]. cbn [ls_id snapshotLease fst].
  f_equal. set (c' := mkController _ _ _ _ _ _ _ _ _ _).
  destruct n as [|n]; [done|]. assert (Et : ct_tieCursor c' = ct_tieCursor c + 1).
  { cbn. apply u64_small. unfold is_u64. lia. }
  rewrite (IH c' (S k)); rewrite ?Et; try done; try (change (ties_of c') with (ties_of c); lia).
  change (ties_of c') with (ties_of c). do 4 f_equal. lia.
Qed.

Lemma rotate_perm {A} n (l : list A) : rotate n l ≡ₚ l.
Proof. unfold rotate. rewrite Permutation_app_comm. by rewrite take_drop. Qed.

(** ** The properties *)

Lemma lease_run_ok close_err c ops : controller_ok c -> ct_nextID c + len ops < 2 ^ 64 ->
  let '(c', taken, hs) := lease_run close_err c ops in
  controller_ok c' /\ resources c ++ taken ≡ₚ hs ++ resources c' /\
  (ct_maxActive c' = ct_maxActive c /\ ct_maxDraining c' = ct_maxDraining c).
Proof.
  revert c. induction ops as [|op ops IH]; intros c Hc Hn; cbn.
  { rewrite app_nil_r. done. }
  rewrite len_cons in Hn. pose proof (len_nonneg ops).
  pose proof (lease_step_ok close_err c op Hc ltac:(lia)) as Hs.
  destruct (lease_step close_err c op) as [[c1 t1] h1]. destruct Hs as (Hc1 & Hr1 & Hn1 & Hm1 & Hm1').
  specialize (IH c1 Hc1 ltac:(lia)). destruct (lease_run close_err c1 ops) as [[c2 t2] h2].
  destruct IH as (Hc2 & Hr2 & Hm2 & Hm2'). split; [done|]. split; [|split; congruence].
  rewrite app_assoc, Hr1, <- !app_assoc. by rewrite Hr2.
Qed.

(** over any sequence of calls the controller keeps its limits, the
    primary lease is an active one (or none is active), and every resource it
    took over is closed exactly once or still belongs to a lease. *)
Theorem leases_accounted close_err p k ma md x c0 ops :
  NewController p k ma md x = Ok c0 -> len ops < 2 ^ 64 - 2 ->
  let '(c, taken, closed) := lease_run close_err c0 ops in
  countStateLocked c LeaseActive <= ma /\ countStateLocked c LeaseDraining <= md /\
  (ct_primary c = 0 /\ countStateLocked c LeaseActive = 0 \/ is_active c (ct_primary c) = true) /\
  closed_handles [lc_resource x] ++ taken ≡ₚ closed ++ resources c.
Proof.
  intros Hnew Hl. pose proof (NewController_ok _ _ _ _ _ _ Hnew) as Hc.
  assert (Hf : ct_nextID c0 = 2 /\ resources c0 = closed_handles [lc_resource x] /\ ct_maxActive c0 = ma /\ ct_maxDraining c0 = md).
  { unfold NewController in Hnew. destruct (_ || _); [done|]. destruct (validateCandidate _ x); [|done].
    injection Hnew as <-. by split_and!. }
  destruct Hf as (Hn & Hr & Ha & Hd).
  pose proof (lease_run_ok close_err c0 ops Hc ltac:(lia)) as H. destruct (lease_run close_err c0 ops) as [[c taken] closed].
  destruct H as (H1 & H2 & H3 & H4). rewrite <- Hr, <- Ha, <- Hd, <- H3, <- H4.
  split_and!; [apply H1..|done].
Qed.

(** [Select] balances by load and is fair: the leases it chooses among are
    exactly the active ones with the least load, and as many selections in a
    row as there are of them choose each exactly once (unless the 64-bit
    cursor wraps in between). *)
Theorem select_fair c :
  controller_ok c -> ct_closed c = false -> loads_typed c ->
  0 <= ct_tieCursor c -> ct_tieCursor c + len (ties_of c) <= 2 ^ 64 ->
  (forall id, id ∈ (ties_of c).*1 <-> exists r, ct_leases c !! id = Some r /\ lr_state r = LeaseActive /\
     forall j s, ct_leases c !! j = Some s -> lr_state s = LeaseActive -> lr_load r <= lr_load s) /\
  select_run (length (ties_of c)) c ≡ₚ (ties_of c).*1 /\ NoDup (ties_of c).*1.
Proof.
  intros Hc Hcl Ht H0 Hw. split; [|split; [|by apply ties_nodup]].
  - intros id. rewrite list_elem_of_fmap. split.
    + intros ([i r] & -> & Hp). apply ties_spec in Hp as (H1 & H2 & H3); [|done..]. by exists r.
    + intros (r & H1 & H2 & H3). exists (id, r). split; [done|]. by apply ties_spec.
  - rewrite select_run_rotate by (done || lia). rewrite take_ge by (by rewrite length_rotate). by rewrite rotate_perm.
Qed.

Module ControllerExample.
Definition p : list byte := replicate 32 x01.
Definition k : list byte := replicate 16 x02.
Definition lease (key : byte) (h : Z) : LeaseCandidate := mkCandidate (replicate 16 key) p k 1 (Some h).
Definition c0 : Controller :=
  match NewController p k 3 2 (lease x03 1) with Ok c => c | Err _ => mkController [] [] 0 0 0 0 0 ∅ [] true end.
Definition ops : list lease_op := [OpAdd (lease x04 2); OpAdd (lease x03 9); OpBeginDrain 1; OpCompleteDrain 1; OpFail 2].
Definition no_err (h : Z) : option error := None.

Lemma leases_accounted_witness :
  (lease_run no_err c0 ops).2 = [1; 2] /\
  closed_handles [Some 1] ++ (lease_run no_err c0 ops).1.2 ≡ₚ
    (lease_run no_err c0 ops).2 ++ resources (lease_run no_err c0 ops).1.1.
Proof.
  pose proof (leases_accounted no_err p k 3 2 (lease x03 1) c0 ops eq_refl ltac:(vm_compute; reflexivity)) as H.
  split; [vm_compute; reflexivity|]. destruct (lease_run no_err c0 ops) as [[c taken] closed]. apply H.
Defined.

Definition c2 : Controller := (Add c0 (lease x04 2)).1.

Lemma select_fair_witness : select_run 2 c2 = [1; 2] /\ select_run (length (ties_of c2)) c2 ≡ₚ (ties_of c2).*1.
Proof.
  split; [vm_compute; reflexivity|]. apply (select_fair c2).
  - apply Add_ok; [|vm_compute; reflexivity]. exact (NewController_ok p k 3 2 (lease x03 1) c0 eq_refl).
  - vm_compute. reflexivity.
  - refine (bool_decide_eq_true_1 _ _). vm_compute. reflexivity.
  - vm_compute. congruence.
  - vm_compute. congruence.
Defined.
End ControllerExample.
