(* ===== verification/Scheduler.v ===== *)
(** * The lease scheduler (internal/constellation/scheduler.go)

    [Select] of the scheduler ranks the leases a client can put a flow on from
    local measurements, with hysteresis for the current lease.  Scores are
    [uint64] and wrap; round-trip times are [time.Duration] nanoseconds. *)
From stdpp Require Import prelude list.
From S2P Require Import Prelude Auth.

Definition FlowInteractive : Z := 1.
Definition FlowBulk : Z := 2.
Definition FlowDatagram : Z := 3.
Definition MaxScheduleCandidates : Z := 8.

Record ScheduleCandidate := mkScheduleCandidate {
  sc_key : list byte; sc_carrier : Z; sc_healthy : bool; sc_datagram : bool;
  sc_active : Z; sc_max : Z; sc_queue : Z; sc_rtt : Z; sc_loss : Z; sc_throughput : Z
}.

Definition scheduleScore (class : Z) (c : ScheduleCandidate) : option Z :=
  if is_zero (sc_key c) || negb (carrier_valid (sc_carrier c)) || negb (sc_healthy c)
     || (sc_max c =? 0) || (sc_max c <=? sc_active c) || (sc_rtt c <? 0)
     || (60 * 1000000000 <? sc_rtt c) || (1000000 <? sc_loss c)
     || ((class =? FlowDatagram) && negb (sc_datagram c))
  then None
  else
    let rttMS := sc_rtt c / 1000000 in
    let loss := sc_loss c in
    let load := u64 (sc_active c * 1000) / sc_max c in
    let queueKiB := Z.min (sc_queue c / 1024) 1000000 in
    if class =? FlowInteractive then Some (u64 (rttMS * 100 + loss / 10 + load * 20 + queueKiB * 2))
    else if class =? FlowBulk then
      let throughputKiB := sc_throughput c / 1024 in
      let inverseThroughput := 1000000000 / (throughputKiB + 1) in
      Some (u64 (inverseThroughput + loss / 5 + load * 10 + queueKiB))
    else if class =? FlowDatagram then Some (u64 (rttMS * 150 + loss / 5 + load * 10 + queueKiB * 3))
    else None.

(** [bytes.Compare(a, b) < 0]. *)
Fixpoint bytes_lt (a b : list byte) : bool :=
  match a, b with
  | _, [] => false
  | [], _ :: _ => true
  | x :: a, y :: b => (b2z x <? b2z y) || ((b2z x =? b2z y) && bytes_lt a b)
  end.

(** The loop's variables: best, bestScore, currentScore. *)
Record ranking := mkRanking { rk_best : list byte; rk_score : Z; rk_current : Z }.

Definition rank (class : Z) (current : list byte) (r : ranking) (c : ScheduleCandidate) : ranking :=
  match scheduleScore class c with
  | None => r
  | Some score =>
      let currentScore := if bytes_eq (sc_key c) current then score else rk_current r in
      if is_zero (rk_best r) || (score <? rk_score r)
         || ((score =? rk_score r) && bytes_lt (sc_key c) (rk_best r))
      then mkRanking (sc_key c) score currentScore
      else mkRanking (rk_best r) (rk_score r) currentScore
  end.

Definition zero_id : list byte := zeros 16.

Definition Select (SwitchThreshold class : Z) (current : list byte) (candidates : list ScheduleCandidate)
    : res (list byte) :=
  if (class <? FlowInteractive) || (FlowDatagram <? class) || (len candidates =? 0)
     || (MaxScheduleCandidates <? len candidates)
  then Err ErrSchedulerConfig
  else
    let threshold := if SwitchThreshold =? 0 then 5000 else SwitchThreshold in
    let r := fold_left (rank class current) candidates (mkRanking zero_id MaxUint64 MaxUint64) in
    if is_zero (rk_best r) then Err ErrNoHealthyLease
    else if negb (is_zero current) && negb (rk_current r =? MaxUint64)
            && ((rk_current r <=? rk_score r) || (rk_current r - rk_score r <=? threshold))
    then Ok current
    else Ok (rk_best r).

(** ** Scores *)

(** What the fields of the Go struct can hold; stream limits below 2^53 keep
    the load computation from wrapping. *)
Definition candidate_typed (c : ScheduleCandidate) : Prop :=
  length (sc_key c) = 16%nat /\ is_u64 (sc_active c) /\ 0 <= sc_max c < 2 ^ 53 /\ is_u64 (sc_queue c) /\
  0 <= sc_loss c < 2 ^ 32 /\ is_u64 (sc_throughput c).

(** The eligible candidates with their scores. *)
Definition eligible (class : Z) (cs : list ScheduleCandidate) : list (list byte * Z) :=
  omap (fun c => s ← scheduleScore class c; Some (sc_key c, s)) cs.

Lemma scheduleScore_bound class c s : candidate_typed c -> scheduleScore class c = Some s ->
  is_zero (sc_key c) = false /\ 0 <= s < 2 ^ 32.
Proof.
  unfold scheduleScore, candidate_typed, is_u64. destruct (_ || _) eqn:G; [done|].
  intros (_ & Ha & Hm & Hq & Hl & Ht) H. guards. zb.
  assert (Hload : 0 <= u64 (sc_active c * 1000) / sc_max c <= 1000).
  { rewrite u64_small by (unfold is_u64; lia). split; [apply Z.div_pos; lia|].
    apply Z.div_le_upper_bound; nia. }
  assert (Hrtt : 0 <= sc_rtt c / 1000000 <= 60000).
  { split; [apply Z.div_pos; lia|]. apply Z.div_le_upper_bound; lia. }
  assert (Hl10 : 0 <= sc_loss c / 10 <= 100000) by (split; [apply Z.div_pos; lia|apply Z.div_le_upper_bound; lia]).
  assert (Hl5 : 0 <= sc_loss c / 5 <= 200000) by (split; [apply Z.div_pos; lia|apply Z.div_le_upper_bound; lia]).
  assert (Hqk : 0 <= sc_queue c / 1024) by (apply Z.div_pos; lia).
  assert (Htk : 0 <= sc_throughput c / 1024) by (apply Z.div_pos; lia).
  assert (Hinv : 0 <= 1000000000 / (sc_throughput c / 1024 + 1) <= 1000000000).
  { split; [apply Z.div_pos; lia|]. apply Z.div_le_upper_bound; nia. }
  split; [done|]. inv_res; rewrite u64_small; unfold is_u64; lia.
Qed.

(** ** The order on keys *)

Lemma bytes_lt_irrefl a : bytes_lt a a = false.
Proof. induction a as [|x a IH]; [done|]. cbn. by rewrite Z.ltb_irrefl, IH, andb_false_r. Qed.

Lemma bytes_lt_trans a b c : bytes_lt a b = true -> bytes_lt b c = true -> bytes_lt a c = true.
Proof.
  revert b c. induction a as [|x a IH]; intros [|y b] [|z c]; cbn; try done.
  rewrite !orb_true_iff, !andb_true_iff, !Z.ltb_lt, !Z.eqb_eq. intros [?|[? ?]] [?|[? ?]]; try (left; lia).
  right. split; [lia|]. by eapply IH.
Qed.

Lemma bytes_lt_total a b : length a = length b -> bytes_lt a b = false -> bytes_lt b a = false -> a = b.
Proof.
  revert b. induction a as [|x a IH]; intros [|y b]; cbn; try done. intros [= Hl].
  rewrite !orb_false_iff, !andb_false_iff, !Z.ltb_ge, !Z.eqb_neq. intros [H1 H2] [H3 H4].
  assert (Hxy : b2z x = b2z y) by lia. f_equal; [by apply b2z_inj|]. apply IH; [done|..]; [destruct H2|destruct H4]; try done; lia.
Qed.

(** [p] is ranked before [q]. *)
Definition before (p q : list byte * Z) : Prop := p.2 < q.2 \/ p.2 = q.2 /\ bytes_lt p.1 q.1 = true.

Lemma before_trans p q r : before p q -> before q r -> before p r.
Proof.
  unfold before. intros [?|[? H1]] [?|[? H2]]; try (left; lia). right. split; [lia|]. by eapply bytes_lt_trans.
Qed.

(** The first of a list, and its rank. *)
Definition first_of (p : list byte * Z) (l : list (list byte * Z)) : Prop :=
  p ∈ l /\ forall q, q ∈ l -> q = p \/ before p q.

Lemma first_unique p q l : first_of p l -> first_of q l -> p = q.
Proof.
  intros [Hp H1] [Hq H2]. destruct (H1 q Hq) as [->|B1]; [done|]. destruct (H2 p Hp) as [->|B2]; [done|].
  pose proof (before_trans _ _ _ B1 B2) as B. unfold before in B. rewrite bytes_lt_irrefl in B. lia || (destruct B as [?|[_ ?]]; [lia|done]).
Qed.

Lemma zero_id_zero : is_zero zero_id = true.
Proof. done. Qed.

Lemma eligible_cons class c cs :
  eligible class (c :: cs) = match scheduleScore class c with
                             | Some s => (sc_key c, s) :: eligible class cs
                             | None => eligible class cs
                             end.
Proof. unfold eligible. cbn. by destruct (scheduleScore class c). Qed.

Lemma rank_none class current r c : scheduleScore class c = None -> rank class current r c = r.
Proof. unfold rank. by intros ->. Qed.

Lemma rank_some class current r c s : scheduleScore class c = Some s ->
  rank class current r c =
    let cur := if bytes_eq (sc_key c) current then s else rk_current r in
    if is_zero (rk_best r) || (s <? rk_score r) || ((s =? rk_score r) && bytes_lt (sc_key c) (rk_best r))
    then mkRanking (sc_key c) s cur else mkRanking (rk_best r) (rk_score r) cur.
Proof. unfold rank. by intros ->. Qed.

(** The loop finds the first eligible candidate and the current one's score. *)
Lemma rank_spec class current cs r seen :
  Forall candidate_typed cs -> Forall (fun p => length p.1 = 16%nat) seen ->
  (seen = [] /\ is_zero (rk_best r) = true \/ is_zero (rk_best r) = false /\ first_of (rk_best r, rk_score r) seen) ->
  (forall s, rk_current r = s -> (s = MaxUint64 /\ current ∉ seen.*1) \/ (current, s) ∈ seen) ->
  let r' := fold_left (rank class current) cs r in let seen' := seen ++ eligible class cs in
  (seen' = [] /\ is_zero (rk_best r') = true \/ is_zero (rk_best r') = false /\ first_of (rk_best r', rk_score r') seen') /\
  (forall s, rk_current r' = s -> (s = MaxUint64 /\ current ∉ seen'.*1) \/ (current, s) ∈ seen').
Proof.
  intros Hcs. revert r seen. induction Hcs as [|c cs Hc Hcs IH]; intros r seen Hseen H1 H2; cbn [fold_left].
  { unfold eligible. cbn. rewrite app_nil_r. done. }
  rewrite eligible_cons. destruct (scheduleScore class c) as [s|] eqn:Es; [|rewrite (rank_none _ _ _ _ Es); by apply IH].
  rewrite (rank_some _ _ _ _ _ Es).
  destruct (scheduleScore_bound _ _ _ Hc Es) as [Hz Hs].
  rewrite cons_middle, app_assoc. set (cur := if bytes_eq (sc_key c) current then s else rk_current r).
  assert (Hcur : forall t, cur = t -> (t = MaxUint64 /\ current ∉ (seen ++ [(sc_key c, s)]).*1) \/ (current, t) ∈ seen ++ [(sc_key c, s)]).
  { intros t <-. unfold cur. destruct (bytes_eq (sc_key c) current) eqn:Eb.
    - apply bytes_eq_true in Eb as ->. right. apply elem_of_app. right. by left.
    - apply bytes_eq_false in Eb. destruct (H2 _ eq_refl) as [[-> Hn]|Hin]; [left|right].
      + split; [done|]. rewrite fmap_app, not_elem_of_app. split; [done|]. cbn. rewrite list_elem_of_singleton. congruence.
      + apply elem_of_app. by left. }
  assert (Hl : Forall (fun p => length p.1 = 16%nat) (seen ++ [(sc_key c, s)])).
  { apply Forall_app. split; [done|]. repeat constructor. apply Hc. }
  destruct (is_zero (rk_best r) || _ || _) eqn:Eb.
  - apply IH; [done| |done]. right. split; [done|]. cbn. split; [apply elem_of_app; right; by left|].
    intros q [Hq| ->%list_elem_of_singleton]%elem_of_app; [right|by left].
    destruct H1 as [[-> _]|[Hz' [_ Hf]]]; [by apply elem_of_nil in Hq|]. rewrite Hz' in Eb. cbn in Eb.
    assert (B : before (sc_key c, s) (rk_best r, rk_score r)).
    { apply orb_true_iff in Eb as [Eb|Eb]; [left|right]; cbn; guards; zb; done || lia. }
    destruct (Hf q Hq) as [->|B']; [done|]. by eapply before_trans.
  - apply IH; [done| |done]. right. cbn. guards. destruct H1 as [[_ ?]|[Hz' [Hin Hf]]]; [congruence|].
    split; [done|]. split; [apply elem_of_app; by left|].
    intros q [Hq| ->%list_elem_of_singleton]%elem_of_app; [by apply Hf|].
    unfold before. cbn. zb. destruct (Z.eq_dec s (rk_score r)) as [->|]; [|right; left; lia].
    rewrite Z.eqb_refl in *. cbn in *. destruct (bytes_lt (rk_best r) (sc_key c)) eqn:El; [right; by right|left].
    f_equal. apply bytes_lt_total; try done. rewrite Forall_forall in Hseen. pose proof (Hseen _ Hin). cbn in *. destruct Hc. congruence.
Qed.

(** ** The choice *)

Definition threshold_of (t : Z) : Z := if t =? 0 then 5000 else t.

Definition select_args (SwitchThreshold class : Z) (cs : list ScheduleCandidate) : Prop :=
  FlowInteractive <= class <= FlowDatagram /\ 0 < len cs <= MaxScheduleCandidates /\ is_u64 SwitchThreshold /\
  Forall candidate_typed cs /\ NoDup (sc_key <$> cs).

Lemma eligible_In class cs p : p ∈ eligible class cs ->
  exists c, c ∈ cs /\ sc_key c = p.1 /\ scheduleScore class c = Some p.2.
Proof.
  unfold eligible. rewrite list_elem_of_omap. intros (c & Hc & E). exists c. split; [done|].
  destruct (scheduleScore class c) eqn:Es; cbn in E; [|done]. by injection E as <-.
Qed.

Lemma eligible_unique class cs k s t : NoDup (sc_key <$> cs) ->
  (k, s) ∈ eligible class cs -> (k, t) ∈ eligible class cs -> s = t.
Proof.
  intros Hnd. induction cs as [|c cs IH]; [intros H; by apply elem_of_nil in H|].
  apply NoDup_cons in Hnd as [Hn Hnd]. rewrite eligible_cons.
  assert (Hno : forall u, (sc_key c, u) ∈ eligible class cs -> False).
  { intros u (c' & Hc' & Hk & _)%eligible_In. apply Hn. cbn in Hk. rewrite <- Hk. by apply list_elem_of_fmap_2. }
  destruct (scheduleScore class c) as [sc|]; [|by apply IH].
  rewrite !elem_of_cons. intros [[= -> ->]|H1] [E|H2]; [congruence| |simplify_eq|by apply IH]; exfalso; eauto.
Qed.

Lemma eligible_score class cs p : Forall candidate_typed cs -> p ∈ eligible class cs ->
  is_zero p.1 = false /\ 0 <= p.2 < 2 ^ 32.
Proof.
  intros Ht (c & Hc & <- & Es)%eligible_In. rewrite Forall_forall in Ht. eapply scheduleScore_bound; eauto.
Qed.

(** What [Select] returns in terms of the first eligible candidate. *)
Lemma select_spec t class current cs : select_args t class cs ->
  (eligible class cs = [] -> Select t class current cs = Err ErrNoHealthyLease) /\
  (eligible class cs <> [] -> exists b, first_of b (eligible class cs) /\
     ((exists s, (current, s) ∈ eligible class cs /\ s <= b.2 + threshold_of t) /\ Select t class current cs = Ok current \/
      (forall s, (current, s) ∈ eligible class cs -> b.2 + threshold_of t < s) /\ Select t class current cs = Ok b.1)).
Proof.
  intros (Hcl & Hlen & Hth & Ht & Hnd). unfold Select. fold (threshold_of t).
  destruct (_ || _) eqn:G; [exfalso; unfold FlowInteractive, FlowDatagram, MaxScheduleCandidates in *;
    rewrite !orb_true_iff in G; zb; lia|]. clear G.
  assert (Hthr : 0 <= threshold_of t) by (unfold threshold_of, is_u64 in *; destruct (t =? 0); lia).
  destruct (rank_spec class current cs (mkRanking zero_id MaxUint64 MaxUint64) [] Ht) as [H1 H2].
  { constructor. } { by left. } { intros s <-. left. split; [done|]. apply not_elem_of_nil. }
  cbn [app] in *. set (r := fold_left _ _ _) in *. split.
  - intros E. rewrite E in H1. destruct H1 as [[_ ->]|[_ [H _]]]; [done|]. by apply elem_of_nil in H.
  - intros Hne. destruct H1 as [[E _]|[Hz Hf]]; [done|]. exists (rk_best r, rk_score r). split; [done|].
    rewrite Hz. cbn [snd fst]. destruct (H2 _ eq_refl) as [[Hm Hn]|Hin].
    + right. split; [intros s Hs; exfalso; apply Hn; by apply (list_elem_of_fmap_2 fst) in Hs|].
      rewrite Hm, Z.eqb_refl, andb_false_r. done.
    + destruct (eligible_score _ _ _ Ht Hin) as [Hz' Hb]. cbn [fst snd] in Hz', Hb. rewrite Hz'.
      rewrite (proj2 (Z.eqb_neq (rk_current r) MaxUint64)) by (unfold MaxUint64; lia). cbn [negb andb].
      destruct (_ || _) eqn:Eb; [left|right]; (split; [|done]).
      * eexists. split; [done|]. rewrite orb_true_iff in Eb. zb. lia.
      * intros s Hs. rewrite (eligible_unique _ _ _ _ _ Hnd Hs Hin). rewrite orb_false_iff in Eb. zb. lia.
Qed.

Lemma eligible_perm class cs cs' : Permutation cs cs' -> Permutation (eligible class cs) (eligible class cs').
Proof. intros H. unfold eligible. by rewrite H. Qed.

Lemma first_of_perm p l l' : Permutation l l' -> first_of p l -> first_of p l'.
Proof. intros HP [H1 H2]. split; [by rewrite <- HP|]. intros q Hq. apply H2. by rewrite HP. Qed.

#[export] Instance select_args_perm t class : Proper (Permutation ==> iff) (select_args t class).
Proof.
  assert (forall cs cs', Permutation cs cs' -> select_args t class cs -> select_args t class cs') as H.
  { intros cs cs' HP (? & Hl & ? & Hf & Hn). unfold select_args, len in *. by rewrite <- HP. }
  intros cs cs' HP. split; by apply H.
Qed.

(** the scheduler fails exactly when no candidate is eligible; otherwise it
    keeps the current lease when that lease is eligible and its score is within
    the switching threshold of the best, and moves to the best-ranked lease
    when it is not: the best being the unique first of the eligible candidates
    by score, then by key. *)
Theorem scheduler_exact t class current cs : select_args t class cs ->
  (eligible class cs = [] -> Select t class current cs = Err ErrNoHealthyLease) /\
  (forall b, first_of b (eligible class cs) -> forall k,
     Select t class current cs = Ok k <->
       (k = current /\ exists s, (current, s) ∈ eligible class cs /\ s <= b.2 + threshold_of t) \/
       (k = b.1 /\ forall s, (current, s) ∈ eligible class cs -> b.2 + threshold_of t < s)) /\
  (eligible class cs <> [] -> exists b, first_of b (eligible class cs)).
Proof.
  intros Ha. destruct (select_spec t class current cs Ha) as [He Hn]. split; [done|]. split.
  - intros b Hb k. destruct Hn as (b' & Hb' & H).
    { intros E. rewrite E in Hb. destruct Hb as [Hb _]. by apply elem_of_nil in Hb. }
    rewrite (first_unique _ _ _ Hb Hb'). destruct H as [[(s & Hs & Hle) ->]|[Hno ->]]; split.
    + intros [= <-]. left. eauto.
    + intros [[-> _]|[_ H]]; [done|]. specialize (H _ Hs). lia.
    + intros [= <-]. by right.
    + intros [[_ (s & Hs & Hle)]|[-> _]]; [|done]. specialize (Hno _ Hs). lia.
  - intros Hne. destruct (Hn Hne) as (b & Hb & _). eauto.
Qed.

(** scheduling does not oscillate.  Scheduling again from the chosen lease,
    with the same measurements reported in any order, keeps the choice. *)
Theorem scheduler_stable t class current cs cs' k : select_args t class cs -> Permutation cs cs' ->
  Select t class current cs = Ok k -> Select t class current cs' = Ok k /\ Select t class k cs' = Ok k.
Proof.
  intros Ha HP Hk. assert (Ha' : select_args t class cs') by by rewrite <- HP.
  pose proof (eligible_perm class _ _ HP) as HE.
  destruct (select_spec t class current cs Ha) as [He Hn].
  assert (Hne : eligible class cs <> []) by (intros E; rewrite (He E) in Hk; done).
  assert (Hne' : eligible class cs' <> []) by (intros E; rewrite E in HE; by apply Permutation_nil_r in HE).
  assert (Hth : 0 <= threshold_of t).
  { destruct Ha as (_ & _ & Hth & _). unfold threshold_of, is_u64 in *. destruct (t =? 0); lia. }
  destruct (Hn Hne) as (b & Hb & H). pose proof (first_of_perm _ _ _ HE Hb) as Hb'.
  assert (Hin : exists s, (k, s) ∈ eligible class cs' /\ s <= b.2 + threshold_of t).
  { setoid_rewrite <- HE. destruct H as [[(s & Hs & Hle) E]|[Hno E]]; rewrite E in Hk; injection Hk as <-; [eauto|].
    exists b.2. split; [|lia]. destruct Hb as [Hb _]. by destruct b. }
  destruct (select_spec t class current cs' Ha') as [_ Hn1]. destruct (Hn1 Hne') as (b1 & Hb1 & H1).
  rewrite (first_unique _ _ _ Hb1 Hb') in H1.
  destruct (select_spec t class k cs' Ha') as [_ Hn2]. destruct (Hn2 Hne') as (b2 & Hb2 & H2).
  rewrite (first_unique _ _ _ Hb2 Hb') in H2. destruct Hin as (s & Hs & Hle). split.
  - setoid_rewrite HE in H.
    destruct H as [[(u & Hu & Hl) E]|[Hno E]]; destruct H1 as [[(v & Hv & Hl1) E1]|[Hno1 E1]]; try congruence.
    + specialize (Hno1 _ Hu). lia.
    + specialize (Hno _ Hv). lia.
  - destruct H2 as [[_ E2]|[Hno E2]]; [done|]. specialize (Hno _ Hs). lia.
Qed.

Module SchedulerExample.
Definition key (n : Z) : list byte := repeat (z2b n) 16.
Definition cand (n rtt : Z) : ScheduleCandidate :=
  mkScheduleCandidate (key n) CarrierHTTPS true false 1 8 0 (rtt * 1000000) 0 0.
Definition cs : list ScheduleCandidate := [cand 2 20; cand 1 20; cand 3 90].

Lemma args_ok : select_args 0 FlowInteractive cs.
Proof.
  unfold select_args, candidate_typed, is_u64. split; [done|]. split; [done|]. split; [done|]. split.
  - repeat constructor; cbn; lia || done.
  - apply (bool_decide_unpack (NoDup (sc_key <$> cs))). vm_compute. exact I.
Qed.

Example scheduler_examples :
  Select 0 FlowInteractive zero_id cs = Ok (key 1) /\ Select 0 FlowInteractive (key 2) cs = Ok (key 2) /\
  Select 0 FlowInteractive (key 3) cs = Ok (key 1) /\ Select 0 FlowDatagram (key 3) cs = Err ErrNoHealthyLease.
Proof. repeat split; vm_compute; reflexivity. Qed.

Lemma scheduler_exact_witness :
  Select 0 FlowInteractive (key 3) cs = Ok (key 1) /\
  exists b, first_of b (eligible FlowInteractive cs).
Proof.
  split; [vm_compute; reflexivity|].
  apply (scheduler_exact 0 FlowInteractive (key 3) cs args_ok). vm_compute. discriminate.
Defined.

Lemma scheduler_stable_witness :
  Select 0 FlowInteractive (key 1) (rev cs) = Ok (key 1).
Proof.
  apply (scheduler_stable 0 FlowInteractive (key 3) cs (rev cs) (key 1) args_ok).
  - apply Permutation_rev.
  - vm_compute. reflexivity.
Defined.
End SchedulerExample.
