(* ===== verification/Hub.v ===== *)
(** * Constellations of a server (internal/constellation/hub.go)

    The hub maps a constellation to its principal and its controller, and
    hands out attach tickets.  Each method is one step: a function of the hub,
    the instants its clock readings return, and the entropy reads of the
    ticket registry; it returns the new hub and the resources it closed.
    Controllers are only reached through the hub's records. *)
From stdpp Require Import prelude gmap list.
From S2P Require Import Prelude Auth Tickets Controller.

Abbreviation reads := (list (option (list byte))) (only parsing).

Definition MinConstellationTTL : Z := 5 * second.
Definition MaxConstellationTTL : Z := 3600 * second.
Definition MaxConstellations : Z := 4096.

Record HubConfig := mkHubConfig {
  hc_maxConstellations : Z; hc_maxLeases : Z; hc_maxDraining : Z; hc_inactiveTTL : Z;
  hc_maxTickets : Z; hc_ticketTTL : Z
}.

Record CreateRequest := mkCreateRequest {
  cr_principal : list byte; cr_constellation : list byte; cr_transcript : list byte;
  cr_key : list byte; cr_carrier : Z; cr_resource : option handle
}.

Record AttachRequest := mkAttachRequest {
  ar_ticket : list byte; ar_principal : list byte; ar_constellation : list byte; ar_transcript : list byte;
  ar_key : list byte; ar_carrier : Z; ar_resource : option handle
}.

(** [ticketAdmission]: its kind with the fields the kind sets. *)
Inductive ticketAdmission :=
| ticketAdmissionIssue (principal next : list byte)
| ticketAdmissionRotate (principal current next : list byte) (grant : TicketGrant).

(** [at_once] is the result of the first [Close]. *)
Record Attachment := mkAttachment {
  at_constellation : list byte; at_lease : Z; at_key : list byte; at_ticket : list byte;
  at_primary : bool; at_next : Z; at_admission : option ticketAdmission; at_once : option (option error)
}.

Record hubRecord := mkHubRecord { hr_principal : list byte; hr_controller : Controller; hr_lastSeen : Z }.

Record Hub := mkHub {
  hb_maxConstellations : Z; hb_maxLeases : Z; hb_maxDraining : Z; hb_inactiveTTL : Z;
  hb_tickets : TicketRegistry; hb_records : gmap (list byte) hubRecord; hb_closed : bool
}.

Definition set_records (h : Hub) (rs : gmap (list byte) hubRecord) : Hub :=
  mkHub (hb_maxConstellations h) (hb_maxLeases h) (hb_maxDraining h) (hb_inactiveTTL h) (hb_tickets h) rs (hb_closed h).
Definition set_tickets (h : Hub) (t : TicketRegistry) : Hub :=
  mkHub (hb_maxConstellations h) (hb_maxLeases h) (hb_maxDraining h) (hb_inactiveTTL h) t (hb_records h) (hb_closed h).

(** The clock readings of one call: [h.now] in [cleanup], the ticket
    registry's, and [h.now] for [lastSeen]. *)
Record instants := mkInstants { in_cleanup : Z; in_ticket : Z; in_seen : Z }.

Definition NewHub (c : HubConfig) : res Hub :=
  if (hc_maxConstellations c <=? 0) || (MaxConstellations <? hc_maxConstellations c)
     || (hc_maxLeases c <=? 0) || (8 <? hc_maxLeases c) || (hc_maxDraining c <=? 0) || (8 <? hc_maxDraining c)
     || (hc_inactiveTTL c <? MinConstellationTTL) || (MaxConstellationTTL <? hc_inactiveTTL c)
     || (hc_inactiveTTL c <? hc_ticketTTL c)
  then Err ErrHubConfig
  else
    tickets ← map_err (fun e => Join [Sentinel ErrHubConfig; e]) (NewTicketRegistry (hc_maxTickets c) (hc_ticketTTL c));
    Ok (mkHub (hc_maxConstellations c) (hc_maxLeases c) (hc_maxDraining c) (hc_inactiveTTL c) tickets ∅ false).

Definition validateHubLease (principal constellation transcript key : list byte) (carrier : Z) (resource : option handle)
    : res unit :=
  if is_zero principal || is_zero constellation || is_zero transcript || is_zero key
     || negb (carrier_valid carrier) || bool_decide (resource = None)
  then Err ErrHubBinding else Ok tt.

(** The records [cleanup] drops: no lease left, and not seen for the TTL. *)
Definition stale (h : Hub) (now : Z) (x : hubRecord) : bool :=
  let s := State (hr_controller x) in
  (cs_active s =? 0) && (cs_draining s =? 0) && negb (now <? hr_lastSeen x)
    && (hb_inactiveTTL h <=? now - hr_lastSeen x).

Section Close.
Variable close_err : handle -> option error.

(** What stopping the controllers of [rs] closes, in the order of the map. *)
Definition stopped (rs : gmap (list byte) hubRecord) : list handle :=
  flat_map (fun kv => (Stop close_err (hr_controller kv.2)).1.2) (map_to_list rs).

Definition cleanup (h : Hub) (now : Z) : Hub * list handle :=
  if hb_closed h then (h, [])
  else
    (set_records h (filter (fun kv : list byte * hubRecord => stale h now kv.2 = false) (hb_records h)),
     stopped (filter (fun kv : list byte * hubRecord => stale h now kv.2 = true) (hb_records h))).

Definition create (h : Hub) (at_ : instants) (random : reads) (q : CreateRequest) (pending : bool)
    : Hub * reads * list handle * res Attachment :=
  match validateHubLease (cr_principal q) (cr_constellation q) (cr_transcript q) (cr_key q) (cr_carrier q) (cr_resource q) with
  | Err e => (h, random, [], Err e)
  | Ok _ =>
      let '(h, gone) := cleanup h (in_cleanup at_) in
      if hb_closed h then (h, random, gone, Err ErrHubClosed)
      else if bool_decide (is_Some (hb_records h !! cr_constellation q)) then (h, random, gone, Err ErrHubDuplicate)
      else if hb_maxConstellations h <=? Z.of_nat (size (hb_records h)) then (h, random, gone, Err ErrHubCapacity)
      else
        match NewController (cr_principal q) (cr_constellation q) (hb_maxLeases h) (hb_maxDraining h)
                (mkCandidate (cr_key q) (cr_principal q) (cr_constellation q) (cr_carrier q) (cr_resource q)) with
        | Err e => (h, random, gone, Err e)
        | Ok controller =>
            match Issue (hb_tickets h) (in_ticket at_) random (cr_principal q) (cr_constellation q) (cr_transcript q) with
            | (tickets, random, Err e) =>
                (set_tickets h tickets, random, gone ++ (Stop close_err controller).1.2, Err e)
            | (tickets, random, Ok ticket) =>
                (set_records (set_tickets h tickets)
                   (<[cr_constellation q := mkHubRecord (cr_principal q) controller (in_seen at_)]> (hb_records h)),
                 random, gone,
                 Ok (mkAttachment (cr_constellation q) (cs_primary (State controller)) (cr_key q) ticket true 0
                       (if pending then Some (ticketAdmissionIssue (cr_principal q) ticket) else None) None))
            end
        end
  end.

Definition Create h at_ random q := create h at_ random q false.
Definition createPending h at_ random q := create h at_ random q true.

(** The record of a constellation with its controller changed. *)
Definition with_controller (h : Hub) (id : list byte) (c : Controller) : Hub :=
  set_records h (alter (fun x => mkHubRecord (hr_principal x) c (hr_lastSeen x)) id (hb_records h)).

Definition attach (h : Hub) (at_ : instants) (random : reads) (q : AttachRequest) (pending : bool)
    : Hub * reads * list handle * res Attachment :=
  match validateHubLease (ar_principal q) (ar_constellation q) (ar_transcript q) (ar_key q) (ar_carrier q) (ar_resource q) with
  | Err e => (h, random, [], Err e)
  | Ok _ =>
      let '(h, gone) := cleanup h (in_cleanup at_) in
      if hb_closed h then (h, random, gone, Err ErrHubClosed)
      else
        match hb_records h !! ar_constellation q with
        | None => (h, random, gone, Err ErrHubBinding)
        | Some x =>
            if negb (bytes_eq (hr_principal x) (ar_principal q)) then (h, random, gone, Err ErrHubBinding)
            else
              match Add (hr_controller x)
                      (mkCandidate (ar_key q) (ar_principal q) (ar_constellation q) (ar_carrier q) (ar_resource q)) with
              | (controller, Err e) => (with_controller h (ar_constellation q) controller, random, gone, Err e)
              | (controller, Ok leaseID) =>
                  match Rotate (hb_tickets h) (in_ticket at_) random (ar_ticket q) (ar_principal q) (ar_constellation q)
                          (ar_transcript q) with
                  | (tickets, random, Err e) =>
                      let '(controller, closed, _) := Fail close_err controller leaseID in
                      (with_controller (set_tickets h tickets) (ar_constellation q) controller, random, gone ++ closed, Err e)
                  | (tickets, random, Ok (next, grant)) =>
                      (set_records (set_tickets h tickets)
                         (<[ar_constellation q := mkHubRecord (hr_principal x) controller (in_seen at_)]> (hb_records h)),
                       random, gone,
                       Ok (mkAttachment (ar_constellation q) leaseID (ar_key q) next false 0
                             (if pending then Some (ticketAdmissionRotate (ar_principal q) (ar_ticket q) next grant) else None)
                             None))
                  end
              end
        end
  end.

Definition Attach h at_ random q := attach h at_ random q false.
Definition attachPending h at_ random q := attach h at_ random q true.

Definition Hub_State (h : Hub) (id : list byte) : option ControllerState :=
  if is_zero id || hb_closed h then None else State ∘ hr_controller <$> hb_records h !! id.

Definition Close (h : Hub) : Hub * list handle * option error :=
  if hb_closed h then (h, [], None)
  else
    (mkHub (hb_maxConstellations h) (hb_maxLeases h) (hb_maxDraining h) (hb_inactiveTTL h)
       (Tickets.Close (hb_tickets h)) ∅ true,
     stopped (hb_records h),
     errors_join (map (fun kv => (Stop close_err (hr_controller kv.2)).2) (map_to_list (hb_records h)))).

Definition commitAdmission (a : Attachment) : Attachment :=
  mkAttachment (at_constellation a) (at_lease a) (at_key a) (at_ticket a) (at_primary a) (at_next a) None (at_once a).

(** [abortAdmission] at the instant the ticket registry reads. *)
Definition abortAdmission (h : Hub) (now : Z) (a : Attachment) : Hub * bool * option error :=
  match at_admission a with
  | None => (h, false, None)
  | Some (ticketAdmissionIssue principal next) =>
      (set_tickets h (Revoke (hb_tickets h) now next principal (at_constellation a)).1, true, None)
  | Some (ticketAdmissionRotate principal current next grant) =>
      let '(tickets, r) := RollbackRotate (hb_tickets h) now current next principal (at_constellation a) grant in
      (set_tickets h tickets, false, match r with Ok _ => None | Err e => Some e end)
  end.

Definition discard (h : Hub) (id : list byte) (lease : Z) : Hub * list handle * option error :=
  let missing := (h, [], if hb_closed h then None else Some (Sentinel ErrHubBinding)) in
  match hb_records h !! id with
  | None => missing
  | Some x =>
      if negb (cs_primary (State (hr_controller x)) =? lease) then missing
      else
        let '(_, closed, err) := Stop close_err (hr_controller x) in
        (set_records h (delete id (hb_records h)), closed, err)
  end.

Definition release (h : Hub) (now : Z) (id : list byte) (lease : Z) : Hub * list handle * option error :=
  match hb_records h !! id with
  | None => (h, [], if hb_closed h then None else Some (Sentinel ErrHubBinding))
  | Some x =>
      let '(controller, closed, err) := Fail close_err (hr_controller x) lease in
      (set_records h (<[id := mkHubRecord (hr_principal x) controller now]> (hb_records h)), closed,
       match err with
       | Some e => if errors_is e ErrControllerClosed || errors_is e ErrLeaseNotFound then None else err
       | None => None
       end)
  end.

(** [Attachment.Close]. *)
Definition Attachment_Close (h : Hub) (at_ : instants) (a : Attachment) : Hub * Attachment * list handle * option error :=
  match at_once a with
  | Some err => (h, a, [], err)
  | None =>
      let '(h, undeliveredCreate, admissionErr) := abortAdmission h (in_ticket at_) a in
      let '(h, closed, err) :=
        if undeliveredCreate then discard h (at_constellation a) (at_lease a)
        else release h (in_seen at_) (at_constellation a) (at_lease a) in
      let result := errors_join [admissionErr; err] in
      (h, mkAttachment (at_constellation a) (at_lease a) (at_key a) (at_ticket a) (at_primary a) (at_next a) None (Some result),
       closed, result)
  end.
End Close.

(** ** The invariant *)

(** What a record of the hub holds; [n] bounds the lease numbers. *)
Definition hub_record_ok (n ma md : Z) (id : list byte) (x : hubRecord) : Prop :=
  let c := hr_controller x in
  controller_ok c /\ ct_closed c = false /\ ct_nextID c <= n /\ ct_principal c = hr_principal x /\
  ct_constellation c = id /\ ct_maxActive c = ma /\ ct_maxDraining c = md.

Record hub_ok (n : Z) (h : Hub) : Prop := {
  ho_size : Z.of_nat (size (hb_records h)) <= hb_maxConstellations h;
  ho_tickets : registry_ok (hb_tickets h);
  ho_records : map_Forall (hub_record_ok n (hb_maxLeases h) (hb_maxDraining h)) (hb_records h);
  ho_closed : hb_closed h = true -> hb_records h = ∅;
  ho_registry : tr_closed (hb_tickets h) = hb_closed h
}.

(** The resources of the leases of the hub. *)
Definition held (rs : gmap (list byte) hubRecord) : list handle :=
  flat_map (fun kv => resources (hr_controller kv.2)) (map_to_list rs).

Lemma held_insert rs id x : rs !! id = None -> held (<[id := x]> rs) ≡ₚ resources (hr_controller x) ++ held rs.
Proof. intros H. unfold held. by rewrite (map_to_list_insert _ _ _ H). Qed.

Lemma held_delete rs id x : rs !! id = Some x -> held rs ≡ₚ resources (hr_controller x) ++ held (delete id rs).
Proof.
  intros H. rewrite <- (insert_id rs id x H) at 1. rewrite <- insert_delete_eq.
  apply held_insert, lookup_delete_eq.
Qed.

Lemma held_replace rs id x y : rs !! id = Some x ->
  held (<[id := y]> rs) ≡ₚ resources (hr_controller y) ++ held (delete id rs).
Proof. intros H. rewrite <- insert_delete_eq. apply held_insert, lookup_delete_eq. Qed.

Lemma held_filter rs (P : hubRecord -> bool) :
  held (filter (fun kv : list byte * hubRecord => P kv.2 = true) rs)
    ++ held (filter (fun kv : list byte * hubRecord => P kv.2 = false) rs) ≡ₚ held rs.
Proof.
  induction rs as [|id x rs Hn IH] using map_ind; [done|]. rewrite held_insert by done.
  assert (Hf : forall (b : bool), filter (fun kv : list byte * hubRecord => P kv.2 = b) rs !! id = None).
  { intros b. rewrite map_lookup_filter_None. by left. }
  rewrite !map_filter_insert, delete_id by done. cbn [snd]. destruct (P x).
  - rewrite decide_True, decide_False by done. rewrite held_insert by apply Hf. rewrite <- app_assoc. by rewrite IH.
  - rewrite decide_False, decide_True by done. rewrite held_insert by apply Hf. by rewrite Permutation_app_swap_app, IH.
Qed.

Section Invariant.
Variable close_err : handle -> option error.
Abbreviation cleanup := (cleanup close_err).
Abbreviation create := (create close_err).
Abbreviation attach := (attach close_err).

Lemma stopped_held n ma md rs : map_Forall (hub_record_ok n ma md) rs -> stopped close_err rs = held rs.
Proof.
  intros H. unfold stopped, held. rewrite !flat_map_concat_map. f_equal. apply map_ext_in.
  intros [id x] Hin. apply list_elem_of_In, elem_of_map_to_list in Hin. destruct (H _ _ Hin) as (_ & Hc & _).
  cbn. unfold Stop. by rewrite Hc.
Qed.

Lemma hub_ok_more n m h : hub_ok n h -> n <= m -> hub_ok m h.
Proof.
  intros [H1 H2 H3 H4 H5] Hm. split; try done. intros id x Hx. destruct (H3 _ _ Hx) as (? & ? & ? & ? & ? & ? & ?).
  unfold hub_record_ok. split_and!; try done. lia.
Qed.

Lemma cleanup_hub n h now : hub_ok n h ->
  hub_ok n (cleanup h now).1 /\ (cleanup h now).2 ++ held (hb_records (cleanup h now).1) ≡ₚ held (hb_records h) /\
  hb_records (cleanup h now).1 ⊆ hb_records h.
Proof.
  intros Hh. pose proof Hh as [H1 H2 H3 H4 H5]. unfold Hub.cleanup. destruct (hb_closed h) eqn:Hc; [done|]. cbn [fst snd hb_records set_records].
  assert (Hsub : filter (fun kv : list byte * hubRecord => stale h now kv.2 = false) (hb_records h) ⊆ hb_records h)
    by apply map_filter_subseteq.
  split; [|split; [|done]].
  - split; cbn; try done.
    + apply map_subseteq_size in Hsub. lia.
    + intros id x Hx. apply (H3 id x). by eapply lookup_weaken.
    + intros; congruence.
    + congruence.
  - rewrite (stopped_held n (hb_maxLeases h) (hb_maxDraining h)).
    + apply held_filter.
    + intros id x [Hx _]%map_lookup_filter_Some. by apply H3.
Qed.

(** A controller's step as the hub sees it. *)
Lemma hub_record_step n ma md id x c' taken gone seen :
  hub_record_ok n ma md id x ->
  controller_ok c' /\ resources (hr_controller x) ++ taken ≡ₚ gone ++ resources c' /\
  ct_nextID c' <= ct_nextID (hr_controller x) + 1 /\
  (ct_maxActive c' = ct_maxActive (hr_controller x) /\ ct_maxDraining c' = ct_maxDraining (hr_controller x)) ->
  ct_principal c' = ct_principal (hr_controller x) -> ct_constellation c' = ct_constellation (hr_controller x) ->
  ct_closed c' = ct_closed (hr_controller x) ->
  hub_record_ok (n + 1) ma md id (mkHubRecord (hr_principal x) c' seen).
Proof.
  intros (H1 & H2 & H3 & H4 & H5 & H6 & H7) (G1 & _ & G3 & G4 & G5) E1 E2 E3.
  unfold hub_record_ok. cbn. rewrite E1, E2, E3, G4, G5. split_and!; try done. lia.
Qed.

Lemma Add_fields c x : ct_principal (Add c x).1 = ct_principal c /\ ct_constellation (Add c x).1 = ct_constellation c /\
  ct_closed (Add c x).1 = ct_closed c.
Proof.
  unfold Add, addLocked. destruct (validateCandidate c x); [|done]. destruct (ct_closed c) eqn:E; [done|].
  destruct (decide _); [done|]. destruct (_ <=? _); [done|]. cbn [fst ct_primary]. by destruct (ct_primary c =? 0).
Qed.

Lemma Fail_fields c id : let c' := (Fail close_err c id).1.1 in
  ct_principal c' = ct_principal c /\ ct_constellation c' = ct_constellation c /\ ct_closed c' = ct_closed c.
Proof.
  unfold Fail, removeAndClose. destruct (ct_closed c) eqn:E; [done|]. destruct (ct_leases c !! id) as [r|]; [|done].
  cbn [andb]. destruct (lc_resource (lr_candidate r)); cbn; by destruct (ct_primary c =? id).
Qed.

(** Errors of the ticket registry: the hub then closes the resource it was
    given; refusing a request for another reason leaves it to the caller. *)
Definition ticket_error (e : error) : bool :=
  errors_is e ErrLeaseTicketBinding || errors_is e ErrLeaseTicketClosed || errors_is e ErrLeaseTicketCapacity
  || errors_is e ErrLeaseTicketEntropy || errors_is e ErrLeaseTicketInvalid.

(** The resources a request handed over to the hub. *)
Definition taken_by (r : option handle) (result : res Attachment) : list handle :=
  match result with
  | Ok _ => closed_handles [r]
  | Err e => if ticket_error e then closed_handles [r] else []
  end.

Lemma new_ticket_err n m rd rd' e : new_ticket_attempts n m rd = (rd', Err e) -> e = ErrLeaseTicketEntropy.
Proof. revert rd. induction n as [|n IH]; intros rd H; cbn in H; inv_res; eauto. Qed.

Lemma Issue_error r now rd p c tr r' rd' e : Issue r now rd p c tr = (r', rd', Err e) -> ticket_error e = true.
Proof. unfold Issue. intros H. inv_res; try done. by apply new_ticket_err in E as ->. Qed.

Lemma redeemable_err r t p c e : redeemable r t p c = Err e -> e = ErrLeaseTicketInvalid.
Proof.
  unfold redeemable. destruct (tr_tickets r !! t); [|by intros [= <-]].
  destruct (_ || _); [by intros [= <-]|done].
Qed.

Lemma Rotate_error r now rd t p c tr r' rd' e : Rotate r now rd t p c tr = (r', rd', Err e) -> ticket_error e = true.
Proof.
  unfold Rotate. intros H. inv_res; try done; first [by apply redeemable_err in E as ->|by apply new_ticket_err in E0 as ->].
Qed.

Lemma Add_error c x c' e : Add c x = (c', Err e) -> ticket_error e = false /\ c' = c.
Proof.
  unfold Add. destruct (validateCandidate c x) as [|e'] eqn:E.
  - intros H. inv_res; done.
  - intros [= <- <-]. unfold validateCandidate in E. destruct (_ || _); [|done]. by injection E as <-.
Qed.

Lemma NewController_error p k ma md x e : NewController p k ma md x = Err e -> ticket_error e = false.
Proof.
  unfold NewController. destruct (_ || _); [by intros [= <-]|]. destruct (validateCandidate _ x) as [|e'] eqn:E; [done|].
  intros [= <-]. unfold validateCandidate in E. destruct (_ || _); [|done]. by injection E as <-.
Qed.

Lemma NewController_fields p k ma md x c : NewController p k ma md x = Ok c ->
  ct_nextID c = 2 /\ resources c = closed_handles [lc_resource x] /\ ct_maxActive c = ma /\ ct_maxDraining c = md /\
  ct_principal c = p /\ ct_constellation c = k /\ ct_closed c = false /\ ct_primary c = 1.
Proof.
  unfold NewController. destruct (_ || _); [done|]. destruct (validateCandidate _ x); [|done].
  intros [= <-]. by split_and!.
Qed.

(** The registry after the hub's ticket calls. *)
Lemma Issue_registry r now rd p c tr : registry_ok r ->
  registry_ok (Issue r now rd p c tr).1.1 /\ tr_closed (Issue r now rd p c tr).1.1 = tr_closed r.
Proof.
  intros Hr. split.
  - pose proof (step_ok r (OpIssue now rd p c tr) Hr) as H. unfold ticket_step in H.
    by destruct (Issue r now rd p c tr) as [[? ?] []].
  - unfold Issue. repeat case_match; by simplify_eq.
Qed.

Lemma Rotate_registry r now rd t p c tr : registry_ok r ->
  registry_ok (Rotate r now rd t p c tr).1.1 /\ tr_closed (Rotate r now rd t p c tr).1.1 = tr_closed r.
Proof.
  intros Hr. split.
  - pose proof (step_ok r (OpRotate now rd t p c tr) Hr) as H. unfold ticket_step in H.
    by destruct (Rotate r now rd t p c tr) as [[? ?] [[]|]].
  - unfold Rotate. repeat case_match; by simplify_eq.
Qed.

Lemma Rollback_registry r now t next p c g : registry_ok r ->
  registry_ok (RollbackRotate r now t next p c g).1 /\ tr_closed (RollbackRotate r now t next p c g).1 = tr_closed r.
Proof.
  intros Hr. split.
  - pose proof (step_ok r (OpRollback now t next p c g) Hr) as H. unfold ticket_step in H.
    destruct (RollbackRotate r now t next p c g) as [? []]; by destruct (tr_tickets r !! next).
  - unfold RollbackRotate. repeat case_match; by simplify_eq.
Qed.

Lemma Revoke_registry r now t p c : registry_ok r ->
  registry_ok (Revoke r now t p c).1 /\ tr_closed (Revoke r now t p c).1 = tr_closed r.
Proof.
  intros Hr. split.
  - pose proof (step_ok r (OpRevoke now t p c) Hr) as H. unfold ticket_step in H.
    destruct (Revoke r now t p c) as [? []]; by destruct (tr_tickets r !! t).
  - unfold Revoke. repeat case_match; by simplify_eq.
Qed.

Lemma hub_set_tickets n h t : hub_ok n h -> registry_ok t -> tr_closed t = tr_closed (hb_tickets h) ->
  hub_ok n (set_tickets h t).
Proof. intros [H1 H2 H3 H4 H5] Ht Hc. split; cbn; try done. by rewrite Hc. Qed.

Lemma hub_insert n h id y : hub_ok n h -> hb_closed h = false ->
  hub_record_ok n (hb_maxLeases h) (hb_maxDraining h) id y ->
  (is_Some (hb_records h !! id) \/ Z.of_nat (size (hb_records h)) < hb_maxConstellations h) ->
  hub_ok n (set_records h (<[id := y]> (hb_records h))).
Proof.
  intros [H1 H2 H3 H4 H5] Hc Hy Hs. split; cbn; try done.
  - destruct (hb_records h !! id) eqn:E.
    + rewrite map_size_insert_Some by eauto. done.
    + rewrite map_size_insert_None by done. destruct Hs as [[]|]; [done|lia].
  - by apply map_Forall_insert_2.
  - congruence.
Qed.

(** ** Operations keep the invariant and account for the resources *)

Lemma validateHubLease_error p k t key c r e : validateHubLease p k t key c r = Err e -> e = ErrHubBinding.
Proof. unfold validateHubLease. destruct (_ || _); [by intros [= <-]|done]. Qed.

Lemma create_hub n h at_ rd q b : hub_ok n h -> 2 <= n ->
  let '(h', rd', gone, r) := create h at_ rd q b in
  hub_ok n h' /\ gone ++ held (hb_records h') ≡ₚ taken_by (cr_resource q) r ++ held (hb_records h).
Proof.
  intros Hh Hn. unfold Hub.create. destruct (validateHubLease _ _ _ _ _ _) as [[]|e] eqn:Ev;
    [|by apply validateHubLease_error in Ev as ->].
  pose proof (cleanup_hub n h (in_cleanup at_) Hh) as (H1 & HP & _).
  destruct (cleanup h (in_cleanup at_)) as [h1 gone]. cbn [fst snd] in *.
  destruct (hb_closed h1) eqn:Hc; [done|]. destruct (bool_decide _) eqn:Hd; [done|].
  destruct (Z.leb_spec (hb_maxConstellations h1) (Z.of_nat (size (hb_records h1)))) as [|Hs]; [done|].
  destruct (NewController _ _ _ _ _) as [c|e] eqn:Ec; [|cbn; by rewrite (NewController_error _ _ _ _ _ _ Ec)].
  pose proof (NewController_ok _ _ _ _ _ _ Ec) as Hco.
  apply NewController_fields in Ec as (E1 & E2 & E3 & E4 & E5 & E6 & E7 & _). cbn [lc_resource] in E2.
  pose proof (ho_tickets n h1 H1) as Ht.
  pose proof (Issue_registry (hb_tickets h1) (in_ticket at_) rd (cr_principal q) (cr_constellation q) (cr_transcript q) Ht) as (R1 & R2).
  destruct (Issue _ _ _ _ _ _) as [[tickets rd'] [ticket|e]] eqn:Ei; cbn [fst] in *.
  - apply bool_decide_eq_false, eq_None_not_Some in Hd. split.
    + apply (hub_insert n (set_tickets h1 tickets)); [by apply hub_set_tickets|done| |by right].
      unfold hub_record_ok. cbn. split_and!; try done. lia.
    + cbn. rewrite held_insert by done. cbn. by rewrite E2, Permutation_app_swap_app, HP.
  - split; [by apply hub_set_tickets|]. cbn [taken_by]. rewrite (Issue_error _ _ _ _ _ _ _ _ _ Ei).
    unfold Stop. rewrite E7. cbn. by rewrite E2, <- app_assoc, Permutation_app_swap_app, HP.
Qed.

(** The record of one constellation changed by a call on its controller. *)
Lemma with_controller_eq h id x c : hb_records h !! id = Some x ->
  with_controller h id c = set_records h (<[id := mkHubRecord (hr_principal x) c (hr_lastSeen x)]> (hb_records h)).
Proof.
  intros H. unfold with_controller. f_equal. apply map_eq. intros i. rewrite lookup_alter.
  destruct (decide (i = id)) as [->|]; [by rewrite lookup_insert_eq, H, decide_True|by rewrite lookup_insert_ne, decide_False].
Qed.

Lemma with_controller_id h id x : hb_records h !! id = Some x -> with_controller h id (hr_controller x) = h.
Proof.
  intros H. rewrite (with_controller_eq _ _ x) by done. replace (mkHubRecord _ _ _) with x by by destruct x.
  rewrite insert_id by done. by destruct h.
Qed.

Lemma hub_update n h id x c taken gone seen : hub_ok n h -> hb_closed h = false -> hb_records h !! id = Some x ->
  controller_ok c /\ resources (hr_controller x) ++ taken ≡ₚ gone ++ resources c /\
  ct_nextID c <= ct_nextID (hr_controller x) + 1 /\
  (ct_maxActive c = ct_maxActive (hr_controller x) /\ ct_maxDraining c = ct_maxDraining (hr_controller x)) ->
  ct_principal c = ct_principal (hr_controller x) /\ ct_constellation c = ct_constellation (hr_controller x) /\
  ct_closed c = ct_closed (hr_controller x) ->
  let h' := set_records h (<[id := mkHubRecord (hr_principal x) c seen]> (hb_records h)) in
  hub_ok (n + 1) h' /\ gone ++ held (hb_records h') ≡ₚ taken ++ held (hb_records h).
Proof.
  intros Hh Hc Hx Hst (E1 & E2 & E3). pose proof (ho_records n h Hh _ _ Hx) as Hr. split.
  - apply hub_insert; [eapply hub_ok_more; [done|lia]|done| |by left; eauto].
    by eapply hub_record_step.
  - cbn. rewrite (held_replace _ _ x) by done. rewrite (held_delete _ _ _ Hx). cbn.
    destruct Hst as (_ & HP & _). rewrite !app_assoc, <- HP. by rewrite (Permutation_app_comm taken).
Qed.

Lemma attach_hub n h at_ rd q b : hub_ok n h -> n + 1 < 2 ^ 64 ->
  let '(h', rd', gone, r) := attach h at_ rd q b in
  hub_ok (n + 1) h' /\ gone ++ held (hb_records h') ≡ₚ taken_by (ar_resource q) r ++ held (hb_records h).
Proof.
  intros Hh Hn. assert (Hm : hub_ok (n + 1) h) by (eapply hub_ok_more; [done|lia]).
  unfold Hub.attach. destruct (validateHubLease _ _ _ _ _ _) as [[]|e] eqn:Ev;
    [|by apply validateHubLease_error in Ev as ->].
  pose proof (cleanup_hub n h (in_cleanup at_) Hh) as (H1 & HP & _).
  destruct (cleanup h (in_cleanup at_)) as [h1 gone]. cbn [fst snd] in *.
  assert (Hm1 : hub_ok (n + 1) h1) by (eapply hub_ok_more; [done|lia]).
  destruct (hb_closed h1) eqn:Hc; [done|]. destruct (hb_records h1 !! ar_constellation q) as [x|] eqn:Hx; [|done].
  destruct (negb _); [done|]. set (cand := mkCandidate _ _ _ _ _).
  pose proof (ho_records n h1 H1 _ _ Hx) as (Hco & Hcc & Hid & _). cbn in Hid.
  pose proof (lease_step_ok close_err (hr_controller x) (OpAdd cand) Hco ltac:(lia)) as Hadd.
  pose proof (Add_fields (hr_controller x) cand) as Hf. cbn [lease_step] in Hadd.
  destruct (Add (hr_controller x) cand) as [c [lease|e]] eqn:Ea; cbn [fst] in *; cycle 1.
  { apply Add_error in Ea as [Ee ->]. rewrite with_controller_id by done. cbn [taken_by]. by rewrite Ee. }
  pose proof (Rotate_registry (hb_tickets h1) (in_ticket at_) rd (ar_ticket q) (ar_principal q) (ar_constellation q)
    (ar_transcript q) (ho_tickets n h1 H1)) as (R1 & R2).
  destruct (Rotate _ _ _ _ _ _ _) as [[tickets rd'] [[next grant]|e]] eqn:Er; cbn [fst] in *.
  - assert (Hs : hub_ok n (set_tickets h1 tickets)) by by apply hub_set_tickets.
    destruct (hub_update n (set_tickets h1 tickets) _ x c _ _ (in_seen at_) Hs Hc Hx Hadd Hf) as [G1 G2].
    split; [done|]. cbn in *. rewrite G2. by rewrite Permutation_app_swap_app, HP.
  - assert (Hs : hub_ok n (set_tickets h1 tickets)) by by apply hub_set_tickets.
    destruct Hadd as (A1 & A2 & A3 & A4 & A5). destruct Hf as (F1 & F2 & F3).
    pose proof (removeAndClose_ok close_err c lease false A1) as B1.
    pose proof (remove_resources close_err c lease false A1) as B2.
    pose proof (remove_fields close_err c lease false) as B3. pose proof (Fail_fields c lease) as B4.
    assert (B5 : ct_nextID (Fail close_err c lease).1.1 = ct_nextID c).
    { unfold Fail, removeAndClose. destruct (ct_closed c); [done|]. destruct (ct_leases c !! lease) as [r|]; [|done].
      cbn [andb]. destruct (lc_resource (lr_candidate r)); cbn; by destruct (ct_primary c =? lease). }
    unfold Fail in *. destruct (removeAndClose close_err c lease false) as [[c' closed] err]. cbn [fst] in *.
    assert (Hst : controller_ok c' /\ resources (hr_controller x) ++ closed_handles [ar_resource q] ≡ₚ closed ++ resources c' /\
      ct_nextID c' <= ct_nextID (hr_controller x) + 1 /\
      (ct_maxActive c' = ct_maxActive (hr_controller x) /\ ct_maxDraining c' = ct_maxDraining (hr_controller x))).
    { split_and!; try done; [|lia|by rewrite (proj1 (proj2 B3)), A4|by rewrite (proj2 (proj2 B3)), A5]. change (ar_resource q) with (lc_resource cand). by rewrite A2. }
    destruct B4 as (B6 & B7 & B8).
    rewrite (with_controller_eq _ _ x) by done.
    destruct (hub_update n (set_tickets h1 tickets) _ x c' _ _ (hr_lastSeen x) Hs Hc Hx Hst) as [G1 G2].
    { by rewrite B6, B7, B8. }
    split; [done|]. cbn [taken_by]. rewrite (Rotate_error _ _ _ _ _ _ _ _ _ _ Er). cbn in *.
    rewrite <- app_assoc, G2. by rewrite Permutation_app_swap_app, HP.
Qed.

Lemma release_hub n h now id lease : hub_ok n h ->
  let '(h', gone, _) := release close_err h now id lease in
  hub_ok (n + 1) h' /\ gone ++ held (hb_records h') ≡ₚ held (hb_records h).
Proof.
  intros Hh. assert (Hm : hub_ok (n + 1) h) by (eapply hub_ok_more; [done|lia]).
  unfold release. destruct (hb_records h !! id) as [x|] eqn:Hx; [|done].
  pose proof (ho_records n h Hh _ _ Hx) as (Hco & Hcc & Hid & _).
  assert (Hc : hb_closed h = false).
  { destruct (hb_closed h) eqn:E; [|done]. apply (ho_closed n h Hh) in E. by rewrite E, lookup_empty in Hx. }
  pose proof (removeAndClose_ok close_err _ lease false Hco) as B1.
  pose proof (remove_resources close_err _ lease false Hco) as B2.
  pose proof (remove_fields close_err (hr_controller x) lease false) as B3. pose proof (Fail_fields (hr_controller x) lease) as B4.
  unfold Fail in *. destruct (removeAndClose close_err (hr_controller x) lease false) as [[c' closed] err]. cbn [fst] in *.
  destruct (hub_update n h _ x c' [] closed now Hh Hc Hx) as [G1 G2]; [|done|by split].
  rewrite app_nil_r. naive_solver.
Qed.

Lemma discard_hub n h id lease : hub_ok n h ->
  let '(h', gone, _) := discard close_err h id lease in
  hub_ok n h' /\ gone ++ held (hb_records h') ≡ₚ held (hb_records h).
Proof.
  intros Hh. unfold discard. destruct (hb_records h !! id) as [x|] eqn:Hx; [|done]. destruct (negb _); [done|].
  pose proof (ho_records n h Hh _ _ Hx) as (Hco & Hcc & _). unfold Stop. rewrite Hcc. cbn.
  split; [|by rewrite <- held_delete].
  destruct Hh as [H1 H2 H3 H4 H5]. split; cbn; try done.
  - pose proof (map_subseteq_size _ _ (delete_subseteq (hb_records h) id)). lia.
  - by apply map_Forall_delete.
  - intros E. apply H4 in E. by rewrite E, lookup_empty in Hx.
Qed.

Lemma abort_hub n h now a : hub_ok n h ->
  hub_ok n (abortAdmission h now a).1.1 /\ hb_records (abortAdmission h now a).1.1 = hb_records h.
Proof.
  intros Hh. unfold abortAdmission. destruct (at_admission a) as [[p t|p t t' g]|]; [| |done].
  - split; [|done]. apply hub_set_tickets; [done|..]; apply Revoke_registry, Hh.
  - pose proof (Rollback_registry (hb_tickets h) now t t' p (at_constellation a) g (ho_tickets n h Hh)) as [? ?].
    destruct (RollbackRotate _ _ _ _ _ _ _) as [tk r]. split; [|done]. by apply hub_set_tickets.
Qed.

Lemma detach_hub n h at_ a : hub_ok n h ->
  let '(h', _, gone, _) := Attachment_Close close_err h at_ a in
  hub_ok (n + 1) h' /\ gone ++ held (hb_records h') ≡ₚ held (hb_records h).
Proof.
  intros Hh. assert (Hm : hub_ok (n + 1) h) by (eapply hub_ok_more; [done|lia]).
  unfold Attachment_Close. destruct (at_once a); [done|].
  pose proof (abort_hub n h (in_ticket at_) a Hh) as [H1 H2].
  destruct (abortAdmission h (in_ticket at_) a) as [[h1 u] e]. cbn [fst] in *. destruct u.
  - pose proof (discard_hub n h1 (at_constellation a) (at_lease a) H1) as H3.
    destruct (discard _ _ _ _) as [[h2 gone] err]. rewrite <- H2. destruct H3. split; [|done].
    eapply hub_ok_more; [done|lia].
  - pose proof (release_hub n h1 (in_seen at_) (at_constellation a) (at_lease a) H1) as H3.
    destruct (release _ _ _ _ _) as [[h2 gone] err]. by rewrite <- H2.
Qed.

Lemma close_hub n h : hub_ok n h ->
  let '(h', gone, _) := Close close_err h in
  hub_ok n h' /\ gone ++ held (hb_records h') ≡ₚ held (hb_records h) /\ held (hb_records h') = [].
Proof.
  intros Hh. unfold Close. destruct (hb_closed h) eqn:Hc.
  { split; [done|]. split; [done|]. by rewrite (ho_closed n h Hh Hc). }
  destruct Hh as [H1 H2 H3 H4 H5]. split; [|split; [|done]].
  - split; cbn; try done; try lia.
    + rewrite map_size_empty. lia.
    + exact (step_ok (hb_tickets h) OpClose H2).
    + unfold Tickets.Close. destruct (tr_closed (hb_tickets h)) eqn:E; cbn; congruence.
  - cbn. rewrite app_nil_r. by rewrite (stopped_held n (hb_maxLeases h) (hb_maxDraining h)).
Qed.

(** ** Executions *)

(** A hub with the attachments it has handed out. *)
Record system := mkSystem { sy_hub : Hub; sy_attachments : list Attachment }.

Inductive hub_op :=
| HCreate (at_ : instants) (random : reads) (q : CreateRequest) (pending : bool)
| HAttach (at_ : instants) (random : reads) (q : AttachRequest) (pending : bool)
| HCommit (i : nat)
| HDetach (at_ : instants) (i : nat)
| HClose.

Definition with_result (s : system) (h : Hub) (r : res Attachment) : system :=
  mkSystem h (match r with Ok a => sy_attachments s ++ [a] | Err _ => sy_attachments s end).

(** The system after a call, the resources handed over, and those closed. *)
Definition hub_step (s : system) (op : hub_op) : system * list handle * list handle :=
  match op with
  | HCreate at_ rd q b =>
      let '(h, _, gone, r) := create (sy_hub s) at_ rd q b in (with_result s h r, taken_by (cr_resource q) r, gone)
  | HAttach at_ rd q b =>
      let '(h, _, gone, r) := attach (sy_hub s) at_ rd q b in (with_result s h r, taken_by (ar_resource q) r, gone)
  | HCommit i => (mkSystem (sy_hub s) (alter commitAdmission i (sy_attachments s)), [], [])
  | HDetach at_ i =>
      match sy_attachments s !! i with
      | None => (s, [], [])
      | Some a =>
          let '(h, a, gone, _) := Attachment_Close close_err (sy_hub s) at_ a in
          (mkSystem h (<[i := a]> (sy_attachments s)), [], gone)
      end
  | HClose => let '(h, gone, _) := Close close_err (sy_hub s) in (mkSystem h (sy_attachments s), [], gone)
  end.

Fixpoint hub_run (s : system) (ops : list hub_op) : system * list handle * list handle :=
  match ops with
  | [] => (s, [], [])
  | op :: ops =>
      let '(s, taken, gone) := hub_step s op in
      let '(s, taken', gone') := hub_run s ops in (s, taken ++ taken', gone ++ gone')
  end.

Lemma hub_step_ok n s op : hub_ok n (sy_hub s) -> 2 <= n -> n + 1 < 2 ^ 64 ->
  let '(s', taken, gone) := hub_step s op in
  hub_ok (n + 1) (sy_hub s') /\ gone ++ held (hb_records (sy_hub s')) ≡ₚ taken ++ held (hb_records (sy_hub s)).
Proof.
  intros Hh H2 Hn. assert (Hm : hub_ok (n + 1) (sy_hub s)) by (eapply hub_ok_more; [done|lia]).
  destruct op as [at_ rd q b|at_ rd q b|i|at_ i|]; cbn [hub_step].
  - pose proof (create_hub n (sy_hub s) at_ rd q b Hh H2) as H. destruct (create _ _ _ _ _) as [[[h rd'] gone] r].
    destruct H. split; [|done]. eapply hub_ok_more; [done|lia].
  - pose proof (attach_hub n (sy_hub s) at_ rd q b Hh Hn) as H. by destruct (attach _ _ _ _ _) as [[[h rd'] gone] r].
  - done.
  - destruct (sy_attachments s !! i) as [a|]; [|done].
    pose proof (detach_hub n (sy_hub s) at_ a Hh) as H. by destruct (Attachment_Close _ _ _ _) as [[[h a'] gone] r].
  - pose proof (close_hub n (sy_hub s) Hh) as H. destruct (Close _ _) as [[h gone] r]. destruct H as (? & ? & _).
    split; [|done]. eapply hub_ok_more; [done|lia].
Qed.

Lemma hub_run_ok n s ops : hub_ok n (sy_hub s) -> 2 <= n -> n + len ops < 2 ^ 64 ->
  let '(s', taken, gone) := hub_run s ops in
  hub_ok (n + len ops) (sy_hub s') /\ gone ++ held (hb_records (sy_hub s')) ≡ₚ taken ++ held (hb_records (sy_hub s)).
Proof.
  revert n s. induction ops as [|op ops IH]; intros n s Hh H2 Hn; cbn [hub_run].
  { rewrite len_nil, Z.add_0_r. done. }
  rewrite len_cons in *. pose proof (len_nonneg ops).
  pose proof (hub_step_ok n s op Hh H2 ltac:(lia)) as Hs. destruct (hub_step s op) as [[s1 t1] g1]. destruct Hs as [H1 HP1].
  specialize (IH (n + 1) s1 H1 ltac:(lia) ltac:(lia)). destruct (hub_run s1 ops) as [[s2 t2] g2]. destruct IH as [H3 HP2].
  split; [by replace (n + (1 + len ops)) with (n + 1 + len ops) by lia|].
  rewrite <- app_assoc, HP2, (Permutation_app_swap_app g1), HP1, !app_assoc. by rewrite (Permutation_app_comm t1 t2).
Qed.

Lemma NewHub_ok c h : NewHub c = Ok h -> hub_ok 2 h /\ hb_records h = ∅ /\ hb_maxConstellations h = hc_maxConstellations c /\
  hb_closed h = false /\ hb_tickets h = mkTicketRegistry (hc_maxTickets c) (hc_ticketTTL c) ∅ false /\
  hb_inactiveTTL h = hc_inactiveTTL c /\ hc_ticketTTL c <= hc_inactiveTTL c.
Proof.
  unfold NewHub. destruct (_ || _) eqn:G; [done|]. destruct (NewTicketRegistry _ _) as [r|] eqn:Er; [|done]. intros [= <-].
  pose proof Er as Er'. apply NewTicketRegistry_ok in Er' as (Hr & _). guards. zb.
  unfold NewTicketRegistry in Er. destruct (_ || _); [done|]. injection Er as <-.
  split; [|by split_and!]. split; cbn; try done. rewrite map_size_empty. lia.
Qed.
End Invariant.

(** ** Undelivered admissions *)

(** A controller as it was, but for the number of the next lease. *)
Definition same_leases (c c' : Controller) : Prop :=
  ct_leases c' = ct_leases c /\ ct_order c' = ct_order c /\ ct_primary c' = ct_primary c /\
  ct_tieCursor c' = ct_tieCursor c /\ ct_principal c' = ct_principal c /\ ct_constellation c' = ct_constellation c /\
  ct_maxActive c' = ct_maxActive c /\ ct_maxDraining c' = ct_maxDraining c /\ ct_closed c' = ct_closed c /\
  ct_nextID c' = ct_nextID c + 1.

Lemma removeOrder_snoc id l : id ∉ l -> removeOrder id (l ++ [id]) = l.
Proof.
  induction l as [|x l IH]; cbn; [by rewrite Z.eqb_refl|]. rewrite not_elem_of_cons. intros [Hx Hl].
  rewrite (proj2 (Z.eqb_neq x id)) by done. by rewrite IH.
Qed.

Lemma active_count c id : is_active c id = true -> 1 <= countStateLocked c LeaseActive.
Proof.
  intros (r & Hr & Hs)%active_lookup. pose proof (count_delete _ _ _ LeaseActive Hr) as E. rewrite Hs in E.
  pose proof (count_nonneg (delete id (ct_leases c)) LeaseActive). unfold countStateLocked. rewrite bool_decide_true in E by done. unfold one_if in E. lia.
Qed.

(** Failing the lease just added undoes the addition. *)
Lemma Add_Fail close_err c x c1 id : controller_ok c -> ct_nextID c < 2 ^ 64 - 1 -> Add c x = (c1, Ok id) ->
  exists c' h, lc_resource x = Some h /\ Fail close_err c1 id = (c', [h], close_err h) /\ same_leases c c'.
Proof.
  intros Hc Hn. unfold Add. destruct (validateCandidate c x) as [[]|] eqn:Hv; [|done]. destruct (ct_closed c) eqn:Hcl; [done|].
  destruct (decide _); [done|]. destruct (_ <=? _); [done|]. apply validate_ok in Hv as (Hr & _).
  pose proof (co_next c Hc). destruct (lc_resource x) as [h|] eqn:Hh; [|by destruct Hr].
  assert (Hf : ct_leases c !! ct_nextID c = None).
  { apply eq_None_not_Some. intros Hs. apply (co_ids c Hc) in Hs. lia. }
  assert (Ho : ct_nextID c ∉ ct_order c) by (rewrite (co_order c Hc), Hf; by intros []).
  unfold addLocked. rewrite (proj2 (Z.eqb_neq (ct_nextID c) 0)) by lia. cbn [fst ct_primary].
  intros E. assert (id = ct_nextID c) as -> by (by injection E).
  unfold Fail, removeAndClose.
  assert (Hp : ct_primary c <> ct_nextID c).
  { destruct (co_primary c Hc) as [[-> _]|(r & Hr' & _)%active_lookup]; [lia|]. intros E'. congruence. }
  set (c2 := mkController (ct_principal c) (ct_constellation c) (ct_maxActive c) (ct_maxDraining c) (ct_nextID c + 1)
    (ct_primary c) (ct_tieCursor c) (ct_leases c) (ct_order c) (ct_closed c)).
  assert (E2 : same_leases c c2) by done.
  exists c2, h. split; [done|]. split; [|done]. rewrite u64_small in E by (unfold is_u64; lia).
  destruct (Z.eqb_spec (ct_primary c) 0) as [E0|E0]; injection E as <-; cbn.
  - rewrite Hcl, lookup_insert_eq. cbn. rewrite Hh, Z.eqb_refl, delete_insert_id, removeOrder_snoc by done.
    unfold c2, set_primary. cbn. rewrite E0, Hcl.
    assert (Hfirst : firstActiveLocked c = 0).
    { destruct (firstActive_ok c (co_order c Hc)) as [[? _]|Ha]; [done|]. apply active_count in Ha.
      destruct (co_primary c Hc) as [[_ ?]|(r & Hr' & _)%active_lookup]; [lia|].
      rewrite E0 in Hr'. assert (is_Some (ct_leases c !! 0)) as Hs%(co_ids c Hc) by eauto. lia. }
    replace (firstActiveLocked _) with (firstActiveLocked c) by done. by rewrite Hfirst.
  - rewrite Hcl, lookup_insert_eq. cbn. rewrite Hh, delete_insert_id, removeOrder_snoc by done.
    rewrite (proj2 (Z.eqb_neq _ _) Hp). unfold c2. by rewrite Hcl.
Qed.

(** ** Properties *)

(** C16: whatever calls a server makes on its hub, with any clock, entropy and
    requests, the hub keeps its limits and every controller its invariant, and
    the carriers handed to it (as multisets) each serve exactly one lease or
    have been closed exactly once; after [Close] all have been closed. *)
Theorem hub_accounts_carriers close_err c h0 ops :
  NewHub c = Ok h0 -> len ops < 2 ^ 64 - 2 ->
  let '(s, taken, gone) := hub_run close_err (mkSystem h0 []) ops in
  let h := sy_hub s in
  Z.of_nat (size (hb_records h)) <= hb_maxConstellations h /\
  Z.of_nat (size (tr_tickets (hb_tickets h))) <= tr_max (hb_tickets h) /\
  (forall id x, hb_records h !! id = Some x ->
     controller_ok (hr_controller x) /\ ct_principal (hr_controller x) = hr_principal x /\ ct_constellation (hr_controller x) = id) /\
  gone ++ held (hb_records h) ≡ₚ taken /\ (hb_closed h = true -> gone ≡ₚ taken).
Proof.
  intros (H0 & He & _)%NewHub_ok Hn.
  pose proof (hub_run_ok close_err 2 (mkSystem h0 []) ops H0 ltac:(lia) ltac:(lia)) as H.
  destruct (hub_run _ _ _) as [[s taken] gone]. destruct H as [H HP]. cbn [sy_hub] in HP. rewrite He in HP.
  change (held ∅) with (@nil Z) in HP. rewrite app_nil_r in HP. cbn zeta.
  pose proof (ho_tickets _ _ H) as (_ & Ht & _). split_and!; try done.
  - apply H.
  - intros id x Hx. destruct (ho_records _ _ H _ _ Hx) as (? & ? & ? & ? & ? & _). done.
  - intros Hc. by rewrite (ho_closed _ _ H Hc), app_nil_r in HP.
Qed.

Lemma cleanup_fields close_err h now : let h' := (cleanup close_err h now).1 in
  hb_tickets h' = hb_tickets h /\ hb_closed h' = hb_closed h /\ hb_maxConstellations h' = hb_maxConstellations h /\
  hb_maxLeases h' = hb_maxLeases h /\ hb_maxDraining h' = hb_maxDraining h /\ hb_inactiveTTL h' = hb_inactiveTTL h.
Proof. unfold cleanup. destruct (hb_closed h) eqn:E; by rewrite ?E. Qed.

(** What a successful [create] and [attach] leave. *)
Lemma create_ok close_err h at_ rd q b h1 rd1 gone a :
  create close_err h at_ rd q b = (h1, rd1, gone, Ok a) ->
  let hc := (cleanup close_err h (in_cleanup at_)).1 in
  exists c tickets, validateHubLease (cr_principal q) (cr_constellation q) (cr_transcript q) (cr_key q) (cr_carrier q) (cr_resource q) = Ok tt /\
    hb_closed hc = false /\ hb_records hc !! cr_constellation q = None /\
    NewController (cr_principal q) (cr_constellation q) (hb_maxLeases hc) (hb_maxDraining hc)
      (mkCandidate (cr_key q) (cr_principal q) (cr_constellation q) (cr_carrier q) (cr_resource q)) = Ok c /\
    Issue (hb_tickets h) (in_ticket at_) rd (cr_principal q) (cr_constellation q) (cr_transcript q) = (tickets, rd1, Ok (at_ticket a)) /\
    h1 = set_records (set_tickets hc tickets) (<[cr_constellation q := mkHubRecord (cr_principal q) c (in_seen at_)]> (hb_records hc)) /\
    a = mkAttachment (cr_constellation q) (ct_primary c) (cr_key q) (at_ticket a) true 0
          (if b then Some (ticketAdmissionIssue (cr_principal q) (at_ticket a)) else None) None.
Proof.
  unfold create. pose proof (cleanup_fields close_err h (in_cleanup at_)) as Hf. cbn zeta in *.
  destruct (validateHubLease _ _ _ _ _ _) as [[]|]; [|done]. destruct (cleanup _ _ _) as [hc g]. cbn [fst] in *.
  destruct Hf as (Ht & _). rewrite <- Ht.
  destruct (hb_closed hc); [done|]. destruct (bool_decide _) eqn:Hd; [done|]. destruct (_ <=? _); [done|].
  destruct (NewController _ _ _ _ _) as [c|] eqn:Ec; [|done]. destruct (Issue _ _ _ _ _ _) as [[tk rd'] [t|]] eqn:Ei; [|done].
  intros [= <- <- <- <-]. apply bool_decide_eq_false, eq_None_not_Some in Hd. exists c, tk. by split_and!.
Qed.

Lemma attach_ok close_err h at_ rd q b h1 rd1 gone a :
  attach close_err h at_ rd q b = (h1, rd1, gone, Ok a) ->
  let hc := (cleanup close_err h (in_cleanup at_)).1 in
  exists x c tickets grant, validateHubLease (ar_principal q) (ar_constellation q) (ar_transcript q) (ar_key q) (ar_carrier q) (ar_resource q) = Ok tt /\
    hb_closed hc = false /\ hb_records hc !! ar_constellation q = Some x /\ hr_principal x = ar_principal q /\
    Add (hr_controller x) (mkCandidate (ar_key q) (ar_principal q) (ar_constellation q) (ar_carrier q) (ar_resource q)) = (c, Ok (at_lease a)) /\
    Rotate (hb_tickets h) (in_ticket at_) rd (ar_ticket q) (ar_principal q) (ar_constellation q) (ar_transcript q)
      = (tickets, rd1, Ok (at_ticket a, grant)) /\
    h1 = set_records (set_tickets hc tickets) (<[ar_constellation q := mkHubRecord (ar_principal q) c (in_seen at_)]> (hb_records hc)) /\
    a = mkAttachment (ar_constellation q) (at_lease a) (ar_key q) (at_ticket a) false 0
          (if b then Some (ticketAdmissionRotate (ar_principal q) (ar_ticket q) (at_ticket a) grant) else None) None.
Proof.
  unfold attach. pose proof (cleanup_fields close_err h (in_cleanup at_)) as Hf. cbn zeta in *.
  destruct (validateHubLease _ _ _ _ _ _) as [[]|]; [|done]. destruct (cleanup _ _ _) as [hc g]. cbn [fst] in *.
  destruct Hf as (Ht & _). rewrite <- Ht.
  destruct (hb_closed hc); [done|]. destruct (hb_records hc !! _) as [x|] eqn:Hx; [|done].
  destruct (bytes_eq (hr_principal x) (ar_principal q)) eqn:Hp; [|done]. apply bytes_eq_true in Hp. cbn [negb].
  destruct (Add _ _) as [c [l|]] eqn:Ea; [|done]. destruct (Rotate _ _ _ _ _ _ _) as [[tk rd'] [[t g']|]] eqn:Er;
    [|by destruct (Fail _ _ _) as [[? ?] ?]].
  intros [= <- <- <- <-]. rewrite Hp. exists x, c, tk, g'. by split_and!.
Qed.

(** an admission whose answer could not be delivered leaves no trace:
    closing the pending attachment closes its carrier, removes its lease and
    its constellation if it had created one, withdraws its ticket and makes
    the ticket the client still has valid again. *)
Theorem undelivered_admission_undone close_err n h at_ later rd :
  hub_ok n h -> n + 1 < 2 ^ 64 -> in_ticket at_ <= in_ticket later ->
  let hc := (cleanup close_err h (in_cleanup at_)).1 in
  (forall q h1 rd1 gone a, createPending close_err h at_ rd q = (h1, rd1, gone, Ok a) ->
     let '(h2, _, closed, _) := Attachment_Close close_err h1 later a in
     hb_records h2 = hb_records hc /\ hb_tickets h2 = cleanupLocked (hb_tickets h) (in_ticket later) /\
     closed = closed_handles [cr_resource q]) /\
  (forall q h1 rd1 gone a x, attachPending close_err h at_ rd q = (h1, rd1, gone, Ok a) ->
     tr_tickets (hb_tickets h) !! ar_ticket q = Some x -> in_ticket later < t_expires x ->
     in_ticket later < in_ticket at_ + tr_ttl (hb_tickets h) ->
     let '(h2, _, closed, _) := Attachment_Close close_err h1 later a in
     hb_tickets h2 = cleanupLocked (hb_tickets h) (in_ticket later) /\ closed = closed_handles [ar_resource q] /\
     exists y y', hb_records hc !! ar_constellation q = Some y /\
       hb_records h2 = <[ar_constellation q := y']> (hb_records hc) /\
       hr_principal y' = hr_principal y /\ same_leases (hr_controller y) (hr_controller y')).
Proof.
  intros Hh Hn Hl. cbn zeta. split.
  - intros q h1 rd1 gone a (c & tk & _ & Hcl & Hnew & Hc & Hi & -> & ->)%create_ok. cbn [at_ticket] in *.
    apply NewController_fields in Hc as (_ & Hr & _ & _ & _ & _ & Hcc & _).
    unfold Attachment_Close, abortAdmission. cbn. unfold discard. cbn. rewrite lookup_insert_eq. cbn.
    rewrite Z.eqb_refl. cbn. unfold Stop. rewrite Hcc. cbn. split_and!; [by rewrite delete_insert_id| |done].
    by apply (issue_undo _ _ _ _ _ _ _ _ _ (in_ticket later) Hi).
  - intros q h1 rd1 gone a x (y & c & tk & g & _ & Hcl & Hy & Hp & Ha & Hr & -> & ->)%attach_ok Hx He Ht. cbn [at_ticket at_lease] in *.
    destruct (cleanup_hub close_err n h (in_cleanup at_) Hh) as (Hhc & _ & _).
    pose proof (ho_records _ _ Hhc _ _ Hy) as (Hco & _ & Hid & _). cbn in Hid.
    destruct (Add_Fail close_err _ _ _ _ Hco ltac:(lia) Ha) as (c' & r & Hres & Hfail & Hsame). cbn in Hres.
    assert (Hg : g_expires g = t_expires x).
    { apply Rotate_ok in Hr as (x' & _ & (Hx' & _)%redeemable_ok & -> & _). apply cleanup_lookup in Hx' as [Hx' _].
      rewrite Hx in Hx'. by injection Hx' as ->. }
    destruct (rotate_undo _ _ _ _ _ _ _ _ _ _ _ (in_ticket later) (ho_tickets _ _ Hh) Hr ltac:(lia) Ht) as (_ & _ & Hback).
    unfold Attachment_Close, abortAdmission. cbn. rewrite Hback. cbn. unfold release. cbn. rewrite lookup_insert_eq. cbn.
    rewrite Hfail. cbn. rewrite Hres. split; [done|]. split; [done|].
    exists y, (mkHubRecord (ar_principal q) c' (in_seen later)). rewrite insert_insert_eq. by split_and!.
Qed.

(** ** Tickets and the life of their constellation *)

(** The constellations a call removes because the answer to their creation
    could not be delivered. *)
Definition discarded_by (s : system) (op : hub_op) : list (list byte) :=
  match op with
  | HDetach _ i =>
      match sy_attachments s !! i with
      | Some a => match at_once a, at_admission a with
                  | None, Some (ticketAdmissionIssue _ _) => [at_constellation a]
                  | _, _ => []
                  end
      | None => []
      end
  | _ => []
  end.

(** A clock that never goes back: the last reading after the call. *)
Definition clock_step (now : Z) (op : hub_op) (now' : Z) : Prop :=
  match op with
  | HCreate at_ _ _ _ | HAttach at_ _ _ _ | HDetach at_ _ =>
      now <= in_cleanup at_ /\ in_cleanup at_ <= in_ticket at_ /\ in_ticket at_ <= in_seen at_ /\ now' = in_seen at_
  | HCommit _ | HClose => now' = now
  end.

(** The systems a server reaches in [n - 2] calls: the last clock reading and
    the discarded constellations. *)
Inductive served close_err : Z -> Z -> list (list byte) -> system -> Prop :=
| served_new c h now : NewHub c = Ok h -> served close_err 2 now [] (mkSystem h [])
| served_step n now now' gone s op : served close_err n now gone s -> clock_step now op now' ->
    served close_err (n + 1) now' (gone ++ discarded_by s op) (hub_step close_err s op).1.1.

(** The record of constellation [k] outlives [expires]. *)
Definition covered (h : Hub) (gone : list (list byte)) (k p : list byte) (expires : Z) : Prop :=
  (exists r, hb_records h !! k = Some r /\ hr_principal r = p /\ expires <= hr_lastSeen r + hb_inactiveTTL h) \/ k ∈ gone.

(** How the records can change until [now]. *)
Definition evolves (h h' : Hub) (now : Z) (gone : list (list byte)) : Prop :=
  hb_inactiveTTL h' = hb_inactiveTTL h /\
  forall id r, hb_records h !! id = Some r ->
    (exists r', hb_records h' !! id = Some r' /\ hr_principal r' = hr_principal r /\ hr_lastSeen r <= hr_lastSeen r') \/
    hr_lastSeen r + hb_inactiveTTL h <= now \/ id ∈ gone.

Lemma covered_evolves h h' gone gone' now k p e : evolves h h' now gone' -> gone ⊆ gone' -> now < e ->
  covered h gone k p e -> covered h' gone' k p e.
Proof.
  intros [Ht Hv] Hg Hn [(r & Hr & Hp & He)|Hk]; [|right; by apply Hg].
  destruct (Hv _ _ Hr) as [(r' & Hr' & Hp' & Hl)|[Hl|Hk]]; [|lia|by right].
  left. exists r'. rewrite Ht. split_and!; [done|congruence|lia].
Qed.

Lemma evolves_refl h now gone : evolves h h now gone.
Proof. split; [done|]. intros id r Hr. left. exists r. split_and!; try done. Qed.

Lemma evolves_tickets h h' t now gone : evolves h h' now gone -> evolves h (set_tickets h' t) now gone.
Proof. done. Qed.

Lemma evolves_cleanup close_err h t now gone : t <= now -> evolves h (cleanup close_err h t).1 now gone.
Proof.
  intros Ht. split; [apply cleanup_fields|]. intros id r Hr. unfold cleanup. destruct (hb_closed h); [left; exists r; by split_and!|].
  cbn. destruct (stale h t r) eqn:E.
  - right. left. unfold stale in E. guards. zb. lia.
  - left. exists r. split; [|done]. by apply map_lookup_filter_Some.
Qed.

Lemma evolves_insert h h' now gone id r' : evolves h h' now gone ->
  (forall r, hb_records h' !! id = Some r -> hr_principal r' = hr_principal r /\ hr_lastSeen r <= hr_lastSeen r') ->
  evolves h (set_records h' (<[id := r']> (hb_records h'))) now gone.
Proof.
  intros [Ht Hv] Hr. split; [done|]. intros i r Hi. destruct (Hv i r Hi) as [(r2 & H2 & Hp & Hl)|H]; [|by right].
  left. cbn. destruct (decide (id = i)) as [->|Hne].
  - rewrite lookup_insert_eq. destruct (Hr _ H2) as [E L]. exists r'. split_and!; [done|congruence|lia].
  - rewrite lookup_insert_ne by done. by exists r2.
Qed.

Record covered_system (now : Z) (gone : list (list byte)) (s : system) : Prop := {
  cv_ttl : tr_ttl (hb_tickets (sy_hub s)) <= hb_inactiveTTL (sy_hub s);
  cv_seen : forall id r, hb_records (sy_hub s) !! id = Some r -> hr_lastSeen r <= now;
  cv_tickets : forall t x, tr_tickets (hb_tickets (sy_hub s)) !! t = Some x -> now < t_expires x ->
    covered (sy_hub s) gone (t_constellation x) (t_principal x) (t_expires x);
  cv_pending : forall a p t t' g, a ∈ sy_attachments s -> at_admission a = Some (ticketAdmissionRotate p t t' g) ->
    now < g_expires g -> covered (sy_hub s) gone (at_constellation a) p (g_expires g)
}.

(** One step, described by the new records, tickets and attachments. *)
Lemma covered_next now now' gone gone' s h' as' :
  covered_system now gone s -> now <= now' -> gone ⊆ gone' -> evolves (sy_hub s) h' now' gone' ->
  tr_ttl (hb_tickets h') = tr_ttl (hb_tickets (sy_hub s)) ->
  (forall id r, hb_records h' !! id = Some r -> hr_lastSeen r <= now') ->
  (forall t x, tr_tickets (hb_tickets h') !! t = Some x -> tr_tickets (hb_tickets (sy_hub s)) !! t = Some x \/
     (now' < t_expires x -> covered h' gone' (t_constellation x) (t_principal x) (t_expires x))) ->
  (forall a p t t' g, a ∈ as' -> at_admission a = Some (ticketAdmissionRotate p t t' g) -> a ∈ sy_attachments s \/
     (now' < g_expires g -> covered h' gone' (at_constellation a) p (g_expires g))) ->
  covered_system now' gone' (mkSystem h' as').
Proof.
  intros [H1 H2 H3 H4] Hn Hg Hv Ht Hr Hx Ha. split; cbn.
  - rewrite Ht. by rewrite (proj1 Hv).
  - done.
  - intros t x E L. destruct (Hx t x E) as [Ho|Hc]; [|by apply Hc].
    eapply covered_evolves; [done|done|done|]. apply (H3 t); [done|lia].
  - intros a p t t' g E1 E2 L. destruct (Ha a p t t' g E1 E2) as [Ho|Hc]; [|by apply Hc].
    eapply covered_evolves; [done|done|done|]. apply (H4 a p t t'); [done|done|lia].
Qed.

Lemma ticket_ttls r now rd t t' p c tr g :
  tr_ttl (Issue r now rd p c tr).1.1 = tr_ttl r /\ tr_ttl (Rotate r now rd t p c tr).1.1 = tr_ttl r /\
  tr_ttl (Revoke r now t p c).1 = tr_ttl r /\ tr_ttl (RollbackRotate r now t t' p c g).1 = tr_ttl r.
Proof.
  unfold Issue, Rotate, Revoke, RollbackRotate. split_and!; repeat case_match; by simplify_eq.
Qed.

Section Coverage.
Variable close_err : handle -> option error.

Lemma cleanup_seen h t now : (forall id r, hb_records h !! id = Some r -> hr_lastSeen r <= now) ->
  forall id r, hb_records (cleanup close_err h t).1 !! id = Some r -> hr_lastSeen r <= now.
Proof.
  intros H id r. unfold cleanup. destruct (hb_closed h); [by apply H|]. cbn. intros [Hr _]%map_lookup_filter_Some. by eapply H.
Qed.

Lemma seen_insert (rs : gmap (list byte) hubRecord) id y now :
  (forall i r, rs !! i = Some r -> hr_lastSeen r <= now) -> hr_lastSeen y <= now ->
  forall i r, <[id := y]> rs !! i = Some r -> hr_lastSeen r <= now.
Proof. intros H Hy i r [[<- <-]|[_ Hr]]%lookup_insert_Some; [done|by eapply H]. Qed.

Lemma create_covered now gone s at_ rd q b : covered_system now gone s ->
  now <= in_cleanup at_ <= in_ticket at_ -> in_ticket at_ <= in_seen at_ ->
  let '(h, _, _, r) := create close_err (sy_hub s) at_ rd q b in
  covered_system (in_seen at_) gone (with_result s h r).
Proof.
  intros Hs H1 H2. destruct (create close_err (sy_hub s) at_ rd q b) as [[[h rd'] g] r] eqn:E.
  set (hc := (cleanup close_err (sy_hub s) (in_cleanup at_)).1).
  assert (Hv : evolves (sy_hub s) hc (in_seen at_) gone) by (apply evolves_cleanup; lia).
  assert (Hseen : forall id r, hb_records hc !! id = Some r -> hr_lastSeen r <= in_seen at_).
  { apply cleanup_seen. intros id x Hx. apply (cv_seen _ _ _ Hs) in Hx. lia. }
  pose proof (cleanup_fields close_err (sy_hub s) (in_cleanup at_)) as (F1 & _ & _ & _ & _ & F6). fold hc in F1, F6.
  destruct (ticket_ttls (hb_tickets (sy_hub s)) (in_ticket at_) rd [] [] (cr_principal q) (cr_constellation q) (cr_transcript q) (mkGrant [] [] 0))
    as (Httl & _).
  destruct r as [a|e].
  - apply create_ok in E as (c & tk & _ & _ & Hnew & _ & Hi & -> & ->). fold hc in Hnew. fold hc. rewrite Hi in Httl. cbn in Httl.
    eapply covered_next; try done; try lia.
    + apply (evolves_insert _ (set_tickets hc tk)); [done|]. cbn. intros r Hr. by rewrite Hnew in Hr.
    + apply seen_insert; [done|cbn; lia].
    + apply Issue_ok in Hi as (_ & _ & _ & _ & _ & ->). cbn. intros t x [[<- <-]|[_ [Hx _]%cleanup_lookup]]%lookup_insert_Some; [right|by left].
      intros _. left. eexists. cbn. rewrite lookup_insert_eq. split_and!; [done|done|]. cbn. rewrite F6. pose proof (cv_ttl _ _ _ Hs). lia.
    + cbn. intros a' p t t' g' [Ha| ->%list_elem_of_singleton]%elem_of_app Ea; [by left|]. cbn in Ea. by destruct b.
  - cbn [with_result]. unfold create in E.
    assert (E' : exists tk, h = sy_hub s \/ h = set_tickets hc tk /\ tr_ttl tk = tr_ttl (hb_tickets (sy_hub s)) /\ tr_tickets tk ⊆ tr_tickets (hb_tickets (sy_hub s))).
    { destruct (validateHubLease _ _ _ _ _ _) as [[]|]; [|exists (hb_tickets (sy_hub s)); left; by injection E].
      unfold hc in *. destruct (cleanup _ _ _) as [h1 g1]. cbn [fst] in *.
      assert (Heta : set_tickets h1 (hb_tickets (sy_hub s)) = h1) by (rewrite <- F1; by destruct h1).
      destruct (hb_closed h1); [exists (hb_tickets (sy_hub s)); right; rewrite Heta; by injection E|].
      destruct (bool_decide _); [exists (hb_tickets (sy_hub s)); right; rewrite Heta; by injection E|].
      destruct (_ <=? _); [exists (hb_tickets (sy_hub s)); right; rewrite Heta; by injection E|].
      destruct (NewController _ _ _ _ _); [|exists (hb_tickets (sy_hub s)); right; rewrite Heta; by injection E].
      rewrite F1 in E. destruct (Issue _ _ _ _ _ _) as [[tk rd1] [t|e1]] eqn:Ei; [done|]. injection E as <- _ _ _.
      exists tk. right. split; [done|]. split; [done|]. by apply Issue_err, cleaned_subseteq in Ei. }
    destruct E' as (tk & [->|(-> & Ht & Hsub)]).
    + eapply covered_next; try done; try lia; try by left. { apply evolves_refl. }
      intros id r Hr. apply (cv_seen _ _ _ Hs) in Hr. lia.
    + eapply covered_next; try done; try lia; try by left.
      intros t x Hx. left. by eapply lookup_weaken.
Qed.

(** A refused call. *)
Lemma refused_covered now now' gone s h : covered_system now gone s -> now <= now' ->
  evolves (sy_hub s) h now' gone -> tr_ttl (hb_tickets h) = tr_ttl (hb_tickets (sy_hub s)) ->
  tr_tickets (hb_tickets h) ⊆ tr_tickets (hb_tickets (sy_hub s)) ->
  (forall id r, hb_records h !! id = Some r -> hr_lastSeen r <= now') ->
  covered_system now' gone (mkSystem h (sy_attachments s)).
Proof.
  intros Hs Hn Hv Ht Hsub Hseen. eapply covered_next; try done; try by left.
  intros t x Hx. left. by eapply lookup_weaken.
Qed.

Lemma same_covered now now' gone s : covered_system now gone s -> now <= now' ->
  covered_system now' gone (mkSystem (sy_hub s) (sy_attachments s)).
Proof.
  intros Hs Hn. eapply refused_covered; try done; [apply evolves_refl|].
  intros id r Hr. apply (cv_seen _ _ _ Hs) in Hr. lia.
Qed.

(** What a refused [attach] leaves. *)
Lemma attach_err h at_ rd q b h1 rd1 gone e : attach close_err h at_ rd q b = (h1, rd1, gone, Err e) ->
  let hc := (cleanup close_err h (in_cleanup at_)).1 in
  h1 = h \/ h1 = hc \/
  exists x c1 c tickets lease, hb_records hc !! ar_constellation q = Some x /\ hr_principal x = ar_principal q /\
    Add (hr_controller x) (mkCandidate (ar_key q) (ar_principal q) (ar_constellation q) (ar_carrier q) (ar_resource q)) = (c1, Ok lease) /\
    Rotate (hb_tickets h) (in_ticket at_) rd (ar_ticket q) (ar_principal q) (ar_constellation q) (ar_transcript q) = (tickets, rd1, Err e) /\
    (Fail close_err c1 lease).1.1 = c /\ h1 = with_controller (set_tickets hc tickets) (ar_constellation q) c.
Proof.
  unfold attach. pose proof (cleanup_fields close_err h (in_cleanup at_)) as Hf. cbn zeta in *.
  destruct (validateHubLease _ _ _ _ _ _) as [[]|]; [|intros [= <- _ _ _]; by left]. destruct (cleanup _ _ _) as [hc g]. cbn [fst] in *.
  destruct Hf as (Ht & _). rewrite <- Ht. destruct (hb_closed hc); [intros [= <- _ _ _]; right; by left|].
  destruct (hb_records hc !! _) as [x|] eqn:Hx; [|intros [= <- _ _ _]; right; by left].
  destruct (bytes_eq (hr_principal x) (ar_principal q)) eqn:Hp; cbn [negb]; [|intros [= <- _ _ _]; right; by left].
  apply bytes_eq_true in Hp. destruct (Add _ _) as [c [l|e']] eqn:Ea; cycle 1.
  { apply Add_error in Ea as [_ ->]. rewrite with_controller_id by done. intros [= <- _ _ _]. right. by left. }
  destruct (Rotate _ _ _ _ _ _ _) as [[tk rd'] [[t g']|e']] eqn:Er; [done|]. destruct (Fail close_err c l) as [[c2 ?] ?] eqn:Ef.
  intros [= <- <- _ <-]. right. right. exists x, c, c2, tk, l. by rewrite Ef.
Qed.

Lemma attach_covered now gone s at_ rd q b : covered_system now gone s ->
  now <= in_cleanup at_ <= in_ticket at_ -> in_ticket at_ <= in_seen at_ ->
  let '(h, _, _, r) := attach close_err (sy_hub s) at_ rd q b in
  covered_system (in_seen at_) gone (with_result s h r).
Proof.
  intros Hs H1 H2. destruct (attach close_err (sy_hub s) at_ rd q b) as [[[h rd'] g] r] eqn:E.
  set (hc := (cleanup close_err (sy_hub s) (in_cleanup at_)).1).
  assert (Hv : evolves (sy_hub s) hc (in_seen at_) gone) by (apply evolves_cleanup; lia).
  assert (Hseen : forall id r, hb_records hc !! id = Some r -> hr_lastSeen r <= in_seen at_).
  { apply cleanup_seen. intros id x Hx. apply (cv_seen _ _ _ Hs) in Hx. lia. }
  pose proof (cleanup_fields close_err (sy_hub s) (in_cleanup at_)) as (F1 & _ & _ & _ & _ & F6). fold hc in F1, F6.
  destruct (ticket_ttls (hb_tickets (sy_hub s)) (in_ticket at_) rd (ar_ticket q) [] (ar_principal q) (ar_constellation q) (ar_transcript q) (mkGrant [] [] 0))
    as (_ & Httl & _).
  destruct r as [a|e].
  - apply attach_ok in E as (y & c & tk & gr & _ & _ & Hy & Hp & _ & Hr & -> & ->). fold hc in Hy. fold hc. rewrite Hr in Httl. cbn in Httl.
    apply Rotate_ok in Hr as (x & _ & (Hx & _ & _ & _ & Hxp & Hxc)%redeemable_ok & -> & _ & _ & _ & ->).
    apply cleanup_lookup in Hx as [Hx Hxe].
    assert (Hrec : evolves (sy_hub s) (set_records (set_tickets hc (with_tickets (cleanupLocked (hb_tickets (sy_hub s)) (in_ticket at_))
        (<[at_ticket a := mkTicket (ar_principal q) (ar_constellation q) (ar_transcript q) (in_ticket at_ + tr_ttl (hb_tickets (sy_hub s)))]>
           (delete (ar_ticket q) (tr_tickets (cleanupLocked (hb_tickets (sy_hub s)) (in_ticket at_)))))))
        (<[ar_constellation q := mkHubRecord (ar_principal q) c (in_seen at_)]> (hb_records hc))) (in_seen at_) gone).
    { apply (evolves_insert _ (set_tickets hc _)); [done|]. cbn. intros r Hr'. rewrite Hy in Hr'. injection Hr' as <-. split; [done|].
      by apply Hseen in Hy. }
    eapply covered_next; try done; try lia.
    + apply seen_insert; [done|cbn; lia].
    + cbn. intros t z [[<- <-]|[_ [_ [Hz _]%cleanup_lookup]%lookup_delete_Some]]%lookup_insert_Some; [right|by left].
      intros _. left. eexists. cbn. rewrite lookup_insert_eq. split_and!; [done|done|]. cbn. rewrite F6. pose proof (cv_ttl _ _ _ Hs). lia.
    + cbn. intros a' p t t' g' [Ha| ->%list_elem_of_singleton]%elem_of_app Ea; [by left|]. cbn in Ea. right.
      destruct b; [|done]. injection Ea as <- _ _ <-. cbn. intros Hl. eapply covered_evolves; [exact Hrec|done|done|].
      rewrite <- Hxp, <- Hxc. apply (cv_tickets _ _ _ Hs (ar_ticket q) x Hx). lia.
  - cbn [with_result]. apply attach_err in E as [->|[->|(y & c1 & c & tk & l & Hy & Hp & _ & Hr & _ & ->)]].
    + apply (same_covered now); [done|lia].
    + fold hc. apply (refused_covered now); try done; [lia|by rewrite F1|by rewrite F1].
    + fold hc. fold hc in Hy. rewrite Hr in Httl. cbn in Httl. rewrite (with_controller_eq _ _ y) by done.
      apply (refused_covered now); try done; [lia| | |].
      * apply (evolves_insert _ (set_tickets hc tk)); [done|]. cbn. intros r Hr'. rewrite Hy in Hr'. by injection Hr' as <-.
      * by apply Rotate_err, cleaned_subseteq in Hr.
      * apply seen_insert; [done|]. by apply Hseen in Hy.
Qed.

(** [release] keeps the tickets, and every record with a later [lastSeen]. *)
Lemma release_evolves h h1 now gone id lease : evolves h h1 now gone ->
  (forall i r, hb_records h1 !! i = Some r -> hr_lastSeen r <= now) ->
  let h2 := (release close_err h1 now id lease).1.1 in
  evolves h h2 now gone /\ hb_tickets h2 = hb_tickets h1 /\ (forall i r, hb_records h2 !! i = Some r -> hr_lastSeen r <= now).
Proof.
  intros Hv Hseen. unfold release. destruct (hb_records h1 !! id) as [x|] eqn:Hx; [|done].
  destruct (Fail close_err (hr_controller x) lease) as [[c closed] err]. cbn [fst]. split; [|split; [done|]].
  - apply evolves_insert; [done|]. intros r Hr. rewrite Hx in Hr. injection Hr as <-. split; [done|]. by apply Hseen in Hx.
  - apply seen_insert; [done|cbn; lia].
Qed.

Lemma discard_evolves h h1 now gone id lease : evolves h h1 now gone -> id ∈ gone ->
  let h2 := (discard close_err h1 id lease).1.1 in
  evolves h h2 now gone /\ hb_tickets h2 = hb_tickets h1 /\ hb_records h2 ⊆ hb_records h1.
Proof.
  intros [Ht Hv] Hg. unfold discard. destruct (hb_records h1 !! id) as [x|] eqn:Hx; [|done]. destruct (negb _); [done|].
  destruct (Stop close_err (hr_controller x)) as [[c closed] err]. cbn. split; [|split; [done|apply delete_subseteq]].
  split; [done|]. intros i r Hi. destruct (decide (i = id)) as [->|Hne]; [right; by right|].
  destruct (Hv i r Hi) as [(r' & Hr & Hl)|H]; [|by right]. left. exists r'. cbn. by rewrite lookup_delete_ne.
Qed.

(** Closing an attachment leaves no new pending rotation. *)
Lemma pending_kept (as_ : list Attachment) i a b p t t' g : at_admission a = None ->
  b ∈ <[i := a]> as_ -> at_admission b = Some (ticketAdmissionRotate p t t' g) -> b ∈ as_.
Proof.
  intros Ha [j Hj]%list_elem_of_lookup Hb. apply list_lookup_insert_Some in Hj as [(_ & <- & _)|[_ Hj]]; [congruence|].
  by eapply list_elem_of_lookup_2.
Qed.

Lemma detach_covered now gone s at_ i : covered_system now gone s ->
  now <= in_cleanup at_ <= in_ticket at_ -> in_ticket at_ <= in_seen at_ ->
  covered_system (in_seen at_) (gone ++ discarded_by s (HDetach at_ i)) (hub_step close_err s (HDetach at_ i)).1.1.
Proof.
  intros Hs H1 H2. cbn [hub_step discarded_by].
  destruct (sy_attachments s !! i) as [a|] eqn:Hi; cycle 1.
  { rewrite app_nil_r. destruct s. apply (same_covered now) with (s := mkSystem sy_hub0 sy_attachments0); [done|lia]. }
  unfold Attachment_Close. destruct (at_once a) as [o|] eqn:Ho.
  { rewrite app_nil_r. cbn. rewrite list_insert_id by done. apply (same_covered now); [done|lia]. }
  assert (Hseen : forall id r, hb_records (sy_hub s) !! id = Some r -> hr_lastSeen r <= in_seen at_).
  { intros id r Hr. apply (cv_seen _ _ _ Hs) in Hr. lia. }
  unfold abortAdmission. destruct (at_admission a) as [[p t|p t t' g]|] eqn:Ha.
  - destruct (ticket_ttls (hb_tickets (sy_hub s)) (in_ticket at_) [] t [] p (at_constellation a) [] (mkGrant [] [] 0)) as (_ & _ & Ht & _).
    assert (Hsub : tr_tickets (Revoke (hb_tickets (sy_hub s)) (in_ticket at_) t p (at_constellation a)).1 ⊆ tr_tickets (hb_tickets (sy_hub s))).
    { destruct (Revoke _ _ _ _ _) as [r []] eqn:Er.
      - apply Revoke_true in Er as (x & _ & _ & ->). cbn. etrans; [apply delete_subseteq|]. apply (cleanup_subseteq (hb_tickets (sy_hub s))).
      - by apply Revoke_false, cleaned_subseteq in Er. }
    set (h1 := set_tickets (sy_hub s) _). pose proof (discard_evolves (sy_hub s) h1 (in_seen at_) (gone ++ [at_constellation a])
      (at_constellation a) (at_lease a) (evolves_refl _ _ _)) as Hd.
    destruct (discard close_err h1 (at_constellation a) (at_lease a)) as [[h2 closed] err]. cbn [fst] in Hd.
    destruct Hd as (Hv & Htk & Hrs); [apply elem_of_app; right; by left|].
    eapply covered_next; try done; try lia.
    + set_solver.
    + by rewrite Htk.
    + intros id r Hr. apply (Hseen id). by eapply lookup_weaken.
    + rewrite Htk. intros u x Hx. left. by eapply lookup_weaken.
    + intros b q u u' g Hb Hadm. left. by eapply pending_kept; [|exact Hb|exact Hadm].
  - rewrite app_nil_r.
    destruct (ticket_ttls (hb_tickets (sy_hub s)) (in_ticket at_) [] t t' p (at_constellation a) [] g) as (_ & _ & _ & Ht).
    destruct (RollbackRotate _ _ _ _ _ _ _) as [tk r] eqn:Er. cbn [fst] in Ht.
    set (h1 := set_tickets (sy_hub s) tk). destruct (release_evolves (sy_hub s) h1 (in_seen at_) gone (at_constellation a) (at_lease a)
      (evolves_refl _ _ _) Hseen) as (Hv & Htk & Hs2).
    destruct (release close_err h1 (in_seen at_) (at_constellation a) (at_lease a)) as [[h2 closed] err]. cbn [fst] in *.
    eapply covered_next; try done; try lia.
    + by rewrite Htk.
    + rewrite Htk. cbn. intros u x Hx. destruct r as [[]|e].
      * apply Rollback_ok in Er as (z & _ & _ & _ & _ & _ & _ & _ & ->). cbn in Hx.
        apply lookup_insert_Some in Hx as [[<- <-]|[_ [_ [Hx _]%cleanup_lookup]%lookup_delete_Some]]; [right|by left].
        cbn. intros Hl. eapply covered_evolves; [exact Hv|done|done|].
        apply (cv_pending _ _ _ Hs a p t t' g); [by eapply list_elem_of_lookup_2|done|lia].
      * left. apply Rollback_err, cleaned_subseteq in Er. by eapply lookup_weaken.
    + intros b q u u' g' Hb Hadm. left. by eapply pending_kept; [|exact Hb|exact Hadm].
  - rewrite app_nil_r. destruct (release_evolves (sy_hub s) (sy_hub s) (in_seen at_) gone (at_constellation a) (at_lease a)
      (evolves_refl _ _ _) Hseen) as (Hv & Htk & Hs2).
    destruct (release close_err (sy_hub s) (in_seen at_) (at_constellation a) (at_lease a)) as [[h2 closed] err]. cbn [fst] in *.
    eapply covered_next; try done; try lia.
    + by rewrite Htk.
    + rewrite Htk. by left.
    + intros b q u u' g' Hb Hadm. left. by eapply pending_kept; [|exact Hb|exact Hadm].
Qed.
End Coverage.

Lemma closed_stays close_err s op : hb_closed (sy_hub s) = true -> hb_closed (sy_hub (hub_step close_err s op).1.1) = true.
Proof.
  intros Hc. destruct op as [at_ rd q b|at_ rd q b|i|at_ i|]; cbn [hub_step].
  - unfold create. destruct (validateHubLease _ _ _ _ _ _); [|done]. unfold cleanup. rewrite Hc. cbn. by rewrite Hc.
  - unfold attach. destruct (validateHubLease _ _ _ _ _ _); [|done]. unfold cleanup. rewrite Hc. cbn. by rewrite Hc.
  - done.
  - destruct (sy_attachments s !! i) as [a|]; [|done]. unfold Attachment_Close. destruct (at_once a); [done|].
    unfold abortAdmission, discard, release.
    destruct (at_admission a) as [[p t|p t t' g]|]; [|destruct (RollbackRotate _ _ _ _ _ _ _)|]; cbn;
      (destruct (hb_records (sy_hub s) !! at_constellation a) as [y|]; [|done]);
      [destruct (negb _); [done|]; by destruct (Stop close_err (hr_controller y)) as [[? ?] ?]|..];
      by destruct (Fail close_err (hr_controller y) (at_lease a)) as [[? ?] ?].
  - unfold Close. by rewrite Hc.
Qed.

Lemma served_ok close_err n now gone s : served close_err n now gone s -> n < 2 ^ 64 ->
  2 <= n /\ hub_ok n (sy_hub s) /\ (hb_closed (sy_hub s) = false -> covered_system now gone s).
Proof.
  induction 1 as [c h now Hnew|n now now' gone s op _ IH Hck]; intros Hn.
  - apply NewHub_ok in Hnew as (Hh & He & _ & _ & Ht & Hi & Hl). split; [lia|]. split; [done|]. intros _.
    split; cbn [sy_hub sy_attachments]; rewrite ?Ht, ?Hi; try done.
    + intros id r Hr. by rewrite He, lookup_empty in Hr.
    + intros a p t t' g Ha. by apply elem_of_nil in Ha.
  - destruct IH as (H2 & Hh & Hcv); [lia|]. split; [lia|].
    pose proof (hub_step_ok close_err n s op Hh H2 Hn) as Hs. split.
    { destruct (hub_step close_err s op) as [[s' ?] ?]. by destruct Hs. }
    intros Hc. destruct (hb_closed (sy_hub s)) eqn:Hc0; [by rewrite closed_stays in Hc|]. specialize (Hcv eq_refl).
    destruct op as [at_ rd q b|at_ rd q b|i|at_ i|]; cbn [clock_step] in Hck.
    + destruct Hck as (? & ? & ? & ->). cbn [discarded_by hub_step]. rewrite app_nil_r.
      pose proof (create_covered close_err now gone s at_ rd q b Hcv) as G. destruct (create _ _ _ _ _ _) as [[[h ?] ?] r]. by apply G.
    + destruct Hck as (? & ? & ? & ->). cbn [discarded_by hub_step]. rewrite app_nil_r.
      pose proof (attach_covered close_err now gone s at_ rd q b Hcv) as G. destruct (attach _ _ _ _ _ _) as [[[h ?] ?] r]. by apply G.
    + subst now'. cbn [discarded_by hub_step]. rewrite app_nil_r. destruct Hcv as [V1 V2 V3 V4]. split; try done.
      cbn. intros a p t t' g Ha Hadm. apply list_elem_of_lookup in Ha as [j Hj]. rewrite list_lookup_alter in Hj.
      destruct (decide (i = j)) as [->|]; [|by eapply V4; [eapply list_elem_of_lookup_2|]].
      destruct (sy_attachments s !! j); [|done]. injection Hj as <-. done.
    + destruct Hck as (? & ? & ? & ->). by apply (detach_covered close_err now).
    + cbn [hub_step] in Hc. unfold Close in Hc. by rewrite Hc0 in Hc.
Qed.

(** a ticket is honoured as long as it is valid.  On any hub a server
    reaches, with a clock that does not go back, the holder of an unexpired
    ticket can attach to its constellation: the record was not cleaned up
    under it (the TTL guard of [NewHub]), so the attempt can only fail for the
    limits of the constellation, a lease key in use, or the entropy source. *)
Theorem ticket_honoured close_err n now gone s q x at_ rd b :
  served close_err n now gone s -> n + 1 < 2 ^ 64 -> hb_closed (sy_hub s) = false ->
  tr_tickets (hb_tickets (sy_hub s)) !! ar_ticket q = Some x -> t_constellation x ∉ gone ->
  ar_principal q = t_principal x -> ar_constellation q = t_constellation x ->
  is_zero (ar_transcript q) = false -> is_zero (ar_key q) = false -> carrier_valid (ar_carrier q) = true ->
  is_Some (ar_resource q) -> now <= in_cleanup at_ <= in_ticket at_ -> in_ticket at_ < t_expires x ->
  match (attach close_err (sy_hub s) at_ rd q b).2 with
  | Ok a => at_constellation a = t_constellation x /\ tr_tickets (hb_tickets (attach close_err (sy_hub s) at_ rd q b).1.1.1) !! ar_ticket q = None
  | Err e => e = ErrLeaseDuplicate \/ e = ErrLeaseCapacity \/ e = ErrLeaseTicketEntropy
  end.
Proof.
  intros Hsv Hn Hc Hx Hg Hp Hk Htr Hkey Hcar [res Hres] Hnow Hexp.
  destruct (served_ok _ _ _ _ _ Hsv ltac:(lia)) as (_ & Hh & Hcv). specialize (Hcv Hc).
  destruct (cv_tickets _ _ _ Hcv _ _ Hx ltac:(lia)) as [(r & Hr & Hrp & Hl)|]; [|done].
  destruct (ho_tickets _ _ Hh) as (_ & _ & Hf & _). destruct (Hf _ _ Hx) as (Z1 & Z2 & Z3 & _).
  unfold attach, validateHubLease. rewrite Hp, Hk, Z2, Z3, Htr, Hkey, Hcar, Hres. cbn [orb negb bool_decide].
  rewrite bool_decide_false by done.
  assert (Hrc : hb_records (cleanup close_err (sy_hub s) (in_cleanup at_)).1 !! t_constellation x = Some r).
  { unfold cleanup. rewrite Hc. cbn. apply map_lookup_filter_Some. split; [done|]. cbn. unfold stale.
    rewrite (proj2 (Z.leb_gt (hb_inactiveTTL (sy_hub s)) (in_cleanup at_ - hr_lastSeen r))) by lia. by rewrite andb_false_r. }
  pose proof (cleanup_fields close_err (sy_hub s) (in_cleanup at_)) as (F1 & F2 & _).
  destruct (cleanup_hub close_err n (sy_hub s) (in_cleanup at_) Hh) as (Hhc & _ & _).
  destruct (cleanup close_err (sy_hub s) (in_cleanup at_)) as [hc g]. cbn [fst] in *.
  rewrite F2, Hc, Hrc, Hrp, bytes_eq_refl. cbn [negb].
  destruct (ho_records _ _ Hhc _ _ Hrc) as (Hco & Hcc & _ & Hcp & Hck & _).
  unfold Add, validateCandidate. cbn [lc_key lc_principal lc_constellation lc_carrier lc_resource].
  rewrite Hkey, Hcar, Hcp, Hrp, Hck, !bytes_eq_refl, bool_decide_false by done. cbn [orb negb]. rewrite Hcc.
  destruct (decide _); [by left|]. destruct (_ <=? _); [right; by left|].
  destruct (addLocked _ _) as [c l]. rewrite F1. unfold Rotate. rewrite Htr.
  rewrite (ho_registry _ _ Hh), Hc.
  assert (Hred : redeemable (cleanupLocked (hb_tickets (sy_hub s)) (in_ticket at_)) (ar_ticket q) (t_principal x) (t_constellation x) = Ok x).
  { apply redeemable_ok. split_and!; try done. by apply cleanup_lookup. }
  rewrite Hred. destruct (newTicketLocked _ _) as [rd' [t'|e]] eqn:En.
  - cbn. split; [done|]. apply new_ticket_fresh in En as (Hn' & _). rewrite lookup_insert_ne; [apply lookup_delete_eq|].
    intros ->. assert (tr_tickets (cleanupLocked (hb_tickets (sy_hub s)) (in_ticket at_)) !! ar_ticket q = Some x)
      by by apply cleanup_lookup. cbn in *. congruence.
  - apply new_ticket_err in En as ->. destruct (Fail close_err _ l) as [[? ?] ?]. cbn. by right; right.
Qed.

Module HubExample.
Definition p : list byte := replicate 32 x01.
Definition k : list byte := replicate 16 x02.
Definition tr (b : byte) : list byte := replicate 32 b.
Definition t1 : list byte := replicate 32 x05.
Definition t2 : list byte := replicate 32 x06.
Definition no_err (h : Z) : option error := None.

Definition config : HubConfig := mkHubConfig 4 2 2 (60 * second) 8 (30 * second).
Definition h0 : Hub := match NewHub config with Ok h => h | Err _ => mkHub 0 0 0 0 (mkTicketRegistry 0 0 ∅ false) ∅ false end.
Definition at_sec (n : Z) : instants := mkInstants (n * second) (n * second) (n * second).
Definition creation : CreateRequest := mkCreateRequest p k (tr x03) (replicate 16 x07) 1 (Some 10).
Definition attachment (t : list byte) (key : byte) (h : Z) : AttachRequest :=
  mkAttachRequest t p k (tr x04) (replicate 16 key) 1 (Some h).
Definition created : hub_op := HCreate (at_sec 1) [Some t1] creation true.
Definition ops : list hub_op :=
  [created; HCommit 0; HAttach (at_sec 2) [Some t2] (attachment t1 x08 11) true; HDetach (at_sec 3) 1;
   HAttach (at_sec 4) [] (attachment t2 x09 12) false].

Lemma new_hub : NewHub config = Ok h0.
Proof. reflexivity. Qed.

(** The undelivered attachment is undone (carrier 11 closed); the wrong ticket
    closes the new carrier (12). *)
Lemma hub_accounts_carriers_witness : exists s,
  hub_run no_err (mkSystem h0 []) ops = (s, [10; 11; 12], [11; 12]) /\
  [11; 12] ++ held (hb_records (sy_hub s)) ≡ₚ [10; 11; 12].
Proof.
  pose proof (hub_accounts_carriers no_err config h0 ops new_hub ltac:(vm_compute; reflexivity)) as H.
  destruct (hub_run no_err (mkSystem h0 []) ops) as [[s taken] gone] eqn:E. exists s.
  assert (E2 : (taken, gone) = ([10; 11; 12], [11; 12])).
  { transitivity ((hub_run no_err (mkSystem h0 []) ops).1.2, (hub_run no_err (mkSystem h0 []) ops).2); [by rewrite E|].
    vm_compute. reflexivity. }
  injection E2 as -> ->. split; [reflexivity|]. apply H.
Defined.

Definition s1 : system := (hub_step no_err (mkSystem h0 []) created).1.1.

Lemma s1_served : served no_err 3 (1 * second) [] s1.
Proof.
  change (3) with (2 + 1). change (@nil (list byte)) with ([] ++ discarded_by (mkSystem h0 []) created).
  apply (served_step no_err 2 0 (1 * second)); [by apply (served_new no_err config)|]. unfold clock_step, created. cbn. unfold second. lia.
Qed.

Lemma s1_ok : hub_ok 3 (sy_hub s1).
Proof. exact (proj1 (proj2 (served_ok _ _ _ _ _ s1_served eq_refl))). Qed.

Lemma undelivered_admission_undone_witness : exists h1 rd1 gone a,
  attachPending no_err (sy_hub s1) (at_sec 2) [Some t2] (attachment t1 x08 11) = (h1, rd1, gone, Ok a) /\
  (Attachment_Close no_err h1 (at_sec 3) a).1.2 = [11] /\
  hb_tickets (Attachment_Close no_err h1 (at_sec 3) a).1.1.1 = cleanupLocked (hb_tickets (sy_hub s1)) (3 * second).
Proof.
  destruct (attachPending no_err (sy_hub s1) (at_sec 2) [Some t2] (attachment t1 x08 11)) as [[[h1 rd1] gone] [a|e]] eqn:E;
    [|exfalso; apply (f_equal (fun r => is_ok r.2)) in E; vm_compute in E; discriminate E].
  exists h1, rd1, gone, a. split; [reflexivity|].
  pose proof (proj2 (undelivered_admission_undone no_err 3 (sy_hub s1) (at_sec 2) (at_sec 3) [Some t2] s1_ok eq_refl
    ltac:(vm_compute; discriminate)) (attachment t1 x08 11) h1 rd1 gone a (mkTicket p k (tr x03) (31 * second)) E
    ltac:(vm_compute; reflexivity) eq_refl eq_refl) as H.
  destruct (Attachment_Close no_err h1 (at_sec 3) a) as [[[h2 a'] closed] err]. destruct H as (H1 & H2 & _).
  exact (conj H2 H1).
Defined.

Lemma ticket_honoured_witness :
  match (attach no_err (sy_hub s1) (at_sec 2) [Some t2] (attachment t1 x08 11) true).2 with
  | Ok a => at_constellation a = k
  | Err e => e = ErrLeaseDuplicate \/ e = ErrLeaseCapacity \/ e = ErrLeaseTicketEntropy
  end.
Proof.
  pose proof (ticket_honoured no_err 3 (1 * second) [] s1 (attachment t1 x08 11) (mkTicket p k (tr x03) (31 * second))
    (at_sec 2) [Some t2] true s1_served eq_refl eq_refl ltac:(vm_compute; reflexivity) (not_elem_of_nil _) eq_refl eq_refl
    eq_refl eq_refl eq_refl (ex_intro _ 11 eq_refl) ltac:(cbn; unfold second; lia) eq_refl) as H.
  destruct (attach no_err (sy_hub s1) (at_sec 2) [Some t2] (attachment t1 x08 11) true).2; [apply H|exact H].
Defined.
End HubExample.
