(* ===== verification/Control.v ===== *)
(** * The control exchange of a constellation

    internal/constellation/identity.go (the identifiers both peers derive from
    the authenticated session), internal/session/continuity.go (continuity
    frames in extension updates), control.go (how a client creates or joins a
    constellation, and how the server admits it) and channel.go (the control
    channel of an admitted session).  SHA-256 and HMAC are arguments, [send]
    answers [mux.SendExtension] and [receive] is what [mux.ReceiveExtension]
    returned.  Contexts and nil receivers are not modelled. *)
From stdpp Require Import prelude gmap list.
From S2P Require Import Prelude Cell Extension ContinuityWire Auth Tickets Negotiation Controller Hub.

(** ** Continuity frames in extension updates (session/continuity.go) *)

Definition continuity_envelope (frame : ContinuityFrame) : res ExtensionEnvelope :=
  tlv ← map_err (fun e => Join [Sentinel ErrContinuityControl; e]) (NewContinuityTLV frame);
  Ok (mkEnvelope ExtensionUpdate (cf_message_id frame) [tlv]).

Definition SendContinuity (send : ExtensionEnvelope -> res unit) (frame : ContinuityFrame) : res unit :=
  envelope ← continuity_envelope frame;
  send envelope.

Definition ReceiveContinuity (receive : res ExtensionEnvelope) : res ContinuityFrame :=
  envelope ← receive;
  match env_tlvs envelope with
  | [tlv] =>
      if negb (env_type envelope =? ExtensionUpdate) || negb (tlv_type tlv =? ExtensionTLVContinuity)
      then Err ErrContinuityControl
      else
        match ParseContinuityTLV tlv with
        | Err e => Err (Join [Sentinel ErrContinuityControl; e])
        | Ok frame =>
            if negb (cf_message_id frame =? env_message_id envelope) then Err (Join [Sentinel ErrContinuityControl])
            else Ok frame
        end
  | _ => Err ErrContinuityControl
  end.

(** ** Identities (identity.go) *)

Section Identity.
Variable sha256 : list byte -> list byte.
Variable hmac_sha256 : list byte -> list byte -> list byte.

Definition PrincipalFromCredentialID (credentialID : list byte) : res (list byte) :=
  if (len credentialID =? 0) || (256 <? len credentialID) then Err ErrContinuityIdentity
  else Ok (sha256 (bytes_of "NP2 constellation principal" ++ [x00] ++ credentialID)).

Definition TranscriptFromSessionKeys (keys : SessionKeys) : res (list byte) :=
  if is_zero (sk_control keys) then Err ErrContinuityIdentity
  else Ok (hmac_sha256 (sk_control keys) (bytes_of "NP2 constellation authenticated transcript")).

Definition LeaseKeyFromSessionKeys (keys : SessionKeys) : res (list byte) :=
  if is_zero (sk_control keys) then Err ErrContinuityIdentity
  else
    let key := take 16 (hmac_sha256 (sk_control keys) (bytes_of "NP2 constellation lease key v1")) in
    if is_zero key then Err ErrContinuityIdentity else Ok key.

(** ** The exchange (control.go) *)

Definition firstContinuityMessageID : Z := 3.
Definition firstForwardSecretContinuityMessageID : Z := 5.
Definition maxContinuityIDAttempts : nat := 8.

(** What the exchange uses of [session.Authenticated]; [ss_mux] is the handle
    of its mux. *)
Record Session := mkSession {
  ss_credential : list byte; ss_keys : SessionKeys; ss_carrier : Z;
  ss_extensions : option negotiationState; ss_mux : option handle
}.

(** [WaitExtensions]; [cancelled] is the error of the context. *)
Definition WaitExtensions (s : option negotiationState) (cancelled : error) : res (ExtensionParameters * bool) :=
  match s with
  | Some n => match ns_err n with Some e => Err e | None => Ok (ns_parameters n, ns_negotiated n) end
  | None => Err cancelled
  end.

Definition requireContinuityCapability (a : Session) (cancelled : error) : res unit :=
  '(parameters, negotiated) ← WaitExtensions (ss_extensions a) cancelled;
  if negb negotiated || negb (has (Capabilities parameters) CapabilityConstellationContinuity)
  then Err ErrContinuityCapability else Ok tt.

Definition parseLeaseTicket (raw : list byte) : res (list byte) :=
  if negb (len raw =? 32) then Err ErrControlExchange
  else if is_zero raw then Err ErrControlExchange else Ok raw.

Fixpoint id_attempts (n : nat) (random : list (error + list byte)) : list (error + list byte) * res (list byte) :=
  match n, random with
  | O, _ => (random, Err ErrControlExchange)
  | S _, [] => ([], Err (Join [Sentinel ErrControlExchange; Sentinel ErrEOF]))
  | S _, inl e :: random => (random, Err (Join [Sentinel ErrControlExchange; e]))
  | S n, inr id :: random => if is_zero id then id_attempts n random else (random, Ok id)
  end.
Definition randomContinuityID := id_attempts maxContinuityIDAttempts.

Definition control_join (e : error) : error := Join [Sentinel ErrControlExchange; e].

(** *** The client *)

Record ClientControl := mkClientControl {
  cc_constellation : list byte; cc_leaseKey : list byte; cc_ticket : list byte; cc_next : Z
}.

Definition NewClientControl : ClientControl := mkClientControl (zeros 16) (zeros 16) (zeros 32) firstContinuityMessageID.

Definition takeMessageIDLocked (c : ClientControl) : ClientControl * res Z :=
  if (cc_next c <? firstContinuityMessageID) || (MaxSequence <? cc_next c) then (c, Err ErrContinuityState)
  else (mkClientControl (cc_constellation c) (cc_leaseKey c) (cc_ticket c) (u64 (cc_next c + 1)), Ok (cc_next c)).

(** The rest of [Create] and [Attach] after the request was made: it is sent,
    the response checked and the ticket taken over. *)
Definition exchange (send : ExtensionEnvelope -> res unit) (receive : res ExtensionEnvelope)
    (request : ContinuityFrame) (expected : Z) : res (list byte) :=
  _ ← map_err control_join (SendContinuity send request);
  response ← map_err control_join (ReceiveContinuity receive);
  if negb (cf_type response =? expected) || negb (cf_message_id response =? cf_message_id request)
     || negb (bytes_eq (cf_constellation response) (cf_constellation request))
  then Err ErrControlExchange
  else parseLeaseTicket (cf_token response).

(** [Create] up to [SendContinuity]: the lease key and the request. *)
Definition Create_request (c : ClientControl) (a : Session) (cancelled : error) (random : list (error + list byte))
    : ClientControl * res (list byte * ContinuityFrame) :=
  match requireContinuityCapability a cancelled with
  | Err e => (c, Err e)
  | Ok _ =>
      let '(parameters, negotiated) := Extensions (ss_extensions a) in
      let c := if negotiated && has (Capabilities parameters) CapabilityForwardSecrecy
                  && (cc_next c =? firstContinuityMessageID)
               then mkClientControl (cc_constellation c) (cc_leaseKey c) (cc_ticket c) firstForwardSecretContinuityMessageID
               else c in
      if negb (is_zero (cc_constellation c)) || negb (is_zero (cc_ticket c)) then (c, Err ErrContinuityState)
      else
        match (randomContinuityID random).2 with
        | Err e => (c, Err e)
        | Ok constellationID =>
            match LeaseKeyFromSessionKeys (ss_keys a) with
            | Err e => (c, Err (control_join e))
            | Ok leaseKey =>
                match takeMessageIDLocked c with
                | (c, Err e) => (c, Err e)
                | (c, Ok messageID) =>
                    (c, Ok (leaseKey, mkFrame ContinuityConstellationCreate messageID constellationID (zeros 16) 0 0 []))
                end
            end
        end
  end.

Definition Create (c : ClientControl) (a : Session) (cancelled : error) (random : list (error + list byte))
    (send : ExtensionEnvelope -> res unit) (receive : res ExtensionEnvelope) : ClientControl * res unit :=
  match Create_request c a cancelled random with
  | (c, Err e) => (c, Err e)
  | (c, Ok (leaseKey, request)) =>
      match exchange send receive request ContinuityLeaseIssue with
      | Err e => (c, Err e)
      | Ok ticket => (mkClientControl (cf_constellation request) leaseKey ticket (cc_next c), Ok tt)
      end
  end.

Definition Attach_request (c : ClientControl) (a : Session) (cancelled : error)
    : ClientControl * res (list byte * ContinuityFrame) :=
  match requireContinuityCapability a cancelled with
  | Err e => (c, Err e)
  | Ok _ =>
      if is_zero (cc_constellation c) || is_zero (cc_ticket c) then (c, Err ErrContinuityState)
      else
        match takeMessageIDLocked c with
        | (c, Err e) => (c, Err e)
        | (c, Ok messageID) =>
            match LeaseKeyFromSessionKeys (ss_keys a) with
            | Err e => (c, Err (control_join e))
            | Ok leaseKey =>
                (c, Ok (leaseKey, mkFrame ContinuityLeaseAttach messageID (cc_constellation c) (zeros 16) 0 0 (cc_ticket c)))
            end
        end
  end.

Definition Attach (c : ClientControl) (a : Session) (cancelled : error)
    (send : ExtensionEnvelope -> res unit) (receive : res ExtensionEnvelope) : ClientControl * res unit :=
  match Attach_request c a cancelled with
  | (c, Err e) => (c, Err e)
  | (c, Ok (leaseKey, request)) =>
      match exchange send receive request ContinuityLeaseAccept with
      | Err e => (c, Err e)
      | Ok ticket => (mkClientControl (cc_constellation c) leaseKey ticket (cc_next c), Ok tt)
      end
  end.

(** [State]: ready, constellation, lease key, next message id. *)
Definition ClientState (c : ClientControl) : bool * list byte * list byte * Z :=
  (negb (is_zero (cc_constellation c)) && negb (is_zero (cc_ticket c)), cc_constellation c, cc_leaseKey c, cc_next c).

(** *** The server *)

Variable close_err : handle -> option error.

(** The answer to a request. *)
Definition admission_response (request : ContinuityFrame) (a : Attachment) : ContinuityFrame :=
  mkFrame (if cf_type request =? ContinuityConstellationCreate then ContinuityLeaseIssue else ContinuityLeaseAccept)
    (cf_message_id request) (cf_constellation request) (zeros 16) 0 0 (at_ticket a).

(** The attachment of a request: [createPending] or [attachPending]. *)
Definition admit_request (h : Hub) (at_ : instants) (random : list (option (list byte))) (a : Session)
    (principal transcript leaseKey : list byte) (request : ContinuityFrame)
    : Hub * list (option (list byte)) * list handle * res Attachment :=
  if MaxSequence <=? cf_message_id request then (h, random, [], Err ErrControlExchange)
  else if cf_type request =? ContinuityConstellationCreate then
    createPending close_err h at_ random
      (mkCreateRequest principal (cf_constellation request) transcript leaseKey (ss_carrier a) (ss_mux a))
  else if cf_type request =? ContinuityLeaseAttach then
    match parseLeaseTicket (cf_token request) with
    | Err e => (h, random, [], Err e)
    | Ok ticket =>
        attachPending close_err h at_ random
          (mkAttachRequest ticket principal (cf_constellation request) transcript leaseKey (ss_carrier a) (ss_mux a))
    end
  else (h, random, [], Err ErrControlExchange).

(** [Admit]; [at_] are the instants of the request, [later] those of the
    [Close] of an attachment that could not be answered. *)
Definition Admit (h : Hub) (at_ later : instants) (random : list (option (list byte))) (a : Session) (cancelled : error)
    (receive : res ExtensionEnvelope) (send : ExtensionEnvelope -> res unit)
    : Hub * list (option (list byte)) * list handle * res Attachment :=
  match requireContinuityCapability a cancelled with
  | Err e => (h, random, [], Err e)
  | Ok _ =>
      match (principal ← PrincipalFromCredentialID (ss_credential a);
             transcript ← TranscriptFromSessionKeys (ss_keys a);
             leaseKey ← LeaseKeyFromSessionKeys (ss_keys a);
             request ← ReceiveContinuity receive;
             Ok (principal, transcript, leaseKey, request)) with
      | Err e => (h, random, [], Err (control_join e))
      | Ok (principal, transcript, leaseKey, request) =>
          match admit_request h at_ random a principal transcript leaseKey request with
          | (h, random, gone, Err e) => (h, random, gone, Err e)
          | (h, random, gone, Ok attachment) =>
              match SendContinuity send (admission_response request attachment) with
              | Err e =>
                  let '(h, _, closed, _) := Attachment_Close close_err h later attachment in
                  (h, random, gone ++ closed, Err (control_join e))
              | Ok _ =>
                  let c := commitAdmission attachment in
                  (h, random, gone,
                   Ok (mkAttachment (at_constellation c) (at_lease c) (at_key c) (at_ticket c) (at_primary c)
                         (u64 (cf_message_id request + 1)) (at_admission c) (at_once c)))
              end
          end
      end
  end.
End Identity.

(** ** Properties of the exchange *)

Section Exchange.
Variable sha256 : list byte -> list byte.
Variable hmac_sha256 : list byte -> list byte -> list byte.
Variable close_err : handle -> option error.

(** A frame travels unchanged. *)
Lemma continuity_wire frame envelope : frame_typed frame -> continuity_envelope frame = Ok envelope ->
  ReceiveContinuity (Ok envelope) = Ok frame.
Proof.
  intros Ht. unfold continuity_envelope, NewContinuityTLV. destruct (MarshalFrame frame) as [raw|] eqn:Em; [|done].
  intros [= <-]. unfold ReceiveContinuity, ParseContinuityTLV. cbn.
  rewrite (parse_marshal_frame frame raw) by done. cbn. by rewrite Z.eqb_refl.
Qed.

Lemma SendContinuity_ok send frame : SendContinuity send frame = Ok tt ->
  exists envelope, continuity_envelope frame = Ok envelope /\ send envelope = Ok tt.
Proof. unfold SendContinuity. intros H. inv_res. eauto. Qed.

Lemma parseLeaseTicket_ok raw t : parseLeaseTicket raw = Ok t <-> t = raw /\ len raw = 32 /\ is_zero raw = false.
Proof.
  unfold parseLeaseTicket. destruct (Z.eqb_spec (len raw) 32), (is_zero raw); cbn; naive_solver.
Qed.

(** What a successful [Admit] went through. *)
Lemma Admit_ok h at_ later rd a cancelled receive send h' rd' gone att :
  Admit sha256 hmac_sha256 close_err h at_ later rd a cancelled receive send = (h', rd', gone, Ok att) ->
  exists principal transcript leaseKey request att0,
    PrincipalFromCredentialID sha256 (ss_credential a) = Ok principal /\
    TranscriptFromSessionKeys hmac_sha256 (ss_keys a) = Ok transcript /\
    LeaseKeyFromSessionKeys hmac_sha256 (ss_keys a) = Ok leaseKey /\
    ReceiveContinuity receive = Ok request /\
    admit_request close_err h at_ rd a principal transcript leaseKey request = (h', rd', gone, Ok att0) /\
    SendContinuity send (admission_response request att0) = Ok tt /\
    cf_message_id request < MaxSequence /\
    att = mkAttachment (at_constellation att0) (at_lease att0) (at_key att0) (at_ticket att0) (at_primary att0)
            (u64 (cf_message_id request + 1)) None (at_once att0).
Proof.
  unfold Admit. destruct (requireContinuityCapability a cancelled); [|done].
  destruct (PrincipalFromCredentialID _ _) as [p|] eqn:E1; [|done]. destruct (TranscriptFromSessionKeys _ _) as [t|] eqn:E2; [|done].
  destruct (LeaseKeyFromSessionKeys _ _) as [k|] eqn:E3; [|done]. destruct (ReceiveContinuity _) as [q|] eqn:E4; [|done].
  cbn [mbind res_bind]. destruct (admit_request _ _ _ _ _ _ _ _ _) as [[[h1 rd1] g] [att0|]] eqn:E5; [|done].
  destruct (SendContinuity _ _) as [[]|] eqn:E6; [|by destruct (Attachment_Close _ _ _ _) as [[[? ?] ?] ?]].
  intros [= <- <- <- <-]. exists p, t, k, q, att0. split_and!; try done.
  unfold admit_request in E5. destruct (Z.leb_spec MaxSequence (cf_message_id q)); [done|lia].
Qed.

(** What the request led to. *)
Lemma admit_request_ok h at_ rd a p t k q h' rd' gone att :
  admit_request close_err h at_ rd a p t k q = (h', rd', gone, Ok att) ->
  at_constellation att = cf_constellation q /\ at_key att = k /\ In (Some (at_ticket att)) rd /\
  is_zero (at_ticket att) = false /\
  (cf_type q = ContinuityConstellationCreate /\ hb_records (cleanup close_err h (in_cleanup at_)).1 !! cf_constellation q = None \/
   cf_type q = ContinuityLeaseAttach /\ exists x, tr_tickets (hb_tickets h) !! cf_token q = Some x /\
     t_principal x = p /\ t_constellation x = cf_constellation q /\ in_ticket at_ < t_expires x) /\
  (exists r, hb_records h' !! cf_constellation q = Some r /\ hr_principal r = p) /\
  (exists x, tr_tickets (hb_tickets h') !! at_ticket att = Some x /\ t_principal x = p /\
     t_constellation x = cf_constellation q /\ t_transcript x = t).
Proof.
  unfold admit_request. destruct (_ <=? _); [done|]. destruct (Z.eqb_spec (cf_type q) ContinuityConstellationCreate) as [Et|].
  - intros (c & tk & _ & _ & Hnew & _ & Hi & -> & ->)%create_ok. cbn in *.
    apply Issue_ok in Hi as (_ & (Hz & _) & Hin & _ & _ & ->). cbn in *.
    split_and!; try done; [by left|rewrite lookup_insert_eq; eauto|].
    rewrite lookup_insert_eq. eexists. by split_and!.
  - destruct (Z.eqb_spec (cf_type q) ContinuityLeaseAttach) as [Et|]; [|done].
    destruct (parseLeaseTicket (cf_token q)) as [ticket|] eqn:Ep; [|done]. apply parseLeaseTicket_ok in Ep as (-> & _).
    intros (y & c & tk & g & _ & _ & Hy & Hp & _ & Hr & -> & ->)%attach_ok. cbn in *.
    apply Rotate_ok in Hr as (x & _ & (Hx & _ & _ & _ & Hxp & Hxc)%redeemable_ok & _ & (Hz & _) & Hin & _ & ->).
    apply cleanup_lookup in Hx as [Hx Hexp]. cbn in *.
    split_and!; try done; [right; eauto 10|rewrite lookup_insert_eq; eauto|].
    rewrite lookup_insert_eq. eexists. by split_and!.
Qed.

Definition id_read (r : error + list byte) : Prop := match r with inr id => length id = 16%nat | inl _ => True end.
Definition ticket_read (r : option (list byte)) : Prop := match r with Some t => length t = 32%nat | None => True end.

Definition client_typed (c : ClientControl) : Prop :=
  length (cc_constellation c) = 16%nat /\ length (cc_ticket c) = 32%nat /\ is_u64 (cc_next c).

(** What a request of the client looks like. *)
Definition request_of (c : ClientControl) (r : (list byte * ContinuityFrame)) (ty : Z) (k : list byte) : Prop :=
  cf_type r.2 = ty /\ firstContinuityMessageID <= cf_message_id r.2 <= MaxSequence /\
  cc_next c = cf_message_id r.2 + 1 /\ cf_send r.2 = 0 /\ cf_receive r.2 = 0 /\ cf_flow r.2 = zeros 16 /\
  length (cf_constellation r.2) = 16%nat /\ is_zero (cf_constellation r.2) = false /\ r.1 = k.

Lemma take_message_id c c' id : takeMessageIDLocked c = (c', Ok id) ->
  c' = mkClientControl (cc_constellation c) (cc_leaseKey c) (cc_ticket c) (id + 1) /\
  firstContinuityMessageID <= id <= MaxSequence.
Proof.
  unfold takeMessageIDLocked. destruct (_ || _) eqn:G; [done|]. guards. zb. intros [= <- <-].
  rewrite MaxSequence_eq in *. unfold firstContinuityMessageID in *. rewrite u64_small by (unfold is_u64; lia). done.
Qed.

Lemma id_attempts_ok n random random' id : Forall id_read random -> id_attempts n random = (random', Ok id) ->
  length id = 16%nat /\ is_zero id = false.
Proof.
  revert random. induction n as [|n IH]; intros [|[e|x] random] Hf H; cbn in H; try done.
  inversion_clear Hf. destruct (is_zero x) eqn:Ez; [by eapply IH|]. by injection H as <- <-.
Qed.

Lemma Create_request_ok c a cancelled random c' r : Forall id_read random ->
  Create_request hmac_sha256 c a cancelled random = (c', Ok r) ->
  exists k, LeaseKeyFromSessionKeys hmac_sha256 (ss_keys a) = Ok k /\
    request_of c' r ContinuityConstellationCreate k /\ cf_token r.2 = [].
Proof.
  intros Hf. unfold Create_request. destruct (requireContinuityCapability _ _); [|done].
  destruct (Extensions _) as [ps ng]. set (c1 := if (_ && _) then _ else c). destruct (_ || _); [done|].
  destruct (randomContinuityID random) as [rd [id|]] eqn:Er; cbn [snd]; [|done].
  apply id_attempts_ok in Er as [Hl Hz]; [|done].
  destruct (LeaseKeyFromSessionKeys _ _) as [k|]; [|done]. destruct (takeMessageIDLocked c1) as [c2 [m|]] eqn:Et; [|done].
  apply take_message_id in Et as [-> Hm]. intros [= <- <-]. exists k. by split_and!.
Qed.

Lemma Attach_request_ok c a cancelled c' r : length (cc_constellation c) = 16%nat ->
  Attach_request hmac_sha256 c a cancelled = (c', Ok r) ->
  exists k, LeaseKeyFromSessionKeys hmac_sha256 (ss_keys a) = Ok k /\
    request_of c' r ContinuityLeaseAttach k /\ cf_token r.2 = cc_ticket c /\ cf_constellation r.2 = cc_constellation c /\
    cc_constellation c' = cc_constellation c.
Proof.
  intros Hl. unfold Attach_request. destruct (requireContinuityCapability _ _); [|done]. destruct (_ || _) eqn:G; [done|]. guards.
  destruct (takeMessageIDLocked c) as [c2 [m|]] eqn:Et; [|done]. apply take_message_id in Et as [-> Hm].
  destruct (LeaseKeyFromSessionKeys _ _) as [k|]; [|done]. intros [= <- <-]. exists k. by split_and!.
Qed.

(** The server answers a request that the client then accepts. *)
Lemma exchange_completes c r ty k h at_ later rd a cancelled env1 send h' rd' gone att csend :
  request_of c r ty k -> ty = ContinuityConstellationCreate \/ ty = ContinuityLeaseAttach ->
  continuity_envelope r.2 = Ok env1 -> csend env1 = Ok tt -> Forall ticket_read rd ->
  Admit sha256 hmac_sha256 close_err h at_ later rd a cancelled (Ok env1) send = (h', rd', gone, Ok att) ->
  exists env2, continuity_envelope (admission_response r.2 att) = Ok env2 /\ send env2 = Ok tt /\
    exchange csend (Ok env2) r.2 (if ty =? ContinuityConstellationCreate then ContinuityLeaseIssue else ContinuityLeaseAccept)
      = Ok (at_ticket att) /\
    at_constellation att = cf_constellation r.2 /\ LeaseKeyFromSessionKeys hmac_sha256 (ss_keys a) = Ok (at_key att) /\
    at_next att = cc_next c /\ at_admission att = None.
Proof.
  intros (Rt & Rm & Rn & Rs & Rr & Rf & Rl & Rz & Rk) Hty He Hcs Hrd HA. rewrite MaxSequence_eq in Rm. unfold firstContinuityMessageID in Rm.
  assert (Hty' : 0 <= ty < 256) by (destruct Hty as [-> | ->]; done).
  assert (Hft : frame_typed r.2).
  { unfold frame_typed, is_u64. rewrite Rt, Rs, Rr, Rf, Rl. split_and!; try done; lia. }
  apply Admit_ok in HA as (p & t & k' & q & att0 & Hp & Htr & Hk & Hq & Hadm & Hsend & Hmax & ->).
  rewrite (continuity_wire _ _ Hft He) in Hq. injection Hq as <-.
  apply admit_request_ok in Hadm as (A1 & A2 & A3 & A4 & _).
  apply SendContinuity_ok in Hsend as (env2 & He2 & Hs2). change (admission_response r.2 att0) with
    (admission_response r.2 (mkAttachment (at_constellation att0) (at_lease att0) (at_key att0) (at_ticket att0) (at_primary att0)
      (u64 (cf_message_id r.2 + 1)) None (at_once att0))) in He2.
  exists env2. split; [done|]. split; [done|]. cbn [at_ticket at_constellation at_key at_next at_admission].
  assert (Hl : length (at_ticket att0) = 32%nat).
  { rewrite Forall_forall in Hrd. apply list_elem_of_In in A3. by apply Hrd in A3. }
  split; [|split_and!; try done; [by rewrite A2|rewrite Rn; apply u64_small; unfold is_u64; lia]].
  unfold exchange, SendContinuity. rewrite He. cbn [mbind res_bind]. rewrite Hcs. cbn [map_err mbind res_bind].
  assert (Hft2 : frame_typed (admission_response r.2 att0)).
  { unfold frame_typed, is_u64, admission_response. cbn. rewrite Rl. split_and!; try done; try lia; by destruct (_ =? _). }
  rewrite (continuity_wire _ _ Hft2 He2).
  cbn [map_err mbind res_bind]. unfold admission_response. cbn [cf_type cf_message_id cf_constellation cf_token at_ticket].
  rewrite Rt, !Z.eqb_refl, bytes_eq_refl. cbn [negb orb]. rewrite ?Z.eqb_refl. cbn [negb orb].
  apply parseLeaseTicket_ok. split; [done|]. split; [unfold len; lia|done].
Qed.

(** The requests are valid frames. *)
Lemma request_encodes c r ty k : request_of c r ty k ->
  ty = ContinuityConstellationCreate /\ cf_token r.2 = [] \/ ty = ContinuityLeaseAttach /\ length (cf_token r.2) = 32%nat ->
  exists env, continuity_envelope r.2 = Ok env.
Proof.
  intros (Rt & Rm & Rn & Rs & Rr & Rf & Rl & Rz & _) Hty. unfold continuity_envelope, NewContinuityTLV, MarshalFrame.
  assert (Hv : validateFrame r.2 = Ok tt).
  { unfold validateFrame. rewrite Rt, Rs, Rr, Rf, Rz. unfold firstContinuityMessageID in Rm.
    rewrite (proj2 (Z.eqb_neq (cf_message_id r.2) 0)), (proj2 (Z.ltb_ge MaxSequence (cf_message_id r.2))) by lia.
    destruct Hty as [[-> ->]|[-> Ht]]; [done|]. unfold len. rewrite Ht. done. }
  rewrite Hv. cbn. eauto.
Qed.

(** C17: the client and the server agree on every admission.  When the server
    admits the request a client sent, the client accepts the answer the server
    sent, and both then hold the same constellation, lease key (each computed
    it from its own session keys), ticket, and next message number; creating
    and attaching alike. *)
Theorem admission_agreement c ac sc cancelled cancelled' random csend send h at_ later rd :
  ss_keys sc = ss_keys ac -> client_typed c -> Forall id_read random -> Forall ticket_read rd ->
  (forall e, csend e = Ok tt) ->
  let agree c' att := cc_constellation c' = at_constellation att /\ cc_leaseKey c' = at_key att /\ cc_ticket c' = at_ticket att /\
    cc_next c' = at_next att /\ at_admission att = None in
  (forall c1 r, Create_request hmac_sha256 c ac cancelled random = (c1, Ok r) ->
     exists env1, continuity_envelope r.2 = Ok env1 /\
     forall h' rd' gone att, Admit sha256 hmac_sha256 close_err h at_ later rd sc cancelled' (Ok env1) send = (h', rd', gone, Ok att) ->
     exists env2 c', send env2 = Ok tt /\
       Create hmac_sha256 c ac cancelled random csend (Ok env2) = (c', Ok tt) /\ agree c' att) /\
  (forall c1 r, Attach_request hmac_sha256 c ac cancelled = (c1, Ok r) ->
     exists env1, continuity_envelope r.2 = Ok env1 /\
     forall h' rd' gone att, Admit sha256 hmac_sha256 close_err h at_ later rd sc cancelled' (Ok env1) send = (h', rd', gone, Ok att) ->
     exists env2 c', send env2 = Ok tt /\
       Attach hmac_sha256 c ac cancelled csend (Ok env2) = (c', Ok tt) /\ agree c' att).
Proof.
  intros Hkeys (Hc1 & Hc2 & _) Hid Htk Hcs. cbn zeta. split; intros c1 r Hreq.
  - destruct (Create_request_ok _ _ _ _ _ _ Hid Hreq) as (k & Hk & Hof & Ht).
    destruct (request_encodes _ _ _ _ Hof ltac:(by left)) as [env1 He]. exists env1. split; [done|].
    intros h' rd' gone att HA.
    destruct (exchange_completes _ _ _ _ _ _ _ _ _ _ _ _ _ _ _ _ csend Hof ltac:(by left) He (Hcs _) Htk HA)
      as (env2 & _ & Hs & Hx & E1 & E2 & E3 & E4).
    exists env2, (mkClientControl (cf_constellation r.2) r.1 (at_ticket att) (cc_next c1)). split; [done|]. unfold Create. rewrite Hreq. destruct r as [lk q]. cbn in Hx. rewrite Hx.
    split; [done|]. cbn. rewrite Hkeys, Hk in E2. injection E2 as <-. split_and!; try done. by destruct Hof as (_&_&_&_&_&_&_&_&?).
  - destruct (Attach_request_ok _ _ _ _ _ Hc1 Hreq) as (k & Hk & Hof & Ht & Hcon & Hc').
    destruct (request_encodes _ _ _ _ Hof ltac:(right; by rewrite Ht)) as [env1 He]. exists env1. split; [done|].
    intros h' rd' gone att HA.
    destruct (exchange_completes _ _ _ _ _ _ _ _ _ _ _ _ _ _ _ _ csend Hof ltac:(by right) He (Hcs _) Htk HA)
      as (env2 & _ & Hs & Hx & E1 & E2 & E3 & E4).
    exists env2, (mkClientControl (cc_constellation c1) r.1 (at_ticket att) (cc_next c1)). split; [done|]. unfold Attach. rewrite Hreq. destruct r as [lk q]. cbn in Hx, Hcon, E1. rewrite Hx.
    split; [done|]. cbn. rewrite Hkeys, Hk in E2. injection E2 as <-. rewrite Hc', E1, Hcon.
    split_and!; try done. by destruct Hof as (_&_&_&_&_&_&_&_&?).
Qed.

(** a session is admitted only to constellations of its own credential.
    Whatever the request says, the admitted constellation belongs to the
    principal of the authenticated credential, the lease key and the new
    ticket's transcript are those of the session's keys, and joining an
    existing constellation takes an unexpired ticket that was issued to that
    principal for that constellation. *)
Theorem admission_bound h at_ later rd a cancelled receive send h' rd' gone att :
  Admit sha256 hmac_sha256 close_err h at_ later rd a cancelled receive send = (h', rd', gone, Ok att) ->
  exists principal request, PrincipalFromCredentialID sha256 (ss_credential a) = Ok principal /\
    LeaseKeyFromSessionKeys hmac_sha256 (ss_keys a) = Ok (at_key att) /\
    ReceiveContinuity receive = Ok request /\ at_constellation att = cf_constellation request /\
    (exists r, hb_records h' !! at_constellation att = Some r /\ hr_principal r = principal) /\
    (exists x, tr_tickets (hb_tickets h') !! at_ticket att = Some x /\ t_principal x = principal /\
       t_constellation x = at_constellation att /\ TranscriptFromSessionKeys hmac_sha256 (ss_keys a) = Ok (t_transcript x)) /\
    (cf_type request = ContinuityConstellationCreate \/
     cf_type request = ContinuityLeaseAttach /\ exists x, tr_tickets (hb_tickets h) !! cf_token request = Some x /\
       t_principal x = principal /\ t_constellation x = at_constellation att /\ in_ticket at_ < t_expires x).
Proof.
  intros (p & t & k & q & att0 & Hp & Ht & Hk & Hq & Hadm & _ & _ & ->)%Admit_ok. cbn.
  apply admit_request_ok in Hadm as (A1 & A2 & _ & _ & A5 & A6 & x & X1 & X2 & X3 & X4).
  exists p, q. rewrite A1, A2. split_and!; try done.
  - exists x. split_and!; try done. by rewrite X4.
  - destruct A5 as [[? _]|[? ?]]; [by left|right]. done.
Qed.
End Exchange.

(** ** The control channel (channel.go) *)

Definition MaxControlFlows : Z := 65536.

(** [ch_handlers] maps a flow to the handle of its [FlowControlHandler]. *)
Record ControlChannel := mkChannel {
  ch_constellation : list byte; ch_maxFlows : Z; ch_handlers : gmap (list byte) handle;
  ch_closed : bool; ch_err : option error; ch_next : Z
}.

(** What the channel does to its surroundings. *)
Inductive effect :=
| Acknowledged (handler offset : Z)
| Aborted (handler : handle) (reason : error)
| Sent (frame : ContinuityFrame)
| MuxClosed.

Definition with_handlers (c : ControlChannel) (hs : gmap (list byte) handle) : ControlChannel :=
  mkChannel (ch_constellation c) (ch_maxFlows c) hs (ch_closed c) (ch_err c) (ch_next c).

Definition NewControlChannel (constellation : list byte) (firstMessageID maxFlows : Z) : res ControlChannel :=
  if is_zero constellation || (firstMessageID =? 0) || (MaxSequence <? firstMessageID)
     || (maxFlows <=? 0) || (MaxControlFlows <? maxFlows)
  then Err ErrControlChannelConfig
  else Ok (mkChannel constellation maxFlows ∅ false None firstMessageID).

(** [None] is a nil handler. *)
Definition Register (c : ControlChannel) (id : list byte) (handler : option handle) : ControlChannel * res unit :=
  match handler with
  | None => (c, Err ErrControlChannelConfig)
  | Some handler =>
      if is_zero id then (c, Err ErrControlChannelConfig)
      else if ch_closed c then (c, Err ErrControlChannelClosed)
      else if bool_decide (is_Some (ch_handlers c !! id)) then (c, Err ErrControlFlowDuplicate)
      else if ch_maxFlows c <=? Z.of_nat (size (ch_handlers c)) then (c, Err ErrControlFlowCapacity)
      else (with_handlers c (<[id := handler]> (ch_handlers c)), Ok tt)
  end.

Definition Unregister (c : ControlChannel) (id : list byte) : ControlChannel * bool :=
  if is_zero id then (c, false)
  else (with_handlers c (delete id (ch_handlers c)), bool_decide (is_Some (ch_handlers c !! id))).

Section Channel.
(** What [mux.SendExtension] answers, and the error of a handler's
    [Acknowledge]. *)
Variable send_extension : ExtensionEnvelope -> res unit.
Variable acknowledge : handle -> Z -> option error.

(** [send]; a frame is [Sent] when the mux was called with it. *)
Definition channel_send (c : ControlChannel) (ty : Z) (flow : list byte) (offset : Z)
    : ControlChannel * list effect * res unit :=
  if is_zero flow then (c, [], Err ErrControlChannelConfig)
  else if ch_closed c then (c, [], Err ErrControlChannelClosed)
  else if (ch_next c =? 0) || (MaxSequence <? ch_next c) then (c, [], Err ErrControlChannelClosed)
  else
    let frame := mkFrame ty (ch_next c) (ch_constellation c) flow 0 offset [] in
    (mkChannel (ch_constellation c) (ch_maxFlows c) (ch_handlers c) (ch_closed c) (ch_err c) (u64 (ch_next c + 1)),
     [Sent frame],
     map_err (fun e => Join [Sentinel ErrControlChannelClosed; e]) (SendContinuity send_extension frame)).

Definition SendAck c flow offset := channel_send c ContinuityFlowAck flow offset.
Definition SendAbort c flow := channel_send c ContinuityFlowAbort flow 0.

Definition handleAbort (c : ControlChannel) (id : list byte) (reason : error) : ControlChannel * list effect :=
  (with_handlers c (delete id (ch_handlers c)),
   match ch_handlers c !! id with Some handler => [Aborted handler reason] | None => [] end).

Definition handleAck (c : ControlChannel) (frame : ContinuityFrame) : ControlChannel * list effect :=
  match ch_handlers c !! cf_flow frame with
  | None => let '(c, ev, _) := SendAbort c (cf_flow frame) in (c, ev)
  | Some handler =>
      let ack := Acknowledged handler (cf_receive frame) in
      match acknowledge handler (cf_receive frame) with
      | None => (c, [ack])
      | Some e =>
          let '(c, ev) := handleAbort c (cf_flow frame) (Join [Sentinel ErrControlFlowAborted; e]) in
          let '(c, ev', _) := SendAbort c (cf_flow frame) in
          (c, ack :: ev ++ ev')
      end
  end.

(** [finish]: the handlers are aborted in the order of the map. *)
Definition finish (c : ControlChannel) (terminal : error) : ControlChannel * list effect :=
  if ch_closed c then (c, [])
  else
    (mkChannel (ch_constellation c) (ch_maxFlows c) ∅ true (Some terminal) (ch_next c),
     map (fun kv => Aborted kv.2 ErrControlChannelClosed) (map_to_list (ch_handlers c))).

(** One round of [receiveLoop] with what [ReceiveContinuity] returned; the
    error that ends the loop, if it does. *)
Definition receive_round (c : ControlChannel) (cancelled : bool) (received : res ContinuityFrame)
    : ControlChannel * list effect * option error :=
  match received with
  | Err e =>
      (c, [], Some (if cancelled then Sentinel ErrControlChannelClosed else Join [Sentinel ErrControlChannelClosed; e]))
  | Ok frame =>
      if negb (bytes_eq (cf_constellation frame) (ch_constellation c)) then (c, [MuxClosed], Some (Sentinel ErrControlProtocol))
      else if cf_type frame =? ContinuityFlowAck then let '(c, ev) := handleAck c frame in (c, ev, None)
      else if cf_type frame =? ContinuityFlowAbort then
        let '(c, ev) := handleAbort c (cf_flow frame) ErrControlFlowAborted in (c, ev, None)
      else (c, [MuxClosed], Some (Sentinel ErrControlProtocol))
  end.

(** A round with the [finish] that is deferred to the end of the loop. *)
Definition receive_step (c : ControlChannel) (cancelled : bool) (received : res ContinuityFrame)
    : ControlChannel * list effect :=
  match receive_round c cancelled received with
  | (c, ev, None) => (c, ev)
  | (c, ev, Some terminal) => let '(c, ev') := finish c terminal in (c, ev ++ ev')
  end.

(** [Wait] after the loop has ended. *)
Definition Wait (c : ControlChannel) : error :=
  match ch_err c with Some e => e | None => ErrControlChannelClosed end.

(** *** Executions *)

Inductive channel_op :=
| ChRegister (id : list byte) (handler : option handle)
| ChUnregister (id : list byte)
| ChSendAck (flow : list byte) (offset : Z)
| ChSendAbort (flow : list byte)
| ChReceive (cancelled : bool) (received : res ContinuityFrame).

(** The channel after a call, the handlers it took over, those it gave back
    to the caller of [Unregister], and the effects.  The loop does not run on
    after [finish]. *)
Definition channel_step (c : ControlChannel) (op : channel_op)
    : ControlChannel * list handle * list handle * list effect :=
  match op with
  | ChRegister id handler =>
      match Register c id handler with
      | (c, Ok _) => (c, closed_handles [handler], [], [])
      | (c, Err _) => (c, [], [], [])
      end
  | ChUnregister id =>
      ((Unregister c id).1, [], if is_zero id then [] else closed_handles [ch_handlers c !! id], [])
  | ChSendAck flow offset => let '(c, ev, _) := SendAck c flow offset in (c, [], [], ev)
  | ChSendAbort flow => let '(c, ev, _) := SendAbort c flow in (c, [], [], ev)
  | ChReceive cancelled received =>
      if ch_closed c then (c, [], [], [])
      else let '(c, ev) := receive_step c cancelled received in (c, [], [], ev)
  end.

Fixpoint channel_run (c : ControlChannel) (ops : list channel_op)
    : ControlChannel * list handle * list handle * list effect :=
  match ops with
  | [] => (c, [], [], [])
  | op :: ops =>
      let '(c, taken, back, ev) := channel_step c op in
      let '(c, taken', back', ev') := channel_run c ops in (c, taken ++ taken', back ++ back', ev ++ ev')
  end.

(** The aborted handlers and the numbers of the sent messages. *)
Definition aborted (ev : list effect) : list handle := omap (fun e => match e with Aborted h _ => Some h | _ => None end) ev.
Definition sent_ids (ev : list effect) : list Z := omap (fun e => match e with Sent f => Some (cf_message_id f) | _ => None end) ev.

Definition registered (c : ControlChannel) : list handle := (map_to_list (ch_handlers c)).*2.

Record channel_ok (c : ControlChannel) : Prop := {
  co_size : Z.of_nat (size (ch_handlers c)) <= ch_maxFlows c;
  co_end : ch_closed c = true -> ch_handlers c = ∅;
  co_next_id : 1 <= ch_next c <= MaxSequence + 1
}.

(** What a call does to the channel and to the handlers. *)
Definition channel_moves (c c' : ControlChannel) (taken back : list handle) (ev : list effect) : Prop :=
  channel_ok c' /\ aborted ev ++ back ++ registered c' ≡ₚ taken ++ registered c /\
  sent_ids ev = seqZ (ch_next c) (ch_next c' - ch_next c) /\ ch_next c <= ch_next c' /\
  ch_maxFlows c' = ch_maxFlows c.

Lemma moves_refl c : channel_ok c -> channel_moves c c [] [] [].
Proof. intros H. split; [done|]. rewrite Z.sub_diag. split_and!; try done. Qed.

Lemma moves_trans c1 c2 c3 t b t' b' ev ev' : channel_moves c1 c2 t b ev -> channel_moves c2 c3 t' b' ev' ->
  channel_moves c1 c3 (t ++ t') (b ++ b') (ev ++ ev').
Proof.
  intros (_ & P1 & S1 & N1 & M1) (H2 & P2 & S2 & N2 & M2). split; [done|]. split_and!; [| |lia|congruence].
  - unfold aborted in *. rewrite omap_app. rewrite <- !app_assoc.
    rewrite (Permutation_app_swap_app (omap _ ev') b), P2. rewrite (Permutation_app_swap_app b t'), (Permutation_app_swap_app _ t'), P1.
    apply Permutation_app_swap_app.
  - unfold sent_ids in *. rewrite omap_app, S1, S2. replace (ch_next c3 - ch_next c1) with ((ch_next c2 - ch_next c1) + (ch_next c3 - ch_next c2)) by lia.
    rewrite seqZ_app by lia. by replace (ch_next c1 + (ch_next c2 - ch_next c1)) with (ch_next c2) by lia.
Qed.

Lemma registered_delete c id : registered c ≡ₚ closed_handles [ch_handlers c !! id] ++ registered (with_handlers c (delete id (ch_handlers c))).
Proof.
  unfold registered. cbn [ch_handlers with_handlers]. destruct (ch_handlers c !! id) as [h|] eqn:E.
  - rewrite <- (map_to_list_delete _ _ _ E). done.
  - by rewrite delete_id.
Qed.

Lemma channel_ok_delete c id : channel_ok c -> channel_ok (with_handlers c (delete id (ch_handlers c))).
Proof.
  intros [H1 H2 H3]. split; cbn; try done.
  - pose proof (map_subseteq_size _ _ (delete_subseteq (ch_handlers c) id)). lia.
  - intros E. by rewrite H2, delete_empty.
Qed.

Lemma channel_send_moves c ty flow offset : channel_ok c ->
  let '(c', ev, _) := channel_send c ty flow offset in channel_moves c c' [] [] ev.
Proof.
  intros Hc. pose proof Hc as [H1 H2 H3]. unfold channel_send. destruct (is_zero flow); [by apply moves_refl|].
  destruct (ch_closed c) eqn:Ec; [by apply moves_refl|]. destruct (_ || _) eqn:G; [by apply moves_refl|]. guards. zb.
  rewrite MaxSequence_eq in *. rewrite u64_small by (unfold is_u64; lia). split; [|split_and!; cbn; try done; try lia].
  - split; cbn; try done; rewrite ?MaxSequence_eq; try lia.
  - replace (ch_next c + 1 - ch_next c) with 1 by lia. done.
Qed.

Lemma handleAbort_moves c id reason : channel_ok c ->
  let '(c', ev) := handleAbort c id reason in channel_moves c c' [] [] ev.
Proof.
  intros Hc. unfold handleAbort. split; [by apply channel_ok_delete|]. cbn [ch_next with_handlers ch_maxFlows]. rewrite Z.sub_diag.
  split_and!; try done; [|by destruct (ch_handlers c !! id)].
  rewrite (registered_delete c id). by destruct (ch_handlers c !! id).
Qed.

Lemma ack_moves c h offset : channel_ok c -> channel_moves c c [] [] [Acknowledged h offset].
Proof. intros H. split; [done|]. rewrite Z.sub_diag. by split_and!. Qed.

Lemma handleAck_moves c frame : channel_ok c ->
  let '(c', ev) := handleAck c frame in channel_moves c c' [] [] ev.
Proof.
  intros Hc. unfold handleAck. destruct (ch_handlers c !! cf_flow frame) as [h|] eqn:E; cycle 1.
  { pose proof (channel_send_moves c ContinuityFlowAbort (cf_flow frame) 0 Hc) as H.
    unfold SendAbort. by destruct (channel_send _ _ _ _) as [[c' ev] r]. }
  destruct (acknowledge h (cf_receive frame)) as [e|]; [|by apply ack_moves].
  pose proof (handleAbort_moves c (cf_flow frame) (Join [Sentinel ErrControlFlowAborted; e]) Hc) as H1.
  destruct (handleAbort _ _ _) as [c1 ev1]. pose proof (channel_send_moves c1 ContinuityFlowAbort (cf_flow frame) 0 (proj1 H1)) as H2.
  unfold SendAbort. destruct (channel_send _ _ _ _) as [[c2 ev2] r].
  apply (moves_trans c c c2 [] [] [] [] [_]); [by apply ack_moves|]. by apply (moves_trans c c1 c2 [] [] [] []).
Qed.

Lemma finish_moves c e : channel_ok c -> let '(c', ev) := finish c e in channel_moves c c' [] [] ev.
Proof.
  intros Hc. unfold finish. destruct (ch_closed c); [by apply moves_refl|]. pose proof Hc as [H1 H2 H3].
  split; [|split_and!; cbn; try done; rewrite ?Z.sub_diag; try done].
  - split; cbn; try done; try lia. rewrite map_size_empty. lia.
  - unfold aborted, registered. rewrite app_nil_r. cbn. apply reflexive_eq.
    induction (map_to_list (ch_handlers c)) as [|[k h] l IH]; cbn; [done|]. by rewrite IH.
  - unfold sent_ids. induction (map_to_list (ch_handlers c)) as [|[k h] l IH]; cbn; [done|]. by rewrite IH.
Qed.

Lemma receive_step_moves c b received : channel_ok c ->
  let '(c', ev) := receive_step c b received in channel_moves c c' [] [] ev.
Proof.
  intros Hc. unfold receive_step, receive_round.
  assert (Hf : forall ev e, channel_moves c c [] [] ev ->
    let '(c', ev') := (let '(c1, ev1) := finish c e in (c1, ev ++ ev1)) in channel_moves c c' [] [] ev').
  { intros ev e Hev. pose proof (finish_moves c e Hc) as H. destruct (finish c e) as [c1 ev1]. by apply (moves_trans c c c1 [] [] [] []). }
  destruct received as [f|e]; [|apply (Hf []), moves_refl, Hc].
  assert (Hm : channel_moves c c [] [] [MuxClosed]) by (split; [done|]; rewrite Z.sub_diag; by split_and!).
  destruct (negb _); [by apply Hf|]. destruct (_ =? _).
  { pose proof (handleAck_moves c f Hc) as H. by destruct (handleAck c f). }
  destruct (_ =? _); [|by apply Hf].
  pose proof (handleAbort_moves c (cf_flow f) ErrControlFlowAborted Hc) as H. by destruct (handleAbort _ _ _).
Qed.

Lemma channel_step_moves c op : channel_ok c ->
  let '(c', taken, back, ev) := channel_step c op in channel_moves c c' taken back ev.
Proof.
  intros Hc. destruct op as [id h|id|flow offset|flow|b received]; cbn [channel_step].
  - unfold Register. destruct h as [h|]; [|by apply moves_refl]. destruct (is_zero id); [by apply moves_refl|].
    destruct (ch_closed c) eqn:Ec; [by apply moves_refl|]. destruct (bool_decide _) eqn:Ed; [by apply moves_refl|].
    destruct (Z.leb_spec (ch_maxFlows c) (Z.of_nat (size (ch_handlers c)))); [by apply moves_refl|].
    apply bool_decide_eq_false, eq_None_not_Some in Ed. pose proof Hc as [H1 H2 H3].
    split; [|cbn [ch_next with_handlers ch_maxFlows]; rewrite Z.sub_diag; split_and!; try done].
    + split; cbn; try done; [|congruence]. rewrite map_size_insert_None by done. lia.
    + unfold registered. cbn [ch_handlers with_handlers]. by rewrite map_to_list_insert.
  - unfold Unregister. destruct (is_zero id); [by apply moves_refl|].
    split; [by apply channel_ok_delete|]. cbn [fst ch_next with_handlers ch_maxFlows]. rewrite Z.sub_diag.
    split_and!; try done. cbn [aborted omap list_omap app]. by rewrite <- registered_delete.
  - pose proof (channel_send_moves c ContinuityFlowAck flow offset Hc) as H. unfold SendAck.
    by destruct (channel_send _ _ _ _) as [[c' ev] r].
  - pose proof (channel_send_moves c ContinuityFlowAbort flow 0 Hc) as H. unfold SendAbort.
    by destruct (channel_send _ _ _ _) as [[c' ev] r].
  - destruct (ch_closed c); [by apply moves_refl|]. pose proof (receive_step_moves c b received Hc) as H. by destruct (receive_step c b received).
Qed.

Lemma channel_run_moves c ops : channel_ok c ->
  let '(c', taken, back, ev) := channel_run c ops in channel_moves c c' taken back ev.
Proof.
  revert c. induction ops as [|op ops IH]; intros c Hc; cbn [channel_run]; [by apply moves_refl|].
  pose proof (channel_step_moves c op Hc) as H1. destruct (channel_step c op) as [[[c1 t1] b1] ev1].
  specialize (IH c1 (proj1 H1)). destruct (channel_run c1 ops) as [[[c2 t2] b2] ev2]. by eapply moves_trans.
Qed.

(** over any run of a control channel, every flow handler it took over (as
    a multiset) is still registered, was unregistered by its owner, or was
    aborted exactly once, and all of them once the channel has ended; the
    messages it sends are numbered consecutively from the first number, within
    the range of sequence numbers. *)
Theorem channel_accounts_handlers k first maxFlows c0 ops :
  NewControlChannel k first maxFlows = Ok c0 -> is_u64 first ->
  let '(c, taken, back, ev) := channel_run c0 ops in
  aborted ev ++ back ++ registered c ≡ₚ taken /\ (ch_closed c = true -> aborted ev ++ back ≡ₚ taken) /\
  Z.of_nat (size (ch_handlers c)) <= maxFlows /\
  sent_ids ev = seqZ first (ch_next c - first) /\ ch_next c <= MaxSequence + 1.
Proof.
  unfold NewControlChannel. destruct (_ || _) eqn:G; [done|]. guards. zb. intros [= <-] Hu.
  set (c0 := mkChannel _ _ _ _ _ _).
  assert (Hc0 : channel_ok c0) by (split; cbn; try done; unfold is_u64 in *; rewrite ?map_size_empty; lia).
  pose proof (channel_run_moves c0 ops Hc0) as Hrun. destruct (channel_run c0 ops) as [[[c taken] back] ev].
  destruct Hrun as ([C1 C2 C3] & HP & HS & HN & HM). change (registered c0) with (@nil Z) in HP. rewrite app_nil_r in HP.
  cbn in HM, HS. split_and!; try done; [|by rewrite <- HM|lia].
  intros Hc. apply C2 in Hc. unfold registered in HP. by rewrite Hc, app_nil_r in HP.
Qed.

(** a flow's control traffic stays with the flow.  A frame of the channel's
    constellation that acknowledges or aborts a flow leaves the channel open
    and every other flow registered, and acknowledges or aborts no handler but
    the flow's own, even when that handler fails. *)
Theorem channel_isolates_flows c b frame :
  ch_closed c = false -> cf_constellation frame = ch_constellation c ->
  cf_type frame = ContinuityFlowAck \/ cf_type frame = ContinuityFlowAbort ->
  let '(c', ev) := receive_step c b (Ok frame) in
  ch_closed c' = false /\ ch_err c' = ch_err c /\
  (forall id, id <> cf_flow frame -> ch_handlers c' !! id = ch_handlers c !! id) /\
  (cf_type frame = ContinuityFlowAbort -> ch_handlers c' !! cf_flow frame = None) /\
  Forall (fun e => match e with
                   | Acknowledged h o => ch_handlers c !! cf_flow frame = Some h /\ o = cf_receive frame
                   | Aborted h _ => ch_handlers c !! cf_flow frame = Some h
                   | Sent f => cf_flow f = cf_flow frame /\ cf_type f = ContinuityFlowAbort
                   | MuxClosed => False
                   end) ev.
Proof.
  intros Hc Hk Hty. unfold receive_step, receive_round. rewrite Hk, bytes_eq_refl. cbn [negb].
  assert (Hsend : forall c, ch_closed c = false -> let '(c', ev, _) := SendAbort c (cf_flow frame) in
    ch_closed c' = false /\ ch_err c' = ch_err c /\ ch_handlers c' = ch_handlers c /\
    Forall (fun e => match e with Sent f => cf_flow f = cf_flow frame /\ cf_type f = ContinuityFlowAbort | _ => False end) ev).
  { clear. intros c Hc. unfold SendAbort, channel_send. destruct (is_zero _); [done|]. rewrite Hc. destruct (_ || _); [done|].
    cbn. split_and!; try done. by repeat constructor. }
  destruct Hty as [-> | ->]; cbn [Z.eqb ContinuityFlowAck ContinuityFlowAbort Pos.eqb].
  - unfold handleAck. destruct (ch_handlers c !! cf_flow frame) as [h|] eqn:E; cycle 1.
    { specialize (Hsend c Hc). destruct (SendAbort c (cf_flow frame)) as [[c' ev] r]. destruct Hsend as (S1 & S2 & S3 & S4).
      rewrite S3. split_and!; try done. eapply Forall_impl; [exact S4|]. by intros []. }
    destruct (acknowledge h (cf_receive frame)) as [e|].
    + unfold handleAbort. rewrite E. specialize (Hsend (with_handlers c (delete (cf_flow frame) (ch_handlers c))) Hc).
      destruct (SendAbort _ _) as [[c' ev] r]. destruct Hsend as (S1 & S2 & S3 & S4). rewrite S3. cbn.
      split_and!; try done; [by intros id Hne; rewrite lookup_delete_ne|].
      constructor; [done|]. constructor; [done|]. eapply Forall_impl; [exact S4|]. by intros [].
    + split_and!; try done. by repeat constructor.
  - unfold handleAbort. cbn. split_and!; try done; [by intros id Hne; rewrite lookup_delete_ne|by rewrite lookup_delete_eq|].
    destruct (ch_handlers c !! cf_flow frame); by repeat constructor.
Qed.
End Channel.

Module ControlExample.
Import HubExample.
Definition sha (m : list byte) : list byte := replicate 32 x15.
Definition hmac (key m : list byte) : list byte := replicate 31 x16 ++ [z2b (len m)].
Definition keys : SessionKeys := mkSessionKeys [] [] (replicate 32 x17) [] [] [] [].
Definition parameters : ExtensionParameters := mkParameters CapabilityConstellationContinuity 0 0 0 0 0 0 [].
Definition session (mux : Z) : Session :=
  mkSession (bytes_of "alice") keys 1 (Some (mkNegotiation parameters true None)) (Some mux).
Definition random : list (error + list byte) := [inr (zeros 16); inr k].
Definition accepts (e : ExtensionEnvelope) : res unit := Ok tt.

Definition request := (Create_request hmac NewClientControl (session 10) ErrClosed random).2.
Definition env1 : res ExtensionEnvelope := r ← request; continuity_envelope r.2.
Definition admitted := Admit sha hmac no_err h0 (at_sec 1) (at_sec 1) [Some t1] (session 10) ErrClosed env1 accepts.
Definition h1 : Hub := admitted.1.1.1.

Lemma admission_agreement_witness : exists att env2 c',
  admitted.2 = Ok att /\
  Create hmac NewClientControl (session 10) ErrClosed random accepts (Ok env2) = (c', Ok tt) /\
  cc_ticket c' = t1 /\ cc_next c' = at_next att.
Proof.
  destruct (admission_agreement sha hmac no_err NewClientControl (session 10) (session 10) ErrClosed ErrClosed random accepts accepts
    h0 (at_sec 1) (at_sec 1) [Some t1] eq_refl) as [H _].
  - unfold client_typed, is_u64. cbn. unfold firstContinuityMessageID. split_and!; try done; lia.
  - repeat constructor.
  - repeat constructor.
  - done.
  - destruct (Create_request hmac NewClientControl (session 10) ErrClosed random) as [c1 [r|e]] eqn:Er;
      [|exfalso; apply (f_equal (fun x => is_ok x.2)) in Er; vm_compute in Er; discriminate Er].
    destruct (H c1 r eq_refl) as (env & He & HA).
    assert (Henv : env1 = Ok env) by (unfold env1, request; rewrite Er; exact He).
    destruct admitted as [[[h' rd'] gone] [att|e]] eqn:Ea;
      [|exfalso; apply (f_equal (fun x => is_ok x.2)) in Ea; vm_compute in Ea; discriminate Ea].
    assert (Ht : at_ticket att = t1).
    { apply (f_equal (fun x => match x.2 with Ok a => at_ticket a | Err _ => [] end)) in Ea. cbn in Ea. rewrite <- Ea. vm_compute. reflexivity. }
    unfold admitted in Ea. rewrite Henv in Ea. destruct (HA h' rd' gone att Ea) as (env2 & c' & _ & Hc & _ & _ & H3 & H4 & _).
    exists att, env2, c'. split; [reflexivity|]. split; [exact Hc|]. split; [congruence|exact H4].
Defined.

Lemma admission_bound_witness : exists att principal,
  admitted.2 = Ok att /\ PrincipalFromCredentialID sha (bytes_of "alice") = Ok principal /\ at_constellation att = k /\
  exists r, hb_records h1 !! k = Some r /\ hr_principal r = principal.
Proof.
  destruct admitted as [[[h' rd'] gone] [att|e]] eqn:Ea;
    [|exfalso; apply (f_equal (fun x => is_ok x.2)) in Ea; vm_compute in Ea; discriminate Ea].
  destruct (admission_bound sha hmac no_err h0 (at_sec 1) (at_sec 1) [Some t1] (session 10) ErrClosed env1 accepts h' rd' gone att Ea)
    as (p0 & q & Hp & _ & _ & _ & Hr & _).
  assert (Hk : at_constellation att = k).
  { apply (f_equal (fun x => match x.2 with Ok a => at_constellation a | Err _ => [] end)) in Ea. cbn in Ea. rewrite <- Ea. vm_compute. reflexivity. }
  rewrite Hk in Hr. unfold h1. rewrite Ea. exists att, p0. exact (conj eq_refl (conj Hp (conj Hk Hr))).
Defined.

Definition flow (b : byte) : list byte := replicate 16 b.
Definition c0 : ControlChannel := mkChannel k 4 ∅ false None 5.
Definition nack (h o : Z) : option error := if o =? 9 then Some (Sentinel ErrReplayOffset) else None.
Definition ack (f : byte) (offset : Z) : ContinuityFrame := mkFrame ContinuityFlowAck 7 k (flow f) 0 offset [].
Definition channel_ops : list channel_op :=
  [ChRegister (flow x01) (Some 1); ChRegister (flow x02) (Some 2); ChRegister (flow x03) (Some 3);
   ChSendAck (flow x01) 4; ChUnregister (flow x02); ChReceive false (Ok (ack x01 9)); ChReceive false (Err (External 3))].

Lemma channel_accounts_handlers_witness : exists c ev,
  channel_run accepts nack c0 channel_ops = (c, [1; 2; 3], [2], ev) /\ aborted ev = [1; 3] /\
  sent_ids ev = [5; 6] /\ aborted ev ++ [2] ≡ₚ [1; 2; 3].
Proof.
  pose proof (channel_accounts_handlers accepts nack k 5 4 c0 channel_ops eq_refl ltac:(unfold is_u64; lia)) as H.
  destruct (channel_run accepts nack c0 channel_ops) as [[[c taken] back] ev] eqn:E.
  assert (E2 : (taken, back, aborted ev, sent_ids ev, ch_closed c) = ([1; 2; 3], [2], [1; 3], [5; 6], true)).
  { transitivity (let '(c, taken, back, ev) := channel_run accepts nack c0 channel_ops in (taken, back, aborted ev, sent_ids ev, ch_closed c));
      [by rewrite E|vm_compute; reflexivity]. }
  injection E2 as -> -> Ha Hs Hc. exists c, ev. split; [reflexivity|]. split; [exact Ha|]. split; [exact Hs|].
  destruct H as (_ & H & _). exact (H Hc).
Defined.

Definition c1 : ControlChannel := (channel_run accepts nack c0 (take 3 channel_ops)).1.1.1.

Lemma channel_isolates_flows_witness :
  ch_closed (receive_step accepts nack c1 false (Ok (ack x01 9))).1 = false /\
  ch_handlers (receive_step accepts nack c1 false (Ok (ack x01 9))).1 !! flow x02 = Some 2.
Proof.
  pose proof (channel_isolates_flows accepts nack c1 false (ack x01 9) eq_refl eq_refl (or_introl eq_refl)) as H.
  destruct (receive_step accepts nack c1 false (Ok (ack x01 9))) as [c' ev]. destruct H as (H1 & _ & H3 & _).
  cbn [fst]. split; [exact H1|]. rewrite (H3 (flow x02)); [vm_compute; reflexivity|]. vm_compute. discriminate.
Defined.
End ControlExample.
