(* ===== verification/Usage.v ===== *)
(** * Traffic and device accounting (internal/usage/tracker.go)

    A [Tracker] counts the sessions, devices and traffic of the users and keeps
    the result in a state file that administrators change too ([ResetTraffic],
    [RemoveOfflineDevice]); a lock file makes every operation atomic.  The
    system is the tracker in memory and the decoded file.  The policy file, the
    lock, the clock, the session counters and the outcome of writing the file
    are the environment of an operation.

    [Admit] holds a pointer to an element of [state.Users] while [writeState]
    sorts that slice in place, so the pointer is an index here. *)
From stdpp Require Import prelude list sorting gmap.
From S2P Require Import Prelude Text Auth.

(** ** Data *)

Definition stateVersion : Z := 1.
Definition maximumUsers : Z := MaxServerCredentials.
Definition maximumDevicesPerUser : Z := 64.
Definition maximumConfiguredDevices : Z := 16.
Definition MaxUint64 : Z := 2 ^ 64 - 1.

Record Counters := mkCounters { UploadBytes : Z; DownloadBytes : Z }.

(** A time is an instant, 0 the zero time.  The lists are slices that are not
    nil: a decoded file with a missing list is one [validateState] refuses. *)
Record persistedDevice := mkDevice {
  pd_DeviceID : list byte; pd_FirstSeen : Z; pd_LastSeen : option Z; pd_ActiveSessions : Z
}.

Record persistedUser := mkUser {
  pu_UserID : list byte; pu_ResetGeneration : Z; pu_UploadBytes : Z; pu_DownloadBytes : Z;
  pu_LastSeen : option Z; pu_ActiveSessions : Z; pu_Devices : list persistedDevice
}.

Record persistedState := mkState { st_Version : Z; st_Revision : Z; st_UpdatedAt : Z; st_Users : list persistedUser }.

Record policyUser := mkPolicyUser {
  pl_ID : list byte; pl_Status : list byte; pl_MaxDevices : Z; pl_TrafficResetGeneration : Z
}.
Record policyIndex := mkPolicyIndex { pi_Version : Z; pi_Users : option (list policyUser) }.

(** [trackedSession]; an entry of the session map is never closed, closing
    deletes it. *)
Record trackedSession := mkTracked { ts_user : list byte; ts_device : list byte; ts_last : Counters }.

Record Tracker := mkTracker { tr_state : persistedState; tr_sessions : gmap Z trackedSession; tr_nextID : Z }.

(** What writing the file did: [Lost] when the old file was removed and the
    second rename failed too. *)
Inductive written := Stored | NotStored (e : error) | Lost (e : error).

Record env := mkEnv {
  en_lock : option error;                 (* the error of [acquireLock] *)
  en_policy : res policyIndex;            (* the decoded policy file *)
  en_now : Z;
  en_reset : Z -> Counters;               (* what [read] returned during resets *)
  en_read : Z -> Counters;                (* and afterwards *)
  en_written : written
}.

Record world := mkWorld { w_tracker : Tracker; w_file : option persistedState }.

(** ** Helpers *)

Definition saturatingAdd (l r : Z) : Z := if MaxUint64 - l <? r then MaxUint64 else l + r.

(** Printable ASCII is valid UTF-8, one byte a rune, and has no space to trim. *)
Definition validUserID (v : list byte) : bool :=
  negb ((len v =? 0) || (128 <? len v))
  && forallb (fun b => negb ((b2z b <? 33) || (126 <? b2z b) || (b2z b =? 47) || (b2z b =? 92))) v.

Definition findUser (us : list persistedUser) (id : list byte) : option (nat * persistedUser) :=
  list_find (fun u => pu_UserID u = id) us.
Definition findDevice (ds : list persistedDevice) (id : list byte) : option (nat * persistedDevice) :=
  list_find (fun d => pd_DeviceID d = id) ds.

#[global] Arguments findUser : simpl never.
#[global] Arguments findDevice : simpl never.

Definition decrement (n : Z) : Z := if 0 <? n then n - 1 else n.

Definition leave_device (now : Z) (d : persistedDevice) : persistedDevice :=
  mkDevice (pd_DeviceID d) (pd_FirstSeen d) (Some now) (decrement (pd_ActiveSessions d)).

Definition decrementUserSession (deviceID : list byte) (now : Z) (u : persistedUser) : persistedUser :=
  let u := mkUser (pu_UserID u) (pu_ResetGeneration u) (pu_UploadBytes u) (pu_DownloadBytes u) (Some now)
             (decrement (pu_ActiveSessions u)) (pu_Devices u) in
  if bool_decide (deviceID = []) then u
  else match findDevice (pu_Devices u) deviceID with
       | Some (j, _) =>
           mkUser (pu_UserID u) (pu_ResetGeneration u) (pu_UploadBytes u) (pu_DownloadBytes u) (pu_LastSeen u)
             (pu_ActiveSessions u) (alter (leave_device now) j (pu_Devices u))
       | None => u
       end.

(** *** Sorting: by user and device identifier *)

Definition user_le (u v : persistedUser) : Prop := bytes_le (pu_UserID u) (pu_UserID v) = true.
Definition device_le (d e : persistedDevice) : Prop := bytes_le (pd_DeviceID d) (pd_DeviceID e) = true.
#[global] Instance user_le_dec u v : Decision (user_le u v).
Proof. unfold user_le. apply _. Defined.
#[global] Instance device_le_dec d e : Decision (device_le d e).
Proof. unfold device_le. apply _. Defined.

Definition sort_devices (u : persistedUser) : persistedUser :=
  mkUser (pu_UserID u) (pu_ResetGeneration u) (pu_UploadBytes u) (pu_DownloadBytes u) (pu_LastSeen u)
    (pu_ActiveSessions u) (merge_sort device_le (pu_Devices u)).

Definition sort_state (s : persistedState) : persistedState :=
  mkState (st_Version s) (st_Revision s) (st_UpdatedAt s) (map sort_devices (merge_sort user_le (st_Users s))).

(** *** Files *)

Definition valid_device (d : persistedDevice) : bool := is_ok (UnmarshalDeviceText (pd_DeviceID d)) && negb (pd_FirstSeen d =? 0).

Definition valid_user (u : persistedUser) : bool :=
  validUserID (pu_UserID u) && negb (maximumDevicesPerUser <? len (pu_Devices u))
  && forallb valid_device (pu_Devices u)
  && bool_decide (NoDup (map pd_DeviceID (pu_Devices u)))
  && negb (pu_ActiveSessions u <? foldl saturatingAdd 0 (map pd_ActiveSessions (pu_Devices u))).

Definition validateState (s : persistedState) : bool :=
  (st_Version s =? stateVersion) && negb (maximumUsers <? len (st_Users s))
  && forallb valid_user (st_Users s) && bool_decide (NoDup (map pu_UserID (st_Users s))).

Definition active : list byte := bytes_of "active".
Definition revoked : list byte := bytes_of "revoked".

Definition valid_policy (p : policyUser) : bool :=
  validUserID (pl_ID p) && (bool_decide (pl_Status p = active) || bool_decide (pl_Status p = revoked))
  && negb ((pl_MaxDevices p <? 0) || (maximumConfiguredDevices <? pl_MaxDevices p)).

Definition readPolicies (file : res policyIndex) : res (gmap (list byte) policyUser) :=
  index ← file;
  match pi_Users index with
  | None => Err ErrUsageState
  | Some users =>
      if negb (pi_Version index =? 1) || (maximumUsers <? len users) || negb (forallb valid_policy users)
         || negb (bool_decide (NoDup (map pl_ID users)))
      then Err ErrUsageState else Ok (list_to_map (map (fun p => (pl_ID p, p)) users))
  end.

Definition readState (file : option persistedState) : res persistedState :=
  match file with
  | None => Err ErrNotExist
  | Some s => if validateState s then Ok s else Err ErrUsageState
  end.

Section Tracking.
(** Whether the encoded state exceeds [maximumStateBytes]. *)
Variable too_large : persistedState -> bool.

(** [writeState]: the file, the state (its slices are sorted in place) and the
    error. *)
Definition writeState (file : option persistedState) (s : persistedState) (wr : written)
    : option persistedState * persistedState * option error :=
  if negb (validateState s) then (file, s, Some (Sentinel ErrUsageState))
  else
    let s := sort_state s in
    if too_large s then (file, s, Some (Sentinel ErrUsageState))
    else match wr with
         | Stored => (Some s, s, None)
         | NotStored e => (file, s, Some e)
         | Lost e => (None, s, Some e)
         end.

(** ** The tracker *)

Definition with_users (t : Tracker) (us : list persistedUser) : Tracker :=
  mkTracker (mkState (st_Version (tr_state t)) (st_Revision (tr_state t)) (st_UpdatedAt (tr_state t)) us)
    (tr_sessions t) (tr_nextID t).
Definition with_sessions (t : Tracker) (ss : gmap Z trackedSession) : Tracker := mkTracker (tr_state t) ss (tr_nextID t).
Definition users (t : Tracker) : list persistedUser := st_Users (tr_state t).
Definition alter_user (t : Tracker) (f : persistedUser -> persistedUser) (i : nat) : Tracker := with_users t (alter f i (users t)).

Definition persistLocked (w : world) (now : Z) (wr : written) : world * option error :=
  let t := w_tracker w in
  let s := mkState stateVersion (saturatingAdd (st_Revision (tr_state t)) 1) now (users t) in
  let '(file, s, e) := writeState (w_file w) s wr in
  (mkWorld (mkTracker s (tr_sessions t) (tr_nextID t)) file, e).

Definition reloadExternalLocked (w : world) : res world :=
  s ← readState (w_file w);
  let t := w_tracker w in
  Ok (if st_Revision (tr_state t) <? st_Revision s
      then mkWorld (mkTracker s (tr_sessions t) (tr_nextID t)) (w_file w) else w).

Definition kept (policies : gmap (list byte) policyUser) (u : persistedUser) : bool :=
  bool_decide (is_Some (policies !! pu_UserID u)) || (0 <? pu_ActiveSessions u).

Definition pruneDeletedUsersLocked (t : Tracker) (policies : gmap (list byte) policyUser) : Tracker * bool :=
  let retained := List.filter (kept policies) (users t) in
  (with_users t retained, negb (len retained =? len (users t))).

Definition ensureUserLocked (t : Tracker) (id : list byte) : Tracker * nat :=
  match findUser (users t) id with
  | Some (i, _) => (t, i)
  | None => (with_users t (users t ++ [mkUser id 0 0 0 None 0 []]), length (users t))
  end.

Definition reset_user (generation : Z) (u : persistedUser) : persistedUser :=
  mkUser (pu_UserID u) generation 0 0 (pu_LastSeen u) (pu_ActiveSessions u) (pu_Devices u).

Definition rebase (id : list byte) (read : Z -> Counters) (k : Z) (s : trackedSession) : trackedSession :=
  if bool_decide (ts_user s = id) then mkTracked (ts_user s) (ts_device s) (read k) else s.

Definition rebased (id : list byte) (read : Z -> Counters) (ss : gmap Z trackedSession) : gmap Z trackedSession :=
  map_imap (fun k s => Some (rebase id read k s)) ss.

Definition applyResetLocked (t : Tracker) (i : nat) (generation : Z) (read : Z -> Counters) : Tracker * bool :=
  match users t !! i with
  | None => (t, false)
  | Some u =>
      if generation <=? pu_ResetGeneration u then (t, false)
      else (with_sessions (alter_user t (reset_user generation) i)
              (rebased (pu_UserID u) read (tr_sessions t)), true)
  end.

(** What a session adds to a counter: nothing when the counter went back. *)
Definition delta (current last : Z) : Z := if last <=? current then current - last else 0.

Definition add_traffic (up down : Z) (u : persistedUser) : persistedUser :=
  mkUser (pu_UserID u) (pu_ResetGeneration u) (saturatingAdd (pu_UploadBytes u) up) (saturatingAdd (pu_DownloadBytes u) down)
    (pu_LastSeen u) (pu_ActiveSessions u) (pu_Devices u).

Definition sampleSessionLocked (t : Tracker) (k : Z) (s : trackedSession) (current : Counters) : Tracker * bool :=
  let t' := with_sessions t (<[k := mkTracked (ts_user s) (ts_device s) current]> (tr_sessions t)) in
  match findUser (users t) (ts_user s) with
  | None => (t', false)
  | Some (i, _) =>
      let up := delta (UploadBytes current) (UploadBytes (ts_last s)) in
      let down := delta (DownloadBytes current) (DownloadBytes (ts_last s)) in
      (alter_user t' (add_traffic up down) i, (0 <? up) || (0 <? down))
  end.

(** *** Operations *)

(** [acquireLock] and [reloadExternalLocked], then the policies. *)
Definition locked {A} (w : world) (e : env) (body : world -> world * res A) : world * res A :=
  match en_lock e with
  | Some x => (w, Err x)
  | None => match reloadExternalLocked w with Err x => (w, Err x) | Ok w => body w end
  end.

Definition policed {A} (w : world) (e : env) (body : gmap (list byte) policyUser -> world * res A) : world * res A :=
  match readPolicies (en_policy e) with Err x => (w, Err x) | Ok policies => body policies end.

Definition set_devices (ds : list persistedDevice) (u : persistedUser) : persistedUser :=
  mkUser (pu_UserID u) (pu_ResetGeneration u) (pu_UploadBytes u) (pu_DownloadBytes u) (pu_LastSeen u) (pu_ActiveSessions u) ds.
Definition join_device (d : persistedDevice) : persistedDevice :=
  mkDevice (pd_DeviceID d) (pd_FirstSeen d) (pd_LastSeen d) (saturatingAdd (pd_ActiveSessions d) 1).
Definition join_user (u : persistedUser) : persistedUser :=
  mkUser (pu_UserID u) (pu_ResetGeneration u) (pu_UploadBytes u) (pu_DownloadBytes u) (pu_LastSeen u)
    (saturatingAdd (pu_ActiveSessions u) 1) (pu_Devices u).

(** The device of an admission: its user entry and the identifier the session
    is counted under, empty for none. *)
Definition enroll (u : persistedUser) (policy : policyUser) (deviceID : list byte) (now : Z) : res (persistedUser * list byte) :=
  if is_zero deviceID then Ok (u, [])
  else
    let deviceText := match MarshalDeviceText deviceID with Ok text => text | Err _ => [] end in
    match findDevice (pu_Devices u) deviceText with
    | Some (j, _) => Ok (set_devices (alter join_device j (pu_Devices u)) u, deviceText)
    | None =>
        if (0 <? pl_MaxDevices policy) && (pl_MaxDevices policy <=? len (pu_Devices u)) then Err ErrDeviceLimit
        else if maximumDevicesPerUser <=? len (pu_Devices u) then Ok (u, [])
        else Ok (set_devices (pu_Devices u ++ [join_device (mkDevice deviceText now None 0)]) u, deviceText)
    end.

Definition next_id (n : Z) : Z := let n := u64 (n + 1) in if n =? 0 then u64 (n + 1) else n.

(** [user] is [&users[i]] throughout, also after the sort of [writeState]. *)
Definition Admit (w : world) (e : env) (userID deviceID : list byte) : world * res Z :=
  if negb (validUserID userID) then (w, Err ErrUsageConfig)
  else locked w e (fun w => policed w e (fun policies =>
    let at_ t := mkWorld t (w_file w) in
    let '(t, _) := pruneDeletedUsersLocked (w_tracker w) policies in
    match policies !! userID with
    | None => (at_ t, Err ErrUserInactive)
    | Some policy =>
        if negb (bool_decide (pl_Status policy = active)) then (at_ t, Err ErrUserInactive)
        else if (0 <? pl_MaxDevices policy) && is_zero deviceID then (at_ t, Err ErrDeviceIdentityRequired)
        else
          let '(t, i) := ensureUserLocked t userID in
          let '(t, _) := applyResetLocked t i (pl_TrafficResetGeneration policy) (en_reset e) in
          match users t !! i with
          | None => (at_ t, Err ErrUserInactive)   (* [ensureUserLocked] returned an element *)
          | Some u =>
              match enroll u policy deviceID (en_now e) with
              | Err x => (at_ t, Err x)
              | Ok (u, deviceText) =>
                  let t := with_users t (<[i := join_user u]> (users t)) in
                  let k := next_id (tr_nextID t) in
                  let t := mkTracker (tr_state t) (<[k := mkTracked userID deviceText (en_read e k)]> (tr_sessions t)) k in
                  match persistLocked (at_ t) (en_now e) (en_written e) with
                  | (w, None) => (w, Ok k)
                  | (w, Some x) =>
                      let t := with_sessions (w_tracker w) (delete k (tr_sessions (w_tracker w))) in
                      (mkWorld (alter_user t (decrementUserSession deviceText (en_now e)) i) (w_file w), Err x)
                  end
              end
          end
    end)).

(** The loops of [Sample], over maps: the order is unspecified. *)
Definition reset_step (read : Z -> Counters) (acc : Tracker * bool) (p : policyUser) : Tracker * bool :=
  match findUser (users acc.1) (pl_ID p) with
  | None => acc
  | Some (i, _) => let '(t, d) := applyResetLocked acc.1 i (pl_TrafficResetGeneration p) read in (t, d || acc.2)
  end.
Definition apply_resets (t : Tracker) (policies : list policyUser) (read : Z -> Counters) : Tracker * bool :=
  foldl (reset_step read) (t, false) policies.

Definition sample_step (read : Z -> Counters) (acc : Tracker * bool) (k : Z) : Tracker * bool :=
  match tr_sessions acc.1 !! k with
  | None => acc
  | Some s => let '(t, d) := sampleSessionLocked acc.1 k s (read k) in (t, d || acc.2)
  end.
Definition sample_sessions (t : Tracker) (ids : list Z) (read : Z -> Counters) : Tracker * bool :=
  foldl (sample_step read) (t, false) ids.

Definition Sample (w : world) (e : env) : world * res unit :=
  locked w e (fun w => policed w e (fun policies =>
    let '(t, d1) := pruneDeletedUsersLocked (w_tracker w) policies in
    let '(t, d2) := apply_resets t (map snd (map_to_list policies)) (en_reset e) in
    let '(t, d3) := sample_sessions t (map fst (map_to_list (tr_sessions t))) (en_read e) in
    let w := mkWorld t (w_file w) in
    if negb (d1 || d2 || d3) then (w, Ok tt)
    else match persistLocked w (en_now e) (en_written e) with
         | (w, None) => (w, Ok tt)
         | (w, Some x) => (w, Err x)
         end)).

Definition Close (w : world) (e : env) (k : Z) : world * res unit :=
  match tr_sessions (w_tracker w) !! k with
  | None => (w, Ok tt)
  | Some s =>
      locked w e (fun w =>
        let '(t, _) := sampleSessionLocked (w_tracker w) k s (en_read e k) in
        let t := with_sessions t (delete k (tr_sessions t)) in
        let t := match findUser (users t) (ts_user s) with
                 | Some (i, _) => alter_user t (decrementUserSession (ts_device s) (en_now e)) i
                 | None => t
                 end in
        match persistLocked (mkWorld t (w_file w)) (en_now e) (en_written e) with
        | (w, None) => (w, Ok tt)
        | (w, Some x) => (w, Err x)
        end)
  end.

(** [New]: the sessions of an earlier process are gone. *)
Definition clear_user (u : persistedUser) : persistedUser :=
  mkUser (pu_UserID u) (pu_ResetGeneration u) (pu_UploadBytes u) (pu_DownloadBytes u) (pu_LastSeen u) 0
    (map (fun d => mkDevice (pd_DeviceID d) (pd_FirstSeen d) (pd_LastSeen d) 0) (pu_Devices u)).

Definition New (file : option persistedState) (e : env) : option persistedState * res world :=
  match readPolicies (en_policy e), en_lock e with
  | Err x, _ => (file, Err x)
  | Ok _, Some x => (file, Err x)
  | Ok _, None =>
      match (match file with None => Ok (mkState stateVersion 0 0 []) | Some _ => readState file end) with
      | Err x => (file, Err x)
      | Ok s =>
          let s := mkState (st_Version s) (st_Revision s) (st_UpdatedAt s) (map clear_user (st_Users s)) in
          match persistLocked (mkWorld (mkTracker s ∅ 0) file) (en_now e) (en_written e) with
          | (w, None) => (w_file w, Ok w)
          | (w, Some x) => (w_file w, Err x)
          end
      end
  end.

(** *** Administration of the file *)

Definition touch (s : persistedState) (us : list persistedUser) (now : Z) : persistedState :=
  mkState (st_Version s) (saturatingAdd (st_Revision s) 1) now us.

Definition zero_traffic (u : persistedUser) : persistedUser :=
  mkUser (pu_UserID u) (pu_ResetGeneration u) 0 0 (pu_LastSeen u) (pu_ActiveSessions u) (pu_Devices u).

Definition ResetTraffic (file : option persistedState) (e : env) (userID : list byte) : option persistedState * option error :=
  if negb (validUserID userID) then (file, Some (Sentinel ErrUsageConfig))
  else match en_lock e, readState file with
  | Some x, _ => (file, Some x)
  | None, Err x => (file, if errors_is x ErrNotExist then None else Some x)
  | None, Ok s =>
      match findUser (st_Users s) userID with
      | None => (file, None)
      | Some (i, _) =>
          let '(file, _, x) := writeState file (touch s (alter zero_traffic i (st_Users s)) (en_now e)) (en_written e) in (file, x)
      end
  end.

Definition RemoveOfflineDevice (file : option persistedState) (e : env) (userID deviceID : list byte)
    : option persistedState * option error :=
  if negb (validUserID userID) || is_zero deviceID then (file, Some (Sentinel ErrUsageConfig))
  else match en_lock e, readState file with
  | Some x, _ => (file, Some x)
  | None, Err x => (file, Some x)
  | None, Ok s =>
      let deviceText := match MarshalDeviceText deviceID with Ok text => text | Err _ => [] end in
      match findUser (st_Users s) userID with
      | None => (file, Some (Sentinel ErrDeviceNotFound))
      | Some (i, u) =>
          match findDevice (pu_Devices u) deviceText with
          | None => (file, Some (Sentinel ErrDeviceNotFound))
          | Some (j, d) =>
              if 0 <? pd_ActiveSessions d then (file, Some (Sentinel ErrDeviceOnline))
              else
                let us := alter (set_devices (take j (pu_Devices u) ++ drop (S j) (pu_Devices u))) i (st_Users s) in
                let '(file, _, x) := writeState file (touch s us (en_now e)) (en_written e) in (file, x)
          end
      end
  end.
End Tracking.

(** *** Snapshots *)

Record DeviceSnapshot := mkDeviceSnapshot {
  ds_DeviceID : list byte; ds_Online : bool; ds_ActiveSessions : Z; ds_FirstSeen : Z; ds_LastSeen : option Z
}.
Record UserSnapshot := mkUserSnapshot {
  us_UserID : list byte; us_Online : bool; us_LastSeen : option Z; us_ActiveSessions : Z; us_OnlineDevices : Z;
  us_EnrolledDevices : Z; us_UploadBytes : Z; us_DownloadBytes : Z; us_TotalBytes : Z; us_Devices : list DeviceSnapshot
}.

Definition device_snapshot (d : persistedDevice) : DeviceSnapshot :=
  mkDeviceSnapshot (pd_DeviceID d) (0 <? pd_ActiveSessions d) (pd_ActiveSessions d) (pd_FirstSeen d) (pd_LastSeen d).

Definition user_snapshot (u : persistedUser) : UserSnapshot :=
  mkUserSnapshot (pu_UserID u) (0 <? pu_ActiveSessions u) (pu_LastSeen u) (pu_ActiveSessions u)
    (len (List.filter (fun d => 0 <? pd_ActiveSessions d) (pu_Devices u))) (len (pu_Devices u))
    (pu_UploadBytes u) (pu_DownloadBytes u) (saturatingAdd (pu_UploadBytes u) (pu_DownloadBytes u))
    (map device_snapshot (pu_Devices u)).

Definition snapshot_le (u v : UserSnapshot) : Prop := bytes_le (us_UserID u) (us_UserID v) = true.
#[global] Instance snapshot_le_dec u v : Decision (snapshot_le u v).
Proof. unfold snapshot_le. apply _. Defined.

(** The users of a snapshot; version, revision and time are the state's. *)
Definition snapshotFromState (s : persistedState) : list UserSnapshot := merge_sort snapshot_le (map user_snapshot (st_Users s)).

Definition Snapshot (w : world) (e : env) : world * res (list UserSnapshot) :=
  locked w e (fun w => (w, Ok (snapshotFromState (tr_state (w_tracker w))))).

Definition ReadSnapshot (file : option persistedState) : res (list UserSnapshot) :=
  match readState file with
  | Ok s => Ok (snapshotFromState s)
  | Err x => if errors_is x ErrNotExist then Ok [] else Err x
  end.

(** ** Session counts *)

(** Who each open session is counted under. *)
Definition owners (ss : gmap Z trackedSession) : gmap Z (list byte * list byte) := (fun s => (ts_user s, ts_device s)) <$> ss.

Definition count (P : list byte * list byte -> bool) (o : gmap Z (list byte * list byte)) : Z :=
  Z.of_nat (size (filter (fun p => P p.2 = true) o)).
Definition of_user (u : list byte) (p : list byte * list byte) : bool := bool_decide (p.1 = u).
Definition of_device (u d : list byte) (p : list byte * list byte) : bool := bool_decide (p = (u, d)).

Definition user_counted (o : gmap Z (list byte * list byte)) (u : persistedUser) : Prop :=
  pu_ActiveSessions u = count (of_user (pu_UserID u)) o /\
  NoDup (map pd_DeviceID (pu_Devices u)) /\
  Forall (fun d => pd_DeviceID d <> [] /\ pd_ActiveSessions d = count (of_device (pu_UserID u) (pd_DeviceID d)) o) (pu_Devices u).

(** The counters are the numbers of open sessions; every open session has its
    user, and its device unless it is unlabelled. *)
Definition counted (us : list persistedUser) (o : gmap Z (list byte * list byte)) : Prop :=
  NoDup (map pu_UserID us) /\ Forall (user_counted o) us /\
  forall k p, o !! k = Some p -> exists u, u ∈ us /\ pu_UserID u = p.1 /\ (p.2 = [] \/ p.2 ∈ map pd_DeviceID (pu_Devices u)).

Lemma sessions_count_insert P o k p : o !! k = None -> count P (<[k := p]> o) = count P o + (if P p then 1 else 0).
Proof.
  intros Hk. unfold count. destruct (P p) eqn:E.
  - rewrite map_filter_insert_True by done. rewrite map_size_insert_None by (apply map_lookup_filter_None_2; by left). lia.
  - rewrite map_filter_insert_not'; [lia|cbn; congruence|intros y; by rewrite Hk].
Qed.

Lemma sessions_count_delete P o k p : o !! k = Some p -> count P (delete k o) = count P o - (if P p then 1 else 0).
Proof.
  intros Hk. rewrite <- (insert_delete_id o k p) at 2 by done. rewrite sessions_count_insert by apply lookup_delete_eq. lia.
Qed.

Lemma count_bound P o : 0 <= count P o <= Z.of_nat (size o).
Proof. unfold count. pose proof (map_size_filter (fun p => P p.2 = true) o). lia. Qed.

Lemma count_zero P o : (forall k p, o !! k = Some p -> P p = false) -> count P o = 0.
Proof.
  intros H. unfold count. replace (filter _ o) with (∅ : gmap Z (list byte * list byte)); [by rewrite map_size_empty|].
  symmetry. apply map_empty. intros k. apply map_lookup_filter_None_2. right. intros p Hk. cbn. by rewrite (H k p Hk).
Qed.

Lemma count_pos P o k p : o !! k = Some p -> P p = true -> 0 < count P o.
Proof.
  intros Hk HP. rewrite <- (insert_delete_id o k p) by done. rewrite sessions_count_insert by apply lookup_delete_eq. rewrite HP.
  pose proof (count_bound P (delete k o)). lia.
Qed.

Lemma elem_map {A B} (f : A -> B) l y : y ∈ map f l <-> exists x, x ∈ l /\ f x = y.
Proof. rewrite list_elem_of_In, in_map_iff. split; intros (x & H1 & H2); exists x; rewrite list_elem_of_In in *; done. Qed.

Lemma lookup_map {A B} (f : A -> B) l i : map f l !! i = f <$> l !! i.
Proof. revert i. induction l as [|x l IH]; intros [|i]; cbn; try done. Qed.

Lemma findUser_Some us id i u : findUser us id = Some (i, u) -> us !! i = Some u /\ pu_UserID u = id.
Proof. unfold findUser. intros H%list_find_Some. tauto. Qed.
Lemma findUser_None us id : findUser us id = None -> id ∉ map pu_UserID us.
Proof.
  unfold findUser. intros H%list_find_None. rewrite Forall_forall in H. intros Hin.
  apply elem_map in Hin as (u & Hu & <-). by eapply H.
Qed.
Lemma findDevice_Some ds id i d : findDevice ds id = Some (i, d) -> ds !! i = Some d /\ pd_DeviceID d = id.
Proof. unfold findDevice. intros H%list_find_Some. tauto. Qed.
Lemma findDevice_None ds id : findDevice ds id = None -> id ∉ map pd_DeviceID ds.
Proof.
  unfold findDevice. intros H%list_find_None. rewrite Forall_forall in H. intros Hin.
  apply elem_map in Hin as (u & Hu & <-). by eapply H.
Qed.

(** Changing the entry of one key of a list without duplicate keys. *)
Lemma map_alter_same {A B} (g : A -> B) f i l : (forall x, g (f x) = g x) -> map g (alter f i l) = map g l.
Proof.
  intros H. revert i. induction l as [|x l IH]; intros [|i]; cbn; try done.
  - by rewrite H.
  - f_equal. apply IH.
Qed.

Lemma Forall_alter_key {A B} (g : A -> B) (P Q : A -> Prop) f i l x : NoDup (map g l) -> l !! i = Some x ->
  Forall P l -> (P x -> Q (f x)) -> (forall y, g y <> g x -> P y -> Q y) -> Forall Q (alter f i l).
Proof.
  intros Hnd Hi HP Hx Hy. apply Forall_lookup_2. intros j y Hj.
  rewrite list_lookup_alter in Hj. destruct (decide (i = j)) as [->|Hne].
  - rewrite Hi in Hj. injection Hj as <-. apply Hx. by eapply Forall_lookup_1.
  - apply Hy; [|by eapply Forall_lookup_1]. intros E. apply Hne. eapply NoDup_lookup; [exact Hnd| |]; rewrite lookup_map.
    + by rewrite Hi.
    + rewrite Hj. cbn. by rewrite E.
Qed.

(** *** What keeps the counts *)

(** The parts of a user the counts depend on. *)
Definition same_counts (u v : persistedUser) : Prop :=
  pu_UserID v = pu_UserID u /\ pu_ActiveSessions v = pu_ActiveSessions u /\ pu_Devices v = pu_Devices u.

Lemma same_counted o u v : same_counts u v -> user_counted o u -> user_counted o v.
Proof. unfold user_counted. by intros (-> & -> & ->). Qed.

Lemma counted_alter us o f i : (forall u, same_counts u (f u)) -> counted us o -> counted (alter f i us) o.
Proof.
  intros Hf (Hnd & Hu & Ho). assert (Hid : map pu_UserID (alter f i us) = map pu_UserID us) by (apply map_alter_same; intros u; apply Hf).
  split; [by rewrite Hid|]. split.
  - apply Forall_lookup_2. intros j v Hv. rewrite list_lookup_alter in Hv. destruct (decide (i = j)) as [->|].
    + destruct (us !! j) as [u|] eqn:Hj; [|done]. injection Hv as <-. eapply same_counted; [apply Hf|]. by eapply Forall_lookup_1.
    + by eapply Forall_lookup_1.
  - intros k p Hk. destruct (Ho k p Hk) as (u & (j & Hj)%list_elem_of_lookup & Hid' & Hd).
    exists (if decide (i = j) then f u else u). split.
    + apply list_elem_of_lookup. exists j. rewrite list_lookup_alter. destruct (decide (i = j)) as [->|]; by rewrite Hj.
    + destruct (decide (i = j)); [|done]. destruct (Hf u) as (-> & _ & ->). done.
Qed.

Lemma counted_perm us vs o : us ≡ₚ vs -> counted us o -> counted vs o.
Proof.
  intros Hp (Hnd & Hu & Ho). split; [|split].
  - by rewrite <- Hp.
  - by rewrite <- Hp.
  - intros k p Hk. destruct (Ho k p Hk) as (u & Hin & H). exists u. by rewrite <- Hp.
Qed.

Lemma counted_sort_devices us o : counted us o -> counted (map sort_devices us) o.
Proof.
  intros (Hnd & Hu & Ho). split; [by rewrite map_map|]. split.
  - apply Forall_forall. intros v (u & Hin & <-)%elem_map. rewrite Forall_forall in Hu. destruct (Hu u Hin) as (Ha & Hd & Hc).
    unfold user_counted. cbn. by rewrite (merge_sort_Permutation device_le).
  - intros k p Hk. destruct (Ho k p Hk) as (u & Hin & Hid & Hd). exists (sort_devices u).
    split; [apply elem_map; by exists u|]. split; [done|]. cbn. by rewrite (merge_sort_Permutation device_le).
Qed.

Lemma counted_sorted s o : counted (st_Users s) o -> counted (st_Users (sort_state s)) o.
Proof.
  intros H. cbn. apply counted_sort_devices. eapply counted_perm; [|exact H]. symmetry. apply merge_sort_Permutation.
Qed.

Lemma counted_kept us o policies : counted us o -> counted (List.filter (kept policies) us) o.
Proof.
  intros (Hnd & Hu & Ho). split; [|split].
  - clear -Hnd. induction us as [|u us IH]; [done|]. cbn in *. apply NoDup_cons in Hnd as [Hx Hnd].
    destruct (kept policies u); [|by apply IH]. cbn. apply NoDup_cons. split; [|by apply IH]. intros (v & Hv & E)%elem_map.
    apply Hx. rewrite <- E. apply elem_map. exists v. split; [|done].
    rewrite list_elem_of_In in *. by apply List.filter_In in Hv as [? _].
  - apply Forall_forall. intros u Hin%list_elem_of_In. apply List.filter_In in Hin as [Hin _].
    rewrite Forall_forall in Hu. apply Hu. by apply list_elem_of_In.
  - intros k p Hk. destruct (Ho k p Hk) as (u & Hin & Hid & Hd). exists u. split; [|done].
    apply list_elem_of_In, List.filter_In. split; [by apply list_elem_of_In|]. unfold kept.
    rewrite Forall_forall in Hu. destruct (Hu u Hin) as (Ha & _). apply orb_true_iff. right. apply Z.ltb_lt. rewrite Ha.
    eapply count_pos; [exact Hk|]. unfold of_user. by apply bool_decide_eq_true.
Qed.

Lemma counted_new us o id gen up down seen : counted us o -> id ∉ map pu_UserID us ->
  counted (us ++ [mkUser id gen up down seen 0 []]) o.
Proof.
  intros (Hnd & Hu & Ho) Hid. split; [|split].
  - rewrite map_app. apply NoDup_app. split; [done|]. split; [|apply NoDup_singleton].
    intros x Hx ->%list_elem_of_singleton. done.
  - apply Forall_app. split; [done|]. constructor; [|done]. split; [|split; constructor]. cbn. symmetry. apply count_zero.
    intros k p Hk. destruct (Ho k p Hk) as (u & Hin & E & _). unfold of_user. apply bool_decide_eq_false. intros E'.
    apply Hid. rewrite <- E', <- E. apply elem_map. by exists u.
  - intros k p Hk. destruct (Ho k p Hk) as (u & Hin & H). exists u. split; [apply elem_of_app; by left|done].
Qed.

Lemma counted_clear us : NoDup (map pu_UserID us) ->
  Forall (fun u => NoDup (map pd_DeviceID (pu_Devices u)) /\ Forall (fun d => pd_DeviceID d <> []) (pu_Devices u)) us ->
  counted (map clear_user us) ∅.
Proof.
  intros Hnd Hu. split; [by rewrite map_map|]. split.
  - apply Forall_forall. intros v (u & Hin & <-)%elem_map. rewrite Forall_forall in Hu. destruct (Hu u Hin) as [Hd Hne].
    split; [done|]. split; [cbn; by rewrite map_map|]. apply Forall_forall. intros e (d & Hin' & <-)%elem_map.
    rewrite Forall_forall in Hne. split; [exact (Hne d Hin')|reflexivity].
  - intros k p Hk. by rewrite lookup_empty in Hk.
Qed.

Lemma of_user_ne u v d : u <> v -> of_user u (v, d) = false.
Proof. intros H. apply bool_decide_eq_false. cbn. congruence. Qed.
Lemma of_user_eq u d : of_user u (u, d) = true.
Proof. by apply bool_decide_eq_true. Qed.
Lemma of_device_ne u d v e : (u, d) <> (v, e) -> of_device u d (v, e) = false.
Proof. intros H. apply bool_decide_eq_false. congruence. Qed.
Lemma of_device_eq u d : of_device u d (u, d) = true.
Proof. by apply bool_decide_eq_true. Qed.

Lemma saturating_1 n : n < MaxUint64 -> saturatingAdd n 1 = n + 1.
Proof. intros H. unfold saturatingAdd. destruct (Z.ltb_spec (MaxUint64 - n) 1); lia. Qed.

(** A session of another user, or of another device, leaves the counts alone. *)
Lemma user_counted_insert_ne o k v e u : o !! k = None -> pu_UserID u <> v -> user_counted o u -> user_counted (<[k := (v, e)]> o) u.
Proof.
  intros Hk Hne (Ha & Hnd & Hd). split; [|split; [done|]].
  - rewrite sessions_count_insert by done. rewrite of_user_ne by done. lia.
  - eapply Forall_impl; [exact Hd|]. intros d [Hn Hc]. split; [done|]. rewrite sessions_count_insert by done.
    rewrite of_device_ne by congruence. lia.
Qed.

Lemma user_counted_delete_ne o k v e u : o !! k = Some (v, e) -> pu_UserID u <> v -> user_counted o u -> user_counted (delete k o) u.
Proof.
  intros Hk Hne (Ha & Hnd & Hd). split; [|split; [done|]].
  - erewrite sessions_count_delete by done. rewrite of_user_ne by done. lia.
  - eapply Forall_impl; [exact Hd|]. intros d [Hn Hc]. split; [done|]. erewrite sessions_count_delete by done.
    rewrite of_device_ne by congruence. lia.
Qed.

Lemma text_nonempty d : is_zero d = false -> match MarshalDeviceText d with Ok text => text | Err _ => [] end <> [].
Proof. unfold MarshalDeviceText. intros ->. intros E. apply (f_equal length) in E. rewrite !length_app in E. cbn in E. lia. Qed.

(** What an admission does to the entry of its user. *)
Lemma enroll_counted o k u policy dev now u' text : o !! k = None -> Z.of_nat (size o) < MaxUint64 ->
  (forall i p, o !! i = Some p -> p.1 = pu_UserID u -> p.2 = [] \/ p.2 ∈ map pd_DeviceID (pu_Devices u)) ->
  user_counted o u -> enroll u policy dev now = Ok (u', text) ->
  user_counted (<[k := (pu_UserID u, text)]> o) (join_user u') /\ pu_UserID u' = pu_UserID u /\
  (forall d, d ∈ map pd_DeviceID (pu_Devices u) -> d ∈ map pd_DeviceID (pu_Devices u')) /\
  (text = [] \/ text ∈ map pd_DeviceID (pu_Devices u')).
Proof.
  intros Hk Hs Hsess (Ha & Hnd & Hd) H. unfold enroll in H.
  assert (Hjoin : forall ds, NoDup (map pd_DeviceID ds) ->
    Forall (fun d => pd_DeviceID d <> [] /\ pd_ActiveSessions d = count (of_device (pu_UserID u) (pd_DeviceID d)) (<[k := (pu_UserID u, text)]> o)) ds ->
    user_counted (<[k := (pu_UserID u, text)]> o) (join_user (set_devices ds u))).
  { intros ds Hn Hf. split; [|done]. cbn. rewrite sessions_count_insert by done. rewrite of_user_eq, Ha. apply saturating_1.
    pose proof (count_bound (of_user (pu_UserID u)) o). lia. }
  assert (Hkeep : forall d, text <> pd_DeviceID d ->
    pd_DeviceID d <> [] /\ pd_ActiveSessions d = count (of_device (pu_UserID u) (pd_DeviceID d)) o ->
    pd_DeviceID d <> [] /\ pd_ActiveSessions d = count (of_device (pu_UserID u) (pd_DeviceID d)) (<[k := (pu_UserID u, text)]> o)).
  { intros d Hne [Hn Hc]. split; [done|]. rewrite sessions_count_insert by done. rewrite of_device_ne by congruence. lia. }
  assert (Hplus : forall d, text = pd_DeviceID d -> pd_DeviceID d <> [] ->
    pd_ActiveSessions d = count (of_device (pu_UserID u) (pd_DeviceID d)) o ->
    pd_DeviceID (join_device d) <> [] /\ pd_ActiveSessions (join_device d) =
      count (of_device (pu_UserID u) (pd_DeviceID (join_device d))) (<[k := (pu_UserID u, text)]> o)).
  { intros d E Hn Hc. split; [done|]. cbn. rewrite sessions_count_insert by done. rewrite <- E, of_device_eq, Hc, <- E. apply saturating_1.
    pose proof (count_bound (of_device (pu_UserID u) text) o). lia. }
  assert (Hnone : text = [] -> Forall (fun d => pd_DeviceID d <> [] /\
      pd_ActiveSessions d = count (of_device (pu_UserID u) (pd_DeviceID d)) (<[k := (pu_UserID u, text)]> o)) (pu_Devices u)).
  { intros E. eapply Forall_impl; [exact Hd|]. intros d Hc. apply Hkeep; [|done]. destruct Hc. congruence. }
  assert (Hself : u = set_devices (pu_Devices u) u) by by destruct u.
  destruct (is_zero dev) eqn:Hz.
  { injection H as <- E. symmetry in E. split; [rewrite Hself; apply Hjoin; auto|]. split; [done|]. split; [done|]. by left. }
  pose proof (text_nonempty dev Hz) as Hne. destruct (findDevice _ _) as [[j d]|] eqn:Hf.
  - injection H as <- E. rewrite <- E in *. clear E. apply findDevice_Some in Hf as [Hj Hid].
    assert (Hids : map pd_DeviceID (alter join_device j (pu_Devices u)) = map pd_DeviceID (pu_Devices u)) by by apply map_alter_same.
    split; [|split; [done|split; [cbn; by rewrite Hids|right; cbn]]].
    + apply Hjoin; [by rewrite Hids|]. eapply (Forall_alter_key pd_DeviceID); [exact Hnd|exact Hj|exact Hd| |].
      * intros [Hn Hc]. by apply Hplus.
      * intros y Hy Hc. apply Hkeep; [congruence|done].
    + rewrite Hids. apply elem_map. exists d. split; [by eapply list_elem_of_lookup_2|done].
  - destruct (_ && _); [done|]. destruct (_ <=? _).
    + injection H as <- E. symmetry in E. split; [rewrite Hself; apply Hjoin; auto|]. split; [done|]. split; [done|]. by left.
    + injection H as <- E. apply findDevice_None in Hf. rewrite <- E in *. clear E. split; [|split; [done|split]].
      * apply Hjoin.
        -- rewrite map_app. apply NoDup_app. split; [done|]. split; [|apply NoDup_singleton]. intros x Hx ->%list_elem_of_singleton. done.
        -- apply Forall_app. split.
           ++ apply Forall_forall. intros d Hin. rewrite Forall_forall in Hd. apply Hkeep; [|by apply Hd]. intros E. apply Hf.
              rewrite E. apply elem_map. by exists d.
           ++ constructor; [|done]. apply Hplus; [done|done|]. cbn. symmetry. apply count_zero. intros i p Hi.
              apply bool_decide_eq_false. intros ->. by destruct (Hsess _ _ Hi eq_refl).
      * intros d Hin. cbn. rewrite map_app. apply elem_of_app. by left.
      * right. cbn. rewrite map_app. apply elem_of_app. right. by left.
Qed.

Lemma counted_lookup us o i u : counted us o -> us !! i = Some u ->
  user_counted o u /\ forall k p, o !! k = Some p -> p.1 = pu_UserID u -> p.2 = [] \/ p.2 ∈ map pd_DeviceID (pu_Devices u).
Proof.
  intros (Hnd & Hu & Ho) Hi. split; [by eapply Forall_lookup_1|]. intros k p Hk E.
  destruct (Ho k p Hk) as (v & (j & Hj)%list_elem_of_lookup & Hid & Hd).
  assert (i = j) as <-; [|by simplify_eq]. eapply (NoDup_lookup (map pu_UserID us)); [done| |]; rewrite lookup_map.
  - by rewrite Hi.
  - rewrite Hj. cbn. by rewrite Hid, E.
Qed.

Lemma lookup_ids_ne us i j u v : NoDup (map pu_UserID us) -> us !! i = Some u -> us !! j = Some v -> i <> j -> pu_UserID v <> pu_UserID u.
Proof.
  intros Hnd Hi Hj Hne E. apply Hne. eapply (NoDup_lookup (map pu_UserID us)); [done| |]; rewrite lookup_map.
  - by rewrite Hi.
  - rewrite Hj. cbn. by rewrite E.
Qed.

Lemma map_insert_same {A B} (g : A -> B) i x y l : l !! i = Some x -> g y = g x -> map g (<[i := y]> l) = map g l.
Proof.
  revert i. induction l as [|z l IH]; intros [|i] Hi E; cbn in *; try done.
  - injection Hi as ->. by rewrite E.
  - f_equal. by apply IH.
Qed.

(** An admission counts one more session. *)
Lemma counted_join us o i u policy dev now u' text k : counted us o -> us !! i = Some u -> o !! k = None ->
  Z.of_nat (size o) < MaxUint64 -> enroll u policy dev now = Ok (u', text) ->
  counted (<[i := join_user u']> us) (<[k := (pu_UserID u, text)]> o).
Proof.
  intros Hc Hi Hk Hs He. destruct (counted_lookup _ _ _ _ Hc Hi) as [Hu Hsess].
  destruct (enroll_counted _ _ _ _ _ _ _ _ Hk Hs Hsess Hu He) as (Hu' & Hid & Hkeep & Htext).
  destruct Hc as (Hnd & Hus & Ho). pose proof (lookup_lt_Some _ _ _ Hi) as Hlt. split; [|split].
  - by rewrite (map_insert_same _ _ u) by done.
  - apply Forall_lookup_2. intros j v Hj. destruct (decide (i = j)) as [->|Hne].
    + rewrite list_lookup_insert_eq in Hj by done. by injection Hj as <-.
    + rewrite list_lookup_insert_ne in Hj by done. apply user_counted_insert_ne; [done| |by eapply Forall_lookup_1].
      by eapply lookup_ids_ne.
  - intros m p Hm. rewrite lookup_insert in Hm. destruct (decide (k = m)) as [->|].
    + injection Hm as <-. exists (join_user u'). split; [|split; [done|exact Htext]].
      apply list_elem_of_lookup. exists i. by apply list_lookup_insert_eq.
    + destruct (Ho m p Hm) as (v & (j & Hj)%list_elem_of_lookup & Hvid & Hd).
      destruct (decide (i = j)) as [<-|Hne].
      * assert (v = u) as -> by congruence. exists (join_user u'). split; [apply list_elem_of_lookup; exists i; by apply list_lookup_insert_eq|].
        split; [cbn; congruence|]. destruct Hd as [|Hd]; [by left|right]. by apply Hkeep.
      * exists v. split; [|done]. apply list_elem_of_lookup. exists j. by rewrite list_lookup_insert_ne.
Qed.

(** The end of a session counts one less. *)
Lemma counted_leave us o i u dev now k : counted us o -> us !! i = Some u -> o !! k = Some (pu_UserID u, dev) ->
  counted (alter (decrementUserSession dev now) i us) (delete k o).
Proof.
  intros Hc Hi Hk. destruct (counted_lookup _ _ _ _ Hc Hi) as [(Ha & Hndd & Hd) Hsess]. destruct Hc as (Hnd & Hus & Ho).
  set (u' := decrementUserSession dev now u).
  assert (Hid : forall v, pu_UserID (decrementUserSession dev now v) = pu_UserID v).
  { intros v. unfold decrementUserSession. case_bool_decide; [done|]. cbn. by destruct (findDevice (pu_Devices v) dev) as [[]|]. }
  assert (Hids : map pd_DeviceID (pu_Devices u') = map pd_DeviceID (pu_Devices u)).
  { unfold u', decrementUserSession. case_bool_decide; [done|]. cbn. destruct (findDevice (pu_Devices u) dev) as [[j d]|]; [|done]. by apply map_alter_same. }
  assert (Hact : pu_ActiveSessions u' = decrement (pu_ActiveSessions u)).
  { unfold u', decrementUserSession. case_bool_decide; [done|]. cbn. by destruct (findDevice (pu_Devices u) dev) as [[]|]. }
  assert (Hdec : forall P, P (pu_UserID u, dev) = true -> decrement (count P o) = count P o - 1).
  { intros P HP. pose proof (count_pos P o k _ Hk HP). unfold decrement. destruct (Z.ltb_spec 0 (count P o)); lia. }
  assert (Hkeep : forall d, dev <> pd_DeviceID d ->
    pd_DeviceID d <> [] /\ pd_ActiveSessions d = count (of_device (pu_UserID u) (pd_DeviceID d)) o ->
    pd_DeviceID d <> [] /\ pd_ActiveSessions d = count (of_device (pu_UserID u) (pd_DeviceID d)) (delete k o)).
  { intros d Hne [Hn Hcd]. split; [done|]. erewrite sessions_count_delete by done. rewrite of_device_ne by congruence. lia. }
  assert (Hu' : user_counted (delete k o) u').
  { split; [|split; [by rewrite Hids|]].
    - rewrite Hact, Ha. unfold u'. rewrite Hid, Hdec by apply of_user_eq. erewrite sessions_count_delete by done. by rewrite of_user_eq.
    - unfold u'. rewrite Hid. unfold decrementUserSession. case_bool_decide as E.
      + cbn. eapply Forall_impl; [exact Hd|]. intros d Hcd. apply Hkeep; [|done]. destruct Hcd. congruence.
      + cbn. destruct (findDevice (pu_Devices u) dev) as [[j d]|] eqn:Hf; cbn.
        * apply findDevice_Some in Hf as [Hj Hdid]. eapply (Forall_alter_key pd_DeviceID); [exact Hndd|exact Hj|exact Hd| |].
          -- intros [Hn Hcd]. split; [done|]. cbn. rewrite Hcd, Hdid, Hdec by apply of_device_eq.
             erewrite sessions_count_delete by done. by rewrite of_device_eq.
          -- intros y Hy. apply Hkeep. congruence.
        * apply findDevice_None in Hf. exfalso. destruct (Hsess _ _ Hk eq_refl); done. }
  split; [by rewrite map_alter_same|]. split.
  - apply Forall_lookup_2. intros j v Hj. rewrite list_lookup_alter in Hj. destruct (decide (i = j)) as [<-|Hne].
    + rewrite Hi in Hj. by injection Hj as <-.
    + eapply user_counted_delete_ne; [exact Hk| |by eapply Forall_lookup_1]. by eapply lookup_ids_ne.
  - intros m p [_ Hm]%lookup_delete_Some. destruct (Ho m p Hm) as (v & (j & Hj)%list_elem_of_lookup & Hvid & Hdv).
    destruct (decide (i = j)) as [<-|Hne].
    + assert (v = u) as -> by congruence. exists u'. split; [|split; [unfold u'; by rewrite Hid|by rewrite Hids]].
      apply list_elem_of_lookup. exists i. by rewrite list_lookup_alter, decide_True, Hi.
    + exists v. split; [|done]. apply list_elem_of_lookup. exists j. by rewrite list_lookup_alter, decide_False.
Qed.

(** Removing a device no session is counted under. *)
Lemma counted_remove us o i u j d : counted us o -> us !! i = Some u -> pu_Devices u !! j = Some d -> pd_ActiveSessions d <= 0 ->
  counted (alter (set_devices (take j (pu_Devices u) ++ drop (S j) (pu_Devices u))) i us) o.
Proof.
  intros Hc Hi Hj Hz. destruct (counted_lookup _ _ _ _ Hc Hi) as [(Ha & Hndd & Hd) Hsess]. destruct Hc as (Hnd & Hus & Ho).
  pose proof (take_drop_middle _ _ _ Hj) as E. set (ds := take j (pu_Devices u) ++ drop (S j) (pu_Devices u)).
  assert (Hp : d :: ds ≡ₚ pu_Devices u) by (transitivity (take j (pu_Devices u) ++ d :: drop (S j) (pu_Devices u)); [unfold ds; by rewrite Permutation_middle|by rewrite E]).
  assert (Hn : forall k, o !! k <> Some (pu_UserID u, pd_DeviceID d)).
  { intros k Hk. rewrite <- Hp in Hd. apply Forall_cons in Hd as [[_ Hcd] _].
    pose proof (count_pos _ _ _ _ Hk (of_device_eq _ _)). lia. }
  rewrite <- Hp in Hndd, Hd. apply NoDup_cons in Hndd as [Hnin Hndd]. apply Forall_cons in Hd as [_ Hd].
  split; [by rewrite map_alter_same|]. split.
  - apply Forall_lookup_2. intros m v Hm. rewrite list_lookup_alter in Hm. destruct (decide (i = m)) as [<-|Hne].
    + rewrite Hi in Hm. injection Hm as <-. done.
    + by eapply Forall_lookup_1.
  - intros k p Hk. destruct (Ho k p Hk) as (v & (m & Hm)%list_elem_of_lookup & Hvid & Hdv). destruct (decide (i = m)) as [<-|Hne].
    + assert (v = u) as -> by congruence. exists (set_devices ds u). split; [|split; [done|]].
      * apply list_elem_of_lookup. exists i. by rewrite list_lookup_alter, decide_True, Hi.
      * destruct Hdv as [|Hdv]; [by left|right]. rewrite <- Hp in Hdv. cbn in Hdv. apply elem_of_cons in Hdv as [E'|]; [|done].
        exfalso. apply (Hn k). rewrite Hk. destruct p as [p1 p2]. cbn in *. congruence.
    + exists v. split; [|done]. apply list_elem_of_lookup. exists m. by rewrite list_lookup_alter, decide_False.
Qed.

(** ** Runs *)

Lemma owners_insert ss k s : owners (<[k := s]> ss) = <[k := (ts_user s, ts_device s)]> (owners ss).
Proof. unfold owners. by rewrite fmap_insert. Qed.
Lemma owners_delete ss k : owners (delete k ss) = delete k (owners ss).
Proof. unfold owners. by rewrite fmap_delete. Qed.
Lemma owners_lookup ss k s : ss !! k = Some s -> owners ss !! k = Some (ts_user s, ts_device s).
Proof. intros H. unfold owners. by rewrite lookup_fmap, H. Qed.
Lemma owners_size ss : size (owners ss) = size ss.
Proof. apply map_size_fmap. Qed.

Lemma owners_rebase ss id read : owners (rebased id read ss) = owners ss.
Proof.
  apply map_eq. intros k. unfold owners, rebased. rewrite !lookup_fmap, map_lookup_imap. destruct (ss !! k) as [s|]; [|done]. cbn.
  f_equal. unfold rebase. by case_bool_decide.
Qed.

Lemma owners_resample ss k s c : ss !! k = Some s -> owners (<[k := mkTracked (ts_user s) (ts_device s) c]> ss) = owners ss.
Proof. intros H. rewrite owners_insert. apply insert_id. cbn. by apply owners_lookup. Qed.

Definition t_counted (t : Tracker) : Prop := counted (users t) (owners (tr_sessions t)).

Lemma reset_counted t i g read t' b : applyResetLocked t i g read = (t', b) -> t_counted t ->
  t_counted t' /\ owners (tr_sessions t') = owners (tr_sessions t) /\ tr_nextID t' = tr_nextID t /\
  st_Revision (tr_state t') = st_Revision (tr_state t) /\ dom (tr_sessions t') = dom (tr_sessions t) /\
  (forall u, users t !! i = Some u -> exists u', users t' !! i = Some u' /\ pu_UserID u' = pu_UserID u /\ pu_Devices u' = pu_Devices u).
Proof.
  unfold applyResetLocked, t_counted. intros H Hc. destruct (users t !! i) as [u|] eqn:Hi.
  2: { injection H as <- <-. split_and!; done. }
  destruct (_ <=? _); injection H as <- <-; [split_and!; try done; intros v [= <-]; by exists u|].
  cbn [with_sessions alter_user with_users users tr_sessions tr_nextID tr_state st_Users st_Revision]. rewrite owners_rebase. split_and!; try done.
  - by apply counted_alter.
  - apply set_eq. intros k. unfold rebased. rewrite !elem_of_dom, map_lookup_imap. by destruct (tr_sessions t !! k).
  - intros v [= <-]. change (st_Users (tr_state t)) with (users t). exists (reset_user g u). by rewrite list_lookup_alter, decide_True, Hi.
Qed.

Lemma sample_counted t k s c t' b : tr_sessions t !! k = Some s -> sampleSessionLocked t k s c = (t', b) -> t_counted t ->
  t_counted t' /\ owners (tr_sessions t') = owners (tr_sessions t) /\ tr_nextID t' = tr_nextID t /\
  st_Revision (tr_state t') = st_Revision (tr_state t) /\ dom (tr_sessions t') = dom (tr_sessions t).
Proof.
  unfold sampleSessionLocked, t_counted. intros Hk H Hc. pose proof (owners_resample _ _ _ c Hk) as Ho.
  assert (Hd : dom (<[k := mkTracked (ts_user s) (ts_device s) c]> (tr_sessions t)) = dom (tr_sessions t)).
  { rewrite dom_insert_L. apply elem_of_dom_2 in Hk. set_solver. }
  destruct (findUser _ _) as [[i u]|]; injection H as <- <-;
    cbn [with_sessions alter_user with_users users tr_sessions tr_nextID tr_state st_Users st_Revision]; rewrite Ho; split_and!; try done.
  by apply counted_alter.
Qed.

Section Runs.
Variable too_large : persistedState -> bool.

Inductive op :=
| OpAdmit (e : env) (userID deviceID : list byte)
| OpSample (e : env)
| OpClose (e : env) (k : Z)
| OpSnapshot (e : env)
| OpReset (e : env) (userID : list byte)
| OpRemove (e : env) (userID deviceID : list byte).

Definition apply_op (w : world) (o : op) : world :=
  match o with
  | OpAdmit e u d => (Admit too_large w e u d).1
  | OpSample e => (Sample too_large w e).1
  | OpClose e k => (Close too_large w e k).1
  | OpSnapshot e => (Snapshot w e).1
  | OpReset e u => mkWorld (w_tracker w) (ResetTraffic too_large (w_file w) e u).1
  | OpRemove e u d => mkWorld (w_tracker w) (RemoveOfflineDevice too_large (w_file w) e u d).1
  end.

(** The memory is not ahead of the file: no write has failed. *)
Definition durable (w : world) : Prop :=
  exists f, w_file w = Some f /\ st_Revision (tr_state (w_tracker w)) <= st_Revision f < MaxUint64.

Fixpoint durable_run (w : world) (os : list op) : Prop :=
  durable w /\ match os with [] => True | o :: os => durable_run (apply_op w o) os end.

(** After [n] operations. *)
Record tracked (w : world) (n : Z) : Prop := {
  tk_counted : t_counted (w_tracker w);
  tk_file : forall f, w_file w = Some f -> counted (st_Users f) (owners (tr_sessions (w_tracker w)));
  tk_next : 0 <= tr_nextID (w_tracker w) <= n;
  tk_keys : forall k, k ∈ dom (tr_sessions (w_tracker w)) -> 1 <= k <= tr_nextID (w_tracker w)
}.

Lemma tracked_more w n m : n <= m -> tracked w n -> tracked w m.
Proof. intros H [? ? ? ?]. split; try done. lia. Qed.

Lemma reload_tracked w w1 n : reloadExternalLocked w = Ok w1 -> durable w -> tracked w n ->
  tracked w1 n /\ tr_sessions (w_tracker w1) = tr_sessions (w_tracker w) /\
  exists f, w_file w1 = Some f /\ st_Revision (tr_state (w_tracker w1)) = st_Revision f /\ st_Revision f < MaxUint64.
Proof.
  intros H (f & Hf & Hle & Hlt) [Hc Hfile Hn Hk]. unfold reloadExternalLocked in H. rewrite Hf in H. cbn in H.
  destruct (validateState f); [|done]. cbn in H. destruct (Z.ltb_spec (st_Revision (tr_state (w_tracker w))) (st_Revision f)); injection H as <-.
  - split; [|split; [done|by exists f]]. split; cbn [w_tracker w_file tr_sessions tr_nextID]; [by apply Hfile|intros g Hg; apply Hfile; congruence|done|done].
  - split; [done|]. split; [done|]. exists f. split; [done|]. split; [lia|done].
Qed.

(** A write that keeps the world durable succeeded. *)
Lemma persist_durable w now wr w' x f : persistLocked too_large w now wr = (w', x) -> w_file w = Some f ->
  st_Revision (tr_state (w_tracker w)) = st_Revision f -> st_Revision f < MaxUint64 -> durable w' ->
  x = None /\ w_file w' = Some (tr_state (w_tracker w')) /\ tr_sessions (w_tracker w') = tr_sessions (w_tracker w) /\
  tr_nextID (w_tracker w') = tr_nextID (w_tracker w) /\ users (w_tracker w') = st_Users (sort_state (tr_state (w_tracker w))).
Proof.
  intros H Hf Hr Hlt (g & Hg & Hle & _). unfold persistLocked, writeState in H. destruct (negb _); [|destruct (too_large _); [|destruct wr]].
  all: injection H as <- <-; cbn in *; simplify_eq; try done.
  all: rewrite Hr, saturating_1 in Hle by done; lia.
Qed.

Lemma tracked_unsaved w t n : tracked w n -> t_counted t -> owners (tr_sessions t) = owners (tr_sessions (w_tracker w)) ->
  tr_nextID t = tr_nextID (w_tracker w) -> tracked (mkWorld t (w_file w)) n.
Proof.
  intros [Hc Hf Hn Hk] Ht Ho Hi. split; cbn; [done| |by rewrite Hi|].
  - intros f Hw. rewrite Ho. by apply Hf.
  - intros k Hin. rewrite Hi. apply Hk. unfold owners in Ho. apply (f_equal dom) in Ho. rewrite !dom_fmap_L in Ho. by rewrite <- Ho.
Qed.

Lemma tracked_saved t file now wr w' x f n : persistLocked too_large (mkWorld t file) now wr = (w', x) -> file = Some f ->
  st_Revision (tr_state t) = st_Revision f -> st_Revision f < MaxUint64 -> durable w' ->
  t_counted t -> 0 <= tr_nextID t <= n -> (forall k, k ∈ dom (tr_sessions t) -> 1 <= k <= tr_nextID t) ->
  x = None /\ tracked w' n.
Proof.
  intros H Hf Hr Hlt Hd Hc Hn Hk. destruct (persist_durable _ _ _ _ _ f H Hf Hr Hlt Hd) as (-> & Hfile & Hs & Hi & Hu). cbn in *.
  assert (Hc' : counted (users (w_tracker w')) (owners (tr_sessions t))) by (rewrite Hu; by apply counted_sorted).
  split; [done|]. split; rewrite ?Hs, ?Hi; try done.
  - unfold t_counted. by rewrite Hs.
  - intros g Hg. rewrite Hfile in Hg. injection Hg as <-. exact Hc'.
Qed.

(** [locked] and [policed], by their cases. *)
Lemma locked_cases {A} (w w' : world) (r : res A) (e : env) (body : world -> world * res A) : locked w e body = (w', r) ->
  w' = w \/ exists w1, reloadExternalLocked w = Ok w1 /\ body w1 = (w', r).
Proof.
  unfold locked. destruct (en_lock e); [intros [= <- <-]; by left|]. destruct (reloadExternalLocked w) as [w1|]; [|intros [= <- <-]; by left].
  intros H. right. by exists w1.
Qed.

Lemma policed_cases {A} (w w' : world) (r : res A) (e : env) (body : gmap (list byte) policyUser -> world * res A) : policed w e body = (w', r) ->
  w' = w \/ exists ps, readPolicies (en_policy e) = Ok ps /\ body ps = (w', r).
Proof.
  unfold policed. destruct (readPolicies _) as [ps|]; [|intros [= <- <-]; by left]. intros H. right. by exists ps.
Qed.

Lemma prune_counted t ps t' b : pruneDeletedUsersLocked t ps = (t', b) -> t_counted t ->
  t_counted t' /\ tr_sessions t' = tr_sessions t /\ tr_nextID t' = tr_nextID t /\ st_Revision (tr_state t') = st_Revision (tr_state t).
Proof. intros H Hc. injection H as <- <-. split; [|done]. unfold t_counted, users. cbn. by apply counted_kept. Qed.

Lemma ensure_counted t id t' i : ensureUserLocked t id = (t', i) -> t_counted t ->
  t_counted t' /\ tr_sessions t' = tr_sessions t /\ tr_nextID t' = tr_nextID t /\ st_Revision (tr_state t') = st_Revision (tr_state t) /\
  exists u, users t' !! i = Some u /\ pu_UserID u = id.
Proof.
  unfold ensureUserLocked, t_counted. intros H Hc. destruct (findUser (users t) id) as [[j u]|] eqn:Hf; injection H as <- <-.
  - apply findUser_Some in Hf as [Hj Hid]. split_and!; try done. by exists u.
  - apply findUser_None in Hf. unfold users in *. cbn. split_and!; try done; [by apply counted_new|].
    eexists. split; [by apply list_lookup_middle|done].
Qed.

Lemma next_id_small n m : 0 <= n <= m -> m < MaxUint64 - 1 -> next_id n = n + 1.
Proof.
  intros Hn Hm. unfold next_id, u64, MaxUint64 in *. rewrite Z.mod_small by lia. destruct (Z.eqb_spec (n + 1) 0); [lia|done].
Qed.

Lemma keys_bound (ss : gmap Z trackedSession) n : (forall k, k ∈ dom ss -> 1 <= k <= n) -> 0 <= n -> Z.of_nat (size ss) <= n.
Proof.
  intros H Hn. rewrite <- (size_dom ss). assert (dom ss ⊆ list_to_set (seqZ 1 n)) as Hsub.
  { intros k Hk%H. apply elem_of_list_to_set, elem_of_seqZ. lia. }
  apply subseteq_size in Hsub. rewrite size_list_to_set, length_seqZ in Hsub by apply NoDup_seqZ. lia.
Qed.

Lemma admit_tracked w e u d w' r n : Admit too_large w e u d = (w', r) -> durable w -> durable w' -> tracked w n ->
  n < MaxUint64 - 1 -> tracked w' (n + 1).
Proof.
  intros H Hd Hd' Ht Hn. unfold Admit in H. destruct (negb _); [injection H as <- _; eapply tracked_more; [|done]; lia|].
  apply locked_cases in H as [->|(w1 & Hrl & H)]; [eapply tracked_more; [|done]; lia|].
  destruct (reload_tracked _ _ _ Hrl Hd Ht) as (Ht1 & _ & f & Hf & Hr & Hlt).
  pose proof (tk_next _ _ Ht1) as Hnx. apply (tracked_more _ n (n + 1)) in Ht1; [|lia].
  apply policed_cases in H as [->|(ps & _ & H)]; [done|].
  destruct (pruneDeletedUsersLocked _ ps) as [t1 b1] eqn:Hp.
  destruct (prune_counted _ _ _ _ Hp (tk_counted _ _ Ht1)) as (Hc1 & Hs1 & Hi1 & Hr1).
  assert (Hu1 : tracked (mkWorld t1 (w_file w1)) (n + 1)) by (apply tracked_unsaved; [done|done|by rewrite Hs1|done]).
  destruct (ps !! u) as [policy|]; [|by injection H as <- _]. destruct (negb _); [by injection H as <- _|].
  destruct (_ && _); [by injection H as <- _|].
  destruct (ensureUserLocked t1 u) as [t2 i] eqn:He. destruct (ensure_counted _ _ _ _ He Hc1) as (Hc2 & Hs2 & Hi2 & Hr2 & v & Hv & Hvid).
  destruct (applyResetLocked t2 i _ _) as [t3 b3] eqn:Hrs. destruct (reset_counted _ _ _ _ _ _ Hrs Hc2) as (Hc3 & Ho3 & Hi3 & Hr3 & Hd3 & Hl3).
  assert (Hu3 : tracked (mkWorld t3 (w_file w1)) (n + 1)) by (apply tracked_unsaved; [done|done|congruence|congruence]).
  destruct (Hl3 v Hv) as (v3 & Hv3 & Hid3 & _). rewrite Hv3 in H. destruct (enroll v3 policy d _) as [[v4 text]|] eqn:Hen; [|by injection H as <- _].
  destruct (persistLocked _ _ _ _) as [w2 x] eqn:Hps.
  assert (Hi : tr_nextID t3 = tr_nextID (w_tracker w1)) by congruence.
  assert (Hnext : next_id (tr_nextID t3) = tr_nextID t3 + 1) by (rewrite Hi; by apply (next_id_small _ n)).
  pose proof (tk_keys _ _ Hu3) as Hkeys. cbn in Hkeys.
  assert (Hd2 : durable w2).
  { destruct x; injection H as <- _; [|done]. destruct Hd' as (g & Hg & Hle). by exists g. }
  assert (Hsz : Z.of_nat (size (tr_sessions t3)) <= tr_nextID t3) by (apply keys_bound; [done|lia]).
  eapply tracked_saved in Hps as [-> Hw2]; [by injection H as <- _|exact Hf| |exact Hlt|exact Hd2| | |].
  - cbn. congruence.
  - unfold t_counted, users. cbn. rewrite owners_insert, Hnext. cbn. rewrite <- Hvid, <- Hid3.
    eapply counted_join; [exact Hc3|exact Hv3| |rewrite owners_size; lia|exact Hen].
    unfold owners. rewrite lookup_fmap. destruct (tr_sessions t3 !! _) eqn:E; [|done]. apply elem_of_dom_2, Hkeys in E. lia.
  - cbn. rewrite Hnext. lia.
  - cbn. rewrite Hnext. intros k. rewrite dom_insert, elem_of_union, elem_of_singleton. intros [->|Hk%Hkeys]; lia.
Qed.

(** The loops of [Sample] keep the counts. *)
Lemma resets_counted ps read : forall acc, t_counted acc.1 -> let t' := (foldl (reset_step read) acc ps).1 in
  t_counted t' /\ owners (tr_sessions t') = owners (tr_sessions acc.1) /\ tr_nextID t' = tr_nextID acc.1 /\
  st_Revision (tr_state t') = st_Revision (tr_state acc.1).
Proof.
  induction ps as [|p ps IH]; intros acc Hc; [done|]. cbn zeta. cbn [foldl].
  assert (Hstep : t_counted (reset_step read acc p).1 /\ owners (tr_sessions (reset_step read acc p).1) = owners (tr_sessions acc.1) /\
    tr_nextID (reset_step read acc p).1 = tr_nextID acc.1 /\ st_Revision (tr_state (reset_step read acc p).1) = st_Revision (tr_state acc.1)).
  { unfold reset_step. destruct (findUser _ _) as [[i u]|]; [|done]. destruct (applyResetLocked _ _ _ _) as [t b] eqn:E.
    apply reset_counted in E as (? & ? & ? & ? & _); done. }
  destruct Hstep as (H1 & <- & <- & <-). by apply IH.
Qed.

Lemma samples_counted ids read : forall acc, t_counted acc.1 -> let t' := (foldl (sample_step read) acc ids).1 in
  t_counted t' /\ owners (tr_sessions t') = owners (tr_sessions acc.1) /\ tr_nextID t' = tr_nextID acc.1 /\
  st_Revision (tr_state t') = st_Revision (tr_state acc.1).
Proof.
  induction ids as [|k ids IH]; intros acc Hc; [done|]. cbn zeta. cbn [foldl].
  assert (Hstep : t_counted (sample_step read acc k).1 /\ owners (tr_sessions (sample_step read acc k).1) = owners (tr_sessions acc.1) /\
    tr_nextID (sample_step read acc k).1 = tr_nextID acc.1 /\ st_Revision (tr_state (sample_step read acc k).1) = st_Revision (tr_state acc.1)).
  { unfold sample_step. destruct (tr_sessions acc.1 !! k) as [s|] eqn:Hk; [|done]. destruct (sampleSessionLocked _ _ _ _) as [t b] eqn:E.
    eapply sample_counted in E as (? & ? & ? & ? & _); done. }
  destruct Hstep as (H1 & <- & <- & <-). by apply IH.
Qed.

Lemma sample_tracked w e w' r n : Sample too_large w e = (w', r) -> durable w -> durable w' -> tracked w n -> tracked w' n.
Proof.
  intros H Hd Hd' Ht. unfold Sample in H.
  apply locked_cases in H as [->|(w1 & Hrl & H)]; [done|].
  destruct (reload_tracked _ _ _ Hrl Hd Ht) as (Ht1 & _ & f & Hf & Hr & Hlt).
  apply policed_cases in H as [->|(ps & _ & H)]; [done|].
  destruct (pruneDeletedUsersLocked _ ps) as [t1 b1] eqn:Hp.
  destruct (prune_counted _ _ _ _ Hp (tk_counted _ _ Ht1)) as (Hc1 & Hs1 & Hi1 & Hr1).
  destruct (apply_resets t1 _ _) as [t2 b2] eqn:E2. unfold apply_resets in E2.
  destruct (resets_counted (map snd (map_to_list ps)) (en_reset e) (t1, false) Hc1) as (Hc2 & Ho2 & Hi2 & Hr2). rewrite E2 in Hc2, Ho2, Hi2, Hr2. cbn in *.
  destruct (sample_sessions t2 _ _) as [t3 b3] eqn:E3. unfold sample_sessions in E3.
  destruct (samples_counted (map fst (map_to_list (tr_sessions t2))) (en_read e) (t2, false) Hc2) as (Hc3 & Ho3 & Hi3 & Hr3). rewrite E3 in Hc3, Ho3, Hi3, Hr3. cbn in *.
  assert (Hu3 : tracked (mkWorld t3 (w_file w1)) n) by (apply tracked_unsaved; [done|done|congruence|congruence]).
  destruct (negb _); [by injection H as <- _|]. destruct (persistLocked _ _ _ _) as [w2 x] eqn:Hps.
  assert (w2 = w') as -> by by destruct x; injection H as <- _.
  eapply tracked_saved in Hps as [-> Hw2]; [exact Hw2|exact Hf|congruence|exact Hlt|exact Hd'|exact Hc3| |].
  - apply Hu3.
  - apply Hu3.
Qed.

Lemma close_tracked w e k w' r n : Close too_large w e k = (w', r) -> durable w -> durable w' -> tracked w n -> tracked w' n.
Proof.
  intros H Hd Hd' Ht. unfold Close in H. destruct (tr_sessions (w_tracker w) !! k) as [s|] eqn:Hk; [|by injection H as <- _].
  apply locked_cases in H as [->|(w1 & Hrl & H)]; [done|].
  destruct (reload_tracked _ _ _ Hrl Hd Ht) as (Ht1 & Hs1 & f & Hf & Hr & Hlt). rewrite <- Hs1 in Hk.
  destruct (sampleSessionLocked _ _ _ _) as [t1 b1] eqn:E1.
  destruct (sample_counted _ _ _ _ _ _ Hk E1 (tk_counted _ _ Ht1)) as (Hc1 & Ho1 & Hi1 & Hr1 & Hd1).
  destruct (persistLocked _ _ _ _) as [w2 x] eqn:Hps. assert (w2 = w') as -> by by destruct x; injection H as <- _.
  pose proof (owners_lookup _ _ _ Hk) as Hok. rewrite <- Ho1 in Hok.
  assert (Hfind : exists i u, findUser (users t1) (ts_user s) = Some (i, u)).
  { destruct (findUser (users t1) (ts_user s)) as [[i u]|] eqn:E; [by exists i, u|]. apply findUser_None in E. exfalso. apply E.
    destruct Hc1 as (_ & _ & Ho). destruct (Ho k _ Hok) as (u & Hu & Hid & _). apply elem_map. by exists u. }
  destruct Hfind as (i & u & Hfind).
  change (users (with_sessions t1 (delete k (tr_sessions t1)))) with (users t1) in Hps. rewrite Hfind in Hps. apply findUser_Some in Hfind as [Hi Hid].
  eapply tracked_saved in Hps as [-> Hw2]; [exact Hw2|exact Hf|cbn; congruence|exact Hlt|exact Hd'| | |].
  - unfold t_counted, users. cbn. rewrite owners_delete. rewrite <- Hid in Hok. by apply (counted_leave _ _ _ u).
  - cbn. rewrite Hi1. apply Ht1.
  - cbn. intros m. rewrite dom_delete, elem_of_difference, Hd1, Hi1. intros [Hm _]. by apply Ht1.
Qed.

Lemma file_tracked w f' n : tracked w n -> (forall f, f' = Some f -> counted (st_Users f) (owners (tr_sessions (w_tracker w)))) ->
  tracked (mkWorld (w_tracker w) f') n.
Proof. intros [? ? ? ?] H. by split. Qed.

Lemma write_counted file s wr f' s' x o : writeState too_large file s wr = (f', s', x) ->
  (forall f, file = Some f -> counted (st_Users f) o) -> counted (st_Users s) o ->
  forall f, f' = Some f -> counted (st_Users f) o.
Proof.
  intros H Hf Hs f Hf'. unfold writeState in H. destruct (negb _); [|destruct (too_large _); [|destruct wr]]; injection H as <- _ _; auto; [|done].
  injection Hf' as <-. by apply counted_sorted.
Qed.

Lemma read_file file s : readState file = Ok s -> file = Some s.
Proof. unfold readState. destruct file as [f|]; [|done]. destruct (validateState f); [|done]. by intros [= ->]. Qed.

Lemma reset_traffic_tracked w e u n : tracked w n -> tracked (mkWorld (w_tracker w) (ResetTraffic too_large (w_file w) e u).1) n.
Proof.
  intros Ht. apply file_tracked; [done|]. pose proof (tk_file _ _ Ht) as Hf. unfold ResetTraffic.
  destruct (negb _); [exact Hf|]. destruct (en_lock e); [exact Hf|]. destruct (readState _) as [s|] eqn:Hrd; [|exact Hf].
  apply read_file in Hrd. destruct (findUser _ _) as [[i v]|]; [|exact Hf]. destruct (writeState _ _ _ _) as [[f' s'] x] eqn:Hw. cbn.
  eapply write_counted; [exact Hw|exact Hf|]. cbn. apply counted_alter; [done|]. by apply Hf.
Qed.

Lemma remove_tracked w e u d n : tracked w n -> tracked (mkWorld (w_tracker w) (RemoveOfflineDevice too_large (w_file w) e u d).1) n.
Proof.
  intros Ht. apply file_tracked; [done|]. pose proof (tk_file _ _ Ht) as Hf. unfold RemoveOfflineDevice.
  destruct (_ || _); [exact Hf|]. destruct (en_lock e); [exact Hf|]. destruct (readState _) as [s|] eqn:Hrd; [|exact Hf].
  apply read_file in Hrd. destruct (findUser _ _) as [[i v]|] eqn:Hfu; [|exact Hf]. apply findUser_Some in Hfu as [Hi _].
  destruct (findDevice _ _) as [[j dv]|] eqn:Hfd; [|exact Hf]. apply findDevice_Some in Hfd as [Hj _].
  destruct (Z.ltb_spec 0 (pd_ActiveSessions dv)); [exact Hf|]. destruct (writeState _ _ _ _) as [[f' s'] x] eqn:Hw. cbn.
  eapply write_counted; [exact Hw|exact Hf|]. cbn. eapply counted_remove; [by apply Hf|exact Hi|exact Hj|done].
Qed.

Lemma snapshot_tracked w e w' r n : Snapshot w e = (w', r) -> durable w -> tracked w n -> tracked w' n.
Proof.
  intros H Hd Ht. unfold Snapshot in H. apply locked_cases in H as [->|(w1 & Hrl & H)]; [done|]. injection H as <- _.
  by destruct (reload_tracked _ _ _ Hrl Hd Ht).
Qed.

Lemma op_tracked w o n : durable w -> durable (apply_op w o) -> tracked w n -> n < MaxUint64 - 1 -> tracked (apply_op w o) (n + 1).
Proof.
  intros Hd Hd' Ht Hn. assert (Hmore : forall v, tracked v n -> tracked v (n + 1)) by (intros v; apply tracked_more; lia).
  destruct o as [e u d|e|e k|e|e u|e u d]; cbn [apply_op] in *.
  - destruct (Admit _ _ _ _ _) as [w' r] eqn:E. by eapply admit_tracked.
  - destruct (Sample _ _ _) as [w' r] eqn:E. apply Hmore. by eapply sample_tracked.
  - destruct (Close _ _ _ _) as [w' r] eqn:E. apply Hmore. by eapply close_tracked.
  - destruct (Snapshot _ _) as [w' r] eqn:E. apply Hmore. by eapply snapshot_tracked.
  - by apply Hmore, reset_traffic_tracked.
  - by apply Hmore, remove_tracked.
Qed.

Lemma run_tracked os : forall w n, durable_run w os -> tracked w n -> n + len os < MaxUint64 ->
  tracked (foldl apply_op w os) (n + len os).
Proof.
  induction os as [|o os IH]; intros w n Hd Ht Hn; [unfold len; cbn; eapply tracked_more; [|done]; lia|]. cbn [foldl].
  destruct Hd as [Hd Hd']. unfold len in *. cbn [length] in *.
  assert (durable (apply_op w o)) by (destruct os; apply Hd'). replace (n + Z.of_nat (S (length os))) with (n + 1 + Z.of_nat (length os)) by lia.
  apply IH; [done| |lia]. apply op_tracked; [done..|lia].
Qed.

Lemma valid_nodups st : validateState st = true -> NoDup (map pu_UserID (st_Users st)) /\
  Forall (fun u => NoDup (map pd_DeviceID (pu_Devices u)) /\ Forall (fun d => pd_DeviceID d <> []) (pu_Devices u)) (st_Users st).
Proof.
  unfold validateState. intros H. guards. match goal with H : bool_decide _ = true |- _ => apply bool_decide_eq_true in H; rename H into Hnd end.
  split; [done|]. match goal with H : forallb valid_user _ = true |- _ => rename H into Hv end.
  apply Forall_forall. intros u Hin%list_elem_of_In. rewrite forallb_forall in Hv. specialize (Hv u Hin). unfold valid_user in Hv.
  guards. split; [by eapply bool_decide_eq_true_1|]. match goal with H : forallb valid_device _ = true |- _ => rename H into Hdv end.
  apply Forall_forall. intros d Hd%list_elem_of_In E. rewrite forallb_forall in Hdv. specialize (Hdv d Hd). unfold valid_device in Hdv.
  rewrite E in Hdv. done.
Qed.

Lemma new_tracked file e f' w : New too_large file e = (f', Ok w) -> durable w -> tracked w 0.
Proof.
  unfold New. intros H Hd. destruct (readPolicies _) as [ps|]; [|done]. destruct (en_lock e); [done|].
  destruct (match file with None => _ | Some _ => _ end) as [s|] eqn:Hs; [|done].
  destruct (persistLocked _ _ _ _) as [w1 x] eqn:Hp. destruct x; [done|]. injection H as _ <-.
  assert (Hv : NoDup (map pu_UserID (st_Users s)) /\
    Forall (fun u => NoDup (map pd_DeviceID (pu_Devices u)) /\ Forall (fun d => pd_DeviceID d <> []) (pu_Devices u)) (st_Users s)).
  { destruct file as [f|]; [|injection Hs as <-; by split; constructor]. cbn in Hs. destruct (validateState f) eqn:Hv; [|done].
    injection Hs as <-. by apply valid_nodups. }
  destruct Hv as [Hnd Hdv]. pose proof (counted_clear _ Hnd Hdv) as Hc. clear Hs Hd.
  unfold persistLocked, writeState in Hp. destruct (negb _); [done|]. destruct (too_large _); [done|]. destruct (en_written e); [|done..].
  injection Hp as <-. apply counted_sorted with (s := mkState stateVersion 0 0 (map clear_user (st_Users s))) in Hc. cbn in Hc.
  split; cbn; [| |lia|].
  - unfold t_counted, owners. cbn. by rewrite fmap_empty.
  - intros f [= <-]. cbn. unfold owners. by rewrite fmap_empty.
  - intros k. by rewrite dom_empty, elem_of_empty.
Qed.

(** C19: as long as the writes of the state file succeed, after any sequence of
    admissions, samples, closes, snapshots and changes of the file by an
    administrator, the session counters of every user and device are the numbers
    of its open sessions, every open session has its user (and device) entry,
    and a snapshot shows a user online exactly when it has an open session. *)
Theorem sessions_counted file e f0 w os : New too_large file e = (f0, Ok w) -> durable_run w os -> len os < MaxUint64 ->
  let t := w_tracker (foldl apply_op w os) in
  (forall u, u ∈ users t -> pu_ActiveSessions u = count (of_user (pu_UserID u)) (owners (tr_sessions t)) /\
     (us_Online (user_snapshot u) = true <-> exists k s, tr_sessions t !! k = Some s /\ ts_user s = pu_UserID u) /\
     forall d, d ∈ pu_Devices u -> pd_ActiveSessions d = count (of_device (pu_UserID u) (pd_DeviceID d)) (owners (tr_sessions t))) /\
  (forall k s, tr_sessions t !! k = Some s -> exists u, u ∈ users t /\ pu_UserID u = ts_user s /\
     (ts_device s = [] \/ ts_device s ∈ map pd_DeviceID (pu_Devices u))).
Proof.
  intros Hnew Hd Hlen t. assert (durable w) as Hw by (destruct os; apply Hd).
  pose proof (run_tracked os w 0 Hd (new_tracked _ _ _ _ Hnew Hw) ltac:(lia)) as [(Hnd & Hu & Ho) _ _ _]. fold t in Hnd, Hu, Ho.
  rewrite Forall_forall in Hu. split.
  - intros u Hin. destruct (Hu u Hin) as (Ha & _ & Hdv). split; [done|]. split.
    + cbn. rewrite Ha, Z.ltb_lt. split.
      * intros Hpos. destruct (decide (map_Forall (fun _ s => ts_user s <> pu_UserID u) (tr_sessions t))) as [Hall|Hex].
        -- exfalso. rewrite count_zero in Hpos; [lia|]. intros k p Hk. unfold owners in Hk. rewrite lookup_fmap in Hk.
           destruct (tr_sessions t !! k) as [s|] eqn:E; [|done]. injection Hk as <-. apply of_user_ne. intros E'. by eapply Hall.
        -- apply map_not_Forall in Hex as (k & s & Hk & Hn); [|apply _]. exists k, s. split; [done|]. destruct (decide (ts_user s = pu_UserID u)); [done|by destruct Hn].
      * intros (k & s & Hk & E). eapply count_pos; [by apply owners_lookup|]. rewrite E. apply of_user_eq.
    + intros d Hd'. rewrite Forall_forall in Hdv. by apply Hdv.
  - intros k s Hk. destruct (Ho k _ (owners_lookup _ _ _ Hk)) as (u & ? & ? & ?). by exists u.
Qed.
End Runs.

(** ** Traffic *)

(** The two directions. *)
Definition bytes_up (up : bool) (c : Counters) : Z := if up then UploadBytes c else DownloadBytes c.
Definition recorded (up : bool) (u : persistedUser) : Z := if up then pu_UploadBytes u else pu_DownloadBytes u.

(** The bytes the sessions of a user carried since they were last counted. *)
Definition unsampled (up : bool) (read : Z -> Counters) (id : list byte) (k : Z) (s : trackedSession) : Z :=
  if bool_decide (ts_user s = id) then delta (bytes_up up (read k)) (bytes_up up (ts_last s)) else 0.
Definition pending (up : bool) (read : Z -> Counters) (id : list byte) (ss : gmap Z trackedSession) : Z :=
  map_fold (fun k s acc => unsampled up read id k s + acc) 0 ss.

(** All of a user's traffic, counted and not yet counted. *)
Definition traffic (up : bool) (read : Z -> Counters) (id : list byte) (t : Tracker) : option Z :=
  (fun p => Z.min MaxUint64 (recorded up p.2 + pending up read id (tr_sessions t))) <$> findUser (users t) id.

Lemma delta_nonneg a b : 0 <= delta a b.
Proof. unfold delta. destruct (Z.leb_spec b a); lia. Qed.
Lemma delta_self a : delta a a = 0.
Proof. unfold delta. rewrite Z.leb_refl. lia. Qed.
Lemma unsampled_nonneg up read id k s : 0 <= unsampled up read id k s.
Proof. unfold unsampled. case_bool_decide; [apply delta_nonneg|lia]. Qed.

Lemma pending_insert up read id ss k s : ss !! k = None ->
  pending up read id (<[k := s]> ss) = unsampled up read id k s + pending up read id ss.
Proof. intros H. unfold pending. apply (map_fold_insert_L (fun k s acc => unsampled up read id k s + acc) 0 k s ss); [intros; lia|done]. Qed.

Lemma pending_delete up read id ss k s : ss !! k = Some s ->
  pending up read id ss = unsampled up read id k s + pending up read id (delete k ss).
Proof. intros H. rewrite <- (insert_delete_id ss k s) at 1 by done. apply pending_insert, lookup_delete_eq. Qed.

Lemma pending_update up read id ss k s s' : ss !! k = Some s ->
  pending up read id (<[k := s']> ss) = pending up read id ss - unsampled up read id k s + unsampled up read id k s'.
Proof.
  intros H. rewrite (pending_delete _ _ _ ss k s H). rewrite <- (insert_delete_eq ss k s').
  rewrite pending_insert by apply lookup_delete_eq. lia.
Qed.

Lemma pending_nonneg up read id ss : 0 <= pending up read id ss.
Proof.
  unfold pending. apply (map_fold_weak_ind (fun r _ => 0 <= r)); [lia|]. intros k s m r _ Hr. pose proof (unsampled_nonneg up read id k s). lia.
Qed.

Lemma saturating_min a b : 0 <= b -> saturatingAdd a b = Z.min MaxUint64 (a + b) \/ MaxUint64 < a.
Proof. intros Hb. unfold saturatingAdd. destruct (Z.ltb_spec (MaxUint64 - a) b); lia. Qed.

Lemma findUser_cons u us id : findUser (u :: us) id =
  if decide (pu_UserID u = id) then Some (0%nat, u) else prod_map S (fun x => x) <$> findUser us id.
Proof. reflexivity. Qed.

Lemma findUser_alter f i us id : (forall u, pu_UserID (f u) = pu_UserID u) ->
  findUser (alter f i us) id = (fun p => (p.1, if decide (p.1 = i) then f p.2 else p.2)) <$> findUser us id.
Proof.
  intros Hf. revert i. induction us as [|u us IH]; intros i; [done|]. destruct i as [|i].
  - change (alter f 0%nat (u :: us)) with (f u :: us). rewrite !findUser_cons, Hf. destruct (decide _); [done|].
    destruct (findUser us id) as [[j v]|]; done.
  - change (alter f (S i) (u :: us)) with (u :: alter f i us). rewrite !findUser_cons, IH. destruct (decide _); [done|].
    destruct (findUser us id) as [[j v]|]; [|done]. cbn. f_equal. f_equal. by destruct (decide (j = i)), (decide (S j = S i)); try lia.
Qed.

Lemma findUser_elem us id i u : NoDup (map pu_UserID us) -> us !! i = Some u -> pu_UserID u = id -> findUser us id = Some (i, u).
Proof.
  intros Hnd Hi Hid. destruct (findUser us id) as [[j v]|] eqn:E.
  - apply findUser_Some in E as [Hj Hv]. assert (i = j) as ->; [|by simplify_eq].
    eapply (NoDup_lookup (map pu_UserID us)); [done| |]; rewrite lookup_map; [by rewrite Hi|]. rewrite Hj. cbn. congruence.
  - apply findUser_None in E. exfalso. apply E. apply elem_map. exists u. split; [by eapply list_elem_of_lookup_2|done].
Qed.

(** Changing a user but not its traffic. *)
Lemma traffic_alter up read id t f i : (forall u, pu_UserID (f u) = pu_UserID u /\ recorded up (f u) = recorded up u) ->
  traffic up read id (alter_user t f i) = traffic up read id t.
Proof.
  intros Hf. unfold traffic, alter_user, users. cbn. rewrite findUser_alter by apply Hf.
  destruct (findUser _ _) as [[j u]|]; [|done]. cbn. destruct (decide (j = i)); [|done]. destruct (Hf u) as [_ ->]. done.
Qed.

Lemma traffic_sample up id t k s read t' b : (forall u, u ∈ users t -> recorded up u <= MaxUint64) ->
  tr_sessions t !! k = Some s -> sampleSessionLocked t k s (read k) = (t', b) ->
  traffic up read id t' = traffic up read id t /\ (forall u, u ∈ users t' -> recorded up u <= MaxUint64) /\
  tr_sessions t' = <[k := mkTracked (ts_user s) (ts_device s) (read k)]> (tr_sessions t).
Proof.
  intros Hmax Hk H. unfold sampleSessionLocked in H. set (s' := mkTracked _ _ _) in *.
  assert (Hz : unsampled up read id k s' = 0) by (unfold unsampled; case_bool_decide; [apply delta_self|done]).
  destruct (findUser (users t) (ts_user s)) as [[i u]|] eqn:Hf; injection H as <- _.
  - split; [|split; [|done]].
    + unfold traffic, users in *. cbn. rewrite findUser_alter by done. rewrite (pending_update _ _ _ _ _ s) by done. rewrite Hz.
      change (findUser (users (with_sessions t _)) id) with (findUser (st_Users (tr_state t)) id).
      destruct (findUser (st_Users (tr_state t)) id) as [[j v]|] eqn:Hj; [|done]. cbn. f_equal.
      destruct (decide (j = i)) as [->|Hne].
      * assert (v = u) as -> by (apply findUser_Some in Hf as [], Hj as []; congruence).
        assert (ts_user s = id) as Hid by (apply findUser_Some in Hf as [], Hj as []; congruence).
        assert (recorded up u <= MaxUint64) by (apply Hmax; apply findUser_Some in Hf as [? _]; by eapply list_elem_of_lookup_2).
        pose proof (pending_nonneg up read id (delete k (tr_sessions t))). rewrite (pending_delete up read id _ k s) by done.
        unfold unsampled. rewrite bool_decide_eq_true_2 by done.
        pose proof (delta_nonneg (bytes_up up (read k)) (bytes_up up (ts_last s))) as Hnn.
        replace (recorded up (add_traffic _ _ u)) with (saturatingAdd (recorded up u) (delta (bytes_up up (read k)) (bytes_up up (ts_last s)))) by by destruct up.
        destruct (saturating_min (recorded up u) _ Hnn) as [->|]; lia.
      * assert (ts_user s <> id) as Hid.
        { intros E. apply findUser_Some in Hf as Hf'. subst id. rewrite Hf in Hj. by injection Hj as -> _. }
        unfold unsampled. rewrite bool_decide_eq_false_2 by done. f_equal. lia.
    + intros v Hv. unfold alter_user, users in *. cbn in Hv. apply list_elem_of_lookup in Hv as [j Hv]. rewrite list_lookup_alter in Hv.
      destruct (decide (i = j)); [|apply Hmax; by eapply list_elem_of_lookup_2].
      destruct (st_Users (tr_state t) !! i) as [w|] eqn:Hw; [|done]. injection Hv as <-.
      assert (recorded up w <= MaxUint64) by (apply Hmax; by eapply list_elem_of_lookup_2).
      unfold add_traffic, saturatingAdd. destruct up; cbn; repeat case_match; zb; unfold recorded in *; lia.
  - split; [|split; [exact Hmax|done]]. unfold traffic. change (users (with_sessions t _)) with (users t).
    destruct (findUser (users t) id) as [[j v]|] eqn:Hj; [|done]. cbn. f_equal. rewrite (pending_update _ _ _ _ _ s) by done.
    rewrite Hz. assert (ts_user s <> id) as Hid by congruence. unfold unsampled. rewrite bool_decide_eq_false_2 by done. f_equal. lia.
Qed.

(** What the traffic of a user depends on: the totals of its entry and its
    sessions. *)
Definition account (id : list byte) (t : Tracker) : option (Z * Z * Z) * gmap Z trackedSession :=
  ((fun p => (pu_ResetGeneration p.2, pu_UploadBytes p.2, pu_DownloadBytes p.2)) <$> findUser (users t) id,
   filter (fun p => ts_user p.2 = id) (tr_sessions t)).

Lemma pending_filter up read id ss : pending up read id ss = pending up read id (filter (fun p => ts_user p.2 = id) ss).
Proof.
  induction ss as [|k s ss Hk IH] using map_ind; [by rewrite map_filter_empty|]. rewrite pending_insert by done.
  destruct (decide (ts_user s = id)) as [E|E].
  - rewrite map_filter_insert_True by done. rewrite pending_insert by (apply map_lookup_filter_None_2; by left). by rewrite IH.
  - rewrite map_filter_insert_not'; [|done|by rewrite Hk]. rewrite <- IH. unfold unsampled. by rewrite bool_decide_eq_false_2.
Qed.

Lemma account_traffic up read id t : traffic up read id t =
  (fun p => Z.min MaxUint64 ((if up then p.1.2 else p.2) + pending up read id (account id t).2)) <$> (account id t).1.
Proof.
  unfold traffic, account. cbn. rewrite <- pending_filter. destruct (findUser (users t) id) as [[i u]|]; [|done]. cbn.
  by destruct up.
Qed.

Lemma rebased_other id id' read ss : id' <> id ->
  filter (fun p => ts_user p.2 = id) (rebased id' read ss) = filter (fun p => ts_user p.2 = id) ss.
Proof.
  intros Hne. apply map_eq. intros k. apply option_eq. intros s. rewrite !map_lookup_filter_Some. unfold rebased. rewrite map_lookup_imap.
  cbn. unfold rebase. split.
  - intros [H E]. destruct (ss !! k) as [r|]; [|done]. cbn in H. injection H as <-. case_bool_decide; [cbn in E; congruence|done].
  - intros [-> E]. cbn. split; [|done]. by rewrite bool_decide_eq_false_2 by congruence.
Qed.

Lemma rebased_own id read ss : filter (fun p => ts_user p.2 = id) (rebased id read ss) =
  rebased id read (filter (fun p => ts_user p.2 = id) ss).
Proof.
  apply map_eq. intros k. apply option_eq. intros s. rewrite map_lookup_filter_Some. unfold rebased. rewrite !map_lookup_imap.
  cbn. split.
  - intros [H E]. destruct (ss !! k) as [r|] eqn:Hr; [|done]. cbn in H. injection H as <-.
    assert (ts_user r = id) by (unfold rebase in E; by case_bool_decide). by rewrite (map_lookup_filter_Some_2 _ _ _ _ Hr).
  - intros H. destruct (filter _ ss !! k) as [r|] eqn:Hr; [|done]. cbn in H. injection H as <-. apply map_lookup_filter_Some in Hr as [Hr E].
    rewrite Hr. cbn in *. split; [done|]. unfold rebase. by case_bool_decide.
Qed.

(** What a reset does to an account. *)
Definition reset_account (id : list byte) (generation : Z) (read : Z -> Counters) (a : option (Z * Z * Z) * gmap Z trackedSession)
    : option (Z * Z * Z) * gmap Z trackedSession :=
  match a.1 with
  | Some (g, _, _) => if generation <=? g then a else (Some (generation, 0, 0), rebased id read a.2)
  | None => a
  end.

Lemma reset_own t i g read u t' b id : applyResetLocked t i g read = (t', b) -> findUser (users t) id = Some (i, u) ->
  account id t' = reset_account id g read (account id t).
Proof.
  intros H Hf. pose proof (findUser_Some _ _ _ _ Hf) as [Hi Hid]. unfold applyResetLocked in H. rewrite Hi in H.
  unfold account. rewrite Hf. unfold reset_account. cbn. destruct (g <=? pu_ResetGeneration u); injection H as <- _; cbn.
  - by rewrite Hf.
  - unfold alter_user, users in *. cbn. rewrite findUser_alter by done. rewrite Hf. cbn. rewrite decide_True by done. cbn.
    by rewrite Hid, rebased_own.
Qed.

Lemma reset_other t i g read u t' b id : applyResetLocked t i g read = (t', b) -> users t !! i = Some u -> pu_UserID u <> id ->
  account id t' = account id t.
Proof.
  intros H Hi Hid. unfold applyResetLocked in H. rewrite Hi in H. destruct (g <=? _); injection H as <- _; [done|].
  unfold account. f_equal.
  - unfold with_sessions, alter_user, users in *. cbn. rewrite findUser_alter by done.
    destruct (findUser (st_Users (tr_state t)) id) as [[j v]|] eqn:Hj; [|done]. cbn. apply findUser_Some in Hj as [Hj Hv].
    rewrite decide_False; [done|]. intros ->. congruence.
  - by apply rebased_other.
Qed.

(** The loop over the policies, whose identifiers are distinct. *)
Lemma resets_account ps read id : NoDup (map pl_ID ps) -> forall acc,
  account id (foldl (reset_step read) acc ps).1 =
  match list_find (fun p => pl_ID p = id) ps with
  | Some (_, p) => reset_account id (pl_TrafficResetGeneration p) read (account id acc.1)
  | None => account id acc.1
  end.
Proof.
  assert (Hother : forall acc p, pl_ID p <> id -> account id (reset_step read acc p).1 = account id acc.1).
  { intros acc p Hne. unfold reset_step. destruct (findUser _ _) as [[i u]|] eqn:Hf; [|done].
    destruct (applyResetLocked _ _ _ _) as [t b] eqn:E. apply findUser_Some in Hf as [Hi Hid]. eapply reset_other; [exact E|exact Hi|congruence]. }
  induction ps as [|p ps IH]; intros Hnd acc; [done|]. cbn [map] in Hnd. apply NoDup_cons in Hnd as [Hn Hnd]. cbn [foldl list_find].
  rewrite IH by done. destruct (decide (pl_ID p = id)) as [E|Hne].
  - destruct (list_find _ ps) as [[j q]|] eqn:Hl.
    { exfalso. apply Hn. apply list_find_Some in Hl as (Hj & Hq & _). apply elem_map. exists q. split; [by eapply list_elem_of_lookup_2|congruence]. }
    unfold reset_step. rewrite E. destruct (findUser (users acc.1) id) as [[i u]|] eqn:Hf.
    + destruct (applyResetLocked _ _ _ _) as [t b] eqn:Er. cbn. by eapply reset_own.
    + unfold reset_account, account. by rewrite Hf.
  - rewrite Hother by done. by destruct (list_find _ ps) as [[j q]|].
Qed.

Lemma policies_find (ps : gmap (list byte) policyUser) id : map_Forall (fun i p => pl_ID p = i) ps ->
  NoDup (map pl_ID (map snd (map_to_list ps))) /\
  match list_find (fun p => pl_ID p = id) (map snd (map_to_list ps)) with Some (_, p) => Some p | None => None end = ps !! id.
Proof.
  intros Hps. assert (E : map pl_ID (map snd (map_to_list ps)) = (map_to_list ps).*1).
  { rewrite map_map. apply map_ext_in. intros [i p] Hin%list_elem_of_In%elem_of_map_to_list. cbn. by apply Hps. }
  split; [rewrite E; apply NoDup_fst_map_to_list|]. destruct (list_find _ _) as [[j p]|] eqn:Hl.
  - apply list_find_Some in Hl as (Hj & Hid & _). apply list_elem_of_lookup_2, elem_map in Hj as ([i q] & Hin & <-).
    apply elem_of_map_to_list in Hin. cbn in *. by rewrite <- Hid, (Hps _ _ Hin).
  - apply list_find_None in Hl. rewrite Forall_forall in Hl. destruct (ps !! id) as [p|] eqn:Hp; [|done]. exfalso.
    apply (Hl p); [|by apply Hps]. apply elem_map. exists (id, p). split; [by apply elem_of_map_to_list|done].
Qed.

Lemma prune_account t ps t' b id i u : pruneDeletedUsersLocked t ps = (t', b) -> findUser (users t) id = Some (i, u) ->
  kept ps u = true -> account id t' = account id t.
Proof.
  intros H Hf Hk. injection H as <- _. unfold account. f_equal. unfold with_users, users in *. cbn. revert i Hf.
  induction (st_Users (tr_state t)) as [|v us IH]; intros i Hf; [done|]. rewrite findUser_cons in Hf |- *. cbn [List.filter].
  destruct (decide (pu_UserID v = id)) as [E|Hne].
  - injection Hf as _ ->. rewrite Hk. rewrite findUser_cons, decide_True by done. done.
  - destruct (findUser us id) as [[j w]|] eqn:Hj; [|done]. injection Hf as _ ->. specialize (IH j eq_refl).
    destruct (kept ps v); [rewrite findUser_cons, decide_False by done|]; rewrite <- ?IH.
    + by destruct (findUser _ id) as [[]|].
    + done.
Qed.

Lemma findUser_sorted us id : NoDup (map pu_UserID us) ->
  (fun p => (pu_ResetGeneration p.2, pu_UploadBytes p.2, pu_DownloadBytes p.2)) <$> findUser (map sort_devices (merge_sort user_le us)) id =
  (fun p => (pu_ResetGeneration p.2, pu_UploadBytes p.2, pu_DownloadBytes p.2)) <$> findUser us id.
Proof.
  intros Hnd. pose proof (merge_sort_Permutation user_le us) as Hp.
  assert (Hnd' : NoDup (map pu_UserID (map sort_devices (merge_sort user_le us)))) by by rewrite map_map, Hp.
  destruct (findUser us id) as [[i u]|] eqn:Hf.
  - apply findUser_Some in Hf as [Hi Hid]. assert (sort_devices u ∈ map sort_devices (merge_sort user_le us)) as [j Hj]%list_elem_of_lookup.
    { apply elem_map. exists u. split; [rewrite Hp; by eapply list_elem_of_lookup_2|done]. }
    rewrite (findUser_elem _ _ _ _ Hnd' Hj); done.
  - apply findUser_None in Hf. destruct (findUser _ id) as [[j v]|] eqn:Hj; [|done]. exfalso. apply Hf.
    apply findUser_Some in Hj as [Hj Hid]. apply list_elem_of_lookup_2, elem_map in Hj as (w & Hw & <-). rewrite Hp in Hw.
    apply elem_map. by exists w.
Qed.

Lemma persist_account too_large w now wr w' x id : persistLocked too_large w now wr = (w', x) ->
  account id (w_tracker w') = account id (w_tracker w).
Proof.
  unfold persistLocked, writeState. intros H. destruct (validateState _) eqn:Hv; cbn [negb] in H; [|by injection H as <- _].
  assert (NoDup (map pu_UserID (users (w_tracker w)))) as Hnd by (apply valid_nodups in Hv as [Hnd _]; exact Hnd).
  destruct (too_large _); [|destruct wr]; injection H as <- _; unfold account; f_equal; by apply findUser_sorted.
Qed.

Lemma bounded_permuted up (us vs : list persistedUser) : (forall v, v ∈ vs -> exists u, u ∈ us /\ recorded up v = recorded up u) ->
  (forall u, u ∈ us -> recorded up u <= MaxUint64) -> forall v, v ∈ vs -> recorded up v <= MaxUint64.
Proof. intros H Hb v Hv. destruct (H v Hv) as (u & Hu & ->). by apply Hb. Qed.

Definition bounded (up : bool) (t : Tracker) : Prop := forall u, u ∈ users t -> recorded up u <= MaxUint64.

Lemma persist_bounded too_large w now wr w' x up : persistLocked too_large w now wr = (w', x) ->
  bounded up (w_tracker w) -> bounded up (w_tracker w').
Proof.
  unfold persistLocked, writeState. intros H Hb.
  assert (Hs : forall u, u ∈ map sort_devices (merge_sort user_le (users (w_tracker w))) -> recorded up u <= MaxUint64).
  { apply (bounded_permuted up (users (w_tracker w))); [|exact Hb]. intros v (u & Hu & <-)%elem_map. exists u.
    rewrite merge_sort_Permutation in Hu. split; [done|]. by destruct up. }
  destruct (negb _); [|destruct (too_large _); [|destruct wr]]; injection H as <- _; done.
Qed.

(** The sampling loop: whatever the order, the traffic stays, and every session
    it went over is counted up to what was read. *)
Lemma samples_traffic up id read ids : forall acc, bounded up acc.1 ->
  let t' := (foldl (sample_step read) acc ids).1 in
  traffic up read id t' = traffic up read id acc.1 /\ bounded up t' /\
  forall k s, tr_sessions t' !! k = Some s -> ts_last s = read k \/ k ∉ ids /\ tr_sessions acc.1 !! k = Some s.
Proof.
  induction ids as [|k ids IH]; intros acc Hb; cbn zeta.
  - split; [done|]. split; [done|]. intros k s Hs. right. split; [apply not_elem_of_nil|done].
  - cbn [foldl]. assert (Hstep : bounded up (sample_step read acc k).1 /\ traffic up read id (sample_step read acc k).1 = traffic up read id acc.1 /\
      forall j s, tr_sessions (sample_step read acc k).1 !! j = Some s -> ts_last s = read j \/ j <> k /\ tr_sessions acc.1 !! j = Some s).
    { unfold sample_step. destruct (tr_sessions acc.1 !! k) as [s|] eqn:Hk.
      - destruct (sampleSessionLocked _ _ _ _) as [t b] eqn:E. destruct (traffic_sample up id _ _ _ _ _ _ Hb Hk E) as (Ht & Hb' & Hs).
        split; [exact Hb'|]. split; [exact Ht|]. cbn. intros j r Hj. rewrite Hs, lookup_insert in Hj. destruct (decide (k = j)) as [->|].
        + left. by injection Hj as <-.
        + right. by split.
      - split; [done|]. split; [done|]. intros j r Hj. right. split; [congruence|done]. }
    destruct Hstep as (Hb' & Ht' & Hs'). destruct (IH _ Hb') as (Ht & Hb2 & Hs). split; [congruence|]. split; [done|].
    intros j s Hj. destruct (Hs j s Hj) as [|[Hn Hl]]; [by left|]. destruct (Hs' j s Hl) as [|[Hne Hl']]; [by left|]. right.
    split; [|done]. by apply not_elem_of_cons.
Qed.

Lemma pending_done up read id ss : (forall k s, ss !! k = Some s -> ts_last s = read k) -> pending up read id ss = 0.
Proof.
  induction ss as [|k s ss Hk IH] using map_ind; [done|]. intros H. rewrite pending_insert by done. rewrite IH.
  - unfold unsampled. case_bool_decide; [|done]. rewrite (H k s) by apply lookup_insert_eq. by rewrite delta_self.
  - intros j r Hj. apply H. rewrite lookup_insert_ne; [done|]. congruence.
Qed.

Lemma bounded_reset up t i g read t' b : applyResetLocked t i g read = (t', b) -> bounded up t -> bounded up t'.
Proof.
  unfold applyResetLocked. intros H Hb. destruct (users t !! i) as [u|] eqn:Hi; [|by injection H as <- _].
  destruct (g <=? _); injection H as <- _; [done|]. intros v Hv. unfold with_sessions, alter_user, users in *. cbn in Hv.
  apply list_elem_of_lookup in Hv as [j Hv]. rewrite list_lookup_alter in Hv.
  destruct (decide (i = j)) as [<-|]; [|apply Hb; by eapply list_elem_of_lookup_2]. destruct (st_Users _ !! i); [|done].
  injection Hv as <-. by destruct up.
Qed.

Lemma bounded_resets up ps read : forall acc, bounded up acc.1 -> bounded up (foldl (reset_step read) acc ps).1.
Proof.
  induction ps as [|p ps IH]; intros acc Hb; [done|]. cbn [foldl]. apply IH. unfold reset_step.
  destruct (findUser _ _) as [[i u]|]; [|done]. destruct (applyResetLocked _ _ _ _) as [t b] eqn:E. by eapply bounded_reset.
Qed.

(** A reset the policy asks for and the entry has not seen. *)
Definition reset_due (ps : gmap (list byte) policyUser) (id : list byte) (u : persistedUser) : bool :=
  match ps !! id with Some p => negb (pl_TrafficResetGeneration p <=? pu_ResetGeneration u) | None => false end.

Lemma readPolicies_ids file ps : readPolicies file = Ok ps -> map_Forall (fun i p => pl_ID p = i) ps.
Proof.
  unfold readPolicies. destruct file as [index|]; [|done]. cbn. destruct (pi_Users index) as [us|]; [|done].
  destruct (_ || _); [done|]. intros [= <-] i p Hp. apply elem_of_list_to_map_2 in Hp. apply elem_map in Hp as (q & _ & [= <- <-]). done.
Qed.

(** a sample counts every byte exactly once.  The recorded traffic of a
    user that [Sample] keeps becomes all of its traffic: what was recorded plus
    what its sessions carried since they were last counted, or, when the policy
    file asks for a reset, only what they carried after it; the sum saturates,
    and afterwards nothing is left to count, whether or not writing the state
    file succeeded. *)
Theorem sample_counts_once too_large w e w' r w1 ps id i u up :
  Sample too_large w e = (w', r) -> en_lock e = None -> reloadExternalLocked w = Ok w1 -> readPolicies (en_policy e) = Ok ps ->
  findUser (users (w_tracker w1)) id = Some (i, u) -> kept ps u = true -> bounded up (w_tracker w1) ->
  exists i' u', findUser (users (w_tracker w')) id = Some (i', u') /\
    pending up (en_read e) id (tr_sessions (w_tracker w')) = 0 /\
    recorded up u' = Z.min MaxUint64 (if reset_due ps id u then pending up (en_read e) id (rebased id (en_reset e) (tr_sessions (w_tracker w1)))
                       else recorded up u + pending up (en_read e) id (tr_sessions (w_tracker w1))).
Proof.
  intros H Hl Hr Hps Hf Hk Hb. unfold Sample, locked, policed in H. rewrite Hl, Hr, Hps in H.
  destruct (pruneDeletedUsersLocked _ ps) as [t1 b1] eqn:Hp. pose proof (prune_account _ _ _ _ _ _ _ Hp Hf Hk) as A1.
  assert (Hb1 : bounded up t1).
  { injection Hp as <- _. intros v Hv. apply Hb. unfold with_users, users in *. cbn in Hv.
    apply list_elem_of_In, List.filter_In in Hv as [Hv _]. by apply list_elem_of_In. }
  destruct (policies_find ps id (readPolicies_ids _ _ Hps)) as [Hnd Hfind].
  destruct (apply_resets t1 _ _) as [t2 b2] eqn:E2.
  pose proof (resets_account _ (en_reset e) id Hnd (t1, false)) as A2. pose proof (bounded_resets up (map snd (map_to_list ps)) (en_reset e) (t1, false) Hb1) as Hb2.
  unfold apply_resets in E2. rewrite E2 in A2, Hb2. cbn [fst] in A2, Hb2.
  destruct (sample_sessions t2 _ _) as [t3 b3] eqn:E3.
  destruct (samples_traffic up id (en_read e) (map fst (map_to_list (tr_sessions t2))) (t2, false) Hb2) as (A3 & Hb3 & Hlast).
  unfold sample_sessions in E3. rewrite E3 in A3, Hb3, Hlast. cbn [fst] in A3, Hb3, Hlast.
  assert (Hzero : pending up (en_read e) id (tr_sessions t3) = 0).
  { apply pending_done. intros k s Hs. destruct (Hlast k s Hs) as [|[Hn Hk2]]; [done|]. exfalso. apply Hn.
    apply elem_map. exists (k, s). split; [by apply elem_of_map_to_list|done]. }
  assert (A4 : account id (w_tracker w') = account id t3).
  { destruct (negb _); [by injection H as <- _|]. destruct (persistLocked _ _ _ _) as [w2 x] eqn:Hpl.
    apply (persist_account _ _ _ _ _ _ id) in Hpl. cbn in Hpl. destruct x; by injection H as <- _. }
  assert (T : traffic up (en_read e) id (w_tracker w') = Some (Z.min MaxUint64 (if reset_due ps id u
      then pending up (en_read e) id (rebased id (en_reset e) (tr_sessions (w_tracker w1)))
      else recorded up u + pending up (en_read e) id (tr_sessions (w_tracker w1))))).
  { rewrite account_traffic, A4, <- account_traffic, A3, account_traffic, A2. rewrite A1. unfold reset_due. rewrite <- Hfind.
    unfold account. rewrite Hf. cbn [fmap option_fmap option_map fst snd].
    destruct (list_find _ _) as [[j p]|]; cbn [fst snd reset_account].
    - unfold reset_account. cbn [fst snd]. destruct (_ <=? _); cbn [negb fst snd].
      + rewrite <- pending_filter. by destruct up.
      + rewrite <- rebased_own, <- pending_filter. by destruct up.
    - rewrite <- pending_filter. by destruct up. }
  assert (Hpend : pending up (en_read e) id (tr_sessions (w_tracker w')) = 0).
  { rewrite pending_filter. apply (f_equal snd) in A4. unfold account in A4. cbn [snd] in A4. rewrite A4. by rewrite <- pending_filter. }
  assert (Hb' : bounded up (w_tracker w')).
  { destruct (negb _); [by injection H as <- _|]. destruct (persistLocked _ _ _ _) as [w2 x] eqn:Hpl.
    apply (persist_bounded _ _ _ _ _ _ up) in Hpl; [|done]. destruct x; by injection H as <- _. }
  unfold traffic in T. destruct (findUser (users (w_tracker w')) id) as [[i' u']|] eqn:Hf'; [|done]. exists i', u'.
  split; [done|]. split; [exact Hpend|]. cbn in T. rewrite Hpend, Z.add_0_r in T. injection T as <-.
  apply findUser_Some in Hf' as [Hf' _]. specialize (Hb' u' ltac:(by eapply list_elem_of_lookup_2)). lia.
Qed.

(** ** Admission *)

Lemma enroll_limit u policy dev now u' text : enroll u policy dev now = Ok (u', text) ->
  pu_UserID u' = pu_UserID u /\
  (0 < pl_MaxDevices policy <= maximumConfiguredDevices -> is_zero dev = false ->
     MarshalDeviceText dev = Ok text /\ text ∈ map pd_DeviceID (pu_Devices u') /\
     len (pu_Devices u') <= Z.max (pl_MaxDevices policy) (len (pu_Devices u))).
Proof.
  unfold enroll. intros H. destruct (is_zero dev) eqn:Hz; [by injection H as <- <-|].
  assert (Hm : exists t, MarshalDeviceText dev = Ok t) by (unfold MarshalDeviceText; rewrite Hz; by eexists).
  destruct Hm as [t Hm]. rewrite Hm in H. destruct (findDevice _ _) as [[j d]|] eqn:Hf.
  - injection H as <- <-. split; [done|]. intros _ _. split; [done|]. cbn. rewrite map_alter_same by done.
    apply findDevice_Some in Hf as [Hj Hid]. split; [apply elem_map; exists d; split; [by eapply list_elem_of_lookup_2|done]|].
    unfold len. rewrite length_alter. lia.
  - destruct (_ && _) eqn:Hlim; [done|]. destruct (maximumDevicesPerUser <=? _) eqn:Hmax.
    + injection H as <- <-. split; [done|]. intros Hp _. exfalso. zb.
      apply andb_false_iff in Hlim as [Hlim|Hlim]; zb; unfold maximumConfiguredDevices, maximumDevicesPerUser in *; lia.
    + injection H as <- <-. split; [done|]. intros Hp _. split; [done|]. cbn. split.
      * rewrite map_app, elem_of_app. right. by left.
      * unfold len in *. rewrite length_app. cbn. apply andb_false_iff in Hlim as [Hlim|Hlim]; zb; lia.
Qed.

Lemma reset_lookup t i g read t' b j v : applyResetLocked t i g read = (t', b) -> users t' !! j = Some v ->
  exists u, users t !! j = Some u /\ pu_UserID u = pu_UserID v /\ pu_Devices u = pu_Devices v.
Proof.
  unfold applyResetLocked. intros H Hj. destruct (users t !! i) as [u|] eqn:Hi; [|injection H as <- _; by exists v].
  destruct (g <=? _); injection H as <- _; [by exists v|]. unfold with_sessions, alter_user, users in *. cbn in Hj.
  rewrite list_lookup_alter in Hj. destruct (decide (i = j)) as [<-|]; [|by exists v]. rewrite Hi in Hj. injection Hj as <-. by exists u.
Qed.

Lemma persist_ok too_large w now wr w' : persistLocked too_large w now wr = (w', None) ->
  w_file w' = Some (tr_state (w_tracker w')) /\ tr_sessions (w_tracker w') = tr_sessions (w_tracker w) /\
  users (w_tracker w') = map sort_devices (merge_sort user_le (users (w_tracker w))).
Proof.
  unfold persistLocked, writeState. intros H. destruct (negb _); [done|]. destruct (too_large _); [done|]. destruct wr; [|done..].
  by injection H as <-.
Qed.

Lemma kept_find ps us id i u j v : NoDup (map pu_UserID us) -> findUser (List.filter (kept ps) us) id = Some (i, u) ->
  findUser us id = Some (j, v) -> u = v.
Proof.
  intros Hnd Hi Hj. apply findUser_Some in Hi as [Hi Hu], Hj as [Hj Hv].
  apply list_elem_of_lookup_2, list_elem_of_In, List.filter_In in Hi as [Hi _]. apply list_elem_of_In, list_elem_of_lookup in Hi as [m Hm].
  assert (m = j) as ->; [|congruence]. eapply (NoDup_lookup (map pu_UserID us)); [done| |]; rewrite lookup_map; [by rewrite Hm|].
  rewrite Hj. cbn. congruence.
Qed.

(** a session is admitted only for an active user of the policy file; when
    the policy limits devices the client must name its device, the session is
    counted under that enrolled device, and enrolling does not take the user
    past the limit (a user already past it keeps its devices).  The session is
    open, counts from the counters it started with, and is in the file. *)
Theorem admit_enforces_limits too_large w e id dev w' k w1 ps :
  Admit too_large w e id dev = (w', Ok k) -> reloadExternalLocked w = Ok w1 -> readPolicies (en_policy e) = Ok ps ->
  NoDup (map pu_UserID (users (w_tracker w1))) ->
  exists p s u', validUserID id = true /\ ps !! id = Some p /\ pl_Status p = active /\
    tr_sessions (w_tracker w') !! k = Some s /\ ts_user s = id /\ ts_last s = en_read e k /\
    w_file w' = Some (tr_state (w_tracker w')) /\
    u' ∈ users (w_tracker w') /\ pu_UserID u' = id /\
    (0 < pl_MaxDevices p ->
       is_zero dev = false /\ MarshalDeviceText dev = Ok (ts_device s) /\ ts_device s ∈ map pd_DeviceID (pu_Devices u') /\
       len (pu_Devices u') <= Z.max (pl_MaxDevices p) (match findUser (users (w_tracker w1)) id with Some (_, u) => len (pu_Devices u) | None => 0 end)).
Proof.
  intros H Hr Hps Hnd. unfold Admit in H. destruct (validUserID id) eqn:Hv; [|done]. cbn [negb] in H.
  unfold locked, policed in H. destruct (en_lock e); [done|]. rewrite Hr, Hps in H.
  destruct (pruneDeletedUsersLocked _ ps) as [t1 b1] eqn:Hp. destruct (ps !! id) as [p|] eqn:Hid; [|done].
  case_bool_decide as Hst; [|done]. cbn [negb] in H. destruct (_ && _) eqn:Hreq; [done|].
  destruct (ensureUserLocked t1 id) as [t2 i] eqn:He. destruct (applyResetLocked t2 i _ _) as [t3 b3] eqn:Hrs.
  destruct (users t3 !! i) as [u3|] eqn:Hu3; [|done]. destruct (enroll u3 p dev _) as [[u4 text]|] eqn:Hen; [|done].
  destruct (persistLocked _ _ _ _) as [w2 [x|]] eqn:Hpl; [done|]. injection H as <- <-.
  assert (Hmaxp : pl_MaxDevices p <= maximumConfiguredDevices).
  { clear -Hps Hid. unfold readPolicies in Hps. destruct (en_policy e) as [index|]; [|done]. cbn in Hps. destruct (pi_Users index) as [us|]; [|done].
    destruct (_ || _) eqn:Hg; [done|]. injection Hps as <-. apply elem_of_list_to_map_2, elem_map in Hid as (q & Hq & [= _ ->]).
    guards. match goal with Hf : forallb valid_policy _ = true |- _ => rewrite forallb_forall in Hf; specialize (Hf p (proj1 (list_elem_of_In _ _) Hq)); rename Hf into Hvp end.
    unfold valid_policy in Hvp. guards. zb. lia. }
  (* the entry of the user, before enrolling *)
  assert (Hentry : exists u2, users t2 !! i = Some u2 /\ pu_UserID u2 = id /\
    len (pu_Devices u2) <= match findUser (users (w_tracker w1)) id with Some (_, u) => len (pu_Devices u) | None => 0 end).
  { injection Hp as <- _. unfold ensureUserLocked in He. change (users (with_users (w_tracker w1) ?l)) with l in He.
    destruct (findUser (List.filter (kept ps) (users (w_tracker w1))) id) as [[m u]|] eqn:Hm; injection He as <- <-.
    - destruct (findUser (users (w_tracker w1)) id) as [[j v]|] eqn:Hj.
      + pose proof (kept_find ps _ _ _ _ _ _ Hnd Hm Hj) as <-. apply findUser_Some in Hm as [Hm Hmid]. exists u. done.
      + exfalso. apply findUser_None in Hj. apply findUser_Some in Hm as [Hm Hmid]. apply Hj, elem_map. exists u. split; [|done].
        apply list_elem_of_lookup_2, list_elem_of_In, List.filter_In in Hm as [Hm _]. by apply list_elem_of_In.
    - eexists. split; [by apply list_lookup_middle|]. split; [done|]. cbn. destruct (findUser (users (w_tracker w1)) id) as [[]|]; unfold len; cbn; lia. }
  destruct Hentry as (u2 & Hu2 & Hid2 & Hlen2).
  destruct (reset_lookup _ _ _ _ _ _ _ _ Hrs Hu3) as (u2' & Hu2' & Hid3 & Hdev3). assert (u2' = u2) as -> by congruence.
  destruct (enroll_limit _ _ _ _ _ _ Hen) as [Hid4 Hlim]. apply persist_ok in Hpl as (Hfile & Hss & Hus).
  change (users (w_tracker (mkWorld ?t _))) with (users t) in Hus. set (t4 := with_users t3 _) in *.
  eexists p, _, (sort_devices (join_user u4)). split; [done|]. split; [done|]. split; [done|].
  split; [rewrite Hss; apply lookup_insert_eq|]. split; [done|]. split; [done|]. split; [exact Hfile|]. split.
  { rewrite Hus. apply elem_map. exists (join_user u4). split; [|done]. rewrite merge_sort_Permutation.
    apply list_elem_of_lookup. exists i. apply list_lookup_insert_eq. by eapply lookup_lt_Some. }
  split; [cbn; congruence|]. intros Hpos. assert (Hz : is_zero dev = false).
  { apply andb_false_iff in Hreq as [Hreq|Hreq]; [|done]. zb. lia. }
  destruct (Hlim (conj Hpos Hmaxp) Hz) as (Hm & Hin & Hle). split; [done|]. split; [exact Hm|]. cbn [ts_device sort_devices pu_Devices join_user].
  split; [by rewrite merge_sort_Permutation|]. rewrite <- Hdev3 in Hle. unfold len in *.
  rewrite (Permutation_length (merge_sort_Permutation device_le _)). lia.
Qed.

(** *** Example runs *)
Module UsageExample.
Definition alice : list byte := bytes_of "alice".
Definition bob : list byte := bytes_of "bob".
Definition device : list byte := repeat Byte.x11 16.
Definition fits (_ : persistedState) := false.
Definition policies (generation : Z) : res policyIndex :=
  Ok (mkPolicyIndex 1 (Some [mkPolicyUser alice active 1 generation; mkPolicyUser bob active 0 0])).
Definition at_ (now bytes : Z) (wr : written) : env :=
  mkEnv None (policies 0) now (fun _ => mkCounters bytes 0) (fun _ => mkCounters bytes (2 * bytes)) wr.

Definition started : world := match (New fits None (at_ 1 0 Stored)).2 with Ok w => w | Err _ => mkWorld (mkTracker (mkState 0 0 0 []) ∅ 0) None end.
Definition ops : list op := [OpAdmit (at_ 2 10 Stored) bob []; OpAdmit (at_ 3 20 Stored) alice device; OpSample (at_ 4 50 Stored)].
Definition sampled : world := foldl (apply_op fits) started ops.
Definition admitted : world := foldl (apply_op fits) started (take 2 ops).

Lemma ops_durable : durable_run fits started ops.
Proof.
  cbn [durable_run ops]. repeat split.
  all: eexists; split; [vm_compute; reflexivity|vm_compute; split; congruence].
Qed.

Lemma sessions_counted_witness : (exists f, New fits None (at_ 1 0 Stored) = (f, Ok started)) /\ durable_run fits started ops /\
  forall k s, tr_sessions (w_tracker sampled) !! k = Some s -> exists u, u ∈ users (w_tracker sampled) /\ pu_UserID u = ts_user s.
Proof.
  assert (Hnew : New fits None (at_ 1 0 Stored) = (w_file started, Ok started)) by (vm_compute; reflexivity).
  split; [by eexists|]. split; [exact ops_durable|]. intros k s Hk.
  destruct (sessions_counted fits None (at_ 1 0 Stored) _ started ops Hnew ops_durable ltac:(reflexivity)) as [_ H].
  destruct (H k s Hk) as (u & Hu & Hid & _). exists u. split; [exact Hu|exact Hid].
Defined.

(** Alice carried 30 bytes between the admission at 20 and the sample at 50. *)
Definition alice_user : persistedUser := default (mkUser [] 0 0 0 None 0 []) (snd <$> findUser (users (w_tracker admitted)) alice).
Definition policy_map : gmap (list byte) policyUser := match readPolicies (policies 0) with Ok ps => ps | Err _ => ∅ end.

Lemma policies_read : readPolicies (policies 0) = Ok policy_map.
Proof.
  assert (H : is_ok (readPolicies (policies 0)) = true) by (vm_compute; reflexivity). unfold policy_map.
  destruct (readPolicies (policies 0)); [reflexivity|discriminate H].
Qed.

Lemma sample_counts_once_witness : exists i u, findUser (users (w_tracker sampled)) alice = Some (i, u) /\ recorded true u = 30.
Proof.
  assert (Hb : bounded true (w_tracker admitted)).
  { assert (Hall : forallb (fun u => recorded true u <=? MaxUint64) (users (w_tracker admitted)) = true) by (vm_compute; reflexivity).
    intros u Hu%list_elem_of_In. rewrite forallb_forall in Hall. apply Z.leb_le, Hall, Hu. }
  destruct (sample_counts_once fits admitted (at_ 4 50 Stored) sampled (Ok tt) admitted policy_map alice 0 alice_user true) as (i & u & Hf & _ & Hr).
  - vm_compute. reflexivity.
  - reflexivity.
  - vm_compute. reflexivity.
  - exact policies_read.
  - vm_compute. reflexivity.
  - vm_compute. reflexivity.
  - exact Hb.
  - exists i, u. split; [exact Hf|]. rewrite Hr. vm_compute. reflexivity.
Defined.

Definition before : world := foldl (apply_op fits) started (take 1 ops).
Lemma admit_enforces_limits_witness : exists w k s, Admit fits before (at_ 3 20 Stored) alice device = (w, Ok k) /\
  tr_sessions (w_tracker w) !! k = Some s /\ ts_user s = alice.
Proof.
  destruct (admit_enforces_limits fits before (at_ 3 20 Stored) alice device admitted 2 before policy_map) as (p & s & u & _ & _ & _ & Hs & Hu & _).
  - vm_compute. reflexivity.
  - vm_compute. reflexivity.
  - exact policies_read.
  - assert (Hd : bool_decide (NoDup (map pu_UserID (users (w_tracker before)))) = true) by (vm_compute; reflexivity).
    by apply bool_decide_eq_true in Hd.
  - exists admitted, 2, s. split; [vm_compute; reflexivity|]. split; [exact Hs|exact Hu].
Defined.

(** [Admit] keeps a pointer into [state.Users] across the sort in [writeState]:
    when writing then fails, the rollback takes the session off another user.
    Bob is online with one session; admitting Alice fails; Bob's session is no
    longer counted and Alice counts one that does not exist. *)
Definition failed : world := (Admit fits before (at_ 3 20 (NotStored (External 5))) alice device).1.
Example failed_admission_hits_other_user :
  pu_ActiveSessions <$> (snd <$> findUser (users (w_tracker before)) bob) = Some 1 /\
  (Admit fits before (at_ 3 20 (NotStored (External 5))) alice device).2 = Err (External 5) /\
  pu_ActiveSessions <$> (snd <$> findUser (users (w_tracker failed)) bob) = Some 0 /\
  pu_ActiveSessions <$> (snd <$> findUser (users (w_tracker failed)) alice) = Some 1 /\
  size (tr_sessions (w_tracker failed)) = 1%nat.
Proof. vm_compute. repeat split; reflexivity. Qed.
End UsageExample.
