(* ===== verification/Cluster.v ===== *)
(** * The cluster model (internal/cluster)

    The administrator's description of a cluster (model.go): nodes, routes and
    the access of the users, their validation, route matching and order; the
    resolution of a user's route with administrator policy first (relay.go,
    client_route.go); the requests of the control plane (credential_sync.go,
    geodata.go, relay.go); the signed catalog of a user (catalog.go).

    A Go map that is only asked for membership is the list of its keys.  JSON,
    Ed25519 and the GeoIP evaluator are parameters. *)
From stdpp Require Import prelude list sorting.
From S2P Require Import Prelude Text Netip.

(** ** Data *)

Definition StateVersion : Z := 1.
Definition MaxNodes : Z := 32.
Definition MaxRoutes : Z := 512.
Definition MaxUsers : Z := 10000.
Definition MaxRouteHops : Z := 3.

Definition RoleMaster : list byte := bytes_of "master".
Definition RoleIngress : list byte := bytes_of "ingress".
Definition RoleRelay : list byte := bytes_of "relay".
Definition RoleEgress : list byte := bytes_of "egress".

(** A time is an instant in nanoseconds, 0 the zero time. *)
Record Node := mkNode {
  nd_ID : list byte; nd_Name : list byte; nd_Region : list byte; nd_Roles : list (list byte);
  nd_PublicIdentity : list byte; nd_PublicAddresses : list (list byte); nd_NP2Endpoint : list byte;
  nd_HTTPSPath : list byte; nd_WebRTCPath : list byte; nd_HTTP3Path : list byte; nd_RequireDatagrams : bool;
  nd_Enabled : bool; nd_ClientVisible : bool; nd_CredentialID : list byte; nd_HostKeySHA256 : list byte;
  nd_ProvisionedAt : Z; nd_UpdatedAt : Z
}.

Definition RouteSourceAdmin : list byte := bytes_of "admin".
Definition RouteSourceClient : list byte := bytes_of "client".
Definition ProtocolTCP : list byte := bytes_of "tcp".
Definition ProtocolUDP : list byte := bytes_of "udp".

Record PortRange := mkPorts { From : Z; To : Z }.

Record RouteMatch := mkMatch {
  DomainSuffixes : list (list byte); CIDRs : list (list byte); GeoIPCountries : list (list byte);
  GeoSiteCategories : list (list byte); PortRanges : list PortRange; Protocols : list (list byte)
}.

Definition RouteActionDirect : list byte := bytes_of "direct".
Definition RouteActionCurrent : list byte := bytes_of "current".
Definition RouteActionNode : list byte := bytes_of "node".
Definition RouteActionChain : list byte := bytes_of "chain".
Definition RouteActionBlock : list byte := bytes_of "block".
Definition RouteActionAuto : list byte := bytes_of "auto".

Record RouteAction := mkAction { Kind : list byte; NodeIDs : list (list byte) }.

Record Route := mkRoute {
  rt_ID : list byte; rt_Name : list byte; rt_Priority : Z; rt_Enabled : bool; rt_Source : list byte; rt_Mandatory : bool;
  rt_Match : RouteMatch; rt_Action : RouteAction
}.

Record UserAccess := mkAccess {
  ua_UserID : list byte; AllowedNodeIDs : list (list byte); AllowedRouteIDs : list (list byte);
  AllowAutoSelection : bool; AllowClientRoutes : bool; ua_Revision : Z
}.

Record State := mkState {
  cs_Version : Z; ClusterID : list byte; Revision : Z; Nodes : list Node; Routes : list Route; Access : list UserAccess; UpdatedAt : Z
}.

Record Target := mkTarget { Domain : list byte; Address : Addr; Port : Z; Protocol : list byte }.

#[global] Instance PortRange_eq_dec : EqDecision PortRange.
Proof. solve_decision. Defined.
#[global] Instance RouteMatch_eq_dec : EqDecision RouteMatch.
Proof. solve_decision. Defined.
#[global] Instance RouteAction_eq_dec : EqDecision RouteAction.
Proof. solve_decision. Defined.
#[global] Instance Route_eq_dec : EqDecision Route.
Proof. solve_decision. Defined.

(** ** Validation *)

(** The loops over the characters of a string: a character outside ASCII is
    refused, as are the bytes of its encoding. *)
Definition validIdentifier (value : list byte) (maximum : Z) : bool :=
  negb (bool_decide (value = []) || (maximum <? len value))
  && forallb (fun '(i, c) => is_lower c || is_dec c || ((0 <? i)%nat && (is_hyphen c || is_underscore c))) (imap (fun i c => (i, c)) value).

Definition validOpaqueID (value : list byte) (maximum : Z) : bool :=
  negb (bool_decide (value = []) || (maximum <? len value))
  && forallb (fun c => is_lower c || is_upper c || is_dec c || is_hyphen c || is_underscore c) value.

Definition validGeoRuleName (value : list byte) (maximum : Z) : bool :=
  negb (bool_decide (value = []) || (maximum <? len value))
  && forallb (fun '(i, c) => is_lower c || is_dec c || ((0 <? i)%nat && (is_hyphen c || is_underscore c || (b2z c =? 33) || (b2z c =? 64))))
       (imap (fun i c => (i, c)) value).

Definition validDisplay (value : list byte) (maximum : Z) : bool :=
  trimmed value && (0 <? len value) && (len value <=? maximum) && negb (has_byte x0d value || has_byte x0a value || has_byte x00 value).

Definition validLabel (label : list byte) : bool :=
  negb (bool_decide (label = []) || (63 <? len label) || (byte_at label 0 =? 45) || (byte_at label (length label - 1) =? 45))
  && forallb (fun c => is_lower c || is_dec c || is_hyphen c) label.

Definition validDomain (value : list byte) : bool :=
  negb (bool_decide (value = []) || (253 <? len value) || negb (bool_decide (value = ToLower value)) || HasSuffix value [x2e])
  && forallb validLabel (Split x2e value).

Definition containsRole (roles : list (list byte)) (wanted : list byte) : bool := existsb (fun r => bool_decide (r = wanted)) roles.
Definition containsProtocol (protocols : list (list byte)) (wanted : list byte) : bool := existsb (fun p => bool_decide (p = wanted)) protocols.

Fixpoint duplicates (values seen : list (list byte)) : bool :=
  match values with
  | [] => false
  | v :: values => if negb (validIdentifier v 128) then true else if bool_decide (v ∈ seen) then true else duplicates values (v :: seen)
  end.
Definition hasDuplicates (values : list (list byte)) : bool := duplicates values [].

Fixpoint valid_roles (roles seen : list (list byte)) : bool :=
  match roles with
  | [] => true
  | r :: roles =>
      if negb (bool_decide (r = RoleMaster) || bool_decide (r = RoleIngress) || bool_decide (r = RoleRelay) || bool_decide (r = RoleEgress)) then false
      else if bool_decide (r ∈ seen) then false else valid_roles roles (r :: seen)
  end.

(** Every error of the package here is [ErrInvalidState]; [true] is nil. *)
Definition validateNode (node : Node) : bool :=
  if negb (validIdentifier (nd_ID node) 64) || negb (validDisplay (nd_Name node) 96) || negb (validDisplay (nd_Region node) 96)
     || negb (validDomain (nd_PublicIdentity node)) || (len (nd_PublicAddresses node) =? 0) || (8 <? len (nd_PublicAddresses node))
     || negb (validOpaqueID (nd_CredentialID node) 128) || negb (HasPrefix (nd_HostKeySHA256 node) (bytes_of "SHA256:"))
     || (nd_ProvisionedAt node =? 0) || (nd_UpdatedAt node =? 0) || (len (nd_Roles node) =? 0) || (4 <? len (nd_Roles node)) then false
  else
    match SplitHostPort (nd_NP2Endpoint node) with
    | None => false
    | Some (host, port) =>
        if bool_decide (host = []) || bool_decide (port = []) then false
        else
          forallb (fun raw => match ParseAddr raw with Some a => IsGlobalUnicast a | None => false end) (nd_PublicAddresses node)
          && valid_roles (nd_Roles node) []
    end.

Definition valid_suffix (s : list byte) : bool := negb (negb (bool_decide (s = ToLower s)) || negb (validDomain s)).
Definition valid_cidr (raw : list byte) : bool :=
  match ParsePrefix raw with Some p => bool_decide (PrefixString p = raw) | None => false end.
Definition valid_geo (maximum : Z) (s : list byte) : bool := validGeoRuleName s maximum && bool_decide (s = ToLower s).
Definition valid_ports (p : PortRange) : bool := negb ((From p =? 0) || (To p <? From p)).
Definition valid_protocol (p : list byte) : bool := bool_decide (p = ProtocolTCP) || bool_decide (p = ProtocolUDP).

Definition valid_match (m : RouteMatch) : bool :=
  negb ((64 <? len (DomainSuffixes m)) || (64 <? len (CIDRs m)) || (16 <? len (GeoIPCountries m)) || (16 <? len (GeoSiteCategories m))
        || (32 <? len (PortRanges m)) || (2 <? len (Protocols m)))
  && forallb valid_suffix (DomainSuffixes m) && forallb valid_cidr (CIDRs m) && forallb (valid_geo 16) (GeoIPCountries m)
  && forallb (valid_geo 96) (GeoSiteCategories m) && forallb valid_ports (PortRanges m) && forallb valid_protocol (Protocols m).

Definition valid_action (a : RouteAction) : bool :=
  if bool_decide (Kind a = RouteActionNode) then len (NodeIDs a) =? 1
  else if bool_decide (Kind a = RouteActionChain) then negb ((len (NodeIDs a) <? 2) || (MaxRouteHops <? len (NodeIDs a)) || hasDuplicates (NodeIDs a))
  else if bool_decide (Kind a = RouteActionDirect) || bool_decide (Kind a = RouteActionCurrent) || bool_decide (Kind a = RouteActionBlock)
          || bool_decide (Kind a = RouteActionAuto) then len (NodeIDs a) =? 0
  else false.

Definition ValidateRoute (route : Route) : bool :=
  if negb (validIdentifier (rt_ID route) 64) || negb (validDisplay (rt_Name route) 96) || (rt_Priority route <? 0) || (1000000 <? rt_Priority route) then false
  else if negb (bool_decide (rt_Source route = RouteSourceAdmin)) && negb (bool_decide (rt_Source route = RouteSourceClient)) then false
  else if rt_Mandatory route && negb (bool_decide (rt_Source route = RouteSourceAdmin)) then false
  else valid_match (rt_Match route) && valid_action (rt_Action route).

(** The loops of [ValidateState]: the identifiers so far, in reverse. *)
Fixpoint validate_nodes (ns : list Node) (nodes : list (list byte)) (masterCount : Z) : option (list (list byte) * Z) :=
  match ns with
  | [] => Some (nodes, masterCount)
  | n :: ns =>
      if negb (validateNode n) then None
      else if bool_decide (nd_ID n ∈ nodes) then None
      else validate_nodes ns (nd_ID n :: nodes) (if containsRole (nd_Roles n) RoleMaster then masterCount + 1 else masterCount)
  end.

Fixpoint validate_routes (rs : list Route) (nodes routes : list (list byte)) : option (list (list byte)) :=
  match rs with
  | [] => Some routes
  | r :: rs =>
      if negb (ValidateRoute r) then None
      else if bool_decide (rt_ID r ∈ routes) then None
      else if forallb (fun id => bool_decide (id ∈ nodes)) (NodeIDs (rt_Action r)) then validate_routes rs nodes (rt_ID r :: routes)
      else None
  end.

Fixpoint validate_access (us : list UserAccess) (nodes routes users : list (list byte)) : bool :=
  match us with
  | [] => true
  | u :: us =>
      if negb (validOpaqueID (ua_UserID u) 128) || (ua_Revision u =? 0) then false
      else if bool_decide (ua_UserID u ∈ users) then false
      else if hasDuplicates (AllowedNodeIDs u) || hasDuplicates (AllowedRouteIDs u) then false
      else if forallb (fun id => bool_decide (id ∈ nodes)) (AllowedNodeIDs u) then
        if forallb (fun id => bool_decide (id ∈ routes)) (AllowedRouteIDs u) then validate_access us nodes routes (ua_UserID u :: users) else false
      else false
  end.

Definition ValidateState (state : State) : bool :=
  if negb (cs_Version state =? StateVersion) || negb (validIdentifier (ClusterID state) 64) || (Revision state =? 0) || (UpdatedAt state =? 0)
     || (len (Nodes state) =? 0) || (MaxNodes <? len (Nodes state)) || (MaxRoutes <? len (Routes state)) || (MaxUsers <? len (Access state)) then false
  else
    match validate_nodes (Nodes state) [] 0 with
    | None => false
    | Some (nodes, masterCount) =>
        if negb (masterCount =? 1) then false
        else match validate_routes (Routes state) nodes [] with
             | None => false
             | Some routes => validate_access (Access state) nodes routes []
             end
    end.

(** ** Matching and order of routes *)

Definition GeoMatchEvaluator : Type := RouteMatch -> Target -> bool.

Definition suffix_matches (domain suffix : list byte) : bool := bool_decide (domain = suffix) || HasSuffix domain (x2e :: suffix).
Definition cidr_matches (a : Addr) (raw : list byte) : bool :=
  match ParsePrefix raw with Some p => Contains p (Unmap a) | None => false end.

Definition MatchesWith (route : Route) (target : Target) (evaluateGeo : option GeoMatchEvaluator) : bool :=
  let m := rt_Match route in
  if negb (rt_Enabled route) || (Port target =? 0) || (negb (bool_decide (Protocol target = ProtocolTCP)) && negb (bool_decide (Protocol target = ProtocolUDP))) then false
  else if (0 <? len (Protocols m)) && negb (containsProtocol (Protocols m) (Protocol target)) then false
  else if (0 <? len (PortRanges m)) && negb (existsb (fun p => (From p <=? Port target) && (Port target <=? To p)) (PortRanges m)) then false
  else if (len (DomainSuffixes m) =? 0) && (len (CIDRs m) =? 0) && (len (GeoIPCountries m) =? 0) && (len (GeoSiteCategories m) =? 0) then true
  else
    let domain := TrimSuffix (ToLower (Domain target)) [x2e] in
    if existsb (suffix_matches domain) (DomainSuffixes m) then true
    else if IsValid (Address target) && existsb (cidr_matches (Address target)) (CIDRs m) then true
    else match evaluateGeo with Some f => f m target | None => false end.

Definition Matches (route : Route) (target : Target) : bool := MatchesWith route target None.

(** The order of [EffectiveRoutes]: [less] of two routes with different
    identifiers; [sort.Slice] leaves equal ones in any order. *)
Definition route_leb (l r : Route) : bool :=
  if negb (eqb (rt_Mandatory l) (rt_Mandatory r)) then rt_Mandatory l
  else if negb (rt_Priority l =? rt_Priority r) then rt_Priority l <? rt_Priority r
  else bytes_le (rt_ID l) (rt_ID r).
Definition route_le (l r : Route) : Prop := route_leb l r = true.
#[global] Instance route_le_dec l r : Decision (route_le l r).
Proof. unfold route_le. apply _. Defined.

Definition effective_admin (r : Route) : Prop := rt_Enabled r = true /\ rt_Source r = RouteSourceAdmin.
Definition effective_local (r : Route) : Prop := rt_Enabled r = true /\ rt_Source r = RouteSourceClient /\ rt_Mandatory r = false.
#[global] Instance effective_admin_dec r : Decision (effective_admin r).
Proof. unfold effective_admin. apply _. Defined.
#[global] Instance effective_local_dec r : Decision (effective_local r).
Proof. unfold effective_local. apply _. Defined.

Definition EffectiveRoutes (adminRoutes localRoutes : list Route) (allowClientRoutes : bool) : list Route :=
  merge_sort route_le (filter effective_admin adminRoutes ++ (if allowClientRoutes then filter effective_local localRoutes else [])).

(** ** Requests *)

Definition ClientRouteVersion : Z := 1.
Record ClientRouteRequest := mkClientRoute { cr_Version : Z; cr_RouteID : list byte; cr_Action : RouteAction }.

Definition ValidateClientRouteRequest (request : ClientRouteRequest) : bool :=
  let nodeIDs := NodeIDs (cr_Action request) in
  let kind := Kind (cr_Action request) in
  if negb (cr_Version request =? ClientRouteVersion) || negb (validIdentifier (cr_RouteID request) 64) then false
  else if bool_decide (kind = RouteActionNode) then (len nodeIDs =? 1) && validIdentifier (nth 0 nodeIDs []) 64
  else if bool_decide (kind = RouteActionChain) then
    negb ((len nodeIDs <? 2) || (MaxRouteHops <? len nodeIDs) || hasDuplicates nodeIDs) && forallb (fun id => validIdentifier id 64) nodeIDs
  else if bool_decide (kind = RouteActionCurrent) || bool_decide (kind = RouteActionDirect) || bool_decide (kind = RouteActionAuto) then len nodeIDs =? 0
  else false.

Definition CredentialSyncVersion : Z := 1.
Definition CredentialSyncUpsert : list byte := bytes_of "upsert".
Definition CredentialSyncRevoke : list byte := bytes_of "revoke".
Record CredentialSyncRequest := mkCredentialSync { sy_Version : Z; sy_Operation : list byte; sy_CredentialID : list byte; sy_Secret : list byte }.

Definition allZeroBytes (value : list byte) : bool := forallb (fun c => b2z c =? 0) value.

Definition ValidateCredentialSync (request : CredentialSyncRequest) : bool :=
  match b64_decode (sy_CredentialID request) with
  | None => false
  | Some identifier =>
      if negb (sy_Version request =? CredentialSyncVersion) || negb (len identifier =? 16) || negb (bool_decide (b64_encode identifier = sy_CredentialID request)) then false
      else if bool_decide (sy_Operation request = CredentialSyncUpsert) then
        match b64_decode (sy_Secret request) with
        | None => false
        | Some secret => negb (negb (len secret =? 32) || negb (bool_decide (b64_encode secret = sy_Secret request)) || allZeroBytes secret)
        end
      else if bool_decide (sy_Operation request = CredentialSyncRevoke) then bool_decide (sy_Secret request = [])
      else false
  end.

Definition GeoDataControlVersion : Z := 1.
Definition GeoDataStatus : list byte := bytes_of "status".
Definition GeoDataUpdate : list byte := bytes_of "update".
Record GeoDataRequest := mkGeoData { gd_Version : Z; gd_Operation : list byte }.
Definition ValidateGeoDataRequest (request : GeoDataRequest) : bool :=
  negb (negb (gd_Version request =? GeoDataControlVersion)
        || (negb (bool_decide (gd_Operation request = GeoDataStatus)) && negb (bool_decide (gd_Operation request = GeoDataUpdate)))).

Definition RelayVersion : Z := 1.
Record RelayRequest := mkRelay {
  rr_Version : Z; rr_RouteID : list byte; rr_UserID : list byte; RemainingHops : Z; VisitedNodeIDs : list (list byte);
  RemainingNodeIDs : list (list byte); TraceID : list byte; TargetHost : list byte; TargetPort : Z; rr_Protocol : list byte;
  rr_ClientRoute : option ClientRouteRequest
}.

(** The two loops over the node identifiers, with the set [seen]. *)
Fixpoint check_visited (ids : list (list byte)) (current : list byte) (seen : list (list byte)) : res (list (list byte)) :=
  match ids with
  | [] => Ok seen
  | id :: ids =>
      if negb (validIdentifier id 64) then Err ErrInvalidRelay
      else if bool_decide (id = current) then Err ErrRelayLoop
      else if bool_decide (id ∈ seen) then Err ErrRelayLoop
      else check_visited ids current (id :: seen)
  end.
Fixpoint check_remaining (ids : list (list byte)) (current : list byte) (seen : list (list byte)) : res (list (list byte)) :=
  match ids with
  | [] => Ok seen
  | id :: ids =>
      if negb (validIdentifier id 64) || bool_decide (id = current) then Err ErrRelayLoop
      else if bool_decide (id ∈ seen) then Err ErrRelayLoop
      else check_remaining ids current (id :: seen)
  end.

Definition valid_relay_host (host : list byte) : bool :=
  match ParseAddr host with None => validDomain host | Some a => IsGlobalUnicast a end.

Definition ValidateRelayRequest (request : RelayRequest) (currentNodeID : list byte) : res unit :=
  if negb (rr_Version request =? RelayVersion) || negb (validIdentifier (rr_RouteID request) 64) || negb (validOpaqueID (rr_UserID request) 128)
     || negb (validIdentifier currentNodeID 64) || (TargetPort request =? 0)
     || (negb (bool_decide (rr_Protocol request = ProtocolTCP)) && negb (bool_decide (rr_Protocol request = ProtocolUDP)))
     || negb (len (TraceID request) =? 16) || (MaxRouteHops <? len (VisitedNodeIDs request)) || (MaxRouteHops <? len (RemainingNodeIDs request))
  then Err ErrInvalidRelay
  else if match rr_ClientRoute request with Some c => negb (ValidateClientRouteRequest c) | None => false end then Err ErrInvalidRelay
  else if (RemainingHops request =? 0) || (MaxRouteHops <? RemainingHops request) then Err ErrRelayHopLimit
  else
    seen ← check_visited (VisitedNodeIDs request) currentNodeID [];
    _ ← check_remaining (RemainingNodeIDs request) currentNodeID seen;
    if negb (RemainingHops request =? len (RemainingNodeIDs request) + 1) then Err ErrRelayHopLimit
    else if valid_relay_host (TargetHost request) then Ok tt else Err ErrInvalidRelay.

(** ** Resolving the route of a user *)

Definition find_access (state : State) (userID : list byte) : option UserAccess := find (fun a => bool_decide (ua_UserID a = userID)) (Access state).

Definition permitted_match (access : UserAccess) (target : Target) (matcher : option GeoMatchEvaluator) (r : Route) : bool :=
  bool_decide (rt_ID r ∈ AllowedRouteIDs access) && MatchesWith r target matcher.

Definition ResolveRouteForUserWithMatcher (state : State) (userID : list byte) (target : Target) (matcher : option GeoMatchEvaluator)
  : res (RouteAction * list byte) :=
  if negb (ValidateState state) || negb (validOpaqueID userID 128) then Err ErrInvalidState
  else match find_access state userID with
       | None => Err ErrInvalidState
       | Some access =>
           match find (permitted_match access target matcher) (EffectiveRoutes (Routes state) [] false) with
           | Some route =>
               if forallb (fun id => bool_decide (id ∈ AllowedNodeIDs access)) (NodeIDs (rt_Action route)) then Ok (rt_Action route, rt_ID route)
               else Err ErrInvalidState
           | None => Ok (mkAction RouteActionCurrent [], [])
           end
       end.

Definition ResolveClientRouteForUserWithMatcher (state : State) (userID : list byte) (target : Target) (request : ClientRouteRequest)
  (matcher : option GeoMatchEvaluator) : res (RouteAction * list byte) :=
  if negb (ValidateState state) || negb (ValidateClientRouteRequest request) || negb (validOpaqueID userID 128) then Err ErrInvalidState
  else match find_access state userID with
       | None => Err ErrClientRouteUnauthorized
       | Some access =>
           if negb (AllowClientRoutes access) then Err ErrClientRouteUnauthorized
           else
             match find (fun r => bool_decide (rt_ID r ∈ AllowedRouteIDs access) && rt_Mandatory r && MatchesWith r target matcher)
                     (EffectiveRoutes (Routes state) [] false) with
             | Some route => Ok (rt_Action route, rt_ID route)
             | None =>
                 if bool_decide (Kind (cr_Action request) = RouteActionAuto) then ResolveRouteForUserWithMatcher state userID target matcher
                 else if forallb (fun id => bool_decide (id ∈ AllowedNodeIDs access)) (NodeIDs (cr_Action request))
                 then Ok (cr_Action request, cr_RouteID request)
                 else Err ErrClientRouteUnauthorized
             end
       end.

(** ** The catalog of a user *)

Definition CatalogVersion : Z := 1.
Definition MaxCatalogBytes : Z := 256 * 1024.
Definition MaxCatalogTTL : Z := 24 * 3600 * second.
Definition geoClientFallbackDomain : list byte := bytes_of "np2-geodata-never-match.invalid".

Record CatalogServer := mkServer {
  sv_NodeID : list byte; sv_Name : list byte; sv_Region : list byte; ServerIdentity : list byte; ServerAddresses : list (list byte);
  sv_HTTPSPath : list byte; sv_WebRTCPath : list byte; sv_HTTP3Path : list byte; sv_RequireDatagrams : bool; sv_Enabled : bool
}.

(** [unsignedCatalog], with the permissions spelled out, and [Catalog]. *)
Record unsignedCatalog := mkUnsigned {
  ct_Version : Z; ct_ClusterID : list byte; ct_Revision : Z; IssuedAt : Z; ExpiresAt : Z; ct_UserID : list byte;
  Servers : list CatalogServer; AdminRoutes : list Route; ct_AllowAutoSelection : bool; ct_AllowClientRoutes : bool
}.
Record Catalog := mkCatalog { ct_unsigned : unsignedCatalog; Signature : list byte }.
Record CatalogEnvelope := mkEnvelope { en_Version : Z; en_Payload : list byte; en_Signature : list byte }.

#[global] Instance CatalogServer_eq_dec : EqDecision CatalogServer.
Proof. solve_decision. Defined.
#[global] Instance unsignedCatalog_eq_dec : EqDecision unsignedCatalog.
Proof. solve_decision. Defined.
#[global] Instance CatalogEnvelope_eq_dec : EqDecision CatalogEnvelope.
Proof. solve_decision. Defined.

Definition visible_server (access : UserAccess) (node : Node) : bool := bool_decide (nd_ID node ∈ AllowedNodeIDs access) && nd_ClientVisible node.
Definition catalog_server (node : Node) : CatalogServer :=
  mkServer (nd_ID node) (nd_Name node) (nd_Region node) (nd_PublicIdentity node) (nd_PublicAddresses node) (nd_HTTPSPath node) (nd_WebRTCPath node)
    (nd_HTTP3Path node) (nd_RequireDatagrams node) (nd_Enabled node).

(** The copy of a route for the client: a rule on GeoIP or GeoSite gets a
    suffix that no client evaluates to a match. *)
Definition client_route (route : Route) : Route :=
  let m := rt_Match route in
  if (0 <? len (GeoIPCountries m)) || (0 <? len (GeoSiteCategories m)) then
    mkRoute (rt_ID route) (rt_Name route) (rt_Priority route) (rt_Enabled route) (rt_Source route) (rt_Mandatory route)
      (mkMatch (DomainSuffixes m ++ [geoClientFallbackDomain]) (CIDRs m) (GeoIPCountries m) (GeoSiteCategories m) (PortRanges m) (Protocols m))
      (rt_Action route)
  else route.

Definition catalog_routes (access : UserAccess) (routes : list Route) : list Route :=
  map client_route (List.filter (fun r => bool_decide (rt_ID r ∈ AllowedRouteIDs access) && bool_decide (rt_Source r = RouteSourceAdmin)) routes).

Definition BuildCatalog (state : State) (userID : list byte) (now ttl : Z) : res Catalog :=
  if negb (ValidateState state) || negb (validOpaqueID userID 128) || (now =? 0) || (ttl <=? 0) || (MaxCatalogTTL <? ttl) then Err ErrInvalidCatalog
  else match find_access state userID with
       | None => Err ErrInvalidCatalog
       | Some access =>
           let servers := map catalog_server (List.filter (visible_server access) (Nodes state)) in
           if len servers =? 0 then Err ErrInvalidCatalog
           else Ok (mkCatalog (mkUnsigned CatalogVersion (ClusterID state) (Revision state) now (now + ttl) userID servers
                  (EffectiveRoutes (catalog_routes access (Routes state)) [] false) (AllowAutoSelection access) (AllowClientRoutes access)) [])
       end.

Section Signed.
(** crypto/ed25519 and encoding/json: [json_*] is [json.Marshal]; [parse_*] is
    a decoder with unknown fields disallowed that then reads io.EOF;
    [object_keys] are the keys a token decoder reads of an object, in order,
    with the values skipped, up to its end. *)
Context (ed25519_Sign : list byte -> list byte -> list byte) (ed25519_Verify : list byte -> list byte -> list byte -> bool).
Context (json_catalog : unsignedCatalog -> option (list byte)) (parse_catalog : list byte -> option unsignedCatalog).
Context (json_envelope : CatalogEnvelope -> option (list byte)) (parse_envelope : list byte -> option CatalogEnvelope).
Context (object_keys : list byte -> option (list (list byte))).

Definition PublicKeySize : Z := 32.
Definition PrivateKeySize : Z := 64.
Definition SignatureSize : Z := 64.

(** An error of [json.Marshal] is reported as the caller's own. *)
Definition canonicalCatalogBytes (catalog : Catalog) : option (list byte) := json_catalog (ct_unsigned catalog).

Definition SignCatalog (catalog : Catalog) (privateKey : list byte) : res Catalog :=
  if negb (len privateKey =? PrivateKeySize) then Err ErrInvalidCatalog
  else match canonicalCatalogBytes catalog with
       | None => Err ErrInvalidCatalog
       | Some payload =>
           if MaxCatalogBytes <? len payload then Err ErrInvalidCatalog
           else Ok (mkCatalog (ct_unsigned catalog) (b64_encode (ed25519_Sign privateKey payload)))
       end.

Definition VerifyCatalog (catalog : Catalog) (publicKey clusterID : list byte) (minimumRevision now : Z) : res unit :=
  let c := ct_unsigned catalog in
  if negb (len publicKey =? PublicKeySize) || negb (ct_Version c =? CatalogVersion) || negb (validOpaqueID (ct_UserID c) 128)
     || (ct_Revision c =? 0) || (IssuedAt c =? 0) || (ExpiresAt c =? 0) || (ExpiresAt c <=? IssuedAt c) || (MaxCatalogTTL <? ExpiresAt c - IssuedAt c)
     || (len (Servers c) =? 0) || (MaxNodes <? len (Servers c)) || (MaxRoutes <? len (AdminRoutes c)) then Err ErrInvalidCatalog
  else if negb (bool_decide (ct_ClusterID c = clusterID)) then Err ErrCatalogClusterMismatch
  else if ct_Revision c <? minimumRevision then Err ErrCatalogRollback
  else if (now <? IssuedAt c - 5 * 60 * second) || negb (now <? ExpiresAt c) then Err ErrCatalogExpired
  else match b64_decode (Signature catalog) with
       | None => Err ErrInvalidCatalogSignature
       | Some signature =>
           if negb (len signature =? SignatureSize) then Err ErrInvalidCatalogSignature
           else match canonicalCatalogBytes catalog with
                | None => Err ErrInvalidCatalogSignature
                | Some payload =>
                    if (MaxCatalogBytes <? len payload) || negb (ed25519_Verify publicKey payload signature) then Err ErrInvalidCatalogSignature
                    else Ok tt
                end
       end.

Definition EncodeCatalogEnvelope (catalog : Catalog) : res (list byte) :=
  match canonicalCatalogBytes catalog with
  | None => Err ErrInvalidCatalog
  | Some payload =>
      if (len payload =? 0) || (MaxCatalogBytes <? len payload) then Err ErrInvalidCatalog
      else match b64_decode (Signature catalog) with
           | None => Err ErrInvalidCatalogSignature
           | Some signature =>
               if negb (len signature =? SignatureSize) then Err ErrInvalidCatalogSignature
               else match json_envelope (mkEnvelope CatalogVersion (b64_encode payload) (Signature catalog)) with
                    | None => Err ErrInvalidCatalog
                    | Some raw => if MaxCatalogBytes <? len raw then Err ErrInvalidCatalog else Ok raw
                    end
           end
  end.

Fixpoint distinct_keys (keys seen : list (list byte)) : bool :=
  match keys with [] => true | k :: keys => if bool_decide (k ∈ seen) then false else distinct_keys keys (k :: seen) end.

Definition rejectDuplicateEnvelopeFields (raw : list byte) : bool :=
  match object_keys raw with None => false | Some keys => distinct_keys keys [] end.

Definition DecodeAndVerifyCatalogEnvelope (raw publicKey clusterID : list byte) (minimumRevision now : Z) : res Catalog :=
  if (len raw =? 0) || (MaxCatalogBytes <? len raw) then Err ErrInvalidCatalog
  else if negb (rejectDuplicateEnvelopeFields raw) then Err ErrInvalidCatalog
  else match parse_envelope raw with
       | None => Err ErrInvalidCatalog
       | Some envelope =>
           if negb (en_Version envelope =? CatalogVersion) then Err ErrInvalidCatalog
           else match b64_decode (en_Payload envelope) with
                | None => Err ErrInvalidCatalog
                | Some payload =>
                    if (len payload =? 0) || (MaxCatalogBytes <? len payload) then Err ErrInvalidCatalog
                    else match parse_catalog payload with
                         | None => Err ErrInvalidCatalog
                         | Some unsigned =>
                             let catalog := mkCatalog unsigned (en_Signature envelope) in
                             _ ← VerifyCatalog catalog publicKey clusterID minimumRevision now; Ok catalog
                         end
                end
       end.
End Signed.

(** ** Validation is what it is meant to be *)

(** The declarative contract of a cluster state: every reference resolves,
    identifiers are unique, exactly one master. *)
Definition is_master (n : Node) : bool := containsRole (nd_Roles n) RoleMaster.

Definition access_ok (s : State) (u : UserAccess) : Prop :=
  validOpaqueID (ua_UserID u) 128 = true /\ ua_Revision u <> 0 /\
  (NoDup (AllowedNodeIDs u) /\ AllowedNodeIDs u ⊆ map nd_ID (Nodes s)) /\
  (NoDup (AllowedRouteIDs u) /\ AllowedRouteIDs u ⊆ map rt_ID (Routes s)) /\
  Forall (fun id => validIdentifier id 128 = true) (AllowedNodeIDs u ++ AllowedRouteIDs u).

Record valid_state (s : State) : Prop := {
  vs_header : cs_Version s = 1 /\ validIdentifier (ClusterID s) 64 = true /\ Revision s <> 0 /\ UpdatedAt s <> 0;
  vs_sizes : 0 < len (Nodes s) <= MaxNodes /\ len (Routes s) <= MaxRoutes /\ len (Access s) <= MaxUsers;
  vs_nodes : Forall (fun n => validateNode n = true) (Nodes s) /\ NoDup (map nd_ID (Nodes s));
  vs_master : length (List.filter is_master (Nodes s)) = 1%nat;
  vs_routes : Forall (fun r => ValidateRoute r = true /\ NodeIDs (rt_Action r) ⊆ map nd_ID (Nodes s)) (Routes s) /\ NoDup (map rt_ID (Routes s));
  vs_access : Forall (access_ok s) (Access s) /\ NoDup (map ua_UserID (Access s))
}.

Lemma forallb_subset (ids nodes : list (list byte)) : forallb (fun id => bool_decide (id ∈ nodes)) ids = true <-> ids ⊆ nodes.
Proof.
  rewrite forallb_forall. split; intros H id Hid.
  - apply list_elem_of_In in Hid. by apply H, bool_decide_eq_true in Hid.
  - apply list_elem_of_In in Hid. apply bool_decide_eq_true. by apply H.
Qed.

Lemma duplicates_spec values seen :
  duplicates values seen = false <->
  Forall (fun v => validIdentifier v 128 = true) values /\ NoDup values /\ (forall v, v ∈ values -> v ∉ seen).
Proof.
  revert seen. induction values as [|v values IH]; intros seen; cbn [duplicates].
  - split; [|done]. split; [constructor|]. split; [constructor|]. intros v Hv. by apply elem_of_nil in Hv.
  - destruct (validIdentifier v 128) eqn:E; cbn [negb].
    2: { split; [done|]. intros [Hf _]. apply Forall_cons in Hf as [Hv _]. congruence. }
    case_bool_decide as Hin; [split; [done|]; intros (_ & _ & H); by destruct (H v ltac:(constructor))|].
    rewrite IH, Forall_cons, NoDup_cons. split.
    + intros (Hf & Hn & Hs). split; [done|]. split.
      * split; [|done]. intros Hv. apply (Hs v Hv). constructor.
      * intros w [->|Hw]%elem_of_cons; [done|]. intros Hc. apply (Hs w Hw). by constructor.
    + intros ([_ Hf] & [Hv Hn] & Hs). split; [done|]. split; [done|]. intros w Hw [->|Hc]%elem_of_cons; [done|].
      apply (Hs w); [by constructor|done].
Qed.

Lemma hasDuplicates_spec values :
  hasDuplicates values = false <-> Forall (fun v => validIdentifier v 128 = true) values /\ NoDup values.
Proof. unfold hasDuplicates. rewrite duplicates_spec. split; [tauto|]. intros [H1 H2]. split; [done|]. split; [done|]. intros v _. apply not_elem_of_nil. Qed.

(** A loop that collects identifiers, each of which must be new. *)
Lemma fresh_spec (id : list byte) ids seen :
  NoDup (id :: ids) /\ (forall v, v ∈ id :: ids -> v ∉ seen) <-> id ∉ seen /\ NoDup ids /\ (forall v, v ∈ ids -> v ∉ id :: seen).
Proof.
  rewrite NoDup_cons. split.
  - intros [[Hi Hn] Hs]. split; [apply Hs; constructor|]. split; [done|]. intros v Hv [->|Hc]%elem_of_cons; [done|]. by apply (Hs v); [constructor|].
  - intros (Hi & Hn & Hs). split; [split; [|done]|].
    + intros Hc. apply (Hs id Hc). constructor.
    + intros v [->|Hv]%elem_of_cons; [done|]. intros Hc. apply (Hs v Hv). by constructor.
Qed.

Lemma validate_nodes_spec ns seen m nodes k :
  validate_nodes ns seen m = Some (nodes, k) <->
  Forall (fun n => validateNode n = true) ns /\ (NoDup (map nd_ID ns) /\ (forall v, v ∈ map nd_ID ns -> v ∉ seen)) /\
  nodes = rev (map nd_ID ns) ++ seen /\ k = m + len (List.filter is_master ns).
Proof.
  revert seen m. induction ns as [|n ns IH]; intros seen m; cbn [validate_nodes map rev].
  - split; [intros [= -> ->]|intros (_ & _ & -> & ->)]; [|unfold len; cbn; by rewrite Z.add_0_r].
    split; [constructor|]. split; [split; [constructor|]|]; [|unfold len; cbn; split; [done|lia]]. intros v Hv. by apply elem_of_nil in Hv.
  - rewrite Forall_cons, fresh_spec. destruct (validateNode n) eqn:En; cbn [negb]; [|split; [done|intros [[? _] _]; congruence]].
    case_bool_decide as Hin; [split; [done|]; intros (_ & [Hc _] & _); done|].
    rewrite IH. rewrite <- app_assoc. cbn [List.filter]. change (containsRole (nd_Roles n) RoleMaster) with (is_master n).
    replace (m + len (if is_master n then n :: List.filter is_master ns else List.filter is_master ns))
      with ((if is_master n then m + 1 else m) + len (List.filter is_master ns)) by (destruct (is_master n); unfold len; cbn [length]; lia).
    tauto.
Qed.

Lemma validate_routes_spec rs nodes seen routes :
  validate_routes rs nodes seen = Some routes <->
  Forall (fun r => ValidateRoute r = true /\ NodeIDs (rt_Action r) ⊆ nodes) rs /\
  (NoDup (map rt_ID rs) /\ (forall v, v ∈ map rt_ID rs -> v ∉ seen)) /\ routes = rev (map rt_ID rs) ++ seen.
Proof.
  revert seen. induction rs as [|r rs IH]; intros seen; cbn [validate_routes map rev].
  - split; [intros [= ->]|intros (_ & _ & ->); done]. split; [constructor|]. split; [split; [constructor|]|done].
    intros v Hv. by apply elem_of_nil in Hv.
  - rewrite Forall_cons, fresh_spec. destruct (ValidateRoute r) eqn:En; cbn [negb]; [|split; [done|intros [[[? _] _] _]; congruence]].
    case_bool_decide as Hin; [split; [done|]; intros (_ & [Hc _] & _); done|].
    destruct (forallb _ _) eqn:Ef.
    + apply forallb_subset in Ef. rewrite IH, <- app_assoc. tauto.
    + split; [done|]. intros ([[_ Hs] _] & _). apply forallb_subset in Hs. congruence.
Qed.

Lemma validate_access_spec us nodes routes seen :
  validate_access us nodes routes seen = true <->
  Forall (fun u => validOpaqueID (ua_UserID u) 128 = true /\ ua_Revision u <> 0 /\
    hasDuplicates (AllowedNodeIDs u) = false /\ hasDuplicates (AllowedRouteIDs u) = false /\
    AllowedNodeIDs u ⊆ nodes /\ AllowedRouteIDs u ⊆ routes) us /\
  (NoDup (map ua_UserID us) /\ (forall v, v ∈ map ua_UserID us -> v ∉ seen)).
Proof.
  revert seen. induction us as [|u us IH]; intros seen; cbn [validate_access map].
  - split; [|done]. intros _. split; [constructor|]. split; [constructor|]. intros v Hv. by apply elem_of_nil in Hv.
  - rewrite Forall_cons, fresh_spec. destruct (validOpaqueID (ua_UserID u) 128) eqn:Ev; cbn [negb orb]; [|split; [done|intros [[[? _] _] _]; congruence]].
    destruct (Z.eqb_spec (ua_Revision u) 0) as [Er|Er]; [split; [done|intros [[(_ & ? & _) _] _]; done]|].
    case_bool_decide as Hin; [split; [done|]; intros (_ & [Hc _]); done|].
    destruct (hasDuplicates (AllowedNodeIDs u)) eqn:Ed1; [split; [done|intros [[(_ & _ & ? & _) _] _]; congruence]|].
    destruct (hasDuplicates (AllowedRouteIDs u)) eqn:Ed2; [split; [done|intros [[(_ & _ & _ & ? & _) _] _]; congruence]|]. cbn [orb].
    destruct (forallb (fun id => bool_decide (id ∈ nodes)) _) eqn:Ef.
    2: { split; [done|]. intros [[(_ & _ & _ & _ & Hs & _) _] _]. apply forallb_subset in Hs. congruence. }
    destruct (forallb (fun id => bool_decide (id ∈ routes)) _) eqn:Eg.
    2: { split; [done|]. intros [[(_ & _ & _ & _ & _ & Hs) _] _]. apply forallb_subset in Hs. congruence. }
    apply forallb_subset in Ef, Eg. rewrite IH. tauto.
Qed.

Lemma rev_subset (l k : list (list byte)) : l ⊆ rev k ++ [] <-> l ⊆ k.
Proof. by rewrite app_nil_r, <- (Permutation_rev k). Qed.

(** [ValidateState] in terms of the validators of nodes and routes. *)
Lemma ValidateState_valid s : ValidateState s = true <-> valid_state s.
Proof.
  unfold ValidateState. destruct (_ || _) eqn:G; [|].
  - split; [done|]. intros [(H1 & H2 & H3 & H4) (H5 & H6 & H7) _ _ _ _]. rewrite !orb_true_iff, !negb_true_iff, !Z.eqb_neq, !Z.eqb_eq, !Z.ltb_lt, H2 in G.
    unfold StateVersion in G. intuition (try lia; try done).
  - rewrite !orb_false_iff, !negb_false_iff, !Z.eqb_neq, !Z.eqb_eq, !Z.ltb_ge in G. unfold StateVersion in G. split.
    + destruct (validate_nodes _ _ _) as [[nodes k]|] eqn:En; [|done]. apply validate_nodes_spec in En as (N1 & N2 & -> & ->).
      destruct (Z.eqb_spec (0 + len (List.filter is_master (Nodes s))) 1) as [Hm|Hm]; [cbn [negb]|done].
      destruct (validate_routes _ _ _) as [routes|] eqn:Er; [|done]. apply validate_routes_spec in Er as (R1 & R2 & ->).
      intros (A1 & A2)%validate_access_spec. constructor; try tauto.
      * unfold len in *. lia.
      * unfold len in *. lia.
      * split; [|tauto]. eapply Forall_impl; [exact R1|]. intros r [? Hr]. split; [done|by apply rev_subset].
      * split; [|tauto]. eapply Forall_impl; [exact A1|]. intros u (? & ? & [D1 D2]%hasDuplicates_spec & [D3 D4]%hasDuplicates_spec & S1 & S2).
        rewrite rev_subset in S1, S2. unfold access_ok. rewrite Forall_app. tauto.
    + intros [_ _ [N1 N2] Hm [R1 R2] [A1 A2]].
      assert (En : validate_nodes (Nodes s) [] 0 = Some (rev (map nd_ID (Nodes s)) ++ [], 1)).
      { apply validate_nodes_spec. unfold len. rewrite Hm. split; [done|]. split; [|done]. split; [done|]. intros v _. apply not_elem_of_nil. }
      rewrite En. change (negb (1 =? 1)) with false. cbn iota.
      assert (Er : validate_routes (Routes s) (rev (map nd_ID (Nodes s)) ++ []) [] = Some (rev (map rt_ID (Routes s)) ++ [])).
      { apply validate_routes_spec. split; [|split; [split; [done|]|done]].
        - eapply Forall_impl; [exact R1|]. intros r [? Hr]. split; [done|by apply rev_subset].
        - intros v _. apply not_elem_of_nil. }
      rewrite Er. apply validate_access_spec. split; [|split; [done|]].
      * eapply Forall_impl; [exact A1|]. intros u (H1 & H2 & [H3 H4] & [H5 H6] & H7). apply Forall_app in H7 as [H7 H8].
        rewrite !hasDuplicates_spec, !rev_subset. tauto.
      * intros v _. apply not_elem_of_nil.
Qed.

(** ** The contract in its own words

    What the identifiers, names, addresses, numbers and references of a state
    have to be, without the validators; strings are only taken apart with the
    standard library ([Split], [SplitHostPort], [ParseAddr], [ParsePrefix]). *)
Module Contract.

(** a-z, 0-9; A-Z. *)
Definition lower_char (c : byte) : Prop := 97 <= b2z c <= 122 \/ 48 <= b2z c <= 57.
Definition upper_char (c : byte) : Prop := 65 <= b2z c <= 90.
Definition dash (c : byte) : Prop := b2z c = 45 \/ b2z c = 95.

(** The first character is a letter or a digit. *)
Definition identifier (maximum : Z) (v : list byte) : Prop :=
  0 < len v <= maximum /\ forall i c, v !! i = Some c -> lower_char c \/ (0 < i)%nat /\ dash c.
Definition opaque_id (maximum : Z) (v : list byte) : Prop :=
  0 < len v <= maximum /\ Forall (fun c => lower_char c \/ upper_char c \/ dash c) v.
(** [!] and [@] too. *)
Definition geo_name (maximum : Z) (v : list byte) : Prop :=
  0 < len v <= maximum /\
  forall i c, v !! i = Some c -> lower_char c \/ (0 < i)%nat /\ (dash c \/ b2z c = 33 \/ b2z c = 64).
(** No space around it, no line break and no NUL in it. *)
Definition display (maximum : Z) (v : list byte) : Prop :=
  0 < len v <= maximum /\
  (forall sp, sp ∈ spaces -> ~ (exists q, v = sp ++ q) /\ ~ (exists q, v = q ++ sp)) /\
  x0d ∉ v /\ x0a ∉ v /\ x00 ∉ v.
Definition label (v : list byte) : Prop :=
  0 < len v <= 63 /\ Forall (fun c => lower_char c \/ b2z c = 45) v /\
  ~ (exists q, v = x2d :: q) /\ ~ (exists q, v = q ++ [x2d]).
Definition domain (v : list byte) : Prop :=
  0 < len v <= 253 /\ ToLower v = v /\ ~ (exists q, v = q ++ [x2e]) /\ Forall label (Split x2e v).
Definition global_address (v : list byte) : Prop := exists a, ParseAddr v = Some a /\ IsGlobalUnicast a = true.
Definition canonical_prefix (v : list byte) : Prop := exists p, ParsePrefix v = Some p /\ PrefixString p = v.

Record node (n : Node) : Prop := {
  nc_id : identifier 64 (nd_ID n);
  nc_name : display 96 (nd_Name n);
  nc_region : display 96 (nd_Region n);
  nc_identity : domain (nd_PublicIdentity n);
  nc_addresses : 1 <= len (nd_PublicAddresses n) <= 8 /\ Forall global_address (nd_PublicAddresses n);
  nc_credential : opaque_id 128 (nd_CredentialID n);
  nc_host_key : exists key, nd_HostKeySHA256 n = bytes_of "SHA256:" ++ key;
  nc_times : nd_ProvisionedAt n <> 0 /\ nd_UpdatedAt n <> 0;
  nc_roles : 1 <= len (nd_Roles n) <= 4 /\ NoDup (nd_Roles n) /\
    nd_Roles n ⊆ [bytes_of "master"; bytes_of "ingress"; bytes_of "relay"; bytes_of "egress"];
  nc_endpoint : exists host port, SplitHostPort (nd_NP2Endpoint n) = Some (host, port) /\ host <> [] /\ port <> []
}.

Record route_match (m : RouteMatch) : Prop := {
  mc_domains : len (DomainSuffixes m) <= 64 /\ Forall domain (DomainSuffixes m);
  mc_prefixes : len (CIDRs m) <= 64 /\ Forall canonical_prefix (CIDRs m);
  mc_countries : len (GeoIPCountries m) <= 16 /\ Forall (geo_name 16) (GeoIPCountries m);
  mc_categories : len (GeoSiteCategories m) <= 16 /\ Forall (geo_name 96) (GeoSiteCategories m);
  mc_ports : len (PortRanges m) <= 32 /\ Forall (fun p => From p <> 0 /\ From p <= To p) (PortRanges m);
  mc_protocols : len (Protocols m) <= 2 /\ Protocols m ⊆ [bytes_of "tcp"; bytes_of "udp"]
}.

(** One node, a chain of two or three different ones, or none. *)
Definition route_action (a : RouteAction) : Prop :=
  Kind a = bytes_of "node" /\ len (NodeIDs a) = 1 \/
  Kind a = bytes_of "chain" /\ 2 <= len (NodeIDs a) <= 3 /\ NoDup (NodeIDs a) /\ Forall (identifier 128) (NodeIDs a) \/
  Kind a ∈ [bytes_of "direct"; bytes_of "current"; bytes_of "block"; bytes_of "auto"] /\ NodeIDs a = [].

Record route (nodes : list (list byte)) (r : Route) : Prop := {
  rc_id : identifier 64 (rt_ID r);
  rc_name : display 96 (rt_Name r);
  rc_priority : 0 <= rt_Priority r <= 1000000;
  rc_source : rt_Source r = bytes_of "admin" \/ rt_Source r = bytes_of "client";
  rc_mandatory : rt_Mandatory r = true -> rt_Source r = bytes_of "admin";
  rc_match : route_match (rt_Match r);
  rc_action : route_action (rt_Action r);
  rc_nodes : NodeIDs (rt_Action r) ⊆ nodes
}.

Record access (nodes routes : list (list byte)) (u : UserAccess) : Prop := {
  ac_user : opaque_id 128 (ua_UserID u);
  ac_revision : ua_Revision u <> 0;
  ac_nodes : NoDup (AllowedNodeIDs u) /\ Forall (identifier 128) (AllowedNodeIDs u) /\ AllowedNodeIDs u ⊆ nodes;
  ac_routes : NoDup (AllowedRouteIDs u) /\ Forall (identifier 128) (AllowedRouteIDs u) /\ AllowedRouteIDs u ⊆ routes
}.

Record state (s : State) : Prop := {
  sc_version : cs_Version s = 1;
  sc_cluster : identifier 64 (ClusterID s);
  sc_revision : Revision s <> 0 /\ UpdatedAt s <> 0;
  sc_nodes : 1 <= len (Nodes s) <= 32 /\ Forall node (Nodes s) /\ NoDup (map nd_ID (Nodes s));
  sc_master : exists pre m post, Nodes s = pre ++ m :: post /\ bytes_of "master" ∈ nd_Roles m /\
    Forall (fun n => bytes_of "master" ∉ nd_Roles n) (pre ++ post);
  sc_routes : len (Routes s) <= 512 /\ Forall (route (map nd_ID (Nodes s))) (Routes s) /\ NoDup (map rt_ID (Routes s));
  sc_access : len (Access s) <= 10000 /\
    Forall (access (map nd_ID (Nodes s)) (map rt_ID (Routes s))) (Access s) /\ NoDup (map ua_UserID (Access s))
}.

(** *** The validators decide it *)

Lemma lower_char_spec c : is_lower c || is_dec c = true <-> lower_char c.
Proof. unfold is_lower, is_dec, lower_char. rewrite orb_true_iff, !andb_true_iff, !Z.leb_le. lia. Qed.

Lemma dash_spec c : is_hyphen c || is_underscore c = true <-> dash c.
Proof. unfold is_hyphen, is_underscore, dash. by rewrite orb_true_iff, !Z.eqb_eq. Qed.

Lemma sized_spec (v : list byte) maximum :
  negb (bool_decide (v = []) || (maximum <? len v)) = true <-> 0 < len v <= maximum.
Proof.
  rewrite negb_true_iff, orb_false_iff, bool_decide_eq_false, Z.ltb_ge.
  destruct v as [|c v]; [split; [by intros []|by intros [? _]]|]. rewrite len_cons. pose proof (len_nonneg v).
  split; [lia|]. intros [_ ?]. done.
Qed.

Lemma forallb_imap (f : nat * byte -> bool) (v : list byte) :
  forallb f (imap (fun i c => (i, c)) v) = true <-> forall i c, v !! i = Some c -> f (i, c) = true.
Proof.
  rewrite forallb_forall. split.
  - intros H i c Hi. apply H, list_elem_of_In, elem_of_lookup_imap. eauto.
  - intros H x (i & c & -> & Hi)%list_elem_of_In%elem_of_lookup_imap. auto.
Qed.

Lemma forallb_Forall_iff {A} (f : A -> bool) (P : A -> Prop) l :
  (forall x, f x = true <-> P x) -> forallb f l = true <-> Forall P l.
Proof. intros H. rewrite forallb_forall, Forall_forall. setoid_rewrite <- list_elem_of_In. by setoid_rewrite H. Qed.

Lemma identifier_spec v maximum : validIdentifier v maximum = true <-> identifier maximum v.
Proof.
  unfold validIdentifier, identifier. rewrite andb_true_iff, sized_spec, forallb_imap.
  apply and_iff_compat_l. split; intros H i c Hi; specialize (H i c Hi); revert H;
    rewrite orb_true_iff, andb_true_iff, lower_char_spec, dash_spec, Nat.ltb_lt; done.
Qed.

Lemma opaque_spec v maximum : validOpaqueID v maximum = true <-> opaque_id maximum v.
Proof.
  unfold validOpaqueID, opaque_id. rewrite andb_true_iff, sized_spec. apply and_iff_compat_l, forallb_Forall_iff.
  intros c. unfold is_lower, is_upper, is_dec, is_hyphen, is_underscore, lower_char, upper_char, dash.
  rewrite !orb_true_iff, !andb_true_iff, !Z.leb_le, !Z.eqb_eq. lia.
Qed.

Lemma geo_name_spec v maximum : valid_geo maximum v = true <-> geo_name maximum v.
Proof.
  unfold valid_geo, validGeoRuleName, geo_name. rewrite !andb_true_iff, sized_spec, forallb_imap, bool_decide_eq_true.
  assert (K : forall i c, (is_lower c || is_dec c ||
      ((0 <? i)%nat && (is_hyphen c || is_underscore c || (b2z c =? 33) || (b2z c =? 64)))) = true <->
      lower_char c \/ (0 < i)%nat /\ (dash c \/ b2z c = 33 \/ b2z c = 64)).
  { intros i c. rewrite orb_true_iff, andb_true_iff, lower_char_spec, 2!(orb_true_iff (_ || _)), dash_spec, Nat.ltb_lt, !Z.eqb_eq. tauto. }
  setoid_rewrite K. split; [tauto|]. intros [Hl Hc]. split; [done|]. symmetry. apply ToLower_id.
  apply forallb_forall. intros c (i & Hi)%list_elem_of_In%list_elem_of_lookup. specialize (Hc i c Hi).
  unfold lower_ascii, is_upper. unfold lower_char, dash in Hc.
  rewrite andb_true_iff, negb_true_iff, andb_false_iff, Z.ltb_lt, !Z.leb_gt. lia.
Qed.

Lemma HasPrefix_iff v p : HasPrefix v p = true <-> exists q, v = p ++ q.
Proof.
  unfold HasPrefix. rewrite bool_decide_eq_true. split.
  - intros E. exists (drop (length p) v). rewrite <- (take_drop (length p) v) at 1. by rewrite E.
  - intros [q ->]. apply take_app_length.
Qed.

Lemma has_byte_iff c v : has_byte c v = true <-> c ∈ v.
Proof.
  unfold has_byte. rewrite existsb_exists. setoid_rewrite <- list_elem_of_In. setoid_rewrite bool_decide_eq_true.
  split; [by intros (x & ? & <-)|eauto].
Qed.

Lemma false_iff (b : bool) (P : Prop) : (b = true <-> P) -> b = false <-> ~ P.
Proof. intros H. destruct b; split; intuition congruence. Qed.

Lemma display_spec v maximum : validDisplay v maximum = true <-> display maximum v.
Proof.
  unfold validDisplay, display, trimmed. rewrite !andb_true_iff, negb_true_iff, !orb_false_iff, Z.ltb_lt, Z.leb_le.
  rewrite !(false_iff _ _ (has_byte_iff _ _)).
  rewrite (forallb_Forall_iff _ (fun sp => ~ (exists q, v = sp ++ q) /\ ~ (exists q, v = q ++ sp))).
  - rewrite Forall_forall. tauto.
  - intros sp. by rewrite andb_true_iff, !negb_true_iff, (false_iff _ _ (HasPrefix_iff _ _)), (false_iff _ _ (HasSuffix_iff _ _)).
Qed.

Lemma b2z_45 c : b2z c = 45 <-> c = x2d.
Proof. split; [|by intros ->]. intros E. rewrite <- (z2b_b2z c), E. done. Qed.

Lemma label_spec v : validLabel v = true <-> label v.
Proof.
  unfold validLabel, label. rewrite andb_true_iff, negb_true_iff, !orb_false_iff, bool_decide_eq_false, Z.ltb_ge, !Z.eqb_neq.
  rewrite (forallb_Forall_iff _ (fun c => lower_char c \/ b2z c = 45))
    by (intros c; rewrite orb_true_iff, lower_char_spec; unfold is_hyphen; by rewrite Z.eqb_eq).
  assert (H0 : v <> [] -> byte_at v 0 <> 45 <-> ~ exists q, v = x2d :: q).
  { intros Hv. destruct v as [|c v]; [done|]. unfold byte_at. cbn [nth]. rewrite b2z_45.
    split; [intros H [q [= -> _]]; done|intros H ->; eauto]. }
  assert (H1 : v <> [] -> byte_at v (length v - 1) <> 45 <-> ~ exists q, v = q ++ [x2d]).
  { intros Hv. destruct v as [|c q _] using rev_ind; [done|]. unfold byte_at. rewrite length_app. cbn [length].
    rewrite Nat.add_sub, nth_middle, b2z_45. split; [intros H [q' [_ ->]%app_inj_tail]; done|intros H ->; eauto]. }
  assert (Hl : v <> [] <-> 0 < len v).
  { destruct v as [|c v]; [done|]. rewrite len_cons. pose proof (len_nonneg v). split; [lia|done]. }
  split; [intros [[[[Hv ?] ?] ?] ?]|intros ([Hv%Hl ?] & ? & ? & ?)]; specialize (H0 Hv); specialize (H1 Hv); tauto.
Qed.

Lemma domain_spec v : validDomain v = true <-> domain v.
Proof.
  unfold validDomain, domain. rewrite andb_true_iff, negb_true_iff, !orb_false_iff, negb_false_iff, bool_decide_eq_true.
  rewrite (false_iff _ _ (HasSuffix_iff _ _)), (forallb_Forall_iff _ label) by apply label_spec.
  rewrite <- orb_false_iff, <- negb_true_iff, sized_spec. split; [intros [[[? E] ?] ?]|intros (? & E & ? & ?)]; by symmetry in E.
Qed.

Lemma address_spec v :
  match ParseAddr v with Some a => IsGlobalUnicast a | None => false end = true <-> global_address v.
Proof. unfold global_address. destruct (ParseAddr v) as [a|]; split; eauto; [by intros (? & [= ->] & ?)|done|by intros (? & ? & _)]. Qed.

Lemma prefix_spec v : valid_cidr v = true <-> canonical_prefix v.
Proof.
  unfold valid_cidr, canonical_prefix. destruct (ParsePrefix v) as [p|]; [rewrite bool_decide_eq_true|];
    split; eauto; [by intros (? & [= ->] & ?)|done|by intros (? & ? & _)].
Qed.

Lemma roles_spec roles seen :
  valid_roles roles seen = true <->
  roles ⊆ [RoleMaster; RoleIngress; RoleRelay; RoleEgress] /\ NoDup roles /\ (forall v, v ∈ roles -> v ∉ seen).
Proof.
  revert seen. induction roles as [|r roles IH]; intros seen; cbn [valid_roles].
  - split; [intros _|done]. split; [apply list_subseteq_nil|]. split; [constructor|]. intros v Hv. by apply elem_of_nil in Hv.
  - rewrite fresh_spec. destruct (_ || _ || _ || _) eqn:E; cbn [negb].
    + assert (Hr : r ∈ [RoleMaster; RoleIngress; RoleRelay; RoleEgress]).
      { rewrite !elem_of_cons. rewrite !orb_true_iff, !bool_decide_eq_true in E. tauto. }
      clear E. case_bool_decide; [split; [done|]; by intros (_ & ? & _)|]. rewrite IH. split.
      * intros (? & ? & ?). split; [|done]. intros x [->|Hx]%elem_of_cons; auto.
      * intros (Hs & _ & ? & ?). split; [|done]. intros x Hx. apply Hs. by right.
    + split; [done|]. intros (Hs & _). specialize (Hs r ltac:(left)).
      rewrite !elem_of_cons, elem_of_nil in Hs. rewrite !orb_false_iff, !bool_decide_eq_false in E. tauto.
Qed.

Lemma node_spec n : validateNode n = true <-> node n.
Proof.
  unfold validateNode. destruct (_ || _) eqn:G.
  - split; [done|]. intros [N1 N2 N3 N4 [N5 _] N6 N7 [N8 N9] (N10 & _) _]. exfalso.
    apply identifier_spec in N1. apply display_spec in N2, N3. apply domain_spec in N4. apply opaque_spec in N6.
    apply HasPrefix_iff in N7. rewrite N1, N2, N3, N4, N6, N7 in G. cbn [negb orb] in G.
    rewrite !orb_true_iff, !Z.ltb_lt, !Z.eqb_eq in G. lia.
  - rewrite !orb_false_iff, !negb_false_iff, !Z.ltb_ge, !Z.eqb_neq in G.
    destruct G as [[[[[[[[[[[G1%identifier_spec G2%display_spec] G3%display_spec] G4%domain_spec] G5] G6] G7%opaque_spec]
      G8%HasPrefix_iff] G9] G10] G11] G12].
    pose proof (len_nonneg (nd_PublicAddresses n)). pose proof (len_nonneg (nd_Roles n)).
    assert (HA := forallb_Forall_iff _ global_address (nd_PublicAddresses n) address_spec).
    pose proof (roles_spec (nd_Roles n) []) as HR.
    assert (HR' : valid_roles (nd_Roles n) [] = true <-> NoDup (nd_Roles n) /\
      nd_Roles n ⊆ [bytes_of "master"; bytes_of "ingress"; bytes_of "relay"; bytes_of "egress"]).
    { rewrite HR. split; [tauto|]. intros [? ?]. split; [done|]. split; [done|]. intros v _. apply not_elem_of_nil. }
    destruct (SplitHostPort (nd_NP2Endpoint n)) as [[host port]|] eqn:Eh.
    + destruct (_ || _) eqn:Ep.
      * split; [done|]. intros [_ _ _ _ _ _ _ _ _ (h & p & E & Hh & Hp)]. rewrite Eh in E. injection E as <- <-.
        by rewrite !bool_decide_eq_false_2 in Ep.
      * rewrite orb_false_iff, !bool_decide_eq_false in Ep. rewrite andb_true_iff, HA, HR'. split.
        -- intros [Ha [? ?]]. split; try done; [split; [lia|done]|split; [lia|done]|by exists host, port].
        -- intros [_ _ _ _ [_ ?] _ _ _ (_ & ? & ?) _]. done.
    + split; [done|]. intros [_ _ _ _ _ _ _ _ _ (h & p & E & _)]. rewrite Eh in E. done.
Qed.

Lemma match_spec m : valid_match m = true <-> route_match m.
Proof.
  unfold valid_match. rewrite !andb_true_iff, negb_true_iff, !orb_false_iff, !Z.ltb_ge.
  rewrite (forallb_Forall_iff _ domain), (forallb_Forall_iff _ canonical_prefix), (forallb_Forall_iff (valid_geo 16) (geo_name 16)),
    (forallb_Forall_iff (valid_geo 96) (geo_name 96)), (forallb_Forall_iff _ (fun p => From p <> 0 /\ From p <= To p)),
    (forallb_Forall_iff _ (fun p => p ∈ [bytes_of "tcp"; bytes_of "udp"])).
  - rewrite (Forall_forall (fun p => p ∈ _)). split; [intros; destruct_and?; by split|intros [[] [] [] [] [] []]; by split_and!].
  - intros p. unfold valid_protocol. rewrite orb_true_iff, !bool_decide_eq_true, !elem_of_cons, elem_of_nil. tauto.
  - intros p. unfold valid_ports. rewrite negb_true_iff, orb_false_iff, Z.eqb_neq, Z.ltb_ge. done.
  - intros v. apply geo_name_spec.
  - intros v. apply geo_name_spec.
  - apply prefix_spec.
  - intros v. unfold valid_suffix. rewrite negb_true_iff, orb_false_iff, !negb_false_iff, bool_decide_eq_true, domain_spec.
    split; [by intros [_ ?]|]. intros H. split; [|done]. by destruct H as (_ & -> & _).
Qed.

Lemma action_spec a : valid_action a = true <-> route_action a.
Proof.
  unfold valid_action, route_action.
  change (bytes_of "node") with RouteActionNode. change (bytes_of "chain") with RouteActionChain.
  case_bool_decide as E1; [rewrite Z.eqb_eq; split; [by left|]; intros [?|[[E _]|[E _]]]; [tauto| |]|].
  1: rewrite E1 in E; discriminate E.
  1: rewrite E1, !elem_of_cons, elem_of_nil in E; exfalso; intuition discriminate.
  case_bool_decide as E2.
  - rewrite negb_true_iff, !orb_false_iff, !Z.ltb_ge, hasDuplicates_spec. unfold MaxRouteHops.
    assert (HI : Forall (fun v => validIdentifier v 128 = true) (NodeIDs a) <-> Forall (identifier 128) (NodeIDs a)).
    { by split; intros H; (eapply Forall_impl; [exact H|]); intros v; apply identifier_spec. }
    split; [intros; right; left; tauto|]. intros [[? _]|[?|[E _]]]; [done|tauto|].
    rewrite E2, !elem_of_cons, elem_of_nil in E. exfalso; intuition discriminate.
  - assert (Hk : bool_decide (Kind a = RouteActionDirect) || bool_decide (Kind a = RouteActionCurrent)
        || bool_decide (Kind a = RouteActionBlock) || bool_decide (Kind a = RouteActionAuto) = true <->
      Kind a ∈ [bytes_of "direct"; bytes_of "current"; bytes_of "block"; bytes_of "auto"]).
    { rewrite !orb_true_iff, !bool_decide_eq_true, !elem_of_cons, elem_of_nil. tauto. }
    assert (Hn : len (NodeIDs a) =? 0 = true <-> NodeIDs a = []).
    { rewrite Z.eqb_eq. split; [apply len_0_nil|by intros ->]. }
    destruct (_ || _).
    + rewrite Hn. split; [intros; right; right; split; [by apply Hk|done]|]. intros [[? _]|[[? _]|[_ ?]]]; done.
    + split; [done|]. intros [[? _]|[[? _]|[?%Hk _]]]; done.
Qed.

Lemma route_spec nodes r : ValidateRoute r = true /\ NodeIDs (rt_Action r) ⊆ nodes <-> route nodes r.
Proof.
  unfold ValidateRoute. destruct (_ || _) eqn:G.
  - split; [by intros [? _]|]. intros [R1 R2 R3 _ _ _ _ _]. exfalso.
    apply identifier_spec in R1. apply display_spec in R2. rewrite R1, R2 in G. cbn [negb orb] in G.
    rewrite orb_true_iff, !Z.ltb_lt in G. lia.
  - rewrite !orb_false_iff, !negb_false_iff, !Z.ltb_ge in G. destruct G as [[[G1%identifier_spec G2%display_spec] G3] G4].
    change RouteSourceAdmin with (bytes_of "admin"). change RouteSourceClient with (bytes_of "client").
    destruct (negb _ && negb _) eqn:Gs.
    { split; [by intros [? _]|]. intros [_ _ _ [E|E] _ _ _ _]; rewrite andb_true_iff, !negb_true_iff, !bool_decide_eq_false in Gs; tauto. }
    destruct (rt_Mandatory r && _) eqn:Gm.
    { split; [by intros [? _]|]. intros [_ _ _ _ Hm _ _ _].
      rewrite andb_true_iff, negb_true_iff, bool_decide_eq_false in Gm. destruct Gm as [Gm ?]. tauto. }
    rewrite andb_false_iff, !negb_false_iff, !bool_decide_eq_true in Gs.
    rewrite andb_true_iff, match_spec, action_spec. split.
    + intros [[? ?] ?]. split; try done. intros Hm. rewrite Hm in Gm. cbn in Gm. by apply negb_false_iff, bool_decide_eq_true in Gm.
    + by intros [].
Qed.

Lemma access_spec s u : access_ok s u <-> access (map nd_ID (Nodes s)) (map rt_ID (Routes s)) u.
Proof.
  unfold access_ok. rewrite opaque_spec, Forall_app.
  assert (HI : forall l, Forall (fun v => validIdentifier v 128 = true) l <-> Forall (identifier 128) l).
  { intros l. by split; intros H; (eapply Forall_impl; [exact H|]); intros v; apply identifier_spec. }
  rewrite !HI. split; [intros; destruct_and?; by split|intros [? ? (? & ? & ?) (? & ? & ?)]; by split_and!].
Qed.

(** Exactly one element of a list satisfies a test. *)
Lemma filter_one {A} (f : A -> bool) l :
  length (List.filter f l) = 1%nat <->
  exists pre m post, l = pre ++ m :: post /\ f m = true /\ Forall (fun x => f x = false) (pre ++ post).
Proof.
  assert (H0 : forall l, List.filter f l = [] <-> Forall (fun x => f x = false) l).
  { clear l. induction l as [|x l IH]; [by split|]. cbn. rewrite Forall_cons. destruct (f x) eqn:E; rewrite ?IH; [|tauto].
    split; [done|by intros [? _]]. }
  split.
  - induction l as [|x l IH]; [done|]. cbn. destruct (f x) eqn:E.
    + intros [= Hl%nil_length_inv]. exists [], x, l. split; [done|]. split; [done|]. by apply H0.
    + intros (pre & m & post & -> & ? & ?)%IH. exists (x :: pre), m, post. split; [done|]. split; [done|]. by constructor.
  - intros (pre & m & post & -> & Hm & [H1%H0 H2%H0]%Forall_app). rewrite List.filter_app. cbn. by rewrite H1, Hm, H2.
Qed.

Lemma master_spec n : is_master n = true <-> bytes_of "master" ∈ nd_Roles n.
Proof.
  change (bytes_of "master") with RoleMaster. unfold is_master, containsRole. rewrite existsb_exists. split.
  - intros (x & Hx & Ex%bool_decide_eq_true). rewrite <- Ex. by apply list_elem_of_In.
  - intros H. exists RoleMaster. split; [by apply list_elem_of_In|by apply bool_decide_eq_true].
Qed.

Lemma Forall_spec {A} (P Q : A -> Prop) l : (forall x, P x <-> Q x) -> Forall P l <-> Forall Q l.
Proof. intros H. split; intros Hf; (eapply Forall_impl; [exact Hf|]); intros x; apply H. Qed.

Lemma valid_state_contract s : valid_state s <-> state s.
Proof.
  assert (HM : length (List.filter is_master (Nodes s)) = 1%nat <->
    exists pre m post, Nodes s = pre ++ m :: post /\ bytes_of "master" ∈ nd_Roles m /\
      Forall (fun n => bytes_of "master" ∉ nd_Roles n) (pre ++ post)).
  { rewrite filter_one. split; intros (pre & m & post & E & Hm & Hf); exists pre, m, post;
      (split; [done|]); (split; [by apply master_spec|]); (eapply Forall_impl; [exact Hf|]); intros n;
      by rewrite (false_iff _ _ (master_spec n)). }
  assert (HN := Forall_spec _ _ (Nodes s) node_spec).
  assert (HR := Forall_spec _ _ (Routes s) (route_spec (map nd_ID (Nodes s)))).
  assert (HA := Forall_spec _ _ (Access s) (access_spec s)).
  split.
  - intros [(H1 & H2%identifier_spec & H3 & H4) ([? ?] & ? & ?) [? ?] ? [? ?] [? ?]]. unfold MaxNodes, MaxRoutes, MaxUsers in *.
    split; try tauto. split; [lia|tauto].
  - intros [H1 H2%identifier_spec [H3 H4] ([? ?] & ? & ?) ? (? & ? & ?) (? & ? & ?)].
    unfold StateVersion. split; unfold MaxNodes, MaxRoutes, MaxUsers; try tauto. split; [lia|done].
Qed.
End Contract.

(** C20: [ValidateState] accepts exactly the states of a contract that names
    no validator ([Contract.state]): the alphabets and lengths of every
    identifier, name, domain and label; the literal global addresses and
    canonical prefixes; the bounds of counts, priorities and ports; the roles,
    sources, protocols and actions; mandatory routes only of the
    administrator; distinct identifiers, exactly one master node, and every
    node and route referred to present in the state. *)
Theorem ValidateState_exact s : ValidateState s = true <-> Contract.state s.
Proof. by rewrite ValidateState_valid, Contract.valid_state_contract. Qed.

(** ** The order of routes *)

#[global] Instance route_le_total : Total route_le.
Proof.
  intros l r. unfold route_le, route_leb. destruct (rt_Mandatory l), (rt_Mandatory r); cbn [eqb negb]; auto.
  all: rewrite (Z.eqb_sym (rt_Priority r)); destruct (Z.eqb_spec (rt_Priority l) (rt_Priority r)) as [E|E]; cbn [negb]; [apply bytes_le_total|].
  all: rewrite !Z.ltb_lt; lia.
Qed.

#[global] Instance route_le_trans : Transitive route_le.
Proof.
  intros l r t. unfold route_le, route_leb. destruct (rt_Mandatory l), (rt_Mandatory r), (rt_Mandatory t); cbn [eqb negb]; try done.
  all: destruct (Z.eqb_spec (rt_Priority l) (rt_Priority r)) as [E|E], (Z.eqb_spec (rt_Priority r) (rt_Priority t)) as [E'|E'],
    (Z.eqb_spec (rt_Priority l) (rt_Priority t)) as [F|F]; cbn [negb]; rewrite ?Z.ltb_lt; try lia; apply bytes_le_trans.
Qed.

Lemma route_le_antisym l r : route_le l r -> route_le r l -> rt_ID l = rt_ID r.
Proof.
  unfold route_le, route_leb. destruct (rt_Mandatory l), (rt_Mandatory r); cbn [eqb negb]; try done.
  all: rewrite (Z.eqb_sym (rt_Priority r)); destruct (Z.eqb_spec (rt_Priority l) (rt_Priority r)) as [E|E]; cbn [negb]; [apply bytes_le_antisym|].
  all: rewrite !Z.ltb_lt; lia.
Qed.

Lemma NoDup_map_inj {A B} (f : A -> B) (l : list A) x y : NoDup (map f l) -> x ∈ l -> y ∈ l -> f x = f y -> x = y.
Proof.
  induction l as [|a l IH]; cbn [map]; [intros _ []%elem_of_nil|]. intros [Ha Hn]%NoDup_cons Hx Hy E.
  assert (Hf : forall z, z ∈ l -> f z = f a -> False).
  { intros z Hz Ez. apply Ha. rewrite <- Ez. by apply list_elem_of_fmap_2. }
  apply elem_of_cons in Hx as [->|Hx], Hy as [->|Hy]; [done| | |by apply IH]; exfalso; [by apply (Hf y)|by apply (Hf x)].
Qed.

Definition candidates (adminRoutes localRoutes : list Route) (allow : bool) : list Route :=
  filter effective_admin adminRoutes ++ (if allow then filter effective_local localRoutes else []).

(** the enabled routes with distinct identifiers have exactly one order that
    satisfies [less] (mandatory first, then priority, then identifier), and
    [EffectiveRoutes] is it: what an unstable sort does cannot matter. *)
Theorem effective_routes_determined admin local allow l :
  NoDup (map rt_ID (candidates admin local allow)) ->
  l ≡ₚ candidates admin local allow -> StronglySorted route_le l -> EffectiveRoutes admin local allow = l.
Proof.
  intros Hn Hp Hs. unfold EffectiveRoutes. fold (candidates admin local allow).
  apply (StronglySorted_unique_strong route_le); [|apply StronglySorted_merge_sort; apply _|done|by rewrite merge_sort_Permutation].
  intros x y Hx Hy H1 H2. rewrite merge_sort_Permutation in Hx. rewrite Hp in Hy. eapply NoDup_map_inj; eauto. by apply route_le_antisym.
Qed.

Lemma elem_of_effective r admin local allow :
  r ∈ EffectiveRoutes admin local allow <->
  r ∈ admin /\ effective_admin r \/ allow = true /\ r ∈ local /\ effective_local r.
Proof.
  unfold EffectiveRoutes. rewrite merge_sort_Permutation, elem_of_app, list_elem_of_filter.
  destruct allow; [rewrite list_elem_of_filter|rewrite elem_of_nil]; intuition congruence.
Qed.

(** The first match of a sorted list is the least. *)
Lemma find_least (f : Route -> bool) l r : StronglySorted route_le l -> find f l = Some r ->
  r ∈ l /\ f r = true /\ (forall r', r' ∈ l -> f r' = true -> route_le r r').
Proof.
  induction 1 as [|a l Hs IH Ha]; [done|]. cbn [find]. destruct (f a) eqn:E.
  - intros [= <-]. split; [constructor|]. split; [done|]. intros r' [->|Hr]%elem_of_cons _; [by destruct (route_le_total a a)|].
    rewrite Forall_forall in Ha. by apply Ha.
  - intros H. destruct (IH H) as (H1 & H2 & H3). split; [by constructor|]. split; [done|]. intros r' [->|Hr]%elem_of_cons Hf; [congruence|by apply H3].
Qed.

Lemma find_none_elem {A} (f : A -> bool) l x : find f l = None -> x ∈ l -> f x = false.
Proof. intros H Hx. apply (find_none f l H). by apply list_elem_of_In. Qed.

Lemma effective_find f admin r : find f (EffectiveRoutes admin [] false) = Some r ->
  (r ∈ admin /\ effective_admin r) /\ f r = true /\ (forall r', r' ∈ admin -> effective_admin r' -> f r' = true -> route_le r r').
Proof.
  intros H. apply find_least in H as (H1 & H2 & H3); [|apply StronglySorted_merge_sort; apply _].
  apply elem_of_effective in H1 as [H1|[? _]]; [|done]. split; [done|]. split; [done|].
  intros r' Hr He Hf. apply H3; [|done]. apply elem_of_effective. by left.
Qed.

(** ** The routes of a user *)

Lemma find_access_elem s userID access : find_access s userID = Some access -> access ∈ Access s /\ ua_UserID access = userID.
Proof. intros [H1 H2]%find_some. apply bool_decide_eq_true in H2. split; [by apply list_elem_of_In|done]. Qed.

Lemma find_access_unique s access : valid_state s -> access ∈ Access s -> find_access s (ua_UserID access) = Some access.
Proof.
  intros [_ _ _ _ _ [_ Hn]] Hin. destruct (find_access s (ua_UserID access)) as [a|] eqn:E.
  - apply find_access_elem in E as [Ha E]. f_equal. by eapply NoDup_map_inj.
  - eapply find_none_elem in E; [|exact Hin]. rewrite bool_decide_eq_true_2 in E; done.
Qed.

(** A route of the administrator that applies to a user's target. *)
Definition applies (access : UserAccess) (target : Target) (matcher : option GeoMatchEvaluator) (r : Route) : Prop :=
  effective_admin r /\ rt_ID r ∈ AllowedRouteIDs access /\ MatchesWith r target matcher = true.

Lemma valid_nodes s access : valid_state s -> access ∈ Access s -> AllowedNodeIDs access ⊆ map nd_ID (Nodes s).
Proof. intros [_ _ _ _ _ [H _]] Ha. rewrite Forall_forall in H. by destruct (H _ Ha) as (_ & _ & [_ ?] & _). Qed.

Lemma valid_route_nodes s r : valid_state s -> r ∈ Routes s -> NodeIDs (rt_Action r) ⊆ map nd_ID (Nodes s).
Proof. intros [_ _ _ _ [H _] _] Ha. rewrite Forall_forall in H. by destruct (H _ Ha) as (_ & ?). Qed.

Lemma resolve_ok s userID target matcher action id :
  ResolveRouteForUserWithMatcher s userID target matcher = Ok (action, id) ->
  exists access, valid_state s /\ access ∈ Access s /\ ua_UserID access = userID /\ NodeIDs action ⊆ AllowedNodeIDs access /\
    ((exists r, r ∈ Routes s /\ applies access target matcher r /\ action = rt_Action r /\ id = rt_ID r /\
        forall r', r' ∈ Routes s -> applies access target matcher r' -> route_le r r') \/
     (action = mkAction RouteActionCurrent [] /\ id = [] /\ forall r, r ∈ Routes s -> ~ applies access target matcher r)).
Proof.
  unfold ResolveRouteForUserWithMatcher. destruct (ValidateState s) eqn:Hv; [|done]. destruct (validOpaqueID userID 128); [|done]. cbn [negb orb].
  apply ValidateState_valid in Hv. destruct (find_access s userID) as [access|] eqn:Ha; [|done]. apply find_access_elem in Ha as [Ha Hu].
  destruct (find _ _) as [r|] eqn:Ef.
  - destruct (forallb _ _) eqn:Hn; [|done]. apply forallb_subset in Hn. intros [= <- <-]. exists access. do 4 (split; [done|]). left. exists r.
    apply effective_find in Ef as ((H1 & H2) & H3 & H4). unfold permitted_match in *. apply andb_prop in H3 as [H3%bool_decide_eq_true H5].
    do 2 (split; [done|]). do 2 (split; [done|]). intros r' Hr (He & Hal & Hm). apply H4; [done|done|]. by rewrite bool_decide_eq_true_2.
  - intros [= <- <-]. exists access. do 3 (split; [done|]). split; [apply list_subseteq_nil|]. right. do 2 (split; [done|]). intros r Hr (He & Hal & Hm).
    eapply find_none_elem in Ef; [|apply elem_of_effective; left; split; eassumption]. unfold permitted_match in Ef. by rewrite bool_decide_eq_true_2, Hm in Ef.
Qed.

(** C21: the route a client asks for is granted only within its rights: it is
    known to the state, allowed to choose, and every node of the answer is one
    of its allowed nodes, unless the answer is a mandatory route that the
    administrator gave it; every node exists. *)
Theorem client_route_authorized s userID target request matcher action id :
  ResolveClientRouteForUserWithMatcher s userID target request matcher = Ok (action, id) ->
  exists access, access ∈ Access s /\ ua_UserID access = userID /\ AllowClientRoutes access = true /\
    NodeIDs action ⊆ map nd_ID (Nodes s) /\
    (NodeIDs action ⊆ AllowedNodeIDs access \/
     exists r, r ∈ Routes s /\ applies access target matcher r /\ rt_Mandatory r = true /\ action = rt_Action r /\ id = rt_ID r).
Proof.
  unfold ResolveClientRouteForUserWithMatcher. destruct (ValidateState s) eqn:Hv; [|done]. apply ValidateState_valid in Hv.
  destruct (ValidateClientRouteRequest request); [|done]. destruct (validOpaqueID userID 128) eqn:Hu; [|done]. cbn [negb orb].
  destruct (find_access s userID) as [access|] eqn:Ha; [|done]. destruct (AllowClientRoutes access) eqn:Hc; [|done]. cbn [negb].
  apply find_access_elem in Ha as [Ha HU]. assert (Hall := valid_nodes s access Hv Ha).
  destruct (find _ _) as [r|] eqn:Ef.
  - intros [= <- <-]. apply effective_find in Ef as ((H1 & H2) & H3 & _). rewrite !andb_true_iff, bool_decide_eq_true in H3. destruct H3 as [[H3 H4] H5].
    exists access. do 3 (split; [done|]). split; [by apply valid_route_nodes|]. right. by exists r.
  - case_bool_decide.
    + intros (access' & _ & Ha' & HU' & Hn & _)%resolve_ok. assert (access' = access) as ->.
      { destruct Hv as [_ _ _ _ _ [_ Hnd]]. eapply NoDup_map_inj; eauto. congruence. }
      exists access. do 3 (split; [done|]). split; [set_solver|by left].
    + destruct (forallb _ _) eqn:Hn; [|done]. apply forallb_subset in Hn. intros [= <- <-]. exists access. do 3 (split; [done|]). split; [set_solver|by left].
Qed.

(** administrator policy comes first: if a mandatory route given to the user
    applies to the target, the least such route is the answer, whatever the
    client asked for. *)
Theorem mandatory_policy_wins s access target request matcher r :
  ValidateState s = true -> access ∈ Access s -> AllowClientRoutes access = true -> ValidateClientRouteRequest request = true ->
  r ∈ Routes s -> applies access target matcher r -> rt_Mandatory r = true ->
  exists least, least ∈ Routes s /\ applies access target matcher least /\ rt_Mandatory least = true /\ route_le least r /\
    ResolveClientRouteForUserWithMatcher s (ua_UserID access) target request matcher = Ok (rt_Action least, rt_ID least).
Proof.
  intros Hv Ha Hc Hreq Hr (He & Hal & Hm) Hmand. unfold ResolveClientRouteForUserWithMatcher. rewrite Hv, Hreq. apply ValidateState_valid in Hv.
  assert (Ho : validOpaqueID (ua_UserID access) 128 = true).
  { destruct Hv as [_ _ _ _ _ [H _]]. rewrite Forall_forall in H. by destruct (H _ Ha). }
  rewrite Ho, (find_access_unique s access Hv Ha), Hc. cbn [negb orb].
  destruct (find _ _) as [least|] eqn:Ef.
  - apply effective_find in Ef as ((H1 & H2) & H3 & H4). rewrite !andb_true_iff, bool_decide_eq_true in H3. destruct H3 as [[H3 H5] H6].
    exists least. split; [done|]. split; [done|]. split; [done|]. split; [|done]. apply H4; [done|done|]. by rewrite bool_decide_eq_true_2, Hmand, Hm.
  - eapply find_none_elem in Ef; [|apply elem_of_effective; left; split; eassumption]. by rewrite bool_decide_eq_true_2, Hmand, Hm in Ef.
Qed.

(** ** Relay requests *)

Lemma check_visited_ok ids current seen seen' : check_visited ids current seen = Ok seen' ->
  Forall (fun id => validIdentifier id 64 = true) ids /\ current ∉ ids /\ (NoDup ids /\ (forall v, v ∈ ids -> v ∉ seen)) /\ seen' = rev ids ++ seen.
Proof.
  revert seen. induction ids as [|id ids IH]; intros seen; cbn [check_visited rev].
  - intros [= <-]. split; [constructor|]. split; [apply not_elem_of_nil|]. split; [split; [constructor|]|done]. intros v Hv. by apply elem_of_nil in Hv.
  - destruct (validIdentifier id 64) eqn:E; [|done]. cbn [negb]. case_bool_decide as Hc; [done|]. case_bool_decide as Hs; [done|].
    intros (H1 & H2 & H3 & ->)%IH. rewrite <- app_assoc, fresh_spec, not_elem_of_cons, Forall_cons. intuition congruence.
Qed.

Lemma check_remaining_ok ids current seen seen' : check_remaining ids current seen = Ok seen' ->
  Forall (fun id => validIdentifier id 64 = true) ids /\ current ∉ ids /\ (NoDup ids /\ (forall v, v ∈ ids -> v ∉ seen)).
Proof.
  revert seen. induction ids as [|id ids IH]; intros seen; cbn [check_remaining].
  - intros [= <-]. split; [constructor|]. split; [apply not_elem_of_nil|]. split; [constructor|]. intros v Hv. by apply elem_of_nil in Hv.
  - destruct (validIdentifier id 64) eqn:E; [|done]. cbn [negb orb]. case_bool_decide as Hc; [done|]. case_bool_decide as Hs; [done|].
    intros (H1 & H2 & H3)%IH. rewrite fresh_spec, not_elem_of_cons, Forall_cons. intuition congruence.
Qed.

(** What an accepted relay request satisfies: the path already taken, the
    current node and the nodes to come are distinct, and the hops are counted. *)
Lemma relay_request_path request current : ValidateRelayRequest request current = Ok tt ->
  NoDup (VisitedNodeIDs request ++ current :: RemainingNodeIDs request) /\
  RemainingHops request = len (RemainingNodeIDs request) + 1 /\ RemainingHops request <= MaxRouteHops /\ len (VisitedNodeIDs request) <= MaxRouteHops.
Proof.
  unfold ValidateRelayRequest. destruct (_ || _) eqn:G; [done|]. rewrite !orb_false_iff, !Z.ltb_ge in G. destruct G as [[_ Hv] Hrem].
  destruct (match rr_ClientRoute request with Some _ => _ | None => _ end); [done|].
  destruct (_ || _) eqn:G; [done|]. rewrite !orb_false_iff, !Z.eqb_neq, !Z.ltb_ge in G. destruct G as [G1 G2].
  destruct (check_visited _ _ _) as [seen|] eqn:E1; [|done]. apply check_visited_ok in E1 as (_ & V1 & [V2 _] & ->). cbn [mbind res_bind].
  destruct (check_remaining _ _ _) as [?|] eqn:E2; [|done]. apply check_remaining_ok in E2 as (_ & R1 & R2 & R3). cbn [mbind res_bind].
  destruct (Z.eqb_spec (RemainingHops request) (len (RemainingNodeIDs request) + 1)) as [Eh|]; [cbn [negb]|done]. intros _.
  split; [|done]. apply NoDup_app. split; [done|]. split; [|by apply NoDup_cons]. intros x Hx [->|Hr]%elem_of_cons; [done|].
  apply (R3 x Hr). rewrite app_nil_r. apply list_elem_of_In. rewrite <- in_rev. by apply list_elem_of_In.
Qed.

(** ** What a catalog shows *)

Lemma in_filter {A} (f : A -> bool) l x : x ∈ List.filter f l <-> x ∈ l /\ f x = true.
Proof. rewrite !list_elem_of_In. apply filter_In. Qed.

Lemma client_route_same r : rt_ID (client_route r) = rt_ID r /\ rt_Enabled (client_route r) = rt_Enabled r /\ rt_Source (client_route r) = rt_Source r.
Proof. unfold client_route. by destruct (_ || _). Qed.

(** A client that ignores GeoIP matches the published copy of a route only where
    the route matches without GeoIP, or on a name under the reserved suffix. *)
Lemma client_route_closed r target : Matches (client_route r) target = true ->
  Matches r target = true \/ suffix_matches (TrimSuffix (ToLower (Domain target)) [x2e]) geoClientFallbackDomain = true.
Proof.
  unfold client_route. destruct (_ || _) eqn:G; [|by left]. unfold Matches, MatchesWith. cbn [rt_Enabled rt_Match DomainSuffixes CIDRs GeoIPCountries GeoSiteCategories PortRanges Protocols].
  destruct (_ || _ || _); [done|]. destruct ((0 <? len (Protocols _)) && _); [done|]. destruct ((0 <? len (PortRanges _)) && _); [done|].
  assert (E1 : forall b, b && (len (GeoIPCountries (rt_Match r)) =? 0) && (len (GeoSiteCategories (rt_Match r)) =? 0) = false).
  { intros b. apply orb_prop in G. rewrite !Z.ltb_lt in G. destruct (Z.eqb_spec (len (GeoIPCountries (rt_Match r))) 0), (Z.eqb_spec (len (GeoSiteCategories (rt_Match r))) 0); destruct b; cbn; lia || done. }
  rewrite !E1, existsb_app. cbn [existsb]. destruct (existsb _ (DomainSuffixes _)); [by left|].
  cbn [orb]. rewrite orb_false_r. destruct (suffix_matches _ geoClientFallbackDomain); [by right|]. by left.
Qed.

(** a catalog shows a user exactly its allowed visible nodes and its enabled
    administrator routes, and a client that cannot evaluate GeoIP fails closed
    on them: it never applies a rule to a target the rule does not name. *)
Theorem catalog_scope s userID now ttl catalog :
  BuildCatalog s userID now ttl = Ok catalog ->
  exists access, access ∈ Access s /\ ua_UserID access = userID /\ ct_UserID (ct_unsigned catalog) = userID /\
    (forall sv, sv ∈ Servers (ct_unsigned catalog) <-> exists n, n ∈ Nodes s /\ nd_ID n ∈ AllowedNodeIDs access /\ nd_ClientVisible n = true /\ sv = catalog_server n) /\
    (forall r', r' ∈ AdminRoutes (ct_unsigned catalog) <-> exists r, r ∈ Routes s /\ effective_admin r /\ rt_ID r ∈ AllowedRouteIDs access /\ r' = client_route r) /\
    (forall r target, Matches (client_route r) target = true ->
       Matches r target = true \/ suffix_matches (TrimSuffix (ToLower (Domain target)) [x2e]) geoClientFallbackDomain = true).
Proof.
  unfold BuildCatalog. destruct (_ || _); [done|]. destruct (find_access s userID) as [access|] eqn:Ha; [|done]. apply find_access_elem in Ha as [Ha HU].
  destruct (_ =? 0); [done|]. intros [= <-]. cbn [ct_unsigned ct_UserID Servers AdminRoutes]. exists access. do 3 (split; [done|]). split; [|split; [|apply client_route_closed]].
  - intros sv. rewrite list_elem_of_fmap. setoid_rewrite in_filter. unfold visible_server. setoid_rewrite andb_true_iff. setoid_rewrite bool_decide_eq_true.
    split; [intros (n & -> & ? & ? & ?)|intros (n & ? & ? & ? & ->)]; exists n; auto.
  - intros r'. rewrite elem_of_effective. unfold catalog_routes. rewrite list_elem_of_fmap. setoid_rewrite in_filter. setoid_rewrite andb_true_iff. setoid_rewrite bool_decide_eq_true.
    split.
    + intros [[(r & -> & Hr & Hal & Hs) He]|[? _]]; [|done]. exists r. destruct (client_route_same r) as (E1 & E2 & E3). unfold effective_admin in *. rewrite E2, E3 in He. auto.
    + intros (r & Hr & He & Hal & ->). left. destruct (client_route_same r) as (E1 & E2 & E3). unfold effective_admin in *. rewrite E2, E3. split; [|done]. exists r. tauto.
Qed.

Lemma length_list_filter {A} (f : A -> bool) l : (length (List.filter f l) <= length l)%nat.
Proof. induction l as [|a l IH]; cbn; [done|]. destruct (f a); cbn; lia. Qed.

Section SignedProofs.
Context (Sign : list byte -> list byte -> list byte) (Verify : list byte -> list byte -> list byte -> bool).
Context (json_catalog : unsignedCatalog -> option (list byte)) (parse_catalog : list byte -> option unsignedCatalog).
Context (json_envelope : CatalogEnvelope -> option (list byte)) (parse_envelope : list byte -> option CatalogEnvelope).
Context (object_keys : list byte -> option (list (list byte))).

Abbreviation decode := (DecodeAndVerifyCatalogEnvelope Verify json_catalog parse_catalog parse_envelope object_keys).
Abbreviation encode := (EncodeCatalogEnvelope json_catalog json_envelope).

(** a catalog that a client accepts carries a signature of its own content
    by the cluster's key, is of the client's cluster, is not older than the
    revision the client has seen, and is valid at the client's time. *)
Theorem catalog_verified raw publicKey clusterID minimum now catalog :
  decode raw publicKey clusterID minimum now = Ok catalog ->
  let c := ct_unsigned catalog in
  (exists payload signature, json_catalog c = Some payload /\ b64_decode (Signature catalog) = Some signature /\ Verify publicKey payload signature = true) /\
  ct_ClusterID c = clusterID /\ minimum <= ct_Revision c /\ 0 < len (Servers c) <= MaxNodes /\
  IssuedAt c - 300 * second <= now < ExpiresAt c /\ ExpiresAt c - IssuedAt c <= MaxCatalogTTL.
Proof using.
  unfold DecodeAndVerifyCatalogEnvelope. destruct (_ || _); [done|]. destruct (negb _); [done|].
  destruct (parse_envelope raw) as [envelope|]; [|done]. destruct (negb _); [done|]. destruct (b64_decode _) as [payload|]; [|done].
  destruct (_ || _); [done|]. destruct (parse_catalog payload) as [unsigned|]; [|done].
  destruct (VerifyCatalog _ _ _ _ _ _ _) as [[]|] eqn:Hv; [|done]. cbn [mbind res_bind]. intros [= <-]. cbn [ct_unsigned]. revert Hv.
  unfold VerifyCatalog, canonicalCatalogBytes. cbn [ct_unsigned]. destruct (_ || _) eqn:G; [done|]. rewrite !orb_false_iff, !Z.ltb_ge, Z.eqb_neq in G.
  case_bool_decide as Hc; [cbn [negb]|done]. destruct (Z.ltb_spec (ct_Revision unsigned) minimum); [done|].
  destruct (_ || _) eqn:G2; [done|]. rewrite orb_false_iff, negb_false_iff, Z.ltb_ge, Z.ltb_lt in G2.
  destruct (b64_decode _) as [signature|] eqn:Es; [|done]. destruct (negb (len signature =? SignatureSize)); [done|]. destruct (json_catalog unsigned) as [p|] eqn:Ej; [|done].
  destruct (_ || _) eqn:G3; [done|]. apply orb_false_iff in G3 as [_ G3%negb_false_iff]. intros _.
  rewrite !Z.eqb_neq in G. split; [by exists p, signature|]. split; [done|]. split; [done|]. split; [unfold len in *; lia|]. split; [unfold second in *; lia|]. lia.
Qed.

(** The strings of a catalog are UTF-8: [json.Marshal] replaces what is not. *)
Definition server_utf8 (v : CatalogServer) : Prop :=
  Forall (fun x => utf8_valid x = true)
    ([sv_NodeID v; sv_Name v; sv_Region v; ServerIdentity v; sv_HTTPSPath v; sv_WebRTCPath v; sv_HTTP3Path v] ++ ServerAddresses v).
Definition route_utf8 (r : Route) : Prop :=
  Forall (fun x => utf8_valid x = true)
    ([rt_ID r; rt_Name r; rt_Source r; Kind (rt_Action r)] ++ NodeIDs (rt_Action r) ++ DomainSuffixes (rt_Match r) ++ CIDRs (rt_Match r)
     ++ GeoIPCountries (rt_Match r) ++ GeoSiteCategories (rt_Match r) ++ Protocols (rt_Match r)).
Definition catalog_utf8 (c : unsignedCatalog) : Prop :=
  utf8_valid (ct_ClusterID c) = true /\ utf8_valid (ct_UserID c) = true /\
  Forall server_utf8 (Servers c) /\ Forall route_utf8 (AdminRoutes c).

(** The documented behaviour of Ed25519, for the pairs (public key, private
    key) that [ed25519.GenerateKey] returns, and of encoding/json, for UTF-8
    strings. *)
Context (generated : list byte -> list byte -> Prop).
Hypothesis generated_sizes : forall public key, generated public key -> len public = PublicKeySize /\ len key = PrivateKeySize.
Hypothesis sign_size : forall public key msg, generated public key -> len (Sign key msg) = SignatureSize.
Hypothesis sign_verifies : forall public key msg, generated public key -> Verify public msg (Sign key msg) = true.
Hypothesis parse_json_catalog : forall c raw, catalog_utf8 c -> json_catalog c = Some raw -> parse_catalog raw = Some c /\ raw <> [].
Hypothesis parse_json_envelope : forall e raw, utf8_valid (en_Payload e) = true -> utf8_valid (en_Signature e) = true ->
  json_envelope e = Some raw ->
  parse_envelope raw = Some e /\ raw <> [] /\ object_keys raw = Some [bytes_of "version"; bytes_of "payload"; bytes_of "signature"].

(** C22: the catalog a server builds for a user, signs with a generated key
    and encodes is the one the user's client decodes with the public key, at
    any time of its validity, when the names and paths it carries are UTF-8. *)
Theorem catalog_published s userID issued ttl public key catalog signed raw minimum now :
  generated public key ->
  BuildCatalog s userID issued ttl = Ok catalog -> catalog_utf8 (ct_unsigned catalog) ->
  SignCatalog Sign json_catalog catalog key = Ok signed ->
  encode signed = Ok raw ->
  0 < issued -> minimum <= Revision s -> issued - 300 * second <= now < issued + ttl ->
  decode raw public (ClusterID s) minimum now = Ok signed /\ ct_unsigned signed = ct_unsigned catalog.
Proof using parse_json_catalog parse_json_envelope generated_sizes sign_size sign_verifies.
  intros Hgen Hb Hutf Hs He Hi Hmin Hnow. destruct (generated_sizes _ _ Hgen) as [Hpub _]. pose proof (fun msg => sign_size _ _ msg Hgen) as Hsz.
  pose proof (fun msg => sign_verifies _ _ msg Hgen) as Hsv. revert Hb. unfold BuildCatalog. destruct (_ || _) eqn:G; [done|].
  rewrite !orb_false_iff, !negb_false_iff, Z.eqb_neq, Z.leb_gt, Z.ltb_ge in G. destruct G as [[[[Hv Hu] Hnz] Httl] Hmax].
  apply ValidateState_valid in Hv. destruct Hv as [(_ & _ & Hrev & _) ((_ & Hns) & Hrs & _) _ _ _ _].
  destruct (find_access s userID) as [access|]; [|done]. destruct (Z.eqb_spec (len (map catalog_server (List.filter (visible_server access) (Nodes s)))) 0) as [|Hsn]; [done|].
  set (servers := map _ _) in *. set (routes := EffectiveRoutes _ _ _). intros [= <-]. cbn [ct_unsigned] in Hutf.
  assert (Hls : len servers <= MaxNodes).
  { unfold servers, len in *. rewrite length_map. pose proof (length_list_filter (visible_server access) (Nodes s)). lia. }
  assert (Hlr : len routes <= MaxRoutes).
  { unfold routes, EffectiveRoutes. rewrite app_nil_r. unfold len in *. rewrite merge_sort_Permutation.
    etransitivity; [apply inj_le, length_filter|]. unfold catalog_routes. rewrite length_map.
    etransitivity; [apply inj_le, length_list_filter|]. done. }
  revert Hs. unfold SignCatalog, canonicalCatalogBytes. cbn [ct_unsigned]. destruct (Z.eqb_spec (len key) PrivateKeySize) as [Hk|]; [cbn [negb]|done].
  set (unsigned := mkUnsigned _ _ _ _ _ _ _ _ _ _). destruct (json_catalog unsigned) as [payload|] eqn:Ej; [|done].
  destruct (Z.ltb_spec MaxCatalogBytes (len payload)); [done|]. intros [= <-]. revert He. unfold EncodeCatalogEnvelope, canonicalCatalogBytes.
  cbn [ct_unsigned Signature]. rewrite Ej, b64_decode_encode, Hsz. change (negb (SignatureSize =? SignatureSize)) with false.
  destruct (Z.eqb_spec (len payload) 0) as [|Hp0]; [done|]. destruct (Z.ltb_spec MaxCatalogBytes (len payload)); [done|]. cbn [orb]. cbn iota.
  destruct (json_envelope _) as [raw'|] eqn:Ee; [|done]. destruct (Z.ltb_spec MaxCatalogBytes (len raw')); [done|]. intros [= ->].
  destruct (parse_json_envelope (mkEnvelope _ (b64_encode payload) (b64_encode (Sign key payload))) _ (b64_encode_utf8 _) (b64_encode_utf8 _) Ee) as (Pe & Hne & Hkeys). destruct (parse_json_catalog unsigned _ Hutf Ej) as (Pc & _).
  split; [|done]. unfold DecodeAndVerifyCatalogEnvelope, rejectDuplicateEnvelopeFields. rewrite Hkeys, Pe.
  destruct (Z.eqb_spec (len raw) 0) as [E0|]; [destruct raw; [done|unfold len in E0; cbn in E0; lia]|]. destruct (Z.ltb_spec MaxCatalogBytes (len raw)); [lia|].
  cbn [orb en_Version en_Payload en_Signature]. change (negb (distinct_keys _ [])) with false. change (negb (CatalogVersion =? CatalogVersion)) with false. cbn iota.
  rewrite b64_decode_encode, Pc. destruct (Z.eqb_spec (len payload) 0); [done|]. destruct (Z.ltb_spec MaxCatalogBytes (len payload)); [lia|]. cbn [orb]. cbn iota.
  assert (Hver : VerifyCatalog Verify json_catalog (mkCatalog unsigned (b64_encode (Sign key payload))) public (ClusterID s) minimum now = Ok tt).
  { unfold VerifyCatalog, canonicalCatalogBytes. cbn [ct_unsigned Signature]. rewrite Hpub, b64_decode_encode, Hsz, Ej, Hsv.
    unfold unsigned. cbn [ct_Version ct_UserID ct_Revision IssuedAt ExpiresAt Servers AdminRoutes ct_ClusterID]. rewrite Hu.
    change (PublicKeySize =? PublicKeySize) with true. change (CatalogVersion =? CatalogVersion) with true. change (SignatureSize =? SignatureSize) with true.
    rewrite (bool_decide_eq_true_2 (ClusterID s = ClusterID s)) by done. cbn [negb orb].
    repeat match goal with
      | |- context [?a =? ?b] => destruct (Z.eqb_spec a b); [lia|]
      | |- context [?a <? ?b] => destruct (Z.ltb_spec a b); [unfold second in *; lia|] || (destruct (Z.ltb_spec a b); [|unfold second in *; lia])
      | |- context [?a <=? ?b] => destruct (Z.leb_spec a b); [lia|]
      end; cbn [orb negb]. all: try done. all: unfold len, second in *; lia. }
  rewrite Hver. done.
Qed.
End SignedProofs.

(** ** A cluster of a master and two edges *)

Module ClusterExample.
Definition node (id : string) (role : list byte) (visible : bool) : Node :=
  mkNode (bytes_of id) (bytes_of "Node") (bytes_of "EU") [role] (bytes_of "n.example") [bytes_of "8.8.8.8"] (bytes_of "n.example:443") [] [] [] false
    true visible (bytes_of "cred") (bytes_of "SHA256:x") 1 1.

Definition everything : RouteMatch := mkMatch [] [] [] [] [] [].
Definition names (suffix : string) : RouteMatch := mkMatch [bytes_of suffix] [] [] [] [] [].
Definition route (id : string) (priority : Z) (mandatory : bool) (m : RouteMatch) (kind : list byte) (ids : list (list byte)) : Route :=
  mkRoute (bytes_of id) (bytes_of "r") priority true RouteSourceAdmin mandatory m (mkAction kind ids).

Definition blocked : Route := route "ads" 7 true (names "ads.example") RouteActionBlock [].
Definition via_b : Route := route "via-b" 5 false everything RouteActionNode [bytes_of "b"].
Definition access : UserAccess := mkAccess (bytes_of "user") [bytes_of "a"; bytes_of "b"] [bytes_of "via-b"; bytes_of "ads"] true true 1.
Definition state : State :=
  mkState 1 (bytes_of "c") 4 [node "m" RoleMaster false; node "a" RoleIngress true; node "b" RoleEgress true] [via_b; blocked] [access] 1.

Definition target (name : string) : Target := mkTarget (bytes_of name) AddrInvalid 443 ProtocolTCP.
Definition request (kind : list byte) (ids : list (list byte)) : ClientRouteRequest := mkClientRoute 1 (bytes_of "mine") (mkAction kind ids).

Example state_valid : ValidateState state = true.
Proof. vm_compute. reflexivity. Qed.

Example order : map rt_ID (EffectiveRoutes (Routes state) [] false) = [bytes_of "ads"; bytes_of "via-b"].
Proof. vm_compute. reflexivity. Qed.

Example resolve_examples :
  ResolveRouteForUserWithMatcher state (bytes_of "user") (target "a.org") None = Ok (mkAction RouteActionNode [bytes_of "b"], bytes_of "via-b") /\
  ResolveClientRouteForUserWithMatcher state (bytes_of "user") (target "a.org") (request RouteActionNode [bytes_of "m"]) None = Err ErrClientRouteUnauthorized /\
  ResolveClientRouteForUserWithMatcher state (bytes_of "user") (target "x.ads.example.") (request RouteActionDirect []) None
    = Ok (mkAction RouteActionBlock [], bytes_of "ads").
Proof. vm_compute. repeat split; reflexivity. Qed.

Lemma effective_routes_determined_witness :
  NoDup (map rt_ID (candidates (Routes state) [] false)) /\ EffectiveRoutes (Routes state) [] false = [blocked; via_b].
Proof.
  assert (Hn : NoDup (map rt_ID (candidates (Routes state) [] false))) by (apply (bool_decide_eq_true_1 _); vm_compute; reflexivity).
  split; [exact Hn|]. apply (effective_routes_determined (Routes state) [] false [blocked; via_b] Hn).
  - replace (candidates (Routes state) [] false) with [via_b; blocked] by (vm_compute; reflexivity). constructor.
  - apply (bool_decide_eq_true_1 _). vm_compute. reflexivity.
Defined.

Lemma client_route_authorized_witness :
  ResolveClientRouteForUserWithMatcher state (bytes_of "user") (target "a.org") (request RouteActionNode [bytes_of "a"]) None
    = Ok (mkAction RouteActionNode [bytes_of "a"], bytes_of "mine") /\
  exists access, access ∈ Access state /\ ua_UserID access = bytes_of "user" /\ AllowClientRoutes access = true.
Proof.
  assert (E : ResolveClientRouteForUserWithMatcher state (bytes_of "user") (target "a.org") (request RouteActionNode [bytes_of "a"]) None
    = Ok (mkAction RouteActionNode [bytes_of "a"], bytes_of "mine")) by (vm_compute; reflexivity).
  split; [exact E|]. destruct (client_route_authorized _ _ _ _ _ _ _ E) as (a & H1 & H2 & H3 & _). exists a. split; [exact H1|]. split; [exact H2|exact H3].
Defined.

Lemma mandatory_policy_wins_witness :
  exists least, rt_Mandatory least = true /\
    ResolveClientRouteForUserWithMatcher state (bytes_of "user") (target "ads.example") (request RouteActionDirect []) None
      = Ok (rt_Action least, rt_ID least).
Proof.
  assert (Ha : applies access (target "ads.example") None blocked).
  { split; [split; reflexivity|]. split; [apply (bool_decide_eq_true_1 _); vm_compute; reflexivity|vm_compute; reflexivity]. }
  destruct (mandatory_policy_wins state access (target "ads.example") (request RouteActionDirect []) None blocked) as (l & _ & _ & Hm & _ & E).
  - vm_compute. reflexivity.
  - constructor.
  - reflexivity.
  - vm_compute. reflexivity.
  - do 2 constructor.
  - exact Ha.
  - reflexivity.
  - exists l. split; [exact Hm|exact E].
Defined.

(** A signature that repeats the key, one catalog and one envelope. *)
Definition toy_sign (key msg : list byte) : list byte := take 64 (key ++ replicate 64 x00).
Definition toy_public (key : list byte) : list byte := take 32 (key ++ replicate 32 x00).
Definition toy_verify (pub msg sig : list byte) : bool := bytes_eq pub (take 32 sig).
Definition now : Z := 1000 * second.
Definition ttl : Z := 3600 * second.
Definition key : list byte := replicate 64 x07.
Definition catalog : Catalog := match BuildCatalog state (bytes_of "user") now ttl with Ok c => c | Err _ => mkCatalog (mkUnsigned 0 [] 0 0 0 [] [] [] false false) [] end.
Definition toy_json (c : unsignedCatalog) : option (list byte) := if bool_decide (c = ct_unsigned catalog) then Some [x01] else None.
Definition toy_parse (raw : list byte) : option unsignedCatalog := if bytes_eq raw [x01] then Some (ct_unsigned catalog) else None.
Definition envelope : CatalogEnvelope := mkEnvelope 1 (b64_encode [x01]) (b64_encode (toy_sign key [x01])).
Definition toy_json_envelope (e : CatalogEnvelope) : option (list byte) := if bool_decide (e = envelope) then Some [x02] else None.
Definition toy_parse_envelope (raw : list byte) : option CatalogEnvelope := if bytes_eq raw [x02] then Some envelope else None.
Definition toy_keys (raw : list byte) : option (list (list byte)) :=
  if bytes_eq raw [x02] then Some [bytes_of "version"; bytes_of "payload"; bytes_of "signature"] else None.
Definition signed : Catalog := mkCatalog (ct_unsigned catalog) (b64_encode (toy_sign key [x01])).

Definition toy_generated (pub key : list byte) : Prop := len key = PrivateKeySize /\ pub = toy_public key.

Lemma toy_sign_size p k m : toy_generated p k -> len (toy_sign k m) = SignatureSize.
Proof. intros _. unfold toy_sign, len, SignatureSize. rewrite length_take, length_app, length_replicate. lia. Qed.
Lemma toy_sizes p k : toy_generated p k -> len p = PublicKeySize /\ len k = PrivateKeySize.
Proof. intros [Hk ->]. split; [|done]. unfold toy_public, len, PublicKeySize. rewrite length_take, length_app, length_replicate. lia. Qed.
Lemma toy_verifies p k m : toy_generated p k -> toy_verify p m (toy_sign k m) = true.
Proof.
  intros [Hk ->]. unfold toy_verify, bytes_eq, toy_sign, toy_public. apply bool_decide_eq_true. unfold PrivateKeySize, len in Hk.
  rewrite take_take, Nat.min_l, !take_app_le by lia. done.
Qed.
Lemma toy_json_parse c raw : catalog_utf8 c -> toy_json c = Some raw -> toy_parse raw = Some c /\ raw <> [].
Proof. intros _. unfold toy_json. case_bool_decide as E; [|done]. intros [= <-]. subst c. split; [reflexivity|discriminate]. Qed.
Lemma toy_envelope_parse e raw : utf8_valid (en_Payload e) = true -> utf8_valid (en_Signature e) = true -> toy_json_envelope e = Some raw ->
  toy_parse_envelope raw = Some e /\ raw <> [] /\ toy_keys raw = Some [bytes_of "version"; bytes_of "payload"; bytes_of "signature"].
Proof. intros _ _. unfold toy_json_envelope. case_bool_decide as E; [|done]. intros [= <-]. subst e. split; [reflexivity|]. split; [discriminate|reflexivity]. Qed.

Lemma catalog_published_witness :
  DecodeAndVerifyCatalogEnvelope toy_verify toy_json toy_parse toy_parse_envelope toy_keys [x02] (toy_public key) (bytes_of "c") 4 (now + second) = Ok signed.
Proof.
  assert (E1 : BuildCatalog state (bytes_of "user") now ttl = Ok catalog) by (vm_compute; reflexivity).
  assert (E2 : SignCatalog toy_sign toy_json catalog key = Ok signed) by (vm_compute; reflexivity).
  assert (E3 : EncodeCatalogEnvelope toy_json toy_json_envelope signed = Ok [x02]) by (vm_compute; reflexivity).
  apply (catalog_published toy_sign toy_verify toy_json toy_parse toy_json_envelope toy_parse_envelope toy_keys toy_generated toy_sizes toy_sign_size
    toy_verifies toy_json_parse toy_envelope_parse state (bytes_of "user") now ttl (toy_public key) key catalog signed [x02] 4 (now + second)
    (conj eq_refl eq_refl) E1); [|exact E2|exact E3|..].
  - assert (E : utf8_valid (ct_ClusterID (ct_unsigned catalog)) && utf8_valid (ct_UserID (ct_unsigned catalog)) = true) by (vm_compute; reflexivity).
    apply andb_prop in E as [? ?]. split; [done|]. split; [done|].
    split; vm_compute; repeat constructor.
  - unfold now, second. lia.
  - vm_compute. discriminate.
  - unfold now, ttl, second. lia.
Defined.

Lemma catalog_verified_witness : 4 <= ct_Revision (ct_unsigned signed).
Proof.
  assert (E : DecodeAndVerifyCatalogEnvelope toy_verify toy_json toy_parse toy_parse_envelope toy_keys [x02] (toy_public key) (bytes_of "c") 4 (now + second) = Ok signed)
    by (vm_compute; reflexivity).
  exact (proj1 (proj2 (proj2 (catalog_verified toy_verify toy_json toy_parse toy_parse_envelope toy_keys [x02] (toy_public key) (bytes_of "c") 4 (now + second) signed E)))).
Defined.

Lemma catalog_scope_witness : exists access, access ∈ Access state /\ ua_UserID access = bytes_of "user".
Proof.
  assert (E1 : BuildCatalog state (bytes_of "user") now ttl = Ok catalog) by (vm_compute; reflexivity).
  destruct (catalog_scope _ _ _ _ _ E1) as (a & H1 & H2 & _). exists a. split; [exact H1|exact H2].
Defined.
End ClusterExample.
