(* ===== verification/Socks.v ===== *)
(** * The local SOCKS server (internal/socks5/server.go, udp.go)

    The handshake of a connection from the bytes the client sends, what the
    server answers and whom it dials, the datagram format of UDP ASSOCIATE and
    the rule that binds an association to one client address.  The connection,
    [Connect], [AssociateUDP] and the UDP listener are the environment. *)
From stdpp Require Import prelude list.
From S2P Require Import Prelude Text Slices Netip.

Definition version5 : Z := 5.
Definition methodNoAuth : byte := x00.
Definition methodUnacceptable : byte := xff.
Definition commandConnect : Z := 1.
Definition commandUDPAssociate : Z := 3.
Definition addressIPv4 : byte := x01.
Definition addressDomain : byte := x03.
Definition addressIPv6 : byte := x04.
Definition ReplySucceeded : Z := 0.
Definition ReplyGeneralFailure : Z := 1.
Definition ReplyNotAllowed : Z := 2.
Definition ReplyCommandNotSupported : Z := 7.
Definition ReplyAddressNotSupported : Z := 8.
Definition maxSOCKSUDPDatagram : Z := 65507.

Record Request := mkRequest { rq_Host : list byte; rq_Port : Z }.
#[global] Instance Request_eq_dec : EqDecision Request.
Proof. solve_decision. Defined.
Record clientRequest := mkCR { cr_command : Z; cr_target : Request }.

(** [io.ReadFull] of [n] bytes from what the client sends. *)
Definition ReadFull (n : nat) (input : list byte) : res (list byte * list byte) :=
  if (length input <? n)%nat then Err (if bool_decide (input = []) then ErrEOF else ErrUnexpectedEOF) else Ok (take n input, drop n input).

(** [net.IP(raw).String()]: a mapped address is printed as IPv4. *)
Definition IP_String (raw : list byte) : list byte :=
  if (length raw =? 4)%nat then AddrString (AddrFrom4 raw) else AddrString (Unmap (AddrFrom16 raw)).

(** ** The handshake *)

(** The method the server selects, with the rest of the input. *)
Definition negotiateMethod (input : list byte) : res (byte * list byte) :=
  '(header, input) ← ReadFull 2 input;
  if negb (byte_at header 0 =? version5) || (byte_at header 1 =? 0) then Err ErrSocksProtocol
  else
    '(methods, input) ← ReadFull (Z.to_nat (byte_at header 1)) input;
    Ok (if bool_decide (methodNoAuth ∈ methods) then methodNoAuth else methodUnacceptable, input).

(** A refusal carries the reply it is answered with. *)
Inductive request_result := Requested (r : clientRequest) (rest : list byte) | Refused (reply : Z) (e : error).

Definition refuse_on {A} (reply : Z) (r : res A) (k : A -> request_result) : request_result :=
  match r with Ok a => k a | Err e => Refused reply e end.

Definition read_host (kind : byte) (input : list byte) (k : list byte -> list byte -> request_result) : request_result :=
  if bool_decide (kind = addressIPv4) then refuse_on ReplyAddressNotSupported (ReadFull 4 input) (fun '(raw, input) => k (IP_String raw) input)
  else if bool_decide (kind = addressDomain) then
    match ReadFull 1 input with
    | Err _ => Refused ReplyAddressNotSupported ErrSocksProtocol
    | Ok (length_, input) =>
        if byte_at length_ 0 =? 0 then Refused ReplyAddressNotSupported ErrSocksProtocol
        else refuse_on ReplyAddressNotSupported (ReadFull (Z.to_nat (byte_at length_ 0)) input) (fun '(raw, input) => k raw input)
    end
  else if bool_decide (kind = addressIPv6) then refuse_on ReplyAddressNotSupported (ReadFull 16 input) (fun '(raw, input) => k (IP_String raw) input)
  else Refused ReplyAddressNotSupported ErrSocksProtocol.

Definition readRequest (input : list byte) : request_result :=
  refuse_on ReplyGeneralFailure (ReadFull 4 input) (fun '(header, input) =>
    if negb (byte_at header 0 =? version5) || negb (byte_at header 2 =? 0) then Refused ReplyGeneralFailure ErrSocksProtocol
    else read_host (nth 3 header x00) input (fun host input =>
      refuse_on ReplyGeneralFailure (ReadFull 2 input) (fun '(portBytes, input) =>
        let port := be_decode portBytes in
        let command := byte_at header 1 in
        if negb (command =? commandConnect) && negb (command =? commandUDPAssociate) then Refused ReplyCommandNotSupported ErrSocksProtocol
        else if (command =? commandConnect) && (port =? 0) then Refused ReplyGeneralFailure ErrSocksProtocol
        else Requested (mkCR command (mkRequest host port)) input))).

Definition reply_bytes (code : Z) : list byte := z2b version5 :: z2b code :: x00 :: addressIPv4 :: zeros 6.

(** ** The client of an association *)

Record udpClientTracker := mkTracker { tk_peerIP : Addr; tk_hintPort : Z; tk_client : option (Addr * Z) }.

(** [netip.AddrFromSlice]. *)
Definition AddrFromSlice (ip : list byte) : option Addr :=
  if (length ip =? 4)%nat then Some (AddrFrom4 ip) else if (length ip =? 16)%nat then Some (AddrFrom16 ip) else None.

Definition newUDPClientTracker (remote : option (list byte)) (hint : Request) : res udpClientTracker :=
  match remote ≫= AddrFromSlice with
  | None => Err ErrSocksProtocol
  | Some peerIP =>
      if negb (IsLoopback (Unmap peerIP)) then Err ErrSocksProtocol
      else
        let peerIP := Unmap peerIP in
        if bool_decide (rq_Host hint = []) then Ok (mkTracker peerIP (rq_Port hint) None)
        else match ParseAddr (rq_Host hint) with
             | None => Err ErrSocksProtocol
             | Some hinted =>
                 if negb (IsUnspecified hinted) && negb (bool_decide (Unmap hinted = peerIP)) then Err ErrSocksProtocol
                 else Ok (mkTracker peerIP (rq_Port hint) None)
             end
  end.

(** A source is the IP and the port of a UDP address. *)
Definition Accept (source : list byte * Z) (t : udpClientTracker) : bool * udpClientTracker :=
  let '(ip, port) := source in
  if (port <=? 0) || (65535 <? port) then (false, t)
  else match AddrFromSlice ip with
       | None => (false, t)
       | Some address =>
           let address := Unmap address in
           if negb (bool_decide (address = tk_peerIP t)) || negb (IsLoopback address) || (negb (tk_hintPort t =? 0) && negb (port =? tk_hintPort t)) then (false, t)
           else
             let client := match tk_client t with None => (address, port) | Some client => client end in
             (bool_decide (client = (address, port)), mkTracker (tk_peerIP t) (tk_hintPort t) (Some client))
       end.

Definition Client (t : udpClientTracker) : option (Addr * Z) := tk_client t.

(** ** Serving a connection *)

(** What the server does: bytes to the client, a call of [Connect], the relay of
    the two connections with the bytes the client sent early, the relay of an
    association, and closing it. *)
Inductive action := Wrote (raw : list byte) | Dialed (r : Request) | Relayed (upstream : nat) (early : list byte)
| Associated (association : nat) (t : udpClientTracker) | AssociationClosed (association : nat).

Record socks_env := mkSocksEnv {
  se_write : list byte -> option error;          (* [connection.Write] *)
  se_connect : Request -> res nat;               (* [s.Connect] *)
  se_associate : option (res nat);               (* [s.AssociateUDP], or nil *)
  se_remote : option (list byte);                (* the IP of the control connection, if it is TCP *)
  se_listen : res (list byte * Z);               (* [net.ListenUDP] *)
  se_code : error -> option Z;                   (* the code of the [ReplyError] of a chain *)
  se_deadlines : option error * option error     (* the two calls of [SetDeadline] *)
}.

Definition replyCode (env : socks_env) (e : error) : Z :=
  match se_code env e with
  | Some code => if (ReplyGeneralFailure <=? code) && (code <=? ReplyAddressNotSupported) then code else ReplyGeneralFailure
  | None => ReplyGeneralFailure
  end.

(** [ip.To4()]. *)
Definition To4 (ip : list byte) : option (list byte) :=
  if (length ip =? 4)%nat then Some ip
  else if (length ip =? 16)%nat && bool_decide (take 12 ip = zeros 10 ++ [xff; xff]) then Some (drop 12 ip) else None.

Definition writeReplyAddress (code : Z) (address : list byte * Z) : res (list byte) :=
  let '(ip, port) := address in
  if (port <=? 0) || (65535 <? port) then Err ErrSocksProtocol
  else
    let head := [z2b version5; z2b code; x00] in
    match To4 ip with
    | Some ipv4 => Ok (head ++ addressIPv4 :: ipv4 ++ be_encode 2 port)
    | None => if (length ip =? 16)%nat then Ok (head ++ addressIPv6 :: ip ++ be_encode 2 port) else Err ErrSocksProtocol
    end.

(** Up to the start of the two relays; the association is closed on the way out. *)
Definition serveUDPAssociate (env : socks_env) (associate : res nat) (hint : Request) : list action :=
  match newUDPClientTracker (se_remote env) hint with
  | Err _ => [Wrote (reply_bytes ReplyNotAllowed)]
  | Ok tracker =>
      match associate with
      | Err e => [Wrote (reply_bytes (replyCode env e))]
      | Ok association =>
          match se_listen env with
          | Err _ => [Wrote (reply_bytes ReplyGeneralFailure)]
          | Ok local =>
              match writeReplyAddress ReplySucceeded local with
              | Err _ => []
              | Ok raw => Wrote raw :: match se_write env raw, snd (se_deadlines env) with
                                       | None, None => [Associated association tracker]
                                       | _, _ => []
                                       end
              end
          end ++ [AssociationClosed association]
      end
  end.

(** After the handshake. *)
Definition serve_request (env : socks_env) (r : clientRequest) (rest : list byte) : list action :=
  let reply code := [Wrote (reply_bytes code)] in
  if cr_command r =? commandConnect then
    Dialed (cr_target r) ::
    match se_connect env (cr_target r) with
    | Err e => reply (replyCode env e)
    | Ok upstream =>
        reply ReplySucceeded ++
        match se_write env (reply_bytes ReplySucceeded), snd (se_deadlines env) with
        | None, None => [Relayed upstream rest]
        | _, _ => []
        end
    end
  else if cr_command r =? commandUDPAssociate then
    match se_associate env with Some associate => serveUDPAssociate env associate (cr_target r) | None => reply ReplyCommandNotSupported end
  else reply ReplyCommandNotSupported.

Definition serveConn (env : socks_env) (input : list byte) : list action :=
  match fst (se_deadlines env) with
  | Some _ => []
  | None =>
      match negotiateMethod input with
      | Err _ => []
      | Ok (selected, rest) =>
          let answer := [z2b version5; selected] in
          Wrote answer ::
          match se_write env answer with
          | Some _ => []
          | None =>
              if bool_decide (selected = methodUnacceptable) then []
              else match readRequest rest with
                   | Refused reply _ => [Wrote (reply_bytes reply)]
                   | Requested r rest => serve_request env r rest
                   end
          end
      end
  end.

(** ** Datagrams *)

Definition decodeUDPHost (raw : list byte) (cursor : Z) : option (option (list byte * Z)) :=
  if len raw <=? cursor then Some None
  else
    kind ← at_ raw cursor;
    let cursor := cursor + 1 in
    if kind =? b2z addressIPv4 then
      if len raw - cursor <? 4 then Some None else ip ← sub_ raw cursor (cursor + 4); Some (Some (IP_String ip, cursor + 4))
    else if kind =? b2z addressIPv6 then
      if len raw - cursor <? 16 then Some None else ip ← sub_ raw cursor (cursor + 16); Some (Some (IP_String ip, cursor + 16))
    else if kind =? b2z addressDomain then
      if len raw <=? cursor then Some None
      else
        length_ ← at_ raw cursor;
        if (length_ =? 0) || (len raw - cursor - 1 <? length_) then Some None
        else name ← sub_ raw (cursor + 1) (cursor + 1 + length_); Some (Some (name, cursor + 1 + length_))
    else Some None.

(** The outer option is the panic of an index, the inner one [ErrProtocol]. *)
Definition decodeSOCKSUDPDatagram (raw : list byte) : option (option (Request * list byte)) :=
  if len raw <? 7 then Some None
  else
    r0 ← at_ raw 0; r1 ← at_ raw 1; r2 ← at_ raw 2;
    if negb (r0 =? 0) || negb (r1 =? 0) || negb (r2 =? 0) then Some None
    else
      host ← decodeUDPHost raw 3;
      match host with
      | None => Some None
      | Some (host, cursor) =>
          if len raw - cursor <? 2 then Some None
          else
            port ← (field ← sub_ raw cursor (cursor + 2); Uint16 field);
            if port =? 0 then Some None
            else payload ← sub_ raw (cursor + 2) (len raw); Some (Some (mkRequest host port, payload))
      end.

Definition address_bytes (a : Addr) : list byte := if Is4 a then addressIPv4 :: As4 a else addressIPv6 :: As16 a.

Definition encodeUDPDatagram (t : Request) (payload : list byte) : option (list byte) :=
  if rq_Port t =? 0 then None
  else
    host ← match ParseAddr (rq_Host t) with
           | Some address => Some (address_bytes (Unmap address))
           | None => if (len (rq_Host t) =? 0) || (255 <? len (rq_Host t)) then None
                     else Some (addressDomain :: z2b (len (rq_Host t)) :: rq_Host t)
           end;
    let raw := [x00; x00; x00] ++ host ++ be_encode 2 (rq_Port t) in
    if maxSOCKSUDPDatagram <? len raw + len payload then None else Some (raw ++ payload).

(** One datagram from the client side: what is written to the association. *)
Definition client_datagram (source : list byte * Z) (raw : list byte) (t : udpClientTracker) : option (option (list byte * Request) * udpClientTracker) :=
  let '(accepted, t) := Accept source t in
  if negb accepted then Some (None, t)
  else
    decoded ← decodeSOCKSUDPDatagram raw;
    match decoded with
    | None => Some (None, t)
    | Some (target, payload) => Some (Some (payload, target), t)
    end.

(** One datagram of the association: what is sent, and to whom. *)
Definition association_datagram (payload : list byte) (target : Request) (t : udpClientTracker) : option (list byte * (Addr * Z)) :=
  raw ← encodeUDPDatagram target payload; client ← Client t; Some (raw, client).

(** ** Requests *)

(** What a client may write for a host. *)
Inductive host_bytes : list byte -> list byte -> Prop :=
| host_IPv4 raw : length raw = 4%nat -> host_bytes (IP_String raw) (addressIPv4 :: raw)
| host_IPv6 raw : length raw = 16%nat -> host_bytes (IP_String raw) (addressIPv6 :: raw)
| host_domain name : 1 <= len name <= 255 -> host_bytes name (addressDomain :: z2b (len name) :: name).

Definition request_bytes (command : Z) (host_field : list byte) (port : Z) : list byte :=
  z2b version5 :: z2b command :: x00 :: host_field ++ be_encode 2 port.

Lemma ReadFull_spec n input l rest : ReadFull n input = Ok (l, rest) <-> length l = n /\ input = l ++ rest.
Proof.
  unfold ReadFull. destruct (Nat.ltb_spec (length input) n).
  - split; [done|]. intros [Hl ->]. rewrite length_app in *. lia.
  - split; [intros E%Ok_inj; apply pair_equal_spec in E as [<- <-]; split; [rewrite length_take; lia|by rewrite take_drop]|].
    intros [<- ->]. by rewrite take_app_length, drop_app_length.
Qed.

Lemma ReadFull_app n l rest : length l = n -> ReadFull n (l ++ rest) = Ok (l, rest).
Proof. intros H. by apply ReadFull_spec. Qed.

(** Reading a host consumes exactly one of its encodings. *)
Lemma read_host_inv kind input k r rest : read_host kind input k = Requested r rest ->
  exists field host tail, kind :: input = field ++ tail /\ host_bytes host field /\ k host tail = Requested r rest.
Proof.
  unfold read_host. case_bool_decide as H4; [|case_bool_decide as Hd; [|case_bool_decide as H6; [|done]]].
  - destruct (ReadFull 4 input) as [[raw tail]|] eqn:E; [|done]. apply ReadFull_spec in E as [Hl ->]. cbn. intros Hk.
    exists (kind :: raw), (IP_String raw), tail. split; [done|]. split; [subst; by constructor|done].
  - destruct (ReadFull 1 input) as [[l tail]|] eqn:E; [|done]. apply ReadFull_spec in E as [Hl ->]. destruct l as [|b [|]]; try done.
    change (byte_at [b] 0) with (b2z b). destruct (Z.eqb_spec (b2z b) 0) as [|Hb]; [done|].
    destruct (ReadFull _ tail) as [[raw tail']|] eqn:E; [|done]. apply ReadFull_spec in E as [Hr ->]. cbn. intros Hk.
    pose proof (b2z_range b). assert (Hlen : len raw = b2z b) by (unfold len; lia).
    exists (kind :: b :: raw), raw, tail'. split; [done|]. split; [|done]. subst kind. rewrite <- (z2b_b2z b), <- Hlen. constructor. lia.
  - destruct (ReadFull 16 input) as [[raw tail]|] eqn:E; [|done]. apply ReadFull_spec in E as [Hl ->]. cbn. intros Hk.
    exists (kind :: raw), (IP_String raw), tail. split; [done|]. split; [subst; by constructor|done].
Qed.

Lemma read_host_field host field tail k : host_bytes host field ->
  match field with kind :: field => read_host kind (field ++ tail) k = k host tail | [] => False end.
Proof.
  intros H. destruct H as [raw Hl|raw Hl|name Hn]; cbn [app]; unfold read_host.
  - rewrite bool_decide_true by done. by rewrite ReadFull_app.
  - rewrite bool_decide_false, bool_decide_false, bool_decide_true by done. by rewrite ReadFull_app.
  - rewrite bool_decide_false, bool_decide_true by done.
    change (z2b (len name) :: name ++ tail) with ([z2b (len name)] ++ name ++ tail). rewrite ReadFull_app by done. change (byte_at [z2b (len name)] 0) with (b2z (z2b (len name))).
    rewrite b2z_z2b_small, (proj2 (Z.eqb_neq _ _)) by lia. by rewrite ReadFull_app by (unfold len; lia).
Qed.

Lemma requested_inj c h p t c' h' p' t' : Requested (mkCR c (mkRequest h p)) t = Requested (mkCR c' (mkRequest h' p')) t' -> c = c' /\ h = h' /\ p = p' /\ t = t'.
Proof. by intros [= -> -> -> ->]. Qed.

(** The server acts on a request exactly when the client has sent one: the
    command is CONNECT or UDP ASSOCIATE, the host is the one encoded, a CONNECT
    names a port, and the bytes that follow are left for the relay. *)
Theorem readRequest_exact input command host port rest :
  readRequest input = Requested (mkCR command (mkRequest host port)) rest <->
  exists field, host_bytes host field /\ input = request_bytes command field port ++ rest /\ 0 <= port < 65536 /\
    (command = commandConnect /\ port <> 0 \/ command = commandUDPAssociate).
Proof.
  unfold readRequest. split.
  - destruct (ReadFull 4 input) as [[header tail]|] eqn:E; [|done]. apply ReadFull_spec in E as [Hl ->].
    destruct header as [|v [|c [|z [|kind [|]]]]]; try done. cbn [refuse_on]. unfold byte_at. cbn [nth].
    destruct (_ || _) eqn:G; [done|]. apply orb_false_iff in G as [G1%negb_false_iff%Z.eqb_eq G2%negb_false_iff%Z.eqb_eq].
    intros H. apply read_host_inv in H as (field & h & tail' & Ef & Hh & Hk).
    destruct (ReadFull 2 tail') as [[p tail'']|] eqn:E; [|done]. apply ReadFull_spec in E as [Hp ->]. cbn [refuse_on] in Hk.
    destruct (negb (b2z c =? commandConnect) && negb (b2z c =? commandUDPAssociate)) eqn:Hc; [done|].
    destruct ((b2z c =? commandConnect) && (be_decode p =? 0)) eqn:Hz; [done|].
    apply requested_inj in Hk as (<- & -> & <- & ->). exists field. split; [done|]. unfold request_bytes.
    assert (Hport : be_encode 2 (be_decode p) = p) by (rewrite <- Hp; apply be_encode_decode).
    pose proof (be_decode_range p) as Hr. rewrite (len_nat p 2) in Hr by done. change (2 ^ (8 * Z.of_nat 2)) with 65536 in Hr.
    split; [|split; [done|]].
    + assert (v = z2b version5) as -> by (by apply b2z_inj). assert (z = x00) as -> by (by apply b2z_inj).
      rewrite Hport, z2b_b2z. cbn [app]. rewrite <- app_assoc, <- Ef. done.
    + bounds. apply andb_false_iff in Hc as [Hc%negb_false_iff%Z.eqb_eq|Hc%negb_false_iff%Z.eqb_eq]; [left|by right].
      split; [done|]. rewrite Hc in Hz. by apply Z.eqb_neq in Hz.
  - intros (field & Hh & -> & Hp & Hc). destruct field as [|kind field]; [by inversion Hh|]. unfold request_bytes.
    assert (Hcr : 0 <= command < 256) by (unfold commandConnect, commandUDPAssociate in Hc; lia).
    pose proof (read_host_field host (kind :: field) (be_encode 2 port ++ rest)) as Hrf. cbn [app] in Hrf.
    set (head := [z2b version5; z2b command; x00; kind]).
    replace ((z2b version5 :: z2b command :: x00 :: (kind :: field) ++ be_encode 2 port) ++ rest) with (head ++ field ++ be_encode 2 port ++ rest)
      by (unfold head; assoc).
    rewrite ReadFull_app by done. cbn [refuse_on]. unfold byte_at, head. cbn [nth]. rewrite (b2z_z2b_small command) by done.
    change (negb (b2z (z2b version5) =? version5) || negb (b2z x00 =? 0)) with false. cbv iota. rewrite Hrf by done.
    rewrite ReadFull_app by apply length_be_encode. cbn [refuse_on]. rewrite be_decode_encode. change (2 ^ (8 * Z.of_nat 2)) with 65536. rewrite Z.mod_small by done.
    destruct Hc as [[-> Hne]| ->]; [|done]. change (commandConnect =? commandConnect) with true. cbn [negb andb]. by rewrite (proj2 (Z.eqb_neq _ _)).
Qed.

(** ** Datagrams *)

(** The host as the far side will read it: an address is printed canonically,
    without zone and unmapped. *)
Definition host_text (host : list byte) : list byte :=
  match ParseAddr host with
  | Some a => AddrString (match Unmap a with Addr6 v _ => Addr6 v [] | a => a end)
  | None => host
  end.

(** No datagram makes the decoder index outside it, and a decoded one has a port. *)
Lemma decode_safe raw : wp (decodeSOCKSUDPDatagram raw) (fun o => match o with Some (t, payload) => 0 < rq_Port t < 65536 /\ len payload <= len raw | None => True end).
Proof.
  unfold decodeSOCKSUDPDatagram. wp_step; [by apply wp_ret|]. do 3 (wp_step; wp_step; cbn beta). wp_step; [by apply wp_ret|]. wp_step.
  apply (wp_mono _ (fun o => match o with Some (_, cursor) => 3 <= cursor | None => True end)).
  - unfold decodeUDPHost. wp_steps; done || (bounds; lia).
  - intros [[host cursor]|] Hc; [|by apply wp_ret]. wp_steps; [done|done|]. bounds. cbn [rq_Port]. lia.
Qed.

Lemma be_decode_4 a : 0 <= a < 2 ^ 32 -> be_decode (be_encode 4 a) = a.
Proof. intros. rewrite be_decode_encode. by apply Z.mod_small. Qed.

Lemma be_decode_16 a : 0 <= a < 2 ^ 128 -> be_decode (be_encode 16 a) = a.
Proof. intros. rewrite be_decode_encode. by apply Z.mod_small. Qed.

(** Reading the host field back, at its place in the datagram. *)
Lemma decode_host_field raw pre host field rest : raw = pre ++ field ++ rest ->
  (match ParseAddr host with
   | Some a => field = address_bytes (Unmap a)
   | None => 1 <= len host <= 255 /\ field = addressDomain :: z2b (len host) :: host
   end) -> decodeUDPHost raw (len pre) = Some (Some (host_text host, len pre + len field)).
Proof.
  intros -> Hf. pose proof (len_nonneg pre). pose proof (len_nonneg rest). unfold decodeUDPHost, host_text.
  destruct (ParseAddr host) as [a|] eqn:Ea.
  - apply ParseAddr_wf, Unmap_wf in Ea. assert (Hnm : Is4In6 (Unmap a) = false \/ Is4 (Unmap a) = true).
    { destruct a as [|v|v z]; [by left|by right|]. unfold Unmap. destruct (Is4In6 (Addr6 v z)) eqn:E; [by right|by left]. }
    destruct (Unmap a) as [|v|v z]; [done| |]; cbn in Ea; unfold address_bytes in Hf; cbn [Is4] in Hf; subst field; cbn [As4 As16].
    + assert (L : len (be_encode 4 v) = 4) by apply len_be_encode.
      rewrite !len_app, !len_cons, L, (proj2 (Z.leb_gt _ _)) by lia. rewrite (at_at _ (len pre) pre addressIPv4 (be_encode 4 v ++ rest)) by done. cbn [option_bind mbind].
      change (b2z addressIPv4 =? b2z addressIPv4) with true. cbv iota. rewrite (proj2 (Z.ltb_ge _ _)) by lia.
      rewrite (sub_at _ _ _ (pre ++ [addressIPv4]) (be_encode 4 v) rest); [|assoc|rewrite len_app; done|rewrite len_app, L; change (len [addressIPv4]) with 1; lia].
      cbn [option_bind mbind]. unfold IP_String. rewrite length_be_encode. cbn [Nat.eqb]. unfold AddrFrom4. rewrite be_decode_4 by done.
      do 3 f_equal. lia.
    + assert (L : len (be_encode 16 v) = 16) by apply len_be_encode.
      rewrite !len_app, !len_cons, L, (proj2 (Z.leb_gt _ _)) by lia. rewrite (at_at _ (len pre) pre addressIPv6 (be_encode 16 v ++ rest)) by done. cbn [option_bind mbind].
      change (b2z addressIPv6 =? b2z addressIPv4) with false. change (b2z addressIPv6 =? b2z addressIPv6) with true. cbv iota. rewrite (proj2 (Z.ltb_ge _ _)) by lia.
      rewrite (sub_at _ _ _ (pre ++ [addressIPv6]) (be_encode 16 v) rest); [|assoc|rewrite len_app; done|rewrite len_app, L; change (len [addressIPv6]) with 1; lia].
      cbn [option_bind mbind]. unfold IP_String. rewrite length_be_encode. change (16 =? 4)%nat with false. cbv iota. unfold AddrFrom16. rewrite be_decode_16 by done.
      destruct Hnm as [Hnm|]; [|done]. unfold Unmap. change (Is4In6 (Addr6 v [])) with (Is4In6 (Addr6 v z)). rewrite Hnm. do 3 f_equal. lia.
  - destruct Hf as [Hl ->]. rewrite !len_app, !len_cons, (proj2 (Z.leb_gt _ _)) by lia.
    rewrite (at_at _ (len pre) pre addressDomain ((z2b (len host) :: host) ++ rest)) by done. cbn [option_bind mbind].
    change (b2z addressDomain =? b2z addressIPv4) with false. change (b2z addressDomain =? b2z addressIPv6) with false.
    change (b2z addressDomain =? b2z addressDomain) with true. cbv iota. rewrite (proj2 (Z.leb_gt _ _)) by lia.
    rewrite (at_at _ (len pre + 1) (pre ++ [addressDomain]) (z2b (len host)) (host ++ rest)); [|assoc|by rewrite len_app]. cbn [option_bind mbind].
    rewrite b2z_z2b_small, (proj2 (Z.eqb_neq _ _)), (proj2 (Z.ltb_ge _ _)) by lia. cbn [orb].
    rewrite (sub_at _ _ _ (pre ++ [addressDomain; z2b (len host)]) host rest); [|assoc|rewrite len_app; change (len [addressDomain; z2b (len host)]) with 2; lia..].
    cbn [option_bind mbind]. do 3 f_equal. lia.
Qed.

Lemma address_len a : 2 <= len (address_bytes a).
Proof. unfold address_bytes. destruct a as [|v|v z]; cbn [Is4 As4 As16]; rewrite len_cons; [vm_compute; discriminate|rewrite len_be_encode; lia..]. Qed.

(** A datagram that is encoded for the client is decoded, by the rules of the
    server itself, to the same payload, port and host, an address being read back
    in its canonical form; an encoded datagram fits a UDP packet; and no input
    makes the decoder read outside the datagram. *)
Theorem socks_datagram_roundtrip t payload raw : 0 <= rq_Port t < 65536 -> encodeUDPDatagram t payload = Some raw ->
  decodeSOCKSUDPDatagram raw = Some (Some (mkRequest (host_text (rq_Host t)) (rq_Port t), payload)) /\ len raw <= maxSOCKSUDPDatagram /\
  (forall any, is_Some (decodeSOCKSUDPDatagram any)).
Proof.
  intros Hp. unfold encodeUDPDatagram. destruct (Z.eqb_spec (rq_Port t) 0) as [|Hne]; [done|].
  destruct (match ParseAddr (rq_Host t) with Some _ => _ | None => _ end) as [field|] eqn:Ef; [|done]. cbn [option_bind mbind].
  destruct (Z.ltb_spec maxSOCKSUDPDatagram (len ([x00; x00; x00] ++ field ++ be_encode 2 (rq_Port t)) + len payload)) as [|Hmax]; [done|].
  intros E. apply (inj Some) in E. rewrite <- !app_assoc in E. split; [|split; [rewrite <- E, !app_assoc, len_app, <- !app_assoc; done|intros any; eapply wp_is_some, decode_safe]].
  assert (Hh : decodeUDPHost raw 3 = Some (Some (host_text (rq_Host t), 3 + len field)) /\ 2 <= len field).
  { split.
    - apply (decode_host_field raw [x00; x00; x00] (rq_Host t) field (be_encode 2 (rq_Port t) ++ payload)); [done|].
      destruct (ParseAddr (rq_Host t)); [by injection Ef as <-|]. destruct (_ || _) eqn:G; [done|]. bounds. apply (inj Some) in Ef as <-. pose proof (len_nonneg (rq_Host t)). split; [lia|done].
    - destruct (ParseAddr (rq_Host t)) as [a|]; [apply (inj Some) in Ef as <-; apply address_len|].
      destruct (_ || _); [done|]. apply (inj Some) in Ef as <-. rewrite !len_cons. pose proof (len_nonneg (rq_Host t)). lia. }
  destruct Hh as [Hh Hf]. pose proof (len_nonneg payload).
  assert (Hlen : len raw = 5 + len field + len payload) by (rewrite <- E, !len_app, len_be_encode; change (len [x00; x00; x00]) with 3; lia).
  unfold decodeSOCKSUDPDatagram. rewrite Hlen, (proj2 (Z.ltb_ge _ _)) by lia.
  rewrite (at_at raw 0 [] x00 ([x00; x00] ++ field ++ be_encode 2 (rq_Port t) ++ payload)), (at_at raw 1 [x00] x00 ([x00] ++ field ++ be_encode 2 (rq_Port t) ++ payload)),
    (at_at raw 2 [x00; x00] x00 (field ++ be_encode 2 (rq_Port t) ++ payload)) by done.
  cbn [option_bind mbind]. change (negb (b2z x00 =? 0) || negb (b2z x00 =? 0) || negb (b2z x00 =? 0)) with false. cbv iota. rewrite Hh. cbn [option_bind mbind].
  rewrite (proj2 (Z.ltb_ge _ _)) by lia.
  rewrite (sub_at raw (3 + len field) (3 + len field + 2) ([x00; x00; x00] ++ field) (be_encode 2 (rq_Port t)) payload);
    [|rewrite <- E; assoc|rewrite len_app; done|rewrite len_app, len_be_encode; change (len [x00; x00; x00]) with 3; lia].
  cbn [option_bind mbind]. rewrite Uint16_encode by done. cbn [option_bind mbind]. rewrite (proj2 (Z.eqb_neq _ _)) by done.
  rewrite (sub_at raw _ _ (([x00; x00; x00] ++ field) ++ be_encode 2 (rq_Port t)) payload []); [done|rewrite <- E, app_nil_r; assoc|..];
    rewrite !len_app, len_be_encode; change (len [x00; x00; x00]) with 3; lia.
Qed.

(** ** What is relayed *)

Definition greeting (methods : list byte) : list byte := z2b version5 :: z2b (len methods) :: methods.

Lemma negotiate_exact input rest : negotiateMethod input = Ok (methodNoAuth, rest) <->
  exists methods, 1 <= len methods <= 255 /\ methodNoAuth ∈ methods /\ input = greeting methods ++ rest.
Proof.
  unfold negotiateMethod. split.
  - destruct (ReadFull 2 input) as [[header tail]|] eqn:E; [|done]. apply ReadFull_spec in E as [Hl ->].
    destruct header as [|v [|n [|]]]; try done. cbn [mbind res_bind]. unfold byte_at. cbn [nth].
    destruct (_ || _) eqn:G; [done|]. apply orb_false_iff in G as [G1%negb_false_iff%Z.eqb_eq G2%Z.eqb_neq].
    destruct (ReadFull _ tail) as [[methods tail']|] eqn:E; [|done]. apply ReadFull_spec in E as [Hm ->]. cbn [mbind res_bind].
    case_bool_decide as Hin; [|done]. intros H. apply Ok_inj, pair_equal_spec in H as [_ ->]. pose proof (b2z_range n).
    assert (Hlen : len methods = b2z n) by (unfold len; lia). exists methods. split; [lia|]. split; [done|]. unfold greeting. rewrite Hlen, z2b_b2z.
    assert (v = z2b version5) as -> by (by apply b2z_inj). assoc.
  - intros (methods & Hl & Hin & ->). unfold greeting.
    change ((z2b version5 :: z2b (len methods) :: methods) ++ rest) with ([z2b version5; z2b (len methods)] ++ methods ++ rest).
    rewrite ReadFull_app by done. cbn [mbind res_bind]. unfold byte_at. cbn [nth]. rewrite (b2z_z2b_small (len methods)), (proj2 (Z.eqb_neq (len methods) 0)) by lia.
    change (negb (b2z (z2b version5) =? version5)) with false. cbn [orb]. rewrite ReadFull_app by (unfold len; lia). cbn [mbind res_bind].
    by rewrite bool_decide_true.
Qed.

(** The input is a greeting that offers to go without authentication, a
    CONNECT request for a host and a port, and [early]. *)
Definition asks (input methods host field : list byte) (port : Z) (early : list byte) : Prop :=
  input = greeting methods ++ request_bytes commandConnect field port ++ early /\
  1 <= len methods <= 255 /\ methodNoAuth ∈ methods /\ host_bytes host field /\ 0 < port < 65536.

Lemma serve_run env input methods host field port early : se_write env [z2b version5; methodNoAuth] = None ->
  se_write env (reply_bytes ReplySucceeded) = None -> se_deadlines env = (None, None) ->
  asks input methods host field port early ->
  serveConn env input = Wrote [z2b version5; methodNoAuth] :: Dialed (mkRequest host port) ::
    match se_connect env (mkRequest host port) with
    | Ok upstream => [Wrote (reply_bytes ReplySucceeded); Relayed upstream early]
    | Err e => [Wrote (reply_bytes (replyCode env e))]
    end.
Proof.
  intros Hw1 Hw2 Hd (-> & Hl & Hin & Hh & Hp). unfold serveConn. rewrite Hd. cbn [fst].
  rewrite (proj2 (negotiate_exact _ (request_bytes commandConnect field port ++ early))) by (by exists methods). rewrite Hw1.
  rewrite bool_decide_false by done.
  rewrite (proj2 (readRequest_exact _ commandConnect host port early)) by (exists field; repeat split; [done|lia|lia|left; split; [done|lia]]).
  unfold serve_request. cbn [cr_command cr_target]. change (commandConnect =? commandConnect) with true. cbv iota.
  destruct (se_connect env (mkRequest host port)); [|done]. by rewrite Hw2, Hd.
Qed.

Lemma associate_not_relayed env associate hint upstream early : Relayed upstream early ∈ serveUDPAssociate env associate hint -> False.
Proof.
  unfold serveUDPAssociate. destruct (newUDPClientTracker _ _); [|by intros ?%list_elem_of_singleton]. destruct associate; [|by intros ?%list_elem_of_singleton].
  destruct (se_listen env) as [local|]; [|set_solver]. destruct (writeReplyAddress _ _) as [raw|]; [|set_solver].
  destruct (se_write env raw), (snd (se_deadlines env)); set_solver.
Qed.

Lemma associate_not_dialed env associate hint r : Dialed r ∈ serveUDPAssociate env associate hint -> False.
Proof.
  unfold serveUDPAssociate. destruct (newUDPClientTracker _ _); [|by intros ?%list_elem_of_singleton]. destruct associate; [|by intros ?%list_elem_of_singleton].
  destruct (se_listen env) as [local|]; [|set_solver]. destruct (writeReplyAddress _ _) as [raw|]; [|set_solver].
  destruct (se_write env raw), (snd (se_deadlines env)); set_solver.
Qed.

(** Who is dialed or relayed to has been asked for. *)
Lemma dialed_inv env input a : match a with Dialed _ | Relayed _ _ => True | _ => False end -> a ∈ serveConn env input ->
  exists methods host field port early, asks input methods host field port early /\
    match a with
    | Dialed r => r = mkRequest host port
    | Relayed upstream early' => se_connect env (mkRequest host port) = Ok upstream /\ early' = early
    | _ => True
    end.
Proof.
  intros Ha. unfold serveConn. destruct (fst (se_deadlines env)); [by intros ?%not_elem_of_nil|].
  destruct (negotiateMethod input) as [[selected rest]|] eqn:En; [|by intros ?%not_elem_of_nil].
  intros [->|H]%elem_of_cons; [done|]. destruct (se_write env [z2b version5; selected]); [by apply not_elem_of_nil in H|]. case_bool_decide as Hs; [by apply not_elem_of_nil in H|].
  assert (selected = methodNoAuth) as ->.
  { unfold negotiateMethod in En. destruct (ReadFull 2 input) as [[header ?]|]; [|done]. cbn [mbind res_bind] in En. destruct (_ || _); [done|].
    destruct (ReadFull _ _) as [[methods ?]|]; [|done]. cbn [mbind res_bind] in En. case_bool_decide; apply Ok_inj, pair_equal_spec in En as [<- _]; done. }
  apply negotiate_exact in En as (methods & Hl & Hin & ->).
  destruct (readRequest rest) as [[command [host port]] tail|reply e] eqn:Er; [|apply elem_of_cons in H as [->|H]; [done|by apply not_elem_of_nil in H]].
  pose proof Er as Er'. apply readRequest_exact in Er' as (field & Hh & -> & Hp & Hc).
  unfold serve_request in H. cbn [cr_command cr_target] in H.
  destruct (Z.eqb_spec command commandConnect) as [->|Hne].
  - assert (Hp' : 0 < port < 65536) by (destruct Hc as [[_ ?]|]; [lia|done]).
    exists methods, host, field, port, tail. split; [split; [done|]; split; [done|]; split; [done|]; by split|].
    apply elem_of_cons in H as [->|H]; [done|]. destruct (se_connect env (mkRequest host port)) as [u|e] eqn:Ec; cbn [app] in H.
    + apply elem_of_cons in H as [->|H]; [done|].
      destruct (se_write env _), (snd (se_deadlines env)); try by apply not_elem_of_nil in H.
      apply list_elem_of_singleton in H as ->. done.
    + by apply list_elem_of_singleton in H as ->.
  - exfalso. destruct (command =? commandUDPAssociate); [destruct (se_associate env) as [x|]|]; [|apply list_elem_of_singleton in H as ->; done..].
    destruct a; try done; [by apply associate_not_dialed in H|by apply associate_not_relayed in H].
Qed.

(** C28: the server relays exactly what was asked for.  It dials only the host
    and the port of a CONNECT request that follows a greeting offering no
    authentication.  For every such input, whatever [Connect] answers, it
    writes the selection, dials and then either writes the positive reply and
    relays to the connection it got, the bytes behind the request first, or
    writes the reply of the error and nothing more.  So it relays to a
    connection exactly when the input has that form and [Connect] returned the
    connection for just that host and port. *)
Theorem socks_relays_exactly env input : se_write env [z2b version5; methodNoAuth] = None ->
  se_write env (reply_bytes ReplySucceeded) = None -> se_deadlines env = (None, None) ->
  (forall r, Dialed r ∈ serveConn env input -> exists methods host field port early,
     asks input methods host field port early /\ r = mkRequest host port) /\
  (forall methods host field port early, asks input methods host field port early ->
     serveConn env input = Wrote [z2b version5; methodNoAuth] :: Dialed (mkRequest host port) ::
       match se_connect env (mkRequest host port) with
       | Ok upstream => [Wrote (reply_bytes ReplySucceeded); Relayed upstream early]
       | Err e => [Wrote (reply_bytes (replyCode env e))]
       end) /\
  (forall upstream early, Relayed upstream early ∈ serveConn env input <->
     exists methods host field port, asks input methods host field port early /\ se_connect env (mkRequest host port) = Ok upstream).
Proof.
  intros Hw1 Hw2 Hd. split; [|split].
  - intros r H. destruct (dialed_inv env input (Dialed r) I H) as (methods & host & field & port & early & Hk & E). by exists methods, host, field, port, early.
  - intros methods host field port early. by apply serve_run.
  - intros upstream early. split.
    + intros H. destruct (dialed_inv env input (Relayed upstream early) I H) as (methods & host & field & port & early' & Hk & E & ->). by exists methods, host, field, port.
    + intros (methods & host & field & port & Hk & Hc). rewrite (serve_run env input _ _ _ _ _ Hw1 Hw2 Hd Hk), Hc. do 3 right. left.
Qed.

(** ** One client per association *)

Lemma Accept_spec source t : fst (Accept source t) = true -> exists address,
  AddrFromSlice (fst source) = Some address /\ tk_client (snd (Accept source t)) = Some (Unmap address, snd source) /\
  Unmap address = tk_peerIP t /\ IsLoopback (Unmap address) = true /\ (tk_hintPort t = 0 \/ snd source = tk_hintPort t) /\ 0 < snd source < 65536.
Proof.
  destruct source as [ip port]. unfold Accept. cbn [fst snd]. destruct (_ || _) eqn:G; [done|]. apply orb_false_iff in G as [G1%Z.leb_gt G2%Z.ltb_ge].
  destruct (AddrFromSlice ip) as [address|]; [|done]. destruct (negb (bool_decide _) || _ || _) eqn:G; [done|].
  apply orb_false_iff in G as [[Ga%negb_false_iff%bool_decide_eq_true Gl%negb_false_iff]%orb_false_iff Gp].
  cbn [fst snd tk_client]. intros Hc%bool_decide_eq_true. exists address. rewrite Hc. repeat split; try done; lia.
Qed.

(** Running a tracker over the sources of datagrams. *)
Fixpoint accepted (sources : list (list byte * Z)) (t : udpClientTracker) : list (list byte * Z) :=
  match sources with
  | [] => []
  | s :: sources => let '(ok, t) := Accept s t in if ok then s :: accepted sources t else accepted sources t
  end.

Lemma Accept_keeps source t : tk_peerIP (snd (Accept source t)) = tk_peerIP t /\ tk_hintPort (snd (Accept source t)) = tk_hintPort t /\
  (forall client, tk_client t = Some client -> tk_client (snd (Accept source t)) = Some client).
Proof.
  destruct source as [ip port]. unfold Accept. destruct (_ || _); [done|]. destruct (AddrFromSlice ip); [|done]. destruct (negb _ || _ || _); [done|].
  cbn. split; [done|]. split; [done|]. by intros client ->.
Qed.

Lemma accepted_one sources t client : tk_client t = Some client ->
  Forall (fun s => exists address, AddrFromSlice (fst s) = Some address /\ (Unmap address, snd s) = client) (accepted sources t).
Proof.
  revert t. induction sources as [|s sources IH]; intros t Ht; [constructor|]. cbn [accepted]. pose proof (Accept_keeps s t) as (_ & _ & Hk).
  pose proof (Accept_spec s t) as Hs. destruct (Accept s t) as [[] t']; cbn [fst snd] in *; [|by apply IH, Hk].
  constructor; [|by apply IH, Hk]. destruct (Hs eq_refl) as (address & Ha & Hc & _). exists address. split; [done|]. rewrite (Hk client Ht) in Hc. by injection Hc.
Qed.

Lemma accepted_peer sources t : Forall (fun s => exists address, AddrFromSlice (fst s) = Some address /\ Unmap address = tk_peerIP t /\
  (tk_hintPort t = 0 \/ snd s = tk_hintPort t)) (accepted sources t).
Proof.
  revert t. induction sources as [|s sources IH]; intros t; [constructor|]. cbn [accepted]. pose proof (Accept_keeps s t) as (Hk1 & Hk2 & _).
  pose proof (Accept_spec s t) as Hs. destruct (Accept s t) as [[] t']; cbn [fst snd] in *; specialize (IH t'); rewrite Hk1, Hk2 in IH; [|done].
  constructor; [|done]. destruct (Hs eq_refl) as (address & Ha & _ & Hp & _ & Hport & _). by exists address.
Qed.

Lemma accepted_same sources t : tk_client t = None -> exists client,
  Forall (fun s => exists address, AddrFromSlice (fst s) = Some address /\ (Unmap address, snd s) = client) (accepted sources t).
Proof.
  revert t. induction sources as [|s sources IH]; intros t Ht; [by exists (AddrInvalid, 0)|]. cbn [accepted].
  pose proof (Accept_spec s t) as Hs. destruct (Accept s t) as [[] t'] eqn:Ea; cbn [fst snd] in *.
  - destruct (Hs eq_refl) as (address & Ha & Hc & _). exists (Unmap address, snd s). constructor; [by exists address|by apply accepted_one].
  - destruct (tk_client t') as [client|] eqn:Hc; [exists client; by apply accepted_one|by apply IH].
Qed.

(** An association serves one client: whatever datagrams arrive, those that
    are accepted all come from one address and port, on the loopback address of
    the control connection, with the port the client announced if it did. *)
Theorem socks_one_client remote hint t sources : newUDPClientTracker remote hint = Ok t ->
  IsLoopback (tk_peerIP t) = true /\ exists client,
  Forall (fun s => exists address, AddrFromSlice (fst s) = Some address /\ (Unmap address, snd s) = client /\ Unmap address = tk_peerIP t /\
    (rq_Port hint = 0 \/ snd s = rq_Port hint)) (accepted sources t).
Proof.
  intros Ht. assert (Hnew : tk_client t = None /\ tk_hintPort t = rq_Port hint /\ IsLoopback (tk_peerIP t) = true).
  { unfold newUDPClientTracker in Ht. destruct (remote ≫= AddrFromSlice) as [peer|]; [|done]. destruct (negb (IsLoopback (Unmap peer))) eqn:Hl; [done|].
    apply negb_false_iff in Hl. case_bool_decide; [by apply Ok_inj in Ht as <-|]. destruct (ParseAddr _); [|done]. destruct (_ && _); [done|]. by apply Ok_inj in Ht as <-. }
  destruct Hnew as (Hc & Hp & Hl). split; [done|]. destruct (accepted_same sources t Hc) as [client Hone]. exists client.
  pose proof (accepted_peer sources t) as Hpeer. rewrite Hp in Hpeer. rewrite Forall_forall in Hone, Hpeer |- *. intros s Hin.
  destruct (Hone s Hin) as (a & Ha & Hca), (Hpeer s Hin) as (a' & Ha' & Hpa & Hport). rewrite Ha in Ha'. injection Ha' as <-. by exists a.
Qed.

Module SocksExample.
Definition env : socks_env := mkSocksEnv (fun _ => None) (fun _ => Ok 3%nat) None None (Err ErrEOF) (fun _ => None) (None, None).
Definition field : list byte := addressDomain :: z2b 11 :: bytes_of "example.com".
Definition input : list byte := greeting [x02; x00] ++ request_bytes commandConnect field 443 ++ bytes_of "hello".

Lemma input_asks : asks input [x02; x00] (bytes_of "example.com") field 443 (bytes_of "hello").
Proof.
  split; [done|]. split; [by vm_compute|]. split; [right; left|]. split; [|done].
  by apply (host_domain (bytes_of "example.com")).
Qed.

Lemma socks_relays_exactly_witness :
  asks input [x02; x00] (bytes_of "example.com") field 443 (bytes_of "hello") /\ Relayed 3 (bytes_of "hello") ∈ serveConn env input.
Proof.
  split; [exact input_asks|]. destruct (socks_relays_exactly env input eq_refl eq_refl eq_refl) as (_ & _ & H).
  apply H. exists [x02; x00], (bytes_of "example.com"), field, 443. split; [exact input_asks|reflexivity].
Defined.

Definition datagram_target : Request := mkRequest (bytes_of "::ffff:1.2.3.4") 53.
Lemma socks_datagram_roundtrip_witness : exists raw, encodeUDPDatagram datagram_target (bytes_of "query") = Some raw /\
  decodeSOCKSUDPDatagram raw = Some (Some (mkRequest (bytes_of "1.2.3.4") 53, bytes_of "query")).
Proof.
  destruct (encodeUDPDatagram datagram_target (bytes_of "query")) as [raw|] eqn:E; [|exfalso; vm_compute in E; discriminate E].
  exists raw. split; [reflexivity|]. destruct (socks_datagram_roundtrip datagram_target (bytes_of "query") raw) as [H _]; [split; [vm_compute; discriminate|vm_compute; reflexivity]|exact E|].
  replace (host_text (rq_Host datagram_target)) with (bytes_of "1.2.3.4") in H by (vm_compute; reflexivity). exact H.
Defined.

Definition hint : Request := mkRequest (bytes_of "0.0.0.0") 0.
Definition loopback : list byte := [x7f; x00; x00; x01].
Definition sources : list (list byte * Z) := [(loopback, 4000); (loopback, 4001); ([x0a; x00; x00; x01], 4000); (loopback, 4000)].
Lemma socks_one_client_witness : exists t, newUDPClientTracker (Some loopback) hint = Ok t /\
  accepted sources t = [(loopback, 4000); (loopback, 4000)] /\ IsLoopback (tk_peerIP t) = true.
Proof.
  exists (mkTracker (AddrFrom4 loopback) 0 None). assert (E : newUDPClientTracker (Some loopback) hint = Ok (mkTracker (AddrFrom4 loopback) 0 None)) by (vm_compute; reflexivity).
  split; [exact E|]. split; [vm_compute; reflexivity|]. exact (proj1 (socks_one_client (Some loopback) hint _ sources E)).
Defined.
End SocksExample.
