(* ===== verification/Target.v ===== *)
(** * Proxy targets (internal/proxy/target.go)

    The metadata of an OPEN: the target of a connection and its canonical
    encoding, the control commands with their JSON payloads, and the policy that
    decides which destinations a server connects to.  JSON and the DNS resolver
    are parameters. *)
From stdpp Require Import prelude list.
From S2P Require Import Prelude Text Netip Varint Cluster.

Definition targetNetworkTCP : byte := x01.
Definition targetDomain : byte := x11.
Definition targetIPv4 : byte := x24.
Definition targetIPv6 : byte := x36.
Definition maxDomainLength : Z := 253.
Definition maxDNSAnswers : Z := 32.

(** [proxy.Target]. *)
Record target := mkT { Host : list byte; tPort : Z }.
#[global] Instance target_eq_dec : EqDecision target.
Proof. solve_decision. Defined.
Definition zeroTarget : target := mkT [] 0.

(** ** Targets *)

Definition proxy_label (label : list byte) : bool :=
  negb ((len label =? 0) || (63 <? len label) || (byte_at label 0 =? 45) || (byte_at label (length label - 1) =? 45))
  && forallb (fun c => negb (((b2z c <? 97) || (122 <? b2z c)) && ((b2z c <? 48) || (57 <? b2z c)) && negb (b2z c =? 45))) label.

Definition proxy_validDomain (host : list byte) : bool :=
  if (len host =? 0) || (maxDomainLength <? len host) then false else forallb proxy_label (Split x2e host).

(** The address is the zero address for a domain name. *)
Definition normalizeTarget (t : target) : res (target * Addr) :=
  if tPort t =? 0 then Err ErrInvalidTarget
  else match ParseAddr (Host t) with
       | Some address =>
           if negb (bool_decide (Zone address = [])) then Err ErrInvalidTarget
           else let address := Unmap address in Ok (mkT (AddrString address) (tPort t), address)
       | None =>
           let host := ToLower (TrimSuffix (Host t) [x2e]) in
           if negb (proxy_validDomain host) then Err ErrInvalidTarget else Ok (mkT host (tPort t), AddrInvalid)
       end.

Definition EncodeTarget (t : target) : res (list byte) :=
  '(normalized, address) ← normalizeTarget t;
  let body :=
    if IsValid address then
      let address := Unmap address in
      if Is4 address then targetIPv4 :: As4 address else targetIPv6 :: As16 address
    else targetDomain :: put_uvarint (len (Host normalized)) ++ Host normalized in
  Ok ([targetNetworkTCP] ++ body ++ be_encode 2 (tPort normalized)).

(** The two failures of the reader are one error here. *)
Definition target_readCanonicalUvarint (raw : list byte) : res (Z * Z) :=
  let '(value, consumed) := Uvarint raw in
  if consumed <=? 0 then Err ErrInvalidTarget
  else
    let canonical := put_uvarint value in
    if negb (consumed =? len canonical) || negb (bytes_eq (take (Z.to_nat consumed) raw) canonical) then Err ErrInvalidTarget
    else Ok (value, consumed).

(** The host and the bytes after it. *)
Definition decode_host (kind : byte) (raw : list byte) : res (list byte * list byte) :=
  if bool_decide (kind = targetDomain) then
    match target_readCanonicalUvarint raw with
    | Err _ => Err ErrInvalidTarget
    | Ok (length, consumed) =>
        if (length =? 0) || (maxDomainLength <? length) then Err ErrInvalidTarget
        else
          let raw := skip consumed raw in
          if len raw <? length + 2 then Err ErrInvalidTarget else Ok (take (Z.to_nat length) raw, drop (Z.to_nat length) raw)
    end
  else if bool_decide (kind = targetIPv4) then
    if len raw <? 4 + 2 then Err ErrInvalidTarget else Ok (AddrString (AddrFrom4 (take 4 raw)), drop 4 raw)
  else if bool_decide (kind = targetIPv6) then
    if len raw <? 16 + 2 then Err ErrInvalidTarget else Ok (AddrString (AddrFrom16 (take 16 raw)), drop 16 raw)
  else Err ErrInvalidTarget.

Definition DecodeTarget (raw : list byte) : res target :=
  match raw with
  | network :: kind :: body =>
      if negb (bool_decide (network = targetNetworkTCP)) then Err ErrInvalidTarget
      else
        '(host, rest) ← decode_host kind body;
        if negb (len rest =? 2) then Err ErrInvalidTarget
        else
          let t := mkT host (be_decode rest) in
          '(normalized, parsedAddress) ← normalizeTarget t;
          if (bool_decide (kind = targetDomain) && IsValid parsedAddress) || (negb (bool_decide (kind = targetDomain)) && negb (IsValid parsedAddress))
             || negb (bool_decide (normalized = t)) then Err ErrInvalidTarget
          else Ok t
  | _ => Err ErrInvalidTarget
  end.

(** ** Canonical targets *)

Definition typed_target (t : target) : Prop := 0 <= tPort t < 65536.

(** The targets that normalization leaves alone. *)
Definition canonical (t : target) : Prop := typed_target t /\ exists a, normalizeTarget t = Ok (t, a).

Lemma target_reader_ok raw r : target_readCanonicalUvarint raw = Ok r <-> readCanonicalUvarint raw = Ok r.
Proof.
  unfold target_readCanonicalUvarint, readCanonicalUvarint. destruct (Uvarint raw) as [v n].
  destruct (Z.leb_spec n 0), (Z.eqb_spec n 0), (Z.ltb_spec n 0); try lia; split; try done; case_match; congruence.
Qed.

Lemma be_encode_2 p : 0 <= p < 65536 -> be_decode (be_encode 2 p) = p.
Proof. intros H. rewrite be_decode_encode. apply Z.mod_small. lia. Qed.

(** What a successful normalization returns. *)
Lemma normalize_inv t n a : normalizeTarget t = Ok (n, a) ->
  tPort t <> 0 /\ tPort n = tPort t /\
  ((exists x, ParseAddr (Host t) = Some x /\ Zone x = [] /\ a = Unmap x /\ Host n = AddrString a) \/
   (ParseAddr (Host t) = None /\ a = AddrInvalid /\ proxy_validDomain (Host n) = true /\ Host n = ToLower (TrimSuffix (Host t) [x2e]))).
Proof.
  unfold normalizeTarget. destruct (Z.eqb_spec (tPort t) 0); [done|]. destruct (ParseAddr (Host t)) as [x|].
  - case_bool_decide; [|done]. cbn [negb]. intros [= <- <-]. split; [done|]. split; [done|]. left. by exists x.
  - destruct (proxy_validDomain _) eqn:E; [|done]. cbn [negb]. intros [= <- <-]. split; [done|]. split; [done|]. right. done.
Qed.

Lemma unmapped_wf s x : ParseAddr s = Some x -> Zone x = [] -> addr_wf (Unmap x) /\ IsValid (Unmap x) = true /\ Zone (Unmap x) = [].
Proof.
  intros Hp Hz. pose proof (Unmap_wf _ (ParseAddr_wf _ _ Hp)) as Hw. split; [done|]. split; [by destruct (Unmap x)|by apply Unmap_zone].
Qed.

Lemma validDomain_len h : proxy_validDomain h = true -> 0 < len h <= 253.
Proof. unfold proxy_validDomain. destruct (_ || _) eqn:E; [done|]. apply orb_false_iff in E. rewrite Z.eqb_neq, Z.ltb_ge in E. unfold maxDomainLength, len in *. lia. Qed.

(** The address kinds of the encoding. *)
Lemma decode_host4 a rest : 0 <= a < 2 ^ 32 -> (2 <= length rest)%nat -> decode_host targetIPv4 (be_encode 4 a ++ rest) = Ok (AddrString (Addr4 a), rest).
Proof.
  intros Ha Hr. unfold decode_host. rewrite bool_decide_eq_false_2, bool_decide_eq_true_2 by done.
  destruct (Z.ltb_spec (len (be_encode 4 a ++ rest)) (4 + 2)) as [H|_]; [unfold len in H; rewrite length_app, length_be_encode in H; lia|].
  rewrite take_app_exact, drop_app_exact by apply length_be_encode. unfold AddrFrom4. rewrite be_decode_encode, Z.mod_small; [done|exact Ha].
Qed.

Lemma decode_host6 a rest : 0 <= a < 2 ^ 128 -> (2 <= length rest)%nat -> decode_host targetIPv6 (be_encode 16 a ++ rest) = Ok (AddrString (Addr6 a []), rest).
Proof.
  intros Ha Hr. unfold decode_host. rewrite !bool_decide_eq_false_2, bool_decide_eq_true_2 by done.
  destruct (Z.ltb_spec (len (be_encode 16 a ++ rest)) (16 + 2)) as [H|_]; [unfold len in H; rewrite length_app, length_be_encode in H; lia|].
  rewrite take_app_exact, drop_app_exact by apply length_be_encode. unfold AddrFrom16. rewrite be_decode_encode, Z.mod_small; [done|exact Ha].
Qed.

Lemma decode_domain host rest : 0 < len host <= 253 -> (2 <= length rest)%nat ->
  decode_host targetDomain (put_uvarint (len host) ++ host ++ rest) = Ok (host, rest).
Proof.
  intros Hl Hr. unfold decode_host. rewrite bool_decide_eq_true_2 by done.
  rewrite (proj2 (target_reader_ok _ (len host, len (put_uvarint (len host))))) by (apply readCanonicalUvarint_put; unfold is_u64; lia).
  unfold maxDomainLength. destruct (Z.eqb_spec (len host) 0); [lia|]. destruct (Z.ltb_spec 253 (len host)); [lia|]. cbn [orb].
  rewrite skip_put. destruct (Z.ltb_spec (len (host ++ rest)) (len host + 2)) as [Hlt|_]; [unfold len in Hlt; rewrite length_app in Hlt; lia|].
  unfold len. by rewrite Nat2Z.id, take_app_length, drop_app_length.
Qed.

(** Decoding what was encoded gives the normalized target, if it is one. *)
Lemma decode_encode t n a raw : typed_target t -> normalizeTarget t = Ok (n, a) -> EncodeTarget t = Ok raw ->
  normalizeTarget n = Ok (n, a) -> DecodeTarget raw = Ok n.
Proof.
  unfold typed_target, EncodeTarget. intros Ht Hn. rewrite Hn. cbn [mbind res_bind]. intros [= <-] Hfix. cbn [app].
  apply normalize_inv in Hn as (Hp0 & Hp & Hcase). rewrite <- Hp in Ht. clear Hp Hp0.
  assert (Hl2 : (2 <= length (be_encode 2 (tPort n)))%nat) by by rewrite length_be_encode.
  assert (Hfin : forall k body, decode_host k (body ++ be_encode 2 (tPort n)) = Ok (Host n, be_encode 2 (tPort n)) ->
    bool_decide (k = targetDomain) = negb (IsValid a) -> DecodeTarget (targetNetworkTCP :: k :: body ++ be_encode 2 (tPort n)) = Ok n).
  { intros k body Hd Hk. unfold DecodeTarget. rewrite bool_decide_eq_true_2 by done. cbn [negb]. rewrite Hd. cbn [mbind res_bind].
    rewrite len_be_encode. change (negb (Z.of_nat 2 =? 2)) with false. cbn iota. rewrite be_encode_2 by done. destruct n as [h p]. cbn [Host tPort] in *. rewrite Hfix.
    cbn [mbind res_bind]. rewrite Hk, (bool_decide_eq_true_2 (mkT h p = _)) by done. by destruct (IsValid a). }
  destruct Hcase as [(x & Hx & Hz & -> & Hh)|(_ & -> & Hd & _)].
  - destruct (unmapped_wf _ _ Hx Hz) as (Hw & Hv & Hzu). rewrite Hv, Unmap_idem. apply ParseAddr_wf in Hx.
    destruct (Unmap x) as [|v|v z] eqn:E; [done| |]; cbn [Is4 As4 As16].
    + apply (Hfin targetIPv4); [|done]. rewrite Hh. by apply decode_host4.
    + cbn in Hzu. subst z. apply (Hfin targetIPv6); [|done]. rewrite Hh. by apply decode_host6.
  - cbn [IsValid app]. apply (Hfin targetDomain (put_uvarint (len (Host n)) ++ Host n)); [|done]. rewrite <- app_assoc. by apply decode_domain; [apply validDomain_len|].
Qed.

(** *** Only encodings decode *)

Lemma AddrString_inj x y : addr_wf x -> addr_wf y -> AddrString x = AddrString y -> x = y.
Proof. intros Hx Hy E. apply ParseAddr_String in Hx, Hy. congruence. Qed.

Lemma decode_inv raw t : DecodeTarget raw = Ok t -> canonical t /\ EncodeTarget t = Ok raw.
Proof.
  unfold DecodeTarget. destruct raw as [|network [|kind body]]; try done. case_bool_decide as Hnet; [subst network|done]. cbn [negb].
  destruct (decode_host kind body) as [[host rest]|] eqn:Hd; [|done]. cbn [mbind res_bind]. destruct (Z.eqb_spec (len rest) 2) as [Hl|]; [cbn [negb]|done].
  destruct (normalizeTarget _) as [[n a]|] eqn:Hn; [|done]. cbn [mbind res_bind]. destruct (_ || _) eqn:G; [done|]. intros [= <-].
  rewrite !orb_false_iff, negb_false_iff, bool_decide_eq_true in G. destruct G as [[G1 G2] ->].
  assert (Hl' : length rest = 2%nat) by (unfold len in Hl; lia).
  assert (Htyped : typed_target (mkT host (be_decode rest))) by (unfold typed_target; cbn; pose proof (be_decode_bound rest 2 ltac:(lia)); lia).
  split; [split; [done|by exists a]|]. unfold EncodeTarget. rewrite Hn. cbn [mbind res_bind Host tPort app]. do 2 f_equal.
  assert (Hrest : be_encode 2 (be_decode rest) = rest) by (rewrite <- Hl'; apply be_encode_decode). rewrite Hrest.
  apply normalize_inv in Hn as (_ & _ & Hcase). cbn [Host] in Hcase. revert Hd. unfold decode_host. case_bool_decide as Hk1.
  - subst kind. destruct (target_readCanonicalUvarint body) as [[v c]|] eqn:Er; [|done]. apply target_reader_ok, readCanonicalUvarint_inv in Er as (Hv & -> & Eb).
    destruct (_ || _) eqn:G; [done|]. rewrite orb_false_iff, Z.eqb_neq, Z.ltb_ge in G. set (tail := skip _ body) in *. destruct (Z.ltb_spec (len tail) (v + 2)); [done|].
    intros [= <- <-]. cbn [andb] in G1. rewrite G1. rewrite Eb. cbn [app]. f_equal. rewrite <- app_assoc.
    assert (El : len (take (Z.to_nat v) tail) = v) by (unfold len in *; rewrite length_take; unfold is_u64 in Hv; lia).
    by rewrite El, take_drop.
  - cbn [negb andb] in G2. apply negb_false_iff in G2. rewrite G2. destruct Hcase as [(x & Hx & Hz & -> & Hh)|(_ & -> & _)]; [|done]. rewrite Unmap_idem.
    destruct (unmapped_wf _ _ Hx Hz) as (Hw & _ & _).
    case_bool_decide as Hk2; [|case_bool_decide as Hk3; [|done]].
    + subst kind. destruct (_ <? _) eqn:Eb; [done|]. apply Z.ltb_ge in Eb. intros Hd. apply Ok_inj, pair_equal_spec in Hd. destruct Hd as [<- <-].
      assert (E4 : length (take 4 body) = 4%nat) by (rewrite length_take; unfold len in Eb; lia).
      assert (Hx4 : Unmap x = AddrFrom4 (take 4 body)) by (apply AddrString_inj; [done|apply (be_decode_bound _ 4); lia|by rewrite <- Hh]).
      rewrite Hx4. cbn [AddrFrom4 Is4 As4]. rewrite <- E4 at 1. rewrite be_encode_decode. cbn [app]. f_equal. apply take_drop.
    + subst kind. destruct (_ <? _) eqn:Eb; [done|]. apply Z.ltb_ge in Eb. intros Hd. apply Ok_inj, pair_equal_spec in Hd. destruct Hd as [<- <-].
      assert (E16 : length (take 16 body) = 16%nat) by (rewrite length_take; unfold len in Eb; lia).
      assert (Hx6 : Unmap x = AddrFrom16 (take 16 body)) by (apply AddrString_inj; [done|apply (be_decode_bound _ 16); lia|by rewrite <- Hh]).
      rewrite Hx6. cbn [AddrFrom16 Is4 As16]. rewrite <- E16 at 1. rewrite be_encode_decode. cbn [app]. f_equal. apply take_drop.
Qed.

(** the encoding of targets is a codec of the canonical targets: a decoded
    target is canonical (normalized address, lower case name, a port) and its
    only encoding is the input; a canonical target decodes to itself. *)
Theorem target_codec : Codec canonical EncodeTarget DecodeTarget.
Proof.
  split; [|intros t raw; apply decode_inv]. intros t raw [Ht [a Hn]] He. by eapply decode_encode.
Qed.

(** ** Destination policy *)

Record DestinationPolicy := mkPolicy { AllowPrivate : bool }.

(** A prefix written with its groups; [MustParsePrefix] masks nothing, and these
    are masked as written. *)
Definition p4 (a b c d bits : Z) : Prefix := mkPrefix (Addr4 (a * 2 ^ 24 + b * 2 ^ 16 + c * 2 ^ 8 + d)) bits.
Definition p6 (a b c bits : Z) : Prefix := mkPrefix (Addr6 (a * 2 ^ 112 + b * 2 ^ 96 + c * 2 ^ 80) []) bits.

Definition deniedSpecialPrefixes : list Prefix :=
  [p4 0 0 0 0 8; p4 100 64 0 0 10; p4 127 0 0 0 8; p4 169 254 0 0 16; p4 192 0 0 0 24; p4 192 0 2 0 24; p4 192 88 99 0 24; p4 198 18 0 0 15;
   p4 198 51 100 0 24; p4 203 0 113 0 24; p4 240 0 0 0 4; p6 0x64 0xff9b 0 96; p6 0x64 0xff9b 1 48; p6 0x100 0 0 64; p6 0x2001 0 0 23;
   p6 0x2001 0xdb8 0 32; p6 0x2002 0 0 16; p6 0x3fff 0 0 20; p6 0x5f00 0 0 16].

Example prefixes_are_the_texts :
  map PrefixString deniedSpecialPrefixes =
    map bytes_of ["0.0.0.0/8"; "100.64.0.0/10"; "127.0.0.0/8"; "169.254.0.0/16"; "192.0.0.0/24"; "192.0.2.0/24"; "192.88.99.0/24"; "198.18.0.0/15";
      "198.51.100.0/24"; "203.0.113.0/24"; "240.0.0.0/4"; "64:ff9b::/96"; "64:ff9b:1::/48"; "100::/64"; "2001::/23"; "2001:db8::/32"; "2002::/16";
      "3fff::/20"; "5f00::/16"]%string.
Proof. vm_compute. reflexivity. Qed.

Definition Allows (p : DestinationPolicy) (address : Addr) : bool :=
  if negb (IsValid address) then false
  else
    let address := Unmap address in
    if AllowPrivate p && (IsPrivate address || IsLoopback address) then true
    else if negb (IsGlobalUnicast address) || IsPrivate address || IsLoopback address || IsLinkLocalUnicast address || IsLinkLocalMulticast address
            || IsMulticast address || IsUnspecified address then false
    else negb (existsb (fun prefix => Contains prefix address) deniedSpecialPrefixes).

(** The loop over the answers: the unique addresses so far. *)
Fixpoint collect (p : DestinationPolicy) (addresses unique : list Addr) : res (list Addr) :=
  match addresses with
  | [] => Ok unique
  | a :: addresses =>
      let a := Unmap a in
      if negb (Allows p a) then Err ErrDestinationDenied
      else if bool_decide (a ∈ unique) then collect p addresses unique else collect p addresses (unique ++ [a])
  end.

(** [resolver]: none, or the outcome of looking up a name. *)
Definition Resolve (p : DestinationPolicy) (t : target) (resolver : option (list byte -> res (list Addr))) : res (list Addr) :=
  '(normalized, literal) ← normalizeTarget t;
  if IsValid literal then if negb (Allows p literal) then Err ErrDestinationDenied else Ok [Unmap literal]
  else match resolver with
       | None => Err ErrResolution
       | Some lookup =>
           match lookup (Host normalized) with
           | Err _ => Err ErrResolution
           | Ok addresses =>
               if (len addresses =? 0) || (maxDNSAnswers <? len addresses) then Err ErrResolution else collect p addresses []
           end
       end.

(** *** What the policy excludes *)

(** The special-purpose IPv4 ranges that a public destination is not in. *)
Definition reserved4 : list (Z * Z) :=
  map (fun '(a, b, c, d, bits) => let lo := a * 2 ^ 24 + b * 2 ^ 16 + c * 2 ^ 8 + d in (lo, lo + 2 ^ (32 - bits) - 1))
    [(0, 0, 0, 0, 8); (10, 0, 0, 0, 8); (100, 64, 0, 0, 10); (127, 0, 0, 0, 8); (169, 254, 0, 0, 16); (172, 16, 0, 0, 12); (192, 0, 0, 0, 24);
     (192, 0, 2, 0, 24); (192, 88, 99, 0, 24); (192, 168, 0, 0, 16); (198, 18, 0, 0, 15); (198, 51, 100, 0, 24); (203, 0, 113, 0, 24);
     (224, 0, 0, 0, 4); (240, 0, 0, 0, 4)].

Lemma top4 n a : 0 <= n <= 32 -> top 32 n a = a / 2 ^ (32 - n).
Proof. intros H. unfold top. apply Z.shiftr_div_pow2. lia. Qed.

Lemma div_range a k c : 0 < k -> (a / k =? c) = false <-> a < c * k \/ c * k + k - 1 < a.
Proof. intros Hk. rewrite Z.eqb_neq. pose proof (Z.div_mod a k ltac:(lia)). pose proof (Z.mod_pos_bound a k Hk). nia. Qed.

(** Evaluates the constant bounds of a goal. *)
Ltac numerals :=
  repeat match goal with
  | |- context [?a < ?c] => lazymatch c with Zpos _ => fail | Z0 => fail | Zneg _ => fail | _ => is_var a; let v := eval vm_compute in c in change (a < c) with (a < v) end
  | |- context [?c < ?a] => lazymatch c with Zpos _ => fail | Z0 => fail | Zneg _ => fail | _ => is_var a; let v := eval vm_compute in c in change (c < a) with (v < a) end
  | |- context [?a <> ?c] => lazymatch c with Zpos _ => fail | Z0 => fail | Zneg _ => fail | _ => is_var a; let v := eval vm_compute in c in change (a <> c) with (a <> v) end
  end.

Lemma if_false_negb (b c : bool) : (if b then false else negb c) = true <-> b = false /\ c = false.
Proof. destruct b, c; cbn; intuition congruence. Qed.

Lemma allows4 a : 0 <= a < 2 ^ 32 ->
  Allows (mkPolicy false) (Addr4 a) = true <-> Forall (fun '(lo, hi) => a < lo \/ hi < a) reserved4.
Proof.
  intros Ha. unfold Allows. cbn [IsValid negb AllowPrivate andb]. unfold reserved4. cbn [map].
  unfold IsGlobalUnicast, IsPrivate, IsLoopback, IsMulticast, IsLinkLocalUnicast, IsLinkLocalMulticast, IsUnspecified. cbn [Unmap].
  unfold deniedSpecialPrefixes. cbn [existsb]. unfold Contains, p4, p6. cbn [px_addr px_bits]. rewrite !top4 by lia.
  rewrite !Forall_cons, Forall_nil, if_false_negb, !orb_false_iff, negb_false_iff, !andb_true_iff, !negb_true_iff, !orb_false_iff, !div_range, !Z.eqb_neq by lia.
  numerals. split; intros H.
  - destruct_and! H. split_and!; assumption || exact I.
  - assert (F0 : a < 0 \/ 16777215 < a) by apply H. assert (F14 : a < 4026531840 \/ 4294967295 < a) by apply H.
    assert (F13 : a < 3758096384 \/ 4026531839 < a) by apply H. destruct_and! H.
    assert (a <> 0 /\ a <> 4294967295 /\ (a < 3758096384 \/ 3758096639 < a)) as (? & ? & ?) by (clear -Ha F0 F13 F14; lia).
    split_and!; assumption || reflexivity.
Qed.

Lemma collect_ok p addresses unique l : collect p addresses unique = Ok l ->
  NoDup unique -> Forall (fun a => Allows p a = true /\ Unmap a = a) unique ->
  NoDup l /\ Forall (fun a => Allows p a = true /\ Unmap a = a) l /\ (forall a, a ∈ l <-> a ∈ unique \/ exists b, b ∈ addresses /\ a = Unmap b) /\
  Forall (fun b => Allows p b = true) (map Unmap addresses).
Proof.
  revert unique. induction addresses as [|b addresses IH]; intros unique; cbn [collect map].
  - intros [= <-] Hn Hf. do 2 (split; [done|]). split; [|constructor]. intros a. split; [by left|]. intros [?|(b & Hb & _)]; [done|by apply elem_of_nil in Hb].
  - destruct (Allows p (Unmap b)) eqn:Ha; [cbn [negb]|done]. case_bool_decide as Hin; intros Hc Hn Hf.
    + destruct (IH _ Hc Hn Hf) as (H1 & H2 & H3 & H4). do 2 (split; [done|]). split; [|by constructor]. intros a. rewrite H3. split.
      * intros [?|(c & Hc' & ->)]; [by left|right]. exists c. split; [by constructor|done].
      * intros [?|(c & [->|Hc']%elem_of_cons & ->)]; [by left|by left|right; by exists c].
    + assert (Hn' : NoDup (unique ++ [Unmap b])).
      { apply NoDup_app. split; [done|]. split; [|apply NoDup_singleton]. intros x Hx ->%list_elem_of_singleton. done. }
      assert (Hf' : Forall (fun a => Allows p a = true /\ Unmap a = a) (unique ++ [Unmap b])).
      { apply Forall_app. split; [done|]. constructor; [|constructor]. split; [done|apply Unmap_idem]. }
      destruct (IH _ Hc Hn' Hf') as (H1 & H2 & H3 & H4). do 2 (split; [done|]). split; [|by constructor]. intros a. rewrite H3, elem_of_app, list_elem_of_singleton. split.
      * intros [[?| ->]|(c & Hc' & ->)]; [by left|right; exists b; split; [constructor|done]|right]. exists c. split; [by constructor|done].
      * intros [?|(c & [->|Hc']%elem_of_cons & ->)]; [by left; left|by left; right|right; by exists c].
Qed.

(** The addresses a target stands for: its literal, or the answers of the
    resolver for its normalized name. *)
Definition denotes (t : target) (resolver : option (list byte -> res (list Addr))) (a : Addr) : Prop :=
  (exists x, ParseAddr (Host t) = Some x /\ a = Unmap x) \/
  (ParseAddr (Host t) = None /\ exists lookup answers b, resolver = Some lookup /\ lookup (ToLower (TrimSuffix (Host t) [x2e])) = Ok answers /\ b ∈ answers /\ a = Unmap b).

(** C23: the server connects only where its policy allows: every address that
    [Resolve] returns is allowed, every address the name stands for is returned
    once (one forbidden answer refuses the whole target), and without private
    destinations no returned IPv4 address is in a special-purpose range. *)
Theorem resolve_allowed p t resolver l : Resolve p t resolver = Ok l ->
  l <> [] /\ NoDup l /\ Forall (fun a => Allows p a = true /\ Unmap a = a) l /\ (forall a, a ∈ l <-> denotes t resolver a) /\
  (AllowPrivate p = false -> forall v, 0 <= v < 2 ^ 32 -> Addr4 v ∈ l -> Forall (fun '(lo, hi) => v < lo \/ hi < v) reserved4).
Proof.
  intros Hr. assert (H : l <> [] /\ NoDup l /\ Forall (fun a => Allows p a = true /\ Unmap a = a) l /\ (forall a, a ∈ l <-> denotes t resolver a)).
  { revert Hr. unfold Resolve, denotes. destruct (normalizeTarget t) as [[n a]|] eqn:Hn; [|done]. cbn [mbind res_bind]. apply normalize_inv in Hn as (_ & _ & Hcase).
    destruct Hcase as [(x & Hx & Hz & -> & _)|(Hx & -> & Hd & Hh)].
    - destruct (unmapped_wf _ _ Hx Hz) as (_ & Hv & _). rewrite Hv, Unmap_idem. destruct (Allows p (Unmap x)) eqn:Ha; [cbn [negb]|done]. intros [= <-].
      split; [done|]. split; [apply NoDup_singleton|]. split; [constructor; [split; [done|apply Unmap_idem]|constructor]|]. intros a. rewrite list_elem_of_singleton, Hx. split.
      + intros ->. left. by exists x.
      + intros [(y & [= <-] & ->)|[? _]]; done.
    - cbn [IsValid]. destruct resolver as [lookup|]; [|done]. rewrite Hh. destruct (lookup _) as [answers|] eqn:El; [|done].
      destruct (_ || _) eqn:G; [done|]. rewrite orb_false_iff, Z.eqb_neq in G. intros Hc. destruct (collect_ok _ _ _ _ Hc (NoDup_nil_2) (Forall_nil_2 _)) as (H1 & H2 & H3 & _).
      assert (Hall : forall a, a ∈ l <-> exists b, b ∈ answers /\ a = Unmap b) by (intros a; rewrite H3, elem_of_nil; tauto).
      split; [|split; [done|split; [done|]]].
      + intros ->. destruct answers as [|b answers]; [unfold len in G; cbn in G; lia|]. assert (Hb : Unmap b ∈ []) by (apply Hall; exists b; split; [constructor|done]). by apply elem_of_nil in Hb.
      + intros a. rewrite Hall. split.
        * intros (b & Hb & ->). right. split; [done|]. by exists lookup, answers, b.
        * intros [(y & Hy & _)|(_ & lookup' & answers' & b & [= <-] & Hl & Hb & ->)]; [congruence|]. rewrite El in Hl. injection Hl as <-. by exists b. }
  destruct H as (H1 & H2 & H3 & H4). do 4 (split; [done|]). intros Hp v Hv Hin. apply allows4; [done|]. rewrite Forall_forall in H3.
  destruct p as [b]. cbn in Hp. subst b. by apply H3.
Qed.

(** ** Open requests *)

Definition CommandTCPConnect : Z := 1.
Definition CommandUDPFixed : Z := 2.
Definition CommandUDPAssociate : Z := 3.
Definition CommandTCPClientRoute : Z := 4.
Definition CommandUDPClientRoute : Z := 5.
Definition CommandClusterCatalog : Z := 0x10.
Definition CommandClusterRelay : Z := 0x11.
Definition CommandClusterCatalogRelay : Z := 0x12.
Definition CommandClusterCredentialSync : Z := 0x13.
Definition CommandClusterState : Z := 0x14.
Definition CommandClusterGeoData : Z := 0x15.

Record OpenRequest := mkOpen {
  Command : Z; oTarget : target; Relay : option RelayRequest; CatalogUserID : list byte; CredentialSync : option CredentialSyncRequest;
  GeoData : option GeoDataRequest; ClientRoute : option ClientRouteRequest
}.
Definition zeroRequest : OpenRequest := mkOpen 0 zeroTarget None [] None None None.

Definition validCatalogUserID (value : list byte) : bool :=
  if bool_decide (value = []) || (128 <? len value) then false
  else forallb (fun c => is_lower c || is_upper c || is_dec c || is_hyphen c || is_underscore c) value.

Definition none {A} (o : option A) : bool := match o with None => true | Some _ => false end.

(** [raw[0] = byte(CommandUDPFixed)]. *)
Definition set_first (b : byte) (raw : list byte) : list byte := match raw with [] => [] | _ :: raw => b :: raw end.

Section Requests.
(** [json.Marshal] of the payloads and the strict decoders (unknown fields
    disallowed, then the end of the input). *)
Context (json_relay : RelayRequest -> option (list byte)) (parse_relay : list byte -> option RelayRequest).
Context (json_sync : CredentialSyncRequest -> option (list byte)) (parse_sync : list byte -> option CredentialSyncRequest).
Context (json_geo : GeoDataRequest -> option (list byte)) (parse_geo : list byte -> option GeoDataRequest).
Context (json_route : ClientRouteRequest -> option (list byte)) (parse_route : list byte -> option ClientRouteRequest).

Definition payload_message (command : Z) (maximum : Z) (payload : option (list byte)) : res (list byte) :=
  match payload with
  | None => Err ErrInvalidTarget
  | Some payload =>
      if (len payload =? 0) || (maximum <? len payload) then Err ErrInvalidTarget
      else Ok ([z2b command] ++ be_encode 2 (len payload) ++ payload)
  end.

Definition EncodeOpenRequest (r : OpenRequest) : res (list byte) :=
  let '(mkOpen command t relay user sync geo route) := r in
  if command =? CommandTCPConnect then
    if bool_decide (t = zeroTarget) || negb (none relay) || negb (bool_decide (user = [])) || negb (none sync) || negb (none geo) || negb (none route)
    then Err ErrInvalidTarget else EncodeTarget t
  else if command =? CommandUDPFixed then
    if bool_decide (t = zeroTarget) || negb (none relay) || negb (bool_decide (user = [])) || negb (none sync) || negb (none geo) || negb (none route)
    then Err ErrInvalidTarget else raw ← EncodeTarget t; Ok (set_first (z2b CommandUDPFixed) raw)
  else if command =? CommandUDPAssociate then
    if negb (bool_decide (t = zeroTarget)) || negb (none relay) || negb (bool_decide (user = [])) || negb (none sync) || negb (none geo) || negb (none route)
    then Err ErrInvalidTarget else Ok [z2b CommandUDPAssociate]
  else if (command =? CommandTCPClientRoute) || (command =? CommandUDPClientRoute) then
    if bool_decide (t = zeroTarget) || negb (none relay) || negb (bool_decide (user = [])) || negb (none sync) || negb (none geo) then Err ErrInvalidTarget
    else match route with
         | None => Err ErrInvalidTarget
         | Some route =>
             if negb (ValidateClientRouteRequest route) then Err ErrInvalidTarget
             else
               traw ← EncodeTarget t;
               match json_route route with
               | None => Err ErrInvalidTarget
               | Some payload =>
                   if (len payload =? 0) || (1024 <? len payload) then Err ErrInvalidTarget
                   else Ok ([z2b command] ++ be_encode 2 (u16 (len traw)) ++ traw ++ be_encode 2 (u16 (len payload)) ++ payload)
               end
         end
  else if (command =? CommandClusterCatalog) || (command =? CommandClusterState) then
    if negb (bool_decide (t = zeroTarget)) || negb (none relay) || negb (bool_decide (user = [])) || negb (none sync) || negb (none geo) || negb (none route)
    then Err ErrInvalidTarget else Ok [z2b command]
  else if command =? CommandClusterRelay then
    match relay with
    | None => Err ErrInvalidTarget
    | Some relay =>
        if negb (bool_decide (t = zeroTarget)) || negb (bool_decide (user = [])) || negb (none sync) || negb (none geo) || negb (none route)
        then Err ErrInvalidTarget else payload_message CommandClusterRelay 16384 (json_relay relay)
    end
  else if command =? CommandClusterCatalogRelay then
    if negb (bool_decide (t = zeroTarget)) || negb (none relay) || negb (validCatalogUserID user) || negb (none sync) || negb (none geo) || negb (none route)
    then Err ErrInvalidTarget else Ok ([z2b CommandClusterCatalogRelay] ++ be_encode 2 (u16 (len user)) ++ user)
  else if command =? CommandClusterCredentialSync then
    match sync with
    | None => Err ErrInvalidTarget
    | Some sync =>
        if negb (bool_decide (t = zeroTarget)) || negb (none relay) || negb (bool_decide (user = [])) || negb (none geo) || negb (none route)
           || negb (ValidateCredentialSync sync)
        then Err ErrInvalidTarget else payload_message CommandClusterCredentialSync 1024 (json_sync sync)
    end
  else if command =? CommandClusterGeoData then
    match geo with
    | None => Err ErrInvalidTarget
    | Some geo =>
        if negb (bool_decide (t = zeroTarget)) || negb (none relay) || negb (bool_decide (user = [])) || negb (none sync) || negb (none route)
           || negb (ValidateGeoDataRequest geo)
        then Err ErrInvalidTarget else payload_message CommandClusterGeoData 256 (json_geo geo)
    end
  else Err ErrInvalidTarget.

(** [len(raw) < 3 || Uint16(raw[1:3]) != len(raw)-3 || len(raw)-3 > maximum]. *)
Definition payload_of (maximum : Z) (raw : list byte) : option (list byte) :=
  if (len raw <? 3) || negb (be_decode (slice raw 1 3) =? len raw - 3) || (maximum <? len raw - 3) then None else Some (drop 3 raw).

Definition DecodeOpenRequest (raw : list byte) : res OpenRequest :=
  match raw with
  | [] => Err ErrInvalidTarget
  | first :: _ =>
      let command := b2z first in
      if command =? CommandTCPConnect then t ← DecodeTarget raw; Ok (mkOpen command t None [] None None None)
      else if command =? CommandUDPFixed then t ← DecodeTarget (set_first targetNetworkTCP raw); Ok (mkOpen command t None [] None None None)
      else if command =? CommandUDPAssociate then
        if negb (len raw =? 1) then Err ErrInvalidTarget else Ok (mkOpen command zeroTarget None [] None None None)
      else if (command =? CommandTCPClientRoute) || (command =? CommandUDPClientRoute) then
        if len raw <? 7 then Err ErrInvalidTarget
        else
          let targetLength := be_decode (slice raw 1 3) in
          if (targetLength =? 0) || (len raw <? 3 + targetLength + 2) then Err ErrInvalidTarget
          else match DecodeTarget (slice raw 3 (3 + targetLength)) with
               | Err _ => Err ErrInvalidTarget
               | Ok t =>
                   let routeOffset := 3 + targetLength in
                   let routeLength := be_decode (slice raw routeOffset (routeOffset + 2)) in
                   if (routeLength =? 0) || (1024 <? routeLength) || negb (routeOffset + 2 + routeLength =? len raw) then Err ErrInvalidTarget
                   else match parse_route (skip (routeOffset + 2) raw) with
                        | None => Err ErrInvalidTarget
                        | Some route =>
                            if negb (ValidateClientRouteRequest route) then Err ErrInvalidTarget
                            else Ok (mkOpen command t None [] None None (Some route))
                        end
               end
      else if (command =? CommandClusterCatalog) || (command =? CommandClusterState) then
        if negb (len raw =? 1) then Err ErrInvalidTarget else Ok (mkOpen command zeroTarget None [] None None None)
      else if command =? CommandClusterCatalogRelay then
        if (len raw <? 4) || negb (be_decode (slice raw 1 3) =? len raw - 3) || negb (validCatalogUserID (drop 3 raw)) then Err ErrInvalidTarget
        else Ok (mkOpen command zeroTarget None (drop 3 raw) None None None)
      else if command =? CommandClusterRelay then
        match payload_of 16384 raw ≫= parse_relay with
        | None => Err ErrInvalidTarget
        | Some relay => Ok (mkOpen command zeroTarget (Some relay) [] None None None)
        end
      else if command =? CommandClusterCredentialSync then
        match payload_of 1024 raw ≫= parse_sync with
        | None => Err ErrInvalidTarget
        | Some sync => if negb (ValidateCredentialSync sync) then Err ErrInvalidTarget else Ok (mkOpen command zeroTarget None [] (Some sync) None None)
        end
      else if command =? CommandClusterGeoData then
        match payload_of 256 raw ≫= parse_geo with
        | None => Err ErrInvalidTarget
        | Some geo => if negb (ValidateGeoDataRequest geo) then Err ErrInvalidTarget else Ok (mkOpen command zeroTarget None [] None (Some geo) None)
        end
      else Err ErrInvalidTarget
  end.
End Requests.

Lemma encode_target_shape t raw : EncodeTarget t = Ok raw -> exists body, raw = targetNetworkTCP :: body /\ 4 <= len raw <= 300.
Proof.
  unfold EncodeTarget. destruct (normalizeTarget t) as [[n a]|] eqn:Hn; [|done]. cbn [mbind res_bind]. intros He. apply Ok_inj in He. subst raw. eexists. split; [reflexivity|].
  apply normalize_inv in Hn as (_ & _ & Hcase). rewrite !len_app, len_be_encode. change (len [targetNetworkTCP]) with 1. destruct (IsValid a) eqn:Ev.
  - destruct (Is4 (Unmap a)); rewrite len_cons; [unfold As4|unfold As16]; destruct (Unmap a); rewrite ?len_be_encode; unfold len; rewrite ?repeat_length; lia.
  - destruct Hcase as [(x & Hx & Hz & -> & _)|(_ & _ & Hd & _)]; [by rewrite (proj1 (proj2 (unmapped_wf _ _ Hx Hz))) in Ev|].
    apply validDomain_len in Hd. rewrite len_cons, len_app. pose proof (len_put_pos (len (Host n))). pose proof (len_put_bound 2 (len (Host n)) ltac:(lia) ltac:(lia)). lia.
Qed.

Definition ascii (s : list byte) : bool := forallb (fun c => b2z c <? 128) s.
Definition ascii_relay (r : RelayRequest) : bool :=
  ascii (rr_RouteID r) && ascii (rr_UserID r) && forallb ascii (VisitedNodeIDs r) && forallb ascii (RemainingNodeIDs r) && ascii (TraceID r)
  && ascii (TargetHost r) && ascii (rr_Protocol r)
  && match rr_ClientRoute r with None => true | Some c => ascii (cr_RouteID c) && ascii (Kind (cr_Action c)) && forallb ascii (NodeIDs (cr_Action c)) end.

(** A request whose target, if it has one, is canonical. *)
Definition regular (r : OpenRequest) : Prop :=
  (oTarget r = zeroTarget \/ canonical (oTarget r)) /\ match Relay r with Some relay => ascii_relay relay = true | None => True end.

Lemma drop_3_payload c p : drop 3 ([c] ++ be_encode 2 (len p) ++ p) = p.
Proof. reflexivity. Qed.

Lemma payload_of_message c maximum p : len p <= maximum -> len p < 65536 -> payload_of maximum ([c] ++ be_encode 2 (len p) ++ p) = Some p.
Proof.
  intros Hm Hp. unfold payload_of. rewrite !len_app, len_be_encode. change (len [c]) with 1. replace (1 + (Z.of_nat 2 + len p) - 3) with (len p) by lia.
  change (slice ([c] ++ be_encode 2 (len p) ++ p) 1 3) with (be_encode 2 (len p)). rewrite be_encode_2 by (unfold len; unfold len in Hp; lia). rewrite Z.eqb_refl.
  destruct (Z.ltb_spec (1 + (Z.of_nat 2 + len p)) 3); [unfold len in *; lia|]. destruct (Z.ltb_spec maximum (len p)); [lia|]. reflexivity.
Qed.

Section RequestProofs.
Context (json_relay : RelayRequest -> option (list byte)) (parse_relay : list byte -> option RelayRequest).
Context (json_sync : CredentialSyncRequest -> option (list byte)) (parse_sync : list byte -> option CredentialSyncRequest).
Context (json_geo : GeoDataRequest -> option (list byte)) (parse_geo : list byte -> option GeoDataRequest).
Context (json_route : ClientRouteRequest -> option (list byte)) (parse_route : list byte -> option ClientRouteRequest).
(** encoding/json reads back what it wrote when the strings are valid UTF-8:
    validated requests are ASCII. *)
Hypothesis relay_law : forall r raw, ascii_relay r = true -> json_relay r = Some raw -> parse_relay raw = Some r.
Hypothesis sync_law : forall r raw, ValidateCredentialSync r = true -> json_sync r = Some raw -> parse_sync raw = Some r.
Hypothesis geo_law : forall r raw, ValidateGeoDataRequest r = true -> json_geo r = Some raw -> parse_geo raw = Some r.
Hypothesis route_law : forall r raw, ValidateClientRouteRequest r = true -> json_route r = Some raw -> parse_route raw = Some r.

Abbreviation encode := (EncodeOpenRequest json_relay json_sync json_geo json_route).
Abbreviation decode := (DecodeOpenRequest parse_relay parse_sync parse_geo parse_route).

Ltac fields :=
  repeat match goal with
  | H : _ || _ = false |- _ => apply orb_false_iff in H as [? ?]
  | H : negb _ = false |- _ => apply negb_false_iff in H
  | H : bool_decide _ = true |- _ => apply bool_decide_eq_true in H; subst
  | H : none ?o = true |- _ => destruct o; [discriminate H|clear H]
  end.

Lemma canonical_encode t raw : t = zeroTarget \/ canonical t -> bool_decide (t = zeroTarget) = false -> EncodeTarget t = Ok raw -> DecodeTarget raw = Ok t.
Proof using. intros [->|[Ht [a Hn]]] Hz He; [by rewrite bool_decide_eq_true_2 in Hz|]. by eapply decode_encode. Qed.

Lemma payload_message_ok command maximum payload raw : maximum < 65536 -> payload_message command maximum payload = Ok raw ->
  exists p, payload = Some p /\ raw = [z2b command] ++ be_encode 2 (len p) ++ p /\ payload_of maximum raw = Some p.
Proof using.
  intros Hmax. unfold payload_message. destruct payload as [p|]; [|done]. destruct (Z.eqb_spec (len p) 0); [done|]. destruct (Z.ltb_spec maximum (len p)); [done|]. cbn [orb].
  intros [= <-]. exists p. do 2 (split; [done|]). apply payload_of_message; lia.
Qed.

Lemma client_route_message command t route traw p : 4 <= len traw <= 300 -> DecodeTarget traw = Ok t -> 0 < len p <= 1024 -> parse_route p = Some route ->
  ValidateClientRouteRequest route = true -> command = CommandTCPClientRoute \/ command = CommandUDPClientRoute ->
  decode ([z2b command] ++ be_encode 2 (u16 (len traw)) ++ traw ++ be_encode 2 (u16 (len p)) ++ p) = Ok (mkOpen command t None [] None None (Some route)).
Proof using.
  intros Ht Hd Hp Hparse Hv Hc. unfold u16. rewrite !Z.mod_small by lia.
  set (raw := [z2b command] ++ be_encode 2 (len traw) ++ traw ++ be_encode 2 (len p) ++ p).
  assert (Hlen : len raw = 5 + len traw + len p) by (unfold raw; rewrite !len_app, !len_be_encode; change (len [z2b command]) with 1; lia).
  assert (S1 : be_decode (slice raw 1 3) = len traw) by (change (slice raw 1 3) with (be_encode 2 (len traw)); apply be_encode_2; lia).
  assert (D3 : drop 3 raw = traw ++ be_encode 2 (len p) ++ p) by reflexivity.
  assert (S2 : slice raw 3 (3 + len traw) = traw).
  { unfold slice. replace (Z.to_nat (3 + len traw - 3)) with (length traw) by (unfold len; lia). change (Z.to_nat 3) with 3%nat. by rewrite D3, take_app_length. }
  assert (Dr : drop (Z.to_nat (3 + len traw)) raw = be_encode 2 (len p) ++ p).
  { replace (Z.to_nat (3 + len traw)) with (3 + length traw)%nat by (unfold len; lia). by rewrite <- drop_drop, D3, drop_app_length. }
  assert (S3 : be_decode (slice raw (3 + len traw) (3 + len traw + 2)) = len p).
  { unfold slice. rewrite Dr. replace (Z.to_nat (3 + len traw + 2 - (3 + len traw))) with 2%nat by lia. rewrite take_app_exact by apply length_be_encode. apply be_encode_2. lia. }
  assert (S4 : skip (3 + len traw + 2) raw = p).
  { unfold skip. replace (Z.to_nat (3 + len traw + 2)) with (Z.to_nat (3 + len traw) + 2)%nat by (unfold len; lia). rewrite <- drop_drop, Dr. by apply drop_app_exact, length_be_encode. }
  unfold DecodeOpenRequest. change raw with (z2b command :: be_encode 2 (len traw) ++ traw ++ be_encode 2 (len p) ++ p) at 1. cbn iota.
  assert (Hcmd : b2z (z2b command) = command) by (destruct Hc as [->| ->]; reflexivity). rewrite Hcmd, S1.
  assert (Hif : (command =? CommandTCPConnect) = false /\ (command =? CommandUDPFixed) = false /\ (command =? CommandUDPAssociate) = false /\
    (command =? CommandTCPClientRoute) || (command =? CommandUDPClientRoute) = true) by (destruct Hc as [->| ->]; done).
  destruct Hif as (-> & -> & -> & ->). rewrite Hlen. destruct (Z.ltb_spec (5 + len traw + len p) 7); [lia|]. destruct (Z.eqb_spec (len traw) 0); [lia|].
  destruct (Z.ltb_spec (5 + len traw + len p) (3 + len traw + 2)); [lia|]. cbn [orb]. rewrite S2, Hd, S3.
  destruct (Z.eqb_spec (len p) 0); [lia|]. destruct (Z.ltb_spec 1024 (len p)); [lia|]. destruct (Z.eqb_spec (3 + len traw + 2 + len p) (5 + len traw + len p)); [|lia].
  cbn [orb negb]. by rewrite S4, Hparse, Hv.
Qed.

(** every open request that is encoded decodes to itself, for each of the
    eleven commands: the target, the user, or the JSON payload, and nothing
    else. *)
Theorem open_request_roundtrip r raw : regular r -> encode r = Ok raw -> decode raw = Ok r.
Proof using geo_law relay_law route_law sync_law.
  destruct r as [command t relay user sync geo route]. unfold regular. cbn [oTarget Relay]. intros [Hreg Hrelay]. unfold EncodeOpenRequest.
  destruct (Z.eqb_spec command CommandTCPConnect) as [->|_].
  { guard_if G. fields. intros He. pose proof (canonical_encode _ _ Hreg ltac:(assumption) He) as Hd.
    destruct (encode_target_shape _ _ He) as (body & -> & _). cbn -[DecodeTarget]. by rewrite Hd. }
  destruct (Z.eqb_spec command CommandUDPFixed) as [->|_].
  { guard_if G. fields. destruct (EncodeTarget t) as [traw|] eqn:He; [|done]. cbn [mbind res_bind]. intros [= <-].
    pose proof (canonical_encode _ _ Hreg ltac:(assumption) He) as Hd. destruct (encode_target_shape _ _ He) as (body & -> & _). cbn -[DecodeTarget]. by rewrite Hd. }
  destruct (Z.eqb_spec command CommandUDPAssociate) as [->|_]; [guard_if G; fields; by intros [= <-]|].
  destruct ((command =? CommandTCPClientRoute) || (command =? CommandUDPClientRoute)) eqn:Ec.
  { guard_if G. fields. destruct route as [route|]; [|done]. destruct (ValidateClientRouteRequest route) eqn:Ev; [cbn [negb]|done].
    destruct (EncodeTarget t) as [traw|] eqn:He; [|done]. cbn [mbind res_bind]. destruct (json_route route) as [p|] eqn:Ej; [|done].
    guard_if G2. rewrite orb_false_iff, Z.eqb_neq, Z.ltb_ge in G2. intros [= <-]. apply orb_prop in Ec. rewrite !Z.eqb_eq in Ec.
    destruct (encode_target_shape _ _ He) as (body & _ & Hl). apply client_route_message; eauto using canonical_encode. unfold len in *. lia. }
  destruct ((command =? CommandClusterCatalog) || (command =? CommandClusterState)) eqn:Ec2.
  { guard_if G. fields. intros [= <-]. apply orb_prop in Ec2. rewrite !Z.eqb_eq in Ec2. by destruct Ec2 as [->| ->]. }
  destruct (Z.eqb_spec command CommandClusterRelay) as [->|_].
  { destruct relay as [relay|]; [|done]. guard_if G. fields. intros (p & Ej & -> & Hp)%payload_message_ok; [|lia].
    unfold DecodeOpenRequest. cbn iota. rewrite Hp. cbn [app mbind option_bind]. by rewrite (relay_law _ _ Hrelay Ej). }
  destruct (Z.eqb_spec command CommandClusterCatalogRelay) as [->|_].
  { guard_if G. fields. intros He. apply Ok_inj in He. subst raw. assert (Hu : 0 < len user <= 128).
    { match goal with H : validCatalogUserID user = true |- _ => revert H end. unfold validCatalogUserID. case_bool_decide as E; [done|]. destruct (Z.ltb_spec 128 (len user)); [done|].
      intros _. destruct user; [done|]. unfold len in *. cbn [length] in *. lia. }
    unfold u16. rewrite Z.mod_small by lia. unfold DecodeOpenRequest. change ([z2b CommandClusterCatalogRelay] ++ be_encode 2 (len user) ++ user) with (z2b CommandClusterCatalogRelay :: be_encode 2 (len user) ++ user).
    cbn iota. change (b2z (z2b CommandClusterCatalogRelay)) with CommandClusterCatalogRelay.
    change (slice (z2b CommandClusterCatalogRelay :: be_encode 2 (len user) ++ user) 1 3) with (be_encode 2 (len user)). rewrite be_encode_2 by lia.
    change (drop 3 (z2b CommandClusterCatalogRelay :: be_encode 2 (len user) ++ user)) with user.
    rewrite len_cons, len_app, len_be_encode. destruct (Z.ltb_spec (1 + (Z.of_nat 2 + len user)) 4); [lia|].
    destruct (Z.eqb_spec (len user) (1 + (Z.of_nat 2 + len user) - 3)); [|lia].
    match goal with H : validCatalogUserID user = true |- _ => rewrite H end. done. }
  destruct (Z.eqb_spec command CommandClusterCredentialSync) as [->|_].
  { destruct sync as [sync|]; [|done]. guard_if G. fields. intros (p & Ej & -> & Hp)%payload_message_ok; [|lia].
    unfold DecodeOpenRequest. cbn iota. rewrite Hp. cbn [app mbind option_bind]. match goal with H : ValidateCredentialSync sync = true |- _ => rewrite (sync_law _ _ H Ej), H end. done. }
  destruct (Z.eqb_spec command CommandClusterGeoData) as [->|_]; [|done].
  destruct geo as [geo|]; [|done]. guard_if G. fields. intros (p & Ej & -> & Hp)%payload_message_ok; [|lia].
  unfold DecodeOpenRequest. cbn iota. rewrite Hp. cbn [app mbind option_bind]. match goal with H : ValidateGeoDataRequest geo = true |- _ => rewrite (geo_law _ _ H Ej), H end. done.
Qed.
End RequestProofs.

(** ** Examples *)

Module TargetExample.
Definition web : target := mkT (bytes_of "example.org") 443.
Definition six : target := mkT (bytes_of "2606:4700::1111") 53.

Example encodings :
  EncodeTarget (mkT (bytes_of "Example.ORG.") 443) = EncodeTarget web /\
  DecodeTarget ([x01; x11; x0b] ++ bytes_of "example.org" ++ [x01; xbb]) = Ok web /\
  DecodeTarget ([x01; x11; x07] ++ bytes_of "1.2.3.4" ++ [x01; xbb]) = Err ErrInvalidTarget.
Proof. vm_compute. repeat split; reflexivity. Qed.

(** A literal with a final dot is encoded as a domain that every decoder
    refuses. *)
Example dotted_literal_undecodable :
  let raw := [x01; x11; x07] ++ bytes_of "1.2.3.4" ++ [x00; x50] in
  EncodeTarget (mkT (bytes_of "1.2.3.4.") 80) = Ok raw /\ DecodeTarget raw = Err ErrInvalidTarget.
Proof. vm_compute. split; reflexivity. Qed.

Lemma canonical_web : canonical web.
Proof. split; [unfold typed_target; cbn; lia|]. exists AddrInvalid. vm_compute. reflexivity. Qed.

Definition route : ClientRouteRequest := mkClientRoute 1 (bytes_of "r1") (mkAction RouteActionNode [bytes_of "b"]).
#[local] Instance request_eq_dec : EqDecision ClientRouteRequest.
Proof. solve_decision. Defined.
Definition toy_json (r : ClientRouteRequest) : option (list byte) := if bool_decide (r = route) then Some [x7b; x7d] else None.
Definition toy_parse (raw : list byte) : option ClientRouteRequest := if bytes_eq raw [x7b; x7d] then Some route else None.
Definition request : OpenRequest := mkOpen CommandTCPClientRoute web None [] None None (Some route).
Definition no_json {A} (a : A) : option (list byte) := None.
Definition no_parse {A} (raw : list byte) : option A := None.
Definition raw : list byte := match EncodeOpenRequest no_json no_json no_json toy_json request with Ok raw => raw | Err _ => [] end.

Lemma no_law {A} (P : A -> Prop) (r : A) raw : P r -> no_json r = Some raw -> no_parse raw = Some r.
Proof. discriminate. Qed.
Lemma toy_law r raw : ValidateClientRouteRequest r = true -> toy_json r = Some raw -> toy_parse raw = Some r.
Proof. intros _. unfold toy_json. case_bool_decide as E; [|discriminate]. intros [= <-]. subst r. reflexivity. Qed.

Lemma open_request_roundtrip_witness : len raw = 23 /\ DecodeOpenRequest no_parse no_parse no_parse toy_parse raw = Ok request.
Proof.
  split; [vm_compute; reflexivity|].
  apply (open_request_roundtrip no_json no_parse no_json no_parse no_json no_parse toy_json toy_parse
    (fun r => no_law (fun r => ascii_relay r = true) r) (fun r => no_law (fun r => ValidateCredentialSync r = true) r)
    (fun r => no_law (fun r => ValidateGeoDataRequest r = true) r) toy_law request raw).
  - split; [right; exact canonical_web|exact I].
  - vm_compute. reflexivity.
Defined.

Definition lookup (name : list byte) : res (list Addr) :=
  if bytes_eq name (bytes_of "example.org") then Ok [Addr4 134744072; Addr6 (0x2606 * 2 ^ 112 + 1) []; Addr6 (65535 * 2 ^ 32 + 134744072) []]
  else Ok [Addr4 134744072; Addr4 2130706433].

Example resolutions :
  Resolve (mkPolicy false) (mkT (bytes_of "EXAMPLE.org.") 443) (Some lookup) = Ok [Addr4 134744072; Addr6 (0x2606 * 2 ^ 112 + 1) []] /\
  Resolve (mkPolicy false) (mkT (bytes_of "rebind.example") 443) (Some lookup) = Err ErrDestinationDenied /\
  Resolve (mkPolicy false) (mkT (bytes_of "::ffff:127.0.0.1") 443) (Some lookup) = Err ErrDestinationDenied /\
  Resolve (mkPolicy true) (mkT (bytes_of "::ffff:127.0.0.1") 443) None = Ok [Addr4 2130706433].
Proof. vm_compute. repeat split; reflexivity. Qed.

Lemma resolve_allowed_witness : Forall (fun '(lo, hi) => 134744072 < lo \/ hi < 134744072) reserved4.
Proof.
  assert (E : Resolve (mkPolicy false) web (Some lookup) = Ok [Addr4 134744072; Addr6 (0x2606 * 2 ^ 112 + 1) []]) by (vm_compute; reflexivity).
  destruct (resolve_allowed _ _ _ _ E) as (_ & _ & _ & _ & H). apply (H eq_refl); [lia|constructor].
Defined.
End TargetExample.
