(* ===== verification/DeferredConn.v ===== *)
(** * Connections opened late (internal/tunstack/deferred_conn.go, dialer.go)

    A TCP flow to port 80 or 443 whose domain is not known is opened only when
    its first bytes have been inspected, so that the target can be a domain; until
    then what is written is kept.  Each method holds the mutex while it opens, and
    is one step.  What the opener and the stream answer is the environment of a
    step; [dc_opens], [dc_decisions] and [dc_sent] record what they were given. *)
From stdpp Require Import prelude list.
From S2P Require Import Prelude Text Slices Netip DnsAttribution FirstFlight Varint Cluster Target.

(** The opener's error, what the copy of the pending bytes accepted, what a write
    accepted, and the errors of Close and CloseWrite. *)
Record env := mkEnv { ev_open : option error; ev_copy : nat * option error; ev_write : nat * option error; ev_close : option error; ev_closeWrite : option error }.

Record deferredStreamConn := mkConn {
  dc_target : target; dc_stream : bool; dc_pending : list byte; dc_openErr : option error; dc_closed : bool; dc_timer : bool; dc_ready : bool;
  dc_decisions : list bool; dc_opens : list (list byte); dc_sent : list byte
}.

Definition newDeferredStreamConn (t : target) : deferredStreamConn := mkConn t false [] None false true false [] [] [].

Definition signalReadyLocked (c : deferredStreamConn) : deferredStreamConn :=
  mkConn (dc_target c) (dc_stream c) (dc_pending c) (dc_openErr c) (dc_closed c) (dc_timer c) true (dc_decisions c) (dc_opens c) (dc_sent c).

(** [c.openErr = err] and the reader is released. *)
Definition open_failed (c : deferredStreamConn) (e : error) (pending sent : list byte) (opens : list (list byte)) (decisions : list bool) : deferredStreamConn :=
  mkConn (dc_target c) false pending (Some e) (dc_closed c) false true decisions opens sent.

(** [io.Copy] of the pending bytes: one write of all of them. *)
Definition copy_pending (ev : env) (pending : list byte) : list byte * option error :=
  if len pending =? 0 then ([], None)
  else
    let accepted := take (fst (ev_copy ev)) pending in
    (accepted, match snd (ev_copy ev) with
               | Some e => Some e
               | None => if len accepted <? len pending then Some (Sentinel ErrShortWrite) else None
               end).

Definition openLocked (domain : list byte) (ev : env) (c : deferredStreamConn) : option error * deferredStreamConn :=
  if dc_closed c then (Some (Sentinel ErrNetClosed), signalReadyLocked c)
  else if dc_stream c then (None, c)
  else match dc_openErr c with
       | Some e => (Some e, signalReadyLocked c)
       | None =>
           let t := if bool_decide (domain = []) then dc_target c else mkT domain (tPort (dc_target c)) in
           let decisions := match dc_decisions c with [] => [negb (bool_decide (domain = []))] | ds => ds end in
           match EncodeTarget t with
           | Err e => let e := Join [Sentinel ErrInvalidMetadata; e] in (Some e, open_failed c e (dc_pending c) (dc_sent c) (dc_opens c) decisions)
           | Ok metadata =>
               let opens := dc_opens c ++ [metadata] in
               match ev_open ev with
               | Some e => (Some e, open_failed c e (dc_pending c) (dc_sent c) opens decisions)
               | None =>
                   let '(accepted, err) := copy_pending ev (dc_pending c) in
                   match err with
                   | Some e => (Some e, open_failed c e [] (dc_sent c ++ accepted) opens decisions)
                   | None => (None, mkConn (dc_target c) true [] None false false true decisions opens (dc_sent c ++ accepted))
                   end
               end
           end
       end.

Definition stream_write (ev : env) (payload : list byte) (c : deferredStreamConn) : (Z * option error) * deferredStreamConn :=
  let accepted := take (fst (ev_write ev)) payload in
  ((len accepted, snd (ev_write ev)),
   mkConn (dc_target c) (dc_stream c) (dc_pending c) (dc_openErr c) (dc_closed c) (dc_timer c) (dc_ready c) (dc_decisions c) (dc_opens c) (dc_sent c ++ accepted)).

Definition with_more (c : deferredStreamConn) (payload : list byte) : deferredStreamConn :=
  mkConn (dc_target c) (dc_stream c) (dc_pending c ++ payload) (dc_openErr c) (dc_closed c) (dc_timer c) (dc_ready c) (dc_decisions c) (dc_opens c) (dc_sent c).

(** [inspectFirstFlight] does not panic ([first_flight_safe]). *)
Definition inspected (pending : list byte) : outcome := default ([], firstFlightUseNumeric) (inspectFirstFlight pending).
Definition needs_more (d : firstFlightDecision) : bool := match d with firstFlightNeedMore => true | _ => false end.

Definition Write (payload : list byte) (ev : env) (c : deferredStreamConn) : (Z * option error) * deferredStreamConn :=
  if dc_closed c then ((0, Some (Sentinel ErrNetClosed)), c)
  else match dc_openErr c with
       | Some e => ((0, Some e), c)
       | None =>
           if dc_stream c then stream_write ev payload c
           else if firstFlightMaximumBytes - len (dc_pending c) <? len payload then
             match openLocked [] ev c with
             | (Some e, c) => ((0, Some e), c)
             | (None, c) => stream_write ev payload c
             end
           else
             let c := with_more c payload in
             let '(domain, decision) := inspected (dc_pending c) in
             if needs_more decision && (len (dc_pending c) <? firstFlightMaximumBytes) then ((len payload, None), c)
             else
               let domain := match decision with firstFlightUseDomain => domain | _ => [] end in
               match openLocked domain ev c with
               | (Some e, c) => ((0, Some e), c)
               | (None, c) => ((len payload, None), c)
               end
       end.

(** [None]: the reader waits.  Otherwise the error, or a read of the stream. *)
Definition Read_result (c : deferredStreamConn) : option (option error) :=
  if dc_stream c then Some None
  else if negb (dc_ready c) then None
  else match dc_openErr c with
       | Some e => Some (Some e)
       | None => Some (Some (Sentinel ErrNetClosed))
       end.

Definition Close (ev : env) (c : deferredStreamConn) : option error * deferredStreamConn :=
  if dc_closed c then (None, c)
  else
    let c' := mkConn (dc_target c) (dc_stream c) [] (dc_openErr c) true false true (dc_decisions c) (dc_opens c) (dc_sent c) in
    (if dc_stream c then ev_close ev else None, c').

Definition requireStream (domain : list byte) (ev : env) (c : deferredStreamConn) : option error * deferredStreamConn := openLocked domain ev c.

Definition CloseWrite (ev : env) (c : deferredStreamConn) : option error * deferredStreamConn :=
  match requireStream [] ev c with
  | (Some e, c) => (Some e, c)
  | (None, c) => (ev_closeWrite ev, c)
  end.

(** [SetDeadline] and [SetReadDeadline]: setting the deadline of the stream does not fail. *)
Definition SetDeadline (ev : env) (c : deferredStreamConn) : option error * deferredStreamConn := requireStream [] ev c.

Definition openNumericAfterTimeout (ev : env) (c : deferredStreamConn) : deferredStreamConn := snd (openLocked [] ev c).

(** ** What is written arrives *)

Inductive conn_op := OpWrite (payload : list byte) | OpClose | OpCloseWrite | OpSetDeadline | OpTimeout.

(** The connection and the bytes its writes have reported as written. *)
Definition conn_step (st : deferredStreamConn * list byte) (o : conn_op * env) : deferredStreamConn * list byte :=
  let '(c, written) := st in
  let ev := snd o in
  match fst o with
  | OpWrite payload => let '((n, _), c) := Write payload ev c in (c, written ++ take (Z.to_nat n) payload)
  | OpClose => (snd (Close ev c), written)
  | OpCloseWrite => (snd (CloseWrite ev c), written)
  | OpSetDeadline => (snd (SetDeadline ev c), written)
  | OpTimeout => (openNumericAfterTimeout ev c, written)
  end.

(** The metadata of the one OPEN: the numeric target or a domain found in what
    was written before it. *)
Definition opened_for (t : target) (metadata : list byte) : Prop :=
  EncodeTarget t = Ok metadata \/ exists domain p, inspectFirstFlight p = Some (domain, firstFlightUseDomain) /\ EncodeTarget (mkT domain (tPort t)) = Ok metadata.

Record conn_inv (t : target) (c : deferredStreamConn) (written : list byte) : Prop := {
  ci_target : dc_target c = t;
  ci_once : (length (dc_opens c) <= 1)%nat /\ (length (dc_decisions c) <= 1)%nat;
  ci_opens : Forall (opened_for t) (dc_opens c);
  ci_open : dc_stream c = true -> dc_sent c = written /\ dc_openErr c = None /\ length (dc_opens c) = 1%nat;
  ci_waiting : dc_stream c = false -> dc_openErr c = None -> dc_closed c = false ->
    dc_pending c = written /\ dc_sent c = [] /\ len (dc_pending c) <= firstFlightMaximumBytes /\ dc_opens c = [] /\ dc_decisions c = [] /\ dc_timer c = true;
  ci_ready : dc_ready c = negb (negb (dc_stream c) && bool_decide (dc_openErr c = None) && negb (dc_closed c))
}.

(** A domain the inspection may have returned. *)
Definition domain_ok (domain : list byte) : Prop := domain = [] \/ exists p, inspectFirstFlight p = Some (domain, firstFlightUseDomain).

Lemma opened_ok t domain metadata : domain_ok domain ->
  EncodeTarget (if bool_decide (domain = []) then t else mkT domain (tPort t)) = Ok metadata -> opened_for t metadata.
Proof. intros Hd. case_bool_decide as E; [by left|]. destruct Hd as [|[p Hp]]; [done|]. right. by exists domain, p. Qed.

Lemma copy_all ev pending accepted : copy_pending ev pending = (accepted, None) -> accepted = pending.
Proof.
  unfold copy_pending. destruct (len pending =? 0) eqn:E; [apply Z.eqb_eq in E; intros [= <-]; by apply len_0_nil in E as ->|].
  destruct (snd (ev_copy ev)); [done|]. destruct (Z.ltb_spec (len (take (fst (ev_copy ev)) pending)) (len pending)) as [|H]; [done|].
  intros [= <-]. apply take_ge. unfold len in H. rewrite length_take in H. lia.
Qed.

(** A connection that failed says nothing about what was written. *)
Lemma failed_inv t c e pending sent opens decisions w : dc_target c = t -> (length opens <= 1)%nat -> (length decisions <= 1)%nat ->
  Forall (opened_for t) opens -> dc_closed c = false -> conn_inv t (open_failed c e pending sent opens decisions) w.
Proof. intros. by constructor. Qed.

Lemma openLocked_inv t c w domain ev : domain_ok domain -> conn_inv t c w -> dc_closed c = false ->
  match openLocked domain ev c with
  | (None, c') => conn_inv t c' w /\ dc_stream c' = true /\ dc_closed c' = false
  | (Some _, c') => forall w', conn_inv t c' w'
  end.
Proof.
  intros Hd Hi Hc. destruct Hi as [H1 [H2 H2'] H3 H4 H5 H6]. unfold openLocked. rewrite Hc. rewrite Hc in H5, H6.
  destruct (dc_stream c) eqn:Es; [split; [|done]; constructor; rewrite ?Hc, ?Es; auto|].
  destruct (dc_openErr c) as [e|] eqn:Ee.
  { intros w'. constructor; cbn; rewrite ?Es, ?Ee, ?Hc; done. }
  destruct (H5 eq_refl eq_refl eq_refl) as (Hp & Hs & Hl & Ho & Hds & Ht). subst t. rewrite Ho, Hds, Hs. cbn [app].
  destruct (EncodeTarget _) as [metadata|e] eqn:Em; [|intros w'; apply failed_inv; rewrite ?Ho; auto].
  apply (opened_ok _ _ _ Hd) in Em. destruct (ev_open ev) as [e|]; [intros w'; apply failed_inv; auto|].
  destruct (copy_pending ev (dc_pending c)) as [accepted [e|]] eqn:Ec; [intros w'; apply failed_inv; auto|].
  apply copy_all in Ec as ->. split; [|done]. constructor; cbn; auto; done.
Qed.

Lemma write_stream_inv t c w payload ev : conn_inv t c w -> dc_stream c = true -> dc_closed c = false ->
  conn_inv t (snd (stream_write ev payload c)) (w ++ take (fst (ev_write ev)) payload).
Proof.
  intros [H1 [H2 H2'] H3 H4 H5 H6] Hs Hc. destruct (H4 Hs) as (Hw & He & Ho). constructor; cbn; try done; auto.
  - intros _. split; [by rewrite Hw|done].
  - by rewrite Hs.
Qed.

Lemma written_take (n : nat) (payload : list byte) : take (Z.to_nat (len (take n payload))) payload = take n payload.
Proof. rewrite to_nat_len, length_take. destruct (decide (n <= length payload)%nat); [by rewrite Nat.min_l|rewrite Nat.min_r by lia; by rewrite !take_ge by lia]. Qed.

Lemma inspected_ok pending domain : inspected pending = (domain, firstFlightUseDomain) -> domain_ok domain.
Proof.
  unfold inspected. destruct (inspectFirstFlight pending) as [o|] eqn:E; cbn; [|done]. intros ->. right. by exists pending.
Qed.

Lemma more_inv t c w payload : conn_inv t c w -> dc_closed c = false -> dc_openErr c = None -> dc_stream c = false ->
  len payload <= firstFlightMaximumBytes - len (dc_pending c) -> conn_inv t (with_more c payload) (w ++ payload).
Proof.
  intros [H1 [H2 H2'] H3 H4 H5 H6] Hc He Hs Hl. destruct (H5 Hs He Hc) as (Hp & Hsent & Hlen & Ho & Hd & Ht).
  constructor; cbn; rewrite ?Hs, ?He, ?Hc in *; auto; [done|]. intros _ _ _. rewrite Hp, len_app, Ho, Hd, Hsent, Ht in *.
  repeat split; auto; lia.
Qed.

Lemma write_inv t c w payload ev : conn_inv t c w ->
  let '((n, _), c') := Write payload ev c in conn_inv t c' (w ++ take (Z.to_nat n) payload).
Proof.
  intros Hi. unfold Write. destruct (dc_closed c) eqn:Hc; [by rewrite app_nil_r|].
  destruct (dc_openErr c) as [e|] eqn:He; [by rewrite app_nil_r|]. destruct (dc_stream c) eqn:Hs.
  { pose proof (write_stream_inv t c w payload ev Hi Hs Hc) as H. cbn in H |- *. by rewrite written_take. }
  destruct (Z.ltb_spec (firstFlightMaximumBytes - len (dc_pending c)) (len payload)) as [Hl|Hl].
  { pose proof (openLocked_inv t c w [] ev (or_introl eq_refl) Hi Hc) as H. destruct (openLocked [] ev c) as [[e|] c']; [apply H|].
    destruct H as (H & Hs' & Hc'). pose proof (write_stream_inv t c' w payload ev H Hs' Hc') as H'. cbn in H' |- *. by rewrite written_take. }
  pose proof (more_inv t c w payload Hi Hc He Hs Hl) as Hm. assert (Hc' : dc_closed (with_more c payload) = false) by done.
  set (c1 := with_more c payload) in *. destruct (inspected (dc_pending c1)) as [domain decision] eqn:Ei.
  destruct (needs_more decision && _); [by rewrite to_nat_len, firstn_all|].
  assert (Hdom : domain_ok (match decision with firstFlightUseDomain => domain | _ => [] end)).
  { destruct decision; [by left|by left|]. by apply inspected_ok in Ei. }
  pose proof (openLocked_inv t c1 _ _ ev Hdom Hm Hc') as H. destruct (openLocked _ ev c1) as [[e|] c2]; [apply H|].
  rewrite to_nat_len, firstn_all. apply H.
Qed.

Lemma require_inv t c w ev : conn_inv t c w -> conn_inv t (snd (openLocked [] ev c)) w.
Proof.
  intros Hi. destruct (dc_closed c) eqn:Hc.
  - unfold openLocked. rewrite Hc. destruct Hi as [H1 H2 H3 H4 H5 H6]. constructor; cbn; auto. by rewrite Hc, andb_false_r.
  - pose proof (openLocked_inv t c w [] ev (or_introl eq_refl) Hi Hc) as H. destruct (openLocked [] ev c) as [[e|] c']; [apply H|by destruct H].
Qed.

Lemma close_inv t c w ev : conn_inv t c w -> conn_inv t (snd (Close ev c)) w.
Proof.
  intros Hi. unfold Close. destruct (dc_closed c); [done|]. destruct Hi as [H1 H2 H3 H4 H5 H6]. constructor; cbn; auto; [done|]. by rewrite andb_false_r.
Qed.

Lemma conn_step_inv t st o : conn_inv t (fst st) (snd st) -> conn_inv t (fst (conn_step st o)) (snd (conn_step st o)).
Proof.
  destruct st as [c w], o as [[payload| | | |] ev]; cbn [fst snd conn_step]; intros Hi.
  - pose proof (write_inv t c w payload ev Hi) as H. by destruct (Write payload ev c) as [[n e] c'].
  - by apply close_inv.
  - unfold CloseWrite, requireStream. pose proof (require_inv t c w ev Hi) as H. by destruct (openLocked [] ev c) as [[e|] c'].
  - by apply require_inv.
  - by apply require_inv.
Qed.

(** C27: Whatever is called in whatever order, and whatever the environment
    answers: once the connection is open, its stream has accepted exactly the bytes
    that Write reported as written, in order and once; before that they are all
    kept, at most 16 KiB, and the timer is armed; one stream is opened at most, for
    the original target or a domain found in the bytes written; and a reader waits
    exactly while the connection waits. *)
Theorem deferred_exact t ops : let '(c, written) := foldl conn_step (newDeferredStreamConn t, []) ops in conn_inv t c written.
Proof.
  assert (H : conn_inv t (newDeferredStreamConn t) []) by (constructor; cbn; auto; [done|]; intros; repeat split; done).
  assert (Hall : forall st, conn_inv t (fst st) (snd st) -> conn_inv t (fst (foldl conn_step st ops)) (snd (foldl conn_step st ops))).
  { induction ops as [|o ops IH]; intros st Hst; [done|]. cbn [foldl]. by apply IH, conn_step_inv. }
  specialize (Hall (newDeferredStreamConn t, []) H). by destruct (foldl conn_step _ ops).
Qed.

(** ** Dialing a TCP flow *)

(** [attributedHost] and [DialContext]: the flow is deferred, or opened for the
    host at once.  [prepareOpen] failing is the error argument. *)
Definition attributedHost (address : Addr) (now : Z) (dns : dnsAttribution) : (list byte * bool) * dnsAttribution :=
  match domainFor (Unmap address) now dns with
  | (Some domain, dns) => ((domain, true), dns)
  | (None, dns) => ((AddrString address, false), dns)
  end.

Inductive dialed := Deferred (c : deferredStreamConn) | Opened (metadata : list byte).

Definition DialContext (isTCP sniffDomains : bool) (address : Addr) (port : Z) (prepare open : option error) (now : Z) (dns : dnsAttribution) : res dialed * dnsAttribution :=
  if negb isTCP || negb (IsValid address) || IsUnspecified address || (port =? 0) then (Err ErrInvalidMetadata, dns)
  else match prepare with
       | Some e => (Err e, dns)
       | None =>
           let '((host, attributed), dns) := attributedHost address now dns in
           if sniffDomains && negb attributed && ((port =? 80) || (port =? 443)) then (Ok (Deferred (newDeferredStreamConn (mkT host port))), dns)
           else match EncodeTarget (mkT host port) with
                | Err e => (Err (Join [Sentinel ErrInvalidMetadata; e]), dns)
                | Ok metadata => match open with Some e => (Err e, dns) | None => (Ok (Opened metadata), dns) end
                end
       end.

Module DeferredExample.
Definition ev : env := mkEnv None (100000%nat, None) (100000%nat, None) None None.
Definition numeric_target : target := mkT (bytes_of "93.184.216.34") 80.
Definition line : list byte := bytes_of "GET / HTTP/1.1" ++ crlf.
Definition header (name : string) : list byte := bytes_of "Host: " ++ bytes_of name ++ crlf ++ crlf.
Definition res_metadata (r : res (list byte)) : list (list byte) := match r with Ok m => [m] | Err _ => [] end.
Definition run (name : string) : deferredStreamConn * list byte :=
  foldl conn_step (newDeferredStreamConn numeric_target, []) [(OpWrite line, ev); (OpWrite (header name), ev)].

(** The first line waits; with the header the stream is opened for the domain. *)
Example domain_opened :
  (dc_pending (fst (conn_step (newDeferredStreamConn numeric_target, []) (OpWrite line, ev))),
   res_metadata (EncodeTarget (mkT (bytes_of "example.com") 80)), dc_sent (fst (run "Example.com")), dc_decisions (fst (run "Example.com"))) =
  (line, dc_opens (fst (run "Example.com")), line ++ header "Example.com", [true]).
Proof. vm_compute. reflexivity. Qed.

(** A host name with an underscore is a name for the inspection (and for DNS), but
    not for [EncodeTarget]: the connection fails, though its numeric target is
    valid and is what the code falls back to in every other case. *)
Lemma underscore_breaks_connection :
  is_ok (EncodeTarget numeric_target) = true /\
  inspectFirstFlight (line ++ header "my_host.example.com") = Some (bytes_of "my_host.example.com", firstFlightUseDomain) /\
  dc_openErr (fst (run "my_host.example.com")) = Some (Join [Sentinel ErrInvalidMetadata; Sentinel ErrInvalidTarget]) /\
  dc_opens (fst (run "my_host.example.com")) = [].
Proof. repeat split; vm_compute; reflexivity. Qed.
End DeferredExample.
