(* ===== verification/ClusterRelay.v ===== *)
(** * Relaying through the cluster (internal/clusterrelay/runtime.go,
    internal/tunstack/client_routes.go)

    A node routes a user's target: it resolves the route (or asks the master),
    applies the action, and forwards a relay request along a path of nodes; the
    last one dials.  [HandleRelay] is a node's step; a network of nodes composes
    the steps.  The callbacks OpenPeer, DialTarget and DialUDP are what a step
    returns; the entropy of the trace identifier is an argument.

    [ClientRoutePolicy] is the client's part: its local routes rewrite the
    metadata of an OPEN. *)
From stdpp Require Import prelude list.
From S2P Require Import Prelude Text Netip Cluster Target.

(** ** Runtime *)

(** [Callbacks]: the three functions are set.  [PeerPrincipals] maps a
    credential to the node that holds it. *)
Record Runtime := mkRuntime {
  rn_NodeID : list byte; MasterNodeID : list byte; PeerPrincipals : list (list byte * list byte); LoadState : option (res State);
  Callbacks : bool; GeoMatcher : option GeoMatchEvaluator
}.

Definition principal (rt : Runtime) (credentialID : list byte) : option (list byte) :=
  snd <$> find (fun p => bool_decide (fst p = credentialID)) (PeerPrincipals rt).

Definition identifier (value : list byte) : bool := validIdentifier value 64.

Definition Validate (rt : Runtime) : res unit :=
  if negb (identifier (rn_NodeID rt)) || negb (identifier (MasterNodeID rt)) || negb (Callbacks rt) || (len (PeerPrincipals rt) =? 0) then Err ErrRelayConfig
  else if bool_decide (rn_NodeID rt = MasterNodeID rt) && none (LoadState rt) then Err ErrRelayConfig
  else if forallb (fun '(credentialID, nodeID) =>
         negb (bool_decide (credentialID = []) || (128 <? len credentialID) || negb (identifier nodeID) || bool_decide (nodeID = rn_NodeID rt))) (PeerPrincipals rt)
  then Ok tt else Err ErrRelayConfig.

(** What a node does with a connection in the end. *)
Inductive effect :=
| OpenPeer (next : list byte) (request : RelayRequest)
| DialTarget (t : target)
| DialUDP (t : target).

Definition hex (raw : list byte) : list byte := flat_map (fun b => [hexdigit (Z.shiftr (b2z b) 4); hexdigit (Z.land (b2z b) 15)]) raw.

(** [traceID] of eight bytes of entropy, or its failure. *)
#[global] Instance res_fmap : FMap res := fun A B f r => match r with Ok a => Ok (f a) | Err e => Err e end.
Definition traceID (random : res (list byte)) : res (list byte) := hex <$> random.

Definition cluster_target (t : target) (protocol : list byte) : Target :=
  match ParseAddr (Host t) with
  | Some address => mkTarget [] (Unmap address) (tPort t) protocol
  | None => mkTarget (Host t) AddrInvalid (tPort t) protocol
  end.

(** A nil [LoadState] is not called: see [load_state_set]. *)
Definition load_state (rt : Runtime) : res State := default (Err (External 0)) (LoadState rt).

Definition resolve (rt : Runtime) (userID : list byte) (t : target) (protocol : list byte) : res (RouteAction * list byte) :=
  state ← load_state rt; ResolveRouteForUserWithMatcher state userID (cluster_target t protocol) (GeoMatcher rt).

Definition resolveClient (rt : Runtime) (userID : list byte) (t : target) (protocol : list byte) (request : ClientRouteRequest)
  : res (RouteAction * list byte) :=
  state ← load_state rt; ResolveClientRouteForUserWithMatcher state userID (cluster_target t protocol) request (GeoMatcher rt).

Definition newRequest (routeID userID : list byte) (t : target) (protocol : list byte) (visited : list (list byte)) (random : res (list byte))
  (client : option ClientRouteRequest) : res RelayRequest :=
  trace ← traceID random;
  Ok (mkRelay RelayVersion routeID userID 1 visited [] trace (Host t) (tPort t) protocol client).

Fixpoint strip (self : list byte) (path : list (list byte)) : list (list byte) :=
  match path with [] => [] | id :: rest => if bool_decide (id = self) then strip self rest else path end.

(** [None]: not handled, the node dials itself. *)
Definition applyAction (rt : Runtime) (action : RouteAction) (routeID userID : list byte) (t : target) (protocol : list byte)
  (visited : list (list byte)) (trace : list byte) (random : res (list byte)) : res (option effect) :=
  let kind := Kind action in
  if bool_decide (kind = RouteActionBlock) then Err ErrRouteBlocked
  else if bool_decide (kind = RouteActionCurrent) || bool_decide (kind = RouteActionDirect) || bool_decide (kind = RouteActionAuto) then Ok None
  else if bool_decide (kind = RouteActionNode) || bool_decide (kind = RouteActionChain) then
    match strip (rn_NodeID rt) (NodeIDs action) with
    | [] => Ok None
    | first :: rest =>
        let path := first :: rest in
        if MaxRouteHops <? len path then Err ErrRelayHopLimit
        else
          trace ← (if bool_decide (trace = []) then traceID random else Ok trace);
          let '(nextNodeID, remainingNodeIDs, remainingHops) :=
            if negb (bool_decide (rn_NodeID rt = MasterNodeID rt)) && negb (bool_decide (first = MasterNodeID rt))
            then (MasterNodeID rt, path, len path + 1) else (first, rest, len path) in
          if MaxRouteHops <? remainingHops then Err ErrRelayHopLimit
          else
            let visited := if bool_decide (visited = []) then [rn_NodeID rt] else visited in
            Ok (Some (OpenPeer nextNodeID
              (mkRelay RelayVersion routeID userID (u8 remainingHops) visited remainingNodeIDs trace (Host t) (tPort t) protocol None)))
    end
  else Err ErrRelayConfig.

(** The two entries for a user of this node: [None] asks the administrator's
    rules, [Some] is the client's own choice. *)
Definition route (rt : Runtime) (userID : list byte) (t : target) (protocol : list byte) (client : option ClientRouteRequest)
  (random : res (list byte)) : res (option effect) :=
  if bool_decide (userID = []) || bool_decide (t = zeroTarget)
     || match client with Some c => negb (ValidateClientRouteRequest c) | None => false end then Err ErrRelayConfig
  else
    _ ← Validate rt;
    if negb (none (principal rt userID)) then Err ErrRelayUnauthorized
    else if negb (bool_decide (rn_NodeID rt = MasterNodeID rt)) && none (LoadState rt) then
      request ← newRequest (bytes_of "resolve") userID t protocol [rn_NodeID rt] random client;
      Ok (Some (OpenPeer (MasterNodeID rt) request))
    else
      '(action, routeID) ← match client with Some c => resolveClient rt userID t protocol c | None => resolve rt userID t protocol end;
      applyAction rt action routeID userID t protocol [] [] random.

Definition dialTerminal (t : target) (protocol : list byte) : res effect :=
  if bool_decide (protocol = ProtocolUDP) then Ok (DialUDP t)
  else if negb (bool_decide (protocol = ProtocolTCP)) then Err ErrRelayConfig else Ok (DialTarget t).

Definition HandleRelay (rt : Runtime) (credentialID : list byte) (request : RelayRequest) (random : res (list byte)) : res effect :=
  _ ← Validate rt;
  match principal rt credentialID, last (VisitedNodeIDs request) with
  | Some peerNodeID, Some lastNodeID =>
      if negb (bool_decide (lastNodeID = peerNodeID)) then Err ErrRelayUnauthorized
      else
        _ ← ValidateRelayRequest request (rn_NodeID rt);
        let t := mkT (TargetHost request) (TargetPort request) in
        let protocol := rr_Protocol request in
        let visited := VisitedNodeIDs request ++ [rn_NodeID rt] in
        if bool_decide (rr_RouteID request = bytes_of "resolve") then
          if negb (bool_decide (rn_NodeID rt = MasterNodeID rt)) then Err ErrRelayUnauthorized
          else
            '(action, routeID) ← match rr_ClientRoute request with
                                 | Some c => resolveClient rt (rr_UserID request) t protocol c
                                 | None => resolve rt (rr_UserID request) t protocol
                                 end;
            handled ← applyAction rt action routeID (rr_UserID request) t protocol visited (TraceID request) random;
            match handled with None => dialTerminal t protocol | Some e => Ok e end
        else
          match RemainingNodeIDs request with
          | [] => dialTerminal t protocol
          | next :: rest =>
              Ok (OpenPeer next (mkRelay (rr_Version request) (rr_RouteID request) (rr_UserID request) (u8 (len rest + 1)) visited rest (TraceID request)
                (TargetHost request) (TargetPort request) protocol (rr_ClientRoute request)))
          end
  | _, _ => Err ErrRelayUnauthorized
  end.

(** ** A network of nodes *)

(** The nodes, the credential by which one authenticates to another, and the
    entropy of each. *)
Record network := mkNetwork { node_at : list byte -> option Runtime; credential : list byte -> list byte -> list byte; entropy : list byte -> res (list byte) }.

(** A relay request sent by [from] to [next], followed to its end: the nodes
    that handled it and the outcome; [None] when the fuel is used up. *)
Fixpoint relay_run (fuel : nat) (net : network) (from next : list byte) (request : RelayRequest) : option (list (list byte) * res effect) :=
  match fuel with
  | O => None
  | S fuel =>
      match node_at net next with
      | None => Some ([], Err ErrPeerUnavailable)
      | Some rt =>
          match HandleRelay rt (credential net from next) request (entropy net next) with
          | Ok (OpenPeer next' request') =>
              '(nodes, r) ← relay_run fuel net (rn_NodeID rt) next' request'; Some (rn_NodeID rt :: nodes, r)
          | r => Some ([rn_NodeID rt], r)
          end
      end
  end.

(** ** A node's step *)

Lemma NoDup_app_sub {A} (l : list A) x k : NoDup (l ++ x :: k) -> NoDup (l ++ [x]).
Proof.
  rewrite !NoDup_app. intros (H1 & H2 & H3). split; [done|]. split; [|apply NoDup_singleton]. intros y Hy ->%list_elem_of_singleton. apply (H2 x Hy). constructor.
Qed.


Lemma load_state_set rt : Validate rt = Ok tt -> rn_NodeID rt = MasterNodeID rt \/ none (LoadState rt) = false -> is_Some (LoadState rt).
Proof.
  unfold Validate. destruct (_ || _); [done|]. intros Hv H. destruct (LoadState rt) as [s|]; [by eexists|]. destruct H as [H|H]; [|done].
  by rewrite bool_decide_eq_true_2 in Hv.
Qed.

(** A relay request is only accepted from the peer that is last on its path. *)
Lemma relay_authenticated rt c request random e : HandleRelay rt c request random = Ok e ->
  Validate rt = Ok tt /\ (exists peer, principal rt c = Some peer /\ last (VisitedNodeIDs request) = Some peer) /\ ValidateRelayRequest request (rn_NodeID rt) = Ok tt.
Proof.
  unfold HandleRelay. destruct (Validate rt) as [[]|] eqn:Hv; [|done]. cbn [mbind res_bind]. destruct (principal rt c) as [p|]; [|done].
  destruct (last _) as [l|]; [|done]. case_bool_decide as E; [|done]. subst l. cbn [negb]. destruct (ValidateRelayRequest _ _) as [[]|] eqn:Hr; [|done].
  intros _. split; [done|]. split; [|done]. by exists p.
Qed.

Lemma apply_action_ok rt action routeID userID t protocol visited trace random e :
  applyAction rt action routeID userID t protocol visited trace random = Ok (Some e) ->
  exists next request, e = OpenPeer next request /\ VisitedNodeIDs request = (if bool_decide (visited = []) then [rn_NodeID rt] else visited).
Proof.
  unfold applyAction. destruct (bool_decide _); [done|]. destruct (_ || _); [done|]. destruct (_ || _); [|done].
  destruct (strip _ _) as [|first rest]; [done|]. destruct (MaxRouteHops <? _); [done|].
  destruct (if bool_decide (trace = []) then _ else _) as [tr|]; [|done]. cbn [mbind res_bind].
  destruct (negb _ && negb _); (destruct (MaxRouteHops <? _); [done|]); intros [= <-]; by eexists _, _.
Qed.

(** A forwarded request has the forwarding node at the end of its path. *)
Lemma handle_forward rt c request random next request' : HandleRelay rt c request random = Ok (OpenPeer next request') ->
  VisitedNodeIDs request' = VisitedNodeIDs request ++ [rn_NodeID rt].
Proof.
  intros H. unfold HandleRelay in H. destruct (Validate rt) as [[]|]; [|done]. cbn [mbind res_bind] in H.
  destruct (principal rt c) as [p|]; [|done]. destruct (last _) as [l|]; [|done]. destruct (negb _); [done|].
  destruct (ValidateRelayRequest _ _) as [[]|]; [|done]. cbn [mbind res_bind] in H.
  assert (Hdial : forall t p, dialTerminal t p = Ok (OpenPeer next request') -> False).
  { intros t q. unfold dialTerminal. repeat case_bool_decide; done. }
  destruct (bool_decide (rr_RouteID request = bytes_of "resolve")).
  - destruct (negb _); [done|]. destruct (match rr_ClientRoute request with Some _ => _ | None => _ end) as [[action id]|]; [|done]. cbn [mbind res_bind] in H.
    destruct (applyAction _ _ _ _ _ _ _ _ _) as [[e|]|] eqn:Ea; cbn [mbind res_bind] in H; [|by apply Hdial in H|done].
    injection H as ->. apply apply_action_ok in Ea as (n & r & [= -> ->] & ->). rewrite bool_decide_eq_false_2; [done|]. by destruct (VisitedNodeIDs request).
  - destruct (RemainingNodeIDs request) as [|n rest]; [by apply Hdial in H|]. by injection H as <- <-.
Qed.

(** ** Termination and loops *)

Lemma run_bounded net fuel from next request : 4 - len (VisitedNodeIDs request) < Z.of_nat fuel -> (0 < fuel)%nat ->
  is_Some (relay_run fuel net from next request).
Proof.
  revert from next request. induction fuel as [|fuel IH]; intros from next request Hl Hf; [lia|]. cbn [relay_run].
  destruct (node_at net next) as [rt|]; [|by eexists]. destruct (HandleRelay _ _ _ _) as [[next' request'|t|t]|e] eqn:Hh; try by eexists.
  assert (Hs := handle_forward _ _ _ _ _ _ Hh). apply relay_authenticated in Hh as (_ & _ & Hv). apply relay_request_path in Hv as (_ & _ & _ & Hv).
  destruct (IH (rn_NodeID rt) next' request') as [[nodes r] ->]; [| |by eexists].
  - unfold MaxRouteHops in Hv. rewrite Hs. unfold len in *. rewrite length_app. cbn [length]. lia.
  - unfold MaxRouteHops, len in *. lia.
Qed.

Lemma run_path net fuel from next request nodes e : relay_run fuel net from next request = Some (nodes, Ok e) ->
  NoDup (VisitedNodeIDs request ++ nodes) /\ len (VisitedNodeIDs request ++ nodes) <= 4 /\ (forall next' request', e <> OpenPeer next' request') /\ nodes <> [].
Proof.
  revert from next request nodes. induction fuel as [|fuel IH]; intros from next request nodes; [done|]. cbn [relay_run].
  destruct (node_at net next) as [rt|]; [|done]. destruct (HandleRelay _ _ _ _) as [[next' request'|t|t]|e'] eqn:Hh; [| | |done].
  - assert (Hs := handle_forward _ _ _ _ _ _ Hh). destruct (relay_run fuel net (rn_NodeID rt) next' request') as [[nodes' r]|] eqn:Er; [|done].
    cbn [mbind option_bind]. intros [= <- ->]. apply IH in Er. rewrite Hs, <- app_assoc in Er. cbn [app] in Er. destruct Er as (H1 & H2 & H3 & H4). done.
  - intros [= <- <-]. apply relay_authenticated in Hh as (_ & _ & Hv). apply relay_request_path in Hv as (Hn & _ & _ & Hv).
    split; [|split; [|done]].
    + eapply NoDup_app_sub; exact Hn.
    + unfold len, MaxRouteHops in *. rewrite length_app. cbn. lia.
  - intros [= <- <-]. apply relay_authenticated in Hh as (_ & _ & Hv). apply relay_request_path in Hv as (Hn & _ & _ & Hv).
    split; [|split; [|done]].
    + eapply NoDup_app_sub; exact Hn.
    + unfold len, MaxRouteHops in *. rewrite length_app. cbn. lia.
Qed.

(** relaying ends whatever the nodes' configurations and states: four steps
    suffice, and a connection that is established has visited no node twice,
    four at most, and ends in a dial. *)
Theorem relay_terminates net from next request : VisitedNodeIDs request <> [] ->
  exists nodes r, relay_run 4 net from next request = Some (nodes, r) /\
    forall e, r = Ok e -> NoDup (VisitedNodeIDs request ++ nodes) /\ len (VisitedNodeIDs request ++ nodes) <= 4 /\
      exists t, e = DialTarget t \/ e = DialUDP t.
Proof.
  intros Hv. destruct (run_bounded net 4 from next request) as [[nodes r] E]; [destruct (VisitedNodeIDs request); [done|unfold len; cbn [length]; lia]|lia|].
  exists nodes, r. split; [exact E|]. intros e ->. apply run_path in E as (H1 & H2 & H3 & _). split; [done|]. split; [done|].
  destruct e as [n q|t|t]; [by destruct (H3 n q)|by exists t; left|by exists t; right].
Qed.

(** ** Delivery *)

(** Nodes under their own identifiers that authenticate one another. *)
Record honest (net : network) : Prop := {
  hn_node : forall id rt, node_at net id = Some rt -> rn_NodeID rt = id /\ Validate rt = Ok tt;
  hn_peer : forall a b ra rb, node_at net a = Some ra -> node_at net b = Some rb -> a <> b -> principal rb (credential net a b) = Some a
}.

Definition in_network (net : network) (id : list byte) : Prop := exists rt, node_at net id = Some rt.

Definition dial_of (request : RelayRequest) : effect :=
  let t := mkT (TargetHost request) (TargetPort request) in
  if bool_decide (rr_Protocol request = ProtocolUDP) then DialUDP t else DialTarget t.

Lemma relay_protocol request current : ValidateRelayRequest request current = Ok tt -> dialTerminal (mkT (TargetHost request) (TargetPort request)) (rr_Protocol request) = Ok (dial_of request).
Proof.
  unfold ValidateRelayRequest, dialTerminal, dial_of. destruct (_ || _) eqn:G; [done|]. intros _. rewrite !orb_false_iff in G. destruct G as [[[[_ G] _] _] _].
  destruct (bool_decide (rr_Protocol request = ProtocolUDP)); [done|]. rewrite andb_true_r in G. by rewrite G.
Qed.

Lemma check_visited_iff ids current seen : (exists s, check_visited ids current seen = Ok s) <->
  Forall (fun id => validIdentifier id 64 = true) ids /\ current ∉ ids /\ (NoDup ids /\ (forall v, v ∈ ids -> v ∉ seen)).
Proof.
  split; [intros [s H]; by apply check_visited_ok in H as (? & ? & ? & _)|]. revert seen. induction ids as [|id ids IH]; intros seen; [by eexists|].
  rewrite fresh_spec, not_elem_of_cons, Forall_cons. intros ([Hv Hf] & [Hc Hn] & Hs & H1 & H2). cbn [check_visited]. rewrite Hv, !bool_decide_eq_false_2 by congruence.
  cbn [negb]. by apply IH.
Qed.

Lemma check_remaining_iff ids current seen : (exists s, check_remaining ids current seen = Ok s) <->
  Forall (fun id => validIdentifier id 64 = true) ids /\ current ∉ ids /\ (NoDup ids /\ (forall v, v ∈ ids -> v ∉ seen)).
Proof.
  split; [intros [s H]; by apply check_remaining_ok in H|]. revert seen. induction ids as [|id ids IH]; intros seen; [by eexists|].
  rewrite fresh_spec, not_elem_of_cons, Forall_cons. intros ([Hv Hf] & [Hc Hn] & Hs & H1 & H2). cbn [check_remaining]. rewrite Hv, !bool_decide_eq_false_2 by congruence.
  cbn [negb orb]. by apply IH.
Qed.

(** The fields of a relay request that no node changes. *)
Definition same_call (r r' : RelayRequest) : Prop :=
  rr_Version r = rr_Version r' /\ rr_RouteID r = rr_RouteID r' /\ rr_UserID r = rr_UserID r' /\ TraceID r = TraceID r' /\ TargetHost r = TargetHost r' /\
  TargetPort r = TargetPort r' /\ rr_Protocol r = rr_Protocol r' /\ rr_ClientRoute r = rr_ClientRoute r'.

Definition good_call (r : RelayRequest) : Prop :=
  rr_Version r = 1 /\ validIdentifier (rr_RouteID r) 64 = true /\ validOpaqueID (rr_UserID r) 128 = true /\ len (TraceID r) = 16 /\ TargetPort r <> 0 /\
  (rr_Protocol r = ProtocolTCP \/ rr_Protocol r = ProtocolUDP) /\ valid_relay_host (TargetHost r) = true /\
  match rr_ClientRoute r with Some c => ValidateClientRouteRequest c = true | None => True end.

Lemma same_call_good r r' : same_call r r' -> good_call r -> good_call r'.
Proof. unfold same_call, good_call. intros (-> & -> & -> & -> & -> & -> & -> & ->). done. Qed.

(** [ValidateRelayRequest] accepts exactly these requests. *)
Lemma relay_valid_iff r current : ValidateRelayRequest r current = Ok tt <->
  good_call r /\ NoDup (VisitedNodeIDs r ++ current :: RemainingNodeIDs r) /\
  Forall (fun id => validIdentifier id 64 = true) (VisitedNodeIDs r ++ current :: RemainingNodeIDs r) /\
  len (VisitedNodeIDs r) <= 3 /\ RemainingHops r = len (RemainingNodeIDs r) + 1 /\ len (RemainingNodeIDs r) <= 2.
Proof.
  unfold ValidateRelayRequest, good_call, RelayVersion, MaxRouteHops. split.
  - intros H. pose proof (relay_request_path r current H) as (Hp & Hh & Hm & Hl). unfold MaxRouteHops in *. revert H. destruct (_ || _) eqn:G; [done|].
    rewrite !orb_false_iff, !negb_false_iff, !Z.eqb_eq, Z.eqb_neq in G. destruct (match rr_ClientRoute r with Some _ => _ | None => _ end) eqn:Gc; [done|].
    destruct (_ || _); [done|]. destruct (check_visited _ _ _) as [seen|] eqn:E1; [|done]. cbn [mbind res_bind].
    destruct (check_remaining _ _ _) as [?|] eqn:E2; [|done]. cbn [mbind res_bind]. apply check_visited_ok in E1 as (V & _). apply check_remaining_ok in E2 as (R & _).
    guard_if Ghop. destruct (valid_relay_host (TargetHost r)) eqn:Eh; [|done]. intros _.
    split; [|split; [done|split; [|split; [done|split; [done|lia]]]]].
    + split; [tauto|]. split; [tauto|]. split; [tauto|]. split; [tauto|]. split; [tauto|]. split; [|split; [done|]].
      * destruct G as [[[[_ G] _] _] _]. case_bool_decide; [by left|]. case_bool_decide; [by right|done].
      * destruct (rr_ClientRoute r); [by apply negb_false_iff|done].
    + apply Forall_app. split; [done|]. constructor; [tauto|done].
  - intros ((G1 & G2 & G3 & G4 & G5 & G6 & G7 & G8) & Hp & Hf & Hl & Hh & Hr). apply NoDup_app in Hp as (P1 & P2 & P3). apply NoDup_cons in P3 as [P3 P4].
    apply Forall_app in Hf as [F1 [F2 F3]%Forall_cons]. destruct (_ || _) eqn:G.
    { exfalso. revert G. rewrite G1, G2, G3, F2, G4. change (1 =? 1) with true. change (16 =? 16) with true. cbn [negb orb].
      destruct (Z.eqb_spec (TargetPort r) 0); [done|]. destruct (Z.ltb_spec 3 (len (VisitedNodeIDs r))); [lia|]. destruct (Z.ltb_spec 3 (len (RemainingNodeIDs r))); [lia|].
      destruct G6 as [->| ->]; vm_compute; discriminate. }
    destruct (match rr_ClientRoute r with Some _ => _ | None => _ end) eqn:Gc; [destruct (rr_ClientRoute r); [by rewrite G8 in Gc|done]|].
    assert (0 <= len (RemainingNodeIDs r)) by (unfold len; lia).
    clear G; destruct (_ || _) eqn:G; [exfalso; rewrite orb_true_iff, Z.eqb_eq, Z.ltb_lt in G; lia|].
    assert (Hcur : current ∉ VisitedNodeIDs r) by (intros Hc; apply (P2 current Hc); constructor).
    destruct (proj2 (check_visited_iff (VisitedNodeIDs r) current [])) as [seen Es]; [split; [done|split; [done|split; [done|]]]; intros v _; apply not_elem_of_nil|].
    rewrite Es. cbn [mbind res_bind]. apply check_visited_ok in Es as (_ & _ & _ & ->).
    destruct (proj2 (check_remaining_iff (RemainingNodeIDs r) current (rev (VisitedNodeIDs r) ++ []))) as [s2 Es2].
    { split; [done|]. split; [done|]. split; [done|]. intros v Hv Hc. rewrite app_nil_r in Hc. apply list_elem_of_In in Hc. rewrite <- in_rev in Hc. apply list_elem_of_In in Hc.
      apply (P2 v Hc). by constructor. }
    rewrite Es2. cbn [mbind res_bind]. rewrite Hh, Z.eqb_refl. cbn [negb]. by rewrite G7.
Qed.

Lemma u8_small n : 0 <= n < 256 -> u8 n = n.
Proof. intros H. unfold u8. apply Z.mod_small. lia. Qed.

(** A valid request on an explicit path reaches the last node of the path. *)
Lemma path_delivers net fuel : honest net -> forall remaining from next request,
  RemainingNodeIDs request = remaining -> (length remaining < fuel)%nat -> rr_RouteID request <> bytes_of "resolve" ->
  good_call request -> last (VisitedNodeIDs request) = Some from -> in_network net from ->
  Forall (in_network net) (next :: remaining) ->
  NoDup (VisitedNodeIDs request ++ next :: remaining) -> Forall (fun id => validIdentifier id 64 = true) (VisitedNodeIDs request ++ next :: remaining) ->
  len (VisitedNodeIDs request) + len remaining <= 3 -> len remaining <= 2 -> RemainingHops request = len remaining + 1 ->
  relay_run fuel net from next request = Some (next :: remaining, Ok (dial_of request)).
Proof.
  intros Hh. induction fuel as [|fuel IH]; intros remaining from next request Hrem Hf Hid Hg Hlast [rf Hfrom] Hin Hnd Hval Hlen Hl2 Hhops; [lia|].
  apply Forall_cons in Hin as [[rt Hnext] Hin]. cbn [relay_run]. rewrite Hnext. destruct (hn_node net Hh _ _ Hnext) as [Hrid Hv].
  assert (Hne : from <> next).
  { intros ->. apply NoDup_app in Hnd as (_ & Hd & _). apply (Hd next); [|constructor]. apply last_Some in Hlast as [k ->]. set_solver. }
  assert (Hpeer := hn_peer net Hh _ _ _ _ Hfrom Hnext Hne).
  assert (Hvalid : ValidateRelayRequest request (rn_NodeID rt) = Ok tt).
  { apply relay_valid_iff. rewrite Hrid, Hrem. unfold len in *. split_and!; try done; lia. }
  assert (Hstep : HandleRelay rt (credential net from next) request (entropy net next) =
    match remaining with
    | [] => Ok (dial_of request)
    | n :: rest => Ok (OpenPeer n (mkRelay (rr_Version request) (rr_RouteID request) (rr_UserID request) (u8 (len rest + 1)) (VisitedNodeIDs request ++ [next]) rest
        (TraceID request) (TargetHost request) (TargetPort request) (rr_Protocol request) (rr_ClientRoute request)))
    end).
  { unfold HandleRelay. rewrite Hv, Hpeer, Hlast. cbn [mbind res_bind]. rewrite bool_decide_eq_true_2 by done. cbn [negb]. rewrite Hvalid, Hrem, Hrid. cbn [mbind res_bind].
    rewrite bool_decide_eq_false_2 by done. destruct remaining; [by apply (relay_protocol request (rn_NodeID rt))|done]. }
  rewrite Hstep. destruct remaining as [|n rest].
  - unfold dial_of. rewrite Hrid. by destruct (bool_decide _).
  - rewrite (IH rest (rn_NodeID rt) n); cbn [VisitedNodeIDs RemainingNodeIDs RemainingHops rr_RouteID]; try done.
    + cbn [mbind option_bind]. rewrite Hrid. done.
    + cbn [length] in Hf. lia.
    + by rewrite Hrid, last_snoc.
    + rewrite Hrid. by exists rt.
    + by rewrite <- app_assoc.
    + by rewrite <- app_assoc.
    + unfold len in *. rewrite length_app. cbn [length] in *. lia.
    + unfold len in *. cbn [length] in *. lia.
    + apply u8_small. unfold len in *. cbn [length] in *. lia.
Qed.

(** *** From the master *)

Lemma strip_suffix self path : exists pre, path = pre ++ strip self path.
Proof. induction path as [|id path IH]; [by exists []|]. cbn [strip]. case_bool_decide; [|by exists []]. destruct IH as [pre E]. exists (id :: pre). cbn. by f_equal. Qed.

Lemma length_hex raw : length (hex raw) = (2 * length raw)%nat.
Proof. induction raw as [|b raw IH]; [done|]. cbn [hex flat_map app length]. fold (hex raw). lia. Qed.

Lemma valid_action_chain a : valid_action a = true -> len (NodeIDs a) <= 3 /\ NoDup (NodeIDs a).
Proof.
  unfold valid_action. destruct (bool_decide (Kind a = RouteActionNode)).
  - intros H%Z.eqb_eq. split; [lia|]. destruct (NodeIDs a) as [|x [|y l]]; [constructor|apply NoDup_singleton|]. unfold len in H. cbn [length] in H. lia.
  - destruct (bool_decide (Kind a = RouteActionChain)).
    + intros H%negb_true_iff. rewrite !orb_false_iff, !Z.ltb_ge in H. destruct H as [[H1 H2] H3%hasDuplicates_spec]. unfold MaxRouteHops in H2. split; [lia|tauto].
    + destruct (_ || _); [|done]. intros H%Z.eqb_eq. unfold len in H. destruct (NodeIDs a); [|cbn in H; lia]. split; [unfold len; cbn; lia|constructor].
Qed.

Lemma node_id_valid s id : valid_state s -> id ∈ map nd_ID (Nodes s) -> validIdentifier id 64 = true.
Proof.
  intros [_ _ [Hn _] _ _ _] Hin. apply list_elem_of_fmap in Hin as (n & -> & Hin). rewrite Forall_forall in Hn. specialize (Hn n Hin). unfold validateNode in Hn.
  destruct (_ || _) eqn:G; [done|]. rewrite !orb_false_iff in G. by apply negb_false_iff, G.
Qed.

Lemma validate_node_id rt : Validate rt = Ok tt -> validIdentifier (rn_NodeID rt) 64 = true.
Proof. unfold Validate. guard_if G. intros _. rewrite !orb_false_iff, !negb_false_iff in G. apply G. Qed.

(** What a resolved route is. *)
Lemma resolved_action rt userID t protocol action routeID : resolve rt userID t protocol = Ok (action, routeID) ->
  exists s, valid_state s /\ NodeIDs action ⊆ map nd_ID (Nodes s) /\ (routeID = [] \/ validIdentifier routeID 64 = true) /\ len (NodeIDs action) <= 3 /\
    NoDup (NodeIDs action) /\ validOpaqueID userID 128 = true /\ (routeID = [] -> Kind action = RouteActionCurrent).
Proof.
  intros Er. unfold resolve in Er. destruct (load_state rt) as [s|]; [|done]. cbn [mbind res_bind] in Er. assert (Hu : validOpaqueID userID 128 = true).
  { revert Er. unfold ResolveRouteForUserWithMatcher. by destruct (ValidateState s), (validOpaqueID userID 128). }
  apply resolve_ok in Er as (access & Hv & Hacc & _ & Hsub & [(r & Hr & _ & -> & -> & _)|(-> & -> & _)]).
  - exists s. pose proof (valid_route_nodes s r Hv Hr). destruct Hv as [H1 H2 H3 H4 [Hrt Hrn] H6]. rewrite Forall_forall in Hrt. destruct (Hrt r Hr) as [Hvr _].
    unfold ValidateRoute in Hvr. destruct (_ || _) eqn:G; [done|]. rewrite !orb_false_iff, !negb_false_iff in G. destruct (negb _ && negb _); [done|]. destruct (_ && negb _); [done|].
    apply andb_prop in Hvr as [_ [Hl Hn]%valid_action_chain]. split; [constructor; try done; split; [by rewrite Forall_forall|done]|]. split; [done|]. split; [right; tauto|]. split; [done|]. split; [done|].
    split; [done|]. intros E. rewrite E in G. destruct G as [[[G _] _] _]. done.
  - exists s. split; [done|]. cbn. split; [apply list_subseteq_nil|]. split; [by left|]. split; [unfold len; cbn; lia|]. split; [constructor|done].
Qed.

(** C24: the master delivers.  Suppose that the client chooses no route of its
    own, that the host of the target is one a relay request may carry (a global
    unicast address or a valid domain), that the route of the user is not named
    "resolve", and that the nodes the master leaves to others are of the network
    and not the master itself.  Then the relay request that the master sends is
    accepted by every one of these nodes, in the order of the route, and the last
    one dials exactly the user's target. *)
Theorem master_route_delivers net rt userID t protocol random next request :
  honest net -> node_at net (rn_NodeID rt) = Some rt -> rn_NodeID rt = MasterNodeID rt ->
  protocol = ProtocolTCP \/ protocol = ProtocolUDP -> tPort t <> 0 -> valid_relay_host (Host t) = true ->
  (forall raw, random = Ok raw -> length raw = 8%nat) ->
  route rt userID t protocol None random = Ok (Some (OpenPeer next request)) ->
  Forall (in_network net) (next :: RemainingNodeIDs request) -> rn_NodeID rt ∉ next :: RemainingNodeIDs request -> rr_RouteID request <> bytes_of "resolve" ->
  exists action pre, resolve rt userID t protocol = Ok (action, rr_RouteID request) /\ NodeIDs action = pre ++ next :: RemainingNodeIDs request /\
    relay_run 4 net (rn_NodeID rt) next request =
      Some (next :: RemainingNodeIDs request, Ok (if bool_decide (protocol = ProtocolUDP) then DialUDP t else DialTarget t)).
Proof.
  intros Hh Hself Hmaster Hproto Hport Hhost Hrandom. unfold route. destruct (_ || _); [done|]. destruct (Validate rt) as [[]|]; [|done]. cbn [mbind res_bind].
  destruct (negb (none (principal rt userID))); [done|]. rewrite (bool_decide_eq_true_2 (rn_NodeID rt = MasterNodeID rt)) by done. cbn [negb andb].
  destruct (resolve rt userID t protocol) as [[action routeID]|] eqn:Er; [|done]. cbn [mbind res_bind]. intros Ha Hin Hnot Hres.
  destruct (resolved_action _ _ _ _ _ _ Er) as (s & Hv & Hsub & Hid & Hl3 & Hnd & Huser & Hcur). revert Ha. unfold applyAction. guard_if Gb. guard_if Gk.
  match goal with |- (if ?c then _ else _) = _ -> _ => destruct c; [|done] end. destruct (strip_suffix (rn_NodeID rt) (NodeIDs action)) as [pre Hpre].
  destruct (strip (rn_NodeID rt) (NodeIDs action)) as [|first rest] eqn:Es; [done|]. guard_if Gm.
  change (bool_decide (@nil byte = [])) with true. change (bool_decide (@nil (list byte) = [])) with true. cbn iota.
  destruct (traceID random) as [trace|] eqn:Et; [|done]. cbn [mbind res_bind].
  rewrite (bool_decide_eq_true_2 (rn_NodeID rt = MasterNodeID rt)) by done. cbn [negb andb]. cbn beta iota. guard_if Gn. intros [= <- <-].
  cbn [RemainingNodeIDs rr_RouteID] in *. exists action, pre. split; [done|]. split; [done|].
  assert (Htrace : len trace = 16).
  { unfold traceID in Et. destruct random as [raw|]; [|done]. injection Et as <-. unfold len. rewrite length_hex, (Hrandom raw) by done. done. }
  assert (Hlrest : len (pre ++ first :: rest) <= 3) by (rewrite <- Hpre; done). rewrite len_app, len_cons in Hlrest.
  assert (Hidv : validIdentifier routeID 64 = true).
  { destruct Hid as [->|]; [|done]. exfalso. rewrite (Hcur eq_refl), (bool_decide_eq_true_2 (RouteActionCurrent = _)) in Gk by done. done. }
  assert (Hself64 : validIdentifier (rn_NodeID rt) 64 = true).
  { apply validate_node_id, (hn_node net Hh _ _ Hself). }
  assert (Hf64 : Forall (fun id => validIdentifier id 64 = true) (first :: rest)).
  { apply Forall_forall. intros id Hi. apply (node_id_valid s); [done|]. apply Hsub. rewrite Hpre. apply elem_of_app. by right. }
  assert (Hpos : 0 <= len pre /\ 0 <= len rest) by (unfold len; lia).
  rewrite (path_delivers net 4 Hh rest (rn_NodeID rt)); cbn [RemainingNodeIDs rr_RouteID VisitedNodeIDs RemainingHops]; try done.
  - do 3 f_equal. unfold dial_of. cbn [rr_Protocol TargetHost TargetPort]. by destruct t.
  - unfold len in *. lia.
  - by exists rt.
  - cbn [app]. rewrite Hpre in Hnd. apply NoDup_app in Hnd as (_ & _ & Hnd). by constructor.
  - cbn [app]. by constructor.
  - unfold len at 1. cbn [length]. lia.
  - lia.
  - rewrite len_cons, u8_small by lia. lia.
Qed.

(** ** The client's local routes (internal/tunstack/client_routes.go) *)

Fixpoint validate_client_routes (routes : list Route) (seen : list (list byte)) : bool :=
  match routes with
  | [] => true
  | r :: routes =>
      if negb (ValidateRoute r) || negb (bool_decide (rt_Source r = RouteSourceClient)) || rt_Mandatory r then false
      else if bool_decide (rt_ID r ∈ seen) then false else validate_client_routes routes (rt_ID r :: seen)
  end.

Definition NewClientRoutePolicy (routes : list Route) : res (list Route) :=
  if MaxRoutes <? len routes then Err ErrInvalidClientRoutes
  else if validate_client_routes routes [] then Ok (EffectiveRoutes [] routes true) else Err ErrInvalidClientRoutes.

Section Rewrite.
Context (json_relay : RelayRequest -> option (list byte)) (parse_relay : list byte -> option RelayRequest).
Context (json_sync : CredentialSyncRequest -> option (list byte)) (parse_sync : list byte -> option CredentialSyncRequest).
Context (json_geo : GeoDataRequest -> option (list byte)) (parse_geo : list byte -> option GeoDataRequest).
Context (json_route : ClientRouteRequest -> option (list byte)) (parse_route : list byte -> option ClientRouteRequest).

(** [policy]: nil, or its routes. *)
Definition rewrite (policy : option (list Route)) (metadata : list byte) : res (list byte) :=
  match policy with
  | None | Some [] => Ok metadata
  | Some routes =>
      match DecodeOpenRequest parse_relay parse_sync parse_geo parse_route metadata with
      | Err _ => Err ErrInvalidClientRoutes
      | Ok request =>
          if negb (Command request =? CommandTCPConnect) && negb (Command request =? CommandUDPFixed) then Err ErrInvalidClientRoutes
          else
            let udp := Command request =? CommandUDPFixed in
            let protocol := if udp then ProtocolUDP else ProtocolTCP in
            let routedCommand := if udp then CommandUDPClientRoute else CommandTCPClientRoute in
            match find (fun r => Matches r (cluster_target (oTarget request) protocol)) routes with
            | None => Ok metadata
            | Some r =>
                if bool_decide (Kind (rt_Action r) = RouteActionBlock) then Err ErrClientRouteBlocked
                else EncodeOpenRequest json_relay json_sync json_geo json_route
                       (mkOpen routedCommand (oTarget request) None [] None None (Some (mkClientRoute ClientRouteVersion (rt_ID r) (rt_Action r))))
            end
      end
  end.
End Rewrite.

(** ** A master and four edges *)

Module RelayExample.
Import ClusterExample.

Definition ids : list (list byte) := map bytes_of ["m"; "a"; "b"; "c"; "d"]%string.
Definition routes : list Route :=
  [route "own" 1 false (names "own.example") RouteActionNode [bytes_of "a"];
   route "pair" 2 false (names "pair.example") RouteActionChain [bytes_of "b"; bytes_of "c"];
   route "long" 3 false (names "long.example") RouteActionChain [bytes_of "b"; bytes_of "c"; bytes_of "d"];
   route "resolve" 4 false (names "named.example") RouteActionNode [bytes_of "b"]].
Definition state : State :=
  mkState 1 (bytes_of "c") 4 [node "m" RoleMaster false; node "a" RoleIngress true; node "b" RoleRelay true; node "c" RoleRelay true; node "d" RoleEgress true]
    routes [mkAccess (bytes_of "user") ids (map rt_ID routes) true true 1] 1.

Definition runtime (id : list byte) : Runtime :=
  mkRuntime id (bytes_of "m") (map (fun i => (i, i)) (List.filter (fun i => negb (bytes_eq i id)) ids))
    (if bytes_eq id (bytes_of "m") then Some (Ok state) else None) true None.
Definition net : network :=
  mkNetwork (fun id => if bool_decide (id ∈ ids) then Some (runtime id) else None) (fun from _ => from) (fun _ => Ok (replicate 8 x00)).

Definition site (name : string) : Target.target := mkT (bytes_of name) 443.
Definition user : list byte := bytes_of "user".

(** A connection of [user] entering at a node, followed to its end. *)
Definition connect (at_node : list byte) (t : Target.target) : option (list (list byte) * res effect) :=
  match ClusterRelay.route (runtime at_node) user t ProtocolTCP None (Ok (replicate 8 x00)) with
  | Ok (Some (OpenPeer next request)) => relay_run 5 net at_node next request
  | Ok (Some e) => Some ([], Ok e)
  | Ok None => Some ([], Ok (DialTarget t))
  | Err e => Some ([], Err e)
  end.

Example pair_from_edge : connect (bytes_of "a") (site "pair.example") = Some (map bytes_of ["m"; "b"; "c"]%string, Ok (DialTarget (site "pair.example"))).
Proof. vm_compute. reflexivity. Qed.

(** A chain of three is delivered from the master, but an edge that asks the
    master reaches the third node with four visited ones, and it refuses. *)
Example long_from_master : connect (bytes_of "m") (site "long.example") = Some (map bytes_of ["b"; "c"; "d"]%string, Ok (DialTarget (site "long.example"))).
Proof. vm_compute. reflexivity. Qed.
Example long_from_edge : connect (bytes_of "a") (site "long.example") = Some (map bytes_of ["m"; "b"; "c"; "d"]%string, Err ErrInvalidRelay).
Proof. vm_compute. reflexivity. Qed.

(** A route to the edge the user is connected to is sent back to it by the
    master, and refused as a loop. *)
Example own_node_loops : connect (bytes_of "a") (site "own.example") = Some (map bytes_of ["m"; "a"]%string, Err ErrRelayLoop).
Proof. vm_compute. reflexivity. Qed.

(** An administrator's route may be called [resolve], which the next node
    takes for a request to resolve. *)
Example reserved_route_name : ValidateRoute (nth 3 routes blocked) = true /\
  connect (bytes_of "m") (site "named.example") = Some ([bytes_of "b"], Err ErrRelayUnauthorized).
Proof. vm_compute. split; reflexivity. Qed.

Definition first_request : RelayRequest :=
  mkRelay 1 (bytes_of "pair") user 2 [bytes_of "m"] [bytes_of "c"] (replicate 16 x30) (bytes_of "pair.example") 443 ProtocolTCP None.

Lemma relay_terminates_witness : exists nodes r, relay_run 4 net (bytes_of "m") (bytes_of "b") first_request = Some (nodes, r).
Proof.
  destruct (relay_terminates net (bytes_of "m") (bytes_of "b") first_request) as (nodes & r & E & _); [discriminate|]. exists nodes, r. exact E.
Defined.

Lemma node_at_runtime id rt : node_at net id = Some rt -> id ∈ ids /\ rt = runtime id.
Proof. cbn [net node_at]. destruct (bool_decide (id ∈ ids)) eqn:E; [|discriminate]. intros [= <-]. split; [apply (bool_decide_eq_true_1 _ E)|reflexivity]. Qed.

Lemma net_honest : honest net.
Proof.
  assert (Hall : forallb (fun a => is_ok (Validate (runtime a)) &&
    forallb (fun b => bytes_eq a b || bool_decide (principal (runtime b) a = Some a)) ids) ids = true) by (vm_compute; reflexivity).
  rewrite forallb_forall in Hall. split.
  - intros id rt [Hin ->]%node_at_runtime. split; [reflexivity|]. apply list_elem_of_In in Hin. specialize (Hall id Hin). apply andb_prop in Hall as [Hv _].
    destruct (Validate (runtime id)) as [[]|]; [reflexivity|discriminate].
  - intros a b ra rb [Ha ->]%node_at_runtime [Hb ->]%node_at_runtime Hne. apply list_elem_of_In in Ha, Hb. specialize (Hall a Ha). apply andb_prop in Hall as [_ Hp].
    rewrite forallb_forall in Hp. specialize (Hp b Hb). apply orb_prop in Hp as [Hp|Hp]; [apply bytes_eq_true in Hp; contradiction|]. exact (bool_decide_eq_true_1 _ Hp).
Qed.

Lemma master_route_delivers_witness :
  relay_run 4 net (bytes_of "m") (bytes_of "b") first_request = Some ([bytes_of "b"; bytes_of "c"], Ok (DialTarget (site "pair.example"))).
Proof.
  destruct (master_route_delivers net (runtime (bytes_of "m")) user (site "pair.example") ProtocolTCP (Ok (replicate 8 x00)) (bytes_of "b") first_request)
    as (action & pre & _ & _ & E).
  - exact net_honest.
  - vm_compute. reflexivity.
  - reflexivity.
  - left. reflexivity.
  - discriminate.
  - vm_compute. reflexivity.
  - intros raw [= <-]. reflexivity.
  - vm_compute. reflexivity.
  - repeat constructor; (eexists; vm_compute; reflexivity).
  - apply (bool_decide_eq_true_1 _). vm_compute. reflexivity.
  - discriminate.
  - exact E.
Defined.
End RelayExample.
