(* ===== verification/UdpRecord.v ===== *)
(** * UDP records (internal/proxy/udp_record.go)

    The records of a UDP association on a stream: a datagram with an optional
    target, an error, or the close of the association.  The codec is canonical. *)
From stdpp Require Import prelude list.
From S2P Require Import Prelude Text Varint Cell Target.

Definition MaxUDPDatagramPayload : Z := 65507.
Definition MaxUDPErrorMessageBytes : Z := 128.
Definition maxUDPRecordTargetBytes : Z := 512.
Definition udpRecordFlagTarget : Z := 1.

Definition UDPRecordDatagram : Z := 1.
Definition UDPRecordError : Z := 2.
Definition UDPRecordClose : Z := 3.
Definition UDPErrorGeneral : Z := 1.
Definition UDPErrorRateLimited : Z := 5.

Record UDPRecord := mkRecord {
  ur_Type : Z; ur_PacketID : Z; ur_HasTarget : bool; ur_Target : target; ur_Payload : list byte; ur_ErrorCode : Z; ur_ErrorMessage : list byte
}.

Definition error_code_valid (c : Z) : bool := (UDPErrorGeneral <=? c) && (c <=? UDPErrorRateLimited).

(** A character below 0x20 or 0x7f is one byte. *)
Definition validUDPErrorMessage (message : list byte) : bool :=
  if (MaxUDPErrorMessageBytes <? len message) || negb (utf8_valid message) then false
  else forallb (fun c => negb ((b2z c <? 0x20) || (b2z c =? 0x7f))) message.

Definition validateUDPRecord (r : UDPRecord) : bool :=
  if (ur_PacketID r =? 0) || (MaxSequence <? ur_PacketID r) then false
  else if (if ur_HasTarget r then bool_decide (ur_Target r = zeroTarget) || negb (is_ok (EncodeTarget (ur_Target r))) else negb (bool_decide (ur_Target r = zeroTarget))) then false
  else if ur_Type r =? UDPRecordDatagram then
    negb ((MaxUDPDatagramPayload <? len (ur_Payload r)) || negb (ur_ErrorCode r =? 0) || negb (bool_decide (ur_ErrorMessage r = [])))
  else if ur_Type r =? UDPRecordError then
    negb (ur_HasTarget r || negb (len (ur_Payload r) =? 0) || negb (error_code_valid (ur_ErrorCode r)) || negb (validUDPErrorMessage (ur_ErrorMessage r)))
  else if ur_Type r =? UDPRecordClose then
    negb (ur_HasTarget r || negb (len (ur_Payload r) =? 0) || negb (ur_ErrorCode r =? 0) || negb (bool_decide (ur_ErrorMessage r = [])))
  else false.

Definition record_body (r : UDPRecord) : list byte :=
  if ur_Type r =? UDPRecordError then z2b (ur_ErrorCode r) :: ur_ErrorMessage r else ur_Payload r.

Definition EncodeUDPRecord (r : UDPRecord) : res (list byte) :=
  if negb (validateUDPRecord r) then Err ErrInvalidUDPRecord
  else
    target_part ← (if ur_HasTarget r then
                     match EncodeTarget (ur_Target r) with
                     | Err _ => Err ErrInvalidUDPRecord
                     | Ok t => if maxUDPRecordTargetBytes <? len t then Err ErrInvalidUDPRecord else Ok (put_uvarint (len t) ++ t)
                     end
                   else Ok []);
    Ok ([z2b (ur_Type r)] ++ put_uvarint (ur_PacketID r) ++ [if ur_HasTarget r then x01 else x00] ++ target_part
        ++ put_uvarint (len (record_body r)) ++ record_body r).

(** The optional target and the bytes after it. *)
Definition decode_record_target (flags : Z) (raw : list byte) : res (option target * list byte) :=
  if Z.land flags udpRecordFlagTarget =? 0 then Ok (None, raw)
  else
    match target_readCanonicalUvarint raw with
    | Err _ => Err ErrInvalidUDPRecord
    | Ok (length, lengthBytes) =>
        if (length =? 0) || (maxUDPRecordTargetBytes <? length) then Err ErrInvalidUDPRecord
        else
          let raw := skip lengthBytes raw in
          if len raw <? length then Err ErrInvalidUDPRecord
          else match DecodeTarget (take (Z.to_nat length) raw) with
               | Err _ => Err ErrInvalidUDPRecord
               | Ok t => Ok (Some t, drop (Z.to_nat length) raw)
               end
    end.

(** The body, which is the rest of the record. *)
Definition decode_record_body (raw : list byte) : res (list byte) :=
  match target_readCanonicalUvarint raw with
  | Err _ => Err ErrInvalidUDPRecord
  | Ok (length, lengthBytes) =>
      let body := skip lengthBytes raw in
      if (MaxUDPDatagramPayload <? length) || (len body <? length) then Err ErrInvalidUDPRecord
      else if negb (length =? len body) then Err ErrInvalidUDPRecord else Ok body
  end.

Definition DecodeUDPRecord (raw : list byte) : res UDPRecord :=
  if len raw <? 4 then Err ErrInvalidUDPRecord
  else
    let type := byte_at raw 0 in
    match target_readCanonicalUvarint (skip 1 raw) with
    | Err _ => Err ErrInvalidUDPRecord
    | Ok (packetID, consumed) =>
        if (packetID =? 0) || (MaxSequence <? packetID) then Err ErrInvalidUDPRecord
        else
          match skip consumed (skip 1 raw) with
          | [] => Err ErrInvalidUDPRecord
          | flag :: rest =>
              if negb (Z.land (b2z flag) (Z.lnot udpRecordFlagTarget) =? 0) then Err ErrInvalidUDPRecord
              else
                '(t, rest) ← decode_record_target (b2z flag) rest;
                body ← decode_record_body rest;
                let has := match t with Some _ => true | None => false end in
                let t := default zeroTarget t in
                record ← (if type =? UDPRecordDatagram then Ok (mkRecord type packetID has t body 0 [])
                          else if type =? UDPRecordError then
                            match body with [] => Err ErrInvalidUDPRecord | code :: message => Ok (mkRecord type packetID has t [] (b2z code) message) end
                          else if type =? UDPRecordClose then
                            if negb (len body =? 0) then Err ErrInvalidUDPRecord else Ok (mkRecord type packetID has t [] 0 [])
                          else Err ErrInvalidUDPRecord);
                if validateUDPRecord record then Ok record else Err ErrInvalidUDPRecord
          end
    end.

(** ** The codec *)

(** The values of the Go types whose target, if any, is canonical. *)
Definition typed_record (r : UDPRecord) : Prop := is_u64 (ur_PacketID r) /\ (ur_HasTarget r = true -> canonical (ur_Target r)).

Lemma reader_put x rest : is_u64 x -> target_readCanonicalUvarint (put_uvarint x ++ rest) = Ok (x, len (put_uvarint x)).
Proof. intros H. apply target_reader_ok. by apply readCanonicalUvarint_put. Qed.

Lemma reader_inv raw x n : target_readCanonicalUvarint raw = Ok (x, n) -> is_u64 x /\ n = len (put_uvarint x) /\ raw = put_uvarint x ++ skip n raw.
Proof. intros H. apply target_reader_ok in H. by apply readCanonicalUvarint_inv. Qed.

Lemma len_u64 {A} (l : list A) n : len l <= n -> n < 2 ^ 64 -> is_u64 (len l).
Proof. unfold is_u64, len. lia. Qed.

Lemma decode_target_put t traw rest : DecodeTarget traw = Ok t -> 0 < len traw <= 512 ->
  decode_record_target 1 (put_uvarint (len traw) ++ traw ++ rest) = Ok (Some t, rest).
Proof.
  intros Hd Hl. unfold decode_record_target. change (Z.land 1 udpRecordFlagTarget =? 0) with false. cbn iota. rewrite reader_put by (eapply len_u64; [apply Hl|lia]).
  unfold maxUDPRecordTargetBytes. destruct (Z.eqb_spec (len traw) 0); [lia|]. destruct (Z.ltb_spec 512 (len traw)); [lia|]. cbn [orb]. rewrite skip_put.
  destruct (Z.ltb_spec (len (traw ++ rest)) (len traw)) as [Hlt|_]; [unfold len in Hlt; rewrite length_app in Hlt; lia|]. unfold len.
  by rewrite Nat2Z.id, take_app_length, drop_app_length, Hd.
Qed.

Lemma decode_body_put body : len body <= MaxUDPDatagramPayload -> decode_record_body (put_uvarint (len body) ++ body) = Ok body.
Proof.
  intros Hl. unfold decode_record_body. rewrite reader_put by (eapply len_u64; [apply Hl|unfold MaxUDPDatagramPayload; lia]). rewrite skip_put.
  destruct (Z.ltb_spec MaxUDPDatagramPayload (len body)); [lia|]. destruct (Z.ltb_spec (len body) (len body)); [lia|]. cbn [orb]. by rewrite Z.eqb_refl.
Qed.

Lemma validate_inv r : validateUDPRecord r = true ->
  
  (ur_HasTarget r = false -> ur_Target r = zeroTarget) /\ len (record_body r) <= MaxUDPDatagramPayload /\
  (ur_Type r = 1 /\ ur_ErrorCode r = 0 /\ ur_ErrorMessage r = [] \/
   ur_Type r = 2 /\ ur_HasTarget r = false /\ ur_Payload r = [] /\ 1 <= ur_ErrorCode r <= 5 \/
   ur_Type r = 3 /\ ur_HasTarget r = false /\ ur_Payload r = [] /\ ur_ErrorCode r = 0 /\ ur_ErrorMessage r = []).
Proof.
  unfold validateUDPRecord, record_body. destruct (_ || _); [done|].
  destruct (if ur_HasTarget r then _ else _) eqn:Et; [done|].
  assert (Ht : ur_HasTarget r = false -> ur_Target r = zeroTarget).
  { intros E. rewrite E in Et. apply negb_false_iff, bool_decide_eq_true in Et. done. }
  assert (Hnil : forall l : list byte, len l = 0 -> l = []) by (intros [|] E; [done|unfold len in E; cbn in E; lia]).
  destruct (Z.eqb_spec (ur_Type r) UDPRecordDatagram) as [E|_].
  - rewrite negb_true_iff, !orb_false_iff, !negb_false_iff, Z.ltb_ge, Z.eqb_eq, bool_decide_eq_true. intros [[H1 H2] H3]. split; [done|]. rewrite E. change (UDPRecordDatagram =? UDPRecordError) with false. tauto.
  - destruct (Z.eqb_spec (ur_Type r) UDPRecordError) as [E|_].
    + rewrite negb_true_iff, !orb_false_iff, !negb_false_iff, Z.eqb_eq. unfold error_code_valid, validUDPErrorMessage. intros [[[H1 H2] [H3 H4]%andb_prop] H5]. apply Z.leb_le in H3, H4.
      split; [done|]. apply Hnil in H2. split; [|right; left; unfold UDPErrorGeneral, UDPErrorRateLimited in *; split; [done|split; [done|split; [done|lia]]]].
      destruct (_ || _) eqn:G in H5; [done|]. apply orb_false_iff in G as [G _]. apply Z.ltb_ge in G. rewrite len_cons. unfold MaxUDPErrorMessageBytes, MaxUDPDatagramPayload in *. lia.
    + destruct (Z.eqb_spec (ur_Type r) UDPRecordClose) as [E|_]; [|done].
      rewrite negb_true_iff, !orb_false_iff, !negb_false_iff, !Z.eqb_eq, bool_decide_eq_true. intros [[[H1 H2] H3] H4]. split; [done|]. apply Hnil in H2.
      rewrite H2. split; [unfold len, MaxUDPDatagramPayload; cbn; lia|]. right; right. done.
Qed.

Lemma decode_encode_record r raw : typed_record r -> EncodeUDPRecord r = Ok raw -> DecodeUDPRecord raw = Ok r.
Proof.
  intros [Hid Hcan]. unfold EncodeUDPRecord. destruct (validateUDPRecord r) eqn:Hv; [cbn [negb]|done].
  assert (Hpid : 0 < ur_PacketID r <= MaxSequence).
  { revert Hv. unfold validateUDPRecord. destruct (_ || _) eqn:G; [done|]. rewrite orb_false_iff, Z.eqb_neq, Z.ltb_ge in G. unfold is_u64 in Hid. lia. }
  destruct (validate_inv r Hv) as (Hz & Hlen & Hkind).
  match goal with |- mbind _ ?r = _ -> _ => destruct r as [part|] eqn:Ep; [|done] end. cbn [mbind res_bind]. intros He. apply Ok_inj in He. subst raw.
  assert (Hpart : forall rest, decode_record_target (b2z (if ur_HasTarget r then x01 else x00)) (part ++ rest) = Ok (if ur_HasTarget r then Some (ur_Target r) else None, rest)).
  { intros rest. destruct (ur_HasTarget r); [|by injection Ep as <-]. destruct (EncodeTarget (ur_Target r)) as [traw|] eqn:Et; [|done].
    destruct (Z.ltb_spec maxUDPRecordTargetBytes (len traw)); [done|]. injection Ep as <-. rewrite <- app_assoc. apply decode_target_put.
    - destruct (Hcan eq_refl) as [Ht [a Hn]]. by eapply decode_encode.
    - apply encode_target_shape in Et as (_ & _ & ?). unfold maxUDPRecordTargetBytes in *. lia. }
  unfold DecodeUDPRecord. set (tail := put_uvarint (ur_PacketID r) ++ _).
  change ([z2b (ur_Type r)] ++ tail) with (z2b (ur_Type r) :: tail). change (skip 1 (z2b (ur_Type r) :: tail)) with tail.
  change (byte_at (z2b (ur_Type r) :: tail) 0) with (b2z (z2b (ur_Type r))).
  assert (Htype : b2z (z2b (ur_Type r)) = ur_Type r) by (destruct Hkind as [[-> _]|[[-> _]|[-> _]]]; reflexivity). rewrite Htype.
  assert (Hl4 : 4 <= len (z2b (ur_Type r) :: tail)).
  { unfold tail. rewrite len_cons, !len_app. pose proof (len_put_pos (ur_PacketID r)). pose proof (len_put_pos (len (record_body r))). change (len [_]) with 1. unfold len in *. lia. }
  destruct (Z.ltb_spec (len (z2b (ur_Type r) :: tail)) 4); [lia|]. unfold tail. rewrite reader_put by done.
  destruct (Z.eqb_spec (ur_PacketID r) 0); [lia|]. destruct (Z.ltb_spec MaxSequence (ur_PacketID r)); [lia|]. cbn [orb]. rewrite skip_put. cbn [app].
  replace (Z.land (b2z (if ur_HasTarget r then x01 else x00)) (Z.lnot udpRecordFlagTarget)) with 0 by (by destruct (ur_HasTarget r)). cbn [Z.eqb negb].
  rewrite Hpart. cbn [mbind res_bind]. rewrite decode_body_put by done. cbn [mbind res_bind].
  assert (Hr : (if ur_Type r =? UDPRecordDatagram then Ok (mkRecord (ur_Type r) (ur_PacketID r) (ur_HasTarget r) (ur_Target r) (record_body r) 0 [])
     else if ur_Type r =? UDPRecordError then
       match record_body r with [] => Err ErrInvalidUDPRecord | code :: message => Ok (mkRecord (ur_Type r) (ur_PacketID r) (ur_HasTarget r) (ur_Target r) [] (b2z code) message) end
     else if ur_Type r =? UDPRecordClose then
       if negb (len (record_body r) =? 0) then Err ErrInvalidUDPRecord else Ok (mkRecord (ur_Type r) (ur_PacketID r) (ur_HasTarget r) (ur_Target r) [] 0 [])
     else Err ErrInvalidUDPRecord) = Ok r).
  { clear - Hkind. destruct r as [ty id has t payload code message]. unfold record_body. cbn in *. destruct Hkind as [(-> & -> & ->)|[(-> & -> & -> & Hc)|(-> & -> & -> & -> & ->)]]; cbn; try done.
    by rewrite b2z_z2b_small by lia. }
  replace (match (if ur_HasTarget r then Some (ur_Target r) else None) with Some _ => true | None => false end) with (ur_HasTarget r) by (by destruct (ur_HasTarget r)).
  replace (default zeroTarget (if ur_HasTarget r then Some (ur_Target r) else None)) with (ur_Target r) by (destruct (ur_HasTarget r); [done|by rewrite Hz]).
  rewrite Hr. cbn [mbind res_bind]. by rewrite Hv.
Qed.

Lemma decode_target_inv flags raw t rest : decode_record_target flags raw = Ok (t, rest) ->
  match t with
  | None => Z.land flags udpRecordFlagTarget = 0 /\ raw = rest
  | Some t => Z.land flags udpRecordFlagTarget <> 0 /\ exists traw, EncodeTarget t = Ok traw /\ canonical t /\ len traw <= maxUDPRecordTargetBytes /\
                raw = put_uvarint (len traw) ++ traw ++ rest
  end.
Proof.
  unfold decode_record_target. destruct (Z.eqb_spec (Z.land flags udpRecordFlagTarget) 0) as [E|E]; [by intros [= <- <-]|].
  destruct (target_readCanonicalUvarint raw) as [[n c]|] eqn:Er; [|done]. apply reader_inv in Er as (Hu & -> & Hraw).
  destruct (_ || _) eqn:G; [done|]. rewrite orb_false_iff, Z.eqb_neq, Z.ltb_ge in G. set (body := skip _ raw) in *. destruct (Z.ltb_spec (len body) n); [done|].
  destruct (DecodeTarget _) as [x|] eqn:Ed; [|done]. intros [= <- <-]. split; [done|]. apply decode_inv in Ed as [Hc He]. exists (take (Z.to_nat n) body).
  assert (En : len (take (Z.to_nat n) body) = n) by (unfold len in *; rewrite length_take; unfold is_u64 in Hu; lia). rewrite En.
  split; [done|]. split; [done|]. split; [lia|]. by rewrite take_drop.
Qed.

Lemma decode_body_inv raw body : decode_record_body raw = Ok body -> raw = put_uvarint (len body) ++ body.
Proof.
  unfold decode_record_body. destruct (target_readCanonicalUvarint raw) as [[n c]|] eqn:Er; [|done]. apply reader_inv in Er as (Hu & -> & Hraw).
  destruct (_ || _); [done|]. destruct (Z.eqb_spec n (len (skip (len (put_uvarint n)) raw))) as [E|]; [cbn [negb]|done]. intros [= <-]. by rewrite <- E.
Qed.

Lemma flag_bit f : Z.land (b2z f) (Z.lnot udpRecordFlagTarget) = 0 -> f = if Z.land (b2z f) udpRecordFlagTarget =? 0 then x00 else x01.
Proof. destruct f; intros H; try reflexivity; vm_compute in H; discriminate. Qed.

Lemma encode_decode_record raw r : DecodeUDPRecord raw = Ok r -> typed_record r /\ EncodeUDPRecord r = Ok raw.
Proof.
  unfold DecodeUDPRecord. destruct (Z.ltb_spec (len raw) 4) as [|Hl]; [done|]. destruct raw as [|b0 tail]; [done|]. change (skip 1 (b0 :: tail)) with tail. change (byte_at (b0 :: tail) 0) with (b2z b0).
  destruct (target_readCanonicalUvarint tail) as [[pid c]|] eqn:Er; [|done]. apply reader_inv in Er as (Hpid & -> & Htail).
  destruct (_ || _) eqn:G; [done|]. rewrite orb_false_iff, Z.eqb_neq, Z.ltb_ge in G. destruct (skip (len (put_uvarint pid)) tail) as [|flag rest]; [done|].
  destruct (Z.eqb_spec (Z.land (b2z flag) (Z.lnot udpRecordFlagTarget)) 0) as [Hflag|]; [cbn [negb]|done]. apply flag_bit in Hflag.
  destruct (decode_record_target (b2z flag) rest) as [[t rest2]|] eqn:Et; [|done]. cbn [mbind res_bind]. apply decode_target_inv in Et.
  destruct (decode_record_body rest2) as [body|] eqn:Eb; [|done]. cbn [mbind res_bind]. apply decode_body_inv in Eb.
  match goal with |- mbind _ ?x = _ -> _ => destruct x as [record|] eqn:Hrec; [|done] end. cbn [mbind res_bind]. destruct (validateUDPRecord record) eqn:Hv; [|done]. intros [= ->].
  assert (Hr : z2b (ur_Type r) = b0 /\ ur_PacketID r = pid /\ ur_HasTarget r = (match t with Some _ => true | None => false end) /\ ur_Target r = default zeroTarget t /\ record_body r = body).
  { clear - Hrec. revert Hrec. unfold record_body. destruct (Z.eqb_spec (b2z b0) UDPRecordDatagram) as [E|_].
    - intros [= <-]. cbn [ur_Type ur_PacketID ur_HasTarget ur_Target ur_Payload]. by rewrite z2b_b2z, E.
    - destruct (Z.eqb_spec (b2z b0) UDPRecordError) as [E|_].
      + destruct body as [|code message]; [done|]. intros [= <-]. cbn [ur_Type ur_PacketID ur_HasTarget ur_Target ur_ErrorCode ur_ErrorMessage]. rewrite z2b_b2z, E.
        change (UDPRecordError =? UDPRecordError) with true. cbn iota. by rewrite z2b_b2z.
      + destruct (Z.eqb_spec (b2z b0) UDPRecordClose) as [E|_]; [|done]. destruct (Z.eqb_spec (len body) 0) as [E0|]; [cbn [negb]|done]. intros [= <-].
        cbn [ur_Type ur_PacketID ur_HasTarget ur_Target ur_Payload]. rewrite z2b_b2z, E. change (UDPRecordClose =? UDPRecordError) with false. cbn iota.
        destruct body; [done|unfold len in E0; cbn in E0; lia]. }
  destruct Hr as (Hb0 & Hid & Hhas & Htgt & Hbody). split.
  - split; [by rewrite Hid|]. rewrite Hhas, Htgt. destruct t as [t|]; [|done]. intros _. by destruct Et as (_ & traw & _ & ? & _).
  - unfold EncodeUDPRecord. rewrite Hv, Hhas, Htgt, Hbody, Hid, Hb0. cbn [negb]. rewrite Htail. destruct t as [t|].
    + destruct Et as (Hne & traw & He & _ & Hl2 & ->). change (default zeroTarget (Some t)) with t. cbn iota. rewrite He. destruct (Z.ltb_spec maxUDPRecordTargetBytes (len traw)); [lia|]. cbn [mbind res_bind].
      apply Z.eqb_neq in Hne. rewrite Hne in Hflag. rewrite Hflag, Eb. cbn [app]. by rewrite <- !app_assoc.
    + destruct Et as (He & ->). cbn [mbind res_bind]. rewrite He in Hflag. change (0 =? 0) with true in Hflag. rewrite Hflag, Eb. done.
Qed.

(** the encoding of UDP records is a codec: every valid record whose target
    is canonical decodes to itself, and only encodings decode. *)
Theorem udp_record_codec : Codec typed_record EncodeUDPRecord DecodeUDPRecord.
Proof. split; [apply decode_encode_record|intros r raw; apply encode_decode_record]. Qed.

Module RecordExample.
Example records :
  EncodeUDPRecord (mkRecord 1 5 true (mkT (bytes_of "8.8.8.8") 53) [xaa; xbb] 0 []) =
    Ok [x01; x05; x01; x08; x01; x24; x08; x08; x08; x08; x00; x35; x02; xaa; xbb] /\
  DecodeUDPRecord [x02; x01; x00; x03; x05; x68; x69] = Ok (mkRecord 2 1 false zeroTarget [] 5 (bytes_of "hi")) /\
  DecodeUDPRecord [x02; x01; x00; x03; x05; x0a; x69] = Err ErrInvalidUDPRecord /\
  DecodeUDPRecord [x01; x01; x02; x00] = Err ErrInvalidUDPRecord.
Proof. vm_compute. repeat split; reflexivity. Qed.
End RecordExample.
