(* ===== verification/UdpAssociation.v ===== *)
(** * UDP associations (internal/proxy/udp_association.go)

    Datagrams over one reliable stream, with an optional unreliable path: each
    packet has an identifier, and a window refuses those seen before.  The reader
    of the reliable path and the one of the unreliable path are goroutines; each
    of their rounds, and each call, is a step.  The stream and the network are
    the environment: a write says how much of it was accepted, and a step that
    would wait changes nothing. *)
From stdpp Require Import prelude list sorting.
From S2P Require Import Prelude Text Varint Cell Netip Cluster Target Datagram UdpRecord.

Definition maxUDPAssociationRecordBytes : Z := MaxUDPDatagramPayload + 1024.
Definition udpAssociationReceiveQueue : Z := 64.

(** ** State *)

(** [udpAssociationReplay.Accept], which the datagram multiplexer has too. *)
Definition udpAssociationReplay_Accept (r : datagramReplay) (packetID : Z) : datagramReplay * bool :=
  if packetID =? 0 then (r, false)
  else if (packetID <=? rp_highest r) && (1024 <=? rp_highest r - packetID) then (r, false)
  else
    let index := Z.to_nat (packetID mod 1024) in
    if nth index (rp_slots r) 0 =? packetID then (r, false)
    else (mkReplay (if rp_highest r <? packetID then packetID else rp_highest r) (<[index := packetID]> (rp_slots r)), true).

(** The fast endpoint is present with its [MaxPayload]; [ua_records] is the
    channel of both readers, [ua_held] what the reliable one has read and not yet
    put there, [ua_reading] says that it still runs, [ua_done] that the context is
    cancelled, and [ua_once] that [closeOnce] has run. *)
Record UDPAssociation := mkAssoc {
  ua_command : Z; ua_fixed : target; ua_maxPayload : Z; ua_fast : option Z;
  ua_replay : datagramReplay; ua_sendID : Z;
  ua_records : list (res UDPRecord); ua_held : option (res UDPRecord); ua_reading : bool; ua_done : bool; ua_once : bool
}.

Definition NewUDPAssociationWithDatagrams (stream : bool) (command : Z) (fixed : target) (maxPayload : Z) (fast : option Z) : res UDPAssociation :=
  if negb stream || (maxPayload <? 1200) || (MaxUDPDatagramPayload <? maxPayload) then Err ErrInvalidUDPRecord
  else if (if command =? CommandUDPFixed then negb (is_ok (EncodeTarget fixed))
           else if command =? CommandUDPAssociate then negb (bool_decide (fixed = zeroTarget)) else true) then Err ErrInvalidUDPRecord
  else if match fast with Some maximum => maximum <=? 0 | None => false end then Err ErrInvalidUDPRecord
  else Ok (mkAssoc command fixed maxPayload fast newReplay 0 [] None (match fast with Some _ => true | None => false end) false false).

Definition with_sendID (a : UDPAssociation) (n : Z) : UDPAssociation :=
  mkAssoc (ua_command a) (ua_fixed a) (ua_maxPayload a) (ua_fast a) (ua_replay a) n (ua_records a) (ua_held a) (ua_reading a) (ua_done a) (ua_once a).
Definition with_replay (a : UDPAssociation) (r : datagramReplay) : UDPAssociation :=
  mkAssoc (ua_command a) (ua_fixed a) (ua_maxPayload a) (ua_fast a) r (ua_sendID a) (ua_records a) (ua_held a) (ua_reading a) (ua_done a) (ua_once a).
Definition with_queue (a : UDPAssociation) (records : list (res UDPRecord)) (held : option (res UDPRecord)) (reading : bool) : UDPAssociation :=
  mkAssoc (ua_command a) (ua_fixed a) (ua_maxPayload a) (ua_fast a) (ua_replay a) (ua_sendID a) records held reading (ua_done a) (ua_once a).
Definition with_flags (a : UDPAssociation) (done_ once : bool) : UDPAssociation :=
  mkAssoc (ua_command a) (ua_fixed a) (ua_maxPayload a) (ua_fast a) (ua_replay a) (ua_sendID a) (ua_records a) (ua_held a) (ua_reading a) done_ once.

(** ** Writing *)

(** What a write meets: whether the network took the fast datagram and the error
    of [Send]; how many bytes the stream accepted and its error; the error of
    [CloseWrite]. *)
Record wenv := mkWEnv { we_fast : bool * option error; we_copy : nat * option error; we_closeWrite : option error }.

(** What left the association: fast datagrams; the bytes offered to the stream
    and those of them that it accepted. *)
Record output := mkOut { o_fast : list (list byte); o_frame : list byte; o_bytes : list byte }.
Definition no_output : output := mkOut [] [] [].

Definition frame (raw : list byte) : list byte := put_uvarint (len raw) ++ raw.

(** [io.Copy] from a [bytes.Reader] is one [Write]. *)
Definition copy_result (framed : list byte) (copy : nat * option error) : option error :=
  match snd copy with
  | Some e => Some e
  | None => if (fst copy <? length framed)%nat then Some (Sentinel ErrShortWrite) else None
  end.

(** The record with the next identifier. *)
Definition numbered (a : UDPAssociation) (r : UDPRecord) : UDPRecord :=
  mkRecord (ur_Type r) (u64 (ua_sendID a + 1)) (ur_HasTarget r) (ur_Target r) (ur_Payload r) (ur_ErrorCode r) (ur_ErrorMessage r).

Definition writeRecord (env : wenv) (r : UDPRecord) (preferFast : bool) (a : UDPAssociation) : option error * UDPAssociation * output :=
  if ua_sendID a =? MaxSequence then (Some (Sentinel ErrInvalidUDPRecord), a, no_output)
  else
    let r := numbered a r in
    let a := with_sendID a (ur_PacketID r) in
    match EncodeUDPRecord r with
    | Err e => (Some e, a, no_output)
    | Ok raw =>
        let try_fast := match ua_fast a with Some maximum => preferFast && (len raw <=? maximum) | None => false end in
        let sent := if try_fast && fst (we_fast env) then [raw] else [] in
        if try_fast && bool_decide (snd (we_fast env) = None) then (None, a, mkOut sent [] [])
        else (copy_result (frame raw) (we_copy env), a, mkOut sent (frame raw) (take (fst (we_copy env)) (frame raw)))
    end.

Definition datagram_record (payload : list byte) (t : option target) : UDPRecord :=
  mkRecord UDPRecordDatagram 0 (match t with Some _ => true | None => false end) (default zeroTarget t) payload 0 [].
Definition error_record (code : Z) (message : list byte) : UDPRecord := mkRecord UDPRecordError 0 false zeroTarget [] code message.
Definition close_record : UDPRecord := mkRecord UDPRecordClose 0 false zeroTarget [] 0 [].

(** The record of a datagram, unless it is refused. *)
Definition datagram_for (a : UDPAssociation) (payload : list byte) (t : option target) : option UDPRecord :=
  if ua_maxPayload a <? len payload then None
  else if ua_command a =? CommandUDPFixed then
    match t with
    | Some t => if bool_decide (t = ua_fixed a) then Some (datagram_record payload None) else None
    | None => Some (datagram_record payload None)
    end
  else if ua_command a =? CommandUDPAssociate then
    match t with None => None | Some t => Some (datagram_record payload (Some t)) end
  else None.

Definition WriteDatagram (env : wenv) (payload : list byte) (t : option target) (a : UDPAssociation) : option error * UDPAssociation * output :=
  match datagram_for a payload t with
  | None => (Some (Sentinel ErrInvalidUDPRecord), a, no_output)
  | Some r => writeRecord env r true a
  end.

Definition WriteError (env : wenv) (code : Z) (message : list byte) (a : UDPAssociation) : option error * UDPAssociation * output :=
  writeRecord env (error_record code message) false a.

Definition Close (env : wenv) (a : UDPAssociation) : option error * UDPAssociation * output :=
  if ua_once a then (None, a, no_output)
  else
    let '(e, a, out) := writeRecord env close_record false (with_flags a (ua_done a) true) in
    (match e with Some e => Some e | None => we_closeWrite env end, a, out).

Definition Abort (a : UDPAssociation) : UDPAssociation := with_flags a true (ua_once a).

(** ** Reading *)

(** A reader takes its bytes from [input]; when they are used up it waits
    ([None]), unless the stream has [ended]. *)
Definition reading (A : Type) : Type := option (res A * list byte).

Fixpoint assoc_uvarint (n : nat) (ended : option error) (raw input : list byte) : reading Z :=
  match n with
  | O => Some (Err ErrInvalidUDPRecord, input)
  | S n =>
      match input with
      | [] => match ended with Some e => Some (Err e, []) | None => None end
      | value :: input =>
          let raw := raw ++ [value] in
          if negb (Z.land (b2z value) 0x80 =? 0) then assoc_uvarint n ended raw input
          else
            let '(parsed, consumed) := Uvarint raw in
            if negb (consumed =? len raw) then Some (Err ErrInvalidUDPRecord, input)
            else
              let canonical := put_uvarint parsed in
              if negb (len canonical =? consumed) || negb (bytes_eq canonical (take (Z.to_nat consumed) raw)) then Some (Err ErrInvalidUDPRecord, input)
              else Some (Ok parsed, input)
      end
  end.

Definition readCanonicalAssociationUvarint : option error -> list byte -> reading Z := fun ended => assoc_uvarint 10 ended [].

Definition read_full (n : nat) (ended : option error) (input : list byte) : reading (list byte) :=
  if (n <=? length input)%nat then Some (Ok (take n input), drop n input)
  else match ended with
       | None => None
       | Some e => Some (Err (if errors_is e ErrEOF && negb (bool_decide (input = [])) then Sentinel ErrUnexpectedEOF else e), [])
       end.

Definition readRecordLocked (ended : option error) (input : list byte) (replay : datagramReplay) : option (res UDPRecord * list byte * datagramReplay) :=
  match readCanonicalAssociationUvarint ended input with
  | None => None
  | Some (Err e, input) => Some (Err (if errors_is e ErrEOF then ErrEOF else ErrInvalidUDPRecord), input, replay)
  | Some (Ok length, input) =>
      if (length =? 0) || (maxUDPAssociationRecordBytes <? length) then Some (Err ErrInvalidUDPRecord, input, replay)
      else match read_full (Z.to_nat length) ended input with
           | None => None
           | Some (Err e, input) => Some (Err (Join [Sentinel ErrInvalidUDPRecord; e]), input, replay)
           | Some (Ok raw, input) =>
               match DecodeUDPRecord raw with
               | Err _ => Some (Err ErrInvalidUDPRecord, input, replay)
               | Ok record =>
                   let '(replay, ok) := udpAssociationReplay_Accept replay (ur_PacketID record) in
                   Some (if ok then Ok record else Err ErrInvalidUDPRecord, input, replay)
               end
           end
  end.

Inductive read_result :=
| Datagram (payload : list byte) (t : target)
| Remote (code : Z) (message : list byte)
| Failed (e : error).

(** What [ReadDatagram] makes of a record. *)
Definition deliver_record (a : UDPAssociation) (r : res UDPRecord) : read_result :=
  match r with
  | Err e => Failed e
  | Ok r =>
      if ur_Type r =? UDPRecordDatagram then
        if ua_maxPayload a <? len (ur_Payload r) then Failed ErrInvalidUDPRecord
        else if ua_command a =? CommandUDPFixed then if ur_HasTarget r then Failed ErrInvalidUDPRecord else Datagram (ur_Payload r) (ua_fixed a)
        else if negb (ur_HasTarget r) then Failed ErrInvalidUDPRecord else Datagram (ur_Payload r) (ur_Target r)
      else if ur_Type r =? UDPRecordError then Remote (ur_ErrorCode r) (ur_ErrorMessage r)
      else if ur_Type r =? UDPRecordClose then Failed ErrEOF
      else Failed ErrInvalidUDPRecord
  end.

(** The record that [ReadDatagram] goes on with; [choose_done] says which way the
    select goes when both are ready. *)
Definition next_record (ended : option error) (choose_done : bool) (input : list byte) (a : UDPAssociation) : option (res UDPRecord * list byte * UDPAssociation) :=
  match ua_fast a with
  | None =>
      match readRecordLocked ended input (ua_replay a) with
      | None => None
      | Some (r, input, replay) => Some (r, input, with_replay a replay)
      end
  | Some _ =>
      let eof := Some (Err ErrEOF, input, a) in
      match ua_records a with
      | r :: records => if ua_done a && choose_done then eof else Some (r, input, with_queue a records (ua_held a) (ua_reading a))
      | [] => if ua_done a then eof else None
      end
  end.

Definition ReadDatagram (ended : option error) (choose_done : bool) (input : list byte) (a : UDPAssociation) : option (read_result * list byte * UDPAssociation) :=
  match next_record ended choose_done input a with
  | None => None
  | Some (r, input, a) => Some (deliver_record a r, input, a)
  end.

(** The loop ends after an error or a close record. *)
Definition last_record (r : res UDPRecord) : bool := match r with Err _ => true | Ok r => ur_Type r =? UDPRecordClose end.

(** Half a round of [readReliableLoop]: it reads a record, or puts the one it
    holds into the channel. *)
Definition readReliableLoop (ended : option error) (choose_done : bool) (input : list byte) (a : UDPAssociation) : option (list byte * UDPAssociation) :=
  if negb (ua_reading a) then None
  else match ua_held a with
       | None =>
           match readRecordLocked ended input (ua_replay a) with
           | None => None
           | Some (r, input, replay) => Some (input, with_queue (with_replay a replay) (ua_records a) (Some r) true)
           end
       | Some r =>
           let room := len (ua_records a) <? udpAssociationReceiveQueue in
           if ua_done a && (choose_done || negb room) then Some (input, with_queue a (ua_records a) None false)
           else if room then Some (input, with_queue a (ua_records a ++ [r]) None (negb (last_record r)))
           else None
       end.

(** A round of [readFastLoop] that received [raw]. *)
Definition readFastLoop (raw : list byte) (a : UDPAssociation) : UDPAssociation :=
  match DecodeUDPRecord raw with
  | Err _ => a
  | Ok r =>
      if negb (ur_Type r =? UDPRecordDatagram) || (ua_maxPayload a <? len (ur_Payload r)) then a
      else
        let '(replay, ok) := udpAssociationReplay_Accept (ua_replay a) (ur_PacketID r) in
        let a := with_replay a replay in
        if ok && (len (ua_records a) <? udpAssociationReceiveQueue) then with_queue a (ua_records a ++ [Ok r]) (ua_held a) (ua_reading a) else a
  end.

(** ** Two associations on one stream *)

(** A writer, a reader, the bytes on their way, whether the stream has ended or
    failed for the writer, the datagrams the network has seen; and, for the
    statements, the records that were numbered and encoded, those whose frame the
    stream took in full, and what the calls of [ReadDatagram] got. *)
Record link := mkLink {
  lk_w : UDPAssociation; lk_r : UDPAssociation; lk_pipe : list byte; lk_ended : option error; lk_failed : bool; lk_net : list (list byte);
  lk_written : list UDPRecord; lk_framed : list UDPRecord; lk_got : list (res UDPRecord)
}.

Inductive assoc_op :=
| OpWrite (payload : list byte) (t : option target) (env : wenv)
| OpError (code : Z) (message : list byte) (env : wenv)
| OpClose (env : wenv)
| OpRead (choose_done : bool)
| OpReliable (choose_done : bool)
| OpFast (i : nat)
| OpAbort.

(** A stream that has failed or was closed takes no more bytes. *)
Definition stream_env (failed : bool) (env : wenv) : wenv :=
  if failed then mkWEnv (we_fast env) (0%nat, Some (default (Sentinel ErrClosed) (snd (we_copy env)))) (we_closeWrite env) else env.

Definition record_written (a : UDPAssociation) (r : UDPRecord) : list UDPRecord :=
  if ua_sendID a =? MaxSequence then [] else if is_ok (EncodeUDPRecord (numbered a r)) then [numbered a r] else [].

(** The writer numbered [written] and put [out] on its way. *)
Definition sent (l : link) (written : list UDPRecord) (w : UDPAssociation) (out : output) (closed : bool) : link :=
  let whole := (len (o_bytes out) =? len (o_frame out)) && negb (bool_decide (o_frame out = [])) in
  mkLink w (lk_r l) (lk_pipe l ++ o_bytes out) (if closed then Some (Sentinel ErrEOF) else lk_ended l)
    (lk_failed l || (len (o_bytes out) <? len (o_frame out)) || closed) (lk_net l ++ o_fast out)
    (lk_written l ++ written) (lk_framed l ++ if whole then written else []) (lk_got l).

Definition received (l : link) (r : UDPAssociation) (pipe : list byte) (got : list (res UDPRecord)) : link :=
  mkLink (lk_w l) r pipe (lk_ended l) (lk_failed l) (lk_net l) (lk_written l) (lk_framed l) (lk_got l ++ got).

Definition assoc_step (l : link) (o : assoc_op) : link :=
  match o with
  | OpWrite payload t env =>
      let '(_, w, out) := WriteDatagram (stream_env (lk_failed l) env) payload t (lk_w l) in
      sent l (match datagram_for (lk_w l) payload t with Some r => record_written (lk_w l) r | None => [] end) w out false
  | OpError code message env =>
      let '(_, w, out) := WriteError (stream_env (lk_failed l) env) code message (lk_w l) in sent l (record_written (lk_w l) (error_record code message)) w out false
  | OpClose env =>
      let '(_, w, out) := Close (stream_env (lk_failed l) env) (lk_w l) in sent l (if ua_once (lk_w l) then [] else record_written (lk_w l) close_record) w out true
  | OpRead choose =>
      match next_record (lk_ended l) choose (lk_pipe l) (lk_r l) with Some (r, pipe, a) => received l a pipe [r] | None => l end
  | OpReliable choose =>
      match readReliableLoop (lk_ended l) choose (lk_pipe l) (lk_r l) with Some (pipe, a) => received l a pipe [] | None => l end
  | OpFast i => match lk_net l !! i with Some raw => received l (if ua_fast (lk_r l) then readFastLoop raw (lk_r l) else lk_r l) (lk_pipe l) [] | None => l end
  | OpAbort => received l (Abort (lk_r l)) (lk_pipe l) []
  end.

Definition link_of (w r : UDPAssociation) : link := mkLink w r [] None false [] [] [] [].

(** ** Reading a frame *)

Definition more (b : byte) : Prop := Z.land (b2z b) 0x80 =? 0 = false.
Lemma more_spec b : more b \/ (Z.land (b2z b) 0x80 =? 0 = true /\ b2z b < 128).
Proof. unfold more. destruct b; vm_compute; auto. Qed.

Lemma more_high b : 128 <= b2z b -> more b.
Proof. intros H. destruct (more_spec b) as [|[_ ?]]; [done|lia]. Qed.

Lemma put_loop_shape fuel x : 0 <= x < 2 ^ (7 * Z.of_nat fuel + 7) ->
  exists hs b, put_uvarint_loop fuel x = hs ++ [b] /\ Forall more hs /\ (Z.land (b2z b) 0x80 =? 0) = true /\ (length hs <= fuel)%nat.
Proof.
  assert (Hlast : forall x, 0 <= x < 128 -> (Z.land (b2z (z2b x)) 0x80 =? 0) = true).
  { intros y Hy. destruct (more_spec (z2b y)) as [Hm|[? _]]; [|done]. exfalso. unfold more in Hm. rewrite b2z_z2b_small in Hm by lia.
    apply Z.eqb_neq in Hm. apply Hm. apply Z.bits_inj'. intros k Hk. rewrite Z.land_spec, Z.bits_0. destruct (Z.eqb_spec k 7) as [->|Hn].
    - rewrite <- (Z.mod_small y (2 ^ 7)) by lia. by rewrite Z.mod_pow2_bits_high by lia.
    - change 128 with (2 ^ 7). rewrite Z.pow2_bits_false by lia. apply andb_false_r. }
  revert x. induction fuel as [|fuel IH]; intros x Hx; cbn [put_uvarint_loop].
  - exists [], (z2b x). split; [done|]. split; [constructor|]. split; [apply Hlast; cbn in Hx; lia|done].
  - destruct (Z.ltb_spec x 128); [exists [], (z2b x); split; [done|]; split; [constructor|]; split; [apply Hlast; lia|cbn; lia]|].
    destruct (IH (Z.shiftr x 7)) as (hs & b & -> & Hm & Hb & Hl).
    { rewrite Z.shiftr_div_pow2 by lia. split; [apply Z.div_pos; lia|]. apply Z.div_lt_upper_bound; [lia|]. rewrite <- Z.pow_add_r by lia.
      replace (7 + (7 * Z.of_nat fuel + 7)) with (7 * Z.of_nat (S fuel) + 7) by lia. lia. }
    exists (z2b (Z.lor (u8 x) 0x80) :: hs), b. split; [done|]. split; [|cbn; split; [done|lia]]. constructor; [|done].
    apply more_high. rewrite group_byte. pose proof (Z.mod_pos_bound x 128 ltac:(lia)). lia.
Qed.

Lemma put_shape x : is_u64 x -> exists hs b, put_uvarint x = hs ++ [b] /\ Forall more hs /\ (Z.land (b2z b) 0x80 =? 0) = true /\ (length hs <= 9)%nat.
Proof. intros [H1 H2]. apply put_loop_shape. change (7 * Z.of_nat 9 + 7) with 70. assert (2 ^ 64 < 2 ^ 70) by lia. lia. Qed.

Lemma assoc_uvarint_more n ended raw hs input : Forall more hs -> (length hs <= n)%nat ->
  assoc_uvarint n ended raw (hs ++ input) = assoc_uvarint (n - length hs) ended (raw ++ hs) input.
Proof.
  intros Hm. revert n raw. induction Hm as [|h hs Hh _ IH]; intros n raw Hn.
  - by rewrite Nat.sub_0_r, app_nil_r.
  - destruct n as [|n]; [cbn in Hn; lia|]. cbn [app assoc_uvarint length]. rewrite Hh. cbn [negb]. rewrite IH by (cbn in Hn; lia).
    by rewrite <- app_assoc.
Qed.

Lemma read_put ended x input : is_u64 x -> readCanonicalAssociationUvarint ended (put_uvarint x ++ input) = Some (Ok x, input).
Proof.
  intros Hx. destruct (put_shape x Hx) as (hs & b & E & Hm & Hb & Hl). unfold readCanonicalAssociationUvarint. rewrite E, <- app_assoc.
  rewrite assoc_uvarint_more by (done || lia). destruct (10 - length hs)%nat as [|n] eqn:En; [lia|]. cbn [app assoc_uvarint]. rewrite Hb. cbn [negb app].
  pose proof (Uvarint_put x [] Hx) as Hu. rewrite app_nil_r, E in Hu. rewrite Hu, Z.eqb_refl. cbn [negb]. rewrite E, Z.eqb_refl. cbn [negb orb].
  unfold len. rewrite Nat2Z.id, firstn_all, bytes_eq_refl. done.
Qed.

(** The beginning of a varint: more is needed. *)
Lemma read_put_part ended x p q : is_u64 x -> put_uvarint x = p ++ q -> q <> [] ->
  readCanonicalAssociationUvarint ended p = match ended with Some e => Some (Err e, []) | None => None end.
Proof.
  intros Hx E Hq. destruct (put_shape x Hx) as (hs & b & E' & Hm & _ & Hl). destruct (exists_last Hq) as (q' & y & ->).
  rewrite E', app_assoc in E. apply app_inj_tail in E as [E _]. assert (Hp : Forall more p) by (rewrite E in Hm; by apply Forall_app in Hm as [? _]).
  assert (length p <= 9)%nat by (apply (f_equal length) in E; rewrite length_app in E; lia). unfold readCanonicalAssociationUvarint.
  rewrite <- (app_nil_r p), assoc_uvarint_more by (done || lia). destruct (10 - length p)%nat as [|n] eqn:En; [lia|]. done.
Qed.

Lemma encoded_size r raw : is_u64 (ur_PacketID r) -> EncodeUDPRecord r = Ok raw -> 0 < len raw <= maxUDPAssociationRecordBytes.
Proof.
  unfold EncodeUDPRecord. intros Hid. destruct (validateUDPRecord r) eqn:Hv; [|done]. cbn [negb]. destruct (validate_inv r Hv) as (Hz & Hlen & _).
  match goal with |- mbind _ ?p = _ -> _ => destruct p as [part|] eqn:Ep; [|done] end. cbn [mbind res_bind]. intros H. apply Ok_inj in H as <-.
  assert (Hp : len part <= 522).
  { destruct (ur_HasTarget r); [|apply Ok_inj in Ep as <-; done]. destruct (EncodeTarget _) as [traw|]; [|done]. destruct (Z.ltb_spec maxUDPRecordTargetBytes (len traw)); [done|].
    apply Ok_inj in Ep as <-. rewrite len_app. unfold maxUDPRecordTargetBytes in *. pose proof (len_nonneg traw).
    pose proof (len_put_bound 10 (len traw) ltac:(lia) ltac:(change (7 * Z.of_nat 10) with 70; lia)). lia. }
  pose proof (len_put_bound 10 (ur_PacketID r) ltac:(lia) ltac:(change (7 * Z.of_nat 10) with 70; unfold is_u64 in Hid; lia)). pose proof (len_put_pos (ur_PacketID r)).
  pose proof (len_put_bound 10 (len (record_body r)) ltac:(lia) ltac:(change (7 * Z.of_nat 10) with 70; pose proof (len_nonneg (record_body r)); unfold MaxUDPDatagramPayload in *; lia)).
  rewrite !len_app. pose proof (len_nonneg part). pose proof (len_nonneg (record_body r)). pose proof (len_put_pos (len (record_body r))).
  change (len [_]) with 1. unfold maxUDPAssociationRecordBytes, MaxUDPDatagramPayload in *. lia.
Qed.

(** A record and its encoding. *)
Definition encodes (r : UDPRecord) (raw : list byte) : Prop := typed_record r /\ EncodeUDPRecord r = Ok raw.

Lemma frame_length r raw : encodes r raw -> is_u64 (len raw) /\ 0 < len raw <= maxUDPAssociationRecordBytes.
Proof. intros [[Hid _] E]. pose proof (encoded_size r raw Hid E). unfold is_u64, maxUDPAssociationRecordBytes, MaxUDPDatagramPayload in *. lia. Qed.

Lemma frame_nonempty r raw : encodes r raw -> 0 < len (frame raw).
Proof. intros H. apply frame_length in H. unfold frame. rewrite len_app. pose proof (len_put_pos (len raw)). lia. Qed.

Lemma read_frame ended r raw rest replay : encodes r raw ->
  readRecordLocked ended (frame raw ++ rest) replay =
    let '(replay, ok) := udpAssociationReplay_Accept replay (ur_PacketID r) in Some (if ok then Ok r else Err ErrInvalidUDPRecord, rest, replay).
Proof.
  intros H. destruct (frame_length _ _ H) as [Hu Hs]. destruct H as [Ht E]. unfold readRecordLocked, frame. rewrite <- app_assoc, read_put by done.
  rewrite (proj2 (Z.eqb_neq _ _)), (proj2 (Z.ltb_ge _ _)) by lia. cbn [orb]. unfold read_full, len. rewrite Nat2Z.id.
  rewrite (proj2 (Nat.leb_le _ _)) by (rewrite length_app; lia). rewrite take_app_length, drop_app_length.
  by rewrite (decode_encode_record r raw Ht E).
Qed.

Lemma read_partial ended r raw p q replay : encodes r raw -> frame raw = p ++ q -> q <> [] ->
  match ended with
  | None => readRecordLocked None p replay = None
  | Some e => exists e', readRecordLocked (Some e) p replay = Some (Err e', [], replay)
  end.
Proof.
  intros H E Hq. destruct (frame_length _ _ H) as [Hu Hs]. unfold frame in E.
  destruct (decide (length p < length (put_uvarint (len raw)))%nat) as [Hlt|Hge].
  - assert (Ep : put_uvarint (len raw) = p ++ drop (length p) (put_uvarint (len raw))).
    { rewrite <- (take_drop (length p) (put_uvarint (len raw))) at 1. f_equal. apply (f_equal (take (length p))) in E. by rewrite take_app_length, take_app_le in E by lia. }
    assert (Hd : drop (length p) (put_uvarint (len raw)) <> []) by (intros D; apply (f_equal length) in D; rewrite length_drop in D; change (length (@nil byte)) with 0%nat in D; lia).
    unfold readRecordLocked. pose proof (fun ended => read_put_part ended _ _ _ Hu Ep Hd) as Hr. destruct ended as [e|]; rewrite Hr; [|done].
    by eexists.
  - assert (exists p', p = put_uvarint (len raw) ++ p' /\ raw = p' ++ q) as (p' & -> & Er).
    { exists (drop (length (put_uvarint (len raw))) p). assert (Hp : p = put_uvarint (len raw) ++ drop (length (put_uvarint (len raw))) p).
      { rewrite <- (take_drop (length (put_uvarint (len raw))) p) at 1. f_equal. apply (f_equal (take (length (put_uvarint (len raw))))) in E.
        by rewrite take_app_length, take_app_le in E by lia. }
      split; [done|]. rewrite Hp in E. rewrite <- app_assoc in E. by apply app_inv_head in E. }
    unfold readRecordLocked. assert (Hp' : (length p' < length raw)%nat) by (rewrite Er, length_app; destruct q; [done|cbn; lia]).
    destruct ended as [e|]; rewrite read_put by done; rewrite (proj2 (Z.eqb_neq _ _)), (proj2 (Z.ltb_ge _ _)) by lia; cbn [orb];
      unfold read_full, len; rewrite Nat2Z.id, (proj2 (Nat.leb_gt _ _)) by lia; [by eexists|done].
Qed.

(** ** The invariant *)

Definition ids (rs : list UDPRecord) : list Z := map ur_PacketID rs.
Definition frame_of (r : UDPRecord) : list byte := match EncodeUDPRecord r with Ok raw => frame raw | Err _ => [] end.
Definition frames (rs : list UDPRecord) : list byte := flat_map frame_of rs.
Definition ok_of (r : res UDPRecord) : option UDPRecord := match r with Ok r => Some r | Err _ => None end.

(** The records that passed the window and were not dropped. *)
Definition queued (a : UDPAssociation) : list (res UDPRecord) := ua_records a ++ match ua_held a with Some r => [r] | None => [] end.
Definition taken (l : link) : list UDPRecord := omap ok_of (lk_got l ++ queued (lk_r l)).

Definition same_config (a b : UDPAssociation) : Prop := ua_command a = ua_command b /\ ua_fixed a = ua_fixed b /\ ua_maxPayload a = ua_maxPayload b.

(** What the reader should get for a record. *)
Definition content (a : UDPAssociation) (r : UDPRecord) : read_result :=
  if ur_Type r =? UDPRecordDatagram then Datagram (ur_Payload r) (if ua_command a =? CommandUDPFixed then ua_fixed a else ur_Target r)
  else if ur_Type r =? UDPRecordError then Remote (ur_ErrorCode r) (ur_ErrorMessage r) else Failed ErrEOF.

(** The bytes of a frame that the stream did not take in full. *)
Definition cut_frame (l : link) (partial : list byte) : Prop :=
  partial = [] \/ lk_failed l = true /\ exists r raw q, encodes r raw /\ frame raw = partial ++ q /\ q <> [].

Record link_inv (l : link) (seen : list Z) (front pending : list UDPRecord) (partial : list byte) : Prop := {
  li_config : same_config (lk_w l) (lk_r l);
  li_send : 0 <= ua_sendID (lk_w l) <= MaxSequence;
  li_sorted : StronglySorted Z.lt (ids (lk_written l));
  li_ids : Forall (fun r => 0 < ur_PacketID r <= ua_sendID (lk_w l)) (lk_written l);
  li_encoded : Forall (fun r => exists raw, encodes r raw) (lk_written l);
  li_content : Forall (fun r => deliver_record (lk_r l) (Ok r) = content (lk_r l) r) (lk_written l);
  li_framed : sublist (lk_framed l) (lk_written l);
  li_split : lk_framed l = front ++ pending;
  li_pipe : lk_pipe l = frames pending ++ partial;
  li_partial : cut_frame l partial;
  li_ended : lk_ended l <> None -> lk_failed l = true;
  li_net : Forall (fun raw => exists r, r ∈ lk_written l /\ encodes r raw) (lk_net l);
  li_window : window_ok (ua_replay (lk_r l)) seen;
  li_once : NoDup (ids (taken l));
  li_taken : Forall (fun r => r ∈ lk_written l /\ ur_PacketID r ∈ seen) (taken l);
  li_reliable : ua_fast (lk_r l) = None -> queued (lk_r l) = [] /\ ua_reading (lk_r l) = false /\ seen = reverse (ids front) /\
    exists tail, lk_got l = map Ok front ++ map Err tail /\ (tail <> [] -> pending = [] /\ lk_ended l <> None)
}.

Lemma MaxSequence_value : MaxSequence = 4611686018427387903.
Proof. done. Qed.

Lemma sequence_u64 c : 0 <= c <= MaxSequence + 1 -> is_u64 c.
Proof. pose proof MaxSequence_value. unfold is_u64. lia. Qed.

Lemma same_accept r c : udpAssociationReplay_Accept r c = replay_Accept r c.
Proof. done. Qed.

Lemma accept_cases r seen c r' ok : window_ok r seen -> 0 < c <= MaxSequence -> udpAssociationReplay_Accept r c = (r', ok) ->
  exists seen', window_ok r' seen' /\ if ok then seen' = c :: seen /\ c ∉ seen else seen' = seen.
Proof.
  intros W Hc E. rewrite same_accept in E. assert (Hu : is_u64 c) by (apply sequence_u64; lia). destruct (replay_Accept_ok r seen c W Hu) as [E1 E2].
  rewrite E in E1, E2. cbn [fst snd] in E1, E2. unfold ref_Accept in E1, E2. case_bool_decide as Hd; cbn [fst snd] in E1, E2; subst ok; eexists; (split; [exact E2|]); [|done].
  split; [done|]. tauto.
Qed.

(** A packet newer than all others is accepted. *)
Lemma accept_new r seen c : window_ok r seen -> 0 < c <= MaxSequence -> Forall (fun d => d < c) seen -> snd (udpAssociationReplay_Accept r c) = true.
Proof.
  intros W Hc Hs. rewrite same_accept. destruct (replay_Accept_ok r seen c W) as [-> _]; [apply sequence_u64; lia|]. unfold ref_Accept.
  rewrite bool_decide_true; [done|]. split; [lia|]. split; [intros Hin; rewrite Forall_forall in Hs; specialize (Hs c Hin); lia|].
  assert (highest seen <= c); [|unfold datagramReplayWindow; lia]. clear W. unfold highest. induction Hs; cbn [foldr]; lia.
Qed.

(** ** Writing keeps the invariant *)

Lemma frames_app xs ys : frames (xs ++ ys) = frames xs ++ frames ys.
Proof. apply flat_map_app. Qed.

Lemma writeRecord_cases env r prefer a e a' out : 0 <= ua_sendID a <= MaxSequence -> writeRecord env r prefer a = (e, a', out) ->
  exists n, a' = with_sendID a n /\ ua_sendID a <= n <= MaxSequence /\
  ((out = no_output /\ record_written a r = []) \/
   (exists raw, n = ua_sendID a + 1 /\ EncodeUDPRecord (numbered a r) = Ok raw /\ record_written a r = [numbered a r] /\ ur_PacketID (numbered a r) = n /\
     (o_fast out = [] \/ o_fast out = [raw]) /\
     (o_frame out = [] /\ o_bytes out = [] \/ o_frame out = frame raw /\ o_bytes out = take (fst (we_copy env)) (frame raw)))).
Proof.
  intros Hs. unfold writeRecord, record_written. destruct (Z.eqb_spec (ua_sendID a) MaxSequence) as [Em|Hm].
  { intros [[<- <-]%pair_equal_spec <-]%pair_equal_spec. exists (ua_sendID a). split; [by destruct a|]. split; [lia|]. by left. }
  assert (Hid : ur_PacketID (numbered a r) = ua_sendID a + 1) by (cbn; apply u64_small, sequence_u64; lia). rewrite Hid.
  destruct (EncodeUDPRecord (numbered a r)) as [raw|e'] eqn:E; cbn [is_ok].
  2: { intros [[_ <-]%pair_equal_spec <-]%pair_equal_spec. exists (ua_sendID a + 1). split; [done|]. split; [lia|]. by left. }
  cbn zeta. intros H. exists (ua_sendID a + 1). match type of H with context [if ?x && bool_decide _ then _ else _] => set (f := x) in * end.
  destruct (f && _); apply pair_equal_spec in H as [[_ <-]%pair_equal_spec <-]; (split; [done|]); (split; [lia|]); right; exists raw; do 4 (split; [done|]); cbn [o_fast o_frame o_bytes];
    (split; [destruct (f && _); auto|]); auto.
Qed.

Lemma sorted_app_last (xs : list UDPRecord) x n : StronglySorted Z.lt (ids xs) -> Forall (fun r => 0 < ur_PacketID r <= n) xs -> n < ur_PacketID x ->
  StronglySorted Z.lt (ids (xs ++ [x])).
Proof.
  intros Hs Hf Hn. unfold ids. rewrite map_app. cbn. apply StronglySorted_app_2; [|done|repeat constructor].
  intros a b Ha Hb. apply list_elem_of_singleton in Hb as ->. apply list_elem_of_fmap in Ha as (r & -> & Hin). rewrite Forall_forall in Hf. specialize (Hf r Hin). lia.
Qed.

Lemma taken_sent l written w out closed : taken (sent l written w out closed) = taken l.
Proof. done. Qed.

Lemma cut_open l partial : cut_frame l partial -> lk_failed l = false -> partial = [].
Proof. intros [->|[E _]] F; [done|congruence]. Qed.

(** What the environment of a failed or closed stream lets through. *)
Lemma failed_bytes failed env framed : failed = true -> take (fst (we_copy (stream_env failed env))) framed = ([] : list byte).
Proof. by intros ->. Qed.

Section Sent.
Context (l : link) (seen : list Z) (front pending : list UDPRecord) (partial : list byte) (Hinv : link_inv l seen front pending partial).
Context (w : UDPAssociation) (out : output) (closed : bool).

Lemma sent_none : same_config w (lk_w l) -> ua_sendID (lk_w l) <= ua_sendID w <= MaxSequence -> out = no_output ->
  link_inv (sent l [] w out closed) seen front pending partial.
Proof.
  intros (C1 & C2 & C3) Hs ->. destruct Hinv as [(D1 & D2 & D3) S So Id En Co Fr Sp Pi Pa Ed Ne Wi On Ta Re].
  constructor; unfold sent; cbn [lk_w lk_r lk_pipe lk_ended lk_failed lk_net lk_written lk_framed lk_got o_fast o_frame o_bytes no_output]; rewrite ?app_nil_r; try done.
  - split_and!; congruence.
  - lia.
  - eapply Forall_impl; [exact Id|]. cbn. intros; lia.
  - destruct Pa as [->|[F H]]; [by left|]. right. cbn. by rewrite F.
  - destruct closed; [by rewrite !orb_true_r|]. intros H. by rewrite (Ed H).
  - intros Hf. destruct (Re Hf) as (R1 & R2 & R3 & tail & R4 & R5). do 3 (split; [done|]). exists tail. split; [done|].
    intros Ht. destruct (R5 Ht). split; [done|]. by destruct closed.
Qed.

Context (r : UDPRecord) (raw : list byte) (Hr : encodes r raw) (Hid : ur_PacketID r = ua_sendID (lk_w l) + 1) (Hc : deliver_record (lk_r l) (Ok r) = content (lk_r l) r).
Context (Hw : same_config w (lk_w l)) (Hs : ua_sendID w = ua_sendID (lk_w l) + 1) (Hm : ua_sendID w <= MaxSequence).
Context (Hf : o_fast out = [] \/ o_fast out = [raw]).

Lemma sent_written pending' partial' : lk_framed (sent l [r] w out closed) = front ++ pending' -> (pending' = pending \/ pending' = pending ++ [r] /\ lk_failed l = false) ->
  lk_pipe (sent l [r] w out closed) = frames pending' ++ partial' -> cut_frame (sent l [r] w out closed) partial' ->
  link_inv (sent l [r] w out closed) seen front pending' partial'.
Proof.
  intros E1 E2 E3 E4. destruct Hinv as [(D1 & D2 & D3) S So Id En Co Fr Sp Pi Pa Ed Ne Wi On Ta Re]. destruct Hw as (C1 & C2 & C3).
  constructor; try exact E1; try exact E3; try exact E4; unfold sent; cbn [lk_w lk_r lk_pipe lk_ended lk_failed lk_net lk_written lk_framed lk_got] in *; try done.
  - split_and!; congruence.
  - lia.
  - eapply sorted_app_last; [done|exact Id|lia].
  - apply Forall_app. split; [eapply Forall_impl; [exact Id|]; cbn; intros; lia|]. repeat constructor; lia.
  - apply Forall_app. split; [done|]. by repeat constructor; exists raw.
  - apply Forall_app. split; [done|]. by repeat constructor.
  - destruct (_ && _); [by apply sublist_app|]. rewrite app_nil_r. by apply sublist_inserts_r.
  - destruct closed; [by rewrite !orb_true_r|]. intros H. by rewrite (Ed H).
  - apply Forall_app. split.
    + eapply Forall_impl; [exact Ne|]. cbn. intros x (r' & Hin & H). exists r'. split; [apply elem_of_app; by left|done].
    + destruct Hf as [-> | ->]; repeat constructor. exists r. split; [apply elem_of_app; right; by apply list_elem_of_singleton|done].
  - eapply Forall_impl; [exact Ta|]. cbn. intros x [Hx ?]. split; [apply elem_of_app; by left|done].
  - intros Hn. destruct (Re Hn) as (R1 & R2 & R3 & tail & R4 & R5). do 3 (split; [done|]). exists tail. split; [done|].
    intros Ht. destruct (R5 Ht) as [Hp He]. specialize (Ed He). destruct E2 as [->|[_ ?]]; [|congruence]. split; [done|]. by destruct closed.
Qed.

Lemma sent_one n : (o_frame out = [] /\ o_bytes out = [] \/ o_frame out = frame raw /\ o_bytes out = take n (frame raw)) -> (lk_failed l = true -> n = 0%nat) ->
  exists pending' partial', link_inv (sent l [r] w out closed) seen front pending' partial'.
Proof.
  intros Ho Hn. pose proof (frame_nonempty r raw Hr) as Hne. pose proof (li_split _ _ _ _ _ Hinv) as Sp. pose proof (li_pipe _ _ _ _ _ Hinv) as Pi.
  pose proof (li_partial _ _ _ _ _ Hinv) as Pa.
  assert (Hkeep : o_bytes out = [] -> len (o_bytes out) = len (o_frame out) -> o_frame out = []).
  { intros -> E. destruct (o_frame out); [done|]. rewrite len_cons in E. pose proof (len_nonneg l0). rewrite len_nil in E. lia. }
  destruct (decide (o_bytes out = [])) as [Eb|Eb].
  - exists pending, partial. apply sent_written.
    + unfold sent. cbn [lk_framed]. rewrite Sp. destruct (Z.eqb_spec (len (o_bytes out)) (len (o_frame out))) as [E|E]; [|by rewrite app_nil_r].
      rewrite (Hkeep Eb E), bool_decide_eq_true_2 by done. by rewrite app_nil_r.
    + by left.
    + unfold sent. cbn [lk_pipe]. by rewrite Eb, app_nil_r.
    + destruct Pa as [->|[F H]]; [by left|]. right. unfold sent. cbn [lk_failed]. by rewrite F.
  - destruct Ho as [[_ ?]|[Ef Eo]]; [done|]. destruct (lk_failed l) eqn:F; [by rewrite (Hn eq_refl) in Eo|]. rewrite (cut_open _ _ Pa F), app_nil_r in Pi.
    destruct (decide (length (frame raw) <= n)%nat) as [Hall|Hpart].
    + rewrite take_ge in Eo by done. exists (pending ++ [r]), []. apply sent_written.
      * unfold sent. cbn [lk_framed]. rewrite Eo, Ef, Z.eqb_refl, bool_decide_eq_false_2; [by rewrite Sp, <- app_assoc|]. intros E. rewrite E in Hne. done.
      * by right.
      * unfold sent. cbn [lk_pipe]. rewrite Pi, Eo, app_nil_r, frames_app. unfold frames at 3. cbn [flat_map]. unfold frame_of. destruct Hr as [_ ->]. by rewrite app_nil_r.
      * by left.
    + assert (Hlt : len (o_bytes out) < len (o_frame out)) by (rewrite Eo, Ef; unfold len; rewrite length_take; lia). exists pending, (o_bytes out). apply sent_written.
      * unfold sent. cbn [lk_framed]. rewrite (proj2 (Z.eqb_neq _ _)) by lia. by rewrite Sp, app_nil_r.
      * by left.
      * unfold sent. cbn [lk_pipe]. by rewrite Pi.
      * right. unfold sent. cbn [lk_failed]. rewrite (proj2 (Z.ltb_lt _ _) Hlt), orb_true_r. split; [done|]. exists r, raw, (drop n (frame raw)).
        split; [done|]. rewrite Eo, take_drop. split; [done|]. intros D. apply (f_equal length) in D. rewrite length_drop in D. change (length (@nil byte)) with 0%nat in D. lia.
Qed.
End Sent.

(** ** Every step keeps the invariant *)

Definition op_ok (o : assoc_op) : Prop :=
  match o with OpWrite _ (Some t) _ => canonical t | _ => True end.

Lemma assoc_write_inv l seen front pending partial w0 r prefer env e w out closed :
  link_inv l seen front pending partial -> same_config w0 (lk_w l) -> ua_sendID w0 = ua_sendID (lk_w l) ->
  (ur_HasTarget r = true -> canonical (ur_Target r)) -> deliver_record (lk_r l) (Ok (numbered w0 r)) = content (lk_r l) (numbered w0 r) ->
  writeRecord (stream_env (lk_failed l) env) r prefer w0 = (e, w, out) ->
  exists pending' partial', link_inv (sent l (record_written w0 r) w out closed) seen front pending' partial'.
Proof.
  intros Hinv Hc Hs Ht Hd E. pose proof (li_send _ _ _ _ _ Hinv) as Hb. apply writeRecord_cases in E as (n & -> & Hn & H); [|lia].
  destruct H as [[-> ->]|(raw & En & Ee & -> & Hid & Hf & Ho)].
  - exists pending, partial. apply sent_none; [done|done| |done]. cbn. lia.
  - eapply (sent_one l seen front pending partial Hinv (with_sendID w0 n) out closed (numbered w0 r) raw); [split; [split|]|..]; try done.
    + rewrite Hid, En. apply sequence_u64. lia.
    + rewrite Hid. lia.
    + cbn. lia.
    + cbn. lia.
    + intros F. by rewrite F.
Qed.

Lemma error_content a w0 code message : deliver_record a (Ok (numbered w0 (error_record code message))) = content a (numbered w0 (error_record code message)).
Proof. done. Qed.

Lemma close_content a w0 : deliver_record a (Ok (numbered w0 close_record)) = content a (numbered w0 close_record).
Proof. done. Qed.

Lemma datagram_content a w0 payload t r : same_config w0 a -> datagram_for w0 payload t = Some r -> deliver_record a (Ok (numbered w0 r)) = content a (numbered w0 r).
Proof.
  intros (C1 & _ & C3). unfold datagram_for. rewrite C1, C3. destruct (Z.ltb_spec (ua_maxPayload a) (len payload)); [done|].
  assert (Hl : (ua_maxPayload a <? len payload) = false) by lia.
  destruct (ua_command a =? CommandUDPFixed) eqn:Ec.
  - intros H'. assert (r = datagram_record payload None) as -> by (destruct t; [case_bool_decide; [|done]|]; congruence).
    unfold deliver_record, content. cbn. by rewrite Hl, Ec.
  - destruct (ua_command a =? CommandUDPAssociate); [|done]. destruct t as [t|]; [|done]. intros [= <-]. unfold deliver_record, content. cbn. by rewrite Hl, Ec.
Qed.

Lemma datagram_target w0 payload t r : (match t with Some t => canonical t | None => True end) -> datagram_for w0 payload t = Some r -> ur_HasTarget r = true -> canonical (ur_Target r).
Proof.
  intros Hc. unfold datagram_for. destruct (_ <? _); [done|]. destruct (_ =? _).
  - destruct t; [case_bool_decide; [|done]|]; intros [= <-]; done.
  - destruct (_ =? _); [|done]. destruct t as [t|]; [|done]. by intros [= <-] _.
Qed.

Definition link_state (l : link) : Prop := exists seen front pending partial, link_inv l seen front pending partial.

Lemma assoc_writer_inv l o : link_state l -> op_ok o -> match o with OpWrite _ _ _ | OpError _ _ _ | OpClose _ => link_state (assoc_step l o) | _ => True end.
Proof.
  intros (seen & front & pending & partial & Hinv) Hok. destruct (li_config _ _ _ _ _ Hinv) as (D1 & D2 & D3).
  assert (Hrefl : same_config (lk_w l) (lk_w l)) by done. pose proof (li_send _ _ _ _ _ Hinv) as Hb.
  destruct o as [payload t env|code message env|env|choose|choose|i|]; try done; cbn [assoc_step].
  - unfold WriteDatagram. destruct (datagram_for (lk_w l) payload t) as [r|] eqn:E.
    + destruct (writeRecord _ r true (lk_w l)) as [[e w] out] eqn:Ew. destruct (assoc_write_inv l seen front pending partial (lk_w l) r true env e w out false) as (pe & pa & H); try done.
      * apply (datagram_target _ _ _ _ Hok E).
      * by eapply datagram_content.
      * by exists seen, front, pe, pa.
    + exists seen, front, pending, partial. apply sent_none; try done. lia.
  - unfold WriteError. destruct (writeRecord _ _ false (lk_w l)) as [[e w] out] eqn:Ew.
    destruct (assoc_write_inv l seen front pending partial (lk_w l) (error_record code message) false env e w out false) as (pe & pa & H); try done. by exists seen, front, pe, pa.
  - unfold Close. destruct (ua_once (lk_w l)) eqn:Eo.
    + exists seen, front, pending, partial. apply sent_none; try done. lia.
    + destruct (writeRecord _ _ false _) as [[e w] out] eqn:Ew.
      destruct (assoc_write_inv l seen front pending partial (with_flags (lk_w l) (ua_done (lk_w l)) true) close_record false env e w out true) as (pe & pa & H); try done.
      by exists seen, front, pe, pa.
Qed.

(** What the next read of the stream gives. *)
Lemma read_pipe l seen front pending partial : link_inv l seen front pending partial ->
  match readRecordLocked (lk_ended l) (lk_pipe l) (ua_replay (lk_r l)) with
  | None => pending = [] /\ lk_ended l = None
  | Some (Ok r, pipe, replay) => exists rest, pending = r :: rest /\ pipe = frames rest ++ partial /\ udpAssociationReplay_Accept (ua_replay (lk_r l)) (ur_PacketID r) = (replay, true)
  | Some (Err e, pipe, replay) =>
      (exists r rest, pending = r :: rest /\ pipe = frames rest ++ partial /\ udpAssociationReplay_Accept (ua_replay (lk_r l)) (ur_PacketID r) = (replay, false)) \/
      (pending = [] /\ lk_ended l <> None /\ pipe = [] /\ replay = ua_replay (lk_r l))
  end.
Proof.
  intros Hinv. rewrite (li_pipe _ _ _ _ _ Hinv). destruct pending as [|r rest].
  - cbn [frames flat_map app]. pose proof (li_partial _ _ _ _ _ Hinv) as [->|(F & r & raw & q & Hr & E & Hq)].
    + unfold readRecordLocked, readCanonicalAssociationUvarint. cbn [assoc_uvarint]. destruct (lk_ended l); [right; done|done].
    + pose proof (read_partial (lk_ended l) r raw partial q (ua_replay (lk_r l)) Hr E Hq) as H. destruct (lk_ended l) as [e|]; [|by rewrite H].
      destruct H as [e' ->]. by right.
  - assert (Hin : r ∈ lk_written l).
    { eapply elem_of_sublist; [|exact (li_framed _ _ _ _ _ Hinv)]. rewrite (li_split _ _ _ _ _ Hinv). apply elem_of_app. right. by left. }
    pose proof (li_encoded _ _ _ _ _ Hinv) as He. rewrite Forall_forall in He. destruct (He r Hin) as [raw Hr].
    unfold frames. cbn [flat_map]. fold (frames rest). replace (frame_of r) with (frame raw) by (unfold frame_of; by destruct Hr as [_ ->]).
    rewrite <- app_assoc, (read_frame _ r raw) by done. destruct (udpAssociationReplay_Accept _ _) as [replay [|]] eqn:Ea; [by exists rest|left; by exists r, rest].
Qed.

Lemma deliver_same a b r : same_config a b -> deliver_record a r = deliver_record b r /\ (forall r, content a r = content b r).
Proof. intros (E1 & E2 & E3). split; [unfold deliver_record; by rewrite E1, E2, E3|]. intros r'. unfold content. by rewrite E1, E2. Qed.

Lemma NoDup_submseteq_2 {A} (l k : list A) : l ⊆+ k -> NoDup k -> NoDup l.
Proof. intros [k' ->]%submseteq_Permutation Hn. by apply NoDup_app in Hn as [? _]. Qed.

Lemma StronglySorted_sublist {A} (R : relation A) l k : sublist l k -> StronglySorted R k -> StronglySorted R l.
Proof.
  induction 1 as [|x l k Hs IH|x l k Hs IH]; intros Hk; [done|..]; apply StronglySorted_inv in Hk as [Hk Hx]; [|by apply IH].
  constructor; [by apply IH|]. rewrite Forall_forall in Hx |- *. intros y Hy. apply Hx. by eapply elem_of_sublist.
Qed.

(** The records taken so far gain one, or lose some. *)
Definition taken_grows (written : list UDPRecord) (before after : list UDPRecord) (seen seen' : list Z) : Prop :=
  after ⊆+ before /\ seen ⊆ seen' \/
  exists r, after ≡ₚ r :: before /\ r ∈ written /\ ur_PacketID r ∉ seen /\ seen' = ur_PacketID r :: seen.

Section Received.
Context (l : link) (seen : list Z) (front pending : list UDPRecord) (partial : list byte) (Hinv : link_inv l seen front pending partial).

Lemma received_inv a pipe got seen' front' pending' partial' :
  same_config a (lk_r l) -> front' ++ pending' = front ++ pending -> pipe = frames pending' ++ partial' -> cut_frame l partial' ->
  window_ok (ua_replay a) seen' -> taken_grows (lk_written l) (taken l) (taken (received l a pipe got)) seen seen' ->
  (ua_fast a = None -> queued a = [] /\ ua_reading a = false /\ seen' = reverse (ids front') /\
    exists tail, lk_got l ++ got = map Ok front' ++ map Err tail /\ (tail <> [] -> pending' = [] /\ lk_ended l <> None)) ->
  link_inv (received l a pipe got) seen' front' pending' partial'.
Proof.
  intros C Es Ep Hcut Hw Ht Hre. destruct Hinv as [(D1 & D2 & D3) S So Id En Co Fr Sp Pi Pa Ed Ne Wi On Ta Re]. destruct C as (C1 & C2 & C3).
  constructor; try exact Hcut; try exact Hre; try exact Ep; try exact Hw; unfold received; cbn [lk_w lk_r lk_pipe lk_ended lk_failed lk_net lk_written lk_framed lk_got]; try done.
  - split_and!; congruence.
  - eapply Forall_impl; [exact Co|]. cbn beta. intros r Hr. destruct (deliver_same a (lk_r l) (Ok r)) as [-> ->]; [done|exact Hr].
  - by rewrite Es.
  - fold (received l a pipe got). destruct Ht as [[Hsub _]|(r & Hp & _ & Hr & _)].
    + eapply NoDup_submseteq_2; [|exact On]. by apply (fmap_submseteq ur_PacketID).
    + unfold ids in *. rewrite (Permutation_map ur_PacketID Hp). constructor; [|done]. intros Hin. apply list_elem_of_fmap in Hin as (x & E & Hx).
      rewrite Forall_forall in Ta. destruct (Ta x Hx) as [_ Hs]. congruence.
  - fold (received l a pipe got). rewrite Forall_forall in Ta. apply Forall_forall. intros x Hx. destruct Ht as [[Hsub Hse]|(r & Hp & Hwr & _ & ->)].
    + destruct (Ta x) as [? ?]; [by eapply elem_of_submseteq|]. split; [done|by apply Hse].
    + rewrite Hp in Hx. apply elem_of_cons in Hx as [->|Hx]; [split; [done|by left]|]. destruct (Ta x Hx). split; [done|by right].
Qed.

Lemma pending_written r rest : pending = r :: rest -> r ∈ lk_written l /\ 0 < ur_PacketID r <= MaxSequence.
Proof.
  intros ->. destruct Hinv as [_ S _ Id _ _ Fr Sp _ _ _ _ _ _ _ _]. assert (Hin : r ∈ lk_written l).
  { eapply elem_of_sublist; [|exact Fr]. rewrite Sp. apply elem_of_app. right. by left. }
  split; [done|]. rewrite Forall_forall in Id. specialize (Id r Hin). lia.
Qed.

(** On a reliable association the next packet is newer than those seen. *)
Lemma reliable_new r rest : ua_fast (lk_r l) = None -> pending = r :: rest -> snd (udpAssociationReplay_Accept (ua_replay (lk_r l)) (ur_PacketID r)) = true.
Proof.
  intros Hn E. destruct (pending_written r rest E) as [_ Hr]. pose proof Hinv as [_ _ So _ _ _ Fr Sp _ _ _ _ Wi _ _ Re]. destruct (Re Hn) as (_ & _ & -> & _).
  apply (accept_new _ _ _ Wi Hr). apply Forall_forall. intros c Hc. rewrite elem_of_reverse in Hc. rewrite E in Sp. rewrite Sp in Fr.
  assert (Hs : StronglySorted Z.lt (ids (front ++ r :: rest))) by (eapply StronglySorted_sublist; [|exact So]; by apply (fmap_sublist ur_PacketID)).
  unfold ids in Hs. rewrite map_app in Hs. apply StronglySorted_app in Hs as (H & _ & _). apply H; [done|]. by left.
Qed.
End Received.

Lemma taken_received l a pipe got : taken (received l a pipe got) = omap ok_of (lk_got l) ++ omap ok_of got ++ omap ok_of (queued a).
Proof. unfold taken, received. cbn [lk_got lk_r]. by rewrite <- app_assoc, !omap_app. Qed.

Lemma taken_alt l : taken l = omap ok_of (lk_got l) ++ omap ok_of (queued (lk_r l)).
Proof. unfold taken. by rewrite omap_app. Qed.

Lemma taken_same written l a pipe got seen seen' : omap ok_of got ++ omap ok_of (queued a) ⊆+ omap ok_of (queued (lk_r l)) -> seen ⊆ seen' ->
  taken_grows written (taken l) (taken (received l a pipe got)) seen seen'.
Proof. intros H Hs. left. split; [|done]. rewrite taken_received, taken_alt. by apply submseteq_skips_l. Qed.

Lemma taken_one written l a pipe got seen r : omap ok_of got ++ omap ok_of (queued a) ≡ₚ r :: omap ok_of (queued (lk_r l)) -> r ∈ written -> ur_PacketID r ∉ seen ->
  taken_grows written (taken l) (taken (received l a pipe got)) seen (ur_PacketID r :: seen).
Proof. intros H Hw Hs. right. exists r. split; [|done]. rewrite taken_received, taken_alt, H. by rewrite Permutation_middle. Qed.

Lemma queued_none a : queued a = [] -> ua_records a = [] /\ ua_held a = None.
Proof. unfold queued. destruct (ua_records a), (ua_held a); done. Qed.

Section Reader.
Context (l : link) (seen : list Z) (front pending : list UDPRecord) (partial : list byte) (Hinv : link_inv l seen front pending partial).

Lemma read_reliable_inv r pipe replay : ua_fast (lk_r l) = None -> readRecordLocked (lk_ended l) (lk_pipe l) (ua_replay (lk_r l)) = Some (r, pipe, replay) ->
  link_state (received l (with_replay (lk_r l) replay) pipe [r]).
Proof.
  intros Hn E. pose proof (read_pipe _ _ _ _ _ Hinv) as H. rewrite E in H. pose proof (li_window _ _ _ _ _ Hinv) as Wi.
  destruct (li_reliable _ _ _ _ _ Hinv Hn) as (Q & Rd & Es & tail & Eg & Ht).
  destruct r as [r|e].
  - destruct H as (rest & Ep & -> & Ea). destruct (pending_written _ _ _ _ _ Hinv r rest Ep) as [Hw Hid].
    destruct (accept_cases _ _ _ _ _ Wi Hid Ea) as (seen' & W' & -> & Hns). exists (ur_PacketID r :: seen), (front ++ [r]), rest, partial.
    assert (tail = []) as -> by (destruct tail; [done|]; destruct (Ht ltac:(done)); congruence).
    apply (received_inv l seen front pending partial Hinv); try done.
    + by rewrite Ep, <- app_assoc.
    + by destruct Hinv.
    + apply taken_one; [|done|done]. unfold with_replay, queued. cbn. by unfold queued in Q.
    + intros _. split; [exact Q|]. split; [exact Rd|]. split; [rewrite Es; unfold ids; by rewrite map_app, reverse_app|].
      exists []. split; [|done]. by rewrite Eg, !app_nil_r, map_app.
  - destruct H as [(r & rest & Ep & -> & Ea)|(-> & He & -> & ->)].
    + pose proof (reliable_new _ _ _ _ _ Hinv r rest Hn Ep) as Hok. rewrite Ea in Hok. done.
    + exists seen, front, [], []. apply (received_inv l seen front [] partial Hinv); try done.
      * by left.
      * apply taken_same; [|done]. cbn. by destruct (lk_r l).
      * intros _. split; [exact Q|]. split; [exact Rd|]. split; [done|]. exists (tail ++ [e]). rewrite Eg, map_app, app_assoc. done.
Qed.

Lemma read_fast_inv choose r pipe a : ua_fast (lk_r l) <> None -> next_record (lk_ended l) choose (lk_pipe l) (lk_r l) = Some (r, pipe, a) ->
  link_state (received l a pipe [r]).
Proof.
  intros Hf. unfold next_record. destruct (ua_fast (lk_r l)) as [maximum|] eqn:Ef; [|done]. intros H.
  assert (Hr : r = Err ErrEOF /\ pipe = lk_pipe l /\ a = lk_r l \/ exists records, ua_records (lk_r l) = r :: records /\ pipe = lk_pipe l /\ a = with_queue (lk_r l) records (ua_held (lk_r l)) (ua_reading (lk_r l))).
  { destruct (ua_records (lk_r l)) as [|r0 records].
    - destruct (ua_done (lk_r l)); [|done]. injection H as <- <- <-. by left.
    - destruct (_ && _); injection H as <- <- <-; [by left|right; by eexists]. }
  clear H. exists seen, front, pending, partial. destruct Hr as [(-> & -> & ->)|(records & Eq & -> & ->)]; apply (received_inv l seen front pending partial Hinv); try done; try (by destruct Hinv); try (by cbn; rewrite Ef).
  - by apply taken_same.
  - apply taken_same; [|done]. unfold queued, with_queue. cbn [ua_records ua_held]. rewrite Eq. cbn [app omap list_omap]. by destruct r.
Qed.

Lemma reliable_loop_inv choose pipe a : readReliableLoop (lk_ended l) choose (lk_pipe l) (lk_r l) = Some (pipe, a) -> link_state (received l a pipe []).
Proof.
  unfold readReliableLoop. destruct (ua_reading (lk_r l)) eqn:Erd; [|done]. cbn [negb].
  destruct (ua_fast (lk_r l)) as [maximum|] eqn:Ef; [|destruct (li_reliable _ _ _ _ _ Hinv Ef) as (_ & ? & _); congruence].
  pose proof (li_window _ _ _ _ _ Hinv) as Wi. destruct (ua_held (lk_r l)) as [r|] eqn:Eh.
  - intros H. assert (Ha : a = with_queue (lk_r l) (ua_records (lk_r l)) None false \/ a = with_queue (lk_r l) (ua_records (lk_r l) ++ [r]) None (negb (last_record r))).
    { destruct (ua_done _ && _); [injection H as _ <-; by left|]. destruct (_ <? _); [injection H as _ <-; by right|done]. }
    assert (pipe = lk_pipe l) as -> by (destruct (ua_done _ && _); [by injection H|]; destruct (_ <? _); [by injection H|done]).
    exists seen, front, pending, partial.
    destruct Ha as [-> | ->]; apply (received_inv l seen front pending partial Hinv); try done; try (by destruct Hinv); try (by cbn; rewrite Ef); apply taken_same; try done;
      unfold queued, with_queue; cbn [ua_records ua_held]; rewrite Eh, ?app_nil_r; cbn [omap list_omap app]; [|done]. rewrite omap_app. by apply submseteq_inserts_r.
  - pose proof (read_pipe _ _ _ _ _ Hinv) as H. destruct (readRecordLocked _ _ _) as [[[r pipe'] replay]|]; [|done]. intros E. injection E as -> <-.
    assert (Hsame : forall r', omap ok_of (queued (with_queue (with_replay (lk_r l) replay) (ua_records (lk_r l)) (Some r') true)) = omap ok_of (queued (lk_r l)) ++ omap ok_of [r']).
    { intros r'. unfold queued, with_queue, with_replay. cbn [ua_records ua_held]. by rewrite Eh, app_nil_r, omap_app. }
    destruct r as [r|e].
    + destruct H as (rest & Ep & -> & Ea). destruct (pending_written _ _ _ _ _ Hinv r rest Ep) as [Hw Hid].
      destruct (accept_cases _ _ _ _ _ Wi Hid Ea) as (seen' & W' & -> & Hns). exists (ur_PacketID r :: seen), (front ++ [r]), rest, partial.
      apply (received_inv l seen front pending partial Hinv); try done; [by rewrite Ep, <- app_assoc|by destruct Hinv| |cbn; by rewrite Ef].
      apply taken_one; [|done|done]. rewrite Hsame. cbn [omap list_omap app ok_of]. by rewrite Permutation_app_comm.
    + destruct H as [(r & rest & Ep & -> & Ea)|(-> & He & -> & ->)].
      * destruct (pending_written _ _ _ _ _ Hinv r rest Ep) as [Hw Hid]. destruct (accept_cases _ _ _ _ _ Wi Hid Ea) as (seen' & W' & ->).
        exists seen, (front ++ [r]), rest, partial. apply (received_inv l seen front pending partial Hinv); try done; [by rewrite Ep, <- app_assoc|by destruct Hinv| |cbn; by rewrite Ef].
        apply taken_same; [|done]. rewrite Hsame. cbn [omap list_omap app ok_of]. by rewrite app_nil_r.
      * exists seen, front, [], []. apply (received_inv l seen front [] partial Hinv); try done; [by left| |cbn; by rewrite Ef].
        apply taken_same; [|done]. rewrite Hsame. cbn [omap list_omap app ok_of]. by rewrite app_nil_r.
Qed.

Lemma fast_loop_inv raw : raw ∈ lk_net l -> ua_fast (lk_r l) <> None -> link_state (received l (readFastLoop raw (lk_r l)) (lk_pipe l) []).
Proof.
  intros Hraw Hf. pose proof (li_window _ _ _ _ _ Hinv) as Wi. pose proof (li_net _ _ _ _ _ Hinv) as Ne. rewrite Forall_forall in Ne.
  destruct (Ne raw Hraw) as (r & Hw & Ht & Er). assert (Hid : 0 < ur_PacketID r <= MaxSequence).
  { pose proof (li_ids _ _ _ _ _ Hinv) as Id. pose proof (li_send _ _ _ _ _ Hinv). rewrite Forall_forall in Id. specialize (Id r Hw). lia. }
  unfold readFastLoop. rewrite (decode_encode_record r raw Ht Er).
  assert (Hstay : forall a seen', same_config a (lk_r l) -> ua_fast a = ua_fast (lk_r l) -> queued a = queued (lk_r l) -> window_ok (ua_replay a) seen' -> seen ⊆ seen' ->
    link_state (received l a (lk_pipe l) [])).
  { intros a seen' C Fa Q W Hs. exists seen', front, pending, partial. apply (received_inv l seen front pending partial Hinv); try done; try (by destruct Hinv); [|by rewrite Fa].
    apply taken_same; [by rewrite Q|done]. }
  destruct (_ || _); [by apply (Hstay (lk_r l) seen)|]. destruct (udpAssociationReplay_Accept _ _) as [replay ok] eqn:Ea.
  destruct (accept_cases _ _ _ _ _ Wi Hid Ea) as (seen' & W' & Hok). destruct ok; cbn [andb].
  - destruct Hok as [-> Hns]. destruct (_ <? _).
    + exists (ur_PacketID r :: seen), front, pending, partial. apply (received_inv l seen front pending partial Hinv); try done; try (by destruct Hinv); [].
      apply taken_one; [|done|done]. unfold queued, with_queue, with_replay. cbn [ua_records ua_held app]. cbn [omap list_omap]. rewrite !omap_app. cbn [omap list_omap ok_of].
      rewrite <- app_assoc. symmetry. apply Permutation_middle.
    + apply (Hstay _ (ur_PacketID r :: seen)); try done. by intros x Hx; right.
  - subst seen'. by apply (Hstay _ seen).
Qed.
End Reader.

Lemma assoc_step_inv l o : link_state l -> op_ok o -> link_state (assoc_step l o).
Proof.
  intros H Hok. pose proof (assoc_writer_inv l o H Hok) as Hw. destruct H as (seen & front & pending & partial & Hinv).
  destruct o as [payload t env|code message env|env|choose|choose|i|]; try exact Hw; clear Hw; cbn [assoc_step].
  - destruct (next_record _ _ _ _) as [[[r pipe] a]|] eqn:E; [|by exists seen, front, pending, partial].
    destruct (ua_fast (lk_r l)) eqn:Ef; [eapply read_fast_inv; [done|by rewrite Ef|exact E]|].
    unfold next_record in E. rewrite Ef in E. destruct (readRecordLocked _ _ _) as [[[r' pipe'] replay]|] eqn:Er; [|done]. injection E as <- <- <-.
    by eapply read_reliable_inv.
  - destruct (readReliableLoop _ _ _ _) as [[pipe a]|] eqn:E; [|by exists seen, front, pending, partial]. by eapply reliable_loop_inv.
  - destruct (lk_net l !! i) as [raw|] eqn:E; [|by exists seen, front, pending, partial]. apply list_elem_of_lookup_2 in E.
    destruct (ua_fast (lk_r l)) eqn:Ef; [apply (fast_loop_inv l seen front pending partial Hinv raw E); by rewrite Ef|].
    exists seen, front, pending, partial. apply (received_inv l seen front pending partial Hinv); try done; try (by destruct Hinv); [by apply taken_same|].
    rewrite app_nil_r. by apply (li_reliable _ _ _ _ _ Hinv).
  - exists seen, front, pending, partial. apply (received_inv l seen front pending partial Hinv); try done; try (by destruct Hinv); [by apply taken_same|].
    rewrite app_nil_r. by apply (li_reliable _ _ _ _ _ Hinv).
Qed.

(** ** What was asked for, and what the reader got *)

Definition run_link (w r : UDPAssociation) (ops : list assoc_op) : link := foldl assoc_step (link_of w r) ops.

(** What a call asks the other side to read. *)
Definition asked (a : UDPAssociation) (o : assoc_op) : option read_result :=
  match o with
  | OpWrite payload t _ => Some (Datagram payload (if ua_command a =? CommandUDPFixed then ua_fixed a else default zeroTarget t))
  | OpError code message _ => Some (Remote code message)
  | OpClose _ => Some (Failed ErrEOF)
  | _ => None
  end.

(** A datagram or an error message. *)
Definition packet (r : read_result) : bool := match r with Failed _ => false | _ => true end.

Definition results (l : link) : list read_result := map (deliver_record (lk_r l)) (lk_got l).

Lemma config_trans a b c : same_config a b -> same_config b c -> same_config a c.
Proof. unfold same_config. intuition congruence. Qed.

Lemma readRound_config ended choose input a input' a' : readReliableLoop ended choose input a = Some (input', a') -> same_config a' a /\ ua_fast a' = ua_fast a.
Proof.
  unfold readReliableLoop. intros H. destruct (negb _); [done|]. destruct (ua_held a).
  - destruct (ua_done a && _); [by injection H as _ <-|]. destruct (_ <? _); [by injection H as _ <-|done].
  - destruct (readRecordLocked _ _ _) as [[[? ?] ?]|]; [by injection H as _ <-|done].
Qed.

Lemma next_config ended choose input a r input' a' : next_record ended choose input a = Some (r, input', a') -> same_config a' a /\ ua_fast a' = ua_fast a.
Proof.
  unfold next_record. destruct (ua_fast a) eqn:E.
  - intros H. destruct (ua_records a); [destruct (ua_done a); [|done]|destruct (_ && _)]; injection H as _ _ <-; split; try done; cbn; by rewrite E.
  - destruct (readRecordLocked _ _ _) as [[[? ?] ?]|]; [|done]. intros H. injection H as _ _ <-. split; [done|]. cbn. by rewrite E.
Qed.

Lemma fast_config raw a : same_config (readFastLoop raw a) a /\ ua_fast (readFastLoop raw a) = ua_fast a.
Proof. unfold readFastLoop. destruct (DecodeUDPRecord raw); [|done]. destruct (_ || _); [done|]. destruct (udpAssociationReplay_Accept _ _) as [? ok]. by destruct (ok && _). Qed.

Lemma write_config env r prefer a : let a' := snd (fst (writeRecord env r prefer a)) in same_config a' a /\ ua_fast a' = ua_fast a.
Proof. unfold writeRecord. destruct (_ =? _); [done|]. cbn zeta. destruct (EncodeUDPRecord _); [|done]. match goal with |- context [if ?x && bool_decide _ then _ else _] => by destruct (x && bool_decide (snd (we_fast env) = None)) end. Qed.

(** The reader keeps its configuration, the writer its fast endpoint. *)
Lemma step_config l o : same_config (lk_r (assoc_step l o)) (lk_r l) /\ ua_fast (lk_r (assoc_step l o)) = ua_fast (lk_r l) /\ ua_fast (lk_w (assoc_step l o)) = ua_fast (lk_w l).
Proof.
  destruct o as [payload t env|code message env|env|choose|choose|i|]; cbn [assoc_step].
  - unfold WriteDatagram. destruct (datagram_for _ _ _) as [r|]; [|done]. destruct (write_config (stream_env (lk_failed l) env) r true (lk_w l)) as [_ E].
    by destruct (writeRecord _ _ _ _) as [[? ?] ?].
  - unfold WriteError. destruct (write_config (stream_env (lk_failed l) env) (error_record code message) false (lk_w l)) as [_ E]. by destruct (writeRecord _ _ _ _) as [[? ?] ?].
  - unfold Close. destruct (ua_once _); [done|]. destruct (write_config (stream_env (lk_failed l) env) close_record false (with_flags (lk_w l) (ua_done (lk_w l)) true)) as [_ E].
    by destruct (writeRecord _ _ _ _) as [[? ?] ?].
  - destruct (next_record _ _ _ _) as [[[r pipe] a]|] eqn:E; [|done]. by destruct (next_config _ _ _ _ _ _ _ E).
  - destruct (readReliableLoop _ _ _ _) as [[pipe a]|] eqn:E; [|done]. by destruct (readRound_config _ _ _ _ _ _ E).
  - destruct (lk_net l !! i); [|done]. cbn. destruct (ua_fast (lk_r l)) eqn:E; [|done]. destruct (fast_config l0 (lk_r l)) as [? ?]. by rewrite <- E.
  - done.
Qed.

(** The contents written grow by what the call asks. *)
Lemma written_asked a l o : same_config (lk_r l) a -> same_config (lk_w l) a -> exists written : list UDPRecord, lk_written (assoc_step l o) = lk_written l ++ written /\ sublist (map (content a) written) (match asked a o with Some x => [x] | None => [] end).
Proof.
  intros Cr Cw. assert (Hrec : forall w0 r x, content a (numbered w0 r) = x -> sublist (map (content a) (record_written w0 r)) [x]).
  { intros w0 r x E. unfold record_written. destruct (_ =? _); [apply sublist_nil_l|]. destruct (is_ok _); [|apply sublist_nil_l]. cbn. by rewrite E. }
  destruct o as [payload t env|code message env|env|choose|choose|i|]; cbn [assoc_step asked].
  - destruct (WriteDatagram _ _ _ _) as [[? w] out]. eexists. split; [done|]. destruct (datagram_for (lk_w l) payload t) as [r|] eqn:E; [|apply sublist_nil_l].
    apply Hrec. destruct Cw as (C1 & C2 & C3). unfold datagram_for in E. rewrite C1, C2, C3 in E. destruct (_ <? _); [done|]. unfold content.
    destruct (ua_command a =? CommandUDPFixed).
    + assert (r = datagram_record payload None) as -> by (destruct t; [case_bool_decide; [|done]|]; congruence). done.
    + destruct (_ =? CommandUDPAssociate); [|done]. destruct t as [t|]; [|done]. injection E as <-. done.
  - destruct (WriteError _ _ _ _) as [[? w] out]. eexists. split; [done|]. by apply Hrec.
  - destruct (Close _ _) as [[? w] out]. eexists. split; [done|]. destruct (ua_once _); [apply sublist_nil_l|]. by apply Hrec.
  - exists []. split; [|done]. destruct (next_record _ _ _ _) as [[[r pipe] a']|]; by rewrite app_nil_r.
  - exists []. split; [|done]. destruct (readReliableLoop _ _ _ _) as [[pipe a']|]; by rewrite app_nil_r.
  - exists []. split; [|done]. destruct (lk_net l !! i); by rewrite app_nil_r.
  - exists []. split; [|done]. by rewrite app_nil_r.
Qed.

(** What the calls that reported success asked. *)
Definition reported (l : link) (o : assoc_op) : bool :=
  match o with
  | OpWrite payload t env => bool_decide (fst (fst (WriteDatagram (stream_env (lk_failed l) env) payload t (lk_w l))) = None)
  | OpError code message env => bool_decide (fst (fst (WriteError (stream_env (lk_failed l) env) code message (lk_w l))) = None)
  | _ => false
  end.
Definition asked_by (a : UDPAssociation) (l : link) (o : assoc_op) : list read_result :=
  if reported l o then match asked a o with Some x => [x] | None => [] end else [].
Fixpoint asked_ok (a : UDPAssociation) (l : link) (ops : list assoc_op) : list read_result :=
  match ops with [] => [] | o :: ops => asked_by a l o ++ asked_ok a (assoc_step l o) ops end.

(** A write on the reliable path that reports success has framed its record. *)
Lemma reported_framed env r w e w' out l closed : ua_fast w = None -> writeRecord env r false w = (e, w', out) \/ writeRecord env r true w = (e, w', out) -> e = None ->
  lk_framed (sent l (record_written w r) w' out closed) = lk_framed l ++ [numbered w r].
Proof.
  intros Hf H ->. assert (exists prefer, writeRecord env r prefer w = (None, w', out)) as [prefer H'] by (destruct H; eauto). clear H.
  unfold writeRecord, record_written in *. destruct (_ =? _); [done|]. cbn zeta in H'. destruct (EncodeUDPRecord _) as [raw|]; [|done]. unfold with_sendID in H'. cbn [ua_fast] in H'. rewrite Hf in H'.
  cbn [andb] in H'. apply pair_equal_spec in H' as [[Hc <-]%pair_equal_spec <-]. unfold sent. cbn [lk_framed o_bytes o_frame is_ok].
  unfold copy_result in Hc. destruct (snd (we_copy env)); [done|]. destruct (Nat.ltb_spec (fst (we_copy env)) (length (frame raw))) as [|Hl]; [done|].
  rewrite take_ge by done. rewrite Z.eqb_refl, bool_decide_eq_false_2; [done|]. unfold frame. intros E. apply (f_equal len) in E. rewrite len_app, len_nil in E.
  pose proof (len_put_pos (len raw)). pose proof (len_nonneg raw). lia.
Qed.

Lemma framed_asked a l o : same_config (lk_w l) a -> ua_fast (lk_w l) = None -> exists framed : list UDPRecord, lk_framed (assoc_step l o) = lk_framed l ++ framed /\ sublist (asked_by a l o) (map (content a) framed).
Proof.
  intros (C1 & C2 & C3) Hf. unfold asked_by. assert (Hno : exists framed, lk_framed (assoc_step l o) = lk_framed l ++ framed).
  { destruct o as [payload t env|code message env|env|choose|choose|i|]; cbn [assoc_step]; try (destruct (_ : option error * UDPAssociation * output) as [[? ?] ?]; by eexists);
    exists []; rewrite app_nil_r; [destruct (next_record _ _ _ _) as [[[? ?] ?]|]|destruct (readReliableLoop _ _ _ _) as [[? ?]|]|destruct (_ !! _)|]; done. }
  destruct (reported l o) eqn:E; [|destruct Hno as [framed Hno]; exists framed; split; [done|apply sublist_nil_l]]. clear Hno.
  destruct o as [payload t env|code message env|env|choose|choose|i|]; try done; cbn [reported assoc_step asked] in *; apply bool_decide_eq_true in E.
  - unfold WriteDatagram in *. destruct (datagram_for (lk_w l) payload t) as [r|] eqn:Er; [|done]. destruct (writeRecord _ _ _ _) as [[e w] out] eqn:Ew. cbn in E.
    exists [numbered (lk_w l) r]. split; [by eapply reported_framed; eauto|]. cbn [map]. assert (content a (numbered (lk_w l) r) = Datagram payload (if ua_command a =? CommandUDPFixed then ua_fixed a else default zeroTarget t)) as ->; [|done].
    unfold datagram_for in Er. rewrite C1, C2, C3 in Er. destruct (_ <? _); [done|]. unfold content. destruct (ua_command a =? CommandUDPFixed).
    + assert (r = datagram_record payload None) as -> by (destruct t; [case_bool_decide; [|done]|]; congruence). done.
    + destruct (_ =? CommandUDPAssociate); [|done]. destruct t as [t|]; [|done]. injection Er as <-. done.
  - unfold WriteError in *. destruct (writeRecord _ _ _ _) as [[e w] out] eqn:Ew. cbn in E. exists [numbered (lk_w l) (error_record code message)].
    split; [by eapply reported_framed; eauto|done].
Qed.

Lemma made_start w r command fixed maxPayload fw fr : NewUDPAssociationWithDatagrams true command fixed maxPayload fw = Ok w ->
  NewUDPAssociationWithDatagrams true command fixed maxPayload fr = Ok r -> link_state (link_of w r) /\ ua_fast w = fw /\ ua_fast r = fr.
Proof.
  unfold NewUDPAssociationWithDatagrams. destruct (_ || _); [done|]. destruct (if command =? CommandUDPFixed then _ else _); [done|].
  destruct (match fw with Some m => m <=? 0 | None => false end); [done|]. intros H. apply Ok_inj in H as <-. destruct (match fr with Some m => m <=? 0 | None => false end); [done|]. intros H. apply Ok_inj in H as <-.
  split; [|done]. exists [], [], [], []. constructor; cbn; try done; try apply newReplay_ok; try (by constructor).
  intros ->. split; [done|]; split; [done|]; split; [done|]. by exists [].
Qed.

(** The whole run: the invariant, the configuration, and what was asked. *)
Lemma run_facts w r ops : link_state (link_of w r) -> Forall op_ok ops -> let l := run_link w r ops in
  link_state l /\ same_config (lk_r l) r /\ ua_fast (lk_r l) = ua_fast r /\ sublist (map (content r) (lk_written l)) (omap (asked r) ops) /\ (ua_fast w = None -> sublist (asked_ok r (link_of w r) ops) (map (content r) (lk_framed l))).
Proof.
  intros H0 Hok. assert (Hgen : forall l0, link_state l0 -> same_config (lk_r l0) r -> same_config (lk_w l0) r -> ua_fast (lk_r l0) = ua_fast r -> let l := foldl assoc_step l0 ops in
    link_state l /\ same_config (lk_r l) r /\ ua_fast (lk_r l) = ua_fast r /\ (exists more, lk_written l = lk_written l0 ++ more /\ sublist (map (content r) more) (omap (asked r) ops)) /\ (ua_fast (lk_w l0) = None -> exists more, lk_framed l = lk_framed l0 ++ more /\ sublist (asked_ok r l0 ops) (map (content r) more))).
  { clear H0. induction Hok as [|o ops Ho _ IH]; intros l0 H0 Cr Cw Fr; cbn [foldl asked_ok omap list_omap].
    { split_and!; try done; [|intros _]; exists []; by rewrite app_nil_r. }
    destruct (step_config l0 o) as (S1 & S2 & S3). pose proof (assoc_step_inv l0 o H0 Ho) as Hs.
    assert (Cr' : same_config (lk_r (assoc_step l0 o)) r) by (by eapply config_trans).
    destruct (written_asked r l0 o Cr Cw) as (written & Ew & Sw).
    destruct (IH (assoc_step l0 o) Hs Cr') as (I1 & I2 & I3 & (more & Em & Sm) & I5); [|by rewrite S2|].
    { destruct Hs as (se & f & p & pa & [Hc]). by eapply config_trans. }
    split_and!; try done.
    - exists (written ++ more). rewrite Em, Ew, app_assoc. split; [done|]. rewrite map_app. destruct (asked r o) as [x|]; [|by apply sublist_nil_r in Sw as ->].
      change (x :: omap (asked r) ops) with ([x] ++ omap (asked r) ops). by apply sublist_app.
    - intros Hf. destruct (framed_asked r l0 o Cw Hf) as (framed & Ef & Sf). destruct I5 as (more' & Em' & Sm'); [by rewrite S3|].
      exists (framed ++ more'). rewrite Em', Ef, app_assoc, map_app. split; [done|]. by apply sublist_app. }
  destruct (Hgen (link_of w r) H0) as (H1 & H2 & H3 & (more & Em & Sm) & H5); try done.
  { destruct H0 as (se & f & p & pa & [Hc]). exact Hc. }
  cbn zeta in *. fold (run_link w r ops) in *. split_and!; try done; [by rewrite Em|]. intros Hf. destruct (H5 Hf) as (more' & Em' & Sm'). by rewrite Em'.
Qed.

Lemma results_ok l : Forall (fun r => deliver_record (lk_r l) (Ok r) = content (lk_r l) r) (omap ok_of (lk_got l)) ->
  filter (fun x => packet x = true) (results l) = filter (fun x => packet x = true) (map (content (lk_r l)) (omap ok_of (lk_got l))).
Proof.
  unfold results. induction (lk_got l) as [|[r|e] got IH]; [done|..]; cbn [omap list_omap map ok_of].
  - intros [H1 H2]%Forall_cons. rewrite H1. rewrite !filter_cons. by case_decide; rewrite IH.
  - intros H. rewrite filter_cons_False by done. by apply IH.
Qed.

Lemma map_submseteq {A B} (f : A -> B) l k : l ⊆+ k -> map f l ⊆+ map f k.
Proof. apply fmap_submseteq. Qed.

Lemma filter_submseteq {A} (P : A -> Prop) `{!forall x, Decision (P x)} l k : l ⊆+ k -> filter P l ⊆+ filter P k.
Proof. intros [k' ->]%submseteq_Permutation. rewrite filter_app. by apply submseteq_inserts_r. Qed.

Section Delivery.
Context (command maxPayload : Z) (fixed : target) (fw fr : option Z) (w r : UDPAssociation).
Context (Hw : NewUDPAssociationWithDatagrams true command fixed maxPayload fw = Ok w).
Context (Hr : NewUDPAssociationWithDatagrams true command fixed maxPayload fr = Ok r).
Context (ops : list assoc_op) (Hok : Forall op_ok ops).

(** C29: However the network drops, repeats and reorders the fast datagrams, and
    whatever the stream accepts, a datagram or error message is read at most as
    often as it was written: the results of [ReadDatagram] are among what the
    calls on the other side asked for, each used once. *)
Theorem packets_once : let got := filter (fun x => packet x = true) (results (run_link w r ops)) in
  got ⊆+ omap (asked r) ops.
Proof.
  destruct (made_start w r command fixed maxPayload fw fr Hw Hr) as (H0 & _). destruct (run_facts w r ops H0 Hok) as ((seen & front & pending & partial & Hinv) & C & _ & Hs & _).
  set (l := run_link w r ops) in *. cbn zeta. pose proof (li_content _ _ _ _ _ Hinv) as Hc. pose proof (li_once _ _ _ _ _ Hinv) as Hn. pose proof (li_taken _ _ _ _ _ Hinv) as Ht.
  rewrite taken_alt in Hn, Ht. apply Forall_app in Ht as [Ht _]. unfold ids in Hn. rewrite map_app in Hn. apply NoDup_app in Hn as [Hn _].
  assert (Hgot : omap ok_of (lk_got l) ⊆+ lk_written l).
  { apply NoDup_submseteq; [by eapply NoDup_fmap_1|]. intros x Hx. rewrite Forall_forall in Ht. by destruct (Ht x Hx). }
  rewrite results_ok.
  - etrans; [|by apply sublist_submseteq]. etrans; [apply filter_submseteq, map_submseteq, Hgot|]. rewrite (map_ext _ (content r) (proj2 (deliver_same _ _ (Err ErrEOF) C))).
    apply sublist_submseteq, sublist_filter.
  - rewrite Forall_forall in Hc, Ht |- *. intros x Hx. destruct (Ht x Hx). by apply Hc.
Qed.

(** On a reliable association nothing is lost, repeated or reordered, and
    nothing but the end of the stream fails a read: the results are what was
    framed, in order; what was framed is what the calls asked for, those that
    reported success all included; and a read waits only when everything framed
    has been read. *)
Theorem association_exact choose : fw = None -> fr = None ->
  let l := run_link w r ops in let framed := map (content r) (lk_framed l) in
  sublist (asked_ok r (link_of w r) ops) framed /\ sublist framed (omap (asked r) ops) /\
  exists n tail, results l = take n framed ++ map Failed tail /\ (tail <> [] -> n = length framed /\ lk_ended l <> None) /\
    forall x, framed !! n = Some x -> exists pipe a, ReadDatagram (lk_ended l) choose (lk_pipe l) (lk_r l) = Some (x, pipe, a).
Proof.
  intros -> ->. destruct (made_start w r command fixed maxPayload _ _ Hw Hr) as (H0 & Fw & Fr).
  destruct (run_facts w r ops H0 Hok) as ((seen & front & pending & partial & Hinv) & C & F & Hs & Hf). set (l := run_link w r ops) in *. cbn zeta.
  destruct (deliver_same _ _ (Err ErrEOF) C) as [_ Ext]. pose proof (li_framed _ _ _ _ _ Hinv) as Fsub. pose proof (li_content _ _ _ _ _ Hinv) as Hc.
  pose proof (li_split _ _ _ _ _ Hinv) as Sp. destruct (li_reliable _ _ _ _ _ Hinv (eq_trans F Fr)) as (_ & _ & _ & tail & Eg & Ht).
  assert (Hfr : Forall (fun x => deliver_record (lk_r l) (Ok x) = content r x) (lk_framed l)).
  { rewrite Forall_forall in Hc |- *. intros x Hx. rewrite <- Ext. apply Hc. by eapply elem_of_sublist. }
  split; [by apply Hf|]. split; [etrans; [|exact Hs]; by apply (fmap_sublist (content r))|]. exists (length front), tail. rewrite Sp in Hfr |- *. split_and!.
  - unfold results. rewrite Eg, !map_app, !map_map. f_equal. rewrite take_app_length' by (by rewrite length_map). apply Forall_app in Hfr as [Hfr _].
    clear -Hfr. induction Hfr as [|x xs Hx _ IH]; [done|]. cbn [map]. by rewrite Hx, IH.
  - intros Hne. destruct (Ht Hne) as [-> ?]. by rewrite app_nil_r, length_map.
  - intros x Hx. rewrite map_app, lookup_app_r, length_map, Nat.sub_diag in Hx by (by rewrite length_map). destruct pending as [|y rest]; [done|].
    injection Hx as <-. pose proof (read_pipe _ _ _ _ _ Hinv) as Hp. pose proof (reliable_new _ _ _ _ _ Hinv y rest (eq_trans F Fr) eq_refl) as Hacc.
    apply Forall_app in Hfr as [_ Hy%Forall_inv]. unfold ReadDatagram, next_record. rewrite F, Fr.
    destruct (readRecordLocked _ _ _) as [[[z pipe] replay]|]; [|by destruct Hp]. exists pipe, (with_replay (lk_r l) replay). destruct z as [z|e].
    + destruct Hp as (rest' & [= -> ->] & _ & _). by rewrite (proj1 (deliver_same (with_replay (lk_r l) replay) (lk_r l) (Ok z) (conj eq_refl (conj eq_refl eq_refl)))), Hy.
    + exfalso. destruct Hp as [(z & rest' & [= -> ->] & _ & Ea)|[? _]]; [by rewrite Ea in Hacc|done].
Qed.
End Delivery.

(** ** Executions *)

Module AssociationExample.
Definition fixed : target := mkT (bytes_of "8.8.8.8") 53.
Definition make (fast : option Z) : UDPAssociation :=
  match NewUDPAssociationWithDatagrams true CommandUDPFixed fixed 1500 fast with Ok a => a | Err _ => mkAssoc 0 fixed 0 None newReplay 0 [] None false false false end.

(** All is sent at once, and nothing by the fast path. *)
Definition calm : wenv := mkWEnv (false, Some (External 1)) (10000%nat, None) None.
(** The network takes every datagram. *)
Definition quick : wenv := mkWEnv (true, None) (10000%nat, None) None.

Definition talk : list assoc_op :=
  [OpWrite [x61] None calm; OpWrite [x62; x63] None calm; OpRead false; OpError UDPErrorRateLimited (bytes_of "rate limit reached") calm; OpRead false;
   OpWrite [x64] (Some (mkT (bytes_of "1.1.1.1") 53)) calm; OpRead false; OpClose calm; OpRead false; OpRead false].

Lemma talk_read : results (run_link (make None) (make None) talk) =
  [Datagram [x61] fixed; Datagram [x62; x63] fixed; Remote UDPErrorRateLimited (bytes_of "rate limit reached"); Failed ErrEOF; Failed ErrEOF].
Proof. vm_compute. reflexivity. Qed.

Lemma talk_ok : Forall op_ok talk.
Proof. repeat (constructor; [first [exact I|split; [done|eexists; vm_compute; reflexivity]]|]). constructor. Qed.

Lemma association_exact_witness :
  length (results (run_link (make None) (make None) talk)) = 5%nat /\
  sublist (asked_ok (make None) (link_of (make None) (make None)) talk) (map (content (make None)) (lk_framed (run_link (make None) (make None) talk))).
Proof.
  split; [vm_compute; reflexivity|].
  exact (proj1 (association_exact CommandUDPFixed 1500 fixed None None (make None) (make None) eq_refl eq_refl talk talk_ok false eq_refl eq_refl)).
Defined.

(** A datagram that arrives three times and by both paths is read once. *)
Definition repeated : list assoc_op := [OpWrite [x61] None (mkWEnv (true, Some (External 1)) (10000%nat, None) None); OpFast 0; OpFast 0; OpReliable false; OpReliable false; OpFast 0; OpRead false; OpRead false; OpRead false].

Lemma packets_once_witness :
  results (run_link (make (Some 1400)) (make (Some 1400)) repeated) = [Datagram [x61] fixed; Failed ErrInvalidUDPRecord] /\
  filter (fun x => packet x = true) (results (run_link (make (Some 1400)) (make (Some 1400)) repeated)) ⊆+ omap (asked (make (Some 1400))) repeated.
Proof.
  split; [vm_compute; reflexivity|].
  apply (packets_once CommandUDPFixed 1500 fixed (Some 1400) (Some 1400) (make (Some 1400)) (make (Some 1400)) eq_refl eq_refl repeated).
  repeat (constructor; [exact I|]). constructor.
Defined.

(** A large datagram takes the stream; it is late, and 1024 small ones overtake
    it.  The window no longer knows it, and the association fails. *)
Definition overtaken : list assoc_op :=
  OpWrite (repeat x61 1450) None quick :: concat (map (fun i => [OpWrite [x62] None quick; OpFast i; OpRead false]) (seq 0 1024)) ++ [OpReliable false; OpReliable false; OpRead false].

Lemma late_record_ends_association :
  last (results (run_link (make (Some 1400)) (make (Some 1400)) overtaken)) = Some (Failed ErrInvalidUDPRecord) /\
  ua_reading (lk_r (run_link (make (Some 1400)) (make (Some 1400)) overtaken)) = false /\ lk_failed (run_link (make (Some 1400)) (make (Some 1400)) overtaken) = false.
Proof. vm_compute. auto. Qed.
End AssociationExample.
