(* ===== verification/UdpRelay.v ===== *)
(** * Relaying UDP on the server (internal/proxy/udp_server.go, udp_stats.go)

    The relay of one association to a socket: a goroutine sends what the client
    asks to the addresses the policy allows, another one forwards answers, but
    only from addresses that were asked, and the first one of each only in
    proportion to what the client sent there, so that the server cannot be used
    to amplify.  They share [allowedUDPAddresses], whose methods hold its mutex.
    Reading, resolving and sending are the environment. *)
From stdpp Require Import prelude list gmap.
From S2P Require Import Prelude Text Netip Target UdpRecord UdpAssociation.

Definition maxUDPAssociationTargets : Z := 1024.
Definition antiAmplificationMTU : Z := 1280.
Definition UDPErrorPolicyDenied : Z := 2.
Definition UDPErrorResolution : Z := 3.

(** ** The addresses of an association *)

(** [netip.AddrPort]. *)
Abbreviation AddrPort := (Addr * Z)%type.

Record udpTargetAccounting := mkAccounting { clientBytes : Z; replied : bool }.
Abbreviation allowedUDPAddresses := (gmap AddrPort udpTargetAccounting).
Definition newAllowedUDPAddresses : allowedUDPAddresses := ∅.

Definition allowed_Add (address : AddrPort) (a : allowedUDPAddresses) : bool * bool * allowedUDPAddresses :=
  match a !! address with
  | Some _ => (true, false, a)
  | None => if maxUDPAssociationTargets <=? Z.of_nat (size a) then (false, false, a) else (true, true, <[address := mkAccounting 0 false]> a)
  end.

Definition allowed_Contains (address : AddrPort) (a : allowedUDPAddresses) : bool := match a !! address with Some _ => true | None => false end.

Definition allowed_AddClientBytes (address : AddrPort) (count : Z) (a : allowedUDPAddresses) : allowedUDPAddresses :=
  if count <=? 0 then a
  else match a !! address with
       | None => a
       | Some state =>
           let value := u64 count in
           <[address := mkAccounting (if MaxUint64 - clientBytes state <? value then MaxUint64 else u64 (clientBytes state + value)) (replied state)]> a
       end.

Definition allowed_AllowReply (address : AddrPort) (count mtu : Z) (a : allowedUDPAddresses) : bool * allowedUDPAddresses :=
  if (count <? 0) || (mtu <? 0) then (false, a)
  else match a !! address with
       | None => (false, a)
       | Some state =>
           if replied state then (true, a)
           else
             let allowance := u64 mtu in
             let allowance := if (MaxUint64 - allowance) / 3 <? clientBytes state then MaxUint64 else u64 (allowance + u64 (3 * clientBytes state)) in
             if allowance <? u64 count then (false, a) else (true, <[address := mkAccounting (clientBytes state) true]> a)
       end.

(** ** Statistics *)

Inductive udp_counter :=
| activeAssociations | openedAssociations | associationLimitRejects | clientDatagrams | targetDatagrams | clientBytesTotal | targetBytes
| policyDrops | targetLimitDrops | unexpectedSourceDrops | oversizedDrops | idleExpirations | relayErrors | rateLimitDrops | amplificationDrops.
#[global] Instance udp_counter_eq_dec : EqDecision udp_counter.
Proof. solve_decision. Defined.

(** The counters, atomic words that wrap around; [None] is the nil pointer. *)
Definition UDPStatistics : Type := option (udp_counter -> Z).
Definition bump (k : udp_counter) (n : Z) (s : UDPStatistics) : UDPStatistics :=
  match s with None => None | Some f => Some (fun k' => if bool_decide (k = k') then u64 (f k' + n) else f k') end.
Definition associationOpened (s : UDPStatistics) : UDPStatistics := bump activeAssociations 1 (bump openedAssociations 1 s).
Definition associationClosed (s : UDPStatistics) : UDPStatistics := bump activeAssociations (-1) s.
Definition stats_Snapshot (s : UDPStatistics) : udp_counter -> Z := default (fun _ => 0) s.

(** ** Limits and addresses *)

Section Server.
(** [s.Policy], [s.MaxUDPPayload], and what [s.AuthorizeUDP] answers when it is set. *)
Variable policy : DestinationPolicy.
Variable MaxUDPPayload : Z.
Variable AuthorizeUDP : option (Z * bool).

Definition udpPayloadLimit : option Z :=
  let checked maximum := if (maximum <? 1200) || (MaxUDPDatagramPayload <? maximum) then None else Some maximum in
  match AuthorizeUDP with
  | None => checked MaxUDPPayload
  | Some (authorizedMaximum, ok) =>
      if negb ok || (authorizedMaximum <? 1200) || (MaxUDPDatagramPayload <? authorizedMaximum) then None
      else checked (if (MaxUDPPayload =? 0) || (authorizedMaximum <? MaxUDPPayload) then authorizedMaximum else MaxUDPPayload)
  end.

(** [resolver]: what looking up a name gives now. *)
Definition resolveUDPAddress (t : target) (resolver : option (list byte -> res (list Addr))) : res AddrPort :=
  addresses ← Resolve policy t resolver;
  match addresses with [] => Err ErrResolution | a :: _ => Ok (a, tPort t) end.

(** The source of a datagram, if it is a UDP address. *)
Definition udpAddrPort (address : option AddrPort) : option AddrPort :=
  match address with Some (a, port) => if IsValid a then Some (Unmap a, port) else None | None => None end.

(** ** The relay *)

Variable command : Z.
Variable fixedAddress : AddrPort.
Variable fixed : target.
Variable maxPayload : Z.

(** Where the goroutine of the client is: between two datagrams, before counting
    the bytes of one, before sending it, or at its end. *)
Inductive client_pc := Reading | Adding (a : AddrPort) (payload : list byte) | Sending (a : AddrPort) (payload : list byte) | Stopped.

Inductive relay_event :=
| EvAdded (a : AddrPort) (t : target)
| EvCounted (a : AddrPort) (n : Z)
| EvSent (a : AddrPort) (payload : list byte)
| EvForwarded (a : AddrPort) (payload : list byte) (t : option target)
| EvNotified (code : Z) (message : list byte).

Record udp_relay := mkUDPRelay {
  re_allowed : allowedUDPAddresses; re_seen : list target; re_stats : UDPStatistics; re_client : client_pc; re_forwarding : bool;
  re_results : list (option error)
}.

Definition newRelayState (stats : UDPStatistics) : udp_relay := mkUDPRelay newAllowedUDPAddresses [] stats Reading true [].

Definition with_client (r : udp_relay) (stats : UDPStatistics) (pc : client_pc) : udp_relay :=
  mkUDPRelay (re_allowed r) (re_seen r) stats pc (re_forwarding r) (re_results r).
Definition with_seen (r : udp_relay) (seen : list target) (stats : UDPStatistics) : udp_relay :=
  mkUDPRelay (re_allowed r) seen stats (re_client r) (re_forwarding r) (re_results r).
Definition with_allowed (r : udp_relay) (allowed : allowedUDPAddresses) (pc : client_pc) : udp_relay :=
  mkUDPRelay allowed (re_seen r) (re_stats r) pc (re_forwarding r) (re_results r).
Definition client_stops (r : udp_relay) (stats : UDPStatistics) (e : option error) : udp_relay :=
  mkUDPRelay (re_allowed r) (re_seen r) stats Stopped (re_forwarding r) (re_results r ++ [e]).
Definition forwarding (r : udp_relay) (allowed : allowedUDPAddresses) (stats : UDPStatistics) : udp_relay :=
  mkUDPRelay allowed (re_seen r) stats (re_client r) (re_forwarding r) (re_results r).
Definition forwarding_stops (r : udp_relay) (allowed : allowedUDPAddresses) (stats : UDPStatistics) (e : option error) : udp_relay :=
  mkUDPRelay allowed (re_seen r) stats (re_client r) false (re_results r ++ [e]).

(** [UDPRemoteError] is an error of no sentinel. *)
Definition remote_error (code : Z) : error := External code.

(** A datagram of the client: [limiter] is what [AllowUDPPacket] says, if there
    is a limiter. *)
Definition client_datagram (r : udp_relay) (payload : list byte) (t : target) (limiter : option bool) (resolver : option (list byte -> res (list Addr))) :
  udp_relay * list relay_event :=
  let logicalTarget := if command =? CommandUDPFixed then fixed else t in
  let newTarget := negb (bool_decide (logicalTarget ∈ re_seen r)) in
  if newTarget && (maxUDPAssociationTargets <=? len (re_seen r)) then
    (with_client r (bump targetLimitDrops 1 (re_stats r)) Reading, [EvNotified UDPErrorRateLimited (bytes_of "target limit reached")])
  else if bool_decide (limiter = Some false) then
    (with_client r (bump rateLimitDrops 1 (re_stats r)) Reading, [EvNotified UDPErrorRateLimited (bytes_of "rate limit reached")])
  else
    let r := with_seen r (if newTarget then re_seen r ++ [logicalTarget] else re_seen r) (bump clientBytesTotal (len payload) (bump clientDatagrams 1 (re_stats r))) in
    let add address (r : udp_relay) (drop : udp_counter -> UDPStatistics) :=
      match allowed_Add address (re_allowed r) with
      | (true, _, allowed) => (with_allowed r allowed (Adding address payload), [EvAdded address t])
      | (false, _, _) => (with_client r (drop targetLimitDrops) Reading, [EvNotified UDPErrorRateLimited (bytes_of "target limit reached")])
      end in
    if command =? CommandUDPAssociate then
      match resolveUDPAddress t resolver with
      | Err e =>
          if errors_is e ErrDestinationDenied
          then (with_client r (bump policyDrops 1 (re_stats r)) Reading, [EvNotified UDPErrorPolicyDenied (bytes_of "destination unavailable")])
          else (with_client r (re_stats r) Reading, [EvNotified UDPErrorResolution (bytes_of "destination unavailable")])
      | Ok address => add address r (fun k => bump k 1 (re_stats r))
      end
    else if command =? CommandUDPFixed then add fixedAddress r (fun _ => re_stats r)
    else (with_allowed r (re_allowed r) (Adding fixedAddress payload), []).

(** What [packetConnection.ReadFrom] gives. *)
Inductive read_from := Packet (payload : list byte) (source : option AddrPort) | TimedOut | ConnectionClosed | ReadFailed (e : error).

Inductive relay_op :=
| OpClient (read : read_result) (limiter : option bool) (resolver : option (list byte -> res (list Addr)))
| OpCount
| OpSend (e : option error)
| OpTarget (read : read_from) (write : option error).

Definition target_datagram (r : udp_relay) (payload : list byte) (source : option AddrPort) (write : option error) : udp_relay * list relay_event :=
  let dropped k allowed := (forwarding r allowed (bump k 1 (re_stats r)), []) in
  if maxPayload <? len payload then dropped oversizedDrops (re_allowed r)
  else match udpAddrPort source with
       | None => dropped unexpectedSourceDrops (re_allowed r)
       | Some sourceAddress =>
           if negb (allowed_Contains sourceAddress (re_allowed r)) then dropped unexpectedSourceDrops (re_allowed r)
           else
             let '(ok, allowed) := allowed_AllowReply sourceAddress (len payload) antiAmplificationMTU (re_allowed r) in
             if negb ok then dropped amplificationDrops allowed
             else
               let stats := bump targetBytes (len payload) (bump targetDatagrams 1 (re_stats r)) in
               let t := if command =? CommandUDPAssociate then Some (mkT (AddrString (fst sourceAddress)) (snd sourceAddress)) else None in
               (match write with Some e => forwarding_stops r allowed stats (Some e) | None => forwarding r allowed stats end, [EvForwarded sourceAddress payload t])
       end.

Definition udp_relay_step (r : udp_relay) (o : relay_op) : udp_relay * list relay_event :=
  match o, re_client r, re_forwarding r with
  | OpClient read limiter resolver, Reading, _ =>
      match read with
      | Datagram payload t => client_datagram r payload t limiter resolver
      | Remote code _ => (client_stops r (re_stats r) (Some (remote_error code)), [])
      | Failed e => (client_stops r (re_stats r) (if errors_is e ErrEOF then None else Some e), [])
      end
  | OpCount, Adding a payload, _ =>
      (with_allowed r (allowed_AddClientBytes a (len payload) (re_allowed r)) (Sending a payload), [EvCounted a (len payload)])
  | OpSend None, Sending a payload, _ => (with_client r (re_stats r) Reading, [EvSent a payload])
  | OpSend (Some e), Sending _ _, _ => (client_stops r (bump relayErrors 1 (re_stats r)) (Some e), [])
  | OpTarget read write, _, true =>
      match read with
      | Packet payload source => target_datagram r payload source write
      | TimedOut => (forwarding_stops r (re_allowed r) (bump idleExpirations 1 (re_stats r)) None, [])
      | ConnectionClosed => (forwarding_stops r (re_allowed r) (re_stats r) None, [])
      | ReadFailed e => (forwarding_stops r (re_allowed r) (bump relayErrors 1 (re_stats r)) (Some e), [])
      end
  | _, _, _ => (r, [])
  end.

Fixpoint run_udp_relay (r : udp_relay) (ops : list relay_op) : udp_relay * list relay_event :=
  match ops with
  | [] => (r, [])
  | o :: ops => let '(r, es) := udp_relay_step r o in let '(r, es') := run_udp_relay r ops in (r, es ++ es')
  end.

(** The result of the relay once both goroutines have reported. *)
Definition relay_result (r : udp_relay) : option (option error) :=
  match re_results r with first :: second :: _ => Some (match first with Some e => Some e | None => second end) | _ => None end.

(** ** What may happen *)

(** The bytes counted for an address. *)
Definition credit (a : AddrPort) (es : list relay_event) : Z :=
  foldr (fun e n => match e with EvCounted b k => if bool_decide (a = b) then k + n else n | _ => n end) 0 es.
Definition added (a : AddrPort) (es : list relay_event) : Prop := exists t, EvAdded a t ∈ es.
Definition answered (a : AddrPort) (es : list relay_event) : Prop := exists payload t, EvForwarded a payload t ∈ es.

(** An event that is allowed after the events [past]. *)
Definition event_ok (past : list relay_event) (e : relay_event) : Prop :=
  match e with
  | EvAdded a t => if command =? CommandUDPAssociate then Allows policy (fst a) = true /\ snd a = tPort t else a = fixedAddress
  | EvCounted a n => added a past
  | EvSent a payload => EvCounted a (len payload) ∈ past /\ added a past
  | EvForwarded a payload t =>
      len payload <= maxPayload /\ added a past /\ (answered a past \/ len payload <= antiAmplificationMTU + 3 * credit a past) /\
      t = if command =? CommandUDPAssociate then Some (mkT (AddrString (fst a)) (snd a)) else None
  | EvNotified _ _ => True
  end.

Inductive confined : list relay_event -> Prop :=
| confined_nil : confined []
| confined_snoc es e : confined es -> event_ok es e -> confined (es ++ [e]).

Lemma credit_app a es es' : credit a (es ++ es') = credit a es + credit a es'.
Proof. induction es as [|e es IH]; [done|]. cbn. destruct e; try exact IH. case_bool_decide; [|exact IH]. unfold credit in *. lia. Qed.

Lemma added_app a es es' : added a es -> added a (es ++ es').
Proof. intros [t H]. exists t. apply elem_of_app. by left. Qed.

Lemma answered_app a es es' : answered a es -> answered a (es ++ es').
Proof. intros (p & t & H). exists p, t. apply elem_of_app. by left. Qed.

Record account_ok (a : AddrPort) (acc : udpTargetAccounting) (es : list relay_event) : Prop := {
  ac_added : added a es;
  ac_bytes : 0 <= clientBytes acc <= credit a es;
  ac_replied : replied acc = true <-> answered a es
}.

Record relay_inv (r : udp_relay) (es : list relay_event) : Prop := {
  ri_accounts : forall a acc, re_allowed r !! a = Some acc -> account_ok a acc es;
  ri_others : forall a, re_allowed r !! a = None -> ~ answered a es;
  ri_credit : forall a, 0 <= credit a es;
  ri_size : Z.of_nat (size (re_allowed r)) <= maxUDPAssociationTargets;
  ri_seen : NoDup (re_seen r) /\ len (re_seen r) <= maxUDPAssociationTargets;
  ri_client : match re_client r with
              | Adding a _ => is_Some (re_allowed r !! a)
              | Sending a payload => is_Some (re_allowed r !! a) /\ EvCounted a (len payload) ∈ es
              | _ => True
              end;
  ri_confined : confined es
}.

Context (Hcommand : command = CommandUDPFixed \/ command = CommandUDPAssociate).
Context (Hmax : 0 <= maxPayload < 2 ^ 32).

Lemma IsValid_Unmap x : IsValid (Unmap x) = IsValid x.
Proof. destruct x as [| |v z]; [done|done|]. unfold Unmap. by destruct (Is4In6 _). Qed.

Lemma Allows_Unmap x : Allows policy (Unmap x) = Allows policy x.
Proof. unfold Allows. by rewrite IsValid_Unmap, Unmap_idem. Qed.

(** What a resolution gives is allowed and what the target stands for: its
    literal address, or one of the answers for its name. *)
Lemma Resolve_allows t resolver l : Resolve policy t resolver = Ok l ->
  Forall (fun a => Allows policy a = true /\ denotes t resolver a) l.
Proof.
  unfold Resolve, denotes. destruct (normalizeTarget t) as [[n x]|] eqn:Hn; [|done]. cbn [mbind res_bind].
  apply normalize_inv in Hn as (_ & _ & [(y & Hy & Hz & -> & _)|(Hy & -> & _ & Hh)]).
  - destruct (unmapped_wf _ _ Hy Hz) as (_ & Hv & _). rewrite Hv. destruct (Allows policy (Unmap y)) eqn:Ea; [|done].
    intros H. apply Ok_inj in H as <-. constructor; [|constructor]. rewrite Unmap_idem. split; [done|]. left. by exists y.
  - cbn [IsValid]. destruct resolver as [lookup|]; [|done]. rewrite Hh. destruct (lookup _) as [answers|] eqn:El; [|done].
    destruct (_ || _); [done|]. intros Hc.
    destruct (collect_ok _ _ _ _ Hc) as (_ & H & Hin & _); [constructor|constructor|]. rewrite Forall_forall in H |- *. intros a Ha.
    split; [by apply H|]. right. split; [done|]. apply Hin in Ha as [Ha|(b & Hb & ->)]; [by apply elem_of_nil in Ha|].
    by exists lookup, answers, b.
Qed.

Lemma resolved_ok t resolver a : resolveUDPAddress t resolver = Ok a ->
  Allows policy (fst a) = true /\ snd a = tPort t /\ denotes t resolver (fst a).
Proof.
  unfold resolveUDPAddress. destruct (Resolve policy t resolver) as [l|] eqn:E; [|done]. cbn [mbind res_bind]. apply Resolve_allows in E.
  destruct l as [|x l]; [done|]. intros H. apply Ok_inj in H as <-. apply Forall_inv in E as [? ?]. done.
Qed.

(** *** Events that leave the accounts alone *)

Definition quiet (e : relay_event) : Prop := match e with EvSent _ _ | EvNotified _ _ => True | _ => False end.

Lemma account_more a acc es e : account_ok a acc es -> credit a [e] = 0 -> ~ answered a [e] -> account_ok a acc (es ++ [e]).
Proof.
  intros [H1 H2 H3] Hc Hn. constructor; [by apply added_app|rewrite credit_app; lia|]. rewrite H3. split; [apply answered_app|].
  intros (p & t & H). apply elem_of_app in H as [H|H]; [by exists p, t|]. exfalso. apply Hn. by exists p, t.
Qed.

Lemma answered_one a e : answered a [e] -> exists payload t, e = EvForwarded a payload t.
Proof. intros (p & t & H). apply list_elem_of_singleton in H as <-. by exists p, t. Qed.

Lemma inv_quiet r r' es e : relay_inv r es -> re_allowed r' = re_allowed r -> re_seen r' = re_seen r -> quiet e -> event_ok es e ->
  match re_client r' with Adding _ _ | Sending _ _ => False | _ => True end -> relay_inv r' (es ++ [e]).
Proof.
  intros [A O Cr S Se C F] Ea Es Hq He Hc.
  assert (Hz : forall a, credit a [e] = 0) by (intros a; by destruct e). assert (Hn : forall a, ~ answered a [e]) by (intros a (p & t & ->)%answered_one; done).
  constructor.
  - intros a acc H. rewrite Ea in H. apply account_more; auto.
  - intros a H (p & t & Hin). rewrite Ea in H. apply elem_of_app in Hin as [Hin|Hin]; [apply (O a H); by exists p, t|]. apply (Hn a). by exists p, t.
  - intros a. rewrite credit_app, Hz. specialize (Cr a). lia.
  - by rewrite Ea.
  - by rewrite Es.
  - by destruct (re_client r').
  - by constructor.
Qed.

(** Steps without an event that do not touch the addresses. *)
Lemma inv_silent r r' es : relay_inv r es -> re_allowed r' = re_allowed r -> NoDup (re_seen r') /\ len (re_seen r') <= maxUDPAssociationTargets ->
  re_client r' = re_client r \/ match re_client r' with Adding _ _ | Sending _ _ => False | _ => True end -> relay_inv r' es.
Proof.
  intros [A O Cr S Se C F] Ea Es Hc. constructor; try done.
  - intros a acc H. rewrite Ea in H. by apply A.
  - intros a H. rewrite Ea in H. by apply O.
  - by rewrite Ea.
  - destruct Hc as [->|Hc]; [by rewrite Ea|by destruct (re_client r')].
Qed.

Lemma credit_other a e : (forall b n, e = EvCounted b n -> b <> a) -> credit a [e] = 0.
Proof. intros H. destruct e as [| b n| | |]; try done. cbn. rewrite bool_decide_eq_false_2; [done|]. intros ->. by apply (H b n). Qed.

(** An address is added, if it is new. *)
Lemma inv_added r r' es a payload t allowed fresh : relay_inv r es -> allowed_Add a (re_allowed r) = (true, fresh, allowed) ->
  r' = with_allowed r allowed (Adding a payload) -> event_ok es (EvAdded a t) -> relay_inv r' (es ++ [EvAdded a t]).
Proof.
  intros [A O Cr S Se C F] Ha -> He. assert (Hn : forall b, ~ answered b [EvAdded a t]) by (intros b (p & x & H)%answered_one; done).
  assert (Hin : added a (es ++ [EvAdded a t])) by (exists t; apply elem_of_app; right; by left).
  assert (Hno : forall b, ~ answered b es -> ~ answered b (es ++ [EvAdded a t])).
  { intros b Hb (p & x & Hx). apply elem_of_app in Hx as [Hx|Hx]; [apply Hb|apply (Hn b)]; by exists p, x. }
  unfold allowed_Add in Ha. destruct (re_allowed r !! a) as [acc|] eqn:E.
  - injection Ha as _ <-. constructor; unfold with_allowed; cbn [re_allowed re_seen re_client]; try done.
    + intros b acc' H. apply account_more; [by apply A|done|apply Hn].
    + intros b H. by apply Hno, O.
    + intros b. rewrite credit_app. cbn. specialize (Cr b). lia.
    + by constructor.
  - destruct (Z.leb_spec maxUDPAssociationTargets (Z.of_nat (size (re_allowed r)))); [done|]. injection Ha as _ <-.
    constructor; unfold with_allowed; cbn [re_allowed re_seen re_client]; try done.
    + intros b acc. destruct (decide (b = a)) as [->|Hne].
      * rewrite lookup_insert_eq. intros [= <-]. constructor; cbn [clientBytes replied]; [done|rewrite credit_app; specialize (Cr a); cbn; lia|].
        split; [done|]. intros H'. by apply (Hno a (O a E)) in H'.
      * rewrite lookup_insert_ne by done. intros H'. apply account_more; [by apply A|done|apply Hn].
    + intros b. destruct (decide (b = a)) as [->|Hne]; [by rewrite lookup_insert_eq|]. rewrite lookup_insert_ne by done. intros H'. by apply Hno, O.
    + intros b. rewrite credit_app. cbn. specialize (Cr b). lia.
    + rewrite map_size_insert_None by done. lia.
    + by rewrite lookup_insert_eq.
    + by constructor.
Qed.

Lemma inv_counted r es a payload : relay_inv r es -> re_client r = Adding a payload ->
  relay_inv (with_allowed r (allowed_AddClientBytes a (len payload) (re_allowed r)) (Sending a payload)) (es ++ [EvCounted a (len payload)]).
Proof.
  intros [A O Cr S Se C F] Hc. rewrite Hc in C. destruct C as [acc E]. pose proof (len_nonneg payload) as Hl.
  assert (Hn : forall b, ~ answered b [EvCounted a (len payload)]) by (intros b (p & x & H)%answered_one; done).
  assert (Hcr : forall b, credit b [EvCounted a (len payload)] = if bool_decide (b = a) then len payload else 0) by (intros b; cbn; by case_bool_decide; [lia|]).
  assert (Hmore : forall b acc', re_allowed r !! b = Some acc' -> account_ok b acc' (es ++ [EvCounted a (len payload)])).
  { intros b acc' H. destruct (A b acc' H) as [H1 H2 H3]. constructor; [by apply added_app|rewrite credit_app, Hcr; case_bool_decide; lia|].
    rewrite H3. split; [apply answered_app|]. intros (p & t & Hx). apply elem_of_app in Hx as [Hx|Hx]; [by exists p, t|]. exfalso. apply (Hn b). by exists p, t. }
  assert (Hno : forall b, ~ answered b es -> ~ answered b (es ++ [EvCounted a (len payload)])).
  { intros b Hb (p & x & Hx). apply elem_of_app in Hx as [Hx|Hx]; [apply Hb|apply (Hn b)]; by exists p, x. }
  assert (Hkeys : forall b, re_allowed r !! b = None <-> allowed_AddClientBytes a (len payload) (re_allowed r) !! b = None).
  { intros b. unfold allowed_AddClientBytes. destruct (_ <=? 0); [done|]. rewrite E. destruct (decide (b = a)) as [->|Hne]; [by rewrite lookup_insert_eq, E|by rewrite lookup_insert_ne]. }
  constructor; unfold with_allowed; cbn [re_allowed re_seen re_client]; try done.
  - intros b acc'. unfold allowed_AddClientBytes. destruct (Z.leb_spec (len payload) 0); [by apply Hmore|]. rewrite E. destruct (decide (b = a)) as [->|Hne].
    + rewrite lookup_insert_eq. intros H'. apply (inj Some) in H' as <-. destruct (Hmore a acc E) as [H1 H2 H3]. constructor; [done| |done]. cbn [clientBytes].
      destruct (A a acc E) as [_ [B1 B2] _]. rewrite credit_app, Hcr, bool_decide_eq_true_2 by done.
      pose proof (u64_range (len payload)) as [U1 U2]. assert (Hu : u64 (len payload) <= len payload) by (unfold u64; apply Z.mod_le; lia).
      destruct (Z.ltb_spec (MaxUint64 - clientBytes acc) (u64 (len payload))); [unfold MaxUint64 in *; lia|]. rewrite u64_small; [lia|]. unfold is_u64, MaxUint64 in *. lia.
    + rewrite lookup_insert_ne by done. by apply Hmore.
  - intros b H. apply Hno, O. by apply Hkeys.
  - intros b. rewrite credit_app, Hcr. specialize (Cr b). case_bool_decide; lia.
  - unfold allowed_AddClientBytes. destruct (_ <=? 0); [done|]. rewrite E. by rewrite map_size_insert_Some by eauto.
  - split; [|apply elem_of_app; right; by left]. destruct (allowed_AddClientBytes _ _ _ !! a) eqn:F'; [done|]. apply Hkeys in F'. congruence.
  - constructor; [done|]. cbn. by destruct (A a acc E).
Qed.

Lemma inv_forwarded r r' es a payload t allowed : relay_inv r es -> allowed_AllowReply a (len payload) antiAmplificationMTU (re_allowed r) = (true, allowed) ->
  len payload <= maxPayload -> t = (if command =? CommandUDPAssociate then Some (mkT (AddrString (fst a)) (snd a)) else None) ->
  re_allowed r' = allowed -> re_seen r' = re_seen r -> re_client r' = re_client r -> relay_inv r' (es ++ [EvForwarded a payload t]).
Proof.
  intros [A O Cr S Se C F] Ha Hl Ht Er' Es Ec. unfold allowed_AllowReply in Ha. destruct (_ || _); [done|]. destruct (re_allowed r !! a) as [acc|] eqn:E; [|done].
  destruct (A a acc E) as [A1 A2 A3].
  assert (Hz : forall b, credit b [EvForwarded a payload t] = 0) by done.
  assert (Hne : forall b, b <> a -> ~ answered b [EvForwarded a payload t]) by (intros b Hb (p & x & [= -> _ _])%answered_one; done).
  assert (Hself : answered a (es ++ [EvForwarded a payload t])) by (exists payload, t; apply elem_of_app; right; by left).
  assert (Hno : forall b, b <> a -> ~ answered b es -> ~ answered b (es ++ [EvForwarded a payload t])).
  { intros b Hb Hn (p & x & Hx). apply elem_of_app in Hx as [Hx|Hx]; [apply Hn|apply (Hne b Hb)]; by exists p, x. }
  assert (Hok : event_ok es (EvForwarded a payload t) /\ exists acc', replied acc' = true /\ clientBytes acc' = clientBytes acc /\ allowed = <[a := acc']> (re_allowed r)).
  { destruct (replied acc) eqn:Erep.
    - injection Ha as <-. split; [|exists acc; split; [done|split; [done|by rewrite insert_id]]]. split; [done|]. split; [done|]. split; [left; by apply A3|done].
    - destruct (_ <? u64 _) eqn:Eg in Ha; [done|]. injection Ha as <-. split; [|by exists (mkAccounting (clientBytes acc) true)]. split; [done|]. split; [done|]. split; [right|done].
      apply Z.ltb_ge in Eg. pose proof (len_nonneg payload). rewrite (u64_small (len payload)) in Eg by (unfold is_u64; lia). change (u64 antiAmplificationMTU) with 1280 in Eg.
      change antiAmplificationMTU with 1280. destruct (Z.ltb_spec ((MaxUint64 - 1280) / 3) (clientBytes acc)) as [Hb|Hb].
      + change ((MaxUint64 - 1280) / 3) with 6148914691236516778 in Hb. lia.
      + assert (3 * clientBytes acc <= MaxUint64 - 1280) by (change ((MaxUint64 - 1280) / 3) with 6148914691236516778 in Hb; unfold MaxUint64; lia).
        rewrite (u64_small (3 * _)) in Eg by (unfold is_u64, MaxUint64 in *; lia). rewrite u64_small in Eg by (unfold is_u64, MaxUint64 in *; lia). lia. }
  destruct Hok as [Hok (acc' & Hr & Hb & Hal)]. rewrite Hal in Er'. constructor; rewrite ?Er', ?Es, ?Ec.
  - intros b acc0. destruct (decide (b = a)) as [->|Hb'].
    + rewrite lookup_insert_eq. intros H'. apply (inj Some) in H' as <-. constructor; [by apply added_app|rewrite credit_app, Hz, Hb; lia|by rewrite Hr].
    + rewrite lookup_insert_ne by done. intros H'. apply account_more; [by apply A|done|by apply Hne].
  - intros b. destruct (decide (b = a)) as [->|Hb']; [by rewrite lookup_insert_eq|]. rewrite lookup_insert_ne by done. intros H'. by apply Hno, O.
  - intros b. rewrite credit_app, Hz. specialize (Cr b). lia.
  - by rewrite map_size_insert_Some by eauto.
  - done.
  - assert (Hsome : forall b, is_Some (re_allowed r !! b) -> is_Some (<[a:=acc']> (re_allowed r) !! b)).
    { intros b Hs. destruct (decide (b = a)) as [->|Hb']; [by rewrite lookup_insert_eq|by rewrite lookup_insert_ne]. }
    destruct (re_client r); try done; [by apply Hsome|]. destruct C as [C1 C2]. split; [by apply Hsome|apply elem_of_app; by left].
  - by constructor.
Qed.

Lemma client_datagram_inv r es payload t limiter resolver : relay_inv r es -> re_client r = Reading ->
  let '(r', es') := client_datagram r payload t limiter resolver in relay_inv r' (es ++ es').
Proof.
  intros Hinv Hc. unfold client_datagram. set (lt := if command =? CommandUDPFixed then fixed else t). pose proof (ri_seen _ _ Hinv) as [Hn Hs].
  destruct (negb _ && _) eqn:E1; [by apply (inv_quiet r)|]. destruct (bool_decide (limiter = _)); [by apply (inv_quiet r)|].
  set (r1 := with_seen r _ _). assert (H1 : relay_inv r1 es).
  { apply (inv_silent r); [done|done| |by left]. cbn. case_bool_decide as Hin; cbn [negb andb] in *; [done|]. apply Z.leb_gt in E1.
    split; [apply NoDup_app; split; [done|]; split; [intros x Hx ->%list_elem_of_singleton; done|apply NoDup_singleton]|]. rewrite len_app. change (len [_]) with 1. lia. }
  assert (Hadd : forall a k, event_ok es (EvAdded a t) ->
    let '(r', es') := match allowed_Add a (re_allowed r1) with
      | (true, _, allowed) => (with_allowed r1 allowed (Adding a payload), [EvAdded a t])
      | (false, _, _) => (with_client r1 k Reading, [EvNotified UDPErrorRateLimited (bytes_of "target limit reached")])
      end in relay_inv r' (es ++ es')).
  { intros a k He. destruct (allowed_Add a (re_allowed r1)) as [[[] fresh] allowed] eqn:Ea; [by eapply inv_added|by apply (inv_quiet r1)]. }
  destruct (Z.eqb_spec command CommandUDPAssociate) as [Ec|Ec].
  - destruct (resolveUDPAddress t resolver) as [a|e] eqn:Er.
    + apply Hadd. cbn. rewrite Ec. by destruct (resolved_ok _ _ _ Er) as (? & ? & _).
    + destruct (errors_is _ _); by apply (inv_quiet r1).
  - destruct (Z.eqb_spec command CommandUDPFixed) as [Ef|]; [|by destruct Hcommand]. apply Hadd. cbn. by rewrite Ef.
Qed.

Lemma target_datagram_inv r es payload source write : relay_inv r es -> let '(r', es') := target_datagram r payload source write in relay_inv r' (es ++ es').
Proof.
  intros Hinv. unfold target_datagram. pose proof (ri_seen _ _ Hinv) as Hs.
  assert (Hdrop : forall k, relay_inv (forwarding r (re_allowed r) (bump k 1 (re_stats r))) (es ++ [])) by (intros k; rewrite app_nil_r; apply (inv_silent r); try done; by left).
  destruct (Z.ltb_spec maxPayload (len payload)); [apply Hdrop|]. destruct (udpAddrPort source) as [a|]; [|apply Hdrop]. destruct (negb _); [apply Hdrop|].
  destruct (allowed_AllowReply _ _ _ _) as [ok allowed] eqn:Ea. destruct ok; cbn [negb].
  - by destruct write; eapply inv_forwarded.
  - assert (allowed = re_allowed r) as ->; [|apply Hdrop]. unfold allowed_AllowReply in Ea. destruct (_ || _); [by injection Ea|]. destruct (_ !! a); [|by injection Ea].
    destruct (replied _); [done|]. destruct (_ <? u64 _) in Ea; [by injection Ea|done].
Qed.

Lemma relay_step_inv r es o : relay_inv r es -> let '(r', es') := udp_relay_step r o in relay_inv r' (es ++ es').
Proof.
  intros Hinv. pose proof (ri_seen _ _ Hinv) as Hs. assert (Hsame : relay_inv r (es ++ [])) by (by rewrite app_nil_r).
  unfold udp_relay_step. destruct o as [read limiter resolver| |[e|]|read write].
  - destruct (re_client r) eqn:Ec; try exact Hsame. destruct read; [by apply client_datagram_inv|..]; rewrite app_nil_r; apply (inv_silent r); try done; by right.
  - destruct (re_client r) eqn:Ec; try exact Hsame. by apply inv_counted.
  - destruct (re_client r) eqn:Ec; try exact Hsame. rewrite app_nil_r. apply (inv_silent r); try done. by right.
  - destruct (re_client r) as [|a p|a p|] eqn:Ec; try exact Hsame. pose proof (ri_client _ _ Hinv) as C. rewrite Ec in C. destruct C as [[acc Hacc] C2].
    apply (inv_quiet r); try done. cbn. split; [done|]. by destruct (ri_accounts _ _ Hinv a acc Hacc).
  - assert (Hstop : forall k e, relay_inv (forwarding_stops r (re_allowed r) k e) (es ++ [])) by (intros k e; rewrite app_nil_r; apply (inv_silent r); try done; by left).
    destruct (re_client r), (re_forwarding r); try exact Hsame; destruct read; try apply Hstop; by apply target_datagram_inv.
Qed.

(** *** What the client named *)

(** A datagram that the client goroutine read, with what resolving its target
    gave then. *)
Definition datagram_of (o : relay_op) : list (list byte * target * option (list byte -> res (list Addr))) :=
  match o with OpClient (Datagram payload t) _ resolver => [(payload, t, resolver)] | _ => [] end.
Definition datagrams (ops : list relay_op) := ops ≫= datagram_of.
Definition sents (es : list relay_event) : list (AddrPort * list byte) :=
  es ≫= fun e => match e with EvSent a payload => [(a, payload)] | _ => [] end.

(** The address [a] is the one that the datagram [d] names: the fixed one, or
    an address that the host of its target stands for, with its port. *)
Definition names (d : list byte * target * option (list byte -> res (list Addr))) (a : AddrPort) : Prop :=
  let '(_, t, resolver) := d in
  if command =? CommandUDPAssociate then snd a = tPort t /\ denotes t resolver (fst a) else a = fixedAddress.

(** [p] was sent for the datagram [d]. *)
Definition sent_for (d : list byte * target * option (list byte -> res (list Addr))) (p : AddrPort * list byte) : Prop :=
  names d (fst p) /\ snd p = fst (fst d).

(** What the client goroutine holds. *)
Definition pending (r : udp_relay) : list (AddrPort * list byte) :=
  match re_client r with Adding a payload | Sending a payload => [(a, payload)] | _ => [] end.

Lemma sents_app es es' : sents (es ++ es') = sents es ++ sents es'.
Proof. unfold sents. apply bind_app. Qed.

Lemma client_datagram_named r payload t limiter resolver : re_client r = Reading ->
  let '(r', es) := client_datagram r payload t limiter resolver in
  sents es = [] /\ (pending r' = [] \/ exists a, pending r' = [(a, payload)] /\ names (payload, t, resolver) a) /\
  (forall a t', EvAdded a t' ∈ es -> t' = t /\ names (payload, t, resolver) a).
Proof.
  intros Hc. unfold client_datagram. cbv zeta.
  assert (Hno : forall n m a t', EvAdded a t' ∈ [EvNotified n m] -> t' = t /\ names (payload, t, resolver) a)
    by (intros n m a t' H; by apply list_elem_of_singleton in H).
  destruct (negb _ && _); [split; [done|split; [by left|apply Hno]]|].
  destruct (bool_decide (limiter = _)); [split; [done|split; [by left|apply Hno]]|].
  set (r1 := with_seen r _ _).
  assert (Hadd : forall a k, names (payload, t, resolver) a ->
    let '(r', es) := match allowed_Add a (re_allowed r1) with
      | (true, _, allowed) => (with_allowed r1 allowed (Adding a payload), [EvAdded a t])
      | (false, _, _) => (with_client r1 k Reading, [EvNotified UDPErrorRateLimited (bytes_of "target limit reached")])
      end in sents es = [] /\ (pending r' = [] \/ exists a, pending r' = [(a, payload)] /\ names (payload, t, resolver) a) /\
      (forall a t', EvAdded a t' ∈ es -> t' = t /\ names (payload, t, resolver) a)).
  { intros a k Ha. destruct (allowed_Add a (re_allowed r1)) as [[[] fresh] allowed].
    - split; [done|]. split; [right; by exists a|]. intros a' t' H. apply list_elem_of_singleton in H. by injection H as -> ->.
    - split; [done|]. split; [by left|apply Hno]. }
  destruct (Z.eqb_spec command CommandUDPAssociate) as [Ec|Ec].
  - destruct (resolveUDPAddress t resolver) as [a|e] eqn:Er.
    + apply Hadd. unfold names. rewrite (proj2 (Z.eqb_eq _ _) Ec). by destruct (resolved_ok _ _ _ Er) as (_ & ? & ?).
    + destruct (errors_is _ _); (split; [done|split; [by left|apply Hno]]).
  - destruct (Z.eqb_spec command CommandUDPFixed) as [Ef|]; [|by destruct Hcommand]. apply Hadd.
    unfold names. by rewrite (proj2 (Z.eqb_neq _ _) Ec).
Qed.

(** A step sends what was held; what it takes up, a datagram it read names. *)
Lemma relay_step_named r o : let '(r', es) := udp_relay_step r o in exists ds taken,
  sublist ds (datagram_of o) /\ Forall2 sent_for ds taken /\ sublist (sents es ++ pending r') (pending r ++ taken) /\
  (forall a t, EvAdded a t ∈ es -> exists payload resolver, (payload, t, resolver) ∈ datagram_of o /\ names (payload, t, resolver) a).
Proof.
  assert (Hnil : forall es, es = [] -> forall a t, EvAdded a t ∈ es -> exists payload resolver,
    (payload, t, resolver) ∈ datagram_of o /\ names (payload, t, resolver) a) by (intros es -> a t H; by apply elem_of_nil in H).
  assert (Hkeep : forall r', re_client r' = re_client r \/ pending r' = [] -> exists ds taken,
    sublist ds (datagram_of o) /\ Forall2 sent_for ds taken /\ sublist (sents [] ++ pending r') (pending r ++ taken) /\
    (forall a t, EvAdded a t ∈ [] -> exists payload resolver, (payload, t, resolver) ∈ datagram_of o /\ names (payload, t, resolver) a)).
  { intros r' H. exists [], []. split; [apply sublist_nil_l|]. split; [constructor|]. split; [|by apply Hnil]. rewrite app_nil_r.
    destruct H as [H|H]; [unfold pending; by rewrite H|rewrite H; apply sublist_nil_l]. }
  unfold udp_relay_step. destruct o as [read limiter resolver| |e|read write].
  - destruct (re_client r) eqn:Ec; try (apply Hkeep; by left).
    destruct read as [payload t|code m|e]; [|apply Hkeep; by right..].
    pose proof (client_datagram_named r payload t limiter resolver Ec) as H.
    destruct (client_datagram _ _ _ _ _) as [r' es]. destruct H as (Hs & Hp & Ha). unfold pending at 2. rewrite Ec, Hs. cbn [app].
    assert (Ha' : forall a t0, EvAdded a t0 ∈ es -> exists payload0 resolver0,
      (payload0, t0, resolver0) ∈ [(payload, t, resolver)] /\ names (payload0, t0, resolver0) a).
    { intros a t0 [-> Hn]%Ha. exists payload, resolver. split; [by left|done]. }
    cbn [datagram_of]. destruct Hp as [->|(a & -> & Hn)].
    + exists [], []. split; [apply sublist_nil_l|]. split; [constructor|]. split; [done|exact Ha'].
    + exists [(payload, t, resolver)], [(a, payload)]. split; [done|]. split; [by repeat constructor|]. split; [done|exact Ha'].
  - destruct (re_client r) as [|a p|a p|] eqn:Ec; try (apply Hkeep; by left).
    exists [], []. split; [done|]. split; [constructor|]. unfold pending. cbn. rewrite Ec. split; [done|].
    intros a' t H. by apply list_elem_of_singleton in H.
  - destruct e as [e|]; destruct (re_client r) as [|a p|a p|] eqn:Ec; try (apply Hkeep; by left).
    + apply Hkeep. by right.
    + exists [], []. split; [done|]. split; [constructor|]. unfold pending. cbn. rewrite Ec. split; [done|].
      intros a' t H. by apply list_elem_of_singleton in H.
  - assert (Hf : forall r', re_client r' = re_client r -> forall es, (es = [] \/ exists a p t, es = [EvForwarded a p t]) -> exists ds taken,
      sublist ds (datagram_of (OpTarget read write)) /\ Forall2 sent_for ds taken /\ sublist (sents es ++ pending r') (pending r ++ taken) /\
      (forall a t, EvAdded a t ∈ es -> exists payload resolver,
         (payload, t, resolver) ∈ datagram_of (OpTarget read write) /\ names (payload, t, resolver) a)).
    { intros r' H es [->|(a & p & t & ->)]; [by apply Hkeep; left|].
      exists [], []. split; [done|]. split; [constructor|]. rewrite app_nil_r. split; [unfold pending; by rewrite H|].
      intros a' t' H'. by apply list_elem_of_singleton in H'. }
    assert (Htd : forall payload source, let '(r', es) := target_datagram r payload source write in
      re_client r' = re_client r /\ (es = [] \/ exists a p t, es = [EvForwarded a p t])).
    { intros payload source. unfold target_datagram. destruct (_ <? _); [split; [done|by left]|].
      destruct (udpAddrPort source) as [a|]; [|split; [done|by left]]. destruct (negb _); [split; [done|by left]|].
      destruct (allowed_AllowReply _ _ _ _) as [[] allowed]; cbn [negb]; [|split; [done|by left]].
      destruct write; (split; [done|right; eauto]). }
    destruct (re_client r) eqn:Ec, (re_forwarding r); try (apply Hkeep; by left).
    all: destruct read as [bytes source| | |e]; try (apply Hf; [exact Ec|by left]).
    all: specialize (Htd bytes source); destruct (target_datagram _ _ _ _) as [r' es]; destruct Htd as [Hc He]; by apply Hf.
Qed.

Lemma run_named ops r : let '(r', es) := run_udp_relay r ops in exists ds taken,
  sublist ds (datagrams ops) /\ Forall2 sent_for ds taken /\ sublist (sents es ++ pending r') (pending r ++ taken) /\
  (forall a t, EvAdded a t ∈ es -> exists payload resolver, (payload, t, resolver) ∈ datagrams ops /\ names (payload, t, resolver) a).
Proof.
  revert r. induction ops as [|o ops IH]; intros r; cbn [run_udp_relay].
  - exists [], []. split; [done|]. split; [constructor|]. rewrite app_nil_r. split; [done|]. intros a t H. by apply elem_of_nil in H.
  - pose proof (relay_step_named r o) as H. destruct (udp_relay_step r o) as [r1 es1]. specialize (IH r1).
    destruct (run_udp_relay r1 ops) as [r2 es2]. destruct H as (ds1 & k1 & S1 & F1 & P1 & A1), IH as (ds2 & k2 & S2 & F2 & P2 & A2).
    exists (ds1 ++ ds2), (k1 ++ k2). change (datagrams (o :: ops)) with (datagram_of o ++ datagrams ops).
    split; [by apply sublist_app|]. split; [by apply Forall2_app|]. split.
    + rewrite sents_app, <- app_assoc. etrans; [apply sublist_app; [reflexivity|exact P2]|].
      rewrite !app_assoc. apply sublist_app; [done|reflexivity].
    + intros a t [H|H]%elem_of_app; [destruct (A1 a t H) as (p & rs & ? & ?)|destruct (A2 a t H) as (p & rs & ? & ?)];
        exists p, rs; (split; [apply elem_of_app; auto|done]).
Qed.

(** C30: whatever clients, resolvers and remote hosts do, in whatever order the
    two goroutines run: what the server sends are, in order, unaltered and each
    at most once, datagrams of the client, each to the address its datagram
    names (the literal host, or an answer of the resolver for the named host,
    with the named port; the fixed address of a fixed association) and the
    policy allows; an address enters the association only by such a datagram;
    every datagram forwarded to the client comes from such an address and fits
    the agreed size, the first answer of an address is within 1280 bytes plus
    three times what the client had sent there, and no more than 1024 targets
    or addresses are remembered. *)
Theorem relay_confined stats ops : let '(r, es) := run_udp_relay (newRelayState stats) ops in
  (exists ds taken, sublist ds (datagrams ops) /\ Forall2 sent_for ds taken /\ sublist (sents es) taken) /\
  (forall a t, EvAdded a t ∈ es -> exists payload resolver, (payload, t, resolver) ∈ datagrams ops /\ names (payload, t, resolver) a) /\
  confined es /\ Z.of_nat (size (re_allowed r)) <= maxUDPAssociationTargets /\ len (re_seen r) <= maxUDPAssociationTargets.
Proof.
  assert (Hgen : forall r es, relay_inv r es -> let '(r', es') := run_udp_relay r ops in relay_inv r' (es ++ es')).
  { induction ops as [|o ops' IH]; intros r es Hinv; cbn [run_udp_relay]; [by rewrite app_nil_r|]. pose proof (relay_step_inv r es o Hinv) as H.
    destruct (udp_relay_step r o) as [r1 es1]. specialize (IH r1 _ H). destruct (run_udp_relay r1 ops') as [r2 es2]. by rewrite app_assoc. }
  specialize (Hgen (newRelayState stats) []). pose proof (run_named ops (newRelayState stats)) as Hn.
  destruct (run_udp_relay (newRelayState stats) ops) as [r es]. cbn [app] in Hgen. destruct Hn as (ds & taken & N1 & N2 & N3 & N4).
  split; [exists ds, taken; split; [done|]; split; [done|]; etrans; [|exact N3]; by apply sublist_inserts_r|]. split; [exact N4|].
  destruct Hgen as [_ _ _ H1 [_ H2] _ H3]; [|done]. constructor; cbn; try done; [|split; [constructor|done]|constructor].
  intros a _ (p & t & H). by apply not_elem_of_nil in H.
Qed.
End Server.

(** ** The routed relay *)

(** Datagrams that go to other nodes: a stream for each target, opened by the
    cluster, or by a relay to the target itself when the cluster leaves it to
    this node.  Streams are handles of the environment. *)
Section Routed.
Variable command : Z.
Variable fixed : target.
Variable maxPayload : Z.

Record routed_relay := mkRouted {
  rd_routes : list (target * nat); rd_opened : list nat; rd_closed : list nat; rd_stats : UDPStatistics; rd_reading : bool; rd_result : option (option error)
}.
Definition newRoutedRelay (stats : UDPStatistics) : routed_relay := mkRouted [] [] [] stats true None.

Inductive routed_event :=
| RoWrote (stream : nat) (payload : list byte)
| RoReplied (t : option target) (payload : list byte)
| RoNotified (code : Z) (message : list byte).

(** What [RouteUDP] or [RouteClientUDP] answers, and [newUDPTerminalStream] when
    the cluster does not handle the target. *)
Record route_env := mkRouteEnv { re_stream : option nat; re_handled : bool; re_error : option error; re_terminal : res nat }.

Definition set_stats (r : routed_relay) (stats : UDPStatistics) : routed_relay :=
  mkRouted (rd_routes r) (rd_opened r) (rd_closed r) stats (rd_reading r) (rd_result r).
(** [report]: the first result is kept. *)
Definition report (r : routed_relay) (e : option error) : routed_relay :=
  mkRouted (rd_routes r) (rd_opened r) (rd_closed r) (rd_stats r) (rd_reading r) (match rd_result r with Some x => Some x | None => Some e end).
Definition reader_ends (r : routed_relay) (e : option error) : routed_relay :=
  let r := report r e in mkRouted (rd_routes r) (rd_opened r) (rd_closed r) (rd_stats r) false (rd_result r).

Definition route_of (r : routed_relay) (t : target) : option nat := snd <$> find (fun p => bool_decide (fst p = t)) (rd_routes r).

(** The stream for a new target, with the streams opened and closed. *)
Definition open_route (r : routed_relay) (t : target) (env : route_env) : option nat * list routed_event * routed_relay :=
  let unavailable := RoNotified UDPErrorResolution (bytes_of "route unavailable") in
  match re_error env with
  | Some e => (None, [if errors_is e ErrDestinationDenied then RoNotified UDPErrorPolicyDenied (bytes_of "destination denied") else unavailable], r)
  | None =>
      let stream := if re_handled env then re_stream env else match re_terminal env with Ok s => Some s | Err _ => None end in
      match stream with
      | None => (None, [unavailable], r)
      | Some s =>
          let opened := mkRouted (rd_routes r) (rd_opened r ++ [s]) (rd_closed r) (rd_stats r) (rd_reading r) (rd_result r) in
          match NewUDPAssociationWithDatagrams true CommandUDPFixed t maxPayload None with
          | Err _ => (None, [unavailable], mkRouted (rd_routes opened) (rd_opened opened) (rd_closed opened ++ [s]) (rd_stats opened) (rd_reading opened) (rd_result opened))
          | Ok _ => (Some s, [], mkRouted (rd_routes opened ++ [(t, s)]) (rd_opened opened) (rd_closed opened) (rd_stats opened) (rd_reading opened) (rd_result opened))
          end
      end
  end.

Definition routed_client (r : routed_relay) (read : read_result) (limiter : option bool) (env : route_env) (write : option error) : routed_relay * list routed_event :=
  match read with
  | Failed e => (reader_ends r (if errors_is e ErrEOF then None else Some e), [])
  | Remote code _ => (reader_ends r (Some (remote_error code)), [])
  | Datagram payload t =>
      let logicalTarget := if command =? CommandUDPFixed then fixed else t in
      let existing := route_of r logicalTarget in
      if bool_decide (limiter = Some false) then (set_stats r (bump rateLimitDrops 1 (rd_stats r)), [RoNotified UDPErrorRateLimited (bytes_of "rate limit reached")])
      else if bool_decide (existing = None) && (maxUDPAssociationTargets <=? len (rd_routes r)) then
        (set_stats r (bump targetLimitDrops 1 (rd_stats r)), [RoNotified UDPErrorRateLimited (bytes_of "target limit reached")])
      else
        let '(stream, es, r) := match existing with Some s => (Some s, [], r) | None => open_route r logicalTarget env end in
        match stream with
        | None => (r, es)
        | Some s =>
            match write with
            | Some e => (reader_ends r (Some e), es)
            | None => (set_stats r (bump clientBytesTotal (len payload) (bump clientDatagrams 1 (rd_stats r))), es ++ [RoWrote s payload])
            end
        end
  end.

(** A worker read [response] from the stream of a target. *)
Definition routed_reply (r : routed_relay) (t : target) (response : list byte) (write : option error) : routed_relay * list routed_event :=
  match route_of r t with
  | None => (r, [])
  | Some _ =>
      let responseTarget := if command =? CommandUDPAssociate then Some t else None in
      match write with
      | Some e => (report r (Some e), [RoReplied responseTarget response])
      | None => (set_stats r (bump targetBytes (len response) (bump targetDatagrams 1 (rd_stats r))), [RoReplied responseTarget response])
      end
  end.

(** [cleanup] closes every stream; the association of each was made on it. *)
Definition routed_cleanup (r : routed_relay) : routed_relay :=
  mkRouted (rd_routes r) (rd_opened r) (rd_closed r ++ map snd (rd_routes r)) (rd_stats r) false (rd_result r).

Inductive routed_op :=
| RoClient (read : read_result) (limiter : option bool) (env : route_env) (write : option error)
| RoReply (t : target) (response : list byte) (write : option error).

Definition routed_step (r : routed_relay) (o : routed_op) : routed_relay * list routed_event :=
  match o with
  | RoClient read limiter env write => if rd_reading r then routed_client r read limiter env write else (r, [])
  | RoReply t response write => routed_reply r t response write
  end.

Definition run_routed (stats : UDPStatistics) (ops : list routed_op) : routed_relay := foldl (fun r o => fst (routed_step r o)) (newRoutedRelay stats) ops.

Record routed_inv (r : routed_relay) : Prop := {
  ro_targets : NoDup (map fst (rd_routes r));
  ro_size : len (rd_routes r) <= maxUDPAssociationTargets;
  ro_streams : rd_opened r ≡ₚ rd_closed r ++ map snd (rd_routes r)
}.

Lemma find_none {A} (f : A -> bool) l : find f l = None -> Forall (fun x => f x = false) l.
Proof. intros H. apply Forall_forall. intros x Hx. eapply find_none; [exact H|]. by apply list_elem_of_In. Qed.

Lemma open_route_inv r t env : routed_inv r -> route_of r t = None -> len (rd_routes r) < maxUDPAssociationTargets ->
  let '(_, _, r') := open_route r t env in routed_inv r' /\ rd_reading r' = rd_reading r.
Proof.
  intros [H1 H2 H3] Hr Hl. unfold open_route. destruct (re_error env); [done|]. destruct (if re_handled env then _ else _) as [s|]; [|done].
  destruct (NewUDPAssociationWithDatagrams _ _ _ _ _); (split; [|done]); constructor; cbn [rd_routes rd_opened rd_closed]; try done.
  - rewrite map_app. cbn. apply NoDup_app. split; [done|]. split; [|apply NoDup_singleton]. intros x Hx ->%list_elem_of_singleton.
    unfold route_of in Hr. destruct (find _ _) eqn:F; [done|]. apply find_none in F. apply list_elem_of_fmap in Hx as (p & E & Hp). rewrite Forall_forall in F.
    specialize (F p Hp). cbn in F. by apply bool_decide_eq_false in F.
  - rewrite len_app. change (len [_]) with 1. lia.
  - rewrite map_app, H3. cbn. by rewrite app_assoc.
  - rewrite H3. rewrite <- !app_assoc. apply Permutation_app_head, Permutation_app_comm.
Qed.

Lemma routed_step_inv r o : routed_inv r -> routed_inv (fst (routed_step r o)).
Proof.
  intros Hinv. pose proof Hinv as [H1 H2 H3]. destruct o as [read limiter env write|t response write]; cbn [routed_step].
  - destruct (rd_reading r) eqn:Er; [|done]. unfold routed_client. destruct read as [payload t|code message|e]; [|done|done]. cbv zeta.
    destruct (bool_decide (limiter = _)); [done|]. set (lt := if command =? CommandUDPFixed then fixed else t). destruct (bool_decide (route_of r lt = None) && _) eqn:E; [done|].
    assert (Hr : let '(_, _, r') := match route_of r lt with Some s => (Some s, [], r) | None => open_route r lt env end in routed_inv r').
    { destruct (route_of r lt) eqn:F; [done|]. rewrite bool_decide_eq_true_2 in E by done. cbn [andb] in E. apply Z.leb_gt in E.
      pose proof (open_route_inv r lt env Hinv F E) as Ho. destruct (open_route r lt env) as [[? ?] ?]. by destruct Ho. }
    destruct (match route_of r lt with Some _ => _ | None => _ end) as [[stream es] r']. destruct stream as [s|]; [|exact Hr]. destruct Hr as [R1 R2 R3]. by destruct write.
  - unfold routed_reply. destruct (route_of r t); [|done]. by destruct write.
Qed.

(** Every stream that was opened is closed exactly once in the end, and there is
    one stream for a target, at most 1024. *)
Theorem routed_streams_closed stats ops : let r := run_routed stats ops in
  NoDup (map fst (rd_routes r)) /\ len (rd_routes r) <= maxUDPAssociationTargets /\ rd_closed (routed_cleanup r) ≡ₚ rd_opened (routed_cleanup r).
Proof.
  assert (H : routed_inv (run_routed stats ops)).
  { unfold run_routed. assert (H0 : routed_inv (newRoutedRelay stats)) by (constructor; [constructor|done|done]). revert H0. generalize (newRoutedRelay stats).
    induction ops as [|o ops' IH]; intros r Hr; [done|]. cbn [foldl]. apply IH. by apply routed_step_inv. }
  destruct H as [H1 H2 H3]. cbn zeta. split; [done|]. split; [done|]. unfold routed_cleanup. cbn [rd_closed rd_opened]. by rewrite H3.
Qed.
End Routed.

(** ** An execution *)

Module RelayUdpExample.
Definition public : AddrPort := (Addr4 0x08080808, 53).
Definition answer (n : nat) : relay_op := OpTarget (Packet (repeat x61 n) (Some public)) None.
Definition query : relay_op := OpClient (Datagram (repeat x62 100) (mkT (bytes_of "8.8.8.8") 53)) None None.
Definition ops : list relay_op := [answer 10; query; OpCount; OpSend None; answer 1400; answer 1300; answer 1400;
  OpClient (Datagram [x62] (mkT (bytes_of "127.0.0.1") 53)) None None; OpTarget (Packet [x61] (Some (Addr4 0x01010101, 53))) None].
Definition run : udp_relay * list relay_event := run_udp_relay (mkPolicy false) CommandUDPAssociate (AddrInvalid, 0) zeroTarget 1500 (newRelayState (Some (fun _ => 0))) ops.

(** The stranger, and a target on the host itself, get nowhere; the first answer
    is bounded, the next is not. *)
Lemma run_events : map (fun e => match e with EvForwarded _ p _ => len p | EvNotified code _ => - code | _ => 0 end) run.2 = [0; 0; 0; 1400; 1300; 1400; -2] /\
  map (stats_Snapshot (re_stats run.1)) [unexpectedSourceDrops; policyDrops; targetDatagrams] = [2; 1; 3].
Proof. vm_compute. auto. Qed.

Lemma relay_confined_witness : sents run.2 = [(public, repeat x62 100)] /\
  (exists ds taken, sublist ds (datagrams ops) /\ Forall2 (sent_for CommandUDPAssociate (AddrInvalid, 0)) ds taken /\ sublist (sents run.2) taken) /\
  confined (mkPolicy false) CommandUDPAssociate (AddrInvalid, 0) 1500 run.2.
Proof.
  split; [vm_compute; reflexivity|].
  pose proof (relay_confined (mkPolicy false) CommandUDPAssociate (AddrInvalid, 0) zeroTarget 1500 (or_intror eq_refl) ltac:(lia) (Some (fun _ => 0)) ops) as H.
  unfold run. destruct (run_udp_relay _ _ _ _ _ _ ops) as [r es]. destruct H as (H1 & _ & H2 & _). exact (conj H1 H2).
Defined.
End RelayUdpExample.
