(* ===== verification/ProxyServer.v ===== *)
(** * The proxy server (internal/proxy/proxy.go, relay.go, udp_server.go, udp_terminal.go)

    What the server does with an incoming stream: it is decoded, checked against
    what the server offers and what the credential may use, connected, and
    accepted or rejected.  A handler returns the actions it takes, in order, and
    its error; calls into other components, sockets and the environment answer
    what the record [proxy_env] says.  Streams and connections are handles. *)
From stdpp Require Import prelude list.
From S2P Require Import Prelude Text Netip Cluster ContinuityWire Target Socks UdpRecord UdpAssociation UdpRelay.

Definition ReplyNetworkUnreachable : Z := 3.
Definition ReplyHostUnreachable : Z := 4.
Definition ReplyConnectionRefused : Z := 5.
Definition MaxCatalogPayload : Z := Z.shiftl 256 10.
Definition MaxClusterStatePayload : Z := Z.shiftl 4 20.
Definition MaxGeoDataPayload : Z := Z.shiftl 16 10.
Definition defaultMaxConnections : Z := 128.

(** ** Actions *)

(** What is taken from a limited supply and given back. *)
Inductive supply := TcpSlot | UdpSlot | UdpSemaphore.
#[global] Instance supply_eq_dec : EqDecision supply.
Proof. solve_decision. Defined.

Inductive action :=
| Rejected (code : Z) | Accepted | AcceptFailed
| Acquired (s : supply) | Released (s : supply)
| DialedTo (a : Addr) (port : Z)
| Opened (h : nat)
| ClosedHandle (h : nat)
| RelayedStream (h : nat)
| AdmittedFlow (h : nat) (release : bool) | Resumed
| UdpRelayed (h : option nat) (endpoint : bool) (maximum : Z)
| WroteBytes (payload : list byte) | ClosedWrite | ClosedStream
| Panicked.

(** Actions so far, and a result. *)
Definition act (A : Type) : Type := list action * A.
#[global] Instance act_ret : MRet act := fun A a => ([], a).
#[global] Instance act_bind : MBind act := fun A B f m => let '(b, r) := f (snd m) in (fst m ++ b, r).
Definition emit (a : action) : act unit := ([a], tt).

(** [_ = incoming.Reject(code); return err]. *)
Definition reject_with (code : Z) (e : error) : act (option error) := emit (Rejected code);; mret (Some e).

(** ** The environment *)

Record proxy_env := mkEnv {
  pe_policy : DestinationPolicy; pe_resolver : option (list byte -> res (list Addr));
  pe_CredentialID : list byte;
  pe_limiter : option bool; pe_limiterUDP : bool; pe_semaphore : bool;  (* a limiter and what it answers; a free place *)
  pe_dial : Addr -> Z -> res nat; pe_dialDone : Addr -> bool;           (* [DialContext]; its context is over after this attempt *)
  pe_refused : error -> bool; pe_unreachable : error -> bool;           (* ECONNREFUSED, ENETUNREACH *)
  pe_accept : option error;
  pe_endpoint : option (res Z);                                         (* [Datagrams] enabled: [OpenEndpoint], with its [MaxPayload] *)
  pe_writes : list (Z * option error); pe_closeWrite : option error;
  pe_relay : option error;                                              (* the result of a relay *)
  pe_routeTCP : option (target -> option nat * bool * option error);
  pe_routeClientTCP : option (target -> ClientRouteRequest -> option nat * bool * option error);
  pe_routesUDP : bool; pe_routesClientUDP : bool;
  pe_catalog : option (res (list byte)); pe_catalogRelay : option (list byte -> res (list byte));
  pe_credentialSync : option (CredentialSyncRequest -> option error);
  pe_clusterState : option (res (list byte)); pe_geoData : option (GeoDataRequest -> res (list byte));
  pe_clusterRelay : option (RelayRequest -> res nat);
  pe_MaxUDPPayload : Z; pe_AuthorizeUDP : option (Z * bool); pe_listen : res nat;
  pe_continuity : option (list byte * list byte);                       (* the constellation and the lease key of the session *)
  pe_admit : option error; pe_resume : option error
}.

Section Handlers.
Variable env : proxy_env.

(** ** Writing a payload *)

(** [writeCatalogBytes]: the outcomes of [Write] are listed; after those the
    stream takes everything. *)
Fixpoint writeCatalogBytes (writes : list (Z * option error)) (payload : list byte) : list byte * option error * list (Z * option error) :=
  match payload with
  | [] => ([], None, writes)
  | _ =>
      match writes with
      | [] => (payload, None, [])
      | (written, Some e) :: writes => (take (Z.to_nat written) payload, Some e, writes)
      | (written, None) :: writes =>
          if (written <=? 0) || (len payload <? written) then (take (Z.to_nat written) payload, Some (Sentinel ErrUnexpectedEOF), writes)
          else let '(more, e, writes) := writeCatalogBytes writes (drop (Z.to_nat written) payload) in (take (Z.to_nat written) payload ++ more, e, writes)
      end
  end.

Definition writeBoundedPayload (payload : list byte) : act (option error) :=
  let '(bytes, e, writes) := writeCatalogBytes (pe_writes env) (be_encode 4 (len payload)) in
  emit (WroteBytes bytes);;
  match e with
  | Some e => mret (Some e)
  | None =>
      let '(bytes, e, _) := writeCatalogBytes writes payload in
      emit (WroteBytes bytes);;
      match e with Some e => mret (Some e) | None => emit ClosedWrite;; mret (pe_closeWrite env) end
  end.

(** [incoming.Accept], and the continuation with the stream, which is closed at
    the end. *)
Definition accept (k : act (option error)) : act (option error) :=
  match pe_accept env with
  | Some e => emit AcceptFailed;; mret (Some e)
  | None => emit Accepted;; k
  end.
Definition closing_stream (k : act (option error)) : act (option error) := e ← k; emit ClosedStream;; mret e.

(** ** Payload handlers *)

(** A payload of the control plane goes out if it is there and within [maximum];
    a refusal reports the error of the handler, or [ErrInvalidConfig]. *)
Definition serve_payload (maximum : Z) (payload : res (list byte)) (report : error -> error) : act (option error) :=
  match payload with
  | Err e => reject_with ReplyNotAllowed (report e)
  | Ok payload =>
      if (len payload =? 0) || (maximum <? len payload) then reject_with ReplyNotAllowed ErrProxyConfig
      else accept (closing_stream (writeBoundedPayload payload))
  end.

Definition no_credential : bool := bool_decide (pe_CredentialID env = []).

Definition handleGeoDataIncoming (request : option GeoDataRequest) : act (option error) :=
  match pe_geoData env, request with
  | Some handler, Some request => if no_credential then reject_with ReplyNotAllowed ErrProxyConfig else serve_payload MaxGeoDataPayload (handler request) id
  | _, _ => reject_with ReplyNotAllowed ErrProxyConfig
  end.

Definition handleClusterStateIncoming : act (option error) :=
  match pe_clusterState env with
  | Some payload => if no_credential then reject_with ReplyNotAllowed ErrProxyConfig else serve_payload MaxClusterStatePayload payload id
  | None => reject_with ReplyNotAllowed ErrProxyConfig
  end.

Definition handleCatalogIncoming : act (option error) :=
  match pe_catalog env with
  | Some payload => if no_credential then reject_with ReplyNotAllowed ErrProxyConfig else serve_payload MaxCatalogPayload payload id
  | None => reject_with ReplyNotAllowed ErrProxyConfig
  end.

Definition handleCatalogRelayIncoming (userID : list byte) : act (option error) :=
  match pe_catalogRelay env with
  | Some handler =>
      if no_credential || bool_decide (userID = []) then reject_with ReplyNotAllowed ErrProxyConfig
      else serve_payload MaxCatalogPayload (handler userID) (fun _ => Sentinel ErrProxyConfig)
  | None => reject_with ReplyNotAllowed ErrProxyConfig
  end.

Definition handleCredentialSyncIncoming (request : option CredentialSyncRequest) : act (option error) :=
  match pe_credentialSync env, request with
  | Some handler, Some request =>
      if no_credential then reject_with ReplyNotAllowed ErrProxyConfig
      else match handler request with
           | Some e => reject_with ReplyNotAllowed e
           | None =>
               accept (closing_stream (
                 let '(n, e) := match pe_writes env with [] => (1, None) | w :: _ => w end in
                 emit (WroteBytes (take (Z.to_nat n) [x01]));;
                 match e with Some e => mret (Some e) | None => emit ClosedWrite;; mret (pe_closeWrite env) end))
           end
  | _, _ => reject_with ReplyNotAllowed ErrProxyConfig
  end.

(** ** Relays *)

(** A relay owns its target and closes it: [relayDuplex], [relayTarget]. *)
Definition relay_to (h : nat) : act (option error) := emit (RelayedStream h);; mret (pe_relay env).

(** [incoming.Accept] with a peer that is closed when it fails. *)
Definition accept_or_close (h : nat) (k : act (option error)) : act (option error) :=
  match pe_accept env with
  | Some e => emit AcceptFailed;; emit (ClosedHandle h);; mret (Some e)
  | None => emit Accepted;; k
  end.

Definition handleClusterRelayIncoming (request : option RelayRequest) : act (option error) :=
  match pe_clusterRelay env, request with
  | Some handler, Some request =>
      if no_credential then reject_with ReplyNotAllowed ErrProxyConfig
      else match handler request with
           | Err e => reject_with ReplyNotAllowed e
           | Ok peer => emit (Opened peer);; accept_or_close peer (relay_to peer)
           end
  | _, _ => reject_with ReplyNotAllowed ErrProxyConfig
  end.

Definition routeTCP (t : target) (clientRoute : option ClientRouteRequest) : option nat * bool * option error :=
  match clientRoute with
  | Some route => match pe_routeClientTCP env with None => (None, true, Some (Sentinel ErrProxyConfig)) | Some handler => handler t route end
  | None => match pe_routeTCP env with Some handler => handler t | None => (None, false, None) end
  end.

(** The addresses in turn, until one answers or the time is over. *)
Fixpoint dialResolved (port : Z) (addresses : list Addr) (lastError : option error) : act (res nat) :=
  match addresses with
  | [] => mret (Err (default (Sentinel ErrResolution) lastError))
  | address :: addresses =>
      emit (DialedTo address port);;
      match pe_dial env address port with
      | Ok connection => emit (Opened connection);; mret (Ok connection)
      | Err e => if pe_dialDone env address then mret (Err e) else dialResolved port addresses (Some e)
      end
  end.

Definition dialReplyCode (e : error) : Z :=
  if pe_refused env e then ReplyConnectionRefused else if pe_unreachable env e then ReplyNetworkUnreachable else ReplyHostUnreachable.

Definition denied_code (e : error) : Z := if errors_is e ErrDestinationDenied then ReplyNotAllowed else ReplyHostUnreachable.

(** The target itself is dialed. *)
Definition connect_target (t : target) (give_back : act unit) (k : nat -> act (option error)) : act (option error) :=
  match Resolve (pe_policy env) t (pe_resolver env) with
  | Err e => give_back;; reject_with (denied_code e) e
  | Ok addresses =>
      connection ← dialResolved (tPort t) addresses None;
      match connection with
      | Err e => give_back;; reject_with (dialReplyCode e) e
      | Ok connection => k connection
      end
  end.

Definition tcp_body (t : target) (clientRoute : option ClientRouteRequest) : act (option error) :=
  let '(peer, handled, e) := routeTCP t clientRoute in
  if handled then
    match e, peer with
    | Some e, _ => reject_with ReplyNotAllowed e
    | None, None => reject_with ReplyNotAllowed ErrProxyConfig
    | None, Some peer => emit (Opened peer);; accept_or_close peer (relay_to peer)
    end
  else match e with
       | Some e => reject_with ReplyNotAllowed e
       | None => connect_target t (mret tt) (fun connection => accept_or_close connection (relay_to connection))
       end.

Definition handleTCPIncoming (t : target) (clientRoute : option ClientRouteRequest) : act (option error) :=
  match pe_limiter env with
  | Some false => reject_with ReplyNotAllowed ErrResourceLimit
  | Some true => emit (Acquired TcpSlot);; e ← tcp_body t clientRoute; emit (Released TcpSlot);; mret e
  | None => tcp_body t clientRoute
  end.

(** ** UDP *)

Definition udp_accept (h : option nat) (command : Z) (t : target) (maximum : Z) : act (option error) :=
  let close := match h with Some h => emit (ClosedHandle h) | None => mret tt end in
  let accepted (endpoint : option Z) :=
    match pe_accept env with
    | Some e => emit AcceptFailed;; close;; mret (Some e)
    | None =>
        emit Accepted;;
        match NewUDPAssociationWithDatagrams true command t maximum endpoint with
        | Err e => close;; emit ClosedStream;; mret (Some e)
        | Ok _ => emit (UdpRelayed h (negb (none endpoint)) maximum);; mret (pe_relay env)
        end
    end in
  match pe_endpoint env with
  | Some (Err e) => close;; mret (Some e)     (* [AcceptWithDatagrams] returns before it claims the stream *)
  | Some (Ok payload) => accepted (Some payload)
  | None => accepted None
  end.

Definition udp_body (request : OpenRequest) : act (option error) :=
  match udpPayloadLimit (pe_MaxUDPPayload env) (pe_AuthorizeUDP env) with
  | None => reject_with ReplyCommandNotSupported ErrProxyConfig
  | Some maximum =>
      if negb (none (ClientRoute request)) && negb (pe_routesClientUDP env) then reject_with ReplyNotAllowed ErrProxyConfig
      else
        let routed := pe_routesUDP env || negb (none (ClientRoute request)) in
        let resolved := if (Command request =? CommandUDPFixed) && negb routed then resolveUDPAddress (pe_policy env) (oTarget request) (pe_resolver env) else Ok (AddrInvalid, 0) in
        match resolved with
        | Err e => reject_with (denied_code e) e
        | Ok _ =>
            if routed then udp_accept None (Command request) (oTarget request) maximum
            else match pe_listen env with
                 | Err e => reject_with ReplyGeneralFailure e
                 | Ok h => emit (Opened h);; udp_accept (Some h) (Command request) (oTarget request) maximum
                 end
        end
  end.

Definition handleUDPIncoming (request : OpenRequest) : act (option error) :=
  if negb (pe_semaphore env) then reject_with ReplyGeneralFailure ErrUDPAssociationLimit
  else
    emit (Acquired UdpSemaphore);;
    e ← match pe_limiter env with
        | None => udp_body request
        | Some _ =>
            if negb (pe_limiterUDP env) then reject_with ReplyGeneralFailure ErrUDPAssociationLimit
            else emit (Acquired UdpSlot);; e ← udp_body request; emit (Released UdpSlot);; mret e
        end;
    emit (Released UdpSemaphore);; mret e.

(** ** Continuity *)

Section Requests.
Context (parse_relay : list byte -> option RelayRequest) (parse_sync : list byte -> option CredentialSyncRequest).
Context (parse_geo : list byte -> option GeoDataRequest) (parse_route : list byte -> option ClientRouteRequest).
Let Decode := DecodeOpenRequest parse_relay parse_sync parse_geo parse_route.

(** [AdmitNew] takes over the connection and the release of the slot. *)
Definition admit_new (h : nat) (acquired : bool) : act (option error) := emit (AdmittedFlow h acquired);; mret (pe_admit env).

Definition continuity_new (request : OpenRequest) : act (option error) :=
  match pe_limiter env with
  | Some false => reject_with ReplyNotAllowed ErrResourceLimit
  | limiter =>
      let acquired := match limiter with Some _ => true | None => false end in
      let release := if acquired then emit (Released TcpSlot) else mret tt in
      (if acquired then emit (Acquired TcpSlot) else mret tt);;
      let finish connection :=
        match pe_accept env with
        | Some e => emit AcceptFailed;; release;; emit (ClosedHandle connection);; mret (Some e)
        | None => emit Accepted;; admit_new connection acquired
        end in
      (* a route that is neither there nor refused: [AdmitNew] undoes everything *)
      let missing :=
        match pe_accept env with
        | Some e => emit AcceptFailed;; release;; emit Panicked;; mret (Some e)
        | None => emit Accepted;; emit ClosedStream;; release;; mret (Some (Sentinel ErrContinuityLeaseBinding))
        end in
      let '(peer, handled, e) := routeTCP (oTarget request) (ClientRoute request) in
      match e with
      | Some e => release;; reject_with ReplyNotAllowed e
      | None =>
          if handled then match peer with Some peer => emit (Opened peer);; finish peer | None => missing end
          else connect_target (oTarget request) release finish
      end
  end.

Definition handleContinuityIncoming (raw : list byte) : act (option error) :=
  match ParseContinuityOpenMetadata raw with
  | Err e => reject_with ReplyNotAllowed e
  | Ok metadata =>
      match pe_continuity env with
      | None => reject_with ReplyNotAllowed ErrContinuityLeaseBinding
      | Some (constellation, lease) =>
          if negb (bool_decide (om_constellation metadata = constellation)) || negb (bool_decide (om_lease metadata = lease))
          then reject_with ReplyNotAllowed ErrContinuityLeaseBinding
          else if om_mode metadata =? ContinuityOpenResume then accept (emit Resumed;; mret (pe_resume env))
          else match Decode (om_inner metadata) with
               | Err e => reject_with ReplyCommandNotSupported e
               | Ok request =>
                   if negb (Command request =? CommandTCPConnect) && negb (Command request =? CommandTCPClientRoute)
                   then reject_with ReplyCommandNotSupported ErrInvalidTarget
                   else continuity_new request
               end
      end
  end.

(** ** Every incoming stream *)

Definition handleIncoming (metadata : list byte) : act (option error) :=
  if IsContinuityOpenMetadata metadata then handleContinuityIncoming metadata
  else match Decode metadata with
       | Err e => reject_with ReplyAddressNotSupported e
       | Ok request =>
           let c := Command request in
           if c =? CommandTCPConnect then handleTCPIncoming (oTarget request) None
           else if c =? CommandTCPClientRoute then handleTCPIncoming (oTarget request) (ClientRoute request)
           else if (c =? CommandUDPFixed) || (c =? CommandUDPAssociate) then handleUDPIncoming request
           else if c =? CommandUDPClientRoute then
             handleUDPIncoming (mkOpen CommandUDPFixed (oTarget request) (Relay request) (CatalogUserID request) (CredentialSync request) (GeoData request) (ClientRoute request))
           else if c =? CommandClusterCatalog then handleCatalogIncoming
           else if c =? CommandClusterRelay then handleClusterRelayIncoming (Relay request)
           else if c =? CommandClusterCatalogRelay then handleCatalogRelayIncoming (CatalogUserID request)
           else if c =? CommandClusterCredentialSync then handleCredentialSyncIncoming (CredentialSync request)
           else if c =? CommandClusterState then handleClusterStateIncoming
           else if c =? CommandClusterGeoData then handleGeoDataIncoming (GeoData request)
           else reject_with ReplyCommandNotSupported ErrInvalidTarget
       end.
End Requests.
End Handlers.

(** ** Every incoming stream is settled *)

Definition answer (a : action) : Z := match a with Rejected _ | Accepted | AcceptFailed => 1 | _ => 0 end.
Definition answers (es : list action) : Z := foldr (fun a n => answer a + n) 0 es.
Definition slot (s : supply) (a : action) : Z :=
  match a with
  | Acquired s' => if bool_decide (s = s') then 1 else 0
  | Released s' => if bool_decide (s = s') then -1 else 0
  | AdmittedFlow _ release => if release && bool_decide (s = TcpSlot) then -1 else 0
  | _ => 0
  end.
(** What is held after the actions; an admitted flow has taken over its slot. *)
Definition slots (s : supply) (es : list action) : Z := foldr (fun a n => slot s a + n) 0 es.
Definition opened (es : list action) : list nat := omap (fun a => match a with Opened h => Some h | _ => None end) es.
(** The connections closed, or given to a relay or a flow, which close them. *)
Definition ended (es : list action) : list nat :=
  omap (fun a => match a with ClosedHandle h | RelayedStream h | AdmittedFlow h _ | UdpRelayed (Some h) _ _ => Some h | _ => None end) es.

Lemma answers_app es es' : answers (es ++ es') = answers es + answers es'.
Proof. induction es as [|a es IH]; [done|]. cbn [app answers foldr]. fold (answers es) (answers (es ++ es')). lia. Qed.
Lemma slots_app s es es' : slots s (es ++ es') = slots s es + slots s es'.
Proof. induction es as [|a es IH]; [done|]. cbn [app slots foldr]. fold (slots s es) (slots s (es ++ es')). lia. Qed.

Section Settled.
Variable env : proxy_env.

Definition dial_ok (a : action) : Prop := match a with DialedTo address _ => Allows (pe_policy env) address = true | _ => True end.

(** A part of a handler, in possession of [held] slots and the connections
    [owned], that gives all of them back after [n] answers. *)
Record settles (n : Z) (held : supply -> Z) (owned : list nat) (m : act (option error)) : Prop := {
  st_answers : answers m.1 = n \/ n = 1 /\ answers m.1 = 0 /\ exists e, pe_endpoint env = Some (Err e) /\ m.2 = Some e;
  st_slots : forall s, held s + slots s m.1 = 0;
  st_handles : owned ++ opened m.1 ≡ₚ ended m.1;
  st_accepted : m.2 = None -> n = 0 \/ Accepted ∈ m.1;
  st_dials : Forall dial_ok m.1
}.

Definition nothing : supply -> Z := fun _ => 0.
Definition with_slot (s : supply) (held : supply -> Z) : supply -> Z := fun s' => if bool_decide (s' = s) then held s' + 1 else held s'.

(** One action in front. *)
Lemma settles_cons n held owned n' held' owned' a k :
  n = answer a + n' -> (forall s, held s + slot s a = held' s) -> owned ++ opened [a] ≡ₚ owned' ++ ended [a] ->
  (answer a = 0 \/ n' = 0 /\ (a = Accepted \/ k.2 <> None)) -> dial_ok a -> settles n' held' owned' k -> settles n held owned (emit a;; k).
Proof.
  intros Hn Hs Ho Ha Hd [K1 K2 K3 K4 K5]. destruct k as [es e]. unfold emit, mbind, act_bind in *. cbn [fst snd app] in *. constructor; cbn [fst snd].
  - cbn [answers foldr]. fold (answers es). destruct K1 as [K1|(-> & K1 & ee & He)]; [left; lia|]. destruct Ha as [Ha|[? _]]; [|lia]. right. split; [lia|]. split; [lia|]. by exists ee.
  - intros s. cbn [slots foldr]. fold (slots s es). specialize (Hs s). specialize (K2 s). lia.
  - change (opened (a :: es)) with (opened ([a] ++ es)). change (ended (a :: es)) with (ended ([a] ++ es)). unfold opened, ended in *. rewrite !omap_app.
    rewrite app_assoc, Ho, <- app_assoc, (Permutation_app_comm owned'), <- app_assoc, (Permutation_app_comm _ owned'), K3. done.
  - intros E. destruct Ha as [Ha|[-> [->|Hk]]]; [|right; by left|done]. destruct (K4 E) as [->|Hin]; [left; lia|right; by right].
  - by constructor.
Qed.

Lemma settles_ret n e : n = 0 \/ e <> None -> n = 0 -> settles n nothing [] (mret e).
Proof. intros H ->. constructor; cbn; auto. Qed.

Lemma settles_reject held code e : (forall s, held s = 0) -> settles 1 held [] (reject_with code e).
Proof. intros Hh. eapply (settles_cons 1 held [] 0 held []); try done; [intros s; cbn; lia|right; split; [done|by right]|]. constructor; cbn; auto. intros s. rewrite Hh. done. Qed.

(** One action at the end, as of a deferred call. *)
Lemma settles_snoc n held owned held' a m : settles n held' owned m -> answer a = 0 -> (forall s, held s + slot s a = held' s) -> opened [a] = [] -> ended [a] = [] -> dial_ok a ->
  settles n held owned (e ← m; emit a;; mret e).
Proof.
  intros [K1 K2 K3 K4 K5] Ha Hs Ho He Hd. destruct m as [es e]. unfold mbind, act_bind, emit, mret, act_ret in *. cbn [fst snd app] in *. constructor; cbn [fst snd].
  - rewrite answers_app. replace (answers [a]) with 0 by (cbn; lia). destruct K1 as [K1|(-> & K1 & ee & H)]; [left; lia|]. right. split; [done|]. split; [lia|]. by exists ee.
  - intros s. rewrite slots_app. replace (slots s [a]) with (slot s a) by (cbn; lia). specialize (Hs s). specialize (K2 s). lia.
  - unfold opened, ended in *. by rewrite !omap_app, Ho, He, !app_nil_r.
  - intros E. destruct (K4 E) as [->|Hin]; [by left|right]. apply elem_of_app. by left.
  - apply Forall_app. split; [done|]. by repeat constructor.
Qed.

(** Actions without an answer, a slot or a connection, in front of the rest. *)
Lemma settles_plain n held owned a k : answer a = 0 -> (forall s, slot s a = 0) -> opened [a] = [] -> ended [a] = [] -> dial_ok a -> settles n held owned k -> settles n held owned (emit a;; k).
Proof. intros Ha Hs Ho He Hd Hk. eapply settles_cons; try exact Hk; try done; [lia|intros s; rewrite Hs; lia|by rewrite Ho, He|by left]. Qed.

Lemma settles_done e : settles 0 nothing [] (mret e).
Proof. constructor; cbn; auto. Qed.

Lemma settles_end held e : (forall s, held s = 0) -> settles 0 held [] (mret e).
Proof. intros Hh. constructor; cbn; auto. intros s. rewrite Hh. done. Qed.

Lemma settles_failed held owned k : settles 0 held owned k -> k.2 <> None -> settles 1 held owned (emit AcceptFailed;; k).
Proof. intros Hk He. eapply (settles_cons 1 held owned 0 held owned); try done; [intros s; cbn; lia|right; split; [done|by right]]. Qed.

Lemma settles_accepted held owned k : settles 0 held owned k -> settles 1 held owned (emit Accepted;; k).
Proof. intros Hk. eapply (settles_cons 1 held owned 0 held owned); try done; [intros s; cbn; lia|right; split; [done|by left]]. Qed.

(** The connection [h] is closed, or passed on. *)
Lemma settles_gone n held h a k : answer a = 0 -> (forall s, slot s a = 0) -> opened [a] = [] -> ended [a] = [h] -> dial_ok a -> settles n held [] k -> settles n held [h] (emit a;; k).
Proof. intros Ha Hs Ho He Hd Hk. eapply (settles_cons n held [h] n held []); try done; [lia|intros s; rewrite Hs; lia|by rewrite Ho, He|by left]. Qed.

Lemma settles_accept held k : settles 0 held [] k -> (forall s, held s = 0) -> settles 1 held [] (accept env k).
Proof.
  intros Hk Hh. unfold accept. destruct (pe_accept env) as [e|]; [|by apply settles_accepted]. apply settles_failed; [|done]. by apply settles_end.
Qed.

Lemma settles_accept_or_close held h k : settles 0 held [h] k -> (forall s, held s = 0) -> settles 1 held [h] (accept_or_close env h k).
Proof.
  intros Hk Hh. unfold accept_or_close. destruct (pe_accept env) as [e|]; [|by apply settles_accepted].
  apply settles_failed; [|done]. apply settles_gone; try done. by apply settles_end.
Qed.

Lemma settles_relay held h : (forall s, held s = 0) -> settles 0 held [h] (relay_to env h).
Proof. intros Hh. apply settles_gone; try done. by apply settles_end. Qed.

Lemma settles_opened held h owned n k : settles n held (owned ++ [h]) k -> settles n held owned (emit (Opened h);; k).
Proof. intros Hk. eapply settles_cons; try exact Hk; try done; [intros s; cbn; lia|cbn; by rewrite app_nil_r|by left]. Qed.

Lemma settles_write payload : settles 0 nothing [] (writeBoundedPayload env payload).
Proof.
  unfold writeBoundedPayload. destruct (writeCatalogBytes _ _) as [[bytes e] writes]. apply settles_plain; try done. destruct e; [apply settles_done|].
  destruct (writeCatalogBytes _ _) as [[bytes' e] writes']. apply settles_plain; try done. destruct e; [apply settles_done|]. apply settles_plain; try done. apply settles_done.
Qed.

Lemma settles_payload maximum payload report : settles 1 nothing [] (serve_payload env maximum payload report).
Proof.
  unfold serve_payload. destruct payload as [payload|e]; [|by apply settles_reject]. destruct (_ || _); [by apply settles_reject|].
  apply settles_accept; [|done]. by eapply settles_snoc; [apply settles_write|..].
Qed.

(** The supplied [give_back] returns what is held. *)
Definition returns (held : supply -> Z) (m : act unit) : Prop := forall n k, settles n nothing [] k -> settles n held [] (m;; k).

Lemma mbind_assoc {A B C} (m : act A) (f : A -> act B) (g : B -> act C) : ((m ≫= f) ≫= g) = (m ≫= fun a => f a ≫= g).
Proof. destruct m as [es a]. unfold mbind, act_bind. cbn. destruct (f a) as [es' b]. cbn. destruct (g b). cbn. by rewrite app_assoc. Qed.

Lemma mret_bind {A B} (a : A) (f : A -> act B) : (mret a ≫= f) = f a.
Proof. unfold mbind, act_bind, mret, act_ret. cbn. by destruct (f a). Qed.

Lemma settles_dial held port addresses last (k : res nat -> act (option error)) : Forall (fun a => Allows (pe_policy env) a = true) addresses ->
  (forall e, settles 1 held [] (k (Err e))) -> (forall h, settles 1 held [h] (k (Ok h))) -> settles 1 held [] (connection ← dialResolved env port addresses last; k connection).
Proof.
  intros Ha Herr Hok. revert last. induction Ha as [|a addresses H _ IH]; intros last; cbn [dialResolved].
  - rewrite mret_bind. apply Herr.
  - rewrite mbind_assoc. apply settles_plain; try done. destruct (pe_dial env a port) as [h|e].
    + rewrite mbind_assoc. apply settles_opened. rewrite mret_bind. apply Hok.
    + destruct (pe_dialDone env a); [rewrite mret_bind; apply Herr|apply IH].
Qed.

Lemma settles_connect t held give_back k : returns held give_back -> (forall h, settles 1 held [h] (k h)) -> settles 1 held [] (connect_target env t give_back k).
Proof.
  intros Hg Hk. unfold connect_target. destruct (Resolve _ _ _) as [addresses|e] eqn:E; [|by apply Hg, settles_reject].
  apply settles_dial; [eapply Forall_impl; [by eapply Resolve_allows|by intros ? [? _]]| |exact Hk]. intros e. by apply Hg, settles_reject.
Qed.

Lemma settles_tcp t route : settles 1 nothing [] (tcp_body env t route).
Proof.
  unfold tcp_body. destruct (routeTCP env t route) as [[peer handled] e]. destruct handled.
  - destruct e as [e|]; [by apply settles_reject|]. destruct peer as [peer|]; [|by apply settles_reject]. apply settles_opened, settles_accept_or_close; [|done]. by apply settles_relay.
  - destruct e as [e|]; [by apply settles_reject|]. apply settles_connect; [intros n k Hk; by rewrite mret_bind|]. intros h. apply settles_accept_or_close; [|done]. by apply settles_relay.
Qed.

(** A slot is taken for the whole of [m] and given back. *)
Lemma settles_slot s n m : settles n nothing [] m -> settles n nothing [] (emit (Acquired s);; e ← m; emit (Released s);; mret e).
Proof.
  intros Hm. eapply (settles_cons n nothing [] n (fun s' => if bool_decide (s' = s) then 1 else 0) []); try done; [by left|].
  eapply settles_snoc; [exact Hm|try done..]. intros s'. cbn. unfold nothing. by case_bool_decide.
Qed.

Lemma settles_tcp_incoming t route : settles 1 nothing [] (handleTCPIncoming env t route).
Proof.
  unfold handleTCPIncoming. pose proof (settles_tcp t route). destruct (pe_limiter env) as [[]|]; [by apply settles_slot|by apply settles_reject|done].
Qed.

Lemma settles_udp_accept h command t maximum : settles 1 nothing (match h with Some h => [h] | None => [] end) (udp_accept env h command t maximum).
Proof.
  unfold udp_accept. set (owned := match h with Some h => [h] | None => [] end). set (close := match h with Some h => emit (ClosedHandle h) | None => mret tt end).
  assert (Hclose : forall n k, settles n nothing [] k -> settles n nothing owned (close;; k)).
  { intros n k Hk. unfold close, owned. destruct h as [h|]; [by apply settles_gone|by rewrite mret_bind]. }
  assert (Hfail : forall e, settles 1 nothing owned (emit AcceptFailed;; close;; mret (Some e))).
  { intros e. apply settles_failed; [apply Hclose, settles_done|]. unfold close. by destruct h. }
  assert (Hacc : forall endpoint, settles 1 nothing owned
    (emit Accepted;; match NewUDPAssociationWithDatagrams true command t maximum endpoint with
                     | Err e => close;; emit ClosedStream;; mret (Some e)
                     | Ok _ => emit (UdpRelayed h (negb (none endpoint)) maximum);; mret (pe_relay env) end)).
  { intros endpoint. apply settles_accepted.
    destruct (NewUDPAssociationWithDatagrams _ _ _ _ _); [|apply Hclose, settles_plain; try done; apply settles_done].
    unfold owned. destruct h as [h|]; [apply settles_gone|apply settles_plain]; try done; apply settles_done. }
  destruct (pe_endpoint env) as [[payload|e]|] eqn:Ep; [destruct (pe_accept env); [apply Hfail|apply Hacc]| |destruct (pe_accept env); [apply Hfail|apply Hacc]].
  unfold close, owned. destruct h as [h|]; constructor; cbn; auto; try (right; split; [done|]; split; [done|]; by exists e); try done; by repeat constructor.
Qed.

Lemma settles_udp_body request : settles 1 nothing [] (udp_body env request).
Proof.
  unfold udp_body. destruct (udpPayloadLimit _ _) as [maximum|]; [|by apply settles_reject]. destruct (negb (none _) && _); [by apply settles_reject|]. cbv zeta.
  destruct (if _ : bool then _ else Ok (AddrInvalid, 0)) as [address|e]; [|by apply settles_reject].
  destruct (_ || _); [apply (settles_udp_accept None)|]. destruct (pe_listen env) as [h|e]; [|by apply settles_reject]. apply settles_opened, (settles_udp_accept (Some h)).
Qed.

Lemma settles_udp_incoming request : settles 1 nothing [] (handleUDPIncoming env request).
Proof.
  unfold handleUDPIncoming. destruct (negb (pe_semaphore env)); [by apply settles_reject|]. apply settles_slot. pose proof (settles_udp_body request).
  destruct (pe_limiter env); [|done]. destruct (negb (pe_limiterUDP env)); [by apply settles_reject|]. by apply settles_slot.
Qed.

Lemma settles_sync request : settles 1 nothing [] (handleCredentialSyncIncoming env request).
Proof.
  unfold handleCredentialSyncIncoming. destruct (pe_credentialSync env) as [handler|]; [|by apply settles_reject]. destruct request as [request|]; [|by apply settles_reject].
  destruct (no_credential env); [by apply settles_reject|]. destruct (handler request); [by apply settles_reject|]. apply settles_accept; [|done].
  eapply settles_snoc; [|done..]. destruct (match pe_writes env with [] => _ | _ => _ end) as [n e]. apply settles_plain; try done.
  destruct e; [apply settles_done|]. apply settles_plain; try done. apply settles_done.
Qed.

Lemma settles_cluster_relay request : settles 1 nothing [] (handleClusterRelayIncoming env request).
Proof.
  unfold handleClusterRelayIncoming. destruct (pe_clusterRelay env) as [handler|]; [|by apply settles_reject]. destruct request as [request|]; [|by apply settles_reject].
  destruct (no_credential env); [by apply settles_reject|]. destruct (handler request); [|by apply settles_reject].
  apply settles_opened, settles_accept_or_close; [by apply settles_relay|done].
Qed.

Lemma settles_continuity_new request : settles 1 nothing [] (continuity_new env request).
Proof.
  assert (Hgen : forall acquired, let held := if acquired : bool then (fun s => if bool_decide (s = TcpSlot) then 1 else 0) else nothing in
    let release := if acquired then emit (Released TcpSlot) else mret tt in
    forall finish missing : _,
    (finish = fun connection => match pe_accept env with
        | Some e => emit AcceptFailed;; release;; emit (ClosedHandle connection);; mret (Some e)
        | None => emit Accepted;; admit_new env connection acquired
        end) ->
    (missing = match pe_accept env with
        | Some e => emit AcceptFailed;; release;; emit Panicked;; mret (Some e)
        | None => emit Accepted;; emit ClosedStream;; release;; mret (Some (Sentinel ErrContinuityLeaseBinding))
        end) ->
    settles 1 held [] (let '(peer, handled, e) := routeTCP env (oTarget request) (ClientRoute request) in
      match e with
      | Some e => release;; reject_with ReplyNotAllowed e
      | None => if handled then match peer with Some peer => emit (Opened peer);; finish peer | None => missing end
                else connect_target env (oTarget request) release finish
      end)).
  { intros acquired held release finish missing Hf Hm.
    assert (Hrel : forall n owned k, settles n nothing owned k -> settles n held owned (release;; k)).
    { intros n owned k Hk. unfold release, held. destruct acquired; [|by rewrite mret_bind].
      eapply (settles_cons n _ owned n nothing owned); try done; [intros s; cbn; unfold nothing; by case_bool_decide|by left]. }
    assert (Hret : returns held release) by (intros n k Hk; by apply Hrel).
    assert (Hfinish : forall h, settles 1 held [h] (finish h)).
    { intros h. rewrite Hf. destruct (pe_accept env) as [e|].
      - apply settles_failed; [|by unfold release; destruct acquired]. apply Hrel. apply settles_gone; try done. apply settles_done.
      - apply settles_accepted. unfold admit_new. eapply (settles_cons 0 held [h] 0 nothing []); try done; [|by left|apply settles_done].
        intros s. unfold held. destruct acquired; cbn; unfold nothing; by repeat case_bool_decide. }
    destruct (routeTCP env _ _) as [[peer handled] e]. destruct e as [e|]; [by apply Hrel, settles_reject|]. destruct handled.
    - destruct peer as [peer|]; [apply settles_opened, Hfinish|]. rewrite Hm. destruct (pe_accept env) as [e|].
      + apply settles_failed; [|by unfold release; destruct acquired]. apply Hrel. apply settles_plain; try done. apply settles_done.
      + apply settles_accepted. apply settles_plain; try done. apply Hrel, settles_done.
    - by apply settles_connect. }
  unfold continuity_new. destruct (pe_limiter env) as [[]|].
  - eapply (settles_cons 1 nothing [] 1 (fun s => if bool_decide (s = TcpSlot) then 1 else 0) []); try done; [by left|]. by eapply (Hgen true).
  - by apply settles_reject.
  - rewrite mret_bind. by eapply (Hgen false).
Qed.

Lemma settles_controls : settles 1 nothing [] (handleCatalogIncoming env) /\ settles 1 nothing [] (handleClusterStateIncoming env) /\
  (forall user, settles 1 nothing [] (handleCatalogRelayIncoming env user)) /\ (forall request, settles 1 nothing [] (handleGeoDataIncoming env request)).
Proof.
  unfold handleCatalogIncoming, handleClusterStateIncoming, handleCatalogRelayIncoming, handleGeoDataIncoming.
  split_and!; intros;
    repeat match goal with |- settles _ _ _ (match ?c with _ => _ end) => destruct c end; first [apply settles_payload|by apply settles_reject].
Qed.

Context (parse_relay : list byte -> option RelayRequest) (parse_sync : list byte -> option CredentialSyncRequest).
Context (parse_geo : list byte -> option GeoDataRequest) (parse_route : list byte -> option ClientRouteRequest).

Lemma settles_continuity raw : settles 1 nothing [] (handleContinuityIncoming env parse_relay parse_sync parse_geo parse_route raw).
Proof.
  unfold handleContinuityIncoming. destruct (ParseContinuityOpenMetadata raw) as [metadata|e]; [|by apply settles_reject].
  destruct (pe_continuity env) as [[constellation lease]|]; [|by apply settles_reject]. destruct (_ || _); [by apply settles_reject|].
  destruct (_ =? _); [apply settles_accept; [|done]; apply settles_plain; try done; apply settles_done|].
  destruct (DecodeOpenRequest _ _ _ _ _) as [request|e]; [|by apply settles_reject]. destruct (_ && _); [by apply settles_reject|]. apply settles_continuity_new.
Qed.

Lemma settles_incoming metadata : settles 1 nothing [] (handleIncoming env parse_relay parse_sync parse_geo parse_route metadata).
Proof.
  unfold handleIncoming. destruct (IsContinuityOpenMetadata metadata); [apply settles_continuity|]. destruct (DecodeOpenRequest _ _ _ _ _) as [request|e]; [|by apply settles_reject]. cbv zeta.
  repeat match goal with |- settles _ _ _ (if ?c then _ else _) => destruct c end;
    first [apply settles_tcp_incoming|apply settles_udp_incoming|apply settles_cluster_relay|apply settles_sync|apply settles_controls|by apply settles_reject].
Qed.

(** C31: Whatever the client asks and whatever happens: a stream that the client
    opens is accepted or rejected exactly once (unless its datagram endpoint
    cannot be opened, when it is not answered at all), success means that it was
    accepted, every slot taken from the limits is given back or handed to the
    flow that was admitted, every connection that was opened is closed or handed
    to a relay or a flow exactly once, and nothing is dialed that the destination
    policy forbids. *)
Theorem incoming_settled metadata : let '(es, e) := handleIncoming env parse_relay parse_sync parse_geo parse_route metadata in
  (answers es = 1 \/ answers es = 0 /\ exists e', pe_endpoint env = Some (Err e') /\ e = Some e') /\
  (e = None -> Accepted ∈ es) /\ (forall s, slots s es = 0) /\ opened es ≡ₚ ended es /\
  Forall (fun a => match a with DialedTo address _ => Allows (pe_policy env) address = true | _ => True end) es.
Proof.
  destruct (settles_incoming metadata) as [H1 H2 H3 H4 H5]. destruct (handleIncoming _ _ _ _ _ _) as [es e]. cbn [fst snd app] in *. split_and!; try done.
  - destruct H1 as [H1|(_ & H1 & H)]; [by left|right; done].
  - intros E. by destruct (H4 E).
Qed.
End Settled.

(** ** Examples *)

Module ProxyExample.
(** A server that serves UDP associations over datagrams. *)
Definition env (endpoint : option (res Z)) (accepts : option error) : proxy_env :=
  mkEnv (mkPolicy false) None [x61] (Some true) true true (fun _ _ => Ok 7%nat) (fun _ => true) (fun _ => false) (fun _ => false)
    accepts endpoint [] None None None None false false None None None None None None 1200 None (Ok 9%nat) None None None.
Definition serve (endpoint : option (res Z)) (accepts : option error) (metadata : list byte) : list action * option error :=
  handleIncoming (env endpoint accepts) (fun _ => None) (fun _ => None) (fun _ => None) (fun _ => None) metadata.

Definition udp_open : list byte := [z2b CommandUDPAssociate].

Example udp_served : serve (Some (Ok 1200)) None udp_open =
  ([Acquired UdpSemaphore; Acquired UdpSlot; Opened 9; Accepted; UdpRelayed (Some 9%nat) true 1200; Released UdpSlot; Released UdpSemaphore], None).
Proof. vm_compute. reflexivity. Qed.

(** When the datagram endpoint of the stream cannot be opened, the stream is
    neither accepted nor rejected: the client waits until its session ends. *)
Example unanswered_udp : serve (Some (Err (Sentinel ErrClosed))) None udp_open =
  ([Acquired UdpSemaphore; Acquired UdpSlot; Opened 9; ClosedHandle 9; Released UdpSlot; Released UdpSemaphore], Some (Sentinel ErrClosed)).
Proof. vm_compute. reflexivity. Qed.

Example public_address_dialed : exists m, EncodeTarget (mkT (map z2b [49; 46; 49; 46; 49; 46; 49]) 443) = Ok m /\
  serve None None m = ([Acquired TcpSlot; DialedTo (Addr4 16843009) 443; Opened 7; Accepted; RelayedStream 7; Released TcpSlot], None).
Proof. eexists. split; [vm_compute; reflexivity|]. vm_compute. reflexivity. Qed.
End ProxyExample.
