(* ===== verification/ProxyClient.v ===== *)
(** * The client side of the proxy, and its relays (internal/proxy/proxy.go, relay.go)

    What a client asks of a server through its multiplexer: a connection or a UDP
    association for the SOCKS server, and the payloads of the control plane,
    which come as a length and the bytes.  Then the end of a relay, and the loop
    that serves the incoming streams. *)
From stdpp Require Import prelude list.
From S2P Require Import Prelude Text Netip Cluster Target Socks UdpRecord UdpAssociation UdpRelay ProxyServer.

(** ** Payloads *)

(** [fetchBoundedPayload]: [input] is what the server sends before it ends the
    stream, or the error of [Open]. *)
Definition fetchBoundedPayload (input : res (list byte)) (maximum : Z) : res (list byte) :=
  stream ← input;
  '(header, stream) ← ReadFull 4 stream;
  let length := be_decode header in
  if (length =? 0) || (maximum <? length) then Err ErrProxyConfig
  else '(payload, _) ← ReadFull (Z.to_nat length) stream; Ok payload.

Section Fetch.
Context (json_relay : RelayRequest -> option (list byte)) (json_sync : CredentialSyncRequest -> option (list byte)).
Context (json_geo : GeoDataRequest -> option (list byte)) (json_route : ClientRouteRequest -> option (list byte)).
Let Encode := EncodeOpenRequest json_relay json_sync json_geo json_route.
(** [mux.Open] of these metadata, and what arrives on the stream. *)
Variable open_ : list byte -> res (list byte).

Definition fetch (request : OpenRequest) (maximum : Z) : res (list byte) := metadata ← Encode request; fetchBoundedPayload (open_ metadata) maximum.

Definition command_only (command : Z) : OpenRequest := mkOpen command zeroTarget None [] None None None.

Definition FetchCatalog : res (list byte) := fetch (command_only CommandClusterCatalog) MaxCatalogPayload.
Definition FetchRelayedCatalog (userID : list byte) : res (list byte) :=
  fetch (mkOpen CommandClusterCatalogRelay zeroTarget None userID None None None) MaxCatalogPayload.
Definition FetchClusterState : res (list byte) := fetch (command_only CommandClusterState) MaxClusterStatePayload.
Definition FetchGeoDataControl (request : GeoDataRequest) : res (list byte) :=
  if negb (ValidateGeoDataRequest request) then Err ErrProxyConfig
  else fetch (mkOpen CommandClusterGeoData zeroTarget None [] None (Some request) None) MaxGeoDataPayload.
End Fetch.

(** The bytes that the actions put on the stream. *)
Definition wrote (es : list action) : list byte := flat_map (fun a => match a with WroteBytes b => b | _ => [] end) es.

(** *** The loop that writes *)

Lemma write_loop writes payload bytes e rest : writeCatalogBytes writes payload = (bytes, e, rest) ->
  (exists tail, payload = bytes ++ tail) /\ (e = None -> bytes = payload).
Proof.
  revert payload bytes e rest. induction writes as [|[n w] writes IH]; intros payload bytes e rest; destruct payload as [|c payload]; cbn [writeCatalogBytes];
    try (intros [[<- <-]%pair_equal_spec _]%pair_equal_spec; split; [by exists []|done]).
  - intros [[<- <-]%pair_equal_spec _]%pair_equal_spec. split; [exists []; by rewrite app_nil_r|done].
  - destruct w as [w|].
    + intros [[<- <-]%pair_equal_spec _]%pair_equal_spec. split; [|done]. exists (drop (Z.to_nat n) (c :: payload)). by rewrite take_drop.
    + destruct (_ || _).
      * intros [[<- <-]%pair_equal_spec _]%pair_equal_spec. split; [|done]. exists (drop (Z.to_nat n) (c :: payload)). by rewrite take_drop.
      * destruct (writeCatalogBytes writes (drop (Z.to_nat n) (c :: payload))) as [[more e'] rest'] eqn:E. destruct (IH _ _ _ _ E) as [[tail Ht] Hm].
        intros [[<- <-]%pair_equal_spec _]%pair_equal_spec. split.
        -- exists tail. by rewrite <- app_assoc, <- Ht, take_drop.
        -- intros He. by rewrite (Hm He), take_drop.
Qed.

Lemma ReadFull_short n xs : (length xs < n)%nat -> exists e, ReadFull n xs = Err e.
Proof. intros H. unfold ReadFull. rewrite (proj2 (Nat.ltb_lt _ _)) by done. by eexists. Qed.

Lemma fetch_exact payload rest maximum : 0 < len payload <= maximum -> len payload < 2 ^ 32 ->
  fetchBoundedPayload (Ok (be_encode 4 (len payload) ++ payload ++ rest)) maximum = Ok payload.
Proof.
  intros Hl Hm. unfold fetchBoundedPayload. cbn [mbind res_bind]. rewrite ReadFull_app by apply length_be_encode. cbn [mbind res_bind].
  rewrite be_decode_encode, Z.mod_small by lia. rewrite (proj2 (Z.eqb_neq _ _)), (proj2 (Z.ltb_ge _ _)) by lia. cbn [orb].
  by rewrite ReadFull_app by (unfold len; lia).
Qed.

(** Anything less than the whole message is an error. *)
Lemma fetch_partial payload maximum p q : len payload < 2 ^ 32 -> be_encode 4 (len payload) ++ payload = p ++ q -> q <> [] ->
  exists e, fetchBoundedPayload (Ok p) maximum = Err e.
Proof.
  intros Hm E Hq. unfold fetchBoundedPayload. cbn [mbind res_bind]. pose proof (f_equal length E) as Hlen. rewrite !length_app, length_be_encode in Hlen.
  assert (0 < length q)%nat by (destruct q; [done|cbn; lia]).
  destruct (decide (length p < 4)%nat) as [H4|H4]; [destruct (ReadFull_short _ _ H4) as [e ->]; by exists e|].
  assert (exists p', p = be_encode 4 (len payload) ++ p' /\ payload = p' ++ q) as (p' & -> & Ep).
  { exists (drop 4 p). assert (Hp : p = be_encode 4 (len payload) ++ drop 4 p).
    { rewrite <- (take_drop 4 p) at 1. f_equal. apply (f_equal (take 4)) in E. rewrite (take_app_length' (be_encode _ _)) in E by (by rewrite length_be_encode).
      rewrite take_app_le in E by lia. done. }
    split; [done|]. rewrite Hp, <- app_assoc in E. by apply app_inv_head in E. }
  rewrite ReadFull_app by apply length_be_encode. cbn [mbind res_bind]. pose proof (len_nonneg payload). rewrite be_decode_encode, Z.mod_small by lia.
  destruct (_ || _); [by eexists|]. destruct (ReadFull_short (Z.to_nat (len payload)) p') as [e ->]; [|by exists e].
  rewrite Ep. unfold len. rewrite length_app. lia.
Qed.

(** Computes the actions of a handler whose environment is known. *)
Ltac traced := unfold emit, mbind, act_bind, mret, act_ret, wrote; cbn [fst snd app flat_map]; rewrite ?app_nil_r.

(** C32: A payload of the control plane arrives as it was sent: however the stream
    splits the writes, a handler that reports success has put the whole message
    on it and the client reads exactly the payload; when the handler stopped
    early the client gets an error, never a part. *)
Theorem payload_transferred env maximum payload report : maximum < 2 ^ 32 ->
  let '(es, e) := serve_payload env maximum (Ok payload) report in
  (e = None -> 0 < len payload <= maximum /\ fetchBoundedPayload (Ok (wrote es)) maximum = Ok payload) /\
  (forall received, fetchBoundedPayload (Ok (wrote es)) maximum = Ok received -> received = payload).
Proof.
  intros Hm. unfold serve_payload. destruct (_ || _) eqn:G; [by split|]. apply orb_false_iff in G as [G1%Z.eqb_neq G2%Z.ltb_ge]. pose proof (len_nonneg payload).
  unfold accept. destruct (pe_accept env); [by split|]. unfold closing_stream, writeBoundedPayload.
  destruct (writeCatalogBytes (pe_writes env) (be_encode 4 (len payload))) as [[b1 e1] w1] eqn:E1. destruct (write_loop _ _ _ _ _ E1) as [[t1 T1] F1].
  destruct e1 as [e1|].
  - traced. split; [done|]. intros received. destruct (decide (t1 = [])) as [->|Hne].
    + rewrite app_nil_r in T1. rewrite <- T1. destruct (fetch_partial payload maximum (be_encode 4 (len payload)) payload) as [e ->]; [lia|done| |done].
      intros ->. by cbn in G1.
    + destruct (fetch_partial payload maximum b1 (t1 ++ payload)) as [e ->]; [lia|by rewrite T1, <- app_assoc|by destruct t1|done].
  - rewrite (F1 eq_refl). destruct (writeCatalogBytes w1 payload) as [[b2 e2] w2] eqn:E2. destruct (write_loop _ _ _ _ _ E2) as [[t2 T2] F2]. destruct e2 as [e2|].
    + traced. split; [done|]. intros received. destruct (decide (t2 = [])) as [->|Hne].
      * rewrite app_nil_r in T2. rewrite <- T2. pose proof (fetch_exact payload [] maximum) as Hx. rewrite app_nil_r in Hx. rewrite Hx by lia. intros Hr. by apply Ok_inj in Hr.
      * destruct (fetch_partial payload maximum (be_encode 4 (len payload) ++ b2) t2) as [e ->]; [lia|by rewrite T2 at 2; rewrite app_assoc|done|done].
    + rewrite (F2 eq_refl). pose proof (fetch_exact payload [] maximum) as Hx. rewrite app_nil_r in Hx. traced.
      split; [intros _; split; [lia|by apply Hx; lia]|]. intros received. rewrite Hx by lia. intros Hr. by apply Ok_inj in Hr.
Qed.

(** ** The connector of the SOCKS server *)

(** [connectorReplyError], and the end of [Connect]: the codes of SOCKS pass, all
    else is a general failure.  [rejection] is the [RejectError] of a chain. *)
Fixpoint rejection (e : error) : option byte :=
  match e with
  | RejectError code => Some code
  | Join es => (fix first es := match es with [] => None | e :: es => match rejection e with Some c => Some c | None => first es end end) es
  | _ => None
  end.
Definition connectorReplyError (e : error) : Z :=
  match rejection e with
  | Some code => if (ReplyGeneralFailure <=? b2z code) && (b2z code <=? ReplyAddressNotSupported) then b2z code else ReplyGeneralFailure
  | None => ReplyGeneralFailure
  end.

(** Failures are reply codes; [mux] is missing or opens a stream. *)
Definition Connect (mux : option (list byte -> res nat)) (request : Request) : Z + nat :=
  match mux with
  | None => inl ReplyGeneralFailure
  | Some open_ =>
      match EncodeTarget (mkT (rq_Host request) (rq_Port request)) with
      | Err _ => inl ReplyAddressNotSupported
      | Ok metadata => match open_ metadata with Ok stream => inr stream | Err e => inl (connectorReplyError e) end
      end
  end.

(** [datagrams]: what [OpenEndpoint] gives, when they are enabled.  The streams
    closed on the way. *)
Definition AssociateUDP (mux : option (list byte -> res nat)) (maxPayload : Z) (datagrams : option (res Z)) : (Z + nat * UDPAssociation) * list nat :=
  match mux with
  | None => (inl ReplyCommandNotSupported, [])
  | Some open_ =>
      if (maxPayload <? 1200) || (MaxUDPDatagramPayload <? maxPayload) then (inl ReplyCommandNotSupported, [])
      else match open_ [z2b CommandUDPAssociate] with
           | Err e => (inl (connectorReplyError e), [])
           | Ok stream =>
               match datagrams with
               | Some (Err _) => (inl ReplyGeneralFailure, [stream])
               | _ =>
                   match NewUDPAssociationWithDatagrams true CommandUDPAssociate zeroTarget maxPayload (match datagrams with Some (Ok n) => Some n | _ => None end) with
                   | Err _ => (inl ReplyGeneralFailure, [stream])
                   | Ok association => (inr (stream, association), [])
                   end
               end
           end
  end.

(** [socksUDPAssociation]. *)
Definition socks_WriteDatagram (env : wenv) (payload : list byte) (t : Request) (a : UDPAssociation) : option error * UDPAssociation * output :=
  WriteDatagram env payload (Some (mkT (rq_Host t) (rq_Port t))) a.

(** The codes are codes of SOCKS replies. *)
Lemma reply_codes e : 1 <= connectorReplyError e <= 8.
Proof.
  unfold connectorReplyError, ReplyGeneralFailure, ReplyAddressNotSupported. destruct (rejection e) as [code|]; [|lia].
  destruct (Z.leb_spec 1 (b2z code)), (Z.leb_spec (b2z code) 8); cbn [andb]; lia.
Qed.

(** The server that receives what [Connect] opens dials the host that was asked. *)
Lemma connect_asks mux request stream : Connect (Some mux) request = inr stream -> exists metadata, mux metadata = Ok stream /\
  EncodeTarget (mkT (rq_Host request) (rq_Port request)) = Ok metadata.
Proof. cbn. destruct (EncodeTarget _) as [metadata|]; [|done]. destruct (mux metadata) eqn:E; [|done]. intros [= ->]. by exists metadata. Qed.

(** ** The end of a relay *)

Definition relayFailed (e : option error) : bool :=
  match e with
  | None => false
  | Some e => negb (errors_is e ErrEOF) && negb (errors_is e ErrNetClosed) && negb (errors_is e ErrCanceled) && negb (errors_is e ErrClosed) && negb (errors_is e ErrReset)
  end.

(** The two directions end one after the other; a failure of the first closes
    both ends, which makes the second end. *)
Definition relay_outcome (first second : option error) : option error := if relayFailed first then first else if relayFailed second then second else None.

(** [relayOpenTarget] may also be cancelled before. *)
Definition relayOpenTarget (first : option error + error) (second : option error) : option error :=
  relay_outcome (match first with inl e => e | inr cancelled => Some cancelled end) second.

(** ** The accept loop *)

Record server_config := mkServer {
  sc_DialTimeout : Z; sc_UDPIdleTimeout : Z; sc_MaxConnections : Z; sc_MaxUDPAssociations : Z; sc_MaxUDPPayload : Z; sc_limited : bool; sc_CredentialID : list byte;
  sc_continuity : option (bool)      (* a runtime, and whether the lease names principal, constellation, key, control and multiplexer *)
}.

(** The bounds of connections and UDP associations, unless the configuration is refused. *)
Definition serve_limits (c : server_config) : res (Z * Z) :=
  if (sc_DialTimeout c <? 0) || (sc_UDPIdleTimeout c <? 0) || (sc_MaxConnections c <? 0) || (sc_MaxUDPAssociations c <? 0)
     || (negb (sc_MaxUDPPayload c =? 0) && ((sc_MaxUDPPayload c <? 1200) || (MaxUDPDatagramPayload <? sc_MaxUDPPayload c)))
     || (sc_limited c && bool_decide (sc_CredentialID c = [])) then Err ErrProxyConfig
  else if bool_decide (sc_continuity c = Some false) then Err ErrProxyConfig
  else
    let maximum := if sc_MaxConnections c =? 0 then defaultMaxConnections else sc_MaxConnections c in
    Ok (maximum, if (sc_MaxUDPAssociations c =? 0) || (maximum <? sc_MaxUDPAssociations c) then maximum else sc_MaxUDPAssociations c).

(** The loop holds a stream while it waits for a place; a cancelled loop rejects
    it.  [sl_handled] counts the handlers that run. *)
Record serve_loop := mkLoop { sl_waiting : bool; sl_running : Z; sl_cancelled : bool; sl_returned : option (option error); sl_log : list (Z * bool) }.
Inductive serve_op := SvIncoming | SvStart | SvHandlerEnds | SvCancel | SvRejectWaiting | SvAcceptFails (e : error).

Definition serve_step (maximum : Z) (s : serve_loop) (o : serve_op) : serve_loop :=
  match sl_returned s with
  | Some _ => match o with SvHandlerEnds => if 0 <? sl_running s then mkLoop (sl_waiting s) (sl_running s - 1) (sl_cancelled s) (sl_returned s) (sl_log s) else s | _ => s end
  | None =>
      match o with
      | SvIncoming => if sl_waiting s then s else mkLoop true (sl_running s) (sl_cancelled s) None (sl_log s)
      | SvStart => if sl_waiting s && (sl_running s <? maximum) then mkLoop false (sl_running s + 1) (sl_cancelled s) None (sl_log s ++ [(sl_running s + 1, true)]) else s
      | SvHandlerEnds => if 0 <? sl_running s then mkLoop (sl_waiting s) (sl_running s - 1) (sl_cancelled s) None (sl_log s) else s
      | SvCancel => mkLoop (sl_waiting s) (sl_running s) true None (sl_log s)
      | SvRejectWaiting => if sl_waiting s && sl_cancelled s then mkLoop false (sl_running s) true (Some None) (sl_log s ++ [(sl_running s, false)]) else s
      | SvAcceptFails e => if sl_waiting s then s else mkLoop false (sl_running s) (sl_cancelled s) (Some (if sl_cancelled s then None else Some e)) (sl_log s)
      end
  end.

(** Never more handlers than the limit; every stream that arrives is handled,
    rejected or still waits for a place. *)
Lemma serve_bounded maximum ops : 0 < maximum ->
  let s := foldl (serve_step maximum) (mkLoop false 0 false None []) ops in 0 <= sl_running s <= maximum /\ Forall (fun '(n, _) => n <= maximum) (sl_log s).
Proof.
  intros Hm. cbn zeta. assert (H0 : 0 <= sl_running (mkLoop false 0 false None []) <= maximum /\ Forall (fun '(n, _) => n <= maximum) (sl_log (mkLoop false 0 false None []))) by (split; [cbn; lia|constructor]).
  revert H0. generalize (mkLoop false 0 false None []). induction ops as [|o ops IH]; intros s [Hr Hl]; [done|]. cbn [foldl]. apply IH. unfold serve_step.
  assert (Hlog : forall n b, n <= maximum -> Forall (fun '(n, _) => n <= maximum) (sl_log s ++ [(n, b)])) by (intros n b Hn; apply Forall_app; by split; [|repeat constructor]).
  destruct (sl_returned s) as [e0|], o; cbn [sl_running sl_log]; try done;
    repeat match goal with |- context [if ?c then _ else _] => destruct c eqn:? end; cbn [sl_running sl_log]; try done; guards; zb; (split; [lia|auto with lia]).
Qed.

(** ** Examples *)

Module ProxyClientExample.
(** The first write of the stream takes two bytes, the second fails when [broken]. *)
Definition env (broken : bool) : proxy_env :=
  mkEnv (mkPolicy false) None [x61] None true true (fun _ _ => Err ErrResolution) (fun _ => true) (fun _ => false) (fun _ => false)
    None None [(2, None); (2, if broken then Some (Sentinel ErrClosed) else None); (1, None)] None None None None false false
    (Some (Ok [x6e; x70; x32])) None None None None None 1200 None (Err (Sentinel ErrClosed)) None None None.

Lemma payload_transferred_witness :
  wrote (serve_payload (env false) MaxCatalogPayload (Ok [x6e; x70; x32]) id).1 = [x00; x00; x00; x03; x6e; x70; x32] /\
  fetchBoundedPayload (Ok (wrote (serve_payload (env true) MaxCatalogPayload (Ok [x6e; x70; x32]) id).1)) MaxCatalogPayload = Err (Sentinel ErrEOF) /\
  (forall received, fetchBoundedPayload (Ok (wrote (serve_payload (env false) MaxCatalogPayload (Ok [x6e; x70; x32]) id).1)) MaxCatalogPayload = Ok received -> received = [x6e; x70; x32]).
Proof.
  split; [by vm_compute|]. split; [by vm_compute|].
  pose proof (payload_transferred (env false) MaxCatalogPayload [x6e; x70; x32] id ltac:(by vm_compute)) as H. destruct (serve_payload _ _ _ _) as [es e]. apply H.
Defined.
End ProxyClientExample.
