(* ===== verification/TargetRelay.v ===== *)
(** * The relay between a stream and an open target (internal/proxy/relay.go)

    [relayOpenTarget] as its four goroutines: the two copies, the function that
    [context.AfterFunc] starts, and the caller.  They share the channel of
    results; what they see of the rest is whether the context is cancelled and
    whether the stream and the target are closed, which they may close
    themselves.  [ContinuityRuntime] puts one of these into every flow. *)
From stdpp Require Import prelude list.
From S2P Require Import Prelude ProxyClient.

(** ** Data *)

(** What the outside adds to a step: nothing, or the end of the call that the
    goroutine is in, with its error. *)
Inductive answer := Quiet | Says (e : option error).

(** A copy: under way, ended with its error, or with its result sent. *)
Inductive copy := Copying | Copied (e : option error) | Sent.

(** What the caller took first. *)
Inductive first_result := FirstOf (e : option error) | ContextEnded.
Definition first_error (f : first_result) : option error := match f with FirstOf e => e | ContextEnded => Some (Sentinel ErrCanceled) end.

Definition failed_first (f : first_result) : bool := match f with FirstOf e => relayFailed e | ContextEnded => false end.

(** Where the caller is: not yet called, in its [select], between the closes,
    before its second result, before [stop], returned. *)
Inductive caller :=
| Before | Selecting
| ClosingTarget (f : first_result) | ClosingStream (f : first_result) | Second (f : first_result)
| Stopping (f : first_result) (e : option error) | Returned (f : first_result) (e : option error).

(** The function of [AfterFunc]. *)
Inductive watch := Armed | WatchTarget | WatchStream | WatchDone | Stopped.

(** [rl_up] copies the stream to the target, [rl_down] the target to the stream. *)
Record relay := mkRelay { rl_up : copy; rl_down : copy; rl_results : list (option error); rl_caller : caller; rl_watch : watch }.

Definition idle_relay : relay := mkRelay Copying Copying [] Before Armed.

(** What the goroutines see. *)
Record view := mkView { v_cancelled : bool; v_stream : bool; v_target : bool }.

Inductive worker := Up | Down | Caller | Watcher.
Inductive closing := CloseTarget | CloseStream.

(** ** Steps *)

(** [relayOpenTarget] up to its [select]. *)
Definition start_relay (r : relay) : relay := mkRelay (rl_up r) (rl_down r) (rl_results r) Selecting (rl_watch r).

Definition with_up (r : relay) (c : copy) (results : list (option error)) : relay := mkRelay c (rl_down r) results (rl_caller r) (rl_watch r).
Definition with_down (r : relay) (c : copy) (results : list (option error)) : relay := mkRelay (rl_up r) c results (rl_caller r) (rl_watch r).
Definition with_caller (r : relay) (c : caller) (results : list (option error)) : relay := mkRelay (rl_up r) (rl_down r) results c (rl_watch r).
Definition with_watch (r : relay) (w : watch) : relay := mkRelay (rl_up r) (rl_down r) (rl_results r) (rl_caller r) w.

Definition both_closed (v : view) : bool := v_stream v && v_target v.

(** [io.Copy(target, stream)], [CloseWrite] of the target and the result.  A
    copy may end at any time with any error; when both ends are closed it does
    end.  [CloseWrite] may wait for the peer until the target is closed. *)
Definition up_step (v : view) (r : relay) (ans : answer) : option (relay * option closing) :=
  match rl_up r, ans with
  | Copying, Says e => Some (with_up r (Copied e) (rl_results r), None)
  | Copying, Quiet => if both_closed v then Some (with_up r (Copied (Some (Sentinel ErrResumableClosed))) (rl_results r), None) else None
  | Copied e, Says _ => Some (with_up r Sent (rl_results r ++ [e]), None)
  | Copied e, Quiet => if v_target v then Some (with_up r Sent (rl_results r ++ [e]), None) else None
  | Sent, _ => None
  end.

(** [io.Copy(stream, target)], [CloseWrite] of the stream, which may wait for a
    carrier until the stream is closed, and the result. *)
Definition down_step (v : view) (r : relay) (ans : answer) : option (relay * option closing) :=
  match rl_down r, ans with
  | Copying, Says e => Some (with_down r (Copied e) (rl_results r), None)
  | Copying, Quiet => if both_closed v then Some (with_down r (Copied (Some (Sentinel ErrNetClosed))) (rl_results r), None) else None
  | Copied e, Says _ => Some (with_down r Sent (rl_results r ++ [e]), None)
  | Copied e, Quiet => if v_stream v then Some (with_down r Sent (rl_results r ++ [e]), None) else None
  | Sent, _ => None
  end.

(** The caller.  When a result is there and the context is cancelled, [select]
    takes either: [Says] stands for the context. *)
Definition caller_step (v : view) (r : relay) (ans : answer) : option (relay * option closing) :=
  match rl_caller r with
  | Before | Returned _ _ => None
  | Selecting =>
      let result := match rl_results r with [] => None | e :: rest => Some (with_caller r (if relayFailed e then ClosingTarget (FirstOf e) else Second (FirstOf e)) rest, None) end in
      let context := if v_cancelled v then Some (with_caller r (ClosingTarget ContextEnded) (rl_results r), None) else None in
      match ans, result, context with
      | Says _, _, Some x => Some x
      | _, Some x, _ => Some x
      | _, None, x => x
      end
  | ClosingTarget f => Some (with_caller r (ClosingStream f) (rl_results r), Some CloseTarget)
  | ClosingStream f => Some (with_caller r (Second f) (rl_results r), Some CloseStream)
  | Second f =>
      match rl_results r with
      | [] => None
      | e :: rest => Some (with_caller r (Stopping f (relay_outcome (first_error f) e)) rest, None)
      end
  | Stopping f e =>
      (* [stop] has no effect once the function was started. *)
      Some (with_watch (with_caller r (Returned f e) (rl_results r)) (match rl_watch r with Armed => if v_cancelled v then Armed else Stopped | w => w end), None)
  end.

Definition watch_step (v : view) (r : relay) : option (relay * option closing) :=
  match rl_watch r with
  | Armed => if v_cancelled v then Some (with_watch r WatchTarget, None) else None
  | WatchTarget => Some (with_watch r WatchStream, Some CloseTarget)
  | WatchStream => Some (with_watch r WatchDone, Some CloseStream)
  | WatchDone | Stopped => None
  end.

(** One step of one of the goroutines; [None] when it has to wait, or is not
    there. *)
Definition relay_step (v : view) (r : relay) (w : worker) (ans : answer) : option (relay * option closing) :=
  match rl_caller r with
  | Before => None
  | _ => match w with Up => up_step v r ans | Down => down_step v r ans | Caller => caller_step v r ans | Watcher => watch_step v r end
  end.

(** What a close does to what the others see. *)
Definition after (v : view) (c : option closing) : view :=
  match c with
  | None => v
  | Some CloseTarget => mkView (v_cancelled v) (v_stream v) true
  | Some CloseStream => mkView (v_cancelled v) true (v_target v)
  end.

(** ** What holds *)

Definition is_sent (c : copy) : nat := match c with Sent => 1 | _ => 0 end.
Definition took (f : first_result) : nat := match f with FirstOf _ => 1 | ContextEnded => 0 end.
(** The results that the caller has taken. *)
Definition taken (c : caller) : nat :=
  match c with
  | Before | Selecting => 0
  | ClosingTarget f | ClosingStream f | Second f => took f
  | Stopping f _ | Returned f _ => S (took f)
  end.
Definition closing_of (c : caller) : option first_result :=
  match c with ClosingTarget f | ClosingStream f | Second f | Stopping f _ | Returned f _ => Some f | _ => None end.

(** The caller has closed the target, or the stream too, on its way. *)
Definition caller_ok (v : view) (c : caller) : Prop :=
  match c with
  | Before | Selecting => True
  | ClosingTarget f => match f with FirstOf e => relayFailed e = true | ContextEnded => v_cancelled v = true end
  | ClosingStream f => v_target v = true /\ match f with FirstOf e => relayFailed e = true | ContextEnded => v_cancelled v = true end
  | Second f | Stopping f _ | Returned f _ => f = ContextEnded -> v_cancelled v = true /\ both_closed v = true
  end.
Definition watch_ok (v : view) (c : caller) (w : watch) : Prop :=
  match w with
  | Armed => match c with Returned _ _ => v_cancelled v = true | _ => True end
  | WatchTarget => v_cancelled v = true
  | WatchStream => v_cancelled v = true /\ v_target v = true
  | WatchDone => v_cancelled v = true /\ both_closed v = true
  | Stopped => match c with Returned _ _ => True | _ => False end
  end.

Record relay_ok (v : view) (r : relay) : Prop := {
  ro_results : (is_sent (rl_up r) + is_sent (rl_down r) = length (rl_results r) + taken (rl_caller r))%nat;
  ro_before : rl_caller r = Before -> r = idle_relay;
  ro_caller : caller_ok v (rl_caller r);
  ro_watch : watch_ok v (rl_caller r) (rl_watch r)
}.

(** What is closed stays closed. *)
Definition view_le (v v' : view) : Prop :=
  (v_cancelled v = true -> v_cancelled v' = true) /\ (v_stream v = true -> v_stream v' = true) /\ (v_target v = true -> v_target v' = true).

Lemma both_closed_le v v' : view_le v v' -> both_closed v = true -> both_closed v' = true.
Proof. intros (_ & H2 & H3) [H4 H5]%andb_true_iff. apply andb_true_iff. auto. Qed.

Lemma relay_ok_mono v v' r : view_le v v' -> relay_ok v r -> relay_ok v' r.
Proof.
  intros H [R1 R2 R3 R4]. pose proof (both_closed_le _ _ H) as Hb. destruct H as (H1 & H2 & H3). constructor; [done|done| |].
  - destruct (rl_caller r) as [| |[]|[]|f|f e|f e]; cbn in *; try intros ->; intuition auto.
  - destruct (rl_watch r); cbn in *; [destruct (rl_caller r)|..]; intuition auto.
Qed.

Lemma after_le v c : view_le v (after v c).
Proof. by destruct c as [[]|]. Qed.

Lemma idle_relay_ok v : relay_ok v idle_relay.
Proof. by constructor. Qed.

Lemma start_ok v r : relay_ok v r -> rl_caller r = Before -> relay_ok v (start_relay r).
Proof. intros [_ H _ _] E. rewrite (H E). by constructor. Qed.

Lemma relay_step_ok v r w ans r' c : relay_ok v r -> relay_step v r w ans = Some (r', c) -> relay_ok (after v c) r'.
Proof.
  intros H Hs. assert (Hb : rl_caller r <> Before) by (intros E; unfold relay_step in Hs; by rewrite E in Hs).
  assert (Hs' : match w with Up => up_step v r ans | Down => down_step v r ans | Caller => caller_step v r ans | Watcher => watch_step v r end = Some (r', c))
    by (unfold relay_step in Hs; by destruct (rl_caller r)).
  clear Hs. pose proof (relay_ok_mono _ _ _ (after_le v c) H) as [R1 _ R3 R4]. destruct H as [_ _ R3' R4'].
  destruct r as [up down results main wa]. cbn [rl_up rl_down rl_results rl_caller rl_watch] in *.
  destruct w; unfold up_step, down_step, caller_step, watch_step in Hs'; cbn [rl_up rl_down rl_results rl_caller rl_watch] in Hs'.
  - destruct up, ans; try destruct (both_closed v); try destruct (v_target v); try done; injection Hs' as <- <-; constructor; cbn in *; try done; rewrite ?length_app; cbn; lia.
  - destruct down, ans; try destruct (both_closed v); try destruct (v_stream v); try done; injection Hs' as <- <-; constructor; cbn in *; try done; rewrite ?length_app; cbn; lia.
  - destruct main as [| |f|f|f|f e|f e]; try done.
    + destruct (v_cancelled v) eqn:Ev, ans, results as [|e0 rest]; try done; injection Hs' as <- <-; try destruct (relayFailed e0) eqn:?;
        (constructor; cbn in *; [lia|done|done|by destruct wa]).
    + injection Hs' as <- <-. constructor; cbn in *; [done|done| |by destruct wa]. by split.
    + injection Hs' as <- <-. constructor; cbn in *; [done|done| |by destruct wa]. intros ->. destruct R3' as [H1 H2]. split; [done|]. unfold both_closed. cbn. exact H1.
    + destruct results as [|e0 rest]; [done|]. injection Hs' as <- <-. constructor; cbn in *; [lia|done|done|by destruct wa].
    + injection Hs' as <- <-. constructor; cbn in *; [done|done|done|]. destruct wa; cbn in *; try done. by destruct (v_cancelled v) eqn:E.
  - destruct wa; cbn in Hs'; try done; [destruct (v_cancelled v) eqn:E; [|done]|..]; injection Hs' as <- <-; constructor; cbn in *; try done; intuition auto.
Qed.

(** *** Progress *)

Definition copy_work (c : copy) : nat := match c with Copying => 2 | Copied _ => 1 | Sent => 0 end.
Definition relay_work (r : relay) : nat :=
  copy_work (rl_up r) + copy_work (rl_down r)
  + match rl_caller r with Before => 6 | Selecting => 5 | ClosingTarget _ => 4 | ClosingStream _ => 3 | Second _ => 2 | Stopping _ _ => 1 | Returned _ _ => 0 end
  + match rl_watch r with Armed => 3 | WatchTarget => 2 | WatchStream => 1 | WatchDone | Stopped => 0 end.

Lemma relay_step_work v r w ans r' c : relay_step v r w ans = Some (r', c) -> (relay_work r' < relay_work r)%nat.
Proof.
  unfold relay_step, up_step, down_step, caller_step, watch_step, relay_work. destruct r as [up down results c0 wa].
  cbn [rl_up rl_down rl_results rl_caller rl_watch]. intros H. destruct w.
  - destruct c0, up, ans, (both_closed v), (v_target v); try done; injection H as <- <-; cbn; lia.
  - destruct c0, down, ans, (both_closed v), (v_stream v); try done; injection H as <- <-; cbn; lia.
  - destruct c0, ans, results, (v_cancelled v), wa; try done; injection H as <- <-; cbn; try destruct (relayFailed _); cbn; lia.
  - destruct c0, wa, (v_cancelled v); try done; injection H as <- <-; cbn; lia.
Qed.

(** The caller waits for a result. *)
Definition relay_waits (r : relay) : Prop := rl_results r = [] /\ match rl_caller r with Selecting | Second _ => True | _ => False end.
(** All goroutines have ended. *)
Definition relay_over (r : relay) : Prop := rl_up r = Sent /\ rl_down r = Sent /\ match rl_caller r with Returned _ _ => True | _ => False end /\ (rl_watch r = WatchDone \/ rl_watch r = Stopped).

(** When the outside is quiet and none can go on, the relay has not begun or is
    over, or it waits, and then its context is alive and one of its ends open. *)
Lemma relay_stuck v r : relay_ok v r -> (forall w, relay_step v r w Quiet = None) ->
  rl_caller r = Before \/ relay_over r \/ relay_waits r /\ v_cancelled v = false /\ both_closed v = false.
Proof.
  intros [R1 R2 R3 R4] H. destruct r as [up down results main wa]. cbn [rl_up rl_down rl_results rl_caller rl_watch] in *.
  pose proof (H Up) as Hu. pose proof (H Down) as Hd. pose proof (H Caller) as Hm. pose proof (H Watcher) as Hw. clear H.
  assert (Hcopy : main <> Before -> up = Sent /\ down = Sent \/ both_closed v = false).
  { intros Hb. unfold relay_step, up_step, down_step in Hu, Hd. cbn in Hu, Hd. unfold both_closed in *.
    destruct (v_stream v) eqn:E1, (v_target v) eqn:E2; cbn in *; try (by right). left.
    destruct main; [done|..]; destruct up, down; done. }
  assert (Hwatch : main <> Before -> wa = WatchDone \/ wa = Stopped \/ wa = Armed /\ v_cancelled v = false).
  { intros Hb. unfold relay_step, watch_step in Hw. cbn in Hw. destruct main; [done|..]; destruct wa; try done; auto; destruct (v_cancelled v); try done; auto. }
  unfold relay_step, caller_step in Hm. cbn in Hm.
  destruct main as [| |f|f|f|f e|f e]; [by left|right..]; try done.
  - destruct results; [|by destruct (v_cancelled v)]. destruct (v_cancelled v) eqn:Ev; [done|]. right. split; [done|]. split; [done|].
    destruct Hcopy as [[-> ->]|Hc]; [done| |done]. cbn in R1. lia.
  - destruct results; [|done]. right. assert (Hc : both_closed v = false).
    { destruct Hcopy as [[-> ->]|Hc]; [done| |done]. cbn in R1. destruct f; cbn in R1; [lia|]. lia. }
    split; [done|]. split; [|done]. destruct Hwatch as [->|[->|[_ Hv]]]; [done|..]; cbn in R4; [destruct R4; congruence|done|done].
  - left. unfold relay_over. cbn. destruct Hcopy as [[-> ->]|Hc]; [done|..].
    + split_and!; try done. destruct Hwatch as [->|[->|[-> Hv]]]; [done|by left|by right|]. cbn in R4. congruence.
    + cbn in R1, R3. destruct f as [e1|]; [|by destruct R3; [done|congruence]]. cbn in R1.
      assert (is_sent up = 1 /\ is_sent down = 1)%nat as [H1 H2] by (destruct up, down; cbn in *; lia).
      destruct up, down; try done. split_and!; try done. destruct Hwatch as [->|[->|[-> Hv]]]; [done|by left|by right|]. cbn in R4. congruence.
Qed.

(** It closes an end only after a failure or with a cancelled context. *)
Lemma relay_closes_after v r w ans r' c : relay_ok v r -> relay_step v r w ans = Some (r', Some c) ->
  v_cancelled v = true \/ exists f, closing_of (rl_caller r) = Some f /\ failed_first f = true.
Proof.
  intros [_ _ R3 R4] H. destruct r as [up down results main wa]. unfold relay_step, up_step, down_step, caller_step, watch_step in H.
  cbn [rl_up rl_down rl_results rl_caller rl_watch] in *. destruct w.
  - destruct main, up, ans; try done; try (by destruct (both_closed v)); by destruct (v_target v).
  - destruct main, down, ans; try done; try (by destruct (both_closed v)); by destruct (v_stream v).
  - destruct main as [| |f|f|f|f e|f e]; try done.
    + destruct ans, results, (v_cancelled v); done.
    + cbn in R3. destruct f; [right; by eexists|by left].
    + cbn in R3. destruct R3 as [_ R3]. destruct f; [right; by eexists|by left].
    + by destruct results.
  - left. destruct main, wa; try done; cbn in R4; try (by destruct (v_cancelled v)); naive_solver.
Qed.

(** The first result stays. *)
Lemma relay_step_closing v r w ans r' c f : relay_step v r w ans = Some (r', c) -> closing_of (rl_caller r) = Some f -> closing_of (rl_caller r') = Some f.
Proof.
  intros H Hf. destruct r as [up down results c0 wa]. unfold relay_step, up_step, down_step, caller_step, watch_step in H. cbn [rl_up rl_down rl_results rl_caller rl_watch] in *.
  destruct w; destruct c0; try done; repeat (case_match; try done); by injection H as <- _.
Qed.
