(* ===== verification/ContinuityRuntime.v ===== *)
(** * Continuity on the server (internal/proxy/continuity.go)

    The runtime that keeps the target of a logical flow while its carriers come
    and go.  Admission, resumption, the end of a flow, the loss of a control
    channel, its timer and the shutdown run in goroutines that share the table
    of flows, the registry ([Flows]), the control channels ([Control]) and the
    flow objects.  A goroutine is a list of instructions, each a critical section
    or a call; [exec] runs one and puts what follows in its place.  What an
    external call answers (transports, the resumable stream) comes with the
    step.  The relay of a flow is a [TargetRelay]: its goroutines take steps of
    their own, see the context, the stream and the target of the flow, and close
    both when one direction fails or the context is cancelled. *)
From stdpp Require Import prelude gmap list relations.
From S2P Require Import Prelude ContinuityWire Journal Flows Control TargetRelay.

Definition MinContinuityJournalBytes : Z := 64 * 1024.
Definition defaultControlTimeout : Z := 2 * second.
Definition defaultMigrationTimeout : Z := 15 * second.

(** ** Data *)

Record ContinuityRuntimeConfig := mkRuntimeConfig {
  MaxFlows : Z; MaxFlowsPerPrincipal : Z; JournalBytes : Z; AckEveryBytes : Z; ControlTimeout : Z; MigrationTimeout : Z
}.

(** The control channels are numbered. *)
Record ContinuityLease := mkLease {
  le_principal : list byte; le_constellation : list byte; le_key : list byte; le_control : option nat; le_mux : bool
}.

(** Where a [sync.Once] is. *)
Inductive once := Fresh | Running | Finished.
#[global] Instance once_eq_dec : EqDecision once.
Proof. solve_decision. Defined.

(** [sf_target] stands for the connection and for the slot that [release] gives
    back. *)
Record serverContinuityFlow := mkFlowObject {
  sf_id : list byte; sf_principal : list byte; sf_constellation : list byte; sf_target : handle;
  sf_control : option nat; sf_leaseKey : list byte; sf_timer : option Z; sf_generation : Z;
  sf_released : bool; sf_finish : once; sf_relay : relay
}.

(** What the instructions of [AdmitNew] carry until there is a flow. *)
Record admission := mkAdmission { ad_target : handle; ad_flow : list byte; ad_principal : list byte; ad_constellation : list byte; ad_key : list byte; ad_control : nat }.

(** [TargetClosed] is a close by the owner of a connection: an admission until
    the registry has it, then the registry.  [RelayClosed] is one by the relay,
    which does not own it. *)
Inductive runtime_event :=
| PhysicalClosed
| UnusedStreamClosed
| StreamClosed (i : nat)
| TargetClosed (h : handle)
| RelayClosed (h : handle)
| ReleaseCalled (h : handle)
| ContextCancelled
| CallReturned (e : option error).

Record ContinuityRuntime := mkRuntime {
  rt_registry : FlowRegistry; rt_flows : gmap (list byte) nat; rt_closed : bool; rt_close : once; rt_wait : Z;
  rt_objects : list serverContinuityFlow; rt_controls : list ControlChannel; rt_bindings : list (nat * list byte);
  rt_handed : nat; rt_log : list runtime_event
}.

Definition NewContinuityRuntime (config : ContinuityRuntimeConfig) (context : bool) : res (ContinuityRuntime * Z * Z) :=
  if negb context || (MaxFlows config <=? 0) || (MaxLogicalFlows <? MaxFlows config)
     || (MaxFlowsPerPrincipal config <=? 0) || (MaxFlows config <? MaxFlowsPerPrincipal config)
     || (JournalBytes config <? MinContinuityJournalBytes) || (MaxJournalCapacity <? JournalBytes config)
     || (AckEveryBytes config =? 0) || (u64 (JournalBytes config) <? AckEveryBytes config)
     || (ControlTimeout config <? 0) || (30 * second <? ControlTimeout config)
     || (MigrationTimeout config <? 0) || (300 * second <? MigrationTimeout config)
  then Err ErrContinuityRuntimeConfig
  else match NewFlowRegistry (MaxFlows config) (MaxFlowsPerPrincipal config) with
       | Err e => Err (Join [Sentinel ErrContinuityRuntimeConfig; e])
       | Ok registry =>
           Ok (mkRuntime registry ∅ false Fresh 0 [] [] [] 0 [],
               if ControlTimeout config =? 0 then defaultControlTimeout else ControlTimeout config,
               if MigrationTimeout config =? 0 then defaultMigrationTimeout else MigrationTimeout config)
       end.

Definition with_registry (s : ContinuityRuntime) (registry : FlowRegistry) (closed : list handle) : ContinuityRuntime :=
  mkRuntime registry (rt_flows s) (rt_closed s) (rt_close s) (rt_wait s) (rt_objects s) (rt_controls s) (rt_bindings s) (rt_handed s) (rt_log s ++ map TargetClosed closed).
Definition with_table (s : ContinuityRuntime) (flows : gmap (list byte) nat) (wait : Z) : ContinuityRuntime :=
  mkRuntime (rt_registry s) flows (rt_closed s) (rt_close s) wait (rt_objects s) (rt_controls s) (rt_bindings s) (rt_handed s) (rt_log s).
Definition with_close (s : ContinuityRuntime) (closed : bool) (close : once) : ContinuityRuntime :=
  mkRuntime (rt_registry s) (rt_flows s) closed close (rt_wait s) (rt_objects s) (rt_controls s) (rt_bindings s) (rt_handed s) (rt_log s).
Definition with_object (s : ContinuityRuntime) (i : nat) (o : serverContinuityFlow) : ContinuityRuntime :=
  mkRuntime (rt_registry s) (rt_flows s) (rt_closed s) (rt_close s) (rt_wait s) (<[i := o]> (rt_objects s)) (rt_controls s) (rt_bindings s) (rt_handed s) (rt_log s).
Definition new_object (s : ContinuityRuntime) (registry : FlowRegistry) (o : serverContinuityFlow) : ContinuityRuntime :=
  mkRuntime registry (rt_flows s) (rt_closed s) (rt_close s) (rt_wait s) (rt_objects s ++ [o]) (rt_controls s) (rt_bindings s) (rt_handed s) (rt_log s).
Definition with_control (s : ContinuityRuntime) (c : nat) (channel : ControlChannel) (bindings : list (nat * list byte)) : ContinuityRuntime :=
  mkRuntime (rt_registry s) (rt_flows s) (rt_closed s) (rt_close s) (rt_wait s) (rt_objects s) (<[c := channel]> (rt_controls s)) bindings (rt_handed s) (rt_log s).
Definition handed_over (s : ContinuityRuntime) (events : list runtime_event) : ContinuityRuntime :=
  mkRuntime (rt_registry s) (rt_flows s) (rt_closed s) (rt_close s) (rt_wait s) (rt_objects s) (rt_controls s) (rt_bindings s) (S (rt_handed s)) (rt_log s ++ events).
Definition logged (s : ContinuityRuntime) (events : list runtime_event) : ContinuityRuntime :=
  mkRuntime (rt_registry s) (rt_flows s) (rt_closed s) (rt_close s) (rt_wait s) (rt_objects s) (rt_controls s) (rt_bindings s) (rt_handed s) (rt_log s ++ events).

(** [f.control = c; f.leaseKey = key]. *)
Definition bound_to (o : serverContinuityFlow) (c : option nat) (key : list byte) : serverContinuityFlow :=
  mkFlowObject (sf_id o) (sf_principal o) (sf_constellation o) (sf_target o) c key (sf_timer o) (sf_generation o) (sf_released o) (sf_finish o) (sf_relay o).
Definition with_timer (o : serverContinuityFlow) (timer : option Z) : serverContinuityFlow :=
  mkFlowObject (sf_id o) (sf_principal o) (sf_constellation o) (sf_target o) (sf_control o) (sf_leaseKey o) timer (u64 (sf_generation o + 1)) (sf_released o) (sf_finish o) (sf_relay o).
Definition with_once (o : serverContinuityFlow) (released : bool) (finish : once) : serverContinuityFlow :=
  mkFlowObject (sf_id o) (sf_principal o) (sf_constellation o) (sf_target o) (sf_control o) (sf_leaseKey o) (sf_timer o) (sf_generation o) released finish (sf_relay o).
Definition with_relay (o : serverContinuityFlow) (r : relay) : serverContinuityFlow :=
  mkFlowObject (sf_id o) (sf_principal o) (sf_constellation o) (sf_target o) (sf_control o) (sf_leaseKey o) (sf_timer o) (sf_generation o) (sf_released o) (sf_finish o) r.

(** What the log says of the context, of the stream of a flow and of a
    connection. *)
Definition cancelled (s : ContinuityRuntime) : bool := existsb (fun e => match e with ContextCancelled => true | _ => false end) (rt_log s).
Definition stream_closed (s : ContinuityRuntime) (i : nat) : bool := existsb (fun e => match e with StreamClosed j => Nat.eqb i j | _ => false end) (rt_log s).
Definition connection_closed (s : ContinuityRuntime) (h : handle) : bool :=
  existsb (fun e => match e with TargetClosed h' | RelayClosed h' => h =? h' | _ => false end) (rt_log s).
Definition relay_view (s : ContinuityRuntime) (i : nat) (o : serverContinuityFlow) : view := mkView (cancelled s) (stream_closed s i) (connection_closed s (sf_target o)).

(** ** Instructions *)

Inductive instr :=
(* [AdmitNew] *)
| ICreate (a : admission) | IDropStream | ITargetClose (h : handle) | IReleaseCall (h : handle)
| IRegister (i : nat) (c : nat) (key : list byte) | IPublish (i : nat) (c : nat)
| IStreamClose (i : nat) | IUnregister (c : nat) (id : list byte) | IRelease (i : nat) | IRunRelease (i : nat)
(* [run] *)
| IRelay (i : nat) | IWaitDone (i : nat)
(* [finish] *)
| IFinish (i : nat) | IFinishControl (i : nat) | IFinishRelease (i : nat) | IFinishSlot (i : nat)
(* [Resume] and [replace] *)
| ILookup (metadata : ContinuityOpenMetadata) (l : ContinuityLease) (c : nat)
| IAttach (i : nat) (metadata : ContinuityOpenMetadata) (l : ContinuityLease) (c : nat)
| IReplace (i : nat) (c : nat) (key : list byte) | IRebind (i : nat) (c : nat) (key : list byte) (old : option nat) (oldKey : list byte)
| ISetControl (i : nat) (c : nat) (key : list byte) (old : option nat) (oldKey : list byte)
| IDetach (i : nat) (c : nat) (old : option nat) (oldKey : list byte) | IReplaceStream (i : nat) (c : nat) (old : option nat) (oldKey : list byte)
| IRestore (i : nat) (old : option nat) (oldKey : list byte) | ICancelMigration (i : nat)
(* [Abort], [beginMigration] and the timer *)
| IAbort (b : nat) (reason : error) | IBeginMigration (i : nat) (lost : list byte)
| ITimer (i : nat) (lost : list byte) (generation : Z) | IExpire (i : nat) (lost : list byte) (generation : Z)
(* [Close] *)
| IClose | IWait | ICloseRegistry
| IPhysicalClose | IReturn (e : option error).

Section Runtime.
(** What [Close] of a target answers, and the timeout of a migration. *)
Variable close_err : handle -> option error.

(** [validContinuityLease]. *)
Definition validContinuityLease (l : ContinuityLease) (metadata : ContinuityOpenMetadata) : bool :=
  negb (is_zero (le_principal l)) && match le_control l with Some _ => true | None => false end && le_mux l && negb (is_zero (le_constellation l)) && negb (is_zero (le_key l))
  && bytes_eq (om_constellation metadata) (le_constellation l) && bytes_eq (om_lease metadata) (le_key l).

(** ** Calls *)

(** [closeContinuityInputs]. *)
Definition closeContinuityInputs (physical : bool) (h : handle) : list runtime_event := (if physical then [PhysicalClosed] else []) ++ [TargetClosed h; ReleaseCalled h].

(** [AdmitNew] before it shares anything: [transport] and [stream] are the errors
    of [NewTransportStream] and [NewResumableStream].  The connection gets the
    next number. *)
Definition AdmitNew (s : ContinuityRuntime) (metadata : ContinuityOpenMetadata) (l : ContinuityLease) (physical : bool) (transport stream : option error)
    : ContinuityRuntime * list instr :=
  let h := Z.of_nat (rt_handed s) in
  match le_control l with
  | Some c =>
      if negb (om_mode metadata =? ContinuityOpenNew) || negb (validContinuityLease l metadata) || negb physical
      then (handed_over s (closeContinuityInputs physical h), [IReturn (Some (Sentinel ErrContinuityLeaseBinding))])
      else match transport, stream with
           | Some e, _ | None, Some e => (handed_over s (closeContinuityInputs physical h), [IReturn (Some e)])
           | None, None => (handed_over s [], [ICreate (mkAdmission h (om_flow metadata) (le_principal l) (le_constellation l) (le_key l) c)])
           end
  | None => (handed_over s (closeContinuityInputs physical h), [IReturn (Some (Sentinel ErrContinuityLeaseBinding))])
  end.

Definition Resume (metadata : ContinuityOpenMetadata) (l : ContinuityLease) (physical : bool) : list instr :=
  match le_control l with
  | Some c =>
      if negb (om_mode metadata =? ContinuityOpenResume) || negb (validContinuityLease l metadata) || negb physical
      then (if physical then [IPhysicalClose] else []) ++ [IReturn (Some (Sentinel ErrContinuityLeaseBinding))]
      else [ILookup metadata l c]
  | None => (if physical then [IPhysicalClose] else []) ++ [IReturn (Some (Sentinel ErrContinuityLeaseBinding))]
  end.

Definition Count (s : ContinuityRuntime) : Z := Z.of_nat (size (rt_flows s)).

(** The control channel that [sendAck] uses. *)
Definition sendAck (o : serverContinuityFlow) : res nat := match sf_control o with None => Err ErrContinuityRuntimeClosed | Some c => Ok c end.

(** ** The instructions *)

(** [control.Register] with a new binding. *)
Definition register (s : ContinuityRuntime) (c : nat) (i : nat) (key id : list byte) : ContinuityRuntime * option error :=
  match rt_controls s !! c with
  | None => (s, Some (Sentinel ErrControlChannelConfig))
  | Some channel =>
      let '(channel, r) := Register channel id (Some (Z.of_nat (length (rt_bindings s)))) in
      match r with Ok _ => (with_control s c channel (rt_bindings s ++ [(i, key)]), None) | Err e => (s, Some e) end
  end.

Definition unregister (s : ContinuityRuntime) (c : nat) (id : list byte) : ContinuityRuntime :=
  match rt_controls s !! c with None => s | Some channel => with_control s c (Unregister channel id).1 (rt_bindings s) end.

(** [if oldControl != lease.Control { ...Unregister(f.id) }]. *)
Definition unregister_other (keep : nat) (c : option nat) (id : list byte) : list instr :=
  match c with Some c => if bool_decide (c = keep) then [] else [IUnregister c id] | None => [] end.

Definition undo_admission (i : nat) (e : option error) : list instr := [IStreamClose i; IRelease i; IRunRelease i; IReturn e].

(** The new state, what follows, and what is started; [None] when the
    instruction has to wait. *)
Definition outcome : Type := option (ContinuityRuntime * list instr * list (list instr)).
Definition go (s : ContinuityRuntime) (k : list instr) : outcome := Some (s, k, []).
(** An instruction names an object that exists. *)
Definition on_object (s : ContinuityRuntime) (i : nat) (f : serverContinuityFlow -> outcome) : outcome :=
  match rt_objects s !! i with None => go s [] | Some o => f o end.

(** [AdmitNew], from the registry on. *)
Definition create_section (s : ContinuityRuntime) (a : admission) : outcome :=
  match Flows.Create (rt_registry s) [] (mkCreate (ad_principal a) (ad_constellation a) (ad_flow a) (ad_key a) (Some (ad_target a))) with
  | (_, Err e) => go s [IDropStream; ITargetClose (ad_target a); IReleaseCall (ad_target a); IReturn (Some e)]
  | (registry, Ok _) =>
      let o := mkFlowObject (ad_flow a) (ad_principal a) (ad_constellation a) (ad_target a) (Some (ad_control a)) (ad_key a) None 0 false Fresh idle_relay in
      go (new_object s registry o) [IRegister (length (rt_objects s)) (ad_control a) (ad_key a)]
  end.

Definition register_section (s : ContinuityRuntime) (i c : nat) (key : list byte) (o : serverContinuityFlow) : outcome :=
  match register s c i key (sf_id o) with
  | (s, Some e) => go s (undo_admission i (Some e))
  | (s, None) => go s [IPublish i c]
  end.

Definition publish_section (s : ContinuityRuntime) (i c : nat) (o : serverContinuityFlow) : outcome :=
  if rt_closed s then go s (IUnregister c (sf_id o) :: undo_admission i (Some (Sentinel ErrContinuityRuntimeClosed)))
  else match rt_flows s !! sf_id o with
       | Some _ => go s (IUnregister c (sf_id o) :: undo_admission i (Some (Sentinel ErrFlowConflict)))
       | None => Some (with_table s (<[sf_id o := i]> (rt_flows s)) (rt_wait s + 1), [IReturn None], [[IRelay i; IFinish i; IWaitDone i]])
       end.

(** [registry.Release] of the flow, then [k]. *)
Definition release_section (s : ContinuityRuntime) (o : serverContinuityFlow) (k : list instr) : outcome :=
  let '(registry, closed, _) := Flows.Release close_err (rt_registry s) (sf_principal o) (sf_constellation o) (sf_id o) in go (with_registry s registry closed) k.

Definition runRelease (s : ContinuityRuntime) (i : nat) (o : serverContinuityFlow) : outcome :=
  if sf_released o then go s [] else go (logged (with_object s i (with_once o true (sf_finish o))) [ReleaseCalled (sf_target o)]) [].

(** [run] calls [relayOpenTarget] and waits for it. *)
Definition relay_section (s : ContinuityRuntime) (i : nat) (o : serverContinuityFlow) : outcome :=
  match rl_caller (sf_relay o) with
  | Before => go (with_object s i (with_relay o (start_relay (sf_relay o)))) [IRelay i]
  | Returned _ _ => go s []
  | _ => None
  end.

(** [finish]: the [Once] and the table; the control channel; the end. *)
Definition finish_section (s : ContinuityRuntime) (i : nat) (o : serverContinuityFlow) : outcome :=
  match sf_finish o with
  | Fresh => go (with_table (with_object s i (with_once o (sf_released o) Running)) (delete (sf_id o) (rt_flows s)) (rt_wait s)) [IFinishControl i]
  | Running => None
  | Finished => go s []
  end.
Definition finish_control (s : ContinuityRuntime) (i : nat) (o : serverContinuityFlow) : outcome :=
  go (with_object s i (bound_to (with_timer o None) None (sf_leaseKey o)))
     (match sf_control o with Some c => [IUnregister c (sf_id o)] | None => [] end ++ [IStreamClose i; IFinishRelease i]).
Definition finish_slot (s : ContinuityRuntime) (i : nat) (o : serverContinuityFlow) : outcome :=
  go (logged (with_object s i (with_once o true Finished)) (if sf_released o then [] else [ReleaseCalled (sf_target o)])) [].

(** [Resume]. *)
Definition lookup_section (s : ContinuityRuntime) (metadata : ContinuityOpenMetadata) (l : ContinuityLease) (c : nat) : outcome :=
  if rt_closed s then go s [IPhysicalClose; IReturn (Some (Sentinel ErrContinuityRuntimeClosed))]
  else match rt_flows s !! om_flow metadata with
       | None => go s [IPhysicalClose; IReturn (Some (Sentinel ErrFlowNotFound))]
       | Some i => go s [IAttach i metadata l c]
       end.
Definition attach_section (s : ContinuityRuntime) (i : nat) (metadata : ContinuityOpenMetadata) (l : ContinuityLease) (c : nat) : outcome :=
  let '(registry, closed, r) := Flows.Attach close_err (rt_registry s) (mkAttach (le_principal l) (le_constellation l) (om_flow metadata) (le_key l) (om_epoch metadata)) in
  let s := with_registry s registry closed in
  match r with
  | Err e => go s (IPhysicalClose :: (if errors_is e ErrFlowConflict then [IFinish i] else []) ++ [IReturn (Some e)])
  | Ok _ => go s [IReplace i c (le_key l)]
  end.

(** [replace]: [e] is the error of [NewTransportStream], [DetachPhysical] and
    [Replace]. *)
Definition replace_section (s : ContinuityRuntime) (i c : nat) (key : list byte) (e : option error) (o : serverContinuityFlow) : outcome :=
  match e with
  | Some e => go s [IPhysicalClose; IReturn (Some e)]
  | None => go s [if bool_decide (sf_control o = Some c) then ISetControl i c key (sf_control o) (sf_leaseKey o) else IRebind i c key (sf_control o) (sf_leaseKey o)]
  end.
Definition rebind_section (s : ContinuityRuntime) (i c : nat) (key : list byte) (old : option nat) (oldKey : list byte) (o : serverContinuityFlow) : outcome :=
  match register s c i key (sf_id o) with
  | (s, Some e) => go s [IPhysicalClose; IReturn (Some e)]
  | (s, None) => go s [ISetControl i c key old oldKey]
  end.
Definition detach_section (s : ContinuityRuntime) (i c : nat) (old : option nat) (oldKey : list byte) (e : option error) (o : serverContinuityFlow) : outcome :=
  match e with
  | Some e => go s (IRestore i old oldKey :: (if bool_decide (old = Some c) then [] else [IUnregister c (sf_id o)]) ++ [IPhysicalClose; IReturn (Some e)])
  | None => go s [IReplaceStream i c old oldKey]
  end.
Definition replace_stream (s : ContinuityRuntime) (i c : nat) (old : option nat) (oldKey : list byte) (e : option error) (o : serverContinuityFlow) : outcome :=
  match e with
  | Some e => go s (IRestore i old oldKey :: (if bool_decide (old = Some c) then [] else [IUnregister c (sf_id o)]) ++ [IReturn (Some e)])
  | None => go s (ICancelMigration i :: unregister_other c old (sf_id o) ++ [IReturn None])
  end.

(** [Abort] of a binding. *)
Definition abort_section (s : ContinuityRuntime) (b : nat) (reason : error) : outcome :=
  match rt_bindings s !! b with
  | None => go s []
  | Some (i, key) =>
      if errors_is reason ErrControlChannelClosed then go s [IBeginMigration i key]
      else on_object s i (fun o => go s (if bytes_eq (sf_leaseKey o) key then [IFinish i] else []))
  end.
Definition beginMigration (s : ContinuityRuntime) (i : nat) (lost : list byte) (o : serverContinuityFlow) : outcome :=
  if negb (bytes_eq (sf_leaseKey o) lost) then go s []
  else let generation := u64 (sf_generation o + 1) in Some (with_object s i (with_timer o (Some generation)), [], [[ITimer i lost generation]]).
Definition timer_section (s : ContinuityRuntime) (i : nat) (lost : list byte) (generation : Z) (o : serverContinuityFlow) : outcome :=
  go s (if bytes_eq (sf_leaseKey o) lost && (sf_generation o =? generation) then [IFinish i] else []).

(** [r.cancel()], and the flows of the table under the lock.  The context may be
    cancelled from outside too, at any time before. *)
Definition close_section (s : ContinuityRuntime) : outcome :=
  match rt_close s with
  | Fresh => go (logged (with_close s true Running) [ContextCancelled]) (map (fun kv => IFinish kv.2) (map_to_list (rt_flows s)) ++ [IWait; ICloseRegistry])
  | Running => None
  | Finished => go s []
  end.
Definition close_registry (s : ContinuityRuntime) : outcome :=
  let '(registry, closed, _) := Flows.Close close_err (rt_registry s) in go (with_close (with_registry s registry closed) (rt_closed s) Finished) [].

(** One instruction. *)
Definition exec (s : ContinuityRuntime) (x : instr) (e : option error) : outcome :=
  match x with
  | ICreate a => create_section s a
  | IDropStream => go (logged s [UnusedStreamClosed]) []
  | ITargetClose h => go (logged s [TargetClosed h]) []
  | IReleaseCall h => go (logged s [ReleaseCalled h]) []
  | IRegister i c key => on_object s i (register_section s i c key)
  | IPublish i c => on_object s i (publish_section s i c)
  | IStreamClose i => go (logged s [StreamClosed i]) []
  | IUnregister c id => go (unregister s c id) []
  | IRelease i => on_object s i (fun o => release_section s o [])
  | IRunRelease i => on_object s i (runRelease s i)
  | IRelay i => on_object s i (relay_section s i)
  | IWaitDone _ => go (with_table s (rt_flows s) (rt_wait s - 1)) []
  | IFinish i => on_object s i (finish_section s i)
  | IFinishControl i => on_object s i (finish_control s i)
  | IFinishRelease i => on_object s i (fun o => release_section s o [IFinishSlot i])
  | IFinishSlot i => on_object s i (finish_slot s i)
  | ILookup metadata l c => lookup_section s metadata l c
  | IAttach i metadata l c => attach_section s i metadata l c
  | IReplace i c key => on_object s i (replace_section s i c key e)
  | IRebind i c key old oldKey => on_object s i (rebind_section s i c key old oldKey)
  | ISetControl i c key old oldKey => on_object s i (fun o => go (with_object s i (bound_to o (Some c) key)) [IDetach i c old oldKey])
  | IDetach i c old oldKey => on_object s i (detach_section s i c old oldKey e)
  | IReplaceStream i c old oldKey => on_object s i (replace_stream s i c old oldKey e)
  | IRestore i old oldKey => on_object s i (fun o => go (with_object s i (bound_to o old oldKey)) [])
  | ICancelMigration i => on_object s i (fun o => go (with_object s i (with_timer o None)) [])
  | IAbort b reason => abort_section s b reason
  | IBeginMigration i lost => on_object s i (beginMigration s i lost)
  | ITimer i lost generation => on_object s i (fun o => go s (if bool_decide (sf_timer o = Some generation) then [IExpire i lost generation] else []))
  | IExpire i lost generation => on_object s i (timer_section s i lost generation)
  | IClose => close_section s
  | IWait => if rt_wait s =? 0 then go s [] else None
  | ICloseRegistry => close_registry s
  | IPhysicalClose => go (logged s [PhysicalClosed]) []
  | IReturn e => go (logged s [CallReturned e]) []
  end.

(** A step of one of the goroutines of the relay of the flow [i]. *)
Definition relay_goroutine (s : ContinuityRuntime) (i : nat) (w : worker) (ans : answer) : option ContinuityRuntime :=
  o ← rt_objects s !! i;
  '(r, c) ← relay_step (relay_view s i o) (sf_relay o) w ans;
  Some (logged (with_object s i (with_relay o r))
    (match c with None => [] | Some CloseTarget => [RelayClosed (sf_target o)] | Some CloseStream => [StreamClosed i] end)).

(** ** The goroutines *)

(** The runtime, and what every goroutine has left to do. *)
Definition system : Type := ContinuityRuntime * list (list instr).

Definition thread_step (y : system) (t : nat) (e : option error) : option system :=
  let '(s, threads) := y in
  match threads !! t with
  | Some (x :: rest) => '(s, k, started) ← exec s x e; Some (s, <[t := k ++ rest]> threads ++ started)
  | _ => None
  end.

(** The handlers that a control channel aborts, in the goroutine that reads it. *)
Definition aborts (es : list effect) : list instr :=
  omap (fun e => match e with Aborted b reason => Some (IAbort (Z.to_nat b) reason) | _ => None end) es.

Inductive system_step : system -> system -> Prop :=
| step_thread y t e y' : thread_step y t e = Some y' -> system_step y y'
| step_relay s threads i w ans s' : relay_goroutine s i w ans = Some s' -> system_step (s, threads) (s', threads)
| step_cancelled s threads : system_step (s, threads) (logged s [ContextCancelled], threads)
| step_admit s threads metadata l physical transport stream s' k : is_ok (validateOpen metadata) = true ->
    AdmitNew s metadata l physical transport stream = (s', k) -> system_step (s, threads) (s', threads ++ [k])
| step_resume s threads metadata l physical : system_step (s, threads) (s, threads ++ [Resume metadata l physical])
| step_close s threads : system_step (s, threads) (s, threads ++ [[IClose; IReturn None]])
| step_abort s threads c channel id reason : rt_controls s !! c = Some channel ->
    system_step (s, threads) (with_control s c (handleAbort channel id reason).1 (rt_bindings s), threads ++ [aborts (handleAbort channel id reason).2])
| step_control_ends s threads c channel reason : rt_controls s !! c = Some channel ->
    system_step (s, threads) (with_control s c (finish channel reason).1 (rt_bindings s), threads ++ [aborts (finish channel reason).2]).

Ltac execs := unfold create_section, register_section, publish_section, release_section, runRelease, relay_section, finish_section, finish_control, finish_slot, lookup_section, attach_section, replace_section, rebind_section, detach_section, replace_stream, abort_section, beginMigration, timer_section, close_section, close_registry, on_object, go.
Ltac execs_in H := unfold create_section, register_section, publish_section, release_section, runRelease, relay_section, finish_section, finish_control, finish_slot, lookup_section, attach_section, replace_section, rebind_section, detach_section, replace_stream, abort_section, beginMigration, timer_section, close_section, close_registry, on_object, go in H.

(** ** What is accounted for *)

(** Every connection handed over, the connections closed, the slots given back. *)
Definition handed (s : ContinuityRuntime) : list handle := map Z.of_nat (seq 0 (rt_handed s)).
Definition targets_closed (s : ContinuityRuntime) : list handle := omap (fun e => match e with TargetClosed h => Some h | _ => None end) (rt_log s).
Definition slots_released (s : ContinuityRuntime) : list handle := omap (fun e => match e with ReleaseCalled h => Some h | _ => None end) (rt_log s).
Definition unreleased (s : ContinuityRuntime) : list handle := map sf_target (filter (fun o => sf_released o = false) (rt_objects s)).

(** Instructions that will close a connection, or give back a slot, by themselves. *)
Definition closes (x : instr) : option handle := match x with ICreate a => Some (ad_target a) | ITargetClose h => Some h | _ => None end.
Definition releases (x : instr) : option handle := match x with ICreate a => Some (ad_target a) | IReleaseCall h => Some h | _ => None end.

(** Those that see to the target of a flow, to its slot, or are its end. *)
Definition sees_target (i : nat) (x : instr) : bool :=
  match x with IRegister j _ _ | IPublish j _ | IFinish j | IRelease j => bool_decide (i = j) | _ => false end.
Definition sees_slot (i : nat) (x : instr) : bool :=
  match x with IRegister j _ _ | IPublish j _ | IFinish j | IRunRelease j => bool_decide (i = j) | _ => false end.
Definition finishing (i : nat) (x : instr) : bool :=
  match x with IFinishControl j | IFinishRelease j | IFinishSlot j => bool_decide (i = j) | _ => false end.

(** The registry holds the connection of a flow. *)
Definition held (s : ContinuityRuntime) (o : serverContinuityFlow) : Prop :=
  exists id x, fr_flows (rt_registry s) !! id = Some x /\ f_upstream x = sf_target o.

Definition object_ok (s : ContinuityRuntime) (M : list instr) (i : nat) (o : serverContinuityFlow) : Prop :=
  match sf_finish o with
  | Fresh => (held s o -> some_of (sees_target i) M) /\ (sf_released o = false -> some_of (sees_slot i) M)
  | Running => some_of (finishing i) M
  | Finished => ~ held s o /\ sf_released o = true
  end.

(** The invariant of the state and of all that is left to do. *)
Record inv (s : ContinuityRuntime) (M : list instr) : Prop := {
  in_flows : flows_ok (rt_registry s);
  in_targets : handed s ≡ₚ targets_closed s ++ upstreams (fr_flows (rt_registry s)) ++ omap closes M;
  in_slots : exists direct, handed s ≡ₚ map sf_target (rt_objects s) ++ direct ++ omap releases M /\
    slots_released s ++ unreleased s ≡ₚ map sf_target (rt_objects s) ++ direct;
  in_keys : forall id x, fr_flows (rt_registry s) !! id = Some x -> exists i o, rt_objects s !! i = Some o /\
    sf_target o = f_upstream x /\ sf_id o = id /\ sf_principal o = f_principal x /\ sf_constellation o = f_constellation x;
  in_objects : forall i o, rt_objects s !! i = Some o -> object_ok s M i o;
  in_ends : forall i, IFinishSlot i ∈ M -> exists o, rt_objects s !! i = Some o /\ ~ held s o;
  in_create : forall a, ICreate a ∈ M -> is_zero (ad_flow a) = false;
  in_close : rt_close s = Finished -> fr_closed (rt_registry s) = true
}.

Lemma inv_perm s M M' : M ≡ₚ M' -> inv s M -> inv s M'.
Proof.
  intros H [F T (direct & S1 & S2) K O E C L]. constructor; try done.
  - by rewrite <- H.
  - exists direct. by rewrite <- H.
  - intros i o Hi. specialize (O i o Hi). unfold object_ok in *. destruct (sf_finish o); [|by eapply some_of_perm|done].
    destruct O as [O1 O2]. split; intros Hx; (eapply some_of_perm; [exact H|]); auto.
  - intros i Hi. apply E. by rewrite H.
  - intros a Ha. apply C. by rewrite H.
Qed.

Lemma NoDup_handed s : NoDup (handed s).
Proof. apply (NoDup_fmap_2 Z.of_nat), NoDup_seq. Qed.

(** Two flows have two connections. *)
Lemma target_inj s M i j o o' : inv s M -> rt_objects s !! i = Some o -> rt_objects s !! j = Some o' -> sf_target o = sf_target o' -> i = j.
Proof.
  intros H Hi Hj E. destruct (in_slots _ _ H) as (direct & S1 & _). pose proof (NoDup_handed s) as N. rewrite S1 in N. apply NoDup_app in N as [N _].
  change (NoDup (sf_target <$> rt_objects s)) in N. apply (NoDup_lookup _ i j (sf_target o) N); rewrite list_lookup_fmap; [by rewrite Hi|by rewrite Hj, E].
Qed.

(** ** Steps that keep it *)

(** Objects that differ in what the invariant does not see. *)
Definition similar (o o' : serverContinuityFlow) : Prop :=
  sf_id o' = sf_id o /\ sf_principal o' = sf_principal o /\ sf_constellation o' = sf_constellation o /\ sf_target o' = sf_target o.

Lemma similar_targets os os' : Forall2 similar os os' -> map sf_target os' = map sf_target os.
Proof. induction 1 as [|o o' os os' (_ & _ & _ & E) _ IH]; [done|]. cbn. by rewrite E, IH. Qed.

(** A step that leaves the registry alone. *)
Lemma inv_moved_on s s' x k R : inv s (x :: R) ->
  rt_registry s' = rt_registry s -> rt_handed s' = rt_handed s -> targets_closed s' ++ omap closes k = targets_closed s ++ omap closes [x] -> Forall2 similar (rt_objects s) (rt_objects s') ->
  (forall direct, slots_released s ++ unreleased s ≡ₚ map sf_target (rt_objects s) ++ direct ->
    exists direct', slots_released s' ++ unreleased s' ≡ₚ map sf_target (rt_objects s) ++ direct' /\ direct' ++ omap releases k ≡ₚ direct ++ omap releases [x]) ->
  (forall i o', rt_objects s' !! i = Some o' -> object_ok s' (k ++ R) i o') ->
  (forall i, IFinishSlot i ∈ k -> exists o, rt_objects s' !! i = Some o /\ ~ held s' o) ->
  (forall a, ICreate a ∉ k) -> (rt_close s' = Finished -> fr_closed (rt_registry s) = true) -> inv s' (k ++ R).
Proof.
  intros [F T (direct & S1 & S2) K O E C L] Hr Hh Hc Hs Hd Ho He Ha Hl. pose proof (similar_targets _ _ Hs) as Ht.
  assert (Hh' : handed s' = handed s) by (unfold handed; by rewrite Hh). constructor.
  - by rewrite Hr.
  - rewrite Hr, Hh', T. change (x :: R) with ([x] ++ R). rewrite !omap_app.
    rewrite (Permutation_app_comm (upstreams _) (omap closes k ++ _)), (Permutation_app_comm (upstreams _) (omap closes [x] ++ _)), !app_assoc. by rewrite Hc.
  - destruct (Hd direct S2) as (direct' & H1 & H2). exists direct'. rewrite Ht, Hh', S1. split; [|done].
    change (x :: R) with ([x] ++ R). rewrite !omap_app, !app_assoc, <- !(app_assoc (map _ _)). by rewrite H2.
  - rewrite Hr. intros id y Hy. destruct (K id y Hy) as (i & o & Hi & Hk). destruct (Forall2_lookup_l _ _ _ i o Hs Hi) as (o' & Hi' & E1 & E2 & E3 & E4).
    exists i, o'. by rewrite E1, E2, E3, E4.
  - exact Ho.
  - intros i [Hi|Hi]%elem_of_app; [by apply He|]. destruct (E i) as (o & Ho1 & Ho2); [by right|].
    destruct (Forall2_lookup_l _ _ _ i o Hs Ho1) as (o' & Hi' & _ & _ & _ & E4). exists o'. split; [done|]. unfold held. rewrite Hr, E4. exact Ho2.
  - intros a [Hi|Hi]%elem_of_app; [by apply Ha in Hi|]. apply C. by right.
  - rewrite Hr. exact Hl.
Qed.

(** An object whose guardians stay. *)
Lemma object_swap s s' x k R i o o' : object_ok s (x :: R) i o -> rt_registry s' = rt_registry s -> similar o o' -> sf_finish o' = sf_finish o -> sf_released o' = sf_released o ->
  (sf_finish o = Fresh -> held s o -> sees_target i x = true -> some_of (sees_target i) k) -> (sf_finish o = Fresh -> sf_released o = false -> sees_slot i x = true -> some_of (sees_slot i) k) ->
  (finishing i x = true -> some_of (finishing i) k) -> object_ok s' (k ++ R) i o'.
Proof.
  unfold object_ok, held. intros H Er (_ & _ & _ & Et) Ef El Ht Hs Hf. rewrite Er, Et, Ef, El. destruct (sf_finish o); [|apply some_of_cons in H; apply some_of_app; tauto|done].
  destruct H as [H1 H2]. split; intros Hx; [specialize (H1 Hx); apply some_of_cons in H1|specialize (H2 Hx); apply some_of_cons in H2]; apply some_of_app; tauto.
Qed.

(** Nothing changes but what the invariant does not see, and [k] guards what [x] did. *)
Record unseen (s s' : ContinuityRuntime) : Prop := {
  un_registry : rt_registry s' = rt_registry s; un_handed : rt_handed s' = rt_handed s;
  un_closed : targets_closed s' = targets_closed s; un_released : slots_released s' = slots_released s;
  un_objects : Forall2 (fun o o' => similar o o' /\ sf_finish o' = sf_finish o /\ sf_released o' = sf_released o) (rt_objects s) (rt_objects s');
  un_close : rt_close s' = Finished -> rt_close s = Finished \/ fr_closed (rt_registry s) = true
}.

Lemma unseen_unreleased s s' : unseen s s' -> unreleased s' = unreleased s.
Proof.
  intros H. unfold unreleased. induction (un_objects _ _ H) as [|o o' os os' ((_ & _ & _ & E) & _ & El) _ IH]; [done|].
  rewrite !filter_cons, El. destruct (decide _); cbn; by rewrite IH, ?E.
Qed.

Definition guarded (s : ContinuityRuntime) (x : instr) (k : list instr) : Prop :=
  omap closes k = omap closes [x] /\ omap releases k = omap releases [x] /\ Forall (fun y => match y with ICreate _ => False | IFinishSlot i => exists o, rt_objects s !! i = Some o /\ ~ held s o | _ => True end) k /\
  forall i o, rt_objects s !! i = Some o -> (sf_finish o = Fresh -> held s o -> sees_target i x = true -> some_of (sees_target i) k) /\
    (sf_finish o = Fresh -> sf_released o = false -> sees_slot i x = true -> some_of (sees_slot i) k) /\ (finishing i x = true -> some_of (finishing i) k).

Lemma inv_unseen s s' x k R : inv s (x :: R) -> unseen s s' -> guarded s x k -> inv s' (k ++ R).
Proof.
  intros H U (Gc & Gr & Gk & Gi). pose proof (unseen_unreleased _ _ U) as Eu. destruct U as [U1 U2 U3 U4 U5 U6]. eapply inv_moved_on; try done.
  - by rewrite U3, Gc.
  - eapply Forall2_impl; [exact U5|]. by intros ? ? (? & _).
  - intros direct Hd. exists direct. by rewrite U4, Eu, Gr.
  - intros i o' Hi. destruct (Forall2_lookup_r _ _ _ i o' U5 Hi) as (o & Ho & S1 & S2 & S3). destruct (Gi i o Ho) as (G1 & G2 & G3).
    eapply object_swap; try done. by apply (in_objects _ _ H).
  - intros i Hi. rewrite Forall_forall in Gk. destruct (Gk _ Hi) as (o & Ho & Hn). destruct (Forall2_lookup_l _ _ _ i o U5 Ho) as (o' & Ho' & (_ & _ & _ & Et) & _ & _).
    exists o'. split; [done|]. unfold held. by rewrite U1, Et.
  - intros a Ha. rewrite Forall_forall in Gk. by apply Gk in Ha.
  - intros Hx. destruct (U6 Hx) as [Hy|Hy]; [by apply (in_close _ _ H)|done].
Qed.

(** *** The registry gives up connections *)

Definition shrinks (r r' : FlowRegistry) : Prop := forall id y, fr_flows r' !! id = Some y -> exists x, fr_flows r !! id = Some x /\
  f_upstream x = f_upstream y /\ f_principal x = f_principal y /\ f_constellation x = f_constellation y.

Lemma inv_registry s r' closed M : inv s M -> flows_ok r' -> closed ++ upstreams (fr_flows r') ≡ₚ upstreams (fr_flows (rt_registry s)) ->
  shrinks (rt_registry s) r' -> (fr_closed (rt_registry s) = true -> fr_closed r' = true) -> inv (with_registry s r' closed) M.
Proof.
  intros [F T S K O E C L] Hf Hp Hs Hc. assert (Hheld : forall o, held (with_registry s r' closed) o -> held s o).
  { intros o (id & y & Hy & Eo). destruct (Hs id y Hy) as (x & Hx & Eu & _). exists id, x. split; [done|]. by rewrite Eu. }
  constructor; try done.
  - unfold targets_closed. cbn [rt_log with_registry rt_registry]. rewrite omap_app. change (omap _ (rt_log s)) with (targets_closed s).
    assert (Ec : omap (fun e => match e with TargetClosed h => Some h | _ => None end) (map TargetClosed closed) = closed) by (clear; induction closed as [|h l IH]; cbn; congruence).
    rewrite Ec, T, <- Hp, !app_assoc. done.
  - destruct S as (direct & S1 & S2). exists direct. split; [exact S1|]. unfold slots_released, unreleased in *. cbn [rt_log with_registry rt_objects].
    rewrite omap_app. assert (Ec : omap (fun e => match e with ReleaseCalled h => Some h | _ => None end) (map TargetClosed closed) = []) by (clear; by induction closed).
    by rewrite Ec, app_nil_r.
  - intros id y Hy. destruct (Hs id y Hy) as (x & Hx & Eu & Ep & Ecc). destruct (K id x Hx) as (i & o & Hi & H1 & H2 & H3 & H4). exists i, o. split; [done|].
    by rewrite <- Eu, <- Ep, <- Ecc.
  - intros i o Hi. specialize (O i o Hi). unfold object_ok in *. destruct (sf_finish o); [|done|].
    + destruct O as [O1 O2]. split; [|done]. intros Hx. by apply O1, Hheld.
    + destruct O as [O1 O2]. split; [|done]. intros Hx. by apply O1, Hheld.
  - intros i Hi. destruct (E i Hi) as (o & Ho & Hn). exists o. split; [done|]. intros Hx. by apply Hn, Hheld.
  - intros Hx. apply Hc. by apply L.
Qed.

Lemma release_shrinks r p c f r' closed o : Release close_err r p c f = (r', closed, o) -> shrinks r r' /\ (fr_closed r = true -> fr_closed r' = true).
Proof.
  intros [(-> & _)|(x & Hc & Hx & _ & _ & _ & _ & ->)]%Release_cases; [split; [|done]; intros id y Hy; by exists y|]. split; [|done].
  intros id y Hy. cbn in Hy. apply lookup_delete_Some in Hy as [_ Hy]. by exists y.
Qed.

(** After a flow has released its entry, the registry does not hold its connection. *)
Lemma released_unheld s i o r' closed e M : inv s M -> rt_objects s !! i = Some o ->
  Release close_err (rt_registry s) (sf_principal o) (sf_constellation o) (sf_id o) = (r', closed, e) -> ~ held (with_registry s r' closed) o.
Proof.
  intros H Hi Hr (id & y & Hy & Eo). cbn [rt_registry with_registry] in Hy. destruct (release_shrinks _ _ _ _ _ _ _ Hr) as [Hs _].
  destruct (Hs id y Hy) as (x & Hx & Eu & _). destruct (in_keys _ _ H id x Hx) as (j & o' & Hj & H1 & H2 & H3 & H4).
  assert (j = i) as -> by (eapply target_inj; try done; by rewrite H1, Eu). rewrite Hi in Hj. injection Hj as <-. subst id.
  pose proof (in_flows _ _ H) as F. destruct F as (_ & _ & _ & _ & Ff & Fc). assert (Hk := Ff _ _ Hx). destruct Hk as (_ & K1 & K2 & _).
  unfold Release in Hr. destruct (fr_closed (rt_registry s)) eqn:Ec; [by rewrite Fc, lookup_empty in Hx|]. rewrite Hx in Hr.
  rewrite H3, H4, K1, K2 in Hr. rewrite !(proj2 (bytes_eq_true _ _)) in Hr by done. cbn [orb negb] in Hr. injection Hr as <- _ _. cbn in Hy.
  by rewrite lookup_delete_eq in Hy.
Qed.

Lemma inv_release s i o r' closed e M : inv s M -> rt_objects s !! i = Some o ->
  Release close_err (rt_registry s) (sf_principal o) (sf_constellation o) (sf_id o) = (r', closed, e) -> inv (with_registry s r' closed) M.
Proof.
  intros H Hi Hr. destruct (release_shrinks _ _ _ _ _ _ _ Hr) as [Hs Hc]. pose proof (flow_step_ok close_err _ (FRelease (sf_principal o) (sf_constellation o) (sf_id o)) (in_flows _ _ H)) as Hf.
  cbn [flow_step] in Hf. rewrite Hr in Hf. destruct Hf as [Hf Hp]. by apply inv_registry.
Qed.

(** *** What the invariant does not see *)

Lemma same_objects os : Forall2 (fun o o' => similar o o' /\ sf_finish o' = sf_finish o /\ sf_released o' = sf_released o) os os.
Proof. induction os; by repeat constructor. Qed.

Lemma unseen_refl s : unseen s s.
Proof. constructor; try done; [apply same_objects|auto]. Qed.

Lemma unseen_object s i o o' : rt_objects s !! i = Some o -> similar o o' -> sf_finish o' = sf_finish o -> sf_released o' = sf_released o -> unseen s (with_object s i o').
Proof.
  intros Hi H1 H2 H3. constructor; try done; [|auto]. cbn [rt_objects with_object]. rewrite <- (list_insert_id _ _ _ Hi) at 1.
  by apply Forall2_insert; [apply same_objects|].
Qed.

Lemma unseen_logged s events : omap (fun e => match e with TargetClosed h => Some h | _ => None end) events = [] ->
  omap (fun e => match e with ReleaseCalled h => Some h | _ => None end) events = [] -> unseen s (logged s events).
Proof.
  intros H1 H2. constructor; try done; [| |apply same_objects|auto].
  - unfold targets_closed. cbn. by rewrite omap_app, H1, app_nil_r.
  - unfold slots_released. cbn. by rewrite omap_app, H2, app_nil_r.
Qed.

Lemma unseen_table s flows wait : unseen s (with_table s flows wait).
Proof. constructor; try done; [apply same_objects|auto]. Qed.

Lemma unseen_register s c i key id s' e : register s c i key id = (s', e) -> unseen s s'.
Proof.
  unfold register. destruct (rt_controls s !! c) as [channel|]; [|intros [= <- _]; apply unseen_refl]. destruct (Register channel id _) as [channel' r].
  destruct r; intros [= <- _]; [|apply unseen_refl]. constructor; try done; [apply same_objects|auto].
Qed.

Lemma unseen_unregister s c id : unseen s (unregister s c id).
Proof. unfold unregister. destruct (rt_controls s !! c); [|apply unseen_refl]. constructor; try done; [apply same_objects|auto]. Qed.

Lemma unseen_cancelled s closed close : close <> Finished -> unseen s (logged (with_close s closed close) [ContextCancelled]).
Proof.
  intros Hc. constructor; try done; [| |apply same_objects].
  - unfold targets_closed. cbn. by rewrite omap_app, app_nil_r.
  - unfold slots_released. cbn. by rewrite omap_app, app_nil_r.
Qed.

Lemma relay_goroutine_cases s i w ans s' : relay_goroutine s i w ans = Some s' -> exists o r c, rt_objects s !! i = Some o /\
  relay_step (relay_view s i o) (sf_relay o) w ans = Some (r, c) /\
  s' = logged (with_object s i (with_relay o r)) (match c with None => [] | Some CloseTarget => [RelayClosed (sf_target o)] | Some CloseStream => [StreamClosed i] end).
Proof.
  unfold relay_goroutine. destruct (rt_objects s !! i) as [o|]; [|done]. cbn. destruct (relay_step _ _ _ _) as [[r c]|] eqn:E; [|done]. cbn.
  intros [= <-]. by exists o, r, c.
Qed.

Lemma unseen_relay s i w ans s' : relay_goroutine s i w ans = Some s' -> unseen s s'.
Proof.
  intros (o & r & c & Ho & _ & ->)%relay_goroutine_cases. destruct (unseen_object s i o (with_relay o r) Ho) as [U1 U2 U3 U4 U5 U6]; try done.
  constructor; try done.
  - unfold targets_closed in *. cbn in *. rewrite omap_app. destruct c as [[]|]; by rewrite app_nil_r.
  - unfold slots_released in *. cbn in *. rewrite omap_app. destruct c as [[]|]; by rewrite app_nil_r.
Qed.

(** Instructions that guard nothing, followed by such that own nothing. *)
Definition plain (x : instr) : bool :=
  match x with
  | ICreate _ | ITargetClose _ | IReleaseCall _ | IRegister _ _ _ | IPublish _ _ | IFinish _ | IRelease _ | IRunRelease _ | IFinishControl _ | IFinishRelease _ | IFinishSlot _ => false
  | _ => true
  end.
Definition owns (x : instr) : bool := match x with ICreate _ | ITargetClose _ | IReleaseCall _ | IFinishSlot _ => true | _ => false end.

Lemma not_owning k : forallb (fun y => negb (owns y)) k = true -> omap closes k = [] /\ omap releases k = [] /\
  forall s, Forall (fun y => match y with ICreate _ => False | IFinishSlot i => exists o, rt_objects s !! i = Some o /\ ~ held s o | _ => True end) k.
Proof.
  induction k as [|y k IH]; [done|]. cbn. intros [Hy (H1 & H2 & H3)%IH]%andb_true_iff. destruct y; try done; split_and!; auto; intros; by constructor.
Qed.

Lemma guarded_plain s x k : plain x = true -> forallb (fun y => negb (owns y)) k = true -> guarded s x k.
Proof.
  intros Hx Hk. destruct (not_owning k Hk) as (H1 & H2 & H3). unfold guarded. rewrite H1, H2. split_and!; try done; [by destruct x|by destruct x|].
  intros i o _. by destruct x.
Qed.

(** A plain step whose state change is unseen. *)
Lemma inv_plain s s' x k R : inv s (x :: R) -> unseen s s' -> plain x = true -> forallb (fun y => negb (owns y)) k = true -> inv s' (k ++ R).
Proof. intros H U Hx Hk. eapply inv_unseen; [done..|]. by apply guarded_plain. Qed.

(** *** The steps that matter *)

Lemma Create_given r q r' fl : is_zero (fc_flow q) = false -> Flows.Create r [] q = (r', Ok fl) -> fl_id fl = fc_flow q.
Proof.
  intros Hz. unfold Flows.Create. rewrite Hz. repeat (case_match; try done); intros [= _ <-]; cbn; congruence.
Qed.

Definition new_flow (a : admission) : serverContinuityFlow :=
  mkFlowObject (ad_flow a) (ad_principal a) (ad_constellation a) (ad_target a) (Some (ad_control a)) (ad_key a) None 0 false Fresh idle_relay.

Lemma inv_create s a R registry fl k : inv s (ICreate a :: R) ->
  Flows.Create (rt_registry s) [] (mkCreate (ad_principal a) (ad_constellation a) (ad_flow a) (ad_key a) (Some (ad_target a))) = (registry, Ok fl) ->
  k = [IRegister (length (rt_objects s)) (ad_control a) (ad_key a)] -> inv (new_object s registry (new_flow a)) (k ++ R).
Proof.
  intros H Hc ->. assert (Hz : is_zero (ad_flow a) = false) by (apply (in_create _ _ H); by left). pose proof (Create_given _ (mkCreate (ad_principal a) (ad_constellation a) (ad_flow a) (ad_key a) (Some (ad_target a))) _ _ Hz Hc) as Hid.
  pose proof (Create_ok _ _ _ _ _ Hc) as (up & id & Hup & Hcl & Hx & Hn & Hs & Hp & -> & Er). cbn in Hup. injection Hup as <-. cbn in Hid. subst id.
  pose proof (flow_step_ok close_err _ (FCreate [] (mkCreate (ad_principal a) (ad_constellation a) (ad_flow a) (ad_key a) (Some (ad_target a)))) (in_flows _ _ H)) as Hf.
  cbn [flow_step] in Hf. rewrite Hc in Hf. destruct Hf as [Hf Hperm]. cbn [app] in Hperm. cbn [snapshotFlow fl_upstream f_upstream] in Hperm.
  destruct H as [F T (direct & S1 & S2) K O E C L].
  assert (Hfresh : Forall (fun o => sf_target o <> ad_target a) (rt_objects s)).
  { apply Forall_forall. intros o Ho Eq. pose proof (NoDup_handed s) as N. rewrite S1 in N. apply NoDup_app in N as (_ & N & _). apply (N (sf_target o)).
    - apply list_elem_of_fmap. by exists o.
    - apply elem_of_app. right. cbn. rewrite Eq. by left. }
  assert (Hsame : forall o, o ∈ rt_objects s -> held (new_object s registry (new_flow a)) o -> held s o).
  { intros o Ho (id & y & Hy & Eo). cbn [rt_registry new_object] in Hy. rewrite Er in Hy. cbn [fr_flows with_flows] in Hy. apply lookup_insert_Some in Hy as [[_ <-]|[_ Hy]]; [|by exists id, y].
    rewrite Forall_forall in Hfresh. by destruct (Hfresh o Ho). }
  constructor.
  - exact Hf.
  - change (handed (new_object _ _ _)) with (handed s). change (targets_closed (new_object _ _ _)) with (targets_closed s). cbn [rt_registry new_object]. rewrite T. apply Permutation_app_head.
    rewrite Hperm. cbn. by rewrite <- Permutation_middle.
  - exists direct. change (handed (new_object _ _ _)) with (handed s). change (slots_released (new_object _ _ _)) with (slots_released s). unfold unreleased in *. cbn [rt_objects new_object].
    rewrite map_app, filter_app. cbn [filter list_filter new_flow sf_released]. rewrite map_app. split.
    + rewrite S1. cbn. rewrite <- !app_assoc. apply Permutation_app_head. cbn. by rewrite Permutation_middle.
    + cbn. rewrite app_assoc, S2, <- !app_assoc. apply Permutation_app_head, Permutation_app_comm.
  - cbn [rt_registry new_object rt_objects]. rewrite Er. cbn [fr_flows with_flows fc_principal fc_constellation fc_lease]. intros id y [[<- <-]|[_ Hy]]%lookup_insert_Some.
    + exists (length (rt_objects s)), (new_flow a). by rewrite list_lookup_middle.
    + destruct (K id y Hy) as (i & o & Hi & Hk). exists i, o. split; [|done]. by apply lookup_app_l_Some.
  - cbn [rt_objects new_object]. intros i o [Hi|[Hi Ho]]%lookup_app_Some.
    + specialize (O i o Hi). unfold object_ok in *. assert (Hin : o ∈ rt_objects s) by (by eapply list_elem_of_lookup_2).
      assert (Hmore : forall p, p (ICreate a) = false -> some_of p (ICreate a :: R) -> some_of p ([IRegister (length (rt_objects s)) (ad_control a) (ad_key a)] ++ R)).
      { intros p Hpp Hx'. apply some_of_app. right. apply some_of_cons in Hx' as [Hx'|Hx']; congruence || done. }
      destruct (sf_finish o); [|by apply Hmore|].
      * destruct O as [O1 O2]. split; intros Hx'; apply Hmore; auto.
      * destruct O as [O1 O2]. split; [|done]. intros Hx'. by apply O1, Hsame.
    + apply list_lookup_singleton_Some in Ho as [Ei <-]. unfold object_ok. cbn [sf_finish new_flow].
      assert (Hreg : forall p, p (IRegister (length (rt_objects s)) (ad_control a) (ad_key a)) = true -> some_of p ([IRegister (length (rt_objects s)) (ad_control a) (ad_key a)] ++ R)).
      { intros p Hpp. apply some_of_app. left. eexists. split; [by left|done]. }
      split; intros _; apply Hreg; cbn; apply bool_decide_true; lia.
  - intros i [Hi|Hi]%elem_of_app; [by apply list_elem_of_singleton in Hi|]. destruct (E i) as (o & Ho & Hn'); [by right|]. exists o. split; [cbn; by apply lookup_app_l_Some|].
    intros Hx'. apply Hn', Hsame; [by eapply list_elem_of_lookup_2|done].
  - intros b [Hi|Hi]%elem_of_app; [by apply list_elem_of_singleton in Hi|]. apply C. by right.
  - cbn [rt_close new_object rt_registry]. intros Hx'. rewrite Er. cbn. by apply L.
Qed.

(** One object moves on, and may give back its slot. *)
Lemma inv_moves s i o o' (released : bool) x k R : inv s (x :: R) -> rt_objects s !! i = Some o -> similar o o' ->
  (if released then sf_released o = false /\ sf_released o' = true else sf_released o' = sf_released o) ->
  omap closes k = omap closes [x] -> omap releases k = omap releases [x] -> Forall (fun y => owns y = false) k ->
  let s' := logged (with_object s i o') (if released then [ReleaseCalled (sf_target o)] else []) in
  object_ok s' (k ++ R) i o' ->
  (forall j, j <> i -> (sees_target j x = true -> False) /\ (sees_slot j x = true -> False) /\ (finishing j x = true -> False)) -> inv s' (k ++ R).
Proof.
  intros H Hi Hs Hr Hc Hrel Hk s' Ho Hj. pose proof (lookup_lt_Some _ _ _ Hi) as Hlt. eapply inv_moved_on; try done.
  - unfold targets_closed, s'. cbn [rt_log logged with_object]. rewrite omap_app, Hc. f_equal. destruct released; cbn; by rewrite app_nil_r.
  - unfold s'. cbn [rt_objects logged with_object]. rewrite <- (list_insert_id _ _ _ Hi) at 1. apply Forall2_insert; [|done]. clear. by induction (rt_objects s); constructor.
  - intros direct Hd. exists direct. split; [|by rewrite Hrel]. rewrite <- Hd. unfold slots_released, unreleased, s'. cbn [rt_log logged with_object rt_objects].
    rewrite omap_app, <- app_assoc. apply Permutation_app_head. destruct Hs as (_ & _ & _ & Et).
    rewrite insert_take_drop by done. rewrite <- (take_drop_middle _ _ _ Hi) at 3. rewrite !filter_app, !filter_cons, !map_app. destruct released; cbn.
    + destruct Hr as [-> ->]. rewrite decide_False, decide_True by done. cbn. by rewrite <- Permutation_middle.
    + rewrite Hr. destruct (decide _); cbn; by rewrite ?Et.
  - unfold s'. cbn [rt_objects logged with_object]. intros j o2 Hj2. destruct (decide (j = i)) as [->|Hne].
    + rewrite list_lookup_insert_eq in Hj2 by done. by injection Hj2 as <-.
    + rewrite list_lookup_insert_ne in Hj2 by done. destruct (Hj j Hne) as (J1 & J2 & J3).
      apply (object_swap s s' x k R j o2 o2); try done; [by apply (in_objects _ _ H)|..]; intros; exfalso; auto.
  - intros j Hj2. rewrite Forall_forall in Hk. by apply Hk in Hj2.
  - intros a Ha. rewrite Forall_forall in Hk. by apply Hk in Ha.
  - exact (in_close _ _ H).
Qed.

(** Only the connection itself is dealt with. *)
Lemma inv_direct s x R : inv s (x :: R) -> match x with ITargetClose h => inv (logged s [TargetClosed h]) R | IReleaseCall h => inv (logged s [ReleaseCalled h]) R | _ => True end.
Proof.
  intros H. assert (Hno : forall e, (forall i, sees_target i x = false /\ sees_slot i x = false /\ finishing i x = false) ->
    forall i o, rt_objects (logged s [e]) !! i = Some o -> object_ok (logged s [e]) ([] ++ R) i o).
  { intros e Hx i o Hi. destruct (Hx i) as (X1 & X2 & X3). apply (object_swap s (logged s [e]) x [] R i o o); try done; [by apply (in_objects _ _ H)|..]; congruence. }
  destruct x; try done; eapply (inv_moved_on _ _ _ [] R H); try done; try (by apply Hno); try (by cbn; clear; induction (rt_objects s); constructor);
    try (by intros i Hi; apply not_elem_of_nil in Hi); try (by intros a Ha; apply not_elem_of_nil in Ha); try exact (in_close _ _ H).
  - unfold targets_closed. cbn. by rewrite omap_app, app_nil_r.
  - intros direct Hd. exists direct. split; [|done]. rewrite <- Hd. unfold slots_released. cbn. by rewrite omap_app, app_nil_r.
  - unfold targets_closed. cbn. by rewrite omap_app, !app_nil_r.
  - intros direct Hd. exists (direct ++ [h]). split; [|cbn; by rewrite app_nil_r]. rewrite app_assoc, <- Hd. unfold slots_released, unreleased. cbn [rt_log logged rt_objects].
    rewrite omap_app. cbn. rewrite <- !app_assoc. apply Permutation_app_head, Permutation_app_comm.
Qed.

(** *** Every instruction *)

(** The flow an instruction is about, if it guards something of it. *)
Definition about (x : instr) : option nat :=
  match x with
  | IRegister i _ _ | IPublish i _ | IFinish i | IRelease i | IRunRelease i | IFinishControl i | IFinishRelease i | IFinishSlot i | IStreamClose i => Some i
  | _ => None
  end.

Lemma sees_about i x : sees_target i x = true \/ sees_slot i x = true \/ finishing i x = true -> about x = Some i.
Proof. destruct x; cbn; rewrite ?bool_decide_eq_true; intros; naive_solver. Qed.

Lemma inv_guarded s x k R : inv s (x :: R) -> guarded s x k -> inv s (k ++ R).
Proof. intros H G. by eapply inv_unseen; [|apply unseen_refl|]. Qed.

(** What is left over guards what the instruction guarded. *)
Lemma guarded_by s x k i : about x = Some i -> omap closes [x] = [] -> omap releases [x] = [] -> forallb (fun y => negb (owns y)) k = true ->
  (forall o, rt_objects s !! i = Some o ->
    (sf_finish o = Fresh -> held s o -> sees_target i x = true -> some_of (sees_target i) k) /\ (sf_finish o = Fresh -> sf_released o = false -> sees_slot i x = true -> some_of (sees_slot i) k) /\
    (finishing i x = true -> some_of (finishing i) k)) -> guarded s x k.
Proof.
  intros Ha Hc Hr Hk H. destruct (not_owning k Hk) as (K1 & K2 & K3). unfold guarded. rewrite K1, K2, Hc, Hr. split_and!; try done.
  intros j o Hj. split_and!; intros.
  1,2: assert (j = i) as -> by (assert (about x = Some j) by (apply sees_about; auto); congruence); destruct (H o Hj) as (? & ? & ?); auto.
  assert (j = i) as -> by (assert (about x = Some j) by (apply sees_about; auto); congruence). destruct (H o Hj) as (? & ? & ?); auto.
Qed.

Lemma inv_absent s x i R : inv s (x :: R) -> about x = Some i -> rt_objects s !! i = None -> omap closes [x] = [] -> omap releases [x] = [] -> inv s ([] ++ R).
Proof. intros H Ha Hi Hc Hr. eapply inv_guarded; [exact H|]. eapply guarded_by; try done. intros o Ho. congruence. Qed.

Hint Resolve some_here some_later : runtime.
Hint Extern 2 (bool_decide _ = true) => apply bool_decide_true : runtime.

(** The undoing of an admission guards its flow. *)
Lemma undo_guards i e : some_of (sees_target i) (undo_admission i e) /\ some_of (sees_slot i) (undo_admission i e).
Proof. unfold undo_admission. split; [apply some_later, some_here|apply some_later, some_later, some_here]; cbn; by apply bool_decide_true. Qed.

Lemma inv_register s i c key R s' e : inv s (IRegister i c key :: R) -> forall o, rt_objects s !! i = Some o -> register s c i key (sf_id o) = (s', e) ->
  inv s' (match e with Some e => undo_admission i (Some e) | None => [IPublish i c] end ++ R).
Proof.
  intros H o Ho Hr. eapply inv_unseen; [exact H|by eapply unseen_register|]. eapply guarded_by; try done; [by destruct e|].
  intros o' _. destruct e; [pose proof (undo_guards i (Some e)) as [? ?]; by split_and!|]. split_and!; try done; intros; apply some_here; cbn; by apply bool_decide_true.
Qed.

Lemma inv_published s i c R o : inv s (IPublish i c :: R) -> rt_objects s !! i = Some o ->
  inv (with_table s (<[sf_id o := i]> (rt_flows s)) (rt_wait s + 1)) (([IReturn None] ++ concat [[IRelay i; IFinish i; IWaitDone i]]) ++ R) /\
  forall e, inv s ((IUnregister c (sf_id o) :: undo_admission i e) ++ R).
Proof.
  intros H Ho. split.
  - eapply inv_unseen; [exact H|apply unseen_table|]. eapply guarded_by; try done. intros o' _. split_and!; try done; intros; cbn [app concat]; apply some_later, some_later, some_here; cbn; by apply bool_decide_true.
  - intros e. eapply inv_guarded; [exact H|]. eapply guarded_by; try done. intros o' _. pose proof (undo_guards i e) as [? ?]. split_and!; try done; intros; by apply some_later.
Qed.

Lemma inv_finish s i R o : inv s (IFinish i :: R) -> rt_objects s !! i = Some o ->
  match sf_finish o with
  | Fresh => inv (with_table (with_object s i (with_once o (sf_released o) Running)) (delete (sf_id o) (rt_flows s)) (rt_wait s)) ([IFinishControl i] ++ R)
  | Running => True
  | Finished => inv s ([] ++ R)
  end.
Proof.
  intros H Ho. pose proof (in_objects _ _ H i o Ho) as Hok. unfold object_ok in Hok. destruct (sf_finish o) eqn:Ef; [|done|].
  - pose proof (inv_moves s i o (with_once o (sf_released o) Running) false (IFinish i) [IFinishControl i] R H Ho) as Hm. cbn zeta iota in Hm.
    assert (Hinv : inv (logged (with_object s i (with_once o (sf_released o) Running)) []) ([IFinishControl i] ++ R)).
    { apply Hm; try done; [by repeat constructor| |].
      - unfold object_ok. cbn. apply some_here. cbn. by apply bool_decide_true.
      - intros j Hj. cbn. rewrite !bool_decide_eq_true. naive_solver. }
    eapply (inv_unseen _ _ (IFinishControl i) [IFinishControl i] R Hinv).
    + destruct (unseen_table (logged (with_object s i (with_once o (sf_released o) Running)) []) (delete (sf_id o) (rt_flows s)) (rt_wait s)) as [U1 U2 U3 U4 U5 U6].
      constructor; try done; unfold targets_closed, slots_released in *; cbn in *; by rewrite ?app_nil_r in *.
    + eapply guarded_by; try done. intros o' _. split_and!; try done. intros _. apply some_here. cbn. by apply bool_decide_true.
  - eapply inv_guarded; [exact H|]. eapply guarded_by; try done. intros o' Ho'. rewrite Ho in Ho'. injection Ho' as <-. rewrite Ef. by split_and!.
Qed.

Lemma inv_released s i R o : inv s (IRelease i :: R) \/ inv s (IFinishRelease i :: R) -> rt_objects s !! i = Some o -> forall r' closed e,
  Release close_err (rt_registry s) (sf_principal o) (sf_constellation o) (sf_id o) = (r', closed, e) ->
  (inv s (IRelease i :: R) -> inv (with_registry s r' closed) ([] ++ R)) /\ (inv s (IFinishRelease i :: R) -> inv (with_registry s r' closed) ([IFinishSlot i] ++ R)).
Proof.
  intros _ Ho r' closed e Hr. split; intros H; pose proof (inv_release _ _ _ _ _ _ _ H Ho Hr) as Hi; pose proof (released_unheld _ _ _ _ _ _ _ H Ho Hr) as Hn.
  - eapply inv_guarded; [exact Hi|]. eapply guarded_by; try done. intros o' Ho'. cbn in Ho'. rewrite Ho in Ho'. injection Ho' as <-. by split_and!.
  - eapply inv_guarded; [exact Hi|]. unfold guarded. split_and!; try done; [constructor; [by exists o|constructor]|]. intros j o' Hj. split_and!; try done. intros Hf. by apply some_here.
Qed.

Lemma inv_run_release s i R o : inv s (IRunRelease i :: R) -> rt_objects s !! i = Some o ->
  if sf_released o then inv s ([] ++ R) else inv (logged (with_object s i (with_once o true (sf_finish o))) [ReleaseCalled (sf_target o)]) ([] ++ R).
Proof.
  intros H Ho. pose proof (in_objects _ _ H i o Ho) as Hok. destruct (sf_released o) eqn:El.
  - eapply inv_guarded; [exact H|]. eapply guarded_by; try done. intros o' Ho'. rewrite Ho in Ho'. injection Ho' as <-. split_and!; try done. congruence.
  - apply (inv_moves s i o (with_once o true (sf_finish o)) true (IRunRelease i) [] R); try done.
    + unfold object_ok in *. cbn [sf_finish with_once sf_released app]. destruct (sf_finish o).
      * destruct Hok as [O1 O2]. split; [|done]. intros Hx. specialize (O1 Hx). apply some_of_cons in O1 as [O1|O1]; [done|exact O1].
      * apply some_of_cons in Hok as [Hok|Hok]; [done|exact Hok].
      * split; [|done]. exact (proj1 Hok).
    + intros j Hj. cbn. rewrite !bool_decide_eq_true. naive_solver.
Qed.

Lemma inv_finish_slot s i R o : inv s (IFinishSlot i :: R) -> rt_objects s !! i = Some o ->
  inv (logged (with_object s i (with_once o true Finished)) (if sf_released o then [] else [ReleaseCalled (sf_target o)])) ([] ++ R).
Proof.
  intros H Ho. destruct (in_ends _ _ H i) as (o2 & Ho2 & Hn); [by left|]. rewrite Ho in Ho2. injection Ho2 as <-.
  pose proof (inv_moves s i o (with_once o true Finished) (negb (sf_released o)) (IFinishSlot i) [] R H Ho) as Hm. cbn zeta in Hm.
  replace (if sf_released o then [] else [ReleaseCalled (sf_target o)]) with (if negb (sf_released o) then [ReleaseCalled (sf_target o)] else []) by (by destruct (sf_released o)).
  apply Hm; try done; [by destruct (sf_released o)|intros j Hj; cbn; rewrite !bool_decide_eq_true; naive_solver].
Qed.

Lemma inv_attach s i metadata l c R registry closed r : inv s (IAttach i metadata l c :: R) ->
  Flows.Attach close_err (rt_registry s) (mkAttach (le_principal l) (le_constellation l) (om_flow metadata) (le_key l) (om_epoch metadata)) = (registry, closed, r) ->
  inv (with_registry s registry closed) (IAttach i metadata l c :: R).
Proof.
  intros H Ha. pose proof (flow_step_ok close_err _ (FAttach (mkAttach (le_principal l) (le_constellation l) (om_flow metadata) (le_key l) (om_epoch metadata))) (in_flows _ _ H)) as Hf.
  cbn [flow_step] in Hf. rewrite Ha in Hf. destruct Hf as [Hf Hp]. apply inv_registry; try done;
    apply Attach_cases in Ha as [(-> & _)|(x & Hc & Hx & Hpr & Hcc & _ & [(_ & _ & -> & _)|[(_ & _ & _ & -> & _)|(_ & _ & -> & _)]])]; try done; try (by intros id y Hy; exists y).
  - intros id y Hy. cbn in Hy. apply lookup_insert_Some in Hy as [[<- <-]|[_ Hy]]; [by exists x|by exists y].
  - intros id y Hy. cbn in Hy. apply lookup_delete_Some in Hy as [_ Hy]. by exists y.
Qed.

Lemma inv_close_registry s R registry closed e : inv s (ICloseRegistry :: R) -> Flows.Close close_err (rt_registry s) = (registry, closed, e) ->
  inv (with_close (with_registry s registry closed) (rt_closed s) Finished) ([] ++ R).
Proof.
  intros H Hc. pose proof (flow_step_ok close_err _ FClose (in_flows _ _ H)) as Hf. cbn [flow_step] in Hf. rewrite Hc in Hf. destruct Hf as [Hf Hp].
  assert (fr_closed registry = true /\ shrinks (rt_registry s) registry) as [Hcl Hsh].
  { unfold Flows.Close in Hc. destruct (fr_closed (rt_registry s)) eqn:Ec; injection Hc as <- _ _; [by split; [|intros id y Hy; exists y]|]. split; [done|]. intros id y Hy. cbn [fr_flows] in Hy. by rewrite lookup_empty in Hy. }
  pose proof (inv_registry _ _ _ _ H Hf Hp Hsh (fun _ => Hcl)) as Hi. eapply (inv_plain _ _ ICloseRegistry [] R Hi); try done.
  constructor; try done; [apply same_objects|by right].
Qed.

Lemma exec_inv s x e s' k started R : inv s (x :: R) -> exec s x e = Some (s', k, started) -> inv s' ((k ++ concat started) ++ R).
Proof.
  intros H. destruct x; cbn [exec]; execs;
    try (destruct (rt_objects s !! i) as [o|] eqn:Ho; [|intros [= <- <- <-]; first [by eapply inv_absent|by eapply inv_plain; [exact H|apply unseen_refl|..]]]);
    cbn [concat]; rewrite ?app_nil_r.
  - destruct (Flows.Create _ _ _) as [registry [fl|e']] eqn:Ec; intros [= <- <- <-]; cbn [concat]; rewrite ?app_nil_r; [by eapply inv_create|].
    eapply inv_guarded; [exact H|]. unfold guarded. split_and!; [done|done|by repeat constructor|intros ? ? ?; by split_and!].
  - intros [= <- <- <-]. eapply inv_plain; [exact H|by apply unseen_logged|done..].
  - intros [= <- <- <-]. exact (inv_direct _ _ _ H).
  - intros [= <- <- <-]. exact (inv_direct _ _ _ H).
  - destruct (register s c i key (sf_id o)) as [s1 [e'|]] eqn:Er; intros [= <- <- <-]; cbn [concat]; rewrite ?app_nil_r; exact (inv_register _ _ _ _ _ _ _ H _ Ho Er).
  - destruct (inv_published _ _ _ _ _ H Ho) as [H1 H2]. destruct (rt_closed s); [intros [= <- <- <-]; cbn [concat]; rewrite app_nil_r; apply H2|].
    destruct (rt_flows s !! sf_id o); intros [= <- <- <-]; [cbn [concat]; rewrite app_nil_r; apply H2|exact H1].
  - intros [= <- <- <-]. eapply inv_plain; [exact H|by apply unseen_logged|done..].
  - intros [= <- <- <-]. eapply inv_plain; [exact H|apply unseen_unregister|done..].
  - destruct (Flows.Release _ _ _ _ _) as [[registry closed] r] eqn:Er. intros [= <- <- <-]. exact (proj1 (inv_released _ _ _ _ (or_introl H) Ho _ _ _ Er) H).
  - pose proof (inv_run_release _ _ _ _ H Ho) as Hr. destruct (sf_released o); intros [= <- <- <-]; exact Hr.
  - destruct (rl_caller (sf_relay o)); try done; intros [= <- <- <-]; cbn [concat]; rewrite ?app_nil_r;
      [eapply inv_plain; [exact H|by apply (unseen_object _ _ o)|done..]|eapply inv_plain; [exact H|apply unseen_refl|done..]].
  - intros [= <- <- <-]. eapply inv_plain; [exact H|apply unseen_table|done..].
  - pose proof (inv_finish _ _ _ _ H Ho) as Hf. destruct (sf_finish o); intros [= <- <- <-]; exact Hf.
  - intros [= <- <- <-]. cbn [concat]. rewrite app_nil_r. eapply inv_unseen; [exact H|by apply (unseen_object _ _ o)|]. eapply guarded_by; try done; [by destruct (sf_control o)|].
    intros o' _. split_and!; try done. intros _. apply some_of_app. right. apply some_later, some_here. cbn. by apply bool_decide_true.
  - destruct (Flows.Release _ _ _ _ _) as [[registry closed] r] eqn:Er. intros [= <- <- <-]. exact (proj2 (inv_released _ _ _ _ (or_intror H) Ho _ _ _ Er) H).
  - intros [= <- <- <-]. exact (inv_finish_slot _ _ _ _ H Ho).
  - repeat case_match; intros [= <- <- <-]; (eapply inv_plain; [exact H|apply unseen_refl|done..]).
  - destruct (Flows.Attach _ _ _) as [[registry closed] r] eqn:Ea. pose proof (inv_attach _ _ _ _ _ _ _ _ _ H Ea) as Hi.
    destruct r as [fl|e']; intros [= <- <- <-]; cbn [concat]; rewrite app_nil_r; (eapply inv_plain; [exact Hi|apply unseen_refl|done|]); [done|by destruct (errors_is e' _)].
  - destruct e; intros [= <- <- <-]; (eapply inv_plain; [exact H|apply unseen_refl|done|]); [done|by case_bool_decide].
  - destruct (register s c i key (sf_id o)) as [s1 [e'|]] eqn:Er; intros [= <- <- <-]; (eapply inv_plain; [exact H|by eapply unseen_register|done..]).
  - intros [= <- <- <-]. eapply inv_plain; [exact H|by apply (unseen_object _ _ o)|done..].
  - destruct e; intros [= <- <- <-]; cbn [concat]; rewrite app_nil_r; (eapply inv_plain; [exact H|apply unseen_refl|done|]); [by case_bool_decide|done].
  - destruct e; intros [= <- <- <-]; cbn [concat]; rewrite app_nil_r; (eapply inv_plain; [exact H|apply unseen_refl|done|]); [by case_bool_decide|].
    unfold unregister_other. destruct old; [case_bool_decide|]; done.
  - intros [= <- <- <-]. eapply inv_plain; [exact H|by apply (unseen_object _ _ o)|done..].
  - intros [= <- <- <-]. eapply inv_plain; [exact H|by apply (unseen_object _ _ o)|done..].
  - destruct (rt_bindings s !! b) as [[j key]|]; [|intros [= <- <- <-]; eapply inv_plain; [exact H|apply unseen_refl|done..]].
    destruct (errors_is _ _); [intros [= <- <- <-]; eapply inv_plain; [exact H|apply unseen_refl|done..]|].
    destruct (rt_objects s !! j) as [o|]; [|intros [= <- <- <-]; eapply inv_plain; [exact H|apply unseen_refl|done..]].
    intros [= <- <- <-]. cbn [concat]. rewrite app_nil_r. eapply inv_plain; [exact H|apply unseen_refl|done|by case_match].
  - destruct (negb _); intros [= <- <- <-]; [apply (inv_plain s s (IBeginMigration i lost) [] R); [exact H|apply unseen_refl|done..]|].
    eapply (inv_plain _ _ _ [ITimer i lost _] R); [exact H|by apply (unseen_object _ _ o)|done..].
  - intros [= <- <- <-]. cbn [concat]. rewrite app_nil_r. eapply inv_plain; [exact H|apply unseen_refl|done|by case_match].
  - intros [= <- <- <-]. cbn [concat]. rewrite app_nil_r. eapply inv_plain; [exact H|apply unseen_refl|done|by case_match].
  - destruct (rt_close s) eqn:El; [| |]; try done; intros [= <- <- <-]; cbn [concat]; rewrite ?app_nil_r; [|eapply inv_plain; [exact H|apply unseen_refl|done..]].
    eapply inv_plain; [exact H|by apply unseen_cancelled|done|]. rewrite forallb_app. apply andb_true_iff. split; [|done]. apply forallb_forall. by intros y (kv & <- & _)%in_map_iff.
  - destruct (rt_wait s =? 0); [|done]. intros [= <- <- <-]. eapply inv_plain; [exact H|apply unseen_refl|done..].
  - destruct (Flows.Close _ _) as [[registry closed] r] eqn:Ec. intros [= <- <- <-]. exact (inv_close_registry _ _ _ _ _ H Ec).
  - intros [= <- <- <-]. eapply inv_plain; [exact H|by apply unseen_logged|done..].
  - intros [= <- <- <-]. eapply inv_plain; [exact H|by apply unseen_logged|done..].
Qed.

(** *** The whole system *)

Lemma inv_more s k M : inv s M -> forallb (fun y => negb (owns y)) k = true -> inv s (k ++ M).
Proof.
  intros [F T (direct & S1 & S2) K O E C L] Hk. destruct (not_owning k Hk) as (K1 & K2 & _). constructor; try done.
  - by rewrite omap_app, K1.
  - exists direct. by rewrite omap_app, K2.
  - intros i o Hi. specialize (O i o Hi). unfold object_ok in *. destruct (sf_finish o); [|apply some_of_app; by right|done].
    destruct O as [O1 O2]. split; intros Hx; apply some_of_app; right; auto.
  - intros i [Hi|Hi]%elem_of_app; [|by apply E]. apply list_elem_of_In in Hi. rewrite forallb_forall in Hk. by apply Hk in Hi.
  - intros a [Hi|Hi]%elem_of_app; [|by apply C]. apply list_elem_of_In in Hi. rewrite forallb_forall in Hk. by apply Hk in Hi.
Qed.

Lemma inv_called s s' k M : inv s M -> unseen s s' -> forallb (fun y => negb (owns y)) k = true -> inv s' (k ++ M).
Proof. intros H U Hk. apply (inv_plain s s' (IReturn None) k M); [by apply (inv_more s [IReturn None])|done..]. Qed.

Lemma handed_more s events : handed (handed_over s events) = handed s ++ [Z.of_nat (rt_handed s)].
Proof. unfold handed. cbn [rt_handed handed_over]. by rewrite seq_S, map_app. Qed.

Lemma inv_handed s M h physical : inv s M -> h = Z.of_nat (rt_handed s) ->
  inv (handed_over s (closeContinuityInputs physical h)) M /\ forall a, ad_target a = h -> is_zero (ad_flow a) = false -> inv (handed_over s []) (ICreate a :: M).
Proof.
  intros [F T (direct & S1 & S2) K O E C L] ->. split; [|intros a Ha Hz].
  - constructor; try done.
    + rewrite handed_more, T. unfold targets_closed. cbn [rt_log handed_over rt_registry]. rewrite omap_app.
      replace (omap _ (closeContinuityInputs physical _)) with [Z.of_nat (rt_handed s)] by (by destruct physical). rewrite <- !app_assoc. apply Permutation_app_head.
      rewrite (app_assoc (upstreams _)). apply Permutation_app_comm.
    + exists (direct ++ [Z.of_nat (rt_handed s)]). rewrite handed_more, S1. split.
      * cbn [rt_objects handed_over]. rewrite <- !app_assoc. apply Permutation_app_head, Permutation_app_head. cbn. by rewrite Permutation_app_comm.
      * cbn [rt_objects handed_over]. unfold slots_released, unreleased. cbn [rt_log handed_over rt_objects]. rewrite omap_app.
        replace (omap _ (closeContinuityInputs physical _)) with [Z.of_nat (rt_handed s)] by (by destruct physical).
        rewrite app_assoc, <- S2, <- !app_assoc. apply Permutation_app_head, Permutation_app_comm.
  - constructor; try done.
    + rewrite handed_more, T. unfold targets_closed. cbn. rewrite app_nil_r, Ha. by rewrite <- !app_assoc, (Permutation_app_comm (omap closes M)).
    + exists direct. rewrite handed_more, S1. cbn [rt_objects handed_over]. unfold slots_released, unreleased. cbn. rewrite app_nil_r, Ha. split; [|exact S2].
      by rewrite <- !app_assoc, (Permutation_app_comm (omap releases M)).
    + intros i o Hi. specialize (O i o Hi). unfold object_ok in *. destruct (sf_finish o); [|by apply some_later|done].
      destruct O as [O1 O2]. split; intros Hx; apply some_later; auto.
    + intros i [Hi|Hi]%elem_of_cons; [done|by apply E].
    + intros b [[= ->]|Hi]%elem_of_cons; [done|by apply C].
Qed.

Lemma aborts_plain es : forallb (fun y => negb (owns y)) (aborts es) = true.
Proof. induction es as [|e es IH]; [done|]. destruct e; done. Qed.

(** What the goroutines have left to do, in all. *)
Definition pending (y : system) : list instr := concat y.2.

Lemma step_counted y y' : system_step y y' -> inv y.1 (pending y) -> inv y'.1 (pending y').
Proof.
  intros [[s threads] t e y'' Ht|s threads i w ans s' Hw|s threads|s threads metadata l physical transport stream s' k Hv Ha|s threads metadata l physical|s threads|s threads c channel id reason Hc|s threads c channel reason Hc] H;
    unfold pending in *; cbn [fst snd] in *; [|by apply (inv_called s s' [] _ H (unseen_relay _ _ _ _ _ Hw))|by apply (inv_called s _ [] _ H); [apply unseen_logged|]|..].
  - cbn in Ht. destruct (threads !! t) as [[|x rest]|] eqn:El; [done| |done]. destruct (exec s x e) as [[[s' k] started]|] eqn:Ex; [|done]. cbn in Ht. injection Ht as <-. cbn [fst snd].
    destruct (concat_lookup _ _ _ _ El) as (R & H1 & H2). eapply inv_perm; [symmetry; apply H2|]. eapply exec_inv; [|exact Ex]. by eapply inv_perm.
  - rewrite concat_app. cbn [concat]. rewrite app_nil_r. eapply inv_perm; [apply Permutation_app_comm|]. destruct (inv_handed s _ _ physical H eq_refl) as [H1 H2]. unfold AdmitNew in Ha. cbv zeta in Ha.
    assert (Hz : is_zero (om_flow metadata) = false) by (unfold validateOpen in Hv; destruct (is_zero (om_flow metadata)); [by rewrite orb_true_r in Hv|done]).
    destruct (le_control l); [|injection Ha as <- <-; by apply inv_more]. destruct (_ || _); [injection Ha as <- <-; by apply inv_more|].
    destruct transport; [injection Ha as <- <-; by apply inv_more|]. destruct stream; injection Ha as <- <-; [by apply inv_more|]. by apply H2.
  - rewrite concat_app. cbn [concat]. rewrite app_nil_r. eapply inv_perm; [apply Permutation_app_comm|]. apply inv_more; [done|]. unfold Resume. destruct (le_control l), physical; cbn; try done; by destruct (_ || _).
  - rewrite concat_app. cbn [concat]. rewrite app_nil_r. eapply inv_perm; [apply Permutation_app_comm|]. by apply inv_more.
  - rewrite concat_app. cbn [concat]. rewrite app_nil_r. eapply inv_perm; [apply Permutation_app_comm|]. eapply inv_called; [exact H|constructor; try done; [apply same_objects|auto]|]. apply aborts_plain.
  - rewrite concat_app. cbn [concat]. rewrite app_nil_r. eapply inv_perm; [apply Permutation_app_comm|]. eapply inv_called; [exact H|constructor; try done; [apply same_objects|auto]|]. apply aborts_plain.
Qed.

(** The limits of the registry never change. *)
Definition limits (s : ContinuityRuntime) : Z * Z := (fr_max (rt_registry s), fr_max_principal (rt_registry s)).

Lemma register_limits s c i key id : limits (register s c i key id).1 = limits s.
Proof. unfold register. repeat case_match; done. Qed.

Lemma unregister_limits s c id : limits (unregister s c id) = limits s.
Proof. unfold unregister. by case_match. Qed.

Lemma exec_limits s x e s' k started : exec s x e = Some (s', k, started) -> limits s' = limits s.
Proof.
  destruct x; cbn [exec]; execs; try (destruct (rt_objects s !! i) as [o|]; [|by intros [= <- _ _]]);
    try (by intros [= <- _ _]); try (by repeat (case_match; try done); intros [= <- _ _]).
  - destruct (Flows.Create _ _ _) as [registry [fl|e']] eqn:Ec; intros [= <- _ _]; [|done]. apply Create_ok in Ec as (? & ? & _ & _ & _ & _ & _ & _ & _ & ->). done.
  - pose proof (register_limits s c i key (sf_id o)) as Hl. destruct (register _ _ _ _ _) as [s1 [e'|]]; intros [= <- _ _]; done.
  - intros [= <- _ _]. apply unregister_limits.
  - destruct (Flows.Release _ _ _ _ _) as [[registry closed] r] eqn:Er. intros [= <- _ _]. apply Release_cases in Er as [(-> & _)|(x & _ & _ & _ & _ & _ & _ & ->)]; done.
  - destruct (Flows.Release _ _ _ _ _) as [[registry closed] r] eqn:Er. intros [= <- _ _]. apply Release_cases in Er as [(-> & _)|(x & _ & _ & _ & _ & _ & _ & ->)]; done.
  - destruct (Flows.Attach _ _ _) as [[registry closed] r] eqn:Ea.
    assert (Hl : limits (with_registry s registry closed) = limits s) by (apply Attach_cases in Ea as [(-> & _)|(x & _ & _ & _ & _ & _ & [(_ & _ & -> & _)|[(_ & _ & _ & -> & _)|(_ & _ & -> & _)]])]; done).
    destruct r; intros [= <- _ _]; exact Hl.
  - pose proof (register_limits s c i key (sf_id o)) as Hl. destruct (register _ _ _ _ _) as [s1 [e'|]]; intros [= <- _ _]; done.
  - destruct (Flows.Close _ _) as [[registry closed] r] eqn:Ec. intros [= <- _ _]. unfold Flows.Close in Ec. destruct (fr_closed (rt_registry s)); by injection Ec as <- _ _.
Qed.

Lemma step_limits y y' : system_step y y' -> limits y'.1 = limits y.1.
Proof.
  intros [[s threads] t e y'' Ht|s threads i w ans s' Hw| |s threads metadata l physical transport stream s' k Hv Ha| | | |]; try done; cbn [fst].
  - cbn in Ht. destruct (threads !! t) as [[|x rest]|]; [done| |done]. destruct (exec s x e) as [[[s' k] started]|] eqn:Ex; [|done]. cbn in Ht. injection Ht as <-. by eapply exec_limits.
  - apply relay_goroutine_cases in Hw as (o & r & c & _ & _ & ->). done.
  - unfold AdmitNew in Ha. cbv zeta in Ha. repeat (case_match; try (by injection Ha as <- _)).
Qed.

(** An instruction that deals with the connection [h] or its slot. *)
Definition works_on (s : ContinuityRuntime) (h : handle) (x : instr) : bool :=
  bool_decide (closes x = Some h) || bool_decide (releases x = Some h) ||
  match about x with Some i => match rt_objects s !! i with Some o => bool_decide (sf_target o = h) | None => false end | None => false end.

(** A connection that nothing works on is settled. *)
Lemma inv_settled s M h : inv s M -> h ∈ handed s -> (forall x, x ∈ M -> works_on s h x = false) -> h ∈ targets_closed s /\ h ∈ slots_released s.
Proof.
  intros H Hh Hw. assert (Hno : forall x, x ∈ M -> closes x <> Some h /\ releases x <> Some h).
  { intros x Hx. specialize (Hw x Hx). unfold works_on in Hw. apply orb_false_iff in Hw as [[H1 H2]%orb_false_iff _]. by apply bool_decide_eq_false in H1, H2. }
  assert (Hi : forall i o p, rt_objects s !! i = Some o -> sf_target o = h -> (forall x, p x = true -> about x = Some i) -> ~ some_of p M).
  { intros i o p Ho Ht Hp (x & Hx & Hpx). specialize (Hw x Hx). unfold works_on in Hw. rewrite (Hp x Hpx), Ho, (bool_decide_true (sf_target o = h)), orb_true_r in Hw by done. done. }
  assert (Hfin : forall i o, rt_objects s !! i = Some o -> sf_target o = h -> ~ held s o /\ sf_released o = true).
  { intros i o Ho Ht. pose proof (in_objects _ _ H i o Ho) as Hok. unfold object_ok in Hok. destruct (sf_finish o).
    - destruct Hok as [O1 O2]. split; [intros Hx; exact (Hi i o _ Ho Ht (fun x Hp => sees_about i x (or_introl Hp)) (O1 Hx))|].
      destruct (sf_released o) eqn:El; [done|]. destruct (Hi i o _ Ho Ht (fun x Hp => sees_about i x (or_intror (or_introl Hp))) (O2 eq_refl)).
    - destruct (Hi i o _ Ho Ht (fun x Hp => sees_about i x (or_intror (or_intror Hp))) Hok).
    - exact Hok. }
  split.
  - pose proof Hh as Hh'. rewrite (in_targets _ _ H) in Hh'. apply elem_of_app in Hh' as [Hc|[Hu|Ho]%elem_of_app]; [done| |].
    + unfold upstreams in Hu. apply list_elem_of_fmap in Hu as ([id x] & Eh & Hx). apply elem_of_map_to_list in Hx. cbn in Eh.
      destruct (in_keys _ _ H id x Hx) as (i & o & Ho & Ht & _). destruct (Hfin i o Ho) as [Hn _]; [by rewrite Ht|]. destruct Hn. by exists id, x.
    + apply list_elem_of_omap in Ho as (x & Hx & Ex). by destruct (Hno x Hx).
  - destruct (in_slots _ _ H) as (direct & S1 & S2). rewrite S1 in Hh. rewrite app_assoc in Hh. apply elem_of_app in Hh as [Hd|Ho].
    + rewrite <- S2 in Hd. apply elem_of_app in Hd as [Hd|Hd]; [done|]. apply list_elem_of_fmap in Hd as (o & Eh & [El Ho]%list_elem_of_filter).
      apply list_elem_of_lookup in Ho as [i Ho]. destruct (Hfin i o Ho) as [_ Hr]; [done|]. congruence.
    + apply list_elem_of_omap in Ho as (x & Hx & Ex). by destruct (Hno x Hx).
Qed.

Lemma steps_inv y y' : rtc system_step y y' -> inv y.1 (pending y) -> inv y'.1 (pending y') /\ limits y'.1 = limits y.1.
Proof. induction 1 as [y|y y2 y3 Hs _ IH]; intros H; [done|]. rewrite <- (step_limits _ _ Hs). apply IH. by eapply step_counted. Qed.

Definition start (registry : FlowRegistry) (channels : list ControlChannel) : ContinuityRuntime := mkRuntime registry ∅ false Fresh 0 [] channels [] 0 [].

Lemma start_counted registry channels : flows_ok registry /\ fr_flows registry = ∅ /\ fr_closed registry = false -> inv (start registry channels) [].
Proof.
  intros (F0 & E0 & C0). constructor; cbn; try done; [by rewrite E0|exists []; done|rewrite E0; by intros id x Hx|by intros i Hi%not_elem_of_nil|by intros a Ha%not_elem_of_nil].
Qed.

Lemma start_limits n m registry channels : NewFlowRegistry n m = Ok registry -> limits (start registry channels) = (n, m).
Proof. unfold NewFlowRegistry. destruct (_ || _); [done|]. intros H. by apply Ok_inj in H as <-. Qed.

(** *** Progress *)

Definition weight (x : instr) : nat :=
  match x with
  | IFinishRelease _ => 2 | IFinishControl _ => 5 | IFinish _ => 6 | IPublish _ _ => 16 | IRegister _ _ _ => 17 | ICreate _ => 31
  | IReplaceStream _ _ _ _ => 4 | IDetach _ _ _ _ => 5 | ISetControl _ _ _ _ _ => 6 | IRebind _ _ _ _ _ => 7 | IReplace _ _ _ => 8 | IAttach _ _ _ _ => 9 | ILookup _ _ _ => 10
  | IExpire _ _ _ => 7 | ITimer _ _ _ => 8 | IBeginMigration _ _ => 9 | IAbort _ _ => 10 | IClose => 3 | _ => 1
  end.
Definition total (M : list instr) : nat := sum_list_with weight M.
(** The work left: a [Close] to come finishes every flow of the table, and every
    flow has its relay. *)
Definition calls_work (s : ContinuityRuntime) (M : list instr) : nat := total M + (if bool_decide (rt_close s = Fresh) then 6 * size (rt_flows s) else 0).
Definition relays_work (s : ContinuityRuntime) : nat := sum_list_with (fun o => relay_work (sf_relay o)) (rt_objects s).
Definition work (s : ContinuityRuntime) (M : list instr) : nat := calls_work s M + relays_work s.

Lemma total_app M M' : total (M ++ M') = (total M + total M')%nat.
Proof. apply sum_list_with_app. Qed.

Lemma total_perm M M' : M ≡ₚ M' -> total M = total M'.
Proof. intros H. unfold total. by rewrite H. Qed.

Lemma size_insert_le (m : gmap (list byte) nat) k v : (size (<[k := v]> m) <= S (size m))%nat.
Proof. rewrite map_size_insert. destruct (m !! k); unfold id; cbn; lia. Qed.

Lemma size_delete_le (m : gmap (list byte) nat) k : (size (delete k m) <= size m)%nat.
Proof. apply map_subseteq_size, delete_subseteq. Qed.

Lemma register_table s c i key id s' e : register s c i key id = (s', e) -> rt_flows s' = rt_flows s /\ rt_close s' = rt_close s /\ rt_wait s' = rt_wait s /\ rt_objects s' = rt_objects s.
Proof. unfold register. repeat case_match; by intros [= <- _]. Qed.

Lemma unregister_table s c id : rt_flows (unregister s c id) = rt_flows s /\ rt_close (unregister s c id) = rt_close s /\ rt_wait (unregister s c id) = rt_wait s /\ rt_objects (unregister s c id) = rt_objects s.
Proof. unfold unregister. by case_match. Qed.

Lemma total_finishes l : total (map (fun kv : list byte * nat => IFinish kv.2) l) = (6 * length l)%nat.
Proof. induction l as [|kv l IH]; [done|]. unfold total in *. cbn. lia. Qed.

Lemma sum_insert {A} (f : A -> nat) (l : list A) i a b : l !! i = Some a -> (sum_list_with f (<[i:=b]> l) + f a = sum_list_with f l + f b)%nat.
Proof.
  intros H. pose proof (lookup_lt_Some _ _ _ H) as Hlt. rewrite insert_take_drop by done. rewrite <- (take_drop_middle _ _ _ H) at 3.
  rewrite !sum_list_with_app. cbn. lia.
Qed.

(** What an instruction starts of relays, and what it does to them. *)
Definition starts (x : instr) : nat := match x with ICreate _ => 13 | _ => 0 end.
Definition spends (x : instr) (k : list instr) : nat := match x with IRelay _ => length k | _ => 0 end.

Lemma exec_relays s x e s' k started : exec s x e = Some (s', k, started) -> (relays_work s' + spends x k <= relays_work s + starts x)%nat.
Proof.
  intros H. assert (Hset : forall i o o', rt_objects s !! i = Some o -> sf_relay o' = sf_relay o ->
    sum_list_with (fun o => relay_work (sf_relay o)) (<[i:=o']> (rt_objects s)) = relays_work s).
  { intros i o o' Hi E. pose proof (sum_insert (fun o => relay_work (sf_relay o)) _ _ _ o' Hi) as H1. unfold relays_work. cbn beta in H1. rewrite E in H1. lia. }
  unfold relays_work at 1. destruct x; cbn [exec] in H; execs_in H; cbn [starts spends].
  all: try (destruct (rt_objects s !! i) as [o|] eqn:Ho; [|injection H as <- <- <-; unfold relays_work; cbn; lia]).
  all: try (repeat (case_match; try done); injection H as <- <- <-;
    first [unfold relays_work; cbn; lia | cbn [rt_objects with_object with_table logged]; rewrite (Hset _ _ _ Ho) by done; lia]).
  - destruct (Flows.Create _ _ _) as [registry [fl|e']]; injection H as <- <- <-; cbn; [|unfold relays_work; lia]. rewrite sum_list_with_app. unfold relays_work. cbn. lia.
  - destruct (register _ _ _ _ _) as [s1 [e'|]] eqn:Er; apply register_table in Er as (_ & _ & _ & E4); injection H as <- <- <-; rewrite E4; unfold relays_work; lia.
  - destruct (unregister_table s c id) as (_ & _ & _ & E4). injection H as <- <- <-. rewrite E4. unfold relays_work. lia.
  - destruct (rl_caller (sf_relay o)) eqn:El; try done; injection H as <- <- <-; [|unfold relays_work; cbn; lia].
    pose proof (sum_insert (fun o => relay_work (sf_relay o)) _ _ _ (with_relay o (start_relay (sf_relay o))) Ho) as H1. cbn beta in H1. unfold relays_work. cbn [rt_objects with_object length].
    assert (relay_work (sf_relay (with_relay o (start_relay (sf_relay o)))) + 1 = relay_work (sf_relay o))%nat by (unfold relay_work, start_relay; cbn; rewrite El; lia). lia.
  - destruct (register _ _ _ _ _) as [s1 [e'|]] eqn:Er; apply register_table in Er as (_ & _ & _ & E4); injection H as <- <- <-; rewrite E4; unfold relays_work; lia.
Qed.

Lemma exec_calls s x e s' k started R : exec s x e = Some (s', k, started) ->
  (calls_work s' ((k ++ concat started) ++ R) + starts x < calls_work s (x :: R) + spends x k)%nat.
Proof.
  unfold calls_work. rewrite !total_app. change (total (x :: R)) with (weight x + total R)%nat.
  assert (Hsame : forall s1, rt_flows s1 = rt_flows s -> rt_close s1 = rt_close s -> (if bool_decide (rt_close s1 = Fresh) then 6 * size (rt_flows s1) else 0)%nat = (if bool_decide (rt_close s = Fresh) then 6 * size (rt_flows s) else 0)%nat) by (by intros s1 -> ->).
  destruct x; cbn [exec weight starts spends]; execs; try (destruct (rt_objects s !! i) as [o|]; [|intros [= <- <- <-]; unfold total; cbn; lia]);
    try (by intros [= <- <- <-]; try rewrite Hsame by done; unfold total; cbn; repeat case_match; cbn; lia).
  - destruct (Flows.Create _ _ _) as [registry [fl|e']]; intros [= <- <- <-]; try rewrite Hsame by done; unfold total; cbn; lia.
  - destruct (register _ _ _ _ _) as [s1 [e'|]] eqn:Er; apply register_table in Er as (E1 & E2 & _); intros [= <- <- <-]; try rewrite Hsame by done; unfold total; cbn; lia.
  - destruct (rt_closed s); [intros [= <- <- <-]; try rewrite Hsame by done; unfold total; cbn; lia|]. destruct (rt_flows s !! sf_id o); intros [= <- <- <-]; [try rewrite Hsame by done; unfold total; cbn; lia|].
    cbn [rt_close rt_flows with_table]. pose proof (size_insert_le (rt_flows s) (sf_id o) i). unfold total. cbn. case_bool_decide; lia.
  - destruct (unregister_table s c id) as (E1 & E2 & _). intros [= <- <- <-]. try rewrite Hsame by done. unfold total. cbn. lia.
  - destruct (Flows.Release _ _ _ _ _) as [[registry closed] r]. intros [= <- <- <-]. try rewrite Hsame by done. unfold total. cbn. lia.
  - destruct (sf_released o); intros [= <- <- <-]; try rewrite Hsame by done; unfold total; cbn; lia.
  - destruct (rl_caller (sf_relay o)); try done; intros [= <- <- <-]; try rewrite Hsame by done; unfold total; cbn; lia.
  - destruct (sf_finish o); [|done|]; intros [= <- <- <-]; [|try rewrite Hsame by done; unfold total; cbn; lia].
    cbn [rt_close rt_flows with_table with_object]. pose proof (size_delete_le (rt_flows s) (sf_id o)). unfold total. cbn. case_bool_decide; lia.
  - destruct (Flows.Release _ _ _ _ _) as [[registry closed] r]. intros [= <- <- <-]. try rewrite Hsame by done. unfold total. cbn. lia.
  - destruct (rt_closed s); [|destruct (rt_flows s !! _)]; intros [= <- <- <-]; try rewrite Hsame by done; unfold total; cbn; lia.
  - destruct (Flows.Attach _ _ _) as [[registry closed] [fl|e']]; intros [= <- <- <-]; try rewrite Hsame by done; unfold total; cbn; repeat case_match; cbn; lia.
  - destruct e; intros [= <- <- <-]; try rewrite Hsame by done; unfold total; cbn; repeat case_match; cbn; lia.
  - destruct (register _ _ _ _ _) as [s1 [e'|]] eqn:Er; apply register_table in Er as (E1 & E2 & _); intros [= <- <- <-]; try rewrite Hsame by done; unfold total; cbn; lia.
  - destruct e; intros [= <- <- <-]; try rewrite Hsame by done; unfold total; cbn; repeat case_match; cbn; lia.
  - unfold unregister_other. destruct e; intros [= <- <- <-]; try rewrite Hsame by done; unfold total; cbn; repeat case_match; cbn; lia.
  - destruct (rt_bindings s !! b) as [[j key]|]; [|intros [= <- <- <-]; try rewrite Hsame by done; unfold total; cbn; lia].
    destruct (errors_is _ _); [intros [= <- <- <-]; try rewrite Hsame by done; unfold total; cbn; lia|].
    destruct (rt_objects s !! j); intros [= <- <- <-]; try rewrite Hsame by done; unfold total; cbn; repeat case_match; cbn; lia.
  - destruct (negb _); intros [= <- <- <-]; try rewrite Hsame by done; unfold total; cbn; lia.
  - destruct (rt_close s) eqn:El; [|done|]; intros [= <- <- <-]; [|rewrite El; unfold total; cbn; lia].
    rewrite total_app, total_finishes, length_map_to_list. cbn [rt_close with_close logged]. rewrite (bool_decide_false (Running = Fresh)), (bool_decide_true (Fresh = Fresh)) by done. unfold total. cbn. unfold map_size. lia.
  - destruct (rt_wait s =? 0); [|done]. intros [= <- <- <-]. try rewrite Hsame by done. unfold total. cbn. lia.
  - destruct (Flows.Close _ _) as [[registry closed] r]. intros [= <- <- <-]. cbn [rt_close with_close]. rewrite (bool_decide_false (Finished = Fresh)) by done. unfold total. cbn. lia.
Qed.

(** Every instruction is worth more than what it leaves. *)
Lemma exec_work s x e s' k started R : exec s x e = Some (s', k, started) -> (work s' ((k ++ concat started) ++ R) < work s (x :: R))%nat.
Proof. intros H. pose proof (exec_calls _ _ _ _ _ _ R H). pose proof (exec_relays _ _ _ _ _ _ H). unfold work. lia. Qed.

Lemma relay_goroutine_work s i w ans s' M : relay_goroutine s i w ans = Some s' -> (work s' M < work s M)%nat.
Proof.
  intros (o & r & c & Ho & Hr & ->)%relay_goroutine_cases. apply relay_step_work in Hr. pose proof (sum_insert (fun o => relay_work (sf_relay o)) _ _ _ (with_relay o r) Ho) as H1.
  unfold work, calls_work, relays_work. cbn in *. lia.
Qed.

(** *** No deadlock *)

Definition ordinary (x : instr) : bool := match x with IClose | IWait | ICloseRegistry => false | _ => true end.
Definition shutting (x : instr) : bool := match x with IClose | IWaitDone _ => false | _ => true end.
Definition waits (x : instr) : bool := match x with IWaitDone _ => true | _ => false end.
Definition waiting (M : list instr) : Z := foldr (fun x n => (if waits x then 1 else 0) + n) 0 M.

(** A goroutine: one that does not shut down, [Close] before it starts, or after. *)
Definition shaped (th : list instr) : bool := forallb ordinary th || match th with [IClose; IReturn None] => true | _ => false end || forallb shutting th.

(** The goroutine that holds the [Once] of the flow [i] goes on with its end. *)
Definition ending (i : nat) (th : list instr) : Prop :=
  exists pre x rest, th = pre ++ x :: rest /\ finishing i x = true /\ Forall (fun y => match y with IUnregister _ _ | IStreamClose _ => True | _ => False end) pre.

Record structured (s : ContinuityRuntime) (threads : list (list instr)) : Prop := {
  st_shaped : Forall (fun th => shaped th = true) threads;
  st_running : forall i o, rt_objects s !! i = Some o -> sf_finish o = Running -> Exists (ending i) threads;
  st_wait : rt_wait s = waiting (concat threads);
  st_close : rt_close s = Running -> ICloseRegistry ∈ concat threads
}.

(** What an instruction leaves and starts. *)
Lemma exec_shape s x e s' k started : exec s x e = Some (s', k, started) ->
  forallb shutting k = true /\ (x = IClose \/ forallb ordinary k = true) /\ Forall (fun th => forallb ordinary th = true) started.
Proof.
  intros H. destruct x; cbn [exec] in H; execs_in H; repeat (case_match; try done); injection H as <- <- <-; unfold unregister_other; repeat case_match; split_and!; try done; try (by right); try (by left); try (by repeat constructor).
  rewrite forallb_app. apply andb_true_iff. split; [|done]. apply forallb_forall. by intros y (kv & <- & _)%in_map_iff.
Qed.

(** The end of a flow begins with its [IFinish] and is over with its [IFinishSlot]. *)
Lemma exec_running s x e s' k started j o' : exec s x e = Some (s', k, started) -> rt_objects s' !! j = Some o' -> sf_finish o' = Running ->
  (exists o, rt_objects s !! j = Some o /\ sf_finish o = Running /\ x <> IFinishSlot j) \/ x = IFinish j /\ k = [IFinishControl j].
Proof.
  intros H Hj Hr.
  assert (Hset : forall i o o2, rt_objects s !! i = Some o -> <[i := o2]> (rt_objects s) !! j = Some o' -> sf_finish o2 = sf_finish o -> exists o, rt_objects s !! j = Some o /\ sf_finish o = Running).
  { intros i o o2 Hi Hl Hf. apply list_lookup_insert_Some in Hl as [(-> & <- & _)|(_ & Hl)]; [exists o; by rewrite <- Hf|by exists o']. }
  assert (Hgoal : x <> IFinishSlot j -> (exists o, rt_objects s !! j = Some o /\ sf_finish o = Running) -> (exists o, rt_objects s !! j = Some o /\ sf_finish o = Running /\ x <> IFinishSlot j)) by (intros ? (o & ? & ?); by exists o).
  destruct x; cbn [exec] in H; execs_in H.
  all: try (destruct (rt_objects s !! i) as [o|] eqn:Ho; [|(revert H; intros [= <- <- <-]); left; destruct (decide (i = j)) as [->|Hne]; [congruence|exists o'; split_and!; try done; congruence]]).
  all: try (left; apply Hgoal; [done|]; repeat (case_match; try done); (revert H; intros [= <- <- <-]); first [by exists o'|exact (Hset _ _ _ Ho Hj eq_refl)]).
  - destruct (Flows.Create _ _ _) as [registry [fl|e']]; (revert H; intros [= <- <- <-]); left; apply Hgoal; try done; [|by exists o'].
    cbn [rt_objects new_object] in Hj. apply lookup_app_Some in Hj as [Hj|[_ Hj]]; [by exists o'|]. apply list_lookup_singleton_Some in Hj as [_ <-]. done.
  - destruct (register _ _ _ _ _) as [s1 [e'|]] eqn:Er; apply register_table in Er as (_ & _ & _ & E4); (revert H; intros [= <- <- <-]); left; apply Hgoal; try done; exists o'; by rewrite <- E4.
  - destruct (unregister_table s c id) as (_ & _ & _ & E4). (revert H; intros [= <- <- <-]). left. apply Hgoal; [done|]. exists o'. by rewrite <- E4.
  - destruct (sf_finish o) eqn:Ef; [|done|]; (revert H; intros [= <- <- <-]); [|left; apply Hgoal; [done|by exists o']]. cbn [rt_objects with_table with_object] in Hj.
    apply list_lookup_insert_Some in Hj as [(-> & _ & _)|(_ & Hj)]; [by right|]. left. apply Hgoal; [done|by exists o'].
  - (revert H; intros [= <- <- <-]). cbn [rt_objects logged with_object] in Hj. apply list_lookup_insert_Some in Hj as [(_ & <- & _)|(Hne & Hj)]; [done|]. left. exists o'. split_and!; try done. congruence.
  - destruct (register _ _ _ _ _) as [s1 [e'|]] eqn:Er; apply register_table in Er as (_ & _ & _ & E4); (revert H; intros [= <- <- <-]); left; apply Hgoal; try done; exists o'; by rewrite <- E4.
Qed.

(** What waits, and for what. *)
Lemma exec_blocked s x e : exec s x e = None ->
  match x with
  | IFinish i => exists o, rt_objects s !! i = Some o /\ sf_finish o = Running
  | IRelay i => exists o, rt_objects s !! i = Some o /\ match rl_caller (sf_relay o) with Before | Returned _ _ => False | _ => True end
  | IWait => rt_wait s <> 0
  | IClose => rt_close s = Running
  | _ => False
  end.
Proof.
  intros H. destruct x; cbn [exec] in H; execs_in H;
    try (destruct (rt_objects s !! i) as [o|] eqn:Ho; [|done]; try (exists o; split; [done|]); by destruct (rl_caller (sf_relay o)));
    try (destruct (rt_objects s !! i) as [o|] eqn:Ho; [|done]; exists o; split; [done|]; by destruct (sf_finish o));
    repeat (case_match; try done); zb; done.
Qed.

Lemma waiting_app M M' : waiting (M ++ M') = waiting M + waiting M'.
Proof. induction M as [|x M IH]; [done|]. cbn. fold (waiting (M ++ M')) (waiting M). lia. Qed.

Lemma waiting_none M : Forall (fun x => waits x = false) M -> waiting M = 0.
Proof. induction 1 as [|x M Hx _ IH]; [done|]. cbn. rewrite Hx. fold (waiting M). lia. Qed.

Lemma waiting_perm M M' : M ≡ₚ M' -> waiting M = waiting M'.
Proof. unfold waiting. induction 1; cbn; lia. Qed.

(** How the counters of the shutdown change. *)
Lemma exec_counters s x e s' k started : exec s x e = Some (s', k, started) ->
  rt_wait s' = rt_wait s - (if waits x then 1 else 0) + waiting (k ++ concat started) /\
  (rt_close s' = Running -> rt_close s = Running /\ x <> ICloseRegistry \/ ICloseRegistry ∈ k).
Proof.
  intros H. destruct x; cbn [exec] in H; execs_in H; repeat (case_match; try done);
    try match goal with Hr : register _ _ _ _ _ = _ |- _ => apply register_table in Hr as (_ & Rc & Rw & _); rewrite <- ?Rc, <- ?Rw end; (revert H; intros [= <- <- <-]);
    try match goal with |- context [unregister ?s ?c ?id] => destruct (unregister_table s c id) as (_ & Uc & Uw & _); rewrite Uc, Uw end;
    unfold unregister_other; repeat case_match; cbn; split; try lia; try (by left; split); try done.
  - rewrite waiting_app, waiting_app, (waiting_none (map _ _)) by (apply Forall_forall; by intros y (kv & <- & _)%list_elem_of_In%in_map_iff). cbn. lia.
  - intros _. right. apply elem_of_app. right. by right; left.
  - congruence.
Qed.

Lemma ending_next i th x rest s e s' k started : ending i th -> th = x :: rest -> exec s x e = Some (s', k, started) -> rt_objects s !! i <> None -> x <> IFinishSlot i -> ending i (k ++ rest).
Proof.
  intros (pre & y & rest' & -> & Hy & Hpre) E Hx Ho Hne. destruct pre as [|z pre]; cbn in E; injection E as <- <-.
  - destruct y; cbn in Hy; try done; apply bool_decide_eq_true in Hy as <-; cbn [exec] in Hx; execs_in Hx; destruct (rt_objects s !! i) as [o|]; try done.
    + injection Hx as <- <- <-. destruct (sf_control o) as [c|].
      * exists [IUnregister c (sf_id o); IStreamClose i], (IFinishRelease i), rest'. cbn. rewrite bool_decide_true by done. by repeat constructor.
      * exists [IStreamClose i], (IFinishRelease i), rest'. cbn. rewrite bool_decide_true by done. by repeat constructor.
    + destruct (Flows.Release _ _ _ _ _) as [[registry closed] r]. injection Hx as <- <- <-. exists [], (IFinishSlot i), rest'. cbn. rewrite bool_decide_true by done. by repeat constructor.
  - apply Forall_cons in Hpre as [Hz Hpre]. exists pre, y, rest'. destruct z; try done; cbn [exec] in Hx; execs_in Hx; injection Hx as <- <- <-; by split_and!.
Qed.

Lemma shaped_next x rest s e s' k started : shaped (x :: rest) = true -> exec s x e = Some (s', k, started) -> shaped (k ++ rest) = true /\ Forall (fun th => shaped th = true) started.
Proof.
  intros Hs Hx. destruct (exec_shape _ _ _ _ _ _ Hx) as (K1 & K2 & K3). split; [|eapply Forall_impl; [exact K3|]; intros th Hth; unfold shaped; by rewrite Hth].
  unfold shaped in *. rewrite !forallb_app. apply orb_true_iff in Hs as [[Ho|Hc]%orb_true_iff|Hc].
  - cbn in Ho. apply andb_true_iff in Ho as [Ho1 Ho2]. destruct K2 as [->|K2]; [done|]. by rewrite K2, Ho2.
  - destruct x; try done. destruct rest as [|[] [|? ?]]; try done; try (by destruct e0). rewrite K1. destruct e0; [done|]. cbn. by rewrite orb_true_r.
  - cbn in Hc. apply andb_true_iff in Hc as [_ Hc]. rewrite K1, Hc. by rewrite orb_true_r.
Qed.

Lemma structured_thread s threads t e s' threads' : structured s threads -> thread_step (s, threads) t e = Some (s', threads') -> structured s' threads'.
Proof.
  intros [S R W C] Ht. cbn in Ht. destruct (threads !! t) as [[|x rest]|] eqn:El; [done| |done]. destruct (exec s x e) as [[[s1 k] started]|] eqn:Ex; [|done]. cbn in Ht. injection Ht as <- <-.
  destruct (concat_lookup _ _ _ _ El) as (M & H1 & H2). destruct (exec_counters _ _ _ _ _ _ Ex) as [Cw Cc]. pose proof (lookup_lt_Some _ _ _ El) as Hlt.
  assert (Hsx : shaped (x :: rest) = true) by (rewrite Forall_forall in S; apply S; by eapply list_elem_of_lookup_2). destruct (shaped_next _ _ _ _ _ _ _ Hsx Ex) as [S1 S2].
  constructor.
  - apply Forall_app. split; [by apply Forall_insert|done].
  - intros i o' Hi Hr. apply Exists_app. left. apply Exists_exists.
    destruct (exec_running _ _ _ _ _ _ _ _ Ex Hi Hr) as [(o & Ho & Hro & Hne)|[-> ->]].
    + destruct (proj1 (Exists_exists _ _) (R i o Ho Hro)) as (th & Hth & He). apply list_elem_of_lookup in Hth as [t' Ht']. destruct (decide (t' = t)) as [->|Hn].
      * rewrite El in Ht'. injection Ht' as <-. exists (k ++ rest). split; [eapply list_elem_of_lookup_2; by apply list_lookup_insert_eq|]. eapply ending_next; try done. congruence.
      * exists th. split; [|done]. eapply list_elem_of_lookup_2. rewrite list_lookup_insert_ne by done. exact Ht'.
    + exists ([IFinishControl i] ++ rest). split; [eapply list_elem_of_lookup_2; by apply list_lookup_insert_eq|]. exists [], (IFinishControl i), rest. cbn. rewrite bool_decide_true by done. by repeat constructor.
  - rewrite Cw, W, (waiting_perm _ _ H1), (waiting_perm _ _ (H2 k started)). rewrite !waiting_app.
    change (waiting (x :: M)) with ((if waits x then 1 else 0) + waiting M). lia.
  - intros Hc. rewrite (H2 k started). destruct (Cc Hc) as [[Hc1 Hne]|Hk].
    + specialize (C Hc1). rewrite H1 in C. apply elem_of_cons in C as [C|C]; [done|]. apply elem_of_app. by right.
    + apply elem_of_app. left. apply elem_of_app. by left.
Qed.

Lemma structured_call s threads s' k : structured s threads -> rt_objects s' = rt_objects s -> rt_wait s' = rt_wait s -> rt_close s' = rt_close s ->
  shaped k = true -> waiting k = 0 -> structured s' (threads ++ [k]).
Proof.
  intros [S R W C] Eo Ew Ec Hk Hw. constructor.
  - apply Forall_app. split; [done|]. by repeat constructor.
  - intros i o Hi Hr. rewrite Eo in Hi. apply Exists_app. left. by eapply R.
  - rewrite Ew, W, concat_app, waiting_app. cbn [concat]. rewrite app_nil_r. lia.
  - rewrite Ec, concat_app. intros Hc. apply elem_of_app. left. by apply C.
Qed.

Lemma aborts_shaped es : shaped (aborts es) = true /\ waiting (aborts es) = 0.
Proof.
  assert (forallb ordinary (aborts es) = true /\ Forall (fun x => waits x = false) (aborts es)) as [H1 H2].
  { induction es as [|e es [IH1 IH2]]; [by split; constructor|]. destruct e; try done. split; [done|]. by constructor. }
  split; [unfold shaped; by rewrite H1|by apply waiting_none].
Qed.

Lemma structured_same s s' threads : structured s threads -> map sf_finish (rt_objects s') = map sf_finish (rt_objects s) -> rt_wait s' = rt_wait s -> rt_close s' = rt_close s ->
  structured s' threads.
Proof.
  intros [S R W C] Eo Ew Ec. constructor; [done| |by rewrite Ew|by rewrite Ec]. intros i o' Hi Hr.
  assert (map sf_finish (rt_objects s) !! i = Some Running) as Hl by (rewrite <- Eo, list_lookup_fmap, Hi; cbn; by rewrite Hr).
  rewrite list_lookup_fmap in Hl. destruct (rt_objects s !! i) as [o|] eqn:Ho; [|done]. injection Hl as Hl. by eapply R.
Qed.

Lemma relay_goroutine_same s i w ans s' : relay_goroutine s i w ans = Some s' -> map sf_finish (rt_objects s') = map sf_finish (rt_objects s) /\ rt_wait s' = rt_wait s /\ rt_close s' = rt_close s.
Proof.
  intros (o & r & c & Ho & _ & ->)%relay_goroutine_cases. split_and!; try done. cbn [rt_objects logged with_object].
  change (sf_finish <$> <[i:=with_relay o r]> (rt_objects s) = sf_finish <$> rt_objects s). rewrite list_fmap_insert. apply list_insert_id. by rewrite list_lookup_fmap, Ho.
Qed.

Lemma structured_step y y' : system_step y y' -> structured y.1 y.2 -> structured y'.1 y'.2.
Proof.
  intros [[s threads] t e [s2 threads2] Ht|s threads i w ans s' Hw|s threads|s threads metadata l physical transport stream s' k Hv Ha|s threads metadata l physical|s threads|s threads c channel id reason Hc|s threads c channel reason Hc] H; cbn [fst snd] in *.
  - by eapply structured_thread.
  - destruct (relay_goroutine_same _ _ _ _ _ Hw) as (E1 & E2 & E3). by eapply structured_same.
  - by eapply structured_same.
  - unfold AdmitNew in Ha. cbv zeta in Ha. destruct (le_control l); [destruct (_ || _); [|destruct transport, stream]|]; injection Ha as <- <-; by eapply structured_call.
  - eapply structured_call; try done; unfold Resume; destruct (le_control l), physical; cbn; try done; by destruct (_ || _).
  - by eapply structured_call.
  - destruct (aborts_shaped (handleAbort channel id reason).2). by eapply structured_call.
  - destruct (aborts_shaped (finish channel reason).2). by eapply structured_call.
Qed.

(** *** The relays *)

Definition is_fresh (o : serverContinuityFlow) : bool := match sf_finish o with Fresh => true | _ => false end.

(** Instructions that see to the stream of a flow. *)
Definition sees_stream (fresh : bool) (i : nat) (x : instr) : bool :=
  match x with
  | IStreamClose j => bool_decide (i = j)
  | IRegister j _ _ | IPublish j _ | IFinish j => fresh && bool_decide (i = j)
  | IFinishControl j => negb fresh && bool_decide (i = j)
  | _ => false
  end.

(** A relay of the connection [h] came to a failure. *)
Definition relay_failed (s : ContinuityRuntime) (h : handle) : Prop :=
  exists i o f, rt_objects s !! i = Some o /\ sf_target o = h /\ closing_of (rl_caller (sf_relay o)) = Some f /\ failed_first f = true.

Record relayed (s : ContinuityRuntime) (M : list instr) : Prop := {
  rd_relay : forall i o, rt_objects s !! i = Some o -> relay_ok (relay_view s i o) (sf_relay o);
  rd_stream : forall i o, rt_objects s !! i = Some o -> stream_closed s i = true \/ some_of (sees_stream (is_fresh o) i) M;
  rd_finishing : forall i, some_of (finishing i) M -> exists o, rt_objects s !! i = Some o /\ is_fresh o = false;
  rd_cancelled : rt_close s <> Fresh -> cancelled s = true;
  rd_shutting : IWait ∈ M \/ ICloseRegistry ∈ M -> rt_close s <> Fresh;
  rd_closes : forall h, RelayClosed h ∈ rt_log s -> cancelled s = true \/ relay_failed s h
}.

(** The log only grows. *)
Lemma log_grows s s' es : rt_log s' = rt_log s ++ es ->
  (cancelled s = true -> cancelled s' = true) /\ (forall i, stream_closed s i = true -> stream_closed s' i = true) /\
  (forall i o o', sf_target o' = sf_target o -> view_le (relay_view s i o) (relay_view s' i o')).
Proof.
  intros E. assert (Hg : forall p, existsb p (rt_log s) = true -> existsb p (rt_log s') = true) by (intros p H; by rewrite E, existsb_app, H).
  split; [apply Hg|]. split; [intros i; apply Hg|]. intros i o o' Et. unfold view_le, relay_view, connection_closed. cbn. rewrite Et. split; [apply Hg|]. split; [apply Hg|apply Hg].
Qed.

Definition not_relay (e : runtime_event) : Prop := match e with RelayClosed _ => False | _ => True end.

Lemma targets_not_relay l : Forall not_relay (map TargetClosed l).
Proof. induction l; by constructor. Qed.

Lemma exec_log s x e s' k started : exec s x e = Some (s', k, started) -> exists es, rt_log s' = rt_log s ++ es /\ Forall not_relay es.
Proof.
  intros H. assert (Hno : rt_log s = rt_log s ++ [] /\ Forall not_relay []) by (split; [by rewrite app_nil_r|constructor]).
  destruct x; cbn [exec] in H; execs_in H; try (destruct (rt_objects s !! i) as [o|]; [|injection H as <- <- <-; by exists []]);
    try (injection H as <- <- <-; first [by exists []|eexists; split; [reflexivity|by repeat constructor]]);
    try (repeat (case_match; try done); injection H as <- <- <-; first [by exists []|eexists; split; [reflexivity|first [apply targets_not_relay|by repeat constructor]]]).
  - destruct (register s c i key (sf_id o)) as [s1 [e'|]] eqn:Er; injection H as <- <- <-; exists []; (unfold register in Er; repeat case_match; by simplify_eq).
  - injection H as <- <- <-. exists []. unfold unregister. by case_match.
  - destruct (register s c i key (sf_id o)) as [s1 [e'|]] eqn:Er; injection H as <- <- <-; exists []; (unfold register in Er; repeat case_match; by simplify_eq).
Qed.

(** What an instruction does to the flows. *)
Definition kept (x : instr) (k : list instr) (j : nat) (o o' : serverContinuityFlow) : Prop :=
  sf_target o' = sf_target o /\
  (sf_relay o' = sf_relay o \/ rl_caller (sf_relay o) = Before /\ sf_relay o' = start_relay (sf_relay o)) /\
  (is_fresh o' = is_fresh o \/ is_fresh o' = false /\ (x = IFinish j /\ k = [IFinishControl j] \/ finishing j x = true)).
Definition made (k : list instr) (j : nat) (o' : serverContinuityFlow) : Prop :=
  sf_relay o' = idle_relay /\ is_fresh o' = true /\ exists c key, k = [IRegister j c key].

Lemma kept_same x k j o : kept x k j o o.
Proof. split; [done|]. by split; left. Qed.

Lemma kept_insert x k i o o2 (os : list serverContinuityFlow) j : os !! i = Some o -> kept x k i o o2 ->
  length os = length (<[i:=o2]> os) /\ forall o', <[i:=o2]> os !! j = Some o' -> exists o, os !! j = Some o /\ kept x k j o o'.
Proof.
  intros Hi Hk. split; [by rewrite length_insert|]. intros o' [(-> & <- & _)|(_ & H)]%list_lookup_insert_Some; [by exists o|]. exists o'. by split; [|apply kept_same].
Qed.

Lemma kept_all x k (os : list serverContinuityFlow) j o' : os !! j = Some o' -> exists o, os !! j = Some o /\ kept x k j o o'.
Proof. exists o'. by split; [|apply kept_same]. Qed.

(** The flows stay in their places, and a new one comes last. *)
Lemma exec_objects s x e s' k started : exec s x e = Some (s', k, started) ->
  (length (rt_objects s) <= length (rt_objects s'))%nat /\
  forall j o', rt_objects s' !! j = Some o' -> (exists o, rt_objects s !! j = Some o /\ kept x k j o o') \/ rt_objects s !! j = None /\ made k j o'.
Proof.
  intros H.
  assert (Hsame : rt_objects s' = rt_objects s -> (length (rt_objects s) <= length (rt_objects s'))%nat /\
    forall j o', rt_objects s' !! j = Some o' -> (exists o, rt_objects s !! j = Some o /\ kept x k j o o') \/ rt_objects s !! j = None /\ made k j o').
  { intros ->. split; [done|]. intros j o' Hj. left. by apply kept_all. }
  assert (Hset : forall i o o2, rt_objects s !! i = Some o -> rt_objects s' = <[i:=o2]> (rt_objects s) -> kept x k i o o2 -> (length (rt_objects s) <= length (rt_objects s'))%nat /\
    forall j o', rt_objects s' !! j = Some o' -> (exists o, rt_objects s !! j = Some o /\ kept x k j o o') \/ rt_objects s !! j = None /\ made k j o').
  { intros i o o2 Hi -> Hk. rewrite length_insert. split; [done|]. intros j o' Hj. left. by apply (kept_insert x k i o o2 _ j Hi Hk). }
  assert (Hplain : forall j o o2, sf_target o2 = sf_target o -> sf_relay o2 = sf_relay o -> sf_finish o2 = sf_finish o -> kept x k j o o2)
    by (intros j o o2 H1 H2 H3; split; [done|]; split; left; [done|]; unfold is_fresh; by rewrite H3).
  destruct x; cbn [exec] in H; execs_in H; try (destruct (rt_objects s !! i) as [o|] eqn:Ho; [|injection H as <- <- <-; by apply Hsame]);
    try (injection H as <- <- <-; first [by apply Hsame|apply (Hset _ _ _ Ho eq_refl); by apply Hplain]);
    try (repeat (case_match; try done); injection H as <- <- <-; first [by apply Hsame|apply (Hset _ _ _ Ho eq_refl); by apply Hplain]).
  - destruct (Flows.Create _ _ _) as [registry [fl|e']]; injection H as <- <- <-; [|by apply Hsame]. cbn [rt_objects new_object]. rewrite length_app. split; [cbn; lia|].
    intros j o' [Hj|[Hlt Hj]]%lookup_app_Some; [left; by apply kept_all|right]. apply list_lookup_singleton_Some in Hj as [Ej <-].
    split; [by apply lookup_ge_None_2|]. split; [done|]. split; [done|]. exists (ad_control a), (ad_key a). do 2 f_equal. lia.
  - destruct (register _ _ _ _ _) as [s1 [e'|]] eqn:Er; apply register_table in Er as (_ & _ & _ & E4); injection H as <- <- <-; by apply Hsame.
  - injection H as <- <- <-. apply Hsame. by destruct (unregister_table s c id) as (_ & _ & _ & E4).
  - destruct (rl_caller (sf_relay o)) eqn:El; try done; injection H as <- <- <-; [|by apply Hsame].
    apply (Hset _ _ _ Ho eq_refl). split; [done|]. split; [by right|by left].
  - destruct (sf_finish o) eqn:Ef; [|done|]; injection H as <- <- <-; [|by apply Hsame].
    apply (Hset _ _ _ Ho eq_refl). split; [done|]. split; [by left|right]. split; [done|]. by left.
  - injection H as <- <- <-. apply (Hset _ _ _ Ho eq_refl). split; [done|]. split; [by left|right]. split; [done|]. right. cbn. by apply bool_decide_true.
  - destruct (register _ _ _ _ _) as [s1 [e'|]] eqn:Er; apply register_table in Er as (_ & _ & _ & E4); injection H as <- <- <-; by apply Hsame.
Qed.

(** The stream is still seen to. *)
Lemma exec_stream s x e s' k started i o o' : exec s x e = Some (s', k, started) -> rt_objects s !! i = Some o -> rt_objects s' !! i = Some o' ->
  sees_stream (is_fresh o) i x = true -> stream_closed s' i = true \/ some_of (sees_stream (is_fresh o') i) (k ++ concat started).
Proof.
  intros H Ho Ho' Hs. destruct x; try done; cbn in Hs; try (apply andb_true_iff in Hs as [Hf Hs]); apply bool_decide_eq_true in Hs as <-; cbn [exec] in H; execs_in H; try rewrite Ho in H.
  - destruct (register _ _ _ _ _) as [s1 [e'|]] eqn:Er; apply register_table in Er as (_ & _ & _ & E4); injection H as <- <- <-; right; rewrite E4, Ho in Ho'; injection Ho' as <-; apply some_of_app; left; apply some_here; cbn;
      rewrite ?Hf; by apply bool_decide_true.
  - right. apply some_of_app. destruct (rt_closed s); [|destruct (rt_flows s !! sf_id o)]; injection H as <- <- <-.
    1,2: left; apply some_later, some_here; cbn; by apply bool_decide_true.
    cbn in Ho'. rewrite Ho in Ho'. injection Ho' as <-. right. cbn [concat app]. apply some_later, some_here. cbn. rewrite Hf. by apply bool_decide_true.
  - injection H as <- <- <-. left. unfold stream_closed. cbn. rewrite existsb_app. cbn. by rewrite Nat.eqb_refl, orb_true_r.
  - unfold is_fresh in Hf. destruct (sf_finish o) eqn:Ef; try done. injection H as <- <- <-. cbn in Ho'. rewrite list_lookup_insert_eq in Ho' by (by eapply lookup_lt_Some). injection Ho' as <-.
    right. apply some_of_app. left. apply some_here. cbn. by apply bool_decide_true.
  - injection H as <- <- <-. right. apply some_of_app. left. apply some_of_app. right. apply some_here. cbn. by apply bool_decide_true.
Qed.

(** How the shutdown goes on. *)
Lemma exec_close s x e s' k started : exec s x e = Some (s', k, started) ->
  (rt_close s <> Fresh -> rt_close s' <> Fresh) /\ (rt_close s' <> Fresh -> rt_close s <> Fresh \/ cancelled s' = true \/ x = ICloseRegistry) /\
  (IWait ∈ k ++ concat started \/ ICloseRegistry ∈ k ++ concat started -> rt_close s' <> Fresh).
Proof.
  intros H. assert (Hsame : rt_close s' = rt_close s -> forallb (fun y => match y with IWait | ICloseRegistry => false | _ => true end) (k ++ concat started) = true ->
    (rt_close s <> Fresh -> rt_close s' <> Fresh) /\ (rt_close s' <> Fresh -> rt_close s <> Fresh \/ cancelled s' = true \/ x = ICloseRegistry) /\
    (IWait ∈ k ++ concat started \/ ICloseRegistry ∈ k ++ concat started -> rt_close s' <> Fresh)).
  { intros -> Hk. split_and!; [done|by left|]. rewrite forallb_forall in Hk. by intros [Hx|Hx]; apply list_elem_of_In, Hk in Hx. }
  destruct x; cbn [exec] in H; execs_in H; try (destruct (rt_objects s !! i) as [o|] eqn:Ho; [|injection H as <- <- <-; by apply Hsame]);
    try (injection H as <- <- <-; first [by apply Hsame|apply Hsame; [done|]; by repeat case_match]);
    try (repeat (case_match; try done); injection H as <- <- <-; unfold unregister_other; first [by apply Hsame|apply Hsame; [done|]; by repeat case_match]).
  - destruct (register _ _ _ _ _) as [s1 [e'|]] eqn:Er; apply register_table in Er as (_ & E2 & _); injection H as <- <- <-; by apply Hsame.
  - injection H as <- <- <-. apply Hsame; [|done]. by destruct (unregister_table s c id) as (_ & E2 & _).
  - destruct (register _ _ _ _ _) as [s1 [e'|]] eqn:Er; apply register_table in Er as (_ & E2 & _); injection H as <- <- <-; by apply Hsame.
  - destruct e; injection H as <- <- <-; apply Hsame; try done; unfold unregister_other; [|destruct old]; cbn; by repeat case_bool_decide.
  - destruct (rt_close s) eqn:Ec; [|done|]; injection H as <- <- <-; [|apply Hsame; by rewrite ?Ec].
    split_and!; try done. intros _. right. left. unfold cancelled. cbn. rewrite existsb_app. by rewrite orb_true_r.
  - destruct (Flows.Close _ _) as [[registry closed] r]. injection H as <- <- <-. split_and!; try done. auto.
Qed.

(** What comes of the finishing instructions. *)
Lemma exec_finishing s x e s' k started i : exec s x e = Some (s', k, started) -> some_of (finishing i) (k ++ concat started) -> finishing i x = true \/ x = IFinish i /\ exists o, rt_objects s !! i = Some o /\ sf_finish o = Fresh.
Proof.
  intros H Hk. assert (Hno : forallb (fun y => match y with IFinishControl _ | IFinishRelease _ | IFinishSlot _ => false | _ => true end) (k ++ concat started) = true -> False).
  { intros Hn. destruct Hk as (y & Hy & Hf). rewrite forallb_forall in Hn. apply list_elem_of_In, Hn in Hy. by destruct y. }
  destruct x; cbn [exec] in H; execs_in H; try (destruct (rt_objects s !! i0) as [o|] eqn:Ho; [|injection H as <- <- <-; destruct (Hno eq_refl)]);
    try (injection H as <- <- <-; exfalso; apply Hno; try done; by repeat case_match);
    try (repeat (case_match; try done); injection H as <- <- <-; exfalso; apply Hno; unfold unregister_other; try done; by repeat case_match).
  - destruct (sf_finish o) eqn:Ef; [|done|]; injection H as <- <- <-; [|destruct (Hno eq_refl)]. right. apply some_of_cons in Hk as [Hk|(y & Hy & _)]; [|by apply not_elem_of_nil in Hy].
    cbn in Hk. apply bool_decide_eq_true in Hk as <-. split; [done|]. by exists o.
  - injection H as <- <- <-. left. rewrite app_nil_r in Hk. apply some_of_app in Hk as [(y & Hy & Hf)|Hk].
    + destruct (sf_control o); [|by apply not_elem_of_nil in Hy]. by apply list_elem_of_singleton in Hy as ->.
    + apply some_of_cons in Hk as [Hk|Hk]; [done|]. by apply some_of_cons in Hk as [Hk|(y & Hy & _)]; [|apply not_elem_of_nil in Hy].
  - destruct (Flows.Release _ _ _ _ _) as [[registry closed] r]. injection H as <- <- <-. left. by apply some_of_cons in Hk as [Hk|(y & Hy & _)]; [|apply not_elem_of_nil in Hy].
  - destruct (rt_close s); [|done|]; injection H as <- <- <-; [|destruct (Hno eq_refl)]. destruct Hno. rewrite app_nil_r, forallb_app. apply andb_true_iff. split; [|done].
    apply forallb_forall. by intros y (kv & <- & _)%in_map_iff.
Qed.

Lemma relay_failed_kept s s' h : (forall j o, rt_objects s !! j = Some o -> exists o', rt_objects s' !! j = Some o' /\ sf_target o' = sf_target o /\
    forall f, closing_of (rl_caller (sf_relay o)) = Some f -> closing_of (rl_caller (sf_relay o')) = Some f) -> relay_failed s h -> relay_failed s' h.
Proof. intros H (i & o & f & Ho & Ht & Hc & Hf). destruct (H i o Ho) as (o' & Ho' & Et & Ec). exists i, o', f. split; [done|]. split; [by rewrite Et|]. auto. Qed.

Lemma exec_relayed s x e s' k started R : relayed s (x :: R) -> exec s x e = Some (s', k, started) -> relayed s' ((k ++ concat started) ++ R).
Proof.
  intros [D1 D2 D3 D4 D5 D6] H. destruct (exec_objects _ _ _ _ _ _ H) as [Hlen Hobj]. destruct (exec_log _ _ _ _ _ _ H) as (es & Hlog & Hes).
  destruct (log_grows _ _ _ Hlog) as (G1 & G2 & G3). destruct (exec_close _ _ _ _ _ _ H) as (C1 & C2 & C3).
  assert (Hold : forall j o, rt_objects s !! j = Some o -> exists o', rt_objects s' !! j = Some o' /\ kept x k j o o').
  { intros j o Ho. pose proof (lookup_lt_Some _ _ _ Ho) as Hlt. destruct (lookup_lt_is_Some_2 (rt_objects s') j) as [o' Ho']; [lia|]. exists o'. split; [done|].
    destruct (Hobj j o' Ho') as [(o1 & Ho1 & Hk)|[Hn _]]; congruence. }
  constructor.
  - intros i o' Hi. destruct (Hobj i o' Hi) as [(o & Ho & Et & Er & _)|(Hn & -> & _)]; [|apply idle_relay_ok]. apply (relay_ok_mono _ _ _ (G3 i o o' Et)).
    specialize (D1 i o Ho). destruct Er as [->|[Eb ->]]; [done|by apply start_ok].
  - intros i o' Hi. destruct (Hobj i o' Hi) as [(o & Ho & Hk)|(Hn & _ & Hf & c & key & ->)].
    + destruct (D2 i o Ho) as [Hc|Hc]; [left; by apply G2|]. apply some_of_cons in Hc as [Hx|HR].
      * destruct (exec_stream _ _ _ _ _ _ _ _ _ H Ho Hi Hx) as [?|?]; [by left|right]. apply some_of_app. by left.
      * destruct Hk as (_ & _ & [->|(Hf & [(_ & ->)|Hx])]); [right; apply some_of_app; by right|right|].
        -- apply some_of_app. left. apply some_of_app. left. apply some_here. cbn. rewrite Hf. by apply bool_decide_true.
        -- destruct (D3 i) as (o1 & Ho1 & Hf1); [by apply some_here|]. rewrite Ho in Ho1. injection Ho1 as <-. rewrite Hf, <- Hf1. right. apply some_of_app. by right.
    + right. apply some_of_app. left. apply some_of_app. left. apply some_here. cbn. rewrite Hf. by apply bool_decide_true.
  - intros i [Hk|Hk]%some_of_app.
    + destruct (exec_finishing _ _ _ _ _ _ _ H Hk) as [Hx|[-> (o & Ho & Ef)]].
      * destruct (D3 i) as (o & Ho & Hf); [by apply some_here|]. destruct (Hold i o Ho) as (o' & Ho' & _ & _ & [Hf'|[Hf' _]]); exists o'; split; [done|congruence|done|done].
      * cbn [exec] in H. execs_in H. rewrite Ho, Ef in H. injection H as <- <- <-. eexists. split; [cbn; rewrite list_lookup_insert_eq by (by eapply lookup_lt_Some); reflexivity|done].
    + destruct (D3 i) as (o & Ho & Hf); [by apply some_later|]. destruct (Hold i o Ho) as (o' & Ho' & _ & _ & [Hf'|[Hf' _]]); exists o'; split; [done|congruence|done|done].
  - intros Hc. destruct (C2 Hc) as [Ho|[Ho| ->]]; [by apply G1, D4|done|]. apply G1, D4, D5. right. by left.
  - intros Hin. rewrite !(elem_of_app _ R) in Hin. assert (Hor : (IWait ∈ k ++ concat started \/ ICloseRegistry ∈ k ++ concat started) \/ (IWait ∈ R \/ ICloseRegistry ∈ R)) by tauto.
    destruct Hor as [Hk|HR]; [by apply C3|]. apply C1, D5. destruct HR; [left|right]; by right.
  - intros h Hh. rewrite Hlog in Hh. apply elem_of_app in Hh as [Hh|Hh]; [|rewrite Forall_forall in Hes; by apply Hes in Hh].
    destruct (D6 h Hh) as [Hc|Hf]; [left; by apply G1|right]. eapply relay_failed_kept; [|exact Hf]. intros j o Ho. destruct (Hold j o Ho) as (o' & Ho' & Et & Er & _).
    exists o'. split; [done|]. split; [done|]. intros f Hc. destruct Er as [->|[Eb _]]; [done|]. by rewrite Eb in Hc.
Qed.

Lemma relay_goroutine_relayed s i w ans s' M : relayed s M -> relay_goroutine s i w ans = Some s' -> relayed s' M.
Proof.
  intros [D1 D2 D3 D4 D5 D6] H. apply relay_goroutine_cases in H as (o & r & c & Ho & Hr & Es). pose proof (lookup_lt_Some _ _ _ Ho) as Hlt.
  set (es := match c with None => [] | Some CloseTarget => [RelayClosed (sf_target o)] | Some CloseStream => [StreamClosed i] end) in Es.
  assert (Hlog : rt_log s' = rt_log s ++ es) by (by rewrite Es). destruct (log_grows _ _ _ Hlog) as (G1 & G2 & G3).
  assert (Hobjs : rt_objects s' = <[i := with_relay o r]> (rt_objects s)) by (by rewrite Es). assert (Hclose : rt_close s' = rt_close s) by (by rewrite Es). clear Es.
  assert (Hview : view_le (after (relay_view s i o) c) (relay_view s' i (with_relay o r))).
  { destruct (G3 i o (with_relay o r) eq_refl) as (V1 & V2 & V3). subst es. unfold view_le. destruct c as [[]|]; cbn [after v_cancelled v_stream v_target]; (split; [done|]; split; try done).
    - intros _. cbn. unfold connection_closed. rewrite Hlog, existsb_app. cbn. by rewrite Z.eqb_refl, orb_true_r.
    - intros _. cbn. unfold stream_closed. rewrite Hlog, existsb_app. cbn. by rewrite Nat.eqb_refl, orb_true_r. }
  assert (Hold : forall j o1, rt_objects s !! j = Some o1 -> exists o', rt_objects s' !! j = Some o' /\ sf_target o' = sf_target o1 /\ is_fresh o' = is_fresh o1 /\
    forall f, closing_of (rl_caller (sf_relay o1)) = Some f -> closing_of (rl_caller (sf_relay o')) = Some f).
  { intros j o1 Ho1. rewrite Hobjs. destruct (decide (j = i)) as [->|Hne]; [|exists o1; by rewrite list_lookup_insert_ne]. rewrite Ho in Ho1. injection Ho1 as <-.
    exists (with_relay o r). rewrite list_lookup_insert_eq by done. split_and!; try done. intros f. by apply (relay_step_closing _ _ _ _ _ _ _ Hr). }
  constructor.
  - intros j o'. rewrite Hobjs. intros [(-> & <- & _)|(Hne & Hj)]%list_lookup_insert_Some.
    + apply (relay_ok_mono _ _ _ Hview). eapply relay_step_ok; [|exact Hr]. by apply D1.
    + apply (relay_ok_mono _ _ _ (G3 j o' o' eq_refl)). by apply D1.
  - intros j o'. rewrite Hobjs. intros [(-> & <- & _)|(Hne & Hj)]%list_lookup_insert_Some.
    + destruct (D2 j o Ho) as [Hc|Hc]; [left; by apply G2|by right].
    + destruct (D2 j o' Hj) as [Hc|Hc]; [left; by apply G2|by right].
  - intros j Hj. destruct (D3 j Hj) as (o1 & Ho1 & Hf). destruct (Hold j o1 Ho1) as (o' & Ho' & _ & Ef & _). exists o'. split; [done|congruence].
  - rewrite Hclose. intros Hc. by apply G1, D4.
  - by rewrite Hclose.
  - intros h Hh. rewrite Hlog in Hh. assert (Hk : relay_failed s h -> relay_failed s' h).
    { apply relay_failed_kept. intros j o1 Ho1. destruct (Hold j o1 Ho1) as (o' & ? & ? & _ & ?). by exists o'. }
    apply elem_of_app in Hh as [Hh|Hh]; [destruct (D6 h Hh) as [Hc|Hf]; [left; by apply G1|right; by apply Hk]|].
    subst es. destruct c as [[]|]; [|by apply list_elem_of_singleton in Hh|by apply not_elem_of_nil in Hh]. apply list_elem_of_singleton in Hh as [= ->].
    destruct (relay_closes_after _ _ _ _ _ _ (D1 i o Ho) Hr) as [Hc|(f & Hf & Hb)]; [left; by apply G1|right; apply Hk]. by exists i, o, f.
Qed.

Lemma relayed_perm s M M' : M ≡ₚ M' -> relayed s M -> relayed s M'.
Proof.
  intros H [D1 D2 D3 D4 D5 D6]. constructor; try done.
  - intros i o Ho. destruct (D2 i o Ho) as [Hc|Hc]; [by left|right]. by eapply some_of_perm.
  - intros i Hi. apply D3. eapply some_of_perm; [|exact Hi]. by symmetry.
  - rewrite <- H. exact D5.
Qed.

(** A call adds no end of a flow. *)
Lemma relayed_call s s' k M : relayed s M -> rt_objects s' = rt_objects s -> rt_close s' = rt_close s -> (exists es, rt_log s' = rt_log s ++ es /\ Forall not_relay es) ->
  forallb (fun y => match y with IFinishControl _ | IFinishRelease _ | IFinishSlot _ | IWait | ICloseRegistry => false | _ => true end) k = true -> relayed s' (k ++ M).
Proof.
  intros [D1 D2 D3 D4 D5 D6] Eo Ec (es & Hlog & Hes) Hk. destruct (log_grows _ _ _ Hlog) as (G1 & G2 & G3). rewrite forallb_forall in Hk.
  assert (Hin : forall y, y ∈ k ++ M -> match y with IFinishControl _ | IFinishRelease _ | IFinishSlot _ | IWait | ICloseRegistry => y ∈ M | _ => True end).
  { intros y [Hy|Hy]%elem_of_app; [apply list_elem_of_In, Hk in Hy; by destruct y|by destruct y]. }
  constructor.
  - intros i o. rewrite Eo. intros Ho. apply (relay_ok_mono _ _ _ (G3 i o o eq_refl)). by apply D1.
  - intros i o. rewrite Eo. intros Ho. destruct (D2 i o Ho) as [Hc|Hc]; [left; by apply G2|right]. apply some_of_app. by right.
  - intros i (y & Hy & Hf). rewrite Eo. apply D3. exists y. split; [|done]. specialize (Hin y Hy). by destruct y.
  - rewrite Ec. intros Hc. by apply G1, D4.
  - rewrite Ec. intros [Hw|Hw]; apply D5; [left|right]; exact (Hin _ Hw).
  - intros h Hh. rewrite Hlog in Hh. apply elem_of_app in Hh as [Hh|Hh]; [|rewrite Forall_forall in Hes; by apply Hes in Hh].
    destruct (D6 h Hh) as [Hc|Hf]; [left; by apply G1|right]. unfold relay_failed. by rewrite Eo.
Qed.

Lemma relayed_step y y' : system_step y y' -> relayed y.1 (concat y.2) -> relayed y'.1 (concat y'.2).
Proof.
  assert (Hcalled : forall s s' threads k, relayed s (concat threads) -> rt_objects s' = rt_objects s -> rt_close s' = rt_close s -> (exists es, rt_log s' = rt_log s ++ es /\ Forall not_relay es) ->
    forallb (fun y => match y with IFinishControl _ | IFinishRelease _ | IFinishSlot _ | IWait | ICloseRegistry => false | _ => true end) k = true -> relayed s' (concat (threads ++ [k]))).
  { intros s s' threads k H Eo Ec El Hk. rewrite concat_app. cbn [concat]. rewrite app_nil_r. eapply relayed_perm; [apply Permutation_app_comm|]. by eapply relayed_call. }
  assert (Hsame : forall s, exists es, rt_log s = rt_log s ++ es /\ Forall not_relay es) by (intros s; exists []; by rewrite app_nil_r).
  assert (Habort : forall es, forallb (fun y => match y with IFinishControl _ | IFinishRelease _ | IFinishSlot _ | IWait | ICloseRegistry => false | _ => true end) (aborts es) = true)
    by (intros es; induction es as [|e es IH]; [done|]; by destruct e).
  intros [[s threads] t e y'' Ht|s threads i w ans s' Hw|s threads|s threads metadata l physical transport stream s' k Hv Ha|s threads metadata l physical|s threads|s threads c channel id reason Hc|s threads c channel reason Hc] H;
    cbn [fst snd] in *.
  - cbn in Ht. destruct (threads !! t) as [[|x rest]|] eqn:El; [done| |done]. destruct (exec s x e) as [[[s' k] started]|] eqn:Ex; [|done]. cbn in Ht. injection Ht as <-. cbn [fst snd].
    destruct (concat_lookup _ _ _ _ El) as (R & H1 & H2). eapply relayed_perm; [symmetry; apply H2|]. eapply exec_relayed; [|exact Ex]. by eapply relayed_perm.
  - by eapply relay_goroutine_relayed.
  - apply (relayed_call s _ []); try done. eexists. split; [reflexivity|by repeat constructor].
  - unfold AdmitNew in Ha. cbv zeta in Ha. assert (Hin : forall es, es = closeContinuityInputs physical (Z.of_nat (rt_handed s)) -> exists es', rt_log s ++ es = rt_log s ++ es' /\ Forall not_relay es').
    { intros es ->. eexists. split; [reflexivity|]. destruct physical; by repeat constructor. }
    destruct (le_control l); [destruct (_ || _); [|destruct transport, stream]|]; injection Ha as <- <-; apply Hcalled with (s := s); try done; try (by apply Hin). exists []. by split; [|constructor].
  - apply Hcalled with (s := s); try done. unfold Resume. destruct (le_control l), physical; cbn; try done; by destruct (_ || _).
  - by apply Hcalled with (s := s).
  - apply Hcalled with (s := s); try done. exact (Hsame s).
  - apply Hcalled with (s := s); try done. exact (Hsame s).
Qed.

(** The goroutine of a flow calls the relay, then ends the flow. *)
Definition no_relay (x : instr) : bool := match x with IRelay _ => false | _ => true end.
Definition run_shape (th : list instr) : bool :=
  match th with [IRelay i; IFinish j; IWaitDone k] => Nat.eqb i j && Nat.eqb i k | _ => forallb no_relay th end.

Lemma no_relay_shape th : forallb no_relay th = true -> run_shape th = true.
Proof. intros H. unfold run_shape. destruct th as [|[] [|[] [|[] [|? ?]]]]; done. Qed.

Lemma exec_no_relay s x e s' k started : exec s x e = Some (s', k, started) -> no_relay x = true -> forallb no_relay k = true /\ Forall (fun th => run_shape th = true) started.
Proof.
  intros H Hx. destruct x; try done; cbn [exec] in H; execs_in H; repeat (case_match; try done); injection H as <- <- <-; unfold unregister_other; repeat case_match; split; try done; try (by repeat constructor).
  - constructor; [|constructor]. cbn. by rewrite Nat.eqb_refl.
  - rewrite forallb_app. apply andb_true_iff. split; [|done]. apply forallb_forall. by intros y (kv & <- & _)%in_map_iff.
Qed.

Lemma run_shape_next s x rest e s' k started : run_shape (x :: rest) = true -> exec s x e = Some (s', k, started) -> run_shape (k ++ rest) = true /\ Forall (fun th => run_shape th = true) started.
Proof.
  intros Hs H. destruct (no_relay x) eqn:Ex.
  - destruct (exec_no_relay _ _ _ _ _ _ H Ex) as [Hk Hst]. split; [|done]. apply no_relay_shape. rewrite forallb_app, Hk. unfold run_shape in Hs. destruct x; try done; by cbn in Hs.
  - destruct x; try done. cbn [exec] in H. execs_in H. assert (Hrest : rest = [IFinish i; IWaitDone i]).
    { cbn in Hs. destruct rest as [|[] [|[] [|? ?]]]; try done. apply andb_true_iff in Hs as [->%Nat.eqb_eq ->%Nat.eqb_eq]. done. }
    subst rest. destruct (rt_objects s !! i) as [o|]; [destruct (rl_caller (sf_relay o)); try done|]; injection H as <- <- <-; (split; [done|constructor]).
Qed.

Lemma shapes_step y y' : system_step y y' -> Forall (fun th => run_shape th = true) y.2 -> Forall (fun th => run_shape th = true) y'.2.
Proof.
  intros Hs H. assert (Hmore : forall th, forallb no_relay th = true -> Forall (fun th => run_shape th = true) (y.2 ++ [th])).
  { intros th Hth. apply Forall_app. split; [done|]. constructor; [by apply no_relay_shape|constructor]. }
  destruct Hs as [[s threads] t e y'' Ht|s threads i w ans s' Hw|s threads|s threads metadata l physical transport stream s' k Hv Ha|s threads metadata l physical|s threads|s threads c channel id reason Hc|s threads c channel reason Hc];
    cbn [fst snd] in *; try done.
  - cbn in Ht. destruct (threads !! t) as [[|x rest]|] eqn:El; [done| |done]. destruct (exec s x e) as [[[s' k] started]|] eqn:Ex; [|done]. cbn in Ht. injection Ht as <-. cbn [snd].
    assert (Hx : run_shape (x :: rest) = true) by (rewrite Forall_forall in H; apply H; by eapply list_elem_of_lookup_2). destruct (run_shape_next _ _ _ _ _ _ _ Hx Ex) as [H1 H2].
    apply Forall_app. split; [by apply Forall_insert|done].
  - apply Hmore. unfold AdmitNew in Ha. cbv zeta in Ha. destruct (le_control l); [destruct (_ || _); [|destruct transport, stream]|]; by injection Ha as <- <-.
  - apply Hmore. unfold Resume. destruct (le_control l), physical; cbn; try done; by destruct (_ || _).
  - by apply Hmore.
  - apply Hmore. clear. induction (handleAbort channel id reason).2 as [|e es IH]; [done|]. by destruct e.
  - apply Hmore. clear. induction (finish channel reason).2 as [|e es IH]; [done|]. by destruct e.
Qed.

(** *** When nobody can go on *)

(** Some goroutine can take a step though the outside adds nothing. *)
Definition can_step (y : system) : Prop := (exists t y', thread_step y t None = Some y') \/ exists i w s', relay_goroutine y.1 i w Quiet = Some s'.

Lemma head_steps s threads t x rest : threads !! t = Some (x :: rest) -> exec s x None <> None -> can_step (s, threads).
Proof. intros H Hx. destruct (exec s x None) as [[[s' k] started]|] eqn:E; [|done]. left. exists t. eexists. cbn. rewrite H, E. reflexivity. Qed.

Lemma finish_unblocks s threads i o : structured s threads -> rt_objects s !! i = Some o -> sf_finish o = Running -> can_step (s, threads).
Proof.
  intros [S R W C] Ho Hr. destruct (proj1 (Exists_exists _ _) (R i o Ho Hr)) as (th & Hth & pre & x & rest & -> & Hx & Hpre).
  apply list_elem_of_lookup in Hth as [t Ht]. destruct pre as [|y pre]; cbn [app] in Ht; (eapply head_steps; [exact Ht|]; intros E; apply exec_blocked in E).
  - by destruct x.
  - apply Forall_cons in Hpre as [Hy _]. by destruct y.
Qed.

(** A relay that cannot go on. *)
Lemma relay_settled s threads M i o : relayed s M -> ~ can_step (s, threads) -> rt_objects s !! i = Some o ->
  rl_caller (sf_relay o) = Before \/ relay_over (sf_relay o) \/ relay_waits (sf_relay o) /\ cancelled s = false /\ both_closed (relay_view s i o) = false.
Proof.
  intros D Hn Ho. apply (relay_stuck (relay_view s i o)); [by apply (rd_relay _ _ D)|]. intros w.
  destruct (relay_step (relay_view s i o) (sf_relay o) w Quiet) as [[r c]|] eqn:E; [|done]. destruct Hn. right. exists i, w. unfold relay_goroutine. cbn [fst]. rewrite Ho. cbn. rewrite E. by eexists.
Qed.

(** Where a goroutine stops when nobody can go on: at a relay that waits, or, with
    a context that is cancelled, in the shutdown. *)
Lemma blocked_head s threads t x rest : structured s threads -> relayed s (concat threads) -> ~ can_step (s, threads) -> threads !! t = Some (x :: rest) ->
  (exists i o, x = IRelay i /\ rt_objects s !! i = Some o /\ relay_waits (sf_relay o) /\ cancelled s = false) \/
  cancelled s = true /\ (x = IWait /\ rt_wait s <> 0 \/ x = IClose /\ ICloseRegistry ∈ concat threads).
Proof.
  intros H D Hn Ht. destruct (exec s x None) eqn:E; [destruct Hn; eapply head_steps; [exact Ht|congruence]|]. apply exec_blocked in E.
  assert (Hin : x ∈ concat threads) by (eapply list_elem_of_In, in_concat; exists (x :: rest); split; [eapply list_elem_of_In, list_elem_of_lookup_2; exact Ht|by left]).
  destruct x; try done.
  - left. destruct E as (o & Ho & Hb). exists i, o. destruct (relay_settled _ _ _ _ _ D Hn Ho) as [Eb|[(_ & _ & Eb & _)|(Hw & Hc & _)]]; [by rewrite Eb in Hb|by destruct (rl_caller (sf_relay o))|done].
  - destruct E as (o & Ho & Hr). destruct Hn. by eapply finish_unblocks.
  - right. split; [apply (rd_cancelled _ _ D); congruence|]. right. split; [done|]. by apply (st_close _ _ H).
  - right. split; [|by left]. apply (rd_cancelled _ _ D), (rd_shutting _ _ D). by left.
Qed.

Lemma thread_of {A} (x : A) (threads : list (list A)) : x ∈ concat threads -> exists t y rest, threads !! t = Some (y :: rest) /\ x ∈ y :: rest.
Proof.
  intros (th & Hth & Hi)%list_elem_of_In%in_concat. apply list_elem_of_In in Hth, Hi. apply list_elem_of_lookup in Hth as [t Ht].
  destruct th as [|y rest]; [by apply not_elem_of_nil in Hi|]. by exists t, y, rest.
Qed.

Lemma shaped_of s threads t th : structured s threads -> threads !! t = Some th -> shaped th = true.
Proof. intros H Ht. pose proof (st_shaped _ _ H) as S. rewrite Forall_forall in S. apply S. by eapply list_elem_of_lookup_2. Qed.

(** The shutdown waits for nothing once the context is cancelled. *)
Lemma wait_blocked s threads : structured s threads -> relayed s (concat threads) -> ~ can_step (s, threads) -> cancelled s = true -> rt_wait s <> 0 -> False.
Proof.
  intros H D Hn Hc Hw. rewrite (st_wait _ _ H) in Hw. assert (exists i, IWaitDone i ∈ concat threads) as [i Hi].
  { clear -Hw. induction (concat threads) as [|x M IH]; [done|]. cbn in Hw. destruct x; cbn in Hw; try (destruct IH as [j Hj]; [exact Hw|]; exists j; by right). eexists. by left. }
  apply thread_of in Hi as (t & y & rest & Ht & Hi). pose proof (shaped_of _ _ _ _ H Ht) as Hsh.
  destruct (blocked_head _ _ _ _ _ H D Hn Ht) as [(j & o & -> & _ & _ & Hf)|[_ [[-> _]|[-> _]]]]; [congruence|..]; unfold shaped in Hsh; cbn in Hsh.
  - assert (forallb shutting rest = true) as Hs by (destruct rest as [|[] [|? ?]]; done). apply elem_of_cons in Hi as [Hi|Hi]; [done|]. rewrite forallb_forall in Hs. by apply list_elem_of_In, Hs in Hi.
  - apply elem_of_cons in Hi as [Hi|Hi]; [done|]. destruct rest as [|[] [|? ?]]; try done; destruct e; try done. by apply list_elem_of_singleton in Hi.
Qed.

Lemma close_blocked s threads : structured s threads -> relayed s (concat threads) -> ~ can_step (s, threads) -> cancelled s = true -> ICloseRegistry ∈ concat threads -> False.
Proof.
  intros H D Hn Hc Hi. apply thread_of in Hi as (t & y & rest & Ht & Hi). pose proof (shaped_of _ _ _ _ H Ht) as Hsh.
  destruct (blocked_head _ _ _ _ _ H D Hn Ht) as [(j & o & -> & _ & _ & Hf)|[_ [[-> Hw]|[-> _]]]]; [congruence|by eapply wait_blocked|].
  unfold shaped in Hsh; cbn in Hsh. apply elem_of_cons in Hi as [Hi|Hi]; [done|]. destruct rest as [|[] [|? ?]]; try done; destruct e; try done. by apply list_elem_of_singleton in Hi.
Qed.

(** A flow that goes on: nobody has ended it, its relay waits for the outside, the
    context is alive, and its stream or its connection is open. *)
Definition lives (y : system) (i : nat) (o : serverContinuityFlow) : Prop :=
  rt_objects y.1 !! i = Some o /\ sf_finish o = Fresh /\ relay_waits (sf_relay o) /\ cancelled y.1 = false /\ both_closed (relay_view y.1 i o) = false.

Record steady (y : system) : Prop := {
  se_inv : inv y.1 (concat y.2);
  se_structured : structured y.1 y.2;
  se_relayed : relayed y.1 (concat y.2);
  se_shapes : Forall (fun th => run_shape th = true) y.2
}.

(** The goroutines that are left are those of flows that go on. *)
Lemma stuck_threads y : steady y -> ~ can_step y -> forall th, th ∈ y.2 -> th = [] \/ cancelled y.1 = false /\ exists i o, th = [IRelay i; IFinish i; IWaitDone i] /\ rt_objects y.1 !! i = Some o /\ relay_waits (sf_relay o).
Proof.
  destruct y as [s threads]. intros [I H D S] Hn th Hth. cbn [fst snd] in *. rewrite Forall_forall in S. pose proof (S _ Hth) as Hsh. apply list_elem_of_lookup in Hth as [t Ht].
  destruct th as [|x rest]; [by left|]. destruct (blocked_head _ _ _ _ _ H D Hn Ht) as [(i & o & -> & Ho & Hw & Hf)|[Hc [[-> Hw]|[-> Hw]]]]; [right|by destruct (wait_blocked _ _ H D Hn Hc)|by destruct (close_blocked _ _ H D Hn Hc)].
  split; [done|]. exists i, o. split; [|done]. cbn in Hsh. destruct rest as [|[] [|[] [|? ?]]]; try done. apply andb_true_iff in Hsh as [->%Nat.eqb_eq ->%Nat.eqb_eq]. done.
Qed.

Lemma stuck_pending y x : steady y -> ~ can_step y -> x ∈ concat y.2 -> exists i o, (x = IRelay i \/ x = IFinish i \/ x = IWaitDone i) /\ rt_objects y.1 !! i = Some o /\ relay_waits (sf_relay o).
Proof.
  intros H Hn (t & z & rest & Ht & Hx)%thread_of. destruct (stuck_threads y H Hn (z :: rest)) as [E|(_ & i & o & E & Ho & Hw)]; [by eapply list_elem_of_lookup_2|done|].
  exists i, o. split; [|done]. rewrite E in Hx. rewrite !elem_of_cons in Hx. destruct Hx as [->|[->|[->|Hx]]]; auto. by apply not_elem_of_nil in Hx.
Qed.

Lemma waits_lives y i o : steady y -> ~ can_step y -> rt_objects y.1 !! i = Some o -> relay_waits (sf_relay o) -> lives y i o.
Proof.
  intros H Hn Ho Hw. pose proof H as [I St D S]. assert (Hr : cancelled y.1 = false /\ both_closed (relay_view y.1 i o) = false).
  { destruct y as [s threads]. cbn [fst snd] in *. destruct (relay_settled _ _ _ _ _ D Hn Ho) as [Eb|[(_ & _ & Eb & _)|(_ & ? & ?)]]; [| |done];
      destruct Hw as [_ Hw]; destruct (rl_caller (sf_relay o)); done. }
  split; [done|]. split; [|by destruct Hr]. destruct (sf_finish o) eqn:Ef; [done|exfalso..].
  - destruct y as [s threads]. apply Hn. by eapply finish_unblocks.
  - destruct Hr as [_ Hr]. unfold both_closed, relay_view in Hr. cbn [v_stream v_target] in Hr. assert (Hs : stream_closed y.1 i = true).
    { destruct (rd_stream _ _ D i o Ho) as [Hs|(x & Hx & Hsx)]; [done|]. unfold is_fresh in Hsx. rewrite Ef in Hsx.
      destruct (stuck_pending _ _ H Hn Hx) as (j & o1 & [->|[->| ->]] & _); by cbn in Hsx. }
    assert (Ht : connection_closed y.1 (sf_target o) = true); [|by rewrite Hs, Ht in Hr].
    pose proof (in_objects _ _ I i o Ho) as Hok. unfold object_ok in Hok. rewrite Ef in Hok. destruct Hok as [Hheld _].
    assert (Hh : sf_target o ∈ handed y.1).
    { destruct (in_slots _ _ I) as (direct & S1 & _). rewrite S1. apply elem_of_app. left. apply list_elem_of_In, in_map, list_elem_of_In. by eapply list_elem_of_lookup_2. }
    rewrite (in_targets _ _ I) in Hh. apply elem_of_app in Hh as [Hh|[Hh|Hh]%elem_of_app].
    + unfold targets_closed in Hh. apply list_elem_of_omap in Hh as (e & He & Et). unfold connection_closed. apply existsb_exists. exists e. split; [by apply list_elem_of_In|].
      destruct e; try done. injection Et as ->. apply Z.eqb_refl.
    + destruct Hheld. unfold upstreams in Hh. apply list_elem_of_fmap in Hh as ([id x] & Eh & Hx). apply elem_of_map_to_list in Hx. exists id, x. by split.
    + apply list_elem_of_omap in Hh as (x & Hx & Ex). destruct (stuck_pending _ _ H Hn Hx) as (j & o1 & [->|[->| ->]] & _); done.
Qed.

(** *** Any execution *)

(** The goroutines go on, without new calls, whatever the outside adds. *)
Definition goes_on (y y' : system) : Prop :=
  (exists t e, thread_step y t e = Some y') \/ exists i w ans s', relay_goroutine y.1 i w ans = Some s' /\ y' = (s', y.2).

Lemma goes_on_step y y' : goes_on y y' -> system_step y y'.
Proof. destruct y as [s threads]. intros [(t & e & H)|(i & w & ans & s' & H & ->)]; [by eapply step_thread|by eapply step_relay]. Qed.

Lemma goes_on_work y y' : goes_on y y' -> (work y'.1 (concat y'.2) < work y.1 (concat y.2))%nat.
Proof.
  destruct y as [s threads]. intros [(t & e & Ht)|(i & w & ans & s' & H & ->)]; [|by eapply relay_goroutine_work]. cbn in Ht. destruct (threads !! t) as [[|x rest]|] eqn:El; [done| |done].
  destruct (exec s x e) as [[[s1 k] started]|] eqn:Ex; [|done]. cbn in Ht. injection Ht as <-. cbn [fst snd]. destruct (concat_lookup _ _ _ _ El) as (M & H1 & H2).
  pose proof (exec_work _ _ _ _ _ _ M Ex) as Hw. unfold work, calls_work in *. by rewrite (total_perm _ _ H1), (total_perm _ _ (H2 k started)).
Qed.

Lemma goes_on_bounded n y y' : nsteps goes_on n y y' -> (n + work y'.1 (concat y'.2) <= work y.1 (concat y.2))%nat.
Proof. induction 1 as [y|n y y2 y3 Hs _ IH]; [lia|]. pose proof (goes_on_work _ _ Hs). lia. Qed.

Lemma start_steady config s0 t1 t2 channels : NewContinuityRuntime config true = Ok (s0, t1, t2) ->
  steady (start (rt_registry s0) channels, []) /\ limits (start (rt_registry s0) channels) = (MaxFlows config, MaxFlowsPerPrincipal config).
Proof.
  intros Hnew. assert (NewFlowRegistry (MaxFlows config) (MaxFlowsPerPrincipal config) = Ok (rt_registry s0)) as Hreg.
  { unfold NewContinuityRuntime in Hnew. destruct (_ || _); [done|]. destruct (NewFlowRegistry _ _) as [registry|] eqn:E; [|done]. by injection Hnew as <- _ _. }
  split; [|by apply start_limits]. constructor; cbn [fst snd concat].
  - apply start_counted. by apply (NewFlowRegistry_ok _ _ _ Hreg).
  - constructor; cbn; try done; by constructor.
  - constructor; cbn; try done; [by intros i (x & Hx%not_elem_of_nil & _)|by intros [Hx|Hx]; apply not_elem_of_nil in Hx|by intros h Hh%not_elem_of_nil].
  - constructor.
Qed.

Lemma steps_steady y y' : rtc system_step y y' -> steady y -> steady y' /\ limits y'.1 = limits y.1.
Proof.
  induction 1 as [y|y y2 y3 Hs _ IH]; intros H; [done|]. rewrite <- (step_limits _ _ Hs). apply IH. destruct H as [I St D S].
  constructor; [by apply (step_counted _ _ Hs)|by eapply structured_step|by eapply relayed_step|by eapply shapes_step].
Qed.

(** C34: From any reachable state the goroutines make boundedly many steps without
    new calls, whatever the outside answers; and when the outside is quiet and
    none can go on, only flows that live are left: nobody has ended them, the
    context is alive, their stream or connection is open and their relay waits
    for it; the relays of all other flows are over with all their goroutines,
    and all other connections are closed and their slots given back.  Once
    [Close] has begun or the context is cancelled there is no such flow: all
    goroutines have ended and every [Close] has returned, though it and the flows
    wait for each other. *)
Theorem runtime_quiesces config s0 t1 t2 channels y :
  NewContinuityRuntime config true = Ok (s0, t1, t2) -> rtc system_step (start (rt_registry s0) channels, []) y ->
  (forall n y', nsteps goes_on n y y' -> (n <= work y.1 (concat y.2))%nat) /\
  (forall y', rtc goes_on y y' -> ~ can_step y' ->
    (forall th, th ∈ y'.2 -> th = [] \/ exists i o, th = [IRelay i; IFinish i; IWaitDone i] /\ lives y' i o) /\
    (forall i o, rt_objects y'.1 !! i = Some o -> rl_caller (sf_relay o) = Before \/ relay_over (sf_relay o) \/ lives y' i o) /\
    (forall h, h ∈ handed y'.1 -> h ∈ targets_closed y'.1 /\ h ∈ slots_released y'.1 \/ exists i o, lives y' i o /\ sf_target o = h) /\
    (rt_close y'.1 <> Fresh \/ cancelled y'.1 = true -> concat y'.2 = [] /\ rt_close y'.1 <> Running)).
Proof.
  intros Hnew Hr. split; [intros n y' H; pose proof (goes_on_bounded _ _ _ H); lia|]. intros y' Hy Hn.
  assert (Hr' : rtc system_step (start (rt_registry s0) channels, []) y').
  { etrans; [exact Hr|]. clear -Hy. induction Hy as [|? ? ? H _ IH]; [done|]. eapply rtc_l; [by apply goes_on_step|exact IH]. }
  destruct (start_steady _ _ _ _ channels Hnew) as [Hst _]. destruct (steps_steady _ _ Hr' Hst) as [H _]. clear Hst Hr Hr' Hy.
  pose proof (stuck_threads _ H Hn) as Hth. split_and!.
  - intros th Ht. destruct (Hth th Ht) as [->|(_ & i & o & -> & Ho & Hw)]; [by left|right]. exists i, o. split; [done|]. by apply waits_lives.
  - intros i o Ho. destruct y' as [s threads]. destruct (relay_settled _ _ _ _ _ (se_relayed _ H) Hn Ho) as [?|[?|(Hw & _)]]; [by left|by right; left|right; right]. by apply waits_lives.
  - intros h Hh. destruct (decide (Exists (fun x => works_on y'.1 h x = true) (concat y'.2))) as [He|He].
    + right. apply Exists_exists in He as (x & Hx & Hwx). destruct (stuck_pending _ _ H Hn Hx) as (i & o & Ei & Ho & Hw). exists i, o. split; [by apply waits_lives|].
      unfold works_on in Hwx. destruct Ei as [->|[->| ->]]; cbn in Hwx; try done. rewrite Ho in Hwx. by apply bool_decide_eq_true in Hwx.
    + left. apply (inv_settled _ _ _ (se_inv _ H) Hh). intros x Hx. destruct (works_on y'.1 h x) eqn:E; [|done]. destruct He. apply Exists_exists. by exists x.
  - intros Hc. assert (Hcan : cancelled y'.1 = true) by (destruct Hc as [Hc|Hc]; [by apply (rd_cancelled _ _ (se_relayed _ H))|done]).
    assert (Hnil : concat y'.2 = []).
    { clear -Hth Hcan. induction y'.2 as [|th threads IH]; [done|]. cbn. destruct (Hth th) as [->|(Hf & _)]; [by left| |congruence]. apply IH. intros th' Hin. apply Hth. by right. }
    split; [done|]. intros Hrun. apply (st_close _ _ (se_structured _ H)) in Hrun. rewrite Hnil in Hrun. by apply not_elem_of_nil in Hrun.
Qed.

(** A flow that nothing works on has its stream closed. *)
Lemma stream_settled s M i o : relayed s M -> rt_objects s !! i = Some o -> (forall x, x ∈ M -> works_on s (sf_target o) x = false) -> stream_closed s i = true.
Proof.
  intros D Ho Hw. destruct (rd_stream _ _ D i o Ho) as [Hs|(x & Hx & Hs)]; [done|]. specialize (Hw x Hx). unfold works_on in Hw. apply orb_false_iff in Hw as [_ Hw].
  assert (about x = Some i) as E by (destruct x; try done; cbn in *; try apply andb_true_iff in Hs as [_ Hs]; by apply bool_decide_eq_true in Hs as ->).
  rewrite E, Ho in Hw. by rewrite bool_decide_true in Hw.
Qed.

(** C33: In any interleaving of admissions, resumptions, lost control channels,
    migration timers, relays, a cancelled context and shutdown, and whatever the
    environment answers: who owns a connection closes it at most once and gives
    its slot back at most once; a relay closes a connection besides only when a
    direction of it failed or the context is cancelled; as soon as no goroutine
    has the end of a connection before it, its owner has closed it and given back
    the slot, and the stream of its flow is closed; the registry keeps its
    limits; and when [Close] has returned, only an admission that is still
    failing has its connection open. *)
Theorem runtime_settled config s0 t1 t2 channels s threads :
  NewContinuityRuntime config true = Ok (s0, t1, t2) ->
  rtc system_step (start (rt_registry s0) channels, []) (s, threads) ->
  NoDup (targets_closed s) /\ NoDup (slots_released s) /\
  (forall h, RelayClosed h ∈ rt_log s -> cancelled s = true \/ relay_failed s h) /\
  (forall h, h ∈ handed s -> (forall x, x ∈ concat threads -> works_on s h x = false) -> h ∈ targets_closed s /\ h ∈ slots_released s /\
    forall i o, rt_objects s !! i = Some o -> sf_target o = h -> stream_closed s i = true) /\
  Flows.Count (rt_registry s) <= MaxFlows config /\ (forall p, flows_of (fr_flows (rt_registry s)) p <= MaxFlowsPerPrincipal config) /\
  (rt_close s = Finished -> forall h, h ∈ handed s -> h ∈ targets_closed s \/ exists x, x ∈ concat threads /\ closes x = Some h).
Proof.
  intros Hnew Hr. destruct (start_steady _ _ _ _ channels Hnew) as [Hst Hlim]. destruct (steps_steady _ _ Hr Hst) as [[H _ D _] Hl]. cbn [fst snd] in *. rewrite Hlim in Hl.
  pose proof (NoDup_handed s) as N. pose proof (in_flows _ _ H) as (L1 & L2 & L3 & L4 & L5 & L6). injection Hl as Hm Hmp. split_and!.
  - rewrite (in_targets _ _ H) in N. by apply NoDup_app in N as [N _].
  - destruct (in_slots _ _ H) as (direct & S1 & S2). rewrite S1, app_assoc in N. apply NoDup_app in N as [N _]. rewrite <- S2 in N. by apply NoDup_app in N as [N _].
  - exact (rd_closes _ _ D).
  - intros h Hh Hw. destruct (inv_settled _ _ _ H Hh Hw) as [? ?]. split; [done|]. split; [done|]. intros i o Ho <-. by eapply stream_settled.
  - unfold Flows.Count. lia.
  - intros p. destruct (L4 p). lia.
  - intros Hc h Hh. rewrite (in_targets _ _ H), (L6 (in_close _ _ H Hc)) in Hh. unfold upstreams in Hh. rewrite map_to_list_empty in Hh. cbn in Hh.
    apply elem_of_app in Hh as [Hh|Hh]; [by left|]. right. by apply list_elem_of_omap in Hh.
Qed.
End Runtime.

(** ** Examples *)

Module RuntimeExample.
Definition no_err (h : handle) : option error := None.
Definition config : ContinuityRuntimeConfig := mkRuntimeConfig 2 2 65536 4096 0 0.
Definition registry : FlowRegistry := mkFlowRegistry 2 2 ∅ ∅ false.
Definition p : list byte := replicate 32 x01.
Definition k : list byte := replicate 16 x02.
Definition id : list byte := replicate 16 x03.
Definition key (b : byte) : list byte := replicate 16 b.
Definition channel : ControlChannel := mkChannel k 4 ∅ false None 5.
Definition lease (b : byte) (c : nat) : ContinuityLease := mkLease p k (key b) (Some c) true.
Definition open_new (b : byte) : ContinuityOpenMetadata := mkOpenMetadata ContinuityOpenNew k id (key b) 1 0 0 [x01].
Definition resume (b : byte) (epoch : Z) : ContinuityOpenMetadata := mkOpenMetadata ContinuityOpenResume k id (key b) epoch 0 0 [].

(** Three leases of one client. *)
Definition s0 : ContinuityRuntime := start registry [channel; channel; channel].

(** Calls, and the goroutines that go on, each for a number of instructions. *)
Inductive act := Admit (b : byte) (c : nat) | Resumes (b : byte) (epoch : Z) (c : nat) | Aborts (c : nat) | Shut | Go (t : nat) (n : nat) | Relays (i : nat) (l : list (worker * answer)).
Definition relays (i : nat) (l : list (worker * answer)) (y : system) : system :=
  foldl (fun y wa => match relay_goroutine y.1 i wa.1 wa.2 with Some s => (s, y.2) | None => y end) y l.
(** Both directions end. *)
Definition ended : list (worker * answer) := [(Up, Says None); (Up, Says None); (Down, Says None); (Down, Says None); (Caller, Quiet); (Caller, Quiet); (Caller, Quiet)].
Fixpoint advance (n : nat) (t : nat) (y : system) : system :=
  match n with O => y | S n => match thread_step no_err y t None with Some y => advance n t y | None => y end end.
Definition play (y : system) (a : act) : system :=
  match a with
  | Admit b c => if is_ok (validateOpen (open_new b)) then let '(s, i) := AdmitNew y.1 (open_new b) (lease b c) true None None in (s, y.2 ++ [i]) else y
  | Resumes b epoch c => (y.1, y.2 ++ [Resume (resume b epoch) (lease b c) true])
  | Aborts c =>
      match rt_controls y.1 !! c with
      | None => y
      | Some channel => (with_control y.1 c (handleAbort channel id ErrControlFlowAborted).1 (rt_bindings y.1), y.2 ++ [aborts (handleAbort channel id ErrControlFlowAborted).2])
      end
  | Shut => (y.1, y.2 ++ [[IClose; IReturn None]])
  | Go t n => advance n t y
  | Relays i l => relays i l y
  end.
Definition run (l : list act) : system := foldl play (s0, []) l.
Definition registered_on (y : system) : list bool := map (fun c => bool_decide (is_Some (ch_handlers c !! id))) (rt_controls y.1).

(** A flow moves to another carrier and ends. *)
Definition moved : list act := [Admit x11 0; Go 0 9; Go 1 1; Resumes x12 2 1; Go 2 20; Relays 0 ended; Go 1 20].
Lemma moved_run : (run moved).1.(rt_log) = [CallReturned None; CallReturned None; StreamClosed 0; TargetClosed 0; ReleaseCalled 0] /\ concat (run moved).2 = [] /\ registered_on (run moved) = [false; false; false].
Proof. by vm_compute. Qed.

(** The client retries a migration on another lease since the answer to the
    first attempt was lost; the server has already applied that one, takes the
    retry for a conflict and closes the target of a flow both ends could use. *)
Example retry_kills_flow : let y := run [Admit x11 0; Go 0 9; Resumes x12 2 1; Go 2 20; Resumes x13 2 2; Go 3 20] in
  TargetClosed 0 ∈ rt_log y.1 /\ last (rt_log y.1) = Some (CallReturned (Some (Join [Sentinel ErrFlowConflict]))).
Proof. vm_compute. split; [|done]. repeat (first [by left|right]). Qed.

(** An ABORT of the client that arrives between the registration of a new flow
    and its entry in the table: the flow ends first and is entered afterwards.
    No goroutine will ever remove it. *)
Example aborted_flow_stays : let y := run [Admit x11 0; Go 0 2; Aborts 0; Go 1 20; Go 0 20; Go 2 1;
    Relays 0 [(Down, Quiet); (Down, Quiet); (Up, Quiet); (Up, Quiet); (Caller, Quiet); (Caller, Quiet); (Caller, Quiet)]; Go 2 20] in
  concat y.2 = [] /\ Count y.1 = 1 /\ Flows.Count (rt_registry y.1) = 0 /\ rt_log y.1 = [StreamClosed 0; TargetClosed 0; ReleaseCalled 0; CallReturned None].
Proof. by vm_compute. Qed.

(** The relay of a flow ends while the flow moves: the control channel that it
    leaves keeps its registration. *)
Example old_registration_stays : let y := foldl play (default (s0, []) (thread_step no_err (run [Admit x11 0; Go 0 9; Go 1 1; Resumes x12 2 1; Go 2 5; Relays 0 ended; Go 1 20]) 2 (Some (Sentinel ErrResumableClosed)))) [Go 2 20] in
  concat y.2 = [] /\ registered_on y = [true; false; false].
Proof. by vm_compute. Qed.

Lemma advance_reachable n t y : rtc (system_step no_err) y (advance n t y).
Proof.
  revert y. induction n as [|n IH]; intros y; [apply rtc_refl|]. cbn [advance]. destruct (thread_step no_err y t None) as [y'|] eqn:E; [|apply rtc_refl].
  eapply rtc_l; [by eapply step_thread|apply IH].
Qed.

Lemma relays_reachable i l y : rtc (system_step no_err) y (relays i l y).
Proof.
  revert y. induction l as [|[w ans] l IH]; intros [s threads]; [apply rtc_refl|]. cbn [relays foldl fst snd]. destruct (relay_goroutine s i w ans) as [s'|] eqn:E; [|apply IH].
  eapply rtc_l; [by eapply step_relay|apply IH].
Qed.

Lemma play_reachable y a : rtc (system_step no_err) y (play y a).
Proof.
  destruct y as [s threads]. destruct a as [b c|b epoch c|c| |t n|i l]; cbn [play fst snd]; [| | | |apply advance_reachable|apply relays_reachable].
  - destruct (is_ok _) eqn:E; [|apply rtc_refl]. destruct (AdmitNew _ _ _ _ _ _) as [s' i] eqn:Ea. apply rtc_once. by eapply step_admit.
  - apply rtc_once, step_resume.
  - destruct (rt_controls s !! c) as [ch|] eqn:E; [|apply rtc_refl]. apply rtc_once. by apply (step_abort no_err s threads c ch id).
  - apply rtc_once, step_close.
Qed.

Lemma played_reachable l : rtc (system_step no_err) (s0, []) (run l).
Proof.
  unfold run. generalize (s0, @nil (list instr)). induction l as [|a l IH]; intros y; [apply rtc_refl|]. cbn [foldl]. etrans; [apply play_reachable|apply IH].
Qed.

(** A direction fails, and the relay closes both ends before the flow ends. *)
Definition broken : list act := [Admit x11 0; Go 0 9; Go 1 1; Relays 0 [(Down, Says (Some (Sentinel ErrResumableClosed))); (Down, Says None); (Caller, Quiet); (Caller, Quiet); (Caller, Quiet);
  (Up, Quiet); (Up, Quiet); (Caller, Quiet); (Caller, Quiet)]; Go 1 20].
Lemma broken_run : (run broken).1.(rt_log) = [CallReturned None; RelayClosed 0; StreamClosed 0; StreamClosed 0; TargetClosed 0; ReleaseCalled 0] /\ concat (run broken).2 = [].
Proof. by vm_compute. Qed.

Lemma runtime_settled_witness : let y := run broken in
  handed y.1 = [0] /\ (0 ∈ handed y.1 -> (forall x, x ∈ concat y.2 -> works_on y.1 0 x = false) -> 0 ∈ targets_closed y.1 /\ 0 ∈ slots_released y.1) /\ NoDup (targets_closed y.1) /\
  (RelayClosed 0 ∈ rt_log y.1 -> cancelled y.1 = true \/ relay_failed y.1 0).
Proof.
  pose proof (played_reachable broken) as Hr. destruct (run broken) as [s threads] eqn:E.
  destruct (runtime_settled no_err config (start registry []) defaultControlTimeout defaultMigrationTimeout [channel; channel; channel] s threads) as (H1 & _ & H2 & H3 & _); [by vm_compute|exact Hr|].
  cbn [fst snd]. split; [|split; [|split; [exact H1|exact (H2 0)]]].
  - change s with ((s, threads).1). rewrite <- E. by vm_compute.
  - intros Hh Hw. destruct (H3 0 Hh Hw) as (A & B & _). exact (conj A B).
Defined.

(** A flow that goes on, and a [Close]. *)
Definition closing_run : list act := [Admit x11 0; Go 0 9; Go 1 1].
Lemma goes_on_there : let y := run closing_run in concat y.2 = [IRelay 0; IFinish 0; IWaitDone 0] /\
  match rt_objects y.1 !! 0%nat with Some o => lives y 0 o | None => False end.
Proof. vm_compute. by split_and!. Qed.

Lemma runtime_quiesces_witness : let y := run (closing_run ++ [Shut; Go 2 1]) in
  concat y.2 = [IRelay 0; IFinish 0; IWaitDone 0; IFinish 0; IWait; ICloseRegistry; IReturn None] /\
  (forall n y', nsteps (goes_on no_err) n y y' -> (n <= 29)%nat) /\
  (forall y', rtc (goes_on no_err) y y' -> ~ can_step no_err y' -> rt_close y'.1 <> Fresh -> concat y'.2 = []).
Proof.
  pose proof (played_reachable (closing_run ++ [Shut; Go 2 1])) as Hr.
  destruct (runtime_quiesces no_err config (start registry []) defaultControlTimeout defaultMigrationTimeout [channel; channel; channel] (run (closing_run ++ [Shut; Go 2 1]))) as [H1 H2]; [by vm_compute|exact Hr|].
  split; [by vm_compute|]. split.
  - intros n y' H. specialize (H1 n y' H). replace (work _ _) with 29%nat in H1 by (by vm_compute). exact H1.
  - intros y' Hy Hn Hc. destruct (H2 y' Hy Hn) as (_ & _ & _ & H3). by apply H3; left.
Defined.
End RuntimeExample.
