(* ===== verification/SessionRouter.v ===== *)
(** * The session router of the tunnel (internal/tunstack/session_router.go)

    The pool of at most three authenticated sessions: new TCP flows go to the
    least loaded one, UDP to the active one.  A session is a handle; how many
    streams it has, whether its datagrams are enabled and what opening answers
    are the environment.  Each method under the mutex is one step, and an opener
    that was pinned to a route is a value that can be run later. *)
From stdpp Require Import prelude list.
From S2P Require Import Prelude Varint Cluster Target UdpRecord ClusterRelay.

(** [open != nil] is the handle of its session. *)
Record sessionRoute := mkSR { sr_id : Z; sr_open : option nat; sr_datagrams : option nat; sr_maxUDPPayload : Z; sr_standby : bool }.
#[global] Instance sessionRoute_eq_dec : EqDecision sessionRoute.
Proof. solve_decision. Defined.

Record SessionRouter := mkRouter {
  r_active : sessionRoute; r_routes : list sessionRoute; r_nextRouteID : Z; r_tieCursor : Z;
  r_assignments : Z; r_tcpAttempts : Z; r_tcpSuccesses : Z; r_tcpFailures : Z; r_quicFallbacks : Z;
  r_continuity : option nat; r_clientRoutes : option (list Route)
}.

Definition with_pool (r : SessionRouter) (active : sessionRoute) (routes : list sessionRoute) (next cursor : Z) : SessionRouter :=
  mkRouter active routes next cursor (r_assignments r) (r_tcpAttempts r) (r_tcpSuccesses r) (r_tcpFailures r) (r_quicFallbacks r) (r_continuity r) (r_clientRoutes r).
Definition with_stats (r : SessionRouter) (assignments attempts successes failures : Z) : SessionRouter :=
  mkRouter (r_active r) (r_routes r) (r_nextRouteID r) (r_tieCursor r) assignments attempts successes failures (r_quicFallbacks r) (r_continuity r) (r_clientRoutes r).
Definition with_rules (r : SessionRouter) (continuity : option nat) (clientRoutes : option (list Route)) : SessionRouter :=
  mkRouter (r_active r) (r_routes r) (r_nextRouteID r) (r_tieCursor r) (r_assignments r) (r_tcpAttempts r) (r_tcpSuccesses r) (r_tcpFailures r) (r_quicFallbacks r)
    continuity clientRoutes.

Definition EnableContinuity (router : nat) (r : SessionRouter) : res unit * SessionRouter :=
  match r_continuity r with Some _ => (Err ErrInvalidStackConfig, r) | None => (Ok tt, with_rules r (Some router) (r_clientRoutes r)) end.

Definition SetClientRoutes (policy : option (list Route)) (r : SessionRouter) : res unit * SessionRouter :=
  match policy with None => (Err ErrInvalidClientRoutes, r) | Some _ => (Ok tt, with_rules r (r_continuity r) policy) end.

(** ** The pool *)

Section Enabled.
Context (Enabled : nat -> bool).

(** The refusals of a route: no session, a payload limit that is no limit, or
    datagrams that cannot be used. *)
Definition invalid_route (route : sessionRoute) : bool :=
  bool_decide (sr_open route = None)
  || (negb (sr_maxUDPPayload route =? 0) && ((sr_maxUDPPayload route <? 1200) || (MaxUDPDatagramPayload <? sr_maxUDPPayload route)))
  || match sr_datagrams route with Some d => (sr_maxUDPPayload route =? 0) || negb (Enabled d) | None => false end.

Definition makeSessionRoute (mux : option nat) (maxUDPPayload : Z) (datagrams : option nat) : res sessionRoute :=
  let route := mkSR 0 mux datagrams maxUDPPayload false in
  if invalid_route route then Err ErrInvalidStackConfig else Ok route.

Definition with_id (route : sessionRoute) (i : Z) : sessionRoute := mkSR i (sr_open route) (sr_datagrams route) (sr_maxUDPPayload route) (sr_standby route).
Definition with_standby (route : sessionRoute) (standby : bool) : sessionRoute := mkSR (sr_id route) (sr_open route) (sr_datagrams route) (sr_maxUDPPayload route) standby.

Definition NewSessionRouter (mux : option nat) (maxUDPPayload : Z) (datagrams : option nat) : res SessionRouter :=
  route ← makeSessionRoute mux maxUDPPayload datagrams;
  let route := with_id route 1 in
  Ok (mkRouter route [route] 2 0 0 0 0 0 0 None None).

Definition switchRoute (route : sessionRoute) (r : SessionRouter) : res unit * SessionRouter :=
  if invalid_route route then (Err ErrInvalidStackConfig, r)
  else let route := with_id route 1 in (Ok tt, with_pool r route [route] 2 0).

Definition Switch (mux : option nat) (maxUDPPayload : Z) (datagrams : option nat) (r : SessionRouter) : res unit * SessionRouter :=
  match makeSessionRoute mux maxUDPPayload datagrams with Err e => (Err e, r) | Ok route => switchRoute route r end.

Definition addRoute (route : sessionRoute) (r : SessionRouter) : res Z * SessionRouter :=
  if invalid_route route then (Err ErrInvalidStackConfig, r)
  else if bool_decide (r_routes r = []) && bool_decide (sr_open (r_active r) = None) then (Err ErrInvalidStackConfig, r)
  else
    let r := match r_routes r with
             | [] => let active := with_id (r_active r) 1 in with_pool r active [active] 2 (r_tieCursor r)
             | _ => r
             end in
    if 3 <=? len (r_routes r) then (Err ErrCarrierPoolFull, r)
    else
      let next := if r_nextRouteID r <? 2 then 2 else r_nextRouteID r in
      (Ok next, with_pool r (r_active r) (r_routes r ++ [with_id route next]) (u64 (next + 1)) (r_tieCursor r)).

Definition addStandbyRoute (route : sessionRoute) (r : SessionRouter) : res Z * SessionRouter := addRoute (with_standby route true) r.

Definition Add (mux : option nat) (maxUDPPayload : Z) (datagrams : option nat) (r : SessionRouter) : res Z * SessionRouter :=
  match makeSessionRoute mux maxUDPPayload datagrams with Err e => (Err e, r) | Ok route => addRoute route r end.

Definition AddStandby (mux : option nat) (maxUDPPayload : Z) (datagrams : option nat) (r : SessionRouter) : res Z * SessionRouter :=
  match makeSessionRoute mux maxUDPPayload datagrams with Err e => (Err e, r) | Ok route => addStandbyRoute route r end.
End Enabled.

(** The first route with the identifier that the loop accepts, and its place. *)
Fixpoint route_index (ok : sessionRoute -> bool) (routes : list sessionRoute) : option (nat * sessionRoute) :=
  match routes with
  | [] => None
  | route :: routes => if ok route then Some (0%nat, route) else '(i, found) ← route_index ok routes; Some (S i, found)
  end.

Definition is_open (route : sessionRoute) : bool := negb (bool_decide (sr_open route = None)).

Definition Remove (i : Z) (r : SessionRouter) : bool * SessionRouter :=
  if i =? 0 then (false, r)
  else match route_index (fun route => (sr_id route =? i) && negb (sr_id route =? sr_id (r_active r))) (r_routes r) with
       | Some (index, _) => (true, with_pool r (r_active r) (delete index (r_routes r)) (r_nextRouteID r) (r_tieCursor r))
       | None => (false, r)
       end.

Definition Promote (i : Z) (r : SessionRouter) : res unit * SessionRouter :=
  if i =? 0 then (Err ErrInvalidStackConfig, r)
  else match route_index (fun route => (sr_id route =? i) && is_open route) (r_routes r) with
       | Some (index, route) =>
           let route := with_standby route false in
           (Ok tt, with_pool r route (<[index := route]> (r_routes r)) (r_nextRouteID r) (r_tieCursor r))
       | None => (Err ErrInvalidStackConfig, r)
       end.

Definition SetStandby (i : Z) (standby : bool) (r : SessionRouter) : bool * SessionRouter :=
  if i =? 0 then (false, r)
  else match route_index (fun route => (sr_id route =? i) && is_open route) (r_routes r) with
       | Some (index, route) =>
           let route := with_standby route standby in
           (true, with_pool r (if sr_id (r_active r) =? i then route else r_active r) (<[index := route]> (r_routes r)) (r_nextRouteID r) (r_tieCursor r))
       | None => (false, r)
       end.

(** ** Selection *)

(** The routes of least load, in the order of the pool; [load] of a session. *)
Definition tie_step (load : nat -> Z) (acc : Z * list sessionRoute) (route : sessionRoute) : Z * list sessionRoute :=
  let '(minimum, ties) := acc in
  let load := match sr_open route with Some mux => load mux | None => 0 end in
  if load <? minimum then (load, [route]) else if load =? minimum then (minimum, ties ++ [route]) else acc.

Definition least_ties (load : nat -> Z) (routes : list sessionRoute) : Z * list sessionRoute := foldl (tie_step load) (MaxUint64, []) routes.

(** The routes the selection considers: those that are not standby, if any is. *)
Definition eligible (r : SessionRouter) : list sessionRoute :=
  let routes := match r_routes r with [] => if is_open (r_active r) then [r_active r] else [] | routes => routes end in
  match filter (fun route => sr_standby route = false) routes with [] => routes | active => active end.

(** [None]: the remainder by the number of ties would panic. *)
Definition selectLeastLoaded (load : nat -> Z) (r : SessionRouter) : option (res sessionRoute * SessionRouter) :=
  match eligible r with
  | [] => Some (Err ErrInvalidStackConfig, r)
  | routes =>
      let ties := snd (least_ties load routes) in
      match ties !! Z.to_nat (r_tieCursor r mod len ties) with
      | Some selected => Some (Ok selected, with_pool r (r_active r) (r_routes r) (r_nextRouteID r) (u64 (r_tieCursor r + 1)))
      | None => None
      end
  end.

Definition snapshot (r : SessionRouter) : res sessionRoute := if is_open (r_active r) then Ok (r_active r) else Err ErrInvalidStackConfig.

Definition PoolStats (r : SessionRouter) : Z * Z :=
  let healthy := len (r_routes r) in
  ((if (healthy =? 0) && is_open (r_active r) then 1 else healthy), r_assignments r).
Definition TCPStreamStats (r : SessionRouter) : Z * Z * Z := (r_tcpAttempts r, r_tcpSuccesses r, r_tcpFailures r).
Definition QUICFallbackCount (r : SessionRouter) : Z := r_quicFallbacks r.

Definition UDPMode (r : SessionRouter) : list byte :=
  match snapshot r with
  | Err _ => bytes_of "disabled"
  | Ok route =>
      if sr_maxUDPPayload route =? 0 then bytes_of "disabled"
      else match sr_datagrams route with Some _ => bytes_of "fast-datagram" | None => bytes_of "reliable-stream-degraded" end
  end.

(** ** Opening flows *)

Section Open.
Context (json_relay : RelayRequest -> option (list byte)) (parse_relay : list byte -> option RelayRequest).
Context (json_sync : CredentialSyncRequest -> option (list byte)) (parse_sync : list byte -> option CredentialSyncRequest).
Context (json_geo : GeoDataRequest -> option (list byte)) (parse_geo : list byte -> option GeoDataRequest).
Context (json_route : ClientRouteRequest -> option (list byte)) (parse_route : list byte -> option ClientRouteRequest).

Abbreviation route_rewrite := (rewrite json_relay parse_relay json_sync parse_sync json_geo parse_geo json_route parse_route).

(** An opener: where it opens, and the client routes when it was pinned. *)
Inductive place := OnContinuity (router : nat) | OnRoute (route : sessionRoute).
Record opener := mkOpener { op_place : place; op_routes : option (list Route) }.

Definition pinStreamOpener (load : nat -> Z) (r : SessionRouter) : option (res opener * SessionRouter) :=
  let assigned r := with_stats r (u64 (r_assignments r + 1)) (r_tcpAttempts r) (r_tcpSuccesses r) (r_tcpFailures r) in
  match r_continuity r with
  | Some router => Some (Ok (mkOpener (OnContinuity router) (r_clientRoutes r)), assigned r)
  | None =>
      '(selected, r) ← selectLeastLoaded load r;
      match selected with
      | Err e => Some (Err e, r)
      | Ok route => Some (Ok (mkOpener (OnRoute route) (r_clientRoutes r)), assigned r)
      end
  end.

Definition observeTCPStreamOpen (failed : bool) (r : SessionRouter) : SessionRouter :=
  if failed then with_stats r (r_assignments r) (r_tcpAttempts r) (r_tcpSuccesses r) (u64 (r_tcpFailures r + 1))
  else with_stats r (r_assignments r) (r_tcpAttempts r) (u64 (r_tcpSuccesses r + 1)) (r_tcpFailures r).

(** Running an opener: [answer] is what the session says to the metadata. *)
Definition run_opener (o : opener) (metadata : list byte) (answer : list byte -> res nat) (r : SessionRouter) : res nat * SessionRouter :=
  let r := with_stats r (r_assignments r) (u64 (r_tcpAttempts r + 1)) (r_tcpSuccesses r) (r_tcpFailures r) in
  match (match op_routes o with Some _ => route_rewrite (op_routes o) metadata | None => Ok metadata end) with
  | Err e => (Err e, observeTCPStreamOpen true r)
  | Ok metadata => (answer metadata, observeTCPStreamOpen (negb (is_ok (answer metadata))) r)
  end.

Definition openStream (load : nat -> Z) (metadata : list byte) (answer : place -> list byte -> res nat) (r : SessionRouter) : option (res nat * SessionRouter) :=
  '(pinned, r) ← pinStreamOpener load r;
  match pinned with
  | Err e => Some (Err e, r)
  | Ok o => Some (run_opener o metadata (answer (op_place o)) r)
  end.

(** What an attempt to open a UDP flow does to its stream. *)
Inductive udp_outcome := UDPFailed (e : error) (closed : option nat) | UDPOpened (stream : nat) (endpoint : option nat) (maxUDPPayload : Z).

(** [ID] of the stream (0 when it has none) and [OpenEndpoint] are the environment. *)
Definition openUDP (metadata : list byte) (answer : sessionRoute -> list byte -> res nat) (ID : nat -> Z) (OpenEndpoint : nat -> Z -> res nat) (r : SessionRouter) : udp_outcome :=
  match (match r_clientRoutes r with Some _ => route_rewrite (r_clientRoutes r) metadata | None => Ok metadata end) with
  | Err e => UDPFailed e None
  | Ok metadata =>
      match snapshot r with
      | Err e => UDPFailed e None
      | Ok route =>
          if sr_maxUDPPayload route =? 0 then UDPFailed ErrUDPUnsupported None
          else match answer route metadata with
               | Err e => UDPFailed e None
               | Ok stream =>
                   match sr_datagrams route with
                   | None => UDPOpened stream None (sr_maxUDPPayload route)
                   | Some datagrams =>
                       if ID stream =? 0 then UDPFailed ErrSessionConfig (Some stream)
                       else match OpenEndpoint datagrams (ID stream) with
                            | Err e => UDPFailed e (Some stream)
                            | Ok endpoint => UDPOpened stream (Some endpoint) (sr_maxUDPPayload route)
                            end
                   end
               end
      end
  end.
End Open.

(** ** The pool is well formed *)

Record pool_ok (r : SessionRouter) : Prop := {
  po_size : 1 <= len (r_routes r) <= 3;
  po_ids : NoDup (map sr_id (r_routes r));
  po_active : r_active r ∈ r_routes r;
  po_range : Forall (fun route => 1 <= sr_id route < r_nextRouteID r /\ is_open route = true) (r_routes r);
  po_next : 2 <= r_nextRouteID r
}.

Lemma route_index_spec ok routes i route : route_index ok routes = Some (i, route) -> routes !! i = Some route /\ ok route = true.
Proof.
  revert i. induction routes as [|x routes IH]; intros i; cbn [route_index]; [done|]. destruct (ok x) eqn:E; [by intros [= <- ->]|].
  destruct (route_index ok routes) as [[j y]|]; [|done]. intros [= <- ->]. by apply IH.
Qed.

Lemma route_open_iff route : is_open route = true <-> sr_open route <> None.
Proof. unfold is_open. rewrite negb_true_iff. by rewrite bool_decide_eq_false. Qed.

Lemma valid_open Enabled route : invalid_route Enabled route = false -> is_open route = true.
Proof. unfold invalid_route, is_open. intros [[H _]%orb_false_iff _]%orb_false_iff. by rewrite H. Qed.

Lemma single_ok r route cursor : is_open route = true -> sr_id route = 1 -> pool_ok (with_pool r route [route] 2 cursor).
Proof. intros Ho Hi. constructor; cbn [with_pool r_routes r_active r_nextRouteID map]; [unfold len; cbn [length]; lia|apply NoDup_singleton|left|constructor; [rewrite Hi; split; [lia|done]|constructor]|lia]. Qed.

(** Two members of the pool with one identifier are one. *)
Lemma same_id r x y : pool_ok r -> x ∈ r_routes r -> y ∈ r_routes r -> sr_id x = sr_id y -> x = y.
Proof.
  intros Hp Hx Hy E. apply list_elem_of_lookup in Hx as [i Hi]. apply list_elem_of_lookup in Hy as [j Hj].
  assert (i = j); [|by simplify_eq]. apply (NoDup_lookup _ _ _ (sr_id x) (po_ids r Hp)); rewrite list_lookup_fmap; [by rewrite Hi|by rewrite Hj, E].
Qed.

(** Replacing a member by one with the same identifier. *)
Lemma replace_ok r i old new active : pool_ok r -> r_routes r !! i = Some old -> sr_id new = sr_id old -> is_open new = true ->
  active = (if sr_id (r_active r) =? sr_id old then new else r_active r) \/ active = new ->
  pool_ok (with_pool r active (<[i := new]> (r_routes r)) (r_nextRouteID r) (r_tieCursor r)).
Proof.
  intros Hp Hi He Ho Ha. pose proof (lookup_lt_Some _ _ _ Hi) as Hlt.
  assert (Hnew : new ∈ <[i := new]> (r_routes r)) by (apply list_elem_of_lookup; exists i; by apply list_lookup_insert_eq).
  constructor; cbn.
  - unfold len. rewrite length_insert. apply Hp.
  - rewrite list_fmap_insert, list_insert_id; [apply Hp|]. by rewrite list_lookup_fmap, Hi, He.
  - destruct Ha as [-> | ->]; [|done]. destruct (Z.eqb_spec (sr_id (r_active r)) (sr_id old)) as [|Hne]; [done|].
    destruct (proj1 (list_elem_of_lookup _ _) (po_active r Hp)) as [j Hj]. apply list_elem_of_lookup. exists j.
    rewrite list_lookup_insert_ne; [done|]. intros ->. rewrite Hi in Hj. by injection Hj as ->.
  - apply Forall_insert; [apply Hp|]. rewrite He. split; [|done].
    by destruct (proj1 (Forall_lookup _ _) (po_range r Hp) i old Hi).
  - apply Hp.
Qed.

Lemma addRoute_ok Enabled route r : pool_ok r -> r_nextRouteID r < 2 ^ 64 - 1 -> pool_ok (snd (addRoute Enabled route r)) /\
  r_nextRouteID (snd (addRoute Enabled route r)) <= r_nextRouteID r + 1.
Proof.
  intros Hp Hn. pose proof (po_next r Hp). unfold addRoute. destruct (invalid_route Enabled route) eqn:Hv; [split; [done|cbn; lia]|].
  destruct (r_routes r) as [|x routes] eqn:Er; [pose proof (po_size r Hp) as Hs; rewrite Er in Hs; rewrite len_nil in Hs; lia|].
  rewrite bool_decide_false by done. cbn [andb]. rewrite Er. destruct (Z.leb_spec 3 (len (x :: routes))); [split; [done|cbn; lia]|].
  rewrite (proj2 (Z.ltb_ge _ _)) by lia. cbn [snd with_pool r_nextRouteID]. rewrite u64_small by (unfold is_u64; lia). split; [|lia].
  rewrite <- Er in *. constructor; cbn.
  - rewrite len_app, len_cons, len_nil. pose proof (po_size r Hp). lia.
  - rewrite map_app. apply NoDup_app. split; [apply Hp|]. split; [|apply NoDup_singleton]. intros k Hk ->%list_elem_of_singleton. cbn in Hk.
    apply list_elem_of_fmap in Hk as (y & Hy & Hin). pose proof (proj1 (Forall_forall _ _) (po_range r Hp) y Hin) as [? _]. lia.
  - apply elem_of_app. left. apply Hp.
  - apply Forall_app. split; [eapply Forall_impl; [apply (po_range r Hp)|]; cbn; intros y [? ?]; split; [lia|done]|].
    constructor; [|constructor]. cbn. split; [lia|]. by apply valid_open in Hv.
  - lia.
Qed.

Lemma Remove_ok i r : pool_ok r -> pool_ok (snd (Remove i r)).
Proof.
  intros Hp. unfold Remove. destruct (i =? 0); [done|]. destruct (route_index _ _) as [[index route]|] eqn:E; [|done].
  apply route_index_spec in E as [Hi [_ Hne%negb_true_iff%Z.eqb_neq]%andb_prop]. cbn [snd].
  assert (Hact : r_active r ∈ delete index (r_routes r)).
  { destruct (proj1 (list_elem_of_lookup _ _) (po_active r Hp)) as [j Hj]. assert (j <> index) by (intros ->; simplify_eq).
    apply list_elem_of_lookup. destruct (decide (j < index)%nat); [exists j; by rewrite list_lookup_delete_lt by done|].
    exists (pred j). rewrite list_lookup_delete_ge by lia. by replace (S (pred j)) with j by lia. }
  constructor; cbn; [|..|done| |apply Hp].
  - pose proof (length_delete (r_routes r) index ltac:(by exists route)) as Hl. pose proof (lookup_lt_Some _ _ _ Hi). pose proof (po_size r Hp).
    destruct (delete index (r_routes r)) as [|y l] eqn:Ed; [by apply not_elem_of_nil in Hact|]. unfold len in *. cbn in *. lia.
  - rewrite list_fmap_delete. eapply sublist_NoDup; [apply (po_ids r Hp)|]. apply sublist_delete.
  - apply Forall_forall. intros y Hy. pose proof (proj1 (Forall_forall _ _) (po_range r Hp) y) as H. apply H.
    apply (sublist_subseteq (delete index (r_routes r))); [apply sublist_delete|done].
Qed.

(** ** The least loaded route *)

Definition weight (load : nat -> Z) (route : sessionRoute) : Z := match sr_open route with Some mux => load mux | None => 0 end.

Lemma filter_none {A} (P : A -> Prop) `{!forall x, Decision (P x)} (l : list A) : Forall (fun x => ~ P x) l -> filter P l = [].
Proof. induction 1; [done|]. by rewrite filter_cons_False. Qed.

Lemma least_ties_spec load routes : (forall mux, load mux <= MaxUint64) ->
  let '(minimum, ties) := least_ties load routes in
  ties = filter (fun route => weight load route = minimum) routes /\ Forall (fun route => minimum <= weight load route) routes /\
  (routes = [] -> minimum = MaxUint64) /\ (routes <> [] -> ties <> []).
Proof.
  intros Hl. unfold least_ties. induction routes as [|x routes IH] using rev_ind; [done|]. rewrite foldl_snoc.
  assert (Hw : weight load x <= MaxUint64) by (unfold weight; destruct (sr_open x); [done|unfold MaxUint64; lia]).
  destruct (foldl (tie_step load) (MaxUint64, []) routes) as [minimum ties]. destruct IH as (Ht & Hmin & Hm & Hne). cbn [tie_step]. fold (weight load x).
  assert (Happ : routes ++ [x] = [] -> False) by (by intros [_ [=]]%app_eq_nil).
  destruct (Z.ltb_spec (weight load x) minimum) as [Hlt|Hge]; [|destruct (Z.eqb_spec (weight load x) minimum) as [He|He]];
    rewrite filter_app, filter_cons, filter_nil, Forall_app, Forall_singleton.
  - rewrite decide_True, filter_none by (done || (eapply Forall_impl; [exact Hmin|]; cbn; lia)).
    split; [done|]. split; [split; [eapply Forall_impl; [exact Hmin|]; cbn; lia|lia]|]. done.
  - rewrite decide_True, <- Ht by done. split; [done|]. split; [split; [done|lia]|]. split; [done|]. by intros _ [_ [=]]%app_eq_nil.
  - rewrite decide_False, app_nil_r, <- Ht by done. split; [done|]. split; [split; [done|lia]|]. split; [done|]. intros _. apply Hne.
    intros ->. specialize (Hm eq_refl). lia.
Qed.

Lemma eligible_spec r : pool_ok r -> eligible r <> [] /\ (forall route, route ∈ eligible r -> route ∈ r_routes r) /\
  (forall route, route ∈ eligible r -> sr_standby route = true -> Forall (fun other => sr_standby other = true) (r_routes r)) /\
  (forall route other, route ∈ eligible r -> other ∈ r_routes r -> sr_standby other = sr_standby route -> other ∈ eligible r) /\ NoDup (eligible r).
Proof.
  intros Hp. assert (Hnd : NoDup (r_routes r)) by (eapply NoDup_fmap_1, (po_ids r Hp)). unfold eligible.
  destruct (r_routes r) as [|x routes] eqn:Er; [pose proof (po_size r Hp) as Hs; rewrite Er, len_nil in Hs; lia|]. rewrite <- Er in *. clear Er x routes.
  destruct (filter _ (r_routes r)) as [|y l] eqn:F.
  - assert (Hall : forall route, route ∈ r_routes r -> sr_standby route = true).
    { intros route Hin. destruct (sr_standby route) eqn:E; [done|]. by destruct (filter_nil_not_elem_of _ _ route F E). }
    split; [intros E; pose proof (po_size r Hp) as Hs; rewrite E, len_nil in Hs; lia|]. split; [done|]. split; [intros; by apply Forall_forall|done].
  - rewrite <- F. split; [by rewrite F|]. split; [by intros route [_ ?]%list_elem_of_filter|].
    split; [intros route [E _]%list_elem_of_filter ?; congruence|]. split; [|by apply NoDup_filter].
    intros route other [E _]%list_elem_of_filter Hin Ho. apply list_elem_of_filter. split; [congruence|done].
Qed.

(** The routes of least load among those considered. *)
Definition ties (load : nat -> Z) (r : SessionRouter) : list sessionRoute := snd (least_ties load (eligible r)).

Lemma least_loaded_spec load r : pool_ok r -> (forall mux, load mux <= MaxUint64) -> ties load r <> [] /\ NoDup (ties load r) /\
  forall route, route ∈ ties load r -> route ∈ eligible r /\ Forall (fun other => weight load route <= weight load other) (eligible r).
Proof.
  intros Hp Hl. destruct (eligible_spec r Hp) as (H1 & _ & _ & _ & H5). pose proof (least_ties_spec load (eligible r) Hl) as H. unfold ties.
  destruct (least_ties load (eligible r)) as [minimum l]. destruct H as (-> & Hmin & _ & Hne). cbn. split; [by apply Hne|]. split; [by apply NoDup_filter|].
  intros route [<- Hin]%list_elem_of_filter. done.
Qed.

Lemma select_step load r : pool_ok r -> (forall mux, load mux <= MaxUint64) -> exists route,
  ties load r !! Z.to_nat (r_tieCursor r mod len (ties load r)) = Some route /\
  selectLeastLoaded load r = Some (Ok route, with_pool r (r_active r) (r_routes r) (r_nextRouteID r) (u64 (r_tieCursor r + 1))).
Proof.
  intros Hp Hl. destruct (least_loaded_spec load r Hp Hl) as (Hne & _). destruct (eligible_spec r Hp) as (He & _).
  destruct (lookup_lt_is_Some_2 (ties load r) (Z.to_nat (r_tieCursor r mod len (ties load r)))) as [route Hr].
  { destruct (ties load r) as [|x l]; [done|]. pose proof (len_nonneg l). assert (0 < len (x :: l)) by (rewrite len_cons; lia).
    pose proof (Z.mod_pos_bound (r_tieCursor r) (len (x :: l)) ltac:(done)). unfold len in *. lia. }
  exists route. split; [done|]. unfold selectLeastLoaded. destruct (eligible r) as [|x l] eqn:E; [done|].
  unfold ties in Hr. rewrite E in Hr. by rewrite Hr.
Qed.

(** [n] selections in a row, nothing else happening. *)
Fixpoint select_times (n : nat) (load : nat -> Z) (r : SessionRouter) : option (list sessionRoute) :=
  match n with
  | O => Some []
  | S n => '(selected, r) ← selectLeastLoaded load r;
           match selected with Ok route => rest ← select_times n load r; Some (route :: rest) | Err _ => None end
  end.

Lemma select_times_spec load n r : pool_ok r -> (forall mux, load mux <= MaxUint64) -> 0 <= r_tieCursor r -> r_tieCursor r + Z.of_nat n < 2 ^ 64 ->
  exists l, select_times n load r = Some l /\ length l = n /\
    forall i, (i < n)%nat -> l !! i = ties load r !! Z.to_nat ((r_tieCursor r + Z.of_nat i) mod len (ties load r)).
Proof.
  revert r. induction n as [|n IH]; intros r Hp Hl H0 Hn; [exists []; split; [done|]; split; [done|]; intros; lia|].
  destruct (select_step load r Hp Hl) as (route & Hr & Hs). cbn [select_times]. rewrite Hs. cbn [option_bind mbind].
  set (r' := with_pool r _ _ _ _). assert (Hp' : pool_ok r') by (destruct Hp; by constructor).
  assert (Hc : r_tieCursor r' = r_tieCursor r + 1) by (cbn; apply u64_small; unfold is_u64; lia).
  destruct (IH r' Hp' Hl ltac:(lia) ltac:(lia)) as (l & El & Hlen & Hi). rewrite El. cbn. exists (route :: l). split; [done|]. split; [cbn; lia|].
  intros [|i] Hlt; [by rewrite Z.add_0_r, Hr|]. cbn. rewrite Hi, Hc by lia. change (ties load r') with (ties load r). do 2 f_equal. f_equal. lia.
Qed.

(** A new flow goes to a route of the pool that is not on standby as long as
    there is one, and no other such route has fewer streams; the remainder never
    divides by zero; and equally loaded routes share the flows: as many selections
    as there are of them pick each exactly once. *)
Theorem flows_balanced load r : pool_ok r -> (forall mux, load mux <= MaxUint64) ->
  0 <= r_tieCursor r -> r_tieCursor r + len (ties load r) < 2 ^ 64 ->
  (exists route r', selectLeastLoaded load r = Some (Ok route, r') /\ pool_ok r' /\ route ∈ r_routes r /\
    (sr_standby route = true -> Forall (fun other => sr_standby other = true) (r_routes r)) /\
    Forall (fun other => sr_standby other = sr_standby route -> weight load route <= weight load other) (r_routes r)) /\
  exists l, select_times (length (ties load r)) load r = Some l /\ l ≡ₚ ties load r.
Proof.
  intros Hp Hl H0 Hn. split.
  - destruct (select_step load r Hp Hl) as (route & Hr & Hs). eexists route, _. split; [exact Hs|]. split; [destruct Hp; by constructor|].
    apply list_elem_of_lookup_2 in Hr. destruct (least_loaded_spec load r Hp Hl) as (_ & _ & Ht). destruct (Ht _ Hr) as [Hin Hmin].
    destruct (eligible_spec r Hp) as (_ & H2 & H3 & H4 & _). split; [by apply H2|]. split; [by apply H3|].
    apply Forall_forall. intros other Ho Hst. rewrite Forall_forall in Hmin. by apply Hmin, (H4 route).
  - destruct (select_times_spec load (length (ties load r)) r Hp Hl H0 Hn) as (l & El & Hlen & Hi). exists l. split; [done|].
    assert (E : l = rotate (Z.to_nat (r_tieCursor r)) (ties load r)).
    { apply list_eq_same_length with (length (ties load r)); [by rewrite length_rotate|done|]. intros i x y Hlt Hx Hy.
      rewrite Hi in Hx by lia. rewrite lookup_rotate_r in Hy by lia. unfold rotate_nat_add in Hy. rewrite Z2Nat.id in Hy by lia. unfold len in Hx. congruence. }
    rewrite E. unfold rotate. rewrite Permutation_app_comm. by rewrite take_drop.
Qed.

(** ** Every sequence of calls *)

Inductive router_op :=
| OpSwitch (mux : option nat) (maxUDPPayload : Z) (datagrams : option nat)
| OpAdd (standby : bool) (mux : option nat) (maxUDPPayload : Z) (datagrams : option nat)
| OpRemove (i : Z)
| OpPromote (i : Z)
| OpSetStandby (i : Z) (standby : bool)
| OpSelect (load : nat -> Z).

Definition run_router (Enabled : nat -> bool) (r : SessionRouter) (o : router_op) : SessionRouter :=
  match o with
  | OpSwitch mux m d => snd (Switch Enabled mux m d r)
  | OpAdd standby mux m d => snd ((if standby then AddStandby else Add) Enabled mux m d r)
  | OpRemove i => snd (Remove i r)
  | OpPromote i => snd (Promote i r)
  | OpSetStandby i standby => snd (SetStandby i standby r)
  | OpSelect load => match selectLeastLoaded load r with Some (_, r) => r | None => r end
  end.

Lemma make_open Enabled mux m d route : makeSessionRoute Enabled mux m d = Ok route -> is_open route = true.
Proof. unfold makeSessionRoute. destruct (invalid_route _ _) eqn:E; [done|]. intros H. apply Ok_inj in H as <-. by apply valid_open in E. Qed.

Lemma run_router_ok Enabled r o : pool_ok r -> r_nextRouteID r < 2 ^ 64 - 1 ->
  pool_ok (run_router Enabled r o) /\ r_nextRouteID (run_router Enabled r o) <= r_nextRouteID r + 1.
Proof.
  intros Hp Hn. pose proof (po_next r Hp). destruct o as [mux m d|standby mux m d|i|i|i standby|load]; cbn [run_router].
  - unfold Switch. destruct (makeSessionRoute _ _ _ _) as [route|e] eqn:E; [|split; [done|cbn; lia]]. unfold switchRoute.
    destruct (invalid_route _ _); [split; [done|cbn; lia]|]. cbn [snd]. split; [|cbn; lia]. apply single_ok; [by apply make_open in E|done].
  - unfold Add, AddStandby, addStandbyRoute. destruct standby, (makeSessionRoute _ _ _ _) as [route|e]; try exact (addRoute_ok Enabled _ r Hp Hn); (split; [done|cbn; lia]).
  - split; [by apply Remove_ok|]. unfold Remove. destruct (i =? 0); [cbn; lia|]. destruct (route_index _ _) as [[? ?]|]; cbn; lia.
  - unfold Promote. destruct (i =? 0); [split; [done|cbn; lia]|]. destruct (route_index _ _) as [[index route]|] eqn:E; [|split; [done|cbn; lia]].
    apply route_index_spec in E as [Hi [_ Ho]%andb_prop]. cbn [snd]. split; [|cbn; lia]. apply (replace_ok _ _ route); auto.
  - unfold SetStandby. destruct (i =? 0); [split; [done|cbn; lia]|]. destruct (route_index _ _) as [[index route]|] eqn:E; [|split; [done|cbn; lia]].
    apply route_index_spec in E as [Hi [<-%Z.eqb_eq Ho]%andb_prop]. cbn [snd]. split; [|cbn; lia]. apply (replace_ok _ _ route); auto.
  - unfold selectLeastLoaded. destruct (eligible r); [split; [done|cbn; lia]|]. destruct (_ !! _); [|split; [done|lia]]. split; [destruct Hp; by constructor|cbn; lia].
Qed.

(** Whatever routes are switched to, added, removed, promoted or put on
    standby, the pool holds one to three open routes with distinct identifiers,
    and the active route, the one of UDP, is a member of it as it stands there. *)
Theorem router_pool Enabled mux maxUDPPayload datagrams r0 ops : NewSessionRouter Enabled mux maxUDPPayload datagrams = Ok r0 -> len ops < 2 ^ 64 - 4 ->
  pool_ok (foldl (run_router Enabled) r0 ops).
Proof.
  unfold NewSessionRouter. destruct (makeSessionRoute _ _ _ _) as [route|e] eqn:E; [|done]. intros H Hlen. apply Ok_inj in H as <-.
  set (r0 := mkRouter _ _ _ _ _ _ _ _ _ _ _). assert (Hp : pool_ok r0).
  { destruct (single_ok r0 (with_id route 1) 0) as [H1 H2 H3 H4 H5]; [by apply make_open in E|done|]. by constructor. }
  assert (Hn : r_nextRouteID r0 + len ops < 2 ^ 64 - 1) by (cbn; lia). clear Hlen E. clearbody r0. revert r0 Hp Hn.
  induction ops as [|o ops IH]; intros r0 Hp Hn; [done|]. rewrite len_cons in Hn. pose proof (len_nonneg ops). cbn [foldl].
  destruct (run_router_ok Enabled r0 o Hp ltac:(lia)) as [Hp' Hn']. apply IH; [done|lia].
Qed.

(** ** What the owner of the pool sees

    The identifiers with their sessions, and which one is active. *)

Definition pairs (r : SessionRouter) : list (Z * option nat) := map (fun route => (sr_id route, sr_open route)) (r_routes r).
Definition active_id (r : SessionRouter) : Z := sr_id (r_active r).

Lemma pairs_ids r : map fst (pairs r) = map sr_id (r_routes r).
Proof. unfold pairs. rewrite map_map. done. Qed.

Lemma pairs_elem r p : p ∈ pairs r <-> exists route, route ∈ r_routes r /\ p = (sr_id route, sr_open route).
Proof. unfold pairs. rewrite list_elem_of_fmap. split; intros (x & H1 & H2); by exists x. Qed.

Lemma make_fields Enabled mux m d route : makeSessionRoute Enabled mux m d = Ok route -> sr_open route = mux.
Proof. unfold makeSessionRoute. destruct (invalid_route _ _); [done|]. intros H. by apply Ok_inj in H as <-. Qed.

Lemma Switch_seen Enabled mux m d r : pool_ok r -> match Switch Enabled mux m d r with
  | (Err _, r') => r' = r
  | (Ok _, r') => pool_ok r' /\ pairs r' = [(1, mux)] /\ active_id r' = 1 /\ r_nextRouteID r' = 2 end.
Proof.
  intros Hp. unfold Switch. destruct (makeSessionRoute _ _ _ _) as [route|] eqn:E; [|done]. unfold switchRoute. destruct (invalid_route Enabled route) eqn:Ev; [done|].
  split_and!; [apply single_ok; [by apply make_open in E|done]|by rewrite <- (make_fields _ _ _ _ _ E)|done|done].
Qed.

Lemma addRoute_seen Enabled route r : pool_ok r -> r_nextRouteID r < 2 ^ 64 - 1 -> match addRoute Enabled route r with
  | (Err _, r') => r' = r
  | (Ok id, r') => id = r_nextRouteID r /\ pool_ok r' /\ pairs r' = pairs r ++ [(id, sr_open route)] /\ active_id r' = active_id r /\ r_nextRouteID r' = r_nextRouteID r + 1 end.
Proof.
  intros Hp Hn. pose proof (po_next r Hp). destruct (addRoute_ok Enabled route r Hp Hn) as [Hok _]. revert Hok. unfold addRoute. destruct (invalid_route Enabled route); [done|].
  destruct (r_routes r) as [|x routes] eqn:Er; [pose proof (po_size r Hp) as Hs; rewrite Er in Hs; rewrite len_nil in Hs; lia|].
  rewrite bool_decide_false by done. cbn [andb]. rewrite Er. destruct (3 <=? _); [done|]. rewrite (proj2 (Z.ltb_ge _ _)) by lia. cbn [snd]. intros Hok.
  split_and!; [done|exact Hok|unfold pairs; cbn [r_routes with_pool]; by rewrite map_app, Er|done|]. cbn [r_nextRouteID with_pool]. apply u64_small. unfold is_u64. lia.
Qed.

Lemma Add_seen (standby : bool) Enabled mux m d r : pool_ok r -> r_nextRouteID r < 2 ^ 64 - 1 -> match (if standby then AddStandby else Add) Enabled mux m d r with
  | (Err _, r') => r' = r
  | (Ok id, r') => id = r_nextRouteID r /\ pool_ok r' /\ pairs r' = pairs r ++ [(id, mux)] /\ active_id r' = active_id r /\ r_nextRouteID r' = r_nextRouteID r + 1 end.
Proof.
  intros Hp Hn. destruct standby; [unfold AddStandby|unfold Add]; (destruct (makeSessionRoute _ _ _ _) as [route|] eqn:E; [|done]); rewrite <- (make_fields _ _ _ _ _ E);
    [apply (addRoute_seen Enabled (with_standby route true))|apply (addRoute_seen Enabled route)]; done.
Qed.

Lemma Remove_seen i r : pool_ok r -> pool_ok (snd (Remove i r)) /\ active_id (snd (Remove i r)) = active_id r /\ r_nextRouteID (snd (Remove i r)) = r_nextRouteID r /\
  forall p, p ∈ pairs (snd (Remove i r)) <-> p ∈ pairs r /\ (p.1 <> i \/ p.1 = active_id r).
Proof.
  intros Hp. split; [by apply Remove_ok|]. unfold Remove, active_id. destruct (Z.eqb_spec i 0) as [->|Hi].
  { split_and!; try done. intros p. split; [|tauto]. intros H. split; [done|]. left. apply pairs_elem in H as (x & Hx & ->). cbn. pose proof (proj1 (Forall_forall _ _) (po_range r Hp) x Hx) as [? _]. lia. }
  destruct (route_index _ _) as [[index route]|] eqn:E; cbn [snd r_active r_nextRouteID with_pool]; split_and!; try done; intros p.
  - apply route_index_spec in E as [Hr [Hid%Z.eqb_eq Hne%negb_true_iff%Z.eqb_neq]%andb_prop]. rewrite !pairs_elem. cbn [r_routes with_pool]. split.
    + intros (x & Hx & ->). assert (Hin : x ∈ r_routes r) by (eapply sublist_subseteq; [apply sublist_delete|exact Hx]). split; [by exists x|]. left. cbn. intros Ex.
      apply list_elem_of_lookup in Hx as [j Hj]. destruct (decide (j < index)%nat) as [Hl|Hl].
      * rewrite list_lookup_delete_lt in Hj by done. assert (x = route) as -> by (apply (same_id r); [done|done|by eapply list_elem_of_lookup_2|congruence]).
        pose proof (NoDup_lookup _ j index (sr_id route) (po_ids r Hp)) as Hd. rewrite !list_lookup_fmap, Hj, Hr in Hd. specialize (Hd eq_refl eq_refl). lia.
      * rewrite list_lookup_delete_ge in Hj by lia. assert (x = route) as -> by (apply (same_id r); [done|done|by eapply list_elem_of_lookup_2|congruence]).
        pose proof (NoDup_lookup _ (S j) index (sr_id route) (po_ids r Hp)) as Hd. rewrite !list_lookup_fmap, Hj, Hr in Hd. specialize (Hd eq_refl eq_refl). lia.
    + intros [(x & Hx & ->) H]. exists x. split; [|done]. cbn in H. assert (x <> route) by (intros ->; destruct H; congruence).
      apply list_elem_of_lookup in Hx as [j Hj]. assert (j <> index) by congruence. apply list_elem_of_lookup.
      destruct (decide (j < index)%nat); [exists j; by rewrite list_lookup_delete_lt by done|]. exists (pred j). rewrite list_lookup_delete_ge by lia. by replace (S (pred j)) with j by lia.
  - split; [|tauto]. intros H. split; [done|]. apply pairs_elem in H as (x & Hx & ->). cbn. destruct (decide (sr_id x = i)) as [Ei|]; [|by left]. right.
    destruct (decide (sr_id x = sr_id (r_active r))) as [|Hne]; [done|]. apply list_elem_of_lookup in Hx as [j Hj].
    assert (Hnone : forall l k, l !! k = Some x -> route_index (fun route => (sr_id route =? i) && negb (sr_id route =? sr_id (r_active r))) l = None -> False).
    { clear -Ei Hne. induction l as [|z l IH]; intros k Hk; [done|]. cbn [route_index]. destruct k as [|k]; cbn in Hk.
      - injection Hk as ->. rewrite (proj2 (Z.eqb_eq _ _) Ei), (proj2 (Z.eqb_neq _ _) Hne). done.
      - case_match; [done|]. destruct (route_index _ l) as [[? ?]|] eqn:E; [done|]. intros _. by eapply IH. }
    by destruct (Hnone _ _ Hj E).
Qed.

Lemma insert_pairs l i old new : l !! i = Some old -> sr_id new = sr_id old -> sr_open new = sr_open old -> map (fun route => (sr_id route, sr_open route)) (<[i := new]> l) = map (fun route => (sr_id route, sr_open route)) l.
Proof. intros H E1 E2. change (map ?f ?l) with (f <$> l). rewrite list_fmap_insert. apply list_insert_id. by rewrite list_lookup_fmap, H, E1, E2. Qed.

Lemma Promote_seen i r : pool_ok r -> match Promote i r with
  | (Err _, r') => r' = r
  | (Ok _, r') => pool_ok r' /\ pairs r' = pairs r /\ active_id r' = i /\ i ∈ map sr_id (r_routes r) /\ r_nextRouteID r' = r_nextRouteID r end.
Proof.
  intros Hp. unfold Promote. destruct (i =? 0); [done|]. destruct (route_index _ _) as [[index route]|] eqn:E; [|done]. apply route_index_spec in E as [Hr [Hid%Z.eqb_eq Ho]%andb_prop].
  split_and!; [apply (replace_ok r index route); [done|done|done|exact Ho|by right]|by apply (insert_pairs _ _ route)|done| |done]. rewrite <- Hid. apply list_elem_of_fmap. exists route. split; [done|by eapply list_elem_of_lookup_2].
Qed.

Lemma SetStandby_seen i b r : pool_ok r -> match SetStandby i b r with
  | (false, r') => r' = r
  | (true, r') => pool_ok r' /\ pairs r' = pairs r /\ active_id r' = active_id r /\ r_nextRouteID r' = r_nextRouteID r end.
Proof.
  intros Hp. unfold SetStandby. destruct (i =? 0); [done|]. destruct (route_index _ _) as [[index route]|] eqn:E; [|done]. apply route_index_spec in E as [Hr [Hid%Z.eqb_eq Ho]%andb_prop].
  split_and!; [|by apply (insert_pairs _ _ route)| |done].
  - apply (replace_ok r index route); [done|done|done|exact Ho|left]. by rewrite Hid.
  - unfold active_id. cbn [r_active with_pool]. destruct (Z.eqb_spec (sr_id (r_active r)) i); [cbn; congruence|done].
Qed.

Lemma new_seen Enabled mux m d r : NewSessionRouter Enabled mux m d = Ok r -> pool_ok r /\ pairs r = [(1, mux)] /\ active_id r = 1 /\ r_nextRouteID r = 2.
Proof.
  unfold NewSessionRouter. destruct (makeSessionRoute _ _ _ _) as [route|e] eqn:E; [|done]. intros H. apply Ok_inj in H as <-.
  destruct (single_ok (mkRouter (with_id route 1) [with_id route 1] 2 0 0 0 0 0 0 None None) (with_id route 1) 0) as [H1 H2 H3 H4 H5]; [by apply make_open in E|done|].
  split_and!; [by constructor|by rewrite <- (make_fields _ _ _ _ _ E)|done|done].
Qed.

Module RouterExample.
Definition enabled (d : nat) : bool := true.
Definition r0 : SessionRouter := mkRouter (mkSR 1 (Some 7%nat) (Some 3%nat) 1400 false) [mkSR 1 (Some 7%nat) (Some 3%nat) 1400 false] 2 0 0 0 0 0 0 None None.
Definition ops : list router_op :=
  [OpAdd false (Some 8%nat) 0 None; OpAdd true (Some 9%nat) 1200 None; OpAdd false (Some 10%nat) 0 None; OpPromote 2; OpRemove 2; OpRemove 1; OpSetStandby 2 true].
Definition load (mux : nat) : Z := if (mux =? 8)%nat then 4 else 2.

(** The fourth session is refused, the active one is not removed; with every
    route on standby the least loaded of all is chosen. *)
Lemma router_pool_witness :
  map sr_id (r_routes (foldl (run_router enabled) r0 ops)) = [2; 3] /\ sr_id (r_active (foldl (run_router enabled) r0 ops)) = 2 /\
  pool_ok (foldl (run_router enabled) r0 ops).
Proof.
  split; [vm_compute; reflexivity|]. split; [vm_compute; reflexivity|].
  apply (router_pool enabled (Some 7%nat) 1400 (Some 3%nat) r0 ops); vm_compute; reflexivity.
Defined.

Definition r3 : SessionRouter := foldl (run_router enabled) r0 [OpAdd false (Some 8%nat) 0 None; OpAdd false (Some 9%nat) 0 None].
Lemma r3_ok : pool_ok r3.
Proof. constructor; vm_compute; [split; discriminate|repeat constructor; set_solver|left|repeat constructor; discriminate|discriminate]. Qed.

Lemma load_small mux : load mux <= MaxUint64.
Proof. unfold load. destruct (mux =? 8)%nat; vm_compute; discriminate. Qed.

Lemma flows_balanced_witness :
  map sr_id (ties load r3) = [1; 3] /\
  exists l, select_times 2 load r3 = Some l /\ l ≡ₚ ties load r3.
Proof.
  split; [vm_compute; reflexivity|].
  apply (flows_balanced load r3 r3_ok load_small); [vm_compute; discriminate|vm_compute; reflexivity].
Defined.
End RouterExample.
