(* ===== verification/ResourceLimits.v ===== *)
(** * Resource limits (internal/proxy/resource_limits.go)

    The process-wide and per-user ceilings on sessions, TCP connections, UDP
    associations and the token buckets on packets, bytes, DNS queries and new
    targets.  A method under the mutex is one step at a clock reading; float64
    is the standard library's executable binary64 arithmetic. *)
From Stdlib Require Import Floats.SpecFloat.
From stdpp Require Import prelude list gmap.
From S2P Require Import Prelude Maps.

(** ** Floating point *)

Abbreviation float := spec_float.
Definition of_int (z : Z) : float := binary_normalize 53 1024 z 0 false.
Definition fadd : float -> float -> float := SFadd 53 1024.
Definition fsub : float -> float -> float := SFsub 53 1024.
Definition fmul : float -> float -> float := SFmul 53 1024.
Definition fdiv : float -> float -> float := SFdiv 53 1024.
Definition flt : float -> float -> bool := SFltb.
Definition fle : float -> float -> bool := SFleb.

(** [Duration.Seconds] of a duration that is not negative. *)
Definition Seconds (d : Z) : float := fadd (of_int (d / 1000000000)) (fdiv (of_int (d mod 1000000000)) (of_int 1000000000)).

(** ** Token buckets *)

Record tokenBucket := mkBucket { tb_rate : float; tb_tokens : float; tb_last : Z }.

Definition newTokenBucket (rate now : Z) : tokenBucket := let value := of_int rate in mkBucket value value now.

(** [Sub] saturates at the largest duration. *)
Definition refill (now : Z) (b : tokenBucket) : tokenBucket :=
  if now <? tb_last b then b
  else
    let tokens := fadd (tb_tokens b) (fmul (Seconds (Z.min (now - tb_last b) MaxInt64)) (tb_rate b)) in
    mkBucket (tb_rate b) (if flt (tb_rate b) tokens then tb_rate b else tokens) now.

Definition canTake (now : Z) (amount : float) (b : tokenBucket) : bool * tokenBucket :=
  let b := refill now b in (fle (of_int 0) amount && fle amount (tb_tokens b), b).

Definition take_tokens (amount : float) (b : tokenBucket) : tokenBucket := mkBucket (tb_rate b) (fsub (tb_tokens b) amount) (tb_last b).

(** The second bucket is only refilled when the first has enough. *)
Definition takeBoth (now : Z) (amount : float) (first second : tokenBucket) : bool * tokenBucket * tokenBucket :=
  let '(ok, first) := canTake now amount first in
  if negb ok then (false, first, second)
  else
    let '(ok, second) := canTake now amount second in
    if negb ok then (false, first, second) else (true, take_tokens amount first, take_tokens amount second).

(** ** State *)

Record ResourceLimitConfig := mkLimits {
  MaxSessionsPerUser : Z; MaxTCPConnectionsGlobal : Z; MaxTCPConnectionsPerUser : Z; MaxUDPAssociationsGlobal : Z; MaxUDPAssociationsPerUser : Z;
  UDPPacketsPerSecondGlobal : Z; UDPPacketsPerSecondPerUser : Z; UDPBytesPerSecondGlobal : Z; UDPBytesPerSecondPerUser : Z;
  DNSQueriesPerSecondGlobal : Z; DNSQueriesPerSecondPerUser : Z; TargetCreatesPerSecondGlobal : Z; TargetCreatesPerSecondPerUser : Z
}.

Definition validRatePair (global perUser : Z) : bool := (0 <? global) && (0 <? perUser) && (perUser <=? global).

Definition validResourceLimitConfig (c : ResourceLimitConfig) : bool :=
  (0 <? MaxSessionsPerUser c) && (0 <? MaxTCPConnectionsGlobal c) && (0 <? MaxTCPConnectionsPerUser c)
  && (MaxTCPConnectionsPerUser c <=? MaxTCPConnectionsGlobal c) && (0 <? MaxUDPAssociationsGlobal c) && (0 <? MaxUDPAssociationsPerUser c)
  && (MaxUDPAssociationsPerUser c <=? MaxUDPAssociationsGlobal c)
  && validRatePair (UDPPacketsPerSecondGlobal c) (UDPPacketsPerSecondPerUser c) && validRatePair (UDPBytesPerSecondGlobal c) (UDPBytesPerSecondPerUser c)
  && validRatePair (DNSQueriesPerSecondGlobal c) (DNSQueriesPerSecondPerUser c)
  && validRatePair (TargetCreatesPerSecondGlobal c) (TargetCreatesPerSecondPerUser c).

Inductive kind := Packets | Bytes | Dns | Targets.
#[global] Instance kind_eq_dec : EqDecision kind.
Proof. solve_decision. Defined.

(** [resourceUserState] and [resourceTotals] have the same fields. *)
Record resources := mkResources { sessions : Z; tcp : Z; udp : Z; buckets : kind -> tokenBucket }.

Record resourceRejects := mkRejects { rj_sessions : Z; rj_tcp : Z; rj_udp : Z; rj_rate : Z; rj_dns : Z; rj_targets : Z }.

Record ResourceLimiter := mkLimiter { rl_config : ResourceLimitConfig; rl_global : resources; rl_users : gmap (list byte) resources; rl_rejects : resourceRejects }.

Definition new_buckets (packets bytes dns targets now : Z) (k : kind) : tokenBucket :=
  newTokenBucket (match k with Packets => packets | Bytes => bytes | Dns => dns | Targets => targets end) now.

Definition NewResourceLimiter (c : ResourceLimitConfig) (started : Z) : res ResourceLimiter :=
  if negb (validResourceLimitConfig c) then Err ErrInvalidResourceLimits
  else Ok (mkLimiter c
         (mkResources 0 0 0 (new_buckets (UDPPacketsPerSecondGlobal c) (UDPBytesPerSecondGlobal c) (DNSQueriesPerSecondGlobal c) (TargetCreatesPerSecondGlobal c) started))
         ∅ (mkRejects 0 0 0 0 0 0)).

Definition new_user (c : ResourceLimitConfig) (now : Z) : resources :=
  mkResources 0 0 0 (new_buckets (UDPPacketsPerSecondPerUser c) (UDPBytesPerSecondPerUser c) (DNSQueriesPerSecondPerUser c) (TargetCreatesPerSecondPerUser c) now).

(** The user of [userLocked]; storing it is part of every update below. *)
Definition user_of (l : ResourceLimiter) (id : list byte) (now : Z) : resources := default (new_user (rl_config l) now) (rl_users l !! id).

Definition with_sessions (r : resources) (n : Z) : resources := mkResources n (tcp r) (udp r) (buckets r).
Definition with_tcp (r : resources) (n : Z) : resources := mkResources (sessions r) n (udp r) (buckets r).
Definition with_udp (r : resources) (n : Z) : resources := mkResources (sessions r) (tcp r) n (buckets r).
Definition with_bucket (r : resources) (k : kind) (b : tokenBucket) : resources :=
  mkResources (sessions r) (tcp r) (udp r) (fun k' => if bool_decide (k' = k) then b else buckets r k').

Definition store (l : ResourceLimiter) (id : list byte) (global user : resources) (rejects : resourceRejects) : ResourceLimiter :=
  mkLimiter (rl_config l) global (<[id := user]> (rl_users l)) rejects.

Definition inc (n : Z) : Z := u64 (n + 1).
Definition reject_sessions (r : resourceRejects) := mkRejects (inc (rj_sessions r)) (rj_tcp r) (rj_udp r) (rj_rate r) (rj_dns r) (rj_targets r).
Definition reject_tcp (r : resourceRejects) := mkRejects (rj_sessions r) (inc (rj_tcp r)) (rj_udp r) (rj_rate r) (rj_dns r) (rj_targets r).
Definition reject_udp (r : resourceRejects) := mkRejects (rj_sessions r) (rj_tcp r) (inc (rj_udp r)) (rj_rate r) (rj_dns r) (rj_targets r).
Definition reject_rate (r : resourceRejects) := mkRejects (rj_sessions r) (rj_tcp r) (rj_udp r) (inc (rj_rate r)) (rj_dns r) (rj_targets r).
Definition reject_dns (r : resourceRejects) := mkRejects (rj_sessions r) (rj_tcp r) (rj_udp r) (rj_rate r) (inc (rj_dns r)) (rj_targets r).
Definition reject_targets (r : resourceRejects) := mkRejects (rj_sessions r) (rj_tcp r) (rj_udp r) (rj_rate r) (rj_dns r) (inc (rj_targets r)).

(** ** Operations *)

Definition AcquireSession (l : ResourceLimiter) (id : list byte) (now : Z) : bool * ResourceLimiter :=
  if bool_decide (id = []) then (false, l)
  else
    let user := user_of l id now in
    if MaxSessionsPerUser (rl_config l) <=? sessions user then (false, store l id (rl_global l) user (reject_sessions (rl_rejects l)))
    else (true, store l id (with_sessions (rl_global l) (sessions (rl_global l) + 1)) (with_sessions user (sessions user + 1)) (rl_rejects l)).

Definition ReleaseSession (l : ResourceLimiter) (id : list byte) : ResourceLimiter :=
  if bool_decide (id = []) then l
  else match rl_users l !! id with
       | Some user => if 0 <? sessions user
                      then store l id (with_sessions (rl_global l) (sessions (rl_global l) - 1)) (with_sessions user (sessions user - 1)) (rl_rejects l)
                      else l
       | None => l
       end.

Definition AcquireTCP (l : ResourceLimiter) (id : list byte) (now : Z) : bool * ResourceLimiter :=
  if bool_decide (id = []) then (false, l)
  else
    let user := user_of l id now in
    let global := rl_global l in
    if (MaxTCPConnectionsGlobal (rl_config l) <=? tcp global) || (MaxTCPConnectionsPerUser (rl_config l) <=? tcp user)
    then (false, store l id global user (reject_tcp (rl_rejects l)))
    else
      let '(ok, g, u) := takeBoth now (of_int 1) (buckets global Targets) (buckets user Targets) in
      let global := with_bucket global Targets g in
      let user := with_bucket user Targets u in
      if negb ok then (false, store l id global user (reject_targets (reject_tcp (rl_rejects l))))
      else (true, store l id (with_tcp global (tcp global + 1)) (with_tcp user (tcp user + 1)) (rl_rejects l)).

Definition ReleaseTCP (l : ResourceLimiter) (id : list byte) : ResourceLimiter :=
  if bool_decide (id = []) then l
  else match rl_users l !! id with
       | Some user => if 0 <? tcp user
                      then store l id (with_tcp (rl_global l) (tcp (rl_global l) - 1)) (with_tcp user (tcp user - 1)) (rl_rejects l)
                      else l
       | None => l
       end.

Definition AcquireUDP (l : ResourceLimiter) (id : list byte) (now : Z) : bool * ResourceLimiter :=
  if bool_decide (id = []) then (false, l)
  else
    let user := user_of l id now in
    if (MaxUDPAssociationsGlobal (rl_config l) <=? udp (rl_global l)) || (MaxUDPAssociationsPerUser (rl_config l) <=? udp user)
    then (false, store l id (rl_global l) user (reject_udp (rl_rejects l)))
    else (true, store l id (with_udp (rl_global l) (udp (rl_global l) + 1)) (with_udp user (udp user + 1)) (rl_rejects l)).

Definition ReleaseUDP (l : ResourceLimiter) (id : list byte) : ResourceLimiter :=
  if bool_decide (id = []) then l
  else match rl_users l !! id with
       | Some user => if 0 <? udp user
                      then store l id (with_udp (rl_global l) (udp (rl_global l) - 1)) (with_udp user (udp user - 1)) (rl_rejects l)
                      else l
       | None => l
       end.

Definition debits (byteCount : Z) (dns newTarget : bool) : list (kind * float) :=
  [(Packets, of_int 1); (Bytes, of_int byteCount)] ++ (if dns then [(Dns, of_int 1)] else []) ++ (if newTarget then [(Targets, of_int 1)] else []).

(** The first loop: refills until a bucket has too little, and names it. *)
Fixpoint check_debits (now : Z) (ds : list (kind * float)) (global user : resources) : option kind * resources * resources :=
  match ds with
  | [] => (None, global, user)
  | (k, amount) :: ds =>
      let '(ok, g) := canTake now amount (buckets global k) in
      let global := with_bucket global k g in
      if negb ok then (Some k, global, user)
      else
        let '(ok, u) := canTake now amount (buckets user k) in
        let user := with_bucket user k u in
        if negb ok then (Some k, global, user) else check_debits now ds global user
  end.

Definition take_debits (ds : list (kind * float)) (r : resources) : resources :=
  foldl (fun r '(k, amount) => with_bucket r k (take_tokens amount (buckets r k))) r ds.

Definition AllowUDPPacket (l : ResourceLimiter) (id : list byte) (byteCount : Z) (dns newTarget : bool) (now : Z) : bool * ResourceLimiter :=
  if bool_decide (id = []) || (byteCount <? 0) then (false, l)
  else
    let ds := debits byteCount dns newTarget in
    match check_debits now ds (rl_global l) (user_of l id now) with
    | (Some k, global, user) =>
        let r := reject_rate (rl_rejects l) in
        let r := if dns && bool_decide (k = Dns) then reject_dns r else r in
        let r := if newTarget && bool_decide (k = Targets) then reject_targets r else r in
        (false, store l id global user r)
    | (None, global, user) => (true, store l id (take_debits ds global) (take_debits ds user) (rl_rejects l))
    end.

Record ResourceLimitSnapshot := mkSnapshot {
  ActiveSessions : Z; ActiveTCPConnections : Z; ActiveUDPAssociations : Z; SessionLimitRejects : Z; TCPLimitRejects : Z; UDPAssociationLimitRejects : Z;
  UDPRateLimitDrops : Z; DNSRateLimitDrops : Z; TargetRateLimitDrops : Z
}.
Definition Snapshot (l : ResourceLimiter) : ResourceLimitSnapshot :=
  mkSnapshot (sessions (rl_global l)) (tcp (rl_global l)) (udp (rl_global l)) (rj_sessions (rl_rejects l)) (rj_tcp (rl_rejects l)) (rj_udp (rl_rejects l))
    (rj_rate (rl_rejects l)) (rj_dns (rl_rejects l)) (rj_targets (rl_rejects l)).

(** ** Accounting *)

(** Storing a user whose count was [n] before, or who is new. *)
Lemma total_store (f : resources -> Z) (l : ResourceLimiter) id now u : f (new_user (rl_config l) now) = 0 ->
  total f (<[id := u]> (rl_users l)) = total f (rl_users l) - f (user_of l id now) + f u.
Proof.
  intros Hz. unfold user_of. destruct (rl_users l !! id) as [old|] eqn:E; cbn.
  - by apply total_update.
  - rewrite total_insert by done. rewrite Hz. lia.
Qed.

Record counted (l : ResourceLimiter) : Prop := {
  ct_sessions : sessions (rl_global l) = total sessions (rl_users l);
  ct_tcp : tcp (rl_global l) = total tcp (rl_users l) /\ tcp (rl_global l) <= MaxTCPConnectionsGlobal (rl_config l);
  ct_udp : udp (rl_global l) = total udp (rl_users l) /\ udp (rl_global l) <= MaxUDPAssociationsGlobal (rl_config l);
  ct_users : forall (id : list byte) u, rl_users l !! id = Some u ->
    0 <= sessions u <= MaxSessionsPerUser (rl_config l) /\ 0 <= tcp u <= MaxTCPConnectionsPerUser (rl_config l) /\ 0 <= udp u <= MaxUDPAssociationsPerUser (rl_config l);
  ct_config : validResourceLimitConfig (rl_config l) = true
}.

Definition user_ok (c : ResourceLimitConfig) (u : resources) : Prop :=
  0 <= sessions u <= MaxSessionsPerUser c /\ 0 <= tcp u <= MaxTCPConnectionsPerUser c /\ 0 <= udp u <= MaxUDPAssociationsPerUser c.

Lemma limits_pos c : validResourceLimitConfig c = true -> 0 < MaxSessionsPerUser c /\ 0 < MaxTCPConnectionsGlobal c /\ 0 < MaxTCPConnectionsPerUser c /\
  0 < MaxUDPAssociationsGlobal c /\ 0 < MaxUDPAssociationsPerUser c.
Proof. unfold validResourceLimitConfig. rewrite !andb_true_iff, !Z.ltb_lt. tauto. Qed.

Lemma user_of_ok l id now : counted l -> user_ok (rl_config l) (user_of l id now).
Proof.
  intros H. unfold user_of. destruct (rl_users l !! id) as [u|] eqn:E; [by apply (ct_users l H id)|].
  pose proof (limits_pos _ (ct_config l H)). unfold user_ok. cbn. lia.
Qed.

(** Every update of one user keeps the sums when the global counts move with the
    user's. *)
Lemma store_counted l id now g u r : counted l ->
  user_ok (rl_config l) u ->
  sessions g - sessions (rl_global l) = sessions u - sessions (user_of l id now) ->
  tcp g - tcp (rl_global l) = tcp u - tcp (user_of l id now) -> tcp g <= MaxTCPConnectionsGlobal (rl_config l) ->
  udp g - udp (rl_global l) = udp u - udp (user_of l id now) -> udp g <= MaxUDPAssociationsGlobal (rl_config l) ->
  counted (store l id g u r).
Proof.
  intros H Hu Hs Ht Ht2 Hd Hd2. destruct H as [H1 [H2 _] [H3 _] H4 H5]. unfold store. constructor; cbn [rl_config rl_global rl_users].
  - rewrite (total_store sessions l id now) by done. lia.
  - rewrite (total_store tcp l id now) by done. split; [lia|done].
  - rewrite (total_store udp l id now) by done. split; [lia|done].
  - intros id' u' Hl. apply lookup_insert_Some in Hl as [[_ <-]|[_ Hl]]; [exact Hu|by apply (H4 id')].
  - done.
Qed.

Lemma user_of_lookup l id u now : rl_users l !! id = Some u -> user_of l id now = u.
Proof. intros E. unfold user_of. by rewrite E. Qed.

(** *** Debits only touch buckets *)

Definition same_counts (r r' : resources) : Prop := sessions r = sessions r' /\ tcp r = tcp r' /\ udp r = udp r'.

Lemma check_debits_counts now ds g u o g' u' : check_debits now ds g u = (o, g', u') -> same_counts g g' /\ same_counts u u'.
Proof.
  revert g u. induction ds as [|[k amount] ds IH]; intros g u; cbn [check_debits]; [by intros [= <- <- <-]|].
  destruct (canTake now amount (buckets g k)) as [ok1 b1]. destruct ok1; cbn [negb]; [|by intros [= <- <- <-]].
  destruct (canTake now amount (buckets u k)) as [ok2 b2]. destruct ok2; cbn [negb]; [|by intros [= <- <- <-]]. intros H%IH. exact H.
Qed.

Lemma take_debits_counts ds r : same_counts r (take_debits ds r).
Proof.
  unfold take_debits. revert r. induction ds as [|[k amount] ds IH]; intros r; cbn [foldl]; [done|].
  destruct (IH (with_bucket r k (take_tokens amount (buckets r k)))) as (H1 & H2 & H3). unfold same_counts. by rewrite <- H1, <- H2, <- H3.
Qed.

(** *** Every operation keeps the accounts *)

Inductive op :=
| OpAcquireSession (id : list byte) (now : Z) | OpReleaseSession (id : list byte)
| OpAcquireTCP (id : list byte) (now : Z) | OpReleaseTCP (id : list byte)
| OpAcquireUDP (id : list byte) (now : Z) | OpReleaseUDP (id : list byte)
| OpPacket (id : list byte) (bytes : Z) (dns newTarget : bool) (now : Z).

Definition run_op (l : ResourceLimiter) (o : op) : bool * ResourceLimiter :=
  match o with
  | OpAcquireSession id now => AcquireSession l id now
  | OpReleaseSession id => (true, ReleaseSession l id)
  | OpAcquireTCP id now => AcquireTCP l id now
  | OpReleaseTCP id => (true, ReleaseTCP l id)
  | OpAcquireUDP id now => AcquireUDP l id now
  | OpReleaseUDP id => (true, ReleaseUDP l id)
  | OpPacket id bytes dns newTarget now => AllowUDPPacket l id bytes dns newTarget now
  end.

Ltac keep_counts l id now :=
  let H := fresh in
  match goal with Hc : counted l |- _ => pose proof (user_of_ok l id now Hc) as H; destruct H as (? & ? & ?); pose proof (ct_tcp l Hc); pose proof (ct_udp l Hc) end;
  apply (store_counted l id now); unfold user_ok; cbn [sessions tcp udp with_sessions with_tcp with_udp with_bucket]; try done; try lia.

Lemma op_counted l o : counted l -> counted (run_op l o).2.
Proof.
  intros Hc. destruct o as [id now|id|id now|id|id now|id|id n dns newTarget now]; cbn [run_op snd].
  - unfold AcquireSession. case_bool_decide; [done|]. destruct (Z.leb_spec (MaxSessionsPerUser (rl_config l)) (sessions (user_of l id now))); cbn [snd]; keep_counts l id now.
  - unfold ReleaseSession. case_bool_decide; [done|]. destruct (rl_users l !! id) as [u|] eqn:E; [|done]. destruct (Z.ltb_spec 0 (sessions u)); [|done].
    rewrite <- (user_of_lookup l id u 0 E) in *. keep_counts l id 0.
  - unfold AcquireTCP. case_bool_decide; [done|]. destruct (_ || _) eqn:G; [cbn [snd]; keep_counts l id now|]. rewrite orb_false_iff, !Z.leb_gt in G.
    destruct (takeBoth _ _ _ _) as [[ok g] u]. destruct ok; cbn [negb snd]; keep_counts l id now.
  - unfold ReleaseTCP. case_bool_decide; [done|]. destruct (rl_users l !! id) as [u|] eqn:E; [|done]. destruct (Z.ltb_spec 0 (tcp u)); [|done].
    rewrite <- (user_of_lookup l id u 0 E) in *. keep_counts l id 0.
  - unfold AcquireUDP. case_bool_decide; [done|]. destruct (_ || _) eqn:G; [cbn [snd]; keep_counts l id now|]. rewrite orb_false_iff, !Z.leb_gt in G.
    cbn [snd]. keep_counts l id now.
  - unfold ReleaseUDP. case_bool_decide; [done|]. destruct (rl_users l !! id) as [u|] eqn:E; [|done]. destruct (Z.ltb_spec 0 (udp u)); [|done].
    rewrite <- (user_of_lookup l id u 0 E) in *. keep_counts l id 0.
  - unfold AllowUDPPacket. destruct (_ || _); [done|]. destruct (check_debits _ _ _ _) as [[o g] u] eqn:E. apply check_debits_counts in E as ((G1 & G2 & G3) & (U1 & U2 & U3)).
    destruct o as [k|]; cbn [snd].
    + keep_counts l id now.
    + destruct (take_debits_counts (debits n dns newTarget) g) as (T1 & T2 & T3), (take_debits_counts (debits n dns newTarget) u) as (V1 & V2 & V3). keep_counts l id now.
Qed.

(** C25: whatever sequence of acquisitions, releases and packets is run, the
    global counts are the sums over the users, no user and no global count
    passes its ceiling, and none is negative. *)
Theorem resources_accounted c started l ops : NewResourceLimiter c started = Ok l ->
  counted (foldl (fun l o => (run_op l o).2) l ops).
Proof.
  intros H. assert (H0 : counted l).
  { revert H. unfold NewResourceLimiter. destruct (validResourceLimitConfig c) eqn:E; [cbn [negb]|done]. intros [= <-]. pose proof (limits_pos c E).
    constructor; cbn [rl_config rl_global rl_users sessions tcp udp]; try done; try (split; [done|lia]). }
  clear H. revert l H0. induction ops as [|o ops IH]; intros l H0; [done|]. cbn [foldl]. by apply IH, op_counted.
Qed.

(** ** Debits are all or nothing *)

(** The amount a packet charges to a bucket. *)
Definition charge (ds : list (kind * float)) (k : kind) : option float := snd <$> find (fun d => bool_decide (fst d = k)) ds.

Definition affordable (now : Z) (b : tokenBucket) (amount : float) : bool := fle (of_int 0) amount && fle amount (tb_tokens (refill now b)).

Lemma bucket_same r k b : buckets (with_bucket r k b) k = b.
Proof. cbn. by rewrite bool_decide_eq_true_2. Qed.
Lemma bucket_other r k k' b : k' <> k -> buckets (with_bucket r k b) k' = buckets r k'.
Proof. intros H. cbn. by rewrite bool_decide_eq_false_2. Qed.

Lemma charge_not_in ds k : k ∉ map fst ds -> charge ds k = None.
Proof.
  unfold charge. intros H. destruct (find _ ds) as [d|] eqn:E; [|done]. apply find_some in E as [Hin Hd]. apply bool_decide_eq_true in Hd. destruct H.
  rewrite <- Hd. apply list_elem_of_fmap_2. by apply list_elem_of_In.
Qed.

Lemma charge_cons k0 a ds k : charge ((k0, a) :: ds) k = if bool_decide (k0 = k) then Some a else charge ds k.
Proof. unfold charge. cbn. by destruct (bool_decide (k0 = k)). Qed.

(** A bucket after the check: refilled if it was looked at. *)
Definition looked (now : Z) (b b' : tokenBucket) : Prop := b' = b \/ b' = refill now b.

Lemma check_debits_ok now ds g u g' u' : NoDup (map fst ds) -> check_debits now ds g u = (None, g', u') ->
  forall k, match charge ds k with
            | Some a => affordable now (buckets g k) a = true /\ affordable now (buckets u k) a = true /\
                        buckets g' k = refill now (buckets g k) /\ buckets u' k = refill now (buckets u k)
            | None => buckets g' k = buckets g k /\ buckets u' k = buckets u k
            end.
Proof.
  revert g u. induction ds as [|[k0 a] ds IH]; intros g u Hn; cbn [check_debits map fst].
  - intros [= <- <-] k. done.
  - apply NoDup_cons in Hn as [Hk Hn]. unfold canTake. destruct (fle (of_int 0) a && fle a (tb_tokens (refill now (buckets g k0)))) eqn:E1; cbn [negb]; [|done].
    destruct (fle (of_int 0) a && fle a (tb_tokens (refill now (buckets u k0)))) eqn:E2; cbn [negb]; [|done]. intros Hc k. specialize (IH _ _ Hn Hc k). rewrite charge_cons.
    case_bool_decide as Ek.
    + subst k. cbn [fst] in Hk. rewrite (charge_not_in ds k0 Hk), !bucket_same in IH. destruct IH as [-> ->]. done.
    + rewrite !bucket_other in IH by done. exact IH.
Qed.

Lemma check_debits_other now ds g u o g' u' k : k ∉ map fst ds -> check_debits now ds g u = (o, g', u') ->
  buckets g' k = buckets g k /\ buckets u' k = buckets u k.
Proof.
  revert g u. induction ds as [|[k0 a] ds IH]; intros g u Hk; cbn [check_debits]; [by intros [= <- <- <-]|].
  apply not_elem_of_cons in Hk as [Hk Hd]. cbn [fst] in Hk. destruct (canTake now a (buckets g k0)) as [ok1 b1].
  destruct ok1; cbn [negb]; [|intros [= <- <- <-]; by rewrite bucket_other].
  destruct (canTake now a (buckets u k0)) as [ok2 b2]. destruct ok2; cbn [negb]; [|intros [= <- <- <-]; by rewrite !bucket_other].
  intros Hc. destruct (IH _ _ Hd Hc) as [-> ->]. by rewrite !bucket_other.
Qed.

Lemma looked_put now r k0 k b : b = refill now (buckets r k0) -> looked now (buckets r k) (buckets (with_bucket r k0 b) k).
Proof. intros ->. destruct (decide (k = k0)) as [->|Hne]; [rewrite bucket_same; by right|rewrite bucket_other by done; by left]. Qed.

Lemma check_debits_fail now ds g u kf g' u' : NoDup (map fst ds) -> check_debits now ds g u = (Some kf, g', u') ->
  (exists a, (kf, a) ∈ ds /\ (affordable now (buckets g kf) a = false \/ affordable now (buckets u kf) a = false)) /\
  (forall k, looked now (buckets g k) (buckets g' k) /\ looked now (buckets u k) (buckets u' k)).
Proof.
  revert g u. induction ds as [|[k0 a] ds IH]; intros g u Hn; cbn [check_debits map fst]; [done|].
  apply NoDup_cons in Hn as [Hk Hn]. cbn [fst] in Hk. unfold canTake. destruct (fle (of_int 0) a && fle a (tb_tokens (refill now (buckets g k0)))) eqn:E1; cbn [negb].
  2: { intros [= <- <- <-]. split; [exists a; split; [constructor|by left]|]. intros k. split; [by apply looked_put|by left]. }
  destruct (fle (of_int 0) a && fle a (tb_tokens (refill now (buckets u k0)))) eqn:E2; cbn [negb].
  2: { intros [= <- <- <-]. split; [exists a; split; [constructor|by right]|]. intros k. split; by apply looked_put. }
  intros Hc. destruct (IH _ _ Hn Hc) as [(a' & Hin & Ha') Hl]. assert (Hne : kf <> k0).
  { intros ->. apply Hk. apply list_elem_of_fmap. by exists (k0, a'). }
  rewrite !bucket_other in Ha' by done. split; [exists a'; split; [by constructor|done]|]. intros k. destruct (decide (k = k0)) as [->|Hk0].
  - destruct (check_debits_other _ _ _ _ _ _ _ k0 Hk Hc) as [-> ->]. rewrite !bucket_same. split; by right.
  - destruct (Hl k) as [H1 H2]. by rewrite !bucket_other in H1, H2 by done.
Qed.

Lemma take_debits_bucket ds r k : NoDup (map fst ds) ->
  buckets (take_debits ds r) k = match charge ds k with Some a => take_tokens a (buckets r k) | None => buckets r k end.
Proof.
  unfold take_debits. revert r. induction ds as [|[k0 a] ds IH]; intros r Hn; cbn [foldl map]; [done|]. apply NoDup_cons in Hn as [Hk Hn]. cbn [fst] in Hk.
  rewrite IH, charge_cons by done. case_bool_decide as E; [|by rewrite bucket_other]. subst k. by rewrite (charge_not_in ds k0 Hk), bucket_same.
Qed.

Lemma debits_distinct n dns newTarget : NoDup (map fst (debits n dns newTarget)).
Proof. apply (bool_decide_eq_true_1 _). by destruct dns, newTarget. Qed.

(** a packet is charged to all its buckets or to none: if it is allowed,
    every bucket concerned, global and the user's, could afford its amount after
    refilling and lost exactly that; if it is refused, some bucket could not,
    and no bucket lost a token; other users are untouched either way. *)
Theorem packet_all_or_nothing l id n dns newTarget now ok l' : id <> [] -> 0 <= n ->
  AllowUDPPacket l id n dns newTarget now = (ok, l') ->
  let g := rl_global l in let u := user_of l id now in let ds := debits n dns newTarget in
  exists u', rl_users l' !! id = Some u' /\ same_counts g (rl_global l') /\ same_counts u u' /\
    (forall id', id' <> id -> rl_users l' !! id' = rl_users l !! id') /\
    if ok then
      forall k, match charge ds k with
                | Some a => affordable now (buckets g k) a = true /\ affordable now (buckets u k) a = true /\
                            buckets (rl_global l') k = take_tokens a (refill now (buckets g k)) /\ buckets u' k = take_tokens a (refill now (buckets u k))
                | None => buckets (rl_global l') k = buckets g k /\ buckets u' k = buckets u k
                end
    else
      (exists k a, (k, a) ∈ ds /\ (affordable now (buckets g k) a = false \/ affordable now (buckets u k) a = false)) /\
      (forall k, looked now (buckets g k) (buckets (rl_global l') k) /\ looked now (buckets u k) (buckets u' k)).
Proof.
  intros Hid Hn. unfold AllowUDPPacket. rewrite bool_decide_eq_false_2 by done. destruct (Z.ltb_spec n 0); [lia|]. cbn [orb]. cbn zeta.
  pose proof (debits_distinct n dns newTarget) as Hd. destruct (check_debits _ _ _ _) as [[o g'] u'] eqn:Ec. pose proof (check_debits_counts _ _ _ _ _ _ _ Ec) as [Cg Cu].
  destruct o as [kf|]; intros [<- <-]%pair_equal_spec; cbn [store rl_global rl_users].
  - exists u'. rewrite lookup_insert_eq. do 3 (split; [done|]). split; [intros id' Hne; by apply lookup_insert_ne|].
    destruct (check_debits_fail _ _ _ _ _ _ _ Hd Ec) as [(a & Ha) Hl]. split; [by exists kf, a|done].
  - exists (take_debits (debits n dns newTarget) u'). rewrite lookup_insert_eq. split; [done|].
    pose proof (take_debits_counts (debits n dns newTarget) g') as (T1 & T2 & T3). pose proof (take_debits_counts (debits n dns newTarget) u') as (V1 & V2 & V3).
    destruct Cg as (C1 & C2 & C3), Cu as (D1 & D2 & D3). split; [unfold same_counts; split_and!; congruence|]. split; [unfold same_counts; split_and!; congruence|].
    split; [intros id' Hne; by apply lookup_insert_ne|]. intros k. pose proof (check_debits_ok _ _ _ _ _ _ Hd Ec k) as Hk. rewrite !take_debits_bucket by done.
    destruct (charge (debits n dns newTarget) k) as [a|]; [|done]. destruct Hk as (H1 & H2 & -> & ->). done.
Qed.

(** ** Examples *)

Module LimitsExample.
Definition c : ResourceLimitConfig := mkLimits 1 2 1 2 1 3 2 100 100 1 1 5 5.
Definition l0 : ResourceLimiter := match NewResourceLimiter c 1000 with Ok l => l | Err _ => mkLimiter c (mkResources 0 0 0 (fun _ => newTokenBucket 0 0)) ∅ (mkRejects 0 0 0 0 0 0) end.
Definition alice : list byte := bytes_of "alice".
Definition bob : list byte := bytes_of "bob".
Definition ops : list op :=
  [OpAcquireSession alice 1000; OpAcquireSession alice 1001; OpAcquireTCP alice 1002; OpAcquireTCP bob 1003; OpReleaseTCP alice; OpReleaseTCP alice;
   OpPacket alice 40 true false 1004; OpPacket alice 40 true false 1005; OpPacket bob 50 false false 1006; OpPacket bob 50 false false 1007].

Example run : Snapshot (foldl (fun l o => (run_op l o).2) l0 ops) = mkSnapshot 1 1 0 1 0 0 2 1 0.
Proof. vm_compute. reflexivity. Qed.

Lemma resources_accounted_witness : sessions (rl_global (foldl (fun l o => (run_op l o).2) l0 ops)) = 1 /\ counted (foldl (fun l o => (run_op l o).2) l0 ops).
Proof. split; [vm_compute; reflexivity|]. apply (resources_accounted c 1000 l0 ops). reflexivity. Defined.

(** One DNS query a second: the second one is refused, and nothing is charged. *)
Definition l1 : ResourceLimiter := (AllowUDPPacket l0 alice 40 true false 2000).2.
Lemma packet_all_or_nothing_witness :
  (AllowUDPPacket l1 alice 40 true false 2001).1 = false /\
  exists k a, (k, a) ∈ debits 40 true false /\
    (affordable 2001 (buckets (rl_global l1) k) a = false \/ affordable 2001 (buckets (user_of l1 alice 2001) k) a = false).
Proof.
  assert (E : (AllowUDPPacket l1 alice 40 true false 2001).1 = false) by (vm_compute; reflexivity). split; [exact E|].
  destruct (AllowUDPPacket l1 alice 40 true false 2001) as [ok l2] eqn:Ea. cbn [fst] in E. subst ok.
  destruct (packet_all_or_nothing l1 alice 40 true false 2001 false l2 ltac:(discriminate) ltac:(lia) Ea) as (u & _ & _ & _ & _ & H & _). exact H.
Defined.
End LimitsExample.
