(* ===== verification/ClientCore.v ===== *)
(** * The client lifecycle (internal/clientcore/core.go, reconnect.go)

    One [Core] owns one tunnel lifetime: [Connect] dials, a monitor goroutine
    waits for the session to end, [NetworkChanged] probes and replaces the
    session up to six times, and [Close] shuts everything down.  The critical
    sections and the external calls of every method and goroutine are the steps
    of its thread; threads interleave arbitrarily.  What an external call (the
    connector, [Wait], [Probe], [Close] of a runtime, sleeping) returns is the
    event of the step, so contexts and timers, which only influence that, need
    no state.  A done channel is a flag; closing it twice would panic, which
    [co_panicked] records. *)
From stdpp Require Import prelude list strings relations.
From S2P Require Import Prelude.

(** ** Reconnect policy (reconnect.go) *)

Definition millisecond : Z := 1000000.
Definition reconnectAttempts : Z := 6.
Definition reconnectTotalTimeout : Z := 30000 * millisecond.
Definition reconnectProbeTimeout : Z := 1500 * millisecond.
Definition reconnectInitialBackoff : Z := 250 * millisecond.
Definition reconnectBackoffCap : Z := 8000 * millisecond.

Record ReconnectPolicy := mkPolicy {
  MaxAttempts : Z; TotalTimeout : Z; ProbeTimeout : Z; InitialBackoff : Z; BackoffCap : Z
}.

Definition defaultReconnectPolicy : ReconnectPolicy :=
  mkPolicy reconnectAttempts reconnectTotalTimeout reconnectProbeTimeout reconnectInitialBackoff reconnectBackoffCap.

Definition or_default (v d : Z) : Z := if v =? 0 then d else v.

Definition normalizeReconnectPolicy (p : ReconnectPolicy) : res ReconnectPolicy :=
  let d := defaultReconnectPolicy in
  let p := mkPolicy (or_default (MaxAttempts p) (MaxAttempts d)) (or_default (TotalTimeout p) (TotalTimeout d))
             (or_default (ProbeTimeout p) (ProbeTimeout d)) (or_default (InitialBackoff p) (InitialBackoff d))
             (or_default (BackoffCap p) (BackoffCap d)) in
  if negb (MaxAttempts p =? reconnectAttempts) || negb (TotalTimeout p =? reconnectTotalTimeout)
     || (ProbeTimeout p <=? 0) || (5000 * millisecond <? ProbeTimeout p)
     || negb (InitialBackoff p =? reconnectInitialBackoff) || negb (BackoffCap p =? reconnectBackoffCap)
  then Err ErrInvalidOptions else Ok p.

(** The loop of [reconnectBackoff] after [n] more rounds at most; [None] is
    its early return of the cap. *)
Fixpoint backoff_rounds (n : nat) (ceiling cap : Z) : option Z :=
  match n with
  | O => Some ceiling
  | S n =>
      if cap <=? ceiling then Some ceiling
      else if cap / 2 <? ceiling then None
      else backoff_rounds n (ceiling * 2) cap
  end.

Definition reconnectBackoff (attempt : Z) (p : ReconnectPolicy) : Z :=
  match backoff_rounds (Z.to_nat (attempt - 1)) (InitialBackoff p) (BackoffCap p) with
  | None => BackoffCap p
  | Some ceiling => if BackoffCap p <? ceiling then BackoffCap p else ceiling
  end.

(** The delay before an attempt; [jitter] is what [policy.Jitter] returned for
    the backoff. *)
Definition reconnect_delay (p : ReconnectPolicy) (jitter : Z) : Z :=
  if (jitter <? 0) || (BackoffCap p <? jitter) then BackoffCap p else jitter.

(** ** Data *)

Inductive State :=
| StateUnknown | StateDisconnected | StateConnecting | StateConnected | StateReconnecting | StateDisconnecting | StateFailed.
#[global] Instance State_eq_dec : EqDecision State.
Proof. solve_decision. Defined.

Inductive Stage :=
| StageUnknown | StageHostIPC | StageHostNegotiation | StageProfileValidation | StageCredentialLoad | StageDNSResolution
| StageEndpointRoute | StageQUICHandshake | StageTLSHandshake | StageWebTransportConnect | StageNP2Authentication
| StageTUNSetup | StagePacketForwarding.

Definition CarrierNone : string := "none".
Definition CarrierHTTP3WebTransport : string := "http3_webtransport".
Definition CarrierHTTPSWebSocket : string := "https_websocket".

(** What [clienthost.MapError] is called with; its wording is not modelled. *)
Record PublicError := mkPublicError { pe_operation : list byte; pe_stage : Stage; pe_error : error }.

Record Snapshot := mkSnapshot {
  sn_state : State; sn_profile : list byte; sn_carrier : string; sn_connectedAt : Z;
  sn_lastError : option PublicError; sn_sequence : Z
}.

(** The configuration of a profile is opaque. *)
Record ConnectRequest := mkRequest { rq_operation : list byte; rq_profile : list byte }.

(** [ownedRuntime]: [or_closed] is what the one call of [Close] returned. *)
Record ownedRuntime := mkRuntime { or_carrier : string; or_closed : option (option error); or_waited : bool }.

(** [co_runtimes] and [co_dones] are the runtimes and done channels created so
    far; [co_runtime] and [co_activeDone] point into them.  [co_finished] is
    [closeErr] once [closeDone] is closed. *)
Record Core := mkCore {
  co_closed : bool;
  co_generation : Z;
  co_snapshot : Snapshot;
  co_activeDone : option nat;
  co_runtime : option nat;
  co_request : option ConnectRequest;
  co_closing : bool;
  co_finished : option (option error);
  co_runtimes : list ownedRuntime;
  co_dones : list bool;
  co_panicked : bool
}.

Definition New (p : ReconnectPolicy) : res Core :=
  _ ← normalizeReconnectPolicy p;
  Ok (mkCore false 0 (mkSnapshot StateDisconnected [] CarrierNone 0 None 0) None None None false None [] [] false).

(** *** Updates *)

Definition set_snapshot (c : Core) (s : Snapshot) : Core :=
  mkCore (co_closed c) (co_generation c) s (co_activeDone c) (co_runtime c) (co_request c) (co_closing c)
    (co_finished c) (co_runtimes c) (co_dones c) (co_panicked c).
Definition set_active (c : Core) (done runtime : option nat) (request : option ConnectRequest) : Core :=
  mkCore (co_closed c) (co_generation c) (co_snapshot c) done runtime request (co_closing c)
    (co_finished c) (co_runtimes c) (co_dones c) (co_panicked c).
Definition set_runtimes (c : Core) (rs : list ownedRuntime) : Core :=
  mkCore (co_closed c) (co_generation c) (co_snapshot c) (co_activeDone c) (co_runtime c) (co_request c) (co_closing c)
    (co_finished c) rs (co_dones c) (co_panicked c).
Definition set_dones (c : Core) (ds : list bool) (panicked : bool) : Core :=
  mkCore (co_closed c) (co_generation c) (co_snapshot c) (co_activeDone c) (co_runtime c) (co_request c) (co_closing c)
    (co_finished c) (co_runtimes c) ds panicked.

(** [make(chan struct{})] and [close(done)]. *)
Definition new_done (c : Core) : Core * nat := (set_dones c (co_dones c ++ [false]) (co_panicked c), length (co_dones c)).
Definition close_done (c : Core) (d : nat) : Core :=
  set_dones c (<[d := true]> (co_dones c)) (co_panicked c || bool_decide (co_dones c !! d = Some true)).

(** A runtime the connector returned. *)
Definition new_runtime (c : Core) (carrier : string) : Core * nat :=
  (set_runtimes c (co_runtimes c ++ [mkRuntime carrier None false]), length (co_runtimes c)).

(** [ownedRuntime.Close] when the runtime's own [Close] would return [e]: only
    the first call reaches it, later ones return its result. *)
Definition close_runtime (c : Core) (r : nat) (e : option error) : Core :=
  set_runtimes c (alter (fun x => mkRuntime (or_carrier x) (Some (default e (or_closed x))) (or_waited x)) r (co_runtimes c)).
Definition close_result (c : Core) (r : nat) (e : option error) : option error :=
  match co_runtimes c !! r with Some x => default e (or_closed x) | None => e end.
Definition mark_waited (c : Core) (r : nat) : Core :=
  set_runtimes c (alter (fun x => mkRuntime (or_carrier x) (or_closed x) true) r (co_runtimes c)).
Definition WaitReturned (c : Core) (r : nat) : bool :=
  match co_runtimes c !! r with Some x => or_waited x | None => true end.
Definition carrier_of (c : Core) (r : nat) : string :=
  match co_runtimes c !! r with Some x => or_carrier x | None => "" end.

(** A snapshot with a new state, the sequence number advanced. *)
Definition next_snapshot (s : Snapshot) (st : State) (carrier : string) (connectedAt : Z) (e : option PublicError) : Snapshot :=
  mkSnapshot st (sn_profile s) carrier connectedAt e (i64 (sn_sequence s + 1)).

Definition supportedStrictCarrier (carrier : string) : bool :=
  bool_decide (carrier = CarrierHTTP3WebTransport) || bool_decide (carrier = CarrierHTTPSWebSocket).

Definition reconnectStage (carrier : string) : Stage :=
  if bool_decide (carrier = CarrierHTTP3WebTransport) then StageWebTransportConnect else StageTLSHandshake.

(** [ValidateOperationID] of internal/clienthost. *)
Definition ValidateOperationID (value : list byte) : bool :=
  negb ((len value =? 0) || (64 <? len value))
  && forallb (fun b => negb ((b2z b <? 33) || (126 <? b2z b))) value.

(** ** Threads *)

(** Where a call or goroutine stands; [k] counts the attempts made. *)
Inductive thread :=
(* Connect *)
| TConnecting (gen : Z) (done : nat) (rq : ConnectRequest)
| TUnsupported (gen : Z) (done : nat) (rq : ConnectRequest) (r : nat)
| TConnectFailed (gen : Z) (done : nat) (rq : ConnectRequest) (e : error)
| TPublish (gen : Z) (done : nat) (rq : ConnectRequest) (r : nat)
| TStale (done r : nat)
(* the monitor *)
| TMonitor (gen : Z) (done r : nat) (op : list byte)
| TWaited (gen : Z) (done r : nat) (op : list byte) (waitErr : option error)
| TCleanup (gen : Z) (done r : nat) (op : list byte) (report : bool)
| TCleaned (gen : Z) (done : nat) (op : list byte) (closeErr : error)
(* NetworkChanged *)
| TProbing (gen : Z) (r : nat) (op : list byte)
| TProbeOk (gen : Z) (r : nat) (op : list byte)
| TConfirm (gen : Z) (r : nat)
| TAttempt (gen : Z) (r : nat) (op : list byte) (k : nat) (last : error)
| TDial (gen : Z) (r : nat) (op : list byte) (k : nat)
| THandover (gen : Z) (r : nat) (op : list byte) (k : nat) (new : nat)
| TDiscard (gen : Z) (r : nat) (op : list byte) (k : nat) (new : nat) (last : error)
| TSwap (gen : Z) (r : nat) (op : list byte) (new : nat)
| TDiscardCanceled (new : nat)
| TRetire (gen : Z) (r : nat) (op : list byte) (done new : nat)
| TGiveUp (gen : Z) (r : nat) (op : list byte) (last : error)
| TFail (gen : Z) (r : nat) (op : list byte) (last : error)
(* shutdown *)
| TShutClose (done r : option nat)
| TShutWait (done r : option nat) (closeErr : option error)
| TShutWorkers (r : option nat) (closeErr : option error)
(* close(done), then the end with the error of the call *)
| TClosing (done : nat) (result : option error)
| TEnded (result : option error).

(** What a step is given: nothing but the clock, the error of an external
    call, or what the connector returned ([None]: a nil runtime). *)
Inductive event :=
| Continue (now : Z)
| Returned (e : option error)
| Connected (r : res (option string)).

(** The sections of the methods. *)
Definition connect_publish (c : Core) (gen : Z) (done : nat) (rq : ConnectRequest) (r : nat) (now : Z)
    : Core * thread * list thread :=
  if co_closed c || negb (co_generation c =? gen) || negb (bool_decide (co_activeDone c = Some done))
  then (c, TStale done r, [])
  else
    let '(c, sessionDone) := new_done c in
    let c := set_active c (Some sessionDone) (Some r) (Some rq) in
    let c := set_snapshot c (next_snapshot (co_snapshot c) StateConnected (carrier_of c r) now None) in
    (close_done c done, TEnded None, [TMonitor gen sessionDone r (rq_operation rq)]).

Definition finishConnectFailure (c : Core) (gen : Z) (done : nat) (op : list byte) (e : error) : Core :=
  if negb (co_closed c) && (co_generation c =? gen) && bool_decide (co_activeDone c = Some done)
  then
    set_active (set_snapshot c (next_snapshot (co_snapshot c) StateFailed CarrierNone 0
      (Some (mkPublicError op StageUnknown e)))) None (co_runtime c) (co_request c)
  else c.

(** The error a session ended with, unless it was cancelled. *)
Definition failure (waitErr : option error) : option error :=
  match waitErr with Some e => if errors_is e ErrCanceled then None else Some e | None => None end.

Definition monitor_section (c : Core) (gen : Z) (done r : nat) (op : list byte) (waitErr : option error)
    : Core * thread :=
  let owned := negb (co_closed c) && (co_generation c =? gen) && bool_decide (co_runtime c = Some r) in
  if owned && bool_decide (sn_state (co_snapshot c) = StateReconnecting) then (c, TClosing done None)
  else if owned then
    let '(st, le) := match failure waitErr with
                     | Some e => (StateFailed, Some (mkPublicError op StagePacketForwarding e))
                     | None => (StateDisconnected, None)
                     end in
    (set_active (set_snapshot c (next_snapshot (co_snapshot c) st CarrierNone 0 le)) None None (co_request c),
     TCleanup gen done r op (bool_decide (waitErr = None)))
  else (c, TCleanup gen done r op false).

Definition monitor_report (c : Core) (gen : Z) (op : list byte) (closeErr : error) : Core :=
  if negb (co_closed c) && (co_generation c =? gen) && bool_decide (co_runtime c = None)
     && bool_decide (sn_state (co_snapshot c) = StateDisconnected)
  then set_snapshot c (next_snapshot (co_snapshot c) StateFailed (sn_carrier (co_snapshot c))
         (sn_connectedAt (co_snapshot c)) (Some (mkPublicError op StagePacketForwarding closeErr)))
  else c.

(** [NetworkChanged] still owns the reconnection. *)
Definition reconnecting (c : Core) (gen : Z) (r : nat) : bool :=
  negb (co_closed c) && (co_generation c =? gen) && bool_decide (co_runtime c = Some r)
  && bool_decide (sn_state (co_snapshot c) = StateReconnecting).

Definition probe_section (c : Core) (gen : Z) (r : nat) : Core * option error :=
  if reconnecting c gen r then
    let s := co_snapshot c in
    (set_snapshot c (next_snapshot s StateConnected (sn_carrier s) (sn_connectedAt s) (sn_lastError s)), None)
  else (c, Some (Sentinel ErrCanceled)).

Definition swap_section (c : Core) (gen : Z) (r : nat) (op : list byte) (new : nat) (now : Z) : Core * thread :=
  if negb (reconnecting c gen r) then (c, TDiscardCanceled new)
  else
    let '(c, sessionDone) := new_done c in
    let c := set_active c (Some sessionDone) (Some new) (co_request c) in
    (set_snapshot c (next_snapshot (co_snapshot c) StateConnected (carrier_of c r) now None),
     TRetire gen r op sessionDone new).

Definition reconnect_failed (c : Core) (gen : Z) (r : nat) (op : list byte) (last : error) : Core * option error :=
  if reconnecting c gen r then
    (set_active (set_snapshot c (next_snapshot (co_snapshot c) StateFailed CarrierNone 0
       (Some (mkPublicError op (reconnectStage (carrier_of c r)) last)))) None None None,
     Some (Join [Sentinel ErrReconnectExhausted; last]))
  else (c, Some (Sentinel ErrCanceled)).

(** The last section of [shutdown]. *)
Definition shutdown_section (c : Core) (closeErr : option error) : Core :=
  let s := co_snapshot c in
  mkCore (co_closed c) (co_generation c) (next_snapshot s StateDisconnected CarrierNone 0 None) None None None
    (co_closing c) (Some closeErr) (co_runtimes c) (co_dones c) (co_panicked c).

(** One step of a thread: the core, the thread and the goroutines it starts.
    [idle]: no call or monitor is running ([workers.Wait] returns). *)
Definition thread_step (idle : bool) (c : Core) (t : thread) (ev : event) : option (Core * thread * list thread) :=
  match t, ev with
  | TConnecting gen done rq, Connected (Err e) => Some (c, TConnectFailed gen done rq e, [])
  | TConnecting gen done rq, Connected (Ok None) => Some (c, TConnectFailed gen done rq ErrNoRuntime, [])
  | TConnecting gen done rq, Connected (Ok (Some carrier)) =>
      let '(c, r) := new_runtime c carrier in
      Some (c, if supportedStrictCarrier carrier then TPublish gen done rq r else TUnsupported gen done rq r, [])
  | TUnsupported gen done rq r, Returned e => Some (close_runtime c r e, TConnectFailed gen done rq ErrUnexpectedCarrier, [])
  | TConnectFailed gen done rq e, Continue _ =>
      Some (finishConnectFailure c gen done (rq_operation rq) e, TClosing done (Some e), [])
  | TPublish gen done rq r, Continue now => Some (connect_publish c gen done rq r now)
  | TStale done r, Returned e => Some (close_runtime c r e, TClosing done (Some (Sentinel ErrCanceled)), [])
  | TMonitor gen done r op, Returned waitErr => Some (mark_waited c r, TWaited gen done r op waitErr, [])
  | TWaited gen done r op waitErr, Continue _ => Some (monitor_section c gen done r op waitErr, [])
  | TCleanup gen done r op report, Returned e =>
      Some (close_runtime c r e,
            match report, close_result c r e with
            | true, Some closeErr => TCleaned gen done op closeErr
            | _, _ => TClosing done None
            end, [])
  | TCleaned gen done op closeErr, Continue _ => Some (monitor_report c gen op closeErr, TClosing done None, [])
  | TProbing gen r op, Returned None => Some (c, TProbeOk gen r op, [])
  | TProbing gen r op, Returned (Some e) => Some (c, TAttempt gen r op 0 e, [])
  | TProbeOk gen r op, Continue _ =>
      Some (c, if WaitReturned c r then TAttempt gen r op 0 ErrSessionEnded else TConfirm gen r, [])
  | TConfirm gen r, Continue _ => let '(c, e) := probe_section c gen r in Some (c, TEnded e, [])
  | TAttempt gen r op k last, Returned e =>
      if reconnectAttempts <=? Z.of_nat k then None
      else match e with
           | Some e => Some (c, TGiveUp gen r op e, [])
           | None => Some (c, TDial gen r op k, [])
           end
  | TAttempt gen r op k last, Continue _ =>
      if reconnectAttempts <=? Z.of_nat k then Some (c, TGiveUp gen r op last, []) else None
  | TDial gen r op k, Connected (Err e) => Some (c, TAttempt gen r op (S k) e, [])
  | TDial gen r op k, Connected (Ok None) => Some (c, TAttempt gen r op (S k) ErrNoRuntime, [])
  | TDial gen r op k, Connected (Ok (Some carrier)) =>
      let current := carrier_of c r in
      let '(c, new) := new_runtime c carrier in
      Some (c, if negb (bool_decide (carrier = current)) || negb (supportedStrictCarrier current)
               then TDiscard gen r op k new ErrUnexpectedCarrier else THandover gen r op k new, [])
  | THandover gen r op k new, Returned (Some e) => Some (c, TDiscard gen r op k new e, [])
  | THandover gen r op k new, Returned None => Some (c, TSwap gen r op new, [])
  | TDiscard gen r op k new last, Returned e => Some (close_runtime c new e, TAttempt gen r op (S k) last, [])
  | TSwap gen r op new, Continue now => Some (swap_section c gen r op new now, [])
  | TDiscardCanceled new, Returned e => Some (close_runtime c new e, TEnded (Some (Sentinel ErrCanceled)), [])
  | TRetire gen r op done new, Returned e => Some (close_runtime c r e, TEnded None, [TMonitor gen done new op])
  | TGiveUp gen r op last, Returned e => Some (close_runtime c r e, TFail gen r op last, [])
  | TFail gen r op last, Continue _ => let '(c, e) := reconnect_failed c gen r op last in Some (c, TEnded e, [])
  | TShutClose done None, Continue _ => Some (c, TShutWait done None None, [])
  | TShutClose done (Some r), Returned e => Some (close_runtime c r e, TShutWait done (Some r) (close_result c r e), [])
  | TShutWait None r closeErr, Continue _ => Some (c, TShutWorkers r closeErr, [])
  | TShutWait (Some d) r closeErr, Continue _ =>
      if bool_decide (co_dones c !! d = Some true) then Some (c, TShutWorkers r closeErr, []) else None
  | TShutWorkers r closeErr, Continue _ => if idle then Some (shutdown_section c closeErr, TEnded None, []) else None
  | TClosing done result, Continue _ => Some (close_done c done, TEnded result, [])
  | _, _ => None
  end.

(** The threads [workers] counts. *)
Definition worker (t : thread) : bool :=
  match t with TShutClose _ _ | TShutWait _ _ _ | TShutWorkers _ _ | TEnded _ => false | _ => true end.

Record system := mkSystem { sy_core : Core; sy_threads : list thread }.

Definition step (s : system) (i : nat) (ev : event) : option system :=
  match sy_threads s !! i with
  | None => None
  | Some t =>
      match thread_step (forallb (fun t => negb (worker t)) (sy_threads s)) (sy_core s) t ev with
      | None => None
      | Some (c, t, started) => Some (mkSystem c (<[i := t]> (sy_threads s) ++ started))
      end
  end.

(** The calls of the owner, up to the end of their first section. *)
Section Calls.
Variable ValidateProfileID : list byte -> bool.

Definition Connect (c : Core) (rq : ConnectRequest) : Core * thread :=
  if negb (ValidateOperationID (rq_operation rq)) || negb (ValidateProfileID (rq_profile rq))
  then (c, TEnded (Some (Sentinel ErrInvalidInput)))
  else if co_closed c then (c, TEnded (Some (Sentinel ErrCoreClosed)))
  else if bool_decide (is_Some (co_activeDone c)) then (c, TEnded (Some (Sentinel ErrAlreadyActive)))
  else
    let gen := u64 (co_generation c + 1) in
    let '(c, done) := new_done c in
    (mkCore (co_closed c) gen
       (mkSnapshot StateConnecting (rq_profile rq) CarrierNone 0 None (i64 (sn_sequence (co_snapshot c) + 1)))
       (Some done) (co_runtime c) (co_request c) (co_closing c) (co_finished c) (co_runtimes c) (co_dones c) (co_panicked c),
     TConnecting gen done rq).

Definition NetworkChanged (c : Core) (op : list byte) : Core * thread :=
  if negb (ValidateOperationID op) then (c, TEnded (Some (Sentinel ErrInvalidInput)))
  else if co_closed c then (c, TEnded (Some (Sentinel ErrCoreClosed)))
  else if bool_decide (sn_state (co_snapshot c) = StateReconnecting) then (c, TEnded (Some (Sentinel ErrReconnectActive)))
  else
    match co_runtime c with
    | Some r =>
        if negb (bool_decide (sn_state (co_snapshot c) = StateConnected)) then (c, TEnded (Some (Sentinel ErrNotConnected)))
        else
          let s := co_snapshot c in
          (set_snapshot c (next_snapshot s StateReconnecting (sn_carrier s) (sn_connectedAt s) None),
           TProbing (co_generation c) r op)
    | None => (c, TEnded (Some (Sentinel ErrNotConnected)))
    end.

(** [Close] up to the wait; [shutdown] is started once. *)
Definition Close (c : Core) : Core * list thread :=
  if co_closing c then (c, [])
  else
    let s := co_snapshot c in
    (mkCore true (u64 (co_generation c + 1))
       (next_snapshot s StateDisconnecting (sn_carrier s) (sn_connectedAt s) (sn_lastError s))
       (co_activeDone c) (co_runtime c) (co_request c) true (co_finished c) (co_runtimes c) (co_dones c) (co_panicked c),
     [TShutClose (co_activeDone c) (co_runtime c)]).

Inductive call := CallConnect (rq : ConnectRequest) | CallNetworkChanged (op : list byte) | CallClose.

Definition enter (s : system) (k : call) : system :=
  match k with
  | CallConnect rq => let '(c, t) := Connect (sy_core s) rq in mkSystem c (sy_threads s ++ [t])
  | CallNetworkChanged op => let '(c, t) := NetworkChanged (sy_core s) op in mkSystem c (sy_threads s ++ [t])
  | CallClose => let '(c, ts) := Close (sy_core s) in mkSystem c (sy_threads s ++ ts)
  end.

Inductive reachable : system -> Prop :=
| reach_new p c : New p = Ok c -> reachable (mkSystem c [])
| reach_call s k : reachable s -> reachable (enter s k)
| reach_step s i ev s' : reachable s -> step s i ev = Some s' -> reachable s'.
End Calls.

(** ** Ownership *)

(** The done channels a thread still has to close, the runtimes it has to
    close or hand on, the one it monitors (or will), those it has closed, and
    the runtime a shutdown closes. *)
Definition owes (t : thread) : list nat :=
  match t with
  | TConnecting _ d _ | TUnsupported _ d _ _ | TConnectFailed _ d _ _ | TPublish _ d _ _ | TStale d _ | TMonitor _ d _ _
  | TWaited _ d _ _ _ | TCleanup _ d _ _ _ | TCleaned _ d _ _ | TRetire _ _ _ d _ | TClosing d _ => [d]
  | _ => []
  end.
Definition holds (t : thread) : list nat :=
  match t with
  | TUnsupported _ _ _ r | TPublish _ _ _ r | TStale _ r | TCleanup _ _ r _ _ | THandover _ _ _ _ r | TDiscard _ _ _ _ r _
  | TSwap _ _ _ r | TDiscardCanceled r | TRetire _ r _ _ _ => [r]
  | _ => []
  end.
Definition monitors (t : thread) : list nat :=
  match t with TMonitor _ _ r _ => [r] | TRetire _ _ _ _ r => [r] | _ => [] end.
Definition has_closed (t : thread) : list nat :=
  match t with
  | TFail _ r _ _ | TShutWait _ (Some r) _ | TShutWorkers (Some r) _ => [r]
  | _ => []
  end.
Definition shuts (t : thread) : list (option nat) :=
  match t with TShutClose _ r | TShutWait _ r _ | TShutWorkers r _ => [r] | _ => [] end.

(** The connect, and the reconnection, a thread is running: its generation
    and done channel, or the runtime it replaces. *)
Definition connects (t : thread) : list (Z * nat) :=
  match t with
  | TConnecting g d _ | TUnsupported g d _ _ | TConnectFailed g d _ _ | TPublish g d _ _ => [(g, d)]
  | _ => []
  end.
Definition reconnects (t : thread) : list (Z * nat) :=
  match t with
  | TProbing g r _ | TProbeOk g r _ | TConfirm g r | TAttempt g r _ _ _ | TDial g r _ _ | THandover g r _ _ _
  | TDiscard g r _ _ _ _ | TSwap g r _ _ | TGiveUp g r _ _ | TFail g r _ _ => [(g, r)]
  | _ => []
  end.

(** The indices a thread mentions. *)
Definition runtimes_of (t : thread) : list nat :=
  match t with
  | TUnsupported _ _ _ r | TPublish _ _ _ r | TStale _ r | TMonitor _ _ r _ | TWaited _ _ r _ _ | TCleanup _ _ r _ _
  | TProbing _ r _ | TProbeOk _ r _ | TConfirm _ r | TAttempt _ r _ _ _ | TDial _ r _ _ | TDiscardCanceled r
  | TGiveUp _ r _ _ | TFail _ r _ _ | TShutClose _ (Some r) | TShutWait _ (Some r) _ | TShutWorkers (Some r) _ => [r]
  | THandover _ r _ _ n | TDiscard _ r _ _ n _ | TSwap _ r _ n | TRetire _ r _ _ n => [r; n]
  | _ => []
  end.
Definition waits_for (t : thread) : list nat :=
  match t with TShutClose (Some d) _ | TShutWait (Some d) _ _ => [d] | _ => [] end.

Definition opened (c : Core) (r : nat) : Prop := exists x, co_runtimes c !! r = Some x /\ or_closed x = None.
Definition is_closed (c : Core) (r : nat) : Prop := exists x, co_runtimes c !! r = Some x /\ is_Some (or_closed x).
Definition current (c : Core) : list nat := match co_runtime c with Some r => [r] | None => [] end.

(** The channels not closed yet. *)
Definition open_dones (ds : list bool) : list nat := filter (fun d => ds !! d = Some false) (seq 0 (length ds)).

Lemma open_dones_elem ds d : d ∈ open_dones ds <-> ds !! d = Some false.
Proof.
  unfold open_dones. rewrite list_elem_of_filter, elem_of_seq. split; [by intros []|]. intros H. split; [done|].
  apply lookup_lt_Some in H. lia.
Qed.

Lemma open_dones_nodup ds : NoDup (open_dones ds).
Proof. apply NoDup_filter, NoDup_seq. Qed.

Lemma open_dones_new ds : open_dones (ds ++ [false]) ≡ₚ length ds :: open_dones ds.
Proof.
  apply NoDup_Permutation; [apply open_dones_nodup| |].
  - constructor; [|apply open_dones_nodup]. rewrite open_dones_elem. intros H%lookup_lt_Some. lia.
  - intros d. rewrite elem_of_cons, !open_dones_elem. destruct (decide (d = length ds)) as [->|].
    + rewrite list_lookup_middle by done. naive_solver.
    + destruct (decide (d < length ds)%nat).
      * rewrite lookup_app_l by done. naive_solver.
      * rewrite !lookup_ge_None_2 by (rewrite ?length_app; cbn; lia). naive_solver.
Qed.

Lemma open_dones_close ds d : ds !! d = Some false -> open_dones ds ≡ₚ d :: open_dones (<[d := true]> ds).
Proof.
  intros Hd. apply NoDup_Permutation; [apply open_dones_nodup| |].
  - constructor; [|apply open_dones_nodup]. rewrite open_dones_elem, list_lookup_insert_eq by (by apply lookup_lt_Some in Hd). done.
  - intros e. rewrite elem_of_cons, !open_dones_elem. destruct (decide (e = d)) as [->|].
    + naive_solver.
    + rewrite list_lookup_insert_ne by done. naive_solver.
Qed.

(** Replacing a thread and starting others. *)
Lemma threads_step {A} (f : thread -> list A) ts i t t' started : ts !! i = Some t ->
  exists rest, flat_map f ts ≡ₚ f t ++ rest /\ flat_map f (<[i := t']> ts ++ started) ≡ₚ f t' ++ flat_map f started ++ rest.
Proof.
  intros Hi. destruct (list_elem_of_split_length ts i t Hi) as (l & k & -> & ->).
  exists (flat_map f l ++ flat_map f k). rewrite <- (Nat.add_0_r (length l)), insert_app_r. cbn.
  rewrite !flat_map_app. cbn [flat_map]. split.
  - by rewrite Permutation_app_swap_app.
  - rewrite <- !app_assoc. rewrite (Permutation_app_swap_app (flat_map f l)). f_equiv.
    rewrite (app_assoc (flat_map f l)). apply Permutation_app_comm.
Qed.

(** *** What a step does *)

(** The cases of a step, down to the branches of its section. *)
Ltac step_cases H :=
  unfold thread_step, connect_publish, finishConnectFailure, monitor_section, monitor_report, probe_section,
    swap_section, reconnect_failed, reconnecting, new_runtime, new_done in H;
  repeat (case_match; simplify_eq/=).

(** The guards of its branches. *)
Ltac branch_facts :=
  repeat (guards; zb; match goal with
    | H : bool_decide _ = true |- _ => apply bool_decide_eq_true in H
    | H : bool_decide _ = false |- _ => apply bool_decide_eq_false in H
    | H : andb _ _ = false |- _ => apply andb_false_iff in H as [H|H]
    | H : orb _ _ = true |- _ => apply orb_true_iff in H as [H|H]
    end); guards; zb; simplify_eq/=.

Lemma step_owes idle c t ev c' t' started : thread_step idle c t ev = Some (c', t', started) ->
  co_panicked c = false -> (forall d, d ∈ owes t -> co_dones c !! d = Some false) ->
  co_panicked c' = false /\ open_dones (co_dones c') ++ owes t ≡ₚ open_dones (co_dones c) ++ owes t' ++ flat_map owes started.
Proof.
  intros H Hp Hd. step_cases H; try (split; [done|]; rewrite ?app_nil_r; done).
  - assert (Hdn : co_dones c !! done = Some false) by (apply Hd; by left). pose proof (lookup_lt_Some _ _ _ Hdn) as Hlt.
    assert (Hl : (co_dones c ++ [false]) !! done = Some false) by by rewrite lookup_app_l.
    rewrite Hp, Hl. split; [done|]. pose proof (open_dones_close _ _ Hl) as E. rewrite open_dones_new in E.
    rewrite Permutation_app_comm. cbn. rewrite <- E. by rewrite Permutation_app_comm.
  - rewrite app_nil_r, open_dones_new. split; [done|]. by rewrite Permutation_app_comm.
  - assert (Hdn : co_dones c !! done = Some false) by (apply Hd; by left). rewrite Hp, Hdn. split; [done|].
    rewrite (open_dones_close _ _ Hdn), app_nil_r. by rewrite Permutation_app_comm.
Qed.

(** Runtimes keep their carrier and stay closed and waited for. *)
Definition grows (rs rs' : list ownedRuntime) : Prop := forall r x, rs !! r = Some x ->
  exists x', rs' !! r = Some x' /\ or_carrier x' = or_carrier x /\
    (is_Some (or_closed x) -> is_Some (or_closed x')) /\ (or_waited x = true -> or_waited x' = true).

Lemma grows_refl rs : grows rs rs.
Proof. intros r x Hx. by exists x. Qed.

Lemma grows_new rs x : grows rs (rs ++ [x]).
Proof. intros r y Hy. exists y. split; [|done]. by apply lookup_app_l_Some. Qed.

Lemma grows_alter rs r f : (forall x, or_carrier (f x) = or_carrier x /\
    (is_Some (or_closed x) -> is_Some (or_closed (f x))) /\ (or_waited x = true -> or_waited (f x) = true)) ->
  grows rs (alter f r rs).
Proof.
  intros Hf i x Hx. rewrite list_lookup_alter. destruct (decide (r = i)) as [->|]; rewrite Hx.
  - exists (f x). split; [reflexivity|]. apply Hf.
  - exists x. split; [reflexivity|]. tauto.
Qed.

Lemma step_grows idle c t ev c' t' started : thread_step idle c t ev = Some (c', t', started) ->
  grows (co_runtimes c) (co_runtimes c') /\ (length (co_dones c) <= length (co_dones c'))%nat.
Proof.
  intros H. step_cases H; rewrite ?length_app, ?length_insert, ?length_app; cbn; (split; [|lia]);
    first [apply grows_refl | apply grows_new | apply grows_alter; intros x; cbn; by destruct (or_closed x)].
Qed.

Lemma grows_length rs rs' : grows rs rs' -> (length rs <= length rs')%nat.
Proof.
  intros H. destruct (decide (length rs <= length rs')%nat); [done|]. exfalso.
  destruct (lookup_lt_is_Some_2 rs (length rs')) as [x Hx]; [lia|].
  apply H in Hx as (y & Hy%lookup_lt_Some & _). lia.
Qed.

Lemma grows_closed c c' r : grows (co_runtimes c) (co_runtimes c') -> is_closed c r -> is_closed c' r.
Proof. intros H (x & Hx & Hc). destruct (H _ _ Hx) as (y & Hy & _ & Hcl & _). exists y. eauto. Qed.

Lemma grows_waited c c' r : grows (co_runtimes c) (co_runtimes c') -> (r < length (co_runtimes c))%nat ->
  WaitReturned c r = true -> WaitReturned c' r = true.
Proof.
  intros H [x Hx]%lookup_lt_is_Some_2. unfold WaitReturned. rewrite Hx. destruct (H _ _ Hx) as (y & -> & _ & _ & Hw). done.
Qed.

Lemma grows_carrier c c' r : grows (co_runtimes c) (co_runtimes c') -> (r < length (co_runtimes c))%nat ->
  carrier_of c' r = carrier_of c r.
Proof.
  intros H [x Hx]%lookup_lt_is_Some_2. unfold carrier_of. rewrite Hx. by destruct (H _ _ Hx) as (y & -> & -> & _).
Qed.

Lemma closed_now c r e : (r < length (co_runtimes c))%nat -> is_closed (close_runtime c r e) r.
Proof.
  intros [x Hx]%lookup_lt_is_Some_2. eexists. cbn. rewrite list_lookup_alter, decide_True, Hx by done. cbn. split; [done|]. by eexists.
Qed.

Lemma opened_close c r e i : opened (close_runtime c r e) i -> opened c i /\ i <> r.
Proof.
  intros (x & Hx & Ho). cbn in Hx. rewrite list_lookup_alter in Hx. destruct (decide (r = i)) as [->|].
  - destruct (co_runtimes c !! i); [|done]. cbn in Hx. injection Hx as <-. done.
  - split; [by exists x|done].
Qed.

Lemma opened_closed c r : opened c r -> is_closed c r -> False.
Proof. intros (x & Hx & Ho) (y & Hy & [e He]). congruence. Qed.

Lemma opened_mark c r i : opened (mark_waited c r) i -> opened c i.
Proof.
  intros (x & Hx & Ho). cbn in Hx. rewrite list_lookup_alter in Hx. destruct (decide (r = i)) as [->|]; [|by exists x].
  destruct (co_runtimes c !! i) as [y|] eqn:Hy; [|done]. cbn in Hx. injection Hx as <-. by exists y.
Qed.

Lemma opened_new c x i : opened (set_runtimes c (co_runtimes c ++ [x])) i -> opened c i \/ i = length (co_runtimes c).
Proof.
  intros (y & Hx & Ho). cbn in Hx. destruct (decide (i < length (co_runtimes c))%nat) as [Hl|Hl].
  - rewrite lookup_app_l in Hx by done. left. by exists y.
  - right. apply lookup_lt_Some in Hx. rewrite length_app in Hx. cbn in Hx. lia.
Qed.

(** No open runtime is lost. *)
Lemma step_held idle c t ev c' t' started : thread_step idle c t ev = Some (c', t', started) ->
  (forall r, r ∈ has_closed t -> is_closed c r) -> (forall o, shuts t = [o] -> co_runtime c = o) ->
  (forall g d, (g, d) ∈ connects t -> co_closed c = false -> co_activeDone c = Some d -> co_runtime c = None) ->
  forall r, opened c' r ->
    opened c r /\ r ∉ current c ++ holds t \/ r ∈ current c' ++ holds t' ++ flat_map holds started.
Proof.
  intros H Hc Hs Hn r Ho. destruct (decide (r ∈ current c' ++ holds t' ++ flat_map holds started)) as [|Hr]; [by right|]. left.
  step_cases H; unfold current in *; cbn in *; branch_facts;
    lazymatch type of Ho with
    | opened (close_runtime _ _ _) _ => apply opened_close in Ho as [Ho ?]
    | opened (mark_waited _ _) _ => apply opened_mark in Ho
    | opened (set_runtimes _ _) _ => apply opened_new in Ho as [Ho|Ho]
    | _ => idtac
    end.
  all: rewrite ?elem_of_app, ?elem_of_cons, ?elem_of_nil in *.
  all: try match goal with E : co_runtime _ = Some _ |- _ => rewrite E in *; rewrite ?list_elem_of_singleton in * end.
  all: try solve [split; [exact Ho|tauto] | tauto].
  - split; [exact Ho|]. rewrite (Hn (co_generation c) done); [intros [Hin%elem_of_nil|?]; tauto|set_solver|done|done].
  - split; [exact Ho|]. intros [->|[]]. eapply opened_closed; [exact Ho|]. apply Hc. by left.
  - split; [exact Ho|]. rewrite (Hs _ eq_refl). intros [Hin|[]].
    apply list_elem_of_singleton in Hin as ->. eapply opened_closed; [exact Ho|]. apply Hc. by left.
  - split; [exact Ho|]. rewrite (Hs _ eq_refl). set_solver.
Qed.

(** What a thread knows about its runtimes; it stays true. *)
Definition thread_ok (c : Core) (t : thread) : Prop :=
  Forall (fun r => r < length (co_runtimes c))%nat (runtimes_of t) /\
  Forall (is_closed c) (has_closed t) /\
  Forall (fun d => d < length (co_dones c))%nat (waits_for t) /\
  match t with
  | TPublish _ _ _ r => supportedStrictCarrier (carrier_of c r) = true
  | THandover _ r _ _ new | TSwap _ r _ new =>
      carrier_of c new = carrier_of c r /\ supportedStrictCarrier (carrier_of c r) = true
  | _ => True
  end.

Lemma thread_ok_grows c c' t : grows (co_runtimes c) (co_runtimes c') -> (length (co_dones c) <= length (co_dones c'))%nat ->
  thread_ok c t -> thread_ok c' t.
Proof.
  intros Hg Hl (Hr & Hc & Hw & Ht). pose proof (grows_length _ _ Hg) as Hlen. repeat split.
  - eapply Forall_impl; [exact Hr|]. cbn. lia.
  - eapply Forall_impl; [exact Hc|]. intros r. by apply grows_closed.
  - eapply Forall_impl; [exact Hw|]. cbn. lia.
  - destruct t; try exact I; cbn in Hr; rewrite ?Forall_cons in Hr; rewrite ?(grows_carrier _ _ _ Hg) by tauto; done.
Qed.

Lemma carrier_of_new c x : carrier_of (set_runtimes c (co_runtimes c ++ [x])) (length (co_runtimes c)) = or_carrier x.
Proof. unfold carrier_of. cbn. by rewrite list_lookup_middle. Qed.

Lemma step_thread_ok idle c t ev c' t' started : thread_step idle c t ev = Some (c', t', started) ->
  thread_ok c t -> thread_ok c' t' /\ Forall (thread_ok c') started.
Proof.
  intros H (Hr & Hc & Hw & Ht). pose proof (step_grows _ _ _ _ _ _ _ H) as [Hg Hl].
  pose proof (fun i => grows_carrier _ _ i Hg) as Hcar.
  pose proof (grows_length _ _ Hg) as Hlen.
  step_cases H; cbn in *; unfold thread_ok; cbn; rewrite ?length_alter, ?length_app, ?Forall_cons, ?Forall_nil in *; cbn in *; branch_facts.
  all: try solve [repeat split; (assumption || tauto || lia)].
  all: rewrite ?carrier_of_new, ?Forall_cons, ?Forall_nil; repeat split; try done; try lia; try tauto;
    try (apply closed_now; tauto); by rewrite ?Hcar by tauto.
Qed.

(** ** The lifecycle before [Close] *)

(** [cs], [rs] and [ms]: the connects, reconnections and monitored runtimes of
    the threads.  A connection attempt or reconnection in progress has its
    thread, and a current runtime is monitored or has ended. *)
Definition open_ok (c : Core) (cs rs : list (Z * nat)) (ms : list nat) : Prop :=
  let st := sn_state (co_snapshot c) in
  match co_activeDone c, co_runtime c with
  | None, None => (st = StateDisconnected \/ st = StateFailed) /\ sn_carrier (co_snapshot c) = CarrierNone
  | Some d, None => st = StateConnecting /\ sn_carrier (co_snapshot c) = CarrierNone /\ (co_generation c, d) ∈ cs
  | Some d, Some r =>
      (st = StateConnected \/ st = StateReconnecting /\ (co_generation c, r) ∈ rs) /\
      sn_carrier (co_snapshot c) = carrier_of c r /\ supportedStrictCarrier (carrier_of c r) = true /\
      d ∉ cs.*2 /\ (r ∈ ms \/ WaitReturned c r = true)
  | None, Some _ => False
  end.

Lemma waited_now c r : WaitReturned (mark_waited c r) r = true.
Proof. unfold WaitReturned. cbn. rewrite list_lookup_alter, decide_True by done. by destruct (co_runtimes c !! r). Qed.

Lemma step_open_ok idle c t ev c' t' started cs rs ms : thread_step idle c t ev = Some (c', t', started) ->
  thread_ok c t -> (forall r, co_runtime c = Some r -> r < length (co_runtimes c))%nat ->
  (forall d, d ∈ cs.*2 -> d < length (co_dones c))%nat -> shuts t = [] -> co_closed c = false ->
  open_ok c (connects t ++ cs) (reconnects t ++ rs) (monitors t ++ ms) ->
  open_ok c' (connects t' ++ flat_map connects started ++ cs) (reconnects t' ++ flat_map reconnects started ++ rs)
    (monitors t' ++ flat_map monitors started ++ ms).
Proof.
  intros H (Hr & _ & _ & Ht) Hcur Hds Hsh Hcl. pose proof (step_grows _ _ _ _ _ _ _ H) as [Hg _].
  pose proof (fun i => grows_carrier _ _ i Hg) as Hcar. pose proof (fun i => grows_waited _ _ i Hg) as Hwt.
  unfold open_ok. step_cases H; cbn in *; branch_facts; try exact id; intros Hok; rewrite ?Forall_cons in Hr;
    rewrite ?Hcar by eauto.
  all: try match goal with |- context [WaitReturned _ ?i] => pose proof (Hwt i (Hcur i eq_refl)) end.
  all: rewrite ?elem_of_cons in *; try tauto; try congruence.
  all: try match goal with
    | Hok : _ /\ _ /\ (_ = _ \/ _) |- _ => destruct Hok as (? & ? & [[=]|]); [congruence|tauto]
    | Hok : (_ \/ _ = _ /\ (_ = _ \/ _)) /\ _ |- _ => destruct Hok as ([?|[? [[=]|]]] & ?); first [congruence|tauto]
    end.
  - repeat split; [by left|exact Ht| |by left; left]. intros Hin%Hds. lia.
  - destruct Hok as (? & ? & ? & ? & [[->|]|]); repeat split; try tauto. right. apply waited_now.
  - destruct Hok as [? _]. congruence.
  - destruct Ht as [Hn Ht], Hok as (_ & _ & _ & Hd & _). repeat split; [by left|by symmetry|by rewrite <- Hn in Ht| |by left; left].
    intros Hin%Hds. lia.
Qed.

(** ** The invariant *)

Lemma open_ok_perm c cs cs' rs rs' ms ms' : cs ≡ₚ cs' -> rs ≡ₚ rs' -> ms ≡ₚ ms' -> open_ok c cs rs ms -> open_ok c cs' rs' ms'.
Proof.
  intros Hc Hr Hm. unfold open_ok. destruct (co_activeDone c), (co_runtime c); rewrite ?Hc, ?Hr, ?Hm; done.
Qed.

Definition ended (t : thread) : bool := match t with TEnded _ => true | _ => false end.

(** The phases of [Close]. *)
Definition closing_ok (c : Core) (ts : list thread) : Prop :=
  co_closed c = co_closing c /\
  match co_closing c, co_finished c with
  | false, None => flat_map shuts ts = []
  | false, Some _ => False
  | true, None => flat_map shuts ts = [co_runtime c] /\ sn_state (co_snapshot c) = StateDisconnecting
  | true, Some _ =>
      forallb ended ts = true /\ co_runtime c = None /\ co_activeDone c = None /\ co_request c = None /\
      sn_state (co_snapshot c) = StateDisconnected /\ sn_carrier (co_snapshot c) = CarrierNone
  end.

Record inv (s : system) : Prop := {
  inv_panicked : co_panicked (sy_core s) = false;
  inv_dones : flat_map owes (sy_threads s) ≡ₚ open_dones (co_dones (sy_core s));
  inv_threads : Forall (thread_ok (sy_core s)) (sy_threads s);
  inv_current : forall r, co_runtime (sy_core s) = Some r -> (r < length (co_runtimes (sy_core s)))%nat;
  inv_active : forall d, co_activeDone (sy_core s) = Some d -> (d < length (co_dones (sy_core s)))%nat;
  inv_opened : forall r, opened (sy_core s) r -> r ∈ current (sy_core s) ++ flat_map holds (sy_threads s);
  inv_open : co_closed (sy_core s) = false ->
    open_ok (sy_core s) (flat_map connects (sy_threads s)) (flat_map reconnects (sy_threads s)) (flat_map monitors (sy_threads s));
  inv_closing : closing_ok (sy_core s) (sy_threads s)
}.

Lemma step_current idle c t ev c' t' started : thread_step idle c t ev = Some (c', t', started) -> thread_ok c t ->
  (forall r, co_runtime c = Some r -> r < length (co_runtimes c))%nat ->
  (forall d, co_activeDone c = Some d -> d < length (co_dones c))%nat ->
  (forall r, co_runtime c' = Some r -> r < length (co_runtimes c'))%nat /\
  (forall d, co_activeDone c' = Some d -> d < length (co_dones c'))%nat.
Proof.
  intros H (Hr & _) Hc Hd.
  step_cases H; cbn in *; branch_facts; rewrite ?Forall_cons in Hr;
    rewrite ?length_alter, ?length_insert, ?length_app; cbn; split; intros i Hi; simplify_eq;
    try (apply Hc in Hi); try (apply Hd in Hi); (lia || tauto).
Qed.

Lemma step_closing idle c t ev c' t' started : thread_step idle c t ev = Some (c', t', started) ->
  co_finished c = None ->
  (forall o, shuts t = [o] -> co_closed c = true /\ co_runtime c = o) ->
  co_closed c' = co_closed c /\ co_closing c' = co_closing c /\
  (co_closed c = true -> co_finished c' = None -> sn_state (co_snapshot c') = sn_state (co_snapshot c) /\ co_runtime c' = co_runtime c) /\
  flat_map shuts started = [] /\
  (co_finished c' = None -> shuts t' = shuts t) /\
  (is_Some (co_finished c') -> idle = true /\ shuts t <> [] /\ ended t' = true /\ started = [] /\
    c' = shutdown_section c (default None (co_finished c'))).
Proof.
  intros H Hf Hs.
  step_cases H; cbn in *; branch_facts; split_and!; try done; try (rewrite Hf; intros [? [=]]); try congruence.
Qed.

(** Nothing moves once the shutdown is over. *)
Lemma ended_stuck idle c t ev : ended t = true -> thread_step idle c t ev = None.
Proof. by destruct t. Qed.

Lemma connects_owes ts d : d ∈ (flat_map connects ts).*2 -> d ∈ flat_map owes ts.
Proof.
  induction ts as [|t ts IH]; cbn; [done|]. rewrite fmap_app, !elem_of_app. intros [H|H]; [left|by right; apply IH].
  destruct t; cbn in *; try exact H; by apply elem_of_nil in H.
Qed.

Lemma shutting c ts o rest : closing_ok c ts -> flat_map shuts ts ≡ₚ [o] ++ rest ->
  co_closed c = true /\ co_finished c = None /\ co_runtime c = o /\ rest = [].
Proof.
  intros [Hcl Hph] Hp. destruct (co_closing c), (co_finished c); try done.
  - destruct Hph as [He _]. assert (flat_map shuts ts = []) as E; [|rewrite E in Hp; by apply Permutation_nil_l in Hp].
    clear Hp. induction ts as [|t ts IH]; [done|]. cbn in *. apply andb_true_iff in He as [Ht He]. rewrite (IH He). by destruct t.
  - destruct Hph as [E _]. rewrite E in Hp. apply Permutation_singleton_l in Hp. by simplify_eq/=.
  - rewrite Hph in Hp. by apply Permutation_nil_l in Hp.
Qed.

(** When the shutdown is the only thread left and ends, all have ended. *)
Lemma all_ended ts i t t' : ts !! i = Some t -> forallb (fun u => negb (worker u)) ts = true ->
  shuts t <> [] -> flat_map shuts ts ≡ₚ shuts t -> ended t' = true -> forallb ended (<[i := t']> ts) = true.
Proof.
  intros Hi Hw Hs Hp Ht'. assert (Hquiet : forall l, forallb (fun u => negb (worker u)) l = true -> flat_map shuts l = [] -> forallb ended l = true).
  { induction l as [|u l IH]; [done|]. cbn. intros [Hu Hl]%andb_true_iff [E1 E2]%app_eq_nil. rewrite (IH Hl E2), andb_true_r. by destruct u. }
  revert i Hi. induction ts as [|u ts IH]; intros i Hi; [done|]. cbn in Hw, Hp. apply andb_true_iff in Hw as [Hu Hw].
  destruct i as [|i]; cbn in Hi;
    [change (ended t' && forallb ended ts = true)|change (ended u && forallb ended (<[i := t']> ts) = true)].
  - injection Hi as <-. rewrite Ht'. cbn. apply Hquiet; [done|].
    apply Permutation_nil_r, (Permutation_app_inv_l (shuts u)). by rewrite app_nil_r.
  - destruct (threads_step shuts ts i t t' [] Hi) as (rest & Hr & _).
    assert (shuts u ++ rest = []) as [E1 E2]%app_eq_nil.
    { apply Permutation_nil_r, (Permutation_app_inv_l (shuts t)). rewrite app_nil_r, Permutation_app_swap_app, <- Hr. done. }
    rewrite E1 in Hp. rewrite (IH Hw Hp i Hi), andb_true_r. by destruct u.
Qed.

Lemma inv_step s i ev s' : inv s -> step s i ev = Some s' -> inv s'.
Proof.
  intros [Hp Hd Ht Hc Ha Ho Hop [Hcl Hph]] H. destruct s as [c ts]. unfold step in H. cbn in *.
  destruct (ts !! i) as [t|] eqn:Hi; [|done].
  set (idle := forallb _ ts) in H. destruct (thread_step idle c t ev) as [[[c' t'] started]|] eqn:Hst; [|done].
  injection H as <-.
  assert (Hthr : thread_ok c t) by (eapply Forall_lookup_1; eauto).
  assert (Hfin : co_finished c = None).
  { destruct (co_finished c) eqn:E; [|done]. exfalso. destruct (co_closing c); [|done]. destruct Hph as (He & _).
    rewrite forallb_forall in He. rewrite ended_stuck in Hst; [done|]. apply He, list_elem_of_In. by eapply list_elem_of_lookup_2. }
  destruct (threads_step owes ts i t t' started Hi) as (ro & Hro & Hro').
  destruct (threads_step holds ts i t t' started Hi) as (rh & Hrh & Hrh').
  destruct (threads_step connects ts i t t' started Hi) as (rc & Hrc & Hrc').
  destruct (threads_step reconnects ts i t t' started Hi) as (rr & Hrr & Hrr').
  destruct (threads_step monitors ts i t t' started Hi) as (rm & Hrm & Hrm').
  destruct (threads_step shuts ts i t t' started Hi) as (rs & Hrs & Hrs').
  rewrite Hro in Hd.
  assert (Hsh : forall o, shuts t = [o] -> co_closed c = true /\ co_finished c = None /\ co_runtime c = o /\ rs = []).
  { intros o E. rewrite E in Hrs. by apply (shutting c ts). }
  destruct (step_grows _ _ _ _ _ _ _ Hst) as [Hg Hl].
  destruct (step_thread_ok _ _ _ _ _ _ _ Hst Hthr) as [Ht' Hst'].
  destruct (step_current _ _ _ _ _ _ _ Hst Hthr Hc Ha) as [Hc' Ha'].
  destruct (step_owes _ _ _ _ _ _ _ Hst Hp) as [Hp' Hd'].
  { intros d Hin. apply open_dones_elem. rewrite <- Hd. set_solver. }
  destruct (step_closing _ _ _ _ _ _ _ Hst Hfin) as (Ecl & Ecg & Esn & Est & Esh & Efin).
  { intros o E. destruct (Hsh o E) as (? & _ & ? & _). done. }
  split; cbn.
  - exact Hp'.
  - rewrite Hro'. rewrite <- Hd in Hd'. apply (Permutation_app_inv_l (owes t)).
    rewrite (Permutation_app_comm (owes t) (open_dones _)), Hd', <- !app_assoc. f_equiv.
    rewrite (Permutation_app_comm ro). by rewrite <- app_assoc.
  - apply Forall_app. split; [|exact Hst']. apply Forall_insert; [|exact Ht'].
    eapply Forall_impl; [exact Ht|]. intros u. by apply thread_ok_grows.
  - exact Hc'.
  - exact Ha'.
  - intros r Hr. rewrite Hrh'. apply (step_held _ _ _ _ _ _ _ Hst) in Hr.
    + destruct Hr as [[Hr Hn]|Hr].
      * apply Ho in Hr. rewrite Hrh in Hr. set_solver.
      * set_solver.
    + destruct Hthr as (_ & Hcd & _). by rewrite Forall_forall in Hcd.
    + intros o E. by destruct (Hsh o E) as (_ & _ & ? & _).
    + intros g d Hin Hcf Had. specialize (Hop Hcf). unfold open_ok in Hop. rewrite Had in Hop.
      destruct (co_runtime c); [|done]. destruct Hop as (_ & _ & _ & Hd2 & _). exfalso. apply Hd2.
      rewrite Hrc, fmap_app, elem_of_app. left. apply (list_elem_of_fmap_2 snd) in Hin. exact Hin.
  - intros Hcf. rewrite Ecl in Hcf. eapply open_ok_perm; [symmetry; exact Hrc'|symmetry; exact Hrr'|symmetry; exact Hrm'|].
    eapply step_open_ok; [exact Hst|exact Hthr|exact Hc| | |exact Hcf|].
    + intros d Hin. assert (d ∈ open_dones (co_dones c)) as Hdo%open_dones_elem%lookup_lt_Some; [|done].
      rewrite <- Hd, <- Hro. apply connects_owes. rewrite Hrc, fmap_app. set_solver.
    + destruct (shuts t) as [|o [|]] eqn:E; [done| |by destruct t].
      destruct (Hsh o eq_refl) as [? _]. congruence.
    + eapply open_ok_perm; [exact Hrc|exact Hrr|exact Hrm|]. by apply Hop.
  - split; [congruence|]. rewrite Ecg.
    destruct (co_finished c') as [res|] eqn:Efc.
    + destruct (Efin ltac:(by eexists)) as (Hidle & Hns & He & -> & ->).
      destruct (shuts t) as [|o [|]] eqn:E; [done| |by destruct t]. destruct (Hsh o eq_refl) as (Hc1 & _ & _ & ->).
      rewrite Hcl in Hc1. rewrite Hc1. split_and!; try done. rewrite app_nil_r.
      apply (all_ended _ _ t); [done|done|by rewrite E|by rewrite Hrs, E|done].
    + rewrite Hfin in Hph. specialize (Esh eq_refl). rewrite Esh, Est in Hrs'. cbn in Hrs'. rewrite <- Hrs in Hrs'.
      destruct (co_closing c) eqn:Ecc.
      * destruct Hph as [Hf Hsn]. destruct (Esn Hcl eq_refl) as [-> ->]. rewrite Hf in Hrs'.
        by apply Permutation_singleton_r in Hrs'.
      * rewrite Hph in Hrs'. by apply Permutation_nil_r in Hrs'.
Qed.

(** *** Calls keep it *)

#[local] Arguments open_dones : simpl never.
#[local] Arguments open_ok : simpl never.
#[local] Arguments closing_ok : simpl never.

Lemma inv_ended s e : inv s -> inv (mkSystem (sy_core s) (sy_threads s ++ [TEnded e])).
Proof.
  destruct s as [c ts]. intros [Hp Hd Ht Hc Ha Ho Hop [Hcl Hph]]. cbn in *.
  split; cbn; rewrite ?flat_map_app; cbn; rewrite ?app_nil_r; try done.
  - apply Forall_app. split; [done|]. by repeat constructor.
  - split; [done|]. rewrite flat_map_app, forallb_app. cbn. rewrite !app_nil_r, andb_true_r. done.
Qed.

Lemma open_current s : inv s -> co_closed (sy_core s) = false -> co_activeDone (sy_core s) = None -> co_runtime (sy_core s) = None.
Proof.
  intros H Hcl Ha. pose proof (inv_open _ H Hcl) as Hop. unfold open_ok in Hop. rewrite Ha in Hop. by destruct (co_runtime _).
Qed.

Lemma inv_connect v s rq : inv s -> inv (enter v s (CallConnect rq)).
Proof.
  intros H. cbn. unfold Connect. destruct (negb _ || negb _); [by apply inv_ended|].
  destruct (co_closed (sy_core s)) eqn:Hclosed; [by apply inv_ended|]. case_bool_decide as Hact; [by apply inv_ended|].
  assert (Had : co_activeDone (sy_core s) = None) by (destruct (co_activeDone _); [by destruct Hact|done]).
  pose proof (open_current s H Hclosed Had) as Hrt.
  destruct s as [c ts]. destruct H as [Hp Hd Ht Hc Ha Ho Hop [Hcl Hph]]. cbn in *.
  split; cbn; rewrite ?flat_map_app; cbn; rewrite ?app_nil_r; try done.
  - rewrite open_dones_new, Hd. by rewrite Permutation_app_comm.
  - apply Forall_app. split; [|by repeat constructor]. eapply Forall_impl; [exact Ht|]. intros u.
    apply thread_ok_grows; cbn; [apply grows_refl|rewrite length_app; lia].
  - intros d [= <-]. rewrite length_app. cbn. lia.
  - intros _. unfold open_ok. cbn. rewrite Hrt. split_and!; [done|done|]. set_solver.
  - split; [exact Hcl|]. cbn. rewrite Hclosed in Hcl. rewrite <- Hcl in *. destruct (co_finished c); [done|].
    rewrite flat_map_app. cbn. by rewrite app_nil_r.
Qed.

Lemma inv_network v s op : inv s -> inv (enter v s (CallNetworkChanged op)).
Proof.
  intros H. cbn. unfold NetworkChanged. destruct (negb _); [by apply inv_ended|].
  destruct (co_closed (sy_core s)) eqn:Hclosed; [by apply inv_ended|]. case_bool_decide; [by apply inv_ended|].
  destruct (co_runtime (sy_core s)) as [r|] eqn:Hrt; [|by apply inv_ended]. destruct (negb _); [by apply inv_ended|].
  destruct s as [c ts]. destruct H as [Hp Hd Ht Hc Ha Ho Hop [Hcl Hph]]. cbn in *.
  split; cbn; rewrite ?flat_map_app; cbn; rewrite ?app_nil_r; try done.
  - apply Forall_app. split; [exact Ht|]. repeat constructor. cbn. by apply Hc.
  - intros Hcf. specialize (Hop Hcf). unfold open_ok in *. cbn. rewrite Hrt in *. destruct (co_activeDone c); [|done].
    destruct Hop as (Hs & ? & ? & ? & ?). split_and!; try done. right. split; [done|]. set_solver.
  - split; [exact Hcl|]. cbn. rewrite Hclosed in Hcl. rewrite <- Hcl in *. destruct (co_finished c); [done|].
    rewrite flat_map_app. cbn. by rewrite app_nil_r.
Qed.

Lemma inv_close v s : inv s -> inv (enter v s CallClose).
Proof.
  intros H. cbn. unfold Close. destruct s as [c ts]. destruct H as [Hp Hd Ht Hc Ha Ho Hop [Hcl Hph]]. cbn in *.
  destruct (co_closing c) eqn:Hcg.
  - split; cbn; rewrite ?app_nil_r; try done. split; [congruence|]. by rewrite Hcg.
  - split; cbn; rewrite ?flat_map_app; cbn; rewrite ?app_nil_r; try done.
    + apply Forall_app. split; [exact Ht|]. constructor; [|constructor].
      repeat split; cbn; [destruct (co_runtime c)|constructor|destruct (co_activeDone c)]; repeat constructor; auto.
    + split; [done|]. cbn. destruct (co_finished c); [done|]. rewrite flat_map_app, Hph. done.
Qed.

Lemma reachable_inv v s : reachable v s -> inv s.
Proof.
  induction 1 as [p c Hnew|s k _ IH|s i ev s' _ IH Hst].
  - unfold New in Hnew. inv_res. split; cbn; try done.
    + intros r (x & [=] & _).
    + intros _. unfold open_ok. cbn. split; [by left|done].
  - destruct k; [by apply inv_connect|by apply inv_network|by apply inv_close].
  - by eapply inv_step.
Qed.

(** ** What the lifecycle promises *)

(** C18: the core never closes a done channel twice (the panic of [close]), no
    interleaving of calls, monitors and the shutdown loses a runtime (an open
    one is the current one or held by a thread that will close it), and once
    [Close] is done every runtime is closed, every done channel is closed, every
    thread has ended and the client is disconnected with no session left. *)
Theorem client_core_releases v s : reachable v s ->
  co_panicked (sy_core s) = false /\
  (forall r, opened (sy_core s) r -> r ∈ current (sy_core s) \/ exists t, t ∈ sy_threads s /\ r ∈ holds t) /\
  (is_Some (co_finished (sy_core s)) ->
     (forall r, (r < length (co_runtimes (sy_core s)))%nat -> is_closed (sy_core s) r) /\
     Forall (fun d => d = true) (co_dones (sy_core s)) /\
     (forall t, t ∈ sy_threads s -> exists e, t = TEnded e) /\
     co_runtime (sy_core s) = None /\ co_activeDone (sy_core s) = None /\ co_request (sy_core s) = None /\
     sn_state (co_snapshot (sy_core s)) = StateDisconnected /\ sn_carrier (co_snapshot (sy_core s)) = CarrierNone).
Proof.
  intros Hr%reachable_inv. destruct Hr as [Hp Hd Ht Hc Ha Ho Hop [Hcl Hph]]. split; [done|]. split.
  - intros r Hr. apply Ho in Hr. rewrite elem_of_app in Hr. destruct Hr as [|Hr]; [by left|]. right.
    apply list_elem_of_In, in_flat_map in Hr as (t & Hin & Hin'). exists t. by rewrite !list_elem_of_In.
  - intros [res Hf]. destruct (co_closing (sy_core s)); rewrite Hf in Hph; [|done].
    destruct Hph as (He & Hrt & Had & Hrq & Hst & Hca).
    assert (Hend : forall t, t ∈ sy_threads s -> exists e, t = TEnded e).
    { intros t Hin%list_elem_of_In. rewrite forallb_forall in He. specialize (He t Hin). destruct t; try done. by eexists. }
    assert (Hflat : forall f : thread -> list nat, (forall e, f (TEnded e) = []) -> flat_map f (sy_threads s) = []).
    { intros f Hf0. clear -Hend Hf0. induction (sy_threads s) as [|t l IH]; [done|]. cbn.
      destruct (Hend t ltac:(by left)) as [e ->]. rewrite Hf0. apply IH. intros u Hu. apply Hend. by right. }
    split_and!; try done.
    + intros r [x Hx]%lookup_lt_is_Some_2. exists x. split; [done|]. destruct (or_closed x) eqn:E; [done|]. exfalso.
      assert (opened (sy_core s) r) as Hop'%Ho by (by exists x). unfold current in Hop'. rewrite Hrt, Hflat in Hop' by done.
      by apply elem_of_nil in Hop'.
    + rewrite Hflat in Hd by done. apply Permutation_nil_l in Hd. apply Forall_lookup_2. intros d b Hb. destruct b; [done|].
      apply open_dones_elem in Hb. rewrite <- Hd in Hb. by apply elem_of_nil in Hb.
Qed.

(** until [Close], the public state is the truth about the threads: while
    connecting, a live call holds the current generation's done channel; while
    reconnecting, a live [NetworkChanged] owns the current runtime; when
    connected, there is a runtime of the published, supported carrier, which is
    monitored or whose session has ended; disconnected or failed, there is
    neither a runtime nor work in progress. *)
Theorem client_core_state v s : reachable v s -> co_closed (sy_core s) = false ->
  let c := sy_core s in
  match sn_state (co_snapshot c) with
  | StateDisconnected | StateFailed =>
      co_runtime c = None /\ co_activeDone c = None /\ sn_carrier (co_snapshot c) = CarrierNone
  | StateConnecting =>
      co_runtime c = None /\ exists d t, co_activeDone c = Some d /\ t ∈ sy_threads s /\ (co_generation c, d) ∈ connects t
  | StateConnected =>
      exists r, co_runtime c = Some r /\ sn_carrier (co_snapshot c) = carrier_of c r /\
        supportedStrictCarrier (carrier_of c r) = true /\
        ((exists t, t ∈ sy_threads s /\ r ∈ monitors t) \/ WaitReturned c r = true)
  | StateReconnecting =>
      exists r t, co_runtime c = Some r /\ sn_carrier (co_snapshot c) = carrier_of c r /\
        supportedStrictCarrier (carrier_of c r) = true /\ t ∈ sy_threads s /\ (co_generation c, r) ∈ reconnects t
  | StateUnknown | StateDisconnecting => False
  end.
Proof.
  intros Hr%reachable_inv Hcl. pose proof (inv_open _ Hr Hcl) as Hop. cbn zeta.
  assert (Hflat : forall A (f : thread -> list A) x, x ∈ flat_map f (sy_threads s) -> exists t, t ∈ sy_threads s /\ x ∈ f t).
  { intros A f x Hin. apply list_elem_of_In, in_flat_map in Hin as (t & Hin & Hin'). exists t. by rewrite !list_elem_of_In. }
  unfold open_ok in Hop. destruct (co_activeDone (sy_core s)) as [d|], (co_runtime (sy_core s)) as [r|].
  - destruct Hop as ([->|[-> Hre]] & Hca & Hsup & _ & Hm).
    + exists r. split_and!; try done. destruct Hm as [Hm|]; [left|by right]. by apply Hflat.
    + apply Hflat in Hre as (t & ? & ?). by exists r, t.
  - destruct Hop as (-> & _ & (t & ? & ?)%Hflat). split; [done|]. by exists d, t.
  - done.
  - destruct Hop as ([->| ->] & Hca); done.
Qed.

(** ** Termination *)

(** How many steps a thread can still take. *)
Definition work (t : thread) : nat :=
  match t with
  | TEnded _ => 0
  | TClosing _ _ | TConfirm _ _ | TFail _ _ _ _ | TShutWorkers _ _ => 1
  | TStale _ _ | TCleaned _ _ _ _ | TConnectFailed _ _ _ _ | TGiveUp _ _ _ _ | TDiscardCanceled _ | TShutWait _ _ _ => 2
  | TCleanup _ _ _ _ _ | TUnsupported _ _ _ _ | TShutClose _ _ => 3
  | TWaited _ _ _ _ _ => 4
  | TMonitor _ _ _ _ => 5
  | TRetire _ _ _ _ _ | TPublish _ _ _ _ => 6
  | TSwap _ _ _ _ | TConnecting _ _ _ => 7
  | TAttempt _ _ _ k _ => 10 * (6 - k) + 3
  | TDial _ _ _ k => 10 * (5 - k) + 12
  | THandover _ _ _ k _ => 10 * (5 - k) + 8
  | TDiscard _ _ _ k _ _ => 10 * (5 - k) + 4
  | TProbeOk _ _ _ => 64
  | TProbing _ _ _ => 65
  end.

Definition total_work (ts : list thread) : nat := sum_list (map work ts).

Lemma total_work_app l k : total_work (l ++ k) = (total_work l + total_work k)%nat.
Proof. induction l as [|t l IH]; [done|]. unfold total_work in *. cbn. rewrite IH. lia. Qed.

Lemma step_work idle c t ev c' t' started : thread_step idle c t ev = Some (c', t', started) ->
  (work t' + total_work started < work t)%nat.
Proof.
  intros H. unfold reconnectAttempts in *. unfold total_work. step_cases H; branch_facts; unfold reconnectAttempts in *; lia.
Qed.

Lemma system_work s i ev s' : step s i ev = Some s' -> (total_work (sy_threads s') < total_work (sy_threads s))%nat.
Proof.
  intros H. unfold step in H. destruct (sy_threads s !! i) as [t|] eqn:Hi; [|done].
  destruct (thread_step _ _ t ev) as [[[c' t'] started]|] eqn:Hst; [|done]. injection H as <-. apply step_work in Hst. cbn [sy_threads].
  destruct (list_elem_of_split_length _ i t Hi) as (l & k & E & ->). rewrite E, <- (Nat.add_0_r (length l)), insert_app_r. cbn [sy_threads].
  change (<[0%nat := t']> (t :: k)) with (t' :: k). change (l ++ t' :: k) with (l ++ [t'] ++ k). change (l ++ t :: k) with (l ++ [t] ++ k).
  rewrite !total_work_app. unfold total_work in *. cbn. lia.
Qed.

(** A worker can always go on; so can a shutdown once the workers have ended. *)
Lemma worker_steps c t idle : worker t = true -> exists ev, is_Some (thread_step idle c t ev).
Proof.
  intros H. destruct t; try done;
    try (exists (Continue 0); cbn; repeat case_match; by eexists);
    try (exists (Returned None); cbn; repeat case_match; by eexists);
    try (exists (Connected (Ok None)); cbn; by eexists).
  destruct (reconnectAttempts <=? Z.of_nat k) eqn:E; [exists (Continue 0)|exists (Returned None)]; cbn; rewrite E; by eexists.
Qed.

Lemma step_of s i t ev : sy_threads s !! i = Some t ->
  is_Some (thread_step (forallb (fun t => negb (worker t)) (sy_threads s)) (sy_core s) t ev) -> is_Some (step s i ev).
Proof. intros Hi [[[c' t'] st] Hs]. unfold step. rewrite Hi, Hs. by eexists. Qed.

Lemma progress s : inv s -> forallb ended (sy_threads s) = false -> exists i ev, is_Some (step s i ev).
Proof.
  intros Hinv He. destruct (forallb (fun t => negb (worker t)) (sy_threads s)) eqn:Hw.
  - assert (Hno : forall f : thread -> list nat, (forall t, worker t = false -> f t = []) -> flat_map f (sy_threads s) = []).
    { intros f Hf. clear -Hf Hw. induction (sy_threads s) as [|t l IH]; [done|]. cbn in *.
      apply andb_true_iff in Hw as [Ht%negb_true_iff Hw]. by rewrite Hf, IH. }
    assert (exists i t, sy_threads s !! i = Some t /\ ended t = false) as (i & t & Hi & Ht).
    { clear -He. induction (sy_threads s) as [|t l IH]; [done|]. cbn in He. apply andb_false_iff in He as [Ht|Hl].
      - by exists 0%nat, t.
      - destruct (IH Hl) as (i & u & ? & ?). by exists (S i), u. }
    assert (Hnw : worker t = false).
    { rewrite forallb_forall in Hw. apply negb_true_iff, Hw, list_elem_of_In. by eapply list_elem_of_lookup_2. }
    assert (Hok : thread_ok (sy_core s) t) by (eapply Forall_lookup_1; [apply Hinv|exact Hi]).
    assert (exists ev, is_Some (thread_step true (sy_core s) t ev)) as [ev Hev].
    { destruct t; try done.
      - destruct r; [exists (Returned None)|exists (Continue 0)]; by eexists.
      - destruct done as [d|]; exists (Continue 0); cbn; [|by eexists]. case_bool_decide as Hd; [by eexists|]. exfalso.
        destruct Hok as (_ & _ & Hd' & _). cbn in Hd'. rewrite Forall_cons in Hd'. destruct Hd' as [[b Hb]%lookup_lt_is_Some_2 _].
        destruct b; [done|]. apply open_dones_elem in Hb. rewrite <- (inv_dones _ Hinv), Hno in Hb; [by apply elem_of_nil in Hb|].
        intros u Hu. by destruct u.
      - exists (Continue 0). by eexists. }
    exists i, ev. apply (step_of _ _ t); [done|]. by rewrite Hw.
  - assert (exists i t, sy_threads s !! i = Some t /\ worker t = true) as (i & t & Hi & Ht).
    { clear -Hw. induction (sy_threads s) as [|t l IH]; [done|]. cbn in Hw. apply andb_false_iff in Hw as [Ht|Hl].
      - exists 0%nat, t. by apply negb_false_iff in Ht.
      - destruct (IH Hl) as (i & u & ? & ?). by exists (S i), u. }
    destruct (worker_steps (sy_core s) t (forallb (fun t => negb (worker t)) (sy_threads s)) Ht) as [ev Hev].
    exists i, ev. by apply (step_of _ _ t).
Qed.

Definition moves (s s' : system) : Prop := exists i ev, step s i ev = Some s'.

(** [Close] completes: once its calls are in, a system makes at most
    [total_work] steps whatever order the scheduler picks (so six reconnection
    attempts bound [NetworkChanged]), and when no thread can move any more after
    [Close] was called, the shutdown has finished: no deadlock. *)
Theorem shutdown_terminates v s n s' : reachable v s -> co_closing (sy_core s) = true -> nsteps moves n s s' ->
  (n <= total_work (sy_threads s))%nat /\
  ((forall i ev, step s' i ev = None) -> is_Some (co_finished (sy_core s'))).
Proof.
  intros Hr Hcg Hn.
  assert (Hinv : inv s' /\ co_closing (sy_core s') = true /\ (n + total_work (sy_threads s') <= total_work (sy_threads s))%nat).
  { apply reachable_inv in Hr. induction Hn as [s|n s s1 s2 (i & ev & Hst) _ IH]; [split_and!; [done|done|lia]|].
    pose proof (inv_step _ _ _ _ Hr Hst) as Hr'. pose proof (system_work _ _ _ _ Hst) as Hw.
    destruct IH as (? & ? & ?); [done| |split_and!; [done|done|lia]].
    pose proof (inv_closing _ Hr) as [Hcl _]. pose proof (inv_closing _ Hr') as [Hcl' _].
    rewrite <- Hcl', <- Hcg, <- Hcl. unfold step in Hst. destruct (sy_threads s !! i) as [t|]; [|done].
    destruct (thread_step _ _ t ev) as [[[c' t'] st]|] eqn:Hts; [|done]. injection Hst as <-. cbn. clear -Hts.
    step_cases Hts; done. }
  destruct Hinv as (Hinv & Hcg' & Hw). split; [lia|]. intros Hstuck.
  destruct (forallb ended (sy_threads s')) eqn:He.
  - pose proof (inv_closing _ Hinv) as [_ Hph]. rewrite Hcg' in Hph. destruct (co_finished (sy_core s')); [by eexists|]. exfalso.
    destruct Hph as [Hf _]. clear -He Hf. induction (sy_threads s') as [|t l IH]; [done|]. cbn in *.
    apply andb_true_iff in He as [Ht He]. destruct t; try done. by apply IH.
  - destruct (progress _ Hinv He) as (i & ev & [x Hx]). by rewrite Hstuck in Hx.
Qed.

(** ** The backoff *)

Lemma backoff_rounds_min cap : forall n ceiling, 0 < ceiling -> 0 < cap ->
  match backoff_rounds n ceiling cap with None => cap | Some x => if cap <? x then cap else x end = Z.min cap (ceiling * 2 ^ Z.of_nat n).
Proof.
  induction n as [|n IH]; intros ceiling Hc Hcap.
  - cbn [backoff_rounds]. change (2 ^ Z.of_nat 0) with 1. destruct (Z.ltb_spec cap ceiling); lia.
  - cbn [backoff_rounds]. rewrite Nat2Z.inj_succ, Z.pow_succ_r by lia. pose proof (Z.pow_pos_nonneg 2 (Z.of_nat n) ltac:(lia) ltac:(lia)) as Hpow.
    destruct (Z.leb_spec cap ceiling) as [Hle|Hlt].
    + destruct (Z.ltb_spec cap ceiling); nia.
    + destruct (Z.ltb_spec (cap / 2) ceiling) as [Hh|Hh].
      * assert (cap < 2 * ceiling) by (pose proof (Z.mul_succ_div_gt cap 2 ltac:(lia)); lia). nia.
      * rewrite IH by lia. f_equal. lia.
Qed.

(** the doubling loop of [reconnectBackoff], with its early exits, is the
    truncated exponential backoff [min cap (initial * 2^(attempt-1))]; whatever
    the jitter returns for it, the delay slept is within [0, cap]. *)
Theorem reconnectBackoff_exponential p attempt jitter : 1 <= attempt -> 0 < InitialBackoff p -> 0 < BackoffCap p ->
  reconnectBackoff attempt p = Z.min (BackoffCap p) (InitialBackoff p * 2 ^ (attempt - 1)) /\
  0 <= reconnect_delay p jitter <= BackoffCap p.
Proof.
  intros Ha Hi Hc. split.
  - unfold reconnectBackoff. rewrite backoff_rounds_min by done. by rewrite Z2Nat.id by lia.
  - unfold reconnect_delay. destruct (Z.ltb_spec jitter 0); cbn; [lia|]. destruct (Z.ltb_spec (BackoffCap p) jitter); lia.
Qed.

(** *** Example runs *)
Module ClientExample.
Definition any (_ : list byte) := true.
Definition rq := mkRequest [Byte.x41] [].
Definition zero := mkPolicy 0 0 0 0 0.
Definition c0 : Core := match New zero with Ok c => c | Err _ => mkCore true 0 (mkSnapshot StateFailed [] "" 0 None 0) None None None true None [] [] true end.

Inductive move := Call (k : call) | Step (i : nat) (ev : event).
Definition go (s : option system) (m : move) : option system :=
  match s, m with
  | Some s, Call k => Some (enter any s k)
  | Some s, Step i ev => step s i ev
  | None, _ => None
  end.
Definition run (ms : list move) : option system := foldl go (Some (mkSystem c0 [])) ms.

Lemma run_reachable_from ms : forall s s', reachable any s -> foldl go (Some s) ms = Some s' -> reachable any s'.
Proof.
  induction ms as [|m ms IH]; intros s s' Hr H; [by injection H as <-|]. cbn [foldl] in H.
  destruct m as [k|i ev]; cbn [go] in H.
  - eapply IH; [|exact H]. by constructor.
  - destruct (step s i ev) as [s1|] eqn:E.
    + eapply IH; [|exact H]. by econstructor.
    + clear -H. induction ms as [|[k|i' ev'] ms IH']; cbn in H; [done|auto..].
Qed.

Lemma run_reachable ms s : run ms = Some s -> reachable any s.
Proof. apply run_reachable_from. by apply (reach_new any zero). Qed.

Definition connected := [Call (CallConnect rq); Step 0 (Connected (Ok (Some CarrierHTTP3WebTransport))); Step 0 (Continue 7)].
Definition closing := connected ++ [Call CallClose].
Definition closed := closing ++
  [Step 2 (Returned None); Step 1 (Returned (Some (Sentinel ErrCanceled))); Step 1 (Continue 0); Step 1 (Returned None); Step 1 (Continue 0);
   Step 2 (Continue 0); Step 2 (Continue 0)].

Definition s_of ms := default (mkSystem c0 []) (run ms).

Lemma s_of_reachable ms : (if run ms then true else false) = true -> reachable any (s_of ms).
Proof. unfold s_of. destruct (run ms) eqn:E; [|done]. intros _. by apply (run_reachable ms). Qed.

Lemma client_core_releases_witness : reachable any (s_of closed) /\ is_Some (co_finished (sy_core (s_of closed))) /\
  is_closed (sy_core (s_of closed)) 0.
Proof.
  assert (Hr : reachable any (s_of closed)) by (apply s_of_reachable; vm_compute; reflexivity).
  assert (Hf : is_Some (co_finished (sy_core (s_of closed)))) by (exists None; vm_compute; reflexivity).
  split; [exact Hr|]. split; [exact Hf|]. apply (client_core_releases any _ Hr); [exact Hf|]. vm_compute. lia.
Defined.

Lemma client_core_state_witness : reachable any (s_of connected) /\ co_closed (sy_core (s_of connected)) = false /\
  exists r, co_runtime (sy_core (s_of connected)) = Some r.
Proof.
  assert (Hr : reachable any (s_of connected)) by (apply s_of_reachable; vm_compute; reflexivity).
  split; [exact Hr|]. split; [vm_compute; reflexivity|]. pose proof (client_core_state any _ Hr ltac:(vm_compute; reflexivity)) as H. vm_compute in H.
  destruct H as (r & H & _). by exists r.
Defined.

Lemma shutdown_terminates_witness : reachable any (s_of closing) /\ co_closing (sy_core (s_of closing)) = true /\
  nsteps moves 7 (s_of closing) (s_of closed) /\ (7 <= total_work (sy_threads (s_of closing)))%nat.
Proof.
  assert (Hr : reachable any (s_of closing)) by (apply s_of_reachable; vm_compute; reflexivity).
  assert (Hc : co_closing (sy_core (s_of closing)) = true) by (vm_compute; reflexivity).
  assert (Hn : nsteps moves 7 (s_of closing) (s_of closed)).
  { eapply nsteps_l; [exists 2%nat, (Returned None); vm_compute; reflexivity|].
    eapply nsteps_l; [exists 1%nat, (Returned (Some (Sentinel ErrCanceled))); vm_compute; reflexivity|].
    eapply nsteps_l; [exists 1%nat, (Continue 0); vm_compute; reflexivity|].
    eapply nsteps_l; [exists 1%nat, (Returned None); vm_compute; reflexivity|].
    eapply nsteps_l; [exists 1%nat, (Continue 0); vm_compute; reflexivity|].
    eapply nsteps_l; [exists 2%nat, (Continue 0); vm_compute; reflexivity|].
    eapply nsteps_l; [exists 2%nat, (Continue 0); vm_compute; reflexivity|]. apply nsteps_O. }
  split; [exact Hr|]. split; [vm_compute; reflexivity|]. split; [exact Hn|]. apply (shutdown_terminates any _ _ _ Hr Hc Hn).
Defined.

Lemma reconnectBackoff_exponential_witness :
  reconnectBackoff 6 defaultReconnectPolicy = 8000 * millisecond /\
  reconnectBackoff 6 defaultReconnectPolicy = Z.min (8000 * millisecond) (250 * millisecond * 2 ^ 5).
Proof. split; [vm_compute; reflexivity|]. apply (reconnectBackoff_exponential defaultReconnectPolicy 6 0); vm_compute; congruence. Defined.

(** A session can end between the probe's [WaitReturned] check and the section
    that publishes [StateConnected]: its monitor leaves it to [NetworkChanged],
    and the client then reports connected with no session and no monitor. *)
Definition lost := connected ++
  [Call (CallNetworkChanged [Byte.x42]); Step 2 (Returned None); Step 2 (Continue 0);
   Step 1 (Returned (Some (Sentinel ErrSessionEnded))); Step 1 (Continue 0); Step 1 (Continue 0); Step 2 (Continue 0)].

Example connected_without_session : exists s, run lost = Some s /\ sn_state (co_snapshot (sy_core s)) = StateConnected /\
  forallb ended (sy_threads s) = true /\ WaitReturned (sy_core s) 0 = true /\ co_runtime (sy_core s) = Some 0%nat.
Proof. eexists. vm_compute. repeat split; reflexivity. Qed.
End ClientExample.
