(* ===== verification/Resumable.v ===== *)
(** * The resumable stream (internal/continuity/stream.go)

    One logical byte stream carried by a sequence of physical streams.  Every
    critical section of the Go code (the code between two operations on
    [s.mu], the journal's lock or a physical stream) is a function of the
    stream's state; [step] composes them the way the methods do, with one
    program counter for the writer ([writeMu]: Write and CloseWrite), the
    reader ([readMu]), the replacer ([replaceMu]: Replace and DetachPhysical),
    and any number of concurrent [Ack] calls, so that every interleaving of
    the goroutines is an execution.

    A physical stream is an object outside the repository, known by a handle.
    Its ghost record [conn] says where in the logical stream it starts and
    which bytes it accepted or delivered; a physical write accepts as many
    bytes as it reports (the contract of io.Writer).  [s.notify] only wakes
    goroutines up: waiting is a step that is enabled when the stream has a
    physical stream, is closed or its context is done. *)
From stdpp Require Import prelude gmap list.
From S2P Require Import Prelude Cell Journal.

Definition replayCopyBufferSize : Z := 32 * 1024.

Record ResumeState := mkResumeState { PeerReceiveOffset : Z; ReceiveOffset : Z }.

(** [rs_attempt]: the channel [writeAttemptDone], known by a number. *)
Record ResumableStream := mkRS {
  rs_journal : Journal;
  rs_physical : option Z;
  rs_transmitted : Z;
  rs_receive : Z;
  rs_notified : Z;
  rs_localFIN : bool;
  rs_finTransmitted : bool;
  rs_discard : Z;
  rs_attempt_end : Z;
  rs_attempt : option nat;
  rs_pending : Z;
  rs_closed : bool
}.

(** The configuration: [cf_context]/[cf_initial] are [None] when nil. *)
Record ResumableStreamConfig := mkRSConfig {
  cf_context : option unit; cf_initial : option Z; cf_journal : Z; cf_ack_every : Z;
  cf_has_receive : bool
}.

Definition NewResumableStream (c : ResumableStreamConfig) : res ResumableStream :=
  match cf_context c, cf_initial c with
  | Some _, Some initial =>
      if (cf_journal c <=? 0) || (MaxJournalCapacity <? cf_journal c)
         || (negb (cf_ack_every c =? 0)
             && (negb (cf_has_receive c) || (cf_journal c <? cf_ack_every c)))
      then Err ErrResumableConfig
      else
        match NewJournal (cf_journal c) with
        | Err e => Err (Join [Sentinel ErrResumableConfig; e])
        | Ok journal => Ok (mkRS journal (Some initial) 0 0 0 false false 0 0 None 0 false)
        end
  | _, _ => Err ErrResumableConfig
  end.

(** ** Critical sections *)

Section Sections.
(** The configured error classifiers and acknowledgement interval. *)
Variables (recoverableRead recoverableWrite : error -> bool) (ackEvery : Z).

(** One iteration of the loop of [waitPhysical]: [None] blocks. *)
Definition waitPhysical (s : ResumableStream) (ctx_err : option error) : option (res Z) :=
  if rs_closed s then Some (Err ErrResumableClosed)
  else match rs_physical s with
       | Some p => Some (Ok p)
       | None => match ctx_err with Some e => Some (Err e) | None => None end
       end.

Definition writtenForRange (start end_ transmitted : Z) : Z :=
  if transmitted <=? start then 0
  else if end_ <=? transmitted then end_ - start
  else transmitted - start.

(** Write, lines 111-120: may this call proceed? *)
Definition write_check (s : ResumableStream) : option error :=
  if rs_closed s then Some (Sentinel ErrResumableClosed)
  else if rs_localFIN s then Some (Sentinel ErrClosedPipe)
  else None.

(** Write, lines 130-136: what to do with the offset [waitPhysical] returned. *)
Inductive plan := PlanDone | PlanGap | PlanSend (position : Z).
Definition write_plan (start end_ transmitted : Z) : plan :=
  if end_ <=? transmitted then PlanDone
  else if transmitted <? start then PlanGap
  else PlanSend (transmitted - start).

(** Write, lines 137-148: announce the attempt, unless the stream changed. *)
Inductive attempt := AttemptClosed | AttemptRetry | Attempt (s : ResumableStream).
Definition write_attempt (s : ResumableStream) (p transmitted end_ : Z) (chan : nat) : attempt :=
  if rs_closed s then AttemptClosed
  else if negb (bool_decide (rs_physical s = Some p)) || negb (rs_transmitted s =? transmitted)
  then AttemptRetry
  else Attempt (mkRS (rs_journal s) (rs_physical s) (rs_transmitted s) (rs_receive s)
         (rs_notified s) (rs_localFIN s) (rs_finTransmitted s) (rs_discard s) end_ (Some chan)
         (rs_pending s) (rs_closed s)).

(** Write, lines 150-153 (and Read, 282-285): a count out of range. *)
Definition sanitize (room n : Z) (err : option error) : Z * option error :=
  if (n <? 0) || (room <? n) then (0, Some (Sentinel ErrResumableState)) else (n, err).

Record commit := mkCommit {
  cm_stream : ResumableStream; cm_n : Z; cm_err : option error; cm_deferred : Z;
  cm_chan : option nat; cm_invalid : bool; cm_transmitted : Z; cm_closed : bool
}.

(** Write, lines 154-181: account for [n] written bytes of [rest]. *)
Definition write_commit (s : ResumableStream) (p transmitted n rest : Z) (err : option error) : commit :=
  let current := negb (rs_closed s)
    && (bool_decide (rs_physical s = Some p) || bool_decide (rs_physical s = None))
    && (rs_transmitted s =? transmitted) in
  let over := u64 (MaxSequence - rs_transmitted s) <? n in
  let err := if current && over then Some (Sentinel ErrResumableState) else err in
  let n := if current && over then 0 else n in
  let t := if current && negb over then rs_transmitted s + n else rs_transmitted s in
  let attempted := negb (rs_attempt_end s =? 0) in
  let asked := attempted && negb (rs_pending s =? 0) in
  mkCommit
    (mkRS (rs_journal s) (rs_physical s) t (rs_receive s) (rs_notified s) (rs_localFIN s)
       (rs_finTransmitted s) (rs_discard s)
       (if attempted then 0 else rs_attempt_end s)
       (if attempted then None else rs_attempt s)
       (if asked then 0 else rs_pending s) (rs_closed s))
    n err
    (if asked && (rs_pending s <=? t) then rs_pending s else 0)
    (if attempted then rs_attempt s else None)
    (asked && negb (rs_pending s <=? t)
       && (match err with Some _ => true | None => false end || negb (n =? rest)))
    t (rs_closed s).

(** Write, lines 193-211: return ([inl]) or mark the physical stream
    unavailable with an error ([inr (Some e)]) or just go round the loop. *)
Definition write_next (c : commit) (start end_ : Z) : (Z * option error) + option error :=
  let written := writtenForRange start end_ (cm_transmitted c) in
  if cm_invalid c then inl (written, Some (Sentinel ErrResumableState))
  else if cm_closed c then inl (written, Some (Sentinel ErrResumableClosed))
  else if end_ <=? cm_transmitted c then inl (end_ - start, None)
  else
    match cm_err c with
    | None => if cm_n c =? 0 then
                let e := Sentinel ErrNoProgress in
                if recoverableWrite e then inr (Some e) else inl (written, Some e)
              else inr None
    | Some e => if recoverableWrite e then inr (Some e) else inl (written, Some e)
    end.

(** markUnavailable: [true] when the failed stream is dropped (and closed). *)
Definition markUnavailable (s : ResumableStream) (failed : Z) : ResumableStream * bool :=
  if rs_closed s || negb (bool_decide (rs_physical s = Some failed)) then (s, false)
  else (mkRS (rs_journal s) None (rs_transmitted s) (rs_receive s) (rs_notified s)
          (rs_localFIN s) (if rs_localFIN s then false else rs_finTransmitted s)
          (rs_discard s) (rs_attempt_end s) (rs_attempt s) (rs_pending s) (rs_closed s), true).

(** ackJournal, under [ackMu]. *)
Definition ackJournal (j : Journal) (offset : Z) (deferred : bool) : Journal * res unit :=
  if deferred && (offset <=? BaseOffset (State j)) then (j, Ok tt)
  else Journal.Ack j offset.

Definition set_journal (s : ResumableStream) (j : Journal) : ResumableStream :=
  mkRS j (rs_physical s) (rs_transmitted s) (rs_receive s) (rs_notified s) (rs_localFIN s)
    (rs_finTransmitted s) (rs_discard s) (rs_attempt_end s) (rs_attempt s) (rs_pending s) (rs_closed s).

(** CloseWrite, lines 223-235: [inr s] continues. *)
Definition close_write_begin (s : ResumableStream) : option error + ResumableStream :=
  if rs_closed s then inl (Some (Sentinel ErrResumableClosed))
  else if rs_localFIN s && rs_finTransmitted s then inl None
  else inr (mkRS (rs_journal s) (rs_physical s) (rs_transmitted s) (rs_receive s) (rs_notified s)
         true (rs_finTransmitted s) (rs_discard s) (rs_attempt_end s) (rs_attempt s)
         (rs_pending s) (rs_closed s)).

(** CloseWrite, lines 258-262. *)
Definition close_write_sent (s : ResumableStream) (p : Z) : ResumableStream :=
  if bool_decide (rs_physical s = Some p)
  then mkRS (rs_journal s) (rs_physical s) (rs_transmitted s) (rs_receive s) (rs_notified s)
         (rs_localFIN s) true (rs_discard s) (rs_attempt_end s) (rs_attempt s) (rs_pending s) (rs_closed s)
  else s.

(** Read, lines 287-315: account for [n] bytes read from [p]; on success the
    number of bytes to discard from the front, and the offset to notify. *)
Definition read_commit (s : ResumableStream) (p n : Z)
    : ResumableStream * res (Z * option Z) :=
  if rs_closed s then (s, Err ErrResumableClosed)
  else if negb (bool_decide (rs_physical s = Some p)) then (s, Err ErrResumableState)
  else
    let discarded := Z.min n (rs_discard s) in
    let discard := rs_discard s - discarded in
    let n := n - discarded in
    if u64 (MaxSequence - rs_receive s) <? n then
      (mkRS (rs_journal s) (rs_physical s) (rs_transmitted s) (rs_receive s) (rs_notified s)
         (rs_localFIN s) (rs_finTransmitted s) discard (rs_attempt_end s) (rs_attempt s)
         (rs_pending s) (rs_closed s), Err ErrResumableState)
    else
      let receive := rs_receive s + n in
      let notify := negb (ackEvery =? 0) && (ackEvery <=? u64 (receive - rs_notified s)) in
      (mkRS (rs_journal s) (rs_physical s) (rs_transmitted s) receive
         (if notify then receive else rs_notified s)
         (rs_localFIN s) (rs_finTransmitted s) discard (rs_attempt_end s) (rs_attempt s)
         (rs_pending s) (rs_closed s), Ok (discarded, if notify then Some receive else None)).

(** Replace, lines 357-369. *)
Definition replace_check (s : ResumableStream) (st : ResumeState) : option error :=
  if rs_closed s then Some (Sentinel ErrResumableClosed)
  else if negb (bool_decide (rs_physical s = None)) || (rs_receive s <? ReceiveOffset st)
          || (rs_transmitted s <? PeerReceiveOffset st)
  then Some (Sentinel ErrResumableState)
  else None.

(** writeAll: [outs] are the results of the calls of [destination.Write];
    the bytes accepted and the error ([None]: a call has not returned). *)
Fixpoint writeAll (payload : list byte) (outs : list (Z * option error))
    : option (list byte * option error) :=
  match payload with
  | [] => Some ([], None)
  | _ =>
      match outs with
      | [] => None
      | (n, err) :: outs =>
          if (n <? 0) || (len payload <? n) then Some ([], Some (Sentinel ErrResumableState))
          else
            let sent := take (Z.to_nat n) payload in
            match err with
            | Some e => Some (sent, Some e)
            | None =>
                if n =? 0 then Some (sent, Some (Sentinel ErrNoProgress))
                else match writeAll (drop (Z.to_nat n) payload) outs with
                     | Some (more, e) => Some (sent ++ more, e)
                     | None => None
                     end
            end
      end
  end.

(** Replace, lines 402-414: publish the replacement. *)
Definition replace_publish (s : ResumableStream) (next end_ : Z) (localFIN : bool) (st : ResumeState)
    : res ResumableStream :=
  if rs_closed s || negb (bool_decide (rs_physical s = None)) || (rs_receive s <? ReceiveOffset st)
  then Err ErrResumableClosed
  else Ok (mkRS (rs_journal s) (Some next) end_ (rs_receive s) (rs_notified s) (rs_localFIN s)
         localFIN (rs_receive s - ReceiveOffset st) (rs_attempt_end s) (rs_attempt s)
         (rs_pending s) (rs_closed s)).

(** DetachPhysical, lines 426-437. *)
Definition detach (s : ResumableStream) : ResumableStream :=
  mkRS (rs_journal s) None (rs_transmitted s) (rs_receive s) (rs_notified s) (rs_localFIN s)
    (rs_finTransmitted s) (rs_discard s) (rs_attempt_end s) (rs_attempt s) (rs_pending s) (rs_closed s).

(** Ack, lines 454-470: [inr true]: acknowledge now, [inr false]: deferred. *)
Definition ack_begin (s : ResumableStream) (offset : Z) : ResumableStream * (error + bool) :=
  if rs_closed s then (s, inl (Sentinel ErrResumableClosed))
  else if rs_transmitted s <? offset then
    if negb (rs_attempt_end s =? 0) && (offset <=? rs_attempt_end s) then
      (mkRS (rs_journal s) (rs_physical s) (rs_transmitted s) (rs_receive s) (rs_notified s)
         (rs_localFIN s) (rs_finTransmitted s) (rs_discard s) (rs_attempt_end s) (rs_attempt s)
         (if rs_pending s <? offset then offset else rs_pending s) (rs_closed s), inr false)
    else (s, inl (Sentinel ErrResumableState))
  else (s, inr true).

(** Close, lines 502-507. *)
Definition close_begin (s : ResumableStream) : ResumableStream :=
  mkRS (rs_journal s) None (rs_transmitted s) (rs_receive s) (rs_notified s) (rs_localFIN s)
    (rs_finTransmitted s) (rs_discard s) (rs_attempt_end s) (rs_attempt s) (rs_pending s) true.

(** Offsets: send base, send end, receive offset. *)
Definition Offsets (s : ResumableStream) : Z * Z * Z :=
  (BaseOffset (State (rs_journal s)), EndOffset (State (rs_journal s)), rs_receive s).
End Sections.

(** ** The goroutines *)

(** A physical stream, as seen from outside: the logical offset of its first
    outgoing byte, the bytes it accepted, whether it was half-closed, the
    logical offset of its first incoming byte, the bytes read from it. *)
Record conn := mkConn {
  c_start : Z; c_sent : list byte; c_fin : bool; c_recv : Z; c_consumed : Z
}.

Definition sent_more (c : conn) (bs : list byte) : conn :=
  mkConn (c_start c) (c_sent c ++ bs) (c_fin c) (c_recv c) (c_consumed c).
Definition sent_fin (c : conn) : conn :=
  mkConn (c_start c) (c_sent c) true (c_recv c) (c_consumed c).
Definition read_more (c : conn) (n : Z) : conn :=
  mkConn (c_start c) (c_sent c) (c_fin c) (c_recv c) (c_consumed c + n).

(** A Write in progress: its payload and the range it was given. *)
Record job := mkJob { jb_payload : list byte; jb_start : Z; jb_end : Z }.

(** Where the goroutine that holds [writeMu] is. *)
Inductive writer :=
| WIdle
| WAppend (payload : list byte)
| WWait (jb : job)
| WTry (jb : job) (p t : Z)
| WSend (jb : job) (p t : Z) (chan : nat)
| WCommit (jb : job) (p t n : Z) (err : option error) (chan : nat)
| WAck (jb : job) (p : Z) (c : commit)
| WNext (jb : job) (p : Z) (c : commit)
| WMark (jb : job) (p : Z) (e : error)
| KWait
| KCheck (p : Z)
| KSend (p : Z)
| KDone (p : Z)
| KMark (p : Z) (e : error).

(** Where the goroutine that holds [readMu] is; [RMarks es ret]: the errors
    still to report through markUnavailable, and whether Read then returns. *)
Inductive reader :=
| RIdle
| RWait (room : Z)
| RRead (room p : Z)
| RCommit (room p : Z) (bs : list byte) (err : option error)
| RMarks (room p : Z) (es : list error) (ret : bool).

(** Where the goroutine that holds [replaceMu] is. *)
Inductive replacer :=
| PIdle
| PAck (next : Z) (st : ResumeState)
| PState (next : Z) (st : ResumeState)
| PReplay (next : Z) (st : ResumeState) (end_ room offset : Z)
| PWrite (next : Z) (st : ResumeState) (end_ room : Z) (bs : list byte) (following : Z)
| PFin (next : Z) (st : ResumeState) (end_ : Z)
| PFinSend (next : Z) (st : ResumeState) (end_ : Z)
| PPublish (next : Z) (st : ResumeState) (end_ : Z) (localFIN : bool)
| PDetach (chan : option nat).

(** [sy_acks]: the Ack calls between their two critical sections;
    [sy_chans]: the closed [writeAttemptDone] channels and the next fresh one;
    [sy_history], [sy_delivered]: what the caller wrote and read (ghost). *)
Record system := mkSys {
  sy_stream : ResumableStream;
  sy_ctx : option error;
  sy_writer : writer;
  sy_reader : reader;
  sy_replacer : replacer;
  sy_acks : list Z;
  sy_done : gset nat;
  sy_conns : gmap Z conn;
  sy_history : list byte;
  sy_delivered : list byte
}.

Section Step.
Variables (recoverableRead recoverableWrite : error -> bool) (ackEvery : Z).
(** The peer's byte stream: a physical stream that starts at the logical
    offset [c_recv] delivers the bytes of [peer] from there on. *)
Variable peer : list byte.

(** After a read was accounted for (Read, lines 316-330): the errors to mark
    the physical stream unavailable with, and whether Read returns. *)
Definition read_after (n : Z) (notify_err read_err : option error) : list error * bool :=
  let recover := match read_err with
                 | Some e => if recoverableRead e then [e] else []
                 | None => []
                 end in
  (match notify_err with Some e => [e] | None => [] end ++ recover,
   negb (n =? 0) || match read_err with Some e => negb (recoverableRead e) | None => false end).

Inductive writer_step : system -> system -> Prop :=
| st_write s ctx r p a d cs h dl payload :
    payload <> [] -> write_check s = None ->
    writer_step (mkSys s ctx WIdle r p a d cs h dl) (mkSys s ctx (WAppend payload) r p a d cs h dl)
| st_append s ctx r p a d cs h dl payload j' start end_ :
    Append (rs_journal s) payload = (j', Ok (start, end_)) ->
    writer_step (mkSys s ctx (WAppend payload) r p a d cs h dl)
         (mkSys (set_journal s j') ctx (WWait (mkJob payload start end_)) r p a d cs (h ++ payload) dl)
| st_append_err s ctx r p a d cs h dl payload j' e :
    Append (rs_journal s) payload = (j', Err e) ->
    writer_step (mkSys s ctx (WAppend payload) r p a d cs h dl)
         (mkSys (set_journal s j') ctx WIdle r p a d cs h dl)
| st_write_wait_err s ctx r p a d cs h dl jb e :
    waitPhysical s ctx = Some (Err e) ->
    writer_step (mkSys s ctx (WWait jb) r p a d cs h dl) (mkSys s ctx WIdle r p a d cs h dl)
| st_write_wait s ctx r p a d cs h dl jb q :
    waitPhysical s ctx = Some (Ok q) ->
    writer_step (mkSys s ctx (WWait jb) r p a d cs h dl)
         (mkSys s ctx match write_plan (jb_start jb) (jb_end jb) (rs_transmitted s) with
                      | PlanSend _ => WTry jb q (rs_transmitted s)
                      | _ => WIdle
                      end r p a d cs h dl)
| st_write_closed s ctx r p a d cs h dl jb q t chan :
    write_attempt s q t (jb_end jb) chan = AttemptClosed ->
    writer_step (mkSys s ctx (WTry jb q t) r p a d cs h dl) (mkSys s ctx WIdle r p a d cs h dl)
| st_write_retry s ctx r p a d cs h dl jb q t chan :
    write_attempt s q t (jb_end jb) chan = AttemptRetry ->
    writer_step (mkSys s ctx (WTry jb q t) r p a d cs h dl) (mkSys s ctx (WWait jb) r p a d cs h dl)
| st_write_attempt s ctx r p a d cs h dl jb q t chan s' :
    chan ∉ d -> write_attempt s q t (jb_end jb) chan = Attempt s' ->
    writer_step (mkSys s ctx (WTry jb q t) r p a d cs h dl) (mkSys s' ctx (WSend jb q t chan) r p a d cs h dl)
| st_write_send s ctx r p a d cs h dl jb q t chan n err n' err' c :
    cs !! q = Some c ->
    let rest := drop (Z.to_nat (t - jb_start jb)) (jb_payload jb) in
    sanitize (len rest) n err = (n', err') ->
    writer_step (mkSys s ctx (WSend jb q t chan) r p a d cs h dl)
         (mkSys s ctx (WCommit jb q t n' err' chan) r p a d
            (<[q := sent_more c (take (Z.to_nat n') rest)]> cs) h dl)
| st_write_commit s ctx r p a d cs h dl jb q t n err chan :
    let rest := len (jb_payload jb) - (t - jb_start jb) in
    let c := write_commit s q t n rest err in
    writer_step (mkSys s ctx (WCommit jb q t n err chan) r p a d cs h dl)
         (mkSys (cm_stream c) ctx (WAck jb q c) r p a d cs h dl)
| st_write_ack s ctx r p a d cs h dl jb q c j' o :
    (if cm_deferred c =? 0 then (rs_journal s, Ok tt)
     else ackJournal (rs_journal s) (cm_deferred c) true) = (j', o) ->
    let d' := match cm_chan c with Some ch => {[ch]} ∪ d | None => d end in
    writer_step (mkSys s ctx (WAck jb q c) r p a d cs h dl)
         (mkSys (set_journal s j') ctx
            match o with Err _ => WIdle | Ok _ => WNext jb q c end r p a d' cs h dl)
| st_write_next s ctx r p a d cs h dl jb q c :
    writer_step (mkSys s ctx (WNext jb q c) r p a d cs h dl)
         (mkSys s ctx
            match write_next recoverableWrite c (jb_start jb) (jb_end jb) with
            | inl _ => WIdle
            | inr None => WWait jb
            | inr (Some e) => WMark jb q e
            end r p a d cs h dl)
| st_write_mark s ctx r p a d cs h dl jb q e :
    writer_step (mkSys s ctx (WMark jb q e) r p a d cs h dl)
         (mkSys (markUnavailable s q).1 ctx (WWait jb) r p a d cs h dl)
| st_close_write s ctx r p a d cs h dl s' :
    close_write_begin s = inr s' ->
    writer_step (mkSys s ctx WIdle r p a d cs h dl) (mkSys s' ctx KWait r p a d cs h dl)
| st_fin_wait_err s ctx r p a d cs h dl e :
    waitPhysical s ctx = Some (Err e) ->
    writer_step (mkSys s ctx KWait r p a d cs h dl) (mkSys s ctx WIdle r p a d cs h dl)
| st_fin_wait s ctx r p a d cs h dl q :
    waitPhysical s ctx = Some (Ok q) ->
    writer_step (mkSys s ctx KWait r p a d cs h dl)
         (mkSys s ctx (if rs_transmitted s <? EndOffset (State (rs_journal s)) then WIdle
                       else KCheck q) r p a d cs h dl)
| st_fin_check s ctx r p a d cs h dl q (half_closer : bool) :
    writer_step (mkSys s ctx (KCheck q) r p a d cs h dl)
         (mkSys s ctx (if rs_finTransmitted s || negb half_closer then WIdle else KSend q)
            r p a d cs h dl)
| st_fin_send s ctx r p a d cs h dl q c :
    cs !! q = Some c ->
    writer_step (mkSys s ctx (KSend q) r p a d cs h dl)
         (mkSys s ctx (KDone q) r p a d (<[q := sent_fin c]> cs) h dl)
| st_fin_send_err s ctx r p a d cs h dl q e :
    writer_step (mkSys s ctx (KSend q) r p a d cs h dl) (mkSys s ctx (KMark q e) r p a d cs h dl)
| st_fin_done s ctx r p a d cs h dl q :
    writer_step (mkSys s ctx (KDone q) r p a d cs h dl)
         (mkSys (close_write_sent s q) ctx WIdle r p a d cs h dl)
| st_fin_mark s ctx r p a d cs h dl q e :
    writer_step (mkSys s ctx (KMark q e) r p a d cs h dl)
         (mkSys (markUnavailable s q).1 ctx KWait r p a d cs h dl).

Inductive reader_step : system -> system -> Prop :=
| st_read s ctx w p a d cs h dl room :
    0 < room ->
    reader_step (mkSys s ctx w RIdle p a d cs h dl) (mkSys s ctx w (RWait room) p a d cs h dl)
| st_read_wait_err s ctx w p a d cs h dl room e :
    waitPhysical s ctx = Some (Err e) ->
    reader_step (mkSys s ctx w (RWait room) p a d cs h dl) (mkSys s ctx w RIdle p a d cs h dl)
| st_read_wait s ctx w p a d cs h dl room q :
    waitPhysical s ctx = Some (Ok q) ->
    reader_step (mkSys s ctx w (RWait room) p a d cs h dl) (mkSys s ctx w (RRead room q) p a d cs h dl)
| st_read_data s ctx w p a d cs h dl room q c bs err :
    cs !! q = Some c -> 0 < len bs <= room -> segment peer (c_recv c + c_consumed c) bs ->
    reader_step (mkSys s ctx w (RRead room q) p a d cs h dl)
         (mkSys s ctx w (RCommit room q bs err) p a d (<[q := read_more c (len bs)]> cs) h dl)
| st_read_none s ctx w p a d cs h dl room q n err err' :
    sanitize room n err = (0, err') ->
    let e := default (Sentinel ErrNoProgress) err' in
    reader_step (mkSys s ctx w (RRead room q) p a d cs h dl)
         (mkSys s ctx w (if recoverableRead e then RMarks room q [e] false else RIdle)
            p a d cs h dl)
| st_read_commit s ctx w p a d cs h dl room q bs err notify_err s' n' discarded notify es ret :
    read_commit ackEvery s q (len bs) = (s', Ok (discarded, notify)) ->
    n' = len bs - discarded -> (notify = None -> notify_err = None) ->
    read_after n' notify_err err = (es, ret) ->
    reader_step (mkSys s ctx w (RCommit room q bs err) p a d cs h dl)
         (mkSys s' ctx w (RMarks room q es ret) p a d cs h (dl ++ drop (Z.to_nat discarded) bs))
| st_read_commit_err s ctx w p a d cs h dl room q bs err s' e :
    read_commit ackEvery s q (len bs) = (s', Err e) ->
    reader_step (mkSys s ctx w (RCommit room q bs err) p a d cs h dl)
         (mkSys s' ctx w RIdle p a d cs h dl)
| st_read_mark s ctx w p a d cs h dl room q e es ret :
    reader_step (mkSys s ctx w (RMarks room q (e :: es) ret) p a d cs h dl)
         (mkSys (markUnavailable s q).1 ctx w (RMarks room q es ret) p a d cs h dl)
| st_read_return s ctx w p a d cs h dl room q ret :
    reader_step (mkSys s ctx w (RMarks room q [] ret) p a d cs h dl)
         (mkSys s ctx w (if ret then RIdle else RWait room) p a d cs h dl).

Inductive replacer_step : system -> system -> Prop :=
| st_replace s ctx w r a d cs h dl next st :
    cs !! next = None -> 0 <= PeerReceiveOffset st -> 0 <= ReceiveOffset st ->
    replace_check s st = None ->
    replacer_step (mkSys s ctx w r PIdle a d cs h dl)
         (mkSys s ctx w r (PAck next st) a d
            (<[next := mkConn (PeerReceiveOffset st) [] false (ReceiveOffset st) 0]> cs) h dl)
| st_replace_ack s ctx w r a d cs h dl next st j' o :
    ackJournal (rs_journal s) (PeerReceiveOffset st) false = (j', o) ->
    replacer_step (mkSys s ctx w r (PAck next st) a d cs h dl)
         (mkSys (set_journal s j') ctx w r
            match o with Ok _ => PState next st | Err _ => PIdle end a d cs h dl)
| st_replace_state s ctx w r a d cs h dl next st :
    let js := State (rs_journal s) in
    replacer_step (mkSys s ctx w r (PState next st) a d cs h dl)
         (mkSys s ctx w r (PReplay next st (EndOffset js)
            (Z.min replayCopyBufferSize (Z.max 1 (BufferedBytes js))) (PeerReceiveOffset st))
            a d cs h dl)
| st_replace_replay s ctx w r a d cs h dl next st e room o :
    o < e ->
    replacer_step (mkSys s ctx w r (PReplay next st e room o) a d cs h dl)
         (mkSys s ctx w r
            match Replay (rs_journal s) o room with
            | Ok (bs, o') => if len bs =? 0 then PIdle else PWrite next st e room bs o'
            | Err _ => PIdle
            end a d cs h dl)
| st_replace_replayed s ctx w r a d cs h dl next st e room o :
    e <= o ->
    replacer_step (mkSys s ctx w r (PReplay next st e room o) a d cs h dl)
         (mkSys s ctx w r (PFin next st e) a d cs h dl)
| st_replace_write s ctx w r a d cs h dl next st e room bs o outs sent err c :
    cs !! next = Some c -> writeAll bs outs = Some (sent, err) ->
    replacer_step (mkSys s ctx w r (PWrite next st e room bs o) a d cs h dl)
         (mkSys s ctx w r
            match err with None => PReplay next st e room o | Some _ => PIdle end a d
            (<[next := sent_more c sent]> cs) h dl)
| st_replace_fin s ctx w r a d cs h dl next st e (half_closer : bool) :
    replacer_step (mkSys s ctx w r (PFin next st e) a d cs h dl)
         (mkSys s ctx w r
            (if rs_localFIN s && half_closer then PFinSend next st e
             else PPublish next st e (rs_localFIN s)) a d cs h dl)
| st_replace_fin_send s ctx w r a d cs h dl next st e c :
    cs !! next = Some c ->
    replacer_step (mkSys s ctx w r (PFinSend next st e) a d cs h dl)
         (mkSys s ctx w r (PPublish next st e true) a d (<[next := sent_fin c]> cs) h dl)
| st_replace_fin_err s ctx w r a d cs h dl next st e :
    replacer_step (mkSys s ctx w r (PFinSend next st e) a d cs h dl)
         (mkSys s ctx w r PIdle a d cs h dl)
| st_replace_publish s ctx w r a d cs h dl next st e fin :
    replacer_step (mkSys s ctx w r (PPublish next st e fin) a d cs h dl)
         (mkSys match replace_publish s next e fin st with Ok s' => s' | Err _ => s end
            ctx w r PIdle a d cs h dl)
| st_detach s ctx w r a d cs h dl :
    rs_closed s = false ->
    replacer_step (mkSys s ctx w r PIdle a d cs h dl)
         (mkSys (detach s) ctx w r (PDetach (rs_attempt s)) a d cs h dl)
| st_detached s ctx w r a d cs h dl chan :
    match chan with Some ch => ch ∈ d | None => True end ->
    replacer_step (mkSys s ctx w r (PDetach chan) a d cs h dl)
         (mkSys s ctx w r PIdle a d cs h dl).

(** Ack, Close and the end of the context. *)
Inductive other_step : system -> system -> Prop :=
| st_ack s ctx w r p a d cs h dl offset s' :
    0 <= offset -> ack_begin s offset = (s', inr true) ->
    other_step (mkSys s ctx w r p a d cs h dl) (mkSys s' ctx w r p (offset :: a) d cs h dl)
| st_ack_deferred s ctx w r p a d cs h dl offset s' :
    0 <= offset -> ack_begin s offset = (s', inr false) ->
    other_step (mkSys s ctx w r p a d cs h dl) (mkSys s' ctx w r p a d cs h dl)
| st_ack_journal s ctx w r p a1 offset a2 d cs h dl j' o :
    ackJournal (rs_journal s) offset false = (j', o) ->
    other_step (mkSys s ctx w r p (a1 ++ offset :: a2) d cs h dl)
         (mkSys (set_journal s j') ctx w r p (a1 ++ a2) d cs h dl)
| st_close s ctx w r p a d cs h dl :
    rs_closed s = false ->
    other_step (mkSys s ctx w r p a d cs h dl) (mkSys (close_begin s) ctx w r p a d cs h dl)
| st_close_journal s ctx w r p a d cs h dl :
    rs_closed s = true ->
    other_step (mkSys s ctx w r p a d cs h dl)
         (mkSys (set_journal s (Journal.Close (rs_journal s))) ctx w r p a d cs h dl)
| st_context s w r p a d cs h dl e :
    other_step (mkSys s None w r p a d cs h dl) (mkSys s (Some e) w r p a d cs h dl).

Definition step (x y : system) : Prop :=
  writer_step x y \/ reader_step x y \/ replacer_step x y \/ other_step x y.

(** A stream just built over the physical stream [q]. *)
Definition start (s : ResumableStream) (q : Z) : system :=
  mkSys s None WIdle RIdle PIdle [] ∅ {[ q := mkConn 0 [] false 0 0 ]} [] [].

Inductive reachable (x0 : system) : system -> Prop :=
| reachable_refl : reachable x0 x0
| reachable_step x y : reachable x0 x -> step x y -> reachable x0 y.
End Step.
