(* ===== verification/ResumableInv.v ===== *)
(** * The invariant of the resumable stream

    What holds between the counters of the stream, its journal, the physical
    streams and the program counters of the goroutines, and that every step of
    the model of [Resumable] preserves it. *)
From stdpp Require Import prelude gmap list.
From S2P Require Import Prelude Cell Journal Resumable.

(** ** The invariant *)

(** The replay of Replace has not gone past the end of the journal it read.
    Nothing in Replace enforces it: see [replay_can_duplicate]. *)
Definition no_overshoot (x : system) : Prop :=
  match sy_replacer x with
  | PReplay _ _ e _ o => o <= e
  | PWrite _ _ e _ _ o => o <= e
  | _ => True
  end.

Definition job_of (w : writer) : option job :=
  match w with
  | WWait jb | WTry jb _ _ | WSend jb _ _ _ | WCommit jb _ _ _ _ _ | WAck jb _ _
  | WNext jb _ _ | WMark jb _ _ => Some jb
  | _ => None
  end.

(** The physical stream whose Write is running, or not yet accounted for. *)
Definition attempt_of (w : writer) : option nat :=
  match w with WSend _ _ _ ch | WCommit _ _ _ _ _ ch => Some ch | _ => None end.

(** The job once its first attempt has been announced. *)
Definition attempted (w : writer) : option job :=
  match w with
  | WSend jb _ _ _ | WCommit jb _ _ _ _ _ | WAck jb _ _ | WNext jb _ _ | WMark jb _ _ => Some jb
  | _ => None
  end.

Definition unaccounted (w : writer) (q : Z) : Z :=
  match w with WCommit _ q' _ n _ _ => if q' =? q then n else 0 | _ => 0 end.

Definition uncounted (r : reader) (q : Z) : Z :=
  match r with RCommit _ q' bs _ => if q' =? q then len bs else 0 | _ => 0 end.

Definition candidate (p : replacer) : option (Z * ResumeState) :=
  match p with
  | PAck next st | PState next st | PReplay next st _ _ _ | PWrite next st _ _ _ _
  | PFin next st _ | PFinSend next st _ | PPublish next st _ _ => Some (next, st)
  | _ => None
  end.

(** The journal end a replacement in progress works with. *)
Definition replay_end (p : replacer) : option Z :=
  match p with
  | PReplay _ _ e _ _ | PWrite _ _ e _ _ _ | PFin _ _ e | PFinSend _ _ e | PPublish _ _ e _ => Some e
  | _ => None
  end.

(** How far the replay has got on the candidate. *)
Definition replay_pos (p : replacer) : option Z :=
  match p with
  | PAck _ st | PState _ st => Some (PeerReceiveOffset st)
  | PReplay _ _ _ _ o => Some o
  | PWrite _ _ _ _ bs o => Some (o - len bs)
  | PFin _ _ e | PFinSend _ _ e | PPublish _ _ e _ => Some e
  | _ => None
  end.

Definition writer_touches (w : writer) (q : Z) : Prop :=
  match w with
  | WTry _ q' _ | WSend _ q' _ _ | WCommit _ q' _ _ _ _ | KCheck q' | KSend q' | KDone q' => q' = q
  | _ => False
  end.

Definition reader_touches (r : reader) (q : Z) : Prop :=
  match r with RRead _ q' | RCommit _ q' _ _ => q' = q | _ => False end.

(** The stream and its journal. *)
Record stream_inv (s : ResumableStream) (a : list Z) (h : list byte) : Prop := {
  si_holds : holds (rs_journal s) h;
  si_trans : j_base (rs_journal s) <= rs_transmitted s <= len h;
  si_acks : Forall (fun o => o <= rs_transmitted s) a;
  si_closed : rs_closed s = true -> rs_physical s = None
}.

(** What every physical stream has accepted. *)
Definition conn_inv (ctx : option error) (fin : bool) (h : list byte) (c : conn) : Prop :=
  segment h (c_start c) (c_sent c) /\
  (c_fin c = true -> fin = true /\ (ctx = None -> c_start c + len (c_sent c) = len h)).

(** The current physical stream is in step with the counters. *)
Definition physical_inv (s : ResumableStream) (w : writer) (r : reader) (cs : gmap Z conn) : Prop :=
  forall q, rs_physical s = Some q -> exists c, cs !! q = Some c /\
    c_start c + len (c_sent c) = rs_transmitted s + unaccounted w q /\
    c_recv c + c_consumed c + rs_discard s = rs_receive s + uncounted r q /\ 0 <= rs_discard s.

Definition job_inv (h : list byte) (jb : job) : Prop :=
  segment h (jb_start jb) (jb_payload jb) /\ jb_end jb = len h /\
  jb_end jb = jb_start jb + len (jb_payload jb) /\ jb_start jb < jb_end jb.

Definition writer_inv (s : ResumableStream) (w : writer) (cs : gmap Z conn) (h : list byte) : Prop :=
  (forall jb, job_of w = Some jb -> job_inv h jb /\ rs_localFIN s = false) /\
  match w with
  | WIdle | WWait _ | WMark _ _ _ => True
  | WAppend payload => payload <> [] /\ rs_localFIN s = false
  | WTry jb q t => jb_start jb <= t < jb_end jb /\ is_Some (cs !! q) 
  | WSend jb q t _ => jb_start jb <= t < jb_end jb /\
      (rs_physical s = Some q -> rs_transmitted s = t) /\ t <= rs_transmitted s /\
      exists c, cs !! q = Some c /\ c_start c + len (c_sent c) = t
  | WCommit jb q t n _ _ => jb_start jb <= t /\ 0 <= n /\ t + n <= jb_end jb /\
      (rs_physical s = Some q -> rs_transmitted s = t) /\ t <= rs_transmitted s /\
      exists c, cs !! q = Some c /\ c_start c + len (c_sent c) = t + n
  | WAck _ _ c => cm_deferred c <= rs_transmitted s
  | WNext _ _ _ => True
  | KWait | KMark _ _ => rs_localFIN s = true
  | KCheck q | KSend q | KDone q => rs_localFIN s = true /\
      exists c, cs !! q = Some c /\ c_start c + len (c_sent c) = len h
  end.

Definition replacer_inv (s : ResumableStream) (ctx : option error) (w : writer) (r : reader)
    (p : replacer) (cs : gmap Z conn) (h : list byte) : Prop :=
  (forall next st, candidate p = Some (next, st) ->
     rs_physical s = None /\ 0 <= PeerReceiveOffset st <= rs_transmitted s /\
     ~ writer_touches w next /\ ~ reader_touches r next /\
     exists c, cs !! next = Some c /\ c_start c = PeerReceiveOffset st /\
       c_recv c = ReceiveOffset st /\ c_consumed c = 0 /\
       (forall o, replay_pos p = Some o -> c_start c + len (c_sent c) = o) /\
       (c_fin c = true -> exists e, p = PPublish next st e true)) /\
  (forall e, replay_end p = Some e ->
     rs_transmitted s <= e <= len h /\
     (forall jb, attempted w = Some jb -> jb_end jb <= e) /\
     (e < len h -> ctx = None ->
        rs_localFIN s = false /\ (rs_closed s = true \/ is_Some (job_of w)))) /\
  match p with
  | PReplay _ _ _ room _ => 0 <= room
  | PWrite _ _ _ room bs o => 0 <= room /\ segment h (o - len bs) bs
  | PFinSend _ _ e | PPublish _ _ e true => rs_localFIN s = true /\ (ctx = None -> e = len h)
  | PDetach _ => rs_physical s = None
  | _ => True
  end.

(** What was read is a prefix of the peer's stream. *)
Definition reader_inv (peer : list byte) (s : ResumableStream) (r : reader) (cs : gmap Z conn)
    (dl : list byte) : Prop :=
  segment peer 0 dl /\ len dl = rs_receive s /\ rs_receive s <= MaxSequence /\
  match r with
  | RRead room q => is_Some (cs !! q)
  | RCommit room q bs _ => exists c, cs !! q = Some c /\
      segment peer (c_recv c + c_consumed c - len bs) bs
  | _ => True
  end.

(** The announced attempt and its channel. *)
Definition attempt_inv (s : ResumableStream) (w : writer) (p : replacer) (d : gset nat) : Prop :=
  match w with
  | WSend jb _ _ ch | WCommit jb _ _ _ _ ch =>
      rs_attempt s = Some ch /\ rs_attempt_end s = jb_end jb /\ ch ∉ d
  | _ => rs_attempt s = None /\ rs_attempt_end s = 0
  end /\
  match p with
  | PDetach chan => forall ch, attempt_of w = Some ch -> chan = Some ch
  | _ => True
  end.

Record inv (peer : list byte) (x : system) : Prop := {
  i_stream : stream_inv (sy_stream x) (sy_acks x) (sy_history x);
  i_conns : map_Forall (fun _ => conn_inv (sy_ctx x) (rs_localFIN (sy_stream x)) (sy_history x)) (sy_conns x);
  i_physical : physical_inv (sy_stream x) (sy_writer x) (sy_reader x) (sy_conns x);
  i_writer : writer_inv (sy_stream x) (sy_writer x) (sy_conns x) (sy_history x);
  i_replacer : replacer_inv (sy_stream x) (sy_ctx x) (sy_writer x) (sy_reader x) (sy_replacer x)
                 (sy_conns x) (sy_history x);
  i_reader : reader_inv peer (sy_stream x) (sy_reader x) (sy_conns x) (sy_delivered x);
  i_attempt : attempt_inv (sy_stream x) (sy_writer x) (sy_replacer x) (sy_done x)
}.

(** ** Preservation *)

Lemma replay_end_candidate p e :
  replay_end p = Some e -> exists next st, candidate p = Some (next, st).
Proof. destruct p; cbn; intros; simplify_eq; eauto. Qed.

Lemma attempted_job w jb : attempted w = Some jb -> job_of w = Some jb.
Proof. by destruct w. Qed.

Section Preservation.
Context {recoverableRead recoverableWrite : error -> bool} {ackEvery : Z} {peer : list byte}.
Hypothesis peer_bound : len peer <= MaxSequence.

(** No replacement is in progress while there is a physical stream. *)
Lemma replacer_idle s ctx w r p cs h q :
  replacer_inv s ctx w r p cs h -> rs_physical s = Some q -> p = PIdle.
Proof.
  intros (H1 & _ & H3) Hq. destruct p as [| | | | | | | |chan]; [done|..|congruence].
  all: destruct (H1 _ _ eq_refl) as [E _]; congruence.
Qed.

(** The replacer does not mind how the writer moves, as long as the writer
    keeps away from the candidate and a job with bytes past the journal end
    read by Replace is not abandoned. *)
Lemma replacer_writer s ctx w w' r p cs h :
  replacer_inv s ctx w r p cs h ->
  (forall next, writer_touches w' next -> writer_touches w next \/ rs_physical s = Some next) ->
  (forall jb, attempted w' = Some jb -> attempted w = Some jb \/ is_Some (rs_physical s)) ->
  (is_Some (job_of w) -> is_Some (job_of w') \/ rs_closed s = true \/ ctx <> None \/
     is_Some (rs_physical s) \/ exists jb, attempted w = Some jb /\ jb_end jb = len h) ->
  replacer_inv s ctx w' r p cs h.
Proof.
  intros Hr Ht Ha Hj. destruct (rs_physical s) as [q|] eqn:Eq.
  { rewrite (replacer_idle _ _ _ _ _ _ _ _ Hr Eq). split; [done|]. by split. }
  destruct Hr as (H1 & H2 & H3). split; [|split]; [..|done].
  - intros next st E. destruct (H1 next st E) as (? & ? & Hn & ? & ?).
    split; [done|]. split; [done|]. split; [|done].
    intros Hw. destruct (Ht _ Hw); [done|congruence].
  - intros e E. destruct (H2 e E) as (? & Hjb & Hg). split; [done|]. split.
    + intros jb Hjb'. destruct (Ha jb Hjb') as [|[? [=]]]; by apply Hjb.
    + intros Hlt Hctx. destruct (Hg Hlt Hctx) as [? [|Hsome]]; [by split; [|left]|].
      split; [done|]. destruct (Hj Hsome) as [|[|[|[[? [=]]|(jb & Ejb & El)]]]]; auto.
      pose proof (Hjb _ Ejb). lia.
Qed.

Lemma physical_writer s w w' r cs :
  physical_inv s w r cs -> (forall q, unaccounted w' q = unaccounted w q) -> physical_inv s w' r cs.
Proof. intros H E q Hq. destruct (H q Hq) as (c & ? & ? & ?). exists c. by rewrite E. Qed.

Lemma writer_inv_idle s w cs h : writer_inv s w cs h -> writer_inv s WIdle cs h.
Proof. by split. Qed.

(** Marking a physical stream unavailable only clears [rs_physical]. *)
Lemma mark_cases s q :
  let s' := (markUnavailable s q).1 in
  rs_journal s' = rs_journal s /\ rs_transmitted s' = rs_transmitted s /\
  rs_receive s' = rs_receive s /\ rs_localFIN s' = rs_localFIN s /\ rs_discard s' = rs_discard s /\
  rs_attempt s' = rs_attempt s /\ rs_attempt_end s' = rs_attempt_end s /\
  rs_closed s' = rs_closed s /\ (rs_physical s' = None \/ s' = s).
Proof. unfold markUnavailable. destruct (_ || _); cbn; split_and!; auto. Qed.

Lemma mark_inv s q ctx w r p a d cs h dl :
  inv peer (mkSys s ctx w r p a d cs h dl) ->
  inv peer (mkSys (markUnavailable s q).1 ctx w r p a d cs h dl).
Proof.
  intros Hi. pose proof (mark_cases s q) as (E1 & E2 & E3 & E4 & E5 & E6 & E7 & E8 & E9).
  set (s' := (markUnavailable s q).1) in *. destruct E9 as [E9| ->]; [|done].
  destruct Hi as [[Hs1 Hs2 Hs3 Hs4] Hc Hp Hw Hr Hd Ha]. cbn in *. split; cbn.
  - split; rewrite ?E1, ?E2; done.
  - by rewrite E4.
  - intros q' Hq'. congruence.
  - destruct Hw as [Hj Hw]. split; [by rewrite E4|].
    destruct w; rewrite ?E2, ?E4, ?E9; try done.
    + destruct Hw as (? & ? & ? & ?). split; [done|]. by split; [congruence|].
    + destruct Hw as (? & ? & ? & ? & ? & ?). do 3 (split; [done|]). by split; [congruence|].
  - destruct Hr as (H1 & H2 & H3). split; [|split].
    + rewrite E2, E9. intros next st E. destruct (H1 next st E) as (? & ?). by split.
    + rewrite E2, E4, E8. done.
    + destruct p; rewrite ?E4, ?E9; done.
  - destruct Hd as (? & ? & ? & ?). unfold reader_inv. by rewrite E3.
  - unfold attempt_inv. by rewrite E6, E7.
Qed.

(** The writer moves without touching anything else, between points where no
    attempt is announced. *)
Lemma writer_move s ctx w w' r p a d cs h dl :
  inv peer (mkSys s ctx w r p a d cs h dl) ->
  writer_inv s w' cs h ->
  (forall next, writer_touches w' next -> writer_touches w next \/ rs_physical s = Some next) ->
  (forall jb, attempted w' = Some jb -> attempted w = Some jb) ->
  (is_Some (job_of w) -> is_Some (job_of w') \/ rs_closed s = true \/ ctx <> None \/
     is_Some (rs_physical s) \/ exists jb, attempted w = Some jb /\ jb_end jb = len h) ->
  attempt_of w = None -> attempt_of w' = None ->
  inv peer (mkSys s ctx w' r p a d cs h dl).
Proof.
  intros [Hs Hc Hp Hw Hr Hd Ha] Hw' Ht Hjb Hj E E'. cbn in *. split; cbn; try done.
  - eapply physical_writer; [exact Hp|]. intros q.
    destruct w, w'; cbn in *; done.
  - eapply replacer_writer; eauto.
  - destruct Ha as [Ha1 Ha2]. split.
    + destruct w, w'; cbn in *; done.
    + destruct p; try done. by rewrite E'.
Qed.

Lemma base_bounds j h : holds j h -> 0 <= j_base j <= len h /\ j_end j = len h /\ len h <= MaxSequence.
Proof. by intros (_ & ? & ? & ?). Qed.

Lemma append_inv s ctx r p a d cs h dl payload j' start end_ :
  Append (rs_journal s) payload = (j', Ok (start, end_)) ->
  inv peer (mkSys s ctx (WAppend payload) r p a d cs h dl) ->
  inv peer (mkSys (set_journal s j') ctx (WWait (mkJob payload start end_)) r p a d cs (h ++ payload) dl).
Proof.
  intros E [[Hh Ht Hk Hcl] Hc Hp Hw Hr Hd Ha]. cbn in *.
  destruct Hw as [_ [Hne Hfin]]. pose proof (holds_append _ _ _ _ _ Hh E) as (Eb & Hh' & -> & ->).
  assert (Hlp : 0 < len payload).
  { destruct payload; [done|]. rewrite len_cons. pose proof (len_nonneg payload). lia. }
  split; cbn.
  - split; cbn; try done. rewrite Eb, len_app. lia.
  - intros q c Hq. destruct (Hc q c Hq) as [H1 H2]. split; [by apply segment_grow|].
    intros Hf. destruct (H2 Hf). congruence.
  - exact Hp.
  - split; [|done]. intros jb [= <-]. split; [|done]. unfold job_inv. cbn.
    split; [apply segment_tail|]. rewrite len_app. lia.
  - destruct Hr as (H1 & H2 & H3). split; [|split]; cbn.
    + intros next st En. destruct (H1 next st En) as (? & ? & _ & ?). split; [done|]. split; [done|]. by split; [intros []|].
    + intros e Ee. destruct (H2 e Ee) as (? & _ & _). rewrite len_app. split; [lia|]. split; [done|].
      intros _ _. split; [done|]. by right.
    + destruct p as [| | | | | | | ? ? ? []|]; try done; try (destruct H3; congruence).
      destruct H3. split; [done|]. by apply segment_grow.
  - exact Hd.
  - destruct Ha as [Ha1 Ha2]. split; [done|]. by destruct p.
Qed.

Lemma attempt_step_inv s ctx r p a d cs h dl jb q t chan s' :
  chan ∉ d -> write_attempt s q t (jb_end jb) chan = Attempt s' ->
  inv peer (mkSys s ctx (WTry jb q t) r p a d cs h dl) ->
  inv peer (mkSys s' ctx (WSend jb q t chan) r p a d cs h dl).
Proof.
  intros Hch E [[Hh Ht Hk Hcl] Hc Hp Hw Hr Hd Ha]. cbn in *.
  unfold write_attempt in E. destruct (rs_closed s) eqn:Ecl; [done|].
  destruct (bool_decide_reflect (rs_physical s = Some q)) as [Eq|]; [|done].
  destruct (Z.eqb_spec (rs_transmitted s) t) as [Et|]; [|done]. cbn in E. injection E as <-.
  rewrite (replacer_idle _ _ _ _ _ _ _ _ Hr Eq) in *.
  destruct (Hp q Eq) as (c & Ecq & E1 & E2 & E3).
  destruct Hw as [Hj [Ht' _]]. split; cbn; try done.
  - split; [exact Hj|]. cbn. split; [done|]. split; [done|]. split; [lia|].
    exists c. cbn in E1. split; [done|lia].
Qed.

Lemma send_inv s ctx r p a d cs h dl jb q t chan n err n' err' c :
  cs !! q = Some c ->
  let rest := drop (Z.to_nat (t - jb_start jb)) (jb_payload jb) in
  sanitize (len rest) n err = (n', err') ->
  inv peer (mkSys s ctx (WSend jb q t chan) r p a d cs h dl) ->
  inv peer (mkSys s ctx (WCommit jb q t n' err' chan) r p a d
     (<[q := sent_more c (take (Z.to_nat n') rest)]> cs) h dl).
Proof.
  cbn zeta. intros Ec En [[Hh Ht Hk Hcl] Hc Hp Hw Hr Hd Ha]. cbn in *.
  destruct Hw as [Hj (Ht1 & Hph & Hle & c' & Ec' & Esent)].
  rewrite Ec in Ec'. injection Ec' as <-.
  destruct (Hj jb eq_refl) as [(Hseg & Hje & Hjl & Hjs) Hfin].
  set (rest := drop _ _) in *.
  assert (Hrest : len rest = jb_end jb - t) by (subst rest; rewrite len_drop; lia).
  assert (Hn : 0 <= n' <= len rest).
  { unfold sanitize in En. destruct (Z.ltb_spec n 0), (Z.ltb_spec (len rest) n); cbn in En; simplify_eq; lia. }
  assert (Hsent : len (take (Z.to_nat n') rest) = n') by (rewrite len_take; lia).
  assert (Hseg' : segment h t (take (Z.to_nat n') rest)).
  { replace t with (jb_start jb + Z.of_nat (Z.to_nat (t - jb_start jb))) by lia.
    apply segment_sub; [|done]. unfold len in Hjl, Hn, Hrest. lia. }
  split; cbn; try done.
  - apply map_Forall_insert_2; [|done]. destruct (Hc q c Ec) as [H1 H2]. split; cbn.
    + apply segment_app; [done|]. by rewrite Esent.
    + intros Hf. destruct (H2 Hf). congruence.
  - intros q' Hq'. destruct (Hp q' Hq') as (c' & Ec' & E1 & E2 & E3).
    destruct (decide (q' = q)) as [->|Hne].
    + rewrite lookup_insert_eq. cbn [unaccounted]. rewrite Z.eqb_refl. rewrite Ec in Ec'. injection Ec' as <-.
      eexists. split; [done|]. cbn. rewrite len_app, Hsent. cbn in E1. lia.
    + rewrite lookup_insert_ne by done. cbn [unaccounted].
      rewrite (proj2 (Z.eqb_neq _ _)) by done. eauto.
  - split; [exact Hj|]. cbn. do 2 (split; [lia|]). split; [lia|]. split; [done|]. split; [lia|].
    rewrite lookup_insert_eq. eexists. split; [done|]. cbn. rewrite len_app, Hsent. lia.
  - destruct Hr as (H1 & H2 & H3). split; [|split; [exact H2|exact H3]].
    intros next st E. destruct (H1 next st E) as (? & ? & Hn1 & ? & ?). split; [done|].
    split; [done|]. split; [done|]. split; [done|].
    by rewrite lookup_insert_ne.
  - destruct Hd as (? & ? & ? & Hrd). split; [done|]. split; [done|]. split; [done|].
    destruct r; try done.
    + destruct (decide (q = p0)) as [->|]; [rewrite lookup_insert_eq|rewrite lookup_insert_ne]; eauto.
    + destruct Hrd as (c1 & Ec1 & Hs1). destruct (decide (q = p0)) as [->|].
      * rewrite lookup_insert_eq. rewrite Ec in Ec1. injection Ec1 as <-. eauto.
      * rewrite lookup_insert_ne by done. eauto.
Qed.

(** What a commit changes, provided the journal bounds the offsets. *)
Lemma commit_fields s q t n rest err :
  rs_attempt_end s <> 0 -> (rs_transmitted s = t -> 0 <= t <= MaxSequence /\ t + n <= MaxSequence) ->
  let c := write_commit s q t n rest err in
  let s' := cm_stream c in
  rs_journal s' = rs_journal s /\ rs_physical s' = rs_physical s /\ rs_receive s' = rs_receive s /\
  rs_localFIN s' = rs_localFIN s /\ rs_discard s' = rs_discard s /\ rs_closed s' = rs_closed s /\
  rs_attempt s' = None /\ rs_attempt_end s' = 0 /\
  (cm_deferred c = 0 \/ cm_deferred c <= rs_transmitted s') /\
  (if negb (rs_closed s) && (bool_decide (rs_physical s = Some q) || bool_decide (rs_physical s = None))
      && (rs_transmitted s =? t)
   then rs_transmitted s = t /\ rs_transmitted s' = t + n else rs_transmitted s' = rs_transmitted s).
Proof.
  intros Ha Hm. cbn zeta. unfold write_commit.
  set (cur := negb (rs_closed s) && _ && _). cbn.
  rewrite (proj2 (Z.eqb_neq _ _) Ha). cbn. do 8 (split; [done|]). split.
  - destruct (negb (rs_pending s =? 0)); cbn; [|by left].
    destruct (Z.leb_spec (rs_pending s) (if cur && negb (u64 (MaxSequence - rs_transmitted s) <? n)
      then rs_transmitted s + (if cur && (u64 (MaxSequence - rs_transmitted s) <? n) then 0 else n)
      else rs_transmitted s)); [by right|by left].
  - destruct cur eqn:E; cbn; [|done]. unfold cur in E. apply andb_true_iff in E as [_ E]. zb.
    rewrite E. destruct (Hm E). rewrite (proj2 (Z.ltb_ge _ _)); [done|].
    rewrite maxseq_u64 by lia. lia.
Qed.

(** Accounting for a physical write. *)
Lemma commit_inv s ctx r p a d cs h dl jb q t n err chan rest :
  inv peer (mkSys s ctx (WCommit jb q t n err chan) r p a d cs h dl) ->
  let c := write_commit s q t n rest err in
  inv peer (mkSys (cm_stream c) ctx (WAck jb q c) r p a d cs h dl).
Proof.
  intros [[Hh Ht Hk Hcl] Hc Hp Hw Hr Hd Ha] c.
  cbn in Hh, Ht, Hk, Hcl, Hc, Hp, Hw, Hr, Hd, Ha.
  pose proof (base_bounds _ _ Hh) as (Hb & _ & Hm).
  destruct Hw as [Hj (Ht1 & Hn & Htn & Hph & Hle & c1 & Ec1 & Esent)].
  destruct (Hj jb eq_refl) as [((Hjs & _) & Hje & _ & Hjl) Hfin].
  destruct Ha as [(Ha1 & Ha2 & Ha3) Ha4].
  destruct (commit_fields s q t n rest err) as (E1 & E2 & E3 & E4 & E5 & E6 & E7 & E8 & E9 & E10);
    [lia|lia|]. fold c in E1, E2, E3, E4, E5, E6, E7, E8, E9, E10.
  set (s' := cm_stream c) in *. clearbody s'.
  set (cur := negb (rs_closed s) && _ && _) in E10.
  assert (Hge : rs_transmitted s <= rs_transmitted s' <= len h) by (destruct cur; lia).
  split; cbn.
  - split; rewrite ?E1, ?E2, ?E6; [done|lia| |done].
    eapply Forall_impl; [exact Hk|]. cbn. intros. lia.
  - by rewrite E4.
  - intros q' Hq'. rewrite E2 in Hq'. destruct (Hp q' Hq') as (c2 & Ec2 & F1 & F2 & F3).
    exists c2. rewrite E3, E5. split; [done|]. split; [|done]. change (unaccounted (WAck jb q c) q') with 0.
    cbn [unaccounted] in F1. destruct (Z.eqb_spec q q') as [<-|Hne].
    + assert (Ecur : cur = true).
      { unfold cur. rewrite Hq', bool_decide_eq_true_2, Hph, Z.eqb_refl by done.
        destruct (rs_closed s) eqn:Ecl; [|done]. rewrite (Hcl eq_refl) in Hq'. done. }
      rewrite Ecur in E10. lia.
    + assert (Ecur : cur = false).
      { unfold cur. rewrite Hq', bool_decide_eq_false_2, bool_decide_eq_false_2 by congruence.
        cbn. by rewrite andb_false_r. }
      rewrite Ecur in E10. lia.
  - split; [by rewrite E4|]. lia.
  - destruct Hr as (H1 & H2 & H3). split; [|split].
    + intros next st E. destruct (H1 next st E) as (? & ? & _ & ?). rewrite E2. split; [done|]. split; [lia|].
      by split; [intros []|].
    + intros e E. destruct (H2 e E) as (? & Hje' & Hg). rewrite E4, E6. split; [|by split].
      pose proof (Hje' jb eq_refl). destruct cur; lia.
    + destruct p; rewrite ?E2, ?E4; done.
  - destruct Hd as (? & ? & ? & ?). unfold reader_inv. by rewrite E3.
  - split; [by split|]. by destruct p.
Qed.

(** Acknowledging or closing the journal. *)
Lemma journal_inv s ctx w r p a d cs h dl j' :
  holds j' h -> j_base j' <= rs_transmitted s ->
  inv peer (mkSys s ctx w r p a d cs h dl) ->
  inv peer (mkSys (set_journal s j') ctx w r p a d cs h dl).
Proof.
  intros Hh' Hb [[Hh Ht Hk Hcl] Hc Hp Hw Hr Hd Ha]. cbn in *. split; cbn; try done.
  split; cbn; try done. lia.
Qed.

Lemma ackJournal_holds j h o df j' r :
  holds j h -> ackJournal j o df = (j', r) -> 
  holds j' h /\ (j_base j' = j_base j \/ j_base j' = o) /\ (j_base j <= j_base j').
Proof.
  intros Hh. unfold ackJournal. destruct (df && _); intros E; [simplify_eq; split_and!; auto; lia|].
  pose proof (holds_ack _ _ _ _ _ Hh E) as H. destruct r; [destruct H as (? & ? & ?)|subst]; split_and!; auto; lia.
Qed.

Lemma ack_step_inv s ctx r p a d cs h dl jb q c j' o :
  (if cm_deferred c =? 0 then (rs_journal s, Ok tt)
   else ackJournal (rs_journal s) (cm_deferred c) true) = (j', o) ->
  inv peer (mkSys s ctx (WAck jb q c) r p a d cs h dl) ->
  inv peer (mkSys (set_journal s j') ctx match o with Err _ => WIdle | Ok _ => WNext jb q c end r p a
     match cm_chan c with Some ch => {[ch]} ∪ d | None => d end cs h dl).
Proof.
  intros E Hi. pose proof (i_stream _ _ Hi) as [Hh Ht _ _]. cbn in Hh, Ht.
  pose proof (i_writer _ _ Hi) as [Hj Hdf]. cbn in Hj, Hdf.
  assert (Hj' : holds j' h /\ j_base j' <= rs_transmitted s).
  { destruct (cm_deferred c =? 0); [injection E as <- _; split; [exact Hh|lia]|].
    destruct (ackJournal_holds _ h _ _ _ _ Hh E) as (Hh' & [Eb|Eb] & _);
      rewrite Eb; (split; [exact Hh'|lia]). }
  destruct Hj' as [Hh' Hb']. apply (journal_inv _ _ _ _ _ _ _ _ _ _ j' Hh' Hb') in Hi.
  destruct (Hj jb eq_refl) as [(_ & Hje & _) Hfin].
  assert (Hi' : inv peer (mkSys (set_journal s j') ctx (WAck jb q c) r p a
     match cm_chan c with Some ch => {[ch]} ∪ d | None => d end cs h dl)).
  { destruct Hi as [Hs Hc Hp Hw Hr Hd [Ha1 Ha2]]. split; cbn; try done; by split. }
  destruct o; (eapply writer_move; [exact Hi'|..]; cbn; try done; eauto 10).
Qed.

Lemma next_step_inv s ctx r p a d cs h dl jb q c w' :
  w' = match write_next recoverableWrite c (jb_start jb) (jb_end jb) with
       | inl _ => WIdle | inr None => WWait jb | inr (Some e) => WMark jb q e end ->
  inv peer (mkSys s ctx (WNext jb q c) r p a d cs h dl) ->
  inv peer (mkSys s ctx w' r p a d cs h dl).
Proof.
  intros -> Hi. pose proof (i_writer _ _ Hi) as [Hj _]. cbn in Hj.
  destruct (Hj jb eq_refl) as [(_ & Hje & _) Hfin].
  destruct (write_next _ _ _ _) as [|[e|]];
    (eapply writer_move; [exact Hi|..]; cbn; try done; eauto 10).
Qed.

Lemma fin_step_inv s ctx r p a d cs h dl q c :
  cs !! q = Some c ->
  inv peer (mkSys s ctx (KSend q) r p a d cs h dl) ->
  inv peer (mkSys s ctx (KDone q) r p a d (<[q := sent_fin c]> cs) h dl).
Proof.
  intros Ec [Hs Hc Hp Hw Hr Hd Ha]. cbn in *. destruct Hw as [Hj [Hfin (c' & Ec' & El)]].
  rewrite Ec in Ec'. injection Ec' as <-.
  assert (Hlk : forall q' c1, cs !! q' = Some c1 -> exists c2, <[q := sent_fin c]> cs !! q' = Some c2 /\
    c_start c2 = c_start c1 /\ c_sent c2 = c_sent c1 /\ c_recv c2 = c_recv c1 /\ c_consumed c2 = c_consumed c1).
  { intros q' c1 E1. destruct (decide (q' = q)) as [->|].
    - rewrite lookup_insert_eq. rewrite Ec in E1. injection E1 as <-. by eexists.
    - rewrite lookup_insert_ne by done. by exists c1. }
  split; cbn; try done.
  - apply map_Forall_insert_2; [|done]. destruct (Hc q c Ec) as [H1 H2]. split; cbn; [done|]. by intros _.
  - intros q' Hq'. destruct (Hp q' Hq') as (c1 & E1 & ? & ? & ?).
    destruct (Hlk _ _ E1) as (c2 & ? & F1 & F2 & F3 & F4). exists c2. by rewrite F1, F2, F3, F4.
  - split; [done|]. split; [done|]. destruct (Hlk _ _ Ec) as (c2 & E2 & F1 & F2 & _).
    exists c2. by rewrite F1, F2.
  - destruct Hr as (H1 & H2 & H3). split; [|by split].
    intros next st E. destruct (H1 next st E) as (? & ? & Hn & ? & ?). do 4 (split; [done|]).
    by rewrite lookup_insert_ne.
  - destruct Hd as (? & ? & ? & Hrd). do 3 (split; [done|]). destruct r; try done.
    + destruct Hrd as [c1 E1]. destruct (Hlk _ _ E1) as (c2 & ? & _). eauto.
    + destruct Hrd as (c1 & E1 & Hseg). destruct (Hlk _ _ E1) as (c2 & ? & _ & _ & Er & En).
      exists c2. by rewrite Er, En.
Qed.

Lemma close_write_inv s ctx r p a d cs h dl s' :
  close_write_begin s = inr s' ->
  inv peer (mkSys s ctx WIdle r p a d cs h dl) -> inv peer (mkSys s' ctx KWait r p a d cs h dl).
Proof.
  intros E [[Hh Ht Hk Hcl] Hc Hp Hw Hr Hd Ha]. cbn in *.
  unfold close_write_begin in E. destruct (rs_closed s) eqn:Ecl; [done|].
  destruct (_ && _); [done|]. injection E as <-. split; cbn; try done.
  - intros q c Hq. destruct (Hc q c Hq) as [H1 H2]. split; [done|]. intros Hf.
    split; [done|]. by apply H2.
  - destruct Hr as (H1 & H2 & H3). split; [|split]; cbn.
    + intros next st En. destruct (H1 next st En) as (? & ? & _ & ?). split; [done|]. split; [done|]. by split; [intros []|].
    + intros e Ee. destruct (H2 e Ee) as (? & Hj & Hg). split; [done|]. split; [done|].
      intros Hl Hx. destruct (Hg Hl Hx) as [_ [?|[? [=]]]]. congruence.
    + destruct p as [| | | | | | | ? ? ? []|]; try done; destruct H3; by split.
Qed.

Lemma waitPhysical_ok s ctx q :
  waitPhysical s ctx = Some (Ok q) -> rs_closed s = false /\ rs_physical s = Some q.
Proof. unfold waitPhysical. intros. repeat case_match; by simplify_eq. Qed.

Lemma waitPhysical_err s ctx e :
  waitPhysical s ctx = Some (Err e) -> rs_closed s = true \/ ctx <> None.
Proof. unfold waitPhysical. intros. repeat case_match; simplify_eq; auto. Qed.

Ltac moves_side := cbn; try done; try (by intros ? []); try (by intros; left); try (by intros; auto);
  try (by intros [? [=]]).
Ltac moves Hi := eapply writer_move; [exact Hi|..]; moves_side.

Lemma writer_step_inv x y : writer_step recoverableWrite x y -> inv peer x -> inv peer y.
Proof.
  intros Hstep Hi. destruct Hstep.
  - (* write *) moves Hi.
    all: match goal with H : write_check _ = None |- _ => unfold write_check in H end.
    + split; [done|]. cbn. split; [done|]. by repeat case_match.
  - by eapply append_inv.
  - (* append error *)
    pose proof (rl_append_err _ _ _ _ H) as ->.
    assert (Hi' : inv peer (mkSys (set_journal s (rs_journal s)) ctx (WAppend payload) r p a d cs h dl))
      by (destruct s; exact Hi). moves Hi'.
  - apply waitPhysical_err in H. moves Hi. tauto.
  - (* wait: a physical stream *)
    apply waitPhysical_ok in H as [Hcl Hq]. pose proof (i_writer _ _ Hi) as [Hj _]. cbn in Hj.
    destruct (i_physical _ _ Hi q Hq) as (c & Ec & _). cbn in Ec.
    destruct (write_plan _ _ _) eqn:Epl; moves Hi.
    all: try (intros; right; right; right; left; by rewrite Hq).
    + split; [done|]. cbn. split; [|eauto]. unfold write_plan in Epl.
      destruct (Z.leb_spec (jb_end jb) (rs_transmitted s)), (Z.ltb_spec (rs_transmitted s) (jb_start jb));
        try done; lia.
    + intros next ->. by right.
  - (* closed before the attempt *)
    unfold write_attempt in H. destruct (rs_closed s) eqn:Ecl; [|by repeat case_match].
    moves Hi.
  - moves Hi. by destruct (i_writer _ _ Hi).
  - eapply attempt_step_inv; eauto.
  - by eapply send_inv.
  - eapply commit_inv. exact Hi.
  - by eapply ack_step_inv.
  - by eapply next_step_inv.
  - eapply writer_move; [by apply mark_inv|..]; moves_side.
    pose proof (mark_inv s q _ _ _ _ _ _ _ _ _ Hi) as Hi'. by destruct (i_writer _ _ Hi').
  - by eapply close_write_inv.
  - apply waitPhysical_err in H. moves Hi.
  - (* FIN: a physical stream *)
    apply waitPhysical_ok in H as [Hcl Hq]. pose proof (i_writer _ _ Hi) as [Hj Hf]. cbn in Hj, Hf.
    destruct (Z.ltb_spec (rs_transmitted s) (EndOffset (State (rs_journal s)))) as [|Hge]; moves Hi.
    + split; [done|]. cbn. split; [done|].
      destruct (i_physical _ _ Hi q Hq) as (c & Ec & E1 & _). exists c. split; [done|].
      destruct (i_stream _ _ Hi) as [Hh Ht _ _]. cbn in *.
      destruct (base_bounds _ _ Hh) as (_ & He & _). lia.
    + intros next ->. by right.
  - pose proof (i_writer _ _ Hi) as [Hj Hf]. cbn in Hj, Hf. destruct (_ || _); moves Hi; by split.
  - by eapply fin_step_inv.
  - pose proof (i_writer _ _ Hi) as [Hj Hf]. cbn in Hj, Hf. moves Hi. split; [done|apply Hf].
  - (* FIN sent *)
    assert (Hi' : inv peer (mkSys s ctx WIdle r p a d cs h dl)) by moves Hi.
    unfold close_write_sent. case_bool_decide; [|done].
    by destruct Hi' as [[] Hc Hp Hw Hr Hd Ha].
  - eapply writer_move; [by apply mark_inv|..]; moves_side.
    pose proof (mark_inv s q _ _ _ _ _ _ _ _ _ Hi) as Hi'. by destruct (i_writer _ _ Hi').
Qed.

(** The reader moves without touching anything else. *)
Lemma reader_move s ctx w r r' p a d cs h dl :
  inv peer (mkSys s ctx w r p a d cs h dl) ->
  (forall q, rs_physical s = Some q -> uncounted r q = 0) -> (forall q, uncounted r' q = 0) ->
  (forall q, reader_touches r' q -> reader_touches r q \/ rs_physical s = Some q) ->
  (match r' with RRead _ q => is_Some (cs !! q) | RCommit _ _ _ _ => False | _ => True end) ->
  inv peer (mkSys s ctx w r' p a d cs h dl).
Proof.
  intros [Hs Hc Hp Hw Hr Hd Ha] Hu Hu' Ht Hr'. cbn in *. split; cbn; try done.
  - intros q Hq. destruct (Hp q Hq) as (c & ? & ? & F & ?). exists c.
    rewrite (Hu q Hq) in F. by rewrite Hu'.
  - destruct (rs_physical s) as [q|] eqn:Eq.
    { rewrite (replacer_idle _ _ _ _ _ _ _ _ Hr Eq). split; [done|]. by split. }
    destruct Hr as (H1 & H2 & H3). split; [|by split].
    intros next st E. destruct (H1 next st E) as (? & ? & ? & Hn & ?). do 3 (split; [done|]).
    split; [|done]. intros Hx. destruct (Ht _ Hx); [done|congruence].
  - destruct Hd as (? & ? & ? & _). do 3 (split; [done|]). by destruct r'.
Qed.

Lemma read_data_inv s ctx w p a d cs h dl room q c bs err :
  cs !! q = Some c -> segment peer (c_recv c + c_consumed c) bs ->
  inv peer (mkSys s ctx w (RRead room q) p a d cs h dl) ->
  inv peer (mkSys s ctx w (RCommit room q bs err) p a d (<[q := read_more c (len bs)]> cs) h dl).
Proof.
  intros Ec Hseg [Hs Hc Hp Hw Hr Hd Ha]. cbn in *.
  assert (Hlk : forall q' c1, cs !! q' = Some c1 -> exists c2, <[q := read_more c (len bs)]> cs !! q' = Some c2 /\
    c_start c2 = c_start c1 /\ c_sent c2 = c_sent c1).
  { intros q' c1 E1. destruct (decide (q' = q)) as [->|].
    - rewrite lookup_insert_eq. rewrite Ec in E1. injection E1 as <-. by eexists.
    - rewrite lookup_insert_ne by done. by exists c1. }
  split; cbn; try done.
  - apply map_Forall_insert_2; [|done]. exact (Hc q c Ec).
  - intros q' Hq'. destruct (Hp q' Hq') as (c1 & E1 & F1 & F2 & F3). cbn in F2 |- *.
    destruct (Z.eqb_spec q q') as [<-|Hne].
    + rewrite lookup_insert_eq. rewrite Ec in E1. injection E1 as <-.
      eexists. split; [done|]. cbn. split; [done|]. lia.
    + rewrite lookup_insert_ne by done. exists c1. split_and!; lia || done.
  - destruct Hw as [Hj Hw]. split; [done|]. destruct w; try done.
    + destruct Hw as [? [c1 E1]]. split; [done|]. destruct (Hlk _ _ E1) as (c2 & ? & _). eauto.
    + destruct Hw as (? & ? & ? & c1 & E1 & F1). do 3 (split; [done|]).
      destruct (Hlk _ _ E1) as (c2 & ? & G1 & G2). exists c2. by rewrite G1, G2.
    + destruct Hw as (? & ? & ? & ? & ? & c1 & E1 & F1). do 5 (split; [done|]).
      destruct (Hlk _ _ E1) as (c2 & ? & G1 & G2). exists c2. by rewrite G1, G2.
    + destruct Hw as (? & c1 & E1 & F1). split; [done|].
      destruct (Hlk _ _ E1) as (c2 & ? & G1 & G2). exists c2. by rewrite G1, G2.
    + destruct Hw as (? & c1 & E1 & F1). split; [done|].
      destruct (Hlk _ _ E1) as (c2 & ? & G1 & G2). exists c2. by rewrite G1, G2.
    + destruct Hw as (? & c1 & E1 & F1). split; [done|].
      destruct (Hlk _ _ E1) as (c2 & ? & G1 & G2). exists c2. by rewrite G1, G2.
  - destruct Hr as (H1 & H2 & H3). split; [|by split].
    intros next st E. destruct (H1 next st E) as (? & ? & ? & Hn & ?). do 4 (split; [done|]).
    by rewrite lookup_insert_ne.
  - destruct Hd as (? & ? & ? & _). do 3 (split; [done|]). rewrite lookup_insert_eq.
    eexists. split; [done|]. cbn.
    replace (c_recv c + (c_consumed c + len bs) - len bs) with (c_recv c + c_consumed c) by lia. done.
Qed.

Lemma read_commit_inv s ctx w p a d cs h dl room q bs err s' discarded notify es ret :
  read_commit ackEvery s q (len bs) = (s', Ok (discarded, notify)) ->
  inv peer (mkSys s ctx w (RCommit room q bs err) p a d cs h dl) ->
  inv peer (mkSys s' ctx w (RMarks room q es ret) p a d cs h (dl ++ drop (Z.to_nat discarded) bs)).
Proof.
  intros E [[Hh Ht Hk Hcl] Hc Hp Hw Hr Hd Ha]. cbn in *. unfold read_commit in E.
  destruct (rs_closed s) eqn:Ecl; [done|].
  destruct (bool_decide_reflect (rs_physical s = Some q)) as [Eq|]; [|done]. cbn [negb] in E.
  destruct Hd as (Hd1 & Hd2 & Hd3 & c & Ec & Hseg).
  destruct (Hp q Eq) as (c' & Ec' & F1 & F2 & F3). rewrite Ec in Ec'. injection Ec' as <-.
  cbn in F2. rewrite Z.eqb_refl in F2.
  destruct (_ <? _) eqn:Hov; [done|]. injection E as <- <- <-.
  pose proof (len_nonneg bs) as Hlb. pose proof (len_nonneg dl) as Hld.
  set (dd := Z.min (len bs) (rs_discard s)) in *.
  assert (Hseg' : segment peer 0 (dl ++ drop (Z.to_nat dd) bs)).
  { apply segment_app; [done|]. rewrite Hd2.
    replace (drop (Z.to_nat dd) bs) with (take (length bs - Z.to_nat dd) (drop (Z.to_nat dd) bs))
      by (apply take_ge; rewrite length_drop; lia).
    destruct (Z.le_gt_cases (len bs) (rs_discard s)).
    - replace (take (length bs - Z.to_nat dd) (drop (Z.to_nat dd) bs)) with (@nil byte).
      + apply segment_nil. apply segment_bounds in Hd1. lia.
      + symmetry. apply len_0_nil. rewrite len_take, len_drop. unfold len in *. lia.
    - replace (0 + rs_receive s) with (c_recv c + c_consumed c - len bs + Z.of_nat (Z.to_nat dd)) by lia.
      apply segment_sub; [|done]. unfold len in *. lia. }
  assert (Hlen : len (dl ++ drop (Z.to_nat dd) bs) = rs_receive s + (len bs - dd))
    by (rewrite len_app, len_drop, Hd2; lia).
  split; cbn; try done.
  - intros q' Hq'. cbn in Hq'. rewrite Eq in Hq'. injection Hq' as <-. exists c. cbn.
    split; [done|]. split; [done|]. lia.
  - rewrite (replacer_idle _ _ _ _ _ _ _ _ Hr Eq). split; [done|]. by split.
  - split; [done|]. cbn. split; [done|]. split; [|done].
    apply segment_bounds in Hseg'. lia.
Qed.

Lemma reader_step_inv x y : reader_step recoverableRead ackEvery peer x y -> inv peer x -> inv peer y.
Proof.
  intros Hstep Hi. destruct Hstep.
  - by eapply reader_move; [exact Hi|..].
  - by eapply reader_move; [exact Hi|..].
  - apply waitPhysical_ok in H as [_ Hq]. eapply reader_move; [exact Hi|done|done|..]; cbn.
    + intros q' ->. by right.
    + destruct (i_physical _ _ Hi q Hq) as (c & Ec & _). eauto.
  - by eapply read_data_inv.
  - destruct (recoverableRead e); by eapply reader_move; [exact Hi|..].
  - by eapply read_commit_inv.
  - (* the read is refused *)
    unfold read_commit in H. destruct (rs_closed s) eqn:Ecl.
    { injection H as <- _. eapply reader_move; [exact Hi|..]; try done. cbn. intros q' Hq'.
      destruct (i_stream _ _ Hi) as [_ _ _ Hcl]. cbn in Hcl. rewrite Hcl in Hq' by done. done. }
    destruct (bool_decide_reflect (rs_physical s = Some q)) as [Eq|Eq]; cbn [negb] in H.
    2:{ injection H as <- _. eapply reader_move; [exact Hi|..]; try done. cbn. intros q' Hq'.
        destruct (Z.eqb_spec q q') as [<-|]; congruence. }
    (* the offset can not overflow *)
    exfalso. destruct (i_reader _ _ Hi) as (Hd1 & Hd2 & Hd3 & c & Ec & Hseg).
    destruct (i_physical _ _ Hi q Eq) as (c' & Ec' & _ & F2 & F3). cbn in *.
    rewrite Ec in Ec'. injection Ec' as <-. rewrite Z.eqb_refl in F2.
    apply segment_bounds in Hseg. pose proof (len_nonneg bs). pose proof (len_nonneg dl).
    destruct (Z.ltb_spec (u64 (MaxSequence - rs_receive s)) (len bs - Z.min (len bs) (rs_discard s))) as [Hov|];
      [|done].
    rewrite maxseq_u64 in Hov by lia. lia.
  - by apply mark_inv; eapply reader_move; [exact Hi|..].
  - destruct ret; by eapply reader_move; [exact Hi|..].
Qed.

(** A step of Replace that changes neither the stream nor the candidate. *)
Lemma replacer_move s ctx w r p p' a d cs h dl :
  inv peer (mkSys s ctx w r p a d cs h dl) ->
  (p' = PIdle \/
   (candidate p' = candidate p /\
    (forall o, replay_pos p' = Some o -> replay_pos p = Some o) /\
    (forall e, replay_end p' = Some e -> replay_end p = Some e) /\
    (forall next st e b, p <> PPublish next st e b) /\
    match p' with
    | PAck _ _ | PDetach _ => False
    | PReplay _ _ _ room _ => 0 <= room
    | PWrite _ _ _ room bs o => 0 <= room /\ segment h (o - len bs) bs
    | PFinSend _ _ e | PPublish _ _ e true => rs_localFIN s = true /\ (ctx = None -> e = len h)
    | _ => True
    end)) ->
  inv peer (mkSys s ctx w r p' a d cs h dl).
Proof.
  intros [Hs Hc Hp Hw Hr Hd Ha] Hp'. cbn in *. split; cbn; try done.
  - destruct Hp' as [-> |(E1 & E2 & E3 & E4 & E5)]; [split; [done|]; by split|].
    destruct Hr as (H1 & H2 & H3). split; [|split].
    + intros next st E. rewrite E1 in E.
      destruct (H1 next st E) as (? & ? & ? & ? & c & ? & ? & ? & ? & F1 & F2). do 4 (split; [done|]).
      exists c. do 4 (split; [done|]). split; [auto|]. intros Hf. destruct (F2 Hf) as [e ->].
      by destruct (E4 next st e true).
    + intros e E. auto.
    + destruct p' as [| | | | | | | ? ? ? []|]; done.
  - destruct Ha as [Ha1 Ha2]. split; [done|]. destruct Hp' as [-> |(_ & _ & _ & _ & E)]; [done|].
    by destruct p'.
Qed.

(** Bytes accepted by the candidate. *)
Lemma candidate_write_inv s ctx w r p p' a d cs h dl next st c c' :
  candidate p = Some (next, st) -> cs !! next = Some c -> (forall e b, p <> PPublish next st e b) ->
  conn_inv ctx (rs_localFIN s) h c' -> c_start c' = c_start c -> c_recv c' = c_recv c ->
  c_consumed c' = c_consumed c -> (c_fin c' = true -> exists e, p' = PPublish next st e true) ->
  (p' = PIdle \/
   (candidate p' = Some (next, st) /\
    (forall o, replay_pos p' = Some o -> c_start c' + len (c_sent c') = o) /\
    (forall e, replay_end p' = Some e -> replay_end p = Some e) /\
    match p' with
    | PReplay _ _ _ room _ => 0 <= room
    | PPublish _ _ e true => rs_localFIN s = true /\ (ctx = None -> e = len h)
    | _ => False
    end)) ->
  inv peer (mkSys s ctx w r p a d cs h dl) ->
  inv peer (mkSys s ctx w r p' a d (<[next := c']> cs) h dl).
Proof.
  intros Ecand Ec Hnp Hc' Es Er En Hf Hp' [Hs Hc Hp Hw Hr Hd Ha]. cbn in *.
  destruct Hr as (H1 & H2 & H3).
  destruct (H1 next st Ecand) as (Eph & Hpro & Hnw & Hnr & c0 & Ec0 & F1 & F2 & F3 & F4 & F5).
  rewrite Ec in Ec0. injection Ec0 as <-.
  split; cbn; try done.
  - by apply map_Forall_insert_2.
  - intros q Hq. congruence.
  - destruct Hw as [Hj Hw]. split; [done|].
    assert (Hlk : forall q, writer_touches w q -> <[next := c']> cs !! q = cs !! q).
    { intros q Hq. apply lookup_insert_ne. congruence. }
    destruct w; cbn in Hlk; rewrite ?Hlk by done; done.
  - destruct Hp' as [-> |(E1 & E2 & E3 & E4)]; [split; [done|]; by split|].
    split; [|split].
    + intros next' st' E. rewrite E1 in E. injection E as <- <-. do 4 (split; [done|]).
      exists c'. rewrite lookup_insert_eq. split; [done|].
      split; [congruence|]. split; [congruence|]. split; [congruence|]. by split.
    + intros e E. auto.
    + destruct p' as [| | | | | | | ? ? ? []|]; done.
  - destruct Hd as (? & ? & ? & Hrd). do 3 (split; [done|]).
    assert (Hlk : forall q, reader_touches r q -> <[next := c']> cs !! q = cs !! q).
    { intros q Hq. apply lookup_insert_ne. congruence. }
    destruct r; cbn in Hlk; rewrite ?Hlk by done; done.
  - destruct Ha as [Ha1 Ha2]. split; [done|].
    destruct Hp' as [-> |(E1 & _ & _ & E4)]; [done|]. by destruct p'.
Qed.

Lemma writeAll_prefix payload outs sent err :
  writeAll payload outs = Some (sent, err) ->
  (exists n, sent = take n payload) /\ (err = None -> sent = payload).
Proof.
  revert payload sent err. induction outs as [|[n e] outs IH]; intros payload sent err H.
  { destruct payload; cbn in H; [|done]. injection H as <- <-. split; [by exists 0%nat|done]. }
  destruct payload as [|b payload]; [injection H as <- <-; split; [by exists 0%nat|done]|].
  cbn [writeAll] in H. set (pl := b :: payload) in *.
  destruct (_ || _) eqn:G; [injection H as <- <-; split; [by exists 0%nat|done]|].
  destruct e as [e|]; [injection H as <- <-; split; [by eexists|done]|].
  destruct (n =? 0); [injection H as <- <-; split; [by eexists|done]|].
  destruct (writeAll (drop (Z.to_nat n) pl) outs) as [[more e']|] eqn:E; [|done].
  injection H as <- <-. apply IH in E as [[m ->] Hall]. split.
  - exists (Z.to_nat n + m)%nat. by rewrite take_take_drop.
  - intros Hn. rewrite (Hall Hn). apply take_drop.
Qed.

Lemma replace_begin_inv s ctx w r a d cs h dl next st :
  cs !! next = None -> 0 <= PeerReceiveOffset st -> replace_check s st = None ->
  inv peer (mkSys s ctx w r PIdle a d cs h dl) ->
  inv peer (mkSys s ctx w r (PAck next st) a d
    (<[next := mkConn (PeerReceiveOffset st) [] false (ReceiveOffset st) 0]> cs) h dl).
Proof.
  intros Hfresh H0 Hck [Hs Hc Hp Hw Hr Hd Ha]. cbn in *.
  unfold replace_check in Hck. destruct (rs_closed s) eqn:Ecl; [done|].
  destruct (_ || _) eqn:G; [done|]. guards. apply bool_decide_eq_true in H. zb.
  pose proof Hs as [Hh Ht _ _]. cbn in *.
  assert (Hlk : forall q c0, is_Some (cs !! q) -> <[next := c0]> cs !! q = cs !! q).
  { intros q c0 [x Hx]. apply lookup_insert_ne. congruence. }
  assert (Hnw : ~ writer_touches w next).
  { destruct Hw as [_ Hw]. destruct w; cbn; intros Ew; try done; subst.
    - destruct Hw as [_ [? ?]]; congruence.
    - destruct Hw as (_ & _ & _ & c & E & _); congruence.
    - destruct Hw as (_ & _ & _ & _ & _ & c & E & _); congruence.
    - destruct Hw as (_ & c & E & _); congruence.
    - destruct Hw as (_ & c & E & _); congruence.
    - destruct Hw as (_ & c & E & _); congruence. }
  assert (Hnr : ~ reader_touches r next).
  { destruct Hd as (_ & _ & _ & Hrd). destruct r; cbn; intros Er; try done; subst.
    - destruct Hrd as [? ?]; congruence.
    - destruct Hrd as (c & E & _); congruence. }
  split; cbn; try done.
  - apply map_Forall_insert_2; [|done]. split; cbn; [|done]. apply segment_nil. lia.
  - intros q Hq. congruence.
  - destruct Hw as [Hj Hw]. split; [done|].
    destruct w; cbn in Hnw; rewrite ?lookup_insert_ne by congruence; done.
  - split; [|split]; cbn; try done. intros next' st' [= <- <-].
    split; [done|]. split; [lia|]. split; [done|]. split; [done|].
    eexists. rewrite lookup_insert_eq. split; [done|]. cbn. do 3 (split; [done|]).
    split; [|done]. intros o [= <-]. rewrite len_nil. lia.
  - destruct Hd as (? & ? & ? & Hrd). do 3 (split; [done|]).
    destruct r; cbn in Hnr; rewrite ?lookup_insert_ne by congruence; done.
Qed.

Lemma publish_inv s ctx w r a d cs h dl next st e fin s' :
  replace_publish s next e fin st = Ok s' ->
  inv peer (mkSys s ctx w r (PPublish next st e fin) a d cs h dl) ->
  inv peer (mkSys s' ctx w r PIdle a d cs h dl).
Proof.
  intros Epub [[Hh Ht Hk Hcl] Hc Hp Hw Hr Hd Ha]. cbn in *.
  unfold replace_publish in Epub. destruct (_ || _) eqn:G; [done|]. injection Epub as <-. guards. zb.
  destruct Hr as (H1' & H2 & H3).
  destruct (H1' next st eq_refl) as (Eph & Hpro & Hnw & Hnr & c & Ec & F1 & F2 & F3 & F4 & F5).
  destruct (H2 e eq_refl) as (He & _ & _). specialize (F4 e eq_refl).
  split; cbn; try done.
  - split; cbn; try done; [lia| |congruence]. eapply Forall_impl; [exact Hk|]. cbn. intros. lia.
  - intros q Hq. cbn in Hq. injection Hq as <-. exists c. split; [done|]. cbn.
    assert (E1 : unaccounted w next = 0).
    { destruct w; cbn in *; try done. by rewrite (proj2 (Z.eqb_neq _ _)). }
    assert (E2 : uncounted r next = 0).
    { destruct r; cbn in *; try done. by rewrite (proj2 (Z.eqb_neq _ _)). }
    rewrite E1, E2. lia.
  - destruct Hw as [Hj Hw]. split; [done|].
    destruct w; cbn in Hnw |- *; try done.
    + destruct Hw as (? & _ & ? & ?). split; [done|]. split; [congruence|]. split; [lia|done].
    + destruct Hw as (? & ? & ? & _ & ? & ?). do 3 (split; [done|]). split; [congruence|]. split; [lia|done].
    + cbn in Hw. lia.
Qed.

Lemma replacer_step_inv x y :
  replacer_step x y -> no_overshoot x -> no_overshoot y -> inv peer x -> inv peer y.
Proof.
  intros Hstep Hnx Hny Hi. destruct Hstep; cbn in Hnx, Hny.
  - by apply replace_begin_inv.
  - (* the cumulative acknowledgement *)
    pose proof (i_stream _ _ Hi) as [Hh Ht _ _]. cbn in Hh, Ht.
    destruct (i_replacer _ _ Hi) as (H1 & _). cbn in H1.
    destruct (H1 next st eq_refl) as (_ & Hpro & _).
    destruct (ackJournal_holds _ h _ _ _ _ Hh H) as (Hh' & Hb' & _).
    apply (journal_inv _ _ _ _ _ _ _ _ _ _ j') in Hi; [|done|lia].
    destruct o; (eapply replacer_move; [exact Hi|]); [right|by left].
    split_and!; cbn; try done.
  - (* the journal state *)
    pose proof (i_stream _ _ Hi) as [Hh Ht _ _]. cbn in Hh, Ht.
    destruct (base_bounds _ _ Hh) as (Hb & Hend & _).
    destruct Hi as [Hs Hc Hp Hw Hr Hd Ha]. cbn in *. split; cbn; try done.
    destruct Hr as (H1 & _ & _). split; [|split].
    + intros next' st' [= <- <-].
      destruct (H1 next st eq_refl) as (? & ? & ? & ? & c & ? & ? & ? & ? & F1 & F2). do 4 (split; [done|]).
      exists c. do 4 (split; [done|]). split; [|intros Hf; by destruct (F2 Hf)].
      intros o [= <-]. by apply F1.
    + intros e [= <-]. rewrite Hend. split; [lia|]. split; [|lia].
      intros jb Hjb. destruct Hw as [Hj _]. destruct (Hj jb) as [(_ & ? & _) _]; [by apply attempted_job|]. lia.
    + unfold replayCopyBufferSize. lia.
  - (* a chunk of the journal *)
    pose proof (i_stream _ _ Hi) as [Hh Ht _ _]. cbn in Hh, Ht.
    destruct (i_replacer _ _ Hi) as (_ & _ & Hroom). cbn in Hroom.
    destruct (Replay (rs_journal s) o room) as [[bs o']|e'] eqn:E;
      [|eapply replacer_move; [exact Hi|by left]].
    destruct (len bs =? 0); [eapply replacer_move; [exact Hi|by left]|].
    destruct (rl_replay _ h _ _ _ _ Hh Hroom E) as (Hseg & -> & _).
    eapply replacer_move; [exact Hi|right]. split_and!; cbn; try done.
    + intros ? [= <-]. f_equal. lia.
    + by replace (o + len bs - len bs) with o by lia.
  - (* all replayed *)
    assert (o = e) as -> by lia. eapply replacer_move; [exact Hi|right]. by split_and!.
  - (* the candidate accepts bytes *)
    destruct (i_replacer _ _ Hi) as (H1 & _ & Hroom & Hseg). cbn in H1, Hroom, Hseg.
    destruct (H1 next st eq_refl) as (_ & _ & _ & _ & c' & Ec' & F1 & _ & _ & F4 & F5).
    rewrite H in Ec'. injection Ec' as <-. specialize (F4 _ eq_refl).
    destruct (i_conns _ _ Hi next c H) as [Hc1 Hc2]. cbn in Hc1, Hc2.
    destruct (writeAll_prefix _ _ _ _ H0) as [[n Hn] Hall].
    assert (Hnf : c_fin c = true -> False) by (intros Hf; by destruct (F5 Hf)).
    assert (Hsegs : segment h (o - len bs) sent).
    { rewrite Hn. by apply segment_take. }
    eapply (candidate_write_inv _ _ _ _ (PWrite next st e room bs o) _ _ _ _ _ _ next st c); try done.
    + split; cbn; [|intros Hf; destruct (Hnf Hf)]. apply segment_app; [done|]. by rewrite F4.
    + destruct err; [by left|right]. split; [done|]. split; [|by split].
      cbn. intros o' [= <-]. rewrite len_app, (Hall eq_refl). lia.
  - (* FIN or not *)
    destruct (i_replacer _ _ Hi) as (H1 & H2 & _). cbn in H1, H2.
    destruct (H2 e eq_refl) as (He & _ & Hg).
    assert (Hf : rs_localFIN s = true -> ctx = None -> e = len h).
    { intros Hf Hx. destruct (Z.lt_ge_cases e (len h)) as [Hlt|]; [|lia].
      destruct (Hg Hlt Hx) as [? _]. congruence. }
    eapply replacer_move; [exact Hi|right].
    destruct (rs_localFIN s) eqn:Ef, half_closer; cbn; split_and!; try done; auto.
  - (* the FIN of the candidate *)
    destruct (i_replacer _ _ Hi) as (H1 & H2 & Hf & Hx). cbn in H1, H2, Hf, Hx.
    destruct (H1 next st eq_refl) as (_ & _ & _ & _ & c' & Ec' & F1 & _ & _ & F4 & F5).
    rewrite H in Ec'. injection Ec' as <-. specialize (F4 _ eq_refl).
    destruct (i_conns _ _ Hi next c H) as [Hc1 Hc2]. cbn in Hc1, Hc2.
    eapply (candidate_write_inv _ _ _ _ (PFinSend next st e) _ _ _ _ _ _ next st c); try done.
    + split; cbn; [done|]. intros _. split; [done|]. intros E. rewrite F4. by apply Hx.
    + cbn. intros _. by exists e.
    + right. split; [done|]. split; [|by split]. cbn. by intros o [= <-].
  - eapply replacer_move; [exact Hi|by left].
  - destruct (replace_publish _ _ _ _ _) eqn:E; [by eapply publish_inv|].
    eapply replacer_move; [exact Hi|by left].
  - (* detach *)
    destruct Hi as [[] Hc Hp [Hj Hw] Hr Hd [Ha1 Ha2]]. cbn in *. split; cbn; try done.
    + split; [done|]. destruct w; try done.
      * destruct Hw as (? & ? & ? & ?). split; [done|]. by split; [|].
      * destruct Hw as (? & ? & ? & ? & ? & ?). do 3 (split; [done|]). by split; [|].
    + split; [done|]. intros ch Hch. destruct w; cbn in *; try done; injection Hch as <-; apply Ha1.
  - eapply replacer_move; [exact Hi|by left].
Qed.

Lemma other_step_inv x y : other_step x y -> inv peer x -> inv peer y.
Proof.
  intros Hstep Hi. destruct Hstep.
  - (* Ack *)
    unfold ack_begin in H0. destruct (rs_closed s); [done|].
    destruct (Z.ltb_spec (rs_transmitted s) offset).
    { destruct (_ && _); done. }
    injection H0 as <-. destruct Hi as [[Hh Ht Hk Hcl] Hc Hp Hw Hr Hd Ha]. cbn in *.
    split; cbn; try done. split; cbn; try done. by constructor.
  - unfold ack_begin in H0. destruct (rs_closed s) eqn:Ecl; [done|].
    destruct (Z.ltb_spec (rs_transmitted s) offset); [|done].
    destruct (_ && _); [|done]. injection H0 as <-.
    destruct Hi as [[Hh Ht Hk Hcl] Hc Hp Hw Hr Hd Ha]. cbn in *. split; cbn; try done.
    destruct Hr as (G1 & G2 & G3). split; [done|]. split; [|done].
    intros e E. destruct (G2 e E) as (? & ? & Hg). rewrite Ecl in Hg. split; [done|]. by split.
  - pose proof (i_stream _ _ Hi) as [Hh Ht Hk Hcl]. cbn in Hh, Ht, Hk.
    apply Forall_app in Hk as [Hk1 Hk2]. apply Forall_cons_1 in Hk2 as [Hko Hk2].
    destruct (ackJournal_holds _ h _ _ _ _ Hh H) as (Hh' & Hb' & _).
    apply (journal_inv _ _ _ _ _ _ _ _ _ _ j') in Hi; [|done|lia].
    destruct Hi as [[] Hc Hp Hw Hr Hd Ha]. cbn in *. split; cbn; try done. split; cbn; try done.
    by apply Forall_app.
  - (* Close *)
    destruct Hi as [[Hh Ht Hk Hcl] Hc Hp [Hj Hw] Hr Hd Ha]. cbn in *. split; cbn; try done.
    + split; [done|]. destruct w; try done.
      * destruct Hw as (? & ? & ? & ?). split; [done|]. by split; [|].
      * destruct Hw as (? & ? & ? & ? & ? & ?). do 3 (split; [done|]). by split; [|].
    + destruct Hr as (H1 & H2 & H3). split; [|split].
      * intros next st E. destruct (H1 next st E) as (? & ? & ?). by split.
      * intros e E. destruct (H2 e E) as (? & ? & Hg). split; [done|]. split; [done|].
        intros Hl Hx. destruct (Hg Hl Hx). split; [done|by left].
      * destruct p as [| | | | | | | ? ? ? []|]; done.
  - pose proof (i_stream _ _ Hi) as [Hh Ht Hk Hcl]. cbn in Hh, Ht.
    pose proof (rl_close (state := State) (close := Journal.Close) _ _ Hh) as [Hh' Hb'].
    apply journal_inv; [done| |done]. cbn in Hb'. rewrite Hb'. lia.
  - (* the context is done *)
    destruct Hi as [Hs Hc Hp Hw Hr Hd Ha]. cbn in *. split; cbn; try done.
    + intros q c Hq. destruct (Hc q c Hq) as [? Hf]. split; [done|]. intros Hx. by destruct (Hf Hx).
    + destruct Hr as (H1 & H2 & H3). split; [done|]. split.
      * intros e' E. destruct (H2 e' E) as (? & ? & _). split; [done|]. by split.
      * destruct p as [| | | | | | | ? ? ? []|]; try done; destruct H3; by split.
Qed.
End Preservation.
