(* ===== verification/ResumableProps.v ===== *)
(** * Executions of the resumable stream

    Reachable states satisfy the invariant; journals no larger than the replay
    buffer need no proviso; an executable scheduler runs schedules of the
    model; the properties, and two executions in which the code does not keep
    what it promises. *)
From stdpp Require Import prelude gmap list.
From S2P Require Import Prelude Cell Journal Resumable ResumableInv.

(** ** Executions *)

Section Executions.
Context {recoverableRead recoverableWrite : error -> bool} {ackEvery : Z} {peer : list byte}.
Hypothesis peer_bound : len peer <= MaxSequence.
Let step := step recoverableRead recoverableWrite ackEvery peer.
Let reachable := reachable recoverableRead recoverableWrite ackEvery peer.

Lemma start_inv c s q :
  NewResumableStream c = Ok s -> cf_initial c = Some q -> inv peer (start s q).
Proof.
  unfold NewResumableStream. intros H Hq. rewrite Hq in H.
  destruct (cf_context c); [|done]. destruct (_ || _); [done|].
  destruct (NewJournal (cf_journal c)) as [j|] eqn:Ej; [|done]. injection H as <-.
  pose proof (NewJournal_holds _ _ Ej) as Hh. destruct (base_bounds _ _ Hh) as (Hb & _ & Hm).
  split; cbn.
  - split; cbn; try done. unfold len in *. cbn in *. lia.
  - apply map_Forall_singleton. split; cbn; [|done]. by apply segment_nil.
  - intros q' [= <-]. eexists. rewrite lookup_singleton_eq. split; [done|]. cbn. done.
  - split; [done|]. done.
  - split; [done|]. by split.
  - split; [apply segment_nil; pose proof (len_nonneg peer); lia|]. cbn.
    split; [done|]. split; [|done]. rewrite MaxSequence_eq. lia.
  - by split.
Qed.

Lemma step_inv x y : step x y -> no_overshoot x -> no_overshoot y -> inv peer x -> inv peer y.
Proof.
  intros [H|[H|[H|H]]] Hx Hy Hi.
  - by eapply (writer_step_inv (recoverableRead := recoverableRead)).
  - by eapply reader_step_inv.
  - by eapply replacer_step_inv.
  - by eapply other_step_inv.
Qed.

(** The executions in which no replay goes past the journal end it read. *)
Inductive calm (x0 : system) : system -> Prop :=
| calm_refl : calm x0 x0
| calm_step x y : calm x0 x -> step x y -> no_overshoot y -> calm x0 y.

Lemma calm_inv c s q x :
  NewResumableStream c = Ok s -> cf_initial c = Some q -> calm (start s q) x ->
  inv peer x /\ no_overshoot x.
Proof.
  intros Hc Hq. induction 1 as [|x y _ [Hi Hn] Hs Hy]; [by split; [eapply start_inv|]|].
  split; [by eapply step_inv|done].
Qed.

(** *** Journals of at most one replay buffer are always calm *)

Definition small_journal (j : Journal) : Prop :=
  j_closed j = true \/ len (j_buffer j) <= replayCopyBufferSize.

Definition small_replay (j : Journal) (p : replacer) : Prop :=
  match p with
  | PState _ st => PeerReceiveOffset st <= j_base j
  | PReplay _ st e room o => e <= j_end j /\
      (o = e \/ (o = PeerReceiveOffset st /\ o < e /\
                  (j_closed j = true \/ o < j_base j \/ room = e - o)))
  | PWrite _ _ e _ _ o => o = e
  | _ => True
  end.

Definition small (x : system) : Prop :=
  small_journal (rs_journal (sy_stream x)) /\ small_replay (rs_journal (sy_stream x)) (sy_replacer x).

Lemma small_no_overshoot x : small x -> no_overshoot x.
Proof. intros [_ H]. unfold no_overshoot. destruct (sy_replacer x); cbn in H; lia || done. Qed.

Lemma small_evolves j j' p :
  evolves j j' -> small_journal j -> small_replay j p -> small_journal j' /\ small_replay j' p.
Proof.
  intros (C & B & E & L) Hj Hp. split.
  - destruct L as [|L]; [by left|]. destruct Hj as [Hj|Hj]; [left; auto|right; lia].
  - destruct p; cbn in *; try done; [lia|]. destruct Hp as [He [?|(? & ? & Hd)]]; (split; [lia|]); [by left|right].
    split; [done|]. split; [done|]. destruct Hd as [?|[?|?]]; [left; auto|right; left; lia|auto].
Qed.

Lemma mark_journal s q : rs_journal (markUnavailable s q).1 = rs_journal s.
Proof. unfold markUnavailable. by destruct (_ || _). Qed.

Lemma ackJournal_evolves j h o df j' r : holds j h -> ackJournal j o df = (j', r) -> evolves j j'.
Proof. intros Hh. unfold ackJournal. destruct (_ && _); [by intros [= <- _]|by eapply Ack_evolves]. Qed.

Lemma writer_journal x y :
  writer_step recoverableWrite x y -> inv peer x ->
  sy_replacer y = sy_replacer x /\ evolves (rs_journal (sy_stream x)) (rs_journal (sy_stream y)).
Proof.
  intros Hs Hi. pose proof (i_stream _ _ Hi) as [Hh _ _ _].
  destruct Hs; cbn in *; (split; [done|]); rewrite ?mark_journal; try done.
  - by eapply Append_evolves.
  - by eapply Append_evolves.
  - unfold write_attempt in H0. repeat case_match; simplify_eq; done.
  - destruct (cm_deferred c =? 0); [by injection H as <- _|by eapply ackJournal_evolves].
  - unfold close_write_begin in H. repeat case_match; simplify_eq; done.
  - unfold close_write_sent. by case_bool_decide.
Qed.

Lemma reader_journal x y :
  reader_step recoverableRead ackEvery peer x y ->
  sy_replacer y = sy_replacer x /\ rs_journal (sy_stream y) = rs_journal (sy_stream x).
Proof.
  intros Hs. destruct Hs; cbn; (split; [done|]); rewrite ?mark_journal; try done.
  all: unfold read_commit in H; repeat case_match; simplify_eq; done.
Qed.

Lemma other_journal x y :
  other_step x y -> inv peer x ->
  sy_replacer y = sy_replacer x /\ evolves (rs_journal (sy_stream x)) (rs_journal (sy_stream y)).
Proof.
  intros Hs Hi. pose proof (i_stream _ _ Hi) as [Hh _ _ _].
  destruct Hs; cbn in *; (split; [done|]); try done.
  - unfold ack_begin in H0. repeat case_match; simplify_eq; done.
  - unfold ack_begin in H0. repeat case_match; simplify_eq; done.
  - by eapply Ack_evolves.
  - apply Close_evolves.
Qed.

Lemma replacer_small x y : replacer_step x y -> inv peer x -> small x -> small y.
Proof.
  intros Hs Hi Hsm. pose proof (i_stream _ _ Hi) as [Hh Ht _ _].
  destruct Hs; destruct Hsm as [Hj Hp]; cbn in *.
  - by split.
  - pose proof (Ack_evolves _ _ _ _ _ Hh H) as Hev.
    destruct (small_evolves _ _ (PAck next st) Hev Hj I) as [Hj' _]. split; [done|]. cbn.
    destruct o as [[]|]; [|done]. cbn.
    destruct (holds_ack _ _ _ _ _ Hh H) as (_ & ? & _). lia.
  - split; [done|]. cbn. split; [done|].
    destruct (base_bounds _ _ Hh) as (Hb & He & _).
    destruct (i_replacer _ _ Hi) as (H1 & _). destruct (H1 next st eq_refl) as (_ & Hpro & _). cbn in Hpro.
    destruct (Z.eq_dec (PeerReceiveOffset st) (j_end (rs_journal s))) as [E|E]; [by left|right].
    split; [done|]. split; [lia|]. destruct (j_closed (rs_journal s)) eqn:Ec; [by left|right].
    destruct Hj as [Hj|Hj]; [congruence|]. apply holds_open in Hh as ((_ & _ & _ & Hsz & _ & Hsz' & _) & _); [|done].
    destruct (Z.eq_dec (j_base (rs_journal s)) (PeerReceiveOffset st)) as [Eb|]; [right|left; lia].
    unfold replayCopyBufferSize in *. lia.
  - split; [done|]. cbn. destruct Hp as [He Hd].
    destruct (Replay (rs_journal s) o room) as [[bs o']|] eqn:E; [|done].
    destruct (len bs =? 0); [done|]. cbn.
    destruct Hd as [->|(Ho & Hlt & [Hcl|Hd])]; [lia|by rewrite Replay_closed in E|].
    destruct (i_replacer _ _ Hi) as (_ & _ & Hroom). cbn in Hroom.
    destruct (j_closed (rs_journal s)) eqn:Ec; [by rewrite Replay_closed in E|].
    assert (Hbo : j_base (rs_journal s) <= o <= j_end (rs_journal s)).
    { unfold Replay in E. rewrite Ec in E. destruct (_ || _) eqn:G; [done|]. guards. zb. lia. }
    destruct (holds_replay _ _ _ _ Hh Hroom Ec Hbo) as [E' _]. rewrite E' in E. injection E as _ <-.
    destruct (base_bounds _ _ Hh) as (_ & He' & _). destruct Hd; lia.
  - by split.
  - split; [done|]. cbn. destruct err; [done|]. cbn. subst o. split; [|by left].
    destruct (i_replacer _ _ Hi) as (_ & H2 & _). destruct (H2 e eq_refl) as (He & _). cbn in He.
    destruct (base_bounds _ _ Hh) as (_ & He' & _). lia.
  - split; [done|]. cbn. by destruct (_ && _).
  - by split.
  - by split.
  - split; [|done]. cbn. unfold replace_publish. by destruct (_ || _).
  - by split.
  - by split.
Qed.

(** With a journal no larger than the replay buffer, every execution is calm. *)
Lemma small_calm c s q x :
  NewResumableStream c = Ok s -> cf_initial c = Some q -> cf_journal c <= replayCopyBufferSize ->
  reachable (start s q) x -> calm (start s q) x /\ small x.
Proof.
  intros Hc Hq Hcap. induction 1 as [|x y _ [Hx Hs] Hstep].
  - split; [constructor|]. split; [|done]. cbn. right. unfold NewResumableStream in Hc.
    rewrite Hq in Hc. destruct (cf_context c); [|done]. destruct (_ || _); [done|].
    destruct (NewJournal (cf_journal c)) as [j|] eqn:Ej; [|done]. injection Hc as <-. cbn.
    pose proof (NewJournal_ok _ _ Ej) as [_ Ea]. apply (f_equal lg_capacity) in Ea. cbn in Ea. lia.
  - destruct (calm_inv c s q x Hc Hq Hx) as [Hi _].
    assert (Hy : small y); [|split; [|done]; econstructor; eauto using small_no_overshoot].
    destruct Hs as [Hj Hp]. destruct Hstep as [H|[H|[H|H]]].
    + destruct (writer_journal _ _ H Hi) as [Er Hev]. unfold small. rewrite Er. by eapply small_evolves.
    + destruct (reader_journal _ _ H) as [Er Ej]. unfold small. by rewrite Er, Ej.
    + eapply replacer_small; eauto. by split.
    + destruct (other_journal _ _ H Hi) as [Er Hev]. unfold small. rewrite Er. by eapply small_evolves.
Qed.
End Executions.

(** ** An executable scheduler *)

(** One step of one goroutine, with what the environment decides: payloads,
    counts and errors of the physical streams, the arguments of the calls. *)
Inductive label :=
| LWrite (payload : list byte)
| LCloseWrite
| LWriter (chan : nat) (n : Z) (err : option error)
| LRead (room : Z)
| LReader
| LReadData (bs : list byte) (err : option error)
| LReadNone (n : Z) (err : option error)
| LReplace (next : Z) (st : ResumeState)
| LReplacer (outs : list (Z * option error))
| LDetach
| LAck (offset : Z)
| LAckJournal
| LClose
| LContext (e : error).

Section Scheduler.
Variables (recoverableRead recoverableWrite : error -> bool) (ackEvery : Z) (peer : list byte).

Definition segment_b (o : Z) (l : list byte) : bool :=
  (0 <=? o) && (o + len l <=? len peer)
  && bytes_eq (take (length l) (drop (Z.to_nat o) peer)) l.

Definition run_writer (chan : nat) (n : Z) (err : option error) (x : system) : option system :=
  let '(mkSys s ctx w r p a d cs h dl) := x in
  let go s w := Some (mkSys s ctx w r p a d cs h dl) in
  match w with
  | WAppend payload =>
      match Append (rs_journal s) payload with
      | (j', Ok (b, e)) =>
          Some (mkSys (set_journal s j') ctx (WWait (mkJob payload b e)) r p a d cs (h ++ payload) dl)
      | (j', Err _) => go (set_journal s j') WIdle
      end
  | WWait jb =>
      match waitPhysical s ctx with
      | Some (Ok q) => go s match write_plan (jb_start jb) (jb_end jb) (rs_transmitted s) with
                            | PlanSend _ => WTry jb q (rs_transmitted s)
                            | _ => WIdle
                            end
      | Some (Err _) => go s WIdle
      | None => None
      end
  | WTry jb q t =>
      if decide (chan ∈ d) then None
      else match write_attempt s q t (jb_end jb) chan with
           | AttemptClosed => go s WIdle
           | AttemptRetry => go s (WWait jb)
           | Attempt s' => go s' (WSend jb q t chan)
           end
  | WSend jb q t chan =>
      match cs !! q with
      | Some c =>
          let rest := drop (Z.to_nat (t - jb_start jb)) (jb_payload jb) in
          match sanitize (len rest) n err with
          | (n', err') =>
              Some (mkSys s ctx (WCommit jb q t n' err' chan) r p a d
                      (<[q := sent_more c (take (Z.to_nat n') rest)]> cs) h dl)
          end
      | None => None
      end
  | WCommit jb q t n err chan =>
      let c := write_commit s q t n (len (jb_payload jb) - (t - jb_start jb)) err in
      go (cm_stream c) (WAck jb q c)
  | WAck jb q c =>
      match (if cm_deferred c =? 0 then (rs_journal s, Ok tt)
             else ackJournal (rs_journal s) (cm_deferred c) true) with
      | (j', o) =>
          Some (mkSys (set_journal s j') ctx match o with Err _ => WIdle | Ok _ => WNext jb q c end
                  r p a match cm_chan c with Some ch => {[ch]} ∪ d | None => d end cs h dl)
      end
  | WNext jb q c =>
      go s match write_next recoverableWrite c (jb_start jb) (jb_end jb) with
           | inl _ => WIdle | inr None => WWait jb | inr (Some e) => WMark jb q e end
  | WMark jb q e => go (markUnavailable s q).1 (WWait jb)
  | KWait =>
      match waitPhysical s ctx with
      | Some (Ok q) => go s (if rs_transmitted s <? EndOffset (State (rs_journal s)) then WIdle else KCheck q)
      | Some (Err _) => go s WIdle
      | None => None
      end
  | KCheck q => go s (if rs_finTransmitted s || negb true then WIdle else KSend q)
  | KSend q =>
      match err, cs !! q with
      | Some e, _ => go s (KMark q e)
      | None, Some c => Some (mkSys s ctx (KDone q) r p a d (<[q := sent_fin c]> cs) h dl)
      | None, None => None
      end
  | KDone q => go (close_write_sent s q) WIdle
  | KMark q e => go (markUnavailable s q).1 KWait
  | WIdle => None
  end.

Definition run_reader (x : system) : option system :=
  let '(mkSys s ctx w r p a d cs h dl) := x in
  let go s r := Some (mkSys s ctx w r p a d cs h dl) in
  match r with
  | RWait room =>
      match waitPhysical s ctx with
      | Some (Ok q) => go s (RRead room q)
      | Some (Err _) => go s RIdle
      | None => None
      end
  | RCommit room q bs err =>
      match read_commit ackEvery s q (len bs) with
      | (s', Ok (discarded, notify)) =>
          match read_after recoverableRead (len bs - discarded) None err with
          | (es, ret) =>
              Some (mkSys s' ctx w (RMarks room q es ret) p a d cs h (dl ++ drop (Z.to_nat discarded) bs))
          end
      | (s', Err _) => go s' RIdle
      end
  | RMarks room q (e :: es) ret => go (markUnavailable s q).1 (RMarks room q es ret)
  | RMarks room q [] ret => go s (if ret then RIdle else RWait room)
  | _ => None
  end.

Definition run_replacer (outs : list (Z * option error)) (x : system) : option system :=
  let '(mkSys s ctx w r p a d cs h dl) := x in
  let go s p := Some (mkSys s ctx w r p a d cs h dl) in
  match p with
  | PAck next st =>
      match ackJournal (rs_journal s) (PeerReceiveOffset st) false with
      | (j', o) => go (set_journal s j') match o with Ok _ => PState next st | Err _ => PIdle end
      end
  | PState next st =>
      let js := State (rs_journal s) in
      go s (PReplay next st (EndOffset js) (Z.min replayCopyBufferSize (Z.max 1 (BufferedBytes js)))
              (PeerReceiveOffset st))
  | PReplay next st e room o =>
      if Z_lt_dec o e then
        go s match Replay (rs_journal s) o room with
             | Ok (bs, o') => if len bs =? 0 then PIdle else PWrite next st e room bs o'
             | Err _ => PIdle
             end
      else go s (PFin next st e)
  | PWrite next st e room bs o =>
      match cs !! next, writeAll bs outs with
      | Some c, Some (sent, err) =>
          Some (mkSys s ctx w r match err with None => PReplay next st e room o | Some _ => PIdle end
                  a d (<[next := sent_more c sent]> cs) h dl)
      | _, _ => None
      end
  | PFin next st e =>
      go s (if rs_localFIN s && true then PFinSend next st e else PPublish next st e (rs_localFIN s))
  | PFinSend next st e =>
      match cs !! next with
      | Some c => Some (mkSys s ctx w r (PPublish next st e true) a d (<[next := sent_fin c]> cs) h dl)
      | None => None
      end
  | PPublish next st e fin =>
      go match replace_publish s next e fin st with Ok s' => s' | Err _ => s end PIdle
  | PDetach chan =>
      match chan with
      | Some ch => if decide (ch ∈ d) then go s PIdle else None
      | None => go s PIdle
      end
  | PIdle => None
  end.

Definition run_label (l : label) (x : system) : option system :=
  let '(mkSys s ctx w r p a d cs h dl) := x in
  match l with
  | LWriter chan n err => run_writer chan n err x
  | LReader => run_reader x
  | LReplacer outs => run_replacer outs x
  | LWrite payload =>
      match w, payload, write_check s with
      | WIdle, _ :: _, None => Some (mkSys s ctx (WAppend payload) r p a d cs h dl)
      | _, _, _ => None
      end
  | LCloseWrite =>
      match w, close_write_begin s with
      | WIdle, inr s' => Some (mkSys s' ctx KWait r p a d cs h dl)
      | _, _ => None
      end
  | LRead room =>
      match r with
      | RIdle => if Z_lt_dec 0 room then Some (mkSys s ctx w (RWait room) p a d cs h dl) else None
      | _ => None
      end
  | LReadData bs err =>
      match r with
      | RRead room q =>
          match cs !! q with
          | Some c =>
              if (0 <? len bs) && (len bs <=? room) && segment_b (c_recv c + c_consumed c) bs
              then Some (mkSys s ctx w (RCommit room q bs err) p a d (<[q := read_more c (len bs)]> cs) h dl)
              else None
          | None => None
          end
      | _ => None
      end
  | LReadNone n err =>
      match r with
      | RRead room q =>
          match sanitize room n err with
          | (Z0, err') =>
              let e := default (Sentinel ErrNoProgress) err' in
              Some (mkSys s ctx w (if recoverableRead e then RMarks room q [e] false else RIdle) p a d cs h dl)
          | _ => None
          end
      | _ => None
      end
  | LReplace next st =>
      match p, cs !! next, replace_check s st with
      | PIdle, None, None =>
          if (0 <=? PeerReceiveOffset st) && (0 <=? ReceiveOffset st) then
            Some (mkSys s ctx w r (PAck next st) a d
                    (<[next := mkConn (PeerReceiveOffset st) [] false (ReceiveOffset st) 0]> cs) h dl)
          else None
      | _, _, _ => None
      end
  | LDetach =>
      match p, rs_closed s with
      | PIdle, false => Some (mkSys (detach s) ctx w r (PDetach (rs_attempt s)) a d cs h dl)
      | _, _ => None
      end
  | LAck offset =>
      if 0 <=? offset then
        match ack_begin s offset with
        | (s', inr true) => Some (mkSys s' ctx w r p (offset :: a) d cs h dl)
        | (s', inr false) => Some (mkSys s' ctx w r p a d cs h dl)
        | _ => None
        end
      else None
  | LAckJournal =>
      match a with
      | offset :: a => Some (mkSys (set_journal s (ackJournal (rs_journal s) offset false).1) ctx w r p a d cs h dl)
      | [] => None
      end
  | LClose =>
      if rs_closed s then Some (mkSys (set_journal s (Journal.Close (rs_journal s))) ctx w r p a d cs h dl)
      else Some (mkSys (close_begin s) ctx w r p a d cs h dl)
  | LContext e =>
      match ctx with None => Some (mkSys s (Some e) w r p a d cs h dl) | Some _ => None end
  end.

Fixpoint run_labels (ls : list label) (x : system) : option system :=
  match ls with
  | [] => Some x
  | l :: ls => match run_label l x with Some y => run_labels ls y | None => None end
  end.

Let step := step recoverableRead recoverableWrite ackEvery peer.

Lemma segment_b_true o l : segment_b o l = true -> segment peer o l.
Proof. unfold segment_b. intros H. guards. zb. rewrite bytes_eq_true in *. by split_and!. Qed.

Lemma run_writer_sound chan n err x y :
  run_writer chan n err x = Some y -> writer_step recoverableWrite x y.
Proof.
  destruct x as [s ctx w r p a d cs h dl]. unfold run_writer. intros H. destruct w.
  - done.
  - destruct (Append _ _) as [j' [[b e]|e]] eqn:E; injection H as <-;
      [by apply st_append|by eapply st_append_err].
  - destruct (waitPhysical s ctx) as [[q|e]|] eqn:E; [injection H as <-..|done];
      [by apply st_write_wait|by eapply st_write_wait_err].
  - destruct (decide _); [done|]. destruct (write_attempt _ _ _ _ _) eqn:E; injection H as <-;
      [by eapply st_write_closed|by eapply st_write_retry|by apply st_write_attempt].
  - destruct (cs !! p0) as [c|] eqn:Ec; [|done]. destruct (sanitize _ _ _) as [n' err'] eqn:E.
    injection H as <-. by eapply st_write_send.
  - injection H as <-. apply st_write_commit.
  - destruct (if cm_deferred c =? 0 then _ else _) as [j' o] eqn:E. injection H as <-.
    by apply st_write_ack.
  - injection H as <-. apply st_write_next.
  - injection H as <-. apply st_write_mark.
  - destruct (waitPhysical s ctx) as [[q|e]|] eqn:E; [injection H as <-..|done];
      [by apply st_fin_wait|by eapply st_fin_wait_err].
  - injection H as <-. apply (st_fin_check _ _ _ _ _ _ _ _ _ _ _ true).
  - destruct err as [e|]; [injection H as <-; apply st_fin_send_err|].
    destruct (cs !! p0) as [c|] eqn:Ec; [|done]. injection H as <-. by apply st_fin_send.
  - injection H as <-. apply st_fin_done.
  - injection H as <-. apply st_fin_mark.
Qed.

Lemma run_reader_sound x y :
  run_reader x = Some y -> reader_step recoverableRead ackEvery peer x y.
Proof.
  destruct x as [s ctx w r p a d cs h dl]. unfold run_reader. intros H. destruct r as [|room|room q|room q bs err|room q es ret].
  - done.
  - destruct (waitPhysical s ctx) as [[q|e]|] eqn:E; [injection H as <-..|done];
      [by apply st_read_wait|by eapply st_read_wait_err].
  - done.
  - destruct (read_commit _ _ _ _) as [s' [[dd nt]|e]] eqn:E;
      [|injection H as <-; by eapply st_read_commit_err].
    destruct (read_after _ _ _ _) as [es ret] eqn:E'. injection H as <-.
    by eapply st_read_commit.
  - destruct es as [|e es]; injection H as <-; [apply st_read_return|apply st_read_mark].
Qed.

Lemma run_replacer_sound outs x y : run_replacer outs x = Some y -> replacer_step x y.
Proof.
  destruct x as [s ctx w r p a d cs h dl]. unfold run_replacer. intros H. destruct p.
  - done.
  - destruct (ackJournal _ _ _) as [j' o] eqn:E. injection H as <-. by apply st_replace_ack.
  - injection H as <-. apply st_replace_state.
  - destruct (Z_lt_dec offset end_); injection H as <-;
      [by apply st_replace_replay|apply st_replace_replayed; lia].
  - destruct (cs !! next) as [c|] eqn:Ec; [|done].
    destruct (writeAll bs outs) as [[sent err]|] eqn:E; [|done]. injection H as <-.
    by eapply st_replace_write.
  - injection H as <-. apply (st_replace_fin _ _ _ _ _ _ _ _ _ _ _ _ true).
  - destruct (cs !! next) as [c|] eqn:Ec; [|done]. injection H as <-. by apply st_replace_fin_send.
  - injection H as <-. apply st_replace_publish.
  - destruct chan as [ch|]; [destruct (decide _); [|done]|]; injection H as <-; by apply st_detached.
Qed.

(** The scheduler runs steps of the model. *)
Lemma run_label_sound l x y : run_label l x = Some y -> step x y.
Proof.
  destruct l; intros H.
  all: destruct x as [s ctx w r p a d cs h dl]; cbn [run_label] in H.
  - left. destruct w; try done. destruct payload; [done|].
    destruct (write_check s) eqn:E; [done|]. injection H as <-. by apply st_write.
  - left. destruct w; try done. destruct (close_write_begin s) eqn:E; [done|]. injection H as <-.
    by apply st_close_write.
  - left. by eapply run_writer_sound.
  - right; left. destruct r; try done. destruct (Z_lt_dec 0 room); [|done]. injection H as <-.
    by apply st_read.
  - right; left. by apply run_reader_sound.
  - right; left. destruct r as [| |room q| |]; try done. destruct (cs !! q) as [c|] eqn:Ec; [|done].
    destruct (_ && _) eqn:G; [|done]. injection H as <-. guards. zb.
    apply st_read_data; [done|lia|by apply segment_b_true].
  - right; left. destruct r as [| |room q| |]; try done.
    destruct (sanitize room n err) as [n' err'] eqn:E. destruct n'; try done. injection H as <-.
    by eapply st_read_none.
  - right; right; left. destruct p; try done. destruct (cs !! next) eqn:Ec; [done|].
    destruct (replace_check s st) eqn:E; [done|]. destruct (_ && _) eqn:G; [|done].
    injection H as <-. guards. zb. by apply st_replace.
  - right; right; left. by eapply run_replacer_sound.
  - right; right; left. destruct p; try done. destruct (rs_closed s) eqn:E; [done|].
    injection H as <-. by apply st_detach.
  - right; right; right. destruct (Z.leb_spec 0 offset); [|done].
    destruct (ack_begin s offset) as [s' [e|[]]] eqn:E; [done|..]; injection H as <-;
      [by apply st_ack|by eapply st_ack_deferred].
  - right; right; right. destruct a as [|offset a]; [done|].
    destruct (ackJournal _ _ _) as [j' o] eqn:E. injection H as <-.
    by apply (st_ack_journal _ _ _ _ _ [] _ _ _ _ _ _ _ o).
  - right; right; right. destruct (rs_closed s) eqn:E; injection H as <-;
      [by apply st_close_journal|by apply st_close].
  - right; right; right. destruct ctx; [done|]. injection H as <-. apply st_context.
Qed.

Lemma run_labels_reachable ls : forall x0 x y,
  reachable recoverableRead recoverableWrite ackEvery peer x0 x -> run_labels ls x = Some y ->
  reachable recoverableRead recoverableWrite ackEvery peer x0 y.
Proof.
  induction ls as [|l ls IH]; intros x0 x y Hx H; cbn [run_labels] in H; [by injection H as <-|].
  destruct (run_label l x) as [z|] eqn:E; [|done]. apply (IH _ z); [|done].
  econstructor; [exact Hx|]. by eapply run_label_sound.
Qed.

(** Whether every state a schedule goes through is free of overshoot. *)
Definition no_overshoot_b (x : system) : bool :=
  match sy_replacer x with
  | PReplay _ _ e _ o => o <=? e
  | PWrite _ _ e _ _ o => o <=? e
  | _ => true
  end.

Fixpoint calm_b (ls : list label) (x : system) : bool :=
  match ls with
  | [] => true
  | l :: ls => match run_label l x with
               | Some y => no_overshoot_b y && calm_b ls y
               | None => false
               end
  end.

Lemma run_labels_calm ls : forall x0 x y,
  calm (recoverableRead := recoverableRead) (recoverableWrite := recoverableWrite)
    (ackEvery := ackEvery) (peer := peer) x0 x ->
  calm_b ls x = true -> run_labels ls x = Some y ->
  calm (recoverableRead := recoverableRead) (recoverableWrite := recoverableWrite)
    (ackEvery := ackEvery) (peer := peer) x0 y.
Proof.
  induction ls as [|l ls IH]; intros x0 x y Hx Hb H; cbn [run_labels calm_b] in H, Hb; [by injection H as <-|].
  destruct (run_label l x) as [z|] eqn:E; [|done]. apply andb_true_iff in Hb as [Hz Hb].
  apply (IH _ z); [|done..]. econstructor; [exact Hx|by eapply run_label_sound|].
  unfold no_overshoot_b in Hz. unfold no_overshoot. destruct (sy_replacer z); try done; by zb.
Qed.
End Scheduler.

(** ** Properties *)

Section Properties.
Variables (recoverableRead recoverableWrite : error -> bool) (ackEvery : Z) (peer : list byte).
Variables (c : ResumableStreamConfig) (s : ResumableStream) (q : Z).

(** C1: as long as no replay of Replace goes past the journal end it read,
    every interleaving of Write, CloseWrite, Read, Replace, DetachPhysical,
    Ack and Close, over any number of replacements and whatever the physical
    streams do, keeps the wire exact: the bytes each physical stream accepted
    are the bytes the application wrote, from the logical offset where that
    stream starts, without loss, repetition or reordering; between writes the
    send counter is the offset the current physical stream has reached; and
    the acknowledged offset never passes it. *)
Theorem wire_exact x :
  len peer <= MaxSequence -> NewResumableStream c = Ok s -> cf_initial c = Some q ->
  calm (recoverableRead := recoverableRead) (recoverableWrite := recoverableWrite)
    (ackEvery := ackEvery) (peer := peer) (start s q) x ->
  (forall p k, sy_conns x !! p = Some k -> segment (sy_history x) (c_start k) (c_sent k)) /\
  (forall p, rs_physical (sy_stream x) = Some p -> attempt_of (sy_writer x) = None ->
     exists k, sy_conns x !! p = Some k /\
       c_start k + len (c_sent k) = rs_transmitted (sy_stream x)) /\
  0 <= j_base (rs_journal (sy_stream x)) <= rs_transmitted (sy_stream x) /\
  rs_transmitted (sy_stream x) <= len (sy_history x).
Proof.
  intros Hpeer Hc Hq Hx. destruct (calm_inv Hpeer c s q x Hc Hq Hx) as [[[Hh Ht _ _] Hcs Hp _ _ _ _] _].
  split; [intros p k Hk; by apply (Hcs p k)|].
  destruct (base_bounds _ _ Hh) as (Hb & _). split; [|lia].
  intros p Hph Hatt. destruct (Hp p Hph) as (k & Hk & E & _). exists k. split; [done|].
  destruct (sy_writer x); cbn in *; lia || done.
Qed.

(** in the same executions, what Read returned is a prefix of the peer's
    stream: bytes a replacement sends again are discarded, and no byte of the
    peer is lost or delivered twice when carriers fail between a read and its
    accounting. *)
Theorem reads_exact x :
  len peer <= MaxSequence -> NewResumableStream c = Ok s -> cf_initial c = Some q ->
  calm (recoverableRead := recoverableRead) (recoverableWrite := recoverableWrite)
    (ackEvery := ackEvery) (peer := peer) (start s q) x ->
  sy_delivered x = take (length (sy_delivered x)) peer /\
  len (sy_delivered x) = rs_receive (sy_stream x).
Proof.
  intros Hpeer Hc Hq Hx. destruct (calm_inv Hpeer c s q x Hc Hq Hx) as [Hi _].
  destruct (i_reader _ _ Hi) as (Hd & El & _). split; [by apply segment_prefix|done].
Qed.

(** with a journal of at most 32 KiB (one replay buffer) the proviso of
    the two theorems above always holds: wire and reads are exact in every
    execution. *)
Theorem small_journals_exact x :
  len peer <= MaxSequence -> NewResumableStream c = Ok s -> cf_initial c = Some q ->
  cf_journal c <= replayCopyBufferSize ->
  reachable recoverableRead recoverableWrite ackEvery peer (start s q) x ->
  (forall p k, sy_conns x !! p = Some k -> segment (sy_history x) (c_start k) (c_sent k)) /\
  sy_delivered x = take (length (sy_delivered x)) peer.
Proof.
  intros Hpeer Hc Hq Hcap Hx. destruct (small_calm Hpeer c s q x Hc Hq Hcap Hx) as [Hcalm _].
  destruct (calm_inv Hpeer c s q x Hc Hq Hcalm) as [Hi _].
  split; [intros p k Hk; by apply (i_conns _ _ Hi p k)|].
  destruct (i_reader _ _ Hi) as (Hd & _). by apply segment_prefix.
Qed.

(** a physical stream is half-closed only after CloseWrite was called, and
    while the context is alive only after every byte ever written has reached
    that very stream. *)
Theorem fin_after_data x p k :
  len peer <= MaxSequence -> NewResumableStream c = Ok s -> cf_initial c = Some q ->
  calm (recoverableRead := recoverableRead) (recoverableWrite := recoverableWrite)
    (ackEvery := ackEvery) (peer := peer) (start s q) x ->
  sy_conns x !! p = Some k -> c_fin k = true ->
  rs_localFIN (sy_stream x) = true /\
  (sy_ctx x = None -> c_start k + len (c_sent k) = len (sy_history x)).
Proof.
  intros Hpeer Hc Hq Hx Hk Hf. destruct (calm_inv Hpeer c s q x Hc Hq Hx) as [Hi _].
  by apply (i_conns _ _ Hi p k Hk).
Qed.

(** the migration barrier of DetachPhysical: when it is about to return
    (the attempt it waits for, if any, is over), no physical write is running
    or unaccounted for, and none can start, since there is no physical
    stream. *)
Theorem detach_barrier x chan :
  len peer <= MaxSequence -> NewResumableStream c = Ok s -> cf_initial c = Some q ->
  calm (recoverableRead := recoverableRead) (recoverableWrite := recoverableWrite)
    (ackEvery := ackEvery) (peer := peer) (start s q) x ->
  sy_replacer x = PDetach chan ->
  match chan with Some ch => ch ∈ sy_done x | None => True end ->
  attempt_of (sy_writer x) = None /\ rs_physical (sy_stream x) = None.
Proof.
  intros Hpeer Hc Hq Hx Hp Hdone. destruct (calm_inv Hpeer c s q x Hc Hq Hx) as [Hi _].
  pose proof (i_attempt _ _ Hi) as [Ha1 Ha2]. pose proof (i_replacer _ _ Hi) as (_ & _ & Hr).
  rewrite Hp in *. split; [|exact Hr].
  destruct (attempt_of (sy_writer x)) as [ch|] eqn:E; [|done]. specialize (Ha2 ch eq_refl).
  subst chan. destruct (sy_writer x); cbn in E; try done; injection E as ->; by destruct Ha1 as (_ & _ & []).
Qed.
End Properties.

(** *** Concrete executions *)

Module ResumableExample.
Definition recoverable_read (e : error) : bool := negb (errors_is e ErrEOF).
Definition recoverable_write (e : error) : bool := true.
Definition config (journal : Z) : ResumableStreamConfig := mkRSConfig (Some tt) (Some 1) journal 0 false.
Definition stream (journal : Z) : ResumableStream :=
  match NewResumableStream (config journal) with
  | Ok s => s
  | Err _ => mkRS (mkJournal [] 0 0 0 0 true) None 0 0 0 false false 0 0 None 0 true
  end.
Definition run (peer : list byte) (ls : list label) (x : system) : option system :=
  run_labels recoverable_read recoverable_write 0 peer ls x.
Definition run_or_start (peer : list byte) (journal : Z) (ls : list label) : system :=
  default (start (stream journal) 1) (run peer ls (start (stream journal) 1)).

(** A whole Write on a stream that accepts [n] bytes at once. *)
Definition write (payload : list byte) (chan : nat) (n : Z) : list label :=
  LWrite payload :: replicate 7 (LWriter chan n None).

(** The current physical stream fails under a read. *)
Definition fail : list label := [LRead 1; LReader; LReadNone 0 (Some (External 1)); LReader; LReader].

(** Everything after the first chunk of a replay of [n] bytes. *)
Definition steps (n : nat) (outs : list (Z * option error)) : list label := replicate n (LReplacer outs).

Definition peer : list byte := [x0a; x0b; x0c; x0d].

(** Four bytes of the peer are read from the first carrier, two more bytes are
    written than it accepts, a replacement starts at other offsets. *)
Definition resume : list label :=
  write [x01; x02; x03] 0 3 ++ [LAck 1; LAckJournal; LRead 8; LReader; LReadData [x0a; x0b] None; LReader; LReader]
  ++ [LWrite [x04; x05]; LWriter 1 0 None; LWriter 1 0 None; LWriter 1 0 None; LWriter 1 1 None;
      LRead 8; LReader; LReadNone 0 (Some (External 1)); LReader; LDetach; LWriter 1 0 None;
      LWriter 1 0 None].
Definition resumed : list label :=
  resume ++ [LReplacer []; LReplace 2 (mkResumeState 2 1); LReplacer []; LReplacer []; LReplacer [];
    LReplacer [(2, None); (1, None)]; LReplacer []; LReplacer []; LReplacer [];
    LWriter 2 0 None; LWriter 2 0 None; LCloseWrite; LWriter 0 0 None; LWriter 0 0 None; LWriter 0 0 None;
    LReader; LReader; LReadData [x0b; x0c] None; LReader; LReader].

(** A 256 KiB journal (the production setting) with 40000 unacknowledged
    bytes; the application writes one byte between the two chunks of the
    replay. *)
Definition duplicating : list label :=
  write (zeros (Z.to_nat 40000)) 0 40000 ++ fail
  ++ [LReplace 2 (mkResumeState 0 0); LReplacer []; LReplacer []; LReplacer []; LReplacer [(32768, None)];
      LWrite [x01]; LWriter 0 0 None;
      LReplacer []; LReplacer [(7233, None)]; LReplacer []; LReplacer []; LReplacer [];
      LWriter 1 0 None; LWriter 1 0 None; LWriter 1 1 None].

(** The context ends while a Write waits for the replacement; the caller then
    calls CloseWrite. *)
Definition overtaking : list label :=
  write [x01; x02; x03] 0 3 ++ fail
  ++ [LReplace 2 (mkResumeState 0 0); LReplacer []; LReplacer []; LWrite [x04]; LWriter 0 0 None;
      LContext (External 2); LWriter 0 0 None; LCloseWrite;
      LReplacer []; LReplacer [(3, None)]; LReplacer []; LReplacer []; LReplacer []].

(** What is checked of the outcome of a schedule. *)
Definition duplicated (o : option system) : bool :=
  match o with
  | Some x =>
      bool_decide (rs_physical (sy_stream x) = Some 2)
      && match sy_conns x !! 2 with
         | Some k => (len (sy_history x) =? 40001) && (c_start k =? 0) && (len (c_sent k) =? 40002)
                     && bytes_eq (slice (c_sent k) 40000 40002) [x01; x01]
         | None => false
         end
  | None => false
  end.

Lemma duplicated_spec (o : option system) :
  duplicated o = true ->
  exists x k, o = Some x /\ rs_physical (sy_stream x) = Some 2 /\ sy_conns x !! 2 = Some k /\
    len (sy_history x) = 40001 /\ c_start k = 0 /\ len (c_sent k) = 40002 /\
    slice (c_sent k) 40000 40002 = [x01; x01].
Proof.
  destruct o as [x|]; [|done]. unfold duplicated. intros [Hp H]%andb_true_iff.
  apply bool_decide_eq_true in Hp. destruct (sy_conns x !! 2) as [k|] eqn:Ek; [|done].
  guards. zb. rewrite bytes_eq_true in *. exists x, k. by split_and!.
Qed.

Lemma duplicating_check :
  duplicated (run_labels recoverable_read recoverable_write 0 [] duplicating
    (start (stream (256 * 1024)) 1)) = true.
Proof. vm_compute. reflexivity. Qed.

(** without the proviso, wire_exact fails.  Replace reads the journal end
    once but replays up to the end the journal has at each chunk: when a Write
    appends between two chunks, its bytes are replayed and then written again,
    because the send counter is set to the older end.  Here the peer receives
    the one byte of the last Write twice: the carrier accepted 40002 bytes of
    a stream of 40001. *)
Theorem replay_can_duplicate :
  exists x k, reachable recoverable_read recoverable_write 0 [] (start (stream (256 * 1024)) 1) x /\
    rs_physical (sy_stream x) = Some 2 /\ sy_conns x !! 2 = Some k /\
    len (sy_history x) = 40001 /\ c_start k = 0 /\ len (c_sent k) = 40002 /\
    slice (c_sent k) 40000 40002 = [x01; x01] /\
    ~ segment (sy_history x) (c_start k) (c_sent k).
Proof.
  destruct (duplicated_spec _ duplicating_check) as (x & k & E & H1 & H2 & H3 & H4 & H5 & H6).
  exists x, k. split; [exact (run_labels_reachable _ _ _ _ _ _ _ _ (reachable_refl _ _ _ _ _) E)|].
  clear E. split_and!; try done. intros (_ & Hs & _). lia.
Qed.

(** the comment of CloseWrite ("A FIN is sent only after every journaled
    byte has reached that physical stream") does not hold once the context is
    done: Replace then half-closes the replacement although a byte of the
    journal was never sent on it. *)
Theorem fin_can_overtake_data :
  exists x k, reachable recoverable_read recoverable_write 0 [] (start (stream 8) 1) x /\
    calm (recoverableRead := recoverable_read) (recoverableWrite := recoverable_write)
      (ackEvery := 0) (peer := []) (start (stream 8) 1) x /\
    sy_conns x !! 2 = Some k /\ c_fin k = true /\ rs_closed (sy_stream x) = false /\
    c_start k + len (c_sent k) = 3 /\ len (sy_history x) = 4.
Proof.
  assert (H : calm_b recoverable_read recoverable_write 0 [] overtaking (start (stream 8) 1) = true)
    by (vm_compute; reflexivity).
  pose (x := run_or_start [] 8 overtaking).
  assert (E : run [] overtaking (start (stream 8) 1) = Some x) by (vm_compute; reflexivity).
  exists x, (mkConn 0 [x01; x02; x03] true 0 0).
  split; [by eapply run_labels_reachable; [apply reachable_refl|]|].
  split; [by eapply run_labels_calm; [apply calm_refl|..]|].
  split; [vm_compute; reflexivity|]. split; [done|]. split; [vm_compute; reflexivity|].
  split; vm_compute; reflexivity.
Qed.

Definition resumed_state : system := run_or_start peer 8 resumed.
Definition detached_state : system := run_or_start peer 8 resume.

Lemma resumed_calm :
  calm (recoverableRead := recoverable_read) (recoverableWrite := recoverable_write)
    (ackEvery := 0) (peer := peer) (start (stream 8) 1) resumed_state.
Proof.
  apply (run_labels_calm recoverable_read recoverable_write 0 peer resumed _ (start (stream 8) 1));
    [apply calm_refl|vm_compute; reflexivity|vm_compute; reflexivity].
Qed.

Lemma detached_calm :
  calm (recoverableRead := recoverable_read) (recoverableWrite := recoverable_write)
    (ackEvery := 0) (peer := peer) (start (stream 8) 1) detached_state.
Proof.
  apply (run_labels_calm recoverable_read recoverable_write 0 peer resume _ (start (stream 8) 1));
    [apply calm_refl|vm_compute; reflexivity|vm_compute; reflexivity].
Qed.

Lemma peer_small : len peer <= MaxSequence.
Proof. by vm_compute. Qed.

Lemma wire_exact_witness :
  sy_conns resumed_state !! 2 = Some (mkConn 2 [x03; x04; x05] true 1 2) /\
  segment (sy_history resumed_state) 2 [x03; x04; x05].
Proof.
  split; [vm_compute; reflexivity|].
  apply (proj1 (wire_exact recoverable_read recoverable_write 0 peer (config 8) (stream 8) 1
    resumed_state peer_small eq_refl eq_refl resumed_calm) 2 (mkConn 2 [x03; x04; x05] true 1 2)).
  vm_compute. reflexivity.
Defined.

Lemma reads_exact_witness :
  sy_delivered resumed_state = [x0a; x0b; x0c] /\ len (sy_delivered resumed_state) = 3 /\
  sy_delivered resumed_state = take (length (sy_delivered resumed_state)) peer.
Proof.
  split; [vm_compute; reflexivity|]. split; [vm_compute; reflexivity|].
  apply (proj1 (reads_exact recoverable_read recoverable_write 0 peer (config 8) (stream 8) 1
    resumed_state peer_small eq_refl eq_refl resumed_calm)).
Defined.

Lemma small_journals_exact_witness :
  len (sy_history resumed_state) = 5 /\ segment (sy_history resumed_state) 2 [x03; x04; x05].
Proof.
  split; [vm_compute; reflexivity|].
  assert (Hr : reachable recoverable_read recoverable_write 0 peer (start (stream 8) 1) resumed_state).
  { apply (run_labels_reachable recoverable_read recoverable_write 0 peer resumed _ (start (stream 8) 1));
      [apply reachable_refl|vm_compute; reflexivity]. }
  assert (Hcap : cf_journal (config 8) <= replayCopyBufferSize) by (vm_compute; discriminate).
  apply (proj1 (small_journals_exact recoverable_read recoverable_write 0 peer (config 8) (stream 8) 1
    resumed_state peer_small eq_refl eq_refl Hcap Hr) 2 (mkConn 2 [x03; x04; x05] true 1 2)).
  vm_compute. reflexivity.
Defined.

Lemma fin_after_data_witness :
  sy_ctx resumed_state = None /\ 2 + len [x03; x04; x05] = len (sy_history resumed_state).
Proof.
  assert (Hk : sy_conns resumed_state !! 2 = Some (mkConn 2 [x03; x04; x05] true 1 2))
    by (vm_compute; reflexivity).
  assert (Hx : sy_ctx resumed_state = None) by (vm_compute; reflexivity).
  split; [exact Hx|].
  exact (proj2 (fin_after_data recoverable_read recoverable_write 0 peer (config 8) (stream 8) 1
    resumed_state 2 (mkConn 2 [x03; x04; x05] true 1 2) peer_small eq_refl eq_refl resumed_calm Hk eq_refl) Hx).
Defined.

Lemma detach_barrier_witness :
  sy_replacer detached_state = PDetach (Some 1%nat) /\
  attempt_of (sy_writer detached_state) = None /\ rs_physical (sy_stream detached_state) = None.
Proof.
  assert (Hp : sy_replacer detached_state = PDetach (Some 1%nat)) by (vm_compute; reflexivity).
  assert (Hd : 1%nat ∈ sy_done detached_state) 
    by (apply (bool_decide_eq_true_1 (1%nat ∈ sy_done detached_state)); vm_compute; reflexivity).
  split; [exact Hp|].
  exact (detach_barrier recoverable_read recoverable_write 0 peer (config 8) (stream 8) 1
    detached_state (Some 1%nat) peer_small eq_refl eq_refl detached_calm Hp Hd).
Defined.
End ResumableExample.
