(* ===== verification/ContinuityRouter.v ===== *)
(** * Continuity on the client (internal/tunstack/continuity_router.go)

    The router opens a logical flow on the best carrier route, and moves it to
    another one when its carrier is lost or its route goes away.  Opening,
    the worker that migrates flows one by one, the ends of flows, aborted
    control channels and the shutdown share the tables of the router and the
    flow objects.  As in [ContinuityRuntime] a goroutine is a list of
    instructions, each a critical section or a call, and what the environment
    answers comes with the step: the state of the multiplexers, entropy, and the
    outcome of a dial, a replacement or a wait. *)
From stdpp Require Import prelude gmap list relations.
From S2P Require Import Prelude Auth ContinuityRuntime ContinuityWire Journal Resumable Flows Control Scheduler.

Definition MaxClientContinuityFlows : Z := 4096.
Definition maximum_routes : Z := 3.

(** ** Data *)

(** Multiplexers and control channels are numbered; [None] is nil. *)
Record ContinuityRoute := mkRoute {
  cr_ID : Z; cr_mux : option nat; cr_control : option nat; cr_constellation : list byte; cr_key : list byte;
  cr_datagram : bool; cr_queue : Z; cr_rtt : Z; cr_loss : Z; cr_throughput : Z; cr_standby : bool
}.

Record ContinuityRouteMetrics := mkMetrics { me_queue : Z; me_rtt : Z; me_loss : Z; me_throughput : Z }.

Record ClientContinuityRouterConfig := mkRouterConfig {
  co_context : bool; co_initial : ContinuityRoute; co_MaxFlows : Z; co_JournalBytes : Z; co_AckEveryBytes : Z; co_MigrationTimeout : Z; co_ControlTimeout : Z
}.

Record clientContinuityFlow := mkClientFlow {
  cf_id : list byte; cf_control : option nat; cf_leaseKey : list byte; cf_routeID : Z; cf_epoch : Z; cf_migrating : bool; cf_finished : bool; cf_close : once
}.

Inductive router_event :=
| RtAbortSent (c : nat) (id : list byte)
| RtStreamClosed (i : nat)
| RtPhysicalClosed
| RtOpened (i : nat)
| RtOpenFailed (e : error)
| RtMigrated (i : nat).

Record ClientContinuityRouter := mkRouter {
  cc_maxFlows : Z; cc_routes : gmap Z ContinuityRoute; cc_flows : gmap (list byte) nat; cc_pending : gmap (list byte) unit;
  cc_notified : nat; cc_closed : bool; cc_close : once; cc_cancelled : bool; cc_worker : bool; cc_migrations : list nat;
  cc_objects : list clientContinuityFlow; cc_controls : list ControlChannel; cc_bindings : list (nat * list byte); cc_log : list router_event
}.

Definition minute : Z := 60 * second.

(** ** Routes *)

Definition validClientContinuityRoute (r : ContinuityRoute) : bool :=
  negb (cr_ID r =? 0) && bool_decide (is_Some (cr_mux r)) && bool_decide (is_Some (cr_control r)) && negb (is_zero (cr_constellation r)) && negb (is_zero (cr_key r)).

Definition with_routes (s : ClientContinuityRouter) (routes : gmap Z ContinuityRoute) (signal : bool) : ClientContinuityRouter :=
  mkRouter (cc_maxFlows s) routes (cc_flows s) (cc_pending s) (if signal then S (cc_notified s) else cc_notified s) (cc_closed s) (cc_close s) (cc_cancelled s) (cc_worker s) (cc_migrations s)
    (cc_objects s) (cc_controls s) (cc_bindings s) (cc_log s).
Definition with_tables (s : ClientContinuityRouter) (flows : gmap (list byte) nat) (pending : gmap (list byte) unit) : ClientContinuityRouter :=
  mkRouter (cc_maxFlows s) (cc_routes s) flows pending (cc_notified s) (cc_closed s) (cc_close s) (cc_cancelled s) (cc_worker s) (cc_migrations s) (cc_objects s) (cc_controls s) (cc_bindings s) (cc_log s).
Definition with_queue (s : ClientContinuityRouter) (migrations : list nat) : ClientContinuityRouter :=
  mkRouter (cc_maxFlows s) (cc_routes s) (cc_flows s) (cc_pending s) (cc_notified s) (cc_closed s) (cc_close s) (cc_cancelled s) (cc_worker s) migrations (cc_objects s) (cc_controls s) (cc_bindings s) (cc_log s).
Definition with_flow (s : ClientContinuityRouter) (i : nat) (f : clientContinuityFlow) : ClientContinuityRouter :=
  mkRouter (cc_maxFlows s) (cc_routes s) (cc_flows s) (cc_pending s) (cc_notified s) (cc_closed s) (cc_close s) (cc_cancelled s) (cc_worker s) (cc_migrations s) (<[i := f]> (cc_objects s)) (cc_controls s) (cc_bindings s) (cc_log s).
Definition with_new_flow (s : ClientContinuityRouter) (f : clientContinuityFlow) : ClientContinuityRouter :=
  mkRouter (cc_maxFlows s) (cc_routes s) (cc_flows s) (cc_pending s) (cc_notified s) (cc_closed s) (cc_close s) (cc_cancelled s) (cc_worker s) (cc_migrations s) (cc_objects s ++ [f]) (cc_controls s) (cc_bindings s) (cc_log s).
Definition with_channel (s : ClientContinuityRouter) (c : nat) (channel : ControlChannel) (bindings : list (nat * list byte)) : ClientContinuityRouter :=
  mkRouter (cc_maxFlows s) (cc_routes s) (cc_flows s) (cc_pending s) (cc_notified s) (cc_closed s) (cc_close s) (cc_cancelled s) (cc_worker s) (cc_migrations s) (cc_objects s) (<[c := channel]> (cc_controls s)) bindings (cc_log s).
Definition noted (s : ClientContinuityRouter) (events : list router_event) : ClientContinuityRouter :=
  mkRouter (cc_maxFlows s) (cc_routes s) (cc_flows s) (cc_pending s) (cc_notified s) (cc_closed s) (cc_close s) (cc_cancelled s) (cc_worker s) (cc_migrations s) (cc_objects s) (cc_controls s) (cc_bindings s) (cc_log s ++ events).
Definition closing (s : ClientContinuityRouter) (closed : bool) (close : once) (signal : bool) : ClientContinuityRouter :=
  mkRouter (cc_maxFlows s) (cc_routes s) (cc_flows s) (cc_pending s) (if signal then S (cc_notified s) else cc_notified s) closed close true (cc_worker s) (cc_migrations s) (cc_objects s) (cc_controls s) (cc_bindings s) (cc_log s).

Definition worker_ended (s : ClientContinuityRouter) : ClientContinuityRouter :=
  mkRouter (cc_maxFlows s) (cc_routes s) (cc_flows s) (cc_pending s) (cc_notified s) (cc_closed s) (cc_close s) (cc_cancelled s) false (cc_migrations s) (cc_objects s) (cc_controls s) (cc_bindings s) (cc_log s).

Definition NewClientContinuityRouter (c : ClientContinuityRouterConfig) (channels : list ControlChannel) : res ClientContinuityRouter :=
  if negb (co_context c) || negb (validClientContinuityRoute (co_initial c)) || (co_MaxFlows c <=? 0) || (MaxClientContinuityFlows <? co_MaxFlows c)
     || (co_JournalBytes c <=? 0) || (MaxJournalCapacity <? co_JournalBytes c) || (co_AckEveryBytes c =? 0) || (u64 (co_JournalBytes c) <? co_AckEveryBytes c)
     || (co_MigrationTimeout c <=? 0) || (5 * minute <? co_MigrationTimeout c) || (co_ControlTimeout c <=? 0) || (30 * second <? co_ControlTimeout c)
  then Err ErrContinuityRouterConfig
  else Ok (mkRouter (co_MaxFlows c) {[cr_ID (co_initial c) := co_initial c]} ∅ ∅ 0 false Fresh false true [] [] channels [] []).

(** A route in the table conflicts with a new one. *)
Definition route_conflict (route existing : ContinuityRoute) : bool :=
  (cr_ID existing =? cr_ID route) || bytes_eq (cr_key existing) (cr_key route) || negb (bytes_eq (cr_constellation existing) (cr_constellation route)).

Definition AddRoute (s : ClientContinuityRouter) (route : ContinuityRoute) : ClientContinuityRouter * option error :=
  if negb (validClientContinuityRoute route) then (s, Some (Sentinel ErrContinuityRoute))
  else if cc_closed s then (s, Some (Sentinel ErrContinuityRouterClosed))
  else if maximum_routes <=? Z.of_nat (size (cc_routes s)) then (s, Some (Sentinel ErrCarrierPoolFull))
  else if existsb (fun kv => route_conflict route kv.2) (map_to_list (cc_routes s)) then (s, Some (Sentinel ErrContinuityRoute))
  else (with_routes s (<[cr_ID route := route]> (cc_routes s)) true, None).

Definition with_metrics (r : ContinuityRoute) (m : ContinuityRouteMetrics) : ContinuityRoute :=
  mkRoute (cr_ID r) (cr_mux r) (cr_control r) (cr_constellation r) (cr_key r) (cr_datagram r) (me_queue m) (me_rtt m) (me_loss m) (me_throughput m) (cr_standby r).

Definition UpdateRouteMetrics (s : ClientContinuityRouter) (id : Z) (m : ContinuityRouteMetrics) : ClientContinuityRouter * option error :=
  if (id =? 0) || (me_rtt m <? 0) || (minute <? me_rtt m) || (1000000 <? me_loss m) then (s, Some (Sentinel ErrContinuityRoute))
  else if cc_closed s then (s, Some (Sentinel ErrContinuityRouterClosed))
  else match cc_routes s !! id with
       | None => (s, Some (Sentinel ErrContinuityRoute))
       | Some route => (with_routes s (<[id := with_metrics route m]> (cc_routes s)) false, None)
       end.

Definition SetStandby (s : ClientContinuityRouter) (id : Z) (standby : bool) : ClientContinuityRouter * bool :=
  if id =? 0 then (s, false)
  else if cc_closed s then (s, false)
  else match cc_routes s !! id with
       | None => (s, false)
       | Some r => (with_routes s (<[id := mkRoute (cr_ID r) (cr_mux r) (cr_control r) (cr_constellation r) (cr_key r) (cr_datagram r) (cr_queue r) (cr_rtt r) (cr_loss r) (cr_throughput r) standby]> (cc_routes s)) true, true)
       end.

Definition Count (s : ClientContinuityRouter) : Z := Z.of_nat (size (cc_flows s)).

(** ** Choosing a route and an identifier *)

(** A multiplexer that has not failed: its carrier, active and allowed streams. *)
Definition mux_state : Type := nat -> option (Z * Z * Z).

Section Router.
(** [Scheduler.SwitchThreshold]. *)
Variable SwitchThreshold : Z.

Definition candidate (muxes : mux_state) (exclude : list byte) (r : ContinuityRoute) : option ScheduleCandidate :=
  if bytes_eq (cr_key r) exclude then None
  else match cr_mux r ≫= muxes with
       | None => None
       | Some (carrier, active, maximum) => Some (mkScheduleCandidate (cr_key r) carrier true (cr_datagram r) active maximum (cr_queue r) (cr_rtt r) (cr_loss r) (cr_throughput r))
       end.

(** The table is ranged over in some order, on which [Select] does not depend
    ([Scheduler.scheduler_stable]). *)
Definition routes_of (s : ClientContinuityRouter) : list ContinuityRoute := (map_to_list (cc_routes s)).*2.

Definition selectRouteLocked (s : ClientContinuityRouter) (muxes : mux_state) (exclude : list byte) (class : Z) : res ContinuityRoute :=
  let among standby := omap (candidate muxes exclude) (filter (fun r => cr_standby r = standby) (routes_of s)) in
  let candidates := match among false with [] => among true | primary => primary end in
  match Select SwitchThreshold class (zeros 16) candidates with
  | Err _ => Err ErrContinuityRoute
  | Ok key => match find (fun r => bytes_eq (cr_key r) key) (routes_of s) with Some r => Ok r | None => Err ErrContinuityRoute end
  end.

Fixpoint flow_ids (n : nat) (s : ClientContinuityRouter) (random : list (option (list byte))) : res (list byte) :=
  match n with
  | O => Err ErrFlowEntropy
  | S n =>
      match random with
      | Some id :: random =>
          if is_zero id then flow_ids n s random
          else if bool_decide (cc_flows s !! id = None) && bool_decide (cc_pending s !! id = None) then Ok id else flow_ids n s random
      | _ => Err ErrFlowEntropy
      end
  end.
Definition newFlowIDLocked (s : ClientContinuityRouter) (random : list (option (list byte))) : res (list byte) := flow_ids 8 s random.

(** ** Instructions *)

Inductive jinstr :=
(* [openStream] *)
| JReserve (inner : list byte) | JDial (id : list byte) (r : ContinuityRoute) (inner : list byte) | JRegister (i : nat) (r : ContinuityRoute) | JPublish (i : nat) (r : ContinuityRoute)
| JUnreserve (id : list byte) | JResult (i : nat + error)
| JStreamClose (i : nat) | JUnregister (c : nat) (id : list byte) | JSendAbort (c : nat) (id : list byte)
(* [requestMigration] and [finish] *)
| JRequest (i : nat) | JEnqueue (i : nat) | JFinish (i : nat) (abort : bool) | JFinishTable (i : nat)
(* [migrationWorker] and [migrate] *)
| JWorker | JMigrate (i : nat) | JLoop (i : nat) | JSelect (i : nat) (old : option nat) (oldKey : list byte) (epoch : Z)
| JWaitRoute (i : nat) (notified : nat) | JWaitChange (i : nat)
| JResume (i : nat) (r : ContinuityRoute) (old : option nat) (oldKey : list byte) (epoch : Z)
| JRebind (i : nat) (r : ContinuityRoute) (old : option nat) (oldKey : list byte) (epoch : Z)
| JSetRoute (i : nat) (r : ContinuityRoute) (old : option nat) (oldKey : list byte) (epoch : Z)
| JReplace (i : nat) (r : ContinuityRoute) (old : option nat) (oldKey : list byte) (epoch : Z)
| JRestore (i : nat) (old : option nat) (oldKey : list byte) | JMigrated (i : nat) (epoch : Z)
(* bindings and [Close] *)
| JAbort (b : nat) (reason : error) | JClose | JWaitWorker | JCloseDone | JPhysicalClose.

(** What the environment answers to one step: the multiplexers, entropy, the
    offsets of the stream ([SendBase], [SendEnd], [Receive]), an error, and
    whether it came when a physical stream was already open. *)
Record router_env := mkRouterEnv {
  ev_muxes : mux_state; ev_random : list (option (list byte)); ev_offsets : Z * Z * Z; ev_error : option error; ev_late : bool
}.

Definition joutcome : Type := option (ClientContinuityRouter * list jinstr * list (list jinstr)).
Definition next (s : ClientContinuityRouter) (k : list jinstr) : joutcome := Some (s, k, []).
Definition on_flow (s : ClientContinuityRouter) (i : nat) (f : clientContinuityFlow -> joutcome) : joutcome :=
  match cc_objects s !! i with None => next s [] | Some o => f o end.

(** [control.Register] with a new binding. *)
Definition bind_flow (s : ClientContinuityRouter) (c : option nat) (i : nat) (key id : list byte) : ClientContinuityRouter * option error :=
  match c with
  | None => (s, Some (Sentinel ErrControlChannelConfig))
  | Some c =>
      match cc_controls s !! c with
      | None => (s, Some (Sentinel ErrControlChannelConfig))
      | Some channel =>
          let '(channel, r) := Register channel id (Some (Z.of_nat (length (cc_bindings s)))) in
          match r with Ok _ => (with_channel s c channel (cc_bindings s ++ [(i, key)]), None) | Err e => (s, Some e) end
      end
  end.
Definition unbind (s : ClientContinuityRouter) (c : nat) (id : list byte) : ClientContinuityRouter :=
  match cc_controls s !! c with None => s | Some channel => with_channel s c (Unregister channel id).1 (cc_bindings s) end.
Definition unbind_from (c : option nat) (id : list byte) : list jinstr := match c with Some c => [JUnregister c id] | None => [] end.

(** *** [openStream] *)

Definition reserve_section (s : ClientContinuityRouter) (inner : list byte) (ev : router_env) : joutcome :=
  let failed e := next s [JResult (inr e)] in
  if cc_closed s then failed (Sentinel ErrContinuityRouterClosed)
  else if cc_maxFlows s <=? Z.of_nat (size (cc_flows s)) + Z.of_nat (size (cc_pending s)) then failed (Sentinel ErrFlowCapacity)
  else match selectRouteLocked s (ev_muxes ev) (zeros 16) FlowInteractive with
       | Err e => failed e
       | Ok route =>
           match newFlowIDLocked s (ev_random ev) with
           | Err e => failed e
           | Ok id => next (with_tables s (cc_flows s) (<[id := tt]> (cc_pending s))) [JDial id route inner]
           end
       end.

(** The metadata, [Open], the transport and the resumable stream. *)
Definition open_metadata (id : list byte) (r : ContinuityRoute) (inner : list byte) : ContinuityOpenMetadata :=
  mkOpenMetadata ContinuityOpenNew (cr_constellation r) id (cr_key r) 1 0 0 inner.
Definition dial_section (s : ClientContinuityRouter) (id : list byte) (r : ContinuityRoute) (inner : list byte) (ev : router_env) : joutcome :=
  match MarshalOpen (open_metadata id r inner), ev_error ev with
  | Err e, _ => next s [JUnreserve id; JResult (inr e)]
  | Ok _, Some e => next s ((if ev_late ev then [JPhysicalClose] else []) ++ [JUnreserve id; JResult (inr e)])
  | Ok _, None => next (with_new_flow s (mkClientFlow id (cr_control r) (cr_key r) (cr_ID r) 1 false false Fresh)) [JRegister (length (cc_objects s)) r]
  end.

Definition join_section (s : ClientContinuityRouter) (i : nat) (r : ContinuityRoute) (o : clientContinuityFlow) : joutcome :=
  match bind_flow s (cr_control r) i (cr_key r) (cf_id o) with
  | (s, Some e) => next s [JStreamClose i; JUnreserve (cf_id o); JResult (inr e)]
  | (s, None) => next s [JPublish i r]
  end.

Definition enter_section (s : ClientContinuityRouter) (i : nat) (r : ContinuityRoute) (o : clientContinuityFlow) : joutcome :=
  let failed e := next s (unbind_from (cr_control r) (cf_id o) ++ [JStreamClose i; JUnreserve (cf_id o); JResult (inr e)]) in
  if cc_closed s then failed (Sentinel ErrContinuityRouterClosed)
  else match cc_pending s !! cf_id o, cc_flows s !! cf_id o with
       | None, _ | _, Some _ => failed (Sentinel ErrFlowConflict)
       | Some _, None => next (with_tables s (<[cf_id o := i]> (cc_flows s)) (delete (cf_id o) (cc_pending s))) [JResult (inl i)]
       end.

(** *** [requestMigration], [finish] *)

Definition with_migrating (o : clientContinuityFlow) (epoch : Z) (migrating : bool) : clientContinuityFlow :=
  mkClientFlow (cf_id o) (cf_control o) (cf_leaseKey o) (cf_routeID o) epoch migrating (cf_finished o) (cf_close o).

Definition request_section (s : ClientContinuityRouter) (i : nat) (o : clientContinuityFlow) : joutcome :=
  if cf_finished o || cf_migrating o then next s [] else next (with_flow s i (with_migrating o (cf_epoch o) true)) [JEnqueue i].

(** The channel holds [MaxFlows]. *)
Definition enqueue_section (s : ClientContinuityRouter) (i : nat) (ev : router_env) : joutcome :=
  if cc_cancelled s && match ev_error ev with Some _ => true | None => false end then next s [JFinish i false]
  else if Z.of_nat (length (cc_migrations s)) <? cc_maxFlows s then next (with_queue s (cc_migrations s ++ [i])) []
  else if cc_cancelled s then next s [JFinish i false] else next s [JFinish i true].

Definition end_section (s : ClientContinuityRouter) (i : nat) (abort : bool) (o : clientContinuityFlow) : joutcome :=
  match cf_close o with
  | Fresh =>
      next (with_flow s i (mkClientFlow (cf_id o) None (cf_leaseKey o) (cf_routeID o) (cf_epoch o) (cf_migrating o) true Running))
        (match cf_control o with Some c => (if abort then [JSendAbort c (cf_id o)] else []) ++ [JUnregister c (cf_id o)] | None => [] end ++ [JStreamClose i; JFinishTable i])
  | Running => None
  | Finished => next s []
  end.
Definition end_table (s : ClientContinuityRouter) (i : nat) (o : clientContinuityFlow) : joutcome :=
  next (with_tables (with_flow s i (mkClientFlow (cf_id o) (cf_control o) (cf_leaseKey o) (cf_routeID o) (cf_epoch o) (cf_migrating o) (cf_finished o) Finished)) (delete (cf_id o) (cc_flows s)) (cc_pending s)) [].

(** *** [migrationWorker], [migrate] *)

Definition worker_section (s : ClientContinuityRouter) (ev : router_env) : joutcome :=
  if cc_cancelled s && match ev_error ev with Some _ => true | None => false end then next (worker_ended s) []
  else match cc_migrations s with
       | i :: rest => next (with_queue s rest) [JMigrate i; JWorker]
       | [] => if cc_cancelled s then next (worker_ended s) [] else None
       end.

Definition migrate_section (s : ClientContinuityRouter) (i : nat) (ev : router_env) : joutcome :=
  match ev_error ev with
  | Some e => next s (if errors_is e ErrResumableClosed then [] else [JFinish i true])
  | None => next s [JLoop i]
  end.
Definition loop_section (s : ClientContinuityRouter) (i : nat) (o : clientContinuityFlow) : joutcome :=
  if cf_finished o then next s [] else next s [JSelect i (cf_control o) (cf_leaseKey o) (u64 (cf_epoch o + 1))].
Definition flow_class (offsets : Z * Z * Z) : Z :=
  let '(_, sendEnd, receive) := offsets in if (1024 * 1024 <=? sendEnd) || (1024 * 1024 <=? receive) then FlowBulk else FlowInteractive.
Definition select_section (s : ClientContinuityRouter) (i : nat) (old : option nat) (oldKey : list byte) (epoch : Z) (ev : router_env) : joutcome :=
  match selectRouteLocked s (ev_muxes ev) oldKey (flow_class (ev_offsets ev)) with
  | Err _ => next s [JWaitRoute i (cc_notified s)]
  | Ok route => next s [JResume i route old oldKey epoch]
  end.
(** [<-notify] or the end of the time. *)
Definition wait_route (s : ClientContinuityRouter) (i notified : nat) (ev : router_env) : joutcome :=
  match ev_error ev with
  | Some _ => next s [JFinish i true]
  | None => if bool_decide (cc_notified s = notified) then None else next s [JLoop i]
  end.
Definition waitForRouteChange (s : ClientContinuityRouter) (i : nat) (ev : router_env) : joutcome :=
  match ev_error ev with Some _ => next s [JFinish i true] | None => next s [JLoop i] end.

Definition resume_metadata (o : clientContinuityFlow) (r : ContinuityRoute) (epoch : Z) (offsets : Z * Z * Z) : ContinuityOpenMetadata :=
  let '(sendBase, _, receive) := offsets in mkOpenMetadata ContinuityOpenResume (cr_constellation r) (cf_id o) (cr_key r) epoch sendBase receive [].
Definition resume_section (s : ClientContinuityRouter) (i : nat) (r : ContinuityRoute) (old : option nat) (oldKey : list byte) (epoch : Z) (ev : router_env) (o : clientContinuityFlow) : joutcome :=
  match MarshalOpen (resume_metadata o r epoch (ev_offsets ev)), ev_error ev with
  | Err _, _ => next s [JFinish i true]
  | Ok _, Some _ => next s (if ev_late ev then [JPhysicalClose; JFinish i true] else [JWaitChange i])
  | Ok _, None => next s [if bool_decide (old = cr_control r) then JSetRoute i r old oldKey epoch else JRebind i r old oldKey epoch]
  end.
Definition rebind_flow (s : ClientContinuityRouter) (i : nat) (r : ContinuityRoute) (old : option nat) (oldKey : list byte) (epoch : Z) (o : clientContinuityFlow) : joutcome :=
  match bind_flow s (cr_control r) i (cr_key r) (cf_id o) with
  | (s, Some _) => next s [JPhysicalClose; JWaitChange i]
  | (s, None) => next s [JSetRoute i r old oldKey epoch]
  end.
Definition bound_route (o : clientContinuityFlow) (c : option nat) (key : list byte) (id : Z) : clientContinuityFlow :=
  mkClientFlow (cf_id o) c key id (cf_epoch o) (cf_migrating o) (cf_finished o) (cf_close o).
Definition replace_flow (s : ClientContinuityRouter) (i : nat) (r : ContinuityRoute) (old : option nat) (oldKey : list byte) (epoch : Z) (ev : router_env) (o : clientContinuityFlow) : joutcome :=
  match ev_error ev with
  | Some _ => next s (JRestore i old oldKey :: (if bool_decide (old = cr_control r) then [] else unbind_from (cr_control r) (cf_id o)) ++ [JWaitChange i])
  | None => next s (JMigrated i epoch :: (if bool_decide (old = cr_control r) then [] else unbind_from old (cf_id o)))
  end.

(** *** Bindings and [Close] *)

Definition abort_flow (s : ClientContinuityRouter) (b : nat) (reason : error) : joutcome :=
  match cc_bindings s !! b with
  | None => next s []
  | Some (i, key) =>
      if errors_is reason ErrControlChannelClosed then next s [JRequest i]
      else on_flow s i (fun o => next s (if bytes_eq (cf_leaseKey o) key then [JFinish i false] else []))
  end.

Definition shutdown_section (s : ClientContinuityRouter) : joutcome :=
  match cc_close s with
  | Fresh => next (closing s true Running true) (map (fun kv => JFinish kv.2 false) (map_to_list (cc_flows s)) ++ [JWaitWorker; JCloseDone])
  | Running => None
  | Finished => next s []
  end.

Definition jexec (s : ClientContinuityRouter) (x : jinstr) (ev : router_env) : joutcome :=
  match x with
  | JReserve inner => reserve_section s inner ev
  | JDial id r inner => dial_section s id r inner ev
  | JRegister i r => on_flow s i (join_section s i r)
  | JPublish i r => on_flow s i (enter_section s i r)
  | JUnreserve id => next (with_tables s (cc_flows s) (delete id (cc_pending s))) []
  | JResult r => next (noted s [match r with inl i => RtOpened i | inr e => RtOpenFailed e end]) []
  | JStreamClose i => next (noted s [RtStreamClosed i]) []
  | JUnregister c id => next (unbind s c id) []
  | JSendAbort c id => next (noted s [RtAbortSent c id]) []
  | JRequest i => on_flow s i (request_section s i)
  | JEnqueue i => enqueue_section s i ev
  | JFinish i abort => on_flow s i (end_section s i abort)
  | JFinishTable i => on_flow s i (end_table s i)
  | JWorker => worker_section s ev
  | JMigrate i => migrate_section s i ev
  | JLoop i => on_flow s i (loop_section s i)
  | JSelect i old oldKey epoch => select_section s i old oldKey epoch ev
  | JWaitRoute i notified => wait_route s i notified ev
  | JWaitChange i => waitForRouteChange s i ev
  | JResume i r old oldKey epoch => on_flow s i (resume_section s i r old oldKey epoch ev)
  | JRebind i r old oldKey epoch => on_flow s i (rebind_flow s i r old oldKey epoch)
  | JSetRoute i r old oldKey epoch => on_flow s i (fun o => next (with_flow s i (bound_route o (cr_control r) (cr_key r) (cr_ID r))) [JReplace i r old oldKey epoch])
  | JReplace i r old oldKey epoch => on_flow s i (replace_flow s i r old oldKey epoch ev)
  | JRestore i old oldKey => on_flow s i (fun o => next (with_flow s i (bound_route o old oldKey (cf_routeID o))) [])
  | JMigrated i epoch => on_flow s i (fun o => next (noted (with_flow s i (with_migrating o epoch false)) [RtMigrated i]) [])
  | JAbort b reason => abort_flow s b reason
  | JClose => shutdown_section s
  | JWaitWorker => if cc_worker s then None else next s []
  | JCloseDone => next (closing s (cc_closed s) Finished false) []
  | JPhysicalClose => next (noted s [RtPhysicalClosed]) []
  end.

(** ** The goroutines *)

Definition jsystem : Type := ClientContinuityRouter * list (list jinstr).

Definition jthread_step (y : jsystem) (t : nat) (ev : router_env) : option jsystem :=
  let '(s, threads) := y in
  match threads !! t with
  | Some (x :: rest) => '(s, k, started) ← jexec s x ev; Some (s, <[t := k ++ rest]> threads ++ started)
  | _ => None
  end.

Definition jaborts (es : list effect) : list jinstr := omap (fun e => match e with Aborted b reason => Some (JAbort (Z.to_nat b) reason) | _ => None end) es.

(** [openStream], [SwitchRoute] and [RemoveRoute]: the state, the error, and the
    instructions that follow in the caller. *)
Definition openStream (inner : list byte) : list jinstr := if len inner =? 0 then [JResult (inr (Sentinel ErrContinuityRouterConfig))] else [JReserve inner].

Definition SwitchRoute (s : ClientContinuityRouter) (route : ContinuityRoute) : ClientContinuityRouter * option error * list jinstr :=
  if negb (validClientContinuityRoute route) then (s, Some (Sentinel ErrContinuityRoute), [])
  else if cc_closed s then (s, Some (Sentinel ErrContinuityRouterClosed), [])
  else (with_routes s {[cr_ID route := route]} true, None, map (fun kv => JRequest kv.2) (map_to_list (cc_flows s))).

Definition RemoveRoute (s : ClientContinuityRouter) (id : Z) : ClientContinuityRouter * bool * list jinstr :=
  if id =? 0 then (s, false, [])
  else if cc_closed s then (s, false, [])
  else match cc_routes s !! id with
       | None => (s, false, [])
       | Some _ =>
           let uses (i : nat) := match cc_objects s !! i with Some o => cf_routeID o =? id | None => false end in
           (with_routes s (delete id (cc_routes s)) true, true, map (fun kv => JRequest kv.2) (filter (fun kv => uses kv.2 = true) (map_to_list (cc_flows s))))
       end.

Inductive jsystem_step : jsystem -> jsystem -> Prop :=
| js_thread y t ev y' : jthread_step y t ev = Some y' -> jsystem_step y y'
| js_open s threads inner : jsystem_step (s, threads) (s, threads ++ [openStream inner])
| js_add s threads route : jsystem_step (s, threads) ((AddRoute s route).1, threads)
| js_metrics s threads id metrics : jsystem_step (s, threads) ((UpdateRouteMetrics s id metrics).1, threads)
| js_standby s threads id standby : jsystem_step (s, threads) ((SetStandby s id standby).1, threads)
| js_switch s threads route : jsystem_step (s, threads) ((SwitchRoute s route).1.1, threads ++ [(SwitchRoute s route).2])
| js_remove s threads id : jsystem_step (s, threads) ((RemoveRoute s id).1.1, threads ++ [(RemoveRoute s id).2])
| js_close s threads : jsystem_step (s, threads) (s, threads ++ [[JClose]])
| js_connection s threads i : jsystem_step (s, threads) (s, threads ++ [[JFinish i true]])       (* [clientFlowConnection.Close] *)
| js_unavailable s threads i : jsystem_step (s, threads) (s, threads ++ [[JRequest i]])          (* [OnUnavailable] *)
| js_abort s threads c channel id reason : cc_controls s !! c = Some channel ->
    jsystem_step (s, threads) (with_channel s c (handleAbort channel id reason).1 (cc_bindings s), threads ++ [jaborts (handleAbort channel id reason).2])
| js_control_ends s threads c channel reason : cc_controls s !! c = Some channel ->
    jsystem_step (s, threads) (with_channel s c (finish channel reason).1 (cc_bindings s), threads ++ [jaborts (finish channel reason).2]).

(** ** The tables *)

(** At most three usable routes with different identifiers and lease keys, of one
    constellation. *)
Definition routes_ok (routes : gmap Z ContinuityRoute) : Prop :=
  Z.of_nat (size routes) <= maximum_routes /\ (forall id r, routes !! id = Some r -> cr_ID r = id /\ validClientContinuityRoute r = true) /\
  (forall id id' r r', routes !! id = Some r -> routes !! id' = Some r' -> cr_constellation r = cr_constellation r' /\ (cr_key r = cr_key r' -> id = id')).

Lemma routes_single r : validClientContinuityRoute r = true -> routes_ok {[cr_ID r := r]}.
Proof.
  intros H. split_and!; [rewrite map_size_singleton; done|by intros id x [<- <-]%lookup_singleton_Some|].
  intros id id' x x' [<- <-]%lookup_singleton_Some [<- <-]%lookup_singleton_Some. done.
Qed.

Lemma routes_delete routes id : routes_ok routes -> routes_ok (delete id routes).
Proof.
  intros (H1 & H2 & H3). split_and!.
  - pose proof (map_subseteq_size _ _ (delete_subseteq routes id)). lia.
  - intros i r [_ Hr]%lookup_delete_Some. by apply H2.
  - intros i j r r' [_ Hr]%lookup_delete_Some [_ Hr']%lookup_delete_Some. by apply H3.
Qed.

(** What a route keeps when its measurements change. *)
Lemma routes_update routes id r r' : routes_ok routes -> routes !! id = Some r -> cr_ID r' = cr_ID r -> cr_mux r' = cr_mux r -> cr_control r' = cr_control r ->
  cr_constellation r' = cr_constellation r -> cr_key r' = cr_key r -> routes_ok (<[id := r']> routes).
Proof.
  intros (H1 & H2 & H3) Hr E1 E2 E3 E4 E5. split_and!.
  - rewrite map_size_insert_Some by eauto. exact H1.
  - intros i x [[<- <-]|[_ Hx]]%lookup_insert_Some; [|by apply H2]. destruct (H2 id r Hr) as [<- Hv]. split; [done|]. unfold validClientContinuityRoute in *. by rewrite E1, E2, E3, E4, E5.
  - assert (Hold : forall i x, <[id := r']> routes !! i = Some x -> exists x0, routes !! i = Some x0 /\ cr_constellation x0 = cr_constellation x /\ cr_key x0 = cr_key x).
    { intros i x [[<- <-]|[_ Hx]]%lookup_insert_Some; [by exists r|by exists x]. }
    intros i j x y (x0 & Hx & <- & <-)%Hold (y0 & Hy & <- & <-)%Hold. by apply H3.
Qed.

Lemma route_ops_ok s : routes_ok (cc_routes s) -> (forall route, routes_ok (cc_routes (AddRoute s route).1)) /\ (forall id m, routes_ok (cc_routes (UpdateRouteMetrics s id m).1)) /\
  (forall id b, routes_ok (cc_routes (SetStandby s id b).1)) /\ (forall route, routes_ok (cc_routes (SwitchRoute s route).1.1)) /\ (forall id, routes_ok (cc_routes (RemoveRoute s id).1.1)).
Proof.
  intros H. split_and!; intros.
  - unfold AddRoute. destruct (negb (validClientContinuityRoute route)) eqn:Ev; [done|]. destruct (cc_closed s); [done|]. destruct (_ <=? _) eqn:Es; [done|]. destruct (existsb _ _) eqn:Ec; [done|].
    cbn [fst cc_routes with_routes]. zb. guards. destruct H as (H1 & H2 & H3).
    assert (Hc : forall i r, cc_routes s !! i = Some r -> cr_ID r <> cr_ID route /\ cr_key r <> cr_key route /\ cr_constellation r = cr_constellation route).
    { intros i r Hr. rewrite <- not_true_iff_false, existsb_exists in Ec. destruct (route_conflict route r) eqn:E.
      - destruct Ec. exists (i, r). split; [|done]. apply list_elem_of_In. by apply elem_of_map_to_list.
      - unfold route_conflict in E. guards. zb. by rewrite bytes_eq_false, bytes_eq_true in *. }
    split_and!.
    + destruct (cc_routes s !! cr_ID route) as [r|] eqn:Er; [destruct (Hc _ _ Er); destruct (H2 _ _ Er); congruence|]. rewrite map_size_insert_None by done. lia.
    + intros i r [[<- <-]|[_ Hr]]%lookup_insert_Some; [done|by apply H2].
    + intros i j r r' [[<- <-]|[_ Hr]]%lookup_insert_Some [[<- <-]|[_ Hr']]%lookup_insert_Some; [done| | |by apply H3].
      * destruct (Hc _ _ Hr') as (? & ? & ?). by split.
      * destruct (Hc _ _ Hr) as (? & ? & ?). by split.
  - unfold UpdateRouteMetrics. repeat (case_match; try done). cbn. by eapply routes_update.
  - unfold SetStandby. repeat (case_match; try done). cbn. by eapply routes_update.
  - unfold SwitchRoute. destruct (negb _) eqn:Ev; [done|]. destruct (cc_closed s); [done|]. cbn. apply routes_single. by apply negb_false_iff.
  - unfold RemoveRoute. repeat (case_match; try done). cbn. by apply routes_delete.
Qed.

(** ** The invariant *)

(** The flow whose migration an instruction carries on, the epoch it will take,
    and the reservation it will use or give back. *)
Definition token_of (x : jinstr) : option nat :=
  match x with
  | JEnqueue i | JMigrate i | JLoop i | JSelect i _ _ _ | JWaitRoute i _ | JWaitChange i | JResume i _ _ _ _ | JRebind i _ _ _ _ | JSetRoute i _ _ _ _ | JReplace i _ _ _ _ | JMigrated i _ => Some i
  | _ => None
  end.
Definition epoch_of (x : jinstr) : option (nat * Z) :=
  match x with JSelect i _ _ e | JResume i _ _ _ e | JRebind i _ _ _ e | JSetRoute i _ _ _ e | JReplace i _ _ _ e | JMigrated i e => Some (i, e) | _ => None end.
Definition reserved_by (s : ClientContinuityRouter) (x : jinstr) : option (list byte) :=
  match x with
  | JDial id _ _ | JUnreserve id => Some id
  | JRegister i _ | JPublish i _ => o ← cc_objects s !! i; Some (cf_id o)
  | _ => None
  end.

(** How often a flow has been migrated. *)
Definition migrations_of (i : nat) (s : ClientContinuityRouter) : Z :=
  foldr (fun e n => match e with RtMigrated j => if bool_decide (i = j) then 1 + n else n | _ => n end) 0 (cc_log s).

Record rinv (s : ClientContinuityRouter) (M : list jinstr) : Prop := {
  ri_routes : routes_ok (cc_routes s);
  ri_size : Z.of_nat (size (cc_flows s)) + Z.of_nat (size (cc_pending s)) <= cc_maxFlows s;
  ri_disjoint : forall id i, cc_flows s !! id = Some i -> cc_pending s !! id = None;
  ri_pending : forall id, is_Some (cc_pending s !! id) -> exists x, x ∈ M /\ reserved_by s x = Some id;
  ri_queue : Z.of_nat (length (cc_migrations s)) <= cc_maxFlows s;
  ri_tokens : NoDup (omap token_of M ++ cc_migrations s);
  ri_migrating : forall i, i ∈ omap token_of M ++ cc_migrations s -> exists o, cc_objects s !! i = Some o /\ cf_migrating o = true;
  ri_epochs : forall i e, (i, e) ∈ omap epoch_of M -> forall o, cc_objects s !! i = Some o -> e = u64 (cf_epoch o + 1);
  ri_count : forall i o, cc_objects s !! i = Some o -> cf_epoch o = u64 (1 + migrations_of i s);
  ri_logged : forall i, cc_objects s !! i = None -> migrations_of i s = 0
}.

Lemma rinv_perm s M M' : M ≡ₚ M' -> rinv s M -> rinv s M'.
Proof.
  intros H [R1 R2 R3 R4 R5 R6 R7 R8 R9 R10]. constructor; try done.
  - intros id Hid. destruct (R4 id Hid) as (x & Hx & E). exists x. by rewrite <- H.
  - by rewrite <- H.
  - intros i Hi. apply R7. by rewrite H.
  - intros i e He. apply R8. by rewrite H.
Qed.

Definition alike (o o' : clientContinuityFlow) : Prop := cf_id o' = cf_id o /\ cf_migrating o' = cf_migrating o /\ cf_epoch o' = cf_epoch o.

(** Only what the invariant does not see changes. *)
Record steady (s s' : ClientContinuityRouter) : Prop := {
  sd_max : cc_maxFlows s' = cc_maxFlows s; sd_routes : cc_routes s' = cc_routes s; sd_flows : cc_flows s' = cc_flows s; sd_pending : cc_pending s' = cc_pending s;
  sd_queue : cc_migrations s' = cc_migrations s; sd_objects : Forall2 alike (cc_objects s) (cc_objects s'); sd_log : forall i, migrations_of i s' = migrations_of i s
}.

Lemma steady_reserved s s' x : steady s s' -> reserved_by s' x = reserved_by s x.
Proof.
  intros H. assert (Hl : forall i, (o ← cc_objects s' !! i; Some (cf_id o)) = (o ← cc_objects s !! i; Some (cf_id o))).
  { intros i. destruct (cc_objects s !! i) as [o|] eqn:E.
    - destruct (Forall2_lookup_l _ _ _ i o (sd_objects _ _ H) E) as (o' & -> & E1 & _). cbn. by rewrite E1.
    - apply lookup_ge_None in E. rewrite (Forall2_length _ _ _ (sd_objects _ _ H)) in E. apply lookup_ge_None in E. by rewrite E. }
  destruct x; try done; apply Hl.
Qed.

Lemma rinv_next s s' x k R : rinv s (x :: R) -> steady s s' ->
  omap token_of k = [] \/ omap token_of k = omap token_of [x] ->
  (forall i e, (i, e) ∈ omap epoch_of k -> epoch_of x = Some (i, e) \/ forall o, cc_objects s !! i = Some o -> e = u64 (cf_epoch o + 1)) ->
  (forall id, is_Some (cc_pending s !! id) -> reserved_by s x = Some id -> exists y, y ∈ k /\ reserved_by s y = Some id) -> rinv s' (k ++ R).
Proof.
  intros [R1 R2 R3 R4 R5 R6 R7 R8 R9 R10] S Ht He Hr.
  assert (Hr' : forall y, reserved_by s' y = reserved_by s y) by (intros y; by apply steady_reserved).
  assert (Hsub : sublist (omap token_of (k ++ R) ++ cc_migrations s) (omap token_of (x :: R) ++ cc_migrations s)).
  { apply sublist_app; [|done]. change (x :: R) with ([x] ++ R). rewrite !omap_app. apply sublist_app; [|done]. destruct Ht as [->| ->]; [apply sublist_nil_l|done]. }
  destruct S as [S1 S2 S3 S4 S5 S6 S7]. constructor; rewrite ?S1, ?S2, ?S3, ?S4, ?S5; try done.
  - intros id Hid. destruct (R4 id Hid) as (y & [->|Hy]%elem_of_cons & E).
    + destruct (Hr id Hid E) as (z & Hz & Ez). exists z. rewrite Hr'. split; [|done]. apply elem_of_app. by left.
    + exists y. rewrite Hr'. split; [|done]. apply elem_of_app. by right.
  - by eapply sublist_NoDup.
  - intros i Hi. destruct (R7 i) as (o & Ho & Hm); [by eapply elem_of_sublist|]. destruct (Forall2_lookup_l _ _ _ i o S6 Ho) as (o' & Ho' & _ & E & _). exists o'. by rewrite E.
  - intros i e Hi o' Ho'. destruct (Forall2_lookup_r _ _ _ i o' S6 Ho') as (o & Ho & _ & _ & ->). rewrite omap_app in Hi. apply elem_of_app in Hi as [Hi|Hi].
    + destruct (He i e Hi) as [E|E]; [|by apply E]. apply (R8 i e); [|done]. cbn. rewrite E. by left.
    + apply (R8 i e); [|done]. change (x :: R) with ([x] ++ R). rewrite omap_app. apply elem_of_app. by right.
  - intros i o' Ho'. destruct (Forall2_lookup_r _ _ _ i o' S6 Ho') as (o & Ho & _ & _ & ->). rewrite S7. by apply R9.
  - intros i Hi. rewrite S7. apply R10. apply lookup_ge_None. apply lookup_ge_None in Hi. by rewrite (Forall2_length _ _ _ S6).
Qed.

Lemma alike_refl os : Forall2 alike os os.
Proof. by induction os; repeat constructor. Qed.

Lemma steady_refl s : steady s s.
Proof. constructor; try done. apply alike_refl. Qed.

Lemma steady_flow s i o o' : cc_objects s !! i = Some o -> alike o o' -> steady s (with_flow s i o').
Proof.
  intros Hi H. constructor; try done. cbn [cc_objects with_flow]. rewrite <- (list_insert_id _ _ _ Hi) at 1. by apply Forall2_insert; [apply alike_refl|].
Qed.

Lemma migrations_app i es es' :
  foldr (fun e n => match e with RtMigrated j => if bool_decide (i = j) then 1 + n else n | _ => n end) 0 (es ++ es') =
  foldr (fun e n => match e with RtMigrated j => if bool_decide (i = j) then 1 + n else n | _ => n end) 0 es +
  foldr (fun e n => match e with RtMigrated j => if bool_decide (i = j) then 1 + n else n | _ => n end) 0 es'.
Proof. induction es as [|e es IH]; [done|]. cbn. destruct e; try done. case_bool_decide; lia. Qed.

Lemma steady_noted s e : match e with RtMigrated _ => False | _ => True end -> steady s (noted s [e]).
Proof. intros H. constructor; try done; [apply alike_refl|]. intros i. unfold migrations_of. cbn [cc_log noted]. rewrite migrations_app. destruct e; cbn; try done; lia. Qed.

Lemma steady_bind s c i key id s' e : bind_flow s c i key id = (s', e) -> steady s s'.
Proof.
  unfold bind_flow. destruct c as [c|]; [|intros [= <- _]; apply steady_refl]. destruct (cc_controls s !! c) as [channel|]; [|intros [= <- _]; apply steady_refl].
  destruct (Register channel id _) as [channel' r]. destruct r; intros [= <- _]; [|apply steady_refl]. constructor; try done. apply alike_refl.
Qed.

Lemma steady_unbind s c id : steady s (unbind s c id).
Proof. unfold unbind. destruct (cc_controls s !! c); [|apply steady_refl]. constructor; try done. apply alike_refl. Qed.

(** Instructions that carry and hold nothing. *)
Definition idle (x : jinstr) : bool :=
  match token_of x, epoch_of x, x with None, None, (JDial _ _ _ | JRegister _ _ | JPublish _ _ | JUnreserve _) => false | None, None, _ => true | _, _, _ => false end.

Lemma idle_nothing k : forallb idle k = true -> omap token_of k = [] /\ omap epoch_of k = [].
Proof. induction k as [|y k IH]; [done|]. cbn. intros [Hy (H1 & H2)%IH]%andb_true_iff. rewrite H1, H2. by destruct y. Qed.

(** What comes after an idle instruction, or after one that gives up its migration. *)
Lemma rinv_idle s s' x k R : rinv s (x :: R) -> steady s s' -> reserved_by s x = None -> forallb idle k = true -> rinv s' (k ++ R).
Proof.
  intros H S Hx Hk. destruct (idle_nothing k Hk) as [H1 H2]. eapply rinv_next; [done|done|by left| |].
  - intros i e Hi. rewrite H2 in Hi. by apply not_elem_of_nil in Hi.
  - intros id _ E. congruence.
Qed.

(** A migration that goes on with the same epoch, or without one. *)
Lemma rinv_carry s s' x k l R : rinv s (x :: R) -> steady s s' -> reserved_by s x = None -> token_of x = token_of k -> token_of k <> None -> (epoch_of k = None \/ epoch_of k = epoch_of x) ->
  forallb idle l = true -> rinv s' ((k :: l) ++ R) /\ rinv s' ((l ++ [k]) ++ R).
Proof.
  intros H S Hx Ht Hn He Hl. destruct (idle_nothing l Hl) as [H1 H2].
  assert (Hgo : forall k', k' ≡ₚ k :: l -> rinv s' (k' ++ R)).
  { intros k' P. eapply rinv_perm; [by rewrite P|]. eapply rinv_next; [done|done| | |].
    - right. cbn. rewrite Ht, H1. done.
    - cbn. rewrite H2. intros i e Hi. destruct (epoch_of k) as [p|] eqn:E; [|by apply not_elem_of_nil in Hi]. apply list_elem_of_singleton in Hi as <-. left. destruct He as [He|He]; congruence.
    - intros id _ E. congruence. }
  split; apply Hgo; [done|]. symmetry. apply Permutation_cons_append.
Qed.

(** *** The steps that change the tables *)

Lemma flow_ids_fresh n s random id : flow_ids n s random = Ok id -> cc_flows s !! id = None /\ cc_pending s !! id = None.
Proof.
  revert random. induction n as [|n IH]; intros random; [done|]. destruct random as [|[r|] random]; cbn [flow_ids]; try done. destruct (is_zero r); [apply IH|].
  destruct (bool_decide _ && _) eqn:E; [|apply IH]. intros H. apply Ok_inj in H as <-. apply andb_true_iff in E as [E1 E2]. by apply bool_decide_eq_true in E1, E2.
Qed.

(** The tables change; nothing else that the invariant sees does. *)
Lemma rinv_tables s x k R flows pending : rinv s (x :: R) -> omap token_of k = omap token_of [x] -> omap epoch_of k = omap epoch_of [x] ->
  Z.of_nat (size flows) + Z.of_nat (size pending) <= cc_maxFlows s -> (forall id i, flows !! id = Some i -> pending !! id = None) ->
  (forall id, is_Some (pending !! id) -> (exists y, y ∈ k /\ reserved_by s y = Some id) \/ is_Some (cc_pending s !! id) /\ reserved_by s x <> Some id) -> rinv (with_tables s flows pending) (k ++ R).
Proof.
  intros [R1 R2 R3 R4 R5 R6 R7 R8 R9 R10] Ht He Hs Hd Hp. assert (E1 : omap token_of (k ++ R) = omap token_of (x :: R)) by (change (x :: R) with ([x] ++ R); by rewrite !omap_app, Ht).
  assert (E2 : omap epoch_of (k ++ R) = omap epoch_of (x :: R)) by (change (x :: R) with ([x] ++ R); by rewrite !omap_app, He).
  constructor; try done.
  - intros id Hid. destruct (Hp id Hid) as [(y & Hy & E)|[Ho Hne]]; [exists y; split; [apply elem_of_app; by left|done]|].
    destruct (R4 id Ho) as (y & [->|Hy]%elem_of_cons & E); [done|]. exists y. split; [apply elem_of_app; by right|done].
  - by rewrite E1.
  - rewrite E1. exact R7.
  - rewrite E2. exact R8.
Qed.

Lemma rinv_reserve s inner R id r : rinv s (JReserve inner :: R) -> cc_flows s !! id = None -> cc_pending s !! id = None ->
  Z.of_nat (size (cc_flows s)) + Z.of_nat (size (cc_pending s)) < cc_maxFlows s -> rinv (with_tables s (cc_flows s) (<[id := tt]> (cc_pending s))) ([JDial id r inner] ++ R).
Proof.
  intros H Hf Hp Hs. apply (rinv_tables _ _ _ _ _ _ H); try done.
  - rewrite map_size_insert_None by done. lia.
  - intros id' i Hi. rewrite lookup_insert_ne by congruence. by apply (ri_disjoint _ _ H id' i).
  - intros id' [u [[<- _]|[_ Hu]]%lookup_insert_Some]; [left; eexists; by split; [left|]|right; by split].
Qed.

Lemma rinv_unreserve s id R : rinv s (JUnreserve id :: R) -> rinv (with_tables s (cc_flows s) (delete id (cc_pending s))) ([] ++ R).
Proof.
  intros H. pose proof (map_subseteq_size _ _ (delete_subseteq (cc_pending s) id)). pose proof (ri_size _ _ H). apply (rinv_tables _ _ _ _ _ _ H); try done; [lia| |].
  - intros id' i Hi. apply lookup_delete_None. right. by apply (ri_disjoint _ _ H id' i).
  - intros id' [u [Hne Hu]%lookup_delete_Some]. right. split; [by eexists|]. cbn. congruence.
Qed.

Lemma rinv_publish s i r R o k : rinv s (JPublish i r :: R) -> cc_objects s !! i = Some o -> is_Some (cc_pending s !! cf_id o) -> cc_flows s !! cf_id o = None -> forallb idle k = true ->
  rinv (with_tables s (<[cf_id o := i]> (cc_flows s)) (delete (cf_id o) (cc_pending s))) (k ++ R).
Proof.
  intros H Ho [u Hu] Hf Hk. destruct (idle_nothing k Hk) as [K1 K2]. pose proof (ri_size _ _ H). apply (rinv_tables _ _ _ _ _ _ H); try done.
  - rewrite map_size_insert_None by done. rewrite (map_size_delete_Some (cf_id o) (cc_pending s)) by eauto.
    assert (size (cc_pending s) <> 0)%nat by (intros E; apply map_size_empty_iff in E; rewrite E in Hu; by rewrite lookup_empty in Hu). lia.
  - intros id j [[<- _]|[Hne Hj]]%lookup_insert_Some; [apply lookup_delete_eq|]. apply lookup_delete_None. right. by apply (ri_disjoint _ _ H id j).
  - intros id [v [Hne Hv]%lookup_delete_Some]. right. split; [by eexists|]. cbn. rewrite Ho. cbn. congruence.
Qed.

Lemma rinv_end_table s i R o o' : rinv s (JFinishTable i :: R) -> cc_objects s !! i = Some o -> alike o o' -> rinv (with_tables (with_flow s i o') (delete (cf_id o) (cc_flows s)) (cc_pending s)) ([] ++ R).
Proof.
  intros H Ho Ha. assert (H' : rinv (with_flow s i o') (JFinishTable i :: R)) by (apply (rinv_idle s _ (JFinishTable i) [JFinishTable i] R H); [by eapply steady_flow|done|done]).
  pose proof (map_subseteq_size _ _ (delete_subseteq (cc_flows s) (cf_id o))). pose proof (ri_size _ _ H). apply (rinv_tables _ _ _ _ _ _ H'); try done.
  - cbn. lia.
  - intros id j [_ Hj]%lookup_delete_Some. by apply (ri_disjoint _ _ H id j).
  - intros id Hid. right. by split.
Qed.

Lemma epoch_token (M : list jinstr) (i : nat) (e : Z) : (i, e) ∈ omap epoch_of M -> i ∈ omap token_of M.
Proof. intros (x & Hx & E)%list_elem_of_omap. apply list_elem_of_omap. exists x. split; [done|]. destruct x; cbn in *; congruence. Qed.

(** A new flow takes over the reservation. *)
Lemma rinv_dial s id r inner R f : rinv s (JDial id r inner :: R) -> cf_id f = id -> cf_epoch f = 1 -> rinv (with_new_flow s f) ([JRegister (length (cc_objects s)) r] ++ R).
Proof.
  intros [R1 R2 R3 R4 R5 R6 R7 R8 R9 R10] Hid He. constructor; try done.
  - intros id' Hp. destruct (R4 id' Hp) as (y & [->|Hy]%elem_of_cons & E).
    + exists (JRegister (length (cc_objects s)) r). split; [by left|]. cbn. rewrite list_lookup_middle by done. cbn. cbn in E. congruence.
    + exists y. split; [by right|]. destruct y; cbn in *; try done; (destruct (cc_objects s !! i) as [o|] eqn:Eo; [|done]); by rewrite (lookup_app_l_Some _ _ _ _ Eo).
  - intros i Hi. destruct (R7 i Hi) as (o & Ho & Hmi). exists o. split; [|done]. cbn. by apply lookup_app_l_Some.
  - intros i e Hi o Ho. destruct (R7 i) as (o2 & Ho2 & _); [apply elem_of_app; left; by eapply epoch_token|]. cbn in Ho. rewrite (lookup_app_l_Some _ _ _ _ Ho2) in Ho. injection Ho as <-. by apply (R8 i e Hi).
  - intros i o Ho. cbn in Ho. change (migrations_of i (with_new_flow s f)) with (migrations_of i s). apply lookup_app_Some in Ho as [Ho|[Hlen Ho]]; [by apply R9|].
    apply list_lookup_singleton_Some in Ho as [Hi <-]. rewrite He, R10 by (apply lookup_ge_None; lia). done.
  - intros i Hi. change (migrations_of i (with_new_flow s f)) with (migrations_of i s). apply R10. apply lookup_ge_None in Hi. cbn in Hi. rewrite length_app in Hi. apply lookup_ge_None. lia.
Qed.

(** *** The steps of a migration *)

Lemma elem_of_mid {A} (x y : A) l k : x ∈ (y :: l) ++ k <-> x = y \/ x ∈ l ++ k.
Proof. cbn. by rewrite elem_of_cons. Qed.

(** [requestMigration] marks the flow, which has no token yet. *)
Lemma rinv_request s i R o : rinv s (JRequest i :: R) -> cc_objects s !! i = Some o -> cf_migrating o = false -> rinv (with_flow s i (with_migrating o (cf_epoch o) true)) ([JEnqueue i] ++ R).
Proof.
  intros [R1 R2 R3 R4 R5 R6 R7 R8 R9 R10] Ho Hm. assert (Hlt := lookup_lt_Some _ _ _ Ho). cbn [omap list_omap token_of epoch_of] in *.
  assert (Hobj : forall j o', cc_objects (with_flow s i (with_migrating o (cf_epoch o) true)) !! j = Some o' -> exists o2, cc_objects s !! j = Some o2 /\ cf_epoch o' = cf_epoch o2).
  { intros j o' Hj. cbn in Hj. apply list_lookup_insert_Some in Hj as [(-> & <- & _)|(_ & Hj)]; [by exists o|by exists o']. }
  constructor; try done.
  - intros id Hid. destruct (R4 id Hid) as (y & [->|Hy]%elem_of_cons & E); [done|]. exists y. split; [by right|].
    destruct y as [|? ? ?|j r|j r| | | | | | | | | | | | | | | | | | | | | | | | | |]; cbn in *; try done; destruct (decide (j = i)) as [->|Hne]; rewrite ?list_lookup_insert_eq, ?list_lookup_insert_ne by done; try done; by rewrite Ho in E.
  - change (NoDup (i :: (omap token_of R ++ cc_migrations s))). constructor; [|exact R6]. intros Hi. destruct (R7 i Hi) as (o2 & Ho2 & Hm2). congruence.
  - intros j Hj. change (j ∈ i :: (omap token_of R ++ cc_migrations s)) in Hj. destruct (decide (j = i)) as [->|Hne].
    + exists (with_migrating o (cf_epoch o) true). split; [by apply list_lookup_insert_eq|done].
    + apply elem_of_cons in Hj as [Hj|Hj]; [done|]. cbn. rewrite list_lookup_insert_ne by done. by apply R7.
  - intros j e Hj o' Ho'. destruct (Hobj j o' Ho') as (o2 & Ho2 & ->). by apply (R8 j e Hj).
  - intros j o' Ho'. destruct (Hobj j o' Ho') as (o2 & Ho2 & ->). by apply (R9 j).
  - intros j Hj. apply R10. cbn in Hj. apply lookup_ge_None in Hj. rewrite length_insert in Hj. by apply lookup_ge_None.
Qed.

(** The queue only moves tokens. *)
Lemma rinv_queue s x k R queue : rinv s (x :: R) -> omap token_of k ++ queue ≡ₚ omap token_of [x] ++ cc_migrations s -> omap epoch_of k = [] -> reserved_by s x = None ->
  Z.of_nat (length queue) <= cc_maxFlows s -> rinv (with_queue s queue) (k ++ R).
Proof.
  intros [R1 R2 R3 R4 R5 R6 R7 R8 R9 R10] Hp He Hr Hq.
  assert (P : omap token_of (k ++ R) ++ queue ≡ₚ omap token_of (x :: R) ++ cc_migrations s).
  { change (x :: R) with ([x] ++ R). rewrite !omap_app, <- !app_assoc, (Permutation_app_comm (omap token_of R) queue), (Permutation_app_comm (omap token_of R) (cc_migrations s)), !app_assoc. by rewrite Hp. }
  constructor; try done.
  - intros id Hid. destruct (R4 id Hid) as (y & [->|Hy]%elem_of_cons & E); [congruence|]. exists y. split; [apply elem_of_app; by right|done].
  - cbn [cc_migrations with_queue]. by rewrite P.
  - intros i Hi. cbn [cc_migrations with_queue] in Hi. rewrite P in Hi. by apply R7.
  - intros i e Hi. rewrite omap_app, He in Hi. apply R8. change (x :: R) with ([x] ++ R). rewrite omap_app. apply elem_of_app. by right.
Qed.

(** The end of a migration that succeeded. *)
Lemma rinv_migrated s i epoch R o : rinv s (JMigrated i epoch :: R) -> cc_objects s !! i = Some o -> rinv (noted (with_flow s i (with_migrating o epoch false)) [RtMigrated i]) ([] ++ R).
Proof.
  intros [R1 R2 R3 R4 R5 R6 R7 R8 R9 R10] Ho. assert (Hlt := lookup_lt_Some _ _ _ Ho). set (s' := noted _ _). cbn [app].
  assert (Hi : i ∉ omap token_of R ++ cc_migrations s) by (by apply NoDup_cons in R6 as [? _]).
  assert (He : epoch = u64 (cf_epoch o + 1)) by (apply (R8 i epoch); [by left|done]).
  assert (Hlog : forall j, migrations_of j s' = migrations_of j s + if bool_decide (j = i) then 1 else 0).
  { intros j. unfold migrations_of, s'. cbn [cc_log noted with_flow]. rewrite migrations_app. cbn. case_bool_decide; lia. }
  assert (Hother : forall j, j <> i -> cc_objects s' !! j = cc_objects s !! j) by (intros j Hj; unfold s'; cbn; by rewrite list_lookup_insert_ne).
  constructor; try done.
  - intros id Hid. destruct (R4 id Hid) as (y & [->|Hy]%elem_of_cons & E); [done|]. exists y. split; [done|]. unfold s'.
    destruct y as [|? ? ?|j r|j r| | | | | | | | | | | | | | | | | | | | | | | | | |]; cbn in *; try done; destruct (decide (j = i)) as [->|Hne]; rewrite ?list_lookup_insert_eq, ?list_lookup_insert_ne by done; try done; by rewrite Ho in E.
  - by apply NoDup_cons in R6 as [_ ?].
  - intros j Hj. rewrite Hother by (by intros ->). apply R7. by right.
  - intros j e Hj. rewrite Hother; [apply (R8 j e); by right|]. intros ->. apply Hi, elem_of_app. left. by eapply epoch_token.
  - intros j o' Ho'. rewrite Hlog. destruct (decide (j = i)) as [->|Hne].
    + rewrite bool_decide_true by done. unfold s' in Ho'. cbn in Ho'. rewrite list_lookup_insert_eq in Ho' by done. injection Ho' as <-. cbn. rewrite He, (R9 i o Ho). unfold u64. rewrite Zplus_mod_idemp_l. f_equal. lia.
    + rewrite bool_decide_false by done. rewrite Z.add_0_r. apply R9. by rewrite <- Hother.
  - intros j Hj. rewrite Hlog. destruct (decide (j = i)) as [->|Hne]; [unfold s' in Hj; cbn in Hj; by rewrite list_lookup_insert_eq in Hj|].
    rewrite bool_decide_false by done. rewrite Z.add_0_r. apply R10. by rewrite <- Hother.
Qed.

(** *** Every instruction *)

Lemma idle_requests {A} (f : A -> jinstr) l : (forall a, idle (f a) = true) -> forallb idle (map f l) = true.
Proof. intros H. apply forallb_forall. intros y (a & <- & _)%in_map_iff. apply H. Qed.

Lemma unbind_idle c id : forallb idle (unbind_from c id) = true.
Proof. by destruct c. Qed.

Ltac jidle H := eapply rinv_idle; [exact H|first [apply steady_refl|by apply steady_noted|by eapply steady_flow|apply steady_unbind]|done|try done].

Lemma jexec_inv s x ev s' k started R : rinv s (x :: R) -> jexec s x ev = Some (s', k, started) -> rinv s' (k ++ R) /\ started = [].
Proof.
  intros H. destruct x; cbn [jexec]; unfold on_flow, next;
    try (destruct (cc_objects s !! i) as [o|] eqn:Ho; [|intros [= <- <- <-]; split; [|done]; eapply rinv_next; [exact H|apply steady_refl|by left|by intros ? ? ?%not_elem_of_nil|]; intros id' _; cbn; rewrite ?Ho; done]).
  - unfold reserve_section, next. destruct (cc_closed s); [intros [= <- <- <-]; split; [jidle H|done]|]. destruct (_ <=? _) eqn:Es; [intros [= <- <- <-]; split; [jidle H|done]|].
    destruct (selectRouteLocked _ _ _ _); [|intros [= <- <- <-]; split; [jidle H|done]]. destruct (newFlowIDLocked s (ev_random ev)) as [id|] eqn:Ei; intros [= <- <- <-]; split; try done; [|jidle H].
    apply flow_ids_fresh in Ei as [E1 E2]. zb. by eapply rinv_reserve.
  - unfold dial_section, next.
    assert (Hfail : forall l e, forallb idle l = true -> rinv s ((l ++ [JUnreserve id; JResult (inr e)]) ++ R)).
    { intros l e Hl. destruct (idle_nothing l Hl) as [L1 L2]. eapply rinv_next; [exact H|apply steady_refl|left; by rewrite omap_app, L1|intros i' e'; rewrite omap_app, L2; by intros ?%not_elem_of_nil|].
      intros id' _ E. injection E as <-. exists (JUnreserve id). split; [|done]. apply elem_of_app. right. by left. }
    destruct (MarshalOpen _); [|intros [= <- <- <-]; split; [by apply (Hfail [])|done]]. destruct (ev_error ev); intros [= <- <- <-]; split; try done; [by destruct (ev_late ev); [apply (Hfail [JPhysicalClose])|apply (Hfail [])]|].
    by eapply rinv_dial.
  - unfold join_section, next. destruct (bind_flow _ _ _ _ _) as [s1 [e|]] eqn:Eb; apply steady_bind in Eb; intros [= <- <- <-]; split; try done;
      (eapply rinv_next; [exact H|exact Eb|by left|by intros ? ? ?%not_elem_of_nil|]); cbn; rewrite Ho; cbn; intros id _ [= <-].
    + exists (JUnreserve (cf_id o)). split; [|done]. right. by left.
    + exists (JPublish i r). split; [by left|]. cbn. by rewrite Ho.
  - unfold enter_section, next.
    assert (Hfail : forall e, rinv s ((unbind_from (cr_control r) (cf_id o) ++ [JStreamClose i; JUnreserve (cf_id o); JResult (inr e)]) ++ R)).
    { intros e. destruct (idle_nothing _ (unbind_idle (cr_control r) (cf_id o))) as [L1 L2]. eapply rinv_next; [exact H|apply steady_refl|left; by rewrite omap_app, L1|intros i' e'; rewrite omap_app, L2; by intros ?%not_elem_of_nil|].
      cbn. rewrite Ho. cbn. intros id' _ [= <-]. exists (JUnreserve (cf_id o)). split; [|done]. apply elem_of_app. right. right. by left. }
    destruct (cc_closed s); [intros [= <- <- <-]; by split|]. destruct (cc_pending s !! cf_id o) as [[]|] eqn:Ep; [|intros [= <- <- <-]; by split].
    destruct (cc_flows s !! cf_id o) eqn:Ef; [intros [= <- <- <-]; by split|]. intros [= <- <- <-]. split; [|done]. by eapply rinv_publish.
  - intros [= <- <- <-]. split; [|done]. by apply rinv_unreserve.
  - intros [= <- <- <-]. split; [|done]. eapply rinv_idle; [exact H|apply steady_noted; by destruct i|done|done].
  - intros [= <- <- <-]. split; [jidle H|done].
  - intros [= <- <- <-]. split; [jidle H|done].
  - intros [= <- <- <-]. split; [jidle H|done].
  - unfold request_section, next. destruct (_ || _) eqn:Em; intros [= <- <- <-]; split; try done; [jidle H|]. guards. by apply rinv_request.
  - unfold enqueue_section, next. destruct (_ && _); [intros [= <- <- <-]; split; [jidle H|done]|]. destruct (_ <? _) eqn:El; [|destruct (cc_cancelled s); intros [= <- <- <-]; split; try done; jidle H].
    intros [= <- <- <-]. split; [|done]. zb. eapply rinv_queue; try done; [cbn; symmetry; apply Permutation_cons_append|]. rewrite length_app. cbn. lia.
  - unfold end_section, next. destruct (cf_close o); intros [= <- <- <-]; split; try done; jidle H. rewrite forallb_app. by destruct (cf_control o), abort.
  - unfold end_table, next. intros [= <- <- <-]. split; [|done]. by apply rinv_end_table.
  - unfold worker_section, next. assert (Hw : rinv (worker_ended s) R) by (apply (rinv_idle s _ JWorker [] R H); [constructor; try done; apply alike_refl|done|done]).
    destruct (_ && _); [intros [= <- <- <-]; by split|]. destruct (cc_migrations s) as [|j rest] eqn:Eq; [destruct (cc_cancelled s); [|done]; intros [= <- <- <-]; by split|].
    intros [= <- <- <-]. split; [|done]. pose proof (ri_queue _ _ H) as Hq. rewrite Eq in Hq. cbn in Hq. eapply rinv_queue; [exact H|by rewrite Eq|done|done|lia].
  - unfold migrate_section, next. destruct (ev_error ev) as [e|]; intros [= <- <- <-]; split; try done; [by destruct (errors_is _ _); jidle H|].
    apply (rinv_carry s s (JMigrate i) (JLoop i) [] R H (steady_refl s)); try done. by left.
  - unfold loop_section, next. destruct (cf_finished o); intros [= <- <- <-]; split; try done; [jidle H|].
    eapply rinv_next; [exact H|apply steady_refl|by right| |done]. intros j e [= -> ->]%list_elem_of_singleton. right. intros o' Ho'. congruence.
  - unfold select_section, next. destruct (selectRouteLocked _ _ _ _); intros [= <- <- <-]; split; try done;
      (eapply (rinv_carry s s _ _ []); [exact H|apply steady_refl|done..|by auto|done]).
  - unfold wait_route, next. destruct (ev_error ev); [|case_bool_decide; [done|]]; intros [= <- <- <-]; split; try done; [jidle H|].
    apply (rinv_carry s s (JWaitRoute i notified) (JLoop i) [] R H (steady_refl s)); try done. by left.
  - unfold waitForRouteChange, next. destruct (ev_error ev); intros [= <- <- <-]; split; try done; [jidle H|].
    apply (rinv_carry s s (JWaitChange i) (JLoop i) [] R H (steady_refl s)); try done. by left.
  - unfold resume_section, next. destruct (MarshalOpen _); [|intros [= <- <- <-]; split; [jidle H|done]]. destruct (ev_error ev); [destruct (ev_late ev)|]; intros [= <- <- <-]; split; try done; [jidle H| |].
    + apply (rinv_carry s s _ (JWaitChange i) [] R H (steady_refl s)); try done. by left.
    + destruct (bool_decide _); (eapply (rinv_carry s s _ _ [] R H (steady_refl s)); try done; by right).
  - unfold rebind_flow, next. destruct (bind_flow _ _ _ _ _) as [s1 [e|]] eqn:Eb; apply steady_bind in Eb; intros [= <- <- <-]; split; try done.
    + apply (rinv_carry s s1 _ (JWaitChange i) [JPhysicalClose] R H Eb); try done. by left.
    + eapply (rinv_carry s s1 _ _ [] R H Eb); try done. by right.
  - intros [= <- <- <-]. split; [|done]. eapply (rinv_carry s _ _ _ [] R H); try done; [by eapply steady_flow|by right].
  - unfold replace_flow, next. destruct (ev_error ev); intros [= <- <- <-]; split; try done.
    + change (JRestore i old oldKey :: ?l ++ [JWaitChange i]) with ((JRestore i old oldKey :: l) ++ [JWaitChange i]).
      eapply (rinv_carry s s _ (JWaitChange i) _ R H (steady_refl s)); try done; [by left|]. cbn. case_bool_decide; [done|apply unbind_idle].
    + eapply (rinv_carry s s _ (JMigrated i epoch) _ R H (steady_refl s)); try done; [by right|]. case_bool_decide; [done|apply unbind_idle].
  - intros [= <- <- <-]. split; [jidle H|done].
  - intros [= <- <- <-]. split; [|done]. by apply (rinv_migrated s i epoch).
  - unfold abort_flow, next. destruct (cc_bindings s !! b) as [[j key]|]; [|intros [= <- <- <-]; split; [jidle H|done]].
    destruct (errors_is _ _); [intros [= <- <- <-]; split; [jidle H|done]|]. unfold on_flow, next. destruct (cc_objects s !! j); intros [= <- <- <-]; split; try done; jidle H. by case_match.
  - unfold shutdown_section, next. destruct (cc_close s); [|done|]; intros [= <- <- <-]; split; try done; [|jidle H].
    eapply rinv_idle; [exact H|constructor; try done; apply alike_refl|done|]. rewrite forallb_app. apply andb_true_iff. split; [|done]. by apply idle_requests.
  - destruct (cc_worker s); [done|]. intros [= <- <- <-]. split; [jidle H|done].
  - intros [= <- <- <-]. split; [|done]. eapply rinv_idle; [exact H|constructor; try done; apply alike_refl|done|done].
  - intros [= <- <- <-]. split; [jidle H|done].
Qed.

Lemma jaborts_idle es : forallb idle (jaborts es) = true.
Proof. induction es as [|e es IH]; [done|]. by destruct e. Qed.

Lemma rinv_called s s' k M : rinv s M -> steady s s' -> forallb idle k = true -> rinv s' (k ++ M).
Proof.
  intros H S Hk. assert (H' : rinv s (JPhysicalClose :: M)).
  { destruct H as [R1 R2 R3 R4 R5 R6 R7 R8 R9 R10]. constructor; try done. intros id Hid. destruct (R4 id Hid) as (y & Hy & E). exists y. split; [by right|done]. }
  by apply (rinv_idle s s' JPhysicalClose k M).
Qed.

(** The routes change; the rest stays. *)
Lemma rinv_routes s M routes signal : rinv s M -> routes_ok routes -> rinv (with_routes s routes signal) M.
Proof. intros [R1 R2 R3 R4 R5 R6 R7 R8 R9 R10] H. by constructor. Qed.

Lemma rinv_same s s' M : rinv s M -> (exists routes signal, s' = with_routes s routes signal) \/ s' = s -> routes_ok (cc_routes s') -> rinv s' M.
Proof. intros H [(routes & signal & ->)| ->] Hr; [by apply rinv_routes|done]. Qed.

(** What every goroutine has left to do, in all. *)
Definition jpending (y : jsystem) : list jinstr := concat y.2.

Lemma jstep_inv y y' : jsystem_step y y' -> rinv y.1 (jpending y) -> rinv y'.1 (jpending y').
Proof.
  intros Hs H. pose proof (route_ops_ok _ (ri_routes _ _ H)) as (O1 & O2 & O3 & O4 & O5). unfold jpending in *.
  assert (Hcall : forall s s' threads k, rinv s (concat threads) -> steady s s' -> forallb idle k = true -> rinv s' (concat (threads ++ [k]))).
  { intros s s' threads k Hr S Hk. rewrite concat_app. cbn [concat]. rewrite app_nil_r. eapply rinv_perm; [apply Permutation_app_comm|]. by eapply rinv_called. }
  destruct Hs as [[s threads] t ev [s' threads'] Ht|s threads inner|s threads route|s threads id m|s threads id b|s threads route|s threads id|s threads|s threads i|s threads i|s threads c channel id reason Hc|s threads c channel reason Hc]; cbn [fst snd] in *.
  - cbn in Ht. destruct (threads !! t) as [[|x rest]|] eqn:El; [done| |done]. destruct (jexec s x ev) as [[[s1 k] started]|] eqn:Ex; [|done]. cbn in Ht. injection Ht as <- <-.
    destruct (concat_lookup _ _ _ _ El) as (M & H1 & H2). eapply rinv_perm in H; [|exact H1]. destruct (jexec_inv _ _ _ _ _ _ _ H Ex) as [Hi ->].
    eapply rinv_perm; [symmetry; apply H2|]. cbn [concat]. by rewrite app_nil_r.
  - eapply Hcall; [done|apply steady_refl|]. unfold openStream. by case_match.
  - eapply rinv_same; [exact H| |apply O1]. unfold AddRoute. repeat case_match; try (by right). left. by do 2 eexists.
  - eapply rinv_same; [exact H| |apply O2]. unfold UpdateRouteMetrics. repeat case_match; try (by right). left. by do 2 eexists.
  - eapply rinv_same; [exact H| |apply O3]. unfold SetStandby. repeat case_match; try (by right). left. by do 2 eexists.
  - eapply Hcall; [|apply steady_refl|].
    + eapply rinv_same; [exact H| |apply O4]. unfold SwitchRoute. repeat case_match; try (by right). left. by do 2 eexists.
    + unfold SwitchRoute. repeat case_match; try done. by apply idle_requests.
  - eapply Hcall; [|apply steady_refl|].
    + eapply rinv_same; [exact H| |apply O5]. unfold RemoveRoute. repeat case_match; try (by right). left. by do 2 eexists.
    + unfold RemoveRoute. repeat case_match; try done. by apply idle_requests.
  - eapply Hcall; [done|apply steady_refl|done].
  - eapply Hcall; [done|apply steady_refl|done].
  - eapply Hcall; [done|apply steady_refl|done].
  - eapply Hcall; [done|constructor; try done; apply alike_refl|apply jaborts_idle].
  - eapply Hcall; [done|constructor; try done; apply alike_refl|apply jaborts_idle].
Qed.

Lemma jsteps_inv y y' : rtc jsystem_step y y' -> rinv y.1 (jpending y) -> rinv y'.1 (jpending y').
Proof. induction 1 as [y|y y2 y3 Hs _ IH]; intros H; [exact H|]. apply IH. by eapply jstep_inv. Qed.

(** C35: In any interleaving of openings, migrations, ends, route changes and
    shutdown: the table of routes stays usable; flows and reservations never
    exceed [MaxFlows], and no reservation outlives its opening; a flow is
    migrated by one goroutine at a time and waits at most once in the channel,
    which never overflows; and its epoch is one more than the number of its
    migrations, so every migration asks the server for the next epoch. *)
Theorem router_consistent config channels s0 s threads :
  NewClientContinuityRouter config channels = Ok s0 -> rtc jsystem_step (s0, [[JWorker]]) (s, threads) ->
  routes_ok (cc_routes s) /\ Count s + Z.of_nat (size (cc_pending s)) <= cc_maxFlows s /\
  ((forall x, x ∈ concat threads -> reserved_by s x = None) -> cc_pending s = ∅) /\
  NoDup (cc_migrations s) /\ Z.of_nat (length (cc_migrations s)) <= cc_maxFlows s /\ NoDup (omap token_of (concat threads)) /\
  forall i o, cc_objects s !! i = Some o -> cf_epoch o = u64 (1 + migrations_of i s).
Proof.
  intros Hn Hr. assert (H : rinv s (concat threads)).
  { assert (H0 : rinv s0 (jpending (s0, [[JWorker]]))).
    { unfold NewClientContinuityRouter in Hn. destruct (_ || _) eqn:G; [done|]. apply Ok_inj in Hn as <-. guards. zb.
      constructor; cbn; try done; try (by apply routes_single); try (rewrite !map_size_empty; lia); try lia; try apply NoDup_nil_2;
        first [by intros id [u Hu]|by intros i Hi%not_elem_of_nil|by intros i e Hi%not_elem_of_nil]. }
    exact (jsteps_inv _ _ Hr H0). }
  destruct H as [R1 R2 R3 R4 R5 R6 R7 R8 R9 R10]. split_and!; try done.
  - intros Hx. apply map_eq. intros id. rewrite lookup_empty. destruct (cc_pending s !! id) eqn:E; [|done]. destruct (R4 id) as (x & Hin & Er); [by eexists|]. rewrite Hx in Er by done. done.
  - by apply NoDup_app in R6 as (_ & _ & ?).
  - by apply NoDup_app in R6 as (? & _ & _).
Qed.

(** The ranking picks a candidate. *)
Lemma rank_best class current cs r : rk_best (fold_left (rank class current) cs r) = rk_best r \/ rk_best (fold_left (rank class current) cs r) ∈ map sc_key cs.
Proof.
  revert r. induction cs as [|c cs IH]; intros r; [by left|]. cbn [fold_left map].
  assert (Hc : rk_best (rank class current r c) = rk_best r \/ rk_best (rank class current r c) = sc_key c) by (unfold rank; repeat case_match; auto).
  destruct (IH (rank class current r c)) as [->|Hin]; [|right; by right]. destruct Hc as [->| ->]; [by left|right; by left].
Qed.

Lemma select_candidate class cs k : Select SwitchThreshold class (zeros 16) cs = Ok k -> k ∈ map sc_key cs.
Proof.
  unfold Select. destruct (_ || _); [done|]. destruct (is_zero (rk_best _)) eqn:Ez; [done|]. change (is_zero (zeros 16)) with true. cbn [negb andb]. intros H. apply Ok_inj in H as <-.
  destruct (rank_best class (zeros 16) cs (mkRanking zero_id MaxUint64 MaxUint64)) as [E|H]; [|done]. by rewrite E in Ez.
Qed.

Lemma routes_of_elem s r : r ∈ routes_of s <-> exists id, cc_routes s !! id = Some r.
Proof.
  unfold routes_of. rewrite list_elem_of_fmap. split; [intros ([id r0] & -> & H); apply elem_of_map_to_list in H; by exists id|]. intros [id H]. exists (id, r). split; [done|]. by apply elem_of_map_to_list.
Qed.

(** The route chosen for a flow is in the table, not on the lease that is to be
    left, and its multiplexer works; it is a standby route only if no other route
    is usable. *)
Theorem selected_route s muxes exclude class r : routes_ok (cc_routes s) -> selectRouteLocked s muxes exclude class = Ok r ->
  (exists id, cc_routes s !! id = Some r) /\ cr_key r <> exclude /\ is_Some (candidate muxes exclude r) /\
  (cr_standby r = true -> forall id r', cc_routes s !! id = Some r' -> cr_standby r' = false -> candidate muxes exclude r' = None).
Proof.
  intros (_ & _ & H3) Hs. unfold selectRouteLocked in Hs. set (among := fun standby => omap (candidate muxes exclude) (filter (fun r => cr_standby r = standby) (routes_of s))) in Hs.
  destruct (Select _ _ _ _) as [k|] eqn:E; [|done]. apply select_candidate in E. change (k ∈ map sc_key (match among false with [] => among true | l => l end)) in E. destruct (find _ (routes_of s)) as [r'|] eqn:Ef; [|done]. apply Ok_inj in Hs as <-.
  apply find_some in Ef as [Hin Hk]. apply list_elem_of_In, routes_of_elem in Hin as [id Hid]. apply bytes_eq_true in Hk.
  assert (exists b, k ∈ map sc_key (among b) /\ (b = true -> among false = [])) as (b & Hb & Hfirst) by (destruct (among false) eqn:Ea; [exists true; split; [exact E|done]|exists false; rewrite Ea; by split]).
  apply list_elem_of_fmap in Hb as (c & -> & Hc). apply list_elem_of_omap in Hc as (r0 & Hr0 & Hc). apply list_elem_of_filter in Hr0 as [Hst Hr0]. apply routes_of_elem in Hr0 as [id0 Hid0].
  assert (Ek : sc_key c = cr_key r0 /\ cr_key r0 <> exclude) by (unfold candidate in Hc; destruct (bytes_eq (cr_key r0) exclude) eqn:Eb; [done|]; apply bytes_eq_false in Eb; repeat case_match; simplify_eq; by split).
  destruct Ek as [Ek Hne]. destruct (H3 id id0 r' r0 Hid Hid0) as [_ Hsame]. assert (id = id0) as -> by (apply Hsame; congruence). assert (r' = r0) as -> by congruence.
  split_and!; [by exists id0|done|by eexists|]. intros Hb id1 r1 Hr1 Hs1. rewrite Hst in Hb. specialize (Hfirst Hb). destruct (candidate muxes exclude r1) as [c1|] eqn:E1; [|done].
  assert (Hin1 : c1 ∈ among false) by (apply list_elem_of_omap; exists r1; split; [|done]; apply list_elem_of_filter; split; [done|]; apply routes_of_elem; by exists id1). rewrite Hfirst in Hin1. by apply not_elem_of_nil in Hin1.
Qed.
End Router.

(** ** Examples *)

Module RouterFlowsExample.
Definition k : list byte := replicate 16 x02.
Definition key (b : byte) : list byte := replicate 16 b.
Definition route (id : Z) (b : byte) (c : nat) (standby : bool) : ContinuityRoute := mkRoute id (Some c) (Some c) k (key b) true 0 1000000 0 0 standby.
Definition channel : ControlChannel := mkChannel k 4 ∅ false None 5.
Definition config : ClientContinuityRouterConfig := mkRouterConfig true (route 1 x11 0 false) 2 65536 4096 second second.
Definition s0 : ClientContinuityRouter := mkRouter 2 {[1 := route 1 x11 0 false]} ∅ ∅ 0 false Fresh false true [] [] [channel; channel] [] [].
Definition muxes : mux_state := fun m => Some (CarrierHTTPS, 0, 8).
Definition id : list byte := replicate 16 x03.
Definition ev : router_env := mkRouterEnv muxes [Some id] (0, 0, 0) None false.
Definition id2 : list byte := replicate 16 x04.
Definition ev2 : router_env := mkRouterEnv muxes [Some id2] (0, 0, 0) None false.

Inductive act := Opens | Adds (r : ContinuityRoute) | Removes (i : Z) | Aborted_by (c : nat) | Closes (i : nat) | Run (t n : nat) (e : router_env).
Fixpoint advance (n : nat) (t : nat) (e : router_env) (y : jsystem) : jsystem :=
  match n with O => y | S n => match jthread_step 0 y t e with Some y => advance n t e y | None => y end end.
Definition play (y : jsystem) (a : act) : jsystem :=
  match a with
  | Opens => (y.1, y.2 ++ [openStream [x01]])
  | Adds r => ((AddRoute y.1 r).1, y.2)
  | Removes i => ((RemoveRoute y.1 i).1.1, y.2 ++ [(RemoveRoute y.1 i).2])
  | Aborted_by c =>
      match cc_controls y.1 !! c with
      | None => y
      | Some channel => (with_channel y.1 c (handleAbort channel id ErrControlFlowAborted).1 (cc_bindings y.1), y.2 ++ [jaborts (handleAbort channel id ErrControlFlowAborted).2])
      end
  | Closes i => (y.1, y.2 ++ [[JFinish i true]])
  | Run t n e => advance n t e y
  end.
Definition run (l : list act) : jsystem := foldl play (s0, [[JWorker]]) l.

(** The route of a flow goes away; the worker moves the flow to the other one. *)
Definition moved : list act := [Opens; Run 1 9 ev; Adds (route 2 x12 1 true); Removes 1; Run 2 9 ev; Run 0 20 ev].
Example router_moved_run : let y := run moved in cc_log y.1 = [RtOpened 0; RtMigrated 0] /\ map (fun o => (cf_routeID o, cf_epoch o, cf_migrating o)) (cc_objects y.1) = [(2, 2, false)] /\
  map (fun c => bool_decide (is_Some (ch_handlers c !! id))) (cc_controls y.1) = [false; true].
Proof. by vm_compute. Qed.

(** An ABORT of the server that arrives while the opening is not finished: the
    flow ends, is entered afterwards and takes its place in the table for ever,
    since its connection can only be closed once. *)
Example aborted_open_stays : let y := run [Opens; Run 1 3 ev; Aborted_by 0; Run 2 20 ev; Run 1 20 ev; Closes 0; Run 3 20 ev] in
  concat y.2 = [JWorker] /\ Count y.1 = 1 /\ cc_log y.1 = [RtStreamClosed 0; RtOpened 0] /\ map cf_close (cc_objects y.1) = [Finished].
Proof. by vm_compute. Qed.

Lemma router_advance_reachable n t e y : rtc (jsystem_step 0) y (advance n t e y).
Proof.
  revert y. induction n as [|n IH]; intros y; [apply rtc_refl|]. cbn [advance]. destruct (jthread_step 0 y t e) as [y'|] eqn:E; [|apply rtc_refl].
  eapply rtc_l; [by eapply js_thread|apply IH].
Qed.

Lemma router_play_reachable y a : rtc (jsystem_step 0) y (play y a).
Proof.
  destruct y as [s threads]. destruct a as [|r|i|c|i|t n e]; cbn [play fst snd]; [| | | | |apply router_advance_reachable].
  - apply rtc_once, js_open.
  - apply rtc_once, js_add.
  - apply rtc_once, js_remove.
  - destruct (cc_controls s !! c) as [ch|] eqn:E; [|apply rtc_refl]. apply rtc_once. by apply (js_abort 0 s threads c ch id).
  - apply rtc_once, js_connection.
Qed.

Lemma router_run_reachable l : rtc (jsystem_step 0) (s0, [[JWorker]]) (run l).
Proof.
  unfold run. generalize (s0, [[JWorker]]). induction l as [|a l IH]; intros y; [apply rtc_refl|]. cbn [foldl]. etrans; [apply router_play_reachable|apply IH].
Qed.

Lemma router_consistent_witness : let y := run moved in
  routes_ok (cc_routes y.1) /\ Count y.1 + Z.of_nat (size (cc_pending y.1)) <= 2 /\ map cf_epoch (cc_objects y.1) = [2] /\ forall i o, cc_objects y.1 !! i = Some o -> cf_epoch o = u64 (1 + migrations_of i y.1).
Proof.
  pose proof (router_run_reachable moved) as Hr. destruct (run moved) as [s threads] eqn:E.
  destruct (router_consistent 0 config [channel; channel] s0 s threads) as (H1 & H2 & _ & _ & _ & _ & H3); [by vm_compute|exact Hr|].
  cbn [fst]. split; [exact H1|]. split; [|split; [|exact H3]].
  - replace 2 with (cc_maxFlows s); [exact H2|]. change s with ((s, threads).1). rewrite <- E. by vm_compute.
  - change s with ((s, threads).1). rewrite <- E. by vm_compute.
Defined.
End RouterFlowsExample.
