(* ===== verification/CarrierPool.v ===== *)
(** * The carrier pool of a mobile client (mobile/np2mobile/controller.go)

    One runtime owns the authenticated sessions of a tunnel: the primary, the
    warm members of the pool, and retired ones that drain.  A goroutine watches
    every session; the pool goroutine adds and retires members; [NetworkChanged]
    replaces all of them; [Close] ends everything.  As in [ContinuityRuntime] a
    goroutine is a list of instructions, each a critical section or a call, whose
    answers come with the step.  The session router of [SessionRouter] and the
    routes of [ContinuityRouter] are parts of the state. *)
From stdpp Require Import prelude gmap list relations sorting.
From S2P Require Import Prelude Text Netip Target Auth Extension Control SessionRouter ContinuityRuntime ContinuityRouter.

(** ** Data *)

Definition mobileContinuityMaxFlows : Z := 128.
Definition mobileContinuityJournal : Z := 256 * 1024.
Definition mobileContinuityAckEvery : Z := 64 * 1024.
Definition mobileContinuityMigration : Z := 15 * second.
Definition mobileContinuityControl : Z := 3 * second.
Definition carrierPoolHighRate : Z := 2 * 1024 * 1024.
Definition carrierPoolHighStreams : Z := 4.
Definition carrierPoolIdleTimeout : Z := 30 * second.
Definition carrierPoolRetryDelay : Z := 10 * second.

(** What a session is; [au_extensions] are the negotiated capabilities and the
    limit of UDP payloads, [au_datagrams] tells whether a datagram multiplexer
    is enabled. *)
Record Authenticated := mkAuthenticated {
  au_mux : bool; au_carrier : Z; au_addresses : list Addr; au_extensions : option (Z * Z); au_datagrams : option bool
}.

Definition mobileCarrierName (kind : Z) : res (list byte) :=
  if kind =? CarrierHTTP3 then Ok (bytes_of "http3") else if kind =? CarrierWebRTC then Ok (bytes_of "webrtc")
  else if kind =? CarrierHTTPS then Ok (bytes_of "https") else Err (External 1).

Definition carrierPriority (kind : Z) : Z :=
  if kind =? CarrierHTTP3 then 3 else if kind =? CarrierWebRTC then 2 else if kind =? CarrierHTTPS then 1 else 0.

Definition carrierNamePriority (name : list byte) : Z :=
  if bytes_eq name (bytes_of "http3") then carrierPriority CarrierHTTP3 else if bytes_eq name (bytes_of "webrtc") then carrierPriority CarrierWebRTC
  else if bytes_eq name (bytes_of "https") then carrierPriority CarrierHTTPS else 0.

Definition is_https (name : list byte) : bool := bytes_eq name (bytes_of "https").

Definition carrierPoolTarget (configured : Z) (name : list byte) : Z :=
  let configured := Z.min (Z.max configured 1) 3 in if negb (is_https name) then Z.min configured 2 else configured.

(** [has] is the bit test of the capabilities. *)
Definition authenticatedSessionRoute (a : Authenticated) : res (Z * bool) :=
  if negb (au_mux a) then Err ErrTunnelNotConnected
  else match au_extensions a with
       | None => Ok (0, false)
       | Some (capabilities, maximum) =>
           if negb (has capabilities CapabilityReliableUDP) then Ok (0, false)
           else if maximum <? 1200 then Err ErrSessionConfig
           else if has capabilities CapabilityUnreliableDatagrams then
             if bool_decide (au_datagrams a = Some true) then Ok (maximum, true) else Err ErrSessionConfig
           else Ok (maximum, false)
       end.

(** *** Route exclusions *)

Definition benchmarkIPv4 : Prefix := p4 198 18 0 0 15.
Definition documentationIPv6 : Prefix := p6 0x2001 0xdb8 0 32.

Definition excluded_address (a : Addr) : bool :=
  negb (IsValid a) || IsUnspecified a || IsLoopback a || IsMulticast a || IsLinkLocalUnicast a || IsPrivate a || Contains benchmarkIPv4 a || Contains documentationIPv6 a.

Definition comma : byte := x2c.
Fixpoint join (l : list (list byte)) : list byte :=
  match l with [] => [] | [s] => s | s :: l => s ++ comma :: join l end.

Definition string_le (a b : list byte) : Prop := bytes_le a b = true.
#[global] Instance string_le_dec : RelDecision string_le.
Proof. intros a b. unfold string_le. apply _. Defined.

Definition canonicalRouteAddresses (addresses : list Addr) : res (list byte) :=
  let unique := elements (list_to_set (map (fun a => AddrString (Unmap a)) (filter (fun a => excluded_address (Unmap a) = false) addresses)) : gset (list byte)) in
  match merge_sort string_le unique with [] => Err (External 2) | sorted => Ok (join sorted) end.

Definition routeSetContains (current candidate : list byte) : bool :=
  let allowed := filter (fun v => v <> []) (Split comma current) in
  forallb (fun v => bool_decide (v ∈ allowed)) (Split comma candidate) && negb (bool_decide (candidate = [])).

(** *** The runtime *)

Record migrationResult := mkMigration { NativePath : bool; Reconnected : bool; Migrated : bool }.

Inductive pool_event :=
| SessionClosed (x : nat) | ChannelClosed (c : nat) | StackClosed | RouterClosed | Panicked
| ChangeReturned (r : res migrationResult) | TunnelReturned (e : option error).

(** Sessions and control channels are numbered; [nr_sessions] are all that were
    ever connected, [nr_ended] those that have ended and the error [Wait] gives. *)
Record np2Runtime := mkNP2 {
  nr_session : nat; nr_primary : Z; nr_carrier : list byte; nr_generation : Z;
  nr_router : SessionRouter; nr_continuity : option ClientContinuityRouter;
  nr_pool : gmap Z nat; nr_controls : gmap nat nat; nr_retired : gmap Z nat; nr_nextRetired : Z;
  nr_closed : bool; nr_done : bool; nr_terminal : option error; nr_migrating : bool; nr_pending : option error; nr_stack : bool;
  nr_configured : Z; nr_target : Z; nr_scaleUps : Z; nr_failures : Z;
  nr_addresses : list byte; nr_server : list Addr; nr_fast : bool;
  nr_sessions : list Authenticated; nr_ended : gmap nat error; nr_channels : nat; nr_log : list pool_event
}.

Definition set_routers (s : np2Runtime) (router : SessionRouter) (continuity : option ClientContinuityRouter) : np2Runtime :=
  mkNP2 (nr_session s) (nr_primary s) (nr_carrier s) (nr_generation s) router continuity (nr_pool s) (nr_controls s) (nr_retired s) (nr_nextRetired s)
    (nr_closed s) (nr_done s) (nr_terminal s) (nr_migrating s) (nr_pending s) (nr_stack s) (nr_configured s) (nr_target s) (nr_scaleUps s) (nr_failures s)
    (nr_addresses s) (nr_server s) (nr_fast s) (nr_sessions s) (nr_ended s) (nr_channels s) (nr_log s).
Definition set_tables (s : np2Runtime) (pool : gmap Z nat) (controls : gmap nat nat) (retired : gmap Z nat) (next : Z) : np2Runtime :=
  mkNP2 (nr_session s) (nr_primary s) (nr_carrier s) (nr_generation s) (nr_router s) (nr_continuity s) pool controls retired next
    (nr_closed s) (nr_done s) (nr_terminal s) (nr_migrating s) (nr_pending s) (nr_stack s) (nr_configured s) (nr_target s) (nr_scaleUps s) (nr_failures s)
    (nr_addresses s) (nr_server s) (nr_fast s) (nr_sessions s) (nr_ended s) (nr_channels s) (nr_log s).
(** A new primary: the generation counts it, and what was pending is forgotten. *)
Definition set_primary (s : np2Runtime) (session : nat) (id : Z) (name : list byte) : np2Runtime :=
  mkNP2 session id name (u64 (nr_generation s + 1)) (nr_router s) (nr_continuity s) (nr_pool s) (nr_controls s) (nr_retired s) (nr_nextRetired s)
    (nr_closed s) (nr_done s) (nr_terminal s) (nr_migrating s) None (nr_stack s) (nr_configured s) (carrierPoolTarget (nr_configured s) name) (nr_scaleUps s) (nr_failures s)
    (nr_addresses s) (nr_server s) (nr_fast s) (nr_sessions s) (nr_ended s) (nr_channels s) (nr_log s).
Definition set_phase (s : np2Runtime) (closed done : bool) (terminal : option error) (migrating : bool) (pending : option error) : np2Runtime :=
  mkNP2 (nr_session s) (nr_primary s) (nr_carrier s) (nr_generation s) (nr_router s) (nr_continuity s) (nr_pool s) (nr_controls s) (nr_retired s) (nr_nextRetired s)
    closed done terminal migrating pending (nr_stack s) (nr_configured s) (nr_target s) (nr_scaleUps s) (nr_failures s)
    (nr_addresses s) (nr_server s) (nr_fast s) (nr_sessions s) (nr_ended s) (nr_channels s) (nr_log s).
Definition set_counts (s : np2Runtime) (scaleUps failures : Z) : np2Runtime :=
  mkNP2 (nr_session s) (nr_primary s) (nr_carrier s) (nr_generation s) (nr_router s) (nr_continuity s) (nr_pool s) (nr_controls s) (nr_retired s) (nr_nextRetired s)
    (nr_closed s) (nr_done s) (nr_terminal s) (nr_migrating s) (nr_pending s) (nr_stack s) (nr_configured s) (nr_target s) scaleUps failures
    (nr_addresses s) (nr_server s) (nr_fast s) (nr_sessions s) (nr_ended s) (nr_channels s) (nr_log s).
Definition set_world (s : np2Runtime) (stack : bool) (sessions : list Authenticated) (ended : gmap nat error) (channels : nat) (log : list pool_event) : np2Runtime :=
  mkNP2 (nr_session s) (nr_primary s) (nr_carrier s) (nr_generation s) (nr_router s) (nr_continuity s) (nr_pool s) (nr_controls s) (nr_retired s) (nr_nextRetired s)
    (nr_closed s) (nr_done s) (nr_terminal s) (nr_migrating s) (nr_pending s) stack (nr_configured s) (nr_target s) (nr_scaleUps s) (nr_failures s)
    (nr_addresses s) (nr_server s) (nr_fast s) sessions ended channels log.

Definition note (s : np2Runtime) (events : list pool_event) : np2Runtime := set_world s (nr_stack s) (nr_sessions s) (nr_ended s) (nr_channels s) (nr_log s ++ events).
Definition connected (s : np2Runtime) (a : Authenticated) : np2Runtime := set_world s (nr_stack s) (nr_sessions s ++ [a]) (nr_ended s) (nr_channels s) (nr_log s).
Definition new_channel (s : np2Runtime) : np2Runtime := set_world s (nr_stack s) (nr_sessions s) (nr_ended s) (S (nr_channels s)) (nr_log s).
(** A session ends once; closing it makes it end. *)
Definition ends (s : np2Runtime) (x : nat) (e : error) : np2Runtime :=
  set_world s (nr_stack s) (nr_sessions s) (match nr_ended s !! x with Some _ => nr_ended s | None => <[x := e]> (nr_ended s) end) (nr_channels s) (nr_log s).

Definition has_ended (s : np2Runtime) (x : nat) : bool := bool_decide (is_Some (nr_ended s !! x)).
Definition carrier_of (s : np2Runtime) (x : nat) : Z := match nr_sessions s !! x with Some a => au_carrier a | None => 0 end.
Definition datagrams_of (s : np2Runtime) (x : nat) : bool := match nr_sessions s !! x with Some a => bool_decide (au_datagrams a = Some true) | None => false end.

(** ** Instructions *)

(** What a turn of the pool goroutine has read: the time, the last time of high
    load and whether the load is high now. *)
Record pool_turn := mkTurn { pt_now : Z; pt_last : Z; pt_high : bool }.

(** The control channel, the constellation and the lease key of a session. *)
Record attachment := mkAttachment { at_control : option nat; at_constellation : list byte; at_key : list byte }.
Definition no_attachment : attachment := mkAttachment None [] [].

Inductive use := ForMigration (current : nat) (generation : Z) | ForPool (target : Z) (primary : list byte) (turn : pool_turn).

Inductive pinstr :=
(* [NetworkChanged] *)
| PProbe (current : nat) (generation : Z) | PProbed (current : nat) (generation : Z) | PConnect (current : nat) (generation : Z)
| PSwitch (x : nat) (a : attachment) (current : nat) (generation : Z) | PMigrationFailed (current : nat) (generation : Z) | PReturn (r : res migrationResult)
(* [attachContinuity] *)
| PAttach (x : nat) (u : use) | PAttaching (x : nat) (u : use)
(* the pool goroutine *)
| PWarmDelay | PSelect (last : Z) (retry : option Z) | PTurn (last : Z) (retry : option Z) | PReconcile (turn : pool_turn) | PWarm (desired : Z) (turn : pool_turn) | PHead (target : Z) (turn : pool_turn)
| PDial (target : Z) (primary : list byte) (turn : pool_turn) | PCandidate (x : nat) (a : attachment) (primary : list byte) (turn : pool_turn)
| PJoin (x : nat) (a : attachment) (target : Z) (primary : list byte) (turn : pool_turn) | PRefused (turn : pool_turn) | PFailure
| PResult (e : option error) (turn : pool_turn) | PIdle (turn : pool_turn) (retry : option Z)
(* the watchers *)
| PWatch (generation : Z) (x : nat) | PTerminal (generation : Z) (x : nat) (e : error) | PWatchPool (id : Z) (x : nat)
| PDrain (retired : Z) (x : nat) | PCloseControlOf (x : nat) | PRemoveRetired (retired : Z) (x : nat)
| PGo (x : pinstr)
(* the resources *)
| PRemoveContinuity (id : Z) | PRemoveRoute (id : Z) | PCloseControl (c : nat) | PCloseSession (x : nat) | PCloseRouter | PCloseStack.

(** What the environment answers to one step. *)
Record pool_env := mkPoolEnv {
  pe_error : option error; pe_first : res (option Authenticated); pe_session : res (option Authenticated);
  pe_attach : option error; pe_state : option (list byte * list byte); pe_channel : option error;
  pe_now : Z; pe_rate : Z; pe_streams : nat -> Z; pe_cancelled : bool
}.

Definition poutcome : Type := option (np2Runtime * list pinstr * list (list pinstr)).
Definition pnext (s : np2Runtime) (k : list pinstr) : poutcome := Some (s, k, []).

Definition close_control (c : option nat) : list pinstr := match c with Some c => [PCloseControl c] | None => [] end.
Definition remove_route (s : np2Runtime) (id : Z) : list pinstr := (if bool_decide (is_Some (nr_continuity s)) then [PRemoveContinuity id] else []) ++ [PRemoveRoute id].

(** [Datagrams.Enabled] of the sessions. *)
Definition enabled (s : np2Runtime) (x : nat) : bool := datagrams_of s x.
Definition route_of (s : np2Runtime) (x : nat) : res (Z * option nat) :=
  match nr_sessions s !! x with
  | None => Err ErrTunnelNotConnected
  | Some a => match authenticatedSessionRoute a with Err e => Err e | Ok (maximum, datagrams) => Ok (maximum, if datagrams then Some x else None) end
  end.
Definition maximum_of (s : np2Runtime) (x : nat) : Z := match route_of s x with Ok r => r.1 | Err _ => 0 end.
Definition datagram_mux (s : np2Runtime) (x : nat) : option nat := match route_of s x with Ok r => r.2 | Err _ => None end.

Definition continuity_route (s : np2Runtime) (id : Z) (x : nat) (a : attachment) (standby : bool) : ContinuityRoute :=
  mkRoute id (Some x) (at_control a) (at_constellation a) (at_key a) (datagrams_of s x) 0 0 0 0 standby.

(** The operations on the continuity router, nothing when there is none. *)
Definition continuity_add (c : option ClientContinuityRouter) (r : ContinuityRoute) : option ClientContinuityRouter * option error :=
  match c with None => (None, None) | Some c => let '(c, e) := ContinuityRouter.AddRoute c r in (Some c, e) end.
Definition continuity_standby (c : option ClientContinuityRouter) (id : Z) (standby : bool) : option ClientContinuityRouter * bool :=
  match c with None => (None, true) | Some c => let '(c, b) := ContinuityRouter.SetStandby c id standby in (Some c, b) end.
Definition continuity_remove (c : option ClientContinuityRouter) (id : Z) : option ClientContinuityRouter :=
  match c with None => None | Some c => Some (RemoveRoute c id).1.1 end.
Definition continuity_switch (c : option ClientContinuityRouter) (r : ContinuityRoute) : option ClientContinuityRouter * option error :=
  match c with None => (None, None) | Some c => let '(c, e, _) := SwitchRoute c r in (Some c, e) end.

Definition put {A} (x : nat) (c : option A) (m : gmap nat A) : gmap nat A := match c with Some c => <[x := c]> m | None => m end.

(** *** Watchers *)

(** The member of the pool with the least route that has not ended. *)
Definition least (l : list (Z * nat)) : option (Z * nat) :=
  foldl (fun best kv => match best with Some b => if b.1 <=? kv.1 then Some b else Some kv | None => Some kv end) None l.
Definition warm (s : np2Runtime) : list (Z * nat) := filter (fun kv => has_ended s kv.2 = false) (map_to_list (nr_pool s)).

(** [promoteWarmCarrier]: the state, and what is left when it promoted one. *)
Definition promoteWarmCarrier (s : np2Runtime) (generation : Z) (x : nat) : np2Runtime * option (list pinstr) :=
  if nr_closed s || nr_migrating s || negb (generation =? nr_generation s) || negb (bool_decide (x = nr_session s)) || bool_decide (nr_pool s = ∅) then (s, None)
  else match least (warm s) with
       | None => (s, None)
       | Some (id, selected) =>
           match SessionRouter.Promote id (nr_router s) with
           | (Err _, _) => (s, None)
           | (Ok _, router) =>
               match continuity_standby (nr_continuity s) id false with
               | (continuity, false) => (set_routers s router continuity, None)
               | (continuity, true) =>
                   let old := nr_primary s in
                   let name := match mobileCarrierName (carrier_of s selected) with Ok name => name | Err _ => nr_carrier s end in
                   let k := remove_route s old ++ close_control (nr_controls s !! x) ++ [PCloseSession x] in
                   let s := set_routers s router continuity in
                   let s := set_tables s (delete id (nr_pool s)) (delete x (nr_controls s)) (nr_retired s) (nr_nextRetired s) in
                   let s := set_primary s selected id name in
                   (s, Some (k ++ [PGo (PWatch (nr_generation s) selected)]))
               end
           end
       end.

(** [watchSession], once the session has ended. *)
Definition watchSession (s : np2Runtime) (generation : Z) (x : nat) : poutcome :=
  match nr_ended s !! x with
  | None => None
  | Some e => match promoteWarmCarrier s generation x with (s, Some k) => pnext s k | (s, None) => pnext s [PTerminal generation x e] end
  end.
Definition terminal_section (s : np2Runtime) (generation : Z) (x : nat) (e : error) : poutcome :=
  if nr_closed s || negb (generation =? nr_generation s) || negb (bool_decide (x = nr_session s)) then pnext s []
  else if nr_migrating s then pnext (set_phase s (nr_closed s) (nr_done s) (nr_terminal s) true (Some e)) []
  else pnext (set_phase s (nr_closed s) true (Some e) (nr_migrating s) (nr_pending s)) [].

(** A member leaves the pool: its routes, its channel and its session go. *)
Definition leave_pool (s : np2Runtime) (id : Z) (x : nat) : np2Runtime * list pinstr :=
  (set_tables s (delete id (nr_pool s)) (delete x (nr_controls s)) (nr_retired s) (nr_nextRetired s),
   remove_route s id ++ close_control (nr_controls s !! x) ++ [PCloseSession x]).

Definition watchPoolSession (s : np2Runtime) (id : Z) (x : nat) : poutcome :=
  match nr_ended s !! x with
  | None => None
  | Some e =>
      if negb (bool_decide (nr_pool s !! id = Some x)) then pnext s []
      else let '(s', k) := leave_pool s id x in
           pnext (if negb (nr_closed s) && negb (errors_is e ErrCanceled) then set_counts s' (nr_scaleUps s) (u64 (nr_failures s + 1)) else s') k
  end.

(** [drainRetiredSession]: no stream is left, or the time is over, or the runtime
    is done. *)
Definition drainRetiredSession (s : np2Runtime) (retired : Z) (x : nat) (ev : pool_env) : poutcome :=
  if pe_cancelled ev then if nr_done s then pnext s [PCloseControlOf x; PCloseSession x] else None
  else pnext s [PCloseControlOf x; PCloseSession x; PRemoveRetired retired x].
Definition closeControlForSession (s : np2Runtime) (x : nat) : poutcome :=
  pnext (set_tables s (nr_pool s) (delete x (nr_controls s)) (nr_retired s) (nr_nextRetired s)) (close_control (nr_controls s !! x)).
Definition removeRetired (s : np2Runtime) (retired : Z) (x : nat) : poutcome :=
  pnext (if bool_decide (nr_retired s !! retired = Some x) then set_tables s (nr_pool s) (nr_controls s) (delete retired (nr_retired s)) (nr_nextRetired s) else s) [].

(** *** [attachContinuity] *)

Definition after_attach (s : np2Runtime) (x : nat) (u : use) (r : res attachment) : list pinstr :=
  match u, r with
  | ForMigration current generation, Err e => [PCloseSession x; PMigrationFailed current generation; PReturn (Err e)]
  | ForMigration current generation, Ok a => [PSwitch x a current generation]
  | ForPool _ _ turn, Err e => [PCloseSession x; PFailure; PResult (Some e) turn]
  | ForPool target primary turn, Ok a =>
      if carrierNamePriority primary <? carrierPriority (carrier_of s x) then [PCandidate x a primary turn]
      else match mobileCarrierName (carrier_of s x) with
           | Ok name =>
               if negb (is_https primary) && bytes_eq name primary
               then close_control (at_control a) ++ [PCloseSession x; PFailure; PResult (Some (Sentinel ErrCarrierPoolMismatch)) turn]
               else [PJoin x a target primary turn]
           | Err _ => close_control (at_control a) ++ [PCloseSession x; PFailure; PResult (Some (Sentinel ErrCarrierPoolMismatch)) turn]
           end
  end.

Definition attach_section (s : np2Runtime) (x : nat) (u : use) : poutcome :=
  if nr_closed s then pnext s (after_attach s x u (Err ErrCanceled))
  else if bool_decide (nr_continuity s = None) then pnext s (after_attach s x u (Ok no_attachment))
  else pnext s [PAttaching x u].

(** [Attach], [State] and [NewControlChannel]. *)
Definition attaching_section (s : np2Runtime) (x : nat) (u : use) (ev : pool_env) : poutcome :=
  match pe_attach ev, pe_state ev, pe_channel ev with
  | Some e, _, _ => pnext s (after_attach s x u (Err e))
  | None, None, _ => pnext s (after_attach s x u (Err ErrContinuityState))
  | None, Some _, Some e => pnext s (after_attach s x u (Err e))
  | None, Some (constellation, key), None => pnext (new_channel s) (after_attach s x u (Ok (mkAttachment (Some (nr_channels s)) constellation key)))
  end.

(** *** [NetworkChanged] *)

Definition NetworkChanged (s : np2Runtime) : np2Runtime * list pinstr :=
  if nr_closed s then (s, [PReturn (Err ErrTunnelNotConnected)])
  else if nr_migrating s then (s, [PReturn (Err ErrMigrationInProgress)])
  else (set_phase s (nr_closed s) (nr_done s) (nr_terminal s) true None, [PProbe (nr_session s) (nr_generation s)]).

Definition current_is (s : np2Runtime) (current : nat) (generation : Z) : bool :=
  negb (nr_closed s) && (nr_generation s =? generation) && bool_decide (nr_session s = current).

Definition probed_section (s : np2Runtime) (current : nat) (generation : Z) : poutcome :=
  if current_is s current generation
  then pnext (set_phase s (nr_closed s) (nr_done s) (nr_terminal s) false None) [PReturn (Ok (mkMigration true false true))]
  else pnext s [PReturn (Err ErrCanceled)].

Definition finishMigrationFailure (s : np2Runtime) (current : nat) (generation : Z) : poutcome :=
  if negb (current_is s current generation) then pnext s []
  else match nr_pending s with
       | Some e => pnext (set_phase s (nr_closed s) true (Some e) false (nr_pending s)) []
       | None => pnext (set_phase s (nr_closed s) (nr_done s) (nr_terminal s) false None) []
       end.

Definition addresses_of (s : np2Runtime) (a : Authenticated) : res (list byte) := canonicalRouteAddresses (nr_server s ++ au_addresses a).

(** The refusals of a session that a connector returned. *)
Definition refused (s : np2Runtime) (a : Authenticated) : option error :=
  match authenticatedSessionRoute a with
  | Err e => Some e
  | Ok _ => match addresses_of s a with Err e => Some e | Ok routes => if routeSetContains (nr_addresses s) routes then None else Some (External 3) end
  end.

Definition connect_section (s : np2Runtime) (current : nat) (generation : Z) (ev : pool_env) : poutcome :=
  match pe_session ev with
  | Err e => pnext s [PMigrationFailed current generation; PReturn (Err e)]
  | Ok None => pnext (note s [Panicked]) []
  | Ok (Some a) =>
      if negb (au_mux a) then pnext (note s [Panicked]) []
      else
        let x := length (nr_sessions s) in
        let failed e := pnext (connected s a) [PCloseSession x; PMigrationFailed current generation; PReturn (Err e)] in
        match authenticatedSessionRoute a, mobileCarrierName (au_carrier a), refused s a with
        | Err e, _, _ | _, Err e, _ | _, _, Some e => failed e
        | Ok _, Ok _, None => pnext (connected s a) [PAttach x (ForMigration current generation)]
        end
  end.

(** [retireSessionLocked] for some sessions. *)
Fixpoint retire (xs : list nat) (retired : gmap Z nat) (next : Z) : gmap Z nat * Z * list pinstr :=
  match xs with
  | [] => (retired, next, [])
  | x :: xs =>
      let id := if next =? 0 then 1 else next in
      let '(retired, next, drains) := retire xs (<[id := x]> retired) (u64 (id + 1)) in
      (retired, next, PGo (PDrain id x) :: drains)
  end.

Definition switch_section (s : np2Runtime) (x : nat) (a : attachment) (current : nat) (generation : Z) : poutcome :=
  let stop s := set_phase s (nr_closed s) (nr_done s) (nr_terminal s) false (nr_pending s) in
  let hand_back := close_control (at_control a) ++ [PCloseSession x] in
  if negb (current_is s current generation) then pnext (stop s) (hand_back ++ [PReturn (Err ErrCanceled)])
  else
    let failed s e := pnext (stop s) (hand_back ++ [PMigrationFailed current generation; PReturn (Err e)]) in
    match SessionRouter.Switch (enabled s) (Some x) (maximum_of s x) (datagram_mux s x) (nr_router s) with
    | (Err e, router) => failed (set_routers s router (nr_continuity s)) e
    | (Ok _, router) =>
        match continuity_switch (nr_continuity s) (continuity_route s 1 x a false) with
        | (continuity, Some e) => failed (set_routers s router continuity) e
        | (continuity, None) =>
            let '(retired, next, drains) := retire (current :: (map_to_list (nr_pool s)).*2) (nr_retired s) (nr_nextRetired s) in
            let name := match mobileCarrierName (carrier_of s x) with Ok name => name | Err _ => [] end in
            let s := set_routers s router continuity in
            let s := set_tables s ∅ (put x (at_control a) (nr_controls s)) retired next in
            let s := set_primary s x 1 name in
            let s := set_phase s (nr_closed s) (nr_done s) (nr_terminal s) false None in
            pnext s (PGo (PWatch (nr_generation s) x) :: drains ++ [PReturn (Ok (mkMigration false true true))])
        end
    end.

(** *** The pool goroutine *)

(** [currentPoolActivity] and the head of the loop of [runCarrierPool]; the
    time zero of [retryAt] is [None]. *)
Definition turn_section (s : np2Runtime) (last : Z) (retry : option Z) (ev : pool_env) : poutcome :=
  let streams := foldr (fun x n => u64 (pe_streams ev x + n)) 0 (nr_session s :: (map_to_list (nr_pool s)).*2) in
  let high := (carrierPoolHighRate <=? pe_rate ev) || (carrierPoolHighStreams <=? streams) in
  let turn := mkTurn (pe_now ev) (if high then pe_now ev else last) high in
  pnext s [if match retry with None => true | Some at_ => negb (pe_now ev <? at_) end then PReconcile turn else PIdle turn retry].

(** [reconcileCarrierPool]. *)
Definition reconcile_section (s : np2Runtime) (turn : pool_turn) : poutcome :=
  let desired := if 1 <? nr_target s then 2 else 1 in
  pnext s [PWarm (if (2 <? nr_target s) && pt_high turn then 3 else desired) turn].

(** [warmCarrierPool]: its first section and the head of its loop. *)
Definition warm_section (s : np2Runtime) (desired : Z) (turn : pool_turn) : poutcome :=
  let target := Z.min (Z.max desired 1) (nr_target s) in
  pnext s [if nr_migrating s then PResult (Some (Sentinel ErrMigrationInProgress)) turn else PHead target turn].
Definition head_section (s : np2Runtime) (target : Z) (turn : pool_turn) : poutcome :=
  if nr_closed s then pnext s [PResult (Some (Sentinel ErrCanceled)) turn]
  else if target <=? 1 + Z.of_nat (size (nr_pool s)) then pnext s [PResult None turn]
  else pnext s [PDial target (nr_carrier s) turn].

(** The preferred connector, then the ordinary one. *)
Definition dial_answer (fast : bool) (primary : list byte) (ev : pool_env) : res (option Authenticated) :=
  match (if is_https primary && negb fast then Ok None else pe_first ev) with Ok (Some a) => Ok (Some a) | _ => pe_session ev end.

Definition dial_pool (s : np2Runtime) (target : Z) (primary : list byte) (turn : pool_turn) (ev : pool_env) : poutcome :=
  let failed s k e := pnext s (k ++ [PFailure; PResult (Some e) turn]) in
  match dial_answer (nr_fast s) primary ev with
  | Err e => failed s [] e
  | Ok None => failed s [] (Sentinel ErrCarrierPoolMismatch)
  | Ok (Some a) =>
      let x := length (nr_sessions s) in
      if negb (au_mux a) then failed s [] (Sentinel ErrCarrierPoolMismatch)
      else if carrierPriority (au_carrier a) =? 0 then failed (connected s a) [PCloseSession x] (Sentinel ErrCarrierPoolMismatch)
      else match refused s a with
           | Some e => failed (connected s a) [PCloseSession x] e
           | None => pnext (connected s a) [PAttach x (ForPool target primary turn)]
           end
  end.

(** [promoteWarmCandidate]. *)
Definition candidate_section (s : np2Runtime) (x : nat) (a : attachment) (primary : list byte) (turn : pool_turn) : poutcome :=
  let failed s e := pnext s (close_control (at_control a) ++ [PCloseSession x; PFailure; PResult (Some e) turn]) in
  match mobileCarrierName (carrier_of s x) with
  | Err _ => failed s (Sentinel ErrCarrierPoolMismatch)
  | Ok name =>
      if carrierNamePriority name <=? carrierNamePriority primary then failed s (Sentinel ErrCarrierPoolMismatch)
      else if nr_closed s || nr_migrating s || negb (bytes_eq (nr_carrier s) primary) then failed s (Sentinel ErrMigrationInProgress)
      else
        let current := nr_session s in
        let old := nr_primary s in
        match SessionRouter.AddStandby (enabled s) (Some x) (maximum_of s x) (datagram_mux s x) (nr_router s) with
        | (Err e, router) => failed (set_routers s router (nr_continuity s)) e
        | (Ok id, router) =>
            let removed router := (SessionRouter.Remove id router).2 in
            match continuity_add (nr_continuity s) (continuity_route s id x a true) with
            | (continuity, Some e) => failed (set_routers s (removed router) continuity) e
            | (continuity, None) =>
                match SessionRouter.Promote id router with
                | (Err e, router) => failed (set_routers s (removed router) (continuity_remove continuity id)) e
                | (Ok _, router) =>
                    let back router := (SessionRouter.Promote old router).2 in
                    let '(c1, b1) := continuity_standby continuity id false in
                    let '(c2, b2) := if b1 then continuity_standby c1 old true else (c1, false) in
                    if negb b2 then failed (set_routers s (removed (back router)) (continuity_remove c2 id)) (Sentinel ErrCarrierPoolMismatch)
                    else match SessionRouter.SetStandby old true router with
                         | (false, router) =>
                             failed (set_routers s (removed (back router)) (continuity_remove (continuity_standby c2 old false).1 id)) (Sentinel ErrCarrierPoolMismatch)
                         | (true, router) =>
                             let s := set_routers s router c2 in
                             let s := set_tables s (<[old := current]> (nr_pool s)) (put x (at_control a) (nr_controls s)) (nr_retired s) (nr_nextRetired s) in
                             let s := set_counts (set_primary s x id name) (u64 (nr_scaleUps s + 1)) (nr_failures s) in
                             pnext s [PGo (PWatch (nr_generation s) x); PGo (PWatchPool old current); PResult None turn]
                         end
                end
            end
        end
  end.

(** The end of the loop: the session joins the pool. *)
Definition join_section (s : np2Runtime) (x : nat) (a : attachment) (target : Z) (primary : list byte) (turn : pool_turn) : poutcome :=
  let hand_back := close_control (at_control a) ++ [PCloseSession x] in
  if nr_closed s || nr_migrating s || negb (bytes_eq (nr_carrier s) primary) || (nr_target s <? target) then pnext s (hand_back ++ [PRefused turn])
  else
    let failed s e := pnext s (hand_back ++ [PFailure; PResult (Some e) turn]) in
    let standby := negb (is_https primary) in
    let add := if standby then SessionRouter.AddStandby else SessionRouter.Add in
    match add (enabled s) (Some x) (maximum_of s x) (datagram_mux s x) (nr_router s) with
    | (Err e, router) => failed (set_routers s router (nr_continuity s)) e
    | (Ok id, router) =>
        match continuity_add (nr_continuity s) (continuity_route s id x a standby) with
        | (continuity, Some e) => failed (set_routers s (SessionRouter.Remove id router).2 continuity) e
        | (continuity, None) =>
            let s := set_routers s router continuity in
            let s := set_tables s (<[id := x]> (nr_pool s)) (put x (at_control a) (nr_controls s)) (nr_retired s) (nr_nextRetired s) in
            pnext (set_counts s (u64 (nr_scaleUps s + 1)) (nr_failures s)) [PGo (PWatchPool id x); PHead target turn]
        end
    end.

(** [recordPoolFailure]. *)
Definition recordPoolFailure (s : np2Runtime) : poutcome := pnext (if nr_closed s then s else set_counts s (nr_scaleUps s) (u64 (nr_failures s + 1))) [].

(** What the loop of [runCarrierPool] makes of the result. *)
Definition result_section (s : np2Runtime) (e : option error) (turn : pool_turn) : poutcome :=
  match e with
  | Some e =>
      if errors_is e ErrCanceled then pnext s []
      else pnext s [PIdle turn (if errors_is e ErrMigrationInProgress then None else Some (pt_now turn + carrierPoolRetryDelay))]
  | None => pnext s [PIdle turn None]
  end.

(** The member with the greatest route that has no stream. *)
Definition idle_member (s : np2Runtime) (streams : nat -> Z) : option (Z * nat) :=
  foldl (fun best kv => if negb (streams kv.2 =? 0) || (kv.1 <=? match best with Some b => b.1 | None => 0 end) then best else Some kv) None (map_to_list (nr_pool s)).

(** [retireIdlePoolMember] and the [select] of the loop. *)
Definition idle_section (s : np2Runtime) (turn : pool_turn) (retry : option Z) (ev : pool_env) : poutcome :=
  if negb (pt_high turn) && (carrierPoolIdleTimeout <=? pt_now turn - pt_last turn) then
    if nr_closed s || (Z.of_nat (size (nr_pool s)) <=? 1) then pnext s [PSelect (pt_last turn) retry]
    else match idle_member s (pe_streams ev) with
         | None => pnext s [PSelect (pt_last turn) retry]
         | Some (id, x) => let '(s, k) := leave_pool s id x in pnext s (k ++ [PSelect (pt_now turn) retry])
         end
  else pnext s [PSelect (pt_last turn) retry].
Definition select_section (s : np2Runtime) (k : list pinstr) (ev : pool_env) : poutcome :=
  if pe_cancelled ev then if nr_closed s then pnext s [] else None else pnext s k.

(** *** [StartTunnel] and [Close] *)

Definition StartTunnel (s : np2Runtime) (started : option error) : np2Runtime * option error * list (list pinstr) :=
  if nr_closed s then (s, Some (Sentinel ErrTunnelNotConnected), [])
  else if nr_stack s then (s, Some (Sentinel ErrTunnelAlreadyStarted), [])
  else match started with
       | Some e => (s, Some e, [])
       | None => (set_world s true (nr_sessions s) (nr_ended s) (nr_channels s) (nr_log s), None, if 1 <? nr_configured s then [[PWarmDelay]] else [])
       end.

Definition Close (s : np2Runtime) : np2Runtime * list pinstr :=
  if nr_closed s then (s, [])
  else
    (set_phase (set_tables s ∅ ∅ (nr_retired s) (nr_nextRetired s)) true true (nr_terminal s) (nr_migrating s) (nr_pending s),
     (if bool_decide (is_Some (nr_continuity s)) then [PCloseRouter] else []) ++ map PCloseControl (map_to_list (nr_controls s)).*2
       ++ map PCloseSession (nr_session s :: (map_to_list (nr_pool s)).*2 ++ (map_to_list (nr_retired s)).*2) ++ [PCloseStack]).

(** ** Execution *)

Definition pexec (s : np2Runtime) (x : pinstr) (ev : pool_env) : poutcome :=
  match x with
  | PProbe current generation => pnext s [match pe_error ev with None => PProbed current generation | Some _ => PConnect current generation end]
  | PProbed current generation => probed_section s current generation
  | PConnect current generation => connect_section s current generation ev
  | PSwitch x a current generation => switch_section s x a current generation
  | PMigrationFailed current generation => finishMigrationFailure s current generation
  | PReturn r => pnext (note s [ChangeReturned r]) []
  | PAttach x u => attach_section s x u
  | PAttaching x u => attaching_section s x u ev
  | PWarmDelay => select_section s [PTurn (pe_now ev) None] ev
  | PSelect last retry => select_section s [PTurn last retry] ev
  | PTurn last retry => turn_section s last retry ev
  | PReconcile turn => reconcile_section s turn
  | PWarm desired turn => warm_section s desired turn
  | PHead target turn => head_section s target turn
  | PDial target primary turn => dial_pool s target primary turn ev
  | PCandidate x a primary turn => candidate_section s x a primary turn
  | PJoin x a target primary turn => join_section s x a target primary turn
  | PRefused turn => pnext s [PResult (Some (Sentinel (if nr_closed s then ErrCanceled else ErrMigrationInProgress))) turn]
  | PFailure => recordPoolFailure s
  | PResult e turn => result_section s e turn
  | PIdle turn retry => idle_section s turn retry ev
  | PWatch generation x => watchSession s generation x
  | PTerminal generation x e => terminal_section s generation x e
  | PWatchPool id x => watchPoolSession s id x
  | PDrain retired x => drainRetiredSession s retired x ev
  | PCloseControlOf x => closeControlForSession s x
  | PRemoveRetired retired x => removeRetired s retired x
  | PGo x => Some (s, [], [[x]])
  | PRemoveContinuity id => pnext (set_routers s (nr_router s) (continuity_remove (nr_continuity s) id)) []
  | PRemoveRoute id => pnext (set_routers s (SessionRouter.Remove id (nr_router s)).2 (nr_continuity s)) []
  | PCloseControl c => pnext (note s [ChannelClosed c]) []
  | PCloseSession x => pnext (note (ends s x (default (Sentinel ErrClosed) (pe_error ev))) [SessionClosed x]) []
  | PCloseRouter => pnext (note (set_routers s (nr_router s) (option_map (fun c => closing c true Finished true) (nr_continuity s))) [RouterClosed]) []
  | PCloseStack => pnext (note s [StackClosed]) []
  end.

Definition psystem : Type := np2Runtime * list (list pinstr).

Definition pthread_step (y : psystem) (t : nat) (ev : pool_env) : option psystem :=
  let '(s, threads) := y in
  match threads !! t with
  | Some (x :: rest) => '(s, k, started) ← pexec s x ev; Some (s, <[t := k ++ rest]> threads ++ started)
  | _ => None
  end.

(** The identity of a constellation and of a lease is not zero. *)
Definition env_ok (ev : pool_env) : Prop := forall constellation key, pe_state ev = Some (constellation, key) -> is_zero constellation = false /\ is_zero key = false.

Inductive psystem_step : psystem -> psystem -> Prop :=
| ps_thread y t ev y' : env_ok ev -> pthread_step y t ev = Some y' -> psystem_step y y'
| ps_ends s threads x e : psystem_step (s, threads) (ends s x e, threads)
| ps_change s threads : psystem_step (s, threads) ((NetworkChanged s).1, threads ++ [(NetworkChanged s).2])
| ps_tunnel s threads started : psystem_step (s, threads) (note (StartTunnel s started).1.1 [TunnelReturned (StartTunnel s started).1.2], threads ++ (StartTunnel s started).2)
| ps_close s threads : psystem_step (s, threads) ((Close s).1, threads ++ [(Close s).2]).

(** *** The start *)

Record mobile_config := mkMobileConfig { mc_addresses : list Addr; mc_maxStreams : Z; mc_parallel : Z; mc_constellation : bool }.

Definition continuityMaxFlows (c : mobile_config) : Z := Z.min (Z.max (mc_maxStreams c) 1) mobileContinuityMaxFlows.

(** [newMobileContinuity] for the first session: its control channel is the
    channel 0.  [Create], [State] and [NewControlChannel] are the environment. *)
Definition newMobileContinuity (c : mobile_config) (a : Authenticated) (router : SessionRouter) (ev : pool_env)
    : list pool_event * res (option ClientContinuityRouter * attachment * SessionRouter) :=
  if negb (mc_constellation c) then ([], Ok (None, no_attachment, router))
  else if continuityMaxFlows c <=? 0 then ([], Err ErrSessionConfig)
  else match pe_attach ev, pe_state ev, pe_channel ev with
       | Some e, _, _ => ([], Err e)
       | None, None, _ => ([], Err ErrContinuityState)
       | None, Some _, Some e => ([], Err e)
       | None, Some (constellation, key), None =>
           let initial := mkRoute 1 (Some 0%nat) (Some 0%nat) constellation key (bool_decide (au_datagrams a = Some true)) 0 0 0 0 false in
           match NewClientContinuityRouter (mkRouterConfig true initial (continuityMaxFlows c) mobileContinuityJournal mobileContinuityAckEvery mobileContinuityMigration mobileContinuityControl) [] with
           | Err e => ([ChannelClosed 0], Err e)
           | Ok continuity =>
               match EnableContinuity 0 router with
               | (Err e, _) => ([RouterClosed; ChannelClosed 0], Err e)
               | (Ok _, router) => ([], Ok (Some continuity, mkAttachment (Some 0%nat) constellation key, router))
               end
           end
       end.

(** [newNP2RuntimeWithConnectors]: the events, and the runtime with the
    goroutine that watches its session. *)
Definition newNP2Runtime (c : mobile_config) (fast : bool) (a : Authenticated) (ev : pool_env) : list pool_event * res (np2Runtime * list (list pinstr)) :=
  if negb (au_mux a) then ([], Err ErrTunnelNotConnected)
  else
    let failed events e := (events ++ [SessionClosed 0], Err e) in
    match canonicalRouteAddresses (mc_addresses c ++ au_addresses a), mobileCarrierName (au_carrier a), authenticatedSessionRoute a with
    | Err e, _, _ | _, Err e, _ | _, _, Err e => failed [] e
    | Ok routes, Ok name, Ok (maximum, datagrams) =>
        match NewSessionRouter (fun _ => bool_decide (au_datagrams a = Some true)) (Some 0%nat) maximum (if datagrams then Some 0%nat else None) with
        | Err e => failed [] e
        | Ok router =>
            match newMobileContinuity c a router ev with
            | (events, Err e) => failed events e
            | (_, Ok (continuity, at_, router)) =>
                let configured := Z.min (Z.max (mc_parallel c) 1) 3 in
                ([], Ok (mkNP2 0 1 name 1 router continuity ∅ (put 0%nat (at_control at_) ∅) ∅ 1
                           false false None false None false configured (carrierPoolTarget configured name) 0 0
                           routes (mc_addresses c) fast [a] ∅ (if bool_decide (is_Some (at_control at_)) then 1 else 0) [], [[PWatch 1 0]]))
            end
        end
    end.

(** ** Who answers for a session *)

(** The session, or the channel, that an instruction will close or hand on; the
    session whose channel it will take from the table; the session that is not in
    a table yet; the watchers. *)
Fixpoint keeps (x : nat) (i : pinstr) : bool :=
  match i with
  | PAttach y _ | PAttaching y _ | PSwitch y _ _ _ | PCandidate y _ _ _ | PJoin y _ _ _ _ | PDrain _ y | PCloseSession y => bool_decide (x = y)
  | PGo j => keeps x j
  | _ => false
  end.
Fixpoint keeps_channel (c : nat) (i : pinstr) : bool :=
  match i with
  | PSwitch _ a _ _ | PCandidate _ a _ _ | PJoin _ a _ _ _ => bool_decide (at_control a = Some c)
  | PCloseControl d => bool_decide (c = d)
  | PGo j => keeps_channel c j
  | _ => false
  end.
Fixpoint frees (x : nat) (i : pinstr) : bool :=
  match i with PDrain _ y | PCloseControlOf y => bool_decide (x = y) | PGo j => frees x j | _ => false end.
Fixpoint flight (i : pinstr) : option nat :=
  match i with PAttach y _ | PAttaching y _ | PSwitch y _ _ _ | PCandidate y _ _ _ | PJoin y _ _ _ _ => Some y | PGo j => flight j | _ => None end.
Fixpoint watches_pool (id : Z) (x : nat) (i : pinstr) : bool :=
  match i with PWatchPool j y => bool_decide (id = j /\ x = y) | PGo j => watches_pool id x j | _ => false end.
Fixpoint watches (generation : Z) (x : nat) (i : pinstr) : bool :=
  match i with PWatch g y => bool_decide (generation = g /\ x = y) | PGo j => watches generation x j | _ => false end.
Fixpoint seen (i : pinstr) : option nat :=
  match i with PWatch _ y | PWatchPool _ y => Some y | PGo j => seen j | _ => None end.

Fixpoint carries (i : pinstr) : option attachment :=
  match i with PSwitch _ a _ _ | PCandidate _ a _ _ | PJoin _ a _ _ _ => Some a | PGo j => carries j | _ => None end.
Fixpoint closing_router (i : pinstr) : bool := match i with PCloseRouter => true | PGo j => closing_router j | _ => false end.

(** An attachment a continuity router accepts. *)
Definition attached (a : attachment) : Prop := is_Some (at_control a) /\ is_zero (at_constellation a) = false /\ is_zero (at_key a) = false.

(** What an instruction refers to is there. *)
Record sound (s : np2Runtime) (i : pinstr) : Prop := {
  so_seen : forall x, seen i = Some x -> (x < length (nr_sessions s))%nat;
  so_carries : forall a, carries i = Some a -> is_Some (nr_continuity s) -> attached a;
  so_closing : closing_router i = true -> nr_closed s = true
}.
Definition plain (i : pinstr) : Prop := seen i = None /\ carries i = None /\ closing_router i = false.
Lemma plain_sound s i : plain i -> sound s i.
Proof. intros (H1 & H2 & H3). constructor; congruence. Qed.

Definition owned (s : np2Runtime) (x : nat) : Prop := nr_closed s = false /\ (x = nr_session s \/ exists id, nr_pool s !! id = Some x).

(** The tables alone. *)
Record tables_ok (s : np2Runtime) : Prop := {
  tb_ended : forall x, SessionClosed x ∈ nr_log s -> is_Some (nr_ended s !! x);
  tb_router : pool_ok (nr_router s);
  tb_session : (nr_session s < length (nr_sessions s))%nat;
  tb_primary : 1 <= nr_primary s < r_nextRouteID (nr_router s);
  tb_pool : forall id x, nr_pool s !! id = Some x -> 1 <= id < r_nextRouteID (nr_router s) /\ id <> nr_primary s /\ (x < length (nr_sessions s))%nat;
  tb_controls : forall x, is_Some (nr_controls s !! x) -> (x < length (nr_sessions s))%nat;
  tb_closed : nr_closed s = true -> nr_pool s = ∅ /\ nr_done s = true;
  tb_open : nr_closed s = false -> forall c, nr_continuity s = Some c -> cc_closed c = false
}.

(** The tables and what the goroutines have left to do, [M] in all. *)
Record pinv (s : np2Runtime) (M : list pinstr) : Prop := {
  pv_tables : tables_ok s;
  pv_sessions : forall x, (x < length (nr_sessions s))%nat -> SessionClosed x ∈ nr_log s \/ some_of (keeps x) M \/ owned s x;
  pv_channels : forall c, (c < nr_channels s)%nat -> ChannelClosed c ∈ nr_log s \/ some_of (keeps_channel c) M \/
    (nr_closed s = false /\ exists x, nr_controls s !! x = Some c /\ (owned s x \/ some_of (frees x) M));
  pv_flights : NoDup (omap flight M);
  pv_flying : forall x, x ∈ omap flight M -> (x < length (nr_sessions s))%nat /\ nr_controls s !! x = None;
  pv_next : r_nextRouteID (nr_router s) + Z.of_nat (length (omap flight M)) <= 1 + len (nr_sessions s);
  pv_sound : Forall (sound s) M;
  pv_watched : forall id x, nr_pool s !! id = Some x -> some_of (watches_pool id x) M;
  pv_alive : is_Some (nr_ended s !! nr_session s) \/ nr_closed s = true \/ some_of (watches (nr_generation s) (nr_session s)) M
}.

Lemma pinv_perm s M M' : M ≡ₚ M' -> pinv s M -> pinv s M'.
Proof.
  intros H [P1 P2 P3 P4 P5 P6 P7 P8 P9]. constructor; try done.
  - intros x Hx. destruct (P2 x Hx) as [?|[Hs|?]]; [auto| |auto]. right; left. by eapply some_of_perm.
  - intros c Hc. destruct (P3 c Hc) as [?|[Hs|(Hn & x & Hx & Ho)]]; [auto|right; left; by eapply some_of_perm|]. right; right. split; [done|]. exists x. split; [done|].
    destruct Ho as [|Ho]; [auto|]. right. by eapply some_of_perm.
  - by rewrite <- H.
  - intros x Hx. apply P5. by rewrite H.
  - by rewrite <- H.
  - by rewrite <- H.
  - intros id x Hx. eapply some_of_perm; [exact H|]. by apply P8.
  - destruct P9 as [|[|P9]]; [auto|auto|]. right; right. by eapply some_of_perm.
Qed.

(** What one instruction [i] replaced by [k] must guarantee. *)
Record moved (s s' : np2Runtime) (i : pinstr) (k : list pinstr) : Prop := {
  mv_grows : (length (nr_sessions s) <= length (nr_sessions s'))%nat;
  mv_log : forall e, e ∈ nr_log s -> e ∈ nr_log s';
  mv_ended : forall x, is_Some (nr_ended s !! x) -> is_Some (nr_ended s' !! x);
  mv_closed : nr_closed s = true -> nr_closed s' = true;
  mv_sessions : forall x, (x < length (nr_sessions s))%nat -> keeps x i = true \/ owned s x -> SessionClosed x ∈ nr_log s' \/ some_of (keeps x) k \/ owned s' x;
  mv_fresh : forall x, (length (nr_sessions s) <= x < length (nr_sessions s'))%nat -> some_of (keeps x) k;
  mv_channels : forall c, keeps_channel c i = true \/ (nr_channels s <= c < nr_channels s')%nat -> ChannelClosed c ∈ nr_log s' \/ some_of (keeps_channel c) k \/
    (nr_closed s' = false /\ exists x, nr_controls s' !! x = Some c /\ owned s' x);
  mv_controls : forall x c, nr_closed s = false -> nr_controls s !! x = Some c -> some_of (keeps_channel c) k \/
    (nr_closed s' = false /\ nr_controls s' !! x = Some c /\ (owned s x \/ frees x i = true -> owned s' x \/ some_of (frees x) k));
  mv_flights : omap flight k = [] \/ omap flight k = omap flight [i] /\ (forall x, x ∈ omap flight [i] -> nr_controls s !! x = None -> nr_controls s' !! x = None) \/
    (omap flight [i] = [] /\ omap flight k = [length (nr_sessions s)] /\ (length (nr_sessions s) < length (nr_sessions s'))%nat);
  mv_put : forall x, is_Some (nr_controls s' !! x) -> is_Some (nr_controls s !! x) \/ flight i = Some x;
  mv_next : r_nextRouteID (nr_router s') + Z.of_nat (length (omap flight k)) + len (nr_sessions s) <= r_nextRouteID (nr_router s) + Z.of_nat (length (omap flight [i])) + len (nr_sessions s');
  mv_sound : Forall (sound s') k;
  mv_continuity : is_Some (nr_continuity s') -> is_Some (nr_continuity s);
  mv_watched : forall id x, nr_pool s' !! id = Some x -> some_of (watches_pool id x) k \/ nr_pool s !! id = Some x /\ watches_pool id x i = false;
  mv_alive : is_Some (nr_ended s' !! nr_session s') \/ nr_closed s' = true \/ some_of (watches (nr_generation s') (nr_session s')) k \/
    (nr_session s' = nr_session s /\ nr_generation s' = nr_generation s /\ watches (nr_generation s) (nr_session s) i = false)
}.

Lemma pinv_moved s s' i k R : pinv s (i :: R) -> moved s s' i k -> tables_ok s' -> pinv s' (k ++ R).
Proof.
  intros [P1 P2 P3 P4 P5 P6 P7 P8 P9] [V1 V2 V3 V4 V5 V6 V7 V8 V9 V10 V11 V12 V12' V13 V14] Ht.
  assert (Hl : forall (p : pinstr -> bool), some_of p k -> some_of p (k ++ R)) by (intros; apply some_of_app; auto).
  assert (Hr : forall (p : pinstr -> bool), some_of p R -> some_of p (k ++ R)) by (intros; apply some_of_app; auto).
  change (i :: R) with ([i] ++ R) in P4, P5, P6. rewrite omap_app in P4, P5, P6. rewrite length_app in P6.
  constructor; [done| | | | | | | |].
  - intros x Hx. destruct (decide (x < length (nr_sessions s))%nat) as [Hs|Hs]; [|right; left; apply Hl, V6; lia].
    assert (Hh : keeps x i = true \/ owned s x -> SessionClosed x ∈ nr_log s' \/ some_of (keeps x) (k ++ R) \/ owned s' x) by (intros H; destruct (V5 x Hs H) as [|[|]]; auto).
    destruct (P2 x Hs) as [|[Hk|]]; [auto| |auto]. apply some_of_cons in Hk as [|]; auto.
  - intros c Hc. assert (Hh : keeps_channel c i = true \/ (nr_channels s <= c < nr_channels s')%nat -> ChannelClosed c ∈ nr_log s' \/ some_of (keeps_channel c) (k ++ R) \/
      (nr_closed s' = false /\ exists x, nr_controls s' !! x = Some c /\ (owned s' x \/ some_of (frees x) (k ++ R)))).
    { intros H. destruct (V7 c H) as [|[|(Hn & x & ? & ?)]]; [auto|auto|]. right; right. split; [done|]. exists x. auto. }
    destruct (decide (c < nr_channels s)%nat) as [Hs|Hs]; [|apply Hh; right; lia].
    destruct (P3 c Hs) as [|[[|]%some_of_cons|(Hn & x & Hx & Ho)]]; [auto|auto|auto|]. destruct (V8 x c Hn Hx) as [|(Hn' & Hx' & H)]; [auto|]. right; right. split; [done|]. exists x. split; [done|].
    destruct Ho as [Ho|[Ho|Ho]%some_of_cons]; [| |auto]; destruct H as [|]; auto.
  - rewrite omap_app. apply NoDup_app in P4 as (N1 & N2 & N3). apply NoDup_app. destruct V9 as [-> |[(-> & _)|(E1 & -> & E3)]].
    + split_and!; [apply NoDup_nil_2|by intros ? ?%not_elem_of_nil|done].
    + by split_and!.
    + split_and!; [apply NoDup_singleton| |done]. intros x ->%list_elem_of_singleton Hin. destruct (P5 (length (nr_sessions s))) as [? _]; [apply elem_of_app; by right|lia].
  - intros x Hx. rewrite omap_app in Hx. apply elem_of_app in Hx as [Hx|Hx].
    + destruct V9 as [E|[(E & Hc)|(E1 & E2 & E3)]]; [by rewrite E in Hx; apply not_elem_of_nil in Hx| |].
      * rewrite E in Hx. destruct (P5 x) as [? Hn]; [apply elem_of_app; by left|]. split; [lia|]. by apply Hc.
      * rewrite E2 in Hx. apply list_elem_of_singleton in Hx as ->. split; [lia|]. apply eq_None_not_Some. intros Hs. destruct (V10 _ Hs) as [Hc|Hf]; [apply (tb_controls _ P1) in Hc; lia|]. cbn in E1. rewrite Hf in E1. done.
    + destruct (P5 x) as [Hlt Hn]; [apply elem_of_app; by right|]. split; [lia|]. apply eq_None_not_Some. intros Hs. destruct (V10 _ Hs) as [[? Hc]|Hf]; [by rewrite Hn in Hc|].
      apply NoDup_app in P4 as (_ & N & _). apply (N x); [|done]. cbn. rewrite Hf. by left.
  - rewrite omap_app, length_app. unfold len in *. lia.
  - apply Forall_app. split; [done|]. apply Forall_cons in P7 as [_ P7]. eapply Forall_impl; [exact P7|]. intros j [J1 J2 J3]. constructor; auto. intros x Hx. specialize (J1 x Hx). lia.
  - intros id x Hx. destruct (V13 id x Hx) as [|[Hp Hf]]; [auto|]. destruct (proj1 (some_of_cons _ _ _) (P8 id x Hp)) as [Hw|]; [congruence|auto].
  - destruct V14 as [|[|[|(E1 & E2 & E3)]]]; [auto|auto|auto|]. rewrite E1, E2. destruct P9 as [?|[?|P9]]; [auto|auto|]. apply some_of_cons in P9 as [Hw|]; [congruence|auto].
Qed.

(** A step that leaves the tables alone: sessions may end or be closed. *)
Record steady (s s' : np2Runtime) : Prop := {
  st_sessions : nr_sessions s' = nr_sessions s; st_channels : nr_channels s' = nr_channels s; st_session : nr_session s' = nr_session s; st_primary : nr_primary s' = nr_primary s;
  st_generation : nr_generation s' = nr_generation s; st_pool : nr_pool s' = nr_pool s; st_controls : nr_controls s' = nr_controls s; st_closed : nr_closed s' = nr_closed s;
  st_done : nr_done s = true -> nr_done s' = true;
  st_router : pool_ok (nr_router s) -> pool_ok (nr_router s') /\ r_nextRouteID (nr_router s') = r_nextRouteID (nr_router s);
  st_continuity : forall c', nr_continuity s' = Some c' -> exists c, nr_continuity s = Some c /\ (cc_closed c' = true -> cc_closed c = true \/ nr_closed s = true);
  st_log : forall e, e ∈ nr_log s -> e ∈ nr_log s'; st_ended : forall x, is_Some (nr_ended s !! x) -> is_Some (nr_ended s' !! x);
  st_end : forall x, SessionClosed x ∈ nr_log s' -> SessionClosed x ∈ nr_log s \/ is_Some (nr_ended s' !! x)
}.

Lemma steady_tables s s' : steady s s' -> tables_ok s -> tables_ok s'.
Proof.
  intros [S1 S2 S3 S4 S5 S6 S7 S8 S9 S10 Sc S11 S12 S13] [T1 T2 T3 T4 T5 T6 T7 T8]. destruct (S10 T2) as [R1 R2]. constructor; rewrite ?S1, ?S3, ?S4, ?S6, ?S7, ?S8, ?R2; try done.
  - intros x Hx. destruct (S13 x Hx) as [H|]; [|done]. by apply S12, T1.
  - intros H. destruct (T7 H). auto.
  - intros H c' Hc. destruct (Sc c' Hc) as (c & E & Hcl). apply not_true_iff_false. intros [Hx|Hx]%Hcl; [|congruence]. by rewrite (T8 H c E) in Hx.
Qed.

Lemma steady_owned s s' x : steady s s' -> owned s x -> owned s' x.
Proof. intros S. unfold owned. by rewrite (st_session _ _ S), (st_pool _ _ S), (st_closed _ _ S). Qed.

Lemma steady_moved s s' i k : steady s s' -> pool_ok (nr_router s) -> Forall (sound s) k ->
  (forall x, keeps x i = true -> SessionClosed x ∈ nr_log s' \/ some_of (keeps x) k) -> (forall c, keeps_channel c i = true -> ChannelClosed c ∈ nr_log s' \/ some_of (keeps_channel c) k) ->
  (forall x, frees x i = true -> some_of (frees x) k) -> omap flight k = [] \/ omap flight k = omap flight [i] ->
  (forall id x, watches_pool id x i = true -> nr_pool s !! id = Some x -> some_of (watches_pool id x) k) ->
  (watches (nr_generation s) (nr_session s) i = true -> is_Some (nr_ended s' !! nr_session s) \/ nr_closed s = true \/ some_of (watches (nr_generation s) (nr_session s)) k) -> moved s s' i k.
Proof.
  intros S Hp Hs Hk Hc Hf Hl Hw Ha. destruct (st_router _ _ S Hp) as [_ Hn]. pose proof (fun x => steady_owned s s' x S) as Ho. destruct S as [S1 S2 S3 S4 S5 S6 S7 S8 S9 S10 Sc S11 S12 S13].
  constructor; rewrite ?S1, ?S2, ?S3, ?S5, ?S6, ?S7, ?S8, ?Hn; try done.
  - intros x _ [H|H]; [destruct (Hk x H) as [|]; auto|]. right; right. by apply Ho.
  - intros x [? ?]. lia.
  - intros c [H|[? ?]]; [|lia]. destruct (Hc c H) as [|]; auto.
  - intros x c Hcl Hx. right. split; [done|]. split; [done|]. intros [H|H]; [left; by apply Ho|right; by apply Hf].
  - destruct Hl as [|]; auto.
  - auto.
  - destruct Hl as [-> | ->]; cbn; lia.
  - eapply Forall_impl; [exact Hs|]. intros j [J1 J2 J3]. constructor; rewrite ?S1, ?S8; [done| |done]. intros a Ea [c' Ec]. destruct (Sc c' Ec) as (c & E & _). apply J2; [done|by exists c].
  - intros [c' Ec]. destruct (Sc c' Ec) as (c & E & _). by exists c.
  - intros id x Hx. destruct (watches_pool id x i) eqn:E; [left; by apply Hw|by right].
  - destruct (watches (nr_generation s) (nr_session s) i) eqn:E; [destruct (Ha eq_refl) as [|[|]]; auto|]. right; right; right. by split_and!.
Qed.

(** The instructions that only read, close or report. *)
Lemma steady_pool_refl s : steady s s.
Proof. constructor; eauto. Qed.

Lemma steady_note s events : (forall x, SessionClosed x ∈ events -> is_Some (nr_ended s !! x)) -> steady s (note s events).
Proof. intros H. constructor; cbn; eauto; [intros e He; apply elem_of_app; by left|]. intros x [Hx|Hx]%elem_of_app; auto. Qed.

Lemma steady_trans s1 s2 s3 : steady s1 s2 -> steady s2 s3 -> steady s1 s3.
Proof.
  intros [S1 S2 S3 S4 S5 S6 S7 S8 S9 S10 Sc S11 S12 S13] [U1 U2 U3 U4 U5 U6 U7 U8 U9 U10 Uc U11 U12 U13]. constructor; try congruence; auto.
  - intros H. destruct (S10 H) as [H1 H2]. destruct (U10 H1) as [H3 H4]. split; [done|congruence].
  - intros c3 H3. destruct (Uc c3 H3) as (c2 & H2 & E2). destruct (Sc c2 H2) as (c1 & H1 & E1). exists c1. split; [done|]. intros [H|H]%E2; [auto|right; congruence].
  - intros x Hx. destruct (U13 x Hx) as [H|]; [|auto]. destruct (S13 x H) as [|]; auto.
Qed.

Lemma steady_ends s x e : steady s (ends s x e).
Proof.
  constructor; cbn; eauto. intros y Hy. destruct (nr_ended s !! x) eqn:E; [done|]. destruct (decide (x = y)) as [->|]; [by rewrite lookup_insert_eq|by rewrite lookup_insert_ne].
Qed.
Lemma ends_ended s x e : is_Some (nr_ended (ends s x e) !! x).
Proof. cbn. destruct (nr_ended s !! x) eqn:E; [by rewrite E|by rewrite lookup_insert_eq]. Qed.

Lemma steady_phase s done terminal migrating pending : (nr_done s = true -> done = true) -> steady s (set_phase s (nr_closed s) done terminal migrating pending).
Proof. intros H. constructor; cbn; eauto. Qed.
Lemma steady_counts s a b : steady s (set_counts s a b).
Proof. constructor; cbn; eauto. Qed.

(** The continuity router does not close before the runtime. *)
Definition opened (s : np2Runtime) (continuity : option ClientContinuityRouter) : Prop :=
  forall c', continuity = Some c' -> exists c, nr_continuity s = Some c /\ (cc_closed c' = true -> cc_closed c = true \/ nr_closed s = true).
Lemma opened_same s : opened s (nr_continuity s).
Proof. intros c H. eauto. Qed.

Lemma steady_router s router continuity : (pool_ok (nr_router s) -> pool_ok router /\ r_nextRouteID router = r_nextRouteID (nr_router s)) -> opened s continuity -> steady s (set_routers s router continuity).
Proof. intros H. constructor; cbn; eauto. Qed.
Lemma steady_continuity s continuity : opened s continuity -> steady s (set_routers s (nr_router s) continuity).
Proof. by apply steady_router. Qed.

Lemma pinv_steady s s' i k R : pinv s (i :: R) -> steady s s' -> Forall (sound s) k ->
  (forall x, keeps x i = true -> SessionClosed x ∈ nr_log s' \/ some_of (keeps x) k) -> (forall c, keeps_channel c i = true -> ChannelClosed c ∈ nr_log s' \/ some_of (keeps_channel c) k) ->
  (forall x, frees x i = true -> some_of (frees x) k) -> omap flight k = [] \/ omap flight k = omap flight [i] ->
  (forall id x, watches_pool id x i = true -> nr_pool s !! id = Some x -> some_of (watches_pool id x) k) ->
  (watches (nr_generation s) (nr_session s) i = true -> is_Some (nr_ended s' !! nr_session s) \/ nr_closed s = true \/ some_of (watches (nr_generation s) (nr_session s)) k) -> pinv s' (k ++ R).
Proof.
  intros H S Hs H1 H2 H3 H4 H5 H6. pose proof (pv_tables _ _ H) as Ht. eapply pinv_moved; [exact H| |by eapply steady_tables]. apply steady_moved; try done. apply Ht.
Qed.

Ltac held := cbn; intros; repeat match goal with
  | H : bool_decide _ = true |- _ => apply bool_decide_eq_true in H
  | H : false = true |- _ => discriminate H
  | H : _ /\ _ |- _ => destruct H
  end; subst.
Ltac plainly := repeat (apply Forall_cons; split; [apply plain_sound; by split_and!|]); by apply Forall_nil.
Ltac quiet H := eapply pinv_steady; [exact H| |plainly|by held; right; someone|by held; right; someone|by held; someone|first [left; reflexivity|right; reflexivity]|by held|by held].

Lemma some_of_tail {A} (p : A -> bool) l k : some_of p k -> some_of p (l ++ k).
Proof. intros H. apply some_of_app. by right. Qed.
Hint Resolve some_of_tail : holders.

Lemma close_control_keeps c k : some_of (keeps_channel c) (close_control (Some c) ++ k).
Proof. apply some_here. by apply bool_decide_true. Qed.

(** Closing what was refused. *)
Lemma hand_back_spec s a x k : Forall (sound s) k -> Forall (sound s) (close_control (at_control a) ++ PCloseSession x :: k) /\
  some_of (keeps x) (close_control (at_control a) ++ PCloseSession x :: k) /\ (forall c, at_control a = Some c -> some_of (keeps_channel c) (close_control (at_control a) ++ PCloseSession x :: k)) /\
  omap flight (close_control (at_control a) ++ PCloseSession x :: k) = omap flight k.
Proof.
  intros Hk. split_and!; [destruct (at_control a); cbn; repeat (apply Forall_cons; split; [apply plain_sound; by split_and!|]); exact Hk|apply some_of_tail, some_here; by apply bool_decide_true| |by destruct (at_control a)].
  intros c ->. apply close_control_keeps.
Qed.

Lemma after_attach_spec s x u r : (forall a, r = Ok a -> is_Some (nr_continuity s) -> attached a) -> Forall (sound s) (after_attach s x u r) /\ some_of (keeps x) (after_attach s x u r) /\
  (forall a c, r = Ok a -> at_control a = Some c -> some_of (keeps_channel c) (after_attach s x u r)) /\ (omap flight (after_attach s x u r) = [] \/ omap flight (after_attach s x u r) = [x]).
Proof.
  intros Ha. assert (Hs : forall j a, r = Ok a -> seen j = None -> carries j = Some a -> closing_router j = false -> Forall (sound s) [j]).
  { intros j a Er J1 J2 J3. apply Forall_singleton. constructor; [congruence| |congruence]. intros b Eb. rewrite J2 in Eb. injection Eb as <-. by apply Ha. }
  destruct u as [current generation|target primary turn]; destruct r as [a|e]; cbn [after_attach].
  - split_and!; [by apply (Hs _ a)|apply some_here; by apply bool_decide_true|intros a0 c [= <-] E; apply some_here; cbn; by apply bool_decide_true|by right].
  - split_and!; [plainly|apply some_here; by apply bool_decide_true|done|by left].
  - assert (Hg : let k := close_control (at_control a) ++ [PCloseSession x; PFailure; PResult (Some (Sentinel ErrCarrierPoolMismatch)) turn] in Forall (sound s) k /\ some_of (keeps x) k /\
      (forall a0 c, Ok a = Ok a0 -> at_control a0 = Some c -> some_of (keeps_channel c) k) /\ (omap flight k = [] \/ omap flight k = [x])).
    { destruct (hand_back_spec s a x [PFailure; PResult (Some (Sentinel ErrCarrierPoolMismatch)) turn] ltac:(plainly)) as (G1 & G2 & G3 & G4). split_and!; [done|done| |by left]. intros a0 c [= <-]. apply G3. }
    assert (Hj : forall j, seen j = None -> carries j = Some a -> closing_router j = false -> keeps x j = true -> (forall c, at_control a = Some c -> keeps_channel c j = true) -> flight j = Some x -> Forall (sound s) [j] /\ some_of (keeps x) [j] /\
      (forall a0 c, Ok a = Ok a0 -> at_control a0 = Some c -> some_of (keeps_channel c) [j]) /\ (omap flight [j] = [] \/ omap flight [j] = [x])).
    { intros j K1 K2 K3 J2 J3 J4. split_and!; [by apply (Hs _ a)|by apply some_here|intros a0 c [= <-] E; apply some_here; by apply J3|right; cbn; by rewrite J4]. }
    destruct (_ <? _); [|destruct (mobileCarrierName _); [destruct (_ && _)|]]; try exact Hg; apply Hj; cbn; try done; intros; by apply bool_decide_true.
  - split_and!; [plainly|apply some_here; by apply bool_decide_true|done|by left].
Qed.

Ltac plain_list := repeat (apply Forall_cons; split; [by split_and!|]); by apply Forall_nil.

(** The instructions that answer for nothing. *)
Definition idle (i : pinstr) : Prop := (forall x, keeps x i = false) /\ (forall c, keeps_channel c i = false) /\ (forall x, frees x i = false) /\ flight i = None /\
  (forall id x, watches_pool id x i = false) /\ (forall g x, watches g x i = false).

(** A connector returned a session. *)
Lemma pinv_connected s a i k R : pinv s (i :: R) -> idle i -> some_of (keeps (length (nr_sessions s))) k -> omap flight k = [] \/ omap flight k = [length (nr_sessions s)] -> Forall plain k ->
  pinv (connected s a) (k ++ R).
Proof.
  intros H (I1 & I2 & I3 & I4 & I5 & I6) Hk Hf Hs. pose proof (pv_tables _ _ H) as [T1 T2 T3 T4 T5 T6 T7 T8].
  assert (Hl : length (nr_sessions (connected s a)) = S (length (nr_sessions s))) by (cbn; rewrite length_app; cbn; lia).
  eapply pinv_moved; [exact H| |].
  - constructor; try done.
    + lia.
    + intros x _ [Hx|Hx]; [by rewrite I1 in Hx|]. by right; right.
    + intros x Hx. rewrite Hl in Hx. by replace x with (length (nr_sessions s)) by lia.
    + intros c [Hc|[? ?]]; [by rewrite I2 in Hc|cbn in *; lia].
    + intros x c Hn Hx. right. split; [done|]. split; [done|]. intros [|Hx']; [by left|by rewrite I3 in Hx'].
    + cbn [omap list_omap]. rewrite I4. destruct Hf as [|Hf]; [by left|]. right; right. split_and!; [done|done|lia].
    + by left.
    + cbn [omap list_omap]. rewrite I4. unfold len. rewrite Hl. cbn. destruct Hf as [-> | ->]; cbn; lia.
    + eapply Forall_impl; [exact Hs|]. intros j. apply plain_sound.
    + intros id x Hx. by right.
    + right; right; right. split_and!; try done.
  - constructor; cbn; try done; rewrite ?length_app; cbn; try lia.
    + intros id x Hx. destruct (T5 id x Hx) as (? & ? & ?). split_and!; try done; lia.
    + intros x Hx. specialize (T6 x Hx). lia.
Qed.

Lemma pinv_dummy s M : pinv s M -> pinv s (PFailure :: M).
Proof.
  intros [P1 P2 P3 P4 P5 P6 P7 P8 P9]. constructor; try done.
  - intros x Hx. destruct (P2 x Hx) as [|[|]]; auto with holders.
  - intros c Hc. destruct (P3 c Hc) as [|[|(? & x & ? & Ho)]]; auto with holders. right; right. split; [done|]. exists x. split; [done|]. destruct Ho; auto with holders.
  - apply Forall_cons. split; [by apply plain_sound|done].
  - intros id x Hx. auto with holders.
  - destruct P9 as [|[|]]; auto with holders.
Qed.

Lemma pinv_same s s' M : pinv s M -> steady s s' -> pinv s' M.
Proof. intros H S. apply pinv_dummy in H. change M with ([] ++ M). quiet H. done. Qed.

Lemma connect_ok s s' k more current generation ev R : pinv s (PConnect current generation :: R) -> connect_section s current generation ev = Some (s', k, more) -> pinv s' ((k ++ concat more) ++ R).
Proof.
  intros H Hx. assert (I : idle (PConnect current generation)) by (repeat split).
  assert (Hn : forall a k, some_of (keeps (length (nr_sessions s))) k -> omap flight k = [] \/ omap flight k = [length (nr_sessions s)] -> Forall plain k -> pinv (connected s a) (k ++ R))
    by (intros; by eapply pinv_connected).
  assert (Hf : forall a e, pinv (connected s a) ([PCloseSession (length (nr_sessions s)); PMigrationFailed current generation; PReturn (Err e)] ++ R))
    by (intros; apply Hn; [apply some_here; by apply bool_decide_true|by left|plain_list]).
  unfold connect_section, pnext in Hx. cbv zeta in Hx. destruct (pe_session ev) as [[a|]|e]; [|injection Hx as <- <- <-; quiet H; apply steady_note; by intros ? ?%list_elem_of_singleton|injection Hx as <- <- <-; quiet H; apply steady_pool_refl].
  destruct (negb (au_mux a)); [injection Hx as <- <- <-; quiet H; apply steady_note; by intros ? ?%list_elem_of_singleton|].
  destruct (authenticatedSessionRoute a); [|injection Hx as <- <- <-; rewrite app_nil_r; apply Hf]. destruct (mobileCarrierName _); [|injection Hx as <- <- <-; rewrite app_nil_r; apply Hf].
  destruct (refused s a); injection Hx as <- <- <-; rewrite app_nil_r; [apply Hf|]. apply Hn; [apply some_here; by apply bool_decide_true|by right|plain_list].
Qed.

Lemma dial_ok s s' k more target primary turn ev R : pinv s (PDial target primary turn :: R) -> dial_pool s target primary turn ev = Some (s', k, more) -> pinv s' ((k ++ concat more) ++ R).
Proof.
  intros H Hx. assert (I : idle (PDial target primary turn)) by (repeat split).
  assert (Hn : forall a k, some_of (keeps (length (nr_sessions s))) k -> omap flight k = [] \/ omap flight k = [length (nr_sessions s)] -> Forall plain k -> pinv (connected s a) (k ++ R))
    by (intros; by eapply pinv_connected).
  assert (Hf : forall a e, pinv (connected s a) ([PCloseSession (length (nr_sessions s)); PFailure; PResult (Some e) turn] ++ R))
    by (intros; apply Hn; [apply some_here; by apply bool_decide_true|by left|plain_list]).
  assert (Hg : forall e, pinv s ([PFailure; PResult (Some e) turn] ++ R)) by (intros; quiet H; apply steady_pool_refl).
  unfold dial_pool, pnext in Hx. cbv zeta in Hx. destruct (dial_answer _ _ _) as [[a|]|e]; [|injection Hx as <- <- <-; rewrite app_nil_r; apply Hg|injection Hx as <- <- <-; rewrite app_nil_r; apply Hg].
  destruct (negb (au_mux a)); [injection Hx as <- <- <-; rewrite app_nil_r; apply Hg|]. destruct (_ =? 0); [injection Hx as <- <- <-; rewrite app_nil_r; apply Hf|].
  destruct (refused s a); injection Hx as <- <- <-; rewrite app_nil_r; [apply Hf|]. apply Hn; [apply some_here; by apply bool_decide_true|by right|plain_list].
Qed.

Lemma attached_ok s x u i r R : pinv s (i :: R) -> (forall a, r = Ok a -> is_Some (nr_continuity s) -> attached a) -> i = PAttach x u \/ i = PAttaching x u -> r = Ok no_attachment \/ is_ok r = false -> pinv s (after_attach s x u r ++ R).
Proof.
  intros H Ha Hi Hr. destruct (after_attach_spec s x u r Ha) as (A1 & A2 & _ & A4). eapply pinv_steady; [exact H|apply steady_pool_refl|done| | | | | |].
  - destruct Hi as [-> | ->]; held; by right.
  - destruct Hi as [-> | ->]; held.
  - destruct Hi as [-> | ->]; held.
  - destruct Hi as [-> | ->]; exact A4.
  - destruct Hi as [-> | ->]; held.
  - destruct Hi as [-> | ->]; held.
Qed.

Lemma attach_pool_ok s s' k more x u R : pinv s (PAttach x u :: R) -> attach_section s x u = Some (s', k, more) -> pinv s' ((k ++ concat more) ++ R).
Proof.
  intros H Hx. unfold attach_section, pnext in Hx. destruct (nr_closed s); [|case_bool_decide]; injection Hx as <- <- <-; rewrite app_nil_r.
  - eapply attached_ok; [exact H|done|by left|by right].
  - eapply attached_ok; [exact H|intros a _ [c Hc]; congruence|by left|by left].
  - quiet H. apply steady_pool_refl.
Qed.

Lemma attaching_ok s s' k more x u ev R : env_ok ev -> pinv s (PAttaching x u :: R) -> attaching_section s x u ev = Some (s', k, more) -> pinv s' ((k ++ concat more) ++ R).
Proof.
  intros He H Hx. unfold attaching_section, pnext in Hx.
  destruct (pe_attach ev); [injection Hx as <- <- <-; rewrite app_nil_r; eapply attached_ok; [exact H|done|by right|by right]|].
  destruct (pe_state ev) as [[constellation key]|] eqn:Es; [|injection Hx as <- <- <-; rewrite app_nil_r; eapply attached_ok; [exact H|done|by right|by right]].
  destruct (pe_channel ev); injection Hx as <- <- <-; rewrite app_nil_r; [eapply attached_ok; [exact H|done|by right|by right]|].
  destruct (He _ _ Es) as [Hz1 Hz2]. destruct (after_attach_spec s x u (Ok (mkAttachment (Some (nr_channels s)) constellation key))) as (A1 & A2 & A3 & A4); [intros a [= <-] _; split_and!; cbn; [by eexists|done|done]|]. pose proof (pv_tables _ _ H) as [T1 T2 T3 T4 T5 T6 T7 T8].
  eapply pinv_moved; [exact H| |by constructor]. constructor; cbn [new_channel set_world nr_sessions nr_log nr_ended nr_closed nr_channels nr_controls nr_pool nr_session nr_generation nr_router]; try done.
  - intros y _ [Hy|[Hc Hy]]; [cbn in Hy; apply bool_decide_eq_true in Hy as ->; auto|]. right; right. by split.
  - intros y [? ?]. lia.
  - intros c [Hc|[? ?]]; [done|]. right; left. apply (A3 _ _ eq_refl). cbn. f_equal. lia.
  - intros y c Hn Hy. right. split; [done|]. split; [done|]. intros [|Hy']; [by left|done].
  - destruct A4 as [|A4]; [by left|right; left; split; [exact A4|done]].
  - by left.
  - destruct A4 as [-> | ->]; cbn; lia.
  - eapply Forall_impl; [exact A1|]. intros j [J1 J2 J3]. by constructor.
  - intros id y Hy. by right.
  - right; right; right. by split_and!.
Qed.

(** A member leaves the pool. *)
Lemma leave_ok s i id x rest R : pinv s (i :: R) -> nr_pool s !! id = Some x -> (forall y, keeps y i = false) -> (forall c, keeps_channel c i = false) -> (forall y, frees y i = false) -> flight i = None ->
  (forall id' y, watches_pool id' y i = true -> id' = id) -> (forall g y, watches g y i = false) -> Forall plain rest -> omap flight rest = [] ->
  pinv (leave_pool s id x).1 (((leave_pool s id x).2 ++ rest) ++ R).
Proof.
  intros H Hp I1 I2 I3 I4 I5 I6 Hr Hf. pose proof (pv_tables _ _ H) as [T1 T2 T3 T4 T5 T6 T7 T8].
  assert (Hcl : nr_closed s = false) by (destruct (nr_closed s) eqn:E; [|done]; destruct (T7 eq_refl) as [E' _]; by rewrite E' in Hp).
  assert (Hk : some_of (keeps x) ((leave_pool s id x).2 ++ rest)) by (unfold leave_pool; cbn [snd]; rewrite <- !app_assoc; apply some_of_tail, some_of_tail, some_here; by apply bool_decide_true).
  assert (Hc : forall c, nr_controls s !! x = Some c -> some_of (keeps_channel c) ((leave_pool s id x).2 ++ rest)).
  { intros c E. unfold leave_pool. cbn [snd]. rewrite E, <- !app_assoc. apply some_of_tail, some_here. by apply bool_decide_true. }
  assert (Hfl : omap flight ((leave_pool s id x).2 ++ rest) = []) by (unfold leave_pool; cbn [snd]; rewrite !omap_app, Hf; unfold remove_route; destruct (bool_decide _), (nr_controls s !! x); done).
  assert (Hpl : Forall plain ((leave_pool s id x).2 ++ rest)) by (apply Forall_app; split; [|done]; unfold leave_pool, remove_route; cbn [snd]; destruct (bool_decide _), (nr_controls s !! x); cbn; plain_list).
  assert (Ho : forall y, y <> x -> owned s y -> owned (leave_pool s id x).1 y).
  { intros y Hy [_ [->|[id' E]]]; (split; [done|]); [by left|right]. exists id'. cbn. rewrite lookup_delete_ne; [done|]. intros <-. congruence. }
  eapply pinv_moved; [exact H| |].
  - constructor; cbn [leave_pool fst set_tables nr_sessions nr_log nr_ended nr_closed nr_channels nr_controls nr_pool nr_session nr_generation nr_router nr_continuity]; try done.
    + intros y _ [Hy|Hy]; [by rewrite I1 in Hy|]. destruct (decide (y = x)) as [->|Hne]; [by right; left|]. right; right. by apply Ho.
    + intros y [? ?]. lia.
    + intros c [Hy|[? ?]]; [by rewrite I2 in Hy|lia].
    + intros y c _ E. destruct (decide (y = x)) as [->|Hne]; [left; by apply Hc|]. right. split; [done|]. rewrite lookup_delete_ne by done. split; [done|]. intros [Hy|Hy]; [left; by apply Ho|by rewrite I3 in Hy].
    + by left.
    + intros y Hy. left. destruct (decide (x = y)) as [->|]; [by rewrite lookup_delete_eq in Hy; destruct Hy|by rewrite lookup_delete_ne in Hy].
    + rewrite Hfl. cbn. lia.
    + eapply Forall_impl; [exact Hpl|]. intros j. apply plain_sound.
    + intros id' y E. apply lookup_delete_Some in E as [Hne E]. right. split; [done|]. apply not_true_iff_false. intros Hw%I5. congruence.
    + right; right; right. by split_and!.
  - constructor; cbn; try done.
    + intros id' y E. apply lookup_delete_Some in E as [_ E]. by apply T5.
    + intros y Hy. apply T6. destruct (decide (x = y)) as [->|]; [by rewrite lookup_delete_eq in Hy; destruct Hy|by rewrite lookup_delete_ne in Hy].
    + intros E. rewrite Hcl in E. done.
Qed.

Lemma watch_pool_ok s s' k more id x R : pinv s (PWatchPool id x :: R) -> watchPoolSession s id x = Some (s', k, more) -> pinv s' ((k ++ concat more) ++ R).
Proof.
  intros H Hx. unfold watchPoolSession, pnext in Hx. destruct (nr_ended s !! x) as [e|] eqn:Ee; [|done]. destruct (bool_decide (nr_pool s !! id = Some x)) eqn:Ep; cbn [negb] in Hx.
  - apply bool_decide_eq_true in Ep. pose proof (leave_ok s (PWatchPool id x) id x [] R H Ep) as Hl. cbn in Hl. cbv zeta in Hx. unfold leave_pool in Hx. injection Hx as <- <- <-.
    assert (Hl' : pinv (leave_pool s id x).1 ((leave_pool s id x).2 ++ R)).
    { rewrite app_nil_r in Hl. apply Hl; try done. intros id' y Hy. by apply bool_decide_eq_true in Hy as [-> _]. }
    rewrite app_nil_r. destruct (_ && _); [|exact Hl']. eapply pinv_same; [exact Hl'|]. apply steady_counts.
  - injection Hx as <- <- <-. apply bool_decide_eq_false in Ep. eapply pinv_steady; [exact H|apply steady_pool_refl|by apply Forall_nil|done|done|done|by left| |done].
    intros id' y Hy E. apply bool_decide_eq_true in Hy as [-> ->]. done.
Qed.

Lemma idle_member_in s streams id x : idle_member s streams = Some (id, x) -> nr_pool s !! id = Some x.
Proof.
  unfold idle_member. intros H. apply elem_of_map_to_list.
  assert (Hin : forall l best, foldl (fun best (kv : Z * nat) => if negb (streams kv.2 =? 0) || (kv.1 <=? match best with Some b => b.1 | None => 0 end) then best else Some kv) best l = Some (id, x) -> best = Some (id, x) \/ (id, x) ∈ l).
  { clear H. induction l as [|kv l IH]; intros best E; [by left|]. cbn in E. apply IH in E as [E|E]; [|right; by right]. destruct (_ || _); [by left|]. injection E as ->. right. by left. }
  apply Hin in H as [|H]; [done|exact H].
Qed.

Lemma idle_ok s s' k more turn retry ev R : pinv s (PIdle turn retry :: R) -> idle_section s turn retry ev = Some (s', k, more) -> pinv s' ((k ++ concat more) ++ R).
Proof.
  intros H Hx. assert (Hq : forall last retry, pinv s ([PSelect last retry] ++ R)) by (intros; quiet H; apply steady_pool_refl).
  unfold idle_section, pnext in Hx. destruct (_ && _); [|injection Hx as <- <- <-; rewrite app_nil_r; apply Hq]. destruct (_ || _); [injection Hx as <- <- <-; rewrite app_nil_r; apply Hq|].
  destruct (idle_member s (pe_streams ev)) as [[id x]|] eqn:E; [|injection Hx as <- <- <-; rewrite app_nil_r; apply Hq]. apply idle_member_in in E.
  unfold leave_pool in Hx. injection Hx as <- <- <-. rewrite app_nil_r. apply (leave_ok s (PIdle turn retry) id x [PSelect (pt_now turn) retry] R); try done. plain_list.
Qed.

(** The routes of the continuity router. *)
Lemma routes_keep_open c : (forall route, cc_closed (ContinuityRouter.AddRoute c route).1 = cc_closed c) /\ (forall id b, cc_closed (ContinuityRouter.SetStandby c id b).1 = cc_closed c) /\
  (forall id, cc_closed (RemoveRoute c id).1.1 = cc_closed c) /\ (forall route, cc_closed (SwitchRoute c route).1.1 = cc_closed c).
Proof. split_and!; intros; [unfold ContinuityRouter.AddRoute|unfold ContinuityRouter.SetStandby|unfold RemoveRoute|unfold SwitchRoute]; by repeat case_match. Qed.

Lemma removed_open s id c : nr_continuity s = c -> opened s (continuity_remove c id).
Proof.
  intros <- c' H. unfold continuity_remove in H. destruct (nr_continuity s) as [c|]; [|done]. injection H as <-. exists c. split; [done|]. destruct (routes_keep_open c) as (_ & _ & -> & _). auto.
Qed.

Lemma remove_continuity_ok s id R : pinv s (PRemoveContinuity id :: R) -> pinv (set_routers s (nr_router s) (continuity_remove (nr_continuity s) id)) R.
Proof. intros H. change R with ([] ++ R). quiet H. by apply steady_continuity, removed_open. Qed.

Lemma remove_route_ok s id R : pinv s (PRemoveRoute id :: R) -> pinv (set_routers s (SessionRouter.Remove id (nr_router s)).2 (nr_continuity s)) R.
Proof.
  intros H. change R with ([] ++ R). quiet H. apply steady_router; [|apply opened_same]. intros Hp. destruct (Remove_seen id _ Hp) as (H1 & _ & H2 & _). by split.
Qed.

Lemma close_session_ok s x e R : pinv s (PCloseSession x :: R) -> pinv (note (ends s x e) [SessionClosed x]) R.
Proof.
  intros H. change R with ([] ++ R). eapply pinv_steady; [exact H| |by apply Forall_nil| |done|done|by left|done|done].
  - eapply steady_trans; [apply steady_ends|]. apply steady_note. intros y [= ->]%list_elem_of_singleton. apply ends_ended.
  - intros y Hy. apply bool_decide_eq_true in Hy as ->. left. apply elem_of_app. right. by left.
Qed.

Lemma close_channel_ok s c R : pinv s (PCloseControl c :: R) -> pinv (note s [ChannelClosed c]) R.
Proof.
  intros H. change R with ([] ++ R). eapply pinv_steady; [exact H|apply steady_note; by intros x ?%list_elem_of_singleton|by apply Forall_nil|done| |done|by left|done|done].
  intros d Hd. apply bool_decide_eq_true in Hd as ->. left. apply elem_of_app. right. by left.
Qed.

Lemma drain_pool_ok s s' k more r x ev R : pinv s (PDrain r x :: R) -> drainRetiredSession s r x ev = Some (s', k, more) -> pinv s' ((k ++ concat more) ++ R).
Proof. intros H Hx. unfold drainRetiredSession, pnext in Hx. repeat case_match; simplify_eq; (quiet H; apply steady_pool_refl). Qed.

Lemma close_control_of_ok s s' k more x R : pinv s (PCloseControlOf x :: R) -> closeControlForSession s x = Some (s', k, more) -> pinv s' ((k ++ concat more) ++ R).
Proof.
  intros H Hx. unfold closeControlForSession, pnext in Hx. injection Hx as <- <- <-. rewrite app_nil_r. pose proof (pv_tables _ _ H) as [T1 T2 T3 T4 T5 T6 T7 T8].
  eapply pinv_moved; [exact H| |].
  - constructor; cbn [set_tables nr_sessions nr_log nr_ended nr_closed nr_channels nr_controls nr_pool nr_session nr_generation nr_router nr_continuity]; try done.
    + intros y _ [Hy|Hy]; [done|by right; right].
    + intros y [? ?]. lia.
    + intros c [Hy|[? ?]]; [done|lia].
    + intros y c Hn E. destruct (decide (y = x)) as [->|Hne]; [left; rewrite E; apply some_here; by apply bool_decide_true|]. right. split; [done|]. rewrite lookup_delete_ne by done. split; [done|].
      intros [Hy|Hy]; [by left|]. by apply bool_decide_eq_true in Hy.
    + left. by destruct (nr_controls s !! x).
    + intros y Hy. left. destruct (decide (x = y)) as [->|]; [by rewrite lookup_delete_eq in Hy; destruct Hy|by rewrite lookup_delete_ne in Hy].
    + destruct (nr_controls s !! x); cbn; lia.
    + destruct (nr_controls s !! x); cbn; plainly.
    + intros id' y E. by right.
    + right; right; right. by split_and!.
  - constructor; cbn; try done. intros y Hy. apply T6. destruct (decide (x = y)) as [->|]; [by rewrite lookup_delete_eq in Hy; destruct Hy|by rewrite lookup_delete_ne in Hy].
Qed.

Lemma remove_retired_ok s s' k more r x R : pinv s (PRemoveRetired r x :: R) -> removeRetired s r x = Some (s', k, more) -> pinv s' ((k ++ concat more) ++ R).
Proof. intros H Hx. unfold removeRetired, pnext in Hx. injection Hx as <- <- <-. quiet H. case_match; [|apply steady_pool_refl]. constructor; cbn; eauto. Qed.

(** *** A new primary *)

Lemma standby_open s c id b : opened s c -> opened s (continuity_standby c id b).1.
Proof.
  intros H c' E. unfold continuity_standby in E. destruct c as [c|]; [|done]. destruct (H c eq_refl) as (c0 & H0 & Hc). exists c0. split; [done|].
  destruct (ContinuityRouter.SetStandby c id b) as [c1 b1] eqn:Es. cbn in E. injection E as <-. destruct (routes_keep_open c) as (_ & Hk & _). specialize (Hk id b). rewrite Es in Hk. cbn in Hk. by rewrite Hk.
Qed.

Lemma least_in s id x : least (warm s) = Some (id, x) -> nr_pool s !! id = Some x /\ has_ended s x = false.
Proof.
  unfold least. intros H. assert (Hin : forall (l : list (Z * nat)) best, foldl (fun best kv => match best with Some b => if b.1 <=? kv.1 then Some b else Some kv | None => Some kv end) best l = Some (id, x) -> best = Some (id, x) \/ (id, x) ∈ l).
  { clear H. induction l as [|kv l IH]; intros best E; [by left|]. cbn in E. apply IH in E as [E|E]; [|right; by right]. destruct best as [b|]; [destruct (_ <=? _)|]; try (by left); injection E as ->; right; by left. }
  apply Hin in H as [|H]; [done|]. apply list_elem_of_filter in H as [H1 H2]. split; [by apply elem_of_map_to_list|done].
Qed.

Lemma remove_route_plain s id : Forall plain (remove_route s id) /\ omap flight (remove_route s id) = [].
Proof. unfold remove_route. destruct (bool_decide _); (split; [plain_list|done]). Qed.

Lemma promote_ok s generation x R s' k : pinv s (PWatch generation x :: R) -> promoteWarmCarrier s generation x = (s', Some k) -> pinv s' (k ++ R).
Proof.
  intros H Hx. pose proof (pv_tables _ _ H) as [T1 T2 T3 T4 T5 T6 T7 T8]. unfold promoteWarmCarrier in Hx. destruct (_ || _) eqn:G; [done|]. guards. zb.
  match goal with E : bool_decide (x = _) = true |- _ => apply bool_decide_eq_true in E as -> end. match goal with E : nr_closed s = false |- _ => rename E into Hcl end.
  destruct (least (warm s)) as [[id selected]|] eqn:El; [|done]. apply least_in in El as [Hp He]. pose proof (Promote_seen id (nr_router s) T2) as Hr. destruct (SessionRouter.Promote id (nr_router s)) as [[u|] router]; [|done].
  destruct Hr as (R1 & R2 & R3 & R4 & R5). pose proof (standby_open s (nr_continuity s) id false (opened_same s)) as Hop. destruct (continuity_standby (nr_continuity s) id false) as [continuity []] eqn:Ec; [|done]. cbn [fst] in Hop.
  destruct (T5 id selected Hp) as (P1 & P2 & P3). injection Hx as <- <-.
  set (k := (remove_route s (nr_primary s) ++ close_control (nr_controls s !! nr_session s) ++ [PCloseSession (nr_session s)]) ++ [PGo (PWatch (u64 (nr_generation s + 1)) selected)]).
  change (pinv (set_primary (set_tables (set_routers s router continuity) (delete id (nr_pool s)) (delete (nr_session s) (nr_controls s)) (nr_retired s) (nr_nextRetired s)) selected id
    match mobileCarrierName (carrier_of s selected) with Ok name => name | Err _ => nr_carrier s end) (k ++ R)).
  assert (Hk : some_of (keeps (nr_session s)) k) by (unfold k; rewrite <- !app_assoc; apply some_of_tail, some_of_tail, some_here; by apply bool_decide_true).
  assert (Hc : forall c, nr_controls s !! nr_session s = Some c -> some_of (keeps_channel c) k) by (intros c E; unfold k; rewrite E, <- !app_assoc; apply some_of_tail, some_here; by apply bool_decide_true).
  assert (Hw : some_of (watches (u64 (nr_generation s + 1)) selected) k) by (unfold k; rewrite <- !app_assoc; apply some_of_tail, some_of_tail, some_of_tail, some_here; by apply bool_decide_true).
  assert (Hf : omap flight k = []) by (unfold k; rewrite !omap_app, (proj2 (remove_route_plain _ _)); by destruct (nr_controls s !! nr_session s)).
  assert (Hs : forall s', length (nr_sessions s') = length (nr_sessions s) -> Forall (sound s') k).
  { intros s' E. unfold k. apply Forall_app. split.
    - apply Forall_app. split; [eapply Forall_impl; [apply remove_route_plain|]; intros j; apply plain_sound|]. destruct (nr_controls s !! nr_session s); cbn; plainly.
    - apply Forall_singleton. constructor; [|done|done]. intros y [= <-]. lia. }
  clearbody k. set (name := match mobileCarrierName _ with Ok name => name | Err _ => _ end). clearbody name.
  assert (Ho : forall y, y <> nr_session s -> owned s y -> y = selected \/ exists id', delete id (nr_pool s) !! id' = Some y).
  { intros y Hy [_ [?|[id' E]]]; [done|]. destruct (decide (id' = id)) as [->|Hne]; [left; congruence|]. right. exists id'. by rewrite lookup_delete_ne. }
  eapply pinv_moved; [exact H| |].
  - constructor; cbn [set_primary set_tables set_routers nr_sessions nr_log nr_ended nr_closed nr_channels nr_controls nr_pool nr_session nr_generation nr_router nr_continuity]; try done.
    + intros y _ [Hy|Hy]; [done|]. destruct (decide (y = nr_session s)) as [->|Hne]; [right; left; exact Hk|]. right; right. split; [exact Hcl|]. by apply (Ho y).
    + intros y [? ?]. lia.
    + intros c [Hy|[? ?]]; [done|lia].
    + intros y c _ E. destruct (decide (y = nr_session s)) as [->|Hne]; [left; by apply Hc|]. right. split; [exact Hcl|]. rewrite lookup_delete_ne by done. split; [done|].
      intros [Hy|Hy]; [left; split; [exact Hcl|]; by apply (Ho y)|done].
    + by left.
    + intros y Hy. left. destruct (decide (nr_session s = y)) as [<-|]; [by rewrite lookup_delete_eq in Hy; destruct Hy|by rewrite lookup_delete_ne in Hy].
    + rewrite Hf, R5. cbn. lia.
    + by apply Hs.
    + intros [c' E]. destruct (Hop c' E) as (c & E' & _). by exists c.
    + intros id' y E. apply lookup_delete_Some in E as [Hne E]. right. by split.
    + right; right; left. exact Hw.
  - constructor; cbn; try done; rewrite ?R5; try lia.
    + intros id' y E. apply lookup_delete_Some in E as [Hne E]. destruct (T5 id' y E) as (? & ? & ?). split_and!; first [done|lia].
    + intros y Hy. apply T6. destruct (decide (nr_session s = y)) as [<-|]; [by rewrite lookup_delete_eq in Hy; destruct Hy|by rewrite lookup_delete_ne in Hy].
    + intros E. by rewrite Hcl in E.
    + intros _ c' E. destruct (Hop c' E) as (c & E' & Hcc). apply not_true_iff_false. intros [Hx|Hx]%Hcc; [by rewrite (T8 Hcl c E') in Hx|congruence].
Qed.

Lemma watch_ok s s' k more generation x R : pinv s (PWatch generation x :: R) -> watchSession s generation x = Some (s', k, more) -> pinv s' ((k ++ concat more) ++ R).
Proof.
  intros H Hx. pose proof (pv_tables _ _ H) as Ht. unfold watchSession, pnext in Hx. destruct (nr_ended s !! x) as [e|] eqn:Ee; [|done]. destruct (promoteWarmCarrier s generation x) as [s1 [k1|]] eqn:Ep; injection Hx as <- <- <-; rewrite app_nil_r.
  - by eapply promote_ok.
  - assert (S : steady s s1).
    { unfold promoteWarmCarrier in Ep. destruct (_ || _); [injection Ep as <-; apply steady_pool_refl|]. destruct (least (warm s)) as [[id selected]|]; [|injection Ep as <-; apply steady_pool_refl].
      pose proof (Promote_seen id (nr_router s) (tb_router _ Ht)) as Hr. destruct (SessionRouter.Promote id (nr_router s)) as [[u|] router]; [|injection Ep as <-; apply steady_pool_refl].
      pose proof (standby_open s (nr_continuity s) id false (opened_same s)) as Hop. destruct (continuity_standby _ _ _) as [continuity []]; [done|]. injection Ep as <-. destruct Hr as (? & _ & _ & _ & ?). apply steady_router; [done|exact Hop]. }
    eapply pinv_steady; [exact H|exact S|plainly|done|done|done|by left|done|]. intros Hw. apply bool_decide_eq_true in Hw as [_ ->]. left. by apply (st_ended _ _ S).
Qed.

(** *** A session that was attached *)

(** The instructions that decide about an attached session. *)
Definition decides (i : pinstr) (x : nat) (a : attachment) : Prop :=
  match i with PSwitch y b _ _ | PCandidate y b _ _ | PJoin y b _ _ _ => y = x /\ b = a | _ => False end.

Lemma decides_spec i x a : decides i x a -> (forall y, keeps y i = true -> y = x) /\ (forall c, keeps_channel c i = true -> at_control a = Some c) /\ (forall y, frees y i = false) /\ flight i = Some x /\
  (forall id y, watches_pool id y i = false) /\ (forall g y, watches g y i = false) /\ carries i = Some a.
Proof. destruct i; cbn; try done; intros [-> ->]; split_and!; try done; intros ? ?%bool_decide_eq_true; done. Qed.

(** It is refused: its channel and itself are closed; the session router may have
    given out an identifier. *)
Lemma pinv_refused s i x a k R router continuity : pinv s (i :: R) -> decides i x a -> pool_ok router -> r_nextRouteID (nr_router s) <= r_nextRouteID router <= r_nextRouteID (nr_router s) + 1 -> opened s continuity ->
  Forall plain k -> omap flight k = [] -> pinv (set_routers s router continuity) ((close_control (at_control a) ++ PCloseSession x :: k) ++ R).
Proof.
  intros H Hd Hp Hn Ho Hk Hf. destruct (decides_spec i x a Hd) as (D1 & D2 & D3 & D4 & D5 & D6 & _). pose proof (pv_tables _ _ H) as [T1 T2 T3 T4 T5 T6 T7 T8].
  destruct (hand_back_spec (set_routers s router continuity) a x k) as (G1 & G2 & G3 & G4); [eapply Forall_impl; [exact Hk|]; intros j; apply plain_sound|].
  eapply pinv_moved; [exact H| |].
  - constructor; cbn [set_routers nr_sessions nr_log nr_ended nr_closed nr_channels nr_controls nr_pool nr_session nr_generation nr_router nr_continuity]; try done.
    + intros y _ [Hy|Hy]; [apply D1 in Hy as ->; auto|by right; right].
    + intros y [? ?]. lia.
    + intros c [Hc|[? ?]]; [|lia]. right; left. by apply G3, D2.
    + intros y c Hc E. right. split; [done|]. split; [done|]. intros [Hy|Hy]; [by left|by rewrite D3 in Hy].
    + left. by rewrite G4.
    + by left.
    + rewrite G4, Hf. cbn [omap list_omap]. rewrite D4. cbn. lia.
    + intros [c' E]. destruct (Ho c' E) as (c & E' & _). by exists c.
    + intros id y E. right. split; [done|apply D5].
    + right; right; right. split_and!; [done|done|apply D6].
  - constructor; cbn; try done; try lia.
    + intros id y E. destruct (T5 id y E) as (? & ? & ?). split_and!; first [done|lia].
    + intros Hc c' E. destruct (Ho c' E) as (c & E' & Hcc). apply not_true_iff_false. intros [Hx|Hx]%Hcc; [by rewrite (T8 Hc c E') in Hx|congruence].
Qed.

Lemma retire_spec xs : forall retired next, let '(_, _, drains) := retire xs retired next in
  (forall y, y ∈ xs -> some_of (keeps y) drains /\ some_of (frees y) drains) /\ Forall plain drains /\ omap flight drains = [].
Proof.
  induction xs as [|x xs IH]; intros retired next; cbn [retire]; [split_and!; [by intros ? ?%not_elem_of_nil|by apply Forall_nil|done]|].
  set (id := if next =? 0 then 1 else next). specialize (IH (<[id := x]> retired) (u64 (id + 1))). destruct (retire xs _ _) as [[r n] drains]. destruct IH as (I1 & I2 & I3). split_and!.
  - intros y [->|Hy]%elem_of_cons; [split; apply some_here; by apply bool_decide_true|]. destruct (I1 y Hy). split; by apply some_later.
  - apply Forall_cons. by split_and!.
  - done.
Qed.

(** The continuity router takes the route of an attached session. *)
Lemma attached_route s id x a standby : id <> 0 -> attached a -> validClientContinuityRoute (continuity_route s id x a standby) = true.
Proof.
  intros Hi (H1 & H2 & H3). unfold validClientContinuityRoute, continuity_route. cbn [cr_ID cr_mux cr_control cr_constellation cr_key]. rewrite (proj2 (Z.eqb_neq _ _) Hi), (bool_decide_true _ H1), H2, H3. by rewrite bool_decide_true by done.
Qed.

Lemma switch_taken s i M x a : pinv s M -> i ∈ M -> decides i x a -> nr_closed s = false -> (continuity_switch (nr_continuity s) (continuity_route s 1 x a false)).2 = None.
Proof.
  intros H Hi Hd Hc. destruct (decides_spec i x a Hd) as (_ & _ & _ & _ & _ & _ & Hcar). unfold continuity_switch. destruct (nr_continuity s) as [c|] eqn:E; [|done].
  pose proof (pv_sound _ _ H) as Hs. rewrite Forall_forall in Hs. pose proof (so_carries _ _ (Hs i Hi) a Hcar ltac:(by rewrite E)) as Ha.
  unfold SwitchRoute. rewrite (attached_route s 1 x a false) by done. cbn [negb]. by rewrite (tb_open _ (pv_tables _ _ H) Hc c E).
Qed.

Lemma switch_open s r : opened s (continuity_switch (nr_continuity s) r).1.
Proof.
  intros c' E. unfold continuity_switch in E. destruct (nr_continuity s) as [c|]; [|done]. exists c. split; [done|]. destruct (routes_keep_open c) as (_ & _ & _ & Hk). specialize (Hk r).
  destruct (SwitchRoute c r) as [[c1 e] l]. cbn in *. injection E as <-. rewrite Hk. auto.
Qed.

Lemma current_is_spec s current generation : current_is s current generation = true -> nr_closed s = false /\ nr_session s = current /\ nr_generation s = generation.
Proof. unfold current_is. intros H. guards. zb. match goal with E : bool_decide _ = true |- _ => apply bool_decide_eq_true in E end. done. Qed.

Lemma switch_ok s s' k more x a current generation R : pinv s (PSwitch x a current generation :: R) -> switch_section s x a current generation = Some (s', k, more) -> pinv s' ((k ++ concat more) ++ R).
Proof.
  intros H Hx. pose proof (pv_tables _ _ H) as [T1 T2 T3 T4 T5 T6 T7 T8]. unfold switch_section, pnext in Hx. cbv zeta in Hx. rewrite <- !app_assoc in Hx.
  assert (Hd : decides (PSwitch x a current generation) x a) by done.
  assert (Hsame : set_routers s (nr_router s) (nr_continuity s) = s) by (by destruct s).
  assert (Hg : forall k, Forall plain k -> omap flight k = [] -> pinv s ((close_control (at_control a) ++ PCloseSession x :: k) ++ R)).
  { intros k0 Hk Hf. rewrite <- Hsame at 1. eapply pinv_refused; try done; [lia|apply opened_same]. }
  destruct (current_is s current generation) eqn:Ecur; cbn [negb] in Hx; [|injection Hx as <- <- <-; rewrite app_nil_r; eapply pinv_same; [by apply Hg; [plain_list|]|by apply steady_phase]].
  apply current_is_spec in Ecur as (Hcl & <- & <-). pose proof (Switch_seen (enabled s) (Some x) (maximum_of s x) (datagram_mux s x) (nr_router s) T2) as Hr.
  destruct (SessionRouter.Switch _ _ _ _ _) as [[u|e] router]; [|subst router; rewrite Hsame in Hx; injection Hx as <- <- <-; rewrite app_nil_r, <- (app_assoc (close_control _) [PCloseSession x]); eapply pinv_same; [by apply Hg; [plain_list|]|by apply steady_phase]].
  destruct Hr as (R1 & R2 & R3 & R4). pose proof (switch_taken s _ _ x a H ltac:(by left) Hd Hcl) as Ht. pose proof (switch_open s (continuity_route s 1 x a false)) as Hop.
  destruct (continuity_switch (nr_continuity s) (continuity_route s 1 x a false)) as [continuity e]. cbn in Ht. subst e. cbn [fst] in Hop.
  pose proof (retire_spec (nr_session s :: (map_to_list (nr_pool s)).*2) (nr_retired s) (nr_nextRetired s)) as Hret. destruct (retire _ _ _) as [[retired next] drains]. destruct Hret as (D1 & D2 & D3).
  injection Hx as <- <- <-. rewrite app_nil_r.
  destruct (pv_flying _ _ H x) as [Hlt Hnone]; [cbn; by left|]. set (name := match mobileCarrierName _ with Ok name => name | Err _ => _ end). clearbody name.
  change (nr_generation (set_phase _ _ _ _ _ _)) with (u64 (nr_generation s + 1)).
  set (k := PGo (PWatch (u64 (nr_generation s + 1)) x) :: drains ++ [PReturn (Ok (mkMigration false true true))]).
  assert (Hk : forall y, y = nr_session s \/ (exists id, nr_pool s !! id = Some y) -> some_of (keeps y) k /\ some_of (frees y) k).
  { intros y Hy. destruct (D1 y) as [K1 K2]; [|unfold k; split; apply some_later, some_of_app; by left]. destruct Hy as [->|[id E]]; [by left|]. right. apply list_elem_of_fmap. exists (id, y). split; [done|]. by apply elem_of_map_to_list. }
  assert (Hf : omap flight k = []) by (unfold k; cbn; by rewrite omap_app, D3).
  eapply pinv_moved; [exact H| |].
  - constructor; cbn [set_phase set_primary set_tables set_routers nr_sessions nr_log nr_ended nr_closed nr_channels nr_controls nr_pool nr_session nr_generation nr_router nr_continuity]; try done.
    + intros y _ [Hy|[_ Hy]]; [|right; left; by apply Hk]. cbn in Hy. apply bool_decide_eq_true in Hy as ->. right; right. split; [exact Hcl|by left].
    + intros y [? ?]. lia.
    + intros c [Hc|[? ?]]; [|lia]. cbn in Hc. apply bool_decide_eq_true in Hc. right; right. split; [done|]. exists x. rewrite Hc. cbn. rewrite lookup_insert_eq. split; [done|]. split; [exact Hcl|by left].
    + intros y c _ E. right. split; [done|]. assert (y <> x) by congruence. split; [unfold put; destruct (at_control a); [by rewrite lookup_insert_ne|done]|]. intros [[_ Hy]|Hy]; [right; by apply Hk|done].
    + by left.
    + intros y Hy. unfold put in Hy. destruct (at_control a); [|by left]. destruct (decide (x = y)) as [->|]; [by right|left; by rewrite lookup_insert_ne in Hy].
    + rewrite Hf, R4. pose proof (po_next _ T2). cbn. lia.
    + unfold k. apply Forall_cons. split; [constructor; [intros y [= <-]; exact Hlt|done|done]|]. apply Forall_app. split; [|plainly]. eapply Forall_impl; [exact D2|]. intros j. apply plain_sound.
    + intros [c' E]. destruct (Hop c' E) as (c & E' & _). by exists c.
    + right; right; left. apply some_here. by apply bool_decide_true.
  - constructor; cbn; try done; try lia; rewrite ?Hcl.
    + intros y Hy. unfold put in Hy. destruct (at_control a); [|by apply T6]. destruct (decide (x = y)) as [->|]; [done|]. rewrite lookup_insert_ne in Hy by done. by apply T6.
    + done.
    + intros _ c' E. destruct (Hop c' E) as (c & E' & Hcc). apply not_true_iff_false. intros [Hx|Hx]%Hcc; [by rewrite (T8 Hcl c E') in Hx|congruence].
Qed.

Lemma add_open s c r : opened s c -> opened s (continuity_add c r).1.
Proof.
  intros H c' E. unfold continuity_add in E. destruct c as [c|]; [|done]. destruct (H c eq_refl) as (c0 & H0 & Hc). exists c0. split; [done|].
  destruct (routes_keep_open c) as (Hk & _). specialize (Hk r). destruct (ContinuityRouter.AddRoute c r) as [c1 e]. cbn in *. injection E as <-. by rewrite Hk.
Qed.
Lemma remove_open s c id : opened s c -> opened s (continuity_remove c id).
Proof.
  intros H c' E. unfold continuity_remove in E. destruct c as [c|]; [|done]. destruct (H c eq_refl) as (c0 & H0 & Hc). exists c0. split; [done|].
  destruct (routes_keep_open c) as (_ & _ & Hk & _). injection E as <-. by rewrite Hk.
Qed.

Lemma promote_kept id r : pool_ok r -> pool_ok (SessionRouter.Promote id r).2 /\ r_nextRouteID (SessionRouter.Promote id r).2 = r_nextRouteID r.
Proof. intros Hp. pose proof (Promote_seen id r Hp) as H. destruct (SessionRouter.Promote id r) as [[u|e] r']; [destruct H as (? & _ & _ & _ & ?); by split|by subst]. Qed.

(** An attached session joins: as a member of the pool, or as the primary, whose
    place in the pool the old one takes. *)
Lemma pinv_joined s i x a k R router continuity id pool session primary name counts failures : pinv s (i :: R) -> decides i x a -> nr_closed s = false -> r_nextRouteID (nr_router s) < 2 ^ 64 - 1 ->
  id = r_nextRouteID (nr_router s) -> pool_ok router -> r_nextRouteID router = id + 1 -> opened s continuity ->
  (session, primary, pool) = (nr_session s, nr_primary s, <[id := x]> (nr_pool s)) \/ (session, primary, pool) = (x, id, <[nr_primary s := nr_session s]> (nr_pool s)) ->
  (forall id' y, pool !! id' = Some y -> nr_pool s !! id' = Some y \/ PGo (PWatchPool id' y) ∈ k) -> Forall (fun j => carries j = None /\ closing_router j = false /\ forall y, seen j = Some y -> y = x \/ y = nr_session s) k -> omap flight k = [] ->
  forall s', s' = set_counts (if bool_decide (session = nr_session s /\ primary = nr_primary s) then set_tables (set_routers s router continuity) pool (put x (at_control a) (nr_controls s)) (nr_retired s) (nr_nextRetired s)
    else set_primary (set_tables (set_routers s router continuity) pool (put x (at_control a) (nr_controls s)) (nr_retired s) (nr_nextRetired s)) session primary name) counts failures ->
  (bool_decide (session = nr_session s /\ primary = nr_primary s) = true \/ some_of (watches (nr_generation s') session) k) -> pinv s' (k ++ R).
Proof.
  intros H Hd Hcl Hb Hid Rp Rn Ho Hw Hpw Hs Hf s' Es Ha. destruct (decides_spec i x a Hd) as (D1 & D2 & D3 & D4 & D5 & D6 & _). pose proof (pv_tables _ _ H) as [T1 T2 T3 T4 T5 T6 T7 T8].
  destruct (pv_flying _ _ H x) as [Hlt Hnone]; [cbn; rewrite D4; by left|].
  assert (nr_sessions s' = nr_sessions s /\ nr_channels s' = nr_channels s /\ nr_log s' = nr_log s /\ nr_ended s' = nr_ended s /\ nr_closed s' = nr_closed s /\ nr_done s' = nr_done s /\ nr_router s' = router /\ nr_continuity s' = continuity /\
    nr_pool s' = pool /\ nr_controls s' = put x (at_control a) (nr_controls s) /\ nr_session s' = session /\ nr_primary s' = primary) as (E1 & E2 & E3 & E4 & E5 & E6 & E7 & E8 & E9 & E10 & E11 & E12).
  { rewrite Es. case_bool_decide as E; cbn; split_and!; try done; by destruct E. }
  assert (Hgen : bool_decide (session = nr_session s /\ primary = nr_primary s) = true -> nr_generation s' = nr_generation s) by (intros E; by rewrite Es, E).
  clear Es. assert (Hown : forall y, owned s y -> owned s' y).
  { intros y [_ Hy]. split; [congruence|]. rewrite E9, E11. destruct Hw as [E|E]; injection E as -> -> ->.
    - destruct Hy as [|[id' Hy]]; [by left|right]. exists id'. rewrite lookup_insert_ne; [done|]. intros <-. destruct (T5 _ _ Hy). lia.
    - destruct Hy as [->|[id' Hy]]; right; [exists (nr_primary s); by rewrite lookup_insert_eq|]. exists id'. rewrite lookup_insert_ne; [done|]. intros <-. destruct (T5 _ _ Hy) as (_ & ? & _). done. }
  assert (Hx : owned s' x). { split; [congruence|]. rewrite E9, E11. destruct Hw as [E|E]; injection E as -> -> ->; [right; exists id; by rewrite lookup_insert_eq|by left]. }
  assert (Hput : forall y, is_Some (nr_controls s' !! y) -> is_Some (nr_controls s !! y) \/ y = x).
  { intros y Hy. rewrite E10 in Hy. unfold put in Hy. destruct (at_control a); [|by left]. destruct (decide (x = y)) as [->|]; [by right|left; by rewrite lookup_insert_ne in Hy]. }
  eapply pinv_moved; [exact H| |].
  - constructor; rewrite ?E1, ?E2, ?E3, ?E4, ?E5, ?E7, ?E8, ?E9, ?E11; try done.
    + intros y _ [Hy|Hy]; [apply D1 in Hy as ->; auto|right; right; by apply Hown].
    + intros y [? ?]. lia.
    + intros c [Hc|[? ?]]; [|lia]. right; right. split; [done|]. exists x. rewrite E10, (D2 c Hc). cbn. by rewrite lookup_insert_eq.
    + intros y c _ E. right. split; [done|]. assert (y <> x) by congruence. rewrite E10. split; [unfold put; destruct (at_control a); [by rewrite lookup_insert_ne|done]|]. intros [Hy|Hy]; [left; by apply Hown|by rewrite D3 in Hy].
    + by left.
    + intros y Hy. destruct (Hput y Hy) as [| ->]; [by left|by right].
    + rewrite Hf, Rn, <- Hid. cbn [omap list_omap]. rewrite D4. cbn. lia.
    + eapply Forall_impl; [exact Hs|]. intros j (J1 & J2 & J3). constructor; [|congruence|congruence]. intros y Hy. rewrite E1. destruct (J3 y Hy) as [->| ->]; lia.
    + intros [c' E]. destruct (Ho c' E) as (c & E' & _). by exists c.
    + intros id' y Hy. destruct (Hpw id' y Hy) as [Hy'|Hin]; [right; split; [done|apply D5]|left]. exists (PGo (PWatchPool id' y)). split; [done|]. by apply bool_decide_true.
    + destruct Ha as [Ha|Ha]; [|auto]. right; right; right. specialize (Hgen Ha). apply bool_decide_eq_true in Ha as [-> _]. split_and!; [done|exact Hgen|apply D6].
  - constructor; rewrite ?E1, ?E3, ?E4, ?E5, ?E6, ?E7, ?E8, ?E9, ?E11, ?E12; try done.
    + destruct Hw as [E|E]; injection E as -> -> ->; done.
    + rewrite Rn. destruct Hw as [E|E]; injection E as -> -> ->; lia.
    + intros id' y Hy. rewrite Rn. destruct Hw as [E|E]; injection E as -> -> ->; apply lookup_insert_Some in Hy as [[<- <-]|[Hne Hy]]; try (destruct (T5 id' y Hy) as (? & ? & ?)); split_and!; lia.
    + intros y Hy. destruct (Hput y Hy) as [| ->]; [by apply T6|done].
    + intros E. by rewrite Hcl in E.
    + intros _ c' E. destruct (Ho c' E) as (c & E' & Hcc). apply not_true_iff_false. intros [Hy|Hy]%Hcc; [by rewrite (T8 Hcl c E') in Hy|congruence].
Qed.

Lemma next_small s i x R : pinv s (i :: R) -> flight i = Some x -> len (nr_sessions s) < 2 ^ 63 -> r_nextRouteID (nr_router s) < 2 ^ 64 - 1.
Proof. intros H Hf Hb. pose proof (pv_next _ _ H) as Hn. cbn [omap list_omap] in Hn. rewrite Hf in Hn. cbn [length] in Hn. lia. Qed.

Lemma join_ok s s' k more x a target primary turn R : pinv s (PJoin x a target primary turn :: R) -> join_section s x a target primary turn = Some (s', k, more) -> len (nr_sessions s) < 2 ^ 63 -> pinv s' ((k ++ concat more) ++ R).
Proof.
  intros H Hx Hb. pose proof (pv_tables _ _ H) as Ht. assert (Hn := next_small s _ x R H eq_refl Hb). pose proof (tb_router _ Ht) as Hp. unfold join_section, pnext in Hx. cbv zeta in Hx.
  assert (Hd : decides (PJoin x a target primary turn) x a) by done. assert (Hsame : set_routers s (nr_router s) (nr_continuity s) = s) by (by destruct s).
  assert (Hg : forall router continuity k, pool_ok router -> r_nextRouteID (nr_router s) <= r_nextRouteID router <= r_nextRouteID (nr_router s) + 1 -> opened s continuity -> Forall plain k -> omap flight k = [] ->
    pinv (set_routers s router continuity) (((close_control (at_control a) ++ [PCloseSession x]) ++ k) ++ R)) by (intros; rewrite <- (app_assoc (close_control _)); by eapply pinv_refused).
  destruct (_ || _) eqn:G; [injection Hx as <- <- <-; rewrite app_nil_r, <- Hsame at 1; apply Hg; [done|lia|apply opened_same|plain_list|done]|]. guards. zb.
  match goal with E : nr_closed s = false |- _ => rename E into Hcl end.
  pose proof (Add_seen (negb (is_https primary)) (enabled s) (Some x) (maximum_of s x) (datagram_mux s x) (nr_router s) Hp Hn) as Hr. destruct ((if negb (is_https primary) then _ else _) _ _ _ _ _) as [[id|e] router];
    [|subst router; injection Hx as <- <- <-; rewrite app_nil_r; apply Hg; [done|lia|apply opened_same|plain_list|done]].
  destruct Hr as (R1 & R2 & R3 & R4 & R5). pose proof (add_open s _ (continuity_route s id x a (negb (is_https primary))) (opened_same s)) as Hop.
  destruct (continuity_add _ _) as [continuity [e|]]; cbn [fst] in Hop; injection Hx as <- <- <-; rewrite app_nil_r.
  - destruct (Remove_seen id router R2) as (Q1 & _ & Q2 & _). apply Hg; [done|lia|done|plain_list|done].
  - eapply (pinv_joined s _ x a _ R router continuity id (<[id := x]> (nr_pool s)) (nr_session s) (nr_primary s) []); try done.
    + by rewrite R5, R1.
    + by left.
    + intros id' y [[<- <-]|[_ Hy]]%lookup_insert_Some; [right; by left|by left].
    + repeat (apply Forall_cons; split; [split_and!; try done; intros y [= <-]; by left|]). by apply Forall_nil.
    + by rewrite bool_decide_true by done.
    + left. by apply bool_decide_true.
Qed.

Lemma candidate_ok s s' k more x a primary turn R : pinv s (PCandidate x a primary turn :: R) -> candidate_section s x a primary turn = Some (s', k, more) -> len (nr_sessions s) < 2 ^ 63 -> pinv s' ((k ++ concat more) ++ R).
Proof.
  intros H Hx Hb. pose proof (pv_tables _ _ H) as Ht. assert (Hn := next_small s _ x R H eq_refl Hb). pose proof (tb_router _ Ht) as Hp. unfold candidate_section, pnext in Hx. cbv zeta in Hx.
  assert (Hd : decides (PCandidate x a primary turn) x a) by done. assert (Hsame : set_routers s (nr_router s) (nr_continuity s) = s) by (by destruct s).
  assert (Hg : forall router continuity e, pool_ok router /\ r_nextRouteID (nr_router s) <= r_nextRouteID router <= r_nextRouteID (nr_router s) + 1 -> opened s continuity ->
    pinv (set_routers s router continuity) (((close_control (at_control a) ++ [PCloseSession x; PFailure; PResult e turn]) ++ []) ++ R)) by (intros router continuity e [? ?] ?; rewrite app_nil_r; eapply pinv_refused; try done; plain_list).
  assert (Hg0 : forall e, pinv s (((close_control (at_control a) ++ [PCloseSession x; PFailure; PResult e turn]) ++ []) ++ R)) by (intros e; rewrite <- Hsame at 1; apply Hg; [split; [done|lia]|apply opened_same]).
  destruct (mobileCarrierName (carrier_of s x)) as [name|]; [|injection Hx as <- <- <-; apply Hg0]. destruct (_ <=? _); [injection Hx as <- <- <-; apply Hg0|].
  destruct (nr_closed s || nr_migrating s || _) eqn:G; [injection Hx as <- <- <-; apply Hg0|]. guards. match goal with E : nr_closed s = false |- _ => rename E into Hcl end.
  pose proof (Add_seen true (enabled s) (Some x) (maximum_of s x) (datagram_mux s x) (nr_router s) Hp Hn) as Hr. cbv beta iota in Hr. destruct (AddStandby _ _ _ _ _) as [[id|e] router]; [|subst router; injection Hx as <- <- <-; apply Hg; [split; [done|lia]|apply opened_same]].
  destruct Hr as (R1 & R2 & R3 & R4 & R5). pose proof (add_open s _ (continuity_route s id x a true) (opened_same s)) as Hop.
  assert (Hrem : forall r, pool_ok r -> r_nextRouteID r = r_nextRouteID router -> pool_ok (SessionRouter.Remove id r).2 /\ r_nextRouteID (nr_router s) <= r_nextRouteID (SessionRouter.Remove id r).2 <= r_nextRouteID (nr_router s) + 1).
  { intros r K1 K2. destruct (Remove_seen id r K1) as (Q1 & _ & Q2 & _). split; [done|lia]. }
  destruct (continuity_add _ _) as [continuity [e|]]; cbn [fst] in Hop; [injection Hx as <- <- <-; apply Hg; [by apply Hrem|done]|].
  pose proof (Promote_seen id router R2) as Hpr. destruct (SessionRouter.Promote id router) as [[u|e] router2]; [|subst router2; injection Hx as <- <- <-; apply Hg; [by apply Hrem|by apply remove_open]].
  destruct Hpr as (P1 & P2 & P3 & P4 & P5).
  pose proof (standby_open s continuity id false Hop) as Hop1. destruct (continuity_standby continuity id false) as [c1 b1]. cbn [fst] in Hop1.
  pose proof (standby_open s c1 (nr_primary s) true Hop1) as Hop2.
  assert (Hop3 : opened s (if b1 then continuity_standby c1 (nr_primary s) true else (c1, false)).1) by (by destruct b1). destruct (if b1 then _ else _) as [c2 b2]. cbn [fst] in Hop3.
  destruct b2; cbn [negb] in Hx.
  2: { injection Hx as <- <- <-. apply Hg; [|by apply remove_open]. destruct (promote_kept (nr_primary s) router2 P1). apply Hrem; [done|congruence]. }
  pose proof (SetStandby_seen (nr_primary s) true router2 P1) as Hst. destruct (SessionRouter.SetStandby (nr_primary s) true router2) as [[] router3].
  2: { subst router3. injection Hx as <- <- <-. apply Hg; [|apply remove_open, standby_open, Hop3]. destruct (promote_kept (nr_primary s) router2 P1). apply Hrem; [done|congruence]. }
  destruct Hst as (S1 & S2 & S3 & S4). injection Hx as <- <- <-. rewrite app_nil_r.
  destruct (pv_flying _ _ H x) as [Hlt Hnone]; [cbn; by left|].
  assert (Hid : id <> nr_primary s) by (pose proof (tb_primary _ Ht); lia).
  assert (Hdec : bool_decide (x = nr_session s /\ id = nr_primary s) = false) by (apply bool_decide_eq_false; by intros [_ ?]).
  eapply (pinv_joined s _ x a _ R router3 c2 id (<[nr_primary s := nr_session s]> (nr_pool s)) x id name); try done.
  - rewrite S4, P5, R5, R1. done.
  - by right.
  - intros id' y [[<- <-]|[_ Hy]]%lookup_insert_Some; [right; right; by left|by left].
  - repeat (apply Forall_cons; split; [split_and!; try done; intros y [= <-]; by (left + right)|]). by apply Forall_nil.
  - by rewrite Hdec.
  - right. apply some_here. by apply bool_decide_true.
Qed.

Lemma pexec_inv s i ev s' k more R : pinv s (i :: R) -> env_ok ev -> pexec s i ev = Some (s', k, more) -> len (nr_sessions s) < 2 ^ 63 -> pinv s' ((k ++ concat more) ++ R).
Proof.
  intros H He Hx Hb. destruct i; cbn in Hx.
  - injection Hx as <- <- <-. destruct (pe_error ev); (quiet H; apply steady_pool_refl).
  - unfold probed_section, pnext in Hx. case_match; injection Hx as <- <- <-; (quiet H; first [apply steady_pool_refl|by apply steady_phase]).
  - by eapply connect_ok.
  - by eapply switch_ok.
  - unfold finishMigrationFailure, pnext in Hx. repeat case_match; injection Hx as <- <- <-; (quiet H; first [apply steady_pool_refl|by apply steady_phase]).
  - injection Hx as <- <- <-. quiet H. apply steady_note. intros x Hx. by apply list_elem_of_singleton in Hx.
  - by eapply attach_pool_ok.
  - by eapply attaching_ok.
  - unfold select_section, pnext in Hx. repeat case_match; simplify_eq; (quiet H; apply steady_pool_refl).
  - unfold select_section, pnext in Hx. repeat case_match; simplify_eq; (quiet H; apply steady_pool_refl).
  - unfold turn_section, pnext in Hx. injection Hx as <- <- <-. destruct (match retry with None => true | Some _ => _ end); (quiet H; apply steady_pool_refl).
  - injection Hx as <- <- <-. quiet H. apply steady_pool_refl.
  - unfold warm_section, pnext in Hx. injection Hx as <- <- <-. destruct (nr_migrating s); (quiet H; apply steady_pool_refl).
  - unfold head_section, pnext in Hx. repeat case_match; injection Hx as <- <- <-; (quiet H; apply steady_pool_refl).
  - by eapply dial_ok.
  - by eapply candidate_ok.
  - by eapply join_ok.
  - injection Hx as <- <- <-. quiet H. apply steady_pool_refl.
  - unfold recordPoolFailure, pnext in Hx. injection Hx as <- <- <-. quiet H. case_match; [apply steady_pool_refl|apply steady_counts].
  - unfold result_section, pnext in Hx. repeat case_match; injection Hx as <- <- <-; (quiet H; apply steady_pool_refl).
  - by eapply idle_ok.
  - by eapply watch_ok.
  - unfold terminal_section, pnext in Hx. repeat case_match; injection Hx as <- <- <-; (quiet H; first [apply steady_pool_refl|by apply steady_phase]).
  - by eapply watch_pool_ok.
  - by eapply drain_pool_ok.
  - by eapply close_control_of_ok.
  - by eapply remove_retired_ok.
  - injection Hx as <- <- <-. change (pinv s ([i] ++ R)). eapply pinv_steady; [exact H|apply steady_pool_refl| | | | |by right| |].
    + pose proof (pv_sound _ _ H) as Hs. apply Forall_cons in Hs as [[S1 S2 S3] _]. apply Forall_singleton. by constructor.
    + intros x Hk. right. by apply some_here.
    + intros c Hk. right. by apply some_here.
    + intros x Hk. by apply some_here.
    + intros id x Hk _. by apply some_here.
    + intros Hk. right; right. by apply some_here.
  - injection Hx as <- <- <-. by apply remove_continuity_ok.
  - injection Hx as <- <- <-. by apply remove_route_ok.
  - injection Hx as <- <- <-. by apply close_channel_ok.
  - injection Hx as <- <- <-. by apply close_session_ok.
  - injection Hx as <- <- <-. pose proof (pv_sound _ _ H) as Hs. apply Forall_cons in Hs as [[_ _ S3] _]. specialize (S3 eq_refl). quiet H.
    eapply steady_trans; [apply steady_continuity|apply steady_note; by intros x ?%list_elem_of_singleton].
    intros c' E. destruct (nr_continuity s) as [c|]; [|done]. exists c. split; [done|]. by right.
  - injection Hx as <- <- <-. quiet H. apply steady_note. by intros x ?%list_elem_of_singleton.
Qed.

(** Sessions are only added. *)
Lemma pexec_sessions s i ev s' k more : pexec s i ev = Some (s', k, more) -> (length (nr_sessions s) <= length (nr_sessions s'))%nat.
Proof.
  intros H. destruct i; cbn in H; unfold probed_section, connect_section, switch_section, finishMigrationFailure, attach_section, attaching_section, select_section, turn_section, reconcile_section, warm_section, head_section, dial_pool,
    candidate_section, join_section, recordPoolFailure, result_section, idle_section, watchSession, promoteWarmCarrier, terminal_section, watchPoolSession, leave_pool, drainRetiredSession, closeControlForSession, removeRetired, pnext in H; cbv zeta in H;
    simplify_eq/=; repeat (case_match; simplify_eq/=; try done); try (rewrite ?length_app; cbn; lia).
Qed.

(** ** The system *)

Definition ppending (y : psystem) : list pinstr := concat y.2.

(** A call pushes [k]. *)
Lemma called s s' threads k : (pinv s (concat threads) -> pinv s' (k ++ concat threads)) -> pinv s (concat threads) -> pinv s' (concat (threads ++ [k])).
Proof. intros H Hi. rewrite concat_app. cbn [concat]. rewrite app_nil_r. eapply pinv_perm; [apply Permutation_app_comm|]. by apply H. Qed.

Lemma close_ok s M : pinv s M -> pinv (Close s).1 ((Close s).2 ++ M).
Proof.
  intros H. unfold Close. destruct (nr_closed s) eqn:Hcl; [done|]. cbn [fst snd]. apply pinv_dummy in H. pose proof (pv_tables _ _ H) as [T1 T2 T3 T4 T5 T6 T7 T8].
  set (k := (if bool_decide (is_Some (nr_continuity s)) then [PCloseRouter] else []) ++ map PCloseControl (map_to_list (nr_controls s)).*2 ++
    map PCloseSession (nr_session s :: (map_to_list (nr_pool s)).*2 ++ (map_to_list (nr_retired s)).*2) ++ [PCloseStack]).
  assert (Hs : forall y, owned s y -> some_of (keeps y) k).
  { intros y [_ Hy]. assert (Hin : y ∈ nr_session s :: (map_to_list (nr_pool s)).*2 ++ (map_to_list (nr_retired s)).*2).
    { destruct Hy as [->|[id E]]; [by left|]. right. apply elem_of_app. left. apply list_elem_of_fmap. exists (id, y). split; [done|]. by apply elem_of_map_to_list. }
    exists (PCloseSession y). split; [|by apply bool_decide_true]. unfold k. do 2 (apply elem_of_app; right). apply elem_of_app. left. apply list_elem_of_fmap. by exists y. }
  assert (Hc : forall y c, nr_controls s !! y = Some c -> some_of (keeps_channel c) k).
  { intros y c E. exists (PCloseControl c). split; [|by apply bool_decide_true]. unfold k. apply elem_of_app. right. apply elem_of_app. left. apply list_elem_of_fmap. exists c. split; [done|].
    apply list_elem_of_fmap. exists (y, c). split; [done|]. by apply elem_of_map_to_list. }
  assert (Hf : omap flight k = []).
  { unfold k. rewrite !omap_app. assert (Hn : forall (A : Type) (f : A -> pinstr) l, (forall z, flight (f z) = None) -> omap flight (map f l) = []) by (intros A f l Hz; induction l as [|z l IH]; [done|]; cbn; by rewrite Hz).
    rewrite !Hn by done. by destruct (bool_decide _). }
  eapply (pinv_moved s _ PFailure k M H).
  - constructor; cbn [set_phase set_tables nr_sessions nr_log nr_ended nr_closed nr_channels nr_controls nr_pool nr_session nr_generation nr_router nr_continuity]; try done.
    + intros y _ [Hy|Hy]; [done|auto].
    + intros y [? ?]. lia.
    + intros c [Hy|[? ?]]; [done|lia].
    + intros y c _ E. left. by eapply Hc.
    + by left.
    + intros y [z Hz]. done.
    + rewrite Hf. cbn. lia.
    + unfold k. apply Forall_app. split; [destruct (bool_decide _); [|by apply Forall_nil]; apply Forall_singleton; by constructor|].
      apply Forall_app. split; [apply Forall_fmap, Forall_forall; intros c _; by apply plain_sound|]. apply Forall_app. split; [apply Forall_fmap, Forall_forall; intros c _; by apply plain_sound|plainly].
    + by right; left.
  - constructor; cbn; try done. intros y [z Hz]. done.
Qed.

Lemma pstep_inv y y' : psystem_step y y' -> pinv y.1 (ppending y) -> len (nr_sessions y'.1) < 2 ^ 63 -> pinv y'.1 (ppending y').
Proof.
  intros Hs H Hb. unfold ppending in *. destruct Hs as [[s threads] t ev y'' He Ht|s threads x e|s threads|s threads started|s threads]; cbn [fst snd] in *.
  - cbn in Ht. destruct (threads !! t) as [[|i rest]|] eqn:El; [done| |done]. destruct (pexec s i ev) as [[[s1 k] started]|] eqn:Ex; [|done]. cbn in Ht. injection Ht as <-. cbn [fst snd] in *.
    destruct (concat_lookup _ _ _ _ El) as (M & H1 & H2). eapply pinv_perm; [symmetry; apply H2|]. eapply pexec_inv; [by eapply pinv_perm|done|exact Ex|].
    pose proof (pexec_sessions _ _ _ _ _ _ Ex). unfold len in *. lia.
  - eapply pinv_same; [done|apply steady_ends].
  - eapply called; [|exact H]. intros Hi. unfold NetworkChanged. apply pinv_dummy in Hi. destruct (nr_closed s) eqn:E1; [|destruct (nr_migrating s)]; cbn [fst snd]; (quiet Hi; first [apply steady_pool_refl|rewrite <- E1; by apply steady_phase]).
  - assert (Hst : pinv (note (StartTunnel s started).1.1 [TunnelReturned (StartTunnel s started).1.2]) (concat threads)).
    { eapply pinv_same; [exact H|]. eapply steady_trans; [|apply steady_note; by intros x ?%list_elem_of_singleton]. unfold StartTunnel. repeat case_match; first [apply steady_pool_refl|constructor; cbn; eauto]. }
    assert (Hk : (StartTunnel s started).2 = [] \/ (StartTunnel s started).2 = [[PWarmDelay]]) by (unfold StartTunnel; repeat case_match; auto).
    destruct Hk as [-> | ->]; [by rewrite app_nil_r|]. eapply called; [|exact Hst]. intros Hi. apply pinv_dummy in Hi. quiet Hi. apply steady_pool_refl.
  - eapply called; [|exact H]. apply close_ok.
Qed.

Lemma psteps_sessions y y' : rtc psystem_step y y' -> (length (nr_sessions y.1) <= length (nr_sessions y'.1))%nat.
Proof.
  induction 1 as [y|y y2 y3 Hs _ IH]; [done|]. etrans; [|exact IH]. clear IH. destruct Hs as [[s threads] t ev y'' He Ht|s threads x e|s threads|s threads started|s threads]; cbn [fst snd] in *.
  - cbn in Ht. destruct (threads !! t) as [[|i rest]|] eqn:El; [done| |done]. destruct (pexec s i ev) as [[[s1 k] more]|] eqn:Ex; [|done]. cbn in Ht. injection Ht as <-. by eapply pexec_sessions.
  - done.
  - unfold NetworkChanged. by repeat case_match.
  - unfold StartTunnel. by repeat case_match.
  - unfold Close. by case_match.
Qed.

Lemma psteps_inv y y' : rtc psystem_step y y' -> pinv y.1 (ppending y) -> len (nr_sessions y'.1) < 2 ^ 63 -> pinv y'.1 (ppending y').
Proof.
  induction 1 as [y|y y2 y3 Hs Hr IH]; intros H Hb; [done|]. apply IH; [|done]. apply (pstep_inv y y2 Hs H). pose proof (psteps_sessions _ _ Hr). unfold len in *. lia.
Qed.

Lemma new_pool_inv c fast a ev events s t : newNP2Runtime c fast a ev = (events, Ok (s, t)) -> pinv s (concat t) /\ nr_closed s = false.
Proof.
  intros H. unfold newNP2Runtime in H. destruct (negb (au_mux a)); [done|]. cbv zeta in H. destruct (canonicalRouteAddresses _) as [routes|]; [|done]. destruct (mobileCarrierName _) as [name|]; [|done].
  destruct (authenticatedSessionRoute a) as [[maximum datagrams]|]; [|done]. destruct (NewSessionRouter _ _ _ _) as [router|] eqn:Er; [|done]. apply new_seen in Er as (R1 & R2 & R3 & R4).
  destruct (newMobileContinuity c a router ev) as [events' [[[continuity at_] router']|]] eqn:Ec; [|done]. injection H as <- <- <-. split; [|done].
  assert (Hc : pool_ok router' /\ r_nextRouteID router' = 2 /\ (at_control at_ = Some 0%nat \/ at_control at_ = None) /\ forall c0, continuity = Some c0 -> cc_closed c0 = false).
  { unfold newMobileContinuity in Ec. destruct (negb _); [injection Ec as <- <- <- <-; split_and!; auto; done|]. destruct (_ <=? 0); [done|]. destruct (pe_attach ev); [done|]. destruct (pe_state ev) as [[k1 k2]|]; [|done]. destruct (pe_channel ev); [done|].
    destruct (NewClientContinuityRouter _ _) as [cc|] eqn:En; [|done]. unfold EnableContinuity in Ec. destruct (r_continuity router); [done|]. injection Ec as <- <- <- <-. split_and!.
    - destruct R1. by constructor.
    - done.
    - by left.
    - intros c0 [= <-]. unfold NewClientContinuityRouter in En. destruct (_ || _) in En; [done|]. by injection En as <-. }
  destruct Hc as (Hp & Hn & Ha & Ho). assert (Hl : forall x, (x < length [a])%nat -> x = 0%nat) by (cbn; lia).
  constructor; cbn [nr_sessions nr_log nr_ended nr_closed nr_channels nr_controls nr_pool nr_session nr_generation nr_router nr_continuity concat app]; try done.
  - constructor; cbn [nr_sessions nr_log nr_ended nr_closed nr_controls nr_pool nr_session nr_primary nr_router nr_continuity length]; try done; try lia.
    + by intros x ?%not_elem_of_nil.
    + intros x [z Hz]. destruct Ha as [E|E]; rewrite E in Hz; cbn in Hz; [|done]. destruct (decide (x = 0%nat)) as [->|]; [lia|]. by rewrite lookup_insert_ne in Hz by done.
  - intros x Hx%Hl. subst. right; right. split; [done|by left].
  - intros ch Hch. right; right. split; [done|]. destruct Ha as [E|E]; rewrite E in *; [|by rewrite bool_decide_false in Hch by (intros [? ?]; done); lia].
    rewrite bool_decide_true in Hch by eauto. exists 0%nat. replace ch with 0%nat by lia. cbn. rewrite lookup_insert_eq. split; [done|]. left. split; [done|by left].
  - cbn. apply NoDup_nil_2.
  - by intros x ?%not_elem_of_nil.
  - rewrite Hn. done.
  - apply Forall_singleton. constructor; [intros x [= <-]; cbn; lia|done|done].
  - right; right. apply some_here. by apply bool_decide_true.
Qed.

(** C36: Nothing is lost.  Whatever the goroutines of the runtime do and whatever
    the environment answers, every session that a connector returned is closed,
    or in the hands of a goroutine that will close it or hand it on, or it is the
    primary or a member of the pool of a runtime that is not closed; its control
    channel is closed, in such hands, or registered for such a session or one
    that drains.  Every member of the pool, and the primary unless it has ended,
    has its watcher, and the session router has one to three routes with distinct
    identifiers. *)
Theorem pool_accounts c fast a ev events s0 t0 s threads : newNP2Runtime c fast a ev = (events, Ok (s0, t0)) -> rtc psystem_step (s0, t0) (s, threads) -> len (nr_sessions s) < 2 ^ 63 ->
  (forall x, (x < length (nr_sessions s))%nat -> SessionClosed x ∈ nr_log s \/ some_of (keeps x) (concat threads) \/ owned s x) /\
  (forall c, (c < nr_channels s)%nat -> ChannelClosed c ∈ nr_log s \/ some_of (keeps_channel c) (concat threads) \/
    (nr_closed s = false /\ exists x, nr_controls s !! x = Some c /\ (owned s x \/ some_of (frees x) (concat threads)))) /\
  (forall id x, nr_pool s !! id = Some x -> some_of (watches_pool id x) (concat threads)) /\
  (nr_closed s = false -> has_ended s (nr_session s) = false -> some_of (watches (nr_generation s) (nr_session s)) (concat threads)) /\
  pool_ok (nr_router s).
Proof.
  intros Hn Hr Hb. destruct (new_pool_inv _ _ _ _ _ _ _ Hn) as [H0 _]. pose proof (psteps_inv _ _ Hr H0 Hb) as [P1 P2 P3 P4 P5 P6 P7 P8 P9]. cbn [fst] in *. split_and!; try done; [|apply P1].
  intros Hc He. unfold has_ended in He. apply bool_decide_eq_false in He. destruct P9 as [|[|]]; [done|congruence|done].
Qed.

(** ** The end *)

(** Steps that see the cancelled context, as every [select] does sooner or later
    once the runtime is closed. *)
Definition winds_down (y y' : psystem) : Prop := exists t ev, env_ok ev /\ pe_cancelled ev = true /\ pthread_step y t ev = Some y'.

Fixpoint weight (i : pinstr) : nat :=
  match i with
  | PProbe _ _ => 12 | PProbed _ _ => 2 | PConnect _ _ => 11 | PSwitch _ _ _ _ => 6
  | PAttach _ _ => 10 | PAttaching _ _ => 9
  | PSelect _ _ => 1 | PIdle _ _ => 2 | PResult _ _ => 3 | PRefused _ => 4 | PHead _ _ => 4 | PWarm _ _ => 5 | PReconcile _ => 6 | PTurn _ _ => 7 | PWarmDelay => 1
  | PJoin _ _ _ _ _ => 7 | PCandidate _ _ _ _ => 8 | PDial _ _ _ => 11
  | PWatch _ _ => 2 | PWatchPool _ _ => 1 | PDrain _ _ => 5 | PCloseControlOf _ => 2
  | PGo x => S (weight x)
  | _ => 1
  end.
Definition load (M : list pinstr) : nat := sum_list_with weight M.

Lemma load_app M M' : load (M ++ M') = (load M + load M')%nat.
Proof. apply sum_list_with_app. Qed.
Lemma load_perm M M' : M ≡ₚ M' -> load M = load M'.
Proof. unfold load. induction 1; cbn; lia. Qed.
Lemma load_control a : (load (close_control a) <= 1)%nat.
Proof. destruct a; cbn; lia. Qed.
Lemma load_attach s x u r : (load (after_attach s x u r) < 9)%nat.
Proof.
  destruct u, r as [a|e]; cbn [after_attach]; try (cbn; lia). destruct (_ <? _); [cbn; lia|]. destruct (mobileCarrierName _); [destruct (_ && _)|]; try (cbn; lia); rewrite load_app; pose proof (load_control (at_control a)); cbn in *; lia.
Qed.

(** Each such step of a closed runtime leaves less to do. *)
Lemma winds_exec s i ev s' k more : nr_closed s = true -> nr_pool s = ∅ -> nr_done s = true -> pe_cancelled ev = true -> pexec s i ev = Some (s', k, more) -> (nr_closed s' = true /\ nr_pool s' = ∅ /\ nr_done s' = true) /\ (load (k ++ concat more) < weight i)%nat.
Proof.
  intros Hc Hp Hd Hv H. pose proof load_control as Lc.
  assert (Hf : forall a k, (load (close_control (at_control a) ++ PCloseSession k :: []) <= 2)%nat) by (intros a k0; rewrite load_app; specialize (Lc (at_control a)); cbn in *; lia).
  destruct i; cbn [pexec weight] in *.
  - injection H as <- <- <-. split; [done|]. destruct (pe_error ev); cbn; lia.
  - unfold probed_section, pnext in H. case_match; injection H as <- <- <-; (split; [done|cbn; lia]).
  - unfold connect_section, pnext in H. cbv zeta in H. repeat (case_match; try done); injection H as <- <- <-; (split; [done|cbn; lia]).
  - unfold switch_section, pnext, current_is in H. rewrite Hc in H. cbn [negb andb] in H. injection H as <- <- <-. split; [done|]. rewrite app_nil_r, load_app. specialize (Hf a x). cbn in *. lia.
  - unfold finishMigrationFailure, pnext, current_is in H. rewrite Hc in H. injection H as <- <- <-. split; [done|cbn; lia].
  - injection H as <- <- <-. split; [done|cbn; lia].
  - unfold attach_section, pnext in H. rewrite Hc in H. injection H as <- <- <-. split; [done|]. rewrite app_nil_r. pose proof (load_attach s x u (Err ErrCanceled)). lia.
  - unfold attaching_section, pnext in H. repeat case_match; injection H as <- <- <-; (split; [done|]; rewrite app_nil_r; apply load_attach).
  - unfold select_section, pnext in H. rewrite Hv, Hc in H. injection H as <- <- <-. split; [done|cbn; lia].
  - unfold select_section, pnext in H. rewrite Hv, Hc in H. injection H as <- <- <-. split; [done|cbn; lia].
  - unfold turn_section, pnext in H. injection H as <- <- <-. split; [done|]. destruct (match retry with None => true | Some _ => _ end); cbn; lia.
  - injection H as <- <- <-. split; [done|cbn; lia].
  - unfold warm_section, pnext in H. injection H as <- <- <-. split; [done|]. destruct (nr_migrating s); cbn; lia.
  - unfold head_section, pnext in H. rewrite Hc in H. injection H as <- <- <-. split; [done|cbn; lia].
  - unfold dial_pool, pnext in H. cbv zeta in H. repeat (case_match; try done); injection H as <- <- <-; (split; [done|cbn; lia]).
  - unfold candidate_section, pnext in H. cbv zeta in H. rewrite Hc in H. cbn [orb] in H.
    assert (Hl : (load (close_control (at_control a) ++ [PCloseSession x; PFailure; PResult (Some (Sentinel ErrMigrationInProgress)) turn]) < 8)%nat /\ (load (close_control (at_control a) ++ [PCloseSession x; PFailure; PResult (Some (Sentinel ErrCarrierPoolMismatch)) turn]) < 8)%nat).
    { rewrite !load_app. specialize (Lc (at_control a)). cbn in *. lia. }
    repeat (case_match; try done); injection H as <- <- <-; (split; [done|]; rewrite app_nil_r; apply Hl).
  - unfold join_section, pnext in H. cbv zeta in H. rewrite Hc in H. injection H as <- <- <-. split; [done|]. rewrite app_nil_r, load_app. specialize (Hf a x). cbn in *. lia.
  - injection H as <- <- <-. split; [done|cbn; lia].
  - unfold recordPoolFailure, pnext in H. rewrite Hc in H. injection H as <- <- <-. split; [done|cbn; lia].
  - unfold result_section, pnext in H. repeat case_match; injection H as <- <- <-; (split; [done|cbn; lia]).
  - unfold idle_section, pnext in H. rewrite Hc in H. cbn [orb] in H. repeat case_match; injection H as <- <- <-; (split; [done|cbn; lia]).
  - unfold watchSession, promoteWarmCarrier, pnext in H. rewrite Hc in H. cbn [orb] in H. case_match; [|done]. injection H as <- <- <-. split; [done|cbn; lia].
  - unfold terminal_section, pnext in H. rewrite Hc in H. injection H as <- <- <-. split; [done|cbn; lia].
  - unfold watchPoolSession, pnext in H. rewrite Hp, lookup_empty in H. case_match; [|done]. rewrite bool_decide_false in H by done. injection H as <- <- <-. split; [done|cbn; lia].
  - unfold drainRetiredSession, pnext in H. rewrite Hv, Hd in H. injection H as <- <- <-. split; [done|cbn; lia].
  - unfold closeControlForSession, pnext in H. injection H as <- <- <-. split; [done|]. rewrite app_nil_r. specialize (Lc (nr_controls s !! x)). cbn in *. lia.
  - unfold removeRetired, pnext in H. injection H as <- <- <-. split; [by case_match|cbn; lia].
  - injection H as <- <- <-. split; [done|cbn; lia].
  - injection H as <- <- <-. split; [done|cbn; lia].
  - injection H as <- <- <-. split; [done|cbn; lia].
  - injection H as <- <- <-. split; [done|cbn; lia].
  - injection H as <- <- <-. split; [done|cbn; lia].
  - injection H as <- <- <-. split; [done|cbn; lia].
  - injection H as <- <- <-. split; [done|cbn; lia].
Qed.

(** A watcher is a goroutine of its own. *)
Definition waits (i : pinstr) : bool := match i with PWatch _ _ | PWatchPool _ _ => true | _ => false end.
Definition shaped (th : list pinstr) : Prop := (exists w, th = [w]) \/ forallb (fun i => negb (waits i)) th = true.

Lemma shaped_plain k : forallb (fun i => negb (waits i)) k = true -> shaped k.
Proof. by right. Qed.

Lemma control_waits a : forallb (fun i => negb (waits i)) (close_control a) = true.
Proof. by destruct a. Qed.
Lemma remove_waits s id : forallb (fun i => negb (waits i)) (remove_route s id) = true.
Proof. unfold remove_route. by case_bool_decide. Qed.
Lemma attach_waits s x u r : forallb (fun i => negb (waits i)) (after_attach s x u r) = true.
Proof. destruct u, r as [a|e]; cbn [after_attach]; try done. destruct (_ <? _); [done|]. destruct (mobileCarrierName _); [destruct (_ && _)|]; try done; by rewrite forallb_app, control_waits. Qed.
Lemma retire_waits xs : forall r n, forallb (fun i => negb (waits i)) (retire xs r n).2 = true.
Proof. induction xs as [|x xs IH]; intros r n; [done|]. cbn [retire]. set (id := if n =? 0 then 1 else n). specialize (IH (<[id := x]> r) (u64 (id + 1))). by destruct (retire xs _ _) as [[? ?] ?]. Qed.

Lemma pexec_waits s i ev s' k more : pexec s i ev = Some (s', k, more) -> forallb (fun i => negb (waits i)) k = true /\ Forall shaped more.
Proof.
  intros H. assert (Hn : forall k, forallb (fun i => negb (waits i)) k = true -> forallb (fun i => negb (waits i)) k = true /\ Forall shaped []) by (intros; split; [done|by apply Forall_nil]).
  assert (Hg : forall a x k, forallb (fun i => negb (waits i)) k = true -> forallb (fun i => negb (waits i)) (close_control a ++ PCloseSession x :: k) = true) by (intros a x k0 Hk; by rewrite forallb_app, control_waits).
  destruct i; cbn [pexec] in H; unfold probed_section, connect_section, finishMigrationFailure, attach_section, attaching_section, select_section, turn_section, reconcile_section, warm_section, head_section, dial_pool,
    join_section, recordPoolFailure, result_section, idle_section, terminal_section, watchPoolSession, leave_pool, drainRetiredSession, closeControlForSession, removeRetired, pnext in H; cbv zeta in H.
  4: { unfold switch_section, pnext in H. cbv zeta in H. rewrite <- !app_assoc in H. pose proof (retire_waits (current :: (map_to_list (nr_pool s)).*2) (nr_retired s) (nr_nextRetired s)) as Hw. destruct (retire (current :: _) _ _) as [[retired next] drains].
       repeat case_match; injection H as <- <- <-; apply Hn; first [by apply Hg|by rewrite <- app_assoc; apply Hg|cbn in *; by rewrite forallb_app, Hw]. }
  15: { unfold candidate_section, pnext in H. cbv zeta in H. repeat case_match; injection H as <- <- <-; apply Hn; try (by apply Hg); done. }
  20: { unfold watchSession, promoteWarmCarrier, pnext in H. cbv zeta in H. repeat case_match; simplify_eq; apply Hn; rewrite ?forallb_app, ?remove_waits, ?control_waits; done. }
  all: try (injection H as <- <- <-; apply Hn; first [done|by rewrite ?app_nil_r, ?control_waits]).
  all: repeat (case_match; simplify_eq/=; try done); first [apply Hn; rewrite ?forallb_app, ?remove_waits, ?control_waits, ?attach_waits; done|idtac].
  injection H as <- <- <-. split; [done|]. apply Forall_singleton. left. by eexists.
Qed.

Definition closed_down (s : np2Runtime) : Prop := nr_closed s = true /\ nr_pool s = ∅ /\ nr_done s = true.

(** A step of a goroutine, taken apart. *)
Lemma pthread_inv s threads t ev y' : pthread_step (s, threads) t ev = Some y' ->
  exists i rest s' k more, threads !! t = Some (i :: rest) /\ pexec s i ev = Some (s', k, more) /\ y' = (s', <[t := k ++ rest]> threads ++ more).
Proof.
  intros H. cbn in H. destruct (threads !! t) as [[|i rest]|]; [done| |done]. destruct (pexec s i ev) as [[[s' k] more]|] eqn:Ex; [|done]. cbn in H. injection H as <-. by exists i, rest, s', k, more.
Qed.

Lemma winds_step y y' : winds_down y y' -> closed_down y.1 -> closed_down y'.1 /\ (load (concat y'.2) < load (concat y.2))%nat.
Proof.
  destruct y as [s threads]. intros (t & ev & _ & Hv & Ht) (H1 & H2 & H3). apply pthread_inv in Ht as (i & rest & s' & k & more & El & Ex & ->). cbn [fst snd] in *.
  destruct (concat_lookup _ _ _ _ El) as (M & Hm & Hm'). destruct (winds_exec _ _ _ _ _ _ H1 H2 H3 Hv Ex) as [Hc Hw]. split; [done|].
  rewrite (load_perm _ _ Hm), (load_perm _ _ (Hm' k more)). rewrite load_app in *. cbn [load sum_list_with] in *. rewrite load_app. unfold load in *. cbn. lia.
Qed.

Lemma winds_bounded n y y' : nsteps winds_down n y y' -> closed_down y.1 -> (n + load (concat y'.2) <= load (concat y.2))%nat.
Proof. induction 1 as [|n y y2 y3 H1 _ IH]; intros Hc; [lia|]. destruct (winds_step _ _ H1 Hc) as [Hc' Hl]. specialize (IH Hc'). lia. Qed.

Lemma shaped_step i rest k : shaped (i :: rest) -> forallb (fun i => negb (waits i)) k = true -> shaped (k ++ rest).
Proof.
  intros [[w [= -> ->]]|Hs] Hk; right; rewrite forallb_app, Hk; [done|]. cbn in Hs. by apply andb_true_iff in Hs as [_ ->].
Qed.

Lemma shaped_thread s threads t ev y' : Forall shaped threads -> pthread_step (s, threads) t ev = Some y' -> Forall shaped y'.2.
Proof.
  intros Hs (i & rest & s' & k & more & El & Ex & ->)%pthread_inv. destruct (pexec_waits _ _ _ _ _ _ Ex) as [Hk Hm]. apply Forall_app. split; [|done].
  apply Forall_insert; [done|]. apply (shaped_step i); [|done]. exact (Forall_lookup_1 _ _ _ _ Hs El).
Qed.

Lemma map_waits {A} (f : A -> pinstr) l : (forall z, waits (f z) = false) -> forallb (fun i => negb (waits i)) (map f l) = true.
Proof. intros H. induction l as [|z l IH]; [done|]. cbn. by rewrite H. Qed.

Lemma shaped_psystem y y' : psystem_step y y' -> Forall shaped y.2 -> Forall shaped y'.2.
Proof.
  intros Hs H. destruct Hs as [[s threads] t ev y' _ Ht|s threads x e|s threads|s threads started|s threads]; cbn [fst snd] in *; [by eapply shaped_thread|done| | |]; apply Forall_app; (split; [done|]).
  - apply Forall_singleton, shaped_plain. unfold NetworkChanged. by repeat case_match.
  - unfold StartTunnel. repeat case_match; cbn; try (by apply Forall_nil). by apply Forall_singleton, shaped_plain.
  - apply Forall_singleton, shaped_plain. unfold Close. case_match; [done|]. cbn [snd]. rewrite !forallb_app, !map_waits by done. by destruct (bool_decide _).
Qed.

Lemma shaped_steps y y' : rtc psystem_step y y' -> Forall shaped y.2 -> Forall shaped y'.2.
Proof. induction 1 as [|y y2 y3 Hs _ IH]; [done|]. intros H. apply IH. by eapply shaped_psystem. Qed.

Lemma winds_system y y' : winds_down y y' -> psystem_step y y'.
Proof. intros (t & ev & He & _ & Ht). by eapply ps_thread. Qed.

Lemma winds_closed y y' : rtc winds_down y y' -> closed_down y.1 -> closed_down y'.1.
Proof. induction 1 as [|y y2 y3 Hs _ IH]; [done|]. intros H. apply IH. by eapply winds_step. Qed.

(** Nothing but a watcher waits once the runtime is closed. *)
Definition cancelled_env : pool_env := mkPoolEnv None (Err ErrCanceled) (Err ErrCanceled) None None None 0 0 (fun _ => 0) true.

Lemma pexec_proceeds s i : closed_down s -> (waits i = true -> exists x, seen i = Some x /\ has_ended s x = true) -> is_Some (pexec s i cancelled_env).
Proof.
  intros (Hc & Hp & Hd) Hw. destruct i; cbn [pexec]; unfold probed_section, connect_section, switch_section, finishMigrationFailure, attach_section, attaching_section, select_section, turn_section, reconcile_section, warm_section, head_section, dial_pool,
    candidate_section, join_section, recordPoolFailure, result_section, idle_section, watchSession, terminal_section, watchPoolSession, drainRetiredSession, closeControlForSession, removeRetired, pnext; cbv zeta; rewrite ?Hc, ?Hd; cbn [pe_cancelled cancelled_env];
    try (by eexists); try (repeat case_match; eexists; reflexivity).
  - destruct (Hw eq_refl) as (y & [= <-] & He). unfold has_ended in He. apply bool_decide_eq_true in He as [e ->]. destruct (promoteWarmCarrier _ _ _) as [? [?|]]; by eexists.
  - destruct (Hw eq_refl) as (y & [= <-] & He). unfold has_ended in He. apply bool_decide_eq_true in He as [e ->]. repeat case_match; eexists; reflexivity.
Qed.

Lemma new_shaped c fast a ev events s t : newNP2Runtime c fast a ev = (events, Ok (s, t)) -> Forall shaped t.
Proof. unfold newNP2Runtime. intros H. repeat (case_match; simplify_eq/=; try done). all: apply Forall_singleton; left; by eexists. Qed.

(** A goroutine that cannot proceed is a watcher of a session that runs. *)
Lemma at_rest s threads th : closed_down s -> (forall y, ~ winds_down (s, threads) y) -> Forall shaped threads -> th ∈ threads ->
  th = [] \/ exists w x, th = [w] /\ waits w = true /\ seen w = Some x /\ has_ended s x = false.
Proof.
  intros Hc Hr Hs Hin. apply list_elem_of_lookup in Hin as [t El]. destruct th as [|i rest]; [by left|right].
  assert (Hstuck : pexec s i cancelled_env = None).
  { destruct (pexec s i cancelled_env) as [[[s' k] more]|] eqn:Ex; [|done]. exfalso. apply (Hr (s', <[t := k ++ rest]> threads ++ more)). exists t, cancelled_env. split_and!; [done|done|]. cbn. by rewrite El, Ex. }
  assert (Hw : waits i = true /\ exists x, seen i = Some x /\ has_ended s x = false).
  { destruct (waits i) eqn:E; [|destruct (pexec_proceeds s i Hc) as [? Hx]; [by rewrite E|congruence]]. split; [done|].
    destruct (seen i) as [x|] eqn:Ei; [|by destruct i]. exists x. split; [done|]. destruct (has_ended s x) eqn:Ex; [|done].
    destruct (pexec_proceeds s i Hc) as [? Hx]; [by exists x|congruence]. }
  destruct Hw as (Hw & x & Hx & He). exists i, x. split_and!; try done. pose proof (Forall_lookup_1 _ _ _ _ Hs El) as [[w Ew]|Hn]; [by injection Ew as -> ->|].
  cbn in Hn. by rewrite Hw in Hn.
Qed.

(** C37: The end of a runtime.  Once [Close] was called, the goroutines have
    a bounded number of steps left that see the cancelled context; when none is
    possible they have all returned, and every session that a connector returned
    and every control channel has been closed. *)
Theorem pool_closes c fast a ev events s0 t0 y : newNP2Runtime c fast a ev = (events, Ok (s0, t0)) -> rtc psystem_step (s0, t0) y -> nr_closed y.1 = true -> len (nr_sessions y.1) < 2 ^ 63 ->
  (forall n y', nsteps winds_down n y y' -> (n <= load (concat y.2))%nat) /\
  (forall y', rtc winds_down y y' -> len (nr_sessions y'.1) < 2 ^ 63 -> (forall y2, ~ winds_down y' y2) ->
    concat y'.2 = [] /\ (forall x, (x < length (nr_sessions y'.1))%nat -> SessionClosed x ∈ nr_log y'.1) /\ (forall ch, (ch < nr_channels y'.1)%nat -> ChannelClosed ch ∈ nr_log y'.1)).
Proof.
  intros Hn Hr Hc Hb. destruct (new_pool_inv _ _ _ _ _ _ _ Hn) as [H0 _]. pose proof (psteps_inv _ _ Hr H0 Hb) as Hi. destruct (tb_closed _ (pv_tables _ _ Hi) Hc) as [Hp Hd].
  assert (Hcd : closed_down y.1) by done. split; [intros n y' Hs; pose proof (winds_bounded _ _ _ Hs Hcd); lia|]. intros y' Hw Hb' Hrest.
  assert (Hall : rtc psystem_step (s0, t0) y') by (etrans; [exact Hr|]; eapply rtc_subrel; [|exact Hw]; intros ? ?; apply winds_system).
  pose proof (psteps_inv _ _ Hall H0 Hb') as Hi'. pose proof (winds_closed _ _ Hw Hcd) as Hcd'. pose proof (shaped_steps _ _ Hall) as Hs.
  assert (Ht0 : Forall shaped t0) by (eapply new_shaped; exact Hn). specialize (Hs Ht0). destruct y' as [s threads]. cbn [fst snd] in *. pose proof (at_rest s threads) as Ha.
  assert (Hidle : forall p : pinstr -> bool, (forall i, waits i = true -> p i = false) -> ~ some_of p (concat threads)).
  { intros p Hp' (i & Hin & Hpi). apply list_elem_of_In, in_concat in Hin as (th & Hth%list_elem_of_In & Hi0%list_elem_of_In). destruct (Ha th Hcd' Hrest Hs Hth) as [->|(w & x & -> & Hww & _)]; [by apply not_elem_of_nil in Hi0|].
    apply list_elem_of_singleton in Hi0 as ->. by rewrite Hp' in Hpi. }
  assert (Hsess : forall x, (x < length (nr_sessions s))%nat -> SessionClosed x ∈ nr_log s).
  { intros x Hx. destruct (pv_sessions _ _ Hi' x Hx) as [|[Hk|[Ho _]]]; [done| |destruct Hcd'; congruence]. exfalso. eapply Hidle; [|exact Hk]. by intros []. }
  split_and!; [|done|].
  - destruct (concat threads) as [|i M] eqn:Em; [done|exfalso]. assert (Hin : i ∈ concat threads) by (rewrite Em; by left). apply list_elem_of_In, in_concat in Hin as (th & Hth%list_elem_of_In & Hi0%list_elem_of_In).
    destruct (Ha th Hcd' Hrest Hs Hth) as [->|(w & x & -> & Hww & Hx & He)]; [by apply not_elem_of_nil in Hi0|]. apply list_elem_of_singleton in Hi0 as ->.
    pose proof (pv_sound _ _ Hi') as Hso. unfold ppending in Hso. cbn in Hso. rewrite Em in Hso. apply Forall_cons in Hso as [[Hseen _ _] _]. specialize (Hseen x Hx). apply Hsess, (tb_ended _ (pv_tables _ _ Hi')) in Hseen.
    unfold has_ended in He. by apply bool_decide_eq_false in He.
  - intros ch Hch. destruct (pv_channels _ _ Hi' ch Hch) as [|[Hk|[Ho _]]]; [done| |destruct Hcd'; congruence]. exfalso. eapply Hidle; [|exact Hk]. by intros [].
Qed.

(** ** Examples *)

Module PoolExample.
Definition address : Addr := Addr4 0x08080808.
Definition web : Authenticated := mkAuthenticated true CarrierHTTPS [address] None None.
Definition fast : Authenticated := mkAuthenticated true CarrierHTTP3 [address] None None.
Definition peer : Authenticated := mkAuthenticated true CarrierWebRTC [address] None None.
Definition config : mobile_config := mkMobileConfig [address] 16 3 true.
Definition key (b : byte) : list byte := replicate 16 b.
Definition answer (a : Authenticated) (k : byte) : pool_env := mkPoolEnv None (Err (External 9)) (Ok (Some a)) None (Some (key x02, key k)) None 1 0 (fun _ => 0) false.
Definition lost : pool_env := mkPoolEnv (Some (External 7)) (Err (External 9)) (Err (External 8)) None None None 1 0 (fun _ => 0) true.
Definition y0 : psystem := match (newNP2Runtime config true web (answer web x11)).2 with Ok y => y | Err _ => (mkNP2 0 0 [] 0 (SessionRouter.mkRouter (mkSR 0 None None 0 false) [] 0 0 0 0 0 0 0 None None) None ∅ ∅ ∅ 0 false false None false None false 0 0 0 0 [] [] false [] ∅ 0 [], []) end.

Inductive act := Tunnel | Changes | Dies (x : nat) | Shut | Run (t n : nat) (e : pool_env).
Fixpoint advance (n : nat) (t : nat) (e : pool_env) (y : psystem) : psystem :=
  match n with O => y | S n => match pthread_step y t e with Some y => advance n t e y | None => y end end.
Definition play (y : psystem) (a : act) : psystem :=
  match a with
  | Tunnel => (note (StartTunnel y.1 None).1.1 [TunnelReturned (StartTunnel y.1 None).1.2], y.2 ++ (StartTunnel y.1 None).2)
  | Changes => ((NetworkChanged y.1).1, y.2 ++ [(NetworkChanged y.1).2])
  | Dies x => (ends y.1 x (External 5), y.2)
  | Shut => ((Close y.1).1, y.2 ++ [(Close y.1).2])
  | Run t n e => advance n t e y
  end.
Definition run (l : list act) : psystem := foldl play y0 l.

Definition routes (y : psystem) : list (Z * option nat) := map (fun r => (sr_id r, sr_open r)) (r_routes (nr_router y.1)).
Definition continuity_routes (y : psystem) : list (Z * option nat) := match nr_continuity y.1 with Some c => map (fun kv => (kv.1, cr_mux kv.2)) (map_to_list (cc_routes c)) | None => [] end.

(** The pool finds a faster carrier, which becomes the primary. *)
Definition upgraded : list act := [Tunnel; Run 1 13 (answer fast x12)].
Example upgraded_run : let y := run upgraded in
  (nr_session y.1, nr_primary y.1, nr_pool y.1) = (1%nat, 2, {[1 := 0%nat]}) /\ routes y = [(1, Some 0%nat); (2, Some 1%nat)] /\ continuity_routes y ≡ₚ [(1, Some 0%nat); (2, Some 1%nat)] /\
  y.2 = [[PWatch 1 0]; [PSelect 1 None]; [PWatch 2 1]; [PWatchPool 1 0]].
Proof. vm_compute. split_and!; try done. apply Permutation_swap. Qed.

(** The primary ends after it answered the probe of [NetworkChanged] and before
    the answer is taken: its end was pending and is forgotten. *)
Example dead_primary_unwatched : let y := run [Changes; Run 1 1 (answer fast x12); Dies 0; Run 0 2 lost; Run 1 2 lost] in
  concat y.2 = [] /\ has_ended y.1 (nr_session y.1) = true /\ nr_done y.1 = false /\ nr_log y.1 = [ChangeReturned (Ok (mkMigration true false true))].
Proof. by vm_compute. Qed.

(** The primary ends during a migration that fails: the runtime ends too, though
    a warm member of the pool would have replaced the primary. *)
Example failed_change_ends_all : let y := run (upgraded ++ [Changes; Run 4 1 lost; Dies 1; Run 2 2 lost; Run 4 3 lost]) in
  nr_done y.1 = true /\ nr_pool y.1 = {[1 := 0%nat]} /\ has_ended y.1 0 = false /\ routes y = [(1, Some 0%nat); (2, Some 1%nat)].
Proof. by vm_compute. Qed.

(** A member of the pool ends; before its routes are removed, [NetworkChanged]
    installs a new primary, whose route has the identifier of the old one. *)
Example reused_route_removed : let y := run (upgraded ++ [Changes; Run 4 4 (mkPoolEnv (Some (External 7)) (Err (External 9)) (Ok (Some web)) None (Some (key x02, key x13)) None 1 0 (fun _ => 0) false); Dies 0; Run 3 1 lost;
      Run 4 5 (answer web x13); Run 3 5 lost]) in
  nr_session y.1 = 2%nat /\ has_ended y.1 2 = false /\ routes y = [(1, Some 2%nat)] /\ continuity_routes y = [] /\ nr_log y.1 = [TunnelReturned None; ChangeReturned (Ok (mkMigration false true true)); ChannelClosed 0; SessionClosed 0].
Proof. by vm_compute. Qed.
(** Every run is one of the system. *)
Definition act_ok (a : act) : Prop := match a with Run _ _ e => env_ok e | _ => True end.
Lemma pool_advances n t e y : env_ok e -> rtc psystem_step y (advance n t e y).
Proof.
  intros He. revert y. induction n as [|n IH]; intros y; [done|]. cbn. destruct (pthread_step y t e) as [y'|] eqn:E; [|done]. eapply rtc_l; [by eapply ps_thread|apply IH].
Qed.
Lemma pool_plays l : Forall act_ok l -> forall y, rtc psystem_step y (foldl play y l).
Proof.
  induction 1 as [|a l Ha _ IH]; intros y; [done|]. cbn. etrans; [|apply IH]. destruct y as [s threads], a as [| |x| |t n e]; cbn [play fst snd].
  - apply rtc_once, ps_tunnel.
  - apply rtc_once, ps_change.
  - apply rtc_once, ps_ends.
  - apply rtc_once, ps_close.
  - by apply pool_advances.
Qed.
Lemma answer_ok a k : is_zero (key k) = false -> env_ok (answer a k).
Proof. intros H c0 k0 [= <- <-]. done. Qed.

Lemma pool_accounts_witness : length (nr_sessions (run upgraded).1) = 2%nat /\
  (forall x, (x < length (nr_sessions (run upgraded).1))%nat -> SessionClosed x ∈ nr_log (run upgraded).1 \/ some_of (keeps x) (concat (run upgraded).2) \/ owned (run upgraded).1 x) /\
  some_of (watches_pool 1 0) (concat (run upgraded).2).
Proof.
  assert (Hr : rtc psystem_step (y0.1, y0.2) ((run upgraded).1, (run upgraded).2)).
  { rewrite <- (surjective_pairing (run upgraded)), <- (surjective_pairing y0). apply (pool_plays upgraded). repeat (apply Forall_cons; split; [first [done|by apply answer_ok]|]). by apply Forall_nil. }
  assert (Hn : newNP2Runtime config true web (answer web x11) = ([], Ok (y0.1, y0.2))) by (vm_compute; reflexivity).
  assert (Hb : len (nr_sessions (run upgraded).1) < 2 ^ 63) by (vm_compute; reflexivity).
  assert (Hp : nr_pool (run upgraded).1 !! 1 = Some 0%nat) by (vm_compute; reflexivity).
  destruct (pool_accounts config true web (answer web x11) [] y0.1 y0.2 (run upgraded).1 (run upgraded).2 Hn Hr Hb) as (H1 & _ & H3 & _).
  split; [vm_compute; reflexivity|]. split; [exact H1|exact (H3 1 0%nat Hp)].
Defined.

(** The runtime is closed while it warms a member of the pool. *)
Definition shut : list act := [Tunnel; Run 1 6 (answer fast x12); Shut].
Definition shutdown : psystem := foldl play (run shut) [Run 2 9 lost; Run 1 9 lost; Run 0 3 lost].
Lemma winds_advance n t y : rtc winds_down y (advance n t lost y).
Proof. revert y. induction n as [|n IH]; intros y; [done|]. cbn. destruct (pthread_step y t lost) as [y'|] eqn:E; [|done]. eapply rtc_l; [|apply IH]. exists t, lost. split_and!; done. Qed.

Lemma pool_closes_witness : nr_closed (run shut).1 = true /\ concat shutdown.2 = [] /\ forall x, (x < length (nr_sessions shutdown.1))%nat -> SessionClosed x ∈ nr_log shutdown.1.
Proof.
  assert (Hr : rtc psystem_step (y0.1, y0.2) (run shut)).
  { rewrite <- (surjective_pairing y0). apply (pool_plays shut). repeat (apply Forall_cons; split; [first [done|by apply answer_ok]|]). by apply Forall_nil. }
  assert (Hn : newNP2Runtime config true web (answer web x11) = ([], Ok (y0.1, y0.2))) by (vm_compute; reflexivity).
  assert (Hc : nr_closed (run shut).1 = true) by (vm_compute; reflexivity).
  assert (Hb : len (nr_sessions (run shut).1) < 2 ^ 63) by (vm_compute; reflexivity).
  assert (Hb' : len (nr_sessions shutdown.1) < 2 ^ 63) by (vm_compute; reflexivity).
  assert (Hw : rtc winds_down (run shut) shutdown) by (unfold shutdown; cbn [foldl play]; etrans; [apply winds_advance|]; etrans; apply winds_advance).
  assert (Hrest : forall y2, ~ winds_down shutdown y2).
  { intros y2 (t & ev & _ & _ & Ht). assert (Hd : Forall (fun th => th = []) shutdown.2) by (vm_compute; repeat (apply Forall_cons; split; [reflexivity|]); by apply Forall_nil).
    rewrite (surjective_pairing shutdown) in Ht. apply pthread_inv in Ht as (i & rest & s' & k & more & El & _). by pose proof (Forall_lookup_1 _ _ _ _ Hd El). }
  destruct (pool_closes config true web (answer web x11) [] y0.1 y0.2 (run shut) Hn Hr Hc Hb) as [_ H].
  destruct (H shutdown Hw Hb' Hrest) as (E & Hs & _). exact (conj Hc (conj E Hs)).
Defined.
End PoolExample.
