(* ===== verification/MobileController.v ===== *)
(** * The controller of the mobile client (mobile/np2mobile/controller.go)

    The application starts a tunnel, hands it the packet interface, reports
    changes of the network and stops it; the [controller] keeps the public state.
    A start connects in a goroutine of its own and waits for it, for a timer or
    for [stop]; afterwards a goroutine watches the runtime.  As in [CarrierPool] a
    goroutine is a list of instructions, each a critical section or a call on the
    runtime, whose answers come with the step.  Calls made while the mutex is held
    are steps of their own, which only adds interleavings.  The file ends with the
    counters of the tunnel. *)
From stdpp Require Import prelude gmap list relations.
From S2P Require Import Prelude Target Cluster ClusterRelay ProxyServer CarrierPool.

(** ** Data *)

Inductive mstate := Stopped | Starting | Connected | Running | Migrating | Stopping | Failed.
#[global] Instance mstate_eq_dec : EqDecision mstate.
Proof. solve_decision. Defined.

(** The busy states, in which a start is refused, and the states in which there
    is a runtime to ask. *)
Definition busy (s : mstate) : bool := match s with Stopped | Failed => false | _ => true end.
Definition live (s : mstate) : bool := match s with Connected | Running | Migrating => true | _ => false end.

(** Contexts, [done] channels and results belong to a start, so starts, runtimes
    and network changes are numbered. *)
Record controller := mkController {
  c_state : mstate; c_lastErr : option error; c_cancel : option nat; c_done : option nat; c_runtime : option nat;
  c_serverAddr : list byte; c_carrier : list byte; c_coverMode : list byte; c_generation : Z;
  c_migrationCancel : option nat; c_migrationTimeout : Z; c_networkChanges : Z; c_reconnects : Z; c_migrations : Z;
  c_clientRoutes : option (list Route)
}.

Definition newController : controller := mkController Stopped None None None None [] [] [] 0 None 0 0 0 0 None.

Definition set_state (c : controller) (state : mstate) (lastErr : option error) : controller :=
  mkController state lastErr (c_cancel c) (c_done c) (c_runtime c) (c_serverAddr c) (c_carrier c) (c_coverMode c) (c_generation c)
    (c_migrationCancel c) (c_migrationTimeout c) (c_networkChanges c) (c_reconnects c) (c_migrations c) (c_clientRoutes c).
Definition set_cancel (c : controller) (cancel : option nat) : controller :=
  mkController (c_state c) (c_lastErr c) cancel (c_done c) (c_runtime c) (c_serverAddr c) (c_carrier c) (c_coverMode c) (c_generation c)
    (c_migrationCancel c) (c_migrationTimeout c) (c_networkChanges c) (c_reconnects c) (c_migrations c) (c_clientRoutes c).
Definition set_runtime (c : controller) (runtime : option nat) (address carrier : list byte) : controller :=
  mkController (c_state c) (c_lastErr c) (c_cancel c) (c_done c) runtime address carrier (c_coverMode c) (c_generation c)
    (c_migrationCancel c) (c_migrationTimeout c) (c_networkChanges c) (c_reconnects c) (c_migrations c) (c_clientRoutes c).
Definition set_migration (c : controller) (cancel : option nat) (timeout : Z) : controller :=
  mkController (c_state c) (c_lastErr c) (c_cancel c) (c_done c) (c_runtime c) (c_serverAddr c) (c_carrier c) (c_coverMode c) (c_generation c)
    cancel timeout (c_networkChanges c) (c_reconnects c) (c_migrations c) (c_clientRoutes c).
Definition set_counters (c : controller) (changes reconnects migrations : Z) : controller :=
  mkController (c_state c) (c_lastErr c) (c_cancel c) (c_done c) (c_runtime c) (c_serverAddr c) (c_carrier c) (c_coverMode c) (c_generation c)
    (c_migrationCancel c) (c_migrationTimeout c) changes reconnects migrations (c_clientRoutes c).
(** A new generation with its context and its [done]. *)
Definition set_generation (c : controller) (current : option nat) (mode : list byte) : controller :=
  mkController (c_state c) (c_lastErr c) current current (c_runtime c) (c_serverAddr c) (c_carrier c) mode (u64 (c_generation c + 1))
    (c_migrationCancel c) (c_migrationTimeout c) (c_networkChanges c) (c_reconnects c) (c_migrations c) (c_clientRoutes c).
Definition set_routes (c : controller) (routes : list Route) : controller :=
  mkController (c_state c) (c_lastErr c) (c_cancel c) (c_done c) (c_runtime c) (c_serverAddr c) (c_carrier c) (c_coverMode c) (c_generation c)
    (c_migrationCancel c) (c_migrationTimeout c) (c_networkChanges c) (c_reconnects c) (c_migrations c) (Some routes).

(** What a connector gave: nothing, a runtime, or an error.  With an error the
    interface value may hold a nil pointer, which is not the nil interface. *)
Inductive connection := NoConnection | ConnectedTo (x : nat) | ConnectFailed (pointer : bool) (e : error).

(** [connectRuntime] returns the two results of [newNP2RuntimeWithConnectors],
    whose first is a nil pointer when the second is an error. *)
Definition connectRuntime (dialled built : option error) (x : nat) : connection :=
  match dialled, built with Some e, _ => ConnectFailed false e | None, Some e => ConnectFailed true e | None, None => ConnectedTo x end.

Inductive mevent :=
| RuntimeClosed (x : nat) | DoneClosed (n : nat) | Abandoned (n : nat) | MigrationCancelled (k : nat) | PreferencesReset | NilDereferenced
| CallReturned (e : option error).

(** The runtimes that were connected, the errors their [Wait] returns once they
    have ended, the buffered results and the cancelled contexts of the starts. *)
Record mworld := mkWorld {
  w_starts : nat; w_changes : nat; w_runtimes : nat; w_results : gmap nat connection; w_cancelled : gset nat; w_ended : gmap nat (option error); w_log : list mevent
}.

Definition emit (w : mworld) (events : list mevent) : mworld :=
  mkWorld (w_starts w) (w_changes w) (w_runtimes w) (w_results w) (w_cancelled w) (w_ended w) (w_log w ++ events).
Definition set_results (w : mworld) (runtimes : nat) (results : gmap nat connection) : mworld :=
  mkWorld (w_starts w) (w_changes w) runtimes results (w_cancelled w) (w_ended w) (w_log w).
Definition cancel_context (w : mworld) (n : nat) : mworld :=
  mkWorld (w_starts w) (w_changes w) (w_runtimes w) (w_results w) ({[n]} ∪ w_cancelled w) (w_ended w) (w_log w).
(** A runtime ends once. *)
Definition runtime_ends (w : mworld) (x : nat) (e : option error) : mworld :=
  mkWorld (w_starts w) (w_changes w) (w_runtimes w) (w_results w) (w_cancelled w) (match w_ended w !! x with Some _ => w_ended w | None => <[x := e]> (w_ended w) end) (w_log w).
Definition set_starts (w : mworld) (starts changes : nat) : mworld :=
  mkWorld starts changes (w_runtimes w) (w_results w) (w_cancelled w) (w_ended w) (w_log w).

(** ** Instructions *)

Inductive minstr :=
(* [start] of the start [n], in the generation [gen] *)
| MConnect (n : nat) | MSelect (n : nat) (gen : Z) (routes : option (list Route)) | MRoutes (n : nat) (gen : Z) (x : nat) (routes : list Route)
| MPublish (n : nat) (gen : Z) (x : nat) | MFailStart (n : nat) (gen : Z) (e : error) | MDrainResult (n : nat)
(* [monitor] *)
| MMonitor (n : nat) (gen : Z) (x : nat) | MEnded (n : nat) (gen : Z) (x : nat) (e : option error)
(* [startTunnel], [networkChanged] *)
| MTunnel (x : nat) (gen : Z) | MTunnelFailed (x : nat) (gen : Z) (e : error) | MTunnelStarted (x : nat) (gen : Z)
| MChange (x : nat) (gen : Z) | MChanged (x : nat) (gen : Z) (r : res migrationResult)
(* the resources *)
| MCancel (n : nat) | MCancelMigration (k : nat) | MCloseRuntime (x : nat) | MCloseDone (n : nat) | MReturn (e : option error) | MGo (i : minstr).

(** What the environment answers to one step: the connector, which case of
    [select] is taken, what the calls on the runtime return. *)
Inductive choice := ByResult | ByTimer | ByContext.
Record menv := mkMenv {
  me_dialled : option error; me_built : option error; me_choice : choice; me_error : option error;
  me_address : list byte; me_carrier : list byte; me_change : res migrationResult
}.

Definition moutcome : Type := option (controller * mworld * list minstr * list (list minstr)).
Definition mnext (c : controller) (w : mworld) (k : list minstr) : moutcome := Some (c, w, k, []).

(** *** [start] *)

(** [parsed] is what [config.ParseMobileClientBytes] returned: the cover mode of
    the configuration and the deadline of [mobileConnectDeadline]. *)
Definition start (c : controller) (w : mworld) (parsed : res (list byte * Z)) : controller * mworld * list minstr :=
  match parsed with
  | Err e => (c, w, [MReturn (Some e)])
  | Ok (mode, deadline) =>
      if busy (c_state c) then (c, w, [MReturn (Some (Sentinel ErrAlreadyRunning))])
      else
        let n := w_starts w in
        let c := set_generation c (Some n) mode in
        let c := set_runtime (set_state c Starting None) None [] [] in
        let c := set_migration c (c_migrationCancel c) deadline in
        (c, set_starts w (S n) (w_changes w), [MGo (MConnect n); MSelect n (c_generation c) (c_clientRoutes c)])
  end.

Definition mobileConnectDeadline (only : bool) (http3 https webrtc : Z) (configured : bool) : Z :=
  if only then http3 + 3 * second else https + webrtc + (if configured then http3 else 0) + 3 * second.

Definition connect_step (c : controller) (w : mworld) (n : nat) (ev : menv) : moutcome :=
  let x := w_runtimes w in
  let result := connectRuntime (me_dialled ev) (me_built ev) x in
  mnext c (set_results w (match result with ConnectedTo _ => S x | _ => x end) (<[n := result]> (w_results w))) [].

(** The [select] of [start]. *)
Definition wait_step (c : controller) (w : mworld) (n : nat) (gen : Z) (routes : option (list Route)) (ev : menv) : moutcome :=
  let failed e := [MFailStart n gen e; MReturn (Some e)] in
  match me_choice ev with
  | ByResult =>
      match w_results w !! n with
      | None => None
      | Some result =>
          mnext c (set_results w (w_runtimes w) (delete n (w_results w)))
            match result with
            | ConnectFailed _ e => failed e
            | NoConnection => failed (Sentinel ErrTunnelNotConnected)
            | ConnectedTo x => [match routes with Some routes => MRoutes n gen x routes | None => MPublish n gen x end]
            end
      end
  | ByTimer => mnext c w (MCancel n :: MFailStart n gen (Sentinel ErrStartTimeout) :: [MGo (MDrainResult n); MReturn (Some (Sentinel ErrStartTimeout))])
  | ByContext => if bool_decide (n ∈ w_cancelled w) then mnext c (emit w [Abandoned n]) (failed (Sentinel ErrCanceled)) else None
  end.

Definition routes_step (c : controller) (w : mworld) (n : nat) (gen : Z) (x : nat) (ev : menv) : moutcome :=
  mnext c w match me_error ev with Some e => [MCloseRuntime x; MFailStart n gen e; MReturn (Some e)] | None => [MPublish n gen x] end.

Definition publish_step (c : controller) (w : mworld) (n : nat) (gen : Z) (x : nat) (ev : menv) : moutcome :=
  if negb (c_generation c =? gen) || negb (bool_decide (c_state c = Starting)) then mnext c w [MCloseRuntime x; MReturn (Some (Sentinel ErrCanceled))]
  else
    let c := set_runtime c (Some x) (me_address ev) (me_carrier ev) in
    if bool_decide (me_address ev = []) || bool_decide (me_carrier ev = [])
    then mnext c w [MCloseRuntime x; MFailStart n gen (Sentinel ErrTunnelNotConnected); MReturn (Some (Sentinel ErrTunnelNotConnected))]
    else mnext (set_state c Connected (c_lastErr c)) w [MGo (MMonitor n gen x); MReturn None].

Definition failStart (c : controller) (w : mworld) (n : nat) (gen : Z) (e : error) : moutcome :=
  mnext (if c_generation c =? gen then set_cancel (set_state c Failed (Some e)) None else c) w [MCloseDone n].

(** The goroutine that a timed out start leaves behind. *)
Definition drain_result (c : controller) (w : mworld) (n : nat) : moutcome :=
  match w_results w !! n with
  | None => None
  | Some result =>
      let w := set_results w (w_runtimes w) (delete n (w_results w)) in
      match result with
      | NoConnection | ConnectFailed false _ => mnext c w []
      | ConnectFailed true _ => mnext c (emit w [NilDereferenced]) []
      | ConnectedTo x => mnext c w [MCloseRuntime x]
      end
  end.

(** *** [setClientRoutesJSON] *)

(** [decoded] is what encoding/json makes of the text. *)
Definition setClientRoutesJSON (c : controller) (raw : list byte) (decoded : option (list Route)) : controller * option error :=
  if (len raw =? 0) || (MaxCatalogPayload <? len raw) then (c, Some (Sentinel ErrInvalidClientRoutes))
  else match decoded with
       | None => (c, Some (Sentinel ErrInvalidClientRoutes))
       | Some routes =>
           match NewClientRoutePolicy routes with
           | Err e => (c, Some e)
           | Ok policy => if busy (c_state c) then (c, Some (Sentinel ErrAlreadyRunning)) else (set_routes c policy, None)
           end
       end.

(** *** [startTunnel] *)

(** A descriptor, or the device of [startTunnelDevice]; a runtime of
    [connectRuntime] has both methods. *)
Definition startTunnel (c : controller) (valid : bool) : list minstr :=
  if negb valid then [MReturn (Some (Sentinel ErrInvalidTunnelFD))]
  else if bool_decide (c_state c = Running) then [MReturn (Some (Sentinel ErrTunnelAlreadyStarted))]
  else match c_runtime c with
       | Some x => if bool_decide (c_state c = Connected) then [MTunnel x (c_generation c)] else [MReturn (Some (Sentinel ErrTunnelNotConnected))]
       | None => [MReturn (Some (Sentinel ErrTunnelNotConnected))]
       end.

Definition tunnel_failed (c : controller) (w : mworld) (x : nat) (gen : Z) (e : error) : moutcome :=
  mnext (if c_generation c =? gen then set_state c Failed (Some e) else c) w
    ((match c_cancel c with Some n => [MCancel n] | None => [] end) ++ [MCloseRuntime x; MReturn (Some e)]).

Definition tunnel_started (c : controller) (w : mworld) (x : nat) (gen : Z) : moutcome :=
  if negb (c_generation c =? gen) || negb (bool_decide (c_state c = Connected)) then mnext c w [MCloseRuntime x; MReturn (Some (Sentinel ErrCanceled))]
  else mnext (set_state c Running (c_lastErr c)) w [MReturn None].

(** *** [monitor] *)

(** [Wait] returns when the runtime has ended or the context is cancelled. *)
Definition monitor_step (c : controller) (w : mworld) (n : nat) (gen : Z) (x : nat) (ev : menv) : moutcome :=
  match me_choice ev with
  | ByContext => if bool_decide (n ∈ w_cancelled w) then mnext c w [MEnded n gen x (Some (Sentinel ErrCanceled))] else None
  | _ => match w_ended w !! x with Some e => mnext c w [MEnded n gen x e] | None => None end
  end.

Definition ended_step (c : controller) (w : mworld) (n : nat) (gen : Z) (x : nat) (e : option error) : moutcome :=
  let c' :=
    if c_generation c =? gen then
      let c := set_runtime (set_cancel c None) None [] [] in
      if bool_decide (c_state c = Failed) then c
      else match e with
           | Some e => if negb (bool_decide (n ∈ w_cancelled w)) && negb (errors_is e ErrCanceled) then set_state c Failed (Some e) else set_state c Stopped None
           | None => set_state c Stopped None
           end
    else c in
  mnext c' w [MCloseRuntime x; MCloseDone n].

(** *** [stop] *)

Definition stop (c : controller) : controller * list minstr :=
  match c_cancel c, c_runtime c with
  | None, None => (set_migration (set_state c Stopped None) (c_migrationCancel c) 0, [])
  | cancel, runtime =>
      let k := (match cancel with Some n => [MCancel n] | None => [] end) ++ (match c_migrationCancel c with Some k => [MCancelMigration k] | None => [] end)
        ++ (match runtime with Some x => [MGo (MCloseRuntime x)] | None => [] end) in
      let c := set_generation c None (c_coverMode c) in
      let c := set_runtime (set_state c Stopped None) None [] [] in
      (set_migration c None 0, k)
  end.

(** *** [networkChanged] *)

Definition networkChanged (c : controller) (w : mworld) : controller * mworld * list minstr :=
  let w := emit w [PreferencesReset] in
  let c := set_counters c (u64 (c_networkChanges c + 1)) (c_reconnects c) (c_migrations c) in
  if bool_decide (c_state c = Migrating) then (c, w, [MReturn (Some (Sentinel ErrMigrationInProgress))])
  else match c_runtime c with
       | Some x =>
           if bool_decide (c_state c = Running) then
             let k := w_changes w in
             (set_migration (set_state c Migrating (c_lastErr c)) (Some k) (c_migrationTimeout c), set_starts w (w_starts w) (S k), [MChange x (c_generation c)])
           else (c, w, [MReturn (Some (Sentinel ErrTunnelNotConnected))])
       | None => (c, w, [MReturn (Some (Sentinel ErrTunnelNotConnected))])
       end.

Definition changed_step (c : controller) (w : mworld) (x : nat) (gen : Z) (r : res migrationResult) (ev : menv) : moutcome :=
  if negb (c_generation c =? gen) || negb (bool_decide (c_runtime c = Some x)) then mnext c w [MReturn (Some (Sentinel ErrCanceled))]
  else
    let c := set_migration c None (c_migrationTimeout c) in
    let result := match r with Err e => Some e | Ok _ => None end in
    if negb (bool_decide (c_state c = Migrating)) then mnext c w [MReturn result]
    else match r with
         | Err e => mnext (set_state c Running (Some e)) w [MReturn (Some e)]
         | Ok m =>
             let c := set_runtime (set_state c Running None) (c_runtime c) (me_address ev) (me_carrier ev) in
             let c := set_counters c (c_networkChanges c) (if Reconnected m then u64 (c_reconnects c + 1) else c_reconnects c)
                        (if Migrated m || NativePath m then u64 (c_migrations c + 1) else c_migrations c) in
             mnext c w [MReturn None]
         end.

(** *** What the application asks *)

Definition carrierName (c : controller) (current : list byte) : list byte :=
  match c_runtime c with Some _ => if live (c_state c) && negb (bool_decide (current = [])) then current else c_carrier c | None => c_carrier c end.
Definition catalogJSON (c : controller) (fetched : res (list byte)) : res (list byte) :=
  match c_runtime c with Some _ => if live (c_state c) then fetched else Err ErrTunnelNotConnected | None => Err ErrTunnelNotConnected end.
Definition ask_traffic {A} (c : controller) (zero counted : A) : A :=
  match c_runtime c with Some _ => if live (c_state c) then counted else zero | None => zero end.

(** ** Execution *)

Definition mexec (c : controller) (w : mworld) (i : minstr) (ev : menv) : moutcome :=
  match i with
  | MConnect n => connect_step c w n ev
  | MSelect n gen routes => wait_step c w n gen routes ev
  | MRoutes n gen x _ => routes_step c w n gen x ev
  | MPublish n gen x => publish_step c w n gen x ev
  | MFailStart n gen e => failStart c w n gen e
  | MDrainResult n => drain_result c w n
  | MMonitor n gen x => monitor_step c w n gen x ev
  | MEnded n gen x e => ended_step c w n gen x e
  | MTunnel x gen => mnext c w [match me_error ev with Some e => MTunnelFailed x gen e | None => MTunnelStarted x gen end]
  | MTunnelFailed x gen e => tunnel_failed c w x gen e
  | MTunnelStarted x gen => tunnel_started c w x gen
  | MChange x gen => mnext c w [MChanged x gen (me_change ev)]
  | MChanged x gen r => changed_step c w x gen r ev
  | MCancel n => mnext c (cancel_context w n) []
  | MCancelMigration k => mnext c (emit w [MigrationCancelled k]) []
  | MCloseRuntime x => mnext c (emit (runtime_ends w x None) [RuntimeClosed x]) []
  | MCloseDone n => mnext c (emit w [DoneClosed n]) []
  | MReturn e => mnext c (emit w [CallReturned e]) []
  | MGo i => Some (c, w, [], [[i]])
  end.

Definition msystem : Type := controller * mworld * list (list minstr).

Definition mthread_step (y : msystem) (t : nat) (ev : menv) : option msystem :=
  let '(c, w, threads) := y in
  match threads !! t with
  | Some (i :: rest) => '(c, w, k, started) ← mexec c w i ev; Some (c, w, <[t := k ++ rest]> threads ++ started)
  | _ => None
  end.

(** The calls of the application, the ends of runtimes and the goroutines. *)
Inductive msystem_step : msystem -> msystem -> Prop :=
| ms_thread y t ev y' : mthread_step y t ev = Some y' -> msystem_step y y'
| ms_ends c w threads x e : msystem_step (c, w, threads) (c, runtime_ends w x e, threads)
| ms_start c w threads parsed : msystem_step (c, w, threads) ((start c w parsed).1.1, (start c w parsed).1.2, threads ++ [(start c w parsed).2])
| ms_routes c w threads raw decoded : msystem_step (c, w, threads) ((setClientRoutesJSON c raw decoded).1, emit w [CallReturned (setClientRoutesJSON c raw decoded).2], threads)
| ms_tunnel c w threads valid : msystem_step (c, w, threads) (c, w, threads ++ [startTunnel c valid])
| ms_change c w threads : msystem_step (c, w, threads) ((networkChanged c w).1.1, (networkChanged c w).1.2, threads ++ [(networkChanged c w).2])
| ms_stop c w threads : msystem_step (c, w, threads) ((stop c).1, w, threads ++ [(stop c).2]).

Definition idle_system : msystem := (newController, mkWorld 0 0 0 ∅ ∅ ∅ [], []).

(** ** Who answers for a runtime *)

(** A goroutine that will close the runtime, one that will take the result of a
    start, the connector of a start; the start of a generation, the watcher of a
    runtime and the network change on it; the [done] channel that will be
    closed. *)
Fixpoint closes (x : nat) (i : minstr) : bool :=
  match i with
  | MRoutes _ _ y _ | MPublish _ _ y | MMonitor _ _ y | MEnded _ _ y _ | MCloseRuntime y => bool_decide (x = y)
  | MGo j => closes x j
  | _ => false
  end.
Fixpoint takes (n : nat) (i : minstr) : bool :=
  match i with MSelect m _ _ | MDrainResult m => bool_decide (n = m) | MGo j => takes n j | _ => false end.
Fixpoint connecting (i : minstr) : option nat := match i with MConnect n => Some n | MGo j => connecting j | _ => None end.
Fixpoint starting (gen : Z) (i : minstr) : bool :=
  match i with MSelect _ g _ | MRoutes _ g _ _ | MPublish _ g _ | MFailStart _ g _ => bool_decide (gen = g) | MGo j => starting gen j | _ => false end.
Fixpoint monitors (gen : Z) (x : nat) (i : minstr) : bool :=
  match i with MMonitor _ g y | MEnded _ g y _ => bool_decide (gen = g /\ x = y) | MGo j => monitors gen x j | _ => false end.
Fixpoint changes (gen : Z) (x : nat) (i : minstr) : bool :=
  match i with MChange y g | MChanged y g _ => bool_decide (gen = g /\ x = y) | MGo j => changes gen x j | _ => false end.
Fixpoint dones (i : minstr) : option nat :=
  match i with
  | MSelect n _ _ | MRoutes n _ _ _ | MPublish n _ _ | MFailStart n _ _ | MMonitor n _ _ | MEnded n _ _ _ | MCloseDone n => Some n
  | MGo j => dones j
  | _ => None
  end.
Definition done_closed (e : mevent) : option nat := match e with DoneClosed n => Some n | _ => None end.

(** The controller and what its goroutines have left to do, [M] in all. *)
Record minv (c : controller) (w : mworld) (M : list minstr) : Prop := {
  mi_runtimes : forall x, (x < w_runtimes w)%nat -> RuntimeClosed x ∈ w_log w \/ some_of (closes x) M \/
    exists n, w_results w !! n = Some (ConnectedTo x) /\ (some_of (takes n) M \/ Abandoned n ∈ w_log w);
  mi_pending : forall n, n ∈ omap connecting M -> w_results w !! n = None /\ (some_of (takes n) M \/ Abandoned n ∈ w_log w);
  mi_connecting : NoDup (omap connecting M);
  mi_dones : NoDup (omap dones M ++ omap done_closed (w_log w));
  mi_starts : forall n, is_Some (w_results w !! n) \/ n ∈ omap connecting M \/ n ∈ omap dones M ++ omap done_closed (w_log w) -> (n < w_starts w)%nat;
  mi_live : live (c_state c) = true -> exists x, c_runtime c = Some x /\ some_of (monitors (c_generation c) x) M;
  mi_migrating : c_state c = Migrating -> forall x, c_runtime c = Some x -> some_of (changes (c_generation c) x) M;
  mi_starting : c_state c = Starting -> some_of (starting (c_generation c)) M
}.

Lemma minv_perm c w M M' : M ≡ₚ M' -> minv c w M -> minv c w M'.
Proof.
  intros H [P1 P2 P3 P4 P5 P6 P7 P8]. assert (Hs : forall p : minstr -> bool, some_of p M -> some_of p M') by (intros p; by apply some_of_perm). constructor.
  - intros x Hx. destruct (P1 x Hx) as [|[|(n & E & [|])]]; [auto|auto| |]; right; right; exists n; auto.
  - intros n Hn. rewrite <- H in Hn. destruct (P2 n Hn) as [? [|]]; auto.
  - by rewrite <- H.
  - by rewrite <- H.
  - intros n Hn. apply P5. by rewrite H.
  - intros Hl. destruct (P6 Hl) as (x & ? & ?). exists x. auto.
  - intros Hm x Hx. auto.
  - auto.
Qed.

(** What one instruction [i] replaced by [k] must guarantee, [E] being the new
    events. *)
Record mmoved (c c' : controller) (w w' : mworld) (i : minstr) (k : list minstr) (E : list mevent) : Prop := {
  mm_log : w_log w' = w_log w ++ E;
  mm_starts : (w_starts w <= w_starts w')%nat;
  mm_closes : forall x, closes x i = true -> RuntimeClosed x ∈ E \/ some_of (closes x) k;
  mm_results : forall n x, w_results w !! n = Some (ConnectedTo x) -> w_results w' !! n = Some (ConnectedTo x) \/ some_of (closes x) k \/ RuntimeClosed x ∈ E;
  mm_connected : forall x, (w_runtimes w <= x < w_runtimes w')%nat -> exists n, w_results w' !! n = Some (ConnectedTo x) /\ connecting i = Some n;
  mm_takes : forall n, takes n i = true -> some_of (takes n) k \/ Abandoned n ∈ E \/ (is_Some (w_results w !! n) /\ w_results w' !! n = None);
  mm_none : forall n, is_Some (w_results w' !! n) -> is_Some (w_results w !! n) \/ connecting i = Some n;
  mm_connecting : omap connecting k = [] \/ (omap connecting k = omap connecting [i] /\ w_results w' = w_results w) \/
    (omap connecting [i] = [] /\ omap connecting k = [w_starts w] /\ (w_starts w < w_starts w')%nat /\ some_of (takes (w_starts w)) k);
  mm_dones : omap dones k ++ omap done_closed E = [] \/ omap dones k ++ omap done_closed E = omap dones [i] \/
    (omap dones [i] = [] /\ omap dones k = [w_starts w] /\ omap done_closed E = [] /\ (w_starts w < w_starts w')%nat);
  mm_live : live (c_state c') = true -> (exists x, c_runtime c' = Some x /\ some_of (monitors (c_generation c') x) k) \/
    (live (c_state c) = true /\ c_runtime c' = c_runtime c /\ c_generation c' = c_generation c /\ forall x, monitors (c_generation c) x i = true -> some_of (monitors (c_generation c) x) k);
  mm_migrating : c_state c' = Migrating -> (forall x, c_runtime c' = Some x -> some_of (changes (c_generation c') x) k) \/
    (c_state c = Migrating /\ c_runtime c' = c_runtime c /\ c_generation c' = c_generation c /\ forall x, c_runtime c = Some x -> changes (c_generation c) x i = true -> some_of (changes (c_generation c) x) k);
  mm_starting : c_state c' = Starting -> some_of (starting (c_generation c')) k \/
    (c_state c = Starting /\ c_generation c' = c_generation c /\ (starting (c_generation c) i = true -> some_of (starting (c_generation c)) k))
}.

(** An instruction that takes does not connect. *)
Lemma connecting_takes n i : connecting i = Some n -> takes n i = false.
Proof. induction i; cbn; intros H; try done. by apply IHi. Qed.

Lemma minv_moved c c' w w' i k E R : minv c w (i :: R) -> mmoved c c' w w' i k E -> minv c' w' (k ++ R).
Proof.
  intros [P1 P2 P3 P4 P5 P6 P7 P8] [V1 V2 V3 V4 V5 V6 V7 V8 V9 V10 V11 V12].
  assert (Hl : forall p : minstr -> bool, some_of p k -> some_of p (k ++ R)) by (intros; apply some_of_app; auto).
  assert (Hr : forall p : minstr -> bool, some_of p R -> some_of p (k ++ R)) by (intros; apply some_of_app; auto).
  change (i :: R) with ([i] ++ R) in P2, P3, P4, P5. rewrite omap_app in P2, P3, P4. rewrite !omap_app in P5. pose proof P3 as (C1 & C2 & C3)%NoDup_app. rewrite <- app_assoc in P4. pose proof P4 as (D1 & D2 & D3)%NoDup_app.
  assert (Ht : forall n, some_of (takes n) (i :: R) \/ Abandoned n ∈ w_log w -> (some_of (takes n) (k ++ R) \/ Abandoned n ∈ w_log w') \/ (is_Some (w_results w !! n) /\ w_results w' !! n = None)).
  { intros n [[Hi|Hi]%some_of_cons|Hi]; [|auto|left; right; rewrite V1; apply elem_of_app; auto]. destruct (V6 n Hi) as [|[|]]; [auto|left; right; rewrite V1; apply elem_of_app; auto|auto]. }
  assert (Hin : forall n, connecting i = Some n -> n ∈ omap connecting [i]) by (intros n Hn; cbn; rewrite Hn; by left).
  assert (Hf : ~ (is_Some (w_results w !! w_starts w) \/ w_starts w ∈ omap connecting [i] ++ omap connecting R \/ w_starts w ∈ (omap dones [i] ++ omap dones R) ++ omap done_closed (w_log w))) by (intros Hh; apply P5 in Hh; lia).
  rewrite !elem_of_app in Hf. constructor.
  - intros x Hx. destruct (decide (x < w_runtimes w)%nat) as [Hs|Hs].
    + destruct (P1 x Hs) as [Hc|[[Hc|Hc]%some_of_cons|(n & Hn & Ht0)]].
      * left. rewrite V1. apply elem_of_app. auto.
      * destruct (V3 x Hc); [left; rewrite V1; apply elem_of_app; auto|auto].
      * auto.
      * destruct (V4 n x Hn) as [Hn'|[|]]; [|auto|left; rewrite V1; apply elem_of_app; auto]. right; right. exists n. split; [done|].
        destruct (Ht n Ht0) as [|[_ E']]; [done|congruence].
    + destruct (V5 x) as (n & Hn & Hi); [lia|]. right; right. exists n. split; [done|]. destruct (P2 n) as [Hnone Ht0]; [apply elem_of_app; auto|].
      destruct (Ht n Ht0) as [|[[? E'] _]]; [done|congruence].
  - intros n Hn. rewrite omap_app in Hn. apply elem_of_app in Hn as [Hn|Hn].
    + destruct V8 as [E0|[[E0 E1]|(E0 & E1 & E2 & E3)]]; [rewrite E0 in Hn; by apply not_elem_of_nil in Hn| |].
      * rewrite E0 in Hn. destruct (P2 n) as [Hnone Ht0]; [apply elem_of_app; auto|]. rewrite E1. split; [done|]. destruct (Ht n Ht0) as [|[[? E'] _]]; [done|congruence].
      * rewrite E1 in Hn. apply list_elem_of_singleton in Hn as ->. split; [|auto]. apply eq_None_not_Some. intros Hs. destruct (V7 _ Hs) as [Hs'|Hs']; [|by apply Hin in Hs'; rewrite E0 in Hs'; apply not_elem_of_nil in Hs'].
        tauto.
    + destruct (P2 n) as [Hnone Ht0]; [apply elem_of_app; auto|]. split.
      * apply eq_None_not_Some. intros Hs. destruct (V7 _ Hs) as [[? Hs']|Hs']; [congruence|]. apply (C2 n); auto.
      * destruct (Ht n Ht0) as [|[[? E'] _]]; [done|congruence].
  - rewrite omap_app. apply NoDup_app. destruct V8 as [-> |[[-> _]|(E0 & -> & E2 & _)]].
    + split_and!; [apply NoDup_nil_2|by intros ? ?%not_elem_of_nil|done].
    + done.
    + split_and!; [apply NoDup_singleton| |done]. intros n ->%list_elem_of_singleton Hn. tauto.
  - rewrite V1, !omap_app. assert (Hp : (omap dones k ++ omap dones R) ++ omap done_closed (w_log w) ++ omap done_closed E ≡ₚ (omap dones k ++ omap done_closed E) ++ omap dones R ++ omap done_closed (w_log w)) by solve_Permutation.
    rewrite Hp. destruct V9 as [-> |[-> |(E0 & E1 & E2 & E3)]]; [done|done|]. rewrite E1, E2. apply NoDup_app. split_and!; [apply NoDup_singleton| |done]. intros n ->%list_elem_of_singleton Hn. rewrite elem_of_app in Hn. tauto.
  - intros n Hn. destruct (decide (n < w_starts w)%nat); [lia|]. assert (Hno : ~ (is_Some (w_results w !! n) \/ n ∈ omap connecting [i] ++ omap connecting R \/ n ∈ (omap dones [i] ++ omap dones R) ++ omap done_closed (w_log w))) by (intros Hh; apply P5 in Hh; lia).
    rewrite V1, !omap_app in Hn. rewrite !elem_of_app in Hn. rewrite !elem_of_app in Hno. destruct Hn as [Hn|[[Hn|Hn]|[[Hn|Hn]|[Hn|Hn]]]].
    + destruct (V7 n Hn) as [|Hs]; [tauto|]. apply Hin in Hs. tauto.
    + destruct V8 as [E0|[[E0 _]|(E0 & E1 & E2 & _)]]; [rewrite E0 in Hn; by apply not_elem_of_nil in Hn|rewrite E0 in Hn; tauto|rewrite E1 in Hn; apply list_elem_of_singleton in Hn; lia].
    + tauto.
    + destruct V9 as [E0|[E0|(E0 & E1 & E2 & E3)]]; [|assert (n ∈ omap dones [i]) by (rewrite <- E0; apply elem_of_app; auto); tauto|rewrite E1 in Hn; apply list_elem_of_singleton in Hn; lia]. apply app_eq_nil in E0 as [E0 _]. rewrite E0 in Hn. by apply not_elem_of_nil in Hn.
    + tauto.
    + tauto.
    + destruct V9 as [E0|[E0|(E0 & E1 & E2 & E3)]]; [|assert (n ∈ omap dones [i]) by (rewrite <- E0; apply elem_of_app; auto); tauto|rewrite E2 in Hn; by apply not_elem_of_nil in Hn]. apply app_eq_nil in E0 as [_ E0]. rewrite E0 in Hn. by apply not_elem_of_nil in Hn.
  - intros Hc. destruct (V10 Hc) as [(x & ? & ?)|(H1 & -> & -> & H4)]; [exists x; auto|]. destruct (P6 H1) as (x & Hx & [Hm|Hm]%some_of_cons); exists x; auto.
  - intros Hc x Hx. destruct (V11 Hc) as [Hk|(H1 & E1 & -> & H4)]; [auto|]. rewrite E1 in Hx. destruct (proj1 (some_of_cons _ _ _) (P7 H1 x Hx)); auto.
  - intros Hc. destruct (V12 Hc) as [|(H1 & -> & H4)]; [auto|]. destruct (proj1 (some_of_cons _ _ _) (P8 H1)); auto.
Qed.

Ltac fact H := cbn in H; try (apply bool_decide_eq_true in H; try destruct H as [? ?]; subst).
Ltac field :=
  lazymatch goal with
  | |- w_log _ = _ => first [by rewrite app_nil_r | done]
  | |- (_ <= _)%nat => cbn; lia
  | |- forall x, closes _ _ = true -> _ => intros ? Hq; fact Hq; first [done | right; someone | left; by left]
  | |- forall n x, w_results _ !! n = _ -> _ => intros ? ? Hq; by left
  | |- forall x, (_ <= x < _)%nat -> _ => intros ? Hq; cbn in Hq; lia
  | |- forall n, takes n _ = true -> _ => intros ? Hq; fact Hq; first [done | left; someone | right; left; by left]
  | |- forall n, is_Some _ -> _ => intros ? Hq; by left
  | |- context [omap connecting] => first [by left | right; left; by split]
  | |- context [omap dones] => first [by left | right; by left]
  | |- live _ = true -> _ => intros Hq; cbn in Hq; first [done | right; split_and!; [done..|intros ? Hr; fact Hr; first [done|someone]]]
  | |- c_state _ = Migrating -> _ => intros Hq; cbn in Hq; first [done | right; split_and!; [done..|intros ? Hs Hr; fact Hr; first [done|someone]]]
  | |- c_state _ = Starting -> _ => intros Hq; cbn in Hq; first [done | right; split_and!; [done..|intros Hr; fact Hr; first [done|someone]]]
  end.

Lemma mexec_moved c w i ev c' w' k more : (forall n, connecting i = Some n -> w_results w !! n = None) -> mexec c w i ev = Some (c', w', k, more) -> exists E, mmoved c c' w w' i (k ++ concat more) E.
Proof.
  intros Hnone H. destruct i; cbn [mexec] in H.
  - unfold connect_step, mnext in H. cbv zeta in H. injection H as <- <- <- <-. exists []. pose proof (Hnone n eq_refl) as Hn. constructor; cbn [app concat]; try field.
    + cbn. intros m x Hx. left. rewrite lookup_insert_ne; [done|congruence].
    + cbn. intros x Hx. exists n. rewrite lookup_insert_eq. destruct (connectRuntime _ _ _) as [|y|] eqn:E; try lia. unfold connectRuntime in E. repeat case_match; simplify_eq. replace x with (w_runtimes w) by lia. done.
    + cbn. intros m [r Hr]. destruct (decide (m = n)) as [->|Hne]; [by right|left]. rewrite lookup_insert_ne in Hr by done. by eexists.
  - unfold wait_step, mnext in H. destruct (me_choice ev).
    + destruct (w_results w !! n) as [r|] eqn:Er; [|done]. injection H as <- <- <- <-. exists [].
      assert (Hd : forall m, is_Some (delete n (w_results w) !! m) -> is_Some (w_results w !! m)) by (intros m [z Hz]; apply lookup_delete_Some in Hz as [_ Hz]; by eexists).
      constructor; cbn [app concat]; try field.
      * cbn. intros m x Hx. destruct (decide (m = n)) as [->|]; [|left; by rewrite lookup_delete_ne]. right; left. rewrite Er in Hx. injection Hx as ->. destruct routes; someone.
      * cbn. intros m Hm. fact Hm. right; right. rewrite lookup_delete_eq. split; [by eexists|done].
      * cbn. intros m Hm. left. auto.
      * destruct r; [| |]; try field. destruct routes; field.
      * destruct r; [| |]; try field. destruct routes; field.
      * destruct r; [| |]; try field. destruct routes; field.
    + injection H as <- <- <- <-. exists []. constructor; cbn [app concat]; field.
    + case_bool_decide; [|done]. injection H as <- <- <- <-. exists [Abandoned n]. constructor; cbn [app concat]; field.
  - unfold routes_step, mnext in H. injection H as <- <- <- <-. exists []. destruct (me_error ev); constructor; cbn [app concat]; field.
  - unfold publish_step, mnext in H. destruct (negb _ || negb _) eqn:Eg.
    + injection H as <- <- <- <-. exists []. constructor; cbn [app concat]; try field. intros Hs. right. split_and!; try done. intros Hy. fact Hy. rewrite Hs, Z.eqb_refl in Eg. done.
    + cbv zeta in H. destruct (bool_decide _ || bool_decide _); injection H as <- <- <- <-; exists []; constructor; cbn [app concat]; try field.
      * cbn. intros Hl. apply orb_false_iff in Eg as [_ Eg]. rewrite negb_false_iff, bool_decide_eq_true in Eg. by rewrite Eg in Hl.
      * cbn. intros Hl. apply orb_false_iff in Eg as [_ Eg]. rewrite negb_false_iff, bool_decide_eq_true in Eg. by rewrite Eg in Hl.
      * cbn. intros _. left. exists x. split; [done|]. apply orb_false_iff in Eg as [Eg _]. rewrite negb_false_iff in Eg. apply Z.eqb_eq in Eg. someone.
  - unfold failStart, mnext in H. injection H as <- <- <- <-. exists []. destruct (c_generation c =? gen) eqn:Eg; constructor; cbn [app concat]; try field.
    intros Hs. right. split_and!; try done. intros Hy. fact Hy. by rewrite Z.eqb_refl in Eg.
  - unfold drain_result, mnext in H. destruct (w_results w !! n) as [r|] eqn:Er; [|done]. cbv zeta in H.
    assert (Hd : forall m, is_Some (delete n (w_results w) !! m) -> is_Some (w_results w !! m)) by (intros m [z Hz]; apply lookup_delete_Some in Hz as [_ Hz]; by eexists).
    assert (Hw : exists E, w' = emit (set_results w (w_runtimes w) (delete n (w_results w))) E /\ omap done_closed E = []  /\ c' = c /\ more = [] /\ (k = [] \/ exists x, k = [MCloseRuntime x]) /\ forall x, r = ConnectedTo x -> k = [MCloseRuntime x]).
    { destruct r as [|x|[|] e]; injection H as <- <- <- <-; [exists []|exists []|exists [NilDereferenced]|exists []]; (split; [try done; by unfold emit; cbn; rewrite app_nil_r; destruct w|]); split_and!; try done; eauto; intros ? [= ->]; done. }
    destruct Hw as (E & -> & He & -> & -> & Hk & Hx). exists E. rewrite app_nil_r. constructor; try field.
    + cbn. intros m x Hm. destruct (decide (m = n)) as [->|]; [|left; by rewrite lookup_delete_ne]. right; left. rewrite Er in Hm. injection Hm as ->. rewrite (Hx x eq_refl). someone.
    + intros m Hm. fact Hm. right; right. cbn. rewrite lookup_delete_eq. split; [by eexists|done].
    + intros m Hm. left. auto.
    + destruct Hk as [->|[x ->]]; by left.
    + left. rewrite He. destruct Hk as [->|[x ->]]; done.
  - unfold monitor_step, mnext in H. repeat case_match; simplify_eq; exists []; constructor; cbn [app concat]; field.
  - unfold ended_step, mnext in H. injection H as <- <- <- <-. exists []. destruct (c_generation c =? gen) eqn:Eg.
    + match goal with |- mmoved _ ?c1 _ _ _ _ _ => assert (Hs : c_state c1 = Failed \/ c_state c1 = Stopped); [|revert Hs; generalize c1; intros c1' Hs] end.
      { case_bool_decide; [by left|]. repeat case_match; auto. }
      constructor; cbn [app concat]; try field; intros Hl; destruct Hs as [E|E]; rewrite E in Hl; done.
    + constructor; cbn [app concat]; try field. intros Hl. right. split_and!; try done. intros y Hy. fact Hy. by rewrite Z.eqb_refl in Eg.
  - unfold mnext in H. injection H as <- <- <- <-. exists []. destruct (me_error ev); constructor; cbn [app concat]; field.
  - unfold tunnel_failed, mnext in H. injection H as <- <- <- <-. exists []. rewrite app_nil_r. destruct (c_generation c =? gen), (c_cancel c); constructor; cbn [app]; field.
  - unfold tunnel_started, mnext in H. destruct (negb _ || negb _) eqn:Eg; injection H as <- <- <- <-; exists []; constructor; cbn [app concat]; try field.
    cbn. intros _. right. apply orb_false_iff in Eg as [_ Eg]. rewrite negb_false_iff, bool_decide_eq_true in Eg. rewrite Eg. by split_and!.
  - unfold mnext in H. injection H as <- <- <- <-. exists []. constructor; cbn [app concat]; field.
  - unfold changed_step, mnext in H. destruct (negb _ || negb _) eqn:Eg; [|cbv zeta in H; destruct (negb (bool_decide (c_state _ = Migrating))) eqn:Em].
    + injection H as <- <- <- <-. exists []. constructor; cbn [app concat]; try field. intros Hm. right. split_and!; try done. intros y Hz Hy. fact Hy. rewrite Z.eqb_refl, bool_decide_true in Eg by done. done.
    + injection H as <- <- <- <-. exists []. constructor; cbn [app concat]; try field. cbn. intros Hm. rewrite negb_true_iff, bool_decide_eq_false in Em. done.
    + rewrite negb_false_iff, bool_decide_eq_true in Em. cbn in Em. destruct r; injection H as <- <- <- <-; exists []; constructor; cbn [app concat]; try field.
      * intros _. right. rewrite Em. by split_and!.
      * intros _. right. rewrite Em. by split_and!.
  - unfold mnext in H. injection H as <- <- <- <-. exists []. constructor; cbn [app concat]; field.
  - unfold mnext in H. injection H as <- <- <- <-. eexists. constructor; cbn [app concat]; [reflexivity|field..].
  - unfold mnext in H. injection H as <- <- <- <-. eexists. constructor; cbn [app concat]; [reflexivity|field..].
  - unfold mnext in H. injection H as <- <- <- <-. eexists. constructor; cbn [app concat]; [reflexivity|field..].
  - unfold mnext in H. injection H as <- <- <- <-. eexists. constructor; cbn [app concat]; [reflexivity|field..].
  - injection H as <- <- <- <-. exists []. constructor; cbn [app concat]; try field.
    + intros x Hx. right. by apply some_here.
    + intros x Hx. left. by apply some_here.
    + right; left. by rewrite app_nil_r.
    + intros Hl. right. split_and!; try done. intros x Hx. by apply some_here.
    + intros Hl. right. split_and!; try done. intros x _ Hx. by apply some_here.
    + intros Hl. right. split_and!; try done. intros Hx. by apply some_here.
Qed.

Lemma mexec_inv c w i ev c' w' k more R : minv c w (i :: R) -> mexec c w i ev = Some (c', w', k, more) -> minv c' w' ((k ++ concat more) ++ R).
Proof.
  intros H Hx. destruct (mexec_moved c w i ev c' w' k more) as [E Hm]; [|done|by eapply minv_moved].
  intros n Hn. apply (mi_pending _ _ _ H). cbn. rewrite Hn. by left.
Qed.

(** A call adds what it has to do. *)
Lemma minv_dummy c w M : minv c w M -> minv c w (MReturn None :: M).
Proof.
  intros [P1 P2 P3 P4 P5 P6 P7 P8]. assert (Hs : forall p : minstr -> bool, some_of p M -> some_of p (MReturn None :: M)) by (intros; by apply some_later). constructor; try done.
  - intros x Hx. destruct (P1 x Hx) as [|[|(n & E & [|])]]; [auto|auto| |]; right; right; exists n; auto.
  - intros n Hn. destruct (P2 n Hn) as [? [|]]; auto.
  - intros Hl. destruct (P6 Hl) as (x & ? & ?). exists x. auto.
  - intros Hm x Hx. auto.
  - auto.
Qed.

Lemma minv_called c w c' w' threads k E : minv c w (concat threads) -> mmoved c c' w w' (MReturn None) k E -> minv c' w' (concat (threads ++ [k])).
Proof.
  intros H Hm. rewrite concat_app. cbn [concat]. rewrite app_nil_r. eapply minv_perm; [apply Permutation_app_comm|]. eapply minv_moved; [by apply minv_dummy|exact Hm].
Qed.

Lemma minv_world c w w' M E : minv c w M -> mmoved c c w w' (MReturn None) [] E -> minv c w' M.
Proof. intros H Hm. change M with ([] ++ M). eapply minv_moved; [by apply minv_dummy|exact Hm]. Qed.

Lemma mstep_inv y y' : msystem_step y y' -> minv y.1.1 y.1.2 (concat y.2) -> minv y'.1.1 y'.1.2 (concat y'.2).
Proof.
  intros Hs H. destruct Hs as [[[c w] threads] t ev y' Ht|c w threads x e|c w threads parsed|c w threads raw decoded|c w threads valid|c w threads|c w threads]; cbn [fst snd] in *.
  - cbn in Ht. destruct (threads !! t) as [[|i rest]|] eqn:El; [done| |done]. destruct (mexec c w i ev) as [[[[c1 w1] k] started]|] eqn:Ex; [|done]. cbn in Ht. injection Ht as <-. cbn [fst snd].
    destruct (concat_lookup _ _ _ _ El) as (M & H1 & H2). eapply minv_perm; [symmetry; apply H2|]. eapply mexec_inv; [by eapply minv_perm|exact Ex].
  - eapply (minv_world _ _ _ _ [] H). constructor; field.
  - unfold start. destruct parsed as [[mode deadline]|e]; [destruct (busy (c_state c)) eqn:Eb|]; cbn [fst snd]; eapply (minv_called _ _ _ _ _ _ [] H); constructor; try field.
    + cbn. right; right. split_and!; try done; [lia|someone].
    + cbn. right; right. split_and!; try done. lia.
    + intros _. left. someone.
  - set (e := (setClientRoutesJSON c raw decoded).2). assert (Hw : minv c (emit w [CallReturned e]) (concat threads)) by (eapply (minv_world _ _ _ _ [CallReturned e] H); constructor; field).
    clear H. revert Hw. generalize (emit w [CallReturned e]). clear e. intros w' Hw. unfold setClientRoutesJSON. repeat (case_match; try exact Hw). destruct Hw. by constructor.
  - eapply (minv_called _ _ _ _ _ _ [] H). unfold startTunnel. repeat case_match; constructor; field.
  - unfold networkChanged. cbv zeta. destruct (bool_decide (c_state _ = Migrating)) eqn:Em; [|destruct (c_runtime _) as [x|] eqn:Er; [destruct (bool_decide (c_state _ = Running)) eqn:Ec|]]; cbn [fst snd]; eapply (minv_called _ _ _ _ _ _ [PreferencesReset] H); constructor; try field.
    + cbn. intros _. right. rewrite bool_decide_eq_true in Ec. cbn in Ec. by rewrite Ec.
    + cbn in *. intros _. left. intros y Hy. rewrite Er in Hy. injection Hy as ->. someone.
  - unfold stop. assert (Hk : forall (a b : option nat) d, minv (set_migration (set_runtime (set_state (set_generation c None (c_coverMode c)) Stopped None) None [] []) None 0) w
      (concat (threads ++ [(match a with Some n => [MCancel n] | None => [] end) ++ (match b with Some k => [MCancelMigration k] | None => [] end) ++ (match d with Some x => [MGo (MCloseRuntime x)] | None => [] end)]))).
    { intros a b d. eapply (minv_called _ _ _ _ _ _ [] H). destruct a, b, d; constructor; field. }
    specialize (Hk (c_cancel c) (c_migrationCancel c) (c_runtime c)). destruct (c_cancel c) as [n|], (c_runtime c) as [x|]; try exact Hk.
    eapply (minv_called _ _ _ _ _ _ [] H). constructor; field.
Qed.

Lemma idle_inv : minv newController idle_system.1.2 [].
Proof.
  constructor; cbn; try done; try apply NoDup_nil_2.
  - intros x Hx. lia.
  - by intros n ?%not_elem_of_nil.
  - intros n [[? Hn]|[Hn|Hn]]; [done|by apply not_elem_of_nil in Hn..].
Qed.

Lemma msteps_inv y : rtc msystem_step idle_system y -> minv y.1.1 y.1.2 (concat y.2).
Proof.
  assert (Hg : forall y0 y, rtc msystem_step y0 y -> minv y0.1.1 y0.1.2 (concat y0.2) -> minv y.1.1 y.1.2 (concat y.2)) by (induction 1 as [|y0 y1 y2 Hs _ IH]; [done|]; intros H; apply IH; by eapply mstep_inv).
  intros Hr. by apply (Hg _ _ Hr), idle_inv.
Qed.

(** *** Why a run is over *)

(** The last error belongs to the state. *)
Definition error_ok (c : controller) : Prop :=
  match c_state c with Stopped | Starting | Connected => c_lastErr c = None | Failed => is_Some (c_lastErr c) | _ => True end.

(** What a monitor brings home: the error of its runtime, which has ended, or
    its own context is cancelled. *)
Fixpoint ended_ok (w : mworld) (i : minstr) : Prop :=
  match i with MEnded n _ x e => w_ended w !! x = Some e \/ n ∈ w_cancelled w | MGo j => ended_ok w j | _ => True end.

Definition world_le (w w' : mworld) : Prop := (forall x e, w_ended w !! x = Some e -> w_ended w' !! x = Some e) /\ w_cancelled w ⊆ w_cancelled w'.

Lemma ended_ok_mono w w' i : world_le w w' -> ended_ok w i -> ended_ok w' i.
Proof. intros [H1 H2]. induction i; cbn; try done. intros [H|H]; [left; auto|right; set_solver]. Qed.

Lemma world_le_same w w' : w_ended w' = w_ended w -> w_cancelled w' = w_cancelled w -> world_le w w'.
Proof. by intros E1 E2; split; rewrite ?E1, ?E2. Qed.

Lemma runtime_ends_le w x e E : world_le w (emit (runtime_ends w x e) E).
Proof.
  split; cbn; [|done]. intros y z Hy. destruct (w_ended w !! x) eqn:Ex; [done|]. rewrite lookup_insert_ne; [done|congruence].
Qed.


Lemma mexec_world c w i ev c' w' k more : mexec c w i ev = Some (c', w', k, more) -> ended_ok w i -> world_le w w' /\ Forall (ended_ok w') (k ++ concat more).
Proof.
  intros H Hi. destruct i; cbn [mexec] in H;
    unfold connect_step, wait_step, routes_step, publish_step, failStart, drain_result, monitor_step, ended_step, tunnel_failed, tunnel_started, changed_step, mnext in H; cbv zeta in H.
  all: try (repeat (case_match; try done); injection H as <- <- <- <-; (split; [by apply world_le_same|]); try (by repeat constructor); fail).
  - repeat (case_match; try done); injection H as <- <- <- <-; (split; [by apply world_le_same|]); (apply Forall_cons; split; [|constructor]); cbn; first [by left|right; by eapply bool_decide_eq_true].
  - injection H as <- <- <- <-. split; [split; cbn; [done|set_solver]|constructor].
  - injection H as <- <- <- <-. split; [apply runtime_ends_le|constructor].
Qed.

(** How the controller stops being busy. *)
Definition run_ends (c : controller) (w : mworld) (i : minstr) (c' : controller) : Prop :=
  match i with
  | MFailStart _ gen e | MTunnelFailed _ gen e => gen = c_generation c /\ c_state c' = Failed /\ c_lastErr c' = Some e
  | MEnded n gen x e =>
      gen = c_generation c /\ (w_ended w !! x = Some e \/ n ∈ w_cancelled w) /\
      if (match e with Some e => negb (errors_is e ErrCanceled) | None => false end) && negb (bool_decide (n ∈ w_cancelled w))
      then c_state c' = Failed /\ c_lastErr c' = e else c_state c' = Stopped /\ c_lastErr c' = None
  | _ => False
  end.

(** The generation an instruction works for. *)
Definition generation_of (i : minstr) : option Z :=
  match i with
  | MSelect _ gen _ | MRoutes _ gen _ _ | MPublish _ gen _ | MFailStart _ gen _ | MMonitor _ gen _ | MEnded _ gen _ _
  | MTunnel _ gen | MTunnelFailed _ gen _ | MTunnelStarted _ gen | MChange _ gen | MChanged _ gen _ => Some gen
  | _ => None
  end.

Lemma mexec_ends c w i ev c' w' k more : mexec c w i ev = Some (c', w', k, more) -> ended_ok w i -> error_ok c ->
  error_ok c' /\ (busy (c_state c) = true -> busy (c_state c') = false -> run_ends c w i c') /\
  (busy (c_state c) = false -> busy (c_state c') = false) /\
  (generation_of i <> None -> generation_of i <> Some (c_generation c) -> c' = c).
Proof.
  intros H Hi He.
  assert (Hsame : c' = c -> error_ok c' /\ (busy (c_state c) = true -> busy (c_state c') = false -> run_ends c w i c') /\
    (busy (c_state c) = false -> busy (c_state c') = false) /\ (generation_of i <> None -> generation_of i <> Some (c_generation c) -> c' = c)).
  { intros ->. split_and!; try done. intros H1 H2. congruence. }
  destruct i; cbn [mexec] in H;
    unfold connect_step, wait_step, routes_step, publish_step, failStart, drain_result, monitor_step, ended_step, tunnel_failed, tunnel_started, changed_step, mnext in H; cbv zeta in H.
  all: try (apply Hsame; repeat (case_match; try done); injection H as <- <- <- <-; done).
  - destruct (negb _ || negb _) eqn:Eg; [apply Hsame; by injection H as <- <- <- <-|]. apply orb_false_iff in Eg as [Eg1 Eg2]. rewrite negb_false_iff in Eg1, Eg2. apply Z.eqb_eq in Eg1. apply bool_decide_eq_true in Eg2.
    unfold error_ok in *. rewrite Eg2 in He. destruct (_ || _) in H; injection H as <- <- <- <-; cbn; rewrite ?Eg2; split_and!; try done; intros _ Hg; by rewrite Eg1 in Hg.
  - destruct (Z.eqb_spec (c_generation c) gen) as [Eg|]; [|apply Hsame; by injection H as <- <- <- <-]. injection H as <- <- <- <-. cbn. split_and!; try done; try (by eexists). intros _ Hg. by rewrite Eg in Hg.
  - destruct (Z.eqb_spec (c_generation c) gen) as [Eg|]; [|apply Hsame; by injection H as <- <- <- <-]. cbn [ended_ok run_ends] in *. rewrite <- Eg.
    assert (Hgen : Some (c_generation c) <> Some (c_generation c) -> c' = c) by done. injection H as <- _ _ _.
    case_bool_decide as Ef; cbn [c_state set_runtime set_cancel] in Ef.
    + unfold error_ok in *. cbn. rewrite Ef in *. split_and!; try done. all: by cbn.
    + destruct e as [e|]; cbn; [|split_and!; done]. rewrite (andb_comm (negb (errors_is _ _))). destruct (negb (bool_decide _) && negb (errors_is _ _)) eqn:Ee; cbn; split_and!; try done; try (by eexists).
  - destruct (Z.eqb_spec (c_generation c) gen) as [Eg|]; [|apply Hsame; by injection H as <- <- <- <-]. injection H as <- <- <- <-. cbn. split_and!; try done; try (by eexists). intros _ Hg. by rewrite Eg in Hg.
  - destruct (negb _ || negb _) eqn:Eg; [apply Hsame; by injection H as <- <- <- <-|]. apply orb_false_iff in Eg as [Eg1 Eg2]. rewrite negb_false_iff in Eg1, Eg2. apply Z.eqb_eq in Eg1. apply bool_decide_eq_true in Eg2.
    injection H as <- <- <- <-. cbn. rewrite Eg2. split_and!; try done. intros _ Hg. by rewrite Eg1 in Hg.
  - destruct (negb _ || negb _) eqn:Eg; [apply Hsame; by injection H as <- <- <- <-|]. apply orb_false_iff in Eg as [Eg1 Eg2]. rewrite negb_false_iff in Eg1, Eg2. apply Z.eqb_eq in Eg1.
    cbn [c_state set_migration] in H. assert (Hg : Some gen <> None -> Some gen <> Some (c_generation c) -> c' = c) by (intros _ Hg; by rewrite Eg1 in Hg).
    destruct (bool_decide (c_state c = Migrating)) eqn:Em; cbn [negb] in H.
    + apply bool_decide_eq_true in Em. destruct r; injection H as <- <- <- <-; cbn; rewrite Em; by split_and!.
    + injection H as <- <- <- <-. cbn. split_and!; try done. intros H1 H2. congruence.
Qed.

Record mended (c : controller) (w : mworld) (M : list minstr) : Prop := { md_error : error_ok c; md_ended : Forall (ended_ok w) M }.

Lemma mended_thread c w threads t ev y' : mended c w (concat threads) -> mthread_step (c, w, threads) t ev = Some y' -> mended y'.1.1 y'.1.2 (concat y'.2).
Proof.
  intros [He Hw] Ht. cbn in Ht. destruct (threads !! t) as [[|i rest]|] eqn:El; [done| |done]. destruct (mexec c w i ev) as [[[[c1 w1] k] started]|] eqn:Ex; [|done]. cbn in Ht. injection Ht as <-. cbn [fst snd].
  destruct (concat_lookup _ _ _ _ El) as (M & H1 & H2). rewrite H1 in Hw. apply Forall_cons in Hw as [Hi Hw]. destruct (mexec_world _ _ _ _ _ _ _ _ Ex Hi) as [Hle Hk].
  constructor; [by apply (mexec_ends _ _ _ _ _ _ _ _ Ex Hi He)|]. rewrite (H2 k started). apply Forall_app. split; [done|]. eapply Forall_impl; [exact Hw|]. intros j. by apply ended_ok_mono.
Qed.

Lemma mended_called c w c' w' threads k : mended c w (concat threads) -> error_ok c' -> world_le w w' -> Forall (ended_ok w') k -> mended c' w' (concat (threads ++ [k])).
Proof.
  intros [_ Hw] He Hle Hk. constructor; [done|]. rewrite concat_app. cbn [concat]. rewrite app_nil_r. apply Forall_app. split; [|done].
  eapply Forall_impl; [exact Hw|]. intros j. by apply ended_ok_mono.
Qed.

Lemma mstep_ended y y' : msystem_step y y' -> mended y.1.1 y.1.2 (concat y.2) -> mended y'.1.1 y'.1.2 (concat y'.2).
Proof.
  intros Hs H. destruct Hs as [[[c w] threads] t ev y' Ht|c w threads x e|c w threads parsed|c w threads raw decoded|c w threads valid|c w threads|c w threads]; cbn [fst snd] in *.
  - by eapply mended_thread.
  - destruct H as [He Hw]. constructor; [done|]. eapply Forall_impl; [exact Hw|]. intros i. apply ended_ok_mono. split; cbn; [|done]. intros y z Hy. destruct (w_ended w !! x) eqn:Ex; [done|]. rewrite lookup_insert_ne; [done|congruence].
  - unfold start. destruct parsed as [[mode deadline]|e]; [destruct (busy (c_state c))|]; (eapply mended_called; [exact H|..|by repeat constructor]); cbn; try by apply world_le_same.
    1,3: exact (md_error _ _ _ H). done.
  - destruct H as [He Hw]. constructor; [|eapply Forall_impl; [exact Hw|]; intros i; apply ended_ok_mono; by apply world_le_same]. unfold setClientRoutesJSON. by repeat case_match.
  - eapply mended_called; [exact H|exact (md_error _ _ _ H)|by apply world_le_same|]. unfold startTunnel. repeat case_match; by repeat constructor.
  - pose proof (md_error _ _ _ H) as He. unfold networkChanged. cbv zeta. destruct (bool_decide (c_state _ = Migrating)) eqn:Em; [|destruct (c_runtime _) as [x|] eqn:Er; [destruct (bool_decide (c_state _ = Running)) eqn:Ec|]]; cbn [fst snd];
      (eapply mended_called; [exact H|try exact He; done|by apply world_le_same|by repeat constructor]).
  - eapply mended_called; [exact H| |by apply world_le_same|]; unfold stop; destruct (c_cancel c), (c_runtime c), (c_migrationCancel c); cbn; try done; by repeat constructor.
Qed.

Lemma msteps_ended y : rtc msystem_step idle_system y -> mended y.1.1 y.1.2 (concat y.2).
Proof.
  assert (Hg : forall y0 y, rtc msystem_step y0 y -> mended y0.1.1 y0.1.2 (concat y0.2) -> mended y.1.1 y.1.2 (concat y.2)) by (induction 1 as [|y0 y1 y2 Hs _ IH]; [done|]; intros H; apply IH; by eapply mstep_ended).
  intros Hr. apply (Hg _ _ Hr). constructor; [done|constructor].
Qed.

(** A call of [stop], or an instruction that ends the run. *)
Definition ended_by (c : controller) (w : mworld) (threads : list (list minstr)) (y' : msystem) : Prop :=
  y' = ((stop c).1, w, threads ++ [(stop c).2]) \/
  exists t ev i rest, threads !! t = Some (i :: rest) /\ mthread_step (c, w, threads) t ev = Some y' /\ run_ends c w i y'.1.1.

Lemma step_ends c w threads y' : mended c w (concat threads) -> msystem_step (c, w, threads) y' -> busy (c_state c) = true -> busy (c_state y'.1.1) = false -> ended_by c w threads y'.
Proof.
  intros [He Hw] Hs Hb Hb'. inversion Hs as [y t ev y2 Ht| | | | | |]; subst; cbn [fst snd] in *.
  - right. pose proof Ht as Ht'. cbn in Ht'. destruct (threads !! t) as [[|i rest]|] eqn:El; [done| |done]. destruct (mexec c w i ev) as [[[[c1 w1] k] started]|] eqn:Ex; [|done]. cbn in Ht'. injection Ht' as <-. cbn [fst snd] in *.
    destruct (concat_lookup _ _ _ _ El) as (M & H1 & _). rewrite H1 in Hw. apply Forall_cons in Hw as [Hi _]. exists t, ev, i, rest. split_and!; try done.
    by apply (mexec_ends _ _ _ _ _ _ _ _ Ex Hi He).
  - congruence.
  - unfold start in Hb'. destruct parsed as [[mode deadline]|e]; [|cbn in Hb'; congruence]. rewrite Hb in Hb'. cbn in Hb'. congruence.
  - unfold setClientRoutesJSON in Hb'. repeat case_match; cbn in Hb'; congruence.
  - congruence.
  - unfold networkChanged in Hb'. cbv zeta in Hb'. repeat case_match; cbn in Hb'; congruence.
  - by left.
Qed.

(** C38: A start, its runtime and its end.  Whatever the application calls in
    whatever order and whatever the goroutines and the environment do: every
    runtime a connector returned is closed, or in the hands of a goroutine that
    will close it, or it is the buffered result of a start that waits for it or
    was stopped before it took it; the [done] channel of a start is closed at most
    once; in the states connected, running and migrating the controller has a
    runtime that is watched, in migrating also a network change that will end the
    migration, and in the state starting a start is under way.  A busy state is
    left for stopped or failed only by [stop], by the failure of the start or of
    the tunnel of the current generation, with its error, or by the monitor of the
    current generation when its runtime has ended or its context is cancelled,
    with the error of the runtime or none as it ended; a goroutine of another
    generation changes no field; failed has an error, stopped has none. *)
Theorem mobile_accounts c w threads : rtc msystem_step idle_system (c, w, threads) ->
  (forall x, (x < w_runtimes w)%nat -> RuntimeClosed x ∈ w_log w \/ some_of (closes x) (concat threads) \/
    exists n, w_results w !! n = Some (ConnectedTo x) /\ (some_of (takes n) (concat threads) \/ Abandoned n ∈ w_log w)) /\
  NoDup (omap done_closed (w_log w)) /\
  (live (c_state c) = true -> exists x, c_runtime c = Some x /\ some_of (monitors (c_generation c) x) (concat threads) /\
    (c_state c = Migrating -> some_of (changes (c_generation c) x) (concat threads))) /\
  (c_state c = Starting -> some_of (starting (c_generation c)) (concat threads)) /\
  (forall y', msystem_step (c, w, threads) y' -> busy (c_state c) = true -> busy (c_state y'.1.1) = false -> ended_by c w threads y') /\
  (forall t ev y' i rest, threads !! t = Some (i :: rest) -> mthread_step (c, w, threads) t ev = Some y' ->
    generation_of i <> None -> generation_of i <> Some (c_generation c) -> y'.1.1 = c) /\
  error_ok c.
Proof.
  intros Hr. pose proof (msteps_ended _ Hr) as D. apply msteps_inv in Hr as [P1 P2 P3 P4 P5 P6 P7 P8]. cbn [fst snd] in *.
  split_and!; [done|by apply NoDup_app in P4 as (_ & _ & ?)| |done|intros y'; by apply step_ends| |exact (md_error _ _ _ D)].
  - intros Hl. destruct (P6 Hl) as (x & Hx & Hm). exists x. split_and!; auto.
  - intros t ev y' i rest El Ht Hg Hg'. cbn in Ht. rewrite El in Ht. destruct (mexec c w i ev) as [[[[c1 w1] k] started]|] eqn:Ex; [|done]. cbn in Ht. injection Ht as <-. cbn.
    destruct D as [He Hw]. destruct (concat_lookup _ _ _ _ El) as (M & H1 & _). rewrite H1 in Hw. apply Forall_cons in Hw as [Hi _].
    by apply (mexec_ends _ _ _ _ _ _ _ _ Ex Hi He).
Qed.

(** ** Examples *)

Module MobileExample.
Definition answers (choice : choice) (error : option error) : menv := mkMenv None error choice error [x31] [x32] (Ok (mkMigration false true true)).
Definition good : menv := answers ByResult None.
Definition bad : menv := answers ByResult (Some (External 4)).

Inductive act := Begin | Tunnel | Change | Halt | Go (t n : nat) (e : menv).
Fixpoint advance (n : nat) (t : nat) (e : menv) (y : msystem) : msystem :=
  match n with O => y | S n => match mthread_step y t e with Some y => advance n t e y | None => y end end.
Definition play (y : msystem) (a : act) : msystem :=
  let '(c, w, threads) := y in
  match a with
  | Begin => let '(c, w, k) := start c w (Ok ([x30], 1)) in (c, w, threads ++ [k])
  | Tunnel => (c, w, threads ++ [startTunnel c true])
  | Change => let '(c, w, k) := networkChanged c w in (c, w, threads ++ [k])
  | Halt => let '(c, k) := stop c in (c, w, threads ++ [k])
  | Go t n e => advance n t e y
  end.
Definition run (l : list act) : msystem := foldl play idle_system l.

(** A start: the call is goroutine 0, its connector goroutine 1, the monitor
    goroutine 2. *)
Definition started : list act := [Begin; Go 0 1 good; Go 1 1 good; Go 0 4 good].
Example started_run : c_state (run started).1.1 = Connected /\ (run started).2 = [[]; []; [MMonitor 0 1 0]] /\ w_log (run started).1.2 = [CallReturned None].
Proof. by vm_compute. Qed.

(** The whole life of a tunnel, with a change of the network. *)
Definition lived : list act := started ++ [Tunnel; Go 3 3 good; Change; Go 4 3 good; Halt; Go 5 2 good; Go 6 1 good; Go 2 4 (answers ByContext None)].
Example lived_run : let y := run lived in
  c_state y.1.1 = Stopped /\ concat y.2 = [] /\ c_reconnects y.1.1 = 1 /\ c_migrations y.1.1 = 1 /\
  w_log y.1.2 = [CallReturned None; CallReturned None; PreferencesReset; CallReturned None; RuntimeClosed 0; RuntimeClosed 0; DoneClosed 0].
Proof. by vm_compute. Qed.

(** [stop] while the connector returns: [select] takes the cancelled context, and
    nobody takes the runtime out of the channel. *)
Example stopped_start_leaks : let y := run [Begin; Go 0 1 good; Go 1 1 good; Halt; Go 2 1 good; Go 0 4 (answers ByContext None)] in
  concat y.2 = [] /\ w_runtimes y.1.2 = 1%nat /\ w_results y.1.2 !! 0%nat = Some (ConnectedTo 0) /\ forallb (fun e => match e with RuntimeClosed _ => false | _ => true end) (w_log y.1.2) = true.
Proof. by vm_compute. Qed.

(** A start times out, and then its connector fails after it was connected: the
    goroutine that is left closes a nil pointer. *)
Example late_failure_panics : let y := run [Begin; Go 0 1 good; Go 0 6 (answers ByTimer None); Go 1 1 bad; Go 2 1 good] in
  w_log y.1.2 = [DoneClosed 0; CallReturned (Some (Sentinel ErrStartTimeout)); NilDereferenced].
Proof. by vm_compute. Qed.

(** A [startTunnel] of a stopped generation fails while the next start connects,
    and cancels its context. *)
Example old_tunnel_cancels_new_start : let y := run (started ++ [Tunnel; Halt; Begin; Go 3 3 bad]) in
  c_state y.1.1 = Starting /\ c_cancel y.1.1 = Some 1%nat /\ w_cancelled y.1.2 = {[1%nat]}.
Proof. by vm_compute. Qed.

(** Of two concurrent calls of [startTunnel] the second gets an error, and ends the
    tunnel of the first. *)
Example second_tunnel_ends_first : let y := run (started ++ [Tunnel; Tunnel; Go 3 3 good; Go 4 4 (answers ByResult (Some (Sentinel ErrTunnelAlreadyStarted)))]) in
  c_state y.1.1 = Failed /\ w_log y.1.2 = [CallReturned None; CallReturned None; RuntimeClosed 0].
Proof. by vm_compute. Qed.

(** Every run is one of the system. *)
Lemma mobile_advances n t e y : rtc msystem_step y (advance n t e y).
Proof. revert y. induction n as [|n IH]; intros y; [done|]. cbn. destruct (mthread_step y t e) as [y'|] eqn:E; [|done]. eapply rtc_l; [by eapply ms_thread|apply IH]. Qed.
Lemma mobile_plays l : forall y, rtc msystem_step y (foldl play y l).
Proof.
  induction l as [|a l IH]; intros y; [done|]. cbn. etrans; [|apply IH]. destruct y as [[c w] threads], a as [| | | |t n e]; cbn [play].
  - pose proof (ms_start c w threads (Ok ([x30], 1))) as H. destruct (start c w _) as [[? ?] ?]. by apply rtc_once.
  - apply rtc_once, ms_tunnel.
  - pose proof (ms_change c w threads) as H. destruct (networkChanged c w) as [[? ?] ?]. by apply rtc_once.
  - pose proof (ms_stop c w threads) as H. destruct (stop c) as [? ?]. by apply rtc_once.
  - apply mobile_advances.
Qed.

Lemma mobile_accounts_witness : exists c w threads, run started = (c, w, threads) /\ exists x, c_runtime c = Some x /\ some_of (monitors (c_generation c) x) (concat threads).
Proof.
  destruct (run started) as [[c w] threads] eqn:E. exists c, w, threads. split; [done|].
  assert (Hr : rtc msystem_step idle_system (c, w, threads)) by (rewrite <- E; apply mobile_plays).
  assert (Hl : live (c_state c) = true) by (assert (Ec : (run started).1.1 = c) by (by rewrite E); rewrite <- Ec; vm_compute; reflexivity).
  destruct (mobile_accounts c w threads Hr) as (_ & _ & H & _). destruct (H Hl) as (x & Hx & Hm & _). exact (ex_intro _ x (conj Hx Hm)).
Defined.
End MobileExample.
