(* ===== verification/MobileStats.v ===== *)
(** * The counters of the mobile client (mobile/np2mobile/controller.go)

    [TrafficStats] adds the counters of the sessions of a runtime, each session
    once, with an addition that saturates; a tunnel that is closed or not started
    shows zeros.  The runtime is that of [CarrierPool]. *)
From stdpp Require Import prelude gmap list.
From S2P Require Import Prelude SessionRouter CarrierPool.

(** ** Data *)

Definition maxInt64 : Z := 2 ^ 63 - 1.

Inductive TrafficClass := TrafficUnknown | TrafficWeb | TrafficRealtime | TrafficStream.

(** The counters of a multiplexer and of a cover transport that are read. *)
Record MuxStats := mkMuxStats {
  mx_ActiveStreams : Z; mx_FlowControlStalls : Z; mx_ProtocolErrors : Z; mx_SentCells : Z; mx_ReceivedCells : Z; mx_SentCellPayloadBytes : Z;
  mx_ReceivedPayloadBytes : Z; mx_WindowUpdatesSent : Z; mx_WindowUpdatesReceived : Z
}.
Record CoverStats := mkCoverStats {
  cv_RealWireBytes : Z; cv_PaddingBytes : Z; cv_DummyWireBytes : Z; cv_ProfileTransitions : Z; cv_BurstCount : Z; cv_DummyRequestsSelected : Z;
  cv_DummyRequestsRejected : Z; cv_AddedDelayMicros : Z; cv_MaxPlannedDelayMicros : Z; cv_TrafficClass : TrafficClass
}.

(** The part of [trafficStats] that the sessions fill, and all of it. *)
Record protocolStats := mkProtocolStats {
  pr_ActiveStreams : Z; pr_FlowControlStalls : Z; pr_ProtocolErrors : Z; pr_SentCells : Z; pr_ReceivedCells : Z; pr_SentCellPayloadBytes : Z;
  pr_ReceivedPayloadBytes : Z; pr_WindowUpdatesSent : Z; pr_WindowUpdatesReceived : Z; pr_CoverRealWireBytes : Z; pr_CoverPaddingBytes : Z;
  pr_CoverDummyWireBytes : Z; pr_CoverProfileTransitions : Z; pr_CoverBurstCount : Z; pr_CoverDummySelected : Z; pr_CoverDummyRejected : Z;
  pr_CoverAddedDelayMicros : Z; pr_CoverMaxDelayMicros : Z; pr_CoverWebSessions : Z; pr_CoverRealtimeSessions : Z; pr_CoverStreamSessions : Z
}.
Record trafficStats := mkTrafficStats {
  ts_UploadBytesPerSecond : Z; ts_DownloadBytesPerSecond : Z; ts_UploadTotalBytes : Z; ts_DownloadTotalBytes : Z; ts_UDPMode : list byte;
  ts_QUICFallbacks : Z; ts_CarrierPoolTarget : Z; ts_CarrierPoolHealthy : Z; ts_CarrierPoolAssignments : Z; ts_CarrierPoolScaleUps : Z;
  ts_CarrierPoolFailures : Z; ts_DNSAttributionQueries : Z; ts_DNSAttributionResponses : Z; ts_DNSAttributionHits : Z; ts_DNSAttributionMisses : Z;
  ts_DNSAttributionCached : Z; ts_FirstFlightDomainHits : Z; ts_FirstFlightFallbacks : Z; ts_TCPStreamAttempts : Z; ts_TCPStreamSuccesses : Z;
  ts_TCPStreamFailures : Z; ts_protocol : protocolStats
}.

Definition zero_protocol : protocolStats := mkProtocolStats 0 0 0 0 0 0 0 0 0 0 0 0 0 0 0 0 0 0 0 0 0.
Definition zero_traffic : trafficStats := mkTrafficStats 0 0 0 0 [] 0 0 0 0 0 0 0 0 0 0 0 0 0 0 0 0 zero_protocol.

(** ** The sums *)

Definition saturatingProtocolStatAdd (current value : Z) : Z :=
  if (maxInt64 <=? current) || (maxInt64 - current <? value) then maxInt64 else current + value.

Definition add_mux (r : protocolStats) (s : MuxStats) : protocolStats := {|
  pr_ActiveStreams := saturatingProtocolStatAdd (pr_ActiveStreams r) (mx_ActiveStreams s);
  pr_FlowControlStalls := saturatingProtocolStatAdd (pr_FlowControlStalls r) (mx_FlowControlStalls s);
  pr_ProtocolErrors := saturatingProtocolStatAdd (pr_ProtocolErrors r) (mx_ProtocolErrors s);
  pr_SentCells := saturatingProtocolStatAdd (pr_SentCells r) (mx_SentCells s);
  pr_ReceivedCells := saturatingProtocolStatAdd (pr_ReceivedCells r) (mx_ReceivedCells s);
  pr_SentCellPayloadBytes := saturatingProtocolStatAdd (pr_SentCellPayloadBytes r) (mx_SentCellPayloadBytes s);
  pr_ReceivedPayloadBytes := saturatingProtocolStatAdd (pr_ReceivedPayloadBytes r) (mx_ReceivedPayloadBytes s);
  pr_WindowUpdatesSent := saturatingProtocolStatAdd (pr_WindowUpdatesSent r) (mx_WindowUpdatesSent s);
  pr_WindowUpdatesReceived := saturatingProtocolStatAdd (pr_WindowUpdatesReceived r) (mx_WindowUpdatesReceived s);
  pr_CoverRealWireBytes := pr_CoverRealWireBytes r; pr_CoverPaddingBytes := pr_CoverPaddingBytes r;
  pr_CoverDummyWireBytes := pr_CoverDummyWireBytes r; pr_CoverProfileTransitions := pr_CoverProfileTransitions r;
  pr_CoverBurstCount := pr_CoverBurstCount r; pr_CoverDummySelected := pr_CoverDummySelected r; pr_CoverDummyRejected := pr_CoverDummyRejected r;
  pr_CoverAddedDelayMicros := pr_CoverAddedDelayMicros r; pr_CoverMaxDelayMicros := pr_CoverMaxDelayMicros r;
  pr_CoverWebSessions := pr_CoverWebSessions r; pr_CoverRealtimeSessions := pr_CoverRealtimeSessions r;
  pr_CoverStreamSessions := pr_CoverStreamSessions r
|}.

Definition add_class (current : Z) (counted : bool) : Z := if counted then saturatingProtocolStatAdd current 1 else current.
Definition is_web (t : TrafficClass) : bool := match t with TrafficWeb => true | _ => false end.
Definition is_realtime (t : TrafficClass) : bool := match t with TrafficRealtime => true | _ => false end.
Definition is_stream (t : TrafficClass) : bool := match t with TrafficStream => true | _ => false end.

Definition add_cover (r : protocolStats) (s : CoverStats) : protocolStats := {|
  pr_ActiveStreams := pr_ActiveStreams r; pr_FlowControlStalls := pr_FlowControlStalls r; pr_ProtocolErrors := pr_ProtocolErrors r;
  pr_SentCells := pr_SentCells r; pr_ReceivedCells := pr_ReceivedCells r; pr_SentCellPayloadBytes := pr_SentCellPayloadBytes r;
  pr_ReceivedPayloadBytes := pr_ReceivedPayloadBytes r; pr_WindowUpdatesSent := pr_WindowUpdatesSent r;
  pr_WindowUpdatesReceived := pr_WindowUpdatesReceived r;
  pr_CoverRealWireBytes := saturatingProtocolStatAdd (pr_CoverRealWireBytes r) (cv_RealWireBytes s);
  pr_CoverPaddingBytes := saturatingProtocolStatAdd (pr_CoverPaddingBytes r) (cv_PaddingBytes s);
  pr_CoverDummyWireBytes := saturatingProtocolStatAdd (pr_CoverDummyWireBytes r) (cv_DummyWireBytes s);
  pr_CoverProfileTransitions := saturatingProtocolStatAdd (pr_CoverProfileTransitions r) (cv_ProfileTransitions s);
  pr_CoverBurstCount := saturatingProtocolStatAdd (pr_CoverBurstCount r) (cv_BurstCount s);
  pr_CoverDummySelected := saturatingProtocolStatAdd (pr_CoverDummySelected r) (cv_DummyRequestsSelected s);
  pr_CoverDummyRejected := saturatingProtocolStatAdd (pr_CoverDummyRejected r) (cv_DummyRequestsRejected s);
  pr_CoverAddedDelayMicros := saturatingProtocolStatAdd (pr_CoverAddedDelayMicros r) (cv_AddedDelayMicros s);
  pr_CoverMaxDelayMicros := Z.max (pr_CoverMaxDelayMicros r) (Z.min (cv_MaxPlannedDelayMicros s) maxInt64);
  pr_CoverWebSessions := add_class (pr_CoverWebSessions r) (is_web (cv_TrafficClass s));
  pr_CoverRealtimeSessions := add_class (pr_CoverRealtimeSessions r) (is_realtime (cv_TrafficClass s));
  pr_CoverStreamSessions := add_class (pr_CoverStreamSessions r) (is_stream (cv_TrafficClass s))
|}.

Definition aggregateProtocolTrafficStats (mux : list MuxStats) (covers : list CoverStats) : protocolStats := foldl add_cover (foldl add_mux zero_protocol mux) covers.

(** ** [TrafficStats] *)

(** What the packet interface counted: rates, totals, and the attribution. *)
Record StackStats := mkStackStats {
  sk_uploadRate : Z; sk_downloadRate : Z; sk_uploadTotal : Z; sk_downloadTotal : Z;
  sk_Queries : Z; sk_Responses : Z; sk_Hits : Z; sk_Misses : Z; sk_Cached : Z; sk_FirstFlightDomainHits : Z; sk_FirstFlightFallbacks : Z
}.

(** [appendSession]: a session is listed once. *)
Definition appendSession (sessions : list nat) (x : nat) : list nat := if decide (x ∈ sessions) then sessions else sessions ++ [x].
Definition runtime_sessions (s : np2Runtime) : list nat := foldl appendSession [] (nr_session s :: (map_to_list (nr_pool s)).*2 ++ (map_to_list (nr_retired s)).*2).

Definition carrierPoolStats (s : np2Runtime) : Z * Z * Z * Z * Z :=
  let '(healthy, assignments) := PoolStats (nr_router s) in (nr_target s, healthy, assignments, nr_scaleUps s, nr_failures s).

Definition TrafficStats (s : np2Runtime) (mux : nat -> MuxStats) (covers : nat -> option CoverStats) (stack : StackStats) : trafficStats :=
  if nr_closed s || negb (nr_stack s) then zero_traffic
  else
    let sessions := runtime_sessions s in
    let protocol := aggregateProtocolTrafficStats (map mux sessions) (omap covers sessions) in
    let '(attempts, successes, failures) := TCPStreamStats (nr_router s) in
    let '(target, healthy, assignments, scaleUps, poolFailures) := carrierPoolStats s in
    {| ts_UploadBytesPerSecond := sk_uploadRate stack; ts_DownloadBytesPerSecond := sk_downloadRate stack;
       ts_UploadTotalBytes := sk_uploadTotal stack; ts_DownloadTotalBytes := sk_downloadTotal stack;
       ts_UDPMode := SessionRouter.UDPMode (nr_router s); ts_QUICFallbacks := i64 (QUICFallbackCount (nr_router s));
       ts_CarrierPoolTarget := target; ts_CarrierPoolHealthy := healthy; ts_CarrierPoolAssignments := i64 assignments;
       ts_CarrierPoolScaleUps := i64 scaleUps; ts_CarrierPoolFailures := i64 poolFailures;
       ts_DNSAttributionQueries := i64 (sk_Queries stack); ts_DNSAttributionResponses := i64 (sk_Responses stack);
       ts_DNSAttributionHits := i64 (sk_Hits stack); ts_DNSAttributionMisses := i64 (sk_Misses stack); ts_DNSAttributionCached := i64 (sk_Cached stack);
       ts_FirstFlightDomainHits := i64 (sk_FirstFlightDomainHits stack); ts_FirstFlightFallbacks := i64 (sk_FirstFlightFallbacks stack);
       ts_TCPStreamAttempts := i64 attempts; ts_TCPStreamSuccesses := i64 successes; ts_TCPStreamFailures := i64 failures;
       ts_protocol := protocol |}.

(** ** What is counted *)

(** A saturating sum is the sum, or the greatest value. *)
Lemma saturating_sum l c : 0 <= c <= maxInt64 -> Forall (fun v => 0 <= v) l -> foldl saturatingProtocolStatAdd c l = Z.min maxInt64 (c + foldr Z.add 0 l).
Proof.
  intros Hc H. revert c Hc. induction H as [|v l Hv Hl IH]; intros c Hc; cbn [foldl foldr]; [lia|]. assert (0 <= foldr Z.add 0 l) by (clear -Hl; induction Hl; cbn; lia).
  unfold saturatingProtocolStatAdd at 2. destruct ((maxInt64 <=? c) || (maxInt64 - c <? v)) eqn:E; [|rewrite IH by lia; f_equal; lia].
  rewrite IH by (unfold maxInt64; lia). lia.
Qed.

(** A field that each element adds to, and one that no element touches. *)
Lemma field_added {A} (step : protocolStats -> A -> protocolStats) (field : protocolStats -> Z) (value : A -> Z) l r :
  (forall r a, field (step r a) = saturatingProtocolStatAdd (field r) (value a)) -> field (foldl step r l) = foldl saturatingProtocolStatAdd (field r) (map value l).
Proof. intros H. revert r. induction l as [|a l IH]; intros r; [done|]. cbn. by rewrite IH, H. Qed.
Lemma field_kept {A} (step : protocolStats -> A -> protocolStats) (field : protocolStats -> Z) l r : (forall r a, field (step r a) = field r) -> field (foldl step r l) = field r.
Proof. intros H. revert r. induction l as [|a l IH]; intros r; [done|]. cbn. by rewrite IH, H. Qed.

Lemma appended_sessions l acc : NoDup acc -> NoDup (foldl appendSession acc l) /\ forall x, x ∈ foldl appendSession acc l <-> x ∈ acc \/ x ∈ l.
Proof.
  revert acc. induction l as [|y l IH]; intros acc Hn; cbn [foldl].
  - split; [done|]. intros x. split; [auto|]. by intros [?|?%not_elem_of_nil].
  - assert (Ha : NoDup (appendSession acc y) /\ forall x, x ∈ appendSession acc y <-> x ∈ acc \/ x = y).
    { unfold appendSession. destruct (decide (y ∈ acc)) as [Hy|Hy]; [split; [done|]; intros x; split; [auto|]; by intros [| ->]|].
      split; [apply NoDup_app; split_and!; [done| |apply NoDup_singleton]; intros x Hx ->%list_elem_of_singleton; done|]. intros x. rewrite elem_of_app, list_elem_of_singleton. done. }
    destruct Ha as [Ha1 Ha2]. destruct (IH _ Ha1) as [H1 H2]. split; [done|]. intros x. rewrite H2, Ha2, elem_of_cons. tauto.
Qed.

(** The sessions that are counted are the primary, the pool and those that drain,
    each once. *)
Lemma sessions_listed s : NoDup (runtime_sessions s) /\ forall x, x ∈ runtime_sessions s <-> x = nr_session s \/ (exists id, nr_pool s !! id = Some x) \/ (exists id, nr_retired s !! id = Some x).
Proof.
  unfold runtime_sessions. destruct (appended_sessions (nr_session s :: (map_to_list (nr_pool s)).*2 ++ (map_to_list (nr_retired s)).*2) [] (NoDup_nil_2)) as [H1 H2]. split; [done|].
  assert (Hm : forall (m : gmap Z nat) x, x ∈ (map_to_list m).*2 <-> exists id, m !! id = Some x).
  { intros m x. rewrite list_elem_of_fmap. split; [intros ([id y] & -> & Hin); exists id; by apply elem_of_map_to_list|]. intros [id Hin]. exists (id, x). split; [done|]. by apply elem_of_map_to_list. }
  intros x. rewrite H2, elem_of_nil, elem_of_cons, elem_of_app, !Hm. tauto.
Qed.

(** The counters of a running tunnel: every field of the sessions is the sum over
    the sessions it has, each counted once, or the greatest value. *)
Theorem traffic_counted s mux covers stack : nr_closed s = false -> nr_stack s = true -> (forall x, 0 <= mx_ActiveStreams (mux x)) -> (forall x, 0 <= mx_SentCells (mux x)) ->
  pr_ActiveStreams (ts_protocol (TrafficStats s mux covers stack)) = Z.min maxInt64 (foldr Z.add 0 (map (fun x => mx_ActiveStreams (mux x)) (runtime_sessions s))) /\
  pr_SentCells (ts_protocol (TrafficStats s mux covers stack)) = Z.min maxInt64 (foldr Z.add 0 (map (fun x => mx_SentCells (mux x)) (runtime_sessions s))) /\
  NoDup (runtime_sessions s).
Proof.
  intros Hc Hs Ha Hb. unfold TrafficStats. rewrite Hc, Hs. cbn [orb negb]. destruct (TCPStreamStats (nr_router s)) as [[attempts successes] failures], (carrierPoolStats s) as [[[[target healthy] assignments] scaleUps] poolFailures].
  cbn [ts_protocol]. unfold aggregateProtocolTrafficStats. split_and!; [| |apply sessions_listed].
  - rewrite (field_kept add_cover pr_ActiveStreams), (field_added add_mux pr_ActiveStreams mx_ActiveStreams) by done. cbn [pr_ActiveStreams zero_protocol]. rewrite map_map, saturating_sum; [done|unfold maxInt64; lia|].
    apply Forall_map, Forall_forall. intros x _. apply Ha.
  - rewrite (field_kept add_cover pr_SentCells), (field_added add_mux pr_SentCells mx_SentCells) by done. cbn [pr_SentCells zero_protocol]. rewrite map_map, saturating_sum; [done|unfold maxInt64; lia|].
    apply Forall_map, Forall_forall. intros x _. apply Hb.
Qed.
