(* ===== verification/Geodata.v ===== *)
(** * GeoIP and GeoSite databases (geodata/engine.go)

    Two protobuf files give, by code, sets of address prefixes and of domain
    rules; the engine decides the geographical part of a route.  The functions of
    protowire, the regular expressions and the resolver are arguments.  The
    theorems say that the tables and their search decide exactly what the lists of
    the files say. *)
From Stdlib Require Import Btauto.
From stdpp Require Import prelude gmap list sorting.
From S2P Require Import Prelude Text Netip Cluster.

Definition maxGroups : Z := 16384.
Definition maxEntries : Z := 4000000.
Definition maxDomainLength : Z := 253.
Definition cacheTTL : Z := 5 * 60 * second.
Definition maxCacheEntries : Z := 4096.

(** ** Prefixes (net/netip) *)

Definition withoutZone (x : Addr) : Addr := match x with Addr6 a _ => Addr6 a [] | _ => x end.
Definition no_prefix : Prefix := mkPrefix AddrInvalid (-1).

(** An invalid number of bits is kept as -1. *)
Definition PrefixFrom (x : Addr) (bits : Z) : Prefix :=
  mkPrefix (withoutZone x) (if IsValid x && (0 <=? bits) && (bits <=? BitLen x) then bits else -1).

Definition mask (w bits a : Z) : Z := Z.shiftl (Z.shiftr a (w - bits)) (w - bits).
Definition Masked (p : Prefix) : Prefix :=
  if px_bits p <? 0 then no_prefix
  else match px_addr p with
       | AddrInvalid => no_prefix
       | Addr4 a => if 32 <? px_bits p then no_prefix else mkPrefix (Addr4 (mask 32 (px_bits p) a)) (px_bits p)
       | Addr6 a _ => if 128 <? px_bits p then no_prefix else mkPrefix (Addr6 (mask 128 (px_bits p) a) []) (px_bits p)
       end.

Definition AddrFromSlice (raw : list byte) : option Addr :=
  if len raw =? 4 then Some (AddrFrom4 raw) else if len raw =? 16 then Some (AddrFrom16 raw) else None.

Definition Is6 (x : Addr) : bool := match x with Addr6 _ _ => true | _ => false end.

(** ** Sets *)

Record prefixSet := mkPrefixSet { ps_v4 : gmap Z (gset Addr); ps_v6 : gmap Z (gset Addr) }.
Definition no_prefixes : prefixSet := mkPrefixSet ∅ ∅.

Definition add_level (levels : gmap Z (gset Addr)) (bits : Z) (x : Addr) : gmap Z (gset Addr) := <[bits := {[x]} ∪ default ∅ (levels !! bits)]> levels.
Definition prefixSet_add (set : prefixSet) (prefix : Prefix) : prefixSet :=
  let prefix := Masked prefix in
  let address := Unmap (px_addr prefix) in
  let bits := px_bits prefix mod 2 ^ 8 in
  if Is6 address then mkPrefixSet (ps_v4 set) (add_level (ps_v6 set) bits address) else mkPrefixSet (add_level (ps_v4 set) bits address) (ps_v6 set).

(** The loop from the longest prefix down to [bits = 0]. *)
Fixpoint contains_from (levels : gmap Z (gset Addr)) (address : Addr) (n : nat) : bool :=
  let here := bool_decide (px_addr (Masked (PrefixFrom address (Z.of_nat n))) ∈ default ∅ (levels !! Z.of_nat n)) in
  match n with O => here | S m => here || contains_from levels address m end.
Definition prefixSet_contains (set : prefixSet) (address : Addr) : bool :=
  if negb (IsValid address) then false
  else
    let address := Unmap address in
    if Is6 address then contains_from (ps_v6 set) address 128 else contains_from (ps_v4 set) address 32.

Record domainSet := mkDomainSet { ds_full : gset (list byte); ds_root : gset (list byte); ds_plain : list (list byte); ds_regular : list (list byte -> bool) }.
Definition no_domains : domainSet := mkDomainSet ∅ ∅ [] [].

(** The suffixes of a domain that start behind a dot, and the domain itself. *)
Fixpoint dot_suffixes (domain : list byte) : list (list byte) :=
  match domain with [] => [] | c :: rest => if bool_decide (c = dot) then (match rest with [] => [] | _ => [rest] end) ++ dot_suffixes rest else dot_suffixes rest end.
Definition domainSet_matches (set : domainSet) (domain : list byte) : bool :=
  if bool_decide (domain = []) then false
  else bool_decide (domain ∈ ds_full set) || existsb (fun suffix => bool_decide (suffix ∈ ds_root set)) (domain :: dot_suffixes domain) ||
    existsb (fun keyword => bool_decide (is_Some (Index domain keyword))) (ds_plain set) || existsb (fun expression => expression domain) (ds_regular set).

(** ** The files *)

Definition VarintType : Z := 0.
Definition BytesType : Z := 2.

Record domainRule := mkRule { dr_kind : Z; dr_value : list byte }.

Section Wire.
Context (ConsumeTag : list byte -> Z * Z * Z) (ConsumeBytes : list byte -> list byte * Z) (ConsumeVarint : list byte -> Z * Z) (ConsumeFieldValue : Z -> Z -> list byte -> Z).
Context (Compile : list byte -> option (list byte -> bool)).

Definition field_value (number wireType : Z) (raw : list byte) : list byte * Z :=
  if wireType =? BytesType then ConsumeBytes raw
  else
    let consumed := if wireType =? VarintType then (ConsumeVarint raw).2 else ConsumeFieldValue number wireType raw in
    (if 0 <=? consumed then take (Z.to_nat consumed) raw else [], consumed).

(** The loop over the fields of a message; [None] when the fuel is used up. *)
Fixpoint for_fields {A} (visit : Z -> Z -> list byte -> A -> res A) (fuel : nat) (raw : list byte) (s : A) : option (res A) :=
  match raw with
  | [] => Some (Ok s)
  | _ =>
      match fuel with
      | O => None
      | S fuel =>
          let '(number, wireType, tagBytes) := ConsumeTag raw in
          if tagBytes <? 0 then Some (Err ErrInvalidDatabase)
          else
            let raw := drop (Z.to_nat tagBytes) raw in
            let '(value, consumed) := field_value number wireType raw in
            if (consumed <? 0) || (len raw <? consumed) then Some (Err ErrInvalidDatabase)
            else match visit number wireType value s with
                 | Err e => Some (Err e)
                 | Ok s => for_fields visit fuel (drop (Z.to_nat consumed) raw) s
                 end
      end
  end.

Definition forEachMessage {A} (raw : list byte) (visit : Z -> Z -> list byte -> A -> res A) (s : A) : res A :=
  match for_fields visit (length raw) raw s with Some r => r | None => Err ErrInvalidDatabase end.

Definition visit_cidr (number wireType : Z) (value : list byte) (s : list byte * Z) : res (list byte * Z) :=
  if number =? 1 then
    if negb (wireType =? BytesType) || (negb (len value =? 4) && negb (len value =? 16)) then Err ErrInvalidDatabase else Ok (value, s.2)
  else if number =? 2 then
    if negb (wireType =? VarintType) then Err ErrInvalidDatabase
    else let '(bits, n) := ConsumeVarint value in if n <? 0 then Err ErrInvalidDatabase else Ok (s.1, bits)
  else Ok s.

Definition parseCIDR (raw : list byte) : res Prefix :=
  match forEachMessage raw visit_cidr ([], 0) with
  | Err _ => Err ErrInvalidDatabase
  | Ok (bytes, bits) =>
      if bool_decide (bytes = []) then Err ErrInvalidDatabase
      else match AddrFromSlice bytes with
           | None => Err ErrInvalidDatabase
           | Some address => if BitLen address <? bits then Err ErrInvalidDatabase else Ok (Masked (PrefixFrom (Unmap address) bits))
           end
  end.

Definition visit_geoip (number wireType : Z) (value : list byte) (s : list byte * list Prefix * Z) : res (list byte * list Prefix * Z) :=
  let '(code, prefixes, count) := s in
  if number =? 1 then
    if negb (wireType =? BytesType) || (len value =? 0) || (16 <? len value) then Err ErrInvalidDatabase else Ok (ToLower value, prefixes, count)
  else if number =? 2 then
    if negb (wireType =? BytesType) then Err ErrInvalidDatabase
    else if maxEntries <? count + 1 then Err ErrInvalidDatabase
    else match parseCIDR value with Err e => Err e | Ok prefix => Ok (code, prefixes ++ [prefix], count + 1) end
  else if (number =? 3) && (wireType =? VarintType) then
    let '(inverse, n) := ConsumeVarint value in if (n <? 0) || negb (inverse =? 0) then Err ErrInvalidDatabase else Ok s
  else Ok s.

Definition parseGeoIP (raw : list byte) : res (list byte * list Prefix) :=
  match forEachMessage raw visit_geoip ([], [], 0) with Err e => Err e | Ok (code, prefixes, _) => Ok (code, prefixes) end.

Definition visit_iplist (number wireType : Z) (value : list byte) (s : gmap (list byte) prefixSet * Z) : res (gmap (list byte) prefixSet * Z) :=
  let '(result, entries) := s in
  if negb (number =? 1) || negb (wireType =? BytesType) then Ok s
  else if maxGroups <? entries + 1 then Err ErrInvalidDatabase
  else match parseGeoIP value with
       | Err e => Err e
       | Ok (code, prefixes) =>
           if bool_decide (code = []) then Ok (result, entries + 1)
           else Ok (<[code := foldl prefixSet_add (default no_prefixes (result !! code)) prefixes]> result, entries + 1)
       end.

Definition parseGeoIPList (raw : list byte) : res (gmap (list byte) prefixSet) :=
  match forEachMessage raw visit_iplist (∅, 0) with Err e => Err e | Ok (result, _) => Ok result end.

Definition visit_domain (number wireType : Z) (value : list byte) (rule : domainRule) : res domainRule :=
  if number =? 1 then
    if negb (wireType =? VarintType) then Err ErrInvalidDatabase
    else let '(kind, n) := ConsumeVarint value in if (n <? 0) || (3 <? kind) then Err ErrInvalidDatabase else Ok (mkRule kind (dr_value rule))
  else if number =? 2 then
    if negb (wireType =? BytesType) || (len value =? 0) || (maxDomainLength * 4 <? len value) then Err ErrInvalidDatabase else Ok (mkRule (dr_kind rule) (ToLower value))
  else Ok rule.

Definition parseDomain (raw : list byte) : res domainRule :=
  match forEachMessage raw visit_domain (mkRule 0 []) with
  | Err _ => Err ErrInvalidDatabase
  | Ok rule => if bool_decide (dr_value rule = []) || existsb (fun c => has_byte c (dr_value rule)) [x00; x0d; x0a] then Err ErrInvalidDatabase else Ok rule
  end.

Definition visit_geosite (number wireType : Z) (value : list byte) (s : list byte * list domainRule) : res (list byte * list domainRule) :=
  let '(code, domains) := s in
  if number =? 1 then
    if negb (wireType =? BytesType) || (len value =? 0) || (96 <? len value) then Err ErrInvalidDatabase else Ok (ToLower value, domains)
  else if number =? 2 then
    if negb (wireType =? BytesType) || (maxEntries <=? len domains) then Err ErrInvalidDatabase
    else match parseDomain value with Err e => Err e | Ok domain => Ok (code, domains ++ [domain]) end
  else Ok s.

Definition parseGeoSite (raw : list byte) : res (list byte * list domainRule) := forEachMessage raw visit_geosite ([], []).

Definition add_rule (set : domainSet) (rule : domainRule) : res domainSet :=
  if dr_kind rule =? 0 then Ok (mkDomainSet (ds_full set) (ds_root set) (ds_plain set ++ [dr_value rule]) (ds_regular set))
  else if dr_kind rule =? 1 then
    match Compile (dr_value rule) with
    | None => Err ErrInvalidDatabase
    | Some expression => Ok (mkDomainSet (ds_full set) (ds_root set) (ds_plain set) (ds_regular set ++ [expression]))
    end
  else if dr_kind rule =? 2 then Ok (mkDomainSet (ds_full set) ({[dr_value rule]} ∪ ds_root set) (ds_plain set) (ds_regular set))
  else if dr_kind rule =? 3 then Ok (mkDomainSet ({[dr_value rule]} ∪ ds_full set) (ds_root set) (ds_plain set) (ds_regular set))
  else Err ErrInvalidDatabase.

Fixpoint add_rules (set : domainSet) (rules : list domainRule) : res domainSet :=
  match rules with [] => Ok set | rule :: rules => match add_rule set rule with Err e => Err e | Ok set => add_rules set rules end end.

Definition visit_sitelist (number wireType : Z) (value : list byte) (s : gmap (list byte) domainSet * Z) : res (gmap (list byte) domainSet * Z) :=
  let '(result, groups) := s in
  if negb (number =? 1) || negb (wireType =? BytesType) then Ok s
  else if maxGroups <? groups + 1 then Err ErrInvalidDatabase
  else match parseGeoSite value with
       | Err e => Err e
       | Ok (code, domains) =>
           if bool_decide (code = []) then Ok (result, groups + 1)
           else match add_rules (default no_domains (result !! code)) domains with
                | Err e => Err e
                | Ok set => Ok (<[code := set]> result, groups + 1)
                end
       end.

Definition parseGeoSiteList (raw : list byte) : res (gmap (list byte) domainSet) :=
  match forEachMessage raw visit_sitelist (∅, 0) with Err e => Err e | Ok (result, _) => Ok result end.

(** ** The engine *)

Record Engine := mkEngine { en_geoIP : gmap (list byte) prefixSet; en_geoSite : gmap (list byte) domainSet; en_cache : gmap (list byte) (list Addr * Z) }.

(** [Load], given what [readDatabase] returned for the two files. *)
Definition Load (geoip geosite : res (list byte)) : res Engine :=
  match geoip, geosite with
  | Err e, _ => Err e
  | Ok _, Err e => Err e
  | Ok rawIP, Ok rawSite =>
      match parseGeoIPList rawIP with
      | Err e => Err e
      | Ok ips => match parseGeoSiteList rawSite with Err e => Err e | Ok sites => Ok (mkEngine ips sites ∅) end
      end
  end.

End Wire.

(** One call of the resolver: the time before it and its answer. *)
Record lookup_env := mkLookup { lk_now : Z; lk_answer : option (list Addr) }.

Definition resolve (engine : Engine) (ev : lookup_env) (domain : list byte) : list Addr * Engine :=
  let fresh := match en_cache engine !! domain with Some (addresses, expires) => if lk_now ev <? expires then Some addresses else None | None => None end in
  match fresh, lk_answer ev with
  | Some addresses, _ => (addresses, engine)
  | None, None => ([], engine)
  | None, Some addresses =>
      let result := map Unmap (filter (fun a => IsValid a = true) addresses) in
      let cache := if maxCacheEntries <=? Z.of_nat (size (en_cache engine)) then ∅ else en_cache engine in
      (result, mkEngine (en_geoIP engine) (en_geoSite engine) (<[domain := (result, lk_now ev + cacheTTL)]> cache))
  end.

(** The loop over the suffixes of a rule. *)
Fixpoint suffixes_resolve (engine : Engine) (evs : list byte -> lookup_env) (address : Addr) (suffixes : list (list byte)) : bool * Engine :=
  match suffixes with
  | [] => (false, engine)
  | suffix :: rest =>
      let '(addresses, engine) := resolve engine (evs suffix) suffix in
      if existsb (fun a => bool_decide (a = address)) addresses then (true, engine) else suffixes_resolve engine evs address rest
  end.

Definition site_matches (engine : Engine) (categories : list (list byte)) (domain : list byte) : bool :=
  existsb (fun category => match en_geoSite engine !! ToLower category with Some rules => domainSet_matches rules domain | None => false end) categories.
Definition country_matches (engine : Engine) (countries : list (list byte)) (addresses : list Addr) : bool :=
  existsb (fun country => match en_geoIP engine !! ToLower country with Some rules => existsb (prefixSet_contains rules) addresses | None => false end) countries.

Definition Match (engine : Engine) (evs : list byte -> lookup_env) (match_ : RouteMatch) (target : Target) : bool * Engine :=
  let domain := TrimSuffix (ToLower (Domain target)) [dot] in
  if negb (bool_decide (domain = [])) && site_matches engine (GeoSiteCategories match_) domain then (true, engine)
  else
    let '(found, engine) := if IsValid (Address target) then suffixes_resolve engine evs (Unmap (Address target)) (DomainSuffixes match_) else (false, engine) in
    if found then (true, engine)
    else if bool_decide (GeoIPCountries match_ = []) then (false, engine)
    else
      let '(addresses, engine) :=
        if IsValid (Address target) then ([Unmap (Address target)], engine)
        else if negb (bool_decide (domain = [])) then resolve engine (evs domain) domain
        else ([], engine) in
      (country_matches engine (GeoIPCountries match_) addresses, engine).

Definition HasGeoIP (engine : Engine) (country : list byte) : bool := bool_decide (is_Some (en_geoIP engine !! ToLower (TrimSpace country))).
Definition HasGeoSite (engine : Engine) (category : list byte) : bool := bool_decide (is_Some (en_geoSite engine !! ToLower (TrimSpace category))).

(** Codes in the order of strings. *)
Definition code_le (a b : list byte) : Prop := bytes_le a b = true.
#[global] Instance code_le_dec : RelDecision code_le.
Proof. intros a b. unfold code_le. apply _. Defined.

Definition country_code (code : list byte) : bool := match code with [a; b] => is_lower a && is_lower b | _ => false end.
Definition CountryCode (engine : Engine) (address : Addr) : option (list byte) :=
  if negb (IsValid address) then None
  else
    let matches := omap (fun kv => if country_code kv.1 && prefixSet_contains kv.2 (Unmap address) then Some (ToUpper kv.1) else None) (map_to_list (en_geoIP engine)) in
    head (merge_sort code_le matches).

(** ** The search of prefixes is exact *)

(** Whether a list of prefixes contains an address; zones do not matter. *)
Definition in_prefixes (prefixes : list Prefix) (address : Addr) : bool := existsb (fun p => Contains p (withoutZone (Unmap address))) prefixes.

(** The prefixes that are stored: valid ones whose address is not an embedded IPv4
    address, and the invalid one. *)
Definition stored_prefix (p : Prefix) : Prop :=
  match px_addr p with
  | Addr4 _ => 0 <= px_bits p <= 32
  | Addr6 _ zone => zone = [] /\ 0 <= px_bits p <= 128 /\ Is4In6 (px_addr p) = false
  | AddrInvalid => p = no_prefix
  end.

Lemma mask_top w bits a q : 0 <= bits <= w -> mask w bits a = mask w bits q <-> top w bits a = top w bits q.
Proof.
  intros H. unfold mask, top. split; [|by intros ->]. rewrite !Z.shiftl_mul_pow2 by lia. intros E. apply Z.mul_cancel_r in E; [done|]. apply Z.pow_nonzero; lia.
Qed.

Lemma mask_not_mapped bits a zone zone' : 0 <= bits <= 128 -> Is4In6 (Addr6 a zone) = false -> Is4In6 (Addr6 (mask 128 bits a) zone') = false.
Proof.
  intros Hb H. cbn in *. rewrite Z.eqb_neq in *. unfold mask. intros E. destruct (decide (96 <= bits)) as [Hc|Hc].
  - apply H. rewrite <- E. rewrite Z.shiftr_shiftl_r by lia. rewrite Z.shiftr_shiftr by lia. f_equal. lia.
  - rewrite Z.shiftr_shiftl_l in E by lia. rewrite Z.shiftl_mul_pow2 in E by lia. replace (128 - bits - 32) with (Z.succ (95 - bits)) in E by lia. rewrite Z.pow_succ_r in E by lia. lia.
Qed.

Lemma masked_prefix p : stored_prefix p -> stored_prefix (Masked p) /\ forall x, Contains (Masked p) x = Contains p x.
Proof.
  assert (Hm : forall w bits a, 0 <= bits <= w -> top w bits (mask w bits a) = top w bits a).
  { intros w bits a Hb. unfold mask, top. rewrite Z.shiftr_shiftl_l by lia. rewrite Z.sub_diag. apply Z.shiftl_0_r. }
  unfold stored_prefix, Masked, Contains. destruct p as [[|q|q zone] bits]; cbn [px_addr px_bits]; [by intros [= ->]| |].
  - intros H. destruct (bits <? 0) eqn:E1; [lia|]. destruct (32 <? bits) eqn:E2; [lia|]. cbn [px_addr px_bits]. split; [done|]. intros [|a|a z]; try done. by rewrite Hm.
  - intros (-> & H & Hi). destruct (bits <? 0) eqn:E1; [lia|]. destruct (128 <? bits) eqn:E2; [lia|]. cbn [px_addr px_bits]. split; [split_and!; try done; try lia; by eapply mask_not_mapped|]. intros [|a|a z]; try done. by rewrite Hm.
Qed.

Lemma stored_cidr bytes bits address : AddrFromSlice bytes = Some address -> stored_prefix (Masked (PrefixFrom (Unmap address) bits)).
Proof.
  intros H. assert (Ha : exists a, Unmap address = Addr4 a \/ (Unmap address = Addr6 a [] /\ Is4In6 (Addr6 a []) = false)).
  { unfold AddrFromSlice in H. destruct (len bytes =? 4); [injection H as <-; by eexists; left|]. destruct (len bytes =? 16); [|done]. injection H as <-. unfold AddrFrom16, Unmap. destruct (Is4In6 _) eqn:E; eexists; [by left|by right]. }
  assert (Hn : stored_prefix no_prefix) by done. destruct Ha as [a [->|[-> Hi]]]; unfold PrefixFrom; cbn [IsValid withoutZone andb BitLen]; destruct ((0 <=? bits) && (bits <=? _)) eqn:E; try exact Hn; apply masked_prefix; cbn; split_and?; try done; lia.
Qed.

Lemma contains_levels levels address n : contains_from levels address n = true <-> exists m, (m <= n)%nat /\ px_addr (Masked (PrefixFrom address (Z.of_nat m))) ∈ default ∅ (levels !! Z.of_nat m).
Proof.
  induction n as [|n IH]; cbn [contains_from].
  - rewrite bool_decide_eq_true. split; [by exists 0%nat|]. intros (m & Hm & H). by replace m with 0%nat in H by lia.
  - rewrite orb_true_iff, bool_decide_eq_true, IH. split.
    + intros [H|(m & Hm & H)]; [by exists (S n)|]. exists m. split; [lia|done].
    + intros (m & Hm & H). destruct (decide (m = S n)) as [->|]; [by left|]. right. exists m. split; [lia|done].
Qed.

Lemma level_added levels bits x n y : y ∈ default ∅ (add_level levels bits x !! n) <-> y ∈ default ∅ (levels !! n) \/ (n = bits /\ y = x).
Proof.
  unfold add_level. destruct (decide (n = bits)) as [->|Hn].
  - rewrite lookup_insert_eq. cbn. set_solver.
  - rewrite lookup_insert_ne by done. naive_solver.
Qed.

Lemma contains_added levels bits x address n : 0 <= bits -> contains_from (add_level levels bits x) address n = contains_from levels address n || ((bits <=? Z.of_nat n) && bool_decide (px_addr (Masked (PrefixFrom address bits)) = x)).
Proof.
  intros Hb. apply eq_true_iff_eq. rewrite orb_true_iff, andb_true_iff, Z.leb_le, bool_decide_eq_true, !contains_levels. split.
  - intros (m & Hm & [H|[<- H]]%level_added); [left; by exists m|right]. split; [lia|done].
  - intros [(m & Hm & H)|[Hm H]]; [exists m; rewrite level_added; auto|]. exists (Z.to_nat bits). rewrite Z2Nat.id by lia. rewrite level_added. split; [lia|auto].
Qed.

(** What [Masked] makes of a stored prefix and of the prefixes of an address. *)
Lemma masked4 a bits : 0 <= bits <= 32 -> Masked (mkPrefix (Addr4 a) bits) = mkPrefix (Addr4 (mask 32 bits a)) bits.
Proof. intros H. unfold Masked. cbn [px_addr px_bits]. destruct (bits <? 0) eqn:E1; [lia|]. by destruct (32 <? bits) eqn:E2; [lia|]. Qed.
Lemma masked6 a zone bits : 0 <= bits <= 128 -> Masked (mkPrefix (Addr6 a zone) bits) = mkPrefix (Addr6 (mask 128 bits a) []) bits.
Proof. intros H. unfold Masked. cbn [px_addr px_bits]. destruct (bits <? 0) eqn:E1; [lia|]. by destruct (128 <? bits) eqn:E2; [lia|]. Qed.
Lemma prefix_from x bits : IsValid x = true -> 0 <= bits <= BitLen x -> PrefixFrom x bits = mkPrefix (withoutZone x) bits.
Proof. intros Hv H. unfold PrefixFrom. rewrite Hv. destruct (0 <=? bits) eqn:E1; [|lia]. by destruct (bits <=? BitLen x) eqn:E2; [|lia]. Qed.

Lemma unmap_cases x : (Unmap x = AddrInvalid /\ IsValid x = false) \/ (IsValid x = true /\ ((exists a, Unmap x = Addr4 a) \/ exists a z, Unmap x = Addr6 a z)).
Proof. destruct x as [|a|a z]; [by left|right|right]; (split; [done|]); cbn; [left; by eexists|]. destruct (_ =? _); [left|right]; by eexists _; try eexists. Qed.

Lemma set_added set p address : stored_prefix p -> prefixSet_contains (prefixSet_add set p) address = prefixSet_contains set address || Contains p (withoutZone (Unmap address)).
Proof.
  intros Hp. unfold prefixSet_contains, prefixSet_add. destruct (unmap_cases address) as [[-> ->]|[-> Ha]]; [cbn; unfold Contains; by destruct (px_addr p)|]. cbn [negb].
  unfold stored_prefix in Hp. destruct p as [[|b|b zone] bits]; cbn [px_addr px_bits] in Hp.
  - injection Hp as ->. unfold Contains. change (Masked _) with no_prefix. cbn [no_prefix px_addr px_bits Unmap Is6 ps_v4 ps_v6]. change (-1 mod 2 ^ 8) with 255. rewrite orb_false_r. destruct Ha as [[a ->]|(a & z & ->)]; cbn [Is6]; [|done]. rewrite contains_added by done. by rewrite orb_false_r.
  - rewrite masked4 by done. cbn [px_addr px_bits Unmap Is6 ps_v4 ps_v6]. rewrite Z.mod_small by lia. unfold Contains. cbn [px_addr px_bits]. destruct Ha as [[a ->]|(a & z & ->)]; cbn [Is6 withoutZone]; [|by rewrite orb_false_r].
    rewrite contains_added, prefix_from by (cbn; lia). cbn [withoutZone]. rewrite masked4 by done. cbn [px_addr]. f_equal. apply eq_true_iff_eq. rewrite andb_true_iff, Z.leb_le, bool_decide_eq_true, Z.eqb_eq, <- (mask_top 32) by lia.
    split; [by intros [_ [= ->]]|]. intros ->. split; [lia|done].
  - destruct Hp as (-> & Hb & Hi). rewrite masked6 by done. cbn [px_addr px_bits]. rewrite Z.mod_small by lia. assert (Hu : Unmap (Addr6 (mask 128 bits b) []) = Addr6 (mask 128 bits b) []) by (unfold Unmap; by rewrite (mask_not_mapped bits b [] [] Hb Hi)).
    rewrite Hu. cbn [Is6 ps_v4 ps_v6]. unfold Contains. cbn [px_addr px_bits]. destruct Ha as [[a ->]|(a & z & ->)]; cbn [Is6 withoutZone]; [by rewrite orb_false_r|].
    rewrite contains_added, prefix_from by (cbn; lia). cbn [withoutZone]. rewrite masked6 by done. cbn [px_addr]. f_equal. apply eq_true_iff_eq. rewrite !andb_true_iff, Z.leb_le, !bool_decide_eq_true, Z.eqb_eq, <- (mask_top 128) by lia.
    split; [by intros [_ [= ->]]|]. intros [_ ->]. split; [lia|done].
Qed.

Lemma set_of_prefixes prefixes set address : Forall stored_prefix prefixes -> prefixSet_contains (foldl prefixSet_add set prefixes) address = prefixSet_contains set address || in_prefixes prefixes address.
Proof. intros H. revert set. induction H as [|p prefixes Hp _ IH]; intros set; cbn; [by rewrite orb_false_r|]. by rewrite IH, set_added, orb_assoc. Qed.

Lemma empty_contains address : prefixSet_contains no_prefixes address = false.
Proof.
  unfold prefixSet_contains. destruct (IsValid address); [|done]. cbn [negb no_prefixes ps_v4 ps_v6]. assert (H : forall n, contains_from ∅ (Unmap address) n = false) by (induction n as [|n IH]; cbn [contains_from]; rewrite lookup_empty; [done|by rewrite IH]). by destruct (Is6 _).
Qed.

(** ** The search of domains is exact *)

Definition rule_matches (Compile : list byte -> option (list byte -> bool)) (domain : list byte) (rule : domainRule) : bool :=
  if dr_kind rule =? 0 then bool_decide (is_Some (Index domain (dr_value rule)))
  else if dr_kind rule =? 1 then match Compile (dr_value rule) with Some expression => expression domain | None => false end
  else if dr_kind rule =? 2 then negb (bool_decide (dr_value rule = [])) && (bool_decide (domain = dr_value rule) || HasSuffix domain (dot :: dr_value rule))
  else bool_decide (domain = dr_value rule).

Lemma dot_suffixes_iff domain s : s ∈ dot_suffixes domain <-> s <> [] /\ exists q, domain = q ++ dot :: s.
Proof.
  induction domain as [|c domain IH]; cbn [dot_suffixes].
  - split; [by intros ?%not_elem_of_nil|]. intros [_ [[|] H]]; done.
  - assert (Hc : (exists q, c :: domain = q ++ dot :: s) <-> (c = dot /\ domain = s) \/ exists q, domain = q ++ dot :: s).
    { split; [intros [[|c' q] [= -> ->]]; [by left|right; by exists q]|]. intros [[-> ->]|[q ->]]; [by exists []|by exists (c :: q)]. }
    rewrite Hc. case_bool_decide as E; [|rewrite IH; naive_solver]. destruct domain as [|d domain]; cbn [app].
    + rewrite IH. naive_solver.
    + rewrite elem_of_cons, IH. naive_solver.
Qed.

Lemma add_rule_matches Compile set rule set' domain : domain <> [] -> add_rule Compile set rule = Ok set' -> domainSet_matches set' domain = domainSet_matches set domain || rule_matches Compile domain rule.
Proof.
  intros Hd H. unfold domainSet_matches, rule_matches, add_rule in *. rewrite bool_decide_false by done. destruct rule as [kind v]. cbn [dr_kind dr_value] in *.
  destruct (kind =? 0) eqn:E0; [|destruct (kind =? 1) eqn:E1; [destruct (Compile v) as [expression|]; [|done]|destruct (kind =? 2) eqn:E2; [|destruct (kind =? 3) eqn:E3; [|done]]]]; injection H as <-; cbn [ds_full ds_root ds_plain ds_regular].
  - rewrite existsb_app. cbn [existsb]. btauto.
  - rewrite existsb_app. cbn [existsb]. btauto.
  - assert (Hx : existsb (fun suffix => bool_decide (suffix ∈ {[v]} ∪ ds_root set)) (domain :: dot_suffixes domain) =
      existsb (fun suffix => bool_decide (suffix ∈ ds_root set)) (domain :: dot_suffixes domain) || (negb (bool_decide (v = [])) && (bool_decide (domain = v) || HasSuffix domain (dot :: v)))).
    { apply eq_true_iff_eq. rewrite orb_true_iff, andb_true_iff, orb_true_iff, negb_true_iff, bool_decide_eq_false, bool_decide_eq_true, HasSuffix_iff, !existsb_exists. split.
      - intros (s & Hs & Hin). apply bool_decide_eq_true, elem_of_union in Hin as [->%elem_of_singleton|Hin]; [right|left; exists s; by rewrite bool_decide_eq_true].
        destruct Hs as [<-|Hs]; [auto|]. apply list_elem_of_In, dot_suffixes_iff in Hs as [? [q ->]]. split; [done|]. right. by exists q.
      - intros [(s & Hs & Hin)|[Hv Hin]]; [exists s; rewrite bool_decide_eq_true in *; set_solver|]. exists v. rewrite bool_decide_eq_true. split; [|set_solver]. destruct Hin as [->|[q Hq]]; [by left|right]. apply list_elem_of_In, dot_suffixes_iff. split; [done|]. by exists q. }
    rewrite Hx. btauto.
  - assert (Hx : bool_decide (domain ∈ {[v]} ∪ ds_full set) = bool_decide (domain ∈ ds_full set) || bool_decide (domain = v)).
    { apply eq_true_iff_eq. rewrite orb_true_iff, !bool_decide_eq_true. set_solver. }
    rewrite Hx. btauto.
Qed.

Lemma add_rules_match Compile rules domain : domain <> [] -> forall set set', add_rules Compile set rules = Ok set' -> domainSet_matches set' domain = domainSet_matches set domain || existsb (rule_matches Compile domain) rules.
Proof.
  intros Hd. induction rules as [|rule rules IH]; intros set set' H; cbn in *; [injection H as <-; by rewrite orb_false_r|].
  destruct (add_rule Compile set rule) as [set1|] eqn:E; [|done]. by rewrite (IH _ _ H), (add_rule_matches _ _ _ _ _ Hd E), orb_assoc.
Qed.

Lemma empty_matches domain : domainSet_matches no_domains domain = false.
Proof.
  apply not_true_iff_false. unfold domainSet_matches. case_bool_decide; [done|]. rewrite !orb_true_iff. intros [[[H1|H1]|H1]|H1]; try done.
  apply existsb_exists in H1 as (s & _ & Hs). apply bool_decide_eq_true in Hs. set_solver.
Qed.

(** ** The files *)

Section WireFacts.
Context (ConsumeTag : list byte -> Z * Z * Z) (ConsumeBytes : list byte -> list byte * Z) (ConsumeVarint : list byte -> Z * Z) (ConsumeFieldValue : Z -> Z -> list byte -> Z).
Context (Compile : list byte -> option (list byte -> bool)).
Local Abbreviation for_fields := (for_fields ConsumeTag ConsumeBytes ConsumeVarint ConsumeFieldValue).
Local Abbreviation forEachMessage := (forEachMessage ConsumeTag ConsumeBytes ConsumeVarint ConsumeFieldValue).
Local Abbreviation parseCIDR := (parseCIDR ConsumeTag ConsumeBytes ConsumeVarint ConsumeFieldValue).
Local Abbreviation visit_geoip := (visit_geoip ConsumeTag ConsumeBytes ConsumeVarint ConsumeFieldValue).
Local Abbreviation parseGeoIP := (parseGeoIP ConsumeTag ConsumeBytes ConsumeVarint ConsumeFieldValue).
Local Abbreviation parseGeoSite := (parseGeoSite ConsumeTag ConsumeBytes ConsumeVarint ConsumeFieldValue).
Local Abbreviation visit_iplist := (visit_iplist ConsumeTag ConsumeBytes ConsumeVarint ConsumeFieldValue).
Local Abbreviation visit_sitelist := (visit_sitelist ConsumeTag ConsumeBytes ConsumeVarint ConsumeFieldValue Compile).
Local Abbreviation parseGeoIPList := (parseGeoIPList ConsumeTag ConsumeBytes ConsumeVarint ConsumeFieldValue).
Local Abbreviation parseGeoSiteList := (parseGeoSiteList ConsumeTag ConsumeBytes ConsumeVarint ConsumeFieldValue Compile).
Local Abbreviation Load := (Load ConsumeTag ConsumeBytes ConsumeVarint ConsumeFieldValue Compile).

(** A tag that is read takes at least a byte; then the fuel is never used up. *)
Lemma for_fields_ends {A} (visit : Z -> Z -> list byte -> A -> res A) : (forall raw, 0 <= (ConsumeTag raw).2 -> 0 < (ConsumeTag raw).2) ->
  forall fuel raw s, (length raw <= fuel)%nat -> for_fields visit fuel raw s <> None.
Proof.
  intros Ht. induction fuel as [|fuel IH]; intros raw s Hl; [destruct raw; cbn in *; [done|lia]|]. destruct raw as [|b raw]; [done|]. cbn [Geodata.for_fields]. pose proof (Ht (b :: raw)) as Hb. destruct (ConsumeTag (b :: raw)) as [[number wireType] tagBytes]. cbn in Hb.
  destruct (tagBytes <? 0) eqn:E; [done|]. cbv zeta. destruct (field_value _ _ _ _ _) as [value consumed]. case_match; [done|]. case_match; [|done]. apply IH. rewrite !length_drop. cbn [length] in *. lia.
Qed.

(** The fields of a message, and the visits one after the other. *)
Definition messages (raw : list byte) : res (list (Z * Z * list byte)) := forEachMessage raw (fun number wireType value l => Ok (l ++ [(number, wireType, value)])) [].
Fixpoint visits {A} (visit : Z -> Z -> list byte -> A -> res A) (l : list (Z * Z * list byte)) (s : A) : res A :=
  match l with [] => Ok s | (number, wireType, value) :: l => match visit number wireType value s with Err e => Err e | Ok s => visits visit l s end end.

Lemma each_visited {A} (visit : Z -> Z -> list byte -> A -> res A) raw s s' : forEachMessage raw visit s = Ok s' -> exists l, messages raw = Ok l /\ visits visit l s = Ok s'.
Proof.
  unfold messages, Geodata.forEachMessage. assert (H : forall fuel raw s acc, for_fields visit fuel raw s = Some (Ok s') ->
    exists l, for_fields (fun number wireType value l => Ok (l ++ [(number, wireType, value)])) fuel raw acc = Some (Ok (acc ++ l)) /\ visits visit l s = Ok s').
  { induction fuel as [|fuel IH]; intros raw0 s0 acc H0; (destruct raw0 as [|b raw0]; [injection H0 as ->; exists []; by rewrite app_nil_r|]); [done|]. cbn [Geodata.for_fields] in *.
    destruct (ConsumeTag (b :: raw0)) as [[number wireType] tagBytes]. destruct (tagBytes <? 0); [done|]. cbv zeta in *. destruct (field_value _ _ _ _ _) as [value consumed]. destruct (_ || _); [done|].
    destruct (visit number wireType value s0) as [s1|] eqn:Ev; [|done]. destruct (IH _ _ (acc ++ [(number, wireType, value)]) H0) as (l & H1 & H2). exists ((number, wireType, value) :: l). rewrite H1, <- app_assoc. split; [done|]. cbn. by rewrite Ev. }
  intros Hx. destruct (for_fields visit (length raw) raw s) as [r|] eqn:E; [|done]. subst r. destruct (H _ _ _ [] E) as (l & -> & Hv). by exists l.
Qed.

(** The groups of the two files. *)
Definition ip_group (m : Z * Z * list byte) : option (list byte * list Prefix) :=
  let '(number, wireType, value) := m in
  if (number =? 1) && (wireType =? BytesType) then match parseGeoIP value with Ok (code, prefixes) => if bool_decide (code = []) then None else Some (code, prefixes) | Err _ => None end else None.
Definition site_group (m : Z * Z * list byte) : option (list byte * list domainRule) :=
  let '(number, wireType, value) := m in
  if (number =? 1) && (wireType =? BytesType) then match parseGeoSite value with Ok (code, rules) => if bool_decide (code = []) then None else Some (code, rules) | Err _ => None end else None.

Lemma parsed_cidr raw p : parseCIDR raw = Ok p -> stored_prefix p.
Proof. unfold Geodata.parseCIDR. intros H. repeat (case_match; try done). injection H as <-. by eapply stored_cidr. Qed.

Lemma parsed_geoip raw code prefixes : parseGeoIP raw = Ok (code, prefixes) -> Forall stored_prefix prefixes.
Proof.
  unfold Geodata.parseGeoIP. intros H. destruct (forEachMessage raw visit_geoip _) as [[[code' prefixes'] count]|] eqn:E; [|done]. injection H as -> ->. apply each_visited in E as (l & _ & Hv).
  assert (Hg : forall l s s', visits visit_geoip l s = Ok s' -> Forall stored_prefix s.1.2 -> Forall stored_prefix s'.1.2).
  { clear. induction l as [|[[number wireType] value] l IH]; intros s s' H Hs; [by injection H as <-|]. cbn [visits] in H. destruct (visit_geoip number wireType value s) as [s1|] eqn:Ev; [|done]. apply (IH _ _ H).
    destruct s as [[code prefixes] count]. unfold Geodata.visit_geoip in Ev. repeat (case_match; try done); injection Ev as <-; try done. cbn in *. apply Forall_app. split; [done|]. apply Forall_singleton. by eapply parsed_cidr. }
  apply (Hg _ _ _ Hv). by apply Forall_nil.
Qed.

(** What the tables answer for a code. *)
Definition has_address (m : gmap (list byte) prefixSet) (code : list byte) (address : Addr) : bool := match m !! code with Some set => prefixSet_contains set address | None => false end.
Definition has_domain (m : gmap (list byte) domainSet) (code domain : list byte) : bool := match m !! code with Some set => domainSet_matches set domain | None => false end.
Definition listed_address (groups : list (list byte * list Prefix)) (code : list byte) (address : Addr) : bool := existsb (fun g => bool_decide (g.1 = code) && in_prefixes g.2 address) groups.
Definition listed_domain (groups : list (list byte * list domainRule)) (code domain : list byte) : bool := existsb (fun g => bool_decide (g.1 = code) && existsb (rule_matches Compile domain) g.2) groups.

Lemma iplist_exact raw m : parseGeoIPList raw = Ok m -> exists l, messages raw = Ok l /\ forall code address, has_address m code address = listed_address (omap ip_group l) code address.
Proof.
  unfold Geodata.parseGeoIPList. intros H. destruct (forEachMessage raw visit_iplist _) as [[m' n]|] eqn:E; [|done]. injection H as ->. apply each_visited in E as (l & Hl & Hv). exists l. split; [done|]. intros code address.
  assert (Hg : forall l s s', visits visit_iplist l s = Ok s' -> has_address s'.1 code address = has_address s.1 code address || listed_address (omap ip_group l) code address).
  { clear. induction l as [|[[number wireType] value] l IH]; intros s s' H; [injection H as <-; cbn; by rewrite orb_false_r|]. cbn [visits] in H. destruct (visit_iplist number wireType value s) as [s1|] eqn:Ev; [|done]. rewrite (IH _ _ H). clear H IH.
    destruct s as [m n]. unfold Geodata.visit_iplist in Ev. cbn [omap list_omap]. unfold ip_group at 2. destruct (number =? 1), (wireType =? BytesType); cbn [negb andb orb] in *; try (injection Ev as <-; done).
    destruct (maxGroups <? n + 1); [done|]. destruct (parseGeoIP value) as [[code' prefixes]|] eqn:Ep; [|done]. case_bool_decide as Hc; injection Ev as <-; [done|]. cbn [fst listed_address existsb]. rewrite orb_assoc. f_equal. unfold has_address.
    destruct (decide (code' = code)) as [->|Hn]; [|rewrite lookup_insert_ne, bool_decide_false by done; by rewrite orb_false_r]. rewrite lookup_insert_eq, bool_decide_true by done. cbn [andb]. rewrite (set_of_prefixes _ _ _ (parsed_geoip _ _ _ Ep)). destruct (m !! code); [done|]. cbn. by rewrite empty_contains. }
  pose proof (Hg _ _ _ Hv) as Hq. cbn [fst] in Hq. rewrite Hq. unfold has_address at 1. by rewrite lookup_empty.
Qed.

Lemma sitelist_exact raw m : parseGeoSiteList raw = Ok m -> exists l, messages raw = Ok l /\ forall code domain, domain <> [] -> has_domain m code domain = listed_domain (omap site_group l) code domain.
Proof.
  unfold Geodata.parseGeoSiteList. intros H. destruct (forEachMessage raw visit_sitelist _) as [[m' n]|] eqn:E; [|done]. injection H as ->. apply each_visited in E as (l & Hl & Hv). exists l. split; [done|]. intros code domain Hd.
  assert (Hg : forall l s s', visits visit_sitelist l s = Ok s' -> has_domain s'.1 code domain = has_domain s.1 code domain || listed_domain (omap site_group l) code domain).
  { clear -Hd. induction l as [|[[number wireType] value] l IH]; intros s s' H; [injection H as <-; cbn; by rewrite orb_false_r|]. cbn [visits] in H. destruct (visit_sitelist number wireType value s) as [s1|] eqn:Ev; [|done]. rewrite (IH _ _ H). clear H IH.
    destruct s as [m n]. unfold Geodata.visit_sitelist in Ev. cbn [omap list_omap]. unfold site_group at 2. destruct (number =? 1), (wireType =? BytesType); cbn [negb andb orb] in *; try (injection Ev as <-; done).
    destruct (maxGroups <? n + 1); [done|]. destruct (parseGeoSite value) as [[code' rules]|] eqn:Ep; [|done]. case_bool_decide as Hc; [injection Ev as <-; done|]. destruct (add_rules _ _ _) as [set|] eqn:Ea; [|done]. injection Ev as <-.
    cbn [fst listed_domain existsb]. rewrite orb_assoc. f_equal. unfold has_domain.
    destruct (decide (code' = code)) as [->|Hn]; [|rewrite lookup_insert_ne, bool_decide_false by done; by rewrite orb_false_r]. rewrite lookup_insert_eq, bool_decide_true by done. cbn [andb]. rewrite (add_rules_match _ _ _ Hd _ _ Ea). destruct (m !! code); [done|]. cbn [default]. by rewrite empty_matches. }
  pose proof (Hg _ _ _ Hv) as Hq. cbn [fst] in Hq. rewrite Hq. unfold has_domain at 1. by rewrite lookup_empty.
Qed.

(** ** [Match] *)

(** The addresses of an answer that count; a name that is not resolved has none. *)
Definition usable (answer : option (list Addr)) : list Addr := match answer with None => [] | Some addresses => map Unmap (filter (fun a => IsValid a = true) addresses) end.

(** What the name [s] may stand for: what the resolver answers now, or what it
    answered for the same name in an earlier call, less than [cacheTTL] ago. *)
Definition stands_for (past : list (list byte -> lookup_env)) (evs : list byte -> lookup_env) (s : list byte) (addresses : list Addr) : Prop :=
  addresses = usable (lk_answer (evs s)) \/
  exists evs', evs' ∈ past /\ is_Some (lk_answer (evs' s)) /\ addresses = usable (lk_answer (evs' s)) /\ lk_now (evs s) < lk_now (evs' s) + cacheTTL.

(** What the lists of the files say, [suffixes] being the addresses of the
    suffixes of the rule and [own] those of the domain of the target. *)
Definition geo_reference (ips : list (list byte * list Prefix)) (sites : list (list byte * list domainRule)) (match_ : RouteMatch) (target : Target) (suffixes : list (list Addr)) (own : list Addr) : bool :=
  let domain := TrimSuffix (ToLower (Domain target)) [dot] in
  (negb (bool_decide (domain = [])) && existsb (fun category => listed_domain sites (ToLower category) domain) (GeoSiteCategories match_)) ||
  (IsValid (Address target) && existsb (fun addresses => bool_decide (Unmap (Address target) ∈ addresses)) suffixes) ||
  existsb (fun country => existsb (listed_address ips (ToLower country))
    (if IsValid (Address target) then [Unmap (Address target)] else if bool_decide (domain = []) then [] else own)) (GeoIPCountries match_).

(** What the cache holds are answers of the resolver for the same name. *)
Definition cache_ok (past : list (list byte -> lookup_env)) (engine : Engine) : Prop :=
  forall s addresses expires, en_cache engine !! s = Some (addresses, expires) ->
    exists evs, evs ∈ past /\ is_Some (lk_answer (evs s)) /\ addresses = usable (lk_answer (evs s)) /\ expires = lk_now (evs s) + cacheTTL.

Definition same_tables (engine engine' : Engine) : Prop := en_geoIP engine' = en_geoIP engine /\ en_geoSite engine' = en_geoSite engine.

Lemma resolve_stands past evs engine s addresses engine' : cache_ok (past ++ [evs]) engine -> resolve engine (evs s) s = (addresses, engine') ->
  stands_for past evs s addresses /\ cache_ok (past ++ [evs]) engine' /\ same_tables engine engine'.
Proof.
  intros Hc H. unfold resolve in H. destruct (match en_cache engine !! s with Some (a, e) => if lk_now (evs s) <? e then Some a else None | None => None end) as [cached|] eqn:Ef.
  - injection H as <- <-. split; [|done]. destruct (en_cache engine !! s) as [[a e]|] eqn:El; [|done]. destruct (lk_now (evs s) <? e) eqn:Et; [|done]. injection Ef as ->. apply Z.ltb_lt in Et.
    destruct (Hc _ _ _ El) as (evs' & Hin & Hs & -> & ->). apply elem_of_app in Hin as [Hin| ->%list_elem_of_singleton]; [right; by exists evs'|by left].
  - destruct (lk_answer (evs s)) as [answer|] eqn:Ea; injection H as <- <-; (split; [left; by rewrite Ea|]; split; [|done]); [|done].
    intros s' addresses expires Hl. cbn in Hl. apply lookup_insert_Some in Hl as [[<- [= <- <-]]|[Hne Hl]].
    + exists evs. rewrite Ea. split; [apply elem_of_app; right; by left|]. by split_and!.
    + apply Hc. destruct (_ <=? _) in Hl; [by rewrite lookup_empty in Hl|done].
Qed.

Lemma fresh_stands past evs s : stands_for past evs s (usable (lk_answer (evs s))).
Proof. by left. Qed.

Lemma suffixes_stand past evs address suffixes : forall engine found engine', cache_ok (past ++ [evs]) engine -> suffixes_resolve engine evs address suffixes = (found, engine') ->
  cache_ok (past ++ [evs]) engine' /\ same_tables engine engine' /\
  exists lists, Forall2 (stands_for past evs) suffixes lists /\ found = existsb (fun addresses => bool_decide (address ∈ addresses)) lists.
Proof.
  induction suffixes as [|suffix suffixes IH]; intros engine found engine' Hc H; cbn in H.
  - injection H as <- <-. split; [done|]. split; [done|]. exists []. by split; [constructor|].
  - destruct (resolve engine (evs suffix) suffix) as [addresses engine1] eqn:Er. destruct (resolve_stands _ _ _ _ _ _ Hc Er) as (H1 & H2 & H3).
    assert (Ha : existsb (fun a => bool_decide (a = address)) addresses = bool_decide (address ∈ addresses)).
    { apply eq_true_iff_eq. rewrite existsb_exists, bool_decide_eq_true. setoid_rewrite bool_decide_eq_true. setoid_rewrite list_elem_of_In. naive_solver. }
    rewrite Ha in H. destruct (bool_decide (address ∈ addresses)) eqn:Eb.
    + injection H as <- <-. split; [done|]. split; [done|]. exists (addresses :: map (fun s => usable (lk_answer (evs s))) suffixes). cbn [existsb]. rewrite Eb. split; [|done].
      constructor; [done|]. clear. induction suffixes as [|s l IH]; constructor; [apply fresh_stands|exact IH].
    + destruct (IH _ _ _ H2 H) as (H4 & H5 & lists & H6 & ->). split; [done|]. split; [by destruct H3, H5; split; congruence|]. exists (addresses :: lists). cbn [existsb]. rewrite Eb. by split; [constructor|].
Qed.

(** Calls of [Match] one after the other; only the cache changes. *)
Definition match_call : Type := (list byte -> lookup_env) * RouteMatch * Target.
Fixpoint after_matches (engine : Engine) (calls : list match_call) : Engine :=
  match calls with [] => engine | (evs, match_, target) :: calls => after_matches (Match engine evs match_ target).2 calls end.

Lemma cache_ok_more past past' engine : cache_ok past engine -> cache_ok (past ++ past') engine.
Proof. intros H s addresses expires Hl. destruct (H _ _ _ Hl) as (evs & Hin & Hk). exists evs. split; [apply elem_of_app; by left|done]. Qed.

Lemma match_cache past engine evs match_ target : cache_ok past engine -> cache_ok (past ++ [evs]) (Match engine evs match_ target).2 /\ same_tables engine (Match engine evs match_ target).2.
Proof.
  intros H0. pose proof (cache_ok_more past [evs] _ H0) as H. clear H0. unfold Match. cbv zeta. destruct (negb _ && _); [done|].
  assert (Hs : let '(b, e) := (if IsValid (Address target) then suffixes_resolve engine evs (Unmap (Address target)) (DomainSuffixes match_) else (false, engine)) in cache_ok (past ++ [evs]) e /\ same_tables engine e).
  { destruct (IsValid _); [|done]. destruct (suffixes_resolve _ _ _ _) as [b e] eqn:Es. by destruct (suffixes_stand _ _ _ _ _ _ _ H Es) as (? & ? & _). }
  destruct (if IsValid (Address target) then _ else _) as [found e]. destruct Hs as [H1 H2]. destruct found; [done|]. case_bool_decide; [done|].
  destruct (IsValid (Address target)); [done|]. destruct (negb _); [|done]. destruct (resolve e (evs _) _) as [addresses e'] eqn:Er.
  destruct (resolve_stands _ _ _ _ _ _ H1 Er) as (_ & Hc & Ht). cbn. split; [done|]. destruct H2, Ht. split; congruence.
Qed.

Lemma matches_cache calls : forall past engine, cache_ok past engine -> cache_ok (past ++ map (fun c : match_call => c.1.1) calls) (after_matches engine calls) /\ same_tables engine (after_matches engine calls).
Proof.
  induction calls as [|[[evs match_] target] calls IH]; intros past engine H; cbn [after_matches map]; [by rewrite app_nil_r|].
  destruct (match_cache _ _ evs match_ target H) as [H1 H2]. destruct (IH _ _ H1) as [H3 H4]. rewrite <- app_assoc in H3. split; [done|]. destruct H2, H4. split; congruence.
Qed.

(** C39: The engine decides what the databases say.  For an engine loaded from two
    files and after any calls of [Match] that fill, expire and empty its cache:
    [Match] answers that a category lists a rule for the domain of the target, or
    that a suffix of the rule stands for its address, or that a country lists a
    prefix with its address (or, when the target has none, with one its domain
    stands for), as the groups of the files say one after the other, prefixes as
    [parseCIDR] converts them.  A name stands for what the resolver answers for
    it now, or answered for that name less than five minutes ago: the hash tables
    and the cache change nothing else. *)
Theorem geo_match_exact geoip geosite engine calls evs match_ target :
  Load (Ok geoip) (Ok geosite) = Ok engine ->
  exists ips sites suffixes own, messages geoip = Ok ips /\ messages geosite = Ok sites /\
    let past := map (fun c : match_call => c.1.1) calls in
    Forall2 (stands_for past evs) (DomainSuffixes match_) suffixes /\ stands_for past evs (TrimSuffix (ToLower (Domain target)) [dot]) own /\
    (Match (after_matches engine calls) evs match_ target).1 = geo_reference (omap ip_group ips) (omap site_group sites) match_ target suffixes own.
Proof.
  intros HL. unfold Geodata.Load in HL. destruct (parseGeoIPList geoip) as [mi|] eqn:Ei; [|done]. destruct (parseGeoSiteList geosite) as [ms|] eqn:Es; [|done]. injection HL as <-.
  apply iplist_exact in Ei as (ips & H1 & Hi). apply sitelist_exact in Es as (sites & H2 & Hs).
  destruct (matches_cache calls [] (mkEngine mi ms ∅)) as [Hc [T1 T2]]; [by intros s addresses expires Hl; cbn in Hl; rewrite lookup_empty in Hl|]. cbn [app en_geoIP en_geoSite] in *.
  set (past := map (fun c : match_call => c.1.1) calls) in *. pose proof (cache_ok_more past [evs] _ Hc) as Hc'. clear Hc. revert Hc' T1 T2. generalize (after_matches (mkEngine mi ms ∅) calls). intros engine Hc T1 T2.
  unfold Match, geo_reference. set (domain := TrimSuffix (ToLower (Domain target)) [dot]). cbv zeta.
  assert (Hany : exists suffixes, Forall2 (stands_for past evs) (DomainSuffixes match_) suffixes).
  { exists (map (fun s => usable (lk_answer (evs s))) (DomainSuffixes match_)). induction (DomainSuffixes match_) as [|s l IH]; constructor; [apply fresh_stands|exact IH]. }
  assert (Hsite : negb (bool_decide (domain = [])) && site_matches engine (GeoSiteCategories match_) domain =
    negb (bool_decide (domain = [])) && existsb (fun category => listed_domain (omap site_group sites) (ToLower category) domain) (GeoSiteCategories match_)).
  { case_bool_decide as Hd; [done|]. cbn [negb andb]. unfold site_matches. rewrite T2. induction (GeoSiteCategories match_) as [|category l IH]; [done|]. cbn [existsb]. rewrite <- Hs by done. by rewrite IH. }
  assert (Hcountry : forall e l addresses, en_geoIP e = mi -> country_matches e l addresses = existsb (fun country => existsb (listed_address (omap ip_group ips) (ToLower country)) addresses) l).
  { intros e l addresses Ee. unfold country_matches. rewrite Ee. induction l as [|country l IH]; [done|]. cbn [existsb]. rewrite IH. f_equal. clear -Hi. unfold has_address in Hi. specialize (Hi (ToLower country)).
    destruct (mi !! ToLower country); (induction addresses as [|a addresses IH]; [done|]); cbn [existsb]; by rewrite <- Hi, <- IH. }
  rewrite Hsite. destruct (negb _ && existsb _ _) eqn:Eb.
  { destruct Hany as [suffixes Hf]. exists ips, sites, suffixes, (usable (lk_answer (evs domain))). split_and!; try done; [apply fresh_stands|by rewrite Eb]. }
  clear Hsite. cbn [orb]. destruct (IsValid (Address target)).
  - destruct (suffixes_resolve _ evs _ _) as [b e1] eqn:Et. destruct (suffixes_stand _ _ _ _ _ _ _ Hc Et) as (_ & [E1 _] & suffixes & Hf & Eq).
    exists ips, sites, suffixes, (usable (lk_answer (evs domain))). split_and!; try done; [apply fresh_stands|]. rewrite Eb. cbn [andb orb]. rewrite <- Eq. destruct b; [done|]. cbn [orb].
    destruct (bool_decide (GeoIPCountries match_ = [])) eqn:Hg; [apply bool_decide_eq_true in Hg; by rewrite Hg|]. cbn [fst]. apply Hcountry. congruence.
  - destruct Hany as [suffixes Hf]. cbn [andb orb]. destruct (bool_decide (domain = [])) eqn:Ed; cbn [negb].
    + exists ips, sites, suffixes, (usable (lk_answer (evs domain))). split_and!; try done; [apply fresh_stands|]. cbn [negb andb orb].
      destruct (bool_decide (GeoIPCountries match_ = [])) eqn:Hg; [apply bool_decide_eq_true in Hg; by rewrite Hg|]. by apply Hcountry.
    + destruct (resolve engine (evs domain) domain) as [addresses e1] eqn:Er. destruct (resolve_stands _ _ _ _ _ _ Hc Er) as (H3 & _ & [E1 _]).
      exists ips, sites, suffixes, addresses. split_and!; try done. cbn [negb andb orb] in *. rewrite Eb. cbn [orb]. destruct (bool_decide (GeoIPCountries match_ = [])) eqn:Hg; [apply bool_decide_eq_true in Hg; by rewrite Hg|].
      cbn [fst]. apply Hcountry. congruence.
Qed.
End WireFacts.

(** ** Examples *)

Module GeoExample.
(** The wire format with varints of one byte. *)
Definition varint (raw : list byte) : Z * Z := match raw with b :: _ => if b2z b <? 128 then (b2z b, 1) else (0, -1) | [] => (0, -1) end.
Definition tag (raw : list byte) : Z * Z * Z := let '(v, n) := varint raw in (v / 8, v mod 8, n).
Definition bytes (raw : list byte) : list byte * Z :=
  let '(v, n) := varint raw in if n <? 0 then ([], -1) else if len raw <? 1 + v then ([], -1) else (take (Z.to_nat v) (drop 1 raw), 1 + v).
Definition other (number wireType : Z) (raw : list byte) : Z := -1.
Definition compile (s : list byte) : option (list byte -> bool) := None.

Definition load (ips sites : list byte) : res Engine := Load tag bytes varint other compile (Ok ips) (Ok sites).
(** The group "de" with 8.8.8.0/24, and with ::ffff:8.8.8.0/120. *)
Definition plain_ips : list byte := [x0a; x0e; x0a; x02; x64; x65; x12; x08; x0a; x04; x08; x08; x08; x00; x10; x18].
Definition mapped_ips : list byte := [x0a; x1a; x0a; x02; x64; x65; x12; x14; x0a; x10] ++ repeat x00 10 ++ [xff; xff; x08; x08; x08; x00; x10; x78].
(** The group "ads" with the domain x.org and those below it. *)
Definition ads : list byte := [x0a; x10; x0a; x03; x61; x64; x73; x12; x09; x08; x02; x12; x05; x78; x2e; x6f; x72; x67].

Definition silent (domain : list byte) : lookup_env := mkLookup 0 None.
Definition by_country (code : list byte) : RouteMatch := mkMatch [] [] [code] [] [] [].
Definition by_site (code : list byte) : RouteMatch := mkMatch [] [] [] [code] [] [].
Definition to_address (a : Z) : Target := mkTarget [] (Addr4 a) 443 [].
Definition to_domain (s : list byte) : Target := mkTarget s AddrInvalid 443 [].
Definition matched (e : res Engine) (m : RouteMatch) (t : Target) : option bool := match e with Ok e => Some (Match e silent m t).1 | Err _ => None end.

Example plain_match : matched (load plain_ips ads) (by_country (bytes_of "DE")) (to_address 0x08080808) = Some true /\ matched (load plain_ips ads) (by_country (bytes_of "DE")) (to_address 0x08080908) = Some false /\
  matched (load plain_ips ads) (by_site (bytes_of "ads")) (to_domain (bytes_of "A.x.org.")) = Some true /\ matched (load plain_ips ads) (by_site (bytes_of "ads")) (to_domain (bytes_of "ax.org")) = Some false.
Proof. by vm_compute. Qed.

(** A prefix of embedded IPv4 addresses is accepted, and then contains nothing:
    its number of bits counts 128, its address is turned into one of 32. *)
Example mapped_prefix_lost : matched (load mapped_ips ads) (by_country (bytes_of "DE")) (to_address 0x08080808) = Some false /\
  match parseCIDR tag bytes varint other (drop 8 mapped_ips) with Ok p => p = no_prefix | Err _ => False end.
Proof. by vm_compute. Qed.

(** A suffix that is resolved to the address, and the cache: the answer of the
    first call serves for five minutes. *)
Definition by_suffix (name : list byte) : RouteMatch := mkMatch [name] [] [] [] [] [].
Definition answered (now : Z) (a : Z) (domain : list byte) : lookup_env := mkLookup now (Some [Addr4 a]).
Definition x_org : list byte := bytes_of "x.org".
Definition first_call : list match_call := [(answered 0 0x08080808, by_suffix x_org, to_address 0x08080808)].
Example cached_answer : match load plain_ips ads with
  | Ok e => map (fun now => (Match (after_matches e first_call) (answered now 0x01010101) (by_suffix x_org) (to_address 0x08080808)).1) [1; cacheTTL - 1; cacheTTL] = [true; true; false]
  | Err _ => False
  end.
Proof. by vm_compute. Qed.

Lemma geo_match_exact_witness : exists engine, load plain_ips ads = Ok engine /\
  exists ips sites suffixes own, Forall2 (stands_for [answered 0 0x08080808] (answered 1 0x01010101)) [x_org] suffixes /\
    (Match (after_matches engine first_call) (answered 1 0x01010101) (by_suffix x_org) (to_address 0x08080808)).1 =
      geo_reference compile (omap (ip_group tag bytes varint other) ips) (omap (site_group tag bytes varint other) sites) (by_suffix x_org) (to_address 0x08080808) suffixes own.
Proof.
  assert (Hok : match load plain_ips ads with Ok _ => True | Err _ => False end) by (vm_compute; exact I). destruct (load plain_ips ads) as [engine|e] eqn:HL; [|destruct Hok].
  exists engine. split; [reflexivity|].
  destruct (geo_match_exact tag bytes varint other compile plain_ips ads engine first_call (answered 1 0x01010101) (by_suffix x_org) (to_address 0x08080808) HL) as (ips & sites & suffixes & own & _ & _ & H1 & _ & H2).
  exists ips, sites, suffixes, own. exact (conj H1 H2).
Defined.
End GeoExample.
