(* ===== verification/CarrierChoice.v ===== *)
(** * The choice of a carrier (app/client_race.go, carrier/hybrid/selector.go)

    A client races its carriers: the attempts run in goroutines of their own, the
    first authenticated one wins and the others are closed; the winner is
    remembered for the next time.  The [Selector] tries carriers one after the
    other instead.  What the attempts return and the order in which their outcomes
    arrive are the environment. *)
From stdpp Require Import prelude gmap list.
From S2P Require Import Prelude Auth.

(** ** Data *)

Definition millisecond : Z := 1000000.
Definition fastCarrierStagger : Z := 150 * millisecond.
Definition httpsFallbackDelay : Z := 600 * millisecond.

(** A carrier and its kind; a session, whether it has a multiplexer, and the kind
    of carrier it names. *)
Record carrier := mkCarrier { cx_id : nat; cx_Kind : Z }.
Record session := mkSession { sn_id : nat; sn_Mux : bool; sn_Carrier : Z }.
Record Result := mkResult { rs_Carrier : option carrier; rs_Kind : Z; rs_UsedFallback : bool }.

(** [at_run] is false for a nil function. *)
Record authenticatedAttempt := mkAttempt { at_kind : Z; at_delay : Z; at_run : bool }.
Record authenticatedOutcome := mkOutcome { oc_index : nat; oc_authenticated : option session; oc_selected : Result; oc_err : option error }.

Inductive carrier_event := MuxClosed (s : nat) | CarrierClosed (c : nat).

(** What one attempt meets: the error of the context if it ends before the delay
    is over, and what its function returns. *)
Record attempt_env := mkAttemptEnv { ae_cancelled : option error; ae_authenticated : option session; ae_selected : Result; ae_err : option error }.

(** ** The race *)

Definition no_result : Result := mkResult None 0 false.

(** Whether the function of an attempt is called. *)
Definition runs (a : authenticatedAttempt) (ev : attempt_env) : bool :=
  at_run a && negb (at_delay a <? 0) && negb ((0 <? at_delay a) && bool_decide (is_Some (ae_cancelled ev))).

(** A session and a carrier of the kind that was asked for. *)
Definition valid_outcome (kind : Z) (authenticated : option session) (selected : Result) : bool :=
  match authenticated, rs_Carrier selected with
  | Some s, Some c => (rs_Kind selected =? kind) && (cx_Kind c =? kind) && (sn_Carrier s =? kind)
  | _, _ => false
  end.

Definition attempt_outcome (index : nat) (a : authenticatedAttempt) (ev : attempt_env) : authenticatedOutcome :=
  if negb (at_run a) || (at_delay a <? 0) then mkOutcome index None no_result (Some (Sentinel ErrNoAuthenticatedCarrier))
  else
    let run := mkOutcome index (ae_authenticated ev) (ae_selected ev)
      (match ae_err ev with Some e => Some e | None => if valid_outcome (at_kind a) (ae_authenticated ev) (ae_selected ev) then None else Some (Sentinel ErrNoAuthenticatedCarrier) end) in
    match ae_cancelled ev with Some e => if 0 <? at_delay a then mkOutcome index None no_result (Some e) else run | None => run end.

Definition closeAuthenticatedOutcome (o : authenticatedOutcome) : list carrier_event :=
  match oc_authenticated o with
  | Some s => if sn_Mux s then [MuxClosed (sn_id s)] else match rs_Carrier (oc_selected o) with Some c => [CarrierClosed (cx_id c)] | None => [] end
  | None => match rs_Carrier (oc_selected o) with Some c => [CarrierClosed (cx_id c)] | None => [] end
  end.

(** The loop that receives the outcomes. *)
Fixpoint receive (outcomes : list authenticatedOutcome) (winner : option authenticatedOutcome) (failures : list error) (events : list carrier_event)
    : option authenticatedOutcome * list error * list carrier_event :=
  match outcomes with
  | [] => (winner, failures, events)
  | o :: outcomes =>
      match oc_err o, winner with
      | None, None => receive outcomes (Some o) failures events
      | e, _ =>
          let failures := match e with Some e => if errors_is e ErrCanceled then failures else failures ++ [e] | None => failures end in
          receive outcomes winner failures (events ++ closeAuthenticatedOutcome o)
      end
  end.

(** [ctx] is the error of the caller's context at the end; [order] the arrival of
    the outcomes. *)
Definition outcomes_of (attempts : list authenticatedAttempt) (evs : nat -> attempt_env) (order : list nat) : list authenticatedOutcome :=
  omap (fun i => (fun a => attempt_outcome i a (evs i)) <$> attempts !! i) order.
Definition raceAuthenticatedCandidates (ctx : option error) (attempts : list authenticatedAttempt) (evs : nat -> attempt_env) (order : list nat)
    : res (option session * Result) * list carrier_event :=
  if bool_decide (attempts = []) || (3 <? len attempts) then (Err (Sentinel ErrNoAuthenticatedCarrier), [])
  else
    let '(winner, failures, events) := receive (outcomes_of attempts evs order) None [] [] in
    match winner, ctx with
    | Some o, _ => (Ok (oc_authenticated o, mkResult (rs_Carrier (oc_selected o)) (rs_Kind (oc_selected o)) (negb (oc_index o =? 0)%nat)), events)
    | None, Some e => (Err e, events)
    | None, None => (Err (Join (Sentinel ErrNoAuthenticatedCarrier :: failures)), events)
    end.

(** ** Preferences *)

Record carrierPreference := mkPreference { pf_kind : Z; pf_recorded : Z }.
Definition carrierPreferenceCache : Type := gmap (list byte) carrierPreference.

Definition load (c : carrierPreferenceCache) (now : Z) (key : list byte) (ttl : Z) : option Z * carrierPreferenceCache :=
  if bool_decide (key = []) || (ttl <=? 0) then (None, c)
  else match c !! key with
       | Some p => if (now <? pf_recorded p) || (ttl <=? now - pf_recorded p) then (None, delete key c) else (Some (pf_kind p), c)
       | None => (None, delete key c)
       end.
Definition known_kind (kind : Z) : bool := (kind =? CarrierHTTP3) || (kind =? CarrierWebRTC) || (kind =? CarrierHTTPS).
Definition record (c : carrierPreferenceCache) (now : Z) (key : list byte) (kind : Z) : carrierPreferenceCache :=
  if bool_decide (key = []) || negb (known_kind kind) then c else <[key := mkPreference kind now]> c.
Definition invalidate (key : list byte) (c : carrierPreferenceCache) (kind : Z) : carrierPreferenceCache :=
  match c !! key with Some p => if pf_kind p =? kind then delete key c else c | None => c end.
Definition reset (c : carrierPreferenceCache) : carrierPreferenceCache := ∅.

Inductive ProbeMode := ProbeAuto | ProbeWebRTC | ProbeHTTPS | ProbeHTTP3.
#[global] Instance ProbeMode_eq_dec : EqDecision ProbeMode.
Proof. solve_decision. Defined.

Definition probeCarrierKind (mode : ProbeMode) : Z := match mode with ProbeHTTP3 => CarrierHTTP3 | ProbeWebRTC => CarrierWebRTC | ProbeHTTPS => CarrierHTTPS | ProbeAuto => 0 end.
Definition carrierProbeMode (kind : Z) : ProbeMode :=
  if kind =? CarrierHTTP3 then ProbeHTTP3 else if kind =? CarrierWebRTC then ProbeWebRTC else if kind =? CarrierHTTPS then ProbeHTTPS else ProbeAuto.

Definition appendUnique {A} `{EqDecision A} (order : list A) (mode : A) : list A := if decide (mode ∈ order) then order else order ++ [mode].
Definition clientCarrierOrder (http3Configured : bool) (cached : option Z) : list ProbeMode :=
  let order := match cached with Some kind => if http3Configured && (kind =? CarrierHTTPS) then [] else appendUnique [] (carrierProbeMode kind) | None => [] end in
  let order := if http3Configured then appendUnique order ProbeHTTP3 else order in
  appendUnique (appendUnique order ProbeWebRTC) ProbeHTTPS.

Record client_times := mkTimes { ct_http3 : Z; ct_webrtc : Z; ct_https : Z; ct_cacheTTL : Z }.
Definition clientCarrierTimeout (c : client_times) (mode : ProbeMode) : Z :=
  match mode with ProbeHTTP3 => ct_http3 c | ProbeWebRTC => ct_webrtc c | ProbeHTTPS => ct_https c | ProbeAuto => millisecond end.

Definition mode_attempt (index : nat) (mode : ProbeMode) : authenticatedAttempt :=
  mkAttempt (probeCarrierKind mode) (if (0 <? index)%nat then if decide (mode = ProbeHTTPS) then httpsFallbackDelay else Z.of_nat index * fastCarrierStagger else 0) true.

(** The race over the modes; a dial that returned an error invalidates the
    preference for its kind. *)
Definition raceClientCarriers (ctx : option error) (http3Configured : bool) (times : client_times) (key : list byte) (before after : Z) (cache : carrierPreferenceCache)
    (evs : nat -> attempt_env) (order : list nat) : res (option session * Result) * list carrier_event * carrierPreferenceCache :=
  let '(cached, cache) := load cache before key (ct_cacheTTL times) in
  let attempts := imap mode_attempt (clientCarrierOrder http3Configured cached) in
  let '(r, events) := raceAuthenticatedCandidates ctx attempts evs order in
  let failed := omap (fun i => a ← attempts !! i; if runs a (evs i) && bool_decide (is_Some (ae_err (evs i))) then Some (at_kind a) else None) order in
  let cache := foldl (invalidate key) cache failed in
  match r with
  | Err e => (Err e, events, cache)
  | Ok (authenticated, selected) => (Ok (authenticated, selected), events, record cache after key (rs_Kind selected))
  end.

(** ** The selector *)

Definition defaultWebRTCTimeout : Z := 5 * second.
Definition defaultHTTP3Timeout : Z := 5 * second.
Definition defaultHTTPSTimeout : Z := 10 * second.
Definition defaultCacheTTL : Z := 10 * 60 * second.

(** Of the dial functions only their presence; [se_cacheTime] is 0 for the zero
    time. *)
Record selector_config := mkSelectorConfig { sf_http3 : bool; sf_webRTC : bool; sf_https : bool; sf_http3Timeout : Z; sf_webRTCTimeout : Z; sf_httpsTimeout : Z; sf_cacheTTL : Z }.
Record Selector := mkSelector { se_config : selector_config; se_cacheKind : Z; se_cacheTime : Z }.

Definition or_default (value fallback : Z) : Z := if value =? 0 then fallback else value.
Definition NewSelector (c : selector_config) : res Selector :=
  if negb (sf_webRTC c) || negb (sf_https c) || (sf_http3Timeout c <? 0) || (sf_webRTCTimeout c <? 0) || (sf_httpsTimeout c <? 0) || (sf_cacheTTL c <? 0) then Err ErrSelectorConfig
  else Ok (mkSelector (mkSelectorConfig (sf_http3 c) (sf_webRTC c) (sf_https c) (or_default (sf_http3Timeout c) defaultHTTP3Timeout) (or_default (sf_webRTCTimeout c) defaultWebRTCTimeout)
             (or_default (sf_httpsTimeout c) defaultHTTPSTimeout) (or_default (sf_cacheTTL c) defaultCacheTTL)) 0 0).

Definition forget (s : Selector) : Selector := mkSelector (se_config s) 0 0.
Definition RecordFailure (s : Selector) (kind : Z) : Selector := if se_cacheKind s =? kind then forget s else s.
Definition recordSuccess (s : Selector) (now kind : Z) : Selector := mkSelector (se_config s) kind now.

Definition attemptOrder (s : Selector) (now : Z) : list Z * Selector :=
  let fresh := negb (se_cacheKind s =? 0) && (0 <=? now - se_cacheTime s) && (now - se_cacheTime s <? sf_cacheTTL (se_config s)) in
  let s := if fresh then s else forget s in
  let order := if se_cacheKind s =? 0 then [] else appendUnique [] (se_cacheKind s) in
  let order := if sf_http3 (se_config s) then appendUnique order CarrierHTTP3 else order in
  (appendUnique (appendUnique order CarrierWebRTC) CarrierHTTPS, s).

Definition dialer (s : Selector) (kind : Z) : Z :=
  if kind =? CarrierHTTP3 then sf_http3Timeout (se_config s) else if kind =? CarrierWebRTC then sf_webRTCTimeout (se_config s) else sf_httpsTimeout (se_config s).

(** One dial: the caller's context before it, the connection and the error, the
    error of the attempt's context, the caller's context after it, the clock. *)
Record dial_env := mkDialEnv { de_before : option error; de_connection : option carrier; de_err : option error; de_attempt : option error; de_after : option error; de_now : Z }.

Definition or_error (e f : option error) : option error := match e with Some _ => e | None => f end.

(** What a dial leaves: the events, a connection that is accepted or the error. *)
Definition dial_result (kind : Z) (ev : dial_env) : list carrier_event * (carrier + error) :=
  let err := or_error (de_err ev) (de_attempt ev) in
  match de_connection ev with
  | None => ([], inr (default (Sentinel ErrUnavailable) err))
  | Some c =>
      match err with
      | Some e => ([CarrierClosed (cx_id c)], inr e)
      | None => if cx_Kind c =? kind then ([], inl c) else ([CarrierClosed (cx_id c)], inr (Sentinel ErrCarrierKind))
      end
  end.

Fixpoint dial_loop (s : Selector) (index : nat) (order : list Z) (evs : nat -> dial_env) (failures : list error) (events : list carrier_event) : res Result * list carrier_event * Selector :=
  match order with
  | [] => (Err (Join (Sentinel ErrUnavailable :: failures)), events, s)
  | kind :: order =>
      let ev := evs index in
      match de_before ev with
      | Some e => (Err e, events, s)
      | None =>
          match dial_result kind ev with
          | (closed, inl c) => (Ok (mkResult (Some c) kind (negb (index =? 0)%nat)), events ++ closed, recordSuccess s (de_now ev) kind)
          | (closed, inr e) =>
              let s := RecordFailure s kind in
              match de_after ev with
              | Some e => (Err e, events ++ closed, s)
              | None => dial_loop s (S index) order evs (failures ++ [e]) (events ++ closed)
              end
          end
      end
  end.

Definition Dial (s : Selector) (now : Z) (evs : nat -> dial_env) : res Result * list carrier_event * Selector :=
  let '(order, s) := attemptOrder s now in dial_loop s 0 order evs [] [].

(** ** The race settles *)

(** Received outcomes: the first without an error wins, the others are closed in
    the order they came. *)
Lemma receive_won outcomes o failures events : receive outcomes (Some o) failures events = (Some o, (receive outcomes (Some o) failures events).1.2, events ++ concat (map closeAuthenticatedOutcome outcomes)).
Proof.
  revert failures events. induction outcomes as [|p outcomes IH]; intros failures events; cbn; [by rewrite app_nil_r|]. destruct (oc_err p); rewrite IH; cbn; by rewrite <- app_assoc.
Qed.

Lemma receive_cases outcomes failures events w f ev : receive outcomes None failures events = (w, f, ev) ->
  (w = None /\ Forall (fun o => is_Some (oc_err o)) outcomes /\ ev = events ++ concat (map closeAuthenticatedOutcome outcomes)) \/
  exists before o after, w = Some o /\ outcomes = before ++ o :: after /\ Forall (fun o => is_Some (oc_err o)) before /\ oc_err o = None /\ ev = events ++ concat (map closeAuthenticatedOutcome (before ++ after)).
Proof.
  revert failures events. induction outcomes as [|p outcomes IH]; intros failures events H; cbn in H.
  - injection H as <- <- <-. left. split_and!; [done|by apply Forall_nil|by rewrite app_nil_r].
  - destruct (oc_err p) as [e|] eqn:E.
    + destruct (IH _ _ H) as [(-> & Hf & ->)|(before & o & after & -> & -> & Hf & Ho & ->)].
      * left. split_and!; [done|apply Forall_cons; split; [by rewrite E|done]|]. cbn. by rewrite <- app_assoc.
      * right. exists (p :: before), o, after. split_and!; try done; [apply Forall_cons; split; [by rewrite E|done]|]. cbn. by rewrite <- app_assoc.
    + rewrite receive_won in H. injection H as <- _ <-. right. exists [], p, outcomes. split_and!; try done.
Qed.

(** An outcome without an error is a session and a carrier of the right kind. *)
Lemma outcome_valid index a ev : oc_err (attempt_outcome index a ev) = None -> valid_outcome (at_kind a) (oc_authenticated (attempt_outcome index a ev)) (oc_selected (attempt_outcome index a ev)) = true.
Proof. unfold attempt_outcome. intros H. repeat (case_match; cbn in *; try done). Qed.

Lemma valid_kind kind s r : valid_outcome kind s r = true -> rs_Kind r = kind.
Proof. unfold valid_outcome. destruct s, (rs_Carrier r); try done. intros ((H & _)%andb_true_iff & _)%andb_true_iff. by apply Z.eqb_eq. Qed.

(** Nothing that an outcome holds stays open: its multiplexer, which owns the
    carrier, or else its carrier. *)
Definition all_closed (outcomes : list authenticatedOutcome) (events : list carrier_event) : Prop := forall o, o ∈ outcomes ->
  (forall s, oc_authenticated o = Some s -> sn_Mux s = true -> MuxClosed (sn_id s) ∈ events) /\
  ((forall s, oc_authenticated o = Some s -> sn_Mux s = false) -> forall c, rs_Carrier (oc_selected o) = Some c -> CarrierClosed (cx_id c) ∈ events).

Lemma closed_all outcomes : all_closed outcomes (concat (map closeAuthenticatedOutcome outcomes)).
Proof.
  intros o Ho. assert (Hin : forall e, e ∈ closeAuthenticatedOutcome o -> e ∈ concat (map closeAuthenticatedOutcome outcomes)).
  { intros e He. apply list_elem_of_In, in_concat. exists (closeAuthenticatedOutcome o). split; [by apply in_map, list_elem_of_In|by apply list_elem_of_In]. }
  unfold closeAuthenticatedOutcome in Hin. split.
  - intros s Es Em. rewrite Es, Em in Hin. apply Hin. by left.
  - intros Hs c Ec. rewrite Ec in Hin. destruct (oc_authenticated o) as [s|]; [rewrite (Hs s eq_refl) in Hin|]; apply Hin; by left.
Qed.

(** *** Preferences *)

Definition cache_ok (c : carrierPreferenceCache) : Prop := forall key p, c !! key = Some p -> known_kind (pf_kind p) = true.

Lemma load_ok c now key ttl : cache_ok c -> cache_ok (load c now key ttl).2 /\ forall kind, (load c now key ttl).1 = Some kind -> known_kind kind = true.
Proof.
  intros H. unfold load. assert (Hd : cache_ok (delete key c)) by (intros k p Hk; apply lookup_delete_Some in Hk as [_ Hk]; by eapply H).
  repeat case_match; cbn; split; try done. intros kind [= <-]. by eapply H.
Qed.
Lemma invalidate_ok key c kind : cache_ok c -> cache_ok (invalidate key c kind).
Proof. intros H. unfold invalidate. repeat case_match; try done. intros k p' Hk. apply lookup_delete_Some in Hk as [_ Hk]. by eapply H. Qed.
Lemma invalidates_ok key kinds c : cache_ok c -> cache_ok (foldl (invalidate key) c kinds).
Proof. revert c. induction kinds as [|kind kinds IH]; intros c H; [done|]. cbn. by apply IH, invalidate_ok. Qed.
Lemma recorded_ok c now key kind : cache_ok c -> cache_ok (record c now key kind).
Proof. intros H. unfold record. destruct (_ || negb (known_kind kind)) eqn:E; [done|]. apply orb_false_iff in E as [_ E]. rewrite negb_false_iff in E. intros k p [[<- <-]|[_ Hk]]%lookup_insert_Some; [done|by eapply H]. Qed.

(** What was recorded is loaded while it is fresh. *)
Lemma load_record c after now key kind ttl : key <> [] -> known_kind kind = true -> after <= now < after + ttl -> (load (record c after key kind) now key ttl).1 = Some kind.
Proof.
  intros Hkey Hk Ht. unfold load, record, carrierPreferenceCache in *. rewrite bool_decide_false, Hk by done. cbn [orb negb]. destruct (ttl <=? 0) eqn:E0; [lia|]. rewrite lookup_insert_eq. cbn [pf_recorded pf_kind].
  by destruct ((now <? after) || (ttl <=? now - after)) eqn:E1; [lia|].
Qed.

(** The order has two or three modes, each once, HTTPS and WebRTC among them. *)
Lemma order_ok http3Configured cached : (forall kind, cached = Some kind -> known_kind kind = true) ->
  NoDup (clientCarrierOrder http3Configured cached) /\ (2 <= length (clientCarrierOrder http3Configured cached) <= 3)%nat /\
  ProbeWebRTC ∈ clientCarrierOrder http3Configured cached /\ ProbeHTTPS ∈ clientCarrierOrder http3Configured cached /\ Forall (fun mode => known_kind (probeCarrierKind mode) = true) (clientCarrierOrder http3Configured cached).
Proof.
  intros H. assert (Hc : clientCarrierOrder http3Configured cached ∈ [[ProbeHTTP3; ProbeWebRTC; ProbeHTTPS]; [ProbeWebRTC; ProbeHTTPS]; [ProbeWebRTC; ProbeHTTP3; ProbeHTTPS]; [ProbeHTTPS; ProbeWebRTC]]).
  { unfold clientCarrierOrder. destruct cached as [kind|]; [|destruct http3Configured; cbn; set_solver]. specialize (H kind eq_refl). unfold known_kind in H. apply orb_true_iff in H as [[->%Z.eqb_eq| ->%Z.eqb_eq]%orb_true_iff| ->%Z.eqb_eq]; destruct http3Configured; vm_compute; set_solver. }
  repeat (apply elem_of_cons in Hc as [->|Hc]); [..|by apply not_elem_of_nil in Hc]; (split_and!; [by apply (bool_decide_unpack _); vm_compute|cbn; lia|cbn; lia|set_solver|set_solver|by repeat (apply Forall_cons; split)]).
Qed.

Lemma order_first http3Configured kind : known_kind kind = true -> http3Configured = false \/ kind <> CarrierHTTPS -> head (clientCarrierOrder http3Configured (Some kind)) = Some (carrierProbeMode kind).
Proof.
  intros H Hn. unfold known_kind in H. apply orb_true_iff in H as [[->%Z.eqb_eq| ->%Z.eqb_eq]%orb_true_iff| ->%Z.eqb_eq]; destruct http3Configured; try (by vm_compute). by destruct Hn.
Qed.

(** C40: One carrier is kept.  Whatever the attempts of a race return and in
    whatever order their outcomes arrive: if the race returns a session, it is
    that of the first outcome that arrived without an error, session and carrier
    are of the kind that was asked for, and the sessions and carriers of all other
    outcomes have been closed, each once, and not those of the winner; for as
    long as the cache keeps it, its kind is tried first by the next race with the
    same key, unless it is HTTPS while HTTP/3 is configured.  If the race fails,
    everything has been closed. *)
Theorem race_settles ctx http3Configured times key before_ after_ cache evs order r events cache' : cache_ok cache ->
  order ≡ₚ seq 0 (length (clientCarrierOrder http3Configured (load cache before_ key (ct_cacheTTL times)).1)) ->
  raceClientCarriers ctx http3Configured times key before_ after_ cache evs order = (r, events, cache') ->
  let outcomes := outcomes_of (imap mode_attempt (clientCarrierOrder http3Configured (load cache before_ key (ct_cacheTTL times)).1)) evs order in
  length outcomes = length order /\ cache_ok cache' /\
  match r with
  | Ok (authenticated, selected) =>
      (exists before o after, outcomes = before ++ o :: after /\ Forall (fun o => is_Some (oc_err o)) before /\ authenticated = oc_authenticated o /\ rs_Carrier selected = rs_Carrier (oc_selected o) /\
        rs_UsedFallback selected = negb (oc_index o =? 0)%nat /\ events = concat (map closeAuthenticatedOutcome (before ++ after)) /\ all_closed (before ++ after) events) /\
      valid_outcome (rs_Kind selected) authenticated selected = true /\
      (forall now, key <> [] -> after_ <= now < after_ + ct_cacheTTL times -> http3Configured = false \/ rs_Kind selected <> CarrierHTTPS ->
        head (clientCarrierOrder http3Configured (load cache' now key (ct_cacheTTL times)).1) = Some (carrierProbeMode (rs_Kind selected)))
  | Err _ => Forall (fun o => is_Some (oc_err o)) outcomes /\ events = concat (map closeAuthenticatedOutcome outcomes) /\ all_closed outcomes events
  end.
Proof.
  intros Hc Ho H. unfold raceClientCarriers in H. destruct (load_ok cache before_ key (ct_cacheTTL times) Hc) as [Hc1 Hk]. destruct (load cache before_ key (ct_cacheTTL times)) as [cached cache1]. cbn [fst snd] in *.
  destruct (order_ok http3Configured cached Hk) as (_ & Hl & _ & _ & Hm). set (modes := clientCarrierOrder http3Configured cached) in *. set (attempts := imap mode_attempt modes) in *. cbv zeta.
  assert (Hla : length attempts = length modes) by apply length_imap.
  assert (Hat : forall i, i ∈ order -> exists a, attempts !! i = Some a /\ known_kind (at_kind a) = true).
  { intros i Hi. rewrite Ho in Hi. apply elem_of_seq in Hi. destruct (lookup_lt_is_Some_2 modes i) as [mode E]; [lia|]. exists (mode_attempt i mode). unfold attempts. rewrite list_lookup_imap, E. split; [done|]. exact (Forall_lookup_1 _ _ _ _ Hm E). }
  assert (Hout : length (outcomes_of attempts evs order) = length order /\ Forall (fun o => oc_err o = None -> exists kind, known_kind kind = true /\ valid_outcome kind (oc_authenticated o) (oc_selected o) = true) (outcomes_of attempts evs order)).
  { unfold outcomes_of. clear -Hat. induction order as [|i order IH]; [split; [done|by apply Forall_nil]|]. destruct (Hat i) as (a & Ea & Hka); [by left|]. destruct IH as [IH1 IH2]; [intros j Hj; apply Hat; by right|]. cbn [omap list_omap]. rewrite Ea. cbn [fmap option_fmap option_map length]. split; [by rewrite IH1|].
    apply Forall_cons. split; [|done]. intros He. exists (at_kind a). split; [done|]. by apply outcome_valid. }
  destruct Hout as [Hout1 Hout2]. split; [done|]. unfold raceAuthenticatedCandidates in H.
  assert (Hg : bool_decide (attempts = []) || (3 <? len attempts) = false).
  { apply orb_false_iff. split; [apply bool_decide_eq_false; intros E; rewrite E in Hla; cbn in Hla; lia|]. unfold len. apply Z.ltb_ge. lia. }
  rewrite Hg in H. destruct (receive _ None [] []) as [[w f] ev] eqn:Er. apply receive_cases in Er as [(-> & Hf & ->)|(before & o & after & -> & Eo & Hf & He & ->)].
  - destruct ctx; cbn [fst snd] in H; injection H as <- <- <-; (split; [by apply invalidates_ok|split_and!; [done|done|apply closed_all]]).
  - cbn [rs_Kind] in H. injection H as <- <- <-. split; [by apply recorded_ok, invalidates_ok|]. rewrite Eo in Hout2. apply Forall_app in Hout2 as [_ Hout2]. apply Forall_cons in Hout2 as [Hv _]. destruct (Hv He) as (kind & Hkk & Hvv).
    assert (Ek : rs_Kind (oc_selected o) = kind) by (by eapply valid_kind). cbn [rs_Kind]. rewrite Ek. split_and!.
    + exists before, o, after. split_and!; try done. apply closed_all.
    + unfold valid_outcome in *. cbn [rs_Carrier rs_Kind]. rewrite Ek in Hvv. exact Hvv.
    + intros now Hkey Ht Hne. rewrite load_record by done. by apply order_first.
Qed.

(** ** The selector settles *)

(** The connection that [Dial] returns has the kind that was asked for and is not
    closed, if the connections are distinct; all others it was given are closed. *)
Lemma dial_loop_settles s order evs : forall index failures events r closed s', dial_loop s index order evs failures events = (r, closed, s') ->
  exists tried, (tried <= length order)%nat /\
    match r with
    | Ok selected => exists c, rs_Carrier selected = Some c /\ cx_Kind c = rs_Kind selected /\ rs_Kind selected ∈ order /\ de_connection (evs (index + tried)%nat) = Some c /\ se_cacheKind s' = rs_Kind selected /\
        closed = events ++ omap (fun i => CarrierClosed ∘ cx_id <$> de_connection (evs i)) (seq index tried)
    | Err _ => closed = events ++ omap (fun i => CarrierClosed ∘ cx_id <$> de_connection (evs i)) (seq index tried)
    end.
Proof.
  revert s. induction order as [|kind order IH]; intros s index failures events r closed s' H; cbn in H.
  - injection H as <- <- <-. exists 0%nat. split; [done|]. cbn. by rewrite app_nil_r.
  - destruct (de_before (evs index)); [injection H as <- <- <-; exists 0%nat; split; [cbn; lia|]; cbn; by rewrite app_nil_r|].
    destruct (dial_result kind (evs index)) as [now_closed [c|e]] eqn:Ed.
    + injection H as <- <- <-. exists 0%nat. split; [cbn; lia|]. unfold dial_result in Ed. destruct (de_connection (evs index)) as [c'|] eqn:Ec; [|done]. destruct (or_error _ _); [done|]. destruct (cx_Kind c' =? kind) eqn:Ek; [|done]. injection Ed as <- <-.
      exists c'. cbn [rs_Carrier rs_Kind]. split_and!; [done|by apply Z.eqb_eq|by left|by rewrite Nat.add_0_r|done|done].
    + assert (Hn : now_closed = omap (fun i => CarrierClosed ∘ cx_id <$> de_connection (evs i)) [index]).
      { unfold dial_result in Ed. cbn. destruct (de_connection (evs index)) as [c'|]; [|by injection Ed as <- _]. destruct (or_error _ _); [by injection Ed as <- _|]. destruct (_ =? _); [done|]. by injection Ed as <- _. }
      destruct (de_after (evs index)) as [e'|].
      * injection H as <- <- <-. exists 1%nat. split; [cbn; lia|]. by rewrite Hn.
      * destruct (IH _ _ _ _ _ _ _ H) as (tried & Ht & Hr). exists (S tried). split; [cbn; lia|]. cbn [seq]. change (index :: seq (S index) tried) with ([index] ++ seq (S index) tried). rewrite omap_app, <- Hn.
        destruct r as [selected|e']; [|by rewrite Hr, <- app_assoc]. destruct Hr as (c & H1 & H2 & H3 & H4 & H5 & ->). exists c. split_and!; try done; [by right|by rewrite <- plus_n_Sm|by rewrite <- app_assoc].
Qed.

(** ** Examples *)

Module ChoiceExample.
Definition times : client_times := mkTimes (5 * second) (5 * second) (10 * second) (600 * second).
Definition key : list byte := [x61].
(** The WebRTC session arrives first, HTTP/3 after it, HTTPS is cancelled. *)
Definition evs (i : nat) : attempt_env :=
  match i with
  | 0%nat => mkAttemptEnv None (Some (mkSession 10 true CarrierHTTP3)) (mkResult (Some (mkCarrier 20 CarrierHTTP3)) CarrierHTTP3 false) None
  | 1%nat => mkAttemptEnv None (Some (mkSession 11 true CarrierWebRTC)) (mkResult (Some (mkCarrier 21 CarrierWebRTC)) CarrierWebRTC false) None
  | _ => mkAttemptEnv (Some (Sentinel ErrCanceled)) None no_result None
  end.
Definition result := raceClientCarriers None true times key 0 7 ∅ evs [1%nat; 0%nat; 2%nat].

Example webrtc_wins : result.1 = (Ok (Some (mkSession 11 true CarrierWebRTC), mkResult (Some (mkCarrier 21 CarrierWebRTC)) CarrierWebRTC true), [MuxClosed 10]) /\
  clientCarrierOrder true (load result.2 8 key (ct_cacheTTL times)).1 = [ProbeWebRTC; ProbeHTTP3; ProbeHTTPS].
Proof. by vm_compute. Qed.

(** A connection of the wrong kind is closed and the next carrier is tried. *)
Definition selector : res Selector := NewSelector (mkSelectorConfig false true true 0 0 0 0).
Definition dials (i : nat) : dial_env := mkDialEnv None (Some (mkCarrier i CarrierHTTPS)) None None None 3.
Example wrong_kind_closed : match selector with Ok s => (Dial s 1 dials).1 = (Ok (mkResult (Some (mkCarrier 1 CarrierHTTPS)) CarrierHTTPS true), [CarrierClosed 0]) | Err _ => False end.
Proof. by vm_compute. Qed.

Lemma race_settles_witness : cache_ok ∅ /\ exists o, oc_err o = None /\ o ∈ outcomes_of (imap mode_attempt (clientCarrierOrder true None)) evs [1%nat; 0%nat; 2%nat] /\ result.1.2 = [MuxClosed 10].
Proof.
  assert (Hc : cache_ok ∅) by (unfold cache_ok, carrierPreferenceCache; intros k p; by rewrite lookup_empty).
  assert (Ho : [1%nat; 0%nat; 2%nat] ≡ₚ seq 0 (length (clientCarrierOrder true (load ∅ 0 key (ct_cacheTTL times)).1))) by (vm_compute; apply Permutation_swap).
  destruct result as [[r events] cache'] eqn:E. destruct (race_settles None true times key 0 7 ∅ evs _ r events cache' Hc Ho E) as (_ & _ & H).
  assert (Er : r = Ok (Some (mkSession 11 true CarrierWebRTC), mkResult (Some (mkCarrier 21 CarrierWebRTC)) CarrierWebRTC true) /\ events = [MuxClosed 10]) by (assert (E2 := webrtc_wins); rewrite E in E2; destruct E2 as [[= -> ->] _]; done).
  destruct Er as [-> ->]. cbn [fst snd] in *. destruct H as ((before & o & after & Eo & _) & _). split; [exact Hc|]. exists (attempt_outcome 1 (mode_attempt 1 ProbeWebRTC) (evs 1)). split; [reflexivity|]. split; [vm_compute; set_solver|reflexivity].
Defined.
End ChoiceExample.
